(* ===== verification/_CoqProject ===== *)
-Q . S2P
Prelude.v
Bits.v
ByteOps.v
Hash.v
Search.v
Utf8.v
Base64.v
Base16.v
Base32.v
Str.v
JsonLex.v
JsonDoc.v
JsonCompose.v
JsonEscape.v
Ring.v
Select.v
Buffers.v
BoolArray.v
TopFreq.v
Streams.v
StrScan.v
StrEdit.v
StrBuf.v
JsonEdit.v
Dates.v
XmlScan.v
XmlText.v
XmlPath.v
XmlNav.v
XmlTree.v
XmlCompose.v
Threads.v
ProdCons.v
Droppable.v
AtomLock.v
Fence.v
Garbage.v
Mutable.v
ParWriter.v
Files.v
Packed.v
Zip.v
ZipInv.v
ZipOps.v
ZipDir.v
ZipArchive.v
Macro.v
MacroSpec.v
MacroDef.v
Cond.v
CondSpec.v
CondText.v
Paths.v
Include.v
IncludeSpec.v
HttpHead.v
HttpHeadSpec.v
HttpRecv.v
HttpSpec.v
HttpClient.v
