(* ===== verification/Prelude.v ===== *)
(** * CPCF core: a verification development

    CPCF is a C++ foundation library.  Its own code lies in src/core: [rt]
    (header-only runtime: bits, memory, hashing, strings, containers, JSON,
    XML), [os] (encodings, kernel services, threads, files), [inet] and [gl].
    This library models the computational core of [rt] and [os]: the code that
    every other part of the system calls and that does not talk to a device; and of
    [inet] the client's side of receiving an HTTP response.

    ** The model

    The platform is x86-64 Linux: [SIZE_T] and pointers have 64 bits, [int] and
    [UINT] 32, plain [char] is signed, memory is little-endian.  A machine
    integer is a [Z]; every arithmetic step whose overflow can matter is wrapped
    ([u8], [u16], [u32], [u64], [s8], [s32], this file).  Memory is a function
    from addresses to bytes ([mem]); [mset], [store], [load], [mem_bytes] access
    it, [holds m p l] says that the bytes [l] lie at [p], [wrote] that a function
    changed exactly a block.  C++ references to texts are pairs of addresses
    ([Str.ref]).  Element arrays of class templates are lists of values
    ([Select]) or of slots that may be raw ([Buffers]).  What C++ leaves
    undefined (an access outside the block, a shift by the width, a destructor
    run twice, a [memcpy] between overlapping places) has the result [None] where a
    theorem is about its absence, and so has an [ASSERT] that fails ([assert_]).
    Loops whose bound is not structural carry fuel; the theorems state the fuel
    that is enough, or the top-level definitions fix one (the length of the
    text or array plus one) and the theorems show that there is a result.

    ** Files

    - [Prelude] (this file): integers, bytes, memory, automation.
    - [Bits], [ByteOps], [Hash], [Search]: rt/runtime_base.h.  Population count,
      smearing, powers of two; fills, copies, byte order and swap; FNV, xxHash
      and [Randomizer]; [_LowerBound], [_BinarySearch], [ObjectPlaceHolder].
    - [Utf8], [Base64], [Base16], [Base32]: os/kernal_encode.cpp, the encoders
      and decoders with their length functions, Base32 over a digit table whose
      law is a hypothesis that the two tables of the code discharge.
    - [Str], [StrScan], [StrEdit], [StrBuf]: rt/string_type.h, rt/string_type_op.h.
      References, character sets, [itoa], [ToNumber], searches and [Split];
      the read-only operations (paths, URLs, lines, tokens, trims); the
      operations that rewrite a text in place; the growing [rt::String].
    - [JsonLex], [JsonDoc], [JsonCompose], [JsonEscape], [JsonEdit]: rt/json.h
      and rt/json.cpp.  [JsonLex] has the scanners, the search for the end of a
      value, and the reference syntax [jv]/[render] of the documents the
      composer writes; [JsonDoc] the iteration over fields and items and the
      path lookup; [JsonCompose] the [_JObj]/[_JVar]/[_JArray] writers;
      [JsonEscape] the two escaping functions; [JsonEdit] [Override],
      [RemoveKeys], typed values and [JsonBeautified].
    - [Select], [Buffers], [BoolArray], [Ring], [TopFreq], [Streams]:
      rt/buffer_type.h.  The algorithms of [Buffer_Ref]; [Buffer] and [BufferEx]
      with object lifetimes and failing allocations; [BooleanArray];
      [CircularBuffer] with its block headers in the byte buffer;
      [TopFrequentValues]; the byte streams over a block or a growing buffer.
    - [Dates]: os/kernel.h, os/kernel.cpp.  The calendar of [Timestamp], the
      packed [Date32], DOS dates, and dates read from and printed to text.
    - [XmlScan], [XmlText], [XmlPath], [XmlNav], [XmlTree], [XmlCompose]:
      rt/xml_xhtml.h, rt/xml_xhtml.cpp.  [XmlScan] has the scans for tags, node
      ends and attributes and the reference syntax [xitem]/[xrender] of the
      documents; [XmlText] the conversion of text and its escaping; [XmlPath]
      the XPath parser and its test of a node; [XmlNav] [XMLParser], the cursor;
      [XmlTree] the traversal theorems; [XmlCompose] [XMLComposer], over memory
      and over a file, and the round trip.  A parser reads texts that end in a
      NUL and are shorter than its fuel [n]; a file is the class
      [XmlCompose.File], whose laws [FileLaws] the stream of [Streams] satisfies.
    - [Threads], [ProdCons], [Droppable], [AtomLock], [Fence], [Garbage],
      [Mutable], [ParWriter]: os/multi_thread.h, os/multi_thread.cpp.  [Threads]
      has the systems: a shared state, a list of threads, one atomic step of one
      thread after another as a schedule says ([run]).  The others give the
      steps of [ProducerConsumerQueue], [DroppableQueue], [AtomicLock],
      [ThreadFence], [ThreadSafeMutable] with [_TSM_Updater] and
      [ParallelWriter], one constructor of [local] for each point between two
      accesses to shared fields; [Garbage] is [GarbageCollection], whose sweeps
      are serialised by its lock.

    - [Files], [Packed]: os/file_dir.h, os/file_dir.cpp.  The class [RtFile] is
      [rt::_File]; its instances are a file on a disk that has room for so many
      bytes, and [MemoryFileRef]; [Packed] is the archive of [FilePacked_Writer]
      and [FilePacked_Reader].
    - [Zip], [ZipInv], [ZipOps], [ZipDir], [ZipArchive]: os/file_zip.h,
      os/file_zip.cpp.  [Zip] has [FileZip], its headers as bytes and all its
      operations over a file; [ZipInv] the invariant (files and holes do not
      overlap, every file is in place) and adding; [ZipOps] the other operations
      and the stream of [AddFile]; [ZipDir] the directory that [Save] writes and
      [Open] reads; [ZipArchive] the archive as a list of names and files.
      Deflate, the checksum, the local time and [std::sort] are parameters.
    - [Paths]: [os::File::ResolveRelativePath] of os/file_dir.cpp, off Windows.
    - [Macro], [MacroSpec], [MacroDef], [Cond], [CondSpec], [CondText],
      [Include], [IncludeSpec]: os/precompiler.h, os/precompiler.cpp.  [Macro] has
      the tables, the search for tokens and the substitution; [MacroSpec] texts as
      trees of words and calls, what their expansion means and that the
      substitution gives it; [MacroDef] the definitions; [Cond] the directives,
      their expressions and the loop over the lines; [CondSpec] files as trees of
      groups and what they mean; [CondText] the lines of a text and examples;
      [Include] the merging of files and [Compile]; [IncludeSpec] that it ends.
      The value of an expression and the loading of a file are parameters.

    - [HttpHead], [HttpHeadSpec], [HttpRecv], [HttpSpec], [HttpClient]:
      inet/http_client.h, inet/http_client.cpp.  [HttpHead] is
      [ResponseHeader::ParseHeader] and [GetHeaderField]; [HttpHeadSpec] headers as
      lists of fields and what is read of them; [HttpRecv] the receive buffer of
      [HttpSession], which grows and gives way to what a callback takes, the loops
      that fill it, chunks and [WaitResponse]; [HttpSpec] the loops over bytes that
      arrive in any pieces; [HttpClient] what a client gets.  The connection is a list
      of the bytes still to come and of what each turn of a loop meets; the callbacks
      are parameters, with the class [Consumer] for those that say truly what they
      take.

    The components meet as in the code: the JSON files use the scanners of
    [Str] and [StrScan] ([Split], [ToNumber], [TrimSpace], character sets) and
    each other, [Dates] reads its fields with [Split], the XML files scan with
    [StrScan] and compose to the [OStream] of [Streams]; [Streams] grows its
    buffer with the rule of [Buffers]; [BoolArray] counts with [Bits.PopCount];
    [JsonEscape] encodes its units with [Utf8]; [Select] shuffles with the
    generator of [Hash]; [Mutable] hands its old objects to [Garbage]; [Packed] and [Zip] read
    and write through [Files], and [Zip] finds with the search of [Search];
    [Include] leaves comments out with [StrBuf] and finds files with [Paths];
    [HttpHead] reads its lines with [StrScan].

    ** What the theorems show

    - JSON: what the composer writes is read back, field by field and path by
      path ([JsonCompose.compose_then_parse]), also for arbitrary bytes through
      the escaping ([JsonEscape.escape_compose_parse_unescape]); iteration and
      lookup are exact on every document of the reference syntax, whatever lies
      around it; the writers stay inside the blocks they announce;
      [JsonBeautified] terminates and changes white space only; [Override] and
      [RemoveKeys] write exactly the fields they should.  The hypotheses
      ([jv_ok], [nice], [compose_ok]) are the limits of the code, and examples
      next to the theorems show what happens beyond them.
    - Buffers: every [BufferEx] operation refines the list operation it stands
      for and leaves no object unbuilt or destroyed twice
      ([Buffers.BufferEx_step]); failing allocations are reported
      ([Buffers.growth_failure]); the ring is a queue in every reachable state
      and drains ([Ring]); quick select ends inside the array with the element
      of the rank ([Select.FindTopKth_correct]); [BooleanArray] is a set of
      indices; the counters of [TopFrequentValues] keep their order and bounds.
    - Encodings: round trips of UTF-8, Base64, Base32, hexadecimal and URL
      escapes, the exact footprint of the encoders and bounds of the decoders.
    - Strings: numbers survive [itoa] and [ToNumber]; paths, lines, tokens and
      trims are the parts they should be; in-place edits touch nothing else;
      [rt::String] refines the list operations along any sequence of them, and
      its escaping is undone by its unescaping.
    - Dates: day arithmetic agrees with the calendar ([Date32_arithmetic]) and
      printed dates are read back.
    - XML: the cursor visits every element of a document of the reference syntax
      in document order with its own text ([XmlTree.document_order]); what
      [XMLComposer] writes for a tree is visited with the depths, names and
      attributes of the tree ([XmlCompose.compose_then_visit]); a composer over a
      file writes what one over memory keeps, never moves the file back, and a
      composed document is nested into another line by line.
    - Threads: for every schedule, the queues are runs of the queues they promise
      ([ProdCons.queue_refines], [Droppable.drop_queue_refines]), the lock has one
      holder, the fence lets nobody pass early, a reader of a
      [ThreadSafeMutable] keeps its object as long as the delay says
      ([Mutable.readers_keep]), the collector deletes each object once and when
      it is due, and a [ParallelWriter] taken down at any moment writes the finalized
      texts in order up to the first claim that has no size yet
      ([ParWriter.interval_written]).  What the classes leave uninitialised is a
      hypothesis: the indices of a [DroppableQueue], the [bIsPulsed] of an [Event].
    - Archives: a memory file does what a file of fixed length does
      ([Files.memory_file]); a packed archive is read back ([Packed]); whatever is
      done to a zip archive, on a disk that may fill up, its files stay what they
      were ([ZipArchive.archive_kept], [ZipArchive.AddFile_failed]), and what is
      saved is opened, found and extracted ([ZipArchive.zip_roundtrip]).
    - Preprocessor: for every acyclic table and every text of words and calls the
      substitution ends with the text that is meant ([MacroSpec.substitution_correct]),
      and a function is stored as it is defined ([MacroDef.define_function]); groups
      nested to any depth select the branches that are meant
      ([CondSpec.conditionals_correct]); whatever files include each other, merging
      them ends, compiles none twice, and is undefined only for comments that are not
      closed as the trimming needs and for names that lead out of the path's array
      ([IncludeSpec.merging_ends]).  These are
      stated for enough fuel: a fuel from which on the result is the same.
    - Paths: a path is resolved to the names that are left
      ([Paths.resolve_correct]), and resolving again changes nothing.
    - HTTP: a response of a given length or in chunks is received whole, in whatever
      pieces it arrives, and one of a given length that is cut is reported
      ([HttpClient.content_received], [HttpClient.chunks_received]).
    - Base: binary search, hashing within its input, swaps, place holders.

    Where the code departs from what it means to do, the theorem states what it
    does, and an example evaluates the departure.

    ** Not modelled

    Floating point ([ftoa], [ToNumber] of a float, small_math.h): the theorems
    would be about rounding, not about this code.  The expression templates of
    string concatenation: compile-time glue around [CopyTo].  Where
    another component writes to an [rt::String], the content is modelled and not
    the block, which is [StrBuf]'s.  [qsort] and the std:: containers: library
    code (the order of a hash map is a parameter).  Of rt/xml_xhtml the repair of
    HTML ([LoadHTML], [_ForceWellformed]), the conversion of CSS paths and the
    attributes read with [atoi] or as floating point are left out.  Of
    os/multi_thread [Thread] and [CriticalSection], over the platform's threads and
    mutexes, appear only as what the others rely on: a lock has one holder.  Of
    [Event] off Windows [Fence] models what the fence uses, waits that return without
    a signal included; [Pulse] and waits with a limit are left out.  Memory is
    sequentially consistent, and the write thread of [ParallelWriter] reads the buffer
    at one moment.  The timing and the statistics of
    [ParallelWriter] are not modelled.  Of os/file_dir the calls of the
    platform (opening by name, directories, attributes) are left out, and [fwrite]
    reaches the file at once: the buffering of stdio, which reports a full disk only
    when it is flushed, is not modelled; of
    os/file_zip the streams that deflate, the copying of directories, gzip and 7z.
    Of the preprocessor only the log and its switch are left out.  The clock, the
    time zone and the rest of os and gl are calls to the platform, around
    which little is computed.  Of inet the sockets, sending requests, the URL
    helpers, [HttpNavigator], the downloader and the HTTP server are left out.  core/ext is vendored. *)
From Stdlib Require Export String Ascii.
From Stdlib Require Export ZArith Lia Bool List Permutation Sorted.
From stdpp Require Export base numbers list.

#[global] Open Scope Z_scope.

(** ** Notations *)

Declare Scope cpcf_scope.
Delimit Scope cpcf_scope with cpcf.
Infix ".&" := Z.land (at level 52, left associativity) : cpcf_scope.
Infix ".|" := Z.lor (at level 54, left associativity) : cpcf_scope.
Infix ".^" := Z.lxor (at level 53, left associativity) : cpcf_scope.
Infix ".<<" := Z.shiftl (at level 51, left associativity) : cpcf_scope.
Infix ".>>" := Z.shiftr (at level 51, left associativity) : cpcf_scope.
#[global] Open Scope cpcf_scope.

(** ** Machine integers *)

(** An unsigned [w]-bit value is a [Z] in [0, 2^w); arithmetic wraps. *)
Definition wrap (w z : Z) : Z := z mod 2 ^ w.
Definition u8 := wrap 8.
Definition u16 := wrap 16.
Definition u32 := wrap 32.
Definition u64 := wrap 64.

(** Two's complement reading of the low [w] bits. *)
Definition swrap (w z : Z) : Z := (z + 2 ^ (w - 1)) mod 2 ^ w - 2 ^ (w - 1).
Definition s8 := swrap 8.
Definition s32 := swrap 32.
Definition s64 := swrap 64.

(** An assertion of the code: nothing goes on behind one that fails. *)
Definition assert_ (b : bool) : option unit := if b then Some tt else None.

Definition in_width (w z : Z) : Prop := 0 <= z < 2 ^ w.
Abbreviation is_byte b := (in_width 8 b).
Abbreviation bytes l := (Forall (in_width 8) l).

(** [_rotl] on a 32-bit value. *)
Definition rotl32 (x n : Z) : Z := u32 (x .<< n) .| (x .>> (32 - n)).

(** ** Little-endian views *)

Fixpoint le_bytes (n : nat) (z : Z) : list Z :=
  match n with
  | O => []
  | S k => u8 z :: le_bytes k (z .>> 8)
  end.

Fixpoint le_val (l : list Z) : Z :=
  match l with
  | [] => 0
  | b :: t => b + 256 * le_val t
  end.

(** ** Flat memories: an address is a [Z], a cell holds an unsigned byte *)

Definition mem := Z -> Z.

Definition mset (m : mem) (a v : Z) : mem :=
  fun x => if x =? a then v else m x.

Fixpoint mem_bytes (m : mem) (a : Z) (n : nat) : list Z :=
  match n with
  | O => []
  | S k => m a :: mem_bytes m (a + 1) k
  end.

Fixpoint mstore (m : mem) (a : Z) (l : list Z) : mem :=
  match l with
  | [] => m
  | b :: t => mstore (mset m a b) (a + 1) t
  end.

Definition load (n : nat) (m : mem) (a : Z) : Z := le_val (mem_bytes m a n).
Definition store (n : nat) (m : mem) (a v : Z) : mem := mstore m a (le_bytes n v).

(** The memory that holds the list [l] at [base] and [dflt] elsewhere. *)
Definition mem_of (dflt base : Z) (l : list Z) : mem :=
  fun a => if (base <=? a) && (a <? base + Z.of_nat (length l))
           then nth (Z.to_nat (a - base)) l dflt else dflt.

(** Two memories agree on [lo, hi). *)
Definition agree (lo hi : Z) (m1 m2 : mem) : Prop :=
  forall a, lo <= a < hi -> m1 a = m2 a.

(** The bytes of a character literal, for use in definitions. *)
Definition chr (a : Ascii.ascii) : Z := Z.of_N (Ascii.N_of_ascii a).
Definition str (s : String.string) : list Z := map chr (String.list_ascii_of_string s).

(** ** Automation *)

Create HintDb cpcf.
Create HintDb bits.

Ltac znia := Z.to_euclidean_division_equations; nia.
Ltac zlia := Z.to_euclidean_division_equations; lia.
(** The same with the divisions of [nat]. *)
Ltac natlia := zify; Z.to_euclidean_division_equations; lia.

(** Case analysis on the boolean comparisons of the goal and context. *)
Ltac bool_prop :=
  repeat match goal with
  | H : _ && _ = true |- _ => apply andb_true_iff in H; destruct H
  | H : _ || _ = false |- _ => apply orb_false_iff in H; destruct H
  | H : negb _ = true |- _ => apply negb_true_iff in H
  | H : negb _ = false |- _ => apply negb_false_iff in H
  | H : (_ <? _) = true |- _ => apply Z.ltb_lt in H
  | H : (_ <? _) = false |- _ => apply Z.ltb_ge in H
  | H : (_ <=? _) = true |- _ => apply Z.leb_le in H
  | H : (_ <=? _) = false |- _ => apply Z.leb_gt in H
  | H : (_ =? _) = true |- _ => apply Z.eqb_eq in H
  | H : (_ =? _) = false |- _ => apply Z.eqb_neq in H
  end.

(** A [Forall] over a literal list, element by element. *)
Ltac forall_list := repeat (apply Forall_cons_2; [try done|]); try apply Forall_nil_2.

(** Splits on every integer comparison of the goal, pruning as it goes. *)
Ltac case_cmp :=
  repeat (match goal with
  | |- context [?a <=? ?b] => destruct (Z.leb_spec a b)
  | |- context [?a <? ?b] => destruct (Z.ltb_spec a b)
  | |- context [?a =? ?b] => destruct (Z.eqb_spec a b)
  end; try (exfalso; lia)); cbn [andb orb negb].

(** Concatenations, nested to the right. *)
Ltac app_norm := repeat progress (rewrite <- ?app_assoc; cbn [app]).

Ltac case_bool :=
  match goal with
  | |- context [if ?b then _ else _] => destruct b eqn:?; bool_prop
  end.

(** ** Facts on machine integers *)

Lemma wrap_range w z : 0 <= w -> in_width w (wrap w z).
Proof. intros. apply Z.mod_pos_bound. apply Z.pow_pos_nonneg; lia. Qed.

Lemma wrap_id w z : in_width w z -> wrap w z = z.
Proof. apply Z.mod_small. Qed.

Lemma u8_range z : is_byte (u8 z).
Proof. apply wrap_range; lia. Qed.

Lemma u32_range z : in_width 32 (u32 z).
Proof. apply wrap_range; lia. Qed.

Lemma u64_range z : in_width 64 (u64 z).
Proof. apply wrap_range; lia. Qed.

Lemma s32_small z : - 2 ^ 31 <= z < 2 ^ 31 -> s32 z = z.
Proof. intros. unfold s32, swrap. rewrite Z.mod_small; lia. Qed.

Lemma u32_id x : 0 <= x < 2 ^ 32 -> u32 x = x.
Proof. apply wrap_id. Qed.
Lemma s64_id x : - 2 ^ 63 <= x < 2 ^ 63 -> s64 x = x.
Proof. intros H. unfold s64, swrap. rewrite Z.mod_small; lia. Qed.

Lemma u8_id b : is_byte b -> u8 b = b.
Proof. apply wrap_id. Qed.

#[export] Hint Resolve u8_range u32_range u64_range : cpcf.

(** Unfolds the width predicates and modular views so that [lia] sees them. *)
Ltac unwrap :=
  unfold in_width, u8, u16, u32, u64, s8, s32, s64, wrap, swrap in *;
  change (2 ^ 7) with 128 in *; change (2 ^ 8) with 256 in *; change (2 ^ (8 - 1)) with 128 in *;
  change (2 ^ 16) with 65536 in *;
  change (2 ^ 31) with 2147483648 in *; change (2 ^ (32 - 1)) with 2147483648 in *;
  change (2 ^ 32) with 4294967296 in *;
  change (2 ^ 63) with 9223372036854775808 in *;
  change (2 ^ (64 - 1)) with 9223372036854775808 in *;
  change (2 ^ 64) with 18446744073709551616 in *.

(** ** Facts on bit operations *)

Lemma land_mask n a : 0 <= n -> a .& (2 ^ n - 1) = a mod 2 ^ n.
Proof. intros. rewrite <- Z.land_ones by lia. f_equal. rewrite Z.ones_equiv. lia. Qed.

Lemma shr_div n a : 0 <= n -> a .>> n = a / 2 ^ n.
Proof. intros. apply Z.shiftr_div_pow2; lia. Qed.

Lemma shl_mul n a : 0 <= n -> a .<< n = a * 2 ^ n.
Proof. intros. apply Z.shiftl_mul_pow2; lia. Qed.

Lemma testbit_above n a i : in_width n a -> n <= i -> Z.testbit a i = false.
Proof.
  intros Ha Hi. destruct (decide (a = 0)) as [->|]; [apply Z.bits_0|].
  apply Z.bits_above_log2; [unfold in_width in *; lia|].
  apply Z.log2_lt_pow2; unfold in_width in *; [lia|].
  pose proof (Z.pow_le_mono_r 2 n i). lia.
Qed.

(** A mask that fits in [n] bits does not see the wrap-around at [n] bits. *)
Lemma land_wrap n a m : 0 <= n -> in_width n m -> wrap n a .& m = a .& m.
Proof.
  intros Hn Hm. unfold wrap. rewrite <- Z.land_ones by lia. rewrite <- Z.land_assoc. f_equal.
  rewrite Z.land_comm, Z.land_ones by lia. by apply Z.mod_small.
Qed.

Lemma lxor_width w a b : 0 < w -> in_width w a -> in_width w b -> in_width w (a .^ b).
Proof.
  intros Hw Ha Hb. unfold in_width in *.
  assert (H0 : 0 <= a .^ b) by (apply Z.lxor_nonneg; lia).
  split; [done|]. destruct (decide (a .^ b = 0)) as [->|]; [lia|].
  apply Z.log2_lt_pow2; [lia|]. pose proof (Z.log2_lxor a b ltac:(lia) ltac:(lia)).
  assert (forall c, 0 <= c < 2 ^ w -> Z.log2 c < w) as Hl.
  { intros c Hc. destruct (decide (c = 0)) as [->|]; [simpl; lia|]. apply Z.log2_lt_pow2; lia. }
  pose proof (Hl a Ha). pose proof (Hl b Hb). lia.
Qed.

Lemma shr_width w a n : 0 <= n -> in_width w a -> in_width w (a .>> n).
Proof.
  intros Hn [H0 H1]. rewrite shr_div by lia. pose proof (Z.pow_pos_nonneg 2 n ltac:(lia) Hn).
  split; [apply Z.div_pos; lia|]. apply Z.div_lt_upper_bound; [lia|]. nia.
Qed.

Lemma land_disjoint n a b : 0 <= n -> in_width n b -> (a * 2 ^ n) .& b = 0.
Proof.
  intros Hn Hb. apply Z.bits_inj'. intros i Hi. rewrite Z.bits_0, Z.land_spec.
  destruct (decide (i < n)).
  - rewrite Z.mul_pow2_bits_low by lia. done.
  - rewrite (testbit_above n b) by (done || lia). apply andb_false_r.
Qed.

(** Or-ing a value into the zero bits below [n] is an addition. *)
Lemma lor_low n a b : 0 <= n -> in_width n b -> (a * 2 ^ n) .| b = a * 2 ^ n + b.
Proof.
  intros Hn Hb. pose proof (land_disjoint n a b Hn Hb).
  pose proof (Z.add_lor_land (a * 2 ^ n) b). lia.
Qed.

Lemma lor_low' n a b : 0 <= n -> in_width n b -> b .| (a * 2 ^ n) = a * 2 ^ n + b.
Proof. intros. rewrite Z.lor_comm. by apply lor_low. Qed.

(** Or-ing into the field above [n] leaves the low part alone. *)
Lemma lor_field n x y lo : 0 <= n -> in_width n lo ->
  (x * 2 ^ n + lo) .| (y * 2 ^ n) = (x .| y) * 2 ^ n + lo.
Proof.
  intros Hn Hl. rewrite <- (lor_low n x lo), <- (lor_low n (x .| y) lo) by done.
  rewrite <- !shl_mul, Z.shiftl_lor by done. rewrite <- !Z.lor_assoc. f_equal. apply Z.lor_comm.
Qed.

(** A mask that starts at bit [n]. *)
Lemma land_shl n z k : 0 <= n -> z .& (k .<< n) = ((z .>> n) .& k) .<< n.
Proof.
  intros Hn. apply Z.bits_inj'. intros i Hi. rewrite Z.land_spec, !Z.shiftl_spec by done.
  destruct (decide (i < n)).
  - rewrite !(Z.testbit_neg_r _ (i - n)) by lia. apply andb_false_r.
  - rewrite Z.land_spec, Z.shiftr_spec by lia. by replace (i - n + n) with i by lia.
Qed.

Lemma land_byte_split m a b ma mb :
  is_byte a -> is_byte ma -> m = ma + 256 * mb ->
  (a + 256 * b) .& m = (a .& ma) + 256 * (b .& mb).
Proof.
  intros Ha Hm ->.
  assert (E : forall x y, is_byte x -> x + 256 * y = (y * 2 ^ 8) .| x).
  { intros. rewrite lor_low by (done || lia). lia. }
  assert (Hl : is_byte (a .& ma)).
  { split; [apply Z.land_nonneg; left; apply Ha|].
    destruct (decide (a .& ma = 0)) as [->|]; [lia|].
    apply Z.log2_lt_pow2; [pose proof (proj2 (Z.land_nonneg a ma) (or_introl (proj1 Ha))); lia|].
    pose proof (Z.log2_land a ma (proj1 Ha) (proj1 Hm)).
    destruct (decide (a = 0)) as [->|]; [rewrite Z.land_0_l in *; lia|].
    assert (Z.log2 a < 8) by (apply Z.log2_lt_pow2; unfold in_width in *; lia). lia. }
  rewrite !E by done.
  apply Z.bits_inj'. intros i Hi.
  rewrite Z.land_spec, !Z.lor_spec, Z.land_spec, !Z.mul_pow2_bits by lia.
  rewrite Z.land_spec.
  destruct (decide (i < 8)).
  - rewrite !(Z.testbit_neg_r _ (i - 8)) by lia. rewrite ?orb_false_l, ?andb_false_l. done.
  - rewrite !(testbit_above 8 _ i) by (done || lia). rewrite !orb_false_r. done.
Qed.

(** A fact that holds of each of the 256 byte values by evaluation holds of
    every byte. *)
Lemma byte_forall (P : Z -> bool) :
  forallb P (seqZ 0 256) = true -> forall b, is_byte b -> P b = true.
Proof.
  intros HP b Hb. rewrite forallb_forall in HP. apply HP.
  apply list_elem_of_In, elem_of_seqZ. unwrap. lia.
Qed.

(** The same for pairs of bytes. *)
Definition all_bytes2 (P : Z -> Z -> bool) : bool :=
  forallb (fun a => forallb (P a) (seqZ 0 256)) (seqZ 0 256).

Lemma byte2_forall (P : Z -> Z -> bool) :
  all_bytes2 P = true -> forall a b, is_byte a -> is_byte b -> P a b = true.
Proof.
  intros HP a b Ha Hb. apply byte_forall; [|done].
  by apply (byte_forall (fun a => forallb (P a) (seqZ 0 256))).
Qed.

Fixpoint zlist_eqb (a b : list Z) : bool :=
  match a, b with
  | [], [] => true
  | x :: a, y :: b => (x =? y) && zlist_eqb a b
  | _, _ => false
  end.

Lemma zlist_eqb_eq a b : zlist_eqb a b = true -> a = b.
Proof.
  revert b. induction a as [|x a IH]; intros [|y b] H; cbn in H; try done.
  apply andb_true_iff in H as [Hx H]. apply Z.eqb_eq in Hx. subst. f_equal. by apply IH.
Qed.

Lemma zlist_eqb_refl a : zlist_eqb a a = true.
Proof. induction a; cbn; [done|]. by rewrite Z.eqb_refl. Qed.

(** Lists taken three, or five, elements at a time. *)
Lemma list_ind3 {A} (P : list A -> Prop) :
  (forall l, (length l < 3)%nat -> P l) ->
  (forall a b c l, P l -> P (a :: b :: c :: l)) -> forall l, P l.
Proof.
  intros H0 H1. fix IH 1. intros [|a [|b [|c l]]]; try (apply H0; cbn; lia). apply H1, IH.
Qed.

Lemma list_ind4 {A} (P : list A -> Prop) :
  (forall l, (length l < 4)%nat -> P l) ->
  (forall a b c d l, P l -> P (a :: b :: c :: d :: l)) -> forall l, P l.
Proof.
  intros H0 H1. fix IH 1. intros [|a [|b [|c [|d l]]]]; try (apply H0; cbn; lia). apply H1, IH.
Qed.

Lemma list_ind5 {A} (P : list A -> Prop) :
  (forall l, (length l < 5)%nat -> P l) ->
  (forall a b c d e l, P l -> P (a :: b :: c :: d :: e :: l)) -> forall l, P l.
Proof.
  intros H0 H1. fix IH 1. intros [|a [|b [|c [|d [|e l]]]]]; try (apply H0; cbn; lia). apply H1, IH.
Qed.

(** ** Facts on little-endian views *)

Lemma length_le_bytes n z : length (le_bytes n z) = n.
Proof. revert z. induction n; intros; simpl; auto. Qed.

Lemma le_bytes_bytes n z : bytes (le_bytes n z).
Proof. revert z. induction n; intros; simpl; constructor; auto with cpcf. Qed.

Lemma le_val_range l : bytes l -> 0 <= le_val l < 256 ^ Z.of_nat (length l).
Proof.
  induction 1 as [|b l Hb Hl IH]; simpl length; simpl le_val; [lia|].
  rewrite Nat2Z.inj_succ, Z.pow_succ_r by lia. unwrap. lia.
Qed.

Lemma le_bytes_val l : bytes l -> le_bytes (length l) (le_val l) = l.
Proof.
  induction 1 as [|b l Hb Hl IH]; simpl; [done|].
  pose proof (le_val_range l Hl).
  rewrite shr_div by lia. change (2 ^ 8) with 256. unwrap. f_equal.
  - zlia.
  - etrans; [|exact IH]. f_equal. zlia.
Qed.

Lemma le_val_bytes n z : le_val (le_bytes n z) = z mod 2 ^ (8 * Z.of_nat n).
Proof.
  revert z. induction n as [|n IH]; intros z; cbn [le_bytes le_val].
  - by rewrite Z.mul_0_r, Z.mod_1_r.
  - rewrite IH, shr_div by lia. unfold u8, wrap.
    replace (8 * Z.of_nat (S n)) with (8 + 8 * Z.of_nat n) by lia.
    rewrite Z.pow_add_r, Z.rem_mul_r by lia. lia.
Qed.

(** A right shift by whole bytes drops them. *)
Lemma le_val_shr k l : bytes l -> le_val l .>> (8 * Z.of_nat k) = le_val (drop k l).
Proof.
  intros Hl. revert k. induction Hl as [|b l Hb Hl IH]; intros k.
  { rewrite drop_nil. apply Z.shiftr_0_l. }
  destruct k as [|k]; [apply Z.shiftr_0_r|]. cbn [drop]. rewrite <- IH, !shr_div by lia.
  replace (8 * Z.of_nat (S k)) with (8 + 8 * Z.of_nat k) by lia.
  rewrite Z.pow_add_r, <- Z.div_div by lia. f_equal. cbn [le_val]. unwrap. zlia.
Qed.

Lemma u64_le_val l : bytes l -> (length l <= 8)%nat -> u64 (le_val l) = le_val l.
Proof.
  intros Hl Hn. apply wrap_id. pose proof (le_val_range l Hl) as Hr. unfold in_width.
  assert (256 ^ Z.of_nat (length l) <= 256 ^ 8) by (apply Z.pow_le_mono_r; lia).
  change (256 ^ 8) with (2 ^ 64) in *. lia.
Qed.

Lemma length_mem_bytes m a n : length (mem_bytes m a n) = n.
Proof. revert a. induction n; intros; simpl; auto. Qed.

Lemma mem_bytes_agree n m1 m2 a :
  agree a (a + Z.of_nat n) m1 m2 -> mem_bytes m1 a n = mem_bytes m2 a n.
Proof.
  revert a. induction n; intros a H; simpl; [done|].
  f_equal; [apply H; lia|]. apply IHn. intros x Hx. apply H. lia.
Qed.

Lemma load_agree n m1 m2 a :
  agree a (a + Z.of_nat n) m1 m2 -> load n m1 a = load n m2 a.
Proof. intros. unfold load. f_equal. by apply mem_bytes_agree. Qed.

Lemma agree_sub lo hi lo' hi' m1 m2 :
  agree lo hi m1 m2 -> lo <= lo' -> hi' <= hi -> agree lo' hi' m1 m2.
Proof. intros H ? ? a ?. apply H. lia. Qed.

(** ** Facts on memory updates *)

Lemma mset_eq m a v : mset m a v a = v.
Proof. unfold mset. by rewrite Z.eqb_refl. Qed.

Lemma mset_ne m a v x : x <> a -> mset m a v x = m x.
Proof. unfold mset. intros. by rewrite (proj2 (Z.eqb_neq x a)). Qed.

Lemma mstore_out m a l x :
  x < a \/ a + Z.of_nat (length l) <= x -> mstore m a l x = m x.
Proof.
  revert m a. induction l as [|b l IH]; intros m a H; simpl; [done|].
  simpl length in H. rewrite IH by lia. apply mset_ne. lia.
Qed.

Lemma mstore_in m a l i d :
  0 <= i < Z.of_nat (length l) -> mstore m a l (a + i) = nth (Z.to_nat i) l d.
Proof.
  revert m a i. induction l as [|b l IH]; intros m a i H; simpl length in *; [lia|].
  simpl mstore. destruct (decide (i = 0)) as [->|].
  - rewrite mstore_out by lia. rewrite Z.add_0_r. apply mset_eq.
  - replace (a + i) with (a + 1 + (i - 1)) by lia. rewrite IH by lia.
    replace (Z.to_nat i) with (S (Z.to_nat (i - 1))) by lia. done.
Qed.

Lemma mstore_app m a l1 l2 :
  mstore m a (l1 ++ l2) = mstore (mstore m a l1) (a + Z.of_nat (length l1)) l2.
Proof.
  revert m a. induction l1 as [|b l1 IH]; intros m a; cbn [mstore app length].
  - by rewrite Z.add_0_r.
  - rewrite IH. f_equal. lia.
Qed.

Lemma mem_bytes_mstore m a l : mem_bytes (mstore m a l) a (length l) = l.
Proof.
  revert m a. induction l as [|b l IH]; intros; simpl; [done|].
  f_equal; [|apply IH]. rewrite mstore_out by lia. apply mset_eq.
Qed.

Lemma mem_bytes_app m a n k :
  mem_bytes m a (n + k) = mem_bytes m a n ++ mem_bytes m (a + Z.of_nat n) k.
Proof.
  revert a. induction n; intros a; simpl.
  - by rewrite Z.add_0_r.
  - f_equal. rewrite IHn. replace (a + 1 + Z.of_nat n) with (a + Z.of_nat (S n)) by lia. done.
Qed.

(** [m] holds the bytes [l] at [p]. *)
Definition holds (m : mem) (p : Z) (l : list Z) : Prop := mem_bytes m p (length l) = l.

Lemma holds_app m p l1 l2 :
  holds m p (l1 ++ l2) -> holds m p l1 /\ holds m (p + Z.of_nat (length l1)) l2.
Proof.
  unfold holds. rewrite length_app, mem_bytes_app. intros H.
  apply app_inj_1 in H; [done|]. apply length_mem_bytes.
Qed.

Lemma holds_join m p l1 l2 :
  holds m p l1 -> holds m (p + Z.of_nat (length l1)) l2 -> holds m p (l1 ++ l2).
Proof. unfold holds. rewrite length_app, mem_bytes_app. by intros -> ->. Qed.

Lemma holds_nth m p l k d : holds m p l -> (k < length l)%nat -> m (p + Z.of_nat k) = nth k l d.
Proof.
  unfold holds. revert p k. induction l as [|x l IH]; intros p k H Hk; cbn in Hk; [lia|].
  cbn [length mem_bytes] in H. injection H as Hx H. destruct k as [|k].
  - by rewrite Z.add_0_r.
  - cbn [nth]. rewrite <- (IH (p + 1)) by (done || lia). f_equal. lia.
Qed.

Lemma holds_cons_inv m p c l : holds m p (c :: l) -> m p = c /\ holds m (p + 1) l.
Proof. unfold holds. cbn [length mem_bytes]. intros H. injection H as H1 H2. auto. Qed.

Lemma holds_mstore m a l : holds (mstore m a l) a l.
Proof. unfold holds. apply mem_bytes_mstore. Qed.

Lemma holds_ext m1 m2 p l : (forall a, m1 a = m2 a) -> holds m2 p l -> holds m1 p l.
Proof.
  intros E H. unfold holds in *. rewrite <- H at 2. apply mem_bytes_agree. intros a _. apply E.
Qed.

(** ** Contiguous writes *)

(** [m'] is [m] with [l] written at [p]. *)
Definition wrote (m : mem) (p : Z) (l : list Z) (m' : mem) : Prop :=
  forall a, m' a = mstore m p l a.

Lemma mstore_ext m1 m2 l : forall p, (forall a, m1 a = m2 a) -> forall a, mstore m1 p l a = mstore m2 p l a.
Proof.
  revert m1 m2. induction l as [|c l IH]; intros m1 m2 p E a; [apply E|]. cbn [mstore]. apply IH.
  intros x. unfold mset. by rewrite E.
Qed.

Lemma wrote_nil m p : wrote m p [] m.
Proof. intros a. done. Qed.

Lemma wrote_mstore m p l : wrote m p l (mstore m p l).
Proof. intros a. done. Qed.

Lemma wrote_mset m p c : wrote m p [c] (mset m p c).
Proof. intros a. done. Qed.

Lemma wrote_app m p l1 m1 q l2 m2 : wrote m p l1 m1 -> q = p + Z.of_nat (length l1) ->
  wrote m1 q l2 m2 -> wrote m p (l1 ++ l2) m2.
Proof.
  intros H1 -> H2 a. rewrite H2, mstore_app. apply mstore_ext. exact H1.
Qed.

Lemma wrote_snoc m p l m1 q c : wrote m p l m1 -> q = p + Z.of_nat (length l) ->
  wrote m p (l ++ [c]) (mset m1 q c).
Proof. intros H E. exact (wrote_app m p l m1 q [c] _ H E (wrote_mset m1 q c)). Qed.

Lemma wrote_text m p l m1 q t : wrote m p l m1 -> q = p + Z.of_nat (length l) ->
  wrote m p (l ++ t) (mstore m1 q t).
Proof. intros H E. exact (wrote_app m p l m1 q t _ H E (wrote_mstore m1 q t)). Qed.

Lemma wrote_holds m p l m' : wrote m p l m' -> holds m' p l.
Proof. intros H. apply (holds_ext m' (mstore m p l)); [exact H|apply holds_mstore]. Qed.

Lemma wrote_out m p l m' a : wrote m p l m' -> a < p \/ p + Z.of_nat (length l) <= a -> m' a = m a.
Proof. intros H Ha. rewrite H. by apply mstore_out. Qed.

(** What lies outside a write is still there. *)
Lemma holds_out m m' p l : holds m p l ->
  (forall a, p <= a < p + Z.of_nat (length l) -> m' a = m a) -> holds m' p l.
Proof.
  intros H Ha. unfold holds. rewrite (mem_bytes_agree _ m' m); [exact H|]. intros a Hin. apply Ha. lia.
Qed.

(** Loads and stores of whole words. *)
Lemma load_store n m a v : 0 <= v < 2 ^ (8 * Z.of_nat n) -> load n (store n m a v) a = v.
Proof.
  intros Hv. unfold load, store. pose proof (mem_bytes_mstore m a (le_bytes n v)) as H.
  rewrite length_le_bytes in H. rewrite H, le_val_bytes. by apply Z.mod_small.
Qed.

Lemma store_out n m a v x : x < a \/ a + Z.of_nat n <= x -> store n m a v x = m x.
Proof. intros. apply mstore_out. by rewrite length_le_bytes. Qed.

#[export] Hint Rewrite length_le_bytes length_mem_bytes : cpcf.
#[export] Hint Resolve le_bytes_bytes load_agree mem_bytes_agree : cpcf.
