(* ===== verification/Bits.v ===== *)
(** Bit-level helpers of core/rt/runtime_base.h: population count, bit
    smearing, the largest power of two below a value and the leading and
    trailing zero counts. *)
From S2P Require Import Prelude.

(** ** Definitions *)

Definition m1 : Z := 0x5555555555555555.
Definition m2 : Z := 0x3333333333333333.
Definition m4 : Z := 0x0f0f0f0f0f0f0f0f.

(** [PopCount(ULONGLONG)]: every intermediate is a 64-bit value. *)
Definition PopCount (x : Z) : Z :=
  let x := u64 (x - ((x .>> 1) .& m1)) in
  let x := u64 ((x .& m2) + ((x .>> 2) .& m2)) in
  let x := u64 (x + (x .>> 4)) .& m4 in
  let x := u64 (x + (x .>> 8)) in
  let x := u64 (x + (x .>> 16)) in
  let x := u64 (x + (x .>> 32)) in
  x .& 0x7f.

(** [BitSmudgeRight] for WORD, UINT and ULONGLONG; the last one casts its
    result to WORD, as the source does. *)
Definition BitSmudgeRight16 (x : Z) : Z :=
  let r := x .| (x .>> 1) in
  let r := r .| (r .>> 2) in let r := r .| (r .>> 4) in let r := r .| (r .>> 8) in
  u16 r.

Definition BitSmudgeRight32 (x : Z) : Z :=
  let r := x .| (x .>> 1) in
  let r := r .| (r .>> 2) in let r := r .| (r .>> 4) in let r := r .| (r .>> 8) in
  let r := r .| (r .>> 16) in
  r.

Definition BitSmudgeRight64 (x : Z) : Z :=
  let r := x .| (x .>> 1) in
  let r := r .| (r .>> 2) in let r := r .| (r .>> 4) in let r := r .| (r .>> 8) in
  let r := r .| (r .>> 16) in let r := r .| (r .>> 32) in
  u16 r.

(** The [while(within!=1)] loop of [MaxPower2Within], with [ret] a UINT. *)
Fixpoint MaxPower2Within_loop (fuel : nat) (ret within : Z) : option Z :=
  match fuel with
  | O => None
  | S k => if within =? 1 then Some ret
           else MaxPower2Within_loop k (u32 (ret .<< 1)) (within .>> 1)
  end.

Definition MaxPower2Within (within : Z) : option Z :=
  if within =? 0 then Some 0 else MaxPower2Within_loop 64 1 within.

(** GCC's [__builtin_clz]/[__builtin_ctz]/[__builtin_popcount] on a nonzero
    [w]-bit argument. *)
Definition builtin_clz (w x : Z) : Z := w - 1 - Z.log2 x.

Fixpoint builtin_ctz (fuel : nat) (x : Z) : Z :=
  match fuel with
  | O => 0
  | S k => if Z.odd x then 0 else 1 + builtin_ctz k (x .>> 1)
  end.

Fixpoint ones (n : nat) (x : Z) : Z :=
  match n with
  | O => 0
  | S k => x mod 2 + ones k (x / 2)
  end.

Definition LeadingZeroBits16 (x : Z) : Z := if x =? 0 then 16 else builtin_clz 32 x - 16.
Definition LeadingZeroBits32 (x : Z) : Z := if x =? 0 then 32 else builtin_clz 32 x.
Definition LeadingZeroBits64 (x : Z) : Z := if x =? 0 then 64 else builtin_clz 64 x.
Definition TrailingZeroBits16 (x : Z) : Z := if x =? 0 then 16 else builtin_ctz 32 x.
Definition TrailingZeroBits32 (x : Z) : Z := if x =? 0 then 32 else builtin_ctz 32 x.
Definition TrailingZeroBits64 (x : Z) : Z := if x =? 0 then 64 else builtin_ctz 64 x.

(** Specification vocabulary: the byte-wise image of each [PopCount] step, and
    "[r] is [x] smeared right over [k] positions". *)
Definition pc1 (b : Z) : Z := b - ((b .>> 1) .& 0x55).
Definition pc2 (b : Z) : Z := (b .& 0x33) + ((b .>> 2) .& 0x33).
Definition pc3 (b : Z) : Z := (b + (b .>> 4)) .& 0x0f.

Definition smeared (k x r : Z) : Prop :=
  forall i, 0 <= i -> Z.testbit r i = true <-> exists j, 0 <= j < k /\ Z.testbit x (i + j) = true.

(** ** Population count *)

(** A mask with [k] clear top bits ignores what a shift by [k] brings in from
    the next byte. *)
Lemma shift_mask k c m b v :
  0 <= k <= 8 -> is_byte b -> in_width (8 - k) c ->
  ((b + 256 * v) .>> k) .& (c + 256 * m) = ((b .>> k) .& c) + 256 * ((v .>> k) .& m).
Proof.
  intros Hk Hb Hc. rewrite !shr_div by lia.
  set (q := 2 ^ k). set (h := 2 ^ (8 - k)).
  assert (Hqh : q * h = 256) by (unfold q, h; rewrite <- Z.pow_add_r by lia; by replace (k + (8 - k)) with 8 by lia).
  assert (Hq : 0 < q) by (apply Z.pow_pos_nonneg; lia).
  assert (Hh : 0 < h) by (apply Z.pow_pos_nonneg; lia).
  assert (Hbq : in_width (8 - k) (b / q)).
  { unwrap. fold h. split; [apply Z.div_pos; lia|]. apply Z.div_lt_upper_bound; lia. }
  pose proof (Z.mod_pos_bound v q Hq) as Hv.
  replace ((b + 256 * v) / q) with (((v mod q) * h + b / q) + 256 * (v / q)).
  2: { pose proof (Z.div_mod v q ltac:(lia)) as Ev.
       set (Q := v / q) in *. set (R := v mod q) in *.
       replace (b + 256 * v) with (b + (R * h + 256 * Q) * q) by (rewrite Ev, <- Hqh; ring).
       rewrite Z.div_add by lia. ring. }
  assert (Hc8 : is_byte c).
  { unwrap. fold h in Hc. nia. }
  assert (Ha : is_byte ((v mod q) * h + b / q)).
  { unwrap. fold h in Hbq. nia. }
  rewrite (land_byte_split _ _ (v / q) c m) by done.
  f_equal. unfold h. rewrite <- lor_low by (done || lia).
  rewrite Z.land_lor_distr_l, land_disjoint by (done || lia). apply Z.lor_0_l.
Qed.

Lemma pc1_step l :
  bytes l ->
  le_val l - ((le_val l .>> 1) .& le_val (repeat 0x55 (length l))) = le_val (map pc1 l).
Proof.
  induction 1 as [|b l Hb Hl IH]; simpl; [done|].
  rewrite shift_mask by (done || (unwrap; simpl; lia)). unfold pc1 at 1. lia.
Qed.

Lemma pc2_step l :
  bytes l ->
  (le_val l .& le_val (repeat 0x33 (length l))) +
  ((le_val l .>> 2) .& le_val (repeat 0x33 (length l))) = le_val (map pc2 l).
Proof.
  induction 1 as [|b l Hb Hl IH]; simpl; [done|].
  rewrite shift_mask by (done || (unwrap; simpl; lia)).
  rewrite (land_byte_split _ b (le_val l) 0x33 (le_val (repeat 0x33 (length l)))) by (done || (unwrap; lia)).
  unfold pc2 at 1. lia.
Qed.

(** Both nibbles of the byte are at most 4. *)
Definition nibbles4 (b : Z) : Prop := 0 <= b < 256 /\ b mod 16 <= 4 /\ b / 16 <= 4.

Lemma nibbles4_head l : Forall nibbles4 l -> le_val l mod 16 <= 4.
Proof.
  destruct 1 as [|b l Hb Hl]; simpl; [done|]. unfold nibbles4 in Hb.
  replace (b + 256 * le_val l) with (b + 16 * le_val l * 16) by lia.
  rewrite Z.mod_add by lia. lia.
Qed.

Lemma pc3_step l :
  Forall nibbles4 l ->
  (le_val l + (le_val l .>> 4)) .& le_val (repeat 0x0f (length l)) = le_val (map pc3 l).
Proof.
  induction 1 as [|b l Hb Hl IH]; simpl; [done|].
  pose proof (nibbles4_head l Hl) as Hv. rewrite <- IH. clear IH.
  set (v := le_val l) in *. unfold nibbles4 in Hb. rewrite !shr_div by lia. change (2 ^ 4) with 16.
  replace (b + 256 * v + (b + 256 * v) / 16)
    with ((b + b / 16 + 16 * (v mod 16)) + 256 * (v + v / 16)) by zlia.
  rewrite (land_byte_split _ _ _ 0x0f (le_val (repeat 0x0f (length l)))); [|unwrap; zlia|unwrap; lia|done].
  f_equal. unfold pc3. rewrite shr_div by lia. change 0x0f with (2 ^ 4 - 1).
  rewrite !land_mask by lia. change (2 ^ 4) with 16. zlia.
Qed.

Lemma ones_app n k x : 0 <= x -> ones (n + k) x = ones n x + ones k (x / 2 ^ Z.of_nat n).
Proof.
  revert x. induction n as [|n IH]; intros x Hx; simpl ones; [by rewrite Z.div_1_r|].
  rewrite IH by (apply Z.div_pos; lia).
  rewrite Nat2Z.inj_succ, Z.pow_succ_r, Z.div_div by lia. lia.
Qed.

Lemma ones_mod n x : ones n (x mod 2 ^ Z.of_nat n) = ones n x.
Proof.
  revert x. induction n as [|n IH]; intros x; simpl ones; [done|].
  rewrite Nat2Z.inj_succ, Z.pow_succ_r by lia.
  rewrite Z.rem_mul_r by lia.
  rewrite <- (IH (x / 2)). f_equal; [|f_equal]; zlia.
Qed.

(** A byte's three reduction steps leave its population count. *)
Lemma pc_byte b : is_byte b ->
  is_byte (pc1 b) /\ nibbles4 (pc2 (pc1 b)) /\ pc3 (pc2 (pc1 b)) = ones 8 b /\ 0 <= ones 8 b <= 8.
Proof.
  intros Hb.
  assert (H : ((0 <=? pc1 b) && (pc1 b <? 256)) &&
     ((0 <=? pc2 (pc1 b)) && (pc2 (pc1 b) <? 256) && (pc2 (pc1 b) mod 16 <=? 4) && (pc2 (pc1 b) / 16 <=? 4)) &&
     ((pc3 (pc2 (pc1 b)) =? ones 8 b) && (0 <=? ones 8 b) && (ones 8 b <=? 8)) = true).
  { revert b Hb. apply byte_forall. vm_compute. done. }
  bool_prop. unfold nibbles4. unwrap. lia.
Qed.

Lemma ones_le_val l : bytes l -> ones (8 * length l) (le_val l) = fold_right Z.add 0 (map (ones 8) l).
Proof.
  induction 1 as [|b l Hb Hl IH]; [done|].
  pose proof (le_val_range l Hl). cbn [length map fold_right le_val].
  rewrite <- IH. replace (8 * S (length l))%nat with (8 + 8 * length l)%nat by lia.
  unwrap. rewrite ones_app by lia. rewrite <- (ones_mod 8 (b + _)).
  change (2 ^ Z.of_nat 8) with 256. f_equal; f_equal; zlia.
Qed.

(** Adding a little-endian number to itself shifted by [k] bytes adds the
    digits, as long as no digit overflows. *)
Lemma swar_add k n l l' :
  n = 8 * Z.of_nat k -> bytes l -> bytes l' -> (length l' <= 8)%nat ->
  le_val l' = le_val l + le_val (drop k l) ->
  u64 (le_val l + (le_val l .>> n)) = le_val l'.
Proof. intros -> ? ? ? E. rewrite le_val_shr, <- E by done. by apply u64_le_val. Qed.

Lemma swar_sum_8 d0 d1 d2 d3 d4 d5 d6 d7 :
  Forall (fun d => 0 <= d <= 8) [d0; d1; d2; d3; d4; d5; d6; d7] ->
  let x := le_val [d0; d1; d2; d3; d4; d5; d6; d7] in
  let x := u64 (x + (x .>> 8)) in
  let x := u64 (x + (x .>> 16)) in
  let x := u64 (x + (x .>> 32)) in
  x .& 0x7f = d0 + d1 + d2 + d3 + d4 + d5 + d6 + d7.
Proof.
  intros H. rewrite !Forall_cons in H. destruct H as (?&?&?&?&?&?&?&?&_). cbv zeta.
  rewrite (swar_add 1 8 _ [d0+d1; d1+d2; d2+d3; d3+d4; d4+d5; d5+d6; d6+d7; d7]);
    [|done|repeat constructor; unwrap; lia|repeat constructor; unwrap; lia|simpl; lia|cbn; lia].
  rewrite (swar_add 2 16 _ [d0+d1+d2+d3; d1+d2+d3+d4; d2+d3+d4+d5; d3+d4+d5+d6; d4+d5+d6+d7; d5+d6+d7; d6+d7; d7]);
    [|done|repeat constructor; unwrap; lia|repeat constructor; unwrap; lia|simpl; lia|cbn; lia].
  rewrite (swar_add 4 32 _ [d0+d1+d2+d3+d4+d5+d6+d7; d1+d2+d3+d4+d5+d6+d7; d2+d3+d4+d5+d6+d7;
                         d3+d4+d5+d6+d7; d4+d5+d6+d7; d5+d6+d7; d6+d7; d7]);
    [|done|repeat constructor; unwrap; lia|repeat constructor; unwrap; lia|simpl; lia|cbn; lia].
  change 0x7f with (2 ^ 7 - 1). rewrite land_mask by lia. cbn [le_val]. change (2 ^ 7) with 128. zlia.
Qed.

Lemma bytes_map (f : Z -> Z) (P : Z -> Prop) l :
  (forall b, P b -> is_byte (f b)) -> Forall P l -> bytes (map f l).
Proof. intros Hf. induction 1; simpl; constructor; auto. Qed.

(** [PopCount] counts the set bits of any 64-bit value: the five
    shift-mask-add reductions return the sum of its 64 binary digits. *)
Theorem PopCount_correct x : in_width 64 x -> PopCount x = ones 64 x.
Proof.
  intros Hx. set (l := le_bytes 8 x).
  assert (Hl : bytes l) by apply le_bytes_bytes.
  assert (Hv : x = le_val l).
  { unfold l. rewrite le_val_bytes. symmetry. by apply Z.mod_small. }
  assert (Hn : length l = 8%nat) by apply length_le_bytes.
  rewrite Hv. replace 64%nat with (8 * length l)%nat by (rewrite Hn; done).
  rewrite ones_le_val by done. unfold PopCount. cbv zeta.
  assert (H1 : bytes (map pc1 l)) by (eapply bytes_map; [|done]; intros b Hb; apply pc_byte, Hb).
  assert (H2 : Forall nibbles4 (map pc2 (map pc1 l))).
  { rewrite map_map. apply Forall_map. eapply Forall_impl; [done|]. intros b Hb. apply pc_byte, Hb. }
  assert (H2' : bytes (map pc2 (map pc1 l))).
  { eapply Forall_impl; [done|]. intros b Hb. apply Hb. }
  change m1 with (le_val (repeat 0x55 8)). change m2 with (le_val (repeat 0x33 8)).
  change m4 with (le_val (repeat 0x0f 8)). rewrite <- Hn.
  rewrite pc1_step, u64_le_val by (done || (rewrite length_map, Hn; lia)).
  rewrite <- (length_map pc1 l), pc2_step, u64_le_val by (done || (rewrite !length_map, Hn; lia)).
  rewrite <- (length_map pc2 (map pc1 l)).
  assert (E : u64 (le_val (map pc2 (map pc1 l)) + (le_val (map pc2 (map pc1 l)) .>> 4))
                .& le_val (repeat 0x0f (length (map pc2 (map pc1 l)))) =
              le_val (map pc3 (map pc2 (map pc1 l)))).
  { rewrite <- pc3_step by done. apply land_wrap; [lia|]. rewrite !length_map, Hn. done. }
  rewrite E, !map_map, (map_ext_in _ (ones 8)).
  2: { intros b Hb. apply pc_byte. rewrite List.Forall_forall in Hl. auto. }
  assert (H3 : Forall (fun d => 0 <= d <= 8) (map (ones 8) l)).
  { apply Forall_map. eapply Forall_impl; [done|]. intros b Hb. apply pc_byte, Hb. }
  destruct l as [|b0 [|b1 [|b2 [|b3 [|b4 [|b5 [|b6 [|b7 [|]]]]]]]]]; try discriminate Hn.
  cbn [map] in H3 |- *. rewrite (swar_sum_8 _ _ _ _ _ _ _ _ H3). cbn [fold_right length]. lia.
Qed.

Lemma PopCount_correct_witness : in_width 64 0xF00F000180000001 /\ PopCount 0xF00F000180000001 = ones 64 0xF00F000180000001.
Proof. assert (H : in_width 64 0xF00F000180000001) by (unwrap; lia). split; [exact H|]. exact (PopCount_correct _ H). Defined.

(** ** Bit smearing *)

Lemma smeared_1 x : smeared 1 x x.
Proof.
  intros i Hi. split.
  - intros H. exists 0. by rewrite Z.add_0_r.
  - intros (j & Hj & H). by replace j with 0 in H by lia; rewrite Z.add_0_r in H.
Qed.

(** Or-ing a smeared value with its shift doubles the smear. *)
Lemma smeared_double k x r : 0 <= k -> smeared k x r -> smeared (k + k) x (r .| (r .>> k)).
Proof.
  intros Hk H i Hi. rewrite Z.lor_spec, Z.shiftr_spec, orb_true_iff by lia.
  rewrite (H i) by lia. rewrite (H (i + k)) by lia. split.
  - intros [(j & ? & E)|(j & ? & E)]; [exists j|exists (k + j)]; (split; [lia|]); [done|].
    by rewrite Z.add_assoc.
  - intros (j & ? & E). destruct (decide (j < k)); [left; exists j|right; exists (j - k)]; (split; [lia|]).
    + done.
    + by replace (i + k + (j - k)) with (i + j) by lia.
Qed.

(** A value smeared over its whole width is the all-ones value of its length. *)
Lemma smeared_ones k x r : 0 < x -> x < 2 ^ k -> 0 <= r -> smeared k x r -> r = 2 ^ (Z.log2 x + 1) - 1.
Proof.
  intros Hx Hk Hr H. pose proof (Z.log2_nonneg x).
  assert (Hlog : Z.log2 x < k) by (apply Z.log2_lt_pow2; done).
  replace (2 ^ (Z.log2 x + 1) - 1) with (Z.ones (Z.log2 x + 1)) by (rewrite Z.ones_equiv; lia).
  apply Z.bits_inj'. intros i Hi. apply eq_true_iff_eq. rewrite (H i Hi).
  destruct (decide (i <= Z.log2 x)) as [Hle|Hgt].
  - rewrite Z.ones_spec_low by lia. split; [done|]. intros _. exists (Z.log2 x - i). split; [lia|].
    replace (i + (Z.log2 x - i)) with (Z.log2 x) by lia. by apply Z.bit_log2.
  - rewrite Z.ones_spec_high by lia. split; [|done]. intros (j & Hj & Hb).
    rewrite Z.bits_above_log2 in Hb by lia. done.
Qed.

Lemma smear_nonneg k r : 0 <= r -> 0 <= (r .| (r .>> k)).
Proof. intros. apply Z.lor_nonneg. split; [done|]. by apply Z.shiftr_nonneg. Qed.

#[local] Hint Resolve smear_nonneg : bits.

(** [BitSmudgeRight(UINT)] of a nonzero value sets every bit up to and
    including the most significant set bit, and nothing above. *)
Theorem BitSmudgeRight32_correct x :
  0 < x < 2 ^ 32 -> BitSmudgeRight32 x = 2 ^ (Z.log2 x + 1) - 1.
Proof.
  intros Hx. apply (smeared_ones 32); [lia|lia|unfold BitSmudgeRight32; auto 7 with bits zarith|].
  unfold BitSmudgeRight32. cbv zeta.
  apply (smeared_double 16), (smeared_double 8), (smeared_double 4), (smeared_double 2),
    (smeared_double 1), smeared_1; lia.
Qed.

Lemma BitSmudgeRight32_correct_witness : 0 < 0x12345 < 2 ^ 32 /\ BitSmudgeRight32 0x12345 = 2 ^ (Z.log2 0x12345 + 1) - 1.
Proof. assert (H : 0 < 0x12345 < 2 ^ 32) by lia. split; [exact H|]. exact (BitSmudgeRight32_correct _ H). Defined.

Lemma BitSmudgeRight64_full x :
  0 < x < 2 ^ 64 -> BitSmudgeRight64 x = u16 (2 ^ (Z.log2 x + 1) - 1).
Proof.
  intros Hx. unfold BitSmudgeRight64. cbv zeta. f_equal.
  apply (smeared_ones 64); [lia|lia|auto 8 with bits zarith|].
  apply (smeared_double 32), (smeared_double 16), (smeared_double 8), (smeared_double 4),
    (smeared_double 2), (smeared_double 1), smeared_1; lia.
Qed.

(** [BitSmudgeRight(ULONGLONG)] returns its result through a WORD: the
    smeared value is cut to its low 16 bits, so it saturates at 65535 for
    every argument of 2^15 or more. *)
Theorem BitSmudgeRight64_truncates x :
  0 < x < 2 ^ 64 -> BitSmudgeRight64 x = 2 ^ Z.min 16 (Z.log2 x + 1) - 1.
Proof.
  intros Hx. rewrite BitSmudgeRight64_full by done. pose proof (Z.log2_nonneg x).
  set (n := Z.log2 x + 1) in *. unfold u16, wrap.
  destruct (decide (n <= 16)).
  - rewrite Z.min_r by lia. apply Z.mod_small. pose proof (Z.pow_le_mono_r 2 n 16).
    pose proof (Z.pow_pos_nonneg 2 n). lia.
  - rewrite Z.min_l by lia. replace n with (16 + (n - 16)) by lia.
    rewrite Z.pow_add_r by lia. set (q := 2 ^ (n - 16)).
    replace (2 ^ 16 * q - 1) with (2 ^ 16 - 1 + (q - 1) * 2 ^ 16) by ring.
    rewrite Z.mod_add by lia. reflexivity.
Qed.

Lemma BitSmudgeRight64_truncates_witness :
  0 < 2 ^ 40 < 2 ^ 64 /\ BitSmudgeRight64 (2 ^ 40) = 2 ^ Z.min 16 (Z.log2 (2 ^ 40) + 1) - 1.
Proof. assert (H : 0 < 2 ^ 40 < 2 ^ 64) by lia. split; [exact H|]. exact (BitSmudgeRight64_truncates _ H). Defined.

(** ** Largest power of two *)

Lemma MaxPower2Within_loop_spec fuel ret w :
  in_width 32 ret -> 1 <= w -> Z.log2 w < Z.of_nat fuel ->
  MaxPower2Within_loop fuel ret w = Some (u32 (ret * 2 ^ Z.log2 w)).
Proof.
  revert ret w. induction fuel as [|fuel IH]; intros ret w Hr Hw Hf.
  { pose proof (Z.log2_nonneg w). lia. }
  cbn [MaxPower2Within_loop]. case_bool.
  - subst w. rewrite Z.mul_1_r. f_equal. symmetry. by apply wrap_id.
  - rewrite shl_mul, Z.shiftr_div_pow2 by lia. rewrite <- Z.div2_div.
    assert (Hl : Z.log2 w = Z.log2 (Z.div2 w) + 1).
    { rewrite (Z.div2_odd w) at 1. destruct (Z.odd w); cbn [Z.b2z].
      - rewrite Z.log2_succ_double; [lia|]. rewrite Z.div2_div. zlia.
      - rewrite Z.add_0_r, Z.log2_double; [lia|]. rewrite Z.div2_div. zlia. }
    rewrite IH; [|apply u32_range|rewrite Z.div2_div; zlia|lia].
    f_equal. rewrite Hl, Z.pow_add_r by (apply Z.log2_nonneg || lia).
    unfold u32, wrap. rewrite Z.mul_mod_idemp_l by lia. f_equal. ring.
Qed.

(** The [MaxPower2Within] loop terminates on every 64-bit argument.  Below
    2^32 it returns the largest power of two not above the argument; from 2^32
    on its UINT accumulator has shifted the bit out and the result is 0. *)
Theorem MaxPower2Within_correct w :
  0 < w < 2 ^ 64 ->
  exists r, MaxPower2Within w = Some r /\
    (w < 2 ^ 32 -> r = 2 ^ Z.log2 w /\ r <= w < 2 * r) /\
    (2 ^ 32 <= w -> r = 0).
Proof.
  intros Hw. unfold MaxPower2Within. case_bool; [lia|].
  pose proof (Z.log2_nonneg w). assert (Z.log2 w < 64) by (apply Z.log2_lt_pow2; lia).
  eexists. split; [apply MaxPower2Within_loop_spec; unwrap; lia|].
  rewrite Z.mul_1_l. split; intros Hc.
  - pose proof (Z.log2_spec w ltac:(lia)) as Hs. rewrite Z.pow_succ_r in Hs by lia.
    assert (E : u32 (2 ^ Z.log2 w) = 2 ^ Z.log2 w) by (apply wrap_id; unfold in_width; lia).
    rewrite E. lia.
  - assert (32 <= Z.log2 w) by (apply Z.log2_le_pow2; lia).
    unfold u32, wrap. replace (Z.log2 w) with ((Z.log2 w - 32) + 32) by lia.
    rewrite Z.pow_add_r by lia. apply Z.mod_mul. lia.
Qed.

Lemma MaxPower2Within_correct_witness :
  0 < 1000 < 2 ^ 64 /\
  exists r, MaxPower2Within 1000 = Some r /\
    (1000 < 2 ^ 32 -> r = 2 ^ Z.log2 1000 /\ r <= 1000 < 2 * r) /\ (2 ^ 32 <= 1000 -> r = 0).
Proof. assert (H : 0 < 1000 < 2 ^ 64) by lia. split; [exact H|]. exact (MaxPower2Within_correct _ H). Defined.

(** ** Zero counts *)

Lemma builtin_ctz_spec fuel x :
  0 < x -> x < 2 ^ Z.of_nat fuel ->
  0 <= builtin_ctz fuel x /\ x mod 2 ^ builtin_ctz fuel x = 0 /\
  Z.odd (x / 2 ^ builtin_ctz fuel x) = true.
Proof.
  revert x. induction fuel as [|fuel IH]; intros x Hx Hf.
  { simpl in Hf. lia. }
  rewrite Nat2Z.inj_succ, Z.pow_succ_r in Hf by lia. cbn [builtin_ctz]. case_bool.
  - rewrite Z.pow_0_r, Z.div_1_r, Z.mod_1_r. auto with zarith.
  - assert (Ho : x mod 2 = 0).
    { rewrite Zmod_odd. by replace (Z.odd x) with false. }
    rewrite shr_div by lia. change (2 ^ 1) with 2.
    destruct (IH (x / 2)) as (H1 & H2 & H3); [zlia|zlia|].
    set (c := builtin_ctz fuel (x / 2)) in *. split; [lia|].
    rewrite Z.pow_add_r by lia. change (2 ^ 1) with 2.
    assert (0 < 2 ^ c) by (apply Z.pow_pos_nonneg; lia).
    rewrite Z.rem_mul_r, <- Z.div_div, Ho, H2 by lia. auto.
Qed.

(** On every nonzero DWORD the two zero counts bracket the value: it lies in
    [2^(31-lz), 2^(32-lz)), and it is an odd multiple of 2^tz; both counts
    are 32 on zero. *)
Theorem ZeroBits32_correct x :
  in_width 32 x ->
  (x = 0 /\ LeadingZeroBits32 x = 32 /\ TrailingZeroBits32 x = 32) \/
  (2 ^ (31 - LeadingZeroBits32 x) <= x < 2 ^ (32 - LeadingZeroBits32 x) /\
   0 <= LeadingZeroBits32 x <= 31 /\
   x mod 2 ^ TrailingZeroBits32 x = 0 /\ Z.odd (x / 2 ^ TrailingZeroBits32 x) = true).
Proof.
  intros Hx. unfold LeadingZeroBits32, TrailingZeroBits32. case_bool; [by left|right].
  unfold in_width in Hx.
  destruct (builtin_ctz_spec 32 x) as (? & ? & ?); [lia|simpl Z.of_nat; lia|].
  unfold builtin_clz. pose proof (Z.log2_spec x ltac:(lia)) as Hs. pose proof (Z.log2_nonneg x).
  assert (Z.log2 x < 32) by (apply Z.log2_lt_pow2; lia).
  replace (31 - (32 - 1 - Z.log2 x)) with (Z.log2 x) by lia.
  replace (32 - (32 - 1 - Z.log2 x)) with (Z.succ (Z.log2 x)) by lia. repeat split; auto; lia.
Qed.

Lemma ZeroBits32_correct_witness :
  in_width 32 0x50 /\
  ((0x50 = 0 /\ LeadingZeroBits32 0x50 = 32 /\ TrailingZeroBits32 0x50 = 32) \/
  (2 ^ (31 - LeadingZeroBits32 0x50) <= 0x50 < 2 ^ (32 - LeadingZeroBits32 0x50) /\
   0 <= LeadingZeroBits32 0x50 <= 31 /\
   0x50 mod 2 ^ TrailingZeroBits32 0x50 = 0 /\ Z.odd (0x50 / 2 ^ TrailingZeroBits32 0x50) = true)).
Proof. assert (H : in_width 32 0x50) by (unwrap; lia). split; [exact H|]. exact (ZeroBits32_correct _ H). Defined.
