(* ===== verification/ByteOps.v ===== *)
(** Object-representation helpers of core/rt/runtime_base.h over a flat byte
    memory: fills and copies unrolled by template recursion, byte-order
    reversal and the raw object swap (64-bit platform: SIZE_T is 8 bytes). *)
From S2P Require Import Prelude.

(** ** Definitions *)

(** [_PodFill<Size,set>::Fill] *)
Fixpoint PodFill (set : Z) (sz : nat) (m : mem) (p : Z) : mem :=
  match sz with
  | 0 => m
  | 1 => store 1 m p set
  | 2 => store 2 m p set
  | 3 => store 1 (store 2 m p set) (p + 2) set
  | 4 => store 4 m p set
  | 5 => store 1 (store 4 m p set) (p + 4) set
  | 6 => store 2 (store 4 m p set) (p + 4) set
  | 7 => store 1 (store 2 (store 4 m p set) (p + 4) set) (p + 6) set
  | S (S (S (S (S (S (S (S k))))))) => PodFill set k (store 8 m p set) (p + 8)
  end%nat.

(** The word loop shared by [Zero(LPVOID,SIZE_T)] and [Void(LPVOID,SIZE_T)],
    followed by the switch on the remaining size. *)
Fixpoint fill_loop (set : Z) (size : nat) (m : mem) (p : Z) : mem :=
  match size with
  | S (S (S (S (S (S (S (S k))))))) => fill_loop set k (store 8 m p set) (p + 8)
  | tail => PodFill set tail m p
  end.

Definition Zero (m : mem) (obj : Z) (size : nat) : mem := fill_loop 0 size m obj.
Definition Void (m : mem) (obj : Z) (size : nat) : mem := fill_loop (2 ^ 64 - 1) size m obj.

(** [_PodCopy<Size>::Fill(p, s)] *)
Definition copy_word (n : nat) (m : mem) (p s : Z) : mem := store n m p (load n m s).

Fixpoint PodCopy (sz : nat) (m : mem) (p s : Z) : mem :=
  match sz with
  | 0 => m
  | 1 => copy_word 1 m p s
  | 2 => copy_word 2 m p s
  | 3 => copy_word 1 (copy_word 2 m p s) (p + 2) (s + 2)
  | 4 => copy_word 4 m p s
  | 5 => copy_word 1 (copy_word 4 m p s) (p + 4) (s + 4)
  | 6 => copy_word 2 (copy_word 4 m p s) (p + 4) (s + 4)
  | 7 => copy_word 1 (copy_word 2 (copy_word 4 m p s) (p + 4) (s + 4)) (p + 4 + 2) (s + 4 + 2)
  | S (S (S (S (S (S (S (S k))))))) => PodCopy k (copy_word 8 m p s) (p + 8) (s + 8)
  end%nat.

(** [_CopyByteTo<sz>::Copy(f, t)]: blocks of 8, 4, 2 and 1 bytes up to 128
    bytes; above that the source calls [memcpy]. *)
Fixpoint CopyByteTo (sz : nat) (m : mem) (f t : Z) : mem :=
  match sz with
  | S (S (S (S (S (S (S (S k))))))) => CopyByteTo k (copy_word 8 m t f) (f + 8) (t + 8)
  | S (S (S (S k))) => CopyByteTo k (copy_word 4 m t f) (f + 4) (t + 4)
  | S (S k) => CopyByteTo k (copy_word 2 m t f) (f + 2) (t + 2)
  | S O => copy_word 1 m t f
  | O => m
  end.

(** [_SwitchByteOrder<sz>(p)]: exchange the ends, recurse inside. *)
Fixpoint SwitchByteOrder (sz : nat) (m : mem) (p : Z) : mem :=
  match sz with
  | O => m
  | S O => m
  | S (S k) =>
      let e := p + Z.of_nat sz - 1 in
      let t := m p in
      SwitchByteOrder k (mset (mset m p (m e)) e t) (p + 1)
  end.

(** [_SwitchByteOrderTo<sz>(f, t)] with [f] moving down and [t] up, called with
    [f] at the last byte of the source object. *)
Fixpoint SwitchByteOrderTo_ (sz : nat) (m : mem) (f t : Z) : mem :=
  match sz with
  | O => m
  | S k => SwitchByteOrderTo_ k (mset m t (m f)) (f - 1) (t + 1)
  end.

Definition SwitchByteOrderTo (sz : nat) (m : mem) (from to : Z) : mem :=
  SwitchByteOrderTo_ sz m (from + Z.of_nat sz - 1) to.

(** One exchange of [n]-byte words, through a temporary. *)
Definition exchange (n : nat) (m : mem) (a b : Z) : mem :=
  let t := load n m a in store n (store n m a (load n m b)) b t.

(** [_Exchange_32AL<Len>] on DWORDs. *)
Fixpoint Exchange_32AL (len : nat) (m : mem) (a b : Z) : mem :=
  match len with
  | O => m
  | S k => Exchange_32AL k (exchange 4 m a b) (a + 4) (b + 4)
  end.

(** [rt::Swap<T>] for [sizeof(T) = sz]. *)
Definition Swap (sz : nat) (m : mem) (a b : Z) : mem :=
  let n := Z.of_nat sz in
  let m := Exchange_32AL (sz / 4) m a b in
  let m := if (n .& 1) =? 1 then exchange 1 m (a + (n - 1)) (b + (n - 1)) else m in
  if (n .& 2) =? 2 then exchange 2 m (a + 2 * (n / 2 - 1)) (b + 2 * (n / 2 - 1)) else m.

(** Well-formed memories hold bytes; [in_rng p n x] is [p <= x < p + n]. *)
Definition wf_mem (m : mem) : Prop := forall a, is_byte (m a).
Definition in_rng (p : Z) (n : nat) (x : Z) : bool := (p <=? x) && (x <? p + Z.of_nat n).
Definition disjoint (a b : Z) (n : nat) : Prop := a + Z.of_nat n <= b \/ b + Z.of_nat n <= a.

(** ** Single stores and word copies *)

Ltac rng := unfold in_rng, disjoint in *; case_cmp; try done; try lia.

Lemma store_at n m a v x :
  store n m a v x = if in_rng a n x then nth (Z.to_nat (x - a)) (le_bytes n v) 0 else m x.
Proof.
  unfold store. case_bool; unfold in_rng in *.
  - bool_prop. replace x with (a + (x - a)) at 1 by lia.
    rewrite (mstore_in _ _ _ _ 0); [done|rewrite length_le_bytes; lia].
  - apply mstore_out. rewrite length_le_bytes. apply andb_false_iff in Heqb. destruct Heqb; bool_prop; lia.
Qed.

Lemma mem_bytes_wf m a n : wf_mem m -> bytes (mem_bytes m a n).
Proof. intros H. revert a. induction n; intros; simpl; constructor; auto. Qed.

Lemma nth_mem_bytes m a n i : (i < n)%nat -> nth i (mem_bytes m a n) 0 = m (a + Z.of_nat i).
Proof.
  revert a i. induction n as [|n IH]; intros a i Hi; [lia|]. destruct i; simpl.
  - by rewrite Z.add_0_r.
  - rewrite IH by lia. f_equal. lia.
Qed.

Lemma store_wf n m a v : wf_mem m -> wf_mem (store n m a v).
Proof.
  intros H x. rewrite store_at. case_bool; [|apply H].
  pose proof (le_bytes_bytes n v) as Hb. rewrite List.Forall_forall in Hb.
  destruct (nth_in_or_default (Z.to_nat (x - a)) (le_bytes n v) 0) as [Hin| ->]; [auto|unwrap; lia].
Qed.

Lemma store_load_at n m m' a s x :
  wf_mem m' ->
  store n m a (load n m' s) x = if in_rng a n x then m' (s + (x - a)) else m x.
Proof.
  intros Hwf. rewrite store_at. case_bool; [|done]. unfold load.
  rewrite <- (length_mem_bytes m' s n) at 1. rewrite le_bytes_val by (by apply mem_bytes_wf).
  unfold in_rng in *. bool_prop. rewrite nth_mem_bytes by lia. f_equal. lia.
Qed.

Lemma copy_word_wf n m p s : wf_mem m -> wf_mem (copy_word n m p s).
Proof. apply store_wf. Qed.

Lemma exchange_at n m a b x :
  wf_mem m -> disjoint a b n ->
  exchange n m a b x = if in_rng a n x then m (b + (x - a))
                       else if in_rng b n x then m (a + (x - b)) else m x.
Proof.
  intros Hwf Hd. unfold exchange. cbv zeta.
  rewrite !store_load_at by (done || by apply store_wf). rng.
Qed.

Lemma exchange_wf n m a b : wf_mem m -> wf_mem (exchange n m a b).
Proof. intros. by apply store_wf, store_wf. Qed.

#[export] Hint Resolve store_wf copy_word_wf exchange_wf : cpcf.

(** Induction in steps of one 8-byte word, the tail being less than a word. *)
Lemma word_ind (P : nat -> Prop) :
  (forall n, (n < 8)%nat -> P n) -> (forall n, P n -> P (8 + n)%nat) -> forall n, P n.
Proof.
  intros Hs Hw n. induction (lt_wf n) as [n _ IH].
  destruct (decide (n < 8)%nat); [by apply Hs|].
  replace n with (8 + (n - 8))%nat by lia. apply Hw, IH. lia.
Qed.

Ltac small_size n Hn :=
  destruct n as [|[|[|[|[|[|[|[|?]]]]]]]]; try lia; clear Hn.

(** ** Fills *)

(** [set] has the same byte [b] in all its eight positions. *)
Definition uniform (set b : Z) : Prop := le_bytes 8 set = repeat b 8.

Lemma uniform_nth set b n i : uniform set b -> (i < n <= 8)%nat -> nth i (le_bytes n set) 0 = b.
Proof.
  unfold uniform. cbn [le_bytes repeat]. intros [= ? ? ? ? ? ? ? ?] Hi.
  destruct n as [|[|[|[|[|[|[|[|[|]]]]]]]]]; try lia;
    destruct i as [|[|[|[|[|[|[|[|]]]]]]]]; try lia; cbn [le_bytes nth]; done.
Qed.

Lemma fill_word_at set b n m p x :
  uniform set b -> (n <= 8)%nat -> store n m p set x = if in_rng p n x then b else m x.
Proof.
  intros Hu Hn. rewrite store_at. case_bool; [|done]. unfold in_rng in *. bool_prop.
  apply uniform_nth; [done|lia].
Qed.

Lemma PodFill_at set b n m p x :
  uniform set b -> PodFill set n m p x = if in_rng p n x then b else m x.
Proof.
  intros Hu. revert m p. induction n as [n Hn|n IH] using word_ind; intros m p.
  - small_size n Hn; cbn [PodFill]; rewrite ?(fill_word_at set b) by (done || lia); rng.
  - cbn [PodFill Nat.add]. rewrite IH, (fill_word_at set b) by (done || lia). rng.
Qed.

(** The run-time loop and the compile-time unrolling are the same fill. *)
Lemma fill_loop_PodFill set n m p : fill_loop set n m p = PodFill set n m p.
Proof.
  revert m p. induction n as [n Hn|n IH] using word_ind; intros m p.
  - small_size n Hn; done.
  - cbn [fill_loop PodFill Nat.add]. apply IH.
Qed.

(** [rt::Zero] and [rt::Void] write 0x00 respectively 0xff to exactly the
    [size] bytes of the object, whatever the size and with the run-time loop
    as with the template recursion, and touch no other address. *)
Theorem Zero_Void_exact m obj size x :
  Zero m obj size x = (if in_rng obj size x then 0 else m x) /\
  Void m obj size x = (if in_rng obj size x then 255 else m x) /\
  PodFill 0 size m obj x = Zero m obj size x /\ PodFill (2 ^ 64 - 1) size m obj x = Void m obj size x.
Proof.
  unfold Zero, Void. rewrite !fill_loop_PodFill.
  rewrite (PodFill_at 0 0), (PodFill_at (2 ^ 64 - 1) 255) by done. done.
Qed.

(** ** Copies *)

Lemma PodCopy_at n m p s x :
  wf_mem m -> disjoint p s n ->
  PodCopy n m p s x = if in_rng p n x then m (s + (x - p)) else m x.
Proof.
  revert m p s. induction n as [n Hn|n IH] using word_ind; intros m p s Hwf Hd.
  - small_size n Hn; cbn [PodCopy]; unfold copy_word;
      rewrite ?store_load_at by auto with cpcf; rng; f_equal; lia.
  - cbn [PodCopy Nat.add]. rewrite IH by (auto with cpcf || rng). unfold copy_word.
    rewrite !store_load_at by auto with cpcf. rng; f_equal; lia.
Qed.

Lemma CopyByteTo_at n m f t x :
  wf_mem m -> disjoint t f n ->
  CopyByteTo n m f t x = if in_rng t n x then m (f + (x - t)) else m x.
Proof.
  revert m f t. induction n as [n Hn|n IH] using word_ind; intros m f t Hwf Hd.
  - small_size n Hn; cbn [CopyByteTo]; unfold copy_word;
      rewrite ?store_load_at by auto with cpcf; rng; f_equal; lia.
  - cbn [CopyByteTo Nat.add]. rewrite IH by (auto with cpcf || rng). unfold copy_word.
    rewrite !store_load_at by auto with cpcf. rng; f_equal; lia.
Qed.

(** [rt::Copy] and [rt::CopyByteTo] between non-overlapping objects of any
    size transfer every byte of the source and change nothing else. *)
Theorem Copy_exact m p s n x :
  wf_mem m -> disjoint p s n ->
  PodCopy n m p s x = (if in_rng p n x then m (s + (x - p)) else m x) /\
  CopyByteTo n m s p x = PodCopy n m p s x.
Proof. intros. rewrite PodCopy_at, CopyByteTo_at by done. done. Qed.

Lemma wf_mem_of l : bytes l -> wf_mem (mem_of 0 0 l).
Proof.
  intros Hl a. unfold mem_of. case_bool; [|unwrap; lia]. rewrite Z.sub_0_r.
  rewrite List.Forall_forall in Hl. apply Hl, nth_In. bool_prop. lia.
Qed.

Lemma Copy_exact_witness :
  let m := mem_of 0 0 [1; 2; 3; 4; 5; 6; 7; 8; 9; 10; 11] in
  (wf_mem m /\ disjoint 20 0 11) /\
  PodCopy 11 m 20 0 25 = (if in_rng 20 11 25 then m (0 + (25 - 20)) else m 25) /\
  CopyByteTo 11 m 0 20 25 = PodCopy 11 m 20 0 25.
Proof.
  intros m. assert (H : wf_mem m) by (apply wf_mem_of; repeat constructor; unwrap; lia).
  assert (Hd : disjoint 20 0 11) by (right; simpl; lia).
  split; [by split|]. exact (Copy_exact m 20 0 11 25 H Hd).
Defined.

(** ** Byte order *)

(** Induction in steps of two, for the inward exchange. *)
Lemma pair_ind (P : nat -> Prop) :
  P 0%nat -> P 1%nat -> (forall n, P n -> P (S (S n))) -> forall n, P n.
Proof. intros H0 H1 HS n. enough (P n /\ P (S n)) by tauto. induction n; intuition auto. Qed.

Lemma SwitchByteOrder_at n m p x :
  SwitchByteOrder n m p x = if in_rng p n x then m (p + (Z.of_nat n - 1 - (x - p))) else m x.
Proof.
  revert m p. induction n as [| |n IH] using pair_ind; intros m p; cbn [SwitchByteOrder].
  - rng.
  - rng. f_equal. lia.
  - rewrite IH. unfold mset. rng; f_equal; lia.
Qed.

Lemma SwitchByteOrderTo__at n m f t x :
  f < t \/ t + Z.of_nat n <= f - Z.of_nat n + 1 ->
  SwitchByteOrderTo_ n m f t x = if in_rng t n x then m (f - (x - t)) else m x.
Proof.
  revert m f t. induction n as [|n IH]; intros m f t Hd; cbn [SwitchByteOrderTo_].
  - rng.
  - rewrite IH by lia. unfold mset. rng; f_equal; lia.
Qed.

(** [SwitchByteOrder] reverses the bytes of an object of any size in
    place and touches nothing else; it is its own inverse; and on a disjoint
    target [SwitchByteOrderTo] leaves the same reversed bytes there. *)
Theorem SwitchByteOrder_reverses n m p to x :
  disjoint p to n ->
  SwitchByteOrder n m p x = (if in_rng p n x then m (p + (Z.of_nat n - 1 - (x - p))) else m x) /\
  SwitchByteOrder n (SwitchByteOrder n m p) p x = m x /\
  (in_rng to n x = true ->
     SwitchByteOrderTo n m p to x = SwitchByteOrder n m p (p + (x - to))).
Proof.
  intros Hd. rewrite !SwitchByteOrder_at. split_and!; [done| |].
  - rng. f_equal. lia.
  - intros Hx. unfold SwitchByteOrderTo. rewrite SwitchByteOrderTo__at by rng.
    rewrite Hx. unfold in_rng in Hx. bool_prop. rng. f_equal. lia.
Qed.

Lemma SwitchByteOrder_reverses_witness :
  let m := mem_of 0 0 [1; 2; 3; 4; 5] in
  disjoint 0 9 5 /\
  SwitchByteOrder 5 m 0 3 = (if in_rng 0 5 3 then m (0 + (Z.of_nat 5 - 1 - (3 - 0))) else m 3) /\
  SwitchByteOrder 5 (SwitchByteOrder 5 m 0) 0 3 = m 3 /\
  (in_rng 9 5 3 = true -> SwitchByteOrderTo 5 m 0 9 3 = SwitchByteOrder 5 m 0 (0 + (3 - 9))).
Proof.
  intros m. assert (H : disjoint 0 9 5) by (left; simpl; lia).
  split; [exact H|]. exact (SwitchByteOrder_reverses 5 m 0 9 3 H).
Defined.

(** ** Object swap *)

(** The objects of size [n] at [a] and [b] are exchanged on the offsets in [P]
    and everything else is unchanged. *)
Definition swapped (n : nat) (a b : Z) (P : Z -> bool) (m m' : mem) : Prop :=
  forall x, m' x = if in_rng a n x && P (x - a) then m (b + (x - a))
                   else if in_rng b n x && P (x - b) then m (a + (x - b)) else m x.

(** Exchanging a further word extends the set of exchanged offsets. *)
Lemma swapped_exchange n a b P m m' i j :
  disjoint a b n -> wf_mem m' -> swapped n a b P m m' -> 0 <= i -> i + Z.of_nat j <= Z.of_nat n ->
  (forall o, i <= o < i + Z.of_nat j -> P o = false) ->
  swapped n a b (fun o => P o || in_rng i j o) m (exchange j m' (a + i) (b + i)).
Proof.
  intros Hd Hwf Hs Hi Hj HP x. rewrite exchange_at by (done || rng). rewrite !Hs.
  replace (b + i + (x - (a + i))) with (b + (x - a)) by lia.
  replace (a + i + (x - (b + i))) with (a + (x - b)) by lia.
  replace (b + (x - a) - b) with (x - a) by lia. replace (a + (x - b) - a) with (x - b) by lia.
  assert (Ha : in_rng (a + i) j x = in_rng i j (x - a)) by rng.
  assert (Hb : in_rng (b + i) j x = in_rng i j (x - b)) by rng. rewrite Ha, Hb.
  destruct (in_rng i j (x - a)) eqn:E1.
  { unfold in_rng in E1. bool_prop. rewrite (HP (x - a)), orb_true_r, !andb_true_r by lia. rng. }
  destruct (in_rng i j (x - b)) eqn:E2; rewrite ?orb_false_r, ?orb_true_r.
  - unfold in_rng in E2. bool_prop. rewrite (HP (x - b)), !andb_true_r by lia. rng.
  - done.
Qed.

Lemma swapped_ext n a b P Q m m' :
  (forall o, 0 <= o < Z.of_nat n -> P o = Q o) -> swapped n a b P m m' -> swapped n a b Q m m'.
Proof.
  intros HPQ H x. rewrite H. assert (forall c, in_rng c n x && P (x - c) = in_rng c n x && Q (x - c)) as E.
  { intros c. unfold in_rng. case_cmp; try done. apply HPQ. lia. }
  by rewrite !E.
Qed.

Lemma Exchange_32AL_wf k m a b : wf_mem m -> wf_mem (Exchange_32AL k m a b).
Proof. revert m a b. induction k; intros; cbn [Exchange_32AL]; auto with cpcf. Qed.

#[local] Hint Resolve Exchange_32AL_wf : cpcf.

Lemma Exchange_32AL_at k m a b x :
  wf_mem m -> disjoint a b (4 * k) ->
  Exchange_32AL k m a b x = if in_rng a (4 * k) x then m (b + (x - a))
                            else if in_rng b (4 * k) x then m (a + (x - b)) else m x.
Proof.
  revert m a b. induction k as [|k IH]; intros m a b Hwf Hd; cbn [Exchange_32AL].
  - rng.
  - rewrite IH by (auto with cpcf || rng). rewrite !exchange_at by (done || rng).
    rng; f_equal; lia.
Qed.

Lemma Exchange_32AL_swapped k n m a b :
  wf_mem m -> disjoint a b n -> (4 * k <= n)%nat ->
  swapped n a b (in_rng 0 (4 * k)) m (Exchange_32AL k m a b).
Proof.
  intros Hwf Hd Hk x. rewrite Exchange_32AL_at by (done || rng).
  assert (forall c, in_rng c (4 * k) x = in_rng c n x && in_rng 0 (4 * k) (x - c)) as E by (intros; rng).
  by rewrite !E.
Qed.

Lemma land_1_2 q r :
  0 <= q -> 0 <= r < 4 -> ((4 * q + r) .& 1) = r mod 2 /\ ((4 * q + r) .& 2) = 2 * (r / 2).
Proof.
  intros Hq Hr. assert (r = 0 \/ r = 1 \/ r = 2 \/ r = 3) as [-> | [-> | [-> | ->]]] by lia;
    destruct q; try lia; done.
Qed.

(** [Swap] at a size of [q] DWORDs and [r < 4] bytes, as a chain of exchanges. *)
Lemma Swap_unfold q r m a b :
  (r < 4)%nat ->
  let o := 4 * Z.of_nat q in
  let e := Exchange_32AL q m a b in
  Swap (4 * q + r) m a b =
    match r with
    | 0 => e
    | 1 => exchange 1 e (a + o) (b + o)
    | 2 => exchange 2 e (a + o) (b + o)
    | _ => exchange 2 (exchange 1 e (a + (o + 2)) (b + (o + 2))) (a + o) (b + o)
    end%nat.
Proof.
  intros Hr. unfold Swap. replace (Z.of_nat (4 * q + r)) with (4 * Z.of_nat q + Z.of_nat r) by lia.
  destruct (land_1_2 (Z.of_nat q) (Z.of_nat r)) as [-> ->]; [lia|lia|]. cbv zeta.
  rewrite (Nat.mul_comm 4 q), Nat.div_add_l, (Nat.div_small r 4), Nat.add_0_r by lia.
  replace (2 * ((4 * Z.of_nat q + Z.of_nat r) / 2 - 1)) with (4 * Z.of_nat q + (Z.of_nat r / 2 * 2 - 2)) by zlia.
  destruct r as [|[|[|[|]]]]; [| | | |lia];
    repeat match goal with |- context [if ?c then _ else _] =>
      let v := eval vm_compute in c in change c with v; cbv iota end; try done.
  - by replace (4 * Z.of_nat q + Z.of_nat 1 - 1) with (4 * Z.of_nat q) by lia.
  - change (Z.of_nat 2 / 2 * 2 - 2) with 0. by rewrite Z.add_0_r.
  - change (Z.of_nat 3 / 2 * 2 - 2) with 0. rewrite Z.add_0_r.
    by replace (4 * Z.of_nat q + Z.of_nat 3 - 1) with (4 * Z.of_nat q + 2) by lia.
Qed.

(** [rt::Swap] exchanges two non-overlapping objects of any size, byte by
    byte, through its DWORD loop and its odd byte and word tails, and leaves
    every other address as it was. *)
Theorem Swap_exchanges n m a b x :
  wf_mem m -> disjoint a b n ->
  Swap n m a b x = if in_rng a n x then m (b + (x - a))
                   else if in_rng b n x then m (a + (x - b)) else m x.
Proof.
  intros Hwf Hd. enough (swapped n a b (fun _ => true) m (Swap n m a b)) as E.
  { rewrite E, !andb_true_r. done. }
  assert (Hn : (n = 4 * (n / 4) + n mod 4)%nat) by (apply Nat.div_mod; lia).
  pose proof (Nat.mod_upper_bound n 4 ltac:(lia)) as Hr. revert Hn Hr.
  generalize (n / 4)%nat as q. generalize (n mod 4)%nat as r. intros r q -> Hr.
  rewrite Swap_unfold by done. cbv zeta.
  pose proof (Exchange_32AL_swapped q (4 * q + r) m a b Hwf Hd ltac:(lia)) as H0.
  destruct r as [|[|[|[|]]]]; [| | | |lia].
  - eapply swapped_ext; [|exact H0]. intros; rng.
  - eapply swapped_ext; [|apply swapped_exchange; eauto with cpcf; intros; rng]. intros; cbv beta; rng.
  - eapply swapped_ext; [|apply swapped_exchange; eauto with cpcf; intros; rng]. intros; cbv beta; rng.
  - eapply swapped_ext; [|apply swapped_exchange; [done|auto with cpcf|
      apply swapped_exchange; eauto with cpcf; intros; rng|..]]; intros; cbv beta; rng.
Qed.

Lemma Swap_exchanges_witness :
  let m := mem_of 0 0 [1; 2; 3; 4; 5; 6; 7; 11; 12; 13; 14; 15; 16; 17] in
  (wf_mem m /\ disjoint 0 7 7) /\
  Swap 7 m 0 7 12 = if in_rng 0 7 12 then m (7 + (12 - 0))
                    else if in_rng 7 7 12 then m (0 + (12 - 7)) else m 12.
Proof.
  intros m. assert (H : wf_mem m) by (apply wf_mem_of; repeat constructor; unwrap; lia).
  assert (Hd : disjoint 0 7 7) by (left; simpl; lia).
  split; [by split|]. exact (Swap_exchanges 7 m 0 7 12 H Hd).
Defined.
