(* ===== verification/Hash.v ===== *)
(** Hash functions and the pseudo-random generator of
    core/rt/runtime_base.h: FNV over 8-byte words, the two 32-bit xxHash
    variants, and the multiply-with-carry [Randomizer]. *)
From S2P Require Import Prelude ByteOps.

(** ** Definitions: FNV *)

Definition HashInit : Z := 14695981039346656037.
Definition HashKernel (new_data prev_val : Z) : Z := u64 (1099511628211 * (prev_val .^ new_data)).

(** [_HashValueFix<Size>::Val]: sizes 3, 5, 6 and 7 load a wider word and mask it. *)
Fixpoint HashValueFix (sz : nat) (m : mem) (p prev : Z) : Z :=
  match sz with
  | 0 => prev
  | 1 => HashKernel (m p) prev
  | 2 => HashKernel (load 2 m p) prev
  | 3 => HashKernel (load 4 m p .& 0xffffff) prev
  | 4 => HashKernel (load 4 m p) prev
  | 5 => HashKernel (load 8 m p .& 0xffffffffff) prev
  | 6 => HashKernel (load 8 m p .& 0xffffffffffff) prev
  | 7 => HashKernel (load 8 m p .& 0xffffffffffffff) prev
  | S (S (S (S (S (S (S (S k))))))) => HashValueFix k m (p + 8) (HashKernel (load 8 m p) prev)
  end%nat.

(** [_HashValue]: the run-time word loop and the switch on the rest. *)
Fixpoint HashValue (m : mem) (p : Z) (size : nat) (val : Z) : Z :=
  match size with
  | S (S (S (S (S (S (S (S k))))))) => HashValue m (p + 8) k (HashKernel (load 8 m p) val)
  | tail => HashValueFix tail m p val
  end.

(** What the hash computes, on the bytes alone: fold the kernel over the
    little-endian 8-byte chunks, the last one short. *)
Fixpoint fnv (fuel : nat) (l : list Z) (val : Z) : Z :=
  match fuel, l with
  | S k, _ :: _ => fnv k (drop 8 l) (HashKernel (le_val (take 8 l)) val)
  | _, _ => val
  end.

(** ** Definitions: xxHash *)

Definition PRIME1 : Z := 2654435761.
Definition PRIME2 : Z := 2246822519.
Definition PRIME3 : Z := 3266489917.
Definition PRIME4 : Z := 668265263.
Definition PRIME5 : Z := 0x165667b1.

Fixpoint xxs_words (fuel : nat) (m : mem) (p limit idx crc : Z) : option (Z * Z * Z) :=
  match fuel with
  | O => None
  | S k =>
      if p <? limit then
        let crc := u32 (crc + u32 (load 4 m p + idx)) in
        let crc := u32 (crc + u32 (rotl32 crc 17 * PRIME4)) in
        xxs_words k m (p + 4) limit (u32 (idx + 1)) (u32 (crc * PRIME1))
      else Some (p, idx, crc)
  end.

Fixpoint xxs_bytes (fuel : nat) (m : mem) (p bEnd idx crc : Z) : option Z :=
  match fuel with
  | O => None
  | S k =>
      if p <? bEnd then
        xxs_bytes k m (p + 1) bEnd (u32 (idx + 1)) (u32 (u32 (crc + u32 (m p + idx)) * PRIME1))
      else Some crc
  end.

(** [xxHash_small(key, len, seed)]; [fuel] bounds both loops. *)
Definition xxHash_small (fuel : nat) (m : mem) (key len seed : Z) : option Z :=
  let bEnd := key + len in
  match xxs_words fuel m key (bEnd - 4) (u32 (seed + PRIME1)) PRIME5 with
  | None => None
  | Some (p, idx, crc) =>
      match xxs_bytes fuel m p bEnd idx crc with
      | None => None
      | Some crc =>
          let crc := u32 (crc + len) in
          let crc := crc .^ (crc .>> 15) in
          let crc := u32 (crc * PRIME2) in
          let crc := crc .^ (crc .>> 13) in
          let crc := u32 (crc * PRIME3) in
          Some (crc .^ (crc .>> 16))
      end
  end.

(** The four lanes of the main loops. *)
Record lanes := Lanes { lane1 : Z; lane2 : Z; lane3 : Z; lane4 : Z }.

(** One lane of [xxHash]: [v = rotl(v, r) + word]. *)
Definition weak_lane (r v w : Z) : Z := u32 (rotl32 v r + w).
(** One lane of [xxHashStrong]: [v += rotl(v, r); v *= PRIME1; v += word]. *)
Definition strong_lane (r v w : Z) : Z := u32 (u32 (u32 (v + rotl32 v r) * PRIME1) + w).

Section xxHash.
Variable lane : Z -> Z -> Z -> Z.

Fixpoint xx_loop (fuel : nat) (m : mem) (p limit : Z) (v : lanes) : option lanes :=
  match fuel with
  | O => None
  | S k =>
      if p <? limit then
        xx_loop k m (p + 16) limit
          (Lanes (lane 13 (lane1 v) (load 4 m p)) (lane 11 (lane2 v) (load 4 m (p + 4)))
                 (lane 17 (lane3 v) (load 4 m (p + 8))) (lane 19 (lane4 v) (load 4 m (p + 12))))
      else Some v
  end.

(** The finalisation of one lane over its word of the last 16 bytes. *)
Definition xx_fin (r1 r2 v w : Z) : Z :=
  let v := u32 (v + rotl32 v r1) in
  let v := u32 (v * PRIME1) in
  let v := u32 (v + w) in
  let v := u32 (v * PRIME2) in
  let v := u32 (v + rotl32 v r2) in
  u32 (v * PRIME3).

Definition xx_main (fuel : nat) (m : mem) (input len seed : Z) : option Z :=
  if len <? 16 then xxHash_small fuel m input len seed
  else
    let bEnd := input + len in
    let v1 := u32 (seed + PRIME1) in
    let v2 := u32 (u32 (v1 * PRIME2) + len) in
    let v3 := u32 (v2 * PRIME3) in
    let v4 := u32 (v3 * PRIME4) in
    match xx_loop fuel m input (bEnd - 16) (Lanes v1 v2 v3 v4) with
    | None => None
    | Some v =>
        let p := bEnd - 16 in
        let v1 := xx_fin 17 11 (lane1 v) (load 4 m p) in
        let v2 := xx_fin 19 17 (lane2 v) (load 4 m (p + 4)) in
        let v3 := xx_fin 13 19 (lane3 v) (load 4 m (p + 8)) in
        let v4 := xx_fin 11 13 (lane4 v) (load 4 m (p + 12)) in
        let crc := u32 (v1 + rotl32 v2 3 + rotl32 v3 6 + rotl32 v4 9) in
        let crc := crc .^ (crc .>> 11) in
        let crc := u32 (crc + u32 (u32 (PRIME4 + len) * PRIME1)) in
        let crc := crc .^ (crc .>> 15) in
        let crc := u32 (crc * PRIME2) in
        Some (crc .^ (crc .>> 13))
    end.
End xxHash.

Definition xxHash := xx_main weak_lane.
Definition xxHashStrong := xx_main strong_lane.

(** ** Definitions: Randomizer *)

Record Randomizer := mkRandomizer { m_z : Z; m_w : Z }.

Definition Randomizer_init (seed : Z) : Randomizer :=
  let seed := if (seed =? 0) || (seed =? 0x464fffff) || (u32 (seed * seed) =? 0x9068ffff)
              then u32 (seed + 0x52897528) else seed in
  mkRandomizer (u32 (seed * seed)) seed.

Definition GetNext (r : Randomizer) : Z * Randomizer :=
  let z := u32 (36969 * (m_z r .& 65535) + (m_z r .>> 16)) in
  let w := u32 (18000 * (m_w r .& 65535) + (m_w r .>> 16)) in
  (u32 (u32 (z .<< 16) + w), mkRandomizer z w).

(** [Randomize(p, sz)]: whole UINTs, then the low bytes of one more. *)
Fixpoint rnd_words (n : nat) (r : Randomizer) (m : mem) (p : Z) : Randomizer * mem :=
  match n with
  | O => (r, m)
  | S k => let '(v, r) := GetNext r in rnd_words k r (store 4 m p v) (p + 4)
  end.

Definition Randomize (r : Randomizer) (m : mem) (p : Z) (sz : nat) : Randomizer * mem :=
  let '(r', m') := rnd_words (sz / 4) r m p in
  if (sz mod 4 =? 0)%nat then (r', m')
  else let '(v, r') := GetNext r' in
       (r', mstore m' (p + Z.of_nat (sz / 4 * 4)) (take (sz mod 4) (le_bytes 4 v))).

(** The byte stream a generator emits: [n] numbers, four bytes each. *)
Fixpoint rnd_stream (n : nat) (r : Randomizer) : list Z :=
  match n with
  | O => []
  | S k => let '(v, r) := GetNext r in le_bytes 4 v ++ rnd_stream k r
  end.

Fixpoint rnd_iter (n : nat) (r : Randomizer) : Randomizer :=
  match n with O => r | S k => rnd_iter k (snd (GetNext r)) end.

(** ** FNV *)

(** The masked wide load of an odd-sized tail is the value of its bytes. *)
Lemma load_mask n k m p :
  wf_mem m -> (n <= k)%nat -> load k m p .& (2 ^ (8 * Z.of_nat n) - 1) = load n m p.
Proof.
  intros Hwf Hn. rewrite land_mask by lia. unfold load.
  replace k with (n + (k - n))%nat by lia. rewrite mem_bytes_app.
  set (l := mem_bytes m p n). set (l' := mem_bytes m _ _).
  assert (Hl : bytes l) by (by apply mem_bytes_wf).
  assert (E : forall a, bytes a -> le_val (a ++ l') = le_val a + 2 ^ (8 * Z.of_nat (length a)) * le_val l').
  { induction 1 as [|b a Hb Ha IH]; cbn [le_val app length]; [rewrite Z.mul_0_r; lia|].
    rewrite IH. replace (8 * Z.of_nat (S (length a))) with (8 + 8 * Z.of_nat (length a)) by lia.
    rewrite Z.pow_add_r by lia. lia. }
  rewrite E by done. unfold l at 2. rewrite length_mem_bytes, Z.mul_comm, Z.mod_add by lia.
  apply Z.mod_small. pose proof (le_val_range l Hl) as Hr. unfold l at 3 in Hr.
  rewrite length_mem_bytes in Hr. by rewrite Z.pow_mul_r by lia.
Qed.

Lemma fnv_fuel l f1 f2 v : (length l <= f1)%nat -> (length l <= f2)%nat -> fnv f1 l v = fnv f2 l v.
Proof.
  revert f2 l v. induction f1 as [|f1 IH]; intros f2 l v H1 H2.
  - destruct l; [|simpl in H1; lia]. destruct f2; done.
  - destruct l as [|b l]; [destruct f2; done|]. destruct f2 as [|f2]; [simpl in H2; lia|].
    cbn [fnv]. apply IH; rewrite length_drop; simpl in *; lia.
Qed.

Lemma fnv_word m p n v :
  fnv (8 + n) (mem_bytes m p (8 + n)) v = fnv n (mem_bytes m (p + 8) n) (HashKernel (load 8 m p) v).
Proof.
  rewrite (mem_bytes_app m p 8 n). change (Z.of_nat 8) with 8.
  change (8 + n)%nat with (S (7 + n)). cbn [fnv].
  destruct (mem_bytes m p 8 ++ _) eqn:E; [by apply (f_equal length) in E; rewrite length_app, length_mem_bytes in E|].
  rewrite <- E, take_app_length', drop_app_length' by (by rewrite length_mem_bytes).
  apply fnv_fuel; rewrite length_mem_bytes; lia.
Qed.

Lemma HashValueFix_fnv n m p v : wf_mem m -> HashValueFix n m p v = fnv n (mem_bytes m p n) v.
Proof.
  intros Hwf. revert p v. induction n as [n Hn|n IH] using word_ind; intros p v.
  - small_size n Hn; cbn [HashValueFix mem_bytes fnv take drop]; try done.
    + cbn [le_val]; by rewrite Z.mul_0_r, Z.add_0_r.
    + f_equal. exact (load_mask 3 4 m p Hwf ltac:(lia)).
    + f_equal. exact (load_mask 5 8 m p Hwf ltac:(lia)).
    + f_equal. exact (load_mask 6 8 m p Hwf ltac:(lia)).
    + f_equal. exact (load_mask 7 8 m p Hwf ltac:(lia)).
  - cbn [HashValueFix Nat.add]. rewrite IH. symmetry. apply fnv_word.
Qed.

Lemma HashValue_Fix n m p v : HashValue m p n v = HashValueFix n m p v.
Proof.
  revert p v. induction n as [n Hn|n IH] using word_ind; intros p v.
  - small_size n Hn; done.
  - cbn [HashValue HashValueFix Nat.add]. apply IH.
Qed.

(** The FNV hash of an object depends on exactly its [size] bytes: the
    run-time loop and the compile-time recursion agree for every size, and
    both fold the kernel over the little-endian 8-byte chunks, although the
    tails of 3, 5, 6 and 7 bytes load past the end of the object. *)
Theorem HashValue_spec m p size val :
  wf_mem m ->
  HashValue m p size val = fnv size (mem_bytes m p size) val /\
  HashValueFix size m p val = HashValue m p size val.
Proof. intros. by rewrite HashValue_Fix, HashValueFix_fnv. Qed.

Lemma HashValue_spec_witness :
  let m := mem_of 0 0 (str "hello world") in
  wf_mem m /\
  HashValue m 0 11 HashInit = fnv 11 (mem_bytes m 0 11) HashInit /\
  HashValueFix 11 m 0 HashInit = HashValue m 0 11 HashInit.
Proof.
  intros m. assert (H : wf_mem m) by (apply wf_mem_of; repeat constructor; unfold chr; simpl; lia).
  split; [exact H|]. exact (HashValue_spec m 0 11 HashInit H).
Defined.

(** ** xxHash *)

Lemma xxs_words_total fuel m1 m2 p limit idx crc :
  Z.max 0 (limit - p) < Z.of_nat fuel -> agree p (limit + 4) m1 m2 -> in_width 32 crc ->
  exists p' idx' crc', xxs_words fuel m1 p limit idx crc = Some (p', idx', crc') /\
    xxs_words fuel m2 p limit idx crc = Some (p', idx', crc') /\ p <= p' /\ in_width 32 crc'.
Proof.
  revert p idx crc. induction fuel as [|fuel IH]; intros p idx crc Hf Ha Hc;
    cbn [xxs_words]; try case_bool; try lia.
  - rewrite (load_agree 4 m1 m2 p) by (eapply agree_sub; [done|lia|simpl; lia]). cbv zeta.
    assert (Ha' : agree (p + 4) (limit + 4) m1 m2) by (eapply agree_sub; [done|lia|lia]).
    match goal with |- context [xxs_words fuel m1 _ _ ?i ?c] =>
      destruct (IH (p + 4) i c) as (p' & i' & c' & E1 & E2 & ? & ?); [lia|done|apply u32_range|]
    end.
    rewrite E1, E2. eexists _, _, _. split_and!; eauto with lia.
  - eexists _, _, _. split_and!; eauto with lia.
Qed.

Lemma xxs_bytes_total fuel m1 m2 p bEnd idx crc :
  Z.max 0 (bEnd - p) < Z.of_nat fuel -> agree p bEnd m1 m2 -> in_width 32 crc ->
  exists crc', xxs_bytes fuel m1 p bEnd idx crc = Some crc' /\ xxs_bytes fuel m2 p bEnd idx crc = Some crc'.
Proof.
  revert p idx crc. induction fuel as [|fuel IH]; intros p idx crc Hf Ha Hc;
    cbn [xxs_bytes]; try case_bool; try lia; eauto.
  rewrite (Ha p) by lia. apply IH; [lia| |apply u32_range]. eapply agree_sub; [done|lia|lia].
Qed.

#[local] Hint Resolve lxor_width shr_width : cpcf.

Lemma xxHash_small_total fuel m1 m2 key len seed :
  0 <= len < Z.of_nat fuel -> agree key (key + len) m1 m2 ->
  exists h, in_width 32 h /\ xxHash_small fuel m1 key len seed = Some h /\
    xxHash_small fuel m2 key len seed = Some h.
Proof.
  intros Hf Ha. unfold xxHash_small. cbv zeta.
  destruct (xxs_words_total fuel m1 m2 key (key + len - 4) (u32 (seed + PRIME1)) PRIME5)
    as (p & i & c & -> & -> & Hp & Hc); [lia|eapply agree_sub; [done|lia|lia]|unwrap; unfold PRIME5; lia|].
  destruct (xxs_bytes_total fuel m1 m2 p (key + len) i c) as (c' & -> & ->);
    [lia|eapply agree_sub; [done|lia|lia]|done|].
  eexists. split_and!; [|done|done]. auto 7 with cpcf lia.
Qed.

Lemma xx_loop_total lane fuel m1 m2 p limit v :
  Z.max 0 (limit - p) < Z.of_nat fuel -> agree p (limit + 16) m1 m2 ->
  exists v', xx_loop lane fuel m1 p limit v = Some v' /\ xx_loop lane fuel m2 p limit v = Some v'.
Proof.
  revert p v. induction fuel as [|fuel IH]; intros p v Hf Ha; cbn [xx_loop]; try case_bool; try lia; eauto.
  assert (forall d, 0 <= d <= 12 -> load 4 m1 (p + d) = load 4 m2 (p + d)) as E.
  { intros d Hd. apply load_agree. eapply agree_sub; [done|lia|simpl; lia]. }
  pose proof (E 0 ltac:(lia)) as E0. rewrite Z.add_0_r in E0. rewrite E0, !E by lia.
  apply IH; [lia|]. eapply agree_sub; [done|lia|lia].
Qed.

Lemma xx_main_total lane fuel m1 m2 input len seed :
  0 <= len < Z.of_nat fuel -> agree input (input + len) m1 m2 ->
  exists h, in_width 32 h /\ xx_main lane fuel m1 input len seed = Some h /\
    xx_main lane fuel m2 input len seed = Some h.
Proof.
  intros Hf Ha. unfold xx_main. case_bool; [by apply xxHash_small_total|]. cbv zeta.
  edestruct (xx_loop_total lane fuel m1 m2 input (input + len - 16)) as (v & -> & ->);
    [lia|eapply agree_sub; [done|lia|lia]|].
  assert (forall d, 0 <= d <= 12 -> load 4 m1 (input + len - 16 + d) = load 4 m2 (input + len - 16 + d)) as E.
  { intros d Hd. apply load_agree. eapply agree_sub; [done|lia|simpl; lia]. }
  pose proof (E 0 ltac:(lia)) as E0. rewrite Z.add_0_r in E0. rewrite E0, !E by lia.
  eexists. split_and!; [|done|done]. auto 7 with cpcf lia.
Qed.

(** Both xxHash variants terminate on every length and seed with a 32-bit
    result, and the result is a function of the [len] bytes alone: two
    memories that agree on the input give the same hash, so no load reaches
    outside it. *)
Theorem xxHash_in_bounds m1 m2 input len seed :
  0 <= len < 2 ^ 31 -> agree input (input + len) m1 m2 ->
  let fuel := Z.to_nat (len + 1) in
  (exists h, in_width 32 h /\ xxHash fuel m1 input len seed = Some h /\
     xxHash fuel m2 input len seed = Some h) /\
  (exists h, in_width 32 h /\ xxHashStrong fuel m1 input len seed = Some h /\
     xxHashStrong fuel m2 input len seed = Some h).
Proof. intros Hl Ha fuel. split; apply xx_main_total; (done || lia). Qed.

Lemma xxHash_in_bounds_witness :
  let m1 := mem_of 0 0 (str "the quick brown fox jumps") in
  let m2 := mem_of 255 0 (str "the quick brown fox jumps") in
  (0 <= 25 < 2 ^ 31 /\ agree 0 (0 + 25) m1 m2) /\
  let fuel := Z.to_nat (25 + 1) in
  (exists h, in_width 32 h /\ xxHash fuel m1 0 25 7 = Some h /\ xxHash fuel m2 0 25 7 = Some h) /\
  (exists h, in_width 32 h /\ xxHashStrong fuel m1 0 25 7 = Some h /\ xxHashStrong fuel m2 0 25 7 = Some h).
Proof.
  intros m1 m2. assert (H : agree 0 (0 + 25) m1 m2).
  { intros a Ha. unfold m1, m2, mem_of. change (Z.of_nat (length _)) with 25.
    rewrite (proj2 (Z.leb_le 0 a)), (proj2 (Z.ltb_lt a (0 + 25))) by lia. cbn [andb].
    apply nth_indep. rewrite Z.sub_0_r. change (length _) with (Z.to_nat 25). lia. }
  split; [split; [lia|exact H]|]. apply (xxHash_in_bounds m1 m2 0 25 7); [lia|exact H].
Defined.

(** ** Randomizer *)

Lemma rnd_words_spec n r m p :
  rnd_words n r m p = (rnd_iter n r, mstore m p (rnd_stream n r)).
Proof.
  revert r m p. induction n as [|n IH]; intros r m p; [done|].
  cbn [rnd_words rnd_iter rnd_stream]. destruct (GetNext r) as [v r'] eqn:E. cbn [snd].
  rewrite IH. f_equal. rewrite mstore_app, length_le_bytes. done.
Qed.

Lemma rnd_stream_snoc n r :
  rnd_stream (S n) r = rnd_stream n r ++ le_bytes 4 (fst (GetNext (rnd_iter n r))) /\
  rnd_iter (S n) r = snd (GetNext (rnd_iter n r)).
Proof.
  revert r. induction n as [|n IH]; intros r.
  - cbn [rnd_stream rnd_iter]. destruct (GetNext r). by rewrite app_nil_r.
  - destruct (IH (snd (GetNext r))) as [E1 E2]. split; [|exact E2].
    change (rnd_stream (S (S n)) r) with
      (let '(v, r') := GetNext r in le_bytes 4 v ++ rnd_stream (S n) r').
    cbn [rnd_iter]. destruct (GetNext r) as [v r'] eqn:E. cbn [snd] in *.
    rewrite E1. cbn [rnd_stream]. rewrite E. by rewrite app_assoc.
Qed.

Lemma length_rnd_stream n r : length (rnd_stream n r) = (4 * n)%nat.
Proof.
  revert r. induction n as [|n IH]; intros r; [done|]. cbn [rnd_stream].
  destruct (GetNext r). rewrite length_app, IH, length_le_bytes. lia.
Qed.

Lemma words_ceil sz :
  ((sz + 3) / 4 = if Nat.eqb (sz mod 4) 0 then sz / 4 else S (sz / 4))%nat.
Proof.
  pose proof (Nat.div_mod sz 4 ltac:(lia)) as Hsz.
  pose proof (Nat.mod_upper_bound sz 4 ltac:(lia)) as Hm.
  revert Hsz Hm. generalize (sz / 4)%nat (sz mod 4)%nat. intros q t -> Ht.
  destruct (Nat.eqb_spec t 0); symmetry.
  - apply (Nat.div_unique _ 4 q 3); lia.
  - apply (Nat.div_unique _ 4 (S q) (t - 1)); lia.
Qed.

(** [Randomizer::Randomize(p, sz)] writes exactly the first [sz] bytes of
    the generator's little-endian number stream at [p], for any [sz]
    including the 1 to 3 byte tails, and advances the generator by
    ceil(sz/4) numbers.  ([sz < 2^34]: the code's loop counter is a UINT.) *)
Theorem Randomize_stream r m p sz :
  Z.of_nat sz < 2 ^ 34 ->
  let k := ((sz + 3) / 4)%nat in
  Randomize r m p sz = (rnd_iter k r, mstore m p (take sz (rnd_stream k r))).
Proof.
  intros _ k. unfold Randomize. rewrite rnd_words_spec.
  pose proof (Nat.div_mod sz 4 ltac:(lia)) as Hsz.
  pose proof (words_ceil sz) as Hk. fold k in Hk.
  destruct (Nat.eqb_spec (sz mod 4) 0) as [E0|E0]; rewrite Hk; clear k Hk.
  - rewrite take_ge; [done|]. rewrite length_rnd_stream. lia.
  - destruct (rnd_stream_snoc (sz / 4) r) as [-> ->].
    destruct (GetNext (rnd_iter (sz / 4) r)) as [v r'] eqn:E. cbn [fst snd]. f_equal.
    rewrite take_app, (take_ge (rnd_stream _ _)) by (rewrite length_rnd_stream; lia).
    rewrite mstore_app, length_rnd_stream.
    replace (sz - 4 * (sz / 4))%nat with (sz mod 4)%nat by lia.
    by replace (sz / 4 * 4)%nat with (4 * (sz / 4))%nat by lia.
Qed.

Lemma Randomize_stream_witness :
  Z.of_nat 7 < 2 ^ 34 /\
  let k := ((7 + 3) / 4)%nat in
  Randomize (Randomizer_init 17) (mem_of 0 0 []) 100 7 =
  (rnd_iter k (Randomizer_init 17),
   mstore (mem_of 0 0 []) 100 (take 7 (rnd_stream k (Randomizer_init 17)))).
Proof.
  assert (H : Z.of_nat 7 < 2 ^ 34) by lia. split; [exact H|].
  exact (Randomize_stream (Randomizer_init 17) (mem_of 0 0 []) 100 7 H).
Defined.

Lemma GetNext_z0 r : m_z r = 0 -> m_z (snd (GetNext r)) = 0 /\ fst (GetNext r) = m_w (snd (GetNext r)).
Proof.
  intros H. unfold GetNext. rewrite H. cbn [fst snd m_z m_w]. split; [done|].
  apply wrap_id, u32_range.
Qed.

Lemma rnd_iter_z0 n r : m_z r = 0 -> m_z (rnd_iter n r) = 0.
Proof. revert r. induction n as [|n IH]; intros r H; [done|]. cbn [rnd_iter]. apply IH, GetNext_z0, H. Qed.

(** The constructor's seed repair misses the seeds that are multiples of
    65536: their square is 0 modulo 2^32, the [m_z] half starts at 0 and stays
    there, and every number drawn is the bare 16-bit-carry sequence of [m_w]. *)
Theorem Randomizer_degenerate_seed k n :
  0 < k < 65536 ->
  let r := rnd_iter n (Randomizer_init (65536 * k)) in
  m_z r = 0 /\ fst (GetNext r) = m_w (snd (GetNext r)).
Proof.
  intros Hk r. assert (H0 : m_z r = 0).
  { apply rnd_iter_z0. unfold Randomizer_init.
    assert (E : u32 (65536 * k * (65536 * k)) = 0).
    { unfold u32, wrap. replace (65536 * k * (65536 * k)) with (k * k * 2 ^ 32) by ring. apply Z.mod_mul. lia. }
    rewrite E. case_cmp; try (zify; lia). cbn [m_z]. exact E. }
  split; [done|]. by apply GetNext_z0.
Qed.

Lemma Randomizer_degenerate_seed_witness :
  0 < 3 < 65536 /\
  (let r := rnd_iter 5 (Randomizer_init (65536 * 3)) in
   m_z r = 0 /\ fst (GetNext r) = m_w (snd (GetNext r))).
Proof. assert (H : 0 < 3 < 65536) by lia. split; [exact H|]. exact (Randomizer_degenerate_seed 3 5 H). Defined.
