(* ===== verification/Search.v ===== *)
(** Binary search over an indexable array ([_LowerBound], [_BinarySearch]) and
    two small stateful helpers of runtime_base.h: the tick divider
    [FrequencyDivision] and the deferred-construction cell [ObjectPlaceHolder]. *)
From S2P Require Import Prelude.

(** ** Definitions: search *)

(** The element type [E] is read through [operator[]] as [arr : Z -> E];
    [key_lt e k] is [t_GetKey::Key(e) < k] and [lt_key k e] is
    [k < t_GetKey::Key(e)]. *)
Section Search.
Context {E V : Type} (key_lt : E -> V -> bool) (lt_key : V -> E -> bool).

(** One run of the [while(L + 1 < ret)] loop, at most [fuel] iterations. *)
Fixpoint lb_loop (fuel : nat) (arr : Z -> E) (key : V) (L ret : Z) : option Z :=
  if negb (u64 (L + 1) <? ret) then Some ret
  else match fuel with
       | O => None
       | S f =>
         let mid := u64 (L + ret) .>> 1 in
         if key_lt (arr mid) key then lb_loop f arr key mid ret
         else lb_loop f arr key L mid
       end.

Definition LowerBound (arr : Z -> E) (len : Z) (key : V) : option Z :=
  if (len =? 0) || negb (key_lt (arr 0) key) then Some 0
  else if negb (key_lt (arr (len - 1)) key) then lb_loop 64 arr key 0 (len - 1)
  else Some len.

Definition BinarySearch (arr : Z -> E) (len : Z) (key : V) : option Z :=
  match LowerBound arr len key with
  | None => None
  | Some r => if (r <? len) && lt_key key (arr r) then Some len else Some r
  end.
End Search.

(** ** Definitions: FrequencyDivision *)

Record FrequencyDivision := mkFD { TickOffset : Z; Interval : Z }.

Definition FD_Reset (init : Z) : FrequencyDivision := mkFD (-1) init.
Definition FD_SetInterval (f : FrequencyDivision) (inv : Z) := mkFD (TickOffset f) inv.

(** [(tick-_TickOffset)%_Interval == 0] on UINTs; [None] is the division by
    zero of a zero interval. *)
Definition FD_phase (f : FrequencyDivision) (tick : Z) : option bool :=
  if Interval f =? 0 then None else Some (u32 (tick - TickOffset f) mod Interval f =? 0).

Definition FD_Hit (f : FrequencyDivision) (tick : Z) (no_phase_align : bool)
  : option (bool * FrequencyDivision) :=
  if no_phase_align then option_map (fun b => (b, f)) (FD_phase f tick)
  else if TickOffset f <? 0 then Some (true, mkFD (s32 tick) (Interval f))
  else option_map (fun b => (b, f)) (FD_phase f tick).

(** ** Definitions: ObjectPlaceHolder *)

(** [_Place] holds a constructed object or raw bytes; [built] and [destroyed]
    count the constructor and destructor calls on the place. *)
Record PlaceHolder (T : Type) := mkPH {
  Place : option T; bInit : bool; built : Z; destroyed : Z }.
Arguments mkPH {T}. Arguments Place {T}. Arguments bInit {T}.
Arguments built {T}. Arguments destroyed {T}.

Section PlaceHolder.
Context {T : Type}.
Implicit Types (h x : PlaceHolder T).

Definition PH_new : PlaceHolder T := mkPH None false 0 0.

(** [new (_Place) T(v); _bInit = true] *)
Definition PH_construct h (v : T) := mkPH (Some v) true (built h + 1) (destroyed h).

Definition PH_Term h :=
  if bInit h then mkPH None false (built h) (destroyed h + 1) else h.

(** [_Copy(x)]: [x]'s object is read only when [x._bInit]. *)
Definition PH_Copy h x :=
  if bInit x then match Place x with Some v => PH_construct h v | None => h end
  else mkPH (Place h) false (built h) (destroyed h).

Definition PH_assign_obj h (v : T) := PH_construct (PH_Term h) v.

(** [operator = (const ObjectPlaceHolder&)] on another holder, and on itself:
    there [x] is the holder [Term] has just emptied. *)
Definition PH_assign h x := PH_Copy (PH_Term h) x.
Definition PH_assign_self h := let h' := PH_Term h in PH_Copy h' h'.

Definition PH_Init h (v : T) := PH_construct h v.
Definition PH_Reinit h (v : T) := PH_construct (PH_Term h) v.
Definition PH_InitCopy h x := PH_Copy h x.

(** The calls a client makes. *)
Inductive PH_op :=
| OpTerm | OpAssignObj (v : T) | OpAssign (x : PlaceHolder T) | OpAssignSelf
| OpInit (v : T) | OpReinit (v : T) | OpInitCopy (x : PlaceHolder T).

Definition PH_step h (o : PH_op) : PlaceHolder T :=
  match o with
  | OpTerm => PH_Term h
  | OpAssignObj v => PH_assign_obj h v
  | OpAssign x => PH_assign h x
  | OpAssignSelf => PH_assign_self h
  | OpInit v => PH_Init h v
  | OpReinit v => PH_Reinit h v
  | OpInitCopy x => PH_InitCopy h x
  end.

(** The [ASSERT(!_bInit)] of the [Init] family. *)
Definition PH_allowed h (o : PH_op) : bool :=
  match o with OpInit _ | OpInitCopy _ => negb (bInit h) | _ => true end.

Definition PH_wf h : Prop :=
  bInit h = (match Place h with Some _ => true | None => false end) /\
  built h = destroyed h + (if bInit h then 1 else 0).

Definition PH_op_wf (o : PH_op) : Prop :=
  match o with OpAssign x | OpInitCopy x => PH_wf x | _ => True end.

Fixpoint PH_run h (ops : list PH_op) : option (PlaceHolder T) :=
  match ops with
  | [] => Some h
  | o :: t => if PH_allowed h o then PH_run (PH_step h o) t else None
  end.
End PlaceHolder.
Arguments PH_op T : clear implicits.

(** ** Search: correctness *)

Section SearchFacts.
Context {E V : Type} (key_lt : E -> V -> bool) (lt_key : V -> E -> bool).
Implicit Types arr : Z -> E.

Lemma lb_loop_spec fuel arr key L ret :
  0 <= L < ret -> ret < 2 ^ 63 -> ret - L <= 2 ^ Z.of_nat fuel ->
  key_lt (arr L) key = true -> key_lt (arr ret) key = false ->
  exists r, lb_loop key_lt fuel arr key L ret = Some r /\ L < r <= ret /\
    key_lt (arr (r - 1)) key = true /\ key_lt (arr r) key = false.
Proof.
  revert L ret. induction fuel as [|f IH]; intros L ret HL Hr Hg H1 H2; cbn [lb_loop].
  - change (2 ^ Z.of_nat 0) with 1 in Hg. replace (u64 (L + 1)) with (L + 1) by (symmetry; apply wrap_id; unwrap; lia).
    case_cmp. exists ret. replace (ret - 1) with L by lia. repeat split; (done || lia).
  - replace (u64 (L + 1)) with (L + 1) by (symmetry; apply wrap_id; unwrap; lia).
    case_cmp; [|exists ret; replace (ret - 1) with L by lia; repeat split; (done || lia)].
    replace (u64 (L + ret)) with (L + ret) by (symmetry; apply wrap_id; unwrap; lia).
    rewrite shr_div by lia. change (2 ^ 1) with 2.
    rewrite Nat2Z.inj_succ, Z.pow_succ_r in Hg by lia.
    assert (Hm : L < (L + ret) / 2 < ret) by zlia.
    assert (Hw : (L + ret) / 2 - L <= 2 ^ Z.of_nat f /\ ret - (L + ret) / 2 <= 2 ^ Z.of_nat f) by zlia.
    destruct (key_lt (arr ((L + ret) / 2)) key) eqn:Ek.
    + destruct (IH ((L + ret) / 2) ret) as (r & E1 & ? & ? & ?); try (done || lia).
      exists r. repeat split; (done || lia).
    + destruct (IH L ((L + ret) / 2)) as (r & E1 & ? & ? & ?); try (done || lia).
      exists r. repeat split; (done || lia).
Qed.

(** On any array, sorted or not, the result is a boundary: the element
    before it is less than the key and the element at it is not. *)
Lemma LowerBound_boundary arr len key :
  0 <= len < 2 ^ 63 ->
  exists r, LowerBound key_lt arr len key = Some r /\ 0 <= r <= len /\
    (0 < r -> key_lt (arr (r - 1)) key = true) /\
    (r < len -> key_lt (arr r) key = false).
Proof.
  intros Hl. unfold LowerBound. destruct (Z.eqb_spec len 0) as [->|]; cbn [orb].
  { exists 0. repeat split; lia. }
  destruct (key_lt (arr 0) key) eqn:E0; cbn [negb].
  2:{ exists 0. repeat split; (done || lia). }
  destruct (key_lt (arr (len - 1)) key) eqn:E1; cbn [negb].
  { exists len. repeat split; (done || lia). }
  assert (len <> 1) by (intros ->; change (1 - 1) with 0 in E1; congruence).
  destruct (lb_loop_spec 64 arr key 0 (len - 1)) as (r & -> & ? & ? & ?); try (done || lia).
  exists r. repeat split; (done || lia).
Qed.

(** The elements less than the key come first. *)
Definition partitioned arr len key : Prop :=
  forall i j, 0 <= i <= j -> j < len -> key_lt (arr j) key = true -> key_lt (arr i) key = true.

Lemma LowerBound_first arr len key :
  0 <= len < 2 ^ 63 -> partitioned arr len key ->
  exists r, LowerBound key_lt arr len key = Some r /\ 0 <= r <= len /\
    forall i, 0 <= i < len -> key_lt (arr i) key = (i <? r).
Proof.
  intros Hl Hp. destruct (LowerBound_boundary arr len key Hl) as (r & El & Hr & Hb & Ha).
  exists r. repeat split; try (done || lia). intros i Hi.
  destruct (Z.ltb_spec i r).
  - apply (Hp i (r - 1)); [lia..|]. apply Hb. lia.
  - destruct (key_lt (arr i) key) eqn:Ei; [|done].
    rewrite <- (Hp r i) by (done || lia). apply Ha. lia.
Qed.

(** [rt::BinarySearch] terminates within 64 halvings on any array
    shorter than 2^63 and, when the elements less than the key precede those
    greater, returns the first element that is neither less nor greater than
    the key, and [len] exactly when there is none. *)
Theorem BinarySearch_correct arr len key :
  0 <= len < 2 ^ 63 -> partitioned arr len key ->
  (forall i j, 0 <= i <= j -> j < len ->
     lt_key key (arr i) = true -> lt_key key (arr j) = true) ->
  (forall e, key_lt e key = true -> lt_key key e = true -> False) ->
  exists r, BinarySearch key_lt lt_key arr len key = Some r /\ 0 <= r <= len /\
    (r < len -> key_lt (arr r) key = false /\ lt_key key (arr r) = false /\
       forall i, 0 <= i < r -> key_lt (arr i) key = true) /\
    (r = len -> forall i, 0 <= i < len ->
       key_lt (arr i) key = true \/ lt_key key (arr i) = true).
Proof.
  intros Hl Hp Hg Hx. destruct (LowerBound_first arr len key Hl Hp) as (r & El & Hr & Hi).
  unfold BinarySearch. rewrite El. destruct (Z.ltb_spec r len); cbn [andb].
  - destruct (lt_key key (arr r)) eqn:Ek.
    + exists len. repeat split; try lia. intros _ i Hi'. rewrite Hi by done.
      destruct (Z.ltb_spec i r); [by left|right]. apply (Hg r i); (done || lia).
    + exists r. repeat split; try (done || lia).
      * rewrite Hi by lia. apply Z.ltb_irrefl.
      * intros i ?. rewrite Hi by lia. apply Z.ltb_lt. lia.
  - exists r. repeat split; try lia. intros _ i Hi'. left. rewrite Hi by done.
    apply Z.ltb_lt. lia.
Qed.
End SearchFacts.

Lemma BinarySearch_correct_witness :
  let arr := fun i => nth (Z.to_nat i) [1; 3; 3; 7; 9] 0 in
  exists r, BinarySearch Z.ltb Z.ltb arr 5 3 = Some r /\ 0 <= r <= 5 /\
    (r < 5 -> (arr r <? 3) = false /\ (3 <? arr r) = false /\
       forall i, 0 <= i < r -> (arr i <? 3) = true) /\
    (r = 5 -> forall i, 0 <= i < 5 -> (arr i <? 3) = true \/ (3 <? arr i) = true).
Proof.
  intros arr.
  assert (Hs : forall i j, 0 <= i <= j -> j < 5 -> arr i <= arr j).
  { intros i j Hij Hj.
    assert (i = 0 \/ i = 1 \/ i = 2 \/ i = 3 \/ i = 4) as Hi by lia.
    assert (j = 0 \/ j = 1 \/ j = 2 \/ j = 3 \/ j = 4) as Hj' by lia.
    destruct Hi as [->|[->|[->|[->| ->]]]]; destruct Hj' as [->|[->|[->|[->| ->]]]];
      solve [exfalso; lia | vm_compute; discriminate]. }
  apply (BinarySearch_correct Z.ltb Z.ltb arr 5 3).
  - lia.
  - intros i j Hi Hj H. apply Z.ltb_lt in H. apply Z.ltb_lt. pose proof (Hs i j Hi Hj). lia.
  - intros i j Hi Hj H. apply Z.ltb_lt in H. apply Z.ltb_lt. pose proof (Hs i j Hi Hj). lia.
  - intros e H1 H2. apply Z.ltb_lt in H1, H2. lia.
Defined.

(** ** FrequencyDivision *)

Fixpoint FD_hits (f : FrequencyDivision) (ticks : list Z) : option (list bool) :=
  match ticks with
  | [] => Some []
  | t :: ts => match FD_Hit f t false with
               | None => None
               | Some (b, f') => option_map (cons b) (FD_hits f' ts)
               end
  end.

(** A fresh divider locks its phase on the first tick below 2^31 it is shown
    and from then on hits exactly at the ticks a multiple of the interval
    away from it, modulo 2^32. *)
Lemma FD_hits_phase inv t0 ts :
  0 < inv < 2 ^ 32 -> 0 <= t0 < 2 ^ 31 ->
  FD_hits (FD_Reset inv) (t0 :: ts) =
  Some (true :: map (fun t => u32 (t - t0) mod inv =? 0) ts).
Proof.
  intros Hi Ht. cbn [FD_hits FD_Hit FD_Reset TickOffset Interval]. cbn [Z.ltb Z.compare].
  assert (E : s32 t0 = t0) by (unwrap; rewrite Z.mod_small; lia). rewrite E.
  assert (H : forall l, FD_hits (mkFD t0 inv) l = Some (map (fun t => u32 (t - t0) mod inv =? 0) l)).
  { induction l as [|t l IH]; [done|]. cbn [FD_hits map].
    unfold FD_Hit, FD_phase. cbn [TickOffset Interval]. case_cmp; cbn [option_map]; by rewrite IH. }
  by rewrite H.
Qed.

(** ** ObjectPlaceHolder *)

Lemma PH_step_wf {T} (h : PlaceHolder T) o :
  PH_wf h -> PH_op_wf o -> PH_allowed h o = true -> PH_wf (PH_step h o).
Proof.
  intros [H1 H2] Ho Ha. destruct h as [pl bi bu de]. cbn in *.
  destruct o as [|v|x| |v|v|x]; cbn in *;
    unfold PH_Term, PH_assign_obj, PH_assign, PH_assign_self, PH_Init, PH_Reinit, PH_InitCopy,
      PH_Copy, PH_construct in *; cbn in *; destruct bi, pl; cbn in *; try done;
    try (split; cbn; (done || lia));
    destruct Ho as [Hx _]; destruct (bInit x) eqn:Eb, (Place x); cbn in *; try done;
    split; cbn; (done || lia).
Qed.

(** Over any sequence of calls that respects the [ASSERT(!_bInit)]s,
    [_bInit] tells exactly whether the place holds a live object, and every
    object built in the place has been destroyed once, the live one apart: the
    destructor's [Term] then leaves none. *)
Theorem PlaceHolder_lifetime {T} (ops : list (PH_op T)) h :
  Forall PH_op_wf ops -> PH_run PH_new ops = Some h ->
  bInit h = (match Place h with Some _ => true | None => false end) /\
  built (PH_Term h) = destroyed (PH_Term h) /\ Place (PH_Term h) = None.
Proof.
  intros Ho. assert (Hw : PH_wf (@PH_new T)) by (split; cbn; done).
  revert Hw. generalize (@PH_new T). induction Ho as [|o ops Hof Ho IH]; intros h0 Hw E.
  - cbn in E. injection E as <-. destruct Hw as [H1 H2]. split; [done|].
    unfold PH_Term. destruct h0 as [[] [] bu de]; cbn in *; try done; split; (done || lia).
  - cbn [PH_run] in E. destruct (PH_allowed h0 o) eqn:Ea; [|done].
    apply (IH (PH_step h0 o)); [by apply PH_step_wf|done].
Qed.

Lemma PlaceHolder_lifetime_witness :
  let ops := [OpInit 3; OpAssignSelf; OpReinit 5; OpAssignObj 6; OpTerm; OpInit 9] in
  exists h, PH_run PH_new ops = Some h /\
  bInit h = (match Place h with Some _ => true | None => false end) /\
  built (PH_Term h) = destroyed (PH_Term h) /\ Place (PH_Term h) = None.
Proof.
  intros ops. eexists. split; [reflexivity|].
  apply (PlaceHolder_lifetime ops); [|reflexivity].
  repeat (constructor; [exact I|]). constructor.
Defined.
