(* ===== verification/Utf8.v ===== *)
(** The UTF-8 / UTF-16 code unit converters of os/kernal_encode.cpp, over flat
    memories: the encoder's exact footprint, the decoders' bounds and the round
    trip.  Each 16-bit unit is encoded on its own, surrogates included. *)
From S2P Require Import Prelude.

(** ** Definitions *)

(** [for(i<len)] with [n = len - i] units left. *)
Fixpoint enc_len_loop (n : nat) (pIn : mem) (i outlen : Z) : Z :=
  match n with
  | O => outlen
  | S k =>
    let c := u16 (pIn i) in
    if c <=? 0x7f then enc_len_loop k pIn (i + 1) (outlen + 1)
    else if 0x7ff <? c then enc_len_loop k pIn (i + 1) (outlen + 3)
    else enc_len_loop k pIn (i + 1) (outlen + 2)
  end.

Definition UTF8EncodeLength (pIn : mem) (len : nat) : Z := enc_len_loop len pIn 0 0.

(** The body of the encoding loop: the stores are a byte, a DWORD and a WORD. *)
Definition enc_unit (c : Z) (m : mem) (p : Z) : mem * Z :=
  if c <=? 0x7f then (mset m p c, p + 1)
  else if 0x7ff <? c then
    (store 4 m p (0x8080e0 .| ((c .>> 12) .& 0xf) .| ((c .<< 2) .& 0x3f00)
                  .| ((0x3f .& c) .<< 16)), p + 3)
  else
    (store 2 m p (0x80c0 .| ((c .>> 6) .& 0x1f) .| ((0x3f .& c) .<< 8)), p + 2).

Fixpoint enc_loop (n : nat) (pIn : mem) (i : Z) (m : mem) (p : Z) : mem * Z :=
  match n with
  | O => (m, p)
  | S k => let '(m', p') := enc_unit (u16 (pIn i)) m p in enc_loop k pIn (i + 1) m' p'
  end.

Definition UTF8Encode (pIn : mem) (len : nat) (m : mem) (pOut : Z) : mem * Z :=
  let '(m', p) := enc_loop len pIn 0 m pOut in (m', u32 (p - pOut)).

(** What a lead byte makes the decoders skip. *)
Definition lead_size (c : Z) : Z :=
  if c <=? 0x7f then 1
  else if (c .& 0xf0) =? 0xe0 then 3
  else if (c .& 0xe0) =? 0xc0 then 2
  else 1.

Fixpoint dec_len_loop (fuel : nat) (m : mem) (pIn len i outlen : Z) : option Z :=
  if i <? len then
    match fuel with
    | O => None
    | S f => dec_len_loop f m pIn len (i + lead_size (u8 (m (pIn + i)))) (outlen + 1)
    end
  else Some outlen.

Definition UTF8DecodeLength (m : mem) (pIn : Z) (len : nat) : option Z :=
  dec_len_loop len m pIn (Z.of_nat len) 0 0.

(** [n] characters left to count. *)
Fixpoint offset_loop (n : nat) (m : mem) (pIn len i : Z) : Z :=
  match n with
  | O => i
  | S k => if len <=? i then 0
           else offset_loop k m pIn len (i + lead_size (u8 (m (pIn + i))))
  end.

Definition UTF8ByteOffset (m : mem) (pIn len : Z) (num_of_utf8_char : nat) : Z :=
  offset_loop num_of_utf8_char m pIn len 0.

Definition unit3 (c p1 p2 : Z) : Z :=
  u16 (((c .& 0xf) .<< 12) .| ((p1 .& 0x3f) .<< 6) .| (p2 .& 0x3f)).
Definition unit2 (c p1 : Z) : Z := u16 (((c .& 0x1f) .<< 6) .| (p1 .& 0x3f)).

(** [U16CHAR UTF8Decode(LPCSTR& p)]: the unit and the advanced pointer. *)
Definition UTF8Decode_char (m : mem) (p : Z) : Z * Z :=
  let c := u8 (m p) in
  if c <=? 0x7f then (c, p + 1)
  else if (c .& 0xf0) =? 0xe0 then (unit3 c (m (p + 1)) (m (p + 2)), p + 3)
  else if (c .& 0xe0) =? 0xc0 then (unit2 c (m (p + 1)), p + 2)
  else (chr "?", p + 4).

(** The output array is indexed by units; an invalid lead byte advances the
    output pointer without a store. *)
Fixpoint dec_loop (fuel : nat) (m : mem) (pIn len i : Z) (out : mem) (p : Z)
  : option (mem * Z) :=
  if i <? len then
    match fuel with
    | O => None
    | S f =>
      let c := u8 (m (pIn + i)) in
      if c <=? 0x7f then dec_loop f m pIn len (i + 1) (mset out p c) (p + 1)
      else if (c .& 0xf0) =? 0xe0 then
        dec_loop f m pIn len (i + 3)
          (mset out p (unit3 c (m (pIn + (i + 1))) (m (pIn + (i + 2))))) (p + 1)
      else if (c .& 0xe0) =? 0xc0 then
        dec_loop f m pIn len (i + 2) (mset out p (unit2 c (m (pIn + (i + 1))))) (p + 1)
      else dec_loop f m pIn len (i + 1) out (p + 1)
    end
  else Some (out, p).

Definition UTF8Decode (m : mem) (pIn : Z) (len : nat) (out : mem) (pOut : Z)
  : option (mem * Z) :=
  match dec_loop len m pIn (Z.of_nat len) 0 out pOut with
  | Some (out', p) => Some (out', u32 (p - pOut))
  | None => None
  end.

(** The reference encoding of a unit, and of a text. *)
Definition utf8_bytes (c : Z) : list Z :=
  if c <=? 0x7f then [c]
  else if 0x7ff <? c then [0xe0 + c / 4096; 0x80 + c / 64 mod 64; 0x80 + c mod 64]
  else [0xc0 + c / 64; 0x80 + c mod 64].

Definition utf8 (cs : list Z) : list Z := concat (map utf8_bytes cs).

(** The zero byte a final three-byte unit leaves after the text. *)
Fixpoint spill (cs : list Z) : list Z :=
  match cs with
  | [] => []
  | [c] => if 0x7ff <? c then [0] else []
  | _ :: t => spill t
  end.

Abbreviation units cs := (Forall (in_width 16) cs).

(** ** The encoder *)

Definition enc3_word (c : Z) : Z :=
  0x8080e0 .| ((c .>> 12) .& 0xf) .| ((c .<< 2) .& 0x3f00) .| ((0x3f .& c) .<< 16).
Definition enc2_word (c : Z) : Z := 0x80c0 .| ((c .>> 6) .& 0x1f) .| ((0x3f .& c) .<< 8).

(** The three fields of a unit. *)
Lemma unit_fields c : in_width 16 c ->
  let a := c / 4096 in let b := c / 64 mod 64 in let d := c mod 64 in
  0 <= a < 16 /\ 0 <= b < 64 /\ 0 <= d < 64 /\ c = 4096 * a + 64 * b + d.
Proof. intros H a b d. subst a b d. unwrap. change (2 ^ 16) with 65536 in H. zlia. Qed.

Lemma mask6 d : 0 <= d < 64 -> 0x80 .| d = 0x80 + d.
Proof. intros. change 0x80 with (2 * 2 ^ 6). by apply lor_low. Qed.

Lemma le_bytes_two lo hi : is_byte lo -> is_byte hi -> le_bytes 2 (hi * 256 + lo) = [lo; hi].
Proof.
  intros Hl Hh. cbn [le_bytes]. rewrite shr_div by lia. unwrap. f_equal; [|f_equal]; zlia.
Qed.

Lemma enc3_bytes c : in_width 16 c -> 0x7ff < c ->
  le_bytes 4 (enc3_word c) = utf8_bytes c ++ [0].
Proof.
  intros Hc Hgt. unfold enc3_word, utf8_bytes.
  rewrite (proj2 (Z.leb_gt c 0x7f)), (proj2 (Z.ltb_lt 0x7ff c)) by lia.
  change 0x3f00 with (0x3f .<< 8). rewrite land_shl by lia. rewrite (Z.land_comm 0x3f c).
  change 0xf with (2 ^ 4 - 1). change 0x3f with (2 ^ 6 - 1). rewrite !land_mask by lia.
  rewrite !shr_div, !shl_mul by lia. destruct (unit_fields c Hc) as (Ha & Hb & Hd & E). cbn zeta in *.
  set (a := c / 4096) in *. set (b := c / 64 mod 64) in *. set (d := c mod 64) in *.
  replace (c / 2 ^ 12 mod 2 ^ 4) with a by zlia. replace (c * 2 ^ 2 / 2 ^ 8 mod 2 ^ 6) with b by zlia.
  replace (c mod 2 ^ 6) with d by zlia. change 0x8080e0 with (0x8080e * 2 ^ 4) at 1. rewrite lor_low by done.
  replace (0x8080e * 2 ^ 4 + a) with (0x8080 * 2 ^ 8 + (0xe0 + a)) by lia.
  rewrite lor_field by (lia || (split; lia)).
  replace (0x8080 .| b) with (0x80 * 2 ^ 8 + (0x80 + b)).
  2:{ change (0x8080 .| b) with ((0x202 * 2 ^ 6) .| b). rewrite lor_low by done. lia. }
  replace ((0x80 * 2 ^ 8 + (0x80 + b)) * 2 ^ 8 + (0xe0 + a)) with (0x80 * 2 ^ 16 + ((0x80 + b) * 256 + (0xe0 + a))) by lia.
  rewrite lor_field, mask6 by (lia || (split; lia)). cbn [le_bytes app]. unwrap. rewrite !shr_div by lia.
  repeat f_equal; zlia.
Qed.

Lemma enc2_bytes c : in_width 16 c -> 0x7f < c <= 0x7ff ->
  le_bytes 2 (enc2_word c) = utf8_bytes c.
Proof.
  intros Hc Hgt. unfold enc2_word, utf8_bytes.
  rewrite (proj2 (Z.leb_gt c 0x7f)), (proj2 (Z.ltb_ge 0x7ff c)) by lia. rewrite (Z.land_comm 0x3f c).
  change 0x1f with (2 ^ 5 - 1). change 0x3f with (2 ^ 6 - 1). rewrite !land_mask by lia.
  rewrite !shr_div, !shl_mul by lia. replace (c / 2 ^ 6 mod 2 ^ 5) with (c / 64) by zlia.
  change 0x80c0 with (0x406 * 2 ^ 5). rewrite lor_low by (lia || (split; zlia)).
  replace (0x406 * 2 ^ 5 + c / 64) with (0x80 * 2 ^ 8 + (0xc0 + c / 64)) by lia.
  rewrite lor_field by (lia || (split; zlia)). rewrite mask6 by zlia.
  apply le_bytes_two; split; zlia.
Qed.

Definition unit_spill (c : Z) : list Z := if 0x7ff <? c then [0] else [].

Lemma enc_unit_spec c m p : in_width 16 c ->
  enc_unit c m p =
  (mstore m p (utf8_bytes c ++ unit_spill c), p + Z.of_nat (length (utf8_bytes c))).
Proof.
  intros Hc. unfold enc_unit, unit_spill, store. fold (enc3_word c) (enc2_word c).
  destruct (Z.leb_spec c 0x7f).
  { unfold utf8_bytes. rewrite (proj2 (Z.leb_le c 0x7f)) by done. by case_cmp. }
  destruct (Z.ltb_spec 0x7ff c).
  - rewrite enc3_bytes by done. f_equal. unfold utf8_bytes. by case_cmp.
  - rewrite enc2_bytes by (done || lia). rewrite app_nil_r. f_equal. unfold utf8_bytes. by case_cmp.
Qed.

Lemma utf8_bytes_pos c : (0 < length (utf8_bytes c))%nat.
Proof. unfold utf8_bytes. case_cmp; cbn; lia. Qed.

Lemma spill_cons c d t : spill (c :: d :: t) = spill (d :: t).
Proof. reflexivity. Qed.

(** Storing over the spill byte of the previous unit hides it. *)
Lemma mstore_over m p l s r a :
  (length s <= length r)%nat ->
  mstore (mstore m p (l ++ s)) (p + Z.of_nat (length l)) r a = mstore m p (l ++ r) a.
Proof.
  intros Hs. rewrite !mstore_app. set (X := mstore m p l). set (q := p + Z.of_nat (length l)).
  destruct (decide (q <= a < q + Z.of_nat (length r))) as [Hin|Hout].
  - replace a with (q + (a - q)) by lia. by rewrite !(mstore_in _ q r _ 0) by lia.
  - rewrite !mstore_out by lia. done.
Qed.

Lemma enc_loop_spec n pIn i m p : (forall k, in_width 16 (pIn k)) ->
  let cs := mem_bytes pIn i n in
  let '(m', p') := enc_loop n pIn i m p in
  p' = p + Z.of_nat (length (utf8 cs)) /\
  forall a, m' a = mstore m p (utf8 cs ++ spill cs) a.
Proof.
  intros Hw. revert i m p. induction n as [|n IH]; intros i m p; cbn [enc_loop mem_bytes].
  { split; [cbn; lia|done]. }
  unfold u16. rewrite (wrap_id 16 (pIn i)) by done. rewrite enc_unit_spec by done.
  set (c := pIn i).
  specialize (IH (i + 1) (mstore m p (utf8_bytes c ++ unit_spill c)) (p + Z.of_nat (length (utf8_bytes c)))).
  destruct (enc_loop n pIn (i + 1) _ _) as [m' p']. destruct IH as [-> IH].
  unfold utf8 in *. cbn [map concat]. rewrite length_app. split; [lia|].
  intros a. rewrite IH, <- app_assoc. destruct n as [|n]; [cbn [mem_bytes map concat spill app]; done|].
  cbn [mem_bytes]. rewrite spill_cons. apply mstore_over.
  cbn [map concat]. pose proof (utf8_bytes_pos (pIn (i + 1))). rewrite !length_app.
  unfold unit_spill. case_bool; cbn; lia.
Qed.

Lemma enc_len_spec n pIn i o : (forall k, in_width 16 (pIn k)) ->
  enc_len_loop n pIn i o = o + Z.of_nat (length (utf8 (mem_bytes pIn i n))).
Proof.
  intros Hw. revert i o. induction n as [|n IH]; intros i o; cbn [enc_len_loop mem_bytes]; [cbn; lia|].
  unfold u16. rewrite (wrap_id 16 (pIn i)) by done. unfold utf8 in *. cbn [map concat].
  rewrite length_app, !IH. unfold utf8_bytes. case_cmp; cbn [length]; lia.
Qed.

(** [os::UTF8Encode] stores exactly the UTF-8 encoding of the units at
    [pOut] - and one zero byte past it when the last unit takes three bytes,
    the spill of the DWORD store - leaves every other byte alone, and returns
    the length [UTF8EncodeLength] promises, modulo 2^32. *)
Theorem UTF8Encode_exact pIn n m pOut :
  (forall k, in_width 16 (pIn k)) ->
  let cs := mem_bytes pIn 0 n in
  let '(m', r) := UTF8Encode pIn n m pOut in
  (forall a, m' a = mstore m pOut (utf8 cs ++ spill cs) a) /\
  r = u32 (UTF8EncodeLength pIn n) /\
  UTF8EncodeLength pIn n = Z.of_nat (length (utf8 cs)).
Proof.
  intros Hw cs. unfold UTF8Encode, UTF8EncodeLength.
  pose proof (enc_loop_spec n pIn 0 m pOut Hw) as H.
  destruct (enc_loop n pIn 0 m pOut) as [m' p']. destruct H as [-> H].
  rewrite enc_len_spec by done. split; [done|]. split; [f_equal; lia|done].
Qed.

Lemma UTF8Encode_exact_witness :
  let pIn := mem_of 0 0 [0x41; 0xe9; 0x20ac] in
  (forall k, in_width 16 (pIn k)) /\
  let cs := mem_bytes pIn 0 3 in
  let '(m', r) := UTF8Encode pIn 3 (mem_of 7 0 []) 100 in
  (forall a, m' a = mstore (mem_of 7 0 []) 100 (utf8 cs ++ spill cs) a) /\
  r = u32 (UTF8EncodeLength pIn 3) /\
  UTF8EncodeLength pIn 3 = Z.of_nat (length (utf8 cs)).
Proof.
  intros pIn. assert (H : forall k, in_width 16 (pIn k)).
  { intros k. unfold pIn, mem_of. destruct (_ && _); [|unwrap; lia].
    change 0x41 with 65. destruct (Z.to_nat (k - 0)) as [|[|[|[|j]]]]; cbn; unwrap; lia. }
  split; [exact H|]. exact (UTF8Encode_exact pIn 3 (mem_of 7 0 []) 100 H).
Defined.

(** ** The decoders *)

(** The store one round of the decoding loop makes, if any. *)
Definition dec_store (c p1 p2 : Z) (out : mem) (p : Z) : mem :=
  if c <=? 0x7f then mset out p c
  else if (c .& 0xf0) =? 0xe0 then mset out p (unit3 c p1 p2)
  else if (c .& 0xe0) =? 0xc0 then mset out p (unit2 c p1)
  else out.

Lemma dec_loop_step f m pIn len i out p : i < len ->
  dec_loop (S f) m pIn len i out p =
  let c := u8 (m (pIn + i)) in
  dec_loop f m pIn len (i + lead_size c)
    (dec_store c (m (pIn + (i + 1))) (m (pIn + (i + 2))) out p) (p + 1).
Proof.
  intros Hi. cbn [dec_loop]. rewrite (proj2 (Z.ltb_lt i len)) by done. cbn zeta.
  unfold lead_size, dec_store. set (c := u8 _).
  by destruct (c <=? 0x7f), ((c .& 0xf0) =? 0xe0), ((c .& 0xe0) =? 0xc0).
Qed.

Lemma lead_size_range c : 1 <= lead_size c <= 3.
Proof. unfold lead_size. repeat case_bool; lia. Qed.

Lemma dec_store_out c p1 p2 out p a : a <> p -> dec_store c p1 p2 out p a = out a.
Proof. intros. unfold dec_store. repeat case_bool; try done; by apply mset_ne. Qed.

Lemma dec_loops f m1 m2 pIn len i out p o :
  0 <= i -> len - i <= Z.of_nat f -> agree (pIn + i) (pIn + len + 2) m1 m2 ->
  exists k out', dec_len_loop f m1 pIn len i o = Some (o + k) /\
    dec_loop f m1 pIn len i out p = Some (out', p + k) /\
    dec_loop f m2 pIn len i out p = Some (out', p + k) /\
    dec_len_loop f m2 pIn len i o = Some (o + k) /\
    0 <= k <= Z.max 0 (len - i) /\ len - i <= 3 * k /\
    forall a, a < p \/ p + k <= a -> out' a = out a.
Proof.
  revert i out p o. induction f as [|f IH]; intros i out p o Hi Hf Ha.
  { exists 0, out. cbn [dec_len_loop dec_loop]. rewrite (proj2 (Z.ltb_ge i len)) by lia.
    rewrite !Z.add_0_r. repeat split; try (done || lia). }
  destruct (Z.ltb_spec i len) as [Hl|Hl].
  2:{ exists 0, out. cbn [dec_len_loop dec_loop]. rewrite (proj2 (Z.ltb_ge i len)) by lia.
      rewrite !Z.add_0_r. repeat split; try (done || lia). }
  rewrite !dec_loop_step by done. cbn [dec_len_loop]. rewrite (proj2 (Z.ltb_lt i len)) by done.
  cbn zeta. rewrite <- !(Ha _) by lia. set (c := u8 (m1 (pIn + i))).
  pose proof (lead_size_range c).
  destruct (IH (i + lead_size c) (dec_store c (m1 (pIn + (i + 1))) (m1 (pIn + (i + 2))) out p)
              (p + 1) (o + 1)) as (k & out' & E1 & E2 & E3 & E4 & Hk & Hk' & Ho); [lia..| |].
  { apply (agree_sub _ _ _ _ _ _ Ha); lia. }
  exists (k + 1), out'. rewrite E1, E2, E3, E4.
  repeat split; try (f_equal; f_equal; lia); try (f_equal; lia); try lia.
  intros a Hout. rewrite Ho by lia. apply dec_store_out. lia.
Qed.

(** On any byte string, well formed or not, [os::UTF8Decode] terminates,
    stores only in the [k] output units [os::UTF8DecodeLength] counts
    ([len/3 <= k <= len]), returns [k] modulo 2^32, and depends on no byte
    beyond [pIn + len + 1]: a truncated sequence reads at most two bytes past
    the end. *)
Theorem UTF8Decode_bounded m1 m2 pIn n out pOut :
  agree pIn (pIn + Z.of_nat n + 2) m1 m2 ->
  exists k out', UTF8DecodeLength m1 pIn n = Some k /\ UTF8DecodeLength m2 pIn n = Some k /\
    UTF8Decode m1 pIn n out pOut = Some (out', u32 k) /\
    UTF8Decode m2 pIn n out pOut = Some (out', u32 k) /\
    0 <= k <= Z.of_nat n /\ Z.of_nat n <= 3 * k /\
    forall a, a < pOut \/ pOut + k <= a -> out' a = out a.
Proof.
  intros Ha. destruct (dec_loops n m1 m2 pIn (Z.of_nat n) 0 out pOut 0)
    as (k & out' & E1 & E2 & E3 & E4 & Hk & Hk' & Ho); [lia..| |].
  { by rewrite Z.add_0_r. }
  exists k, out'. unfold UTF8DecodeLength, UTF8Decode. rewrite E1, E2, E3, E4.
  replace (pOut + k - pOut) with k by lia. repeat split; (done || lia).
Qed.

Lemma UTF8Decode_bounded_witness :
  let m1 := mem_of 0 0 (str "ab") in
  agree 0 (0 + Z.of_nat 2 + 2) m1 m1 /\
  exists k out', UTF8DecodeLength m1 0 2 = Some k /\ UTF8DecodeLength m1 0 2 = Some k /\
    UTF8Decode m1 0 2 (mem_of 0 0 []) 50 = Some (out', u32 k) /\
    UTF8Decode m1 0 2 (mem_of 0 0 []) 50 = Some (out', u32 k) /\
    0 <= k <= Z.of_nat 2 /\ Z.of_nat 2 <= 3 * k /\
    forall a, a < 50 \/ 50 + k <= a -> out' a = mem_of 0 0 [] a.
Proof.
  intros m1. assert (H : agree 0 (0 + Z.of_nat 2 + 2) m1 m1) by (intros a _; done).
  split; [exact H|]. exact (UTF8Decode_bounded m1 m1 0 2 (mem_of 0 0 []) 50 H).
Defined.

(** ** Round trip *)

(** A lead byte as the decoder's tests see it: its class, and the bits it
    carries. *)
Lemma lead_bytes : forallb (fun c =>
  if c <=? 0x7f then true
  else if c <? 0xc0 then true
  else if c <? 0xe0 then negb ((c .& 0xf0) =? 0xe0) && ((c .& 0xe0) =? 0xc0) && ((c .& 0x1f) =? c - 0xc0)
  else if c <? 0xf0 then ((c .& 0xf0) =? 0xe0) && ((c .& 0xf) =? c - 0xe0)
  else true) (seqZ 0 256) = true.
Proof. vm_compute. reflexivity. Qed.

Lemma low6 x : 0 <= x < 64 -> (0x80 + x) .& 0x3f = x.
Proof. intros. change 0x3f with (2 ^ 6 - 1). rewrite land_mask by lia. zlia. Qed.

Lemma unit3_fields c a b d : in_width 16 c -> 0 <= a < 16 -> 0 <= b < 64 -> 0 <= d < 64 ->
  c = 4096 * a + 64 * b + d -> (0xe0 + a) .& 0xf = a -> unit3 (0xe0 + a) (0x80 + b) (0x80 + d) = c.
Proof.
  intros Hc Ha Hb Hd E Hl. unfold unit3. rewrite Hl, !low6, !shl_mul by done.
  replace (a * 2 ^ 12) with (a * 2 ^ 6 * 2 ^ 6) by lia. rewrite <- Z.lor_assoc, (lor_low 6 b d) by done.
  replace (a * 2 ^ 6 * 2 ^ 6) with (a * 2 ^ 12) by lia. rewrite lor_low by (lia || (split; lia)).
  unwrap. rewrite Z.mod_small by lia. lia.
Qed.

Lemma unit2_fields c : 0x7f < c <= 0x7ff -> (0xc0 + c / 64) .& 0x1f = c / 64 ->
  unit2 (0xc0 + c / 64) (0x80 + c mod 64) = c.
Proof.
  intros Hc Hl. unfold unit2. rewrite Hl, low6, shl_mul by zlia.
  rewrite lor_low by (lia || (split; zlia)). unwrap. rewrite Z.mod_small by zlia. zlia.
Qed.

Lemma utf8_unit c : in_width 16 c ->
  let bs := utf8_bytes c in
  let c0 := u8 (nth 0 bs 0) in
  (lead_size c0 =? Z.of_nat (length bs)) &&
  (if c0 <=? 0x7f then c0 =? c
   else if (c0 .& 0xf0) =? 0xe0 then unit3 c0 (nth 1 bs 0) (nth 2 bs 0) =? c
   else ((c0 .& 0xe0) =? 0xc0) && (unit2 c0 (nth 1 bs 0) =? c)) = true.
Proof.
  intros Hc. unfold utf8_bytes, lead_size. cbn zeta.
  destruct (Z.leb_spec c 0x7f) as [H1|H1]; [|destruct (Z.ltb_spec 0x7ff c) as [H2|H2]]; cbn [nth length].
  - rewrite u8_id by (destruct Hc; split; lia). rewrite (proj2 (Z.leb_le _ _)) by done. rewrite (Z.eqb_refl c). done.
  - destruct (unit_fields c Hc) as (Ha & Hb & Hd & E). cbn zeta in *. set (a := c / 4096) in *.
    assert (Hx : is_byte (0xe0 + a)) by (split; lia). rewrite u8_id by done.
    pose proof (byte_forall _ lead_bytes _ Hx) as HB. cbn beta in HB.
    rewrite (proj2 (Z.leb_gt _ 0x7f)), (proj2 (Z.ltb_ge _ 0xc0)), (proj2 (Z.ltb_ge _ 0xe0)), (proj2 (Z.ltb_lt _ 0xf0)) in HB by lia.
    bool_prop. rewrite (proj2 (Z.leb_gt _ 0x7f)), (proj2 (Z.eqb_eq _ 0xe0)) by (done || lia). cbn [andb].
    rewrite (unit3_fields c a) by (done || lia). apply Z.eqb_refl.
  - assert (Hx : is_byte (0xc0 + c / 64)) by (split; zlia). rewrite u8_id by done.
    pose proof (byte_forall _ lead_bytes _ Hx) as HB. cbn beta in HB.
    rewrite (proj2 (Z.leb_gt _ 0x7f)), (proj2 (Z.ltb_ge _ 0xc0)), (proj2 (Z.ltb_lt _ 0xe0)) in HB by zlia.
    apply andb_true_iff in HB as [HB H5]. apply andb_true_iff in HB as [H3 H4]. apply negb_true_iff in H3.
    rewrite (proj2 (Z.leb_gt _ 0x7f)), H3, H4 by zlia. cbn [andb].
    rewrite unit2_fields by (lia || (apply Z.eqb_eq in H5; lia)). apply Z.eqb_refl.
Qed.

Lemma utf8_bytes_length c : length (utf8_bytes c) = 1%nat \/ length (utf8_bytes c) = 2%nat \/
  length (utf8_bytes c) = 3%nat.
Proof. unfold utf8_bytes. repeat case_bool; auto. Qed.

(** One decoding round over an encoded unit yields the unit. *)
Lemma dec_store_unit m p c out q : in_width 16 c -> holds m p (utf8_bytes c) ->
  lead_size (u8 (m p)) = Z.of_nat (length (utf8_bytes c)) /\
  dec_store (u8 (m p)) (m (p + 1)) (m (p + 2)) out q = mset out q c.
Proof.
  intros Hc Hh. pose proof (utf8_unit c Hc) as H. cbn zeta in H.
  apply andb_true_iff in H as [Hs H]. apply Z.eqb_eq in Hs.
  assert (H0 : m p = nth 0 (utf8_bytes c) 0).
  { rewrite <- (holds_nth m p _ 0 0) by (done || apply utf8_bytes_pos). f_equal. lia. }
  rewrite H0. set (c0 := u8 (nth 0 (utf8_bytes c) 0)) in *. split; [done|].
  unfold lead_size in Hs. unfold dec_store.
  destruct (c0 <=? 0x7f); [apply Z.eqb_eq in H; by rewrite H|].
  destruct ((c0 .& 0xf0) =? 0xe0).
  - assert (E1 : m (p + 1) = _) by exact (holds_nth m p _ 1 0 Hh ltac:(lia)).
    assert (E2 : m (p + 2) = _) by exact (holds_nth m p _ 2 0 Hh ltac:(lia)).
    rewrite E1, E2. apply Z.eqb_eq in H. by rewrite H.
  - apply andb_true_iff in H as [H2 H]. rewrite H2 in *.
    assert (E1 : m (p + 1) = _) by exact (holds_nth m p _ 1 0 Hh ltac:(lia)).
    rewrite E1. apply Z.eqb_eq in H. by rewrite H.
Qed.

Lemma utf8_cons c cs : utf8 (c :: cs) = utf8_bytes c ++ utf8 cs.
Proof. reflexivity. Qed.

Lemma utf8_app a b : utf8 (a ++ b) = utf8 a ++ utf8 b.
Proof. unfold utf8. by rewrite map_app, concat_app. Qed.

Lemma length_utf8_ge cs : (length cs <= length (utf8 cs))%nat.
Proof.
  induction cs as [|c cs IH]; [done|]. rewrite utf8_cons, length_app. cbn.
  pose proof (utf8_bytes_pos c). lia.
Qed.

Lemma dec_loop_utf8 cs : forall f m pIn len i out p,
  units cs -> holds m (pIn + i) (utf8 cs) -> 0 <= i ->
  len = i + Z.of_nat (length (utf8 cs)) -> (length cs <= f)%nat ->
  dec_loop f m pIn len i out p = Some (mstore out p cs, p + Z.of_nat (length cs)).
Proof.
  induction cs as [|c cs IH]; intros f m pIn len i out p Hu Hh Hi Hl Hf.
  { cbn in Hl. replace len with i by lia. destruct f; cbn [dec_loop mstore length];
      rewrite Z.ltb_irrefl, Z.add_0_r; done. }
  destruct f as [|f]; [cbn in Hf; lia|]. inversion_clear Hu as [|? ? Hc Hcs].
  rewrite utf8_cons in *. apply holds_app in Hh as [Hh1 Hh2]. rewrite length_app in Hl.
  pose proof (utf8_bytes_pos c). rewrite dec_loop_step by lia. cbn zeta.
  destruct (dec_store_unit m (pIn + i) c out p Hc Hh1) as [E1 E2].
  replace (pIn + (i + 1)) with (pIn + i + 1) by lia.
  replace (pIn + (i + 2)) with (pIn + i + 2) by lia. rewrite E2, E1.
  cbn [length] in Hf. rewrite (IH f m pIn len) by (try done; try lia;
    replace (pIn + (i + Z.of_nat (length (utf8_bytes c))))
      with (pIn + i + Z.of_nat (length (utf8_bytes c))) by lia; done).
  cbn [mstore length]. do 2 f_equal. lia.
Qed.

Lemma offset_loop_utf8 cs : forall m pIn len i,
  units cs -> holds m (pIn + i) (utf8 cs) -> i + Z.of_nat (length (utf8 cs)) <= len ->
  offset_loop (length cs) m pIn len i = i + Z.of_nat (length (utf8 cs)).
Proof.
  induction cs as [|c cs IH]; intros m pIn len i Hu Hh Hl; cbn [offset_loop length]; [cbn; lia|].
  inversion_clear Hu as [|? ? Hc Hcs]. rewrite utf8_cons in *.
  apply holds_app in Hh as [Hh1 Hh2]. rewrite length_app in *. pose proof (utf8_bytes_pos c).
  case_cmp. destruct (dec_store_unit m (pIn + i) c m 0 Hc Hh1) as [-> _].
  rewrite IH; [lia|done| |lia].
  by replace (pIn + (i + Z.of_nat (length (utf8_bytes c))))
      with (pIn + i + Z.of_nat (length (utf8_bytes c))) by lia.
Qed.

Lemma dec_len_utf8 cs : forall f m pIn len i o,
  units cs -> holds m (pIn + i) (utf8 cs) -> len = i + Z.of_nat (length (utf8 cs)) -> (length cs <= f)%nat ->
  dec_len_loop f m pIn len i o = Some (o + Z.of_nat (length cs)).
Proof.
  induction cs as [|c cs IH]; intros f m pIn len i o Hu Hh Hl Hf.
  { cbn in Hl. destruct f; cbn [dec_len_loop length]; rewrite (proj2 (Z.ltb_ge i len)) by lia; f_equal; lia. }
  destruct f as [|f]; [cbn in Hf; lia|]. inversion_clear Hu as [|? ? Hc Hcs]. cbn [dec_len_loop].
  rewrite utf8_cons in *. apply holds_app in Hh as [Hh1 Hh2]. rewrite length_app in Hl. pose proof (utf8_bytes_pos c).
  rewrite (proj2 (Z.ltb_lt i len)) by lia. destruct (dec_store_unit m (pIn + i) c m 0 Hc Hh1) as [-> _].
  cbn [length] in *. rewrite IH; [f_equal; lia|done| |lia|lia].
  by replace (pIn + (i + Z.of_nat (length (utf8_bytes c)))) with (pIn + i + Z.of_nat (length (utf8_bytes c))) by lia.
Qed.

Lemma decode_char_unit m p c : in_width 16 c -> holds m p (utf8_bytes c) ->
  UTF8Decode_char m p = (c, p + Z.of_nat (length (utf8_bytes c))).
Proof.
  intros Hc Hh. destruct (dec_store_unit m p c (fun _ => -1) 0 Hc Hh) as [E1 E2].
  assert (E3 := f_equal (fun f => f 0) E2). cbn beta in E3. rewrite mset_eq in E3.
  assert (Hn : c <> -1) by (unwrap; lia). rewrite <- E1.
  unfold UTF8Decode_char, lead_size. unfold dec_store in E3.
  destruct (u8 (m p) <=? 0x7f); [by rewrite mset_eq in E3; rewrite E3|].
  destruct (_ =? 0xe0); [by rewrite mset_eq in E3; rewrite E3|].
  destruct (_ =? 0xc0); [by rewrite mset_eq in E3; rewrite E3|]. congruence.
Qed.

Lemma length_utf8_le cs : Z.of_nat (length (utf8 cs)) <= 3 * Z.of_nat (length cs).
Proof.
  induction cs as [|c cs IH]; [done|]. rewrite utf8_cons, length_app. cbn [length].
  destruct (utf8_bytes_length c) as [E|[E|E]]; rewrite E; lia.
Qed.

(** C38: what [UTF8Encode] writes for fewer than [2^30] units of 16 bits, each encoded
    on its own, surrogates included, is as long as [UTF8EncodeLength] says and
    decodes to them: [UTF8DecodeLength] counts them, [UTF8Decode] stores exactly the
    units and returns their number, the parser of one character
    [UTF8Decode(LPCSTR&)] gives the first of them and steps over it, and
    [UTF8ByteOffset] of a number of units is the length of their encoding. *)
Theorem UTF8_roundtrip pIn n m pOut m1 r out p2 :
  (forall k, in_width 16 (pIn k)) -> Z.of_nat n < 2 ^ 30 -> UTF8Encode pIn n m pOut = (m1, r) ->
  r = UTF8EncodeLength pIn n /\
  UTF8DecodeLength m1 pOut (Z.to_nat r) = Some (Z.of_nat n) /\
  UTF8Decode m1 pOut (Z.to_nat r) out p2 = Some (mstore out p2 (mem_bytes pIn 0 n), Z.of_nat n) /\
  ((0 < n)%nat -> UTF8Decode_char m1 pOut = (pIn 0, pOut + UTF8EncodeLength pIn 1)) /\
  (forall k, (k <= n)%nat -> UTF8ByteOffset m1 pOut r k = UTF8EncodeLength pIn k).
Proof.
  intros Hw Hn E. set (cs := mem_bytes pIn 0 n). assert (Lcs : length cs = n) by apply length_mem_bytes.
  assert (Hu : units cs).
  { unfold cs. clear -Hw. generalize 0. induction n as [|k IH]; intros z; constructor; [apply Hw|apply IH]. }
  assert (Elen : forall k, UTF8EncodeLength pIn k = Z.of_nat (length (utf8 (mem_bytes pIn 0 k)))) by (intros k; unfold UTF8EncodeLength; by rewrite enc_len_spec).
  assert (Hle := length_utf8_le cs). assert (Hge := length_utf8_ge cs). unfold UTF8Encode in E.
  pose proof (enc_loop_spec n pIn 0 m pOut Hw) as H. destruct (enc_loop n pIn 0 m pOut) as [m' p']. destruct H as [-> H].
  injection E as -> <-. fold cs in H. assert (Er : u32 (pOut + Z.of_nat (length (utf8 cs)) - pOut) = Z.of_nat (length (utf8 cs))) by (rewrite u32_id by lia; lia).
  fold cs. rewrite Er, Elen. fold cs. rewrite Nat2Z.id.
  assert (Hh : holds m1 pOut (utf8 cs)) by (apply (wrote_holds m pOut (utf8 cs ++ spill cs)) in H; by apply holds_app in H as [H _]).
  assert (Hh0 : holds m1 (pOut + 0) (utf8 cs)) by (by rewrite Z.add_0_r).
  split; [done|]. split; [|split; [|split]].
  - unfold UTF8DecodeLength. rewrite (dec_len_utf8 cs) by (done || lia). f_equal. lia.
  - unfold UTF8Decode. rewrite (dec_loop_utf8 cs) by (done || lia). do 2 f_equal. rewrite Lcs, u32_id by lia. lia.
  - intros Hpos. rewrite Elen. destruct n as [|k]; [lia|]. unfold cs in Hh. cbn [mem_bytes] in Hh |- *. rewrite utf8_cons in *.
    apply holds_app in Hh as [Hh _]. cbn [utf8 map concat]. rewrite app_nil_r. by apply decode_char_unit.
  - intros k Hk. rewrite Elen. unfold UTF8ByteOffset.
    assert (Es : cs = mem_bytes pIn 0 k ++ mem_bytes pIn (0 + Z.of_nat k) (n - k)) by (rewrite <- mem_bytes_app; unfold cs; f_equal; lia).
    rewrite Es, utf8_app in Hh0 |- *. apply holds_app in Hh0 as [Hh0 _]. rewrite length_app.
    pose proof (offset_loop_utf8 (mem_bytes pIn 0 k) m1 pOut (Z.of_nat (length (utf8 (mem_bytes pIn 0 k)) + length (utf8 (mem_bytes pIn (0 + Z.of_nat k) (n - k))))) 0) as O.
    rewrite length_mem_bytes in O. rewrite O; [lia| |done|lia].
    rewrite Es in Hu. by apply Forall_app in Hu as [Hu _].
Qed.

Lemma UTF8_roundtrip_witness :
  let pIn := mem_of 0 0 [0x4e2d; 0x41; 0x3b1] in
  let r := UTF8Encode pIn 3 (mem_of 7 0 []) 100 in
  (forall k, in_width 16 (pIn k)) /\ snd r = 6 /\ UTF8DecodeLength (fst r) 100 6 = Some 3 /\
  UTF8Decode (fst r) 100 6 (mem_of 0 0 []) 50 = Some (mstore (mem_of 0 0 []) 50 [0x4e2d; 0x41; 0x3b1], 3) /\
  UTF8ByteOffset (fst r) 100 6 2 = 4.
Proof.
  intros pIn r. assert (H : forall k, in_width 16 (pIn k)).
  { intros k. unfold pIn, mem_of. destruct (_ && _); [|unwrap; lia].
    change 0x41 with 65. destruct (Z.to_nat (k - 0)) as [|[|[|[|j]]]]; cbn; unwrap; lia. }
  destruct (UTF8_roundtrip pIn 3 (mem_of 7 0 []) 100 (fst r) (snd r) (mem_of 0 0 []) 50 H eq_refl (surjective_pairing r)) as (E1 & E2 & E3 & _ & E5).
  assert (E : snd r = 6) by (vm_compute; reflexivity). rewrite E in *.
  split; [exact H|]. split; [reflexivity|]. split; [exact E2|]. split; [exact E3|].
  rewrite (E5 2%nat ltac:(lia)). reflexivity.
Defined.
