(* ===== verification/Base64.v ===== *)
(** Base64 of os/kernal_encode.cpp.  The source and the destination are
    distinct buffers: an encoder or decoder is a function of the source bytes
    to the bytes it stores, in order, from the start of the destination. *)
From S2P Require Import Prelude.

(** ** Definitions *)

Definition b64_table : list Z :=
  str "ABCDEFGHIJKLMNOPQRSTUVWXYZabcdefghijklmnopqrstuvwxyz0123456789+/".
Definition b64_enc (v : Z) : Z := nth (Z.to_nat v) b64_table 0.

(** [_isb64] on the [int] of a [char] *)
Definition isb64 (ch : Z) : bool :=
  let c := s8 ch in
  ((chr "a" <=? c) && (c <=? chr "z")) || ((chr "A" <=? c) && (c <=? chr "Z")) ||
  ((chr "0" <=? c) && (c <=? chr "9")) || (c =? chr "+") || (c =? chr "/").

Definition Base64EncodeLength (len : Z) : Z := u64 (u64 (len + 2) / 3 * 4).

Fixpoint Base64Encode (p : list Z) : list Z :=
  match p with
  | p0 :: p1 :: p2 :: t =>
    b64_enc (p0 .>> 2) :: b64_enc (((p0 .& 0x3) .<< 4) .| (p1 .>> 4)) ::
    b64_enc (((p1 .& 0xf) .<< 2) .| (p2 .>> 6)) :: b64_enc (p2 .& 0x3f) ::
    Base64Encode t
  | [p0; p1] =>
    [b64_enc (p0 .>> 2); b64_enc (((p0 .& 0x3) .<< 4) .| (p1 .>> 4));
     b64_enc ((p1 .& 0xf) .<< 2); chr "="]
  | [p0] => [b64_enc (p0 .>> 2); b64_enc ((p0 .& 0x3) .<< 4); chr "="; chr "="]
  | [] => []
  end.

Definition Base64DecodeLength (s : list Z) : Z :=
  let str_len := Z.of_nat (length s) in
  if str_len <=? 3 then 0
  else
    let fulllen := (str_len + 3) / 4 * 3 in
    let miss := (4 - (str_len .& 3)) .& 3 in
    let b2 := isb64 (nth (length s - 2) s 0) in
    let b1 := isb64 (nth (length s - 1) s 0) in
    if b2 && b1 && (miss <=? 2) then Z.max 0 (fulllen - miss)
    else if b2 && negb b1 then Z.max 0 (fulllen - (miss + 1))
    else if negb b2 && negb b1 && (miss =? 0) then Z.max 0 (fulllen - 2)
    else fulllen.

Definition rev_table : list Z :=
  [62; -1; -1; -1; 63; 52; 53; 54; 55; 56; 57; 58; 59; 60; 61;
   -1; -1; -1; -1; -1; -1; -1;
   0; 1; 2; 3; 4; 5; 6; 7; 8; 9; 10; 11; 12; 13; 14; 15; 16; 17; 18; 19;
   20; 21; 22; 23; 24; 25; -1; -1; -1; -1; -1; -1;
   26; 27; 28; 29; 30; 31; 32; 33; 34; 35; 36; 37; 38; 39; 40; 41; 42; 43; 44; 45; 46;
   47; 48; 49; 50; 51].

Definition rev_at (ch : Z) : Z := nth (Z.to_nat (s8 ch - 0x2b)) rev_table (-1).

(** [IsInRange_CC<int>(ch,0x2b,0x7a) && (a=rev_table[ch-0x2b])>=0] *)
Definition b64_rev (ch : Z) : option Z :=
  if (0x2b <=? s8 ch) && (s8 ch <=? 0x7a) && (0 <=? rev_at ch) then Some (rev_at ch) else None.

Definition out0 (a0 a1 : Z) : Z := u8 ((a0 .<< 2) .| (a1 .>> 4)).
Definition out1 (a1 a2 : Z) : Z := u8 (((a1 .& 0xf) .<< 4) .| (a2 .>> 2)).
Definition out2 (a2 a3 : Z) : Z := u8 (((a2 .& 0x3) .<< 6) .| a3).

(** The [for(;str_len>4;...)] loop: the bytes stored and the text left when it
    ends or breaks. *)
Fixpoint b64_dec_loop (s : list Z) : list Z * list Z :=
  match s with
  | c0 :: c1 :: c2 :: c3 :: ((_ :: _) as t) =>
    match b64_rev c0, b64_rev c1, b64_rev c2, b64_rev c3 with
    | Some a0, Some a1, Some a2, Some a3 =>
      let '(o, rest) := b64_dec_loop t in
      (out0 a0 a1 :: out1 a1 a2 :: out2 a2 a3 :: o, rest)
    | _, _, _, _ => ([], s)
    end
  | _ => ([], s)
  end.

(** The three ways the last group ends, once its first two characters are
    sextets; [ret] is [str_len <= 4]. *)
Definition b64_last (ret : bool) (a0 a1 l2 l3 : Z) : bool * list Z :=
  if isb64 l2 && isb64 l3 then
    (ret, [out0 a0 a1; out1 a1 (rev_at l2); out2 (rev_at l2) (rev_at l3)])
  else if isb64 l2 && negb (isb64 l3) then (ret, [out0 a0 a1; out1 a1 (rev_at l2)])
  else if negb (isb64 l2) && negb (isb64 l3) then (ret, [out0 a0 a1])
  else (false, []).

(** The code after the loop, on the text left: the result and the bytes
    stored ([*pDataOutLen] advances by their number). *)
Definition b64_dec_tail (s : list Z) : bool * list Z :=
  let str_len := Z.of_nat (length s) in
  if str_len =? 0 then (true, [])
  else
    let miss := (4 - (str_len .& 3)) .& 3 in
    let last4 := take (Z.to_nat (4 - miss)) s ++ replicate (Z.to_nat miss) (chr "=") in
    match b64_rev (nth 0 last4 0), b64_rev (nth 1 last4 0) with
    | Some a0, Some a1 => b64_last (str_len <=? 4) a0 a1 (nth 2 last4 0) (nth 3 last4 0)
    | _, _ => (false, [])
    end.

Definition Base64Decode (s : list Z) : bool * list Z :=
  let '(o, rest) := b64_dec_loop s in
  let '(ret, o') := b64_dec_tail rest in (ret, o ++ o').

(** The text without its padding. *)
Definition b64_strip (s : list Z) : list Z := filter (fun c => c <> chr "=") s.

(** ** Alphabet facts *)

Lemma b64_sextets_all : forallb (fun v =>
  let c := b64_enc v in
  isb64 c && negb (c =? chr "=") && (0x2b <=? s8 c) && (s8 c <=? 0x7a) && (rev_at c =? v))
  (seqZ 0 64) = true.
Proof. vm_compute. reflexivity. Qed.

Lemma b64_sextet v : in_width 6 v ->
  isb64 (b64_enc v) = true /\ b64_enc v <> chr "=" /\ rev_at (b64_enc v) = v /\
  b64_rev (b64_enc v) = Some v.
Proof.
  intros Hv. pose proof b64_sextets_all as H. rewrite forallb_forall in H.
  specialize (H v). cbn beta zeta in H.
  assert (Hin : In v (seqZ 0 64)) by (apply list_elem_of_In, elem_of_seqZ; unfold in_width in Hv; lia).
  apply H in Hin. bool_prop. unfold b64_rev.
  rewrite (proj2 (Z.leb_le 0x2b _)), (proj2 (Z.leb_le _ 0x7a)) by done. cbn [andb].
  replace (rev_at (b64_enc v)) with v by done.
  rewrite (proj2 (Z.leb_le 0 v)) by (unfold in_width in Hv; lia). done.
Qed.

(** The four sextets of three bytes. *)
Definition sx0 (p0 : Z) := p0 .>> 2.
Definition sx1 (p0 p1 : Z) := ((p0 .& 0x3) .<< 4) .| (p1 .>> 4).
Definition sx2 (p1 p2 : Z) := ((p1 .& 0xf) .<< 2) .| (p2 .>> 6).
Definition sx3 (p2 : Z) := p2 .& 0x3f.

Definition width6 (v : Z) : bool := (0 <=? v) && (v <? 64).

Lemma b64_pairs_all : all_bytes2 (fun a b =>
  width6 (sx0 a) && width6 (sx1 a b) && width6 (sx2 a b) && width6 (sx3 b) &&
  (out0 (sx0 a) (sx1 a b) =? a)) = true.
Proof. vm_cast_no_check (eq_refl true). Qed.

Lemma width6_true v : width6 v = true -> in_width 6 v.
Proof. unfold width6, in_width. intros. bool_prop. lia. Qed.

Lemma sextets_width a b : is_byte a -> is_byte b ->
  in_width 6 (sx0 a) /\ in_width 6 (sx1 a b) /\ in_width 6 (sx2 a b) /\ in_width 6 (sx3 b) /\
  out0 (sx0 a) (sx1 a b) = a.
Proof.
  intros Ha Hb. pose proof (byte2_forall _ b64_pairs_all a b Ha Hb) as H. cbn beta in H.
  repeat match goal with H : _ && _ = true |- _ => apply andb_true_iff in H; destruct H end.
  apply Z.eqb_eq in H0. auto 10 using width6_true.
Qed.

(** The sextets overlap on disjoint bits, so each byte comes back from two. *)
Lemma out1_pairs_all : all_bytes2 (fun b c =>
  forallb (fun t => out1 ((t .<< 4) .| (b .>> 4)) (sx2 b c) =? b) [0; 1; 2; 3]) = true.
Proof. vm_cast_no_check (eq_refl true). Qed.

Lemma out2_pairs_all : all_bytes2 (fun b c => out2 (sx2 b c) (sx3 c) =? c) = true.
Proof. vm_cast_no_check (eq_refl true). Qed.

Lemma land3 a : is_byte a -> In (a .& 0x3) [0; 1; 2; 3].
Proof.
  intros Ha. change 0x3 with (2 ^ 2 - 1). rewrite land_mask by lia. change (2 ^ 2) with 4.
  assert (H : 0 <= a mod 4 < 4) by (apply Z.mod_pos_bound; lia).
  assert (a mod 4 = 0 \/ a mod 4 = 1 \/ a mod 4 = 2 \/ a mod 4 = 3) as [->|[->|[->| ->]]] by lia;
    cbn; auto.
Qed.

Lemma out1_sextets a b c : is_byte a -> is_byte b -> is_byte c -> out1 (sx1 a b) (sx2 b c) = b.
Proof.
  intros Ha Hb Hc. pose proof (byte2_forall _ out1_pairs_all b c Hb Hc) as H. cbn beta in H.
  rewrite forallb_forall in H. specialize (H (a .& 0x3) (land3 a Ha)). by apply Z.eqb_eq.
Qed.

Lemma out2_sextets b c : is_byte b -> is_byte c -> out2 (sx2 b c) (sx3 c) = c.
Proof. intros Hb Hc. by apply Z.eqb_eq, (byte2_forall _ out2_pairs_all b c). Qed.

(** ** Round trip *)

Lemma Base64Encode_cons3 a b c t :
  Base64Encode (a :: b :: c :: t) =
  [b64_enc (sx0 a); b64_enc (sx1 a b); b64_enc (sx2 b c); b64_enc (sx3 c)] ++ Base64Encode t.
Proof. reflexivity. Qed.

Lemma b64_dec_loop_cons4 c0 c1 c2 c3 t : t <> [] ->
  b64_dec_loop (c0 :: c1 :: c2 :: c3 :: t) =
  match b64_rev c0, b64_rev c1, b64_rev c2, b64_rev c3 with
  | Some a0, Some a1, Some a2, Some a3 =>
    let '(o, rest) := b64_dec_loop t in
    (out0 a0 a1 :: out1 a1 a2 :: out2 a2 a3 :: o, rest)
  | _, _, _, _ => ([], c0 :: c1 :: c2 :: c3 :: t)
  end.
Proof. by destruct t. Qed.

Lemma b64_dec_group a b c t :
  is_byte a -> is_byte b -> is_byte c -> t <> [] ->
  Base64Decode ([b64_enc (sx0 a); b64_enc (sx1 a b); b64_enc (sx2 b c); b64_enc (sx3 c)] ++ t) =
  let '(ret, o) := Base64Decode t in (ret, a :: b :: c :: o).
Proof.
  intros Ha Hb Hc Ht. unfold Base64Decode. cbn [app]. rewrite b64_dec_loop_cons4 by done.
  destruct (sextets_width a b Ha Hb) as (W0 & W1 & _ & _ & E0).
  destruct (sextets_width b c Hb Hc) as (_ & _ & W2 & W3 & _).
  rewrite (proj2 (proj2 (proj2 (b64_sextet _ W0)))), (proj2 (proj2 (proj2 (b64_sextet _ W1)))),
    (proj2 (proj2 (proj2 (b64_sextet _ W2)))), (proj2 (proj2 (proj2 (b64_sextet _ W3)))).
  destruct (b64_dec_loop t) as [o rest]. destruct (b64_dec_tail rest) as [ret o'].
  by rewrite E0, out1_sextets, out2_sextets by done.
Qed.

Lemma zero_byte : is_byte 0.
Proof. unwrap. lia. Qed.

Lemma sx1_0 a : is_byte a -> sx1 a 0 = (a .& 3) .<< 4.
Proof. intros. unfold sx1. change (0 .>> 4) with 0. by rewrite Z.lor_0_r. Qed.

Lemma sx2_0 b : sx2 b 0 = (b .& 0xf) .<< 2.
Proof. unfold sx2. change (0 .>> 6) with 0. by rewrite Z.lor_0_r. Qed.

Lemma b64_dec_short s : (length s <= 4)%nat ->
  Base64Decode s = let '(ret, o) := b64_dec_tail s in (ret, o).
Proof. unfold Base64Decode. by destruct s as [|a [|b [|c [|d [|e s]]]]]; cbn; intros; try lia. Qed.

(** The tail code on a group of two to four characters. *)
Lemma b64_tail_eq s : (2 <= length s <= 4)%nat ->
  b64_dec_tail s =
  let l4 := take 4 (s ++ [chr "="; chr "="]) in
  match b64_rev (nth 0 l4 0), b64_rev (nth 1 l4 0) with
  | Some a0, Some a1 => b64_last true a0 a1 (nth 2 l4 0) (nth 3 l4 0)
  | _, _ => (false, [])
  end.
Proof. by destruct s as [|a [|b [|c [|d [|e s]]]]]; cbn [length]; intros; try lia. Qed.

(** The last one, two or three bytes, padded or not. *)
Lemma b64_dec_last1 a pad : is_byte a -> pad = [chr "="; chr "="] \/ pad = [] ->
  Base64Decode ([b64_enc (sx0 a); b64_enc (sx1 a 0)] ++ pad) = (true, [a]).
Proof.
  intros Ha Hp. destruct (sextets_width a 0 Ha zero_byte) as (W0 & W1 & _ & _ & E0).
  destruct (b64_sextet _ W0) as (_ & _ & _ & R0). destruct (b64_sextet _ W1) as (_ & _ & _ & R1).
  destruct Hp as [-> | ->]; rewrite b64_dec_short, b64_tail_eq by (cbn; lia);
    cbn [app take nth]; unfold b64_last; change (isb64 (chr "=")) with false;
    by rewrite R0, R1, E0.
Qed.

Lemma b64_dec_last2 a b pad : is_byte a -> is_byte b -> pad = [chr "="] \/ pad = [] ->
  Base64Decode ([b64_enc (sx0 a); b64_enc (sx1 a b); b64_enc (sx2 b 0)] ++ pad) = (true, [a; b]).
Proof.
  intros Ha Hb Hp. destruct (sextets_width a b Ha Hb) as (W0 & W1 & _ & _ & E0).
  destruct (sextets_width b 0 Hb zero_byte) as (_ & _ & W2 & _ & _).
  destruct (b64_sextet _ W0) as (_ & _ & _ & R0). destruct (b64_sextet _ W1) as (_ & _ & _ & R1).
  destruct (b64_sextet _ W2) as (I2 & _ & V2 & _).
  pose proof (out1_sextets a b 0 Ha Hb zero_byte) as E1.
  destruct Hp as [-> | ->]; rewrite b64_dec_short, b64_tail_eq by (cbn; lia);
    cbn [app take nth]; unfold b64_last; change (isb64 (chr "=")) with false;
    by rewrite R0, R1, I2, V2, E0, E1.
Qed.

Lemma b64_dec_last3 a b c : is_byte a -> is_byte b -> is_byte c ->
  Base64Decode [b64_enc (sx0 a); b64_enc (sx1 a b); b64_enc (sx2 b c); b64_enc (sx3 c)] =
  (true, [a; b; c]).
Proof.
  intros Ha Hb Hc. destruct (sextets_width a b Ha Hb) as (W0 & W1 & _ & _ & E0).
  destruct (sextets_width b c Hb Hc) as (_ & _ & W2 & W3 & _).
  destruct (b64_sextet _ W0) as (_ & _ & _ & R0). destruct (b64_sextet _ W1) as (_ & _ & _ & R1).
  destruct (b64_sextet _ W2) as (I2 & _ & V2 & _). destruct (b64_sextet _ W3) as (I3 & _ & V3 & _).
  rewrite b64_dec_short, b64_tail_eq by (cbn; lia). cbn [app take nth]. unfold b64_last.
  by rewrite R0, R1, I2, I3, V2, V3, E0, out1_sextets, out2_sextets by done.
Qed.

Lemma b64_strip_app s t : b64_strip (s ++ t) = b64_strip s ++ b64_strip t.
Proof. unfold b64_strip. apply filter_app. Qed.

Lemma b64_strip_sextets vs : Forall (in_width 6) vs ->
  b64_strip (map b64_enc vs) = map b64_enc vs.
Proof.
  unfold b64_strip. induction 1 as [|v vs Hv Hvs IH]; [done|]. cbn [map].
  rewrite filter_cons_True by apply b64_sextet, Hv. by rewrite IH.
Qed.

Lemma Base64Encode_last1 a : is_byte a ->
  Base64Encode [a] = map b64_enc [sx0 a; sx1 a 0] ++ [chr "="; chr "="].
Proof. intros. cbn [map app]. by rewrite sx1_0. Qed.

Lemma Base64Encode_last2 a b :
  Base64Encode [a; b] = map b64_enc [sx0 a; sx1 a b; sx2 b 0] ++ [chr "="].
Proof. cbn [map app]. by rewrite sx2_0. Qed.

Lemma Base64Encode_nonnil l : l <> [] -> Base64Encode l <> [].
Proof. by destruct l as [|a [|b [|c l]]]. Qed.

(** Both forms of the text decode, and have the length computed for them. *)
Definition b64_decodes (l : list Z) : Prop :=
  Base64Decode (Base64Encode l) = (true, l) /\
  Base64Decode (b64_strip (Base64Encode l)) = (true, l).

Lemma b64_strip_nonnil l : bytes l -> l <> [] -> b64_strip (Base64Encode l) <> [].
Proof.
  intros Hl Hn. assert (E : exists v t, Base64Encode l = b64_enc v :: t /\ in_width 6 v).
  { destruct l as [|a [|b [|c l]]]; [done| | |];
      (do 2 eexists; split; [reflexivity|]); inversion_clear Hl; by apply (sextets_width a 0). }
  destruct E as (v & t & -> & Hv). unfold b64_strip.
  by rewrite filter_cons_True by apply b64_sextet, Hv.
Qed.

Lemma b64_roundtrip l : bytes l -> b64_decodes l.
Proof.
  induction l as [l Hlen|a b c l IH] using list_ind3; intros Hl.
  - destruct l as [|a [|b [|c l]]]; cbn in Hlen; try lia.
    + by split.
    + inversion_clear Hl as [|? ? Ha _]. split; rewrite Base64Encode_last1 by done.
      * apply b64_dec_last1; auto.
      * rewrite b64_strip_app, b64_strip_sextets by
          (forall_list; by apply (sextets_width a 0)).
        apply b64_dec_last1; auto.
    + inversion_clear Hl as [|? ? Ha Hl']. inversion_clear Hl' as [|? ? Hb _].
      destruct (sextets_width a b) as (W0 & W1 & _); [done..|].
      destruct (sextets_width b 0) as (_ & _ & W2 & _); [done|apply zero_byte|].
      split; rewrite Base64Encode_last2.
      * apply b64_dec_last2; auto.
      * rewrite b64_strip_app, b64_strip_sextets by forall_list.
        apply b64_dec_last2; auto.
  - inversion_clear Hl as [|? ? Ha Hl']. inversion_clear Hl' as [|? ? Hb Hl''].
    inversion_clear Hl'' as [|? ? Hc Hl]. destruct (IH Hl) as [E1 E2].
    destruct (sextets_width a b) as (W0 & W1 & _); [done..|].
    destruct (sextets_width b c) as (_ & _ & W2 & W3 & _); [done..|].
    assert (Hs : b64_strip [b64_enc (sx0 a); b64_enc (sx1 a b); b64_enc (sx2 b c); b64_enc (sx3 c)]
      = [b64_enc (sx0 a); b64_enc (sx1 a b); b64_enc (sx2 b c); b64_enc (sx3 c)]).
    { apply (b64_strip_sextets [sx0 a; sx1 a b; sx2 b c; sx3 c]). forall_list. }
    unfold b64_decodes. rewrite Base64Encode_cons3, b64_strip_app, Hs.
    destruct (decide (l = [])) as [->|Hn]; [split; by apply b64_dec_last3|].
    rewrite !b64_dec_group by (done || by apply Base64Encode_nonnil || by apply b64_strip_nonnil).
    by rewrite E1, E2.
Qed.

(** ** Lengths *)

Lemma length_Base64Encode l : Z.of_nat (length (Base64Encode l)) = (Z.of_nat (length l) + 2) / 3 * 4.
Proof.
  induction l as [l Hlen|a b c l IH] using list_ind3.
  - by destruct l as [|a [|b [|c l]]]; cbn in Hlen; try lia.
  - rewrite Base64Encode_cons3, length_app, Nat2Z.inj_add, IH. cbn [length]. zlia.
Qed.

Lemma miss_eq n : (4 - (n .& 3)) .& 3 = (- n) mod 4.
Proof. change 3 with (2 ^ 2 - 1). rewrite !land_mask by lia. change (2 ^ 2) with 4. zlia. Qed.

(** [Base64DecodeLength] in terms of the last, possibly short, group. *)
Lemma DecodeLength_last body rest q :
  length body = (4 * q)%nat -> (2 <= length rest <= 4)%nat -> (3 < length (body ++ rest))%nat ->
  Base64DecodeLength (body ++ rest) =
  let r := Z.of_nat (length rest) in
  let b2 := isb64 (nth (length rest - 2) rest 0) in
  let b1 := isb64 (nth (length rest - 1) rest 0) in
  3 * Z.of_nat q + (if b2 && b1 then r - 1 else if b2 && negb b1 then r - 2
                    else if negb b2 && negb b1 && (r =? 4) then 1 else 3).
Proof.
  intros Hb Hr Hn. unfold Base64DecodeLength. cbn zeta. rewrite miss_eq.
  rewrite length_app in *. rewrite Hb in *.
  rewrite (proj2 (Z.leb_gt _ 3)) by lia.
  rewrite !app_nth2 by lia.
  replace (4 * q + length rest - 2 - length body)%nat with (length rest - 2)%nat by lia.
  replace (4 * q + length rest - 1 - length body)%nat with (length rest - 1)%nat by lia.
  set (b2 := isb64 (nth (length rest - 2) rest 0)). set (b1 := isb64 (nth (length rest - 1) rest 0)).
  assert (Hm : (- Z.of_nat (4 * q + length rest)) mod 4 = 4 - Z.of_nat (length rest)) by natlia.
  rewrite Hm. assert (Hf : (Z.of_nat (4 * q + length rest) + 3) / 4 = Z.of_nat q + 1) by natlia.
  rewrite Hf. destruct b2, b1; cbn [andb negb]; case_cmp; cbn [andb]; lia.
Qed.

(** The text of a nonempty buffer ends in one full group of four. *)
Lemma Base64Encode_last l : bytes l -> l <> [] ->
  exists body rest q, Base64Encode l = body ++ rest /\ length body = (4 * q)%nat /\
    length rest = 4%nat /\
    exists r, Z.of_nat (length l) = 3 * Z.of_nat q + r /\
      (isb64 (nth 2 rest 0), isb64 (nth 3 rest 0), r) ∈ [(true, true, 3); (true, false, 2); (false, false, 1)].
Proof.
  induction l as [l Hlen|a b c l IH] using list_ind3; intros Hl Hn.
  - destruct l as [|a [|b [|c l]]]; cbn in Hlen; try lia; [done| |].
    + exists [], (Base64Encode [a]), 0%nat. repeat split. exists 1. split; [done|].
      apply list_elem_of_In. cbn. auto.
    + inversion_clear Hl as [|? ? Ha Hl']. inversion_clear Hl' as [|? ? Hb _].
      destruct (sextets_width b 0) as (_ & _ & W2 & _); [done|apply zero_byte|].
      exists [], (Base64Encode [a; b]), 0%nat. repeat split. exists 2. split; [done|].
      rewrite Base64Encode_last2. cbn [map app nth]. rewrite (proj1 (b64_sextet _ W2)).
      apply list_elem_of_In. cbn. auto.
  - inversion_clear Hl as [|? ? Ha Hl']. inversion_clear Hl' as [|? ? Hb Hl''].
    inversion_clear Hl'' as [|? ? Hc Hl]. destruct (decide (l = [])) as [->|Hnil].
    + destruct (sextets_width b c) as (_ & _ & W2 & W3 & _); [done..|].
      exists [], (Base64Encode [a; b; c]), 0%nat. repeat split. exists 3. split; [done|].
      rewrite Base64Encode_cons3. cbn [map app nth].
      rewrite (proj1 (b64_sextet _ W2)), (proj1 (b64_sextet _ W3)).
      apply list_elem_of_In. cbn. auto.
    + destruct (IH Hl Hnil) as (body & rest & q & E & Hb' & Hr & r & Hlen & Hin).
      rewrite Base64Encode_cons3, E. do 2 eexists. exists (S q).
      split; [apply app_assoc|]. rewrite length_app, Hb'. cbn [length].
      repeat split; [lia|done|]. exists r. split; [lia|done].
Qed.

Lemma DecodeLength_Encode l : bytes l ->
  Base64DecodeLength (Base64Encode l) = Z.of_nat (length l).
Proof.
  intros Hl. destruct (decide (l = [])) as [->|Hn]; [done|].
  destruct (Base64Encode_last l Hl Hn) as (body & rest & q & E & Hb & Hr & r & Hlen & Hin).
  rewrite E, (DecodeLength_last body rest q) by (rewrite ?length_app; lia).
  rewrite Hlen, Hr. change (4 - 2)%nat with 2%nat. change (4 - 1)%nat with 3%nat. cbn zeta.
  rewrite list_elem_of_In in Hin. destruct Hin as [Hin|[Hin|[Hin|[]]]]; injection Hin as <- <- <-;
    reflexivity.
Qed.

(** For every byte string, [os::Base64Encode] then [os::Base64Decode]
    gives the string back, with the padding or without it; the text has the
    length [Base64EncodeLength] computes and [Base64DecodeLength] of the text
    is the length of the string. *)
Theorem Base64_roundtrip l :
  bytes l -> Z.of_nat (length l) < 2 ^ 62 ->
  Base64Decode (Base64Encode l) = (true, l) /\
  Base64Decode (b64_strip (Base64Encode l)) = (true, l) /\
  Base64EncodeLength (Z.of_nat (length l)) = Z.of_nat (length (Base64Encode l)) /\
  Base64DecodeLength (Base64Encode l) = Z.of_nat (length l).
Proof.
  intros Hl Hn. destruct (b64_roundtrip l Hl) as [E1 E2]. repeat split; [done|done| |].
  - rewrite length_Base64Encode. unfold Base64EncodeLength. unwrap.
    rewrite (Z.mod_small (Z.of_nat (length l) + 2)) by lia. apply Z.mod_small. zlia.
  - by apply DecodeLength_Encode.
Qed.

Lemma Base64_roundtrip_witness :
  let l := [0; 255; 16; 32; 200] in
  (bytes l /\ Z.of_nat (length l) < 2 ^ 62) /\
  Base64Decode (Base64Encode l) = (true, l) /\
  Base64Decode (b64_strip (Base64Encode l)) = (true, l) /\
  Base64EncodeLength (Z.of_nat (length l)) = Z.of_nat (length (Base64Encode l)) /\
  Base64DecodeLength (Base64Encode l) = Z.of_nat (length l).
Proof.
  intros l. assert (H1 : bytes l) by (unfold l; forall_list; unwrap; lia).
  assert (H2 : Z.of_nat (length l) < 2 ^ 62) by (cbn; lia).
  split; [split; [exact H1|exact H2]|]. exact (Base64_roundtrip l H1 H2).
Defined.

(** ** The decoder stays inside the buffer its length function sizes *)

Lemma isb64_rev_all : forallb (fun c =>
  implb (negb (isb64 c)) (match b64_rev c with None => true | Some _ => false end)) (seqZ 0 256) = true.
Proof. vm_compute. reflexivity. Qed.

Lemma b64_rev_None c : is_byte c -> isb64 c = false -> b64_rev c = None.
Proof.
  intros Hc Hi. pose proof (byte_forall _ isb64_rev_all c Hc) as H. cbn beta in H.
  rewrite Hi in H. by destruct (b64_rev c).
Qed.

Lemma b64_dec_loop_blocks s : bytes s ->
  exists (j : nat) (body : list Z), let '(o, rest) := b64_dec_loop s in
    s = body ++ rest /\ length body = (4 * j)%nat /\ length o = (3 * j)%nat /\
    (s <> [] -> rest <> []).
Proof.
  assert (Stop : forall s, exists (j : nat) (body : list Z), let '(o, rest) := (@nil Z, s) in
    s = body ++ rest /\ @length Z body = (4 * j)%nat /\ length o = (3 * j)%nat /\
    (s <> [] -> rest <> [])) by (intros t; by exists 0%nat, []).
  induction s as [s Hs|c0 c1 c2 c3 t IH] using list_ind4; intros Hb.
  { destruct s as [|a [|b [|c [|d s]]]]; cbn in Hs; try lia; apply Stop. }
  destruct (decide (t = [])) as [->|Ht]; [apply Stop|]. rewrite b64_dec_loop_cons4 by done.
  destruct (b64_rev c0); [|apply Stop]. destruct (b64_rev c1); [|apply Stop].
  destruct (b64_rev c2); [|apply Stop]. destruct (b64_rev c3); [|apply Stop].
  do 4 apply Forall_inv_tail in Hb. destruct (IH Hb) as (j & body & H).
  destruct (b64_dec_loop t) as [o rest]. destruct H as (-> & H1 & H2 & H3).
  exists (S j), (c0 :: c1 :: c2 :: c3 :: body). cbn [length app].
  repeat split; try lia. intros _. by apply H3.
Qed.

Lemma b64_tail_le3 s : (length (snd (b64_dec_tail s)) <= 3)%nat.
Proof.
  unfold b64_dec_tail, b64_last. repeat case_match; cbn; lia.
Qed.

Lemma b64_tail_short s : bytes s -> (2 <= length s <= 4)%nat ->
  Z.of_nat (length (snd (b64_dec_tail s))) <=
  (let r := Z.of_nat (length s) in
   let b2 := isb64 (nth (length s - 2) s 0) in
   let b1 := isb64 (nth (length s - 1) s 0) in
   if b2 && b1 then r - 1 else if b2 && negb b1 then r - 2
   else if negb b2 && negb b1 && (r =? 4) then 1 else 3).
Proof.
  intros Hb Hs. pose proof (b64_tail_le3 s) as H3.
  destruct s as [|c0 [|c1 [|c2 [|c3 [|]]]]]; cbn in Hs; try lia; clear Hs;
    inversion_clear Hb as [|? ? Hc0 Hb0]; inversion_clear Hb0 as [|? ? Hc1 Hb1];
    rewrite b64_tail_eq by (cbn; lia); cbn [app take nth length Nat.sub]; cbn zeta;
    unfold b64_last; change (isb64 (chr "=")) with false;
    (destruct (b64_rev c0); [|cbn; repeat case_match; lia]);
    (destruct (b64_rev c1) eqn:E1; [|cbn; repeat case_match; lia]);
    destruct (isb64 c1) eqn:I1; try (rewrite b64_rev_None in E1 by done; discriminate);
    repeat match goal with |- context [isb64 ?x] => destruct (isb64 x) end;
    cbn [andb negb snd length]; case_cmp; lia.
Qed.

(** When the text is longer than three characters and not one more than
    a multiple of four, [os::Base64Decode] - on any characters, whether it
    succeeds or gives up - stores no more bytes than [Base64DecodeLength]
    announces. *)
Theorem Base64Decode_fits s :
  bytes s -> (3 < length s)%nat -> (length s mod 4 <> 1)%nat ->
  Z.of_nat (length (snd (Base64Decode s))) <= Base64DecodeLength s.
Proof.
  intros Hb Hn Hm. unfold Base64Decode.
  destruct (b64_dec_loop_blocks s Hb) as (j & body & H).
  destruct (b64_dec_loop s) as [o rest]. destruct H as (-> & H1 & H2 & H3).
  assert (Hr : bytes rest) by (by apply Forall_app in Hb as [_ ?]).
  pose proof (b64_tail_le3 rest) as Ht.
  destruct (decide (length rest <= 4)%nat) as [Hle|Hgt].
  - assert (Hr2 : (2 <= length rest <= 4)%nat).
    { assert (rest <> []) by (apply H3; intros E; rewrite E in Hn; cbn in Hn; lia).
      rewrite length_app, H1 in Hm. destruct rest as [|c0 [|c1 rest]]; [done| |cbn in *; lia].
      exfalso. apply Hm. cbn [length]. by rewrite Nat.add_comm, Nat.mul_comm, Nat.Div0.mod_add. }
    rewrite (DecodeLength_last body rest j) by done.
    pose proof (b64_tail_short rest Hr Hr2) as Hs. destruct (b64_dec_tail rest) as [ret o'].
    cbn [snd] in *. rewrite length_app. cbn zeta in *. lia.
  - destruct (b64_dec_tail rest) as [ret o']. cbn [snd] in *. rewrite length_app in *.
    assert (Hd : 3 * Z.of_nat j + 3 <= Base64DecodeLength (body ++ rest)); [|lia].
    unfold Base64DecodeLength. rewrite miss_eq, length_app, H1 in *.
    rewrite (proj2 (Z.leb_gt _ 3)) by lia. set (n := (4 * j + length rest)%nat) in *. cbn zeta.
    assert (Hz : Z.of_nat n mod 4 <> 1) by (pose proof (Nat2Z.inj_mod n 4); lia).
    repeat case_bool; zlia.
Qed.

Lemma Base64Decode_fits_witness :
  let s := str "QUJ$REVG" in
  (bytes s /\ (3 < length s)%nat /\ (length s mod 4 <> 1)%nat) /\
  Z.of_nat (length (snd (Base64Decode s))) <= Base64DecodeLength s.
Proof.
  intros s. assert (H1 : bytes s) by (unfold s; cbn; forall_list; unwrap; lia).
  assert (H2 : (3 < length s)%nat) by (vm_compute; lia).
  assert (H3 : (length s mod 4 <> 1)%nat) by (vm_compute; lia).
  split; [auto|]. exact (Base64Decode_fits s H1 H2 H3).
Defined.

(** The two shapes the theorem excludes do overrun: an unpadded group of two
    is announced as empty, and a stray [=] after a full group takes a byte
    from the announced length. *)
Example Base64DecodeLength_short :
  (Base64DecodeLength (str "QQ"), Base64Decode (str "QQ")) = (0, (true, [65])) /\
  (Base64DecodeLength (str "QUJD="), snd (Base64Decode (str "QUJD="))) = (2, [65; 66; 67]).
Proof. vm_compute. split; reflexivity. Qed.
