(* ===== verification/Base16.v ===== *)
(** Hexadecimal text: [Base16Encode]/[Base16Decode] and the URL escapes of
    os/kernal_encode.cpp, with the [rt::tos::Binary] digits they share.
    Source and destination are distinct buffers. *)
From S2P Require Import Prelude.

(** ** Definitions: Base16 *)

Definition Base16EncodeLength (len : Z) : Z := u64 (len * 2).
Definition Base16DecodeLength (len : Z) : Z := len / 2.

Definition b16_digit (c : Z) : Z := if 9 <? c then chr "A" + c - 10 else chr "0" + c.

Fixpoint Base16Encode (pData : list Z) : list Z :=
  match pData with
  | [] => []
  | b :: t => b16_digit (b .>> 4) :: b16_digit (b .& 0xf) :: Base16Encode t
  end.

(** The digit conversion of the decoding loop, on the [int] of a [char];
    [None] is its [return false]. *)
Definition b16_val (c : Z) : option Z :=
  if c <=? chr "9" then (if c <? chr "0" then None else Some (c - chr "0"))
  else if (chr "A" <=? c) && (c <=? chr "F") then Some (c - (chr "A" - 10))
  else if (chr "a" <=? c) && (c <=? chr "f") then Some (c - (chr "a" - 10))
  else None.

(** [for(i<data_len)]: the result and the bytes stored so far. *)
Fixpoint b16_dec_loop (n : nat) (pBase16 : list Z) : bool * list Z :=
  match n, pBase16 with
  | O, _ => (true, [])
  | S k, c0 :: c1 :: t =>
    match b16_val (s8 c0), b16_val (s8 c1) with
    | Some v0, Some v1 =>
      let '(ret, o) := b16_dec_loop k t in (ret, u8 ((v0 .<< 4) .| v1) :: o)
    | _, _ => (false, [])
    end
  | S _, _ => (false, [])
  end.

Definition Base16Decode (data_len : nat) (pBase16 : list Z) : bool * list Z :=
  if negb (Z.of_nat (length pBase16) =? u64 (Z.of_nat data_len * 2)) then (false, [])
  else b16_dec_loop data_len pBase16.

Definition is_hex (c : Z) : bool :=
  ((chr "0" <=? c) && (c <=? chr "9")) || ((chr "A" <=? c) && (c <=? chr "F")) ||
  ((chr "a" <=? c) && (c <=? chr "f")).
Definition hex_upper (c : Z) : Z := if (chr "a" <=? c) && (c <=? chr "f") then c - 32 else c.

(** ** Definitions: URL escapes *)

(** [rt::tos::Binary<>], upper case. *)
Definition Binary_digits (v : Z) : list Z :=
  let lo := v .& 0xf in
  [if 0xa0 <=? v then chr "A" + ((v - 0xa0) .>> 4) else chr "0" + (v .>> 4);
   if 0xa <=? lo then chr "A" + (lo - 0xa) else chr "0" + lo].

Definition url_plain (ch : Z) : bool :=
  let c := s8 ch in
  ((chr "a" <=? c) && (c <=? chr "z")) || ((chr "A" <=? c) && (c <=? chr "Z")) ||
  ((chr "0" <=? c) && (c <=? chr "9")) ||
  (c =? chr "-") || (c =? chr "_") || (c =? chr ".") || (c =? chr "~").

Fixpoint UrlEncode (url : list Z) : list Z :=
  match url with
  | [] => []
  | c :: t => if url_plain c then c :: UrlEncode t
              else chr "%" :: Binary_digits c ++ UrlEncode t
  end.

(** The two digit conversions of [UrlDecode]; the letters of the first one
    read [c1 -= c1-'A' + 10]. *)
Definition url_digit1 (c1 : Z) : option Z :=
  if (chr "0" <=? c1) && (c1 <=? chr "9") then Some (c1 - chr "0")
  else if (chr "A" <=? c1) && (c1 <=? chr "F") then Some (c1 - (c1 - chr "A" + 10))
  else if (chr "a" <=? c1) && (c1 <=? chr "f") then Some (c1 - (c1 - chr "a" + 10))
  else None.

Definition url_digit2 (c2 : Z) : option Z :=
  if (chr "0" <=? c2) && (c2 <=? chr "9") then Some (c2 - chr "0")
  else if (chr "A" <=? c2) && (c2 <=? chr "F") then Some (c2 - chr "A" + 10)
  else if (chr "a" <=? c2) && (c2 <=? chr "f") then Some (c2 - chr "a" + 10)
  else None.

(** The text is a memory: an escape near its end reads past it.  [len <= fuel]
    rounds suffice, each advances. *)
Fixpoint url_dec_loop (fuel : nat) (m : mem) (i len : Z) : option (list Z) :=
  if i <? len then
    match fuel with
    | O => None
    | S f =>
      if m i =? chr "%" then
        match url_digit1 (s8 (m (i + 1))), url_digit2 (s8 (m (i + 2))) with
        | Some c1, Some c2 =>
          option_map (cons (u8 ((c1 .<< 4) .| c2))) (url_dec_loop f m (i + 3) len)
        | _, _ => Some []
        end
      else option_map (cons (m i)) (url_dec_loop f m (i + 1) len)
    end
  else Some [].

Definition UrlDecode (m : mem) (encoded_url_len : nat) : option (list Z) :=
  url_dec_loop encoded_url_len m 0 (Z.of_nat encoded_url_len).

(** What a byte turns into across [UrlEncode] and [UrlDecode]. *)
Definition url_garble (c : Z) : Z := if 0xa0 <=? c then 0x70 .| (c .& 0xf) else c.

(** ** Base16 *)

Lemma b16_all : forallb (fun b =>
  match b16_val (s8 (b16_digit (b .>> 4))), b16_val (s8 (b16_digit (b .& 0xf))) with
  | Some v0, Some v1 => (u8 ((v0 .<< 4) .| v1) =? b) && is_hex (b16_digit (b .>> 4)) &&
                        is_hex (b16_digit (b .& 0xf))
  | _, _ => false
  end) (seqZ 0 256) = true.
Proof. vm_compute. reflexivity. Qed.

Lemma b16_pairs_all : all_bytes2 (fun c0 c1 =>
  match b16_val (s8 c0), b16_val (s8 c1) with
  | Some v0, Some v1 =>
    let b := u8 ((v0 .<< 4) .| v1) in
    is_hex c0 && is_hex c1 &&
    (b16_digit (b .>> 4) =? hex_upper c0) && (b16_digit (b .& 0xf) =? hex_upper c1)
  | _, _ => negb (is_hex c0 && is_hex c1)
  end) = true.
Proof. vm_cast_no_check (eq_refl true). Qed.

Lemma b16_dec_loop_enc l t : bytes l -> b16_dec_loop (length l) (Base16Encode l ++ t) = (true, l).
Proof.
  induction 1 as [|b l Hb Hl IH]; [done|]. cbn [length Base16Encode app b16_dec_loop].
  pose proof (byte_forall _ b16_all b Hb) as H. cbn beta in H.
  destruct (b16_val (s8 (b16_digit (b .>> 4)))); [|done].
  destruct (b16_val (s8 (b16_digit (b .& 0xf)))); [|done]. rewrite IH. bool_prop. by subst.
Qed.

Lemma length_Base16Encode l : length (Base16Encode l) = (2 * length l)%nat.
Proof. induction l; cbn [Base16Encode length]; lia. Qed.

Lemma b16_dec_loop_spec n s : bytes s -> length s = (2 * n)%nat ->
  let '(ret, o) := b16_dec_loop n s in
  ret = forallb is_hex s /\ bytes o /\ (length o <= n)%nat /\
  (ret = true -> Base16Encode o = map hex_upper s).
Proof.
  revert s. induction n as [|n IH]; intros s Hs Hl.
  { destruct s; [|done]. repeat split; constructor. }
  destruct s as [|c0 [|c1 s]]; cbn [length] in Hl; try lia. cbn [b16_dec_loop].
  inversion_clear Hs as [|? ? H0 Hs']. inversion_clear Hs' as [|? ? H1 Hs].
  pose proof (byte2_forall _ b16_pairs_all c0 c1 H0 H1) as H. cbn beta zeta in H.
  cbn [forallb map].
  destruct (b16_val (s8 c0)) as [v0|]; [destruct (b16_val (s8 c1)) as [v1|]|].
  - specialize (IH s Hs ltac:(lia)). destruct (b16_dec_loop n s) as [ret o].
    destruct IH as (-> & Ho & Hn & Hr).
    repeat match goal with H : _ && _ = true |- _ => apply andb_true_iff in H; destruct H end.
    apply Z.eqb_eq in H2, H3. rewrite H, H4. split; [done|]. split; [apply Forall_cons_2; auto with cpcf|].
    split; [cbn; lia|]. intros Ht. cbn [Base16Encode]. by rewrite H2, H3, Hr.
  - apply negb_true_iff in H. rewrite andb_assoc, H. repeat split; try done; cbn; lia.
  - apply negb_true_iff in H. rewrite andb_assoc, H. repeat split; try done; cbn; lia.
Qed.

(** [os::Base16Decode] succeeds exactly on a text of [2*data_len]
    hexadecimal digits of either case; then it stores [data_len] bytes whose
    encoding is the text in upper case, so it inverts [os::Base16Encode]; and
    whether it succeeds or not it never stores more than [data_len] bytes. *)
Theorem Base16Decode_correct s n :
  bytes s -> Z.of_nat n < 2 ^ 62 ->
  let '(ret, o) := Base16Decode n s in
  ret = (Nat.eqb (length s) (2 * n) && forallb is_hex s) /\
  (length o <= n)%nat /\
  (ret = true -> Base16Encode o = map hex_upper s /\ length o = n) /\
  (forall l, bytes l -> length l = n -> s = Base16Encode l -> ret = true /\ o = l).
Proof.
  intros Hs Hn. unfold Base16Decode.
  replace (u64 (Z.of_nat n * 2)) with (Z.of_nat (2 * n)) by (unwrap; rewrite Z.mod_small; lia).
  replace (Z.of_nat (length s) =? Z.of_nat (2 * n)) with (Nat.eqb (length s) (2 * n))
    by (destruct (Nat.eqb_spec (length s) (2 * n)), (Z.eqb_spec (Z.of_nat (length s)) (Z.of_nat (2 * n))); lia).
  destruct (Nat.eqb_spec (length s) (2 * n)) as [E|E]; cbn [negb andb].
  - pose proof (b16_dec_loop_spec n s Hs E) as H.
    destruct (b16_dec_loop n s) as [ret o] eqn:Eo. destruct H as (H1 & H2 & H3 & H4).
    repeat split; try done.
    + by apply H4.
    + assert (Hl := f_equal length (H4 H)).
      rewrite length_Base16Encode, length_map in Hl. lia.
    + subst s. rewrite <- (app_nil_r (Base16Encode l)), <- H0, b16_dec_loop_enc in Eo by done. congruence.
    + subst s. rewrite <- (app_nil_r (Base16Encode l)), <- H0, b16_dec_loop_enc in Eo by done. congruence.
  - repeat split; try done; [cbn; lia| |]; subst s; rewrite length_Base16Encode in E; lia.
Qed.

Lemma Base16Decode_correct_witness :
  let s := str "00fFa9" in
  (bytes s /\ Z.of_nat 3 < 2 ^ 62) /\
  let '(ret, o) := Base16Decode 3 s in
  ret = (Nat.eqb (length s) (2 * 3) && forallb is_hex s) /\
  (length o <= 3)%nat /\
  (ret = true -> Base16Encode o = map hex_upper s /\ length o = 3%nat) /\
  (forall l, bytes l -> length l = 3%nat -> s = Base16Encode l -> ret = true /\ o = l).
Proof.
  intros s. assert (H1 : bytes s) by (unfold s; cbn; forall_list; unwrap; lia).
  assert (H2 : Z.of_nat 3 < 2 ^ 62) by lia. split; [auto|].
  exact (Base16Decode_correct s 3 H1 H2).
Defined.

(** ** URL escapes *)

Lemma url_all : forallb (fun c =>
  if url_plain c then (url_garble c =? c) && negb (c =? chr "%")
  else match url_digit1 (s8 (nth 0 (Binary_digits c) 0)), url_digit2 (s8 (nth 1 (Binary_digits c) 0)) with
       | Some c1, Some c2 => u8 ((c1 .<< 4) .| c2) =? url_garble c
       | _, _ => false
       end) (seqZ 0 256) = true.
Proof. vm_compute. reflexivity. Qed.

Lemma mem_of_app a b i : 0 <= i -> mem_of 0 0 (a ++ b) (Z.of_nat (length a) + i) = mem_of 0 0 b i.
Proof.
  intros Hi. unfold mem_of. rewrite length_app. rewrite !Z.sub_0_r.
  destruct (decide (i < Z.of_nat (length b))).
  - rewrite !(proj2 (Z.leb_le _ _)), !(proj2 (Z.ltb_lt _ _)) by lia. cbn [andb].
    rewrite app_nth2 by lia. f_equal. lia.
  - rewrite !(proj2 (Z.ltb_ge _ _)) by lia. by rewrite !andb_false_r.
Qed.

Lemma url_dec_enc_loop l : forall pre fuel, bytes l ->
  (length l <= fuel)%nat ->
  url_dec_loop fuel (mem_of 0 0 (pre ++ UrlEncode l)) (Z.of_nat (length pre))
    (Z.of_nat (length (pre ++ UrlEncode l))) = Some (map url_garble l).
Proof.
  induction l as [|c l IH]; intros pre fuel Hl Hf.
  { cbn [UrlEncode map]. rewrite app_nil_r. destruct fuel; cbn [url_dec_loop]; by rewrite Z.ltb_irrefl. }
  inversion_clear Hl as [|? ? Hc Hl']. destruct fuel as [|f]; [cbn in Hf; lia|].
  cbn [length] in Hf. pose proof (byte_forall _ url_all c Hc) as H. cbn beta in H.
  cbn [UrlEncode map] in *. unfold Binary_digits in *. cbn zeta in *. cbn [nth] in H.
  set (d0 := if 0xa0 <=? c then _ else _) in *. set (d1 := if 0xa <=? (c .& 0xf) then _ else _) in *.
  assert (Hm : forall t k, 0 <= k -> mem_of 0 0 (pre ++ t) (Z.of_nat (length pre) + k) = mem_of 0 0 t k)
    by (intros; by apply mem_of_app).
  assert (Hm0 : forall t, mem_of 0 0 (pre ++ t) (Z.of_nat (length pre)) = mem_of 0 0 t 0)
    by (intros; rewrite <- (Hm t 0) by lia; f_equal; lia).
  destruct (url_plain c).
  - apply andb_true_iff in H as [Hg Hp]. apply negb_true_iff in Hp. apply Z.eqb_eq in Hg.
    cbn [url_dec_loop]. rewrite length_app at 1. rewrite (proj2 (Z.ltb_lt _ _)) by (cbn; lia).
    rewrite Hm0. change (mem_of 0 0 (c :: UrlEncode l) 0) with c. rewrite Hp.
    specialize (IH (pre ++ [c]) f Hl' ltac:(lia)). rewrite <- app_assoc in IH. cbn [app] in IH.
    rewrite length_app in IH at 1. cbn [length] in IH.
    replace (Z.of_nat (length pre) + 1) with (Z.of_nat (length pre + 1)) by lia.
    rewrite IH. cbn [option_map]. by rewrite Hg.
  - cbn [url_dec_loop app]. rewrite length_app at 1. rewrite (proj2 (Z.ltb_lt _ _)) by (cbn; lia).
    rewrite Hm0, !Hm by lia.
    change (mem_of 0 0 (chr "%" :: d0 :: d1 :: UrlEncode l) 0) with (chr "%").
    assert (E1 : mem_of 0 0 (chr "%" :: d0 :: d1 :: UrlEncode l) 1 = d0).
    { exact (mem_of_app [chr "%"] (d0 :: d1 :: UrlEncode l) 0 ltac:(lia)). }
    assert (E2 : mem_of 0 0 (chr "%" :: d0 :: d1 :: UrlEncode l) 2 = d1).
    { exact (mem_of_app [chr "%"; d0] (d1 :: UrlEncode l) 0 ltac:(lia)). }
    rewrite Z.eqb_refl, E1, E2.
    destruct (url_digit1 (s8 d0)); [|done]. destruct (url_digit2 (s8 d1)); [|done].
    apply Z.eqb_eq in H. rewrite H.
    specialize (IH (pre ++ [chr "%"; d0; d1]) f Hl' ltac:(lia)). rewrite <- app_assoc in IH. cbn [app] in IH.
    rewrite length_app in IH at 1. cbn [length] in IH.
    replace (Z.of_nat (length pre) + 3) with (Z.of_nat (length pre + 3)) by lia. by rewrite IH.
Qed.

Lemma length_UrlEncode l : (length l <= length (UrlEncode l) <= 3 * length l)%nat.
Proof.
  induction l as [|c l IH]; cbn [UrlEncode length]; [lia|].
  destruct (url_plain c); cbn [length app Binary_digits]; lia.
Qed.

Lemma url_garble_id_all : forallb (fun c => (0xa0 <=? c) || (url_garble c =? c)) (seqZ 0 256) = true.
Proof. vm_compute. reflexivity. Qed.

Lemma url_garble_id l : bytes l -> Forall (fun c => c < 0xa0) l -> map url_garble l = l.
Proof.
  induction 1 as [|c l Hc Hl IH]; intros Hs; [done|]. inversion_clear Hs as [|? ? H0 Hs'].
  cbn [map]. rewrite IH by done. f_equal. pose proof (byte_forall _ url_garble_id_all c Hc) as H.
  cbn beta in H. apply orb_true_iff in H as [H|H]; bool_prop; lia.
Qed.

(** [os::UrlEncode] fits the three bytes per character its caller
    reserves, and [os::UrlDecode] of the result gives every byte below 0xA0
    back, hence every text of such bytes; a byte from 0xA0 up comes back as
    0x70 or-ed with its low half, because the first letter digit is decoded
    with [c1 -= c1-'A'+10]. *)
Theorem Url_roundtrip l :
  bytes l ->
  (length (UrlEncode l) <= 3 * length l)%nat /\
  UrlDecode (mem_of 0 0 (UrlEncode l)) (length (UrlEncode l)) = Some (map url_garble l) /\
  (Forall (fun c => c < 0xa0) l -> map url_garble l = l).
Proof.
  intros Hl. split; [apply length_UrlEncode|]. split; [|by apply url_garble_id].
  apply (url_dec_enc_loop l []); [done|]. apply length_UrlEncode.
Qed.

Lemma Url_roundtrip_witness :
  let l := [0x41; 0x20; 0x2f; 0x9f; 0xe4] in
  bytes l /\
  (length (UrlEncode l) <= 3 * length l)%nat /\
  UrlDecode (mem_of 0 0 (UrlEncode l)) (length (UrlEncode l)) = Some (map url_garble l) /\
  (Forall (fun c => c < 0xa0) l -> map url_garble l = l).
Proof.
  intros l. assert (H : bytes l) by (unfold l; forall_list; unwrap; lia).
  split; [exact H|]. exact (Url_roundtrip l H).
Defined.
