(* ===== verification/Base32.v ===== *)
(** Base32 of os/kernal_encode.cpp: the generic encoder and decoder over a
    digit table, the extended-hex and Crockford tables that instantiate them,
    and the round trip proved once against the table's law. *)
From S2P Require Import Prelude.

(** ** Definitions: digit tables *)

(** A [BASE32_TABLE]: [decode] answers [None] where the C++ [decode] returns
    [true] (not a digit). *)
Class Base32Table := {
  b32_encode : Z -> Z;
  b32_decode : Z -> option Z
}.

(** What the codec needs of a table. *)
Class Base32Law (T : Base32Table) : Prop := {
  b32_decode_encode : forall v, in_width 5 v -> b32_decode (s8 (b32_encode v)) = Some v
}.

Definition tbl_at (t : String.string) (d : Z) : Z := nth (Z.to_nat d) (str t) 0.

Definition extend_hex_decode (d : Z) : option Z :=
  if (chr "0" <=? d) && (d <=? chr "9") then Some (d - chr "0")
  else if (chr "a" <=? d) && (d <=? chr "v") then Some (d - chr "a" + 10)
  else if (chr "A" <=? d) && (d <=? chr "V") then Some (d - chr "A" + 10)
  else None.

Definition extendhex_uppercase := "0123456789ABCDEFGHIJKLMNOPQRSTUV"%string.
Definition extendhex_lowercase := "0123456789abcdefghijklmnopqrstuv"%string.

#[export] Instance table_extend_hex : Base32Table :=
  { b32_encode := tbl_at extendhex_uppercase; b32_decode := extend_hex_decode }.
Definition table_extend_hex_lower : Base32Table :=
  {| b32_encode := tbl_at extendhex_lowercase; b32_decode := extend_hex_decode |}.

Definition crockford_decoding : list Z :=
  [0; 1; 2; 3; 4; 5; 6; 7; 8; 9; -1; -1; -1; -1; -1; -1; 31;
   10; 11; 12; 13; 14; 15; 16; 17; 1; 18; 19; 1; 20; 21; 0; 22; 23; 24; 25; 26; 27; 27;
   28; 29; 30; 2; -1; -1; -1; -1; -1; -1;
   10; 11; 12; 13; 14; 15; 16; 17; 1; 18; 19; 1; 20; 21; 0; 22; 23; 24; 25; 26; 27; 27;
   28; 29; 30; 2].

Definition crockford_decode (d : Z) : option Z :=
  if (chr "0" <=? d) && (d <=? chr "z")
  then Some (nth (Z.to_nat (d - chr "0")) crockford_decoding 0) else None.

Definition crockford_uppercase := "0123456789ABCDEFGHJKMNPQRSTVWXY@"%string.
Definition crockford_lowercase := "0123456789abcdefghjkmnpqrstvwxy@"%string.
Definition crockford_uppercase_favchar := "OIZ3456789ABCDEFGHJKMNPQRSTVWXY@"%string.
Definition crockford_lowercase_favchar := "oiz3456789abcdefghjkmnpqrstvwxy@"%string.

Definition table_crockford (uppercase fav_char : bool) : Base32Table :=
  {| b32_encode := tbl_at
       (match uppercase, fav_char with
        | true, false => crockford_uppercase
        | false, false => crockford_lowercase
        | false, true => crockford_lowercase_favchar
        | true, true => crockford_uppercase_favchar
        end);
     b32_decode := crockford_decode |}.

(** ** Definitions: lengths *)

Definition tail_len (r : Z) : Z := nth (Z.to_nat r) [0; -1; 1; -1; 2; 3; -1; 4] 0.

Definition Base32DecodeLength (len : Z) : Z :=
  if 0 <=? tail_len (len .& 0x7) then len / 8 * 5 + tail_len (len .& 0x7) else 0.

Definition Base32EncodeLength (len : Z) : Z := u64 (u64 (len * 8) + 4) / 5.

(** ** Definitions: the codec *)

(** The five-bit digits of five bytes. *)
Definition q0 (d0 : Z) := d0 .>> 3.
Definition q1 (d0 d1 : Z) := ((d0 .& 0x7) .<< 2) .| (d1 .>> 6).
Definition q2 (d1 : Z) := (d1 .>> 1) .& 0x1f.
Definition q3 (d1 d2 : Z) := ((d1 .& 1) .<< 4) .| (d2 .>> 4).
Definition q4 (d2 d3 : Z) := ((d2 .& 0xf) .<< 1) .| (d3 .>> 7).
Definition q5 (d3 : Z) := (d3 .>> 2) .& 0x1f.
Definition q6 (d3 d4 : Z) := ((d3 .& 0x3) .<< 3) .| (d4 .>> 5).
Definition q7 (d4 : Z) := d4 .& 0x1f.

(** The stores of the decoder. *)
Definition o0 (b0 b1 : Z) := u8 ((b0 .<< 3) .| (b1 .>> 2)).
Definition o1 (b1 b2 b3 : Z) := u8 ((b1 .<< 6) .| (b2 .<< 1) .| (b3 .>> 4)).
Definition o2 (b3 b4 : Z) := u8 ((b3 .<< 4) .| (b4 .>> 1)).
Definition o3 (b4 b5 b6 : Z) := u8 ((b4 .<< 7) .| (b5 .<< 2) .| (b6 .>> 3)).
Definition o4 (b6 b7 : Z) := u8 ((b6 .<< 5) .| b7).

Section Codec.
Context `{T : Base32Table}.
Abbreviation enc := b32_encode.

Fixpoint Base32Encode (d : list Z) : list Z :=
  match d with
  | d0 :: d1 :: d2 :: d3 :: d4 :: t =>
    enc (q0 d0) :: enc (q1 d0 d1) :: enc (q2 d1) :: enc (q3 d1 d2) ::
    enc (q4 d2 d3) :: enc (q5 d3) :: enc (q6 d3 d4) :: enc (q7 d4) :: Base32Encode t
  | [] => []
  | [d0] => [enc (q0 d0); enc (d0 .& 0x7)]
  | [d0; d1] => [enc (q0 d0); enc (q1 d0 d1); enc (q2 d1); enc (d1 .& 0x1)]
  | [d0; d1; d2] =>
    [enc (q0 d0); enc (q1 d0 d1); enc (q2 d1); enc (q3 d1 d2); enc (d2 .& 0xf)]
  | [d0; d1; d2; d3] =>
    [enc (q0 d0); enc (q1 d0 d1); enc (q2 d1); enc (q3 d1 d2); enc (q4 d2 d3);
     enc (q5 d3); enc (d3 .& 0x3)]
  end.

(** [BASE32_TABLE::decode(b, *d++)] on a [char] of the text at [d]. *)
Definition dec (m : mem) (d : Z) : option Z := b32_decode (s8 (m d)).

(** One turn of the block loop; [None] is its [return false]. *)
Definition dec_block (m : mem) (d : Z) : option (list Z) :=
  match dec m d, dec m (d + 1), dec m (d + 2), dec m (d + 3) with
  | Some b0, Some b1, Some b2, Some b3 =>
    match dec m (d + 4), dec m (d + 5), dec m (d + 6), dec m (d + 7) with
    | Some b4, Some b5, Some b6, Some b7 =>
      Some [o0 b0 b1; o1 b1 b2 b3; o2 b3 b4; o3 b4 b5 b6; o4 b6 b7]
    | _, _, _, _ => None
    end
  | _, _, _, _ => None
  end.

(** The last digit of a short group: [decode(t, *d) || t > lim]. *)
Definition dec_last (m : mem) (d lim : Z) : option Z :=
  match dec m d with
  | Some t => if lim <? t then None else Some t
  | None => None
  end.

(** The code after the loop, with [n = e - d] characters left: the result
    and the bytes stored.  It looks past [e] when [n] is 1, 3 or 6. *)
Definition dec_tail (m : mem) (d n : Z) : bool * list Z :=
  if n =? 0 then (true, []) else
  match dec m d with None => (false, []) | Some b0 =>
  if n =? 2 then
    match dec_last m (d + 1) 7 with
    | Some t => (true, [u8 ((b0 .<< 3) .| t)]) | None => (false, []) end
  else
  match dec m (d + 1) with None => (false, []) | Some b1 =>
  match dec m (d + 2) with None => (false, [o0 b0 b1]) | Some b2 =>
  if n =? 4 then
    match dec_last m (d + 3) 1 with
    | Some t => (true, [o0 b0 b1; u8 ((b1 .<< 6) .| (b2 .<< 1) .| t)])
    | None => (false, [o0 b0 b1]) end
  else
  match dec m (d + 3) with None => (false, [o0 b0 b1]) | Some b3 =>
  if n =? 5 then
    match dec_last m (d + 4) 16 with
    | Some t => (true, [o0 b0 b1; o1 b1 b2 b3; u8 ((b3 .<< 4) .| t)])
    | None => (false, [o0 b0 b1; o1 b1 b2 b3]) end
  else
  match dec m (d + 4) with None => (false, [o0 b0 b1; o1 b1 b2 b3]) | Some b4 =>
  match dec m (d + 5) with None => (false, [o0 b0 b1; o1 b1 b2 b3; o2 b3 b4]) | Some b5 =>
  if n =? 7 then
    match dec_last m (d + 6) 4 with
    | Some t => (true, [o0 b0 b1; o1 b1 b2 b3; o2 b3 b4; u8 ((b4 .<< 7) .| (b5 .<< 2) .| t)])
    | None => (false, [o0 b0 b1; o1 b1 b2 b3; o2 b3 b4]) end
  else (false, [o0 b0 b1; o1 b1 b2 b3; o2 b3 b4])
  end end end end end end.

(** [for(;(d + 8)<=e; ...)], [k] blocks. *)
Fixpoint dec_blocks (k : nat) (m : mem) (d n : Z) : bool * list Z :=
  match k with
  | O => dec_tail m d n
  | S k => match dec_block m d with
           | None => (false, [])
           | Some o => let '(ret, o') := dec_blocks k m (d + 8) n in (ret, o ++ o')
           end
  end.

Definition Base32Decode (data_len : Z) (m : mem) (pBase32 str_len : Z) : bool * list Z :=
  if negb (Base32DecodeLength str_len =? data_len) then (false, [])
  else dec_blocks (Z.to_nat (str_len / 8)) m pBase32 (str_len mod 8).
End Codec.

(** ** Laws of the tables *)

Definition table_ok (T : Base32Table) : bool :=
  forallb (fun v => match b32_decode (s8 (b32_encode v)) with
                    | Some v' => v' =? v
                    | None => false end) (seqZ 0 32).

Lemma table_ok_law T : table_ok T = true -> Base32Law T.
Proof.
  intros H. constructor. intros v Hv. unfold table_ok in H. rewrite forallb_forall in H.
  assert (Hin : In v (seqZ 0 32)) by (apply list_elem_of_In, elem_of_seqZ; unfold in_width in Hv; lia).
  specialize (H v Hin). cbn beta in H. destruct (b32_decode (s8 (b32_encode v))) eqn:E; [|done].
  apply Z.eqb_eq in H. by subst.
Qed.

#[export] Instance table_extend_hex_law : Base32Law table_extend_hex.
Proof. apply table_ok_law. vm_compute. reflexivity. Qed.

#[export] Instance table_extend_hex_lower_law : Base32Law table_extend_hex_lower.
Proof. apply table_ok_law. vm_compute. reflexivity. Qed.

#[export] Instance table_crockford_law u f : Base32Law (table_crockford u f).
Proof. apply table_ok_law. destruct u, f; vm_compute; reflexivity. Qed.

(** ** Bit regrouping *)

Definition width5 (v : Z) : bool := (0 <=? v) && (v <? 32).

Lemma width5_true v : width5 v = true -> in_width 5 v.
Proof. unfold width5, in_width. intros. bool_prop. lia. Qed.

Lemma quintets_all : all_bytes2 (fun a b =>
  width5 (q0 a) && width5 (q1 a b) && width5 (q2 a) && width5 (q3 a b) && width5 (q4 a b) &&
  width5 (q5 a) && width5 (q6 a b) && width5 (q7 a) && (o0 (q0 a) (q1 a b) =? a)) = true.
Proof. vm_cast_no_check (eq_refl true). Qed.

Record quintets (a b : Z) : Prop := {
  w0 : in_width 5 (q0 a); w1 : in_width 5 (q1 a b); w2 : in_width 5 (q2 a);
  w3 : in_width 5 (q3 a b); w4 : in_width 5 (q4 a b); w5 : in_width 5 (q5 a);
  w6 : in_width 5 (q6 a b); w7 : in_width 5 (q7 a); e0 : o0 (q0 a) (q1 a b) = a }.

Lemma quintets_ok a b : is_byte a -> is_byte b -> quintets a b.
Proof.
  intros Ha Hb. pose proof (byte2_forall _ quintets_all a b Ha Hb) as H. cbn beta in H.
  repeat match goal with H : _ && _ = true |- _ => apply andb_true_iff in H; destruct H end.
  constructor; try by apply width5_true.
  by apply Z.eqb_eq.
Qed.

(** Facts on a byte between two small neighbours. *)
Definition all3 (k1 k2 : Z) (P : Z -> Z -> Z -> bool) : bool :=
  forallb (fun x => forallb (fun b => forallb (P x b) (seqZ 0 k2)) (seqZ 0 256)) (seqZ 0 k1).

Lemma all3_forall k1 k2 P : all3 k1 k2 P = true ->
  forall x b y, 0 <= x < k1 -> is_byte b -> 0 <= y < k2 -> P x b y = true.
Proof.
  intros H x b y Hx Hb Hy. unfold all3 in H. rewrite forallb_forall in H.
  assert (Hi : forall k z, 0 <= z < k -> In z (seqZ 0 k)).
  { intros. apply list_elem_of_In, elem_of_seqZ. lia. }
  specialize (H x (Hi _ _ Hx)).
  pose proof (byte_forall (fun b => forallb (P x b) (seqZ 0 k2)) H b Hb) as H'. cbn beta in H'.
  rewrite forallb_forall in H'. apply H', Hi, Hy.
Qed.

Lemma o1_all : all3 8 16 (fun x b y =>
  o1 ((x .<< 2) .| (b .>> 6)) (q2 b) (((b .& 1) .<< 4) .| y) =? b) = true.
Proof. vm_cast_no_check (eq_refl true). Qed.
Lemma o1_last_all : all3 8 1 (fun x b _ =>
  (u8 ((((x .<< 2) .| (b .>> 6)) .<< 6) .| (q2 b .<< 1) .| (b .& 0x1)) =? b) &&
  (b .& 0x1 <=? 1) && (b .& 0xf <=? 15) && (b .& 0x3 <=? 3) && (b .& 0x7 <=? 7) &&
  (0 <=? b .& 0x1) && (0 <=? b .& 0xf) && (0 <=? b .& 0x3) && (0 <=? b .& 0x7) &&
  (u8 ((q0 b .<< 3) .| (b .& 0x7)) =? b)) = true.
Proof. vm_cast_no_check (eq_refl true). Qed.
Lemma o2_all : all3 2 2 (fun x b y =>
  (o2 ((x .<< 4) .| (b .>> 4)) (((b .& 0xf) .<< 1) .| y) =? b) &&
  (u8 ((((x .<< 4) .| (b .>> 4)) .<< 4) .| (b .& 0xf)) =? b)) = true.
Proof. vm_cast_no_check (eq_refl true). Qed.
Lemma o3_all : all3 16 8 (fun x b y =>
  (o3 ((x .<< 1) .| (b .>> 7)) (q5 b) (((b .& 0x3) .<< 3) .| y) =? b) &&
  (u8 ((((x .<< 1) .| (b .>> 7)) .<< 7) .| (q5 b .<< 2) .| (b .& 0x3)) =? b)) = true.
Proof. vm_cast_no_check (eq_refl true). Qed.
Lemma o4_all : all3 4 1 (fun x b _ => o4 ((x .<< 3) .| (b .>> 5)) (q7 b) =? b) = true.
Proof. vm_cast_no_check (eq_refl true). Qed.

Lemma land_small b k : is_byte b -> 0 <= k -> 0 <= b .& (2 ^ k - 1) < 2 ^ k.
Proof. intros. rewrite land_mask by lia. apply Z.mod_pos_bound. apply Z.pow_pos_nonneg; lia. Qed.

Lemma shr_small b k : is_byte b -> 0 <= k <= 8 -> 0 <= b .>> k < 2 ^ (8 - k).
Proof.
  intros Hb Hk. rewrite shr_div by lia. unfold in_width in Hb.
  pose proof (Z.pow_pos_nonneg 2 k ltac:(lia) ltac:(lia)).
  split; [apply Z.div_pos; lia|]. apply Z.div_lt_upper_bound; [lia|].
  rewrite <- Z.pow_add_r by lia. replace (k + (8 - k)) with 8 by lia. lia.
Qed.

Lemma e1 a b c : is_byte a -> is_byte b -> is_byte c -> o1 (q1 a b) (q2 b) (q3 b c) = b.
Proof.
  intros Ha Hb Hc. apply Z.eqb_eq.
  apply (all3_forall _ _ _ o1_all (a .& 0x7) b (c .>> 4)); [|done|].
  - exact (land_small a 3 Ha ltac:(lia)).
  - exact (shr_small c 4 Hc ltac:(lia)).
Qed.

Lemma e2 b c d : is_byte b -> is_byte c -> is_byte d ->
  o2 (q3 b c) (q4 c d) = c /\ u8 ((q3 b c .<< 4) .| (c .& 0xf)) = c.
Proof.
  intros Hb Hc Hd.
  assert (H := all3_forall _ _ _ o2_all (b .& 1) c (d .>> 7) (land_small b 1 Hb ltac:(lia)) Hc
    (shr_small d 7 Hd ltac:(lia))). cbn beta in H.
  apply andb_true_iff in H as [H1 H2]. apply Z.eqb_eq in H1, H2. by split.
Qed.

Lemma e3 c d e : is_byte c -> is_byte d -> is_byte e ->
  o3 (q4 c d) (q5 d) (q6 d e) = d /\ u8 ((q4 c d .<< 7) .| (q5 d .<< 2) .| (d .& 0x3)) = d.
Proof.
  intros Hc Hd He.
  assert (H := all3_forall _ _ _ o3_all (c .& 0xf) d (e .>> 5) (land_small c 4 Hc ltac:(lia)) Hd
    (shr_small e 5 He ltac:(lia))). cbn beta in H.
  apply andb_true_iff in H as [H1 H2]. apply Z.eqb_eq in H1, H2. by split.
Qed.

Lemma e4 d e : is_byte d -> is_byte e -> o4 (q6 d e) (q7 e) = e.
Proof.
  intros Hd He. apply Z.eqb_eq.
  apply (all3_forall _ _ _ o4_all (d .& 0x3) e 0); [|done|lia].
  exact (land_small d 2 Hd ltac:(lia)).
Qed.

Lemma e_last a b : is_byte a -> is_byte b ->
  u8 ((q1 a b .<< 6) .| (q2 b .<< 1) .| (b .& 0x1)) = b /\ u8 ((q0 b .<< 3) .| (b .& 0x7)) = b /\
  0 <= b .& 0x1 <= 1 /\ 0 <= b .& 0xf <= 15 /\ 0 <= b .& 0x3 <= 3 /\ 0 <= b .& 0x7 <= 7.
Proof.
  intros Ha Hb.
  assert (H := all3_forall _ _ _ o1_last_all (a .& 0x7) b 0 (land_small a 3 Ha ltac:(lia)) Hb
    ltac:(lia)). cbn beta in H.
  unfold q1. bool_prop. repeat split; done || lia.
Qed.

(** ** Round trip *)

Section RoundTrip.
Context {T : Base32Table} {L : Base32Law T}.

Lemma dec_at m p l z v : holds m p l -> nth_error l (Z.to_nat z) = Some (b32_encode v) ->
  0 <= z -> in_width 5 v -> dec m (p + z) = Some v.
Proof.
  intros Hh Hk Hz Hv. unfold dec. rewrite <- (Z2Nat.id z) by done.
  rewrite (holds_nth m p l (Z.to_nat z) 0 Hh) by (apply nth_error_Some; congruence).
  rewrite (nth_error_nth _ _ _ Hk). by apply b32_decode_encode.
Qed.

Lemma dec_at0 m p l v : holds m p (b32_encode v :: l) -> in_width 5 v -> dec m p = Some v.
Proof.
  intros Hh Hv. rewrite <- (dec_at m p _ 0 v Hh eq_refl ltac:(lia) Hv). f_equal. lia.
Qed.

Lemma Base32Encode_cons5 a b c d e t :
  Base32Encode (a :: b :: c :: d :: e :: t) =
  [b32_encode (q0 a); b32_encode (q1 a b); b32_encode (q2 b); b32_encode (q3 b c);
   b32_encode (q4 c d); b32_encode (q5 d); b32_encode (q6 d e); b32_encode (q7 e)] ++ Base32Encode t.
Proof. reflexivity. Qed.

Lemma length_Base32Encode l :
  Z.of_nat (length (Base32Encode l)) = (Z.of_nat (length l) * 8 + 4) / 5.
Proof.
  induction l as [l Hl|a b c d e l IH] using list_ind5.
  - by destruct l as [|a [|b [|c [|d [|e l]]]]]; cbn in Hl; try lia.
  - rewrite Base32Encode_cons5, length_app, Nat2Z.inj_add, IH. cbn [length]. zlia.
Qed.

(** A full group decodes to its five bytes. *)
Lemma dec_block_enc m p a b c d e t :
  bytes [a; b; c; d; e] -> holds m p (Base32Encode (a :: b :: c :: d :: e :: t)) ->
  dec_block m p = Some [a; b; c; d; e].
Proof.
  intros Hb Hh. apply Forall_cons in Hb as [Ha Hb]. apply Forall_cons in Hb as [Hb Hc].
  apply Forall_cons in Hc as [Hc Hd]. apply Forall_cons in Hd as [Hd He].
  apply Forall_cons in He as [He _].
  destruct (quintets_ok a b Ha Hb). destruct (quintets_ok b c Hb Hc).
  destruct (quintets_ok c d Hc Hd). destruct (quintets_ok d e Hd He).
  destruct (quintets_ok e e He He). rewrite Base32Encode_cons5 in Hh. unfold dec_block.
  rewrite (dec_at0 _ _ _ _ Hh) by done.
  rewrite (dec_at m p _ 1 (q1 a b) Hh eq_refl), (dec_at m p _ 2 (q2 b) Hh eq_refl),
    (dec_at m p _ 3 (q3 b c) Hh eq_refl), (dec_at m p _ 4 (q4 c d) Hh eq_refl),
    (dec_at m p _ 5 (q5 d) Hh eq_refl), (dec_at m p _ 6 (q6 d e) Hh eq_refl),
    (dec_at m p _ 7 (q7 e) Hh eq_refl) by (done || lia).
  by rewrite e5, e1, (proj1 (e2 _ _ _ Hb Hc Hd)), (proj1 (e3 _ _ _ Hc Hd He)), e4 by done.
Qed.

Lemma dec_last_ok m p l z v lim : holds m p l -> nth_error l (Z.to_nat z) = Some (b32_encode v) ->
  0 <= z -> 0 <= v <= lim -> lim < 32 -> dec_last m (p + z) lim = Some v.
Proof.
  intros Hh Hk Hz Hv Hlim. unfold dec_last.
  rewrite (dec_at m p l z v) by (done || unfold in_width; lia).
  by rewrite (proj2 (Z.ltb_ge lim v)) by lia.
Qed.

Lemma zero_is_byte : is_byte 0.
Proof. unwrap. lia. Qed.

(** The last group of one to four bytes. *)
Lemma dec_tail_enc m p l : bytes l -> (length l < 5)%nat -> holds m p (Base32Encode l) ->
  dec_tail m p (Z.of_nat (length (Base32Encode l))) = (true, l).
Proof.
  intros Hl Hn Hh. destruct l as [|a [|b [|c [|d [|e l]]]]]; cbn [length] in Hn; try lia.
  - reflexivity.
  - apply Forall_cons in Hl as [Ha _]. destruct (quintets_ok a a Ha Ha) as [Wa _ _ _ _ _ _ _ _].
    destruct (e_last a a Ha Ha) as (_ & E & _ & _ & _ & R).
    cbn [Base32Encode] in Hh. unfold dec_tail. cbn [Base32Encode length].
    change (Z.of_nat 2 =? 0) with false. change (Z.of_nat 2 =? 2) with true. cbn iota.
    rewrite (dec_at0 _ _ _ _ Hh) by done.
    rewrite (dec_last_ok m p _ 1 (a .& 0x7) 7 Hh eq_refl) by lia.
    by rewrite E.
  - apply Forall_cons in Hl as [Ha Hl]. apply Forall_cons in Hl as [Hb _].
    destruct (quintets_ok a b Ha Hb) as [Wa Wb _ _ _ _ _ _ E0].
    destruct (quintets_ok b b Hb Hb) as [_ _ Wc _ _ _ _ _ _].
    destruct (e_last a b Ha Hb) as (E & _ & R & _).
    cbn [Base32Encode] in Hh. unfold dec_tail. cbn [Base32Encode length].
    change (Z.of_nat 4 =? 0) with false. change (Z.of_nat 4 =? 2) with false.
    change (Z.of_nat 4 =? 4) with true. cbn iota.
    rewrite (dec_at0 _ _ _ _ Hh) by done.
    rewrite (dec_at m p _ 1 (q1 a b) Hh eq_refl), (dec_at m p _ 2 (q2 b) Hh eq_refl) by (done || lia).
    rewrite (dec_last_ok m p _ 3 (b .& 0x1) 1 Hh eq_refl) by lia.
    by rewrite E0, E.
  - apply Forall_cons in Hl as [Ha Hl]. apply Forall_cons in Hl as [Hb Hl].
    apply Forall_cons in Hl as [Hc _].
    destruct (quintets_ok a b Ha Hb) as [Wa Wb _ _ _ _ _ _ E0].
    destruct (quintets_ok b c Hb Hc) as [_ _ Wc Wd _ _ _ _ _].
    destruct (e_last b c Hb Hc) as (_ & _ & _ & R & _).
    cbn [Base32Encode] in Hh. unfold dec_tail. cbn [Base32Encode length].
    change (Z.of_nat 5 =? 0) with false. change (Z.of_nat 5 =? 2) with false.
    change (Z.of_nat 5 =? 4) with false. change (Z.of_nat 5 =? 5) with true. cbn iota.
    rewrite (dec_at0 _ _ _ _ Hh) by done.
    rewrite (dec_at m p _ 1 (q1 a b) Hh eq_refl), (dec_at m p _ 2 (q2 b) Hh eq_refl),
      (dec_at m p _ 3 (q3 b c) Hh eq_refl) by (done || lia).
    rewrite (dec_last_ok m p _ 4 (c .& 0xf) 16 Hh eq_refl) by lia.
    by rewrite E0, e1, (proj2 (e2 b c c Hb Hc Hc)) by done.
  - apply Forall_cons in Hl as [Ha Hl]. apply Forall_cons in Hl as [Hb Hl].
    apply Forall_cons in Hl as [Hc Hl]. apply Forall_cons in Hl as [Hd _].
    destruct (quintets_ok a b Ha Hb) as [Wa Wb _ _ _ _ _ _ E0].
    destruct (quintets_ok b c Hb Hc) as [_ _ Wc Wd _ _ _ _ _].
    destruct (quintets_ok c d Hc Hd) as [_ _ _ _ We _ _ _ _].
    destruct (quintets_ok d d Hd Hd) as [_ _ _ _ _ Wf _ _ _].
    destruct (e_last c d Hc Hd) as (_ & _ & _ & _ & R & _).
    cbn [Base32Encode] in Hh. unfold dec_tail. cbn [Base32Encode length].
    change (Z.of_nat 7 =? 0) with false. change (Z.of_nat 7 =? 2) with false.
    change (Z.of_nat 7 =? 4) with false. change (Z.of_nat 7 =? 5) with false.
    change (Z.of_nat 7 =? 7) with true. cbn iota.
    rewrite (dec_at0 _ _ _ _ Hh) by done.
    rewrite (dec_at m p _ 1 (q1 a b) Hh eq_refl), (dec_at m p _ 2 (q2 b) Hh eq_refl),
      (dec_at m p _ 3 (q3 b c) Hh eq_refl), (dec_at m p _ 4 (q4 c d) Hh eq_refl),
      (dec_at m p _ 5 (q5 d) Hh eq_refl) by (done || lia).
    rewrite (dec_last_ok m p _ 6 (d .& 0x3) 4 Hh eq_refl) by lia.
    by rewrite E0, e1, (proj1 (e2 b c d Hb Hc Hd)), (proj2 (e3 c d d Hc Hd Hd)) by done.
Qed.

Lemma length_enc_small l : (length l < 5)%nat -> (length (Base32Encode l) < 8)%nat.
Proof. destruct l as [|a [|b [|c [|d [|e l]]]]]; cbn; lia. Qed.

Lemma dec_blocks_enc l : forall m p, bytes l -> holds m p (Base32Encode l) ->
  dec_blocks (length l / 5) m p (Z.of_nat (length (Base32Encode l)) mod 8) = (true, l).
Proof.
  induction l as [l Hn|a b c d e l IH] using list_ind5; intros m p Hl Hh.
  - rewrite Nat.div_small by done. pose proof (length_enc_small l Hn).
    rewrite Z.mod_small by lia. by apply dec_tail_enc.
  - pose proof (dec_block_enc m p a b c d e l) as Hb.
    assert (Hg : bytes [a; b; c; d; e] /\ bytes l) by (by apply (Forall_app (in_width 8) [a; b; c; d; e])).
    destruct Hg as [Hg Hl']. specialize (Hb Hg Hh).
    change (length (a :: b :: c :: d :: e :: l)) with (5 + length l)%nat.
    replace ((5 + length l) / 5)%nat with (S (length l / 5))
      by (symmetry; exact (Nat.div_add_l 1 5 (length l) ltac:(lia))).
    cbn [dec_blocks]. rewrite Hb. rewrite Base32Encode_cons5 in *.
    apply holds_app in Hh as [_ Hh]. rewrite length_app.
    specialize (IH m (p + 8) Hl' Hh).
    replace (Z.of_nat _ mod 8) with (Z.of_nat (length (Base32Encode l)) mod 8); [by rewrite IH|].
    rewrite Nat2Z.inj_add. cbn [length]. change (Z.of_nat 8) with 8. zlia.
Qed.

(** For every digit table that decodes its own digits, [_Base32Decode]
    of [_Base32Encode] gives any byte string back, wherever the text lies in
    memory; the lengths computed by [Base32EncodeLength] and
    [Base32DecodeLength] are those of the text and of the string. *)
Theorem Base32_roundtrip l m p :
  bytes l -> Z.of_nat (length l) < 2 ^ 60 -> holds m p (Base32Encode l) ->
  let n := Z.of_nat (length (Base32Encode l)) in
  Base32Decode (Z.of_nat (length l)) m p n = (true, l) /\
  Base32EncodeLength (Z.of_nat (length l)) = n /\
  Base32DecodeLength n = Z.of_nat (length l).
Proof.
  intros Hl Hn Hh n.
  assert (Hlen : n = (Z.of_nat (length l) * 8 + 4) / 5) by apply length_Base32Encode.
  assert (Hd : Base32DecodeLength n = Z.of_nat (length l)).
  { unfold Base32DecodeLength. change 0x7 with (2 ^ 3 - 1). rewrite land_mask by lia.
    change (2 ^ 3) with 8.
    assert (Hc : exists q r, Z.of_nat (length l) = 5 * q + r /\ 0 <= q /\
      (r, n mod 8, tail_len (n mod 8)) ∈ [(0, 0, 0); (1, 2, 1); (2, 4, 2); (3, 5, 3); (4, 7, 4)]).
    { exists (Z.of_nat (length l) / 5), (Z.of_nat (length l) mod 5). split; [zlia|]. split; [zlia|].
      assert (Hr : Z.of_nat (length l) mod 5 = 0 /\ n mod 8 = 0 \/
        Z.of_nat (length l) mod 5 = 1 /\ n mod 8 = 2 \/ Z.of_nat (length l) mod 5 = 2 /\ n mod 8 = 4 \/
        Z.of_nat (length l) mod 5 = 3 /\ n mod 8 = 5 \/ Z.of_nat (length l) mod 5 = 4 /\ n mod 8 = 7)
        by (clear - Hlen; zlia).
      apply list_elem_of_In.
      destruct Hr as [[-> ->]|[[-> ->]|[[-> ->]|[[-> ->]|[-> ->]]]]]; cbn; auto 10. }
    destruct Hc as (q & r & El & Hq & Hin). rewrite list_elem_of_In in Hin.
    assert (E8 : n = 8 * q + n mod 8).
    { destruct Hin as [E|[E|[E|[E|[E|[]]]]]]; injection E as Er Em _; zlia. }
    destruct Hin as [E|[E|[E|[E|[E|[]]]]]]; injection E as Er Em Et;
      rewrite <- Et; cbn [Z.leb Z.compare]; rewrite El, <- Er; zlia. }
  split; [|split; [|done]].
  - unfold Base32Decode. rewrite Hd, Z.eqb_refl. cbn [negb].
    replace (Z.to_nat (n / 8)) with (length l / 5)%nat; [by apply dec_blocks_enc|].
    apply Nat2Z.inj. rewrite Nat2Z.inj_div. rewrite Z2Nat.id by (rewrite Hlen; zlia).
    change (Z.of_nat 5) with 5. clear - Hlen. zlia.
  - unfold Base32EncodeLength. rewrite Hlen. unwrap.
    rewrite (Z.mod_small (Z.of_nat (length l) * 8)) by lia. by rewrite Z.mod_small by lia.
Qed.
End RoundTrip.

Lemma Base32_roundtrip_witness :
  let T := table_crockford false true in
  let l := [7; 255; 0; 19; 128; 64; 33] in
  let text := @Base32Encode T l in
  let m := mem_of 0 40 text in
  (bytes l /\ Z.of_nat (length l) < 2 ^ 60 /\ holds m 40 text) /\
  let n := Z.of_nat (length text) in
  @Base32Decode T (Z.of_nat (length l)) m 40 n = (true, l) /\
  Base32EncodeLength (Z.of_nat (length l)) = n /\
  Base32DecodeLength n = Z.of_nat (length l).
Proof.
  intros T l text m. assert (H1 : bytes l) by (unfold l; forall_list; unwrap; lia).
  assert (H2 : Z.of_nat (length l) < 2 ^ 60) by (cbn; lia).
  assert (H3 : holds m 40 text) by (vm_compute; reflexivity).
  split; [auto|]. exact (@Base32_roundtrip T (table_crockford_law false true) l m 40 H1 H2 H3).
Defined.

(** Two slips of the decoder: the limit of the last digit of a five-character
    group is 16 where the encoder's largest is 15, so ["0000G"] passes and
    re-encodes differently; and for a text length of no encoding
    [Base32DecodeLength] is 0, so a zero-sized buffer passes the length check
    and five bytes are stored in it. *)
Example Base32Decode_slips :
  Base32Decode 3 (mem_of 0 0 (str "0000G")) 0 5 = (true, [0; 0; 16]) /\
  Base32Encode [0; 0; 16] = str "00010" /\
  Base32Decode 0 (mem_of 0 0 (str "012345678")) 0 9 = (false, [0; 68; 50; 20; 199]).
Proof. vm_compute. repeat split; reflexivity. Qed.
