(* ===== verification/Str.v ===== *)
(** The string primitives of rt/string_type_op.h and rt/string_type.h the other
    components rest on: [itoa], [ToNumber], character sets, searches, trims
    and [Split].  A string is a pair of addresses into a byte memory; [char]
    is signed. *)
From S2P Require Import Prelude.

(** ** Definitions: characters, references, character sets *)

(** The two quotation marks. *)
Definition c_quot : Z := 34.
Definition c_apos : Z := 39.

Definition sc (m : mem) (a : Z) : Z := s8 (m a).

(** [String_Ref(begin, end)]: [Begin] and [End]. *)
Record ref := mkRef { rb : Z; re : Z }.
Definition null_ref : ref := mkRef 0 0.
Definition GetLength (r : ref) : Z := re r - rb r.
Definition IsEmpty (r : ref) : bool := (rb r =? 0) || (re r =? rb r).
Definition text (m : mem) (r : ref) : list Z := mem_bytes m (rb r) (Z.to_nat (GetLength r)).

(** [char _Set[127]], indexed by the character less one. *)
Definition cset := Z -> Z.

Fixpoint cs_Init (s : cset) (p mapped : list Z) : cset :=
  match p, mapped with
  | c :: p, v :: mapped => cs_Init (mset s (c - 1) v) p mapped
  | _, _ => s
  end.

Definition CharacterSet (p : list Z) : cset := cs_Init (fun _ => 0) p p.
Definition CharacterSet_map (p mapped : list Z) : cset := cs_Init (fun _ => 0) p mapped.
Definition Has (s : cset) (c : Z) : bool := if 1 <=? c then negb (s (c - 1) =? 0) else false.
Definition Mapped (s : cset) (c : Z) : Z :=
  if (1 <=? c) && negb (s (c - 1) =? 0) then s (c - 1) else c.

(** ** Definitions: itoa *)

Fixpoint itoa_loop (fuel : nat) (m : mem) (wstr uvalue : Z) : option (mem * Z) :=
  match fuel with
  | O => None
  | S f =>
    let m := mset m wstr (u8 (48 + uvalue mod 10)) in
    let uvalue := uvalue / 10 in
    if uvalue =? 0 then Some (m, wstr + 1) else itoa_loop f m (wstr + 1) uvalue
  end.

Fixpoint strreverse (fuel : nat) (m : mem) (begin e : Z) : mem :=
  match fuel with
  | O => m
  | S f => if begin <? e then
             let aux := m e in
             let m := mset m e (m begin) in
             strreverse f (mset m begin aux) (begin + 1) (e - 1)
           else m
  end.

(** Twenty digits hold any 64-bit value. *)
Definition itoa_unsigned (m : mem) (value str : Z) : option (mem * Z) :=
  match itoa_loop 20 m str value with
  | None => None
  | Some (m, wstr) =>
    let m := mset m wstr 0 in
    Some (strreverse 20 m str (wstr - 1), wstr - str)
  end.

(** [w] is the width of the signed type. *)
Definition itoa_signed (w : Z) (m : mem) (value str : Z) : option (mem * Z) :=
  let uvalue := wrap w (if value <? 0 then - value else value) in
  match itoa_loop 20 m str uvalue with
  | None => None
  | Some (m, wstr) =>
    let '(m, wstr) := if value <? 0 then (mset m wstr (chr "-"), wstr + 1) else (m, wstr) in
    let m := mset m wstr 0 in
    Some (strreverse 21 m str (wstr - 1), wstr - str)
  end.

(** ** Definitions: ToNumber for integer types *)

Definition to_num (BASE x : Z) : Z :=
  if BASE <=? 10 then (if chr "0" <=? x then x - chr "0" else BASE)
  else if (x <=? chr "9") && (chr "0" <=? x) then x - chr "0"
  else if (x <=? chr "A" + BASE) && (chr "A" <=? x) then x - chr "A" + 10
  else if (x <=? chr "a" + BASE) && (chr "a" <=? x) then x - chr "a" + 10
  else BASE.

(** The integer type [T]: its width and signedness. *)
Record int_type := mkInt { iw : Z; isigned : bool }.
Definition T_UINT := mkInt 32 false.
Definition T_INT := mkInt 32 true.
Definition T_ULONGLONG := mkInt 64 false.
Definition T_LONGLONG := mkInt 64 true.
Definition cast (T : int_type) (z : Z) : Z := if isigned T then swrap (iw T) z else wrap (iw T) z.

(** The search for the first digit, [n = end - d]. *)
Fixpoint find_digit (n : nat) (BASE : Z) (m : mem) (d : Z) : Z :=
  match n with
  | O => d
  | S k => if BASE <=? to_num BASE (sc m d) then find_digit k BASE m (d + 1) else d
  end.

Fixpoint digits_loop (n : nat) (T : int_type) (BASE : Z) (m : mem) (d x : Z) : Z * Z :=
  match n with
  | O => (d, x)
  | S k =>
    if sc m d =? chr "," then digits_loop k T BASE m (d + 1) x
    else let val := to_num BASE (sc m d) in
         if val <? BASE then digits_loop k T BASE m (d + 1) (cast T (x * BASE + val)) else (d, x)
  end.

(** The returned offset (-1 when no number is found) and [x]. *)
Definition ToNumber_ (T : int_type) (BASE : Z) (ALLOW_LEADING : bool) (m : mem) (r : ref) : Z * Z :=
  if rb r =? re r then (-1, 0) else
  let d := find_digit (Z.to_nat (re r - rb r)) BASE m (rb r) in
  if d =? re r then (-1, 0) else
  let sign := isigned T && (1 <=? d - rb r) &&
              ((sc m (d - 1) =? chr "+") || (sc m (d - 1) =? chr "-")) in
  let s := if sign then d - 1 else d in
  let neg := sign && (sc m s =? chr "-") in
  if negb ALLOW_LEADING && negb (s =? rb r) then (-1, 0) else
  let '(d, x) := digits_loop (Z.to_nat (re r - d)) T BASE m d 0 in
  (d - rb r, if isigned T && neg then cast T (- x) else x).

Definition ToNumber (T : int_type) (m : mem) (r : ref) : Z * Z := ToNumber_ T 10 true m r.

(** ** Definitions: searches and trims *)

(** [n = GetLength() - start_offset] characters left; -1 if none. *)
Fixpoint find_char (n : nat) (m : mem) (p ch i : Z) : Z :=
  match n with
  | O => -1
  | S k => if sc m (p + i) =? ch then i else find_char k m p ch (i + 1)
  end.
Definition FindCharacter (m : mem) (r : ref) (ch start_offset : Z) : Z :=
  find_char (Z.to_nat (GetLength r - start_offset)) m (rb r) ch start_offset.

Fixpoint find_set (n : nat) (m : mem) (p : Z) (seps : cset) (i : Z) : Z :=
  match n with
  | O => -1
  | S k => if Has seps (sc m (p + i)) then i else find_set k m p seps (i + 1)
  end.
Definition FindCharacter_set (m : mem) (r : ref) (seps : cset) (start_offset : Z) : Z :=
  find_set (Z.to_nat (GetLength r - start_offset)) m (rb r) seps start_offset.

(** [memcmp(a, b, n) == 0] *)
Fixpoint memeq (n : nat) (m : mem) (a b : Z) : bool :=
  match n with
  | O => true
  | S k => (m a =? m b) && memeq k m (a + 1) (b + 1)
  end.

Definition ref_eq (m : mem) (a b : ref) : bool :=
  if IsEmpty a && IsEmpty b then true
  else (GetLength a =? GetLength b) && memeq (Z.to_nat (GetLength a)) m (rb a) (rb b).

Definition SubStr (r : ref) (start len : Z) : ref :=
  if start <? GetLength r then mkRef (rb r + start) (rb r + start + Z.min len (GetLength r - start))
  else null_ref.
Definition SubStr_from (r : ref) (start : Z) : ref :=
  if start <? GetLength r then mkRef (rb r + start) (re r) else null_ref.
Definition SubStrHead (r : ref) (len : Z) : ref := mkRef (rb r) (rb r + Z.min len (GetLength r)).
Definition SubStrTail (r : ref) (len : Z) : ref :=
  if GetLength r <? len then r else mkRef (rb r + GetLength r - len) (rb r + GetLength r).
Definition StartsWith (m : mem) (r prefix : ref) : bool :=
  (GetLength prefix <=? GetLength r) && ref_eq m (SubStr r 0 (GetLength prefix)) prefix.
Definition EndsWith (m : mem) (r suffix : ref) : bool :=
  (GetLength suffix <=? GetLength r) &&
  ref_eq m (SubStr r (GetLength r - GetLength suffix) (GetLength suffix)) suffix.

(** The search loop: [fuel] bounds the restarts, one per position at most. *)
Fixpoint find_str (fuel : nat) (m : mem) (r x : ref) (i : Z) : Z :=
  match fuel with
  | O => -1
  | S f =>
    let i := FindCharacter m r (sc m (rb x)) i in
    if i <? 0 then -1
    else if GetLength r - i <? GetLength x then -1
    else if memeq (Z.to_nat (GetLength x)) m (rb x) (rb r + i) then i
    else find_str f m r x (i + 1)
  end.
Definition FindString (m : mem) (r x : ref) (start_offset : Z) : Z :=
  if GetLength x =? 0 then -1 else find_str (S (Z.to_nat (GetLength r))) m r x start_offset.

(** ** Definitions: Split *)

Section Split.
Context (merge_adjecent_sep : bool) (quote1 quote2 : Z) (seps : cset) (m : mem).

(** [while(seps.Has(p[0]) && p<tail)p++] with [n = tail - p]. *)
Fixpoint skip_seps (n : nat) (p : Z) : Z :=
  match n with
  | O => p
  | S k => if Has seps (sc m p) then skip_seps k (p + 1) else p
  end.

Definition split_unquote (v : ref) : ref :=
  if (2 <=? GetLength v) && (sc m (rb v) =? sc m (re v - 1)) &&
     ((sc m (rb v) =? quote1) || (sc m (rb v) =? quote2))
  then SubStr v 1 (GetLength v - 2) else v.

(** [room] fields may still be written; one character, or the end, per
    step, so [tail - p + 1] steps are enough. *)
Fixpoint split_loop (fuel room : nat) (start p tail quote_cur : Z) : option (list ref) :=
  match fuel with
  | O => None
  | S f =>
    let emit (_ : unit) :=
      let v := split_unquote (mkRef start p) in
      match room with
      | O => None
      | S O => Some [v]
      | S room' =>
        if p =? tail then Some [v]
        else let p := p + 1 in
             let p := if merge_adjecent_sep then skip_seps (Z.to_nat (tail - p)) p else p in
             option_map (cons v) (split_loop f room' p p tail 0)
      end in
    if p <? tail then
      if negb (quote_cur =? 0) then
        let quote_cur := if (quote_cur =? sc m p) && (start <? p) && negb (sc m (p - 1) =? chr "\")
                         then 0 else quote_cur in
        split_loop f room start (p + 1) tail quote_cur
      else if (sc m p =? quote1) || (quote2 =? sc m p) then
        split_loop f room start (p + 1) tail (sc m p)
      else if negb (Has seps (sc m p)) then split_loop f room start (p + 1) tail 0
      else emit tt
    else emit tt
  end.

Definition Split_ (r : ref) (fields_count : nat) : option (list ref) :=
  if IsEmpty r then Some []
  else split_loop (Z.to_nat (GetLength r) + 1) fields_count (rb r) (rb r) (re r) 0.
End Split.

Definition Split (merge : bool) (m : mem) (r : ref) (fields_count : nat) (seps : cset)
  : option (list ref) :=
  Split_ merge c_quot c_apos seps m r fields_count.

(** ** The reference decimal notation *)

(** Least significant digit first; [fuel] digits at most. *)
Fixpoint dec_rev (fuel : nat) (v : Z) : list Z :=
  match fuel with
  | O => []
  | S f => (48 + v mod 10) :: (if v / 10 =? 0 then [] else dec_rev f (v / 10))
  end.

Definition decimal (v : Z) : list Z := rev (dec_rev 20 v).
Definition decimal_signed (v : Z) : list Z :=
  if v <? 0 then chr "-" :: decimal (- v) else decimal v.

Definition is_digit (c : Z) : Prop := 48 <= c < 58.

Lemma div10_range v B : 0 <= v < 10 * B -> 0 <= v / 10 < B.
Proof. intros. split; [zlia|]. apply Z.div_lt_upper_bound; lia. Qed.

Lemma dec_rev_digits f v : 0 <= v -> Forall is_digit (dec_rev f v).
Proof.
  revert v. induction f as [|f IH]; intros v Hv; cbn [dec_rev]; [constructor|].
  constructor; [unfold is_digit; zlia|]. case_bool; [constructor|]. apply IH. zlia.
Qed.

Lemma dec_rev_nonnil f v : (0 < f)%nat -> (0 < length (dec_rev f v))%nat.
Proof. destruct f; cbn [dec_rev length]; lia. Qed.

Lemma length_dec_rev f v : (length (dec_rev f v) <= f)%nat.
Proof.
  revert v. induction f as [|f IH]; intros v; cbn [dec_rev length]; [lia|].
  destruct (v / 10 =? 0); cbn [length]; [lia|]. specialize (IH (v / 10)). lia.
Qed.

Lemma decimal_digits v : 0 <= v -> Forall is_digit (decimal v).
Proof. intros. unfold decimal. apply Forall_rev. by apply dec_rev_digits. Qed.

(** ** itoa *)

Lemma itoa_loop_spec f : forall m wstr v, 0 <= v < 10 ^ Z.of_nat f -> (0 < f)%nat ->
  itoa_loop f m wstr v =
  Some (mstore m wstr (dec_rev f v), wstr + Z.of_nat (length (dec_rev f v))).
Proof.
  induction f as [|f IH]; intros m wstr v Hv Hf; [lia|]. cbn [itoa_loop dec_rev].
  assert (E : u8 (48 + v mod 10) = 48 + v mod 10) by (apply u8_id; unwrap; zlia).
  rewrite E. destruct (Z.eqb_spec (v / 10) 0) as [E0|E0].
  - cbn [length mstore]. done.
  - assert (Hf' : (0 < f)%nat).
    { destruct f; [|lia]. cbn in Hv. exfalso. apply E0. zlia. }
    rewrite Nat2Z.inj_succ, Z.pow_succ_r in Hv by lia.
    rewrite IH by (lia || by apply div10_range).
    cbn [mstore length]. do 2 f_equal. lia.
Qed.

(** The reversal loop mirrors [begin, e]. *)
Lemma strreverse_spec f : forall m b e, e - b < 2 * Z.of_nat f ->
  forall a, strreverse f m b e a = if (b <=? a) && (a <=? e) then m (b + e - a) else m a.
Proof.
  induction f as [|f IH]; intros m b e Hf a; cbn [strreverse].
  - case_cmp; done.
  - destruct (Z.ltb_spec b e) as [Hbe|Hbe].
    + cbn zeta. rewrite IH by lia. unfold mset.
      destruct (Z.eqb_spec a b) as [->|Hab]; [|destruct (Z.eqb_spec a e) as [->|Hae]].
      * case_cmp; cbn [andb]; try (exfalso; lia); f_equal; lia.
      * case_cmp; cbn [andb]; try (exfalso; lia); f_equal; lia.
      * case_cmp; cbn [andb]; try (exfalso; lia); try done; f_equal; lia.
    + case_cmp; cbn [andb]; try done. f_equal. lia.
Qed.

Lemma mstore_nth m a l x d : a <= x < a + Z.of_nat (length l) ->
  mstore m a l x = nth (Z.to_nat (x - a)) l d.
Proof. intros. rewrite <- (mstore_in m a l (x - a) d) by lia. f_equal. lia. Qed.

(** Reversing in place the text just stored, with its terminator after it. *)
Lemma strreverse_text f m str l : (0 < length l)%nat -> Z.of_nat (length l) <= 2 * Z.of_nat f ->
  forall a, strreverse f (mset (mstore m str l) (str + Z.of_nat (length l)) 0)
              str (str + Z.of_nat (length l) - 1) a =
            mstore m str (rev l ++ [0]) a.
Proof.
  intros Hl Hf a. rewrite strreverse_spec by lia. set (n := Z.of_nat (length l)) in *.
  destruct (decide (str <= a < str + n)) as [Hin|Hout].
  - rewrite (proj2 (Z.leb_le _ _)), (proj2 (Z.leb_le a _)) by lia. cbn [andb].
    rewrite mset_ne by lia. rewrite !(mstore_nth _ _ _ _ 0) by (rewrite ?length_app, ?length_rev; cbn; lia).
    rewrite app_nth1 by (rewrite length_rev; lia).
    rewrite rev_nth by lia. f_equal. lia.
  - replace ((str <=? a) && (a <=? str + n - 1)) with false by (case_cmp; done).
    rewrite mstore_app, length_rev. cbn [mstore]. fold n.
    destruct (decide (a = str + n)) as [->|]; [by rewrite !mset_eq|].
    rewrite !mset_ne by lia. by rewrite !mstore_out by (rewrite ?length_rev; lia).
Qed.

Lemma itoa_unsigned_spec m v str : 0 <= v < 2 ^ 64 ->
  exists m', itoa_unsigned m v str = Some (m', Z.of_nat (length (decimal v))) /\
    forall a, m' a = mstore m str (decimal v ++ [0]) a.
Proof.
  intros Hv. unfold itoa_unsigned. rewrite itoa_loop_spec by lia.
  pose proof (length_dec_rev 20 v). pose proof (dec_rev_nonnil 20 v ltac:(lia)).
  eexists. split.
  - do 2 f_equal. unfold decimal. rewrite length_rev. lia.
  - apply strreverse_text; lia.
Qed.

Lemma itoa_signed_spec w m v str : w = 32 \/ w = 64 -> - 2 ^ (w - 1) <= v < 2 ^ (w - 1) ->
  exists m', itoa_signed w m v str = Some (m', Z.of_nat (length (decimal_signed v))) /\
    forall a, m' a = mstore m str (decimal_signed v ++ [0]) a.
Proof.
  intros Hw Hv. unfold itoa_signed, decimal_signed.
  assert (E : wrap w (if v <? 0 then - v else v) = Z.abs v).
  { unfold wrap. rewrite Z.mod_small; case_cmp; destruct Hw; subst w; lia. }
  rewrite E. rewrite itoa_loop_spec by (destruct Hw; subst w; lia).
  pose proof (length_dec_rev 20 (Z.abs v)). pose proof (dec_rev_nonnil 20 (Z.abs v) ltac:(lia)).
  destruct (Z.ltb_spec v 0).
  - replace (- v) with (Z.abs v) by lia. set (l := dec_rev 20 (Z.abs v)) in *.
    exists (strreverse 21 (mset (mstore m str (l ++ [chr "-"])) (str + Z.of_nat (length (l ++ [chr "-"]))) 0)
              str (str + Z.of_nat (length (l ++ [chr "-"])) - 1)).
    split.
    + rewrite mstore_app. cbn [mstore]. rewrite length_app. cbn [length].
      unfold decimal. rewrite length_rev. fold l. rewrite Nat2Z.inj_add.
      change (Z.of_nat 1) with 1. rewrite !Z.add_assoc. do 2 f_equal. lia.
    + intros a. rewrite strreverse_text by (rewrite length_app; cbn [length]; lia).
      unfold decimal. fold l. by rewrite rev_app_distr.
  - replace (Z.abs v) with v in * by lia. eexists. split.
    + do 2 f_equal. unfold decimal. rewrite length_rev. lia.
    + apply strreverse_text; lia.
Qed.

(** ** ToNumber *)

(** The value of a digit string, most significant first. *)
Definition dec_val (l : list Z) : Z := fold_left (fun x c => x * 10 + (c - 48)) l 0.

Lemma dec_val_snoc l c : dec_val (l ++ [c]) = dec_val l * 10 + (c - 48).
Proof. unfold dec_val. by rewrite fold_left_app. Qed.

Lemma dec_val_rev f : forall v, 0 <= v < 10 ^ Z.of_nat f -> (0 < f)%nat ->
  dec_val (rev (dec_rev f v)) = v.
Proof.
  induction f as [|f IH]; intros v Hv Hf; [lia|]. cbn [dec_rev rev]. rewrite dec_val_snoc.
  destruct (Z.eqb_spec (v / 10) 0) as [E|E].
  - cbn. zlia.
  - assert (Hf' : (0 < f)%nat) by (destruct f; [cbn in Hv; exfalso; apply E; zlia|lia]).
    rewrite Nat2Z.inj_succ, Z.pow_succ_r in Hv by lia.
    rewrite IH by (lia || by apply div10_range). zlia.
Qed.

Lemma decimal_val v : 0 <= v < 2 ^ 64 -> dec_val (decimal v) = v.
Proof. intros. apply dec_val_rev; lia. Qed.

Lemma sc_small m a : 0 <= m a < 128 -> sc m a = m a.
Proof. intros. unfold sc, s8, swrap. change (2 ^ (8 - 1)) with 128. change (2 ^ 8) with 256. zlia. Qed.

Lemma to_num_digit c : is_digit c -> to_num 10 c = c - 48.
Proof. intros [H1 H2]. unfold to_num. cbn [Z.leb Z.compare Pos.compare Pos.compare_cont]. change (chr "0") with 48. case_cmp; lia. Qed.

Lemma is_digit_small c : is_digit c -> 0 <= c < 128.
Proof. unfold is_digit. lia. Qed.

(** A character at which the digit loop stops. *)
Definition ends_number (c : Z) : Prop := c <> chr "," /\ 10 <= to_num 10 c.

Lemma digits_loop_spec T m l : forall n d x,
  (length l <= n)%nat -> Forall is_digit l -> holds m d l ->
  ((length l < n)%nat -> ends_number (sc m (d + Z.of_nat (length l)))) ->
  digits_loop n T 10 m d x =
  (d + Z.of_nat (length l), fold_left (fun x c => cast T (x * 10 + (c - 48))) l x).
Proof.
  induction l as [|c l IH]; intros n d x Hn Hl Hh He.
  - cbn [length fold_left] in *. rewrite Z.add_0_r in *. destruct n as [|n]; [done|].
    cbn [digits_loop]. destruct (He ltac:(lia)) as [H1 H2].
    by rewrite (proj2 (Z.eqb_neq _ _) H1), (proj2 (Z.ltb_ge _ _) H2).
  - destruct n as [|n]; [cbn in Hn; lia|]. inversion_clear Hl as [|? ? Hc Hl'].
    unfold holds in Hh. cbn [length mem_bytes] in Hh. injection Hh as Ec Hh.
    cbn [digits_loop length fold_left].
    assert (Es : sc m d = c) by (rewrite sc_small; rewrite Ec; [done|by apply is_digit_small]).
    rewrite Es, to_num_digit by done. pose proof Hc as [Hc1 Hc2].
    rewrite (proj2 (Z.eqb_neq c (chr ","))) by (change (chr ",") with 44; lia).
    rewrite (proj2 (Z.ltb_lt (c - 48) 10)) by lia. cbn [length] in Hn, He.
    rewrite IH; try (done || lia).
    + f_equal; lia.
    + intros H. replace (d + 1 + Z.of_nat (length l)) with (d + Z.of_nat (S (length l))) by lia.
      apply He. lia.
Qed.

(** Casting at each digit is harmless while the value fits. *)
Lemma cast_id T z : 0 < iw T -> 0 <= z < 2 ^ (iw T - (if isigned T then 1 else 0)) -> cast T z = z.
Proof.
  intros Hw Hz. unfold cast, swrap, wrap. destruct (isigned T).
  - assert (2 ^ iw T = 2 * 2 ^ (iw T - 1)) by (rewrite <- Z.pow_succ_r by lia; f_equal; lia).
    rewrite Z.mod_small; lia.
  - rewrite Z.sub_0_r in Hz. by rewrite Z.mod_small by lia.
Qed.

Lemma fold_cast T l x B : 0 < iw T -> B = 2 ^ (iw T - (if isigned T then 1 else 0)) ->
  Forall is_digit l -> 0 <= x ->
  fold_left (fun x c => x * 10 + (c - 48)) l x < B ->
  fold_left (fun x c => cast T (x * 10 + (c - 48))) l x =
  fold_left (fun x c => x * 10 + (c - 48)) l x.
Proof.
  intros Hw -> Hl. revert x. induction Hl as [|c l Hc Hl IH]; intros x Hx Hf; [done|].
  cbn [fold_left] in *. unfold is_digit in Hc.
  assert (Hmono : forall k y, Forall is_digit k -> 0 <= y -> y <= fold_left (fun x c => x * 10 + (c - 48)) k y).
  { clear. intros k y Hk. revert y. induction Hk as [|c k Hc Hk IH]; intros y Hy; cbn [fold_left]; [lia|].
    unfold is_digit in Hc. specialize (IH (y * 10 + (c - 48)) ltac:(lia)). lia. }
  pose proof (Hmono l (x * 10 + (c - 48)) Hl ltac:(lia)).
  rewrite cast_id by lia. apply IH; lia.
Qed.

(** [itoa] at the integer type [T]. *)
Definition itoa (T : int_type) (m : mem) (value str : Z) : option (mem * Z) :=
  if isigned T then itoa_signed (iw T) m value str else itoa_unsigned m value str.

Definition int_limit (T : int_type) : Z := 2 ^ (iw T - (if isigned T then 1 else 0)).
Definition int_types : list int_type := [T_UINT; T_INT; T_ULONGLONG; T_LONGLONG].
Definition in_type (T : int_type) (v : Z) : Prop :=
  (if isigned T then - int_limit T else 0) <= v < int_limit T.

Lemma int_types_width T : In T int_types -> (iw T = 32 \/ iw T = 64) /\ int_limit T <= 2 ^ 64.
Proof.
  intros [<-|[<-|[<-|[<-|[]]]]]; (split; [cbn; auto|unfold int_limit; cbn; lia]).
Qed.

Lemma holds_nonempty_digit m p l : Forall is_digit l -> holds m p l -> (0 < length l)%nat ->
  is_digit (sc m p).
Proof.
  intros Hl Hh Hn. destruct l as [|c l]; [cbn in Hn; lia|]. inversion_clear Hl as [|? ? Hc _].
  apply holds_cons_inv in Hh as [E _]. rewrite sc_small; rewrite E; [done|by apply is_digit_small].
Qed.

(** Reading a run of digits at [d] that ends at [e] or before a character that
    is not part of a number. *)
Lemma digits_read T m d e l : In T int_types -> Forall is_digit l -> holds m d l ->
  d + Z.of_nat (length l) <= e ->
  (d + Z.of_nat (length l) < e -> ends_number (sc m (d + Z.of_nat (length l)))) ->
  dec_val l < int_limit T ->
  digits_loop (Z.to_nat (e - d)) T 10 m d 0 = (d + Z.of_nat (length l), dec_val l).
Proof.
  intros HT Hl Hh He Hs Hv. rewrite (digits_loop_spec T m l); try done; try lia.
  - f_equal. apply (fold_cast T l 0 (int_limit T)); try done; try lia.
    destruct (int_types_width T HT) as [[-> | ->] _]; lia.
  - intros. apply Hs. lia.
Qed.

Lemma find_digit_here n m d : is_digit (sc m d) -> find_digit n 10 m d = d.
Proof.
  intros Hd. destruct n; [done|]. cbn [find_digit]. rewrite to_num_digit by done.
  unfold is_digit in Hd. by rewrite (proj2 (Z.leb_gt 10 _)) by lia.
Qed.

Lemma ToNumber_digits T m p e l : In T int_types -> Forall is_digit l -> (0 < length l)%nat ->
  holds m p l -> p + Z.of_nat (length l) <= e ->
  (p + Z.of_nat (length l) < e -> ends_number (sc m (p + Z.of_nat (length l)))) ->
  dec_val l < int_limit T ->
  ToNumber T m (mkRef p e) = (Z.of_nat (length l), dec_val l).
Proof.
  intros HT Hl Hn Hh He Hs Hv. unfold ToNumber, ToNumber_. cbn [rb re].
  rewrite (proj2 (Z.eqb_neq p e)) by lia.
  rewrite find_digit_here by (by apply (holds_nonempty_digit m p l)).
  rewrite (proj2 (Z.eqb_neq p e)) by lia. rewrite Z.sub_diag. cbn [Z.leb Z.compare].
  rewrite andb_false_r. cbn [andb negb].
  rewrite (digits_read T m p e l) by auto. rewrite andb_false_r. f_equal. lia.
Qed.

(** The most negative value overflows into itself digit by digit. *)
Lemma cast_neg_limit T : In T int_types -> isigned T = true -> forall l,
  Forall is_digit l -> dec_val l = int_limit T ->
  fold_left (fun x c => cast T (x * 10 + (c - 48))) l 0 = - int_limit T.
Proof.
  intros HT Hs l Hl Hv. destruct l as [|c l _] using rev_ind.
  { destruct HT as [<-|[<-|[<-|[<-|[]]]]]; vm_compute in Hv; discriminate. }
  apply Forall_app in Hl as [Hl Hc]. apply Forall_inv in Hc. unfold is_digit in Hc.
  rewrite dec_val_snoc in Hv. rewrite fold_left_app. cbn [fold_left].
  assert (Hp : 0 <= dec_val l < int_limit T).
  { assert (0 <= dec_val l).
    { clear - Hl. unfold dec_val. assert (H : forall x, 0 <= x ->
        0 <= fold_left (fun x c => x * 10 + (c - 48)) l x); [|by apply H].
      induction Hl as [|c l Hc Hl IH]; intros x Hx; cbn [fold_left]; [done|].
      apply IH. unfold is_digit in Hc. lia. }
    destruct HT as [<-|[<-|[<-|[<-|[]]]]]; try discriminate; unfold int_limit in *; cbn in *; lia. }
  rewrite (fold_cast T l 0 (int_limit T)); try done; try (fold (dec_val l); lia).
  - fold (dec_val l). rewrite Hv. unfold cast. rewrite Hs. unfold int_limit. rewrite Hs.
    destruct (int_types_width T HT) as [[-> | ->] _]; reflexivity.
  - destruct (int_types_width T HT) as [[-> | ->] _]; lia.
Qed.

Lemma ToNumber_minus T m p l : In T int_types -> isigned T = true ->
  Forall is_digit l -> (0 < length l)%nat -> holds m p (chr "-" :: l) ->
  0 < dec_val l <= int_limit T ->
  ToNumber T m (mkRef p (p + 1 + Z.of_nat (length l))) =
  (1 + Z.of_nat (length l), - dec_val l).
Proof.
  intros HT Hsg Hl Hn Hh Hv. apply holds_cons_inv in Hh as [Em Hh].
  assert (Es : sc m p = 45) by (rewrite sc_small; rewrite Em; [done|change (chr "-") with 45; lia]).
  unfold ToNumber, ToNumber_. cbn [rb re]. rewrite (proj2 (Z.eqb_neq p _)) by lia.
  set (e := p + 1 + Z.of_nat (length l)).
  assert (Ef : find_digit (Z.to_nat (e - p)) 10 m p = p + 1).
  { replace (Z.to_nat (e - p)) with (S (length l)) by lia. cbn [find_digit]. rewrite Es.
    change (10 <=? to_num 10 45) with true. cbn iota.
    apply find_digit_here. by apply (holds_nonempty_digit m (p + 1) l). }
  rewrite Ef. rewrite (proj2 (Z.eqb_neq (p + 1) e)) by lia. rewrite Hsg.
  replace (p + 1 - p) with 1 by lia. replace (p + 1 - 1) with p by lia. rewrite Es.
  change ((45 =? chr "+") || (45 =? chr "-")) with true. change (45 =? chr "-") with true.
  cbn [andb negb]. change (1 <=? 1) with true. cbn [andb negb].
  rewrite Es. change (45 =? chr "-") with true. cbn iota.
  destruct (decide (dec_val l = int_limit T)) as [Emax|Hmax].
  - rewrite (digits_loop_spec T m l) by (done || lia).
    rewrite (cast_neg_limit T HT Hsg l Hl Emax). f_equal; [lia|].
    rewrite Emax. unfold cast, int_limit. rewrite Hsg.
    destruct (int_types_width T HT) as [[-> | ->] _]; reflexivity.
  - rewrite (digits_read T m (p + 1) e l) by (try done; lia). f_equal; [lia|].
    unfold cast. rewrite Hsg. unfold int_limit in Hv. rewrite Hsg in Hv. unfold swrap.
    destruct (int_types_width T HT) as [[E | E] _]; rewrite E in *; rewrite Z.mod_small; lia.
Qed.

Lemma length_decimal v : (0 < length (decimal v) <= 20)%nat.
Proof.
  unfold decimal. rewrite length_rev. pose proof (length_dec_rev 20 v).
  pose proof (dec_rev_nonnil 20 v ltac:(lia)). lia.
Qed.

(** The text an [itoa] stores. *)
Lemma itoa_text T m v str : In T int_types -> in_type T v ->
  let l := if v <? 0 then chr "-" :: decimal (- v) else decimal v in
  exists m', itoa T m v str = Some (m', Z.of_nat (length l)) /\
    forall a, m' a = mstore m str (l ++ [0]) a.
Proof.
  intros HT Hv l. unfold itoa. unfold in_type, int_limit in Hv.
  destruct (isigned T) eqn:Es.
  - destruct (int_types_width T HT) as [[E|E] _]; rewrite E in *;
      apply (itoa_signed_spec _ m v str); auto; lia.
  - destruct (int_types_width T HT) as [[E|E] _]; rewrite E in *;
      unfold l; rewrite (proj2 (Z.ltb_ge v 0)) by lia; apply itoa_unsigned_spec; lia.
Qed.

(** [string_ops::itoa] of any value of the four integer types stores the
    decimal text and its terminating zero, at most 20 characters plus zero,
    nothing else, and [ToNumber] of the text gives the value back and consumes
    all of it - the most negative values included. *)
Theorem itoa_ToNumber_roundtrip T m v str :
  In T int_types -> in_type T v ->
  let l := if v <? 0 then chr "-" :: decimal (- v) else decimal v in
  exists m', itoa T m v str = Some (m', Z.of_nat (length l)) /\
    (forall a, m' a = mstore m str (l ++ [0]) a) /\ Z.of_nat (length l) <= 20 + (if v <? 0 then 1 else 0) /\
    ToNumber T m' (mkRef str (str + Z.of_nat (length l))) = (Z.of_nat (length l), v).
Proof.
  intros HT Hv l. destruct (itoa_text T m v str HT Hv) as (m' & E & Hm). exists m'.
  split; [exact E|]. split; [exact Hm|].
  assert (Hh : holds m' str l).
  { apply (holds_ext m' (mstore m str (l ++ [0]))); [done|].
    exact (proj1 (holds_app _ _ l [0] (holds_mstore m str (l ++ [0])))). }
  destruct (int_types_width T HT) as [_ Hw]. unfold in_type in Hv.
  pose proof (length_decimal v). pose proof (length_decimal (- v)). subst l.
  destruct (Z.ltb_spec v 0) as [Hneg|Hpos]; cbn [length] in *.
  - assert (Hs : isigned T = true) by (destruct (isigned T); [done|lia]). rewrite Hs in Hv.
    split; [lia|]. rewrite Nat2Z.inj_succ.
    replace (str + Z.succ (Z.of_nat (length (decimal (- v)))))
      with (str + 1 + Z.of_nat (length (decimal (- v)))) by lia.
    assert (Hw' : int_limit T <= 2 ^ 63).
    { destruct HT as [<-|[<-|[<-|[<-|[]]]]]; try discriminate; vm_compute; discriminate. }
    rewrite (ToNumber_minus T m' str (decimal (- v))); try done; try lia.
    + rewrite decimal_val by lia. f_equal; lia.
    + apply decimal_digits. lia.
    + rewrite decimal_val by lia. lia.
  - split; [lia|]. rewrite (ToNumber_digits T m' str _ (decimal v)); try done; try lia.
    + by rewrite decimal_val by lia.
    + by apply decimal_digits.
    + rewrite decimal_val by lia. lia.
Qed.

Lemma itoa_ToNumber_roundtrip_witness :
  (In T_INT int_types /\ in_type T_INT (- 2147483648)) /\
  let v := - 2147483648 in
  let l := if v <? 0 then chr "-" :: decimal (- v) else decimal v in
  exists m', itoa T_INT (mem_of 0 0 []) v 500 = Some (m', Z.of_nat (length l)) /\
    (forall a, m' a = mstore (mem_of 0 0 []) 500 (l ++ [0]) a) /\
    Z.of_nat (length l) <= 20 + (if v <? 0 then 1 else 0) /\
    ToNumber T_INT m' (mkRef 500 (500 + Z.of_nat (length l))) = (Z.of_nat (length l), v).
Proof.
  assert (H1 : In T_INT int_types) by (cbn; auto).
  assert (H2 : in_type T_INT (- 2147483648)) by (unfold in_type, int_limit; cbn; lia).
  split; [auto|]. exact (itoa_ToNumber_roundtrip T_INT (mem_of 0 0 []) (- 2147483648) 500 H1 H2).
Defined.

(** ** Split *)

Lemma skip_seps_all seps m l : forall n p, (length l <= n)%nat -> holds m p l ->
  Forall (fun c => Has seps (s8 c) = true) l ->
  ((length l < n)%nat -> Has seps (sc m (p + Z.of_nat (length l))) = false) ->
  skip_seps seps m n p = p + Z.of_nat (length l).
Proof.
  induction l as [|c l IH]; intros n p Hn Hh Hl He; cbn [length] in *.
  - rewrite Z.add_0_r in *. destruct n as [|n]; [done|]. cbn [skip_seps]. by rewrite He by lia.
  - destruct n as [|n]; [lia|]. inversion_clear Hl as [|? ? Hc Hl']. apply holds_cons_inv in Hh as [Em Hh].
    cbn [skip_seps]. unfold sc at 1. rewrite Em, Hc. rewrite IH; try done; [lia|lia|].
    intros H. replace (p + 1 + Z.of_nat (length l)) with (p + Z.of_nat (S (length l))) by lia. apply He. lia.
Qed.

(** A field: no separator and no quotation mark in it. *)
Definition word_ok (q1 q2 : Z) (seps : cset) (w : list Z) : Prop :=
  Forall (fun c => Has seps (s8 c) = false /\ s8 c <> q1 /\ s8 c <> q2) w.

Lemma split_word mg q1 q2 seps m w : forall fuel room start p tail,
  word_ok q1 q2 seps w -> holds m p w -> p + Z.of_nat (length w) <= tail ->
  split_loop mg q1 q2 seps m (length w + fuel) room start p tail 0 =
  split_loop mg q1 q2 seps m fuel room start (p + Z.of_nat (length w)) tail 0.
Proof.
  induction w as [|c w IH]; intros fuel room start p tail Hw Hh Ht; cbn [length] in *.
  { by rewrite Z.add_0_r. }
  inversion_clear Hw as [|? ? [Hc1 [Hc2 Hc3]] Hw']. apply holds_cons_inv in Hh as [Em Hh].
  cbn [Nat.add split_loop]. cbn zeta. rewrite (proj2 (Z.ltb_lt p tail)) by lia.
  change (0 =? 0) with true. cbn [negb].
  assert (Es : sc m p = s8 c) by (unfold sc; by rewrite Em). rewrite Es.
  rewrite (proj2 (Z.eqb_neq (s8 c) q1)) by done. rewrite (proj2 (Z.eqb_neq q2 (s8 c))) by congruence.
  cbn [orb]. rewrite Hc1. cbn [negb]. rewrite IH by (done || lia). f_equal. lia.
Qed.

Lemma split_unquote_word q1 q2 seps m p w : word_ok q1 q2 seps w -> holds m p w ->
  split_unquote q1 q2 m (mkRef p (p + Z.of_nat (length w))) = mkRef p (p + Z.of_nat (length w)).
Proof.
  intros Hw Hh. unfold split_unquote, GetLength. cbn [rb re].
  destruct w as [|c w]; [cbn [length]; by rewrite (proj2 (Z.leb_gt 2 _)) by lia|].
  inversion_clear Hw as [|? ? [_ [Hc2 Hc3]] _]. apply holds_cons_inv in Hh as [Em _].
  unfold sc. rewrite Em. rewrite (proj2 (Z.eqb_neq _ _) Hc2), (proj2 (Z.eqb_neq _ _) Hc3).
  by rewrite andb_false_r.
Qed.

(** A text as fields with the separators after each. *)
Definition chain_text (ch : list (list Z * list Z)) : list Z :=
  concat (map (fun ws => fst ws ++ snd ws) ch).

Fixpoint chain_refs (p : Z) (ch : list (list Z * list Z)) : list ref :=
  match ch with
  | [] => []
  | (w, s) :: t =>
    mkRef p (p + Z.of_nat (length w)) :: chain_refs (p + Z.of_nat (length w) + Z.of_nat (length s)) t
  end.

Fixpoint chain_ok (seps : cset) (ch : list (list Z * list Z)) : Prop :=
  match ch with
  | [] => False
  | (w, s) :: t =>
    (0 < length w)%nat /\ word_ok c_quot c_apos seps w /\
    Forall (fun c => Has seps (s8 c) = true /\ s8 c <> c_quot /\ s8 c <> c_apos) s /\
    match t with [] => True | _ => (0 < length s)%nat /\ chain_ok seps t end
  end.

Fixpoint chain_open (ch : list (list Z * list Z)) : bool :=
  match ch with
  | [] => false
  | [(_, s)] => negb (Nat.eqb (length s) 0)
  | _ :: t => chain_open t
  end.

Lemma chain_head seps w s t : chain_ok seps ((w, s) :: t) ->
  exists c u, w = c :: u /\ Has seps (s8 c) = false.
Proof.
  intros (Hn & Hw & _). destruct w as [|c u]; [cbn in Hn; lia|]. inversion_clear Hw as [|? ? [Hc _] _]. eauto.
Qed.

Lemma split_chain seps m ch : forall fuel room p,
  chain_ok seps ch -> holds m p (chain_text ch) ->
  (length (chain_text ch) < fuel)%nat -> (length ch < room)%nat ->
  let tail := p + Z.of_nat (length (chain_text ch)) in
  split_loop true c_quot c_apos seps m fuel room p p tail 0 =
  Some (chain_refs p ch ++ (if chain_open ch then [mkRef tail tail] else [])).
Proof.
  induction ch as [|[w s] ch IH]; intros fuel room p Hok Hh Hf Hr tail; [done|].
  unfold chain_text in *. cbn [map concat fst snd] in *. rewrite <- app_assoc in Hh.
  pose proof (holds_app _ _ _ _ Hh) as [Hh1 Hh2]. pose proof (holds_app _ _ _ _ Hh2) as [Hh3 Hh4].
  rewrite !length_app in *. destruct Hok as (Hn & Hw & Hs & Ht). cbn [length] in Hr.
  set (T := concat (map (fun ws => fst ws ++ snd ws) ch)) in *.
  assert (Htail : tail = p + Z.of_nat (length w) + Z.of_nat (length s) + Z.of_nat (length T))
    by (unfold tail; rewrite !length_app; lia). clearbody tail.
  replace fuel with (length w + (fuel - length w))%nat by lia.
  rewrite split_word by (try done; lia). set (q := p + Z.of_nat (length w)) in *.
  destruct room as [|[|room]]; [lia|lia|].
  destruct s as [|c s].
  - destruct ch as [|x ch]; [|destruct Ht as [Ht _]; cbn in Ht; lia].
    cbn in T. subst T. cbn [length] in *. assert (Eq : q = tail) by (unfold q; lia).
    destruct (fuel - length w)%nat as [|f] eqn:Ef; [lia|]. cbn [split_loop]. cbn zeta.
    rewrite (proj2 (Z.ltb_ge q tail)) by lia. rewrite (proj2 (Z.eqb_eq q tail)) by done.
    unfold q. rewrite (split_unquote_word c_quot c_apos seps) by done. done.
  - apply Forall_cons in Hs as [(Hc1 & Hc2 & Hc3) Hs']. cbn [length] in *.
    apply holds_cons_inv in Hh3 as [Em Hh3].
    assert (Hqt : q < tail) by (unfold q; lia).
    assert (Es : sc m q = s8 c) by (unfold sc; by rewrite Em).
    destruct (fuel - length w)%nat as [|f] eqn:Ef; [lia|]. cbn [split_loop]. cbn zeta.
    rewrite (proj2 (Z.ltb_lt q tail)) by done. change (0 =? 0) with true. cbn [negb].
    rewrite Es. rewrite (proj2 (Z.eqb_neq _ _) Hc2), (proj2 (Z.eqb_neq c_apos (s8 c))) by congruence.
    cbn [orb]. rewrite Hc1. cbn [negb]. rewrite (proj2 (Z.eqb_neq q tail)) by lia.
    unfold q at 1. rewrite (split_unquote_word c_quot c_apos seps) by done.
    rewrite (skip_seps_all seps m s).
    + cbn [chain_refs app]. fold q. cbn [length].
      replace (q + 1 + Z.of_nat (length s)) with (q + Z.of_nat (S (length s))) by lia.
      set (q' := q + Z.of_nat (S (length s))) in *.
      destruct ch as [|x ch].
      * cbn in T. subst T. cbn [length] in *. assert (Eq : q' = tail) by (unfold q', q; lia).
        cbn [chain_refs chain_open length Nat.eqb negb app].
        destruct f as [|f]; [lia|]. cbn [split_loop]. cbn zeta. rewrite Eq, Z.ltb_irrefl, Z.eqb_refl.
        unfold split_unquote, GetLength. cbn [rb re]. rewrite (proj2 (Z.leb_gt 2 _)) by lia.
        by destruct room.
      * destruct Ht as [_ Ht]. specialize (IH f (S room) q' Ht Hh4 ltac:(lia) ltac:(lia)). cbn zeta in IH.
        replace (q' + Z.of_nat (length T)) with tail in IH by (unfold q', q; lia).
        rewrite IH. done.
    + unfold q in *. lia.
    + done.
    + apply (Forall_impl _ _ _ Hs'). tauto.
    + intros Hlt. destruct ch as [|[w2 s2] ch]; [cbn in T; subst T; unfold q in *; cbn [length] in *; lia|].
      destruct Ht as [_ Ht]. destruct (chain_head seps w2 s2 ch Ht) as (c2 & u & Ew & Hc2').
      assert (Hx : holds m (q + 1 + Z.of_nat (length s)) T)
        by (replace (q + 1 + Z.of_nat (length s)) with (q + Z.of_nat (S (length s))) by lia; exact Hh4).
      unfold T in Hx. cbn [map concat fst snd] in Hx. rewrite Ew in Hx. cbn [app] in Hx.
      apply holds_cons_inv in Hx as [Ex _]. unfold sc. by rewrite Ex.
Qed.
