(* ===== verification/JsonLex.v ===== *)
(** The scanners of rt/json.h and rt/json.cpp: whitespace, names, escaped
    strings, length-prefixed binaries and the search for the end of a value
    ([_seek_json_object_closure]), over a byte memory, with the reference
    syntax of the values the composer writes. *)
From S2P Require Import Prelude Str.

(** ** Definitions: scanners *)

(** [while(p < end && P(char))p++] with [n = end - p]. *)
Fixpoint scan_while (P : Z -> bool) (n : nat) (m : mem) (p : Z) : Z :=
  match n with
  | O => p
  | S k => if P (sc m p) then scan_while P k m (p + 1) else p
  end.

Definition ws_char (c : Z) : bool := (c <=? chr " ") && (0 <=? c).
Definition skip_whitespace (m : mem) (p e : Z) : Z := scan_while ws_char (Z.to_nat (e - p)) m p.

Definition text_sep : cset :=
  CharacterSet ([7; 9; 10; 11; 12; 13; 32; c_apos; c_quot] ++ str ",:{}[]").
Definition is_text (c : Z) : bool := negb (Has text_sep c).
Definition scan_text (m : mem) (p e : Z) : Z := scan_while is_text (Z.to_nat (e - p)) m p.

Definition seek_char (m : mem) (p e c : Z) : Z :=
  scan_while (fun x => negb (x =? c)) (Z.to_nat (e - p)) m p.

Definition c_bslash : Z := 92.

(** [for(;s[0] == '\\';s--)].  Every caller starts the search after an opening
    quotation mark, so the run of backslashes ends there at the latest; [n]
    characters go back to that mark. *)
Fixpoint back_slashes (n : nat) (m : mem) (s : Z) : Z :=
  match n with
  | O => s
  | S k => if sc m s =? c_bslash then back_slashes k m (s - 1) else s
  end.

Fixpoint seek_escape (n : nat) (m : mem) (start p e c : Z) : Z :=
  match n with
  | O => e
  | S k =>
    if sc m p =? c then
      let s := back_slashes (Z.to_nat (p - start)) m (p - 1) in
      if Z.odd (s - p) then p else seek_escape k m start (p + 1) e c
    else seek_escape k m start (p + 1) e c
  end.

Definition seek_char_escape (m : mem) (p e c : Z) : Z :=
  seek_escape (Z.to_nat (e - p)) m p p e c.

Definition is_quote (c : Z) : bool := (c =? c_quot) || (c =? c_apos).

(** [_match_closure] *)
Definition match_closure (c : Z) : Z :=
  if is_quote c then c
  else if c =? chr "[" then chr "]"
  else if c =? chr "{" then chr "}"
  else 0.

(** The '<' branch: [<len/bytes>]; [None] is [nullptr]. *)
Definition seek_binary (m : mem) (p e : Z) : option Z :=
  let p := p + 1 in
  let '(off, len) := ToNumber T_UINT m (mkRef p e) in
  let p := p + off + u32 (1 + len) in
  if sc m p =? chr ">" then Some (p + 1) else None.

(** The bracket loop; each turn moves [p] forward, so [n >= end - p] turns
    reach [end], where the result is [nullptr]. *)
Fixpoint closure_loop (n : nat) (m : mem) (p e depth_inc depth_dec closure_depth : Z) : option Z :=
  match n with
  | O => None
  | S k =>
    if p <? e then
      let c := sc m p in
      if c =? depth_inc then closure_loop k m (p + 1) e depth_inc depth_dec (closure_depth + 1)
      else if c =? depth_dec then
        if closure_depth - 1 =? 0 then Some (p + 1)
        else closure_loop k m (p + 1) e depth_inc depth_dec (closure_depth - 1)
      else if is_quote c then
        let p := seek_char_escape m (p + 1) e c in
        if p =? e then None
        else closure_loop k m (p + 1) e depth_inc depth_dec closure_depth
      else if c =? chr "<" then
        match seek_binary m p e with
        | None => None
        | Some p => closure_loop k m (p + 1) e depth_inc depth_dec closure_depth
        end
      else closure_loop k m (p + 1) e depth_inc depth_dec closure_depth
    else None
  end.

Definition seek_json_object_closure (m : mem) (p e : Z) : option Z :=
  let c := sc m p in
  if is_quote c then
    let p := seek_char_escape m (p + 1) e c in
    if negb (p =? e) then Some (p + 1) else None
  else if c =? chr "<" then seek_binary m p e
  else
    let d := match_closure c in
    if negb (d =? 0) then closure_loop (Z.to_nat (e - p)) m (p + 1) e c d 1
    else Some (scan_text m p e).

(** [_cook_raw_value]: strips the quotation marks, or the binary's header and
    closing mark.  [n] bounds the search for the '/' of a binary. *)
Definition cook_raw_value (m : mem) (p tail : Z) : Z * Z :=
  if is_quote (sc m p) then (p + 1, tail - 1)
  else if sc m p =? chr "<" then
    (scan_while (fun x => negb (x =? chr "/")) (Z.to_nat (tail - p)) m (p + 2) + 1, tail - 1)
  else (p, tail).

(** ** The reference syntax *)

(** A JSON value as the composer writes it: the text of a number or literal, a
    string (its characters between the marks, escapes included), a binary, an
    array, an object. *)
Unset Elimination Schemes.
Inductive jv :=
| JText (t : list Z)
| JString (s : list Z)
| JBinary (b : list Z)
| JArr (l : list jv)
| JObj (fs : list (list Z * jv)).
Set Elimination Schemes.

Fixpoint join (sep : list Z) (l : list (list Z)) : list Z :=
  match l with
  | [] => []
  | [x] => x
  | x :: t => x ++ sep ++ join sep t
  end.

Definition quoted (s : list Z) : list Z := c_quot :: s ++ [c_quot].
Definition c_nl : Z := 10.

Fixpoint render (v : jv) : list Z :=
  match v with
  | JText t => t
  | JString s => quoted s
  | JBinary b => chr "<" :: decimal (Z.of_nat (length b)) ++ chr "/" :: b ++ [chr ">"]
  | JArr l => chr "[" :: join [chr ","] (map render l) ++ [chr "]"]
  | JObj [] => [chr "{"; chr "}"]
  | JObj fs =>
    chr "{" :: c_nl ::
    join [chr ","; c_nl] (map (fun f => quoted (fst f) ++ chr ":" :: render (snd f)) fs) ++
    [c_nl; chr "}"]
  end.

(** The characters of a string between marks [q]: every mark inside is
    escaped and no backslash escapes the closing one. *)
Fixpoint str_body (q : Z) (s : list Z) : bool :=
  match s with
  | [] => true
  | c :: t =>
    if c =? c_bslash then match t with [] => false | _ :: t' => str_body q t' end
    else negb (c =? q) && str_body q t
  end.

(** A character the bracket loop steps over without effect. *)
Definition plain (c : Z) : bool :=
  negb (is_quote c) && negb (c =? chr "<") && negb (c =? chr "[") && negb (c =? chr "]") &&
  negb (c =? chr "{") && negb (c =? chr "}").

Definition text_ok (t : list Z) : bool :=
  negb (Nat.eqb (length t) 0) && forallb (fun c => is_text (s8 c) && plain (s8 c) && negb (ws_char (s8 c))) t.

Definition is_bin (v : jv) : bool := match v with JBinary _ => true | _ => false end.

Fixpoint last_bin (l : list jv) : bool :=
  match l with [] => false | [v] => is_bin v | _ :: t => last_bin t end.

(** The values the parser handles: non-empty names and texts, strings that
    close, binaries below the length field's 16 MB bound and never last in an
    array (the bracket loop steps over the character after a binary). *)
Fixpoint jv_ok (v : jv) : bool :=
  match v with
  | JText t => text_ok t
  | JString s => str_body c_quot s
  | JBinary b => negb (Nat.eqb (length b) 0) && (Z.of_nat (length b) <=? 0xffffff)
  | JArr l => negb (last_bin l) && forallb jv_ok l
  | JObj fs =>
    forallb (fun f => negb (Nat.eqb (length (fst f)) 0) && str_body c_quot (fst f) && jv_ok (snd f)) fs
  end.

(** ** Characters in memory *)

Lemma sc_holds m p c l : holds m p (c :: l) -> sc m p = s8 c.
Proof. intros H. apply holds_cons_inv in H as [E _]. unfold sc. by rewrite E. Qed.

Lemma s8_eqb c k : is_byte c -> 0 <= k < 128 -> (s8 c =? k) = (c =? k).
Proof. intros Hc Hk. unwrap. destruct (Z.eqb_spec c k) as [->|]; apply Z.eqb_eq || apply Z.eqb_neq; zlia. Qed.

Lemma s8_ascii c : 0 <= c < 128 -> s8 c = c.
Proof. intros. unwrap. zlia. Qed.

Lemma is_quote_s8 c : is_byte c -> is_quote (s8 c) = is_quote c.
Proof. intros. unfold is_quote. by rewrite !s8_eqb by (done || unfold c_quot, c_apos; lia). Qed.

Lemma bytes_app a b : bytes (a ++ b) -> bytes a /\ bytes b.
Proof. apply Forall_app. Qed.

(** ** Escaped strings *)

(** The backslashes at the end of a text. *)
Fixpoint lead_bs (l : list Z) : nat :=
  match l with
  | c :: t => if c =? c_bslash then S (lead_bs t) else O
  | [] => O
  end.
Definition run (l : list Z) : nat := lead_bs (rev l).

Lemma run_snoc l c : run (l ++ [c]) = if c =? c_bslash then S (run l) else O.
Proof. unfold run. by rewrite rev_app_distr. Qed.

Lemma run_le l : (run l <= length l)%nat.
Proof.
  unfold run. rewrite <- (length_rev l). induction (rev l) as [|c t IH]; cbn [lead_bs length]; [lia|].
  destruct (c =? c_bslash); lia.
Qed.

Lemma back_slashes_run m start l : bytes l -> holds m start l ->
  back_slashes (length l) m (start + Z.of_nat (length l) - 1) =
  start + Z.of_nat (length l) - 1 - Z.of_nat (run l).
Proof.
  induction l as [|c l IH] using rev_ind; intros Hb Hh; [cbn; lia|].
  apply bytes_app in Hb as [Hb Hc]. apply Forall_inv in Hc. apply holds_app in Hh as [Hh Hlast].
  rewrite length_app, run_snoc. cbn [length].
  replace (length l + 1)%nat with (S (length l)) by lia. cbn [back_slashes].
  replace (start + Z.of_nat (S (length l)) - 1) with (start + Z.of_nat (length l)) by lia.
  rewrite (sc_holds _ _ _ _ Hlast), s8_eqb by (done || unfold c_bslash; lia).
  destruct (c =? c_bslash); [rewrite IH by done|]; lia.
Qed.

Lemma odd_neg n : Z.odd (- Z.of_nat n) = Nat.odd n.
Proof.
  rewrite Z.odd_opp. induction n as [|n IH]; [done|].
  by rewrite Nat2Z.inj_succ, Z.odd_succ, <- Z.negb_odd, IH, Nat.odd_succ, <- Nat.negb_odd.
Qed.

Lemma seek_escape_body q s : forall m start pre n e,
  is_quote q = true -> bytes (pre ++ s) -> str_body q s = true ->
  holds m start (pre ++ s ++ [q]) -> Nat.odd (run pre) = false ->
  (length s < n)%nat ->
  seek_escape n m start (start + Z.of_nat (length pre)) e q =
  start + Z.of_nat (length pre) + Z.of_nat (length s).
Proof.
  induction s as [s IH] using (induction_ltof1 _ (@length Z)); unfold ltof in IH.
  intros m start pre n e Hq Hb Hs Hh Hr Hn.
  assert (Hq2 : is_byte q /\ 0 <= q < 128 /\ q <> c_bslash).
  { unfold is_quote, c_quot, c_apos, c_bslash in *. apply orb_true_iff in Hq as [Hq|Hq];
      apply Z.eqb_eq in Hq; subst; unwrap; lia. }
  destruct Hq2 as (Hqb & Hq8 & Hqs). destruct n as [|n]; [lia|].
  pose proof (proj1 (bytes_app _ _ Hb)) as Hbp. pose proof (proj2 (bytes_app _ _ Hb)) as Hbs.
  pose proof (holds_app _ _ _ _ Hh) as [Hhp Hhs].
  assert (Hback : forall pre', holds m start pre' -> bytes pre' ->
    back_slashes (Z.to_nat (start + Z.of_nat (length pre') - start)) m
      (start + Z.of_nat (length pre') - 1) - (start + Z.of_nat (length pre')) =
    - Z.of_nat (S (run pre'))).
  { intros pre' H1 H2. replace (Z.to_nat _) with (length pre') by lia.
    rewrite back_slashes_run by done. lia. }
  destruct s as [|c t].
  - cbn [app] in Hhs. cbn [seek_escape]. rewrite (sc_holds _ _ _ _ Hhs), s8_ascii, Z.eqb_refl by done.
    cbn zeta. rewrite Hback, odd_neg, Nat.odd_succ, <- Nat.negb_odd, Hr by done. cbn. lia.
  - inversion_clear Hbs as [|? ? Hc Ht]. cbn [app] in Hhs. cbn [seek_escape].
    rewrite (sc_holds _ _ _ _ Hhs), s8_eqb by done. cbn [str_body] in Hs.
    destruct (Z.eqb_spec c c_bslash) as [->|Hcb].
    + destruct t as [|c2 t2]; [done|]. inversion_clear Ht as [|? ? Hc2 Ht2].
      rewrite (proj2 (Z.eqb_neq c_bslash q)) by congruence.
      destruct n as [|n]; [cbn in Hn; lia|]. cbn [seek_escape].
      assert (Hh1 : holds m start ((pre ++ [c_bslash]) ++ (c2 :: t2) ++ [q])) by (by rewrite <- app_assoc).
      pose proof (holds_app _ _ _ _ Hh1) as [Hhp1 Hhs1].
      assert (Hl1 : start + Z.of_nat (length (pre ++ [c_bslash])) = start + Z.of_nat (length pre) + 1)
        by (rewrite length_app; cbn; lia).
      rewrite Hl1 in Hhs1. cbn [app] in Hhs1. rewrite (sc_holds _ _ _ _ Hhs1), s8_eqb by done.
      assert (Hbp1 : bytes (pre ++ [c_bslash])) by (apply Forall_app; split; [done|forall_list; unwrap; lia]).
      assert (Hgo : seek_escape n m start (start + Z.of_nat (length pre) + 1 + 1) e q =
        start + Z.of_nat (length pre) + Z.of_nat (length (c_bslash :: c2 :: t2))).
      { specialize (IH t2 ltac:(cbn; lia) m start (pre ++ [c_bslash; c2]) n e Hq).
        replace (start + Z.of_nat (length pre) + 1 + 1)
          with (start + Z.of_nat (length (pre ++ [c_bslash; c2]))) by (rewrite length_app; cbn; lia).
        rewrite IH.
        - rewrite length_app. cbn [length]. lia.
        - by rewrite <- app_assoc.
        - done.
        - by rewrite <- app_assoc.
        - change [c_bslash; c2] with ([c_bslash] ++ [c2]). rewrite app_assoc, run_snoc.
          destruct (c2 =? c_bslash); [|done]. rewrite run_snoc, Z.eqb_refl. by rewrite !Nat.odd_succ, Nat.even_succ.
        - cbn [length] in Hn. lia. }
      destruct (c2 =? q); [|exact Hgo]. cbn zeta.
      pose proof (Hback _ Hhp1 Hbp1) as Hbk. rewrite Hl1 in Hbk. rewrite Hbk, odd_neg.
      rewrite run_snoc, Z.eqb_refl, !Nat.odd_succ, Nat.even_succ, Hr. exact Hgo.
    + apply andb_true_iff in Hs as [Hcq Hs]. apply negb_true_iff in Hcq. rewrite Hcq.
      specialize (IH t ltac:(cbn; lia) m start (pre ++ [c]) n e Hq).
      replace (start + Z.of_nat (length pre) + 1) with (start + Z.of_nat (length (pre ++ [c])))
        by (rewrite length_app; cbn; lia).
      rewrite IH.
      * rewrite length_app. cbn [length]. lia.
      * by rewrite <- app_assoc.
      * done.
      * by rewrite <- app_assoc.
      * rewrite run_snoc. by rewrite (proj2 (Z.eqb_neq _ _) Hcb).
      * cbn [length] in Hn. lia.
Qed.

(** Searching from just after the opening mark finds the closing one. *)
Lemma seek_char_escape_body q s m p e :
  is_quote q = true -> bytes s -> str_body q s = true -> holds m p (s ++ [q]) ->
  p + Z.of_nat (length s) < e ->
  seek_char_escape m p e q = p + Z.of_nat (length s).
Proof.
  intros Hq Hb Hs Hh He. unfold seek_char_escape.
  pose proof (seek_escape_body q s m p [] (Z.to_nat (e - p)) e Hq Hb Hs Hh eq_refl ltac:(lia)) as H.
  cbn [length] in H. change (Z.of_nat 0) with 0 in H. by rewrite Z.add_0_r in H.
Qed.

(** ** The scanners move forward *)

Lemma seek_escape_ge n : forall m start p e c,
  seek_escape n m start p e c = e \/ p <= seek_escape n m start p e c.
Proof.
  induction n as [|n IH]; intros m start p e c; cbn [seek_escape]; [by left|].
  assert (H : seek_escape n m start (p + 1) e c = e \/ p <= seek_escape n m start (p + 1) e c).
  { destruct (IH m start (p + 1) e c); [by left|right; lia]. }
  destruct (sc m p =? c); [|done]. cbn zeta. destruct (Z.odd _); [right; lia|done].
Qed.

Lemma find_digit_ge n : forall B m d, d <= find_digit n B m d.
Proof.
  induction n as [|n IH]; intros B m d; cbn [find_digit]; [lia|].
  destruct (B <=? _); [|lia]. specialize (IH B m (d + 1)). lia.
Qed.

Lemma digits_loop_ge n : forall T B m d x, d <= fst (digits_loop n T B m d x).
Proof.
  induction n as [|n IH]; intros T B m d x; cbn [digits_loop fst]; [lia|]. cbn zeta.
  destruct (sc m d =? chr ","); [pose proof (IH T B m (d + 1) x); lia|].
  destruct (_ <? B); [pose proof (IH T B m (d + 1) (cast T (x * B + to_num B (sc m d)))); lia|cbn; lia].
Qed.

Lemma ToNumber_ge T m r : -1 <= fst (ToNumber T m r).
Proof.
  unfold ToNumber, ToNumber_. destruct (rb r =? re r); [cbn; lia|].
  pose proof (find_digit_ge (Z.to_nat (re r - rb r)) 10 m (rb r)) as H.
  set (d := find_digit _ _ _ _) in *. cbn zeta.
  destruct (d =? re r); [cbn; lia|]. destruct (negb true && _); [cbn; lia|].
  pose proof (digits_loop_ge (Z.to_nat (re r - d)) T 10 m d 0) as H2.
  destruct (digits_loop _ _ _ _ _ _) as [d' x]. cbn [fst] in *. lia.
Qed.

Lemma seek_binary_ge m p e p' : seek_binary m p e = Some p' -> p + 1 <= p'.
Proof.
  unfold seek_binary. pose proof (ToNumber_ge T_UINT m (mkRef (p + 1) e)) as H.
  destruct (ToNumber _ _ _) as [off len]. cbn [fst] in H. cbn zeta.
  pose proof (u32_range (1 + len)) as [Hu _]. destruct (_ =? _); [|done]. intros [= <-]. lia.
Qed.

(** Any fuel that covers the distance to the end gives the same result. *)
Lemma closure_loop_fuel n1 : forall n2 m p e i d k,
  e - p <= Z.of_nat n1 -> e - p <= Z.of_nat n2 ->
  closure_loop n1 m p e i d k = closure_loop n2 m p e i d k.
Proof.
  induction n1 as [|n1 IH]; intros n2 m p e i d k H1 H2.
  { destruct n2 as [|n2]; [done|]. cbn [closure_loop]. by rewrite (proj2 (Z.ltb_ge p e)) by lia. }
  destruct n2 as [|n2].
  { cbn [closure_loop]. by rewrite (proj2 (Z.ltb_ge p e)) by lia. }
  cbn [closure_loop]. destruct (Z.ltb_spec p e); [|done]. cbn zeta.
  destruct (sc m p =? i); [apply IH; lia|]. destruct (sc m p =? d).
  { destruct (k - 1 =? 0); [done|]. apply IH; lia. }
  destruct (is_quote (sc m p)).
  { pose proof (seek_escape_ge (Z.to_nat (e - (p + 1))) m (p + 1) (p + 1) e (sc m p)) as Hs.
    unfold seek_char_escape. set (p' := seek_escape _ _ _ _ _ _) in *.
    destruct (Z.eqb_spec p' e); [done|]. apply IH; lia. }
  destruct (sc m p =? chr "<"); [|apply IH; lia].
  destruct (seek_binary m p e) as [p'|] eqn:E; [|done]. apply seek_binary_ge in E. apply IH; lia.
Qed.

Definition cl (m : mem) (p e i d k : Z) : option Z :=
  closure_loop (Z.to_nat (e - p)) m p e i d k.

Lemma cl_unfold m p e i d k : p < e ->
  cl m p e i d k =
  let c := sc m p in
  if c =? i then cl m (p + 1) e i d (k + 1)
  else if c =? d then if k - 1 =? 0 then Some (p + 1) else cl m (p + 1) e i d (k - 1)
  else if is_quote c then
    let p := seek_char_escape m (p + 1) e c in
    if p =? e then None else cl m (p + 1) e i d k
  else if c =? chr "<" then
    match seek_binary m p e with None => None | Some p => cl m (p + 1) e i d k end
  else cl m (p + 1) e i d k.
Proof.
  intros H. unfold cl at 1. replace (Z.to_nat (e - p)) with (S (Z.to_nat (e - (p + 1)))) by lia.
  cbn [closure_loop]. rewrite (proj2 (Z.ltb_lt p e)) by done. cbn zeta. unfold cl.
  destruct (sc m p =? i); [done|]. destruct (sc m p =? d); [done|].
  destruct (is_quote (sc m p)).
  - pose proof (seek_escape_ge (Z.to_nat (e - (p + 1))) m (p + 1) (p + 1) e (sc m p)) as Hs.
    unfold seek_char_escape. set (p' := seek_escape _ _ _ _ _ _) in *.
    destruct (Z.eqb_spec p' e); [done|]. apply closure_loop_fuel; lia.
  - destruct (sc m p =? chr "<"); [|done].
    destruct (seek_binary m p e) as [p'|] eqn:E; [|done]. apply seek_binary_ge in E.
    apply closure_loop_fuel; lia.
Qed.

(** ** Segments the bracket loop steps over *)

Definition bracket (i d : Z) : Prop := (i = chr "[" /\ d = chr "]") \/ (i = chr "{" /\ d = chr "}").

(** From inside at least one open bracket, the loop crosses [l] and comes out
    at the same depth. *)
Definition seg (i d : Z) (l : list Z) : Prop :=
  forall m p e k, 1 <= k -> holds m p l -> p + Z.of_nat (length l) <= e ->
    cl m p e i d k = cl m (p + Z.of_nat (length l)) e i d k.

Lemma seg_nil i d : seg i d [].
Proof. intros m p e k _ _ _. cbn. by rewrite Z.add_0_r. Qed.

Lemma seg_app i d a b : seg i d a -> seg i d b -> seg i d (a ++ b).
Proof.
  intros Ha Hb m p e k Hk Hh He. apply holds_app in Hh as [H1 H2]. rewrite length_app in *.
  rewrite (Ha m p e k), (Hb m _ e k) by (done || lia). f_equal. lia.
Qed.

Lemma seg_cons i d c l : seg i d [c] -> seg i d l -> seg i d (c :: l).
Proof. apply (seg_app i d [c] l). Qed.

Definition idle (i d c : Z) : bool :=
  negb (c =? i) && negb (c =? d) && negb (is_quote c) && negb (c =? chr "<").

Lemma seg_idle i d c : is_byte c -> idle i d (s8 c) = true -> seg i d [c].
Proof.
  intros Hc Hi m p e k Hk Hh He. cbn [length] in *.
  rewrite cl_unfold by lia. rewrite (sc_holds _ _ _ _ Hh). cbn zeta. unfold idle in Hi. bool_prop.
  rewrite (proj2 (Z.eqb_neq _ i)), (proj2 (Z.eqb_neq _ d)) by done.
  destruct (is_quote (s8 c)); [done|]. rewrite (proj2 (Z.eqb_neq _ (chr "<"))) by done. f_equal.
Qed.

Lemma plain_idle i d c : bracket i d -> plain c = true -> idle i d c = true.
Proof.
  intros [[-> ->]|[-> ->]]; unfold plain, idle; intros H; bool_prop;
    repeat (apply andb_true_iff; split); apply negb_true_iff; try done; by apply Z.eqb_neq.
Qed.

Lemma seg_plain i d c : bracket i d -> is_byte c -> plain (s8 c) = true -> seg i d [c].
Proof. intros. apply seg_idle; [done|by apply plain_idle]. Qed.

Lemma seg_plains i d l : bracket i d -> bytes l -> forallb (fun c => plain (s8 c)) l = true -> seg i d l.
Proof.
  intros Hb. induction 1 as [|c l Hc Hl IH]; intros H; [apply seg_nil|]. cbn [forallb] in H.
  apply andb_true_iff in H as [H1 H2]. apply seg_cons; [by apply seg_plain|by apply IH].
Qed.

Lemma bracket_not_quote i d c : bracket i d -> is_quote c = true ->
  (c =? i) = false /\ (c =? d) = false.
Proof.
  intros Hb Hq. unfold is_quote in Hq. apply orb_true_iff in Hq as [Hq|Hq]; apply Z.eqb_eq in Hq; subst;
    destruct Hb as [[-> ->]|[-> ->]]; done.
Qed.

Lemma quote_byte q : is_quote q = true -> is_byte q /\ s8 q = q.
Proof.
  intros Hq. unfold is_quote in Hq. apply orb_true_iff in Hq as [Hq|Hq]; apply Z.eqb_eq in Hq; subst;
    (split; [unfold c_quot, c_apos; unwrap; lia|done]).
Qed.

Lemma seg_string i d q s : bracket i d -> is_quote q = true -> bytes s -> str_body q s = true ->
  seg i d (q :: s ++ [q]).
Proof.
  intros Hbr Hq Hb Hs m p e k Hk Hh He. destruct (quote_byte q Hq) as [_ Hq8].
  cbn [length] in *. rewrite length_app in *. cbn [length] in *.
  pose proof (holds_cons_inv _ _ _ _ Hh) as [_ Hh'].
  rewrite cl_unfold by lia. rewrite (sc_holds _ _ _ _ Hh), Hq8. cbn zeta.
  destruct (bracket_not_quote i d q Hbr Hq) as [-> ->]. rewrite Hq.
  rewrite (seek_char_escape_body q s) by (done || lia).
  rewrite (proj2 (Z.eqb_neq _ e)) by lia. f_equal. lia.
Qed.

(** ** Binaries *)

Lemma slash_ends : ends_number (s8 (chr "/")).
Proof. split; vm_compute; discriminate. Qed.

Lemma digits_bytes l : Forall is_digit l -> bytes l.
Proof. intros Hl. apply (Forall_impl _ _ _ Hl). intros c H. unfold is_digit in H. unwrap. lia. Qed.

Lemma seek_binary_render m p e b :
  Z.of_nat (length b) <= 0xffffff -> holds m p (render (JBinary b)) ->
  p + Z.of_nat (length (render (JBinary b))) <= e ->
  seek_binary m p e = Some (p + Z.of_nat (length (render (JBinary b)))).
Proof.
  intros Hb Hh He. cbn [render] in *. set (n := Z.of_nat (length b)) in *.
  apply holds_cons_inv in Hh as [_ Hh]. apply holds_app in Hh as [Hd Hh].
  pose proof (holds_cons_inv _ _ _ _ Hh) as [Hsl Hh2]. apply holds_app in Hh2 as [_ Hgt].
  cbn [length] in He. rewrite length_app in He. cbn [length] in He. rewrite length_app in He.
  cbn [length] in He. unfold seek_binary.
  rewrite (ToNumber_digits T_UINT m (p + 1) e (decimal n)).
  - rewrite decimal_val by lia.
    replace (u32 (1 + n)) with (1 + n) by (symmetry; apply wrap_id; unwrap; lia). cbn zeta.
    fold n in Hgt. replace (p + 1 + Z.of_nat (length (decimal n)) + 1 + n) with
      (p + 1 + Z.of_nat (length (decimal n)) + (1 + n)) in Hgt by lia.
    rewrite (sc_holds _ _ _ _ Hgt), s8_ascii, Z.eqb_refl by (split; [discriminate|reflexivity]). f_equal.
    cbn [length]. rewrite length_app. cbn [length]. rewrite length_app. cbn [length]. lia.
  - by left.
  - apply decimal_digits. lia.
  - apply length_decimal.
  - done.
  - lia.
  - intros _. rewrite (sc_holds _ _ _ _ Hh). apply slash_ends.
  - rewrite decimal_val by lia. unfold int_limit. cbn. lia.
Qed.

Lemma seg_binary i d b c : bracket i d -> Z.of_nat (length b) <= 0xffffff ->
  seg i d (render (JBinary b) ++ [c]).
Proof.
  intros Hbr Hb m p e k Hk Hh He. pose proof (holds_app _ _ _ _ Hh) as [Hh1 _].
  rewrite length_app in *. cbn [length] in He |- *.
  assert (Hpos : 0 < Z.of_nat (length (render (JBinary b)))) by (cbn [render length]; lia).
  rewrite cl_unfold by lia. rewrite (sc_holds _ _ _ _ Hh1). cbn zeta.
  rewrite (s8_ascii (chr "<")) by (split; [discriminate|reflexivity]).
  replace (chr "<" =? i) with false by (destruct Hbr as [[-> _]|[-> _]]; done).
  replace (chr "<" =? d) with false by (destruct Hbr as [[_ ->]|[_ ->]]; done).
  change (is_quote (chr "<")) with false. rewrite Z.eqb_refl. cbn iota.
  rewrite (seek_binary_render m p e b) by (done || lia). f_equal. lia.
Qed.

(** ** Every value is a segment *)

(** Induction through the nested lists. *)
Section JvInd.
Context (P : jv -> Prop).
Context (HT : forall t, P (JText t)) (HS : forall s, P (JString s)) (HB : forall b, P (JBinary b)).
Context (HA : forall l, Forall P l -> P (JArr l)).
Context (HO : forall fs, Forall (fun f => P (snd f)) fs -> P (JObj fs)).

Fixpoint jv_ind (v : jv) : P v :=
  match v with
  | JText t => HT t
  | JString s => HS s
  | JBinary b => HB b
  | JArr l => HA l ((fix go l : Forall P l :=
      match l with [] => Forall_nil_2 P | v :: t => Forall_cons_2 P v t (jv_ind v) (go t) end) l)
  | JObj fs => HO fs ((fix go l : Forall (fun f => P (snd f)) l :=
      match l with
      | [] => Forall_nil_2 _
      | f :: t => Forall_cons_2 (fun f => P (snd f)) f t (jv_ind (snd f)) (go t)
      end) fs)
  end.
End JvInd.

Definition render_field (f : list Z * jv) : list Z := quoted (fst f) ++ chr ":" :: render (snd f).
Definition render_fields (fs : list (list Z * jv)) : list Z :=
  join [chr ","; c_nl] (map render_field fs).
Definition render_items (l : list jv) : list Z := join [chr ","] (map render l).

Lemma render_obj fs : fs <> [] ->
  render (JObj fs) = chr "{" :: (c_nl :: render_fields fs ++ [c_nl]) ++ [chr "}"].
Proof. destruct fs; [done|]. intros _. cbn [render app]. by rewrite <- app_assoc. Qed.

Lemma join_cons sep x y l : join sep (x :: y :: l) = x ++ sep ++ join sep (y :: l).
Proof. reflexivity. Qed.

Definition field_ok (f : list Z * jv) : bool :=
  negb (Nat.eqb (length (fst f)) 0) && str_body c_quot (fst f) && jv_ok (snd f).

(** What [jv_ok] gives for the loop: [v] with one plain character after it is
    a segment, and so is [v] alone unless it is a binary. *)
Definition value_seg (i d : Z) (v : jv) : Prop :=
  jv_ok v = true -> bytes (render v) ->
  (is_bin v = false -> seg i d (render v)) /\
  (forall c, is_byte c -> plain (s8 c) = true -> seg i d (render v ++ [c])).

Lemma value_seg_of i d v : bracket i d -> is_bin v = false ->
  (jv_ok v = true -> bytes (render v) -> seg i d (render v)) -> value_seg i d v.
Proof.
  intros Hbr Hb H Hok Hby. split; [auto|]. intros c Hc Hp. apply seg_app; [auto|by apply seg_plain].
Qed.

Lemma seg_items i d l : bracket i d -> Forall (value_seg i d) l ->
  last_bin l = false -> forallb jv_ok l = true -> bytes (render_items l) -> seg i d (render_items l).
Proof.
  intros Hbr. induction 1 as [|v l Hv Hl IH]; intros Hlb Hok Hby; [apply seg_nil|].
  cbn [forallb] in Hok. apply andb_true_iff in Hok as [Hokv Hok].
  destruct l as [|w l]; [by apply Hv|].
  unfold render_items in *. cbn [map] in *. rewrite join_cons in *. apply bytes_app in Hby as [Hb1 Hb2].
  apply bytes_app in Hb2 as [_ Hb2]. rewrite app_assoc. apply seg_app.
  - by apply Hv.
  - apply IH; done.
Qed.

Lemma seg_field i d f : bracket i d -> value_seg i d (snd f) -> field_ok f = true ->
  bytes (render_field f) -> forall c, is_byte c -> plain (s8 c) = true -> seg i d (render_field f ++ [c]).
Proof.
  intros Hbr Hv Hok Hby c Hc Hp. unfold render_field in *. unfold field_ok in Hok.
  apply andb_true_iff in Hok as [Hok1 Hok2]. apply andb_true_iff in Hok1 as [_ Hk].
  apply bytes_app in Hby as [Hb1 Hb2]. inversion_clear Hb1 as [|? ? _ Hb1'].
  apply bytes_app in Hb1' as [Hb1' _]. inversion_clear Hb2 as [|? ? Hcol Hb2'].
  rewrite <- app_assoc. apply seg_app; [by apply seg_string|]. cbn [app].
  apply seg_cons; [by apply seg_plain|]. by apply Hv.
Qed.

Lemma seg_fields i d fs : bracket i d -> Forall (fun f => value_seg i d (snd f)) fs ->
  forallb field_ok fs = true -> bytes (render_fields fs) ->
  seg i d (render_fields fs ++ [c_nl]).
Proof.
  intros Hbr. induction 1 as [|f fs Hf Hfs IH]; intros Hok Hby.
  { by apply seg_plain. }
  cbn [forallb] in Hok. apply andb_true_iff in Hok as [Hokf Hok].
  destruct fs as [|g fs].
  { by apply seg_field. }
  unfold render_fields in *. cbn [map] in *. rewrite join_cons in *. apply bytes_app in Hby as [Hb1 Hb2].
  apply bytes_app in Hb2 as [_ Hb2]. rewrite <- !app_assoc.
  change ([chr ","; c_nl] ++ ?x) with ([chr ","] ++ c_nl :: x). rewrite app_assoc. apply seg_app.
  - by apply seg_field.
  - cbn [app]. apply seg_cons; [by apply seg_plain|]. by apply IH.
Qed.

(** The two ends of a bracketed value. *)
Lemma cl_open m p e i d k l : bracket i d -> holds m p (i :: l) -> p < e ->
  cl m p e i d k = cl m (p + 1) e i d (k + 1).
Proof.
  intros Hbr Hh He. rewrite cl_unfold by done. rewrite (sc_holds _ _ _ _ Hh). cbn zeta.
  rewrite s8_ascii by (destruct Hbr as [[-> _]|[-> _]]; split; (discriminate || reflexivity)).
  by rewrite Z.eqb_refl.
Qed.

Lemma cl_close m p e i d k : bracket i d -> holds m p [d] -> p < e ->
  cl m p e i d k = if k - 1 =? 0 then Some (p + 1) else cl m (p + 1) e i d (k - 1).
Proof.
  intros Hbr Hh He. rewrite cl_unfold by done. rewrite (sc_holds _ _ _ _ Hh). cbn zeta.
  rewrite s8_ascii by (destruct Hbr as [[_ ->]|[_ ->]]; split; (discriminate || reflexivity)).
  replace (d =? i) with false by (by destruct Hbr as [[-> ->]|[-> ->]]). by rewrite Z.eqb_refl.
Qed.

(** A bracketed body is a segment for its own brackets and for the others. *)
Lemma seg_bracketed i d i' d' body : bracket i d -> bracket i' d' -> seg i d body ->
  seg i d (i' :: body ++ [d']).
Proof.
  intros Hbr Hbr' Hb. destruct (decide (i' = i)) as [->|Hne].
  - assert (d' = d) as -> by (destruct Hbr as [[E1 ->]|[E1 ->]], Hbr' as [[E2 ->]|[E2 ->]];
      rewrite E1 in E2; (reflexivity || discriminate E2)).
    intros m p e k Hk Hh He. cbn [length] in *. rewrite length_app in *. cbn [length] in *.
    rewrite (cl_open m p e i d k _ Hbr Hh) by lia. apply holds_cons_inv in Hh as [_ Hh].
    apply holds_app in Hh as [H1 H2]. rewrite (Hb m _ e (k + 1)) by (done || lia).
    rewrite (cl_close _ _ _ _ _ _ Hbr H2) by lia. rewrite (proj2 (Z.eqb_neq _ 0)) by lia.
    f_equal; lia.
  - assert (Hidle : forall c, c = i' \/ c = d' -> seg i d [c]).
    { intros c Hc. apply seg_idle.
      - destruct Hbr' as [[-> ->]|[-> ->]], Hc; subst; split; (discriminate || reflexivity).
      - destruct Hbr as [[-> ->]|[-> ->]], Hbr' as [[-> ->]|[-> ->]], Hc; subst; first [reflexivity | exfalso; by apply Hne]. }
    apply seg_cons; [auto|]. apply seg_app; [done|auto].
Qed.

Lemma value_seg_all i d v : bracket i d -> value_seg i d v.
Proof.
  intros Hbr. induction v as [t|s|b|l IH|fs IH] using jv_ind.
  - apply value_seg_of; [done..|]. cbn [jv_ok render]. unfold text_ok. intros Hok Hb.
    apply andb_true_iff in Hok as [_ Hok]. apply seg_plains; [done..|].
    rewrite forallb_forall in *. intros c Hc. specialize (Hok c Hc). by bool_prop.
  - apply value_seg_of; [done..|]. cbn [jv_ok render]. intros Hok Hb.
    inversion_clear Hb as [|? ? _ Hb']. apply bytes_app in Hb' as [Hb' _]. by apply seg_string.
  - intros Hok Hb. split; [done|]. intros c _ _. cbn [jv_ok] in Hok.
    apply andb_true_iff in Hok as [_ Hok]. apply Z.leb_le in Hok. by apply seg_binary.
  - apply value_seg_of; [done..|]. cbn [jv_ok]. intros Hok Hb. apply andb_true_iff in Hok as [Hlb Hok].
    apply negb_true_iff in Hlb. cbn [render] in *. inversion_clear Hb as [|? ? _ Hb'].
    apply bytes_app in Hb' as [Hb' _]. apply seg_bracketed; [done|by left|]. by apply seg_items.
  - apply value_seg_of; [done..|]. intros Hok Hb. destruct (decide (fs = [])) as [->|Hne].
    + apply (seg_bracketed i d _ _ [] Hbr); [by right|apply seg_nil].
    + rewrite render_obj in * by done. inversion_clear Hb as [|? ? _ Hb1].
      inversion_clear Hb1 as [|? ? _ Hb2]. apply bytes_app in Hb2 as [Hb2 _].
      apply bytes_app in Hb2 as [Hb2 _]. apply seg_bracketed; [done|by right|].
      apply seg_cons; [by apply seg_plain|]. by apply seg_fields.
Qed.

(** ** The end of a value *)

Lemma scan_while_all P l : forall n m p, (length l <= n)%nat -> bytes l ->
  forallb (fun c => P (s8 c)) l = true -> holds m p l ->
  ((length l < n)%nat -> P (sc m (p + Z.of_nat (length l))) = false) ->
  scan_while P n m p = p + Z.of_nat (length l).
Proof.
  induction l as [|c l IH]; intros n m p Hn Hb HP Hh He; cbn [length] in *.
  - rewrite Z.add_0_r in *. destruct n as [|n]; [done|]. cbn [scan_while]. by rewrite He by lia.
  - destruct n as [|n]; [lia|]. cbn [forallb] in HP. apply andb_true_iff in HP as [Hc HP].
    cbn [scan_while]. rewrite (sc_holds _ _ _ _ Hh), Hc. apply holds_cons_inv in Hh as [_ Hh].
    inversion_clear Hb as [|? ? _ Hb']. rewrite IH by (try done; try lia; intros; replace
      (p + 1 + Z.of_nat (length l)) with (p + Z.of_nat (S (length l))) by lia; apply He; lia).
    lia.
Qed.

(** A text value ends where a character that is not text follows it. *)
Definition ends_text (m : mem) (q e : Z) : Prop := q < e -> is_text (sc m q) = false.

Lemma scan_text_all l m p e : bytes l -> forallb (fun c => is_text (s8 c)) l = true ->
  holds m p l -> p + Z.of_nat (length l) <= e -> ends_text m (p + Z.of_nat (length l)) e ->
  scan_text m p e = p + Z.of_nat (length l).
Proof.
  intros Hb Ht Hh He Hend. apply scan_while_all; try done; [lia|]. intros. apply Hend. lia.
Qed.

Lemma plain_dispatch c : plain c = true ->
  is_quote c = false /\ (c =? chr "<") = false /\ match_closure c = 0.
Proof.
  unfold plain, match_closure. intros H. bool_prop. destruct (is_quote c); [done|].
  rewrite !(proj2 (Z.eqb_neq _ _)) by done. done.
Qed.

Lemma seek_bracketed m p e i d body : bracket i d -> seg i d body ->
  holds m p (i :: body ++ [d]) -> p + Z.of_nat (length (i :: body ++ [d])) <= e ->
  seek_json_object_closure m p e = Some (p + Z.of_nat (length (i :: body ++ [d]))).
Proof.
  intros Hbr Hs Hh He. cbn [length] in *. rewrite length_app in *. cbn [length] in *.
  unfold seek_json_object_closure. rewrite (sc_holds _ _ _ _ Hh). cbn zeta.
  rewrite s8_ascii by (destruct Hbr as [[-> _]|[-> _]]; split; (discriminate || reflexivity)).
  assert (Hd : is_quote i = false /\ (i =? chr "<") = false /\ match_closure i = d /\ (d =? 0) = false)
    by (by destruct Hbr as [[-> ->]|[-> ->]]).
  destruct Hd as (-> & -> & -> & ->). cbn [negb]. apply holds_cons_inv in Hh as [_ Hh].
  rewrite (closure_loop_fuel _ (Z.to_nat (e - (p + 1)))) by lia. change (cl m (p + 1) e i d 1 = Some (p + Z.of_nat (S (length body + 1)))).
  apply holds_app in Hh as [H1 H2]. rewrite (Hs m (p + 1) e 1) by (done || lia).
  rewrite (cl_close _ _ _ _ _ _ Hbr H2) by lia. cbn. f_equal. lia.
Qed.

Lemma closure_render v m p e :
  jv_ok v = true -> bytes (render v) -> holds m p (render v) ->
  p + Z.of_nat (length (render v)) <= e ->
  (is_bin v = false -> ends_text m (p + Z.of_nat (length (render v))) e) \/
    (forall t, v <> JText t) ->
  seek_json_object_closure m p e = Some (p + Z.of_nat (length (render v))).
Proof.
  intros Hok Hb Hh He Hend. destruct v as [t|s|b|l|fs].
  - cbn [render jv_ok is_bin] in *. unfold text_ok in Hok. apply andb_true_iff in Hok as [Hn Hok].
    destruct t as [|c t]; [done|]. destruct Hend as [Hend|Hend]; [|by destruct (Hend (c :: t))].
    specialize (Hend eq_refl). unfold seek_json_object_closure. cbn zeta.
    rewrite (sc_holds _ _ _ _ Hh).
    assert (Hc : plain (s8 c) = true) by (cbn [forallb] in Hok; by bool_prop).
    destruct (plain_dispatch _ Hc) as (-> & -> & ->). cbn [negb Z.eqb]. f_equal.
    apply scan_text_all; try done. rewrite forallb_forall in *. intros x Hx.
    specialize (Hok x Hx). by bool_prop.
  - cbn [render jv_ok] in *. unfold quoted in *. pose proof (holds_cons_inv _ _ _ _ Hh) as [_ Hh'].
    inversion_clear Hb as [|? ? _ Hb']. apply bytes_app in Hb' as [Hb' _].
    cbn [length] in *. rewrite length_app in *. cbn [length] in *.
    unfold seek_json_object_closure. rewrite (sc_holds _ _ _ _ Hh).
    change (s8 c_quot) with c_quot. change (is_quote c_quot) with true. cbn zeta iota.
    rewrite (seek_char_escape_body c_quot s) by (done || lia).
    rewrite (proj2 (Z.eqb_neq _ e)) by lia. cbn [negb]. f_equal. lia.
  - cbn [jv_ok] in Hok. apply andb_true_iff in Hok as [_ Hok]. apply Z.leb_le in Hok.
    unfold seek_json_object_closure. rewrite (sc_holds _ _ _ _ Hh). cbn zeta.
    change (is_quote (s8 (chr "<"))) with false. change (s8 (chr "<") =? chr "<") with true.
    cbn iota. by apply seek_binary_render.
  - cbn [jv_ok] in Hok. apply andb_true_iff in Hok as [Hlb Hok]. apply negb_true_iff in Hlb.
    cbn [render] in *. fold (render_items l) in *. inversion_clear Hb as [|? ? _ Hb'].
    apply bytes_app in Hb' as [Hb' _]. assert (Hbr : bracket (chr "[") (chr "]")) by (by left).
    apply (seek_bracketed m p e _ _ (render_items l) Hbr); [|done|done].
    apply seg_items; try done. apply Forall_forall. intros. by apply value_seg_all.
  - assert (Hbr : bracket (chr "{") (chr "}")) by (by right).
    destruct (decide (fs = [])) as [->|Hne].
    + apply (seek_bracketed m p e _ _ [] Hbr); [apply seg_nil|done|done].
    + rewrite render_obj in * by done. inversion_clear Hb as [|? ? _ Hb1].
      inversion_clear Hb1 as [|? ? _ Hb2]. apply bytes_app in Hb2 as [Hb2 _].
      apply bytes_app in Hb2 as [Hb2 _].
      apply (seek_bracketed m p e _ _ (c_nl :: render_fields fs ++ [c_nl]) Hbr); [|done|done].
      apply seg_cons; [by apply seg_plain|]. apply seg_fields; try done.
      apply Forall_forall. intros. by apply value_seg_all.
Qed.

(** [JsonObject::_seek_json_object_closure], started on a well-formed
    value written in the composer's syntax - text, escaped string, binary,
    arrays and objects nested to any depth, brackets, quotation marks and any
    bytes inside strings and binaries included - returns the address just past
    the value, when the character there does not continue a text ([ends_text]). *)
Theorem closure_correct v m p e :
  jv_ok v = true -> bytes (render v) -> holds m p (render v) ->
  p + Z.of_nat (length (render v)) <= e ->
  ends_text m (p + Z.of_nat (length (render v))) e ->
  seek_json_object_closure m p e = Some (p + Z.of_nat (length (render v))).
Proof. intros. apply closure_render; auto. Qed.

Definition closure_sample : jv :=
  JObj [(str "a", JArr [JText (str "12"); JString [92; 34; 93; 125]; JObj []]);
        (str "b", JBinary (str "]}<>")); (str "c", JString [])].

Lemma closure_correct_witness :
  let m := mem_of 0 100 (render closure_sample) in
  let n := Z.of_nat (length (render closure_sample)) in
  (jv_ok closure_sample = true /\ bytes (render closure_sample) /\ holds m 100 (render closure_sample) /\
   100 + n <= 100 + n /\ ends_text m (100 + n) (100 + n)) /\
  seek_json_object_closure m 100 (100 + n) = Some (100 + n).
Proof.
  intros m n. assert (H1 : jv_ok closure_sample = true) by reflexivity.
  assert (H2 : bytes (render closure_sample)) by (vm_compute; repeat constructor; discriminate).
  assert (H3 : holds m 100 (render closure_sample)) by (vm_compute; reflexivity).
  assert (H4 : 100 + n <= 100 + n) by lia.
  assert (H5 : ends_text m (100 + n) (100 + n)) by (intros H; lia).
  split; [auto|]. exact (closure_correct closure_sample m 100 (100 + n) H1 H2 H3 H4 H5).
Defined.

(** Where the syntax is left: a closing bracket right after a binary is
    stepped over, and the array's end is not found. *)
Example closure_binary_last :
  let t := str "[<1/x>]" in
  seek_json_object_closure (mem_of 0 0 t) 0 (Z.of_nat (length t)) = None.
Proof. vm_compute. reflexivity. Qed.
