(* ===== verification/JsonDoc.v ===== *)
(** Reading a JSON document in place (rt/json.cpp): the iteration over the
    fields of an object and the items of an array, raw and cooked values,
    value types, and the lookup of a path. *)
From S2P Require Import Prelude Str JsonLex.

(** ** Definitions: key-value pairs *)

Record kvpair := mkKvp { k_Key : ref; k_Value : ref }.
Definition empty_kvp : kvpair := mkKvp null_ref null_ref.

(** [JsonObject::Attach]: the document starts at the first brace. *)
Definition Attach (m : mem) (doc old : ref) : ref :=
  let s := FindCharacter m doc (chr "{") 0 in
  if 0 <=? s then SubStr_from doc s else old.

(** Where [GetNextKeyValuePair] resumes. *)
Definition gnkv_start (m : mem) (doc : ref) (kvp : kvpair) : Z :=
  let p := rb doc + 1 in
  let p := if (p <=? rb (k_Key kvp)) && (re (k_Value kvp) <=? re doc) then re (k_Value kvp) else p in
  if is_quote (sc m p) || (sc m p =? chr ">") then p + 1 else p.

(** The name at [p]: its start, and its end. *)
Definition scan_name (m : mem) (p e : Z) : Z * Z :=
  if is_quote (sc m p) then (p + 1, seek_char_escape m (p + 1) e (sc m p))
  else (p, scan_text m p e).

(** The body, from the resumption address; [None] is the [return false]s that
    leave [kvp] alone. *)
Definition gnkv_from (m : mem) (p e : Z) : option (bool * kvpair) :=
  let p := skip_whitespace m p e in
  if sc m p =? chr "}" then None
  else
    let p := if sc m p =? chr "," then skip_whitespace m (p + 1) e else p in
    let '(p, name_end) := scan_name m p e in
    if (e =? name_end) || (p =? name_end) then None
    else
      let value := seek_char m name_end e (chr ":") in
      if value =? e then None
      else
        let value := skip_whitespace m (value + 1) e in
        match seek_json_object_closure m value e with
        | None => None
        | Some tail =>
          let '(value, tail) := cook_raw_value m value tail in
          let v := mkRef value tail in
          Some (negb (IsEmpty v) || (sc m tail =? c_quot), mkKvp (mkRef p name_end) v)
        end.

Definition GetNextKeyValuePair (m : mem) (doc : ref) (kvp : kvpair) : bool * kvpair :=
  if IsEmpty doc then (false, kvp)
  else match gnkv_from m (gnkv_start m doc kvp) (re doc) with
       | None => (false, kvp)
       | Some r => r
       end.

(** [while(doc.GetNextKeyValuePair(kv))], at most [fuel] pairs. *)
Fixpoint all_pairs (fuel : nat) (m : mem) (doc : ref) (kvp : kvpair) : list kvpair :=
  match fuel with
  | O => []
  | S f => let '(ok, kvp) := GetNextKeyValuePair m doc kvp in
           if ok then kvp :: all_pairs f m doc kvp else []
  end.

Definition IsEmptyObject (m : mem) (doc : ref) : bool :=
  if IsEmpty doc then true
  else
    let p := skip_whitespace m (rb doc) (re doc) in
    if negb (sc m p =? chr "{") then false
    else negb (fst (GetNextKeyValuePair m doc empty_kvp)).

(** ** Definitions: raw values and types *)

(** [n] characters at most back to the '<' of a binary. *)
Fixpoint back_to (n : nat) (m : mem) (p c : Z) : Z :=
  match n with
  | O => p
  | S k => if sc m p =? c then p else back_to k m (p - 1) c
  end.

Definition GetValueRaw (m : mem) (kvp : kvpair) : ref :=
  let v := k_Value kvp in
  if is_quote (sc m (rb v - 1)) then mkRef (rb v - 1) (re v + 1)
  else if sc m (rb v - 1) =? chr "/" then
    mkRef (back_to (Z.to_nat (rb v - re (k_Key kvp))) m (rb v - 1) (chr "<")) (re v + 1)
  else v.

Inductive JsonType :=
| JSON_STRING | JSON_NUMBER | JSON_BOOL | JSON_NULL | JSON_OBJECT | JSON_ARRAY | JSON_BINARY
| JSON_CORRUPTED.

Definition GetValueType (m : mem) (v : ref) : JsonType :=
  if IsEmpty v then JSON_NULL
  else
    let c := sc m (rb v) in
    if is_quote (sc m (rb v - 1)) then JSON_STRING
    else if sc m (rb v - 1) =? chr "/" then JSON_BINARY
    else if c =? chr "{" then JSON_OBJECT
    else if c =? chr "[" then JSON_ARRAY
    else if (c =? chr "t") || (c =? chr "T") || (c =? chr "f") || (c =? chr "F") then JSON_BOOL
    else if ((chr "0" <=? c) && (c <=? chr "9")) || (c =? chr "-") then JSON_NUMBER
    else if (GetLength v =? 4) && (load 4 m (rb v) =? 0x6c6c756e) then JSON_NULL
    else JSON_CORRUPTED.

(** ** Definitions: arrays *)

Definition JsonArray (m : mem) (doc : ref) : ref :=
  let s := FindCharacter m doc (chr "[") 0 in
  if 0 <=? s then SubStr_from doc s else null_ref.

(** [None] is [false]. *)
Definition GetNextObjectRaw (m : mem) (doc obj : ref) : option ref :=
  if IsEmpty doc then None
  else
    let cur := re obj in
    let start :=
      if (rb doc <=? cur) && (cur <=? re doc) then
        let cur := if (sc m cur =? c_quot) && (sc m (rb obj - 1) =? c_quot) then cur + 1 else cur in
        let cur := skip_whitespace m cur (re doc) in
        if sc m cur =? chr "," then Some (cur + 1) else None
      else Some (rb doc + 1) in
    match start with
    | None => None
    | Some cur =>
      let p := skip_whitespace m cur (re doc) in
      if sc m p =? chr "]" then None
      else option_map (mkRef p) (seek_json_object_closure m p (re doc))
    end.

Definition GetNextObject (m : mem) (doc obj : ref) : option ref :=
  match GetNextObjectRaw m doc obj with
  | None => None
  | Some r => let '(p, tail) := cook_raw_value m (rb r) (re r) in Some (mkRef p tail)
  end.

Fixpoint all_items (fuel : nat) (m : mem) (doc obj : ref) : list ref :=
  match fuel with
  | O => []
  | S f => match GetNextObjectRaw m doc obj with
           | None => []
           | Some r => r :: all_items f m doc r
           end
  end.

Definition GetSize (fuel : nat) (m : mem) (doc : ref) : Z :=
  Z.of_nat (length (all_items fuel m doc null_ref)).

(** ** Definitions: path lookup *)

(** The [for(;;)] over the fields of the object at [p]; every turn moves [p]
    forward, and one past the end ends the search. *)
Fixpoint find_field (fuel : nat) (m : mem) (p e : Z) (name : ref) : option Z :=
  match fuel with
  | O => None
  | S f =>
    let p := skip_whitespace m (p + 1) e in
    if sc m p =? chr "}" then None
    else
      let '(p, name_end) := scan_name m p e in
      if (e =? name_end) || (p =? name_end) then None
      else
        let value := seek_char m name_end e (chr ":") in
        if value =? e then None
        else
          let value := skip_whitespace m (value + 1) e in
          if ref_eq m (mkRef p name_end) name then Some value
          else match seek_json_object_closure m value e with
               | None => None
               | Some p =>
                 let p := skip_whitespace m p e in
                 if negb (sc m p =? chr ",") then None else find_field f m p e name
               end
  end.

(** [do { ... } while(s<(int)co)]: the item of index [co]. *)
Fixpoint nth_item (co : nat) (m : mem) (arr item : ref) : option ref :=
  match GetNextObjectRaw m arr item with
  | None => None
  | Some r => match co with O => Some r | S k => nth_item k m arr r end
  end.

Fixpoint locate_segs (segs : list ref) (m : mem) (p e : Z) : option Z :=
  match segs with
  | [] => None
  | name :: rest =>
    if negb (sc m (rb name - 1) =? chr "[") then
      match find_field (S (S (Z.to_nat (e - p)))) m p e name with
      | None => None
      | Some value =>
        match rest with
        | [] => Some value
        | _ => if negb (sc m value =? chr "{") && negb (sc m value =? chr "[") then None
               else locate_segs rest m value e
        end
      end
    else if negb (sc m p =? chr "[") then None
    else
      let '(_, co) := ToNumber T_UINT m name in
      match nth_item (Z.to_nat (s32 co)) m (JsonArray m (mkRef p e)) null_ref with
      | None => None
      | Some item => match rest with [] => Some (rb item) | _ => locate_segs rest m (rb item) e end
      end
  end.

Definition path_seps : cset := CharacterSet (str ".[]").
Definition path_seps_nodot : cset := CharacterSet (str "[]").

(** [if(path_seg[segco-1].IsEmpty())segco--] *)
Definition drop_empty_last (segs : list ref) : list ref :=
  match rev segs with
  | s :: t => if IsEmpty s then rev t else segs
  | [] => []
  end.

Definition LocateValue (m : mem) (doc xpath : ref) (bDoNotSplitDot : bool) : option Z :=
  if IsEmpty doc then None
  else match Split true m xpath 256 (if bDoNotSplitDot then path_seps_nodot else path_seps) with
       | None => None
       | Some segs =>
         if negb (sc m (rb doc) =? chr "{") then None
         else locate_segs (drop_empty_last segs) m (rb doc) (re doc)
       end.

Definition GetValue (m : mem) (doc xpath default_val : ref) (bDoNotSplitDot : bool) : ref :=
  if IsEmpty xpath then doc
  else match LocateValue m doc xpath bDoNotSplitDot with
       | None => default_val
       | Some p =>
         match seek_json_object_closure m p (re doc) with
         | None => default_val
         | Some tail => let '(p, tail) := cook_raw_value m p tail in mkRef p tail
         end
       end.

(** ** Scanning over known text *)

Lemma scan_while_to P l c m p e rest : bytes (l ++ [c]) ->
  forallb (fun x => P (s8 x)) l = true -> P (s8 c) = false ->
  holds m p (l ++ c :: rest) -> p + Z.of_nat (length l) <= e ->
  scan_while P (Z.to_nat (e - p)) m p = p + Z.of_nat (length l).
Proof.
  intros Hb HP Hc Hh He. apply bytes_app in Hb as [Hb _]. apply holds_app in Hh as [H1 H2].
  apply scan_while_all; try done; [lia|]. intros _. by rewrite (sc_holds _ _ _ _ H2).
Qed.

Definition blank (l : list Z) : bool := forallb (fun c => ws_char (s8 c)) l.

Lemma skip_whitespace_to l c m p e rest : bytes (l ++ [c]) -> blank l = true ->
  ws_char (s8 c) = false -> holds m p (l ++ c :: rest) -> p + Z.of_nat (length l) <= e ->
  skip_whitespace m p e = p + Z.of_nat (length l).
Proof. apply scan_while_to. Qed.

(** ** Cooked values *)

(** What [GetValue] shows of a value: strings and binaries without their
    marks. *)
Definition cooked (v : jv) : list Z :=
  match v with JString s => s | JBinary b => b | _ => render v end.

Lemma text_holds m r l : rb r + Z.of_nat (length l) = re r -> holds m (rb r) l -> text m r = l.
Proof.
  intros E Hh. unfold text, GetLength. replace (Z.to_nat _) with (length l) by lia. exact Hh.
Qed.

Lemma render_head v : jv_ok v = true ->
  exists c t, render v = c :: t /\ (bytes (render v) -> ws_char (s8 c) = false).
Proof.
  destruct v as [t|s|b|l|fs]; cbn [jv_ok render]; intros Hok.
  - unfold text_ok in Hok. apply andb_true_iff in Hok as [Hn Hok]. destruct t as [|c t]; [done|].
    cbn [forallb] in Hok. bool_prop. eauto.
  - exists c_quot, (s ++ [c_quot]). done.
  - eexists _, _. done.
  - eexists _, _. done.
  - destruct fs; eexists _, _; done.
Qed.

Lemma head_plain_text t c u : text_ok t = true -> t = c :: u ->
  is_quote (s8 c) = false /\ (s8 c =? chr "<") = false.
Proof.
  intros Hok ->. unfold text_ok in Hok. cbn [forallb] in Hok. bool_prop.
  destruct (plain_dispatch (s8 c)) as (H1' & H2' & _); done.
Qed.

Lemma cooked_pos v : jv_ok v = true -> (0 < length (cooked v))%nat \/ exists s, v = JString s.
Proof.
  intros Hok. destruct v as [t|s|b|l|fs]; cbn [cooked]; eauto; left.
  - destruct (render_head (JText t) Hok) as (c & u & -> & _). cbn. lia.
  - cbn [jv_ok] in Hok. apply andb_true_iff in Hok as [Hn _].
    apply negb_true_iff, Nat.eqb_neq in Hn. lia.
  - cbn. lia.
  - destruct fs; cbn; lia.
Qed.

Lemma back_to_spec c l : forall n m p, sc m p = c -> holds m (p + 1) l ->
  Forall (fun x => is_byte x /\ (s8 x =? c) = false) l -> (length l <= n)%nat ->
  back_to n m (p + Z.of_nat (length l)) c = p.
Proof.
  induction l as [|x l IH] using rev_ind; intros n m p Hp Hh Hl Hn.
  { cbn [length]. change (Z.of_nat 0) with 0. rewrite Z.add_0_r. destruct n; [done|]. cbn [back_to].
    by rewrite Hp, Z.eqb_refl. }
  apply Forall_app in Hl as [Hl Hx]. apply Forall_inv in Hx as [_ Hx].
  apply holds_app in Hh as [H1 H2]. rewrite length_app in *. cbn [length] in *.
  destruct n as [|n]; [lia|]. cbn [back_to].
  replace (p + Z.of_nat (length l + 1)) with (p + 1 + Z.of_nat (length l)) by lia.
  rewrite (sc_holds _ _ _ _ H2), Hx.
  replace (p + 1 + Z.of_nat (length l) - 1) with (p + Z.of_nat (length l)) by lia. apply IH; (done || lia).
Qed.

(** [_cook_raw_value] on a whole value. *)
Lemma cook_render v m p : jv_ok v = true -> bytes (render v) -> holds m p (render v) ->
  exists q r, cook_raw_value m p (p + Z.of_nat (length (render v))) = (q, r) /\
    holds m q (cooked v) /\ q + Z.of_nat (length (cooked v)) = r /\ p <= q /\
    (match v with
     | JString _ => q = p + 1 /\ r + 1 = p + Z.of_nat (length (render v)) /\ sc m r = c_quot
     | JBinary _ => r + 1 = p + Z.of_nat (length (render v)) /\ sc m r = chr ">" /\ sc m (q - 1) = chr "/" /\
                    forall n, q - 1 - p <= Z.of_nat n -> back_to n m (q - 1) (chr "<") = p
     | _ => q = p /\ r = p + Z.of_nat (length (render v)) end).
Proof.
  intros Hok Hb Hh. unfold cook_raw_value. destruct v as [t|s|b|l|fs]; cbn [cooked].
  - destruct (render_head (JText t) Hok) as (c & u & E & _). cbn [render jv_ok] in *.
    destruct (head_plain_text t c u Hok E) as [E1 E2].
    pose proof Hh as Hh0. rewrite E in Hh0. rewrite (sc_holds _ _ _ _ Hh0), E1, E2. 
    do 2 eexists. split; [reflexivity|]. split; [done|]. repeat split; lia.
  - cbn [render] in *. unfold quoted in *. rewrite (sc_holds _ _ _ _ Hh).
    change (is_quote (s8 c_quot)) with true. cbn iota.
    apply holds_cons_inv in Hh as [_ Hh]. apply holds_app in Hh as [H1 H2].
    do 2 eexists. split; [reflexivity|]. cbn [length]. rewrite length_app. cbn [length].
    split; [done|]. split; [lia|]. split; [lia|]. split; [done|]. split; [lia|].
    replace (p + Z.of_nat (S (length s + 1)) - 1) with (p + 1 + Z.of_nat (length s)) by lia.
    by rewrite (sc_holds _ _ _ _ H2).
  - rewrite (sc_holds _ _ _ _ Hh). change (is_quote (s8 (chr "<"))) with false.
    change (s8 (chr "<") =? chr "<") with true. cbn iota.
    cbn [render jv_ok] in *. set (d := decimal (Z.of_nat (length b))) in *.
    assert (Hd : Forall is_digit d) by (apply decimal_digits; lia).
    assert (Hdl : (0 < length d)%nat) by apply length_decimal.
    pose proof (holds_cons_inv _ _ _ _ Hh) as [_ Hh1].
    destruct d as [|d0 d]; [cbn in Hdl; lia|]. inversion_clear Hd as [|? ? Hd0 Hd'].
    cbn [app] in Hh1. apply holds_cons_inv in Hh1 as [_ Hh2].
    replace (p + 1 + 1) with (p + 2) in Hh2 by lia.
    cbn [length app]. rewrite length_app. cbn [length]. rewrite length_app. cbn [length].
    assert (Es : scan_while (fun x => negb (x =? chr "/"))
      (Z.to_nat (p + Z.of_nat (S (S (length d + S (length b + 1)))) - p)) m (p + 2) =
      p + 2 + Z.of_nat (length d)).
    { pose proof (holds_app _ _ _ _ Hh2) as [Hx Hy]. apply scan_while_all; try done; [lia| | |].
      - by apply digits_bytes.
      - apply forallb_forall. intros c Hc. rewrite Forall_forall in Hd'.
        specialize (Hd' c (proj2 (list_elem_of_In _ _) Hc)). unfold is_digit in Hd'.
        rewrite s8_ascii by lia. change (chr "/") with 47. by rewrite (proj2 (Z.eqb_neq c 47)) by lia.
      - intros _. by rewrite (sc_holds _ _ _ _ Hy). }
    rewrite Es. apply holds_app in Hh2 as [_ Hh3]. pose proof (holds_cons_inv _ _ _ _ Hh3) as [Hsl Hh4].
    apply holds_app in Hh4 as [Hb1 Hgt].
    do 2 eexists. split; [reflexivity|]. split; [exact Hb1|]. split; [lia|]. split; [lia|].
    split; [lia|]. split.
    + replace (p + Z.of_nat (S (S (length d + S (length b + 1)))) - 1) with
        (p + 2 + Z.of_nat (length d) + 1 + Z.of_nat (length b)) by lia.
      by rewrite (sc_holds _ _ _ _ Hgt).
    + replace (p + 2 + Z.of_nat (length d) + 1 - 1) with (p + 1 + Z.of_nat (length (d0 :: d))) by (cbn [length]; lia).
      split.
      { replace (p + 1 + Z.of_nat (length (d0 :: d))) with (p + 2 + Z.of_nat (length d)) by (cbn [length]; lia).
        by rewrite (sc_holds _ _ _ _ Hh3). }
      intros n Hn. replace (p + 1 + Z.of_nat (length (d0 :: d)))
        with (p + Z.of_nat (length (d0 :: d ++ [chr "/"]))) by (cbn [length]; rewrite length_app; cbn [length]; lia).
      cbn [length] in Hn. apply back_to_spec.
      * rewrite (sc_holds _ _ _ _ Hh). done.
      * assert (Hx : holds m (p + 1) ((d0 :: d ++ [chr "/"]) ++ b ++ [chr ">"])).
        { apply holds_cons_inv in Hh as [_ Hh]. cbn [app]. rewrite <- app_assoc. exact Hh. }
        exact (proj1 (holds_app _ _ _ _ Hx)).
      * assert (Hdig : Forall (fun c => is_byte c /\ (s8 c =? chr "<") = false) (d0 :: d)).
        { apply (Forall_impl is_digit); [by constructor|]. intros c Hc. unfold is_digit in Hc.
          split; [unwrap; lia|]. rewrite s8_ascii by lia. change (chr "<") with 60. apply Z.eqb_neq.
          destruct Hc. lia. }
        rewrite app_comm_cons. apply Forall_app. split; [exact Hdig|]. forall_list.
      * cbn [length]. rewrite length_app. cbn [length]. lia.
  - cbn [render] in *. rewrite (sc_holds _ _ _ _ Hh). 
    do 2 eexists. split; [reflexivity|]. split; [done|]. repeat split; lia.
  - assert (E : exists t, render (JObj fs) = chr "{" :: t) by (destruct fs; cbn; eauto).
    destruct E as [t E]. pose proof Hh as Hh0. rewrite E in Hh0.
    rewrite (sc_holds _ _ _ _ Hh0). change (is_quote (s8 (chr "{"))) with false.
    change (s8 (chr "{") =? chr "<") with false. cbn iota. 
    do 2 eexists. split; [reflexivity|]. split; [done|]. repeat split; lia.
Qed.

(** The type a value is reported with; an empty string counts as null. *)
Definition value_type (v : jv) : JsonType :=
  match v with
  | JString [] => JSON_NULL
  | JString _ => JSON_STRING
  | JBinary _ => JSON_BINARY
  | JObj _ => JSON_OBJECT
  | JArr _ => JSON_ARRAY
  | JText t =>
    let c := s8 (nth 0 t 0) in
    if (c =? chr "t") || (c =? chr "T") || (c =? chr "f") || (c =? chr "F") then JSON_BOOL
    else if ((chr "0" <=? c) && (c <=? chr "9")) || (c =? chr "-") then JSON_NUMBER
    else if zlist_eqb t (str "null") then JSON_NULL
    else JSON_CORRUPTED
  end.

(** A pair shows the field [f], at real addresses; its name is quoted. *)
Definition shows (m : mem) (kv : kvpair) (f : list Z * jv) : Prop :=
  text m (k_Key kv) = fst f /\ text m (k_Value kv) = cooked (snd f) /\
  text m (GetValueRaw m kv) = render (snd f) /\
  GetValueType m (k_Value kv) = value_type (snd f) /\
  holds m (rb (k_Key kv) - 1) (quoted (fst f)) /\ 0 < rb (k_Key kv) /\ 0 < rb (GetValueRaw m kv).

Lemma load4_null m p t : bytes t -> holds m p t -> length t = 4%nat ->
  (load 4 m p =? 0x6c6c756e) = zlist_eqb t (str "null").
Proof.
  intros Hb Hh Hl. unfold load. rewrite <- Hl. unfold holds in Hh. rewrite Hh.
  change 0x6c6c756e with (le_val (str "null")).
  destruct (Z.eqb_spec (le_val t) (le_val (str "null"))) as [E|E].
  - assert (Et : t = str "null").
    { rewrite <- (le_bytes_val t Hb), Hl, E. reflexivity. }
    by rewrite Et.
  - destruct (zlist_eqb t (str "null")) eqn:Ez; [|done]. apply zlist_eqb_eq in Ez. by subst.
Qed.

Lemma null_cond m q r t : bytes t -> holds m q t -> q + Z.of_nat (length t) = r ->
  (GetLength (mkRef q r) =? 4) && (load 4 m q =? 0x6c6c756e) = zlist_eqb t (str "null").
Proof.
  intros Hb Hh Hr. unfold GetLength. cbn [rb re]. destruct (Z.eqb_spec (r - q) 4) as [E|E].
  - apply load4_null; try done. lia.
  - cbn [andb]. destruct (zlist_eqb t (str "null")) eqn:Ez; [|done]. apply zlist_eqb_eq in Ez. subst t.
    exfalso. apply E. rewrite <- Hr. cbn [length]. change (length (str "null")) with 4%nat. lia.
Qed.

Lemma nth_type m q r v : jv_ok v = true -> bytes (render v) -> 0 < q ->
  holds m q (cooked v) -> q + Z.of_nat (length (cooked v)) = r ->
  (match v with
   | JString _ => is_quote (sc m (q - 1)) = true
   | JBinary _ => sc m (q - 1) = chr "/"
   | _ => is_quote (sc m (q - 1)) = false /\ (sc m (q - 1) =? chr "/") = false end) ->
  GetValueType m (mkRef q r) = value_type v.
Proof.
  intros Hok Hb Hq Hh Hr Hs. unfold GetValueType, IsEmpty. cbn [rb re].
  rewrite (proj2 (Z.eqb_neq q 0)) by lia. cbn [orb]. destruct (cooked_pos v Hok) as [Hpos|[s ->]].
  - rewrite (proj2 (Z.eqb_neq r q)) by lia. destruct v as [t|s|b|l|fs]; cbn [cooked value_type] in *.
    + destruct Hs as [-> ->]. destruct (render_head (JText t) Hok) as (c & u & E & _).
      cbn [render jv_ok] in *. destruct (head_plain_text t c u Hok E) as [_ _].
      assert (Hpl : plain (s8 c) = true).
      { unfold text_ok in Hok. rewrite E in Hok. cbn [forallb] in Hok. by bool_prop. }
      assert (Hh0 := Hh). rewrite E in Hh0. rewrite (sc_holds _ _ _ _ Hh0). cbn zeta.
      unfold plain in Hpl. bool_prop.
      rewrite (proj2 (Z.eqb_neq (s8 c) (chr "{"))), (proj2 (Z.eqb_neq (s8 c) (chr "["))) by done.
      rewrite null_cond with (t := t) by (done || lia).
      by replace (nth 0 t 0) with c by (by rewrite E).
    + rewrite Hs. destruct s; [cbn in Hpos; lia|done].
    + rewrite Hs. done.
    + destruct Hs as [-> ->]. rewrite (sc_holds _ _ _ _ Hh). done.
    + destruct Hs as [-> ->]. assert (E : exists t, render (JObj fs) = chr "{" :: t) by (destruct fs; cbn; eauto).
      destruct E as [t E]. rewrite E in Hh. rewrite (sc_holds _ _ _ _ Hh). done.
  - cbn [cooked value_type] in *. destruct s as [|c s].
    + cbn [length] in Hr. by rewrite (proj2 (Z.eqb_eq r q)) by lia.
    + rewrite (proj2 (Z.eqb_neq r q)) by (cbn [length] in Hr; lia). by rewrite Hs.
Qed.

(** ** Iterating over the fields *)

(** What is left of an object after some of its fields. *)
Definition obj_rest (fs : list (list Z * jv)) : list Z :=
  match fs with
  | [] => [c_nl; chr "}"]
  | _ => [chr ","; c_nl] ++ render_fields fs ++ [c_nl; chr "}"]
  end.

Lemma render_fields_cons f fs :
  render_fields (f :: fs) ++ [c_nl; chr "}"] = render_field f ++ obj_rest fs.
Proof.
  destruct fs as [|g fs]; [done|]. unfold render_fields. cbn [map]. rewrite join_cons.
  by rewrite <- !app_assoc.
Qed.

(** A lead-in the iteration skips: blanks, and at most one comma. *)
Definition lead_ok (lead : list Z) : bool :=
  zlist_eqb lead [c_nl] || zlist_eqb lead [chr ","; c_nl].

Lemma obj_rest_head fs : exists c t, obj_rest fs = c :: t /\ (c = chr "," \/ c = c_nl).
Proof. destruct fs as [|f fs]; [exists c_nl; eauto|eexists (chr ","), _; split; [reflexivity|auto]]. Qed.

Lemma ends_text_rest m q e fs : holds m q (obj_rest fs) -> ends_text m q e.
Proof.
  intros Hh _. destruct (obj_rest_head fs) as (c & t & E & Hc). rewrite E in Hh.
  rewrite (sc_holds _ _ _ _ Hh). by destruct Hc as [-> | ->].
Qed.

Lemma skip_lead lead p m e rest : lead_ok lead = true ->
  holds m p (lead ++ c_quot :: rest) -> p + Z.of_nat (length lead) <= e ->
  let p1 := skip_whitespace m p e in
  (sc m p1 =? chr "}") = false /\
  (if sc m p1 =? chr "," then skip_whitespace m (p1 + 1) e else p1) = p + Z.of_nat (length lead).
Proof.
  intros Hl Hh He. unfold lead_ok in Hl. apply orb_true_iff in Hl as [Hl|Hl];
    apply zlist_eqb_eq in Hl; subst lead; cbn [length app] in *.
  - rewrite (skip_whitespace_to [c_nl] c_quot m p e rest) by
      (first [done | cbn [length]; lia | cbn [app]; forall_list]).
    apply holds_cons_inv in Hh as [_ Hh]. cbn [length]. change (Z.of_nat 1) with 1. cbn zeta.
    rewrite (sc_holds _ _ _ _ Hh). done.
  - rewrite (skip_whitespace_to [] (chr ",") m p e (c_nl :: c_quot :: rest)) by
      (first [done | cbn [length]; lia | cbn [app]; forall_list]).
    cbn [length]. change (Z.of_nat 0) with 0. rewrite Z.add_0_r. cbn zeta.
    rewrite (sc_holds _ _ _ _ Hh). change (s8 (chr ",") =? chr ",") with true.
    change (s8 (chr ",") =? chr "}") with false. cbn iota. split; [done|].
    apply holds_cons_inv in Hh as [_ Hh].
    rewrite (skip_whitespace_to [c_nl] c_quot m (p + 1) e rest) by
      (first [done | cbn [length]; lia | cbn [app]; forall_list]). cbn [length]. lia.
Qed.

(** A quoted name followed by a colon. *)
Lemma scan_name_quoted m p e k rest : bytes k -> str_body c_quot k = true ->
  holds m p (quoted k ++ rest) -> p + Z.of_nat (length k) + 2 <= e ->
  scan_name m p e = (p + 1, p + 1 + Z.of_nat (length k)).
Proof.
  intros Hb Hk Hh He. apply holds_app in Hh as [Hh _]. unfold quoted in Hh. unfold scan_name.
  rewrite (sc_holds _ _ _ _ Hh). change (s8 c_quot) with c_quot. change (is_quote c_quot) with true.
  cbn iota. apply holds_cons_inv in Hh as [_ Hh].
  by rewrite (seek_char_escape_body c_quot k) by (done || lia).
Qed.

(** From the name of a field to its value. *)
Lemma field_value m p e k v rest : bytes (render_field (k, v)) -> field_ok (k, v) = true ->
  holds m p (render_field (k, v) ++ rest) ->
  p + Z.of_nat (length (render_field (k, v))) <= e ->
  let ne := p + 1 + Z.of_nat (length k) in
  let a := ne + 2 in
  scan_name m p e = (p + 1, ne) /\ (e =? ne) = false /\ (p + 1 =? ne) = false /\
  seek_char m ne e (chr ":") = ne + 1 /\ (ne + 1 =? e) = false /\
  skip_whitespace m (ne + 1 + 1) e = a /\
  holds m (p + 1) k /\ holds m a (render v ++ rest) /\
  bytes (render v) /\ jv_ok v = true /\
  a + Z.of_nat (length (render v)) = p + Z.of_nat (length (render_field (k, v))) /\
  sc m (ne + 1) = chr ":" /\ sc m p = c_quot /\ sc m ne = c_quot.
Proof.
  intros Hb Hok Hh He ne a. unfold field_ok in Hok. cbn [fst snd] in Hok.
  apply andb_true_iff in Hok as [Hok1 Hv]. apply andb_true_iff in Hok1 as [Hn Hk].
  apply negb_true_iff, Nat.eqb_neq in Hn. unfold render_field in *. cbn [fst snd] in *.
  assert (Hlen : length (quoted k ++ chr ":" :: render v) = (length k + 3 + length (render v))%nat).
  { unfold quoted. rewrite length_app. cbn [length]. rewrite length_app. cbn. lia. }
  rewrite Hlen in *. apply bytes_app in Hb as [Hbk Hbv].
  inversion_clear Hbk as [|? ? Hq Hbk1]. apply bytes_app in Hbk1 as [Hbk1 _].
  inversion_clear Hbv as [|? ? Hcol Hbv1]. rewrite <- app_assoc in Hh.
  destruct (render_head v Hv) as (c & t & Ev & Hws). specialize (Hws Hbv1).
  assert (Hpos : (0 < length (render v))%nat) by (rewrite Ev; cbn; lia).
  split; [apply (scan_name_quoted m p e k _ Hbk1 Hk Hh); lia|].
  split; [apply Z.eqb_neq; lia|]. split; [apply Z.eqb_neq; lia|].
  pose proof (holds_app _ _ _ _ Hh) as [Hh1 Hh2].
  assert (Hlq : p + Z.of_nat (length (quoted k)) = ne + 1)
    by (unfold quoted; cbn [length]; rewrite length_app; cbn; lia).
  rewrite Hlq in Hh2. unfold quoted in Hh1. pose proof (sc_holds _ _ _ _ Hh1) as Hp0. apply holds_cons_inv in Hh1 as [_ Hh1].
  pose proof (holds_app _ _ _ _ Hh1) as [Hhk Hhq]. cbn [app] in Hh2.
  pose proof (holds_cons_inv _ _ _ _ Hh2) as [_ Hh3].
  replace (ne + 1 + 1) with a in * by lia.
  assert (Hsc : holds m ne ([c_quot] ++ [chr ":"])).
  { assert (E1 : m ne = c_quot) by exact (proj1 (holds_cons_inv _ _ _ _ Hhq)).
    assert (E2 : m (ne + 1) = chr ":") by exact (proj1 (holds_cons_inv _ _ _ _ Hh2)).
    unfold holds. cbn [app length mem_bytes]. by rewrite E1, E2. }
  split.
  { unfold seek_char. rewrite (scan_while_to _ [c_quot] (chr ":") m ne e []); try done; try lia.
    - forall_list.
    - cbn [length]. lia. }
  split; [apply Z.eqb_neq; lia|]. split.
  { assert (Hh3' := Hh3). rewrite Ev in Hh3'. rewrite Ev in Hbv1. inversion_clear Hbv1 as [|? ? Hc Ht].
    rewrite (skip_whitespace_to [] c m a e (t ++ rest)); try done; cbn [length]; try lia. by forall_list. }
  repeat split; try done; try lia; [exact (sc_holds _ _ _ _ Hh2)|exact (sc_holds _ _ _ _ Hhq)].
Qed.

(** A pair set to the name and the cooked value of a field shows it. *)
Lemma shows_intro m kb ke q r k v a : jv_ok v = true -> bytes (render v) -> 0 < kb -> ke <= a ->
  holds m (kb - 1) (quoted k) -> holds m kb k -> kb + Z.of_nat (length k) = ke ->
  holds m a (render v) -> sc m (a - 1) = chr ":" ->
  holds m q (cooked v) -> q + Z.of_nat (length (cooked v)) = r -> a <= q ->
  (match v with
   | JString _ => q = a + 1 /\ r + 1 = a + Z.of_nat (length (render v)) /\ sc m r = c_quot
   | JBinary _ => r + 1 = a + Z.of_nat (length (render v)) /\ sc m r = chr ">" /\ sc m (q - 1) = chr "/" /\
                  forall n, q - 1 - a <= Z.of_nat n -> back_to n m (q - 1) (chr "<") = a
   | _ => q = a /\ r = a + Z.of_nat (length (render v)) end) ->
  shows m (mkKvp (mkRef kb ke) (mkRef q r)) (k, v).
Proof.
  intros Hok Hb Hkb Hke Hkq Hk Hkl Hv Hcol Hq Hr Hge Hs. unfold shows. cbn [k_Key k_Value fst snd].
  split; [by apply (text_holds m (mkRef kb ke))|]. split; [by apply (text_holds m (mkRef q r))|].
  assert (Hbefore : match v with
    | JString _ => is_quote (sc m (q - 1)) = true
    | JBinary _ => sc m (q - 1) = chr "/"
    | _ => is_quote (sc m (q - 1)) = false /\ (sc m (q - 1) =? chr "/") = false end).
  { destruct v as [t|s|b|l|fs].
    - destruct Hs as [-> _]. by rewrite Hcol.
    - destruct Hs as [-> _]. replace (a + 1 - 1) with a by lia. cbn [render] in Hv.
      by rewrite (sc_holds _ _ _ _ Hv).
    - by destruct Hs as (_ & _ & -> & _).
    - destruct Hs as [-> _]. by rewrite Hcol.
    - destruct Hs as [-> _]. by rewrite Hcol. }
  assert (Ha : 0 < a) by lia.
  assert (Hraw : text m (GetValueRaw m (mkKvp (mkRef kb ke) (mkRef q r))) = render v /\
    0 < rb (GetValueRaw m (mkKvp (mkRef kb ke) (mkRef q r)))).
  2: { split; [by apply Hraw|]. split; [by apply nth_type; try done; lia|]. split; [done|]. split; [done|by apply Hraw]. }
  unfold GetValueRaw. cbn [k_Key k_Value rb re].
  assert (Hwhole : forall r', r' = a + Z.of_nat (length (render v)) ->
    text m (mkRef a r') = render v /\ 0 < rb (mkRef a r')).
  { intros r' ->. split; [by apply (text_holds m (mkRef a _))|done]. }
  destruct v as [t|s|b|l|fs].
  - destruct Hbefore as [-> ->]. destruct Hs as [-> ->]. by apply Hwhole.
  - rewrite Hbefore. destruct Hs as (-> & Hr1 & _). replace (a + 1 - 1) with a by lia. by apply Hwhole.
  - destruct Hs as (Hr1 & _ & -> & Hback). change (is_quote (chr "/")) with false.
    rewrite Z.eqb_refl. rewrite Hback by lia. by apply Hwhole.
  - destruct Hbefore as [-> ->]. destruct Hs as [-> ->]. by apply Hwhole.
  - destruct Hbefore as [-> ->]. destruct Hs as [-> ->]. by apply Hwhole.
Qed.

(** One step of the iteration, on a field with the rest of the object after
    it: the pair holds the name and the cooked value, and its value ends where
    the next step resumes. *)
Lemma next_pair m p e lead k v fs :
  lead_ok lead = true -> field_ok (k, v) = true -> bytes (render_field (k, v)) ->
  holds m p (lead ++ render_field (k, v) ++ obj_rest fs) ->
  let n := p + Z.of_nat (length lead) in
  let q := n + Z.of_nat (length (render_field (k, v))) in
  0 <= p -> q + Z.of_nat (length (obj_rest fs)) <= e ->
  exists kv, gnkv_from m p e = Some (true, kv) /\
    shows m kv (k, v) /\ rb (k_Key kv) = n + 1 /\
    re (k_Value kv) <= q /\
    (if is_quote (sc m (re (k_Value kv))) || (sc m (re (k_Value kv)) =? chr ">")
     then re (k_Value kv) + 1 else re (k_Value kv)) = q /\
    holds m q (obj_rest fs).
Proof.
  intros Hlead Hok Hb Hh n q Hp He. pose proof (holds_app _ _ _ _ Hh) as [_ Hf]. fold n in Hf.
  pose proof (holds_app _ _ _ _ Hf) as [_ Hrest]. fold q in Hrest.
  pose proof (obj_rest_head fs) as (c & t & Ec & Hc).
  assert (Hlr : (0 < length (obj_rest fs))%nat) by (rewrite Ec; cbn; lia).
  destruct (field_value m n e k v (obj_rest fs) Hb Hok Hf ltac:(lia))
    as (E1 & E2 & E3 & E4 & E5 & E6 & Hk & Hv & Hbv & Hokv & Hq & Hcol & _ & _). fold q in Hq.
  assert (Hlq : exists r, render_field (k, v) ++ obj_rest fs = c_quot :: r) by (eexists; reflexivity).
  destruct Hlq as [r Hr]. rewrite Hr in Hh.
  destruct (skip_lead lead p m e r Hlead Hh ltac:(lia)) as [S1 S2]. cbn zeta in S1, S2. fold n in S2.
  unfold gnkv_from. cbn zeta. rewrite S1, S2. unfold quoted in *. rewrite E1, E2, E3. cbn [orb].
  rewrite E4, E5, E6. pose proof (holds_app _ _ _ _ Hv) as [Hv1 _].
  rewrite (closure_render v) by (try done; try lia; left; intros _; rewrite Hq;
    by apply (ends_text_rest _ _ _ fs)).
  destruct (cook_render v m _ Hokv Hbv Hv1) as (q1 & r1 & -> & Hck & Hlen & Hge & Hshape).
  set (ne := n + 1 + Z.of_nat (length k)) in *. rewrite Hq in Hshape.
  assert (Hnext : sc m q = s8 c) by (rewrite Ec in Hrest; by apply (sc_holds _ _ _ _ Hrest)).
  assert (Hcs : is_quote (s8 c) = false /\ (s8 c =? chr ">") = false) by (by destruct Hc as [-> | ->]).
  exists (mkKvp (mkRef (n + 1) ne) (mkRef q1 r1)). cbn [k_Key k_Value rb re].
  split; [|split; [|split; [|split; [|split]]]].
  - do 2 f_equal. unfold IsEmpty. cbn [rb re]. rewrite (proj2 (Z.eqb_neq q1 0)) by lia. cbn [orb].
    destruct (cooked_pos v Hokv) as [Hpos|[s ->]].
    + by rewrite (proj2 (Z.eqb_neq r1 q1)) by lia.
    + destruct Hshape as (_ & _ & ->). rewrite Z.eqb_refl. by rewrite orb_true_r.
  - apply (shows_intro m (n + 1) ne q1 r1 k v (ne + 2)); try done; try lia.
    + replace (n + 1 - 1) with n by lia. unfold render_field in Hf. cbn [fst] in Hf. rewrite <- app_assoc in Hf.
      by apply holds_app in Hf as [Hf _].
    + by replace (ne + 2 - 1) with (ne + 1) by lia.
    + by rewrite Hq.
  - done.
  - destruct v; lia.
  - destruct Hcs as [Hc1 Hc2]. destruct v; destruct Hshape as (? & Hs);
      try (rewrite Hs, Hnext, Hc1, Hc2; done).
    + destruct Hs as [Hr1 ->]. exact Hr1.
    + destruct Hs as [-> _]. rewrite orb_true_r. done.
  - done.
Qed.

Lemma gnkv_end m p e : holds m p (obj_rest []) -> p + 2 <= e -> gnkv_from m p e = None.
Proof.
  intros Hh He. unfold gnkv_from. cbn zeta. cbn [obj_rest] in Hh.
  rewrite (skip_whitespace_to [c_nl] (chr "}") m p e []) by
    (first [done | cbn [length]; lia | cbn [app]; forall_list]).
  apply holds_cons_inv in Hh as [_ Hh]. cbn [length]. change (Z.of_nat 1) with 1.
  by rewrite (sc_holds _ _ _ _ Hh).
Qed.

Lemma field_bytes f fs : bytes (render_fields (f :: fs)) ->
  bytes (render_field f) /\ (fs <> [] -> bytes (render_fields fs)).
Proof.
  unfold render_fields. destruct fs as [|g fs]; cbn [map]; [by intros|]. rewrite join_cons.
  intros Hb. apply bytes_app in Hb as [H1 H2]. apply bytes_app in H2 as [_ H2]. auto.
Qed.

(** Resuming with [fs] left. *)
Lemma pairs_rest doc fs : forall fuel m kv lead p,
  forallb field_ok fs = true -> (fs <> [] -> bytes (render_fields fs)) ->
  gnkv_start m doc kv = p -> 0 < rb doc -> rb doc + 1 <= p ->
  match fs with
  | [] => holds m p (obj_rest []) /\ p + 2 <= re doc
  | _ => lead_ok lead = true /\ holds m p (lead ++ render_fields fs ++ [c_nl; chr "}"]) /\
         p + Z.of_nat (length (lead ++ render_fields fs ++ [c_nl; chr "}"])) <= re doc
  end ->
  (length fs < fuel)%nat ->
  Forall2 (shows m) (all_pairs fuel m doc kv) fs.
Proof.
  induction fs as [|[k v] fs IH]; intros fuel m kv lead p Hok Hb Hp Hd Hge Hinv Hf.
  - destruct fuel as [|fuel]; [lia|]. destruct Hinv as [Hh He]. cbn [all_pairs].
    unfold GetNextKeyValuePair. destruct (IsEmpty doc); [constructor|]. rewrite Hp, gnkv_end by done.
    constructor.
  - destruct fuel as [|fuel]; [lia|]. destruct Hinv as (Hl & Hh & He). cbn [length] in Hf.
    cbn [forallb] in Hok. apply andb_true_iff in Hok as [Hokf Hok].
    destruct (field_bytes _ _ (Hb ltac:(done))) as [Hbf Hbr].
    rewrite render_fields_cons in Hh, He. rewrite !length_app in He.
    destruct (next_pair m p (re doc) lead k v fs Hl Hokf Hbf Hh ltac:(lia) ltac:(lia))
      as (kv' & E & Hsh & Hkb & Hle & Hres & Hrest).
    set (q := p + Z.of_nat (length lead) + Z.of_nat (length (render_field (k, v)))) in *.
    cbn [all_pairs]. unfold GetNextKeyValuePair. unfold IsEmpty.
    rewrite (proj2 (Z.eqb_neq (rb doc) 0)), (proj2 (Z.eqb_neq (re doc) (rb doc))) by lia. cbn [orb].
    rewrite Hp, E. constructor; [done|].
    assert (Hlr : 0 < Z.of_nat (length (obj_rest fs))) by (destruct (obj_rest_head fs) as (c & t & -> & _); cbn; lia).
    apply (IH fuel m kv' [chr ","; c_nl] q); try done; try lia.
    + unfold gnkv_start. rewrite Hkb. rewrite (proj2 (Z.leb_le _ _)), (proj2 (Z.leb_le (re (k_Value kv')) _)) by lia.
      exact Hres.
    + destruct fs as [|g fs]; [split; [done|]; cbn [obj_rest length] in He; lia|].
      split; [done|]. split; [exact Hrest|]. cbn [obj_rest] in He. lia.
Qed.

(** The whole iteration, from the empty pair. *)
Lemma pairs_of_object m b fs fuel :
  let v := JObj fs in
  let doc := mkRef b (b + Z.of_nat (length (render v))) in
  0 < b -> jv_ok v = true -> bytes (render v) -> holds m b (render v) ->
  (length fs < fuel)%nat ->
  Forall2 (shows m) (all_pairs fuel m doc empty_kvp) fs /\
  IsEmptyObject m doc = (match fs with [] => true | _ => false end).
Proof.
  intros v doc Hb0 Hok Hby Hh Hf. unfold v in *.
  assert (Hpairs : forall fuel, (length fs < fuel)%nat -> Forall2 (shows m) (all_pairs fuel m doc empty_kvp) fs).
  { clear fuel Hf. intros fuel Hf. destruct (decide (fs = [])) as [->|Hne].
    - destruct fuel as [|fuel]; [lia|]. cbn [all_pairs]. unfold GetNextKeyValuePair.
      destruct (IsEmpty doc); [constructor|].
      assert (E : gnkv_start m doc empty_kvp = b + 1).
      { unfold gnkv_start, doc. cbn [rb k_Key empty_kvp null_ref]. rewrite (proj2 (Z.leb_gt _ 0)) by lia.
        cbn [andb]. cbn [render] in Hh. apply holds_cons_inv in Hh as [_ Hh]. by rewrite (sc_holds _ _ _ _ Hh). }
      rewrite E. unfold gnkv_from. cbn zeta. cbn [render] in Hh. apply holds_cons_inv in Hh as [_ Hh].
      rewrite (skip_whitespace_to [] (chr "}") m (b + 1) (re doc) []);
        [|cbn [app]; forall_list|done|done|done|unfold doc; cbn; lia].
      cbn [length]. change (Z.of_nat 0) with 0. rewrite Z.add_0_r, (sc_holds _ _ _ _ Hh). constructor.
    - rewrite render_obj in * by done. pose proof (holds_cons_inv _ _ _ _ Hh) as [_ Hh1].
      inversion_clear Hby as [|? ? _ Hb1]. inversion_clear Hb1 as [|? ? _ Hb2].
      apply bytes_app in Hb2 as [Hb2 _]. apply bytes_app in Hb2 as [Hb2 _].
      apply (pairs_rest doc fs fuel m empty_kvp [c_nl] (b + 1)); try done; try (cbn; lia).
      + unfold gnkv_start, doc. cbn [rb k_Key empty_kvp null_ref]. rewrite (proj2 (Z.leb_gt _ 0)) by lia.
        cbn [andb]. by rewrite (sc_holds _ _ _ _ Hh1).
      + destruct fs as [|f fs]; [done|]. split; [done|].
        assert (El : (c_nl :: render_fields (f :: fs) ++ [c_nl]) ++ [chr "}"] =
          [c_nl] ++ render_fields (f :: fs) ++ [c_nl; chr "}"]) by (cbn [app]; by rewrite <- app_assoc).
        rewrite El in Hh1. split; [exact Hh1|]. unfold doc. cbn [re]. rewrite render_obj, El by done. cbn [length]. lia. }
  split; [by apply Hpairs|].
  assert (Hhead : exists t, render (JObj fs) = chr "{" :: t) by (destruct fs; cbn; eauto).
  destruct Hhead as [t Et]. unfold IsEmptyObject.
  assert (Hne : IsEmpty doc = false).
  { unfold IsEmpty, doc. cbn [rb re]. rewrite Et. cbn [length].
    rewrite (proj2 (Z.eqb_neq b 0)), (proj2 (Z.eqb_neq (b + _) b)) by lia. done. }
  rewrite Hne. pose proof Hh as Hh0. rewrite Et in Hh0.
  unfold doc at 1 2. cbn [rb re].
  rewrite (skip_whitespace_to [] (chr "{") m b _ t); [|cbn [app]; forall_list|done|done|done|cbn; lia].
  cbn [length]. change (Z.of_nat 0) with 0. rewrite Z.add_0_r, (sc_holds _ _ _ _ Hh0). cbn [negb].
  specialize (Hpairs (S (length fs)) ltac:(lia)). cbn [all_pairs] in Hpairs.
  destruct (GetNextKeyValuePair m doc empty_kvp) as [ok kv]. cbn [fst].
  destruct fs, ok; inversion Hpairs; done.
Qed.

(** C1: iterating [JsonObject::GetNextKeyValuePair] over an object in the
    composer's syntax yields its fields, all of them, once each and in order:
    the name, the cooked value, the raw value ([GetValueRaw]) and the value's
    type; then it reports the end.  Nested objects, arrays, escaped quotation
    marks, binaries and whatever lies outside the document do not disturb it.
    The syntax ([jv_ok]): names and texts are not empty, a text has no white
    space, comma, bracket or mark, strings and names close where they end, a
    binary has between 1 and [0xffffff] bytes and is never the last item of an
    array.  An empty binary, which the composer writes as [<0/>], is outside of
    it: the iteration ends there ([empty_binary_ends]). *)
Theorem GetNextKeyValuePair_fields m b fs fuel :
  let v := JObj fs in
  let doc := mkRef b (b + Z.of_nat (length (render v))) in
  0 < b -> jv_ok v = true -> bytes (render v) -> holds m b (render v) ->
  (length fs < fuel)%nat ->
  Forall2 (shows m) (all_pairs fuel m doc empty_kvp) fs /\
  IsEmptyObject m doc = (match fs with [] => true | _ => false end).
Proof. exact (pairs_of_object m b fs fuel). Qed.

Definition doc_sample : jv :=
  JObj [(str "name", JString (str "a,b}")); (str "n", JText (str "-12"));
        (str "xs", JArr [JText (str "1"); JObj [(str "k", JText (str "true"))]; JString []]);
        (str "bin", JBinary [0; 34; 125; 255]); (str "none", JText (str "null"))].

Lemma GetNextKeyValuePair_fields_witness :
  let fs := match doc_sample with JObj fs => fs | _ => [] end in
  let v := JObj fs in
  let m := mem_of 0 64 (render v) in
  let doc := mkRef 64 (64 + Z.of_nat (length (render v))) in
  (0 < 64 /\ jv_ok v = true /\ bytes (render v) /\ holds m 64 (render v) /\ (length fs < 9)%nat) /\
  Forall2 (shows m) (all_pairs 9 m doc empty_kvp) fs /\
  IsEmptyObject m doc = (match fs with [] => true | _ => false end).
Proof.
  intros fs v m doc. assert (H1 : 0 < 64) by lia. assert (H2 : jv_ok v = true) by reflexivity.
  assert (H3 : bytes (render v)) by (vm_compute; repeat constructor; discriminate).
  assert (H4 : holds m 64 (render v)) by (vm_compute; reflexivity).
  assert (H5 : (length fs < 9)%nat) by (cbn; lia).
  split; [auto|]. exact (GetNextKeyValuePair_fields m 64 fs 9 H1 H2 H3 H4 H5).
Defined.

(** Without a blank after the opening brace the resumption rule takes the
    first name's opening mark for the end of a previous value: the name is
    read as unquoted text and cut at the first separator. *)
Example first_name_cut :
  let t := [chr "{"] ++ quoted (str "a b") ++ str ":1}" in
  let m := mem_of 0 8 t in
  let '(ok, kv) := GetNextKeyValuePair m (mkRef 8 (8 + Z.of_nat (length t))) empty_kvp in
  (ok, text m (k_Key kv), text m (k_Value kv)) = (true, str "a", str "1").
Proof. vm_compute. reflexivity. Qed.

(** An empty single-quoted string ends the iteration. *)
Example empty_single_quoted_stops :
  let t := str "{ 'a':'','b':1}" in
  let m := mem_of 0 8 t in
  all_pairs 5 m (mkRef 8 (8 + Z.of_nat (length t))) empty_kvp = [].
Proof. vm_compute. reflexivity. Qed.

(** ** Values in place *)

(** [v] lies at [a], complete, in a document that ends at [e]. *)
Definition val_at (m : mem) (e a : Z) (v : jv) : Prop :=
  jv_ok v = true /\ bytes (render v) /\ holds m a (render v) /\
  a + Z.of_nat (length (render v)) <= e /\ ends_text m (a + Z.of_nat (length (render v))) e.

Lemma val_at_closure m e a v : val_at m e a v ->
  seek_json_object_closure m a e = Some (a + Z.of_nat (length (render v))).
Proof. intros (H1 & H2 & H3 & H4 & H5). apply closure_render; auto. Qed.

Definition item_shows (m : mem) (e : Z) (r : ref) (v : jv) : Prop :=
  val_at m e (rb r) v /\ re r = rb r + Z.of_nat (length (render v)).

Definition arr_rest (l : list jv) : list Z :=
  match l with [] => [chr "]"] | _ => chr "," :: render_items l ++ [chr "]"] end.

Lemma render_items_cons v l : render_items (v :: l) ++ [chr "]"] = render v ++ arr_rest l.
Proof.
  destruct l as [|w l]; [done|]. unfold render_items. cbn [map]. rewrite join_cons.
  by rewrite <- !app_assoc.
Qed.

Lemma arr_rest_head l : exists c t, arr_rest l = c :: t /\ (c = chr "," \/ c = chr "]").
Proof. destruct l as [|v l]; [exists (chr "]"); eauto|eexists (chr ","), _; split; [reflexivity|auto]]. Qed.

Lemma items_bytes v l : bytes (render_items (v :: l)) ->
  bytes (render v) /\ (l <> [] -> bytes (render_items l)).
Proof.
  unfold render_items. destruct l as [|w l]; cbn [map]; [by intros|]. rewrite join_cons.
  intros Hb. apply bytes_app in Hb as [H1 H2]. apply bytes_app in H2 as [_ H2]. auto.
Qed.

Lemma render_not_bracket v c t : jv_ok v = true -> bytes (render v) -> render v = c :: t ->
  (s8 c =? chr "]") = false.
Proof.
  intros Hok Hb E. destruct v as [u|s|b|l|fs]; cbn [render] in *; try (injection E as <- _; done).
  - subst u. cbn [jv_ok] in Hok. unfold text_ok in Hok. cbn [forallb] in Hok. bool_prop.
    match goal with H : plain _ = true |- _ => unfold plain in H; bool_prop end. by apply Z.eqb_neq.
  - destruct fs; injection E as <- _; done.
Qed.

(** Reading one item, from where it or the blanks before it start. *)
Lemma item_step m e p v l : jv_ok v = true -> bytes (render v) ->
  holds m p (render v ++ arr_rest l) ->
  p + Z.of_nat (length (render v)) + Z.of_nat (length (arr_rest l)) <= e ->
  skip_whitespace m p e = p /\ (sc m p =? chr "]") = false /\
  seek_json_object_closure m p e = Some (p + Z.of_nat (length (render v))) /\
  item_shows m e (mkRef p (p + Z.of_nat (length (render v)))) v /\
  holds m (p + Z.of_nat (length (render v))) (arr_rest l).
Proof.
  intros Hok Hb Hh He. destruct (render_head v Hok) as (c & t & E & Hws). specialize (Hws Hb).
  pose proof (holds_app _ _ _ _ Hh) as [H1 H2]. destruct (arr_rest_head l) as (c' & t' & Er & Hc').
  assert (Hv : val_at m e p v).
  { repeat split; try done; [lia|]. intros _. rewrite Er in H2. rewrite (sc_holds _ _ _ _ H2).
    by destruct Hc' as [-> | ->]. }
  split.
  { assert (Hh' := H1). rewrite E in Hh'. rewrite (skip_whitespace_to [] c m p e t); try done.
    - cbn. lia.
    - rewrite E in Hb. inversion_clear Hb. by forall_list.
    - cbn. lia. }
  split; [pose proof H1 as H1'; rewrite E in H1'; rewrite (sc_holds _ _ _ _ H1');
          by apply (render_not_bracket v c t)|].
  split; [by apply val_at_closure|]. split; [by split|done].
Qed.

Lemma items_next m doc obj e l :
  re doc = e -> 0 < rb doc -> rb doc <= re obj ->
  holds m (re obj) (arr_rest l) -> re obj + Z.of_nat (length (arr_rest l)) <= e ->
  forallb jv_ok l = true -> (l <> [] -> bytes (render_items l)) ->
  match l with
  | [] => GetNextObjectRaw m doc obj = None
  | v :: l' => exists r, GetNextObjectRaw m doc obj = Some r /\ item_shows m e r v /\ rb doc <= rb r /\
      rb doc <= re r /\ holds m (re r) (arr_rest l') /\ re r + Z.of_nat (length (arr_rest l')) <= e
  end.
Proof.
  intros Hdoc Hd0 Hd Hh He Hok Hb. unfold GetNextObjectRaw, IsEmpty.
  destruct (arr_rest_head l) as (c & t & Er & Hc).
  assert (Hlen : 0 < Z.of_nat (length (arr_rest l))) by (rewrite Er; cbn; lia).
  rewrite (proj2 (Z.eqb_neq (rb doc) 0)), (proj2 (Z.eqb_neq (re doc) (rb doc))) by lia. cbn [orb].
  rewrite (proj2 (Z.leb_le (rb doc) _)), (proj2 (Z.leb_le (re obj) _)) by lia. cbn [andb].
  assert (Hsc : sc m (re obj) = s8 c) by (rewrite Er in Hh; by apply (sc_holds _ _ _ _ Hh)).
  assert (Hnq : (sc m (re obj) =? c_quot) = false) by (rewrite Hsc; by destruct Hc as [-> | ->]).
  rewrite Hnq. cbn [andb]. rewrite Hdoc.
  assert (Hsk : skip_whitespace m (re obj) e = re obj).
  { rewrite Er in Hh. rewrite (skip_whitespace_to [] c m (re obj) e t); try done; try (cbn; lia);
      destruct Hc as [-> | ->]; cbn [app]; first [done | forall_list]. }
  rewrite Hsk, Hsc. destruct l as [|v l].
  - cbn [arr_rest] in Er. injection Er as <- <-. by change (s8 (chr "]") =? chr ",") with false.
  - cbn [arr_rest] in Er, Hh, He. injection Er as <- <-. change (s8 (chr ",") =? chr ",") with true. cbn iota.
    apply holds_cons_inv in Hh as [_ Hh]. cbn [length] in He. rewrite render_items_cons in Hh, He.
    rewrite length_app in He. cbn [forallb] in Hok. apply andb_true_iff in Hok as [Hokv Hok].
    destruct (items_bytes v l (Hb ltac:(done))) as [Hbv Hbl].
    destruct (item_step m e (re obj + 1) v l Hokv Hbv Hh ltac:(lia)) as (-> & -> & -> & Hsh & Hrest).
    cbn [option_map]. eexists. split; [reflexivity|]. cbn [rb re]. repeat split; try done; try apply Hsh; lia.
Qed.

Lemma items_first m doc e b l :
  doc = mkRef b e -> 0 < b -> b + Z.of_nat (length (render (JArr l))) <= e ->
  holds m b (render (JArr l)) -> forallb jv_ok l = true -> bytes (render (JArr l)) ->
  match l with
  | [] => GetNextObjectRaw m doc null_ref = None
  | v :: l' => exists r, GetNextObjectRaw m doc null_ref = Some r /\ item_shows m e r v /\ rb doc <= rb r /\
      rb doc <= re r /\ holds m (re r) (arr_rest l') /\ re r + Z.of_nat (length (arr_rest l')) <= e
  end.
Proof.
  intros -> Hb0 He Hh Hok Hb. unfold GetNextObjectRaw, IsEmpty. cbn [rb re null_ref].
  cbn [render] in *. fold (render_items l) in *. cbn [length] in He.
  rewrite (proj2 (Z.eqb_neq b 0)), (proj2 (Z.eqb_neq e b)) by lia. cbn [orb].
  rewrite (proj2 (Z.leb_gt b 0)) by lia. cbn [andb].
  apply holds_cons_inv in Hh as [_ Hh]. inversion_clear Hb as [|? ? _ Hb']. apply bytes_app in Hb' as [Hb' _].
  destruct l as [|v l].
  - cbn [render_items map join app] in Hh.
    rewrite (skip_whitespace_to [] (chr "]") m (b + 1) e []); try done; try (cbn; lia); [|cbn [app]; forall_list].
    cbn [length]. change (Z.of_nat 0) with 0. rewrite Z.add_0_r. by rewrite (sc_holds _ _ _ _ Hh).
  - rewrite render_items_cons in Hh, He. rewrite length_app in He. cbn [forallb] in Hok.
    apply andb_true_iff in Hok as [Hokv Hok]. destruct (items_bytes v l Hb') as [Hbv Hbl].
    destruct (item_step m e (b + 1) v l Hokv Hbv Hh ltac:(lia)) as (-> & -> & -> & Hsh & Hrest).
    cbn [option_map]. eexists. split; [reflexivity|]. cbn [rb re]. repeat split; try done; try apply Hsh; lia.
Qed.

(** ** Iterating over the items *)

Lemma items_rest m doc e l : forall fuel obj,
  re doc = e -> 0 < rb doc -> rb doc <= re obj ->
  holds m (re obj) (arr_rest l) -> re obj + Z.of_nat (length (arr_rest l)) <= e ->
  forallb jv_ok l = true -> (l <> [] -> bytes (render_items l)) -> (length l < fuel)%nat ->
  Forall2 (fun r v => item_shows m e r v /\ rb doc <= rb r) (all_items fuel m doc obj) l.
Proof.
  induction l as [|v l IH]; intros fuel obj Hdoc Hd0 Hd Hh He Hok Hb Hf;
    (destruct fuel as [|fuel]; [lia|]); cbn [all_items].
  - rewrite (items_next m doc obj e []) by done. constructor.
  - destruct (items_next m doc obj e (v :: l)) as (r & -> & Hsh & Hrb & Hr & Hrest & Hre); try done.
    cbn [forallb] in Hok. apply andb_true_iff in Hok as [_ Hok]. cbn [length] in Hf.
    constructor; [done|]. apply IH; try done; [|lia].
    intros Hne. by apply (items_bytes v l (Hb ltac:(done))).
Qed.

Lemma all_items_spec m e b l fuel :
  0 < b -> b + Z.of_nat (length (render (JArr l))) <= e ->
  holds m b (render (JArr l)) -> forallb jv_ok l = true -> bytes (render (JArr l)) ->
  (length l < fuel)%nat ->
  Forall2 (fun r v => item_shows m e r v /\ b <= rb r) (all_items fuel m (mkRef b e) null_ref) l.
Proof.
  intros Hb0 He Hh Hok Hb Hf. destruct fuel as [|fuel]; [lia|]. cbn [all_items].
  pose proof (items_first m _ e b l eq_refl Hb0 He Hh Hok Hb) as H. destruct l as [|v l].
  - rewrite H. constructor.
  - destruct H as (r & -> & Hsh & Hrb & Hr & Hrest & Hre). cbn [forallb] in Hok.
    apply andb_true_iff in Hok as [_ Hok]. cbn [length] in Hf. constructor; [done|].
    apply (items_rest m (mkRef b e) e l); try done; [|lia].
    intros Hne. cbn [render] in Hb. inversion_clear Hb as [|? ? _ Hb']. apply bytes_app in Hb' as [Hb' _].
    by apply (items_bytes v l Hb').
Qed.

Lemma JsonArray_at m b e t : holds m b (chr "[" :: t) -> b < e ->
  JsonArray m (mkRef b e) = mkRef b e.
Proof.
  intros Hh He. unfold JsonArray, FindCharacter, GetLength. cbn [rb re].
  replace (Z.to_nat (e - b - 0)) with (S (Z.to_nat (e - b - 1))) by lia. cbn [find_char].
  rewrite Z.add_0_r, (sc_holds _ _ _ _ Hh). change (s8 (chr "[") =? chr "[") with true. cbn iota.
  change (0 <=? 0) with true. cbn iota. unfold SubStr_from, GetLength. cbn [rb re].
  rewrite (proj2 (Z.ltb_lt 0 (e - b))) by lia. by rewrite Z.add_0_r.
Qed.

(** Iterating [JsonArray::GetNextObjectRaw] over an array in the
    composer's syntax yields its items, all of them, once each and in order,
    each complete and in place, and [GetSize] is their number. *)
Theorem JsonArray_items m b l fuel :
  let v := JArr l in
  let e := b + Z.of_nat (length (render v)) in
  let doc := JsonArray m (mkRef b e) in
  0 < b -> jv_ok v = true -> bytes (render v) -> holds m b (render v) -> (length l < fuel)%nat ->
  Forall2 (fun r x => text m r = render x) (all_items fuel m doc null_ref) l /\
  GetSize fuel m doc = Z.of_nat (length l).
Proof.
  intros v e doc Hb0 Hok Hb Hh Hf.
  assert (Hpos : b < e) by (unfold e, v; cbn [render length]; lia).
  assert (Hdoc : doc = mkRef b e) by (by apply (JsonArray_at m b e (render_items l ++ [chr "]"]))).
  assert (H2 : Forall2 (fun r v => item_shows m e r v /\ b <= rb r) (all_items fuel m doc null_ref) l).
  { rewrite Hdoc. apply all_items_spec; try done.
    cbn [v jv_ok] in Hok. by apply andb_true_iff in Hok as [_ ?]. }
  split.
  - apply (Forall2_impl _ _ _ _ H2). intros r x [[(_ & _ & Hr & _) Hre] _]. by apply text_holds.
  - unfold GetSize. by rewrite (Forall2_length _ _ _ H2).
Qed.

Lemma JsonArray_items_witness :
  let l := [JText (str "1"); JString (str "],"); JArr []; JObj [(str "k", JText (str "0"))]] in
  let v := JArr l in
  let m := mem_of 0 32 (render v) in
  let e := 32 + Z.of_nat (length (render v)) in
  let doc := JsonArray m (mkRef 32 e) in
  (0 < 32 /\ jv_ok v = true /\ bytes (render v) /\ holds m 32 (render v) /\ (length l < 7)%nat) /\
  Forall2 (fun r x => text m r = render x) (all_items 7 m doc null_ref) l /\
  GetSize 7 m doc = Z.of_nat (length l).
Proof.
  intros l v m e doc. assert (H1 : 0 < 32) by lia. assert (H2 : jv_ok v = true) by reflexivity.
  assert (H3 : bytes (render v)) by (vm_compute; repeat constructor; discriminate).
  assert (H4 : holds m 32 (render v)) by (vm_compute; reflexivity).
  assert (H5 : (length l < 7)%nat) by (cbn; lia).
  split; [auto|]. exact (JsonArray_items m 32 l 7 H1 H2 H3 H4 H5).
Defined.

(** ** Looking a path up *)

Inductive pseg := PKey (k : list Z) | PIdx (n : nat).

Fixpoint lookup_field (k : list Z) (fs : list (list Z * jv)) : option jv :=
  match fs with
  | [] => None
  | (k', v) :: t => if zlist_eqb k' k then Some v else lookup_field k t
  end.

Definition is_container (v : jv) : bool :=
  match v with JArr _ | JObj _ => true | _ => false end.

(** The value a path leads to: the first field of that name, the item of that
    index.  [PMissing]: a name or index is absent, or the value on the way is
    of another kind.  [PAny]: a name looked up in something that is not an
    object, where the code's answer is not specified. *)
Inductive presult := PFound (v : jv) | PMissing | PAny.

Fixpoint jget (v : jv) (path : list pseg) : presult :=
  match path with
  | [] => PFound v
  | PKey k :: t =>
    match v with
    | JObj fs =>
      match lookup_field k fs with
      | None => PMissing
      | Some w => match t with [] => PFound w | _ => if is_container w then jget w t else PMissing end
      end
    | _ => PAny
    end
  | PIdx n :: t =>
    match v with
    | JArr l => match nth_error l n with None => PMissing | Some w => jget w t end
    | _ => PMissing
    end
  end.

(** A segment of the split path denotes a step. *)
Definition denotes (m : mem) (r : ref) (s : pseg) : Prop :=
  match s with
  | PKey k => 0 < rb r /\ holds m (rb r) k /\ re r = rb r + Z.of_nat (length k) /\ (0 < length k)%nat /\
              (sc m (rb r - 1) =? chr "[") = false
  | PIdx n => let d := decimal (Z.of_nat n) in
              holds m (rb r) d /\ re r = rb r + Z.of_nat (length d) /\
              sc m (rb r - 1) = chr "[" /\ Z.of_nat n < 2 ^ 31
  end.

Lemma memeq_spec m a b n : memeq n m a b = zlist_eqb (mem_bytes m a n) (mem_bytes m b n).
Proof. revert a b. induction n as [|n IH]; intros a b; cbn; [done|]. by rewrite IH. Qed.

Lemma zlist_eqb_length a b : zlist_eqb a b = true -> length a = length b.
Proof. intros H. by apply zlist_eqb_eq in H as ->. Qed.

Lemma ref_eq_texts m p k r k' : holds m p k -> (0 < length k)%nat -> holds m (rb r) k' ->
  re r = rb r + Z.of_nat (length k') -> 0 < p ->
  ref_eq m (mkRef p (p + Z.of_nat (length k))) r = zlist_eqb k k'.
Proof.
  intros Hk Hn Hk' Hr Hp. unfold ref_eq, IsEmpty, GetLength. cbn [rb re].
  rewrite (proj2 (Z.eqb_neq p 0)), (proj2 (Z.eqb_neq (p + _) p)) by lia. cbn [orb andb].
  replace (p + Z.of_nat (length k) - p) with (Z.of_nat (length k)) by lia.
  replace (re r - rb r) with (Z.of_nat (length k')) by lia. rewrite Nat2Z.id, memeq_spec.
  destruct (Z.eqb_spec (Z.of_nat (length k)) (Z.of_nat (length k'))) as [E|E]; cbn [andb].
  - apply Nat2Z.inj in E. unfold holds in *. rewrite Hk. by rewrite E, Hk'.
  - destruct (zlist_eqb k k') eqn:Ez; [|done]. apply zlist_eqb_length in Ez. lia.
Qed.

Definition found_at (m : mem) (e : Z) (r : option Z) (v : option jv) : Prop :=
  match v with
  | None => r = None
  | Some w => exists a, r = Some a /\ 0 < a /\ val_at m e a w
  end.

(** The field search from just before a blank and a field. *)
Lemma find_field_from m e nm k fs : forall fuel p,
  0 < p -> forallb field_ok fs = true -> fs <> [] -> bytes (render_fields fs) ->
  holds m (p + 1) ([c_nl] ++ render_fields fs ++ [c_nl; chr "}"]) ->
  p + 1 + Z.of_nat (length ([c_nl] ++ render_fields fs ++ [c_nl; chr "}"])) <= e ->
  denotes m nm (PKey k) -> (length fs <= fuel)%nat ->
  found_at m e (find_field fuel m p e nm) (lookup_field k fs).
Proof.
  induction fs as [|[k1 v] fs IH]; intros fuel p Hp Hok Hne Hb Hh He Hnm Hf; [done|].
  destruct fuel as [|fuel]; [cbn in Hf; lia|]. cbn [length] in Hf. cbn [find_field].
  cbn [forallb] in Hok. apply andb_true_iff in Hok as [Hokf Hok].
  destruct (field_bytes _ _ Hb) as [Hbf Hbr]. rewrite render_fields_cons in Hh, He.
  rewrite !length_app in He. cbn [length] in He. change (Z.of_nat 1) with 1 in He.
  assert (Hlq : exists r, render_field (k1, v) ++ obj_rest fs = c_quot :: r) by (eexists; reflexivity).
  destruct Hlq as [r Hr]. assert (Hh0 := Hh). rewrite Hr in Hh0.
  assert (Hlr : (0 < length (obj_rest fs))%nat) by (destruct (obj_rest_head fs) as (c & t & -> & _); cbn; lia).
  rewrite (skip_whitespace_to [c_nl] c_quot m (p + 1) e r);
    [|cbn [app]; forall_list|done|done|exact Hh0|cbn [length]; lia].
  cbn [length]. change (Z.of_nat 1) with 1. apply holds_app in Hh as [_ Hf1]. cbn [length] in Hf1.
  change (Z.of_nat 1) with 1 in Hf1.
  destruct (field_value m (p + 1 + 1) e k1 v (obj_rest fs) Hbf Hokf Hf1 ltac:(lia))
    as (E1 & E2 & E3 & E4 & E5 & E6 & Hk & Hv & Hbv & Hokv & Hq & _ & Hq0 & _).
  rewrite Hq0. change (c_quot =? chr "}") with false. cbn iota. rewrite E1, E2, E3. cbn [orb].
  rewrite E4, E5, E6. destruct Hnm as (Hn1 & Hn2 & Hn3 & Hn4 & Hn5).
  assert (Hk1 : (0 < length k1)%nat).
  { unfold field_ok in Hokf. cbn [fst] in Hokf. apply andb_true_iff in Hokf as [Hx _].
    apply andb_true_iff in Hx as [Hx _]. apply negb_true_iff, Nat.eqb_neq in Hx. lia. }
  rewrite (ref_eq_texts m (p + 1 + 1 + 1) k1 nm k) by (done || lia).
  set (a := p + 1 + 1 + 1 + Z.of_nat (length k1) + 2) in *.
  pose proof (holds_app _ _ _ _ Hv) as [Hv1 Hrest]. rewrite Hq in Hrest.
  assert (Hval : val_at m e a v).
  { repeat split; try done; [lia|]. rewrite Hq. by apply (ends_text_rest _ _ _ fs). }
  cbn [lookup_field]. destruct (zlist_eqb k1 k).
  - cbn [found_at]. exists a. split; [done|]. split; [lia|done].
  - rewrite (val_at_closure m e a v Hval), Hq.
    set (q := p + 1 + 1 + Z.of_nat (length (render_field (k1, v)))) in *.
    destruct fs as [|g fs].
    + cbn [obj_rest] in Hrest, He. cbn [length] in He.
      rewrite (skip_whitespace_to [c_nl] (chr "}") m q e []);
        [|cbn [app]; forall_list|done|done|exact Hrest|cbn [length]; lia].
      cbn [length]. change (Z.of_nat 1) with 1. apply holds_cons_inv in Hrest as [_ Hend].
      by rewrite (sc_holds _ _ _ _ Hend).
    + cbn [obj_rest app] in Hrest, He. cbn [length] in He.
      rewrite (skip_whitespace_to [] (chr ",") m q e _ ltac:(cbn [app]; forall_list) eq_refl eq_refl Hrest)
        by (cbn [length]; lia).
      cbn [length]. change (Z.of_nat 0) with 0. rewrite Z.add_0_r, (sc_holds _ _ _ _ Hrest).
      change (s8 (chr ",") =? chr ",") with true. cbn [negb].
      apply holds_cons_inv in Hrest as [_ Hrest].
      apply (IH fuel q); try done; try lia; [by apply Hbr|cbn [app length]; lia].
Qed.

Lemma obj_fields_bytes fs : fs <> [] -> bytes (render (JObj fs)) -> bytes (render_fields fs).
Proof.
  intros Hne Hb. rewrite render_obj in Hb by done. inversion_clear Hb as [|? ? _ Hb1].
  inversion_clear Hb1 as [|? ? _ Hb2]. apply bytes_app in Hb2 as [Hb2 _]. by apply bytes_app in Hb2 as [Hb2 _].
Qed.

Lemma obj_rest_length fs : (length fs <= length (render_fields fs))%nat.
Proof.
  unfold render_fields. induction fs as [|f fs IH]; [done|]. destruct fs as [|g fs]; cbn [map] in *.
  - cbn [join]. unfold render_field, quoted. rewrite !length_app. cbn [length]. lia.
  - rewrite join_cons, !length_app. cbn [length] in *. lia.
Qed.

Lemma find_field_obj m e p fs nm k : 0 < p -> val_at m e p (JObj fs) -> denotes m nm (PKey k) ->
  found_at m e (find_field (S (S (Z.to_nat (e - p)))) m p e nm) (lookup_field k fs).
Proof.
  intros Hp (Hok & Hb & Hh & He & _) Hnm. destruct (decide (fs = [])) as [->|Hne].
  - cbn [render] in *. apply holds_cons_inv in Hh as [_ Hh]. cbn [length] in He.
    cbn [find_field lookup_field found_at].
    rewrite (skip_whitespace_to [] (chr "}") m (p + 1) e []); [|cbn [app]; forall_list|done|done|done|cbn; lia].
    cbn [length]. change (Z.of_nat 0) with 0. rewrite Z.add_0_r. by rewrite (sc_holds _ _ _ _ Hh).
  - pose proof (obj_fields_bytes fs Hne Hb) as Hbf. rewrite render_obj in * by done.
    apply holds_cons_inv in Hh as [_ Hh].
    assert (El : (c_nl :: render_fields fs ++ [c_nl]) ++ [chr "}"] =
      [c_nl] ++ render_fields fs ++ [c_nl; chr "}"]) by (cbn [app]; by rewrite <- app_assoc).
    rewrite El in *. cbn [length] in He. pose proof (obj_rest_length fs) as Hl.
    rewrite !length_app in He. apply find_field_from; try done; rewrite ?length_app; lia.
Qed.

(** The item of index [n]. *)
Lemma nth_item_rest m e b : 0 < b -> forall n l obj, b <= re obj -> holds m (re obj) (arr_rest l) ->
  re obj + Z.of_nat (length (arr_rest l)) <= e -> forallb jv_ok l = true ->
  (l <> [] -> bytes (render_items l)) ->
  match nth_error l n with
  | None => nth_item n m (mkRef b e) obj = None
  | Some w => exists r, nth_item n m (mkRef b e) obj = Some r /\ item_shows m e r w /\ 0 < rb r
  end.
Proof.
  intros Hb0 n. induction n as [|n IH]; intros l obj Hd Hr Hre Hok Hb;
    pose proof (items_next m (mkRef b e) obj e l eq_refl Hb0 Hd Hr Hre Hok Hb) as H;
    destruct l as [|v l]; cbn [nth_error nth_item]; try (by rewrite H);
    destruct H as (r & -> & Hsh & H1 & H2 & H3 & H4); cbn [rb] in *.
  - exists r. split; [done|]. split; [done|lia].
  - cbn [forallb] in Hok. apply andb_true_iff in Hok as [_ Hok]. apply IH; try done.
    intros Hne. by apply (items_bytes v l (Hb ltac:(done))).
Qed.

Lemma nth_item_spec m e b l n : 0 < b -> b + Z.of_nat (length (render (JArr l))) <= e ->
  holds m b (render (JArr l)) -> forallb jv_ok l = true -> bytes (render (JArr l)) ->
  match nth_error l n with
  | None => nth_item n m (mkRef b e) null_ref = None
  | Some w => exists r, nth_item n m (mkRef b e) null_ref = Some r /\ item_shows m e r w /\ 0 < rb r
  end.
Proof.
  intros Hb0 He Hh Hok Hb. pose proof (items_first m _ e b l eq_refl Hb0 He Hh Hok Hb) as H.
  destruct l as [|v l]; destruct n as [|n]; cbn [nth_error nth_item]; try (by rewrite H);
    destruct H as (r & -> & Hsh & H1 & H2 & H3 & H4); cbn [rb] in *.
  - exists r. split; [done|]. split; [done|lia].
  - cbn [forallb] in Hok. apply andb_true_iff in Hok as [_ Hok]. apply nth_item_rest; try done.
    intros Hne. cbn [render] in Hb. inversion_clear Hb as [|? ? _ Hb']. apply bytes_app in Hb' as [Hb' _].
    by apply (items_bytes v l Hb').
Qed.

Lemma container_head m e a v : val_at m e a v ->
  (match v with JArr _ => sc m a = chr "[" | JObj _ => sc m a = chr "{" | _ => True end) /\
  (negb (sc m a =? chr "{") && negb (sc m a =? chr "[") = negb (is_container v)) /\
  (sc m a =? chr "[") = (match v with JArr _ => true | _ => false end).
Proof.
  intros (Hok & Hb & Hh & _ & _). destruct v as [t|s|b|l|fs]; cbn [is_container].
  - destruct (render_head (JText t) Hok) as (c & u & E & _). cbn [render jv_ok] in *. subst t.
    unfold text_ok in Hok. cbn [forallb] in Hok. bool_prop.
    match goal with H : plain _ = true |- _ => unfold plain in H; bool_prop end.
    rewrite (sc_holds _ _ _ _ Hh), !(proj2 (Z.eqb_neq _ _)) by done. done.
  - by rewrite (sc_holds _ _ _ _ Hh).
  - by rewrite (sc_holds _ _ _ _ Hh).
  - by rewrite (sc_holds _ _ _ _ Hh).
  - assert (E : exists t, render (JObj fs) = chr "{" :: t) by (destruct fs; cbn; eauto).
    destruct E as [t E]. rewrite E in Hh. by rewrite (sc_holds _ _ _ _ Hh).
Qed.

(** The search along a path, on a value in place. *)
Lemma locate_segs_spec m e path : forall segs p v, 0 < p -> path <> [] -> val_at m e p v ->
  Forall2 (denotes m) segs path ->
  match jget v path with
  | PFound w => exists a, locate_segs segs m p e = Some a /\ 0 < a /\ val_at m e a w
  | PMissing => locate_segs segs m p e = None
  | PAny => True
  end.
Proof.
  induction path as [|s path IH]; intros segs p v Hp Hne Hv Hsegs; [done|].
  inversion Hsegs as [|nm ? segs' ? Hden Hsegs' E1 E2]; subst. cbn [locate_segs jget].
  destruct s as [k|n].
  - destruct v as [ | | | |fs]; try done. pose proof Hden as (_ & _ & _ & _ & Hb). rewrite Hb. cbn [negb].
    pose proof (find_field_obj m e p fs nm k Hp Hv Hden) as Hf. unfold found_at in Hf.
    destruct (lookup_field k fs) as [w|]; [|by rewrite Hf].
    destruct Hf as (a & -> & Ha & Hw). destruct path as [|s2 path].
    + inversion Hsegs'; subst. eauto.
    + inversion Hsegs' as [|r2 ? segs2 ? ? ? E1 E2]; subst.
      destruct (container_head m e a w Hw) as (_ & Hc & _). rewrite Hc.
      destruct (is_container w); cbn [negb]; [|done]. by apply IH.
  - destruct Hden as (Hd1 & Hd2 & Hd3 & Hd4). rewrite Hd3. change (chr "[" =? chr "[") with true. cbn [negb].
    destruct (container_head m e p v Hv) as (_ & _ & Hc). rewrite Hc.
    destruct v as [ | | |l| ]; try done. cbn [negb].
    destruct nm as [nb ne]. cbn [rb re] in *. rewrite (ToNumber_digits T_UINT m nb ne (decimal (Z.of_nat n))).
    2-8: first [by left | apply decimal_digits; lia | apply length_decimal | done | lia
               | rewrite decimal_val by lia; unfold int_limit; cbn; lia].
    rewrite decimal_val by lia.
    replace (s32 (Z.of_nat n)) with (Z.of_nat n) by (symmetry; unwrap; rewrite Z.mod_small; lia).
    rewrite Nat2Z.id. destruct Hv as (Hok & Hb & Hh & He & _).
    rewrite (JsonArray_at m p e (render_items l ++ [chr "]"])) by (try done; cbn [render length] in He; lia).
    cbn [jv_ok] in Hok. apply andb_true_iff in Hok as [_ Hok].
    pose proof (nth_item_spec m e p l n Hp He Hh Hok Hb) as Hi.
    destruct (nth_error l n) as [w|]; [|by rewrite Hi]. destruct Hi as (r & -> & [Hw Hre] & Hr0).
    destruct path as [|s2 path].
    + inversion Hsegs'; subst. cbn [jget]. eauto.
    + inversion Hsegs' as [|r2 ? segs2 ? ? ? E1 E2]; subst. by apply IH.
Qed.

(** The text of a path: names separated by dots, indices in brackets. *)
Definition seg_word (s : pseg) : list Z :=
  match s with PKey k => k | PIdx n => decimal (Z.of_nat n) end.
Definition seg_close (s : pseg) : list Z := match s with PKey _ => [] | PIdx _ => [chr "]"] end.
Definition seg_open (path : list pseg) : list Z :=
  match path with [] => [] | PKey _ :: _ => [chr "."] | PIdx _ :: _ => [chr "["] end.

Fixpoint chain_of (path : list pseg) : list (list Z * list Z) :=
  match path with
  | [] => []
  | s :: t => (seg_word s, seg_close s ++ seg_open t) :: chain_of t
  end.

Definition path_text (path : list pseg) : list Z := chain_text (chain_of path).

Definition seg_ok (s : pseg) : Prop :=
  match s with
  | PKey k => (0 < length k)%nat /\ word_ok c_quot c_apos path_seps k
  | PIdx n => Z.of_nat n < 2 ^ 31
  end.

(** A path starts with a name, and fits the 256 segments of the code. *)
Definition path_ok (path : list pseg) : Prop :=
  Forall seg_ok path /\ (length path < 256)%nat /\
  match path with PKey _ :: _ => True | _ => False end.

Lemma path_sep_chars : forall c, c = chr "." \/ c = chr "[" \/ c = chr "]" ->
  Has path_seps (s8 c) = true /\ s8 c <> c_quot /\ s8 c <> c_apos.
Proof. intros c [->|[->| ->]]; vm_compute; repeat split; discriminate. Qed.

Lemma decimal_word n : word_ok c_quot c_apos path_seps (decimal (Z.of_nat n)).
Proof.
  apply (Forall_impl is_digit); [apply decimal_digits; lia|]. intros c Hc. unfold is_digit in Hc.
  rewrite s8_ascii by lia.
  assert (H : forallb (fun c => negb (Has path_seps c) && negb (c =? c_quot) && negb (c =? c_apos))
    (seqZ 48 10) = true) by (vm_compute; reflexivity).
  rewrite forallb_forall in H. specialize (H c). cbn beta in H.
  assert (Hin : In c (seqZ 48 10)) by (apply list_elem_of_In, elem_of_seqZ; lia).
  apply H in Hin. bool_prop. done.
Qed.

Lemma chain_of_ok path : path <> [] -> Forall seg_ok path -> chain_ok path_seps (chain_of path).
Proof.
  induction path as [|s path IH]; intros Hne Hok; [done|]. inversion_clear Hok as [|? ? Hs Hok'].
  cbn [chain_of chain_ok]. split; [|split; [|split]].
  - destruct s; [apply Hs|apply length_decimal].
  - destruct s; [apply Hs|apply decimal_word].
  - apply Forall_app. split.
    + destruct s; cbn [seg_close]; forall_list; apply path_sep_chars; auto.
    + destruct path as [|[k|n] path]; cbn [seg_open]; forall_list; apply path_sep_chars; auto.
  - destruct path as [|s2 path]; [done|]. split; [destruct s2; rewrite length_app; cbn; lia|].
    by apply IH.
Qed.

Lemma chain_refs_denote m path : forall p, 0 < p -> Forall seg_ok path ->
  holds m p (path_text path) ->
  match path with
  | [] => True
  | PKey _ :: _ => (sc m (p - 1) =? chr "[") = false
  | PIdx _ :: _ => sc m (p - 1) = chr "["
  end ->
  Forall2 (denotes m) (chain_refs p (chain_of path)) path.
Proof.
  induction path as [|s path IH]; intros p Hp Hok Hh Hb; [constructor|].
  inversion_clear Hok as [|? ? Hs Hok']. cbn [chain_of chain_refs].
  unfold path_text, chain_text in *. cbn [chain_of map concat fst snd] in Hh.
  rewrite <- app_assoc in Hh. apply holds_app in Hh as [Hw Hh]. apply holds_app in Hh as [Hsep Hh].
  constructor.
  - destruct s as [k|n]; cbn [denotes seg_word rb re] in *; [|done].
    destruct Hs. repeat split; (done || lia).
  - apply IH; try done; [lia|]. destruct path as [|s2 path]; [done|].
    set (x := p + Z.of_nat (length (seg_word s))) in *.
    assert (Hl : forall c, seg_open (s2 :: path) = [c] ->
      sc m (x + Z.of_nat (length (seg_close s ++ seg_open (s2 :: path))) - 1) = s8 c).
    { intros c Ec. rewrite Ec in *. apply holds_app in Hsep as [_ Hc].
      rewrite length_app. cbn [length].
      replace (x + Z.of_nat (length (seg_close s) + 1) - 1) with (x + Z.of_nat (length (seg_close s))) by lia.
      by rewrite (sc_holds _ _ _ _ Hc). }
    destruct s2; rewrite (Hl _ eq_refl); done.
Qed.

Lemma chain_open_last path : forall s, chain_open (chain_of (path ++ [s])) =
  match s with PKey _ => false | PIdx _ => true end.
Proof.
  induction path as [|x path IH]; intros s; [by destruct s|]. cbn [app chain_of chain_open].
  rewrite IH. destruct (chain_of (path ++ [s])) eqn:E; [|done].
  exfalso. by destruct path.
Qed.

Lemma chain_refs_nonempty p ch : chain_ok path_seps ch -> 0 < p ->
  forall r, In r (chain_refs p ch) -> IsEmpty r = false.
Proof.
  revert p. induction ch as [|[w s] ch IH]; intros p Hok Hp r Hin; [done|].
  destruct Hok as (Hn & _ & _ & Ht). cbn [chain_refs] in Hin. destruct Hin as [<-|Hin].
  - unfold IsEmpty. cbn [rb re]. by rewrite (proj2 (Z.eqb_neq p 0)), (proj2 (Z.eqb_neq _ p)) by lia.
  - destruct ch as [|x ch]; [done|]. apply (IH (p + Z.of_nat (length w) + Z.of_nat (length s))); try done; [apply Ht|lia].
Qed.

Lemma drop_empty_refs p ch t : chain_ok path_seps ch -> 0 < p ->
  drop_empty_last (chain_refs p ch ++ (if chain_open ch then [mkRef t t] else [])) = chain_refs p ch.
Proof.
  intros Hok Hp. unfold drop_empty_last. destruct (chain_open ch).
  - rewrite rev_app_distr. cbn [rev app]. unfold IsEmpty. cbn [rb re]. rewrite Z.eqb_refl, orb_true_r.
    apply rev_involutive.
  - rewrite app_nil_r. destruct (rev (chain_refs p ch)) as [|r l] eqn:E.
    + apply (f_equal (@rev ref)) in E. rewrite rev_involutive in E. by rewrite E.
    + rewrite (chain_refs_nonempty p ch Hok Hp); [done|]. apply in_rev. rewrite E. by left.
Qed.

Lemma length_chain_of path : length (chain_of path) = length path.
Proof. induction path; cbn; congruence. Qed.

(** The lookup, end to end. *)
Lemma path_value m b v q path d :
  let doc := mkRef b (b + Z.of_nat (length (render v))) in
  let xpath := mkRef q (q + Z.of_nat (length (path_text path))) in
  0 < b -> 0 < q -> (exists fs, v = JObj fs) -> jv_ok v = true -> bytes (render v) ->
  holds m b (render v) -> holds m q (path_text path) -> path_ok path ->
  (sc m (q - 1) =? chr "[") = false ->
  match jget v path with
  | PFound w => exists r, GetValue m doc xpath d false = r /\ text m r = cooked w /\
      holds m (rb r) (cooked w) /\ 0 < rb r /\ re r = rb r + Z.of_nat (length (cooked w)) /\ re r <= re doc
  | PMissing => GetValue m doc xpath d false = d
  | PAny => True
  end.
Proof.
  intros doc xpath Hb0 Hq0 [fs Ev] Hok Hb Hh Hhp (Hp & Hlen & Hfirst) Hbr.
  assert (Hne : path <> []) by (destruct path; done).
  pose proof (chain_of_ok path Hne Hp) as Hch.
  assert (Hv : val_at m (re doc) b v).
  { split; [done|]. split; [done|]. split; [done|]. unfold doc. cbn [re]. split; [lia|]. intros ?. lia. }
  assert (Hx : IsEmpty xpath = false).
  { unfold IsEmpty, xpath. cbn [rb re]. rewrite (proj2 (Z.eqb_neq q 0)) by lia. cbn [orb].
    apply Z.eqb_neq. unfold path_text, chain_text. destruct path as [|s path]; [done|].
    cbn [chain_of map concat fst snd]. rewrite !length_app. cbn [chain_of chain_ok] in Hch. lia. }
  assert (Hhead : exists t, render v = chr "{" :: t) by (rewrite Ev; destruct fs; cbn; eauto).
  destruct Hhead as [t Et].
  assert (Hd : IsEmpty doc = false).
  { unfold IsEmpty, doc. cbn [rb re]. rewrite Et. cbn [length].
    by rewrite (proj2 (Z.eqb_neq b 0)), (proj2 (Z.eqb_neq (b + _) b)) by lia. }
  assert (EL : LocateValue m doc xpath false = locate_segs (chain_refs q (chain_of path)) m b (re doc)).
  { unfold LocateValue, Split, Split_. rewrite Hx, Hd. cbn iota.
    replace (Z.to_nat (GetLength xpath) + 1)%nat with (S (length (path_text path)))
      by (unfold GetLength, xpath; cbn [rb re]; lia).
    change (rb xpath) with q. change (re xpath) with (q + Z.of_nat (length (chain_text (chain_of path)))).
    rewrite (split_chain path_seps m (chain_of path)); try done.
    2:{ unfold path_text. lia. }
    2:{ rewrite length_chain_of. lia. }
    rewrite drop_empty_refs by done.
    pose proof Hh as Hh0. rewrite Et in Hh0. change (rb doc) with b.
    by rewrite (sc_holds _ _ _ _ Hh0). }
  unfold GetValue. rewrite Hx, EL.
  pose proof (locate_segs_spec m (re doc) path (chain_refs q (chain_of path)) b v Hb0 Hne Hv) as HL.
  assert (Hden : Forall2 (denotes m) (chain_refs q (chain_of path)) path).
  { apply chain_refs_denote; try done. destruct path as [|[k|n] path]; done. }
  specialize (HL Hden). destruct (jget v path) as [w| |]; [|by rewrite HL|done].
  destruct HL as (a & -> & Ha & Hw). rewrite (val_at_closure m (re doc) a w Hw).
  destruct Hw as (Hokw & Hbw & Hhw & Hend & _).
  destruct (cook_render w m a Hokw Hbw Hhw) as (x & y & -> & Hck & Hxy & Hxa & Hyb).
  eexists. split; [reflexivity|]. cbn [rb re].
  repeat split; [by apply text_holds|done|lia|done|]. destruct w; lia.
Qed.

(** C2: [JsonObject::GetValue] with a path of dotted names and bracketed
    indices - split by [Split], resolved by [_LocateValue] - on an object in the
    syntax of [jv_ok] (that of the iteration) returns the cooked text of the value
    the path leads to: the first field of each name, the item of each index, to
    any depth.  It returns the default value when a name is not in the object it
    is looked up in, when an index is past the end of its array or applied to what
    is no array, and when a named value on the way is neither an object nor an
    array.  Nothing is said of a name looked up in an array, or in an item of an
    array that is no object ([PAny]): the code reads it as an object, and can find
    what stands behind it ([name_in_array]).  A path is fewer than 256 segments, the
    first of them a name; names hold no dot, bracket or quotation mark, an index is
    below [2^31] ([path_ok]), and the byte in front of the path is no bracket. *)
Theorem GetValue_path m b v q path d :
  let doc := mkRef b (b + Z.of_nat (length (render v))) in
  let xpath := mkRef q (q + Z.of_nat (length (path_text path))) in
  0 < b -> 0 < q -> (exists fs, v = JObj fs) -> jv_ok v = true -> bytes (render v) ->
  holds m b (render v) -> holds m q (path_text path) -> path_ok path ->
  (sc m (q - 1) =? chr "[") = false ->
  match jget v path with
  | PFound w => text m (GetValue m doc xpath d false) = cooked w
  | PMissing => GetValue m doc xpath d false = d
  | PAny => True
  end.
Proof.
  intros doc xpath H1 H2 H3 H4 H5 H6 H7 H8 H9. pose proof (path_value m b v q path d H1 H2 H3 H4 H5 H6 H7 H8 H9) as H.
  destruct (jget v path) as [w| |]; try done. by destruct H as (r & <- & ? & _).
Qed.

Lemma GetValue_path_witness :
  let v := doc_sample in
  let path := [PKey (str "xs"); PIdx 1; PKey (str "k")] in
  let m := mstore (mem_of 0 64 (render v)) 900 (path_text path) in
  let doc := mkRef 64 (64 + Z.of_nat (length (render v))) in
  let xpath := mkRef 900 (900 + Z.of_nat (length (path_text path))) in
  path_text path = str "xs[1].k" /\
  match jget v path with
  | PFound w => text m (GetValue m doc xpath null_ref false) = cooked w
  | PMissing => GetValue m doc xpath null_ref false = null_ref
  | PAny => True
  end.
Proof.
  intros v path m doc xpath. split; [vm_compute; reflexivity|].
  apply (GetValue_path m 64 v 900 path null_ref).
  - lia.
  - lia.
  - eexists. reflexivity.
  - reflexivity.
  - vm_compute. repeat constructor; discriminate.
  - vm_compute. reflexivity.
  - vm_compute. reflexivity.
  - split; [|split; [cbn; lia|exact I]].
    repeat constructor; try (vm_compute; discriminate); try (cbn; lia).
  - vm_compute. reflexivity.
Defined.

(** An empty binary, written as [<0/>], ends the iteration before it has begun. *)
Example empty_binary_ends :
  let t := render (JObj [(str "a", JBinary []); (str "b", JText (str "1"))]) in
  let m := mem_of 0 64 t in let doc := mkRef 64 (64 + Z.of_nat (length t)) in
  jv_ok (JBinary []) = false /\ all_pairs 9 m doc empty_kvp = [] /\ IsEmptyObject m doc = true.
Proof. vm_compute. auto. Qed.

(** A name looked up in an array finds a field of the object around it. *)
Example name_in_array :
  let t := render (JObj [(str "xs", JArr [JString (str "k")]); (str "b", JText (str "1"))]) in
  let m := mem_of 0 64 (t ++ str "xs.k") in let e := 64 + Z.of_nat (length t) in
  text m (GetValue m (mkRef 64 e) (mkRef e (e + 4)) null_ref false) = str "1".
Proof. vm_compute. reflexivity. Qed.
