(* ===== verification/JsonCompose.v ===== *)
(** Composing JSON (rt/json.h): the [_JVar] chains, [_JArray] and [_JObj]
    writers, their length functions, and the agreement of the written bytes
    with the reference syntax the parser is proved against. *)
From S2P Require Import Prelude Str JsonLex JsonDoc.

(** ** Definitions *)

(** The text [itoa] leaves in [_BinLen]. *)
Definition itoa_text_of (v : Z) : list Z :=
  match itoa_unsigned (fun _ => 0) v 0 with
  | Some (m, n) => mem_bytes m 0 (Z.to_nat n)
  | None => []
  end.

(** [StringFixed<LEN>] appends: a character if it fits, a text if it stays
    below the capacity, nothing otherwise. *)
Definition JA_LEN : Z := 1024.
Definition sf_add_char (buf : list Z) (c : Z) : list Z :=
  if Z.of_nat (length buf) + 1 <=? JA_LEN then buf ++ [c] else buf.
Definition sf_add (buf t : list Z) : list Z :=
  if Z.of_nat (length t) + (Z.of_nat (length buf) + 1) <? JA_LEN then buf ++ t else buf.

(** [_JArray::Append] *)
Definition ja_Append (buf t : list Z) (need_quote : bool) : list Z :=
  let buf := if negb (Nat.eqb (length buf) 1) then sf_add_char buf (chr ",") else buf in
  if need_quote then sf_add_char (sf_add (sf_add_char buf c_quot) t) c_quot else sf_add buf t.

Definition is_string (v : jv) : bool := match v with JString _ => true | _ => false end.

(** What [_JObj] copies for a text: an empty one is [null]. *)
Definition jobj_text (t : list Z) : list Z := match t with [] => str "null" | _ => t end.

(** The loops over the items and the fields, for a given [CopyTo] of values. *)
Section Loops.
Context (CopyTo : jv -> mem -> Z -> mem * Z).

(** The text an item appends to the array's buffer. *)
Definition item_text (v : jv) : list Z :=
  let '(m, n) := CopyTo v (fun _ => 0) 0 in mem_bytes m 0 (Z.to_nat n).

Fixpoint ja_items (buf : list Z) (l : list jv) : list Z :=
  match l with
  | [] => buf
  | v :: t => ja_items (ja_Append buf (item_text v) (is_string v)) t
  end.

(** One [_JVar::_CopyTo] of the chain, from the accumulated length: a field
    without a name is a ghost and leaves no trace. *)
Definition copy_field (p : Z) (tag : list Z) (v : jv) (m : mem) (len : Z) : mem * Z :=
  match tag with
  | [] => (m, len)
  | _ =>
    let '(m, len) := if negb (len =? 0) then
                       let len := u32 (len + 2) in (store 2 m (p + len - 2) 0x0a2c, len)
                     else (m, len) in
    let q := p + len in
    let l := Z.of_nat (length tag) in
    let m := mset m q c_quot in
    let m := mstore m (q + 1) tag in
    let m := mset m (q + 1 + l) c_quot in
    let m := mset m (q + 2 + l) (chr ":") in
    let len := u32 (len + (l + 3)) in
    let q := q + 3 + l in
    if is_string v then
      let m := mset m q c_quot in
      let '(m, l) := CopyTo v m (q + 1) in
      let m := mset m (q + 1 + l) c_quot in
      (m, u32 (len + (l + 2)))
    else
      let '(m, l) := CopyTo v m q in
      (m, u32 (len + l))
  end.

Fixpoint copy_fields (p : Z) (fs : list (list Z * jv)) (m : mem) (len : Z) : mem * Z :=
  match fs with
  | [] => (m, len)
  | (tag, v) :: t => let '(m, len) := copy_field p tag v m len in copy_fields p t m len
  end.
End Loops.

(** [value.CopyTo(p)]: the memory and the length returned.  A string's marks
    are written by its owner. *)
Fixpoint CopyTo (v : jv) (m : mem) (p : Z) {struct v} : mem * Z :=
  match v with
  | JText t => (mstore m p (jobj_text t), u32 (Z.of_nat (length (jobj_text t))))
  | JString s => (mstore m p s, u32 (Z.of_nat (length s)))
  | JBinary b =>
    let BinLen := itoa_text_of (u32 (Z.of_nat (length b))) in
    let size := Z.of_nat (length BinLen) in
    let m := mset m p (chr "<") in
    let m := mstore m (p + 1) BinLen in
    let p := p + (2 + size) in
    let m := mset m (p - 1) (chr "/") in
    let m := mstore m p b in
    let m := mset m (p + Z.of_nat (length b)) (chr ">") in
    (m, u32 (2 + size + Z.of_nat (length b) + 1))
  | JArr l =>
    let buf := ja_items CopyTo [chr "["] l in
    let m := mstore m p buf in
    (mset m (p + Z.of_nat (length buf)) (chr "]"), u32 (Z.of_nat (length buf) + 1))
  | JObj fs =>
    let m := store 2 m p 0x0a7b in
    let p := p + 2 in
    let '(m, len) := copy_fields CopyTo p fs m 0 in
    if negb (len =? 0) then (store 2 m (p + len) 0x7d0a, u32 (len + 4))
    else (mset m (p - 1) (chr "}"), 2)
  end.

(** The length functions. *)
Definition len_field (GetLength : jv -> Z) (tag : list Z) (v : jv) (len : Z) : Z :=
  match tag with
  | [] => len
  | _ =>
    let len := if negb (len =? 0) then u32 (len + 2) else len in
    let len := u32 (len + (Z.of_nat (length tag) + 3)) in
    u32 (len + (GetLength v + (if is_string v then 2 else 0)))
  end.

Fixpoint len_fields (GetLength : jv -> Z) (fs : list (list Z * jv)) (len : Z) : Z :=
  match fs with
  | [] => len
  | (tag, v) :: t => len_fields GetLength t (len_field GetLength tag v len)
  end.

Fixpoint jv_GetLength (v : jv) : Z :=
  match v with
  | JText t => u32 (Z.of_nat (length (jobj_text t)))
  | JString s => u32 (Z.of_nat (length s))
  | JBinary b =>
    u32 (2 + Z.of_nat (length (itoa_text_of (u32 (Z.of_nat (length b))))) + Z.of_nat (length b) + 1)
  | JArr l => u32 (Z.of_nat (length (ja_items CopyTo [chr "["] l)) + 1)
  | JObj fs =>
    let len := len_fields jv_GetLength fs 0 in
    if negb (len =? 0) then u32 (len + 4) else 2
  end.

(** ** What the composer means to write *)

(** Ghost fields dropped, empty texts written as [null]. *)
Fixpoint norm (v : jv) : jv :=
  match v with
  | JText t => JText (jobj_text t)
  | JArr l => JArr (map norm l)
  | JObj fs =>
    JObj ((fix go (fs : list (list Z * jv)) :=
      match fs with
      | [] => []
      | (tag, v) :: t => match tag with [] => go t | _ => (tag, norm v) :: go t end
      end) fs)
  | v => v
  end.

Fixpoint norm_fields (fs : list (list Z * jv)) : list (list Z * jv) :=
  match fs with
  | [] => []
  | (tag, v) :: t => match tag with [] => norm_fields t | _ => (tag, norm v) :: norm_fields t end
  end.

Lemma norm_obj fs : norm (JObj fs) = JObj (norm_fields fs).
Proof.
  reflexivity.
Qed.

(** What a value's own [CopyTo] writes: a string without its marks. *)
Definition own_text (v : jv) : list Z :=
  match v with JString s => s | _ => render v end.

(** Every array's text fits the 1024 characters of [_JArray]'s buffer. *)
Fixpoint arrays_fit (v : jv) : bool :=
  match v with
  | JArr l => (Z.of_nat (length (render (norm v))) <? JA_LEN) && forallb arrays_fit l
  | JObj fs => forallb (fun f => arrays_fit (snd f)) fs
  | _ => true
  end.

(** ** Sizes *)

Lemma itoa_text_of_decimal v : 0 <= v < 2 ^ 64 -> itoa_text_of v = decimal v.
Proof.
  intros Hv. unfold itoa_text_of. destruct (itoa_unsigned_spec (fun _ => 0) v 0 Hv) as (m & -> & Hm).
  rewrite Nat2Z.id. exact (proj1 (holds_app _ _ _ _ (wrote_holds _ _ _ _ Hm))).
Qed.

Lemma join_snoc sep l x : join sep (l ++ [x]) = match l with [] => x | _ => join sep l ++ sep ++ x end.
Proof.
  induction l as [|y l IH]; [done|]. cbn [app]. destruct l as [|z l]; [done|].
  change (join sep (y :: (z :: l) ++ [x])) with (y ++ sep ++ join sep ((z :: l) ++ [x])).
  rewrite IH, join_cons. by rewrite <- !app_assoc.
Qed.

Lemma join_app_le sep l l' : (length (join sep l) <= length (join sep (l ++ l')))%nat.
Proof.
  revert l. induction l' as [|x l' IH]; intros l; [by rewrite app_nil_r|].
  change (x :: l') with ([x] ++ l'). rewrite app_assoc. etrans; [|apply IH].
  rewrite join_snoc. destruct l; [cbn; lia|]. rewrite !length_app. lia.
Qed.

Lemma own_text_le v : (length (own_text v) <= length (render v))%nat.
Proof. destruct v; cbn [own_text render]; try lia. unfold quoted. cbn [length]. rewrite length_app. lia. Qed.

Lemma render_own v : render v = if is_string v then quoted (own_text v) else own_text v.
Proof. by destruct v. Qed.

Lemma is_string_norm v : is_string (norm v) = is_string v.
Proof. by destruct v. Qed.

Lemma render_norm_pos v : (0 < length (render (norm v)))%nat.
Proof.
  destruct v as [t|s|b|l|fs]; try (cbn; lia); [destruct t; cbn; lia|].
  rewrite norm_obj. destruct (norm_fields fs); cbn; lia.
Qed.

(** ** The composer writes the reference syntax *)

Definition compose_ok (v : jv) : Prop :=
  arrays_fit v = true -> Z.of_nat (length (own_text (norm v))) < 2 ^ 32 ->
  jv_GetLength v = Z.of_nat (length (own_text (norm v))) /\
  forall m p, exists m', CopyTo v m p = (m', Z.of_nat (length (own_text (norm v)))) /\
    wrote m p (own_text (norm v)) m'.

Lemma u32_small z : 0 <= z < 2 ^ 32 -> u32 z = z.
Proof. intros. by apply wrap_id. Qed.

(** *** Fields *)

Lemma render_fields_snoc a f : render_fields (a ++ [f]) =
  match a with [] => render_field f | _ => render_fields a ++ [chr ","; c_nl] ++ render_field f end.
Proof. unfold render_fields. rewrite map_app. cbn [map]. rewrite join_snoc. by destruct a. Qed.

Lemma render_fields_le a b : (length (render_fields a) <= length (render_fields (a ++ b)))%nat.
Proof. unfold render_fields. rewrite map_app. apply join_app_le. Qed.

Lemma render_field_length k v :
  length (render_field (k, v)) = (length k + 3 + length (render v))%nat.
Proof. unfold render_field, quoted. cbn [fst snd]. rewrite length_app. cbn [length]. rewrite length_app. cbn. lia. Qed.

Lemma render_fields_zero a : Z.of_nat (length (render_fields a)) = 0 <-> a = [].
Proof.
  split; [|by intros ->]. destruct a as [|[k v] a _] using rev_ind; [done|]. rewrite render_fields_snoc.
  destruct a; rewrite ?length_app, render_field_length; lia.
Qed.

(** The bytes of one field from the place its separator starts. *)
Lemma copy_field_spec v c tag m0 p a m :
  compose_ok v -> arrays_fit v = true ->
  wrote m0 p (render_fields a) m ->
  let k := c :: tag in
  let a' := a ++ [(k, norm v)] in
  Z.of_nat (length (render_fields a')) < 2 ^ 32 ->
  exists m', copy_field CopyTo p k v m (Z.of_nat (length (render_fields a))) =
      (m', Z.of_nat (length (render_fields a'))) /\
    wrote m0 p (render_fields a') m' /\
    len_field jv_GetLength k v (Z.of_nat (length (render_fields a))) = Z.of_nat (length (render_fields a')).
Proof.
  intros Hv Hfit Hw k a' Hlen. unfold a' in *. rewrite render_fields_snoc in *.
  set (n := Z.of_nat (length (render_fields a))) in *.
  pose proof (own_text_le (norm v)) as Hle.
  (* the separator *)
  assert (Hsep : exists m1 n1 lead,
    (if negb (n =? 0) then let len := u32 (n + 2) in (store 2 m (p + len - 2) 0x0a2c, len) else (m, n)) = (m1, n1) /\
    (if negb (n =? 0) then u32 (n + 2) else n) = n1 /\
    match a with [] => render_field (k, norm v) | _ => render_fields a ++ [chr ","; c_nl] ++ render_field (k, norm v) end =
      lead ++ render_field (k, norm v) /\ n1 = Z.of_nat (length lead) /\ wrote m0 p lead m1).
  { destruct (decide (a = [])) as [->|Hne].
    - exists m, 0, []. repeat split; done.
    - assert (Hn : n <> 0) by (intros E; by apply Hne, render_fields_zero).
      rewrite (proj2 (Z.eqb_neq n 0)) by done. cbn [negb].
      assert (Hb : Z.of_nat (length (render_fields a ++ [chr ","; c_nl] ++ render_field (k, norm v))) < 2 ^ 32)
        by (by destruct a).
      rewrite !length_app in Hb. cbn [length] in Hb.
      rewrite u32_small by (unfold n; lia). cbn zeta.
      exists (store 2 m (p + (n + 2) - 2) 0x0a2c), (n + 2), (render_fields a ++ [chr ","; c_nl]).
      repeat split; [by destruct a; rewrite <- ?app_assoc|rewrite length_app; cbn [length]; unfold n; lia|].
      apply (wrote_text m0 p (render_fields a) m); [done|unfold n; lia]. }
  destruct Hsep as (m1 & n1 & lead & E1 & E1' & Et & En & Hw1). rewrite Et in *. clear Et.
  rewrite length_app, render_field_length in Hlen |- *.
  assert (Hown : Z.of_nat (length (own_text (norm v))) < 2 ^ 32) by lia.
  destruct (Hv Hfit Hown) as [HL HC]. unfold copy_field, len_field, k. cbn zeta in E1. rewrite E1, E1', HL.
  fold k. set (l := Z.of_nat (length k)) in *. cbn zeta.
  rewrite (u32_small (n1 + (l + 3))) by lia.
  assert (Hr : render_field (k, norm v) = (([c_quot] ++ k) ++ [c_quot; chr ":"]) ++ render (norm v)).
  { unfold render_field, quoted. cbn [fst snd app]. by rewrite <- !app_assoc. }
  assert (Hw2 : wrote m0 p (lead ++ ([c_quot] ++ k) ++ [c_quot; chr ":"])
    (mset (mset (mstore (mset m1 (p + n1) c_quot) (p + n1 + 1) k) (p + n1 + 1 + l) c_quot) (p + n1 + 2 + l) (chr ":"))).
  { change [c_quot; chr ":"] with ([c_quot] ++ [chr ":"]). rewrite !app_assoc.
    apply wrote_snoc; [apply wrote_snoc; [apply wrote_text; [apply wrote_snoc|]|]|];
      try done; rewrite ?length_app; cbn [length]; lia. }
  set (m2 := mset _ (p + n1 + 2 + l) _) in *.
  rewrite render_own, is_string_norm in Hr, Hlen |- *. destruct (is_string v).
  - destruct (HC (mset m2 (p + n1 + 3 + l) c_quot) (p + n1 + 3 + l + 1)) as (m3 & -> & Hw3).
    eexists. split; [f_equal|split].
    + unfold quoted in *. cbn [length] in *. rewrite length_app in *. cbn [length] in *.
      rewrite u32_small by lia. lia.
    + rewrite Hr. unfold quoted. set (pre := ([c_quot] ++ k) ++ [c_quot; chr ":"]) in *.
      assert (Hpre : Z.of_nat (length pre) = l + 3) by (unfold pre; rewrite !length_app; cbn [length]; lia).
      change (c_quot :: own_text (norm v) ++ [c_quot]) with ([c_quot] ++ own_text (norm v) ++ [c_quot]).
      rewrite !app_assoc. apply wrote_snoc.
      * apply (wrote_app m0 p ((lead ++ pre) ++ [c_quot]) (mset m2 (p + n1 + 3 + l) c_quot) (p + n1 + 3 + l + 1));
          [apply wrote_snoc; [exact Hw2|]| |exact Hw3]; rewrite ?length_app; cbn [length]; lia.
      * rewrite !length_app. cbn [length]. lia.
    + unfold quoted in *. cbn [length] in *. rewrite length_app in *. cbn [length] in *.
      rewrite u32_small by lia. lia.
  - destruct (HC m2 (p + n1 + 3 + l)) as (m3 & -> & Hw3).
    eexists. split; [f_equal|split].
    + rewrite u32_small by lia. lia.
    + rewrite Hr, app_assoc. apply (wrote_app m0 p _ m2 (p + n1 + 3 + l)); [done| |exact Hw3].
      rewrite !length_app. cbn [length]. lia.
    + rewrite Z.add_0_r, u32_small by lia. lia.
Qed.

Lemma copy_fields_spec fs : forall m0 p a m,
  Forall (fun f => compose_ok (snd f)) fs -> forallb (fun f => arrays_fit (snd f)) fs = true ->
  wrote m0 p (render_fields a) m ->
  let a' := a ++ norm_fields fs in
  Z.of_nat (length (render_fields a')) < 2 ^ 32 ->
  exists m', copy_fields CopyTo p fs m (Z.of_nat (length (render_fields a))) =
      (m', Z.of_nat (length (render_fields a'))) /\
    wrote m0 p (render_fields a') m' /\
    len_fields jv_GetLength fs (Z.of_nat (length (render_fields a))) = Z.of_nat (length (render_fields a')).
Proof.
  induction fs as [|[tag v] fs IH]; intros m0 p a m Hok Hfit Hw a' Hlen.
  - unfold a'. cbn [norm_fields]. rewrite app_nil_r. by exists m.
  - apply Forall_cons in Hok as [Hv Hok]. cbn [forallb snd] in *. apply andb_true_iff in Hfit as [Hfv Hfit].
    cbn [copy_fields len_fields norm_fields] in *. unfold a' in *. destruct tag as [|c tag].
    + cbn [copy_field len_field]. by apply IH.
    + change (a ++ (c :: tag, norm v) :: norm_fields fs)
        with (a ++ [(c :: tag, norm v)] ++ norm_fields fs) in *. rewrite app_assoc in *.
      pose proof (render_fields_le (a ++ [(c :: tag, norm v)]) (norm_fields fs)) as Hle.
      destruct (copy_field_spec v c tag m0 p a m Hv Hfv Hw ltac:(lia)) as (m1 & E1 & Hw1 & E2).
      cbn zeta in *. rewrite E1, E2. by apply IH.
Qed.

(** *** Items *)

Lemma render_items_snoc a v : render_items (a ++ [v]) =
  match a with [] => render v | _ => render_items a ++ [chr ","] ++ render v end.
Proof. unfold render_items. rewrite map_app. cbn [map]. rewrite join_snoc. by destruct a. Qed.

Lemma render_items_le a b : (length (render_items a) <= length (render_items (a ++ b)))%nat.
Proof. unfold render_items. rewrite map_app. apply join_app_le. Qed.

Lemma sf_add_char_fits buf c : Z.of_nat (length buf) < JA_LEN -> sf_add_char buf c = buf ++ [c].
Proof. intros. unfold sf_add_char. by rewrite (proj2 (Z.leb_le _ _)) by lia. Qed.

Lemma sf_add_fits buf t : Z.of_nat (length (buf ++ t)) + 1 < JA_LEN -> sf_add buf t = buf ++ t.
Proof. rewrite length_app. intros. unfold sf_add. by rewrite (proj2 (Z.ltb_lt _ _)) by lia. Qed.

Lemma item_text_spec v : compose_ok v -> arrays_fit v = true ->
  Z.of_nat (length (own_text (norm v))) < 2 ^ 32 -> item_text CopyTo v = own_text (norm v).
Proof.
  intros Hv Hf Hl. destruct (Hv Hf Hl) as [_ HC]. destruct (HC (fun _ => 0) 0) as (m & E & Hw).
  unfold item_text. rewrite E, Nat2Z.id. exact (wrote_holds _ _ _ _ Hw).
Qed.

Lemma ja_Append_spec a v :
  (a = [] \/ (0 < length (render_items a))%nat) ->
  Z.of_nat (length (render_items (a ++ [norm v]))) + 2 < JA_LEN ->
  ja_Append (chr "[" :: render_items a) (own_text (norm v)) (is_string v) =
  chr "[" :: render_items (a ++ [norm v]).
Proof.
  intros Ha Hlen. unfold ja_Append. rewrite render_items_snoc in *.
  assert (Hlead : exists lead,
    (if negb (Nat.eqb (length (chr "[" :: render_items a)) 1)
     then sf_add_char (chr "[" :: render_items a) (chr ",") else chr "[" :: render_items a) = chr "[" :: lead /\
    match a with [] => render (norm v) | _ => render_items a ++ [chr ","] ++ render (norm v) end =
      lead ++ render (norm v)).
  { destruct (decide (a = [])) as [->|Hne].
    - by exists [].
    - destruct Ha as [?|Ha]; [done|]. exists (render_items a ++ [chr ","]).
      cbn [length]. rewrite (proj2 (Nat.eqb_neq _ 1)) by lia. cbn [negb].
      assert (Hb : Z.of_nat (length (render_items a ++ [chr ","] ++ render (norm v))) + 2 < JA_LEN) by (by destruct a).
      rewrite !length_app in Hb. rewrite sf_add_char_fits by (cbn [length]; lia). split; [done|].
      destruct a; [done|]. by rewrite <- app_assoc. }
  destruct Hlead as (lead & -> & Et). rewrite Et in *. clear Et. rewrite length_app in Hlen.
  rewrite render_own, is_string_norm in *. destruct (is_string v).
  - unfold quoted in *. cbn [length] in Hlen. rewrite length_app in Hlen. cbn [length] in Hlen.
    rewrite (sf_add_char_fits (chr "[" :: lead)) by (cbn [length]; lia).
    rewrite sf_add_fits by (rewrite !length_app; cbn [length]; lia).
    rewrite sf_add_char_fits by (rewrite !length_app; cbn [length]; lia).
    cbn [app]. by rewrite <- !app_assoc.
  - by rewrite sf_add_fits by (rewrite length_app; cbn [length]; lia).
Qed.

Lemma ja_items_spec l : forall a, (a = [] \/ (0 < length (render_items a))%nat) ->
  Forall compose_ok l -> forallb arrays_fit l = true ->
  Z.of_nat (length (render_items (a ++ map norm l))) + 2 < JA_LEN ->
  ja_items CopyTo (chr "[" :: render_items a) l = chr "[" :: render_items (a ++ map norm l).
Proof.
  induction l as [|v l IH]; intros a Ha Hok Hfit Hlen; cbn [ja_items map] in *.
  - by rewrite app_nil_r.
  - apply Forall_cons in Hok as [Hv Hok]. cbn [forallb] in Hfit. apply andb_true_iff in Hfit as [Hfv Hfit].
    change (a ++ norm v :: map norm l) with (a ++ [norm v] ++ map norm l) in *. rewrite app_assoc in *.
    pose proof (render_items_le (a ++ [norm v]) (map norm l)) as Hle.
    assert (Hown : (length (own_text (norm v)) <= length (render_items (a ++ [norm v])))%nat).
    { rewrite render_items_snoc. pose proof (own_text_le (norm v)). destruct a; [done|]. rewrite !length_app. lia. }
    unfold JA_LEN in *. rewrite item_text_spec by (done || lia).
    rewrite ja_Append_spec by (done || (unfold JA_LEN; lia)).
    apply IH; try done. right. rewrite render_items_snoc. pose proof (render_norm_pos v).
    destruct a; [done|]. rewrite !length_app. lia.
Qed.

(** *** Values *)

Lemma compose_all v : compose_ok v.
Proof.
  induction v as [t|s|b|l IH|fs IH] using jv_ind; intros Hfit Hlen.
  - cbn [norm own_text render CopyTo jv_GetLength] in *. rewrite u32_small by lia.
    split; [done|]. intros m p. eexists. split; [done|apply wrote_mstore].
  - cbn [norm own_text render CopyTo jv_GetLength] in *. rewrite u32_small by lia.
    split; [done|]. intros m p. eexists. split; [done|apply wrote_mstore].
  - cbn [norm own_text CopyTo jv_GetLength] in *. cbn [render] in *. cbn [length] in *.
    rewrite length_app in *. cbn [length] in *. rewrite length_app in *. cbn [length] in *.
    rewrite (u32_small (Z.of_nat (length b))) by lia.
    rewrite itoa_text_of_decimal by lia. set (d := decimal (Z.of_nat (length b))) in *.
    rewrite u32_small by lia. split; [lia|]. intros m p. eexists. split; [f_equal; lia|].
    change (chr "<" :: d ++ chr "/" :: b ++ [chr ">"]) with ([chr "<"] ++ d ++ [chr "/"] ++ b ++ [chr ">"]).
    rewrite !app_assoc.
    apply wrote_snoc; [apply wrote_text; [apply wrote_snoc; [apply wrote_text; [apply wrote_mset|]|]|]|];
      rewrite ?length_app; cbn [length]; lia.
  - cbn [arrays_fit] in Hfit. apply andb_true_iff in Hfit as [Hsz Hfit]. apply Z.ltb_lt in Hsz.
    cbn [norm own_text] in *. cbn [render] in *. fold (render_items (map norm l)) in *.
    cbn [length] in *. rewrite length_app in *. cbn [length] in *.
    assert (E : ja_items CopyTo [chr "["] l = chr "[" :: render_items (map norm l)).
    { apply (ja_items_spec l []); [by left|done|done|]. cbn [app]. unfold JA_LEN in *. lia. }
    cbn [jv_GetLength CopyTo]. rewrite E. cbn [length]. rewrite u32_small by lia.
    split; [lia|]. intros m p. eexists. split; [f_equal; lia|].
    change (chr "[" :: render_items (map norm l) ++ [chr "]"])
      with ((chr "[" :: render_items (map norm l)) ++ [chr "]"]).
    apply wrote_snoc; [apply wrote_mstore|]. cbn [length]. lia.
  - cbn [arrays_fit] in Hfit. rewrite norm_obj in *. cbn [own_text] in *.
    destruct (decide (norm_fields fs = [])) as [En|En].
    + assert (Hz : Z.of_nat (length (render_fields ([] ++ norm_fields fs))) < 2 ^ 32) by (rewrite En; cbn; lia).
      rewrite En in Hlen |- *. cbn [render length] in *. split.
      * destruct (copy_fields_spec fs (fun _ => 0) 0 [] (fun _ => 0) IH Hfit (wrote_nil _ _) Hz)
          as (m1 & _ & _ & E2). cbn [jv_GetLength]. rewrite En in E2.
        change (Z.of_nat (length (render_fields []))) with 0 in E2. cbn [app] in E2. by rewrite E2.
      * intros m p. cbn [CopyTo].
        destruct (copy_fields_spec fs (store 2 m p 0x0a7b) (p + 2) [] (store 2 m p 0x0a7b) IH Hfit
          (wrote_nil _ _) Hz) as (m1 & E1 & Hw1 & _). rewrite En in E1, Hw1.
        change (Z.of_nat (length (render_fields []))) with 0 in E1. cbn [app] in E1, Hw1. rewrite E1.
        change (Z.of_nat (length (render_fields []))) with 0. cbn [Z.eqb negb].
        eexists. split; [done|]. intros a. unfold mset at 1. rewrite (Hw1 a).
        cbn [render_fields map join mstore]. unfold store. cbn [le_bytes mstore].
        replace (p + 2 - 1) with (p + 1) by lia. unfold mset. by destruct (a =? p + 1).
    + rewrite render_obj in * by done. set (T := render_fields (norm_fields fs)) in *.
      cbn [length] in Hlen |- *. rewrite !length_app in Hlen |- *. cbn [length] in Hlen |- *.
      rewrite !length_app in Hlen |- *. cbn [length] in Hlen |- *.
      assert (HT : 0 < Z.of_nat (length T)).
      { assert (Z.of_nat (length T) <> 0); [|lia]. intros E. by apply En, render_fields_zero. }
      assert (Hz : Z.of_nat (length (render_fields ([] ++ norm_fields fs))) < 2 ^ 32) by (cbn [app]; fold T; lia).
      split.
      * destruct (copy_fields_spec fs (fun _ => 0) 0 [] (fun _ => 0) IH Hfit (wrote_nil _ _) Hz)
          as (m1 & _ & _ & E2). cbn [jv_GetLength app] in *. fold T in E2.
        change (Z.of_nat (length (render_fields []))) with 0 in E2. rewrite E2.
        rewrite (proj2 (Z.eqb_neq _ 0)) by lia. cbn [negb]. rewrite u32_small by lia. lia.
      * intros m p. cbn [CopyTo].
        destruct (copy_fields_spec fs (store 2 m p 0x0a7b) (p + 2) [] (store 2 m p 0x0a7b) IH Hfit
          (wrote_nil _ _) Hz) as (m1 & E1 & Hw1 & _). cbn [app] in *. fold T in E1, Hw1.
        change (Z.of_nat (length (render_fields []))) with 0 in E1. rewrite E1.
        rewrite (proj2 (Z.eqb_neq _ 0)) by lia. cbn [negb]. rewrite u32_small by lia.
        eexists. split; [f_equal; lia|].
        replace (chr "{" :: c_nl :: (T ++ [c_nl]) ++ [chr "}"])
          with (([chr "{"; c_nl] ++ T) ++ [c_nl; chr "}"]) by (cbn [app]; by rewrite <- ?app_assoc).
        change (store 2 m1 (p + 2 + Z.of_nat (length T)) 0x7d0a)
          with (mstore m1 (p + 2 + Z.of_nat (length T)) [c_nl; chr "}"]).
        refine (wrote_text m p _ m1 _ _ _ _).
        -- apply (wrote_app m p [chr "{"; c_nl] (store 2 m p 0x0a7b) (p + 2)); [|done|exact Hw1].
           intros a. done.
        -- rewrite length_app. cbn [length]. lia.
Qed.

(** ** Properties *)

(** Composing a value - [CopyTo] over the whole [_JVar] chain, nested
    objects, arrays and binaries - writes exactly the reference text of the
    value with its nameless fields dropped, returns its length, the length
    [GetLength] announced for the buffer, and touches no other byte. *)
Theorem CopyTo_exact v m p :
  arrays_fit v = true -> Z.of_nat (length (own_text (norm v))) < 2 ^ 32 ->
  let t := own_text (norm v) in
  let '(m', n) := CopyTo v m p in
  n = jv_GetLength v /\ n = Z.of_nat (length t) /\ holds m' p t /\
  forall a, a < p \/ p + n <= a -> m' a = m a.
Proof.
  intros Hf Hl t. destruct (compose_all v Hf Hl) as [HL HC]. destruct (HC m p) as (m' & -> & Hw).
  fold t in HL, Hw |- *. rewrite HL. repeat split; [by eapply wrote_holds|].
  intros a Ha. rewrite Hw. by apply mstore_out.
Qed.

Definition compose_sample : jv :=
  JObj [(str "name", JString (str "a,b}")); ([], JText (str "9"));
        (str "xs", JArr [JText (str "1"); JObj [(str "k", JText (str "true")); ([], JBinary [1])]; JString []]);
        (str "bin", JBinary [0; 34; 125; 255]); (str "none", JText []); (str "ghost", JObj [([], JText [])])].

Lemma CopyTo_exact_witness :
  let v := compose_sample in
  let t := own_text (norm v) in
  let '(m', n) := CopyTo v (fun _ => 0) 64 in
  n = jv_GetLength v /\ n = Z.of_nat (length t) /\ holds m' 64 t /\
  forall a, a < 64 \/ 64 + n <= a -> m' a = 0.
Proof. apply (CopyTo_exact compose_sample (fun _ => 0) 64); vm_compute; reflexivity. Defined.

(** C3: what the composer writes for an object, the parser reads back: the
    iteration over the written bytes yields the fields that have a name, once
    each and in order, and every path of names and indices finds the value it
    leads to in the composed value, or the default when it leads nowhere (nothing is
    said of a name looked up in what is no object but an array or one of its items).
    This holds for values whose text, names and strings are in the parser's syntax
    ([jv_ok]: texts without white space, marks, commas and brackets, strings escaped)
    under three more conditions: no binary is empty (it is written as [<0/>], which is
    not read back), none is the last item of an array, and the text of every array is
    shorter than the 1024 characters of its buffer ([arrays_fit]); the document is
    shorter than [2^32]. *)
Theorem compose_then_parse fs m p m' n fuel q path d :
  let v := JObj fs in
  let doc := mkRef p (p + n) in
  let xpath := mkRef q (q + Z.of_nat (length (path_text path))) in
  CopyTo v m p = (m', n) -> 0 < p -> 0 < q -> arrays_fit v = true ->
  jv_ok (norm v) = true -> bytes (render (norm v)) -> Z.of_nat (length (render (norm v))) < 2 ^ 32 ->
  (length (norm_fields fs) < fuel)%nat ->
  holds m' q (path_text path) -> path_ok path -> (sc m' (q - 1) =? chr "[") = false ->
  Forall2 (shows m') (all_pairs fuel m' doc empty_kvp) (norm_fields fs) /\
  IsEmptyObject m' doc = (match norm_fields fs with [] => true | _ => false end) /\
  match jget (norm v) path with
  | PFound w => text m' (GetValue m' doc xpath d false) = cooked w
  | PMissing => GetValue m' doc xpath d false = d
  | PAny => True
  end.
Proof.
  intros v doc xpath E Hp Hq Hf Hok Hb Hl Hfu Hhq Hpath Hbr.
  destruct (compose_all v Hf Hl) as [_ HC]. destruct (HC m p) as (m1 & E1 & Hw).
  rewrite E1 in E. injection E as <- <-. pose proof (wrote_holds _ _ _ _ Hw) as Hh.
  change (own_text (norm v)) with (render (norm v)) in *.
  destruct (pairs_of_object m1 p (norm_fields fs) fuel Hp Hok Hb Hh Hfu) as [H1 H2].
  split; [exact H1|]. split; [exact H2|].
  assert (Hv : exists fs', norm v = JObj fs') by by eexists.
  pose proof (path_value m1 p (norm v) q path d Hp Hq Hv Hok Hb Hh Hhq Hpath Hbr) as H.
  destruct (jget (norm v) path) as [w| |]; try done. by destruct H as (r & <- & ? & _).
Qed.

Lemma compose_then_parse_witness :
  let fs := match compose_sample with JObj fs => fs | _ => [] end in
  let path := [PKey (str "xs"); PIdx 1; PKey (str "k")] in
  let m := mstore (fun _ => 0) 900 (path_text path) in
  let v := JObj fs in
  let m' := fst (CopyTo v m 64) in
  let n := snd (CopyTo v m 64) in
  let doc := mkRef 64 (64 + n) in
  let xpath := mkRef 900 (900 + Z.of_nat (length (path_text path))) in
  Forall2 (shows m') (all_pairs 9 m' doc empty_kvp) (norm_fields fs) /\
  IsEmptyObject m' doc = (match norm_fields fs with [] => true | _ => false end) /\
  match jget (norm v) path with
  | PFound w => text m' (GetValue m' doc xpath null_ref false) = cooked w
  | PMissing => GetValue m' doc xpath null_ref false = null_ref
  | PAny => True
  end.
Proof.
  intros fs path m v m' n. apply (compose_then_parse fs m 64 m' n 9 900 path null_ref).
  - apply surjective_pairing.
  - lia.
  - lia.
  - reflexivity.
  - reflexivity.
  - vm_compute. repeat constructor; discriminate.
  - reflexivity.
  - cbn. lia.
  - vm_compute. reflexivity.
  - split; [|split; [cbn; lia|exact I]].
    repeat constructor; try (vm_compute; discriminate); try (cbn; lia).
  - vm_compute. reflexivity.
Defined.

(** An item that does not fit the array's buffer is dropped without a sign:
    here the array is written empty. *)
Example array_item_dropped :
  let v := JArr [JText (repeat (chr "7") 1023)] in
  let '(m, n) := CopyTo v (fun _ => 0) 0 in
  mem_bytes m 0 (Z.to_nat n) = str "[]".
Proof. vm_compute. reflexivity. Qed.
