(* ===== verification/JsonEscape.v ===== *)
(** Escaping and unescaping of JSON strings (rt/json.cpp): what
    [JsonEscapeString] writes, what [UnescapeStringValue] reads, that one
    undoes the other, and the way of a text through composer and parser. *)
From S2P Require Import Prelude Str Utf8 JsonLex JsonDoc JsonCompose.

(** ** Definitions *)

Definition CharacterSet_Escape : cset :=
  CharacterSet_map [8; 12; 13; 10; 9; 11; c_apos; c_quot; c_bslash]
    (str "bfrntv" ++ [c_apos; c_quot; c_bslash]).

(** One turn of the escaping loop, for the character [c]. *)
Definition je_char (c : Z) (m : mem) (p open : Z) : mem * Z :=
  if negb (c =? 0) then
    if negb (Has CharacterSet_Escape c) then (mset m (p + open) (u8 c), s32 (open + 1))
    else
      let m := mset m (p + open) c_bslash in
      let open := s32 (open + 1) in
      (mset m (p + open) (u8 (Mapped CharacterSet_Escape c)), s32 (open + 1))
  else (store 4 m (p + open) 0x3030785c, s32 (open + 4)).

(** [n] characters left from [s]. *)
Fixpoint je_loop (n : nat) (m : mem) (s p open : Z) : mem * Z :=
  match n with
  | O => (m, open)
  | S k => let '(m, open) := je_char (sc m s) m p open in je_loop k m (s + 1) p open
  end.

(** [JsonEscapeString]: [p] is the block the first [SetLength] allocates, of
    [max 16 (2n + 3)] bytes, [p2] the one the last [SetLength] moves to when
    the text outgrew the first.  With [add_quote] the opening mark is stored
    through the null pointer of the empty string: no result. *)
Definition JsonEscapeString (m : mem) (c_string : ref) (p p2 : Z) (add_quote : bool)
  : option (mem * ref) :=
  if add_quote then None else
  let n := GetLength c_string in
  let m := mset m (p + (n * 2 + 2)) 0 in
  let '(m, open) := je_loop (Z.to_nat n) m (rb c_string) p 0 in
  if open =? 0 then Some (mset m p 0, mkRef p p)
  else if open + 1 <=? Z.max 16 (n * 2 + 3) then Some (mset m (p + open) 0, mkRef p (p + open))
  else
    let m := mstore m p2 (mem_bytes m p (Z.to_nat (n * 2 + 3))) in
    Some (mset m (p2 + open) 0, mkRef p2 (p2 + open)).

(** The character maps of [UnescapeStringValue]. *)
Definition unesc_map : cset := CharacterSet_map (str "bfrntv") [8; 12; 13; 10; 9; 11].
Definition unesc_hex : cset :=
  CharacterSet_map (str "0123456789abcdefABCDEF")
    [1; 2; 3; 4; 5; 6; 7; 8; 9; 10; 11; 12; 13; 14; 15; 16; 11; 12; 13; 14; 15; 16].
Definition hexv (m : mem) (s : Z) : Z := Mapped unesc_hex (sc m s) - 1.

(** The stores for a code unit: a char, a DWORD or a WORD. *)
Definition unesc_unit (c : Z) (m : mem) (p : Z) : mem * Z :=
  if c <=? 0x7f then (mset m p (u8 c), p + 1)
  else if 0x7ff <? c then
    (store 4 m p (0x8080e0 .| ((c .>> 12) .& 0xf) .| ((c .<< 2) .& 0x3f00)
                  .| ((0x3f .& c) .<< 16)), p + 3)
  else
    (store 2 m p (0x80c0 .| ((c .>> 6) .& 0x1f) .| ((0x3f .& c) .<< 8)), p + 2).

(** One turn of the unescaping loop: the memory, the new [s] and the new [p]. *)
Definition unesc_step (m : mem) (s p e : Z) : mem * Z * Z :=
  if sc m s =? c_bslash then
    if (sc m (s + 1) =? chr "u") && (s + 5 <? e) then
      let s := s + 2 in
      let c := (hexv m s .<< 12) + (hexv m (s + 1) .<< 8) + (hexv m (s + 2) .<< 4) + hexv m (s + 3) in
      let '(m, p) := unesc_unit c m p in
      (m, s + 4, p)
    else if (sc m (s + 1) =? chr "x") && (s + 3 <? e) then
      let s := s + 2 in
      (mset m p (u8 ((hexv m s .<< 4) + hexv m (s + 1))), s + 2, p + 1)
    else (mset m p (u8 (Mapped unesc_map (sc m (s + 1)))), s + 2, p + 1)
  else (mset m p (m s), s + 1, p + 1).

Fixpoint unesc_loop (fuel : nat) (m : mem) (s p e : Z) : option (mem * Z) :=
  if s <? e - 1 then
    match fuel with
    | O => None
    | S f => let '(m, s, p) := unesc_step m s p e in unesc_loop f m s p e
    end
  else if s <? e then Some (mset m p (m s), p + 1)
  else Some (m, p).

(** [val_out]: [p] is the block [SetLength(n)] leaves, [out_len] the [_len] the
    string had before; every turn consumes a character. *)
Definition UnescapeStringValue (m : mem) (r : ref) (p out_len : Z) : option (mem * ref) :=
  if IsEmpty r then Some (if 1 <? out_len then mset m p 0 else m, mkRef p p)
  else
    let n := GetLength r in
    let m := mset m (p + n) 0 in
    match unesc_loop (Z.to_nat n) m (rb r) p (re r) with
    | None => None
    | Some (m, p') => Some (m, mkRef p p')
    end.

(** [JsonObject::GetValueUnescaped] *)
Definition GetValueUnescaped (m : mem) (doc xpath default_val : ref) (bDoNotSplitDot : bool)
    (p out_len : Z) : option (mem * ref) :=
  UnescapeStringValue m (GetValue m doc xpath default_val bDoNotSplitDot) p out_len.

(** ** The escaped form *)

(** A character's escaped form, and a text's. *)
Definition escape_char (c : Z) : list Z :=
  if c =? 0 then c_bslash :: str "x00"
  else if c =? 8 then c_bslash :: str "b"
  else if c =? 9 then c_bslash :: str "t"
  else if c =? 10 then c_bslash :: str "n"
  else if c =? 11 then c_bslash :: str "v"
  else if c =? 12 then c_bslash :: str "f"
  else if c =? 13 then c_bslash :: str "r"
  else if (c =? c_quot) || (c =? c_apos) || (c =? c_bslash) then [c_bslash; c]
  else [c].

Definition escape (l : list Z) : list Z := concat (map escape_char l).

Lemma escape_cons c l : escape (c :: l) = escape_char c ++ escape l.
Proof. reflexivity. Qed.

Lemma escape_char_length c : (1 <= length (escape_char c) <= 4)%nat.
Proof. unfold escape_char. repeat case_match; cbn; lia. Qed.

Lemma length_escape_ge l : (length l <= length (escape l))%nat.
Proof.
  induction l as [|c l IH]; [done|]. rewrite escape_cons, length_app. pose proof (escape_char_length c). cbn. lia.
Qed.

(** The characters that are NUL. *)
Definition nuls (l : list Z) : Z := Z.of_nat (length (List.filter (Z.eqb 0) l)).
(** Four characters for a NUL: twice the length, and two more for each. *)
Lemma length_escape_nuls l : Z.of_nat (length (escape l)) <= 2 * Z.of_nat (length l) + 2 * nuls l.
Proof.
  unfold nuls. induction l as [|c l IH]; [done|]. rewrite escape_cons, length_app. cbn [length List.filter].
  pose proof (escape_char_length c) as Hc. destruct (Z.eqb_spec 0 c) as [E|N]; cbn [length]; [lia|].
  assert ((length (escape_char c) <= 2)%nat); [|lia].
  unfold escape_char. rewrite (proj2 (Z.eqb_neq c 0)) by done. repeat case_match; cbn; lia.
Qed.

Lemma escape_body c l : str_body c_quot (escape_char c ++ l) = str_body c_quot l.
Proof.
  unfold escape_char. repeat case_match; bool_prop; try reflexivity.
  cbn [app str_body]. by rewrite (proj2 (Z.eqb_neq c c_bslash)), (proj2 (Z.eqb_neq c c_quot)) by done.
Qed.

Lemma escape_str_body l : str_body c_quot (escape l) = true.
Proof. induction l as [|c l IH]; [done|]. by rewrite escape_cons, escape_body. Qed.

Lemma escape_bytes l : bytes l -> bytes (escape l).
Proof.
  induction 1 as [|c l Hc Hl IH]; [constructor|]. rewrite escape_cons. apply Forall_app. split; [|done].
  unfold escape_char. repeat case_match; try (repeat constructor; discriminate);
    repeat constructor; try discriminate; apply Hc.
Qed.

(** The code's table gives that form. *)
Lemma je_table : forallb (fun c =>
  zlist_eqb (escape_char c)
    (if s8 c =? 0 then le_bytes 4 0x3030785c
     else if negb (Has CharacterSet_Escape (s8 c)) then [u8 (s8 c)]
     else [c_bslash; u8 (Mapped CharacterSet_Escape (s8 c))])) (seqZ 0 256) = true.
Proof. vm_compute. reflexivity. Qed.

Lemma je_char_spec c m p open : is_byte c -> 0 <= open -> open + 4 < 2 ^ 31 ->
  exists m', je_char (s8 c) m p open = (m', open + Z.of_nat (length (escape_char c))) /\
    wrote m (p + open) (escape_char c) m'.
Proof.
  intros Hc Ho Ho4. pose proof (byte_forall _ je_table c Hc) as E. cbn beta in E. apply zlist_eqb_eq in E.
  rewrite E. unfold je_char. destruct (s8 c =? 0); cbn [negb].
  { eexists. rewrite s32_small by (cbn; lia). split; [done|]. apply wrote_mstore. }
  destruct (Has CharacterSet_Escape (s8 c)); cbn [negb length].
  - rewrite !s32_small by (rewrite ?s32_small; lia). eexists. split; [f_equal; lia|].
    apply (wrote_snoc m (p + open) [c_bslash] (mset m (p + open) c_bslash)); [apply wrote_mset|cbn; lia].
  - rewrite s32_small by lia. eexists. split; [f_equal; lia|]. apply wrote_mset.
Qed.

Lemma je_loop_spec l : forall m s p open,
  bytes l -> holds m s l -> 0 <= open -> open + Z.of_nat (length (escape l)) + 4 < 2 ^ 31 ->
  (s + Z.of_nat (length l) <= p \/ p + open + Z.of_nat (length (escape l)) <= s) ->
  exists m', je_loop (length l) m s p open = (m', open + Z.of_nat (length (escape l))) /\
    wrote m (p + open) (escape l) m'.
Proof.
  induction l as [|c l IH]; intros m s p open Hb Hh Ho Hmax Hd; cbn [je_loop length].
  - exists m. split; [f_equal; cbn; lia|apply wrote_nil].
  - inversion_clear Hb as [|? ? Hc Hb']. rewrite (sc_holds _ _ _ _ Hh).
    apply holds_cons_inv in Hh as [_ Hh]. rewrite escape_cons in *. rewrite length_app in *. cbn [length] in Hd.
    pose proof (escape_char_length c). pose proof (length_escape_ge l).
    destruct (je_char_spec c m p open Hc Ho ltac:(lia)) as (m1 & -> & Hw1).
    destruct (IH m1 (s + 1) p (open + Z.of_nat (length (escape_char c)))) as (m2 & -> & Hw2); try done; try lia.
    { apply (holds_out m); [done|]. intros a Ha. apply (wrote_out _ _ _ _ _ Hw1). lia. }
    exists m2. split; [f_equal; lia|]. refine (wrote_app _ _ _ m1 _ _ _ Hw1 _ Hw2). lia.
Qed.

(** ** Units of an escaped text *)

(** A plain character, a backslash before a character, [\xhh] and [\uhhhh]. *)
Inductive unit :=
| UChar (c : Z)
| UEsc (c : Z)
| UHex (a b : Z)
| UUni (a b c d : Z).

Definition unit_src (u : unit) : list Z :=
  match u with
  | UChar c => [c]
  | UEsc c => [c_bslash; c]
  | UHex a b => [c_bslash; chr "x"; a; b]
  | UUni a b c d => [c_bslash; chr "u"; a; b; c; d]
  end.

Definition hex_val (c : Z) : Z :=
  if (chr "0" <=? c) && (c <=? chr "9") then c - chr "0"
  else if (chr "a" <=? c) && (c <=? chr "f") then c - chr "a" + 10 else c - chr "A" + 10.
Definition hex_ok (c : Z) : bool :=
  ((chr "0" <=? c) && (c <=? chr "9")) || ((chr "a" <=? c) && (c <=? chr "f")) ||
  ((chr "A" <=? c) && (c <=? chr "F")).

(** What a letter after a backslash stands for. *)
Definition esc_val (c : Z) : Z :=
  if c =? chr "b" then 8 else if c =? chr "f" then 12 else if c =? chr "r" then 13
  else if c =? chr "n" then 10 else if c =? chr "t" then 9 else if c =? chr "v" then 11 else c.

Definition unit_val (u : unit) : list Z :=
  match u with
  | UChar c => [c]
  | UEsc c => [esc_val c]
  | UHex a b => [16 * hex_val a + hex_val b]
  | UUni a b c d => utf8_bytes (4096 * hex_val a + 256 * hex_val b + 16 * hex_val c + hex_val d)
  end.

Definition unit_ok (u : unit) : Prop :=
  match u with
  | UChar c => is_byte c /\ c <> c_bslash
  | UEsc c => is_byte c /\ c <> chr "u" /\ c <> chr "x"
  | UHex a b => hex_ok a = true /\ hex_ok b = true
  | UUni a b c d => hex_ok a = true /\ hex_ok b = true /\ hex_ok c = true /\ hex_ok d = true
  end.

Definition units_src (l : list unit) : list Z := concat (map unit_src l).
Definition units_val (l : list unit) : list Z := concat (map unit_val l).

Lemma units_src_cons u l : units_src (u :: l) = unit_src u ++ units_src l.
Proof. reflexivity. Qed.

Lemma units_val_cons u l : units_val (u :: l) = unit_val u ++ units_val l.
Proof. reflexivity. Qed.

Lemma unit_src_pos u : (0 < length (unit_src u))%nat.
Proof. destruct u; cbn; lia. Qed.

Lemma hex_ok_byte c : hex_ok c = true -> is_byte c /\ 0 <= hex_val c < 16.
Proof.
  intros H. unfold hex_ok in H.
  assert (Hb : is_byte c).
  { apply orb_true_iff in H as [H|H]; [apply orb_true_iff in H as [H|H]|]; bool_prop;
      unfold chr in *; cbn in *; split; lia. }
  split; [done|].
  assert (E : forallb (fun c => negb (hex_ok c) || ((0 <=? hex_val c) && (hex_val c <? 16))) (seqZ 0 256) = true)
    by (vm_compute; reflexivity).
  pose proof (byte_forall _ E c Hb) as HB. cbn beta in HB. fold (hex_ok c) in H.
  rewrite H in HB. cbn [negb orb] in HB. bool_prop. lia.
Qed.

Lemma hexv_spec m s c l : hex_ok c = true -> holds m s (c :: l) -> hexv m s = hex_val c.
Proof.
  intros H Hh. unfold hexv. rewrite (sc_holds _ _ _ _ Hh).
  assert (E : forallb (fun c => negb (hex_ok c) || (Mapped unesc_hex (s8 c) - 1 =? hex_val c)) (seqZ 0 256) = true)
    by (vm_compute; reflexivity).
  pose proof (byte_forall _ E c (proj1 (hex_ok_byte c H))) as HB. cbn beta in HB. rewrite H in HB. cbn [negb orb] in HB. by bool_prop.
Qed.

Lemma unesc_map_spec c : is_byte c -> u8 (Mapped unesc_map (s8 c)) = esc_val c.
Proof.
  intros H.
  assert (E : forallb (fun c => u8 (Mapped unesc_map (s8 c)) =? esc_val c) (seqZ 0 256) = true)
    by (vm_compute; reflexivity).
  pose proof (byte_forall _ E c H) as HB. cbn beta in HB. by bool_prop.
Qed.

Lemma unesc_unit_spec c m p : in_width 16 c ->
  unesc_unit c m p = (mstore m p (utf8_bytes c ++ unit_spill c), p + Z.of_nat (length (utf8_bytes c))).
Proof.
  intros Hc. rewrite <- (enc_unit_spec c m p Hc). unfold unesc_unit, enc_unit.
  destruct (Z.leb_spec c 0x7f); [|done]. rewrite u8_id; [done|]. destruct Hc. split; lia.
Qed.

(** One turn over a unit: its bytes are stored, with what a DWORD store spills
    staying inside the room the unit took. *)
Lemma unesc_step_unit u rest m s p e : unit_ok u ->
  holds m s (unit_src u ++ rest) -> e = s + Z.of_nat (length (unit_src u ++ rest)) ->
  exists spill, unesc_step m s p e =
      (mstore m p (unit_val u ++ spill), s + Z.of_nat (length (unit_src u)), p + Z.of_nat (length (unit_val u))) /\
    (length (unit_val u ++ spill) <= length (unit_src u))%nat.
Proof.
  intros Hok Hh He. rewrite length_app in He. unfold unesc_step. destruct u as [c|c|a b|a b c d];
    cbn [unit_src unit_val unit_ok app length] in *; rewrite (sc_holds _ _ _ _ Hh).
  - destruct Hok as [Hc Hne]. rewrite s8_eqb by (done || unfold c_bslash; lia).
    rewrite (proj2 (Z.eqb_neq _ _)) by done. exists []. split; [|cbn; lia].
    apply holds_cons_inv in Hh as [-> _]. done.
  - destruct Hok as (Hc & Hu & Hx). change (s8 c_bslash =? c_bslash) with true. cbn iota.
    apply holds_cons_inv in Hh as [_ Hh]. rewrite (sc_holds _ _ _ _ Hh).
    rewrite !s8_eqb by (done || (cbn; lia)). rewrite !(proj2 (Z.eqb_neq _ _)) by done. cbn [andb].
    rewrite unesc_map_spec by done. exists []. split; [done|cbn; lia].
  - destruct Hok as (Ha & Hb). change (s8 c_bslash =? c_bslash) with true. cbn iota.
    apply holds_cons_inv in Hh as [_ Hh]. rewrite (sc_holds _ _ _ _ Hh).
    apply holds_cons_inv in Hh as [_ Hh]. replace (s + 1 + 1) with (s + 2) in Hh by lia.
    change (s8 (chr "x") =? chr "u") with false. change (s8 (chr "x") =? chr "x") with true.
    rewrite (proj2 (Z.ltb_lt (s + 3) e)) by lia. cbn [andb].
    rewrite (hexv_spec _ _ _ _ Ha Hh). apply holds_cons_inv in Hh as [_ Hh]. rewrite (hexv_spec _ _ _ _ Hb Hh).
    apply hex_ok_byte in Ha as [_ Ha], Hb as [_ Hb]. rewrite shl_mul by lia.
    rewrite u8_id by (split; lia). exists []. split; [|cbn; lia]. cbn [app length mstore].
    do 2 f_equal; [|lia]. f_equal. lia.
  - destruct Hok as (Ha & Hb & Hc & Hd). change (s8 c_bslash =? c_bslash) with true. cbn iota.
    apply holds_cons_inv in Hh as [_ Hh]. rewrite (sc_holds _ _ _ _ Hh).
    apply holds_cons_inv in Hh as [_ Hh]. replace (s + 1 + 1) with (s + 2) in Hh by lia.
    change (s8 (chr "u") =? chr "u") with true.
    rewrite (proj2 (Z.ltb_lt (s + 5) e)) by lia. cbn [andb].
    rewrite (hexv_spec _ _ _ _ Ha Hh). apply holds_cons_inv in Hh as [_ Hh]. rewrite (hexv_spec _ _ _ _ Hb Hh).
    apply holds_cons_inv in Hh as [_ Hh]. replace (s + 2 + 1 + 1) with (s + 2 + 2) in Hh by lia.
    rewrite (hexv_spec _ _ _ _ Hc Hh). apply holds_cons_inv in Hh as [_ Hh].
    replace (s + 2 + 2 + 1) with (s + 2 + 3) in Hh by lia. rewrite (hexv_spec _ _ _ _ Hd Hh).
    apply hex_ok_byte in Ha as [_ Ha], Hb as [_ Hb], Hc as [_ Hc], Hd as [_ Hd]. rewrite !shl_mul by lia.
    replace (hex_val a * 2 ^ 12 + hex_val b * 2 ^ 8 + hex_val c * 2 ^ 4 + hex_val d)
      with (4096 * hex_val a + 256 * hex_val b + 16 * hex_val c + hex_val d) by lia.
    set (x := 4096 * hex_val a + _ + _ + _). rewrite unesc_unit_spec by (unfold x; split; lia).
    exists (unit_spill x). split; [do 2 f_equal; lia|]. rewrite length_app.
    unfold unit_spill. pose proof (utf8_bytes_length x). case_match; cbn; lia.
Qed.

(** The whole loop with its last character. *)
Lemma unesc_loop_spec l : forall fuel m s p e,
  Forall unit_ok l -> holds m s (units_src l) ->
  e = s + Z.of_nat (length (units_src l)) -> (length (units_src l) <= fuel)%nat ->
  (p + Z.of_nat (length (units_src l)) <= s \/ e <= p) ->
  exists m', unesc_loop fuel m s p e = Some (m', p + Z.of_nat (length (units_val l))) /\
    holds m' p (units_val l) /\ (length (units_val l) <= length (units_src l))%nat /\
    forall a, a < p \/ p + Z.of_nat (length (units_src l)) <= a -> m' a = m a.
Proof.
  induction l as [|u l IH]; intros fuel m s p e Hok Hh He Hf Hd.
  - exists m. cbn [units_src map concat length] in *.
    destruct fuel; cbn [unesc_loop]; rewrite (proj2 (Z.ltb_ge s (e - 1))), (proj2 (Z.ltb_ge s e)) by lia;
      (split; [do 2 f_equal; cbn; lia|]); repeat split; cbn; lia.
  - inversion_clear Hok as [|? ? Hu Hok']. rewrite units_src_cons in *. rewrite units_val_cons.
    pose proof (unit_src_pos u) as Hp0. pose proof Hh as Hh0. rewrite length_app in Hd, Hf.
    destruct (decide (s < e - 1)) as [Hlt|Hge].
    + destruct fuel as [|fuel]; [lia|]. cbn [unesc_loop]. rewrite (proj2 (Z.ltb_lt _ _)) by done.
      destruct (unesc_step_unit u (units_src l) m s p e Hu Hh He) as (sp & -> & Hle).
      apply holds_app in Hh as [Hh1 Hh2]. rewrite length_app in He, Hle.
      set (w := unit_val u ++ sp). set (m1 := mstore m p w).
      assert (Hw : length w = (length (unit_val u) + length sp)%nat) by apply length_app.
      destruct (IH fuel m1 (s + Z.of_nat (length (unit_src u))) (p + Z.of_nat (length (unit_val u))) e)
        as (m' & -> & Hv & Hvl & Hfr); try done; try lia.
      { apply (holds_out m); [done|]. intros a Ha. apply mstore_out. lia. }
      rewrite !length_app. exists m'. split; [do 2 f_equal; lia|]. split; [|split; [lia|]].
      * apply holds_join; [|done]. apply (holds_out m1); [|intros a Ha; apply Hfr; lia].
        unfold m1, w. exact (proj1 (holds_app _ _ _ _ (holds_mstore _ _ _))).
      * intros a Ha. rewrite Hfr by lia. apply mstore_out. lia.
    + assert (units_src l = [] /\ exists c, u = UChar c) as [El [c ->]].
      { rewrite length_app in He. split; [apply nil_length_inv; lia|].
        destruct u as [c|c|a b|a b c d]; cbn [unit_src length] in *; [by exists c|lia..]. }
      assert (l = []) as ->.
      { destruct l as [|u2 l]; [done|]. rewrite units_src_cons in El. pose proof (unit_src_pos u2).
        apply (f_equal length) in El. rewrite length_app in El. cbn in El. lia. }
      cbn [unit_src unit_val units_src units_val map concat app length] in *.
      assert (E : unesc_loop fuel m s p e = Some (mset m p (m s), p + 1)).
      { destruct fuel; cbn [unesc_loop]; rewrite (proj2 (Z.ltb_ge s (e - 1))), (proj2 (Z.ltb_lt s e)) by lia; done. }
      apply holds_cons_inv in Hh as [Ec _]. rewrite E, Ec. eexists. split; [done|].
      split; [|split; [lia|]].
      * unfold holds. cbn [length mem_bytes]. by rewrite mset_eq.
      * intros a Ha. apply mset_ne. lia.
Qed.

(** ** An escaped text as units *)

Definition char_unit (c : Z) : unit :=
  match escape_char c with
  | [_; e] => UEsc e
  | [_; _; a; b] => UHex a b
  | _ => UChar c
  end.

Lemma char_unit_spec c : is_byte c ->
  unit_src (char_unit c) = escape_char c /\ unit_val (char_unit c) = [c] /\ unit_ok (char_unit c).
Proof.
  intros Hc. unfold char_unit, escape_char.
  repeat (match goal with |- context [if ?a =? ?b then _ else _] => destruct (Z.eqb_spec a b) as [->|?] end;
    [repeat split; done || (cbn; discriminate)|]).
  destruct ((c =? c_quot) || (c =? c_apos) || (c =? c_bslash)) eqn:E.
  - apply orb_true_iff in E as [E|E]; [apply orb_true_iff in E as [E|E]|]; apply Z.eqb_eq in E; subst c;
      repeat split; done || (cbn; discriminate).
  - bool_prop. repeat split; done || apply Hc.
Qed.

Lemma escape_units l : bytes l ->
  units_src (map char_unit l) = escape l /\ units_val (map char_unit l) = l /\
  Forall unit_ok (map char_unit l).
Proof.
  induction 1 as [|c l Hc Hl IH]; [repeat split; constructor|]. cbn [map].
  rewrite units_src_cons, units_val_cons, escape_cons.
  destruct (char_unit_spec c Hc) as (-> & -> & ?), IH as (-> & -> & ?). repeat split. by constructor.
Qed.

(** Unescaping a text of units into a block of its own. *)
Lemma unescape_units l m a p out_len : Forall unit_ok l -> holds m a (units_src l) -> 0 < a ->
  let r := mkRef a (a + Z.of_nat (length (units_src l))) in
  (p + Z.of_nat (length (units_src l)) < a \/ re r <= p) ->
  exists m', UnescapeStringValue m r p out_len = Some (m', mkRef p (p + Z.of_nat (length (units_val l)))) /\
    text m' (mkRef p (p + Z.of_nat (length (units_val l)))) = units_val l /\
    (length (units_val l) <= length (units_src l))%nat /\
    forall x, x < p \/ p + Z.of_nat (length (units_src l)) < x -> m' x = m x.
Proof.
  intros Hok Hh Ha r Hd. unfold UnescapeStringValue, IsEmpty, r in *. cbn [rb re] in *.
  rewrite (proj2 (Z.eqb_neq a 0)) by lia. cbn [orb].
  destruct (Z.eqb_spec (a + Z.of_nat (length (units_src l))) a) as [E|E].
  - assert (l = []) as ->.
    { destruct l as [|u l]; [done|]. rewrite units_src_cons, length_app in E. pose proof (unit_src_pos u). lia. }
    cbn [units_val units_src map concat length]. eexists.
    split; [do 2 f_equal; f_equal; cbn; lia|]. split; [|split; [lia|]].
    + apply text_holds; [done|]. done.
    + intros x Hx. destruct (1 <? out_len); [|done]. apply mset_ne. lia.
  - unfold GetLength. cbn [rb re]. replace (a + Z.of_nat (length (units_src l)) - a)
      with (Z.of_nat (length (units_src l))) by lia. rewrite Nat2Z.id.
    destruct (unesc_loop_spec l (length (units_src l)) (mset m (p + Z.of_nat (length (units_src l))) 0) a p
      (a + Z.of_nat (length (units_src l)))) as (m' & -> & Hv & Hl & Hfr); try done; try lia.
    { apply (holds_out m); [done|]. intros x Hx. apply mset_ne. lia. }
    exists m'. split; [done|]. split; [by apply text_holds|]. split; [done|].
    intros x Hx. rewrite Hfr by lia. apply mset_ne. lia.
Qed.

(** ** Properties *)

Lemma JsonEscapeString_writes l m a p p2 :
  bytes l -> holds m a l -> nuls l <= 1 -> Z.of_nat (length l) < 2 ^ 29 ->
  (a + Z.of_nat (length l) <= p \/ p + 2 * Z.of_nat (length l) + 3 <= a) ->
  exists m', JsonEscapeString m (mkRef a (a + Z.of_nat (length l))) p p2 false =
      Some (m', mkRef p (p + Z.of_nat (length (escape l)))) /\
    holds m' p (escape l ++ [0]) /\
    (forall x, x < p \/ p + 2 * Z.of_nat (length l) + 3 <= x -> m' x = m x).
Proof.
  intros Hb Hh Hnul Hmax Hd. pose proof (length_escape_nuls l) as Hfit. unfold JsonEscapeString, GetLength. cbn [rb re].
  replace (a + Z.of_nat (length l) - a) with (Z.of_nat (length l)) by lia. rewrite Nat2Z.id.
  set (n := Z.of_nat (length l)) in *. set (m0 := mset m (p + (n * 2 + 2)) 0).
  destruct (je_loop_spec l m0 a p 0) as (m1 & -> & Hw); try done; try lia.
  { apply (holds_out m); [done|]. intros x Hx. apply mset_ne. lia. }
  assert (E : exists m', (if 0 + Z.of_nat (length (escape l)) =? 0 then Some (mset m1 p 0, mkRef p p)
    else if 0 + Z.of_nat (length (escape l)) + 1 <=? Z.max 16 (n * 2 + 3)
      then Some (mset m1 (p + (0 + Z.of_nat (length (escape l)))) 0, mkRef p (p + (0 + Z.of_nat (length (escape l)))))
      else Some (mset (mstore m1 p2 (mem_bytes m1 p (Z.to_nat (n * 2 + 3)))) (p2 + (0 + Z.of_nat (length (escape l)))) 0,
        mkRef p2 (p2 + (0 + Z.of_nat (length (escape l)))))) =
    Some (m', mkRef p (p + Z.of_nat (length (escape l)))) /\ wrote m0 (p + 0) (escape l ++ [0]) m').
  { destruct (Z.eqb_spec (0 + Z.of_nat (length (escape l))) 0) as [E0|E0].
    - eexists. split; [do 2 f_equal; f_equal; lia|]. apply (wrote_snoc _ _ _ m1); [done|lia].
    - rewrite (proj2 (Z.leb_le _ _)) by lia. eexists. split; [do 2 f_equal; lia|].
      apply (wrote_snoc _ _ _ m1); [done|lia]. }
  destruct E as (m' & -> & Hw'). rewrite Z.add_0_r in Hw'. exists m'. split; [done|].
  split; [by eapply wrote_holds|].
  intros x Hx. rewrite (wrote_out _ _ _ _ _ Hw') by (rewrite length_app; cbn [length]; lia).
  apply mset_ne. lia.
Qed.

(** C27: [JsonEscapeString] of any text of bytes with at most one NUL, shorter than
    [2^29] and not overlapping the block, never leaves the [2n + 3] bytes it sets
    aside: it writes there the escaped form, which is at most two characters longer
    than twice the text, and its terminator, and no byte outside; spliced between
    quotation marks the result is a well-formed string of the parser's syntax.  (A NUL
    takes four characters; with more of them the block is overrun,
    [escape_nul_overruns].) *)
Theorem JsonEscapeString_exact l m a p p2 :
  bytes l -> holds m a l -> nuls l <= 1 -> Z.of_nat (length l) < 2 ^ 29 ->
  (a + Z.of_nat (length l) <= p \/ p + 2 * Z.of_nat (length l) + 3 <= a) ->
  exists m', JsonEscapeString m (mkRef a (a + Z.of_nat (length l))) p p2 false =
      Some (m', mkRef p (p + Z.of_nat (length (escape l)))) /\
    holds m' p (escape l ++ [0]) /\
    Z.of_nat (length (escape l)) <= 2 * Z.of_nat (length l) + 2 * nuls l /\
    (forall x, x < p \/ p + 2 * Z.of_nat (length l) + 3 <= x -> m' x = m x) /\
    str_body c_quot (escape l) = true /\ bytes (escape l).
Proof.
  intros Hb Hh Hn Hmax Hd. destruct (JsonEscapeString_writes l m a p p2 Hb Hh Hn Hmax Hd) as (m' & E & Hw & Hout). exists m'.
  split; [done|]. split; [done|]. split; [apply length_escape_nuls|]. split; [done|]. split; [apply escape_str_body|by apply escape_bytes].
Qed.

Definition escape_sample : list Z := [72; 9; 34; 92; 39; 128; 0; 10; 255].

Lemma JsonEscapeString_exact_witness :
  let l := escape_sample in
  let m := mem_of 0 8 l in
  exists m', JsonEscapeString m (mkRef 8 (8 + Z.of_nat (length l))) 64 0 false =
      Some (m', mkRef 64 (64 + Z.of_nat (length (escape l)))) /\
    holds m' 64 (escape l ++ [0]) /\
    Z.of_nat (length (escape l)) <= 2 * Z.of_nat (length l) + 2 * nuls l /\
    (forall x, x < 64 \/ 64 + 2 * Z.of_nat (length l) + 3 <= x -> m' x = m x) /\
    str_body c_quot (escape l) = true /\ bytes (escape l).
Proof.
  intros l m. apply (JsonEscapeString_exact l m 8 64 0).
  - repeat constructor; discriminate.
  - vm_compute. reflexivity.
  - vm_compute. discriminate.
  - reflexivity.
  - left. cbn. lia.
Defined.

(** [UnescapeStringValue] decodes every well-formed escaped text - plain
    characters, single-letter escapes, [\xhh] and [\uhhhh] in any order - to the
    bytes it stands for, a code unit as its UTF-8 bytes; the result is never
    longer than the input and no byte outside the [n + 1] of the output block
    is touched, the wide stores included. *)
Theorem UnescapeStringValue_exact us m a p out_len :
  let src := units_src us in
  let r := mkRef a (a + Z.of_nat (length src)) in
  Forall unit_ok us -> holds m a src -> 0 < a ->
  (p + Z.of_nat (length src) < a \/ a + Z.of_nat (length src) <= p) ->
  exists m' out, UnescapeStringValue m r p out_len = Some (m', out) /\ rb out = p /\
    text m' out = units_val us /\ GetLength out = Z.of_nat (length (units_val us)) /\
    (length (units_val us) <= length src)%nat /\
    forall x, x < p \/ p + Z.of_nat (length src) < x -> m' x = m x.
Proof.
  intros src r Hok Hh Ha Hd. destruct (unescape_units us m a p out_len Hok Hh Ha Hd) as (m' & E & Ht & Hl & Hfr).
  exists m', (mkRef p (p + Z.of_nat (length (units_val us)))).
  repeat split; try done. unfold GetLength. cbn. lia.
Qed.

Lemma UnescapeStringValue_exact_witness :
  let us := [UChar 65; UEsc (chr "n"); UUni (chr "2") (chr "0") (chr "A") (chr "c"); UHex (chr "f") (chr "F"); UEsc 34;
             UUni (chr "0") (chr "0") (chr "e") (chr "9")] in
  let src := units_src us in
  let m := mem_of 0 8 src in
  units_val us = [65; 10; 0xe2; 0x82; 0xac; 255; 34; 0xc3; 0xa9] /\
  exists m' out, UnescapeStringValue m (mkRef 8 (8 + Z.of_nat (length src))) 64 0 = Some (m', out) /\ rb out = 64 /\
    text m' out = units_val us /\ GetLength out = Z.of_nat (length (units_val us)) /\
    (length (units_val us) <= length src)%nat /\
    forall x, x < 64 \/ 64 + Z.of_nat (length src) < x -> m' x = m x.
Proof.
  intros us src m. split; [reflexivity|]. apply (UnescapeStringValue_exact us m 8 64 0).
  - repeat constructor; discriminate.
  - vm_compute. reflexivity.
  - lia.
  - right. vm_compute. discriminate.
Defined.

(** C26: a text of bytes survives the whole way: what [JsonEscapeString] makes of it,
    composed as a string member of a document, found again by any path that leads to
    it and unescaped by [GetValueUnescaped], is the text it was, byte for byte,
    quotation marks, backslashes and a NUL included.  The conditions: at most one NUL
    and fewer than [2^29] bytes in the text (what [JsonEscapeString] has room for); and
    of the document those under which the composer is read back - no empty binary
    anywhere, none at the end of an array, the text of each array shorter than the
    1024 characters of its buffer ([jv_ok], [arrays_fit]) - and a length below
    [2^32]. *)
Theorem escape_compose_parse_unescape l m0 a b p2 m1 r0 v m p m' n q path d o out_len :
  let doc := mkRef p (p + n) in
  let xpath := mkRef q (q + Z.of_nat (length (path_text path))) in
  bytes l -> holds m0 a l -> nuls l <= 1 -> Z.of_nat (length l) < 2 ^ 29 ->
  (a + Z.of_nat (length l) <= b \/ b + 2 * Z.of_nat (length l) + 3 <= a) ->
  JsonEscapeString m0 (mkRef a (a + Z.of_nat (length l))) b p2 false = Some (m1, r0) ->
  CopyTo v m p = (m', n) -> (exists fs, v = JObj fs) -> arrays_fit v = true ->
  jv_ok (norm v) = true -> bytes (render (norm v)) -> Z.of_nat (length (render (norm v))) < 2 ^ 32 ->
  jget (norm v) path = PFound (JString (text m1 r0)) ->
  0 < p -> 0 < q -> holds m' q (path_text path) -> path_ok path -> (sc m' (q - 1) =? chr "[") = false ->
  p + n <= o ->
  exists m2 r, GetValueUnescaped m' doc xpath d false o out_len = Some (m2, r) /\ text m2 r = l.
Proof.
  intros doc xpath Hb Hhl Hnul Hmax Hdis Ee E [fs Ev] Hf Hok Hbv Hlv Hget Hp Hq Hhq Hpath Hbr Ho.
  destruct (JsonEscapeString_writes l m0 a b p2 Hb Hhl Hnul Hmax Hdis) as (m1' & Ee' & Hw1 & _).
  rewrite Ee' in Ee. injection Ee as <- <-. apply holds_app in Hw1 as [Hw1 _].
  rewrite (text_holds m1' _ (escape l)) in Hget; [|cbn [rb re]; lia|exact Hw1].
  assert (Eo : own_text (norm v) = render (norm v)) by (subst v; done).
  destruct (compose_all v Hf ltac:(by rewrite Eo)) as [_ HC]. destruct (HC m p) as (m2 & E1 & Hw).
  rewrite E1 in E. injection E as <- <-. rewrite Eo in *. pose proof (wrote_holds _ _ _ _ Hw) as Hh.
  assert (Hv : exists fs', norm v = JObj fs') by (subst v; by eexists).
  pose proof (path_value m2 p (norm v) q path d Hp Hq Hv Hok Hbv Hh Hhq Hpath Hbr) as H. rewrite Hget in H.
  destruct H as (r & Er & _ & Hr & Ha & He1 & He2).
  unfold GetValueUnescaped, doc, xpath. rewrite ?Eo, Er. destruct (escape_units l Hb) as (Es & Evl & Hu).
  destruct r as [c e]. cbn [rb re cooked] in *.
  destruct (unescape_units (map char_unit l) m2 c o out_len Hu) as (m3 & E2 & Ht & _); rewrite ?Es.
  - done.
  - lia.
  - right. cbn. lia.
  - rewrite Es, <- He1 in E2. exists m3. eexists. split; [exact E2|]. by rewrite Ht.
Qed.

Definition trip_text : list Z := [72; 105; 32; 34; 123; 92; 39; 125; 10; 0; 200].
Definition trip_doc : jv :=
  JObj [(str "n", JText (str "1"));
        (str "o", JObj [(str "xs", JArr [JText []; JString (escape trip_text)]); ([], JString (str "x"))])].

Lemma escape_compose_parse_unescape_witness :
  let l := trip_text in
  let v := trip_doc in
  let esc := JsonEscapeString (mem_of 0 8 l) (mkRef 8 (8 + Z.of_nat (length l))) 64 0 false in
  let path := [PKey (str "o"); PKey (str "xs"); PIdx 1] in
  let m := mstore (fun _ => 0) 900 (path_text path) in
  let m' := fst (CopyTo v m 64) in
  let n := snd (CopyTo v m 64) in
  let doc := mkRef 64 (64 + n) in
  let xpath := mkRef 900 (900 + Z.of_nat (length (path_text path))) in
  exists m1 r0, esc = Some (m1, r0) /\ jget (norm v) path = PFound (JString (text m1 r0)) /\
  exists m2 r, GetValueUnescaped m' doc xpath null_ref false 1000 0 = Some (m2, r) /\ text m2 r = l.
Proof.
  intros l v esc path m m' n doc xpath. destruct esc as [[m1 r0]|] eqn:E; [|exfalso; vm_compute in E; discriminate E].
  assert (Hg : jget (norm v) path = PFound (JString (text m1 r0))).
  { assert (X : option_map (fun x => text (fst x) (snd x)) esc = Some (escape trip_text)) by (vm_compute; reflexivity).
    rewrite E in X. injection X as X. cbn [fst snd] in X. rewrite X. reflexivity. }
  exists m1, r0. split; [reflexivity|]. split; [exact Hg|].
  apply (escape_compose_parse_unescape l (mem_of 0 8 l) 8 64 0 m1 r0 v m 64 m' n 900 path null_ref 1000 0).
  - repeat constructor; discriminate.
  - vm_compute. reflexivity.
  - vm_compute. discriminate.
  - reflexivity.
  - left. cbn. lia.
  - exact E.
  - apply surjective_pairing.
  - eexists. reflexivity.
  - reflexivity.
  - reflexivity.
  - vm_compute. repeat constructor; discriminate.
  - reflexivity.
  - exact Hg.
  - lia.
  - lia.
  - vm_compute. reflexivity.
  - split; [|split; [cbn; lia|exact I]].
    repeat constructor; try (vm_compute; discriminate); try (cbn; lia).
  - vm_compute. reflexivity.
  - vm_compute. discriminate.
Defined.

(** A NUL takes four characters of the [2n + 2] set aside: for twenty of them
    the block is 43 bytes, the 44th is written, and more. *)
Example escape_nul_overruns :
  let m := mem_of 0 8 (repeat 0 20) in
  match JsonEscapeString m (mkRef 8 28) 64 256 false with
  | Some (m', r) => m' 107 =? chr "0"
  | None => false
  end = true.
Proof. vm_compute. reflexivity. Qed.

(** The unescaped text is not terminated: the character after it is what the
    block held before. *)
Example unescape_unterminated :
  let m := mem_of 7 8 [c_bslash; chr "n"; chr "x"] in
  match UnescapeStringValue m (mkRef 8 11) 64 0 with
  | Some (m', r) => (text m' r, m' (re r))
  | None => ([], 0)
  end = ([10; chr "x"], 7).
Proof. vm_compute. reflexivity. Qed.
