(* ===== verification/Ring.v ===== *)
(** [rt::CircularBuffer] (rt/buffer_type.h): variable-sized blocks laid out in
    a byte ring, each with its header, refine a first-in first-out queue of
    byte strings. *)
From S2P Require Import Prelude.

(** ** Definitions *)

(** [_BlockHeader]: three words; the payload follows. *)
Definition HEADER : Z := 24.
Definition INFINITE : Z := 0xffffffff.

(** [Buffer] is the allocated block, its addresses relative to [_Buffer];
    [pLastBlock] is an offset, [None] for the null pointer. *)
Record CircularBuffer := mkCB {
  Buffer : mem;
  BufferSize : Z;
  Back : Z;
  NewBlock : Z;
  pLastBlock : option Z
}.

Definition cb_Next (m : mem) (p : Z) : Z := load 8 m p.
Definition cb_PayloadSize (m : mem) (p : Z) : Z := load 8 m (p + 8).
Definition cb_PayloadLength (m : mem) (p : Z) : Z := load 8 m (p + 16).

(** [SetSize]; [raw] is what the allocated memory holds. *)
Definition cb_SetSize (raw : mem) (sz : Z) : CircularBuffer := mkCB raw sz 0 0 None.

(** [_EnlargeTo32AL] *)
Definition EnlargeTo32AL (num : Z) : Z := u64 (num + 7) .& (2 ^ 64 - 1 - 7).

(** The block goes where the first tests put it: at [NewBlock], or at the
    start; [None] is the null pointer, otherwise the payload's offset. *)
Definition cb_Push (s : CircularBuffer) (size_max : Z) : CircularBuffer * option Z :=
  let size_max := EnlargeTo32AL size_max in
  let block_size := u64 (size_max + HEADER) in
  let place :=
    if ((u64 (block_size + NewBlock s) <? BufferSize s) && (Back s <=? NewBlock s)) ||
       ((u64 (block_size + NewBlock s) <? Back s) && (NewBlock s <? Back s))
    then Some (NewBlock s, u64 (NewBlock s + block_size))
    else if (Back s <=? NewBlock s) && (block_size <? Back s) then Some (0, block_size)
    else None in
  match place with
  | None => (s, None)
  | Some (p, new_block) =>
    let m := store 8 (Buffer s) (p + 8) size_max in
    let m := store 8 m p INFINITE in
    let m := store 8 m (p + 16) 0 in
    let m := match pLastBlock s with Some last => store 8 m last p | None => m end in
    (mkCB m (BufferSize s) (Back s) new_block (Some p), Some (p + HEADER))
  end.

Definition cb_Pop (s : CircularBuffer) : CircularBuffer :=
  if negb (Back s =? NewBlock s) then
    let p := Back s in
    if (match pLastBlock s with Some last => p =? last | None => false end)
    then mkCB (Buffer s) (BufferSize s) 0 0 None
    else mkCB (Buffer s) (BufferSize s) (cb_Next (Buffer s) p) (NewBlock s) (pLastBlock s)
  else s.

Definition cb_SetBlockSize (s : CircularBuffer) (pushed finalized : Z) : CircularBuffer :=
  let block := pushed - HEADER in
  mkCB (store 8 (Buffer s) (block + 16) finalized) (BufferSize s) (Back s) (NewBlock s) (pLastBlock s).

(** [Peek]: the offset of a [Block], that is of the oldest block's
    [PayloadLength] field, which [Block::Length] overlays. *)
Definition cb_Peek (s : CircularBuffer) : option Z :=
  if negb (Back s =? NewBlock s) then
    let p := Back s + HEADER - 8 in
    if 0 <? load 8 (Buffer s) p then Some p else None
  else None.

(** The producer's own writes through the pointer [Push] returned. *)
Definition cb_write (s : CircularBuffer) (pushed : Z) (data : list Z) : CircularBuffer :=
  mkCB (mstore (Buffer s) pushed data) (BufferSize s) (Back s) (NewBlock s) (pLastBlock s).

(** ** The queue the ring implements *)

(** A block: the payload pointer handed out, its capacity, and the bytes the
    producer finalised, none at first. *)
Record blk := mkBlk { b_ptr : Z; b_cap : Z; b_data : list Z }.

(** Every way to use the buffer: the ring and the queue, step by step.  Blocks
    may be filled in any order and more than once before they are popped. *)
Inductive reach (raw : mem) (sz : Z) : CircularBuffer -> list blk -> Prop :=
| reach_init : reach raw sz (cb_SetSize raw sz) []
| reach_push s q n s' p : reach raw sz s q -> 0 <= n < 2 ^ 62 -> cb_Push s n = (s', Some p) ->
    reach raw sz s' (q ++ [mkBlk p (EnlargeTo32AL n) []])
| reach_refused s q n s' : reach raw sz s q -> 0 <= n < 2 ^ 62 -> cb_Push s n = (s', None) ->
    reach raw sz s' q
| reach_fill s q1 b q2 data : reach raw sz s (q1 ++ b :: q2) ->
    Z.of_nat (length data) <= b_cap b ->
    reach raw sz (cb_SetBlockSize (cb_write s (b_ptr b) data) (b_ptr b) (Z.of_nat (length data)))
      (q1 ++ mkBlk (b_ptr b) (b_cap b) data :: q2)
| reach_pop s q : reach raw sz s q -> reach raw sz (cb_Pop s) (tl q).

(** ** Layout *)

(** A block's first byte, and the byte after it. *)
Definition b_off (b : blk) : Z := b_ptr b - HEADER.
Definition b_end (b : blk) : Z := b_ptr b + b_cap b.

(** The blocks [l] lie one after the other from [a] to [e]. *)
Fixpoint contig (a : Z) (l : list blk) (e : Z) : Prop :=
  match l with
  | [] => a = e
  | b :: t => b_off b = a /\ 0 <= b_cap b /\ contig (b_end b) t e
  end.

(** What a block's memory says, the link apart. *)
Definition blk_ok (m : mem) (b : blk) : Prop :=
  cb_PayloadSize m (b_off b) = b_cap b /\
  cb_PayloadLength m (b_off b) = Z.of_nat (length (b_data b)) /\
  holds m (b_ptr b) (b_data b) /\ Z.of_nat (length (b_data b)) <= b_cap b < 2 ^ 63.

(** Each block's [Next] is the next block. *)
Fixpoint linked (m : mem) (l : list blk) : Prop :=
  match l with
  | b :: ((c :: _) as t) => cb_Next m (b_off b) = b_off c /\ linked m t
  | _ => True
  end.

(** One run of blocks from [Back], or a run up to the end of the buffer and
    one from its start. *)
Inductive layout (s : CircularBuffer) : list blk -> Prop :=
| lay_empty : Back s = 0 -> NewBlock s = 0 -> pLastBlock s = None -> layout s []
| lay_flat q b : pLastBlock s = Some (b_off b) -> contig (Back s) (q ++ [b]) (NewBlock s) ->
    0 <= Back s -> NewBlock s < BufferSize s -> layout s (q ++ [b])
| lay_wrapped l q b e : l <> [] -> pLastBlock s = Some (b_off b) -> contig (Back s) l e ->
    contig 0 (q ++ [b]) (NewBlock s) -> NewBlock s < Back s -> e < BufferSize s ->
    layout s (l ++ q ++ [b]).

Definition rep (s : CircularBuffer) (q : list blk) : Prop :=
  layout s q /\ Forall (blk_ok (Buffer s)) q /\ linked (Buffer s) q.

(** ** Facts *)

Lemma EnlargeTo32AL_spec n : 0 <= n < 2 ^ 62 ->
  n <= EnlargeTo32AL n < n + 8 /\ EnlargeTo32AL n mod 8 = 0.
Proof.
  intros Hn. unfold EnlargeTo32AL, u64, wrap. rewrite (Z.mod_small (n + 7)) by lia.
  replace ((n + 7) .& (2 ^ 64 - 1 - 7)) with ((n + 7) / 8 * 8); [zlia|].
  replace (2 ^ 64 - 1 - 7) with ((2 ^ 61 - 1) .<< 3) by reflexivity.
  rewrite land_shl, land_mask, shl_mul, shr_div by lia. change (2 ^ 3) with 8.
  rewrite Z.mod_small; [done|zlia].
Qed.

Lemma contig_app l1 l2 : forall a e, contig a (l1 ++ l2) e <-> exists c, contig a l1 c /\ contig c l2 e.
Proof.
  induction l1 as [|b l1 IH]; intros a e; cbn [app contig].
  - split; [intros H; by exists a|intros (c & -> & H); done].
  - rewrite IH. split; [intros (? & ? & d & ? & ?); exists d; auto|intros (d & (? & ? & ?) & ?); eauto].
Qed.

(** The blocks of a run lie inside it, one header each at least. *)
Lemma contig_in l : forall a e, contig a l e ->
  a <= e /\ Forall (fun b => a <= b_off b /\ b_off b + HEADER <= b_end b <= e) l.
Proof.
  induction l as [|b l IH]; intros a e H; cbn [contig] in H; [by subst; split; [lia|constructor]|].
  destruct H as (Ho & Hc & Ht). destruct (IH _ _ Ht) as [Hle Hall]. unfold b_end, b_off, HEADER in *.
  split; [lia|]. constructor; [lia|]. eapply Forall_impl; [exact Hall|]. cbn. intros ?. lia.
Qed.

Lemma contig_pos l a e : contig a l e -> l <> [] -> a + HEADER <= e.
Proof.
  intros H Hne. destruct l as [|b l]; [done|]. destruct (contig_in _ _ _ H) as [_ Hall].
  apply Forall_inv in Hall. lia.
Qed.

Definition all_in (a e : Z) (l : list blk) : Prop :=
  Forall (fun b => a <= b_off b /\ b_off b + HEADER <= b_end b <= e) l.

(** Two memories that agree on the blocks tell the same of them. *)
Lemma blk_ok_agree m m' b : blk_ok m b -> b_off b + HEADER <= b_end b ->
  agree (b_off b + 8) (b_end b) m m' -> blk_ok m' b.
Proof.
  unfold blk_ok, cb_PayloadSize, cb_PayloadLength, b_off, b_end, HEADER. intros (H1 & H2 & H3 & H4) Hle Ha.
  split; [|split; [|split; [|done]]].
  - rewrite <- H1. symmetry. apply load_agree. eapply agree_sub; [exact Ha|lia|lia].
  - rewrite <- H2. symmetry. apply load_agree. eapply agree_sub; [exact Ha|lia|lia].
  - apply (holds_out m); [done|]. intros x Hx. symmetry. apply Ha. lia.
Qed.

Lemma linked_app m l1 b l2 : linked m (l1 ++ b :: l2) <-> linked m (l1 ++ [b]) /\ linked m (b :: l2).
Proof.
  induction l1 as [|c l1 IH]; [cbn [app linked]; tauto|]. cbn [app] in *.
  destruct l1 as [|d l1]; cbn [app linked] in *; [tauto|]. cbn [app] in IH. tauto.
Qed.

Lemma linked_agree m m' l : linked m l ->
  Forall (fun b => agree (b_off b) (b_off b + 8) m m') l -> linked m' l.
Proof.
  induction l as [|b l IH]; [done|]. intros H Ha. apply Forall_cons in Ha as [Hb Ha].
  destruct l as [|c l]; [done|]. cbn [linked] in *. destruct H as [H Ht]. split; [|by apply IH].
  rewrite <- H. symmetry. by apply load_agree.
Qed.

(** ** Separation *)

Definition disj (b c : blk) : Prop := b_end c <= b_off b \/ b_end b <= b_off c.

Fixpoint sep (l : list blk) : Prop :=
  match l with [] => True | b :: t => Forall (disj b) t /\ sep t end.

Lemma disj_sym b c : disj b c -> disj c b.
Proof. unfold disj. lia. Qed.

Lemma sep_app l1 l2 : sep (l1 ++ l2) <-> sep l1 /\ sep l2 /\ Forall (fun b => Forall (disj b) l2) l1.
Proof.
  induction l1 as [|b l1 IH]; cbn [app sep].
  - split; [intros H; repeat split; [done|constructor]|tauto].
  - rewrite Forall_app, Forall_cons, IH. tauto.
Qed.

(** A block of a separated queue and the others. *)
Lemma sep_mid l1 b l2 : sep (l1 ++ b :: l2) -> Forall (disj b) l1 /\ Forall (disj b) l2.
Proof.
  rewrite sep_app. cbn [sep]. intros (_ & [H2 _] & H1). split; [|done].
  eapply Forall_impl; [exact H1|]. cbn. intros c Hc. apply disj_sym. by apply Forall_inv in Hc.
Qed.

Lemma contig_sep l : forall a e, contig a l e -> sep l.
Proof.
  induction l as [|b l IH]; intros a e H; [done|]. cbn [contig sep] in *. destruct H as (_ & _ & H).
  split; [|by eapply IH]. destruct (contig_in _ _ _ H) as [_ Hall].
  eapply Forall_impl; [exact Hall|]. cbn. unfold disj. intros c. lia.
Qed.

Lemma all_in_disj a e a' e' l l' : all_in a e l -> all_in a' e' l' -> e' <= a ->
  Forall (fun b => Forall (disj b) l') l.
Proof.
  intros H H' Hle. eapply Forall_impl; [exact H|]. cbn. intros b Hb.
  eapply Forall_impl; [exact H'|]. cbn. unfold disj. intros c. lia.
Qed.

(** What the layout says of every block: inside the buffer, apart from the
    others, and the pointers tell the first and the last. *)
Lemma layout_in s q : layout s q -> 0 <= BufferSize s -> all_in 0 (BufferSize s) q /\ sep q.
Proof.
  intros H Hs. destruct H as [_ _ _|q b _ Hc H0 Hn|l q b e Hne _ Hc1 Hc2 Hn He].
  - split; [constructor|done].
  - split; [|by eapply contig_sep]. destruct (contig_in _ _ _ Hc) as [_ Hall].
    eapply Forall_impl; [exact Hall|]. cbn. intros ?. lia.
  - destruct (contig_in _ _ _ Hc1) as [Hle1 H1], (contig_in _ _ _ Hc2) as [Hle2 H2]. split.
    + apply Forall_app. split; (eapply Forall_impl; [eassumption|]; cbn; intros ?; lia).
    + apply sep_app. repeat split; [by eapply contig_sep..|]. eapply all_in_disj; [exact H1|exact H2|lia].
Qed.

Lemma layout_nonempty s b q : layout s (b :: q) -> Back s = b_off b /\ Back s <> NewBlock s.
Proof.
  intros H. inversion H as [|q0 b0 _ Hc H0 Hn E|l q0 b0 e Hne _ Hc1 Hc2 Hn He E]; subst.
  - rewrite E in Hc. cbn [contig] in Hc. pose proof (contig_pos (b :: q) (Back s) (NewBlock s)) as Hp.
    cbn [contig] in Hp. unfold HEADER in *. destruct Hc as (? & ? & ?). specialize (Hp ltac:(done) ltac:(done)). lia.
  - destruct l as [|c l]; [done|]. injection E as -> _. cbn [contig] in Hc1. lia.
Qed.

(** ** Filling a block *)

Definition same_shape : list blk -> list blk -> Prop :=
  Forall2 (fun b c => b_ptr b = b_ptr c /\ b_cap b = b_cap c).

Lemma contig_shape q q' : same_shape q q' -> forall a e, contig a q e -> contig a q' e.
Proof.
  induction 1 as [|b c q q' [E1 E2] _ IH]; intros a e; cbn [contig]; [done|].
  unfold b_off, b_end. rewrite E1, E2. intros (? & ? & ?). eauto.
Qed.

Lemma layout_shape s m q q' : layout s q -> same_shape q q' ->
  layout (mkCB m (BufferSize s) (Back s) (NewBlock s) (pLastBlock s)) q'.
Proof.
  intros H Hs. destruct H as [H1 H2 H3|q b Hp Hc H0 Hn|l q b e Hne Hp Hc1 Hc2 Hn He].
  - apply Forall2_nil_inv_l in Hs as ->. by constructor.
  - pose proof (contig_shape _ _ Hs _ _ Hc) as Hc'. apply Forall2_app_inv_l in Hs as (q0 & qb & Hq & Hb & ->).
    apply Forall2_cons_inv_l in Hb as (c & ? & [E1 E2] & Hn0 & ->). apply Forall2_nil_inv_l in Hn0 as ->.
    apply lay_flat; cbn; try done. rewrite Hp. unfold b_off. by rewrite E1.
  - apply Forall2_app_inv_l in Hs as (l0 & l1 & Hl & Hs & ->).
    pose proof (contig_shape _ _ Hl _ _ Hc1) as Hc1'. pose proof (contig_shape _ _ Hs _ _ Hc2) as Hc2'.
    apply Forall2_app_inv_l in Hs as (q0 & qb & Hq & Hb & ->).
    apply Forall2_cons_inv_l in Hb as (c & ? & [E1 E2] & Hn0 & ->). apply Forall2_nil_inv_l in Hn0 as ->.
    apply (lay_wrapped _ l0 q0 c e); cbn; try done.
    + intros ->. by apply Forall2_nil_inv_r in Hl.
    + rewrite Hp. unfold b_off. by rewrite E1.
Qed.

Lemma linked_shape m q q' : same_shape q q' -> linked m q -> linked m q'.
Proof.
  induction 1 as [|b c q q' [E1 _] Hs IH]; [done|]. inversion Hs as [|b2 c2 ? ? [E2 _] _]; subst; [done|].
  intros [H1 H2]. split; [|by apply IH]. unfold b_off in *. by rewrite <- E1, <- E2.
Qed.

Lemma shape_refl q : same_shape q q.
Proof. induction q; constructor; auto. Qed.

Lemma rep_fill s q1 b q2 data : rep s (q1 ++ b :: q2) -> 0 <= BufferSize s ->
  Z.of_nat (length data) <= b_cap b ->
  rep (cb_SetBlockSize (cb_write s (b_ptr b) data) (b_ptr b) (Z.of_nat (length data)))
    (q1 ++ mkBlk (b_ptr b) (b_cap b) data :: q2).
Proof.
  intros (Hl & Hok & Hln) Hs Hd. pose proof (layout_in _ _ Hl Hs) as [Hin Hsep].
  apply sep_mid in Hsep as [Hd1 Hd2]. set (b' := mkBlk (b_ptr b) (b_cap b) data).
  unfold cb_SetBlockSize, cb_write. cbn [Buffer BufferSize Back NewBlock pLastBlock].
  set (m1 := mstore (Buffer s) (b_ptr b) data).
  set (m' := store 8 m1 (b_ptr b - HEADER + 16) (Z.of_nat (length data))).
  assert (Hout : forall x, x < b_off b + 16 \/ b_end b <= x -> m' x = Buffer s x).
  { intros x Hx. unfold m', m1, b_off, b_end, HEADER in *. rewrite store_out, mstore_out by lia. done. }
  apply Forall_app in Hin as [Hin1 Hin2]. apply Forall_cons in Hin2 as [Hinb Hin2].
  apply Forall_app in Hok as [Hok1 Hok2]. apply Forall_cons in Hok2 as [Hokb Hok2].
  assert (Hother : forall l, Forall (disj b) l -> all_in 0 (BufferSize s) l -> Forall (blk_ok (Buffer s)) l ->
    Forall (blk_ok m') l /\ Forall (fun c => agree (b_off c) (b_off c + 8) (Buffer s) m') l).
  { intros l H1 H2 H3. unfold all_in in H2. rewrite !Forall_forall in *. split; intros c Hc;
      specialize (H1 c Hc); specialize (H2 c Hc); unfold disj, HEADER in *.
    - apply (blk_ok_agree (Buffer s)); [auto|unfold HEADER; lia|]. intros x Hx. symmetry. apply Hout. lia.
    - intros x Hx. symmetry. apply Hout. lia. }
  destruct (Hother q1 Hd1 Hin1 Hok1) as [Hok1' Ha1], (Hother q2 Hd2 Hin2 Hok2) as [Hok2' Ha2].
  assert (Hab : agree (b_off b) (b_off b + 8) (Buffer s) m').
  { intros x Hx. symmetry. apply Hout. unfold HEADER in *. lia. }
  split; [|split].
  - eapply layout_shape; [exact Hl|]. apply Forall2_app; [apply shape_refl|]. constructor; [done|apply shape_refl].
  - apply Forall_app. split; [done|]. constructor; [|done]. destruct Hokb as (H1 & _ & _ & H4).
    unfold blk_ok, cb_PayloadSize, cb_PayloadLength. change (b_off b') with (b_off b). cbn [b_ptr b_cap b_data b'].
    split; [|split; [|split; [|lia]]].
    + rewrite <- H1. symmetry. apply load_agree. intros x Hx. symmetry. apply Hout. lia.
    + unfold m', b_off. apply load_store. lia.
    + apply (holds_out m1); [apply holds_mstore|]. intros x Hx. apply store_out. unfold HEADER. lia.
  - assert (Hln' : linked m' (q1 ++ b :: q2)).
    { apply (linked_agree (Buffer s)); [done|]. apply Forall_app. split; [done|]. by constructor. }
    apply (linked_shape m' (q1 ++ b :: q2)); [|done].
    apply Forall2_app; [apply shape_refl|]. constructor; [done|apply shape_refl].
Qed.

(** ** Popping *)

Lemma rep_pop s q : rep s q -> 0 <= BufferSize s -> rep (cb_Pop s) (tl q).
Proof.
  intros (Hl & Hok & Hln) Hs. unfold cb_Pop. destruct q as [|b q].
  { assert (E : Back s = NewBlock s).
    { inversion Hl as [E1 E2 _|q0 b0 _ _ _ _ E|l q0 b0 e Hne _ _ _ _ _ E]; [congruence|by destruct q0|].
      destruct l; [done|]. done. }
    rewrite (proj2 (Z.eqb_eq _ _) E). done. }
  cbn [tl]. pose proof (layout_nonempty _ _ _ Hl) as [Eb Hne]. rewrite (proj2 (Z.eqb_neq _ _)) by done. cbn [negb].
  pose proof (layout_in _ _ Hl Hs) as [Hin Hsep]. rewrite Eb.
  destruct q as [|c q].
  - assert (Hp : pLastBlock s = Some (b_off b)).
    { inversion Hl as [|q0 b0 Hp _ _ _ E|l q0 b0 e Hn Hp _ _ _ _ E].
      - destruct q0 as [|? [|]]; [by injection E as ->|done|done].
      - destruct l as [|? [|]]; [done| |done]. destruct q0; done. }
    rewrite Hp, Z.eqb_refl. split; [by apply lay_empty|split; [constructor|done]].
  - assert (Hnext : cb_Next (Buffer s) (b_off b) = b_off c) by apply Hln.
    apply Forall_cons in Hok as [_ Hok]. destruct Hln as [_ Hln].
    cbn [sep] in Hsep. destruct Hsep as [Hdb _].
    assert (Hlast : forall d, In d (c :: q) -> (b_off b =? b_off d) = false).
    { intros d Hd. apply list_elem_of_In in Hd. apply Z.eqb_neq. rewrite Forall_forall in Hdb. specialize (Hdb d Hd).
      apply Forall_cons in Hin as [Hb Hin]. unfold all_in in Hin. rewrite Forall_forall in Hin. specialize (Hin d Hd).
      unfold disj, HEADER in *. lia. }
    rewrite Hnext. inversion Hl as [|q0 b0 Hp Hc H0 Hn E|l q0 b0 e Hnl Hp Hc1 Hc2 Hn He E].
    + destruct q0 as [|x q0]; [done|]. injection E as -> E. rewrite <- E in Hlast. rewrite Hp, Hlast
        by (apply in_app_iff; right; by left).
      cbn [app contig] in Hc. destruct Hc as (Hob & Hcap & Hc).
      assert (Eo : b_off c = b_end b) by (rewrite E in Hc; apply Hc).
      apply Forall_cons in Hin as [_ Hin]. apply Forall_cons in Hin as [Hin _].
      split; [|done]. rewrite <- E. apply lay_flat; cbn; [done|by rewrite Eo|lia|done].
    + destruct l as [|x l]; [done|]. injection E as -> E. cbn [contig] in Hc1. destruct Hc1 as (Hob & Hcap & Hc1).
      rewrite <- E in Hlast. rewrite Hp, Hlast by (apply in_app_iff; right; apply in_app_iff; right; by left).
      split; [|done]. destruct l as [|y l].
      * cbn [app] in E. rewrite <- E. pose proof (contig_in _ _ _ Hc2) as [Hle _].
        assert (Ec : b_off c = 0).
        { rewrite E in Hc2. cbn [contig] in Hc2. tauto. }
        apply lay_flat; cbn; try done; [by rewrite Ec|lia|]. cbn [contig] in Hc1. unfold b_end, b_off, HEADER in *. lia.
      * cbn [app] in E. injection E as -> E. rewrite <- E. change (c :: l ++ q0 ++ [b0]) with ((c :: l) ++ q0 ++ [b0]).
        pose proof Hc1 as Hc1'. cbn [contig] in Hc1'. destruct Hc1' as (Eo & _).
        apply (lay_wrapped _ (c :: l) q0 b0 e); cbn [BufferSize Back NewBlock pLastBlock]; try done; [by rewrite Eo|].
        rewrite Eo. unfold b_end, b_off, HEADER in *. lia.
Qed.

(** ** Pushing *)

Lemma linked_agree_snoc m m' l b : linked m (l ++ [b]) ->
  Forall (fun c => agree (b_off c) (b_off c + 8) m m') l -> linked m' (l ++ [b]).
Proof.
  induction l as [|c l IH]; [done|]. intros H Ha. apply Forall_cons in Ha as [Hc Ha]. cbn [app] in *.
  destruct (l ++ [b]) as [|d t] eqn:E; [by destruct l|]. destruct H as [H Ht]. split; [|by apply IH].
  rewrite <- H. symmetry. by apply load_agree.
Qed.

(** The pointer to the last block. *)
Definition last_of (q : list blk) (last : option Z) : Prop :=
  match last with None => q = [] | Some x => exists q0 l, q = q0 ++ [l] /\ x = b_off l end.

(** The header [Push] writes. *)
Definition push_header (m : mem) (p size : Z) : mem :=
  store 8 (store 8 (store 8 m (p + 8) size) p INFINITE) (p + 16) 0.

Lemma push_header_ok m p size : 0 <= size < 2 ^ 63 -> blk_ok (push_header m p size) (mkBlk (p + HEADER) size []).
Proof.
  intros Hs. unfold push_header, blk_ok, cb_PayloadSize, cb_PayloadLength, b_off. cbn [b_ptr b_cap b_data].
  replace (p + HEADER - HEADER) with p by lia. split; [|split; [|split; [done|cbn; lia]]].
  - rewrite (load_agree 8 _ (store 8 m (p + 8) size)); [apply load_store; lia|]. intros x Hx. by rewrite !store_out by lia.
  - apply (load_store 8 _ _ 0). lia.
Qed.

Lemma push_mem m q p size last : 0 <= size < 2 ^ 63 -> 0 <= p < 2 ^ 64 ->
  Forall (disj (mkBlk (p + HEADER) size [])) q -> sep q -> (exists z, all_in 0 z q) -> last_of q last ->
  Forall (blk_ok m) q -> linked m q ->
  let m1 := push_header m p size in
  let m2 := match last with Some l => store 8 m1 l p | None => m1 end in
  Forall (blk_ok m2) (q ++ [mkBlk (p + HEADER) size []]) /\ linked m2 (q ++ [mkBlk (p + HEADER) size []]).
Proof.
  intros Hs Hp Hd Hsep [z Hin] Hlast Hok Hln m1. set (nb := mkBlk (p + HEADER) size []) in *.
  assert (Hnb : blk_ok m1 nb) by (by apply push_header_ok).
  assert (Eoff : b_off nb = p) by (unfold b_off, nb; cbn; lia).
  assert (Eend : b_end nb = p + HEADER + size) by done.
  assert (Hout : forall x, x < p \/ p + HEADER <= x -> m x = m1 x).
  { intros x Hx. unfold m1, push_header, HEADER in *. by rewrite !store_out by lia. }
  assert (Ha : Forall (fun c => agree (b_off c) (b_end c) m m1) q).
  { unfold all_in in Hin. rewrite Forall_forall in *. intros c Hc x Hx. apply Hout.
    specialize (Hd c Hc). unfold disj in Hd. rewrite Eoff, Eend in Hd. lia. }
  assert (Hok1 : Forall (blk_ok m1) q).
  { unfold all_in in Hin. rewrite Forall_forall in *. intros c Hc. specialize (Hin c Hc). unfold HEADER in *.
    apply (blk_ok_agree m); [auto|unfold HEADER; lia|]. eapply agree_sub; [by apply Ha|lia|lia]. }
  assert (Hln1 : linked m1 q).
  { apply (linked_agree m); [done|]. unfold all_in in Hin. rewrite Forall_forall in *. intros c Hc.
    specialize (Hin c Hc). unfold HEADER in *. eapply agree_sub; [by apply Ha|lia|lia]. }
  clear Ha Hout. destruct last as [x|]; [|by cbn in Hlast; subst q; split; [by constructor|]].
  destruct Hlast as (q0 & l & -> & ->). cbn zeta.
  assert (Hout : forall x, x < b_off l \/ b_off l + 8 <= x -> m1 x = store 8 m1 (b_off l) p x)
    by (intros y Hy; by rewrite store_out by lia).
  pose proof (proj1 (sep_mid _ _ _ Hsep)) as Hdl. pose proof Hd as Hd0.
  apply Forall_app in Hd as [_ Hd]. apply Forall_inv in Hd. unfold disj in Hd. rewrite Eoff, Eend in Hd.
  apply Forall_app in Hin as [Hin0 Hinl]. apply Forall_inv in Hinl. apply Forall_app in Hok1 as [Hok0 Hokl].
  apply Forall_inv in Hokl. unfold HEADER in *. split.
  - rewrite !Forall_app. repeat split; [|constructor; [|done]..].
    + rewrite Forall_forall in *. intros c Hc. specialize (Hin0 c Hc). specialize (Hdl c Hc). unfold disj in Hdl.
      apply (blk_ok_agree m1); [auto|unfold HEADER; lia|]. intros y Hy. apply Hout. lia.
    + apply (blk_ok_agree m1); [done|unfold HEADER; lia|]. intros y Hy. apply Hout. lia.
    + apply (blk_ok_agree m1); [done|rewrite Eoff, Eend; unfold HEADER; lia|]. intros y Hy.
      rewrite Eoff, Eend in Hy. apply Hout. lia.
  - rewrite <- app_assoc. cbn [app]. apply linked_app. split.
    + apply (linked_agree_snoc m1); [done|]. rewrite Forall_forall in *. intros c Hc. specialize (Hin0 c Hc).
      specialize (Hdl c Hc). unfold disj in Hdl. intros y Hy. apply Hout. lia.
    + cbn [linked]. split; [|done]. rewrite Eoff. unfold cb_Next. apply load_store. lia.
Qed.

(** Where [Push] puts the block. *)
Lemma push_layout s q n s' ptr : layout s q -> 0 <= BufferSize s < 2 ^ 62 -> 0 <= n < 2 ^ 62 ->
  cb_Push s n = (s', Some ptr) ->
  let nb := mkBlk ptr (EnlargeTo32AL n) [] in
  exists p, ptr = p + HEADER /\ 0 <= p < 2 ^ 62 /\ 0 <= EnlargeTo32AL n < 2 ^ 63 /\
    Back s' = Back s /\ BufferSize s' = BufferSize s /\
    Buffer s' = (let m := push_header (Buffer s) p (EnlargeTo32AL n) in
                 match pLastBlock s with Some l => store 8 m l p | None => m end) /\
    layout s' (q ++ [nb]) /\ last_of q (pLastBlock s) /\ Forall (disj nb) q.
Proof.
  intros Hl Hs Hn. unfold cb_Push. pose proof (EnlargeTo32AL_spec n Hn) as [Hc _].
  set (cap := EnlargeTo32AL n) in *. unfold HEADER. cbn zeta.
  assert (Eb : u64 (cap + 24) = cap + 24) by (apply wrap_id; split; lia). rewrite Eb.
  set (bs := cap + 24) in *.
  assert (Hbs : 24 <= bs < 2 ^ 62 + 32) by (unfold bs; lia).
  destruct Hl as [E1 E2 E3|q b Hp Hct H0 Hnb|l q b e Hne Hp Hc1 Hc2 Hnb He].
  - rewrite E1, E2, E3, Z.add_0_r, Z.add_0_l, Eb. cbn [andb]. rewrite (proj2 (Z.ltb_ge bs 0)) by lia.
    change (0 <=? 0) with true. change (0 <? 0) with false. rewrite andb_true_r, andb_false_r. cbn [orb andb].
    destruct (Z.ltb_spec bs (BufferSize s)) as [Hlt|]; [|done]. intros [= <- <-].
    exists 0. cbn [Back NewBlock BufferSize Buffer pLastBlock]. repeat split; try lia; try done.
    apply (lay_flat _ [] (mkBlk (0 + 24) cap [])); cbn; try done; [|lia..]. unfold b_off, b_end, HEADER. cbn. lia.
  - pose proof (contig_pos _ _ _ Hct ltac:(by destruct q)) as Hpos. unfold HEADER in Hpos.
    pose proof (contig_in _ _ _ Hct) as [_ Hin]. rewrite Hp.
    rewrite (proj2 (Z.leb_le (Back s) _)), (proj2 (Z.ltb_ge (NewBlock s) (Back s))), andb_true_r, andb_false_r, orb_false_r by lia.
    assert (Eu : u64 (bs + NewBlock s) = bs + NewBlock s) by (apply wrap_id; split; lia). rewrite Eu.
    destruct (Z.ltb_spec (bs + NewBlock s) (BufferSize s)) as [Hlt|_]; [|destruct (Z.ltb_spec bs (Back s)) as [Hlt|]; [|done]];
      intros [= <- <-]; cbn [andb Back NewBlock BufferSize Buffer pLastBlock].
    + rewrite (Z.add_comm (NewBlock s) bs), Eu. exists (NewBlock s). repeat split; try lia; try done; [|by exists q, b|].
      * apply lay_flat; cbn [Back NewBlock BufferSize Buffer pLastBlock]; [|apply contig_app; exists (NewBlock s); split; [done|]|lia..].
        -- f_equal. unfold b_off, HEADER. cbn [b_ptr]. lia.
        -- cbn [contig]. unfold b_off, b_end, HEADER. cbn [b_ptr b_cap]. lia.
      * eapply Forall_impl; [exact Hin|]. cbn beta. intros c. unfold disj, b_off, HEADER. cbn [b_ptr]. lia.
    + exists 0. repeat split; try lia; try done; [|by exists q, b|].
      * apply (lay_wrapped _ (q ++ [b]) [] (mkBlk (0 + 24) cap []) (NewBlock s));
          cbn [Back NewBlock BufferSize Buffer pLastBlock]; try done; [by destruct q|].
        cbn [app contig]. unfold b_off, b_end, HEADER. cbn [b_ptr b_cap]. lia.
      * eapply Forall_impl; [exact Hin|]. cbn beta. intros c. unfold disj, b_end, HEADER. cbn [b_ptr b_cap]. lia.
  - pose proof (contig_in _ _ _ Hc1) as [Hle1 Hin1]. pose proof (contig_in _ _ _ Hc2) as [Hle2 Hin2]. rewrite Hp.
    rewrite (proj2 (Z.leb_gt (Back s) _)), (proj2 (Z.ltb_lt (NewBlock s) (Back s))), andb_false_r, andb_true_r by lia.
    assert (Eu : u64 (bs + NewBlock s) = bs + NewBlock s) by (apply wrap_id; split; lia). rewrite Eu. cbn [orb andb].
    destruct (Z.ltb_spec (bs + NewBlock s) (Back s)) as [Hlt|]; [|done]. intros [= <- <-].
    cbn [Back NewBlock BufferSize Buffer pLastBlock]. rewrite (Z.add_comm (NewBlock s) bs), Eu.
    exists (NewBlock s). repeat split; try lia; try done; [|exists (l ++ q), b; by rewrite app_assoc|].
    + rewrite <- app_assoc. apply (lay_wrapped _ l (q ++ [b]) _ e); cbn [Back NewBlock BufferSize Buffer pLastBlock];
        try done; [|apply contig_app; exists (NewBlock s); split; [done|]].
      * f_equal. unfold b_off, HEADER. cbn [b_ptr]. lia.
      * cbn [contig]. unfold b_off, b_end, HEADER. cbn [b_ptr b_cap]. lia.
    + apply Forall_app. split; (eapply Forall_impl; [eassumption|]); cbn beta; intros c;
        unfold disj, b_end, b_off, HEADER in *; cbn [b_ptr b_cap]; lia.
Qed.

Lemma rep_push s q n s' ptr : rep s q -> 0 <= BufferSize s < 2 ^ 62 -> 0 <= n < 2 ^ 62 ->
  cb_Push s n = (s', Some ptr) ->
  rep s' (q ++ [mkBlk ptr (EnlargeTo32AL n) []]) /\ BufferSize s' = BufferSize s.
Proof.
  intros (Hl & Hok & Hln) Hs Hn HP.
  destruct (push_layout s q n s' ptr Hl Hs Hn HP) as (p & -> & Hp & Hc & _ & EB & Em & Hl' & Hlast & Hd).
  split; [|done]. split; [done|]. rewrite Em. pose proof (layout_in _ _ Hl ltac:(lia)) as [Hin Hsep].
  apply push_mem; try done; [lia|by eexists].
Qed.

Lemma cb_Push_refused s n s' : cb_Push s n = (s', None) -> s' = s.
Proof. unfold cb_Push. cbn zeta. intros H. repeat case_match; by simplify_eq. Qed.

Lemma reach_rep raw sz s q : 0 <= sz < 2 ^ 62 -> reach raw sz s q -> rep s q /\ BufferSize s = sz.
Proof.
  intros Hsz. induction 1 as [|s q n s' p _ [IH EB] Hn HP|s q n s' _ [IH EB] Hn HP|s q1 b q2 data _ [IH EB] Hd|s q _ [IH EB]].
  - split; [|done]. split; [by apply lay_empty|split; [constructor|done]].
  - destruct (rep_push s q n s' p IH ltac:(lia) Hn HP) as [H1 H2]. by rewrite H2.
  - by apply cb_Push_refused in HP as ->.
  - split; [|done]. apply rep_fill; (done || lia).
  - split; [apply rep_pop; (done || lia)|]. unfold cb_Pop. repeat case_match; done.
Qed.

(** ** Properties *)

(** C29: the ring is a queue.  In every state reachable by pushing, filling in
    any order, and popping, [Peek] is the oldest block - its length and its
    bytes as the producer finalised them, nothing while it is not finalised or
    the queue is empty -, every block handed out lies inside the buffer and no
    two overlap. *)
Theorem CircularBuffer_fifo raw sz s q : 0 <= sz < 2 ^ 62 -> reach raw sz s q ->
  match q with
  | [] => cb_Peek s = None
  | b :: _ =>
    match b_data b with
    | [] => cb_Peek s = None
    | d => exists p, cb_Peek s = Some p /\ load 8 (Buffer s) p = Z.of_nat (length d) /\ holds (Buffer s) (p + 8) d
    end
  end /\
  sep q /\ Forall (fun b => HEADER <= b_ptr b /\ 0 <= b_cap b /\ b_ptr b + b_cap b <= sz) q.
Proof.
  intros Hsz Hr. destruct (reach_rep raw sz s q Hsz Hr) as [(Hl & Hok & _) EB].
  pose proof (layout_in _ _ Hl ltac:(lia)) as [Hin Hsep]. rewrite EB in Hin. split; [|split; [done|]].
  - unfold cb_Peek. destruct q as [|b q].
    + assert (E : Back s = NewBlock s); [|by rewrite (proj2 (Z.eqb_eq _ _) E)].
      inversion Hl as [E1 E2 _|q0 b0 _ _ _ _ E|l q0 b0 e Hne _ _ _ _ _ E]; [congruence|by destruct q0|by destruct l].
    + destruct (layout_nonempty _ _ _ Hl) as [Eb Hne]. rewrite (proj2 (Z.eqb_neq _ _)) by done. cbn [negb].
      apply Forall_inv in Hok as (_ & H2 & H3 & _). unfold cb_PayloadLength in H2.
      rewrite Eb. replace (b_off b + HEADER - 8) with (b_off b + 16) by (unfold HEADER; lia). rewrite H2.
      destruct (b_data b) as [|c d] eqn:Ed; [done|]. cbn [length]. rewrite (proj2 (Z.ltb_lt 0 _)) by lia.
      exists (b_off b + 16). split; [done|]. split; [done|].
      replace (b_off b + 16 + 8) with (b_ptr b) by (unfold b_off, HEADER; lia). done.
  - eapply Forall_impl; [exact Hin|]. cbn beta. unfold b_off, b_end, HEADER. intros b. lia.
Qed.

(** A run of the ring: two pushes, the second filled first, a pop, a wrap. *)
Definition ring_sample : CircularBuffer * list blk :=
  let s := cb_SetSize (fun _ => 0xee) 100 in
  let s := fst (cb_Push s 9) in
  let s := fst (cb_Push s 5) in
  let s := cb_SetBlockSize (cb_write s 64 [1; 2; 3]) 64 3 in
  let s := cb_SetBlockSize (cb_write s 24 [9]) 24 1 in
  let s := cb_Pop s in
  (fst (cb_Push s 5), [mkBlk 64 8 [1; 2; 3]; mkBlk 24 8 []]).

Lemma reach_pushed raw sz s q n p : reach raw sz s q -> 0 <= n < 2 ^ 62 -> snd (cb_Push s n) = Some p ->
  reach raw sz (fst (cb_Push s n)) (q ++ [mkBlk p (EnlargeTo32AL n) []]).
Proof. intros Hr Hn E. apply (reach_push raw sz s q n _ p Hr Hn). rewrite <- E. apply surjective_pairing. Qed.

Lemma ring_sample_reach : reach (fun _ => 0xee) 100 (fst ring_sample) (snd ring_sample).
Proof.
  unfold ring_sample. cbn [fst snd].
  apply (reach_pushed _ _ _ [mkBlk 64 8 [1; 2; 3]] 5 24); [|lia|vm_compute; reflexivity].
  apply (reach_pop _ _ _ [mkBlk 24 16 [9]; mkBlk 64 8 [1; 2; 3]]).
  apply (reach_fill _ _ _ [] (mkBlk 24 16 []) [mkBlk 64 8 [1; 2; 3]] [9]); [|cbn; lia].
  apply (reach_fill _ _ _ [mkBlk 24 16 []] (mkBlk 64 8 []) [] [1; 2; 3]); [|cbn; lia].
  apply (reach_pushed _ _ _ [mkBlk 24 16 []] 5 64); [|lia|vm_compute; reflexivity].
  apply (reach_pushed _ _ _ [] 9 24); [|lia|vm_compute; reflexivity].
  apply reach_init.
Qed.

Lemma CircularBuffer_fifo_witness :
  let s := fst ring_sample in
  0 <= 100 < 2 ^ 62 /\
  (exists p, cb_Peek s = Some p /\ load 8 (Buffer s) p = 3 /\ holds (Buffer s) (p + 8) [1; 2; 3]) /\
  sep (snd ring_sample) /\
  Forall (fun b => HEADER <= b_ptr b /\ 0 <= b_cap b /\ b_ptr b + b_cap b <= 100) (snd ring_sample).
Proof.
  intros s. assert (H : 0 <= 100 < 2 ^ 62) by lia. split; [exact H|].
  exact (CircularBuffer_fifo (fun _ => 0xee) 100 s (snd ring_sample) H ring_sample_reach).
Defined.

Lemma reach_drain raw sz s q : reach raw sz s q -> reach raw sz (Nat.iter (length q) cb_Pop s) [].
Proof.
  revert s. induction q as [|b q IH]; intros s H; [done|]. cbn [length].
  rewrite Nat.iter_succ_r. apply IH. exact (reach_pop raw sz s (b :: q) H).
Qed.

(** C30: the ring leaks no room.  From any reachable state, popping the blocks
    that are queued empties it, and an empty ring accepts a block exactly when
    the block and its header are smaller than the whole buffer. *)
Theorem CircularBuffer_drains raw sz s q n : 0 <= sz < 2 ^ 62 -> 0 <= n < 2 ^ 62 -> reach raw sz s q ->
  let s0 := Nat.iter (length q) cb_Pop s in
  Back s0 = 0 /\ NewBlock s0 = 0 /\ pLastBlock s0 = None /\
  snd (cb_Push s0 n) = (if EnlargeTo32AL n + HEADER <? sz then Some HEADER else None).
Proof.
  intros Hsz Hn Hr s0. destruct (reach_rep raw sz s0 [] Hsz (reach_drain _ _ _ _ Hr)) as [(Hl & _) EB].
  assert (H : Back s0 = 0 /\ NewBlock s0 = 0 /\ pLastBlock s0 = None).
  { inversion Hl as [|q0 b0 _ _ _ _ E|l q0 b0 e Hne _ _ _ _ _ E]; [done|by destruct q0|by destruct l]. }
  destruct H as (E1 & E2 & E3). repeat split; try done. unfold cb_Push. rewrite E1, E2, E3, EB.
  pose proof (EnlargeTo32AL_spec n Hn) as [Hc _]. cbn zeta. unfold HEADER.
  assert (Eb : u64 (EnlargeTo32AL n + 24) = EnlargeTo32AL n + 24) by (apply wrap_id; split; lia).
  rewrite Eb, Z.add_0_r, Z.add_0_l, Eb. change (0 <=? 0) with true. change (0 <? 0) with false.
  rewrite andb_true_r, andb_false_r, orb_false_r. cbn [andb].
  rewrite (proj2 (Z.ltb_ge (EnlargeTo32AL n + 24) 0)) by lia. by destruct (EnlargeTo32AL n + 24 <? sz).
Qed.

Lemma CircularBuffer_drains_witness :
  let s0 := Nat.iter 2 cb_Pop (fst ring_sample) in
  Back s0 = 0 /\ NewBlock s0 = 0 /\ pLastBlock s0 = None /\
  snd (cb_Push s0 75) = (if EnlargeTo32AL 75 + HEADER <? 100 then Some HEADER else None).
Proof.
  apply (CircularBuffer_drains (fun _ => 0xee) 100 (fst ring_sample) (snd ring_sample) 75);
    [lia|lia|exact ring_sample_reach].
Defined.
