(* ===== verification/Select.v ===== *)
(** The algorithms of [rt::Buffer_Ref] (rt/buffer_type.h) over the elements of
    an array: searches, extrema, shuffle, insertion into a sorted array and
    quick select.  An access outside the array has no result. *)
From stdpp Require Import sorting.
From S2P Require Import Prelude Hash.

(** ** Definitions *)

(** [_p[i]] at a [SIZE_T] index. *)
Definition at_ {A} (arr : list A) (i : Z) : option A := if 0 <=? i then arr !! Z.to_nat i else None.

(** [rt::Swap(arr[i], arr[j])] *)
Definition swap {A} (arr : list A) (i j : Z) : option (list A) :=
  a ← at_ arr i; b ← at_ arr j;
  Some (<[Z.to_nat j := a]> (<[Z.to_nat i := b]> arr)).

Section Select.
Context {A : Type} (lt : A -> A -> bool).

(** *** Quick select *)

(** The loop of [partition]: [for(j = l; j <= r - 1; j++)]. *)
Fixpoint part_loop (fuel : nat) (arr : list A) (x : A) (r i j : Z) : option (list A * Z) :=
  match fuel with
  | O => None
  | S f =>
    if j <=? u64 (r - 1) then
      y ← at_ arr j;
      if lt x y then part_loop f arr x r i (u64 (j + 1))
      else arr ← swap arr i j; part_loop f arr x r (u64 (i + 1)) (u64 (j + 1))
    else Some (arr, i)
  end.

(** An array of [n] elements is left after [n] turns, or overrun. *)
Definition partition (arr : list A) (l r : Z) : option (list A * Z) :=
  x ← at_ arr r;
  '(arr, i) ← part_loop (S (length arr)) arr x r l l;
  arr ← swap arr i r; Some (arr, i).

Fixpoint kth (fuel : nat) (arr : list A) (l r k : Z) : option (list A * A) :=
  match fuel with
  | O => None
  | S f =>
    if (0 <? k) && (k <=? u64 (r - l + 1)) then
      '(arr, pos) ← partition arr l r;
      if u64 (pos - l) =? u64 (k - 1) then v ← at_ arr pos; Some (arr, v)
      else if u64 (k - 1) <? u64 (pos - l) then kth f arr l (u64 (pos - 1)) k
      else kth f arr (u64 (pos + 1)) r (u64 (k - pos + l - 1))
    else v ← at_ arr 0; Some (arr, v)
  end.

(** [FindTopKth]: the array afterwards and the element referred to. *)
Definition FindTopKth (arr : list A) (k : Z) : option (list A * A) :=
  let n := Z.of_nat (length arr) in kth (length arr) arr 0 (u64 (n - 1)) k.

(** *** Insertion into a sorted array *)

(** The shifting loop, [p] running down from index [i - 1]: the array and the
    place that is free. *)
Fixpoint shift_loop (i : nat) (arr : list A) (x : A) : option (list A * nat) :=
  match i with
  | O => Some (arr, O)
  | S p =>
    y ← arr !! p;
    if lt x y then shift_loop p (<[i := y]> arr) x else Some (arr, i)
  end.

(** [Buffer_Ref::SortedPush]: the array and the index returned. *)
Definition SortedPush (arr : list A) (x : A) : option (list A * Z) :=
  match last arr with
  | None => Some (arr, -1)
  | Some z =>
    if lt z x then Some (arr, -1)
    else '(arr, p) ← shift_loop (length arr - 1) arr x; Some (<[p := x]> arr, Z.of_nat p)
  end.

(** *** Extrema and searches *)

(** The loop of [Max]: [m] is the index of the maximum [mp] so far. *)
Fixpoint max_loop (l : list A) (i m : Z) (mp : A) : Z * A :=
  match l with
  | [] => (m, mp)
  | y :: t => if lt mp y then max_loop t (i + 1) i y else max_loop t (i + 1) m mp
  end.

Definition Max (arr : list A) : Z := match arr with [] => -1 | x :: t => fst (max_loop t 1 0 x) end.
Definition MaxValue (arr : list A) : option A := match arr with [] => None | x :: t => Some (snd (max_loop t 1 0 x)) end.
End Select.

(** [Min] and [MinValue] are the same loops with the comparison turned round. *)
Definition Min {A} (lt : A -> A -> bool) : list A -> Z := Max (fun x y => lt y x).
Definition MinValue {A} (lt : A -> A -> bool) : list A -> option A := MaxValue (fun x y => lt y x).

(** [Find] / [SearchItem] *)
Fixpoint find_loop {A} (eq : A -> A -> bool) (l : list A) (v : A) (i : Z) : Z :=
  match l with
  | [] => -1
  | y :: t => if eq y v then i else find_loop eq t v (i + 1)
  end.
Definition Find {A} (eq : A -> A -> bool) (l : list A) (v : A) : Z := find_loop eq l v 0.

(** [Shuffle]: [n] turns left. *)
Fixpoint shuffle_loop {A} (n : nat) (arr : list A) (rng : Randomizer) (i : Z) : option (list A) :=
  match n with
  | O => Some arr
  | S k =>
    let '(v, rng) := GetNext rng in
    arr ← swap arr i (i + v mod (Z.of_nat (length arr) - i)); shuffle_loop k arr rng (i + 1)
  end.
Definition Shuffle {A} (arr : list A) (seed : Z) : option (list A) :=
  shuffle_loop (length arr - 1) arr (Randomizer_init seed) 0.

(** ** The order *)

(** [operator <] of the elements: a strict weak order. *)
Class WeakOrder {A} (lt : A -> A -> bool) : Prop := {
  lt_asym : forall x y, lt x y = true -> lt y x = false;
  nlt_trans : forall x y z, lt y x = false -> lt z y = false -> lt z x = false
}.

#[export] Instance WeakOrder_Zltb : WeakOrder Z.ltb.
Proof. split; intros *; rewrite ?Z.ltb_lt, ?Z.ltb_ge; lia. Qed.

Section Order.
Context {A : Type} {lt : A -> A -> bool} {WO : WeakOrder lt}.

(** [x] is not above [y]. *)
Definition le (x y : A) : Prop := lt y x = false.

Lemma le_trans x y z : le x y -> le y z -> le x z.
Proof. apply nlt_trans. Qed.

Lemma lt_le x y : lt x y = true -> le x y.
Proof. apply lt_asym. Qed.

Lemma le_refl x : le x x.
Proof. unfold le. destruct (lt x x) eqn:E; [|done]. by rewrite (lt_asym _ _ E) in E. Qed.
End Order.

#[export] Hint Resolve le_refl lt_le : cpcf.

(** ** Arrays as concatenations *)

Lemma at_mid {A} (pre : list A) y post i : i = Z.of_nat (length pre) -> at_ (pre ++ y :: post) i = Some y.
Proof.
  intros ->. unfold at_. rewrite (proj2 (Z.leb_le 0 _)), Nat2Z.id by lia. by apply list_lookup_middle.
Qed.

Lemma at_out {A} (arr : list A) i : Z.of_nat (length arr) <= i -> at_ arr i = None.
Proof. intros. unfold at_. case_match; [|done]. apply lookup_ge_None. lia. Qed.

Lemma insert_mid {A} (pre : list A) a b post : <[length pre := b]> (pre ++ a :: post) = pre ++ b :: post.
Proof. induction pre as [|x pre IH]; [done|]. cbn. by f_equal. Qed.

Lemma swap_self {A} (pre : list A) a post i : i = Z.of_nat (length pre) ->
  swap (pre ++ a :: post) i i = Some (pre ++ a :: post).
Proof.
  intros Hi. unfold swap. rewrite (at_mid pre a post i Hi). cbn [mbind option_bind]. subst i. rewrite Nat2Z.id.
  by rewrite !insert_mid.
Qed.

Lemma swap_mid {A} (pre : list A) a mid b post i j :
  i = Z.of_nat (length pre) -> j = Z.of_nat (length (pre ++ a :: mid)) ->
  swap (pre ++ a :: mid ++ b :: post) i j = Some (pre ++ b :: mid ++ a :: post).
Proof.
  intros Hi Hj. unfold swap. rewrite (at_mid pre a _ i Hi). cbn [mbind option_bind].
  assert (E : pre ++ a :: mid ++ b :: post = (pre ++ a :: mid) ++ b :: post) by by rewrite <- app_assoc.
  assert (Eb : at_ (pre ++ a :: mid ++ b :: post) j = Some b) by (rewrite E; by apply at_mid).
  rewrite Eb. cbn [mbind option_bind]. subst i j. rewrite !Nat2Z.id. f_equal.
  rewrite insert_mid.
  replace (pre ++ b :: mid ++ b :: post) with ((pre ++ b :: mid) ++ b :: post) by by rewrite <- app_assoc.
  replace (length (pre ++ a :: mid)) with (length (pre ++ b :: mid)) by (rewrite !length_app; done).
  rewrite insert_mid. by rewrite <- app_assoc.
Qed.

(** ** Quick select *)

Section SelectFacts.
Context {A : Type} {lt : A -> A -> bool} {WO : WeakOrder lt}.

Lemma part_loop_spec rest : forall fuel pre lo hi (x : A) post arr r i j,
  arr = pre ++ lo ++ hi ++ rest ++ x :: post ->
  r = Z.of_nat (length (pre ++ lo ++ hi ++ rest)) ->
  i = Z.of_nat (length (pre ++ lo)) -> j = Z.of_nat (length (pre ++ lo ++ hi)) ->
  0 < r < 2 ^ 63 -> (length rest < fuel)%nat ->
  Forall (fun y => le (lt := lt) y x) lo -> Forall (fun y => lt x y = true) hi ->
  exists lo' hi', part_loop lt fuel arr x r i j = Some (pre ++ lo' ++ hi' ++ x :: post, Z.of_nat (length (pre ++ lo'))) /\
    Permutation (lo ++ hi ++ rest) (lo' ++ hi') /\
    Forall (fun y => le (lt := lt) y x) lo' /\ Forall (fun y => lt x y = true) hi'.
Proof.
  induction rest as [|y rest IH]; intros fuel pre lo hi x post arr r i j Ea Er Ei Ej Hr Hf Hlo Hhi;
    (destruct fuel as [|fuel]; [cbn in Hf; lia|]); cbn [part_loop]; unfold u64; rewrite (wrap_id 64 (r - 1)) by (split; lia).
  - rewrite (proj2 (Z.leb_gt _ _)) by (subst; rewrite app_nil_r; lia).
    exists lo, hi. subst. split; [done|]. split; [by rewrite app_nil_r|done].
  - assert (Erj : r = j + 1 + Z.of_nat (length rest)) by (subst; rewrite !length_app; cbn; lia).
    rewrite (proj2 (Z.leb_le _ _)) by lia.
    assert (Ey : at_ arr j = Some y).
    { subst arr. rewrite (app_assoc lo), (app_assoc pre). by apply at_mid. }
    rewrite Ey. cbn [mbind option_bind]. rewrite (wrap_id 64 (j + 1)) by (split; lia).
    destruct (lt x y) eqn:Exy.
    + destruct (IH fuel pre lo (hi ++ [y]) x post arr r i (j + 1)) as (lo' & hi' & E & Hp & H1 & H2);
        try done; try (subst; rewrite ?length_app; cbn in *; lia).
      * subst arr. by rewrite <- !app_assoc.
      * apply Forall_app. split; [done|by constructor].
      * exists lo', hi'. split; [done|]. split; [|done]. rewrite <- Hp, <- !app_assoc. done.
    + set (hi1 := match hi with [] => [] | h :: t => t ++ [h] end).
      assert (Hp1 : Permutation hi hi1) by (unfold hi1; destruct hi; [done|apply Permutation_cons_append]).
      assert (Hij : i <= j) by (subst; rewrite !length_app; lia).
      assert (Hsw : swap arr i j = Some (pre ++ (lo ++ [y]) ++ hi1 ++ rest ++ x :: post)).
      { unfold hi1. subst arr. destruct hi as [|h hi].
        - replace j with i by (subst; by rewrite app_nil_r). rewrite (app_assoc pre lo). cbn [app].
          rewrite swap_self by done. by rewrite <- !app_assoc.
        - replace (pre ++ lo ++ (h :: hi) ++ (y :: rest) ++ x :: post)
            with ((pre ++ lo) ++ h :: hi ++ y :: (rest ++ x :: post)) by (cbn [app]; by rewrite <- !app_assoc).
          rewrite (swap_mid (pre ++ lo) h hi y) by (done || (subst j; rewrite !length_app; cbn; lia)).
          f_equal. cbn [app]. by rewrite <- !app_assoc. }
      rewrite Hsw. cbn [mbind option_bind]. rewrite (wrap_id 64 (i + 1)) by (split; lia).
      pose proof (Permutation_length Hp1) as Hl1.
      destruct (IH fuel pre (lo ++ [y]) hi1 x post (pre ++ (lo ++ [y]) ++ hi1 ++ rest ++ x :: post) r (i + 1) (j + 1))
        as (lo' & hi' & E & Hp & H1 & H2); try done; try (subst; rewrite ?length_app; cbn in *; lia).
      * apply Forall_app. split; [done|by constructor].
      * by rewrite <- Hp1.
      * exists lo', hi'. split; [done|]. split; [|done]. rewrite <- Hp, <- Hp1, <- !app_assoc.
        apply Permutation_app_head. cbn [app]. by rewrite Permutation_middle.
Qed.

Lemma partition_spec pre seg (x : A) post :
  let r := Z.of_nat (length (pre ++ seg)) in
  0 < r < 2 ^ 63 ->
  exists lo hi, partition lt (pre ++ seg ++ x :: post) (Z.of_nat (length pre)) r =
      Some (pre ++ lo ++ x :: hi ++ post, Z.of_nat (length (pre ++ lo))) /\
    Permutation seg (lo ++ hi) /\
    Forall (fun y => le (lt := lt) y x) lo /\ Forall (fun y => lt x y = true) hi.
Proof.
  intros r Hr. unfold partition.
  assert (Ex : at_ (pre ++ seg ++ x :: post) r = Some x) by (rewrite app_assoc; by apply at_mid).
  rewrite Ex. cbn [mbind option_bind].
  destruct (part_loop_spec seg (S (length (pre ++ seg ++ x :: post))) pre [] [] x post _ r _ _
    eq_refl eq_refl eq_refl eq_refl Hr) as (lo & hi & E & Hp & H1 & H2); [rewrite !length_app; cbn; lia|constructor..|].
  - cbn [app] in E, Hp. rewrite !app_nil_r in E. rewrite E. cbn [mbind option_bind].
    assert (El : length seg = (length lo + length hi)%nat) by (rewrite Hp; apply length_app).
    destruct hi as [|h hi].
    + exists lo, []. replace r with (Z.of_nat (length (pre ++ lo)))
        by (unfold r; rewrite !length_app; cbn in El; lia).
      rewrite app_assoc. cbn [app]. rewrite swap_self by done. cbn [mbind option_bind].
      split; [by rewrite <- app_assoc|]. split; [exact Hp|done].
    + replace (pre ++ lo ++ (h :: hi) ++ x :: post) with ((pre ++ lo) ++ h :: hi ++ x :: post)
        by (cbn [app]; by rewrite <- !app_assoc).
      rewrite (swap_mid (pre ++ lo) h hi x) by (done || (unfold r; rewrite !length_app in *; cbn in *; lia)).
      exists lo, (hi ++ [h]). split; [|split; [|split; [done|]]].
      * cbn [mbind option_bind]. do 2 f_equal. rewrite <- !app_assoc. cbn [app]. done.
      * rewrite Hp. apply Permutation_app_head, Permutation_cons_append.
      * apply Forall_app. inversion_clear H2. auto.
Qed.

Lemma kth_spec fuel : forall pre seg (k : Z) post l r arr,
  arr = pre ++ seg ++ post -> l = Z.of_nat (length pre) -> r = Z.of_nat (length (pre ++ seg)) - 1 ->
  1 <= k <= Z.of_nat (length seg) -> (length seg <= fuel)%nat -> (pre <> [] \/ 2 <= k) ->
  Z.of_nat (length arr) < 2 ^ 63 ->
  exists a v b, kth lt fuel arr l r k = Some (pre ++ (a ++ v :: b) ++ post, v) /\
    Permutation seg (a ++ v :: b) /\ Z.of_nat (length a) = k - 1 /\
    Forall (fun y => le (lt := lt) y v) a /\ Forall (fun y => le (lt := lt) v y) b.
Proof.
  induction fuel as [|fuel IH]; intros pre seg k post l r arr Earr El Er Hk Hf Hpre Hn; [lia|].
  destruct seg as [|x seg _] using rev_ind; [cbn in Hk; lia|]. rewrite !length_app in *. cbn [length] in *.
  assert (Hr0 : 0 < Z.of_nat (length (pre ++ seg)) < 2 ^ 63).
  { subst arr. rewrite !length_app in *. cbn [length] in *. destruct Hpre as [Hpre|]; [|lia].
    destruct pre; [done|]. cbn [length] in *. lia. }
  assert (Hn' : Z.of_nat (length pre + length seg + 1) < 2 ^ 63)
    by (subst arr; rewrite !length_app in Hn; cbn [length] in Hn; lia).
  assert (Er' : r = Z.of_nat (length (pre ++ seg))) by (rewrite length_app; lia).
  cbn [kth]. unfold u64 at 1. rewrite (wrap_id 64 (r - l + 1)) by (rewrite length_app in *; split; lia).
  rewrite (proj2 (Z.ltb_lt 0 k)), (proj2 (Z.leb_le k _)) by (rewrite ?length_app in *; lia). cbn [andb].
  destruct (partition_spec pre seg x post Hr0) as (lo & hi & E & Hp & H1 & H2).
  rewrite <- app_assoc in Earr. cbn [app] in Earr. rewrite Earr, El, Er', E. cbn [mbind option_bind]. clear E.
  pose proof (Permutation_length Hp) as Hlen. rewrite length_app in Hlen. subst arr.
  rewrite !length_app in *. cbn [length] in *.
  unfold u64. rewrite (wrap_id 64 (k - 1)), (wrap_id 64 (_ - Z.of_nat (length pre))) by (split; lia).
  assert (Hp' : Permutation (seg ++ [x]) (lo ++ x :: hi))
    by (rewrite <- Permutation_cons_append, Hp; apply Permutation_middle).
  assert (Hlx : forall v a b, Permutation lo (a ++ v :: b) -> le (lt := lt) v x).
  { intros v a b Hv. rewrite Hv in H1. apply Forall_app in H1 as [_ H1]. by apply Forall_inv in H1. }
  assert (Hxh : forall v a b, Permutation hi (a ++ v :: b) -> lt x v = true).
  { intros v a b Hv. rewrite Hv in H2. apply Forall_app in H2 as [_ H2]. by apply Forall_inv in H2. }
  destruct (Z.eqb_spec (Z.of_nat (length pre + length lo) - Z.of_nat (length pre)) (k - 1)) as [Ek|Ek];
    [|destruct (Z.ltb_spec (k - 1) (Z.of_nat (length pre + length lo) - Z.of_nat (length pre))) as [Hlt|Hge]].
  - rewrite (app_assoc pre lo), (at_mid (pre ++ lo)) by by rewrite length_app. cbn [mbind option_bind].
    exists lo, x, hi. split; [by rewrite <- !app_assoc|]. split; [done|]. split; [lia|]. split; [done|].
    eapply Forall_impl; [exact H2|]. cbn beta. eauto with cpcf.
  - destruct (IH pre lo k (x :: hi ++ post) (Z.of_nat (length pre)) (Z.of_nat (length pre + length lo) - 1)
      (pre ++ lo ++ x :: hi ++ post)) as (a & v & b & E & Hpl & Hla & Ha & Hb); try done; try lia.
    { by rewrite length_app. }
    { rewrite !length_app. cbn [length]. rewrite !length_app. lia. }
    exists a, v, (b ++ x :: hi). rewrite wrap_id, E by (split; lia). split; [by app_norm|].
    split; [rewrite Hp', Hpl; by rewrite <- app_assoc|]. split; [done|]. split; [done|].
    apply Forall_app. split; [done|]. pose proof (Hlx v a b Hpl) as Hvx. constructor; [done|].
    eapply Forall_impl; [exact H2|]. cbn beta. intros y Hy. eapply le_trans; [exact Hvx|by apply lt_le].
  - destruct (IH (pre ++ lo ++ [x]) hi (k - Z.of_nat (length pre + length lo) + Z.of_nat (length pre) - 1) post
      (Z.of_nat (length pre + length lo) + 1) (Z.of_nat (length pre + length seg)) (pre ++ lo ++ x :: hi ++ post))
      as (a & v & b & E & Hpl & Hla & Ha & Hb); try lia.
    { by rewrite <- !app_assoc. }
    { rewrite !length_app. cbn [length]. lia. }
    { rewrite !length_app. cbn [length]. lia. }
    { left. by destruct pre, lo. }
    { rewrite !length_app. cbn [length]. rewrite !length_app. lia. }
    exists (lo ++ x :: a), v, b. rewrite !wrap_id, E by (split; lia).
    split; [by app_norm|].
    split; [rewrite Hp', Hpl; by rewrite <- app_assoc|]. split; [rewrite length_app; cbn [length]; lia|].
    split; [|done]. pose proof (lt_le _ _ (Hxh v a b Hpl)) as Hxv. apply Forall_app.
    split; [|by constructor]. eapply Forall_impl; [exact H1|]. cbn beta. intros y Hy. by eapply le_trans.
Qed.

(** ** Insertion into a sorted array *)

Abbreviation sorted l := (StronglySorted (le (lt := lt)) l).

(** The shift frees the place after the elements not above [x]; the element
    past the shifted ones is lost. *)
Lemma shift_loop_spec pre : forall (x z : A) post,
  exists arr a b, shift_loop lt (length pre) (pre ++ z :: post) x = Some (arr, length a) /\
    <[length a := x]> arr = a ++ x :: b ++ post /\ pre = a ++ b /\
    Forall (fun y => lt x y = true) b /\ (forall a' y, a = a' ++ [y] -> le (lt := lt) y x).
Proof.
  induction pre as [|y pre IH] using rev_ind; intros x z post.
  - exists (z :: post), [], []. repeat split; [constructor|]. intros a' y. by destruct a'.
  - rewrite length_app, Nat.add_comm. cbn [length Nat.add shift_loop].
    assert (Ey : ((pre ++ [y]) ++ z :: post) !! length pre = Some y).
    { rewrite <- app_assoc. by apply list_lookup_middle. }
    rewrite Ey. cbn [mbind option_bind]. destruct (lt x y) eqn:E.
    + assert (Ei : <[S (length pre):=y]> ((pre ++ [y]) ++ z :: post) = pre ++ y :: y :: post).
      { replace (S (length pre)) with (length (pre ++ [y])) by (rewrite length_app; cbn; lia).
        rewrite insert_mid. by app_norm. }
      rewrite Ei. destruct (IH x y (y :: post)) as (arr & a & b & -> & E2 & -> & Hb & Ha).
      exists arr, a, (b ++ [y]). split; [done|]. split; [rewrite E2; by app_norm|]. split; [by app_norm|].
      split; [|done]. apply Forall_app. split; [done|by constructor].
    + exists ((pre ++ [y]) ++ z :: post), (pre ++ [y]), []. split; [do 2 f_equal; rewrite length_app; cbn; lia|].
      split; [by rewrite insert_mid|]. split; [by rewrite app_nil_r|]. split; [constructor|].
      intros a' y' Ea. apply app_inj_2 in Ea as [_ [= <-]]; done.
Qed.

Lemma sorted_insert a b (x : A) : sorted (a ++ b) -> Forall (fun y => lt x y = true) b ->
  (forall a' y, a = a' ++ [y] -> le (lt := lt) y x) -> sorted (a ++ x :: b).
Proof.
  intros Hs Hb Ha. apply StronglySorted_app in Hs as (Hab & Hsa & Hsb).
  apply StronglySorted_app. split; [|split; [done|]].
  - intros u w Hu Hw.
    assert (Hux : le (lt := lt) u x).
    { destruct a as [|y a _] using rev_ind; [by apply not_elem_of_nil in Hu|]. specialize (Ha a y eq_refl).
      apply elem_of_app in Hu as [Hu|Hu]; [|apply list_elem_of_singleton in Hu; by subst].
      apply StronglySorted_app in Hsa as (Hsa & _ & _). eapply le_trans; [|exact Ha]. apply Hsa; [done|].
      by apply list_elem_of_singleton. }
    apply elem_of_cons in Hw as [->|Hw]; [done|]. rewrite Forall_forall in Hb. eapply le_trans; [exact Hux|].
    by apply lt_le, Hb.
  - constructor; [done|]. eapply Forall_impl; [exact Hb|]. cbn beta. eauto with cpcf.
Qed.

(** ** Properties *)

(** C31: for [2 <= k <= n], [FindTopKth] terminates without leaving the array
    and refers to the element of rank [k]: the array is a permutation of what
    it was, the [k - 1] elements before the result are not above it and those
    after it not below. *)
Theorem FindTopKth_correct (arr : list A) k :
  2 <= k <= Z.of_nat (length arr) -> Z.of_nat (length arr) < 2 ^ 63 ->
  exists a v b, FindTopKth lt arr k = Some (a ++ v :: b, v) /\ Permutation arr (a ++ v :: b) /\
    Z.of_nat (length a) = k - 1 /\
    Forall (fun y => lt v y = false) a /\ Forall (fun y => lt y v = false) b.
Proof.
  intros Hk Hn. unfold FindTopKth, u64. rewrite wrap_id by (split; lia).
  destruct (kth_spec (length arr) [] arr k [] 0 (Z.of_nat (length arr) - 1) arr) as (a & v & b & E & Hp & Hl & Ha & Hb);
    try done; try lia; try (by rewrite app_nil_r); try (by right).
  exists a, v, b. cbn [app] in E. rewrite app_nil_r in E. auto.
Qed.

(** [SortedPush] into a sorted array drops the last element and inserts
    [x] after the elements not above it, returning its place; an [x] above the
    last element, or an empty array, is refused with -1 and nothing changes. *)
Theorem SortedPush_sorted (arr : list A) x : sorted arr ->
  (SortedPush lt arr x = Some (arr, -1) /\ Forall (fun y => lt x y = false) arr) \/
  exists a b z, arr = a ++ b ++ [z] /\ SortedPush lt arr x = Some (a ++ x :: b, Z.of_nat (length a)) /\
    sorted (a ++ x :: b) /\ Forall (fun y => lt x y = true) b /\ lt z x = false.
Proof.
  intros Hs. unfold SortedPush. destruct arr as [|z arr _] using rev_ind; [left; split; [done|constructor]|].
  rewrite last_snoc. destruct (lt z x) eqn:Ez.
  - left. split; [done|]. apply StronglySorted_app in Hs as (Hs & _ & _). apply Forall_app.
    split; [|constructor; [by apply lt_le|constructor]]. rewrite Forall_forall. intros y Hy.
    eapply le_trans; [apply Hs; [exact Hy|by apply list_elem_of_singleton]|by apply lt_le].
  - right. rewrite length_app. cbn [length]. replace (length arr + 1 - 1)%nat with (length arr) by lia.
    destruct (shift_loop_spec arr x z []) as (arr' & a & b & -> & E & -> & Hb & Ha). cbn [mbind option_bind].
    rewrite app_nil_r in E. rewrite E. exists a, b, z. split; [by app_norm|]. split; [done|]. split; [|done].
    apply sorted_insert; try done. apply StronglySorted_app in Hs. tauto.
Qed.
End SelectFacts.

Lemma FindTopKth_correct_witness :
  let arr := [5; 3; 9; 1; 7; 3] in
  exists a v b, FindTopKth Z.ltb arr 3 = Some (a ++ v :: b, v) /\ Permutation arr (a ++ v :: b) /\
    Z.of_nat (length a) = 3 - 1 /\
    Forall (fun y => (v <? y) = false) a /\ Forall (fun y => (y <? v) = false) b.
Proof. apply (FindTopKth_correct (lt := Z.ltb) [5; 3; 9; 1; 7; 3] 3); cbn; lia. Defined.

Lemma SortedPush_sorted_witness :
  let arr := [1; 3; 3; 8] in
  (SortedPush Z.ltb arr 3 = Some (arr, -1) /\ Forall (fun y => (3 <? y) = false) arr) \/
  exists a b z, arr = a ++ b ++ [z] /\ SortedPush Z.ltb arr 3 = Some (a ++ 3 :: b, Z.of_nat (length a)) /\
    StronglySorted (le (lt := Z.ltb)) (a ++ 3 :: b) /\ Forall (fun y => (3 <? y) = true) b /\ (z <? 3) = false.
Proof.
  apply (SortedPush_sorted (lt := Z.ltb) [1; 3; 3; 8] 3). repeat constructor.
Defined.

(** Looking for the smallest element ends outside the array as soon as a
    one-element part at its start is partitioned: [r - 1] is then the largest
    [SIZE_T]. *)
Example FindTopKth_smallest_overruns :
  FindTopKth Z.ltb [4] 1 = None /\ FindTopKth Z.ltb [1; 2] 1 = None /\ FindTopKth Z.ltb [2; 1] 1 <> None.
Proof. vm_compute. done. Qed.

(** ** Searches and shuffles *)

Lemma find_loop_spec {A} (eq : A -> A -> bool) v l : forall i,
  (find_loop eq l v i = -1 /\ Forall (fun y => eq y v = false) l) \/
  exists a y b, l = a ++ y :: b /\ find_loop eq l v i = i + Z.of_nat (length a) /\ eq y v = true /\
    Forall (fun y => eq y v = false) a.
Proof.
  induction l as [|y l IH]; intros i; cbn [find_loop]; [left; split; [done|constructor]|].
  destruct (eq y v) eqn:E; [right; exists [], y, l; repeat split; [cbn; lia|done|constructor]|].
  destruct (IH (i + 1)) as [[H1 H2]|(a & w & b & -> & H1 & H2 & H3)].
  - left. split; [done|by constructor].
  - right. exists (y :: a), w, b. repeat split; [rewrite H1; cbn; lia|done|by constructor].
Qed.

Lemma swap_perm {A} (arr : list A) i j : 0 <= i < Z.of_nat (length arr) -> 0 <= j < Z.of_nat (length arr) ->
  exists arr', swap arr i j = Some arr' /\ Permutation arr arr'.
Proof.
  intros Hi Hj.
  destruct (lookup_lt_is_Some_2 arr (Z.to_nat i)) as [a Ea]; [lia|].
  destruct (lookup_lt_is_Some_2 arr (Z.to_nat j)) as [b Eb]; [lia|].
  unfold swap, at_. rewrite (proj2 (Z.leb_le 0 i)), (proj2 (Z.leb_le 0 j)), Ea, Eb by lia. cbn [mbind option_bind].
  eexists. split; [done|]. symmetry. by apply Permutation_insert_swap.
Qed.

Lemma shuffle_loop_perm {A} k : forall (arr : list A) rng i,
  0 <= i -> i + Z.of_nat k < Z.max 1 (Z.of_nat (length arr)) ->
  exists arr', shuffle_loop k arr rng i = Some arr' /\ Permutation arr arr'.
Proof.
  induction k as [|k IH]; intros arr rng i Hi Hk; [by exists arr|]. cbn [shuffle_loop].
  destruct (GetNext rng) as [v rng'] eqn:E. cbn [mbind option_bind].
  pose proof (Z.mod_pos_bound v (Z.of_nat (length arr) - i)) as Hm.
  destruct (swap_perm arr i (i + v mod (Z.of_nat (length arr) - i))) as (a1 & -> & Hp); [lia..|].
  cbn [mbind option_bind]. pose proof (Permutation_length Hp) as Hl.
  destruct (IH a1 rng' (i + 1)) as (a2 & E2 & Hp2); [lia..|]. exists a2. by rewrite Hp.
Qed.

(** [Shuffle] never leaves the array and permutes it. *)
Lemma Shuffle_perm {A} (arr : list A) seed : exists arr', Shuffle arr seed = Some arr' /\ Permutation arr arr'.
Proof. apply shuffle_loop_perm; lia. Qed.

(** [Find] is the first index of an equal element, or -1. *)
Lemma Find_first {A} (eq : A -> A -> bool) v l :
  (Find eq l v = -1 /\ Forall (fun y => eq y v = false) l) \/
  exists a y b, l = a ++ y :: b /\ Find eq l v = Z.of_nat (length a) /\ eq y v = true /\
    Forall (fun y => eq y v = false) a.
Proof. exact (find_loop_spec eq v l 0). Qed.

Lemma max_loop_spec {A} {lt : A -> A -> bool} {WO : WeakOrder lt} l : forall pre (m : nat) mp,
  pre !! m = Some mp -> Forall (fun y => lt mp y = false) pre ->
  (forall j y, (j < m)%nat -> pre !! j = Some y -> lt y mp = true) ->
  exists (m' : nat) mp', max_loop lt l (Z.of_nat (length pre)) (Z.of_nat m) mp = (Z.of_nat m', mp') /\
    (pre ++ l) !! m' = Some mp' /\ Forall (fun y => lt mp' y = false) (pre ++ l) /\
    (forall j y, (j < m')%nat -> (pre ++ l) !! j = Some y -> lt y mp' = true).
Proof.
  induction l as [|x l IH]; intros pre m mp Hm Hall Hfst; cbn [max_loop].
  { rewrite app_nil_r. by exists m, mp. }
  replace (Z.of_nat (length pre) + 1) with (Z.of_nat (length (pre ++ [x]))) by (rewrite length_app; cbn; lia).
  replace (pre ++ x :: l) with ((pre ++ [x]) ++ l) by by rewrite <- app_assoc. destruct (lt mp x) eqn:E.
  - apply IH.
    + by apply list_lookup_middle.
    + apply Forall_app. split; [|constructor; [apply le_refl|constructor]].
      eapply Forall_impl; [exact Hall|]. cbn beta. intros y Hy. eapply nlt_trans; [exact Hy|by apply lt_asym].
    + intros j y Hj Ey. rewrite lookup_app_l in Ey by done. destruct (lt y x) eqn:Eyx; [done|].
      rewrite Forall_forall in Hall. specialize (Hall y (list_elem_of_lookup_2 _ _ _ Ey)).
      by rewrite (nlt_trans x y mp Eyx Hall) in E.
  - apply IH.
    + rewrite lookup_app_l; [done|]. by eapply lookup_lt_Some.
    + apply Forall_app. split; [done|by constructor].
    + intros j y Hj Ey. apply (Hfst j); [done|]. rewrite lookup_app_l in Ey; [done|].
      apply lookup_lt_Some in Hm. lia.
Qed.

(** [Max] is the index of the first maximum and [MaxValue] its element. *)
Lemma Max_first {A} {lt : A -> A -> bool} {WO : WeakOrder lt} (l : list A) : l <> [] ->
  exists (m : nat) v, Max lt l = Z.of_nat m /\ MaxValue lt l = Some v /\ l !! m = Some v /\
    Forall (fun y => lt v y = false) l /\ (forall j y, (j < m)%nat -> l !! j = Some y -> lt y v = true).
Proof.
  destruct l as [|x l]; [done|]. intros _. unfold Max, MaxValue.
  destruct (max_loop_spec l [x] 0 x eq_refl) as (m & v & E & H1 & H2 & H3);
    [constructor; [apply le_refl|constructor]|lia|].
  exists m, v. cbn [length] in E. change (Z.of_nat 1) with 1 in E. change (Z.of_nat 0) with 0 in E. rewrite E. auto.
Qed.
