(* ===== verification/Buffers.v ===== *)
(** [rt::Buffer] and [rt::BufferEx] (rt/buffer_type.h): growable arrays.
    A slot is [None] while no object lives in it (or its contents are
    indeterminate); copying an object bitwise moves it.  Building over a live
    object, destroying a dead one or leaving the allocation has no result. *)
From stdpp Require Import sorting.
From S2P Require Import Prelude Hash Select.

(** ** Definitions *)

(** [cells] is the allocation, [am] the outcomes of the allocations to come
    (all succeed once it is used up). *)
Record buf (A : Type) := Buf { cells : list (option A); len : Z; resv : Z; am : list bool }.
Arguments Buf {A}. Arguments cells {A}. Arguments len {A}. Arguments resv {A}. Arguments am {A}.

Definition set_len {A} (n : Z) (s : buf A) : buf A := Buf (cells s) n (resv s) (am s).
Definition set_resv {A} (n : Z) (s : buf A) : buf A := Buf (cells s) (len s) n (am s).
Definition set_cells {A} (c : list (option A)) (s : buf A) : buf A := Buf c (len s) (resv s) (am s).

Section Buffer.
(** [pod]: the element type is plain data, its constructor and destructor do nothing;
    [dflt]: what the default constructor builds. *)
Context {A : Type} (pod : bool) (dflt : A).
Implicit Types (c : list (option A)) (s : buf A).

(** *** [_xtor] *)

(** [ctor(&p[i], x)] *)
Definition ctor (i : Z) (x : A) c : option (list (option A)) :=
  old ← at_ c i;
  match old with
  | Some _ => if pod then Some (<[Z.to_nat i := Some x]> c) else None
  | None => Some (<[Z.to_nat i := Some x]> c)
  end.

(** [ctor(&p[i])] *)
Definition ctor0 (i : Z) c : option (list (option A)) := if pod then Some c else ctor i dflt c.

(** [dtor(p[i])] *)
Definition dtor (i : Z) c : option (list (option A)) :=
  if pod then Some c
  else old ← at_ c i; match old with Some _ => Some (<[Z.to_nat i := None]> c) | None => None end.

(** The construction loops, from index [i] on. *)
Fixpoint ctors (xs : list A) (i : Z) c : option (list (option A)) :=
  match xs with
  | [] => Some c
  | x :: t => c ← ctor i x c; ctors t (i + 1) c
  end.
Fixpoint ctors0 (n : nat) (i : Z) c : option (list (option A)) :=
  match n with
  | O => Some c
  | S k => c ← ctor0 i c; ctors0 k (i + 1) c
  end.
Fixpoint dtors (n : nat) (i : Z) c : option (list (option A)) :=
  match n with
  | O => Some c
  | S k => c ← dtor i c; dtors k (i + 1) c
  end.

(** *** Memory *)

(** A cell read as an object. *)
Definition obj (i : Z) c : option A := mjoin (at_ c i).

(** [memmove(&p[d], &p[s], n*sizeof(t_Val))]: the objects move, none may be overwritten. *)
Definition memmove (d s n : Z) c : option (list (option A)) :=
  if (0 <=? d) && (0 <=? s) && (0 <=? n) && (d + n <=? Z.of_nat (length c)) && (s + n <=? Z.of_nat (length c)) then
    let '(d, s, n) := (Z.to_nat d, Z.to_nat s, Z.to_nat n) in
    let src := take n (drop s c) in
    let c0 := if pod then c else take s c ++ replicate n None ++ drop (s + n) c in
    if negb pod && existsb (fun x => match x with Some _ => true | None => false end) (take n (drop d c0)) then None
    else Some (take d c0 ++ src ++ drop (d + n) c0)
  else None.

Definition malloc s : bool * buf A :=
  match am s with
  | [] => (true, s)
  | b :: t => (b, Buf (cells s) (len s) (resv s) t)
  end.

(** A new allocation of [n] slots, the first [keep] moved into it, takes the place of the old one. *)
Definition regrow (n keep : Z) c : option (list (option A)) :=
  if (0 <=? keep) && (keep <=? n) && (keep <=? Z.of_nat (length c)) then
    Some (take (Z.to_nat keep) c ++ replicate (Z.to_nat (n - keep)) None)
  else None.

(** *** [Buffer] *)

(** [__SafeFree] *)
Definition SafeFree s : option (buf A) :=
  match cells s with
  | [] => Some s
  | _ => c ← dtors (Z.to_nat (len s)) 0 (cells s); Some (set_cells [] s)
  end.

(** [Buffer::operator =]; the allocation is taken to succeed, as the code asserts. *)
Definition Buffer_assign (x : list A) s : option (buf A) :=
  c ← dtors (Z.to_nat (len s)) 0 (cells s);
  let n := Z.of_nat (length x) in
  let c := if n <=? len s then c else replicate (length x) None in
  c ← ctors x 0 c; Some (Buf c n (resv s) (am s)).

Definition Buffer_SetSize (co : Z) s : option (bool * buf A) :=
  if co =? len s then (if co =? 0 then s ← SafeFree s; Some (true, s) else Some (true, s))
  else
    s ← SafeFree s;
    if co =? 0 then Some (true, set_len 0 s)
    else
      let '(ok, s) := malloc s in
      if ok : bool then
        c ← ctors0 (Z.to_nat co) 0 (replicate (Z.to_nat co) None); Some (true, Buf c co (resv s) (am s))
      else Some (false, set_len 0 s).

Definition ShrinkSize (n : Z) s : option (buf A) :=
  if n =? len s then Some s
  else if n <? len s then c ← dtors (Z.to_nat (len s - n)) n (cells s); Some (set_len n (set_cells c s))
  else Some s.

Definition Buffer_ChangeSize (n : Z) s : option (bool * buf A) :=
  if n <=? len s then s ← ShrinkSize n s; Some (true, s)
  else
    let '(ok, s) := malloc s in
    if ok : bool then
      c ← regrow n (len s) (cells s); c ← ctors0 (Z.to_nat (n - len s)) (len s) c;
      Some (true, set_len n (set_cells c s))
    else Some (false, s).

(** [Buffer::Remove]: [k] turns left. *)
Fixpoint remove_loop (eq : A -> bool) (k : nat) (i op : Z) c : option (Z * list (option A)) :=
  match k with
  | O => Some (op, c)
  | S k' =>
    x ← obj i c;
    if eq x then remove_loop eq k' (i + 1) op c
    else
      c ← (if i =? op then Some c else c ← dtor op c; memmove op i 1 c);
      remove_loop eq k' (i + 1) (op + 1) c
  end.
Definition Remove (eq : A -> bool) s : option (Z * buf A) :=
  '(op, c) ← remove_loop eq (Z.to_nat (len s)) 0 0 (cells s);
  Some (len s - op, set_len op (set_cells c s)).

(** *** [BufferEx] *)

(** [_add_entry] *)
Definition add_entry (co : Z) s : option (bool * buf A) :=
  if u64 (len s + co) <=? resv s then Some (true, set_len (u64 (len s + co)) s)
  else
    let grow n s := c ← regrow n (len s) (cells s); Some (true, Buf c (u64 (len s + co)) n (am s)) in
    let '(ok, s) := malloc s in
    if ok : bool then grow (Z.max (Z.max 4 (u64 (len s + co))) (u64 (resv s * 2))) s
    else
      let '(ok, s) := malloc s in
      if ok : bool then grow (u64 (len s + co)) s else Some (false, s).

Definition SetSize (co : Z) s : option (bool * buf A) :=
  '(ok, s) ← Buffer_SetSize co s;
  if ok : bool then Some (true, set_resv (len s) s) else Some (false, set_resv 0 s).

Definition ChangeSize (n : Z) (keep_old_data : bool) s : option (bool * buf A) :=
  if n =? len s then Some (true, s)
  else if n <? len s then s ← ShrinkSize n s; Some (true, s)
  else
    let fill s := c ← ctors0 (Z.to_nat (n - len s)) (len s) (cells s); Some (true, set_len n (set_cells c s)) in
    let grow s := c ← regrow (resv s) (if keep_old_data then len s else 0) (cells s); fill (set_cells c s) in
    if n <=? resv s then fill s
    else
      let '(ok, s) := malloc (set_resv (Z.max n (u64 (resv s * 2))) s) in
      if ok : bool then grow s
      else
        let '(ok, s) := malloc (set_resv n s) in
        if ok : bool then grow s else Some (false, s).

Definition reserve (co : Z) s : option (bool * buf A) :=
  if resv s <? co then
    let '(ok, s) := malloc s in
    if ok : bool then c ← regrow co (len s) (cells s); Some (true, set_resv co (set_cells c s))
    else Some (false, s)
  else Some (true, s).

Definition compact_memory s : option (buf A) :=
  if len s <? resv s then
    let '(ok, s) := malloc s in
    if ok : bool then c ← regrow (len s) (len s) (cells s); Some (set_resv (len s) (set_cells c s))
    else Some s
  else Some s.

Definition Ex_assign (x : list A) s : option (buf A) :=
  s ← ShrinkSize 0 s;
  let n := Z.of_nat (length x) in
  let s := if n <=? resv s then set_len n s else Buf (replicate (length x) None) n n (am s) in
  c ← ctors x 0 (cells s); Some (set_cells c s).

(** The three forms of [push_front] share the shift of the elements by [count]
    and differ in what they build; [VERIFY] goes on after a failure. *)
Definition push_front0 s : option (buf A) :=
  '(_, s) ← add_entry 1 s;
  c ← memmove 1 0 (u64 (len s - 1)) (cells s); c ← ctor0 0 c; Some (set_cells c s).
Definition push_front (x : A) s : option (buf A) :=
  '(_, s) ← add_entry 1 s;
  c ← memmove 1 0 (u64 (len s - 1)) (cells s); c ← ctor 0 x c; Some (set_cells c s).
Definition push_front_arr (xs : list A) s : option (buf A) :=
  let count := Z.of_nat (length xs) in
  if count =? 0 then Some s
  else
    let sz := len s in
    '(_, s) ← add_entry count s;
    c ← memmove count 0 sz (cells s); c ← ctors xs 0 c; Some (set_cells c s).
Definition push_front_n (x : A) (count : Z) s : option (buf A) :=
  if count =? 0 then Some s
  else
    let sz := len s in
    '(_, s) ← add_entry count s;
    c ← memmove count 0 sz (cells s); c ← ctors (replicate (Z.to_nat count) x) 0 c; Some (set_cells c s).

Definition push_both (x : A) (front_count back_count : Z) s : option (buf A) :=
  if u64 (front_count + back_count) =? 0 then Some s
  else
    let sz := len s in
    '(_, s) ← ChangeSize (u64 (u64 (sz + front_count) + back_count)) true s;
    c ← memmove front_count 0 sz (cells s);
    c ← ctors (replicate (Z.to_nat front_count) x) 0 c;
    c ← ctors (replicate (Z.to_nat (len s - u64 (sz + front_count))) x) (u64 (sz + front_count)) c;
    Some (set_cells c s).

(** The index [len - 1] wraps in an empty buffer. *)
Definition push_back0 s : option (buf A) :=
  '(_, s) ← add_entry 1 s; c ← ctor0 (u64 (len s - 1)) (cells s); Some (set_cells c s).
Definition push_back (x : A) s : option (buf A) :=
  '(_, s) ← add_entry 1 s; c ← ctor (u64 (len s - 1)) x (cells s); Some (set_cells c s).
(** The loops run from the old size to [len], which a failed [_add_entry] leaves unchanged. *)
Definition push_back_arr (xs : list A) s : option (buf A) :=
  let sz := len s in
  '(_, s) ← add_entry (Z.of_nat (length xs)) s;
  c ← ctors (take (Z.to_nat (len s - sz)) xs) sz (cells s); Some (set_cells c s).
Definition push_back_nx (x : A) (count : Z) s : option (buf A) :=
  let sz := len s in
  '(_, s) ← add_entry count s;
  c ← ctors (replicate (Z.to_nat (len s - sz)) x) sz (cells s); Some (set_cells c s).
(** The index of the first new element, or none. *)
Definition push_back_n (count : Z) s : option (option Z * buf A) :=
  let sz := len s in
  '(ok, s) ← ChangeSize (u64 (sz + count)) true s; Some (if ok : bool then Some sz else None, s).

Definition erase (index : Z) s : option (buf A) :=
  c ← dtor index (cells s);
  let s := set_len (u64 (len s - 1)) s in
  c ← memmove index (index + 1) (u64 (len s - index)) c; Some (set_cells c s).
Definition erase_range (index_begin index_end : Z) s : option (buf A) :=
  let index_end := u64 (index_end + 1) in
  c ← dtors (Z.to_nat (index_end - index_begin)) index_begin (cells s);
  c ← memmove index_begin index_end (u64 (len s - index_end)) c;
  Some (set_len (u64 (len s - (index_end - index_begin))) (set_cells c s)).
Definition pop_back s : option (buf A) :=
  let s := set_len (u64 (len s - 1)) s in
  c ← dtor (len s) (cells s); Some (set_cells c s).
Definition pop_front s : option (buf A) :=
  let s := set_len (u64 (len s - 1)) s in
  c ← dtor 0 (cells s); c ← memmove 0 1 (len s) c; Some (set_cells c s).

Definition insert1 (index : Z) s : option (buf A) :=
  '(_, s) ← add_entry 1 s;
  if index <? u64 (len s - 1) then
    c ← memmove (index + 1) index (u64 (u64 (len s - index) - 1)) (cells s);
    c ← ctor0 index c; Some (set_cells c s)
  else Some s.
Definition insert_n (index count : Z) s : option (bool * buf A) :=
  '(ok, s) ← reserve (u64 (len s + count)) s;
  if ok : bool then
    c ← memmove (index + count) index (u64 (len s - index)) (cells s);
    c ← ctors0 (Z.to_nat count) index c; Some (true, set_len (u64 (len s + count)) (set_cells c s))
  else Some (false, s).
Definition insert_nx (index count : Z) (x : A) s : option (bool * buf A) :=
  '(ok, s) ← reserve (u64 (len s + count)) s;
  if ok : bool then
    c ← memmove (index + count) index (u64 (len s - index)) (cells s);
    c ← ctors (replicate (Z.to_nat count) x) index c; Some (true, set_len (u64 (len s + count)) (set_cells c s))
  else Some (false, s).

(** The loop of [BufferEx::SortedPush], [p] being [p] in it: the place found. *)
Fixpoint sorted_loop (lt : A -> A -> bool) (x : A) (fuel : nat) (p : Z) c : option (Z * list (option A)) :=
  match fuel with
  | O => None
  | S f =>
    y ← obj p c;
    if lt x y then c ← memmove (p + 1) p 1 c; sorted_loop lt x f (p - 1) c
    else Some (p + 1, c)
  end.

Definition Ex_SortedPush (lt : A -> A -> bool) (x : A) s : option (Z * buf A) :=
  front ← (if len s =? 0 then Some true else y ← obj 0 (cells s); Some (lt x y));
  if front : bool then s ← push_front x s; Some (0, s)
  else
    '(ok, s) ← (if resv s =? len s then reserve (u64 (u64 (len s * 2) + 1)) s else Some (true, s));
    if ok : bool then
      let s := set_len (u64 (len s + 1)) s in
      '(p, c) ← sorted_loop lt x (length (cells s)) (len s - 2) (cells s);
      c ← ctor p x c; Some (p, set_cells c s)
    else Some (-1, s).

(** [Find]: [k] cells left from index [i] on. *)
Fixpoint find_cells (eq : A -> A -> bool) (x : A) (k : nat) (i : Z) c : option Z :=
  match k with
  | O => Some (-1)
  | S k' => y ← obj i c; if eq y x then Some i else find_cells eq x k' (i + 1) c
  end.
Definition Include (eq : A -> A -> bool) (x : A) s : option (bool * buf A) :=
  i ← find_cells eq x (Z.to_nat (len s)) 0 (cells s);
  if i =? -1 then s ← push_back x s; Some (true, s) else Some (false, s).
End Buffer.

(** ** Slots *)

Section BufferFacts.
Context {A : Type} (pod : bool) (dflt : A).
Implicit Types (c l t g : list (option A)) (s : buf A).

(** For plain data every slot may hold anything. *)
Definition raw g : Prop := pod = false -> g = replicate (length g) None.
Definition live l : Prop := pod = false -> Forall is_Some l.
(** What [n] default constructors leave. *)
Definition fresh (n : nat) g : Prop := length g = n /\ (pod = false -> g = replicate n (Some dflt)).

Lemma raw_nil : raw [].
Proof. done. Qed.
Lemma raw_replicate n : raw (replicate n None).
Proof. intros _. by rewrite length_replicate. Qed.
Lemma raw_app g1 g2 : raw (g1 ++ g2) <-> raw g1 /\ raw g2.
Proof.
  unfold raw. destruct pod; [by split|]. rewrite length_app, replicate_add. split.
  - intros H. apply app_inj_1 in H; [tauto|by rewrite length_replicate|done].
  - intros [H1 H2] _. by f_equal; auto.
Qed.
Lemma raw_take n g : raw g -> raw (take n g).
Proof. intros H. eapply (raw_app _ (drop n g)). by rewrite take_drop. Qed.
Lemma raw_drop n g : raw g -> raw (drop n g).
Proof. intros H. eapply (raw_app (take n g) _). by rewrite take_drop. Qed.
Lemma live_app l1 l2 : live (l1 ++ l2) <-> live l1 /\ live l2.
Proof. unfold live. rewrite Forall_app. tauto. Qed.
Lemma live_fmap (xs : list A) : live (Some <$> xs).
Proof. intros _. apply Forall_fmap, Forall_true. by eexists. Qed.
Lemma live_nil : live [].
Proof. intros _. constructor. Qed.
Lemma live_some x : live [Some x].
Proof. apply (live_fmap [x]). Qed.
Lemma live_replicate n x : live (replicate n (Some x)).
Proof. rewrite <- fmap_replicate. apply live_fmap. Qed.
Lemma live_fresh n g : fresh n g -> live g.
Proof. intros [_ Hg] Hp. rewrite Hg by done. apply Forall_replicate. by eexists. Qed.
Lemma fresh_0 : fresh 0 [].
Proof. done. Qed.

Lemma raw_split n g : (n <= length g)%nat -> raw g -> exists g1 g2, g = g1 ++ g2 /\ length g1 = n /\ raw g1 /\ raw g2.
Proof.
  intros Hn H. exists (take n g), (drop n g). rewrite take_drop, length_take_le by done.
  split; [done|]. split; [done|]. apply raw_app. by rewrite take_drop.
Qed.
Lemma raw_1 g : raw g -> length g = 1%nat -> pod = false -> g = [None].
Proof. intros H Hl Hp. rewrite (H Hp), Hl. done. Qed.

(** *** The primitives over concatenations *)

Lemma ctor_spec pre g post i x : i = Z.of_nat (length pre) -> raw g -> length g = 1%nat ->
  ctor pod i x (pre ++ g ++ post) = Some (pre ++ Some x :: post).
Proof.
  intros Hi Hg Hl. destruct g as [|y [|]]; cbn in Hl; try lia. cbn [app]. unfold ctor.
  rewrite (at_mid pre y post i Hi). cbn [mbind option_bind]. subst i. rewrite Nat2Z.id, insert_mid.
  destruct y; [|done]. destruct (bool_dec pod true) as [Ep|Ep%not_true_is_false]; [by rewrite Ep|].
  by pose proof (raw_1 _ Hg eq_refl Ep).
Qed.

Lemma ctor0_nonpod i c : pod = false -> ctor0 pod dflt i c = ctor pod i dflt c.
Proof. intros Hp. unfold ctor0. by rewrite Hp. Qed.

Lemma ctors_spec xs : forall pre g post i, i = Z.of_nat (length pre) -> raw g -> length g = length xs ->
  ctors pod xs i (pre ++ g ++ post) = Some (pre ++ (Some <$> xs) ++ post).
Proof.
  induction xs as [|x xs IH]; intros pre g post i Hi Hg Hl.
  { destruct g; [done|cbn in Hl; lia]. }
  destruct (raw_split 1 g) as (g1 & g2 & -> & Hl1 & H1 & H2); [cbn in Hl; lia|done|].
  rewrite length_app in Hl. cbn [length] in Hl. cbn [ctors].
  rewrite <- app_assoc, (ctor_spec pre g1 _ i x) by done. cbn [mbind option_bind].
  replace (pre ++ Some x :: g2 ++ post) with ((pre ++ [Some x]) ++ g2 ++ post) by by rewrite <- app_assoc.
  rewrite (IH (pre ++ [Some x])); [by rewrite <- app_assoc| |done|lia].
  rewrite length_app. cbn. lia.
Qed.

Lemma ctors0_spec n : forall pre g post i, i = Z.of_nat (length pre) -> raw g -> length g = n ->
  exists g', ctors0 pod dflt n i (pre ++ g ++ post) = Some (pre ++ g' ++ post) /\ fresh n g'.
Proof.
  induction n as [|n IH]; intros pre g post i Hi Hg Hl.
  { destruct g; [|cbn in Hl; lia]. by exists []. }
  destruct (raw_split 1 g) as (g1 & g2 & -> & Hl1 & H1 & H2); [lia|done|].
  rewrite length_app in Hl. cbn [ctors0].
  assert (exists y, ctor0 pod dflt i (pre ++ (g1 ++ g2) ++ post) = Some (pre ++ y :: g2 ++ post) /\
    (pod = false -> y = Some dflt)) as (y & Ey & Hy).
  { destruct (bool_dec pod true) as [Ep|Ep%not_true_is_false].
    - destruct g1 as [|y [|]]; cbn in Hl1; try lia. exists y. unfold ctor0. by rewrite Ep.
    - exists (Some dflt). split; [|done]. rewrite <- app_assoc, ctor0_nonpod by done. by apply ctor_spec. }
  rewrite Ey. cbn [mbind option_bind].
  destruct (IH (pre ++ [y]) g2 post (i + 1)) as (g' & E & Hl' & Hd); [rewrite length_app; cbn; lia|done|lia|].
  rewrite <- !app_assoc in E. cbn [app] in E. exists (y :: g'). split; [done|]. split; [cbn; lia|].
  intros Hp. cbn. by rewrite (Hd Hp), (Hy Hp).
Qed.

Lemma ctor0_spec pre g post i : i = Z.of_nat (length pre) -> raw g -> length g = 1%nat ->
  exists g', ctor0 pod dflt i (pre ++ g ++ post) = Some (pre ++ g' ++ post) /\ fresh 1 g'.
Proof.
  intros Hi Hg Hl. destruct (ctors0_spec 1 pre g post i Hi Hg Hl) as (g' & E & Hg'). exists g'. split; [|done].
  cbn [ctors0] in E. by destruct (ctor0 _ _ _ _).
Qed.

Lemma dtors_spec l : forall pre post i, i = Z.of_nat (length pre) -> live l ->
  exists g, dtors pod (length l) i (pre ++ l ++ post) = Some (pre ++ g ++ post) /\ raw g /\ length g = length l.
Proof.
  induction l as [|y l IH]; intros pre post i Hi Hl; [by exists []|].
  apply (live_app [y]) in Hl as [Hy Hl]. cbn [length dtors app].
  assert (exists z, dtor pod i (pre ++ y :: l ++ post) = Some (pre ++ z :: l ++ post) /\
    (pod = false -> z = None)) as (z & Ez & Hz).
  { destruct (bool_dec pod true) as [Ep|Ep%not_true_is_false]; unfold dtor.
    - exists y. rewrite Ep. split; [done|congruence].
    - specialize (Hy Ep). inversion_clear Hy as [|? ? [v ->] _]. exists None. split; [|done].
      rewrite Ep, at_mid by done. cbn [mbind option_bind]. subst i. by rewrite Nat2Z.id, insert_mid. }
  rewrite Ez. cbn [mbind option_bind].
  destruct (IH (pre ++ [z]) post (i + 1)) as (g & E & Hg & Hgl); [rewrite length_app; cbn; lia|done|].
  rewrite <- !app_assoc in E. cbn [app] in E. exists (z :: g). split; [done|]. split; [|cbn; lia].
  intros Hp. cbn. rewrite (Hz Hp). f_equal. by apply Hg.
Qed.

Lemma dtor_spec pre y post i : i = Z.of_nat (length pre) -> live [y] ->
  exists g, dtor pod i (pre ++ y :: post) = Some (pre ++ g ++ post) /\ raw g /\ length g = 1%nat.
Proof.
  intros Hi Hy. destruct (dtors_spec [y] pre post i Hi Hy) as (g & E & Hg & Hl). exists g.
  cbn [length dtors app] in E. split; [|done]. revert E. by destruct (dtor pod i (pre ++ y :: post)).
Qed.

(** What a move leaves behind it. *)
Definition vacated (g : list (option A)) : list (option A) := if pod then g else replicate (length g) None.
Lemma raw_vacated g : raw (vacated g).
Proof. intros Hp. unfold vacated. rewrite Hp. by rewrite length_replicate. Qed.
Lemma length_vacated g : length (vacated g) = length g.
Proof. unfold vacated. destruct pod; [done|apply length_replicate]. Qed.

Lemma existsb_raw g : raw g ->
  negb pod && existsb (fun x => match x with Some _ => true | None => false end) g = false.
Proof.
  intros Hg. destruct (bool_dec pod true) as [Ep|Ep%not_true_is_false]; rewrite Ep; [done|]. rewrite (Hg Ep).
  cbn [negb andb]. by induction (length g).
Qed.

(** The objects [l] move up over the free slots [g], or down. *)
Lemma memmove_up pre l g post d i n : i = Z.of_nat (length pre) -> d = i + Z.of_nat (length g) ->
  n = Z.of_nat (length l) -> raw g ->
  exists g', memmove pod d i n (pre ++ l ++ g ++ post) = Some (pre ++ g' ++ l ++ post) /\
    raw g' /\ length g' = length g.
Proof.
  intros Hi Hd Hn Hg. set (c0 := vacated l ++ g).
  assert (Hc0 : raw c0) by (apply raw_app; split; [apply raw_vacated|done]).
  assert (Hlc : length c0 = (length g + length l)%nat) by (unfold c0; rewrite length_app, length_vacated; lia).
  assert (Hlc' : drop (length g) c0 = drop (length g) c0 ++ []) by by rewrite app_nil_r.
  exists (take (length g) c0). split; [|split; [by apply raw_take|rewrite length_take; lia]].
  - unfold memmove. rewrite !length_app.
    repeat (rewrite (proj2 (Z.leb_le _ _)) by lia). cbn beta iota zeta delta [andb].
    rewrite Hn, Nat2Z.id. replace (Z.to_nat i) with (length pre) by lia.
    replace (Z.to_nat d) with (length pre + length g)%nat by lia.
    assert (Es : take (length l) (drop (length pre) (pre ++ l ++ g ++ post)) = l)
      by by rewrite drop_app_length, take_app_length.
    rewrite Es. assert (E : (if pod then pre ++ l ++ g ++ post
      else take (length pre) (pre ++ l ++ g ++ post) ++ replicate (length l) None ++
           drop (length pre + length l) (pre ++ l ++ g ++ post)) = pre ++ c0 ++ post).
    { unfold c0, vacated. destruct pod; [by rewrite <- app_assoc|].
      rewrite take_app_length, <- drop_drop, drop_app_length, drop_app_length, <- app_assoc. done. }
    rewrite E, <- drop_drop, drop_app_length.
    assert (E2 : drop (length g) (c0 ++ post) = drop (length g) c0 ++ post) by (apply drop_app_le; lia).
    rewrite E2, take_app_le, take_ge by (rewrite length_drop; lia).
    rewrite existsb_raw by by apply raw_drop.
    rewrite <- !drop_drop, drop_app_length, E2.
    rewrite drop_app_length' by (rewrite length_drop; lia).
    f_equal. rewrite take_app, take_ge by lia.
    replace (length pre + length g - length pre)%nat with (length g) by lia.
    rewrite take_app_le by lia. by rewrite <- !app_assoc.
Qed.

Lemma memmove_down pre g l post d i n : d = Z.of_nat (length pre) -> i = d + Z.of_nat (length g) ->
  n = Z.of_nat (length l) -> raw g ->
  exists g', memmove pod d i n (pre ++ g ++ l ++ post) = Some (pre ++ l ++ g' ++ post) /\
    raw g' /\ length g' = length g.
Proof.
  intros Hd Hi Hn Hg. set (c0 := g ++ vacated l).
  assert (Hc0 : raw c0) by (apply raw_app; split; [done|apply raw_vacated]).
  assert (Hlc : length c0 = (length g + length l)%nat) by (unfold c0; rewrite length_app, length_vacated; lia).
  exists (drop (length l) c0). split; [|split; [by apply raw_drop|rewrite length_drop; lia]].
  - unfold memmove. rewrite !length_app.
    repeat (rewrite (proj2 (Z.leb_le _ _)) by lia). cbn beta iota zeta delta [andb].
    rewrite Hn, Nat2Z.id. replace (Z.to_nat d) with (length pre) by lia.
    replace (Z.to_nat i) with (length pre + length g)%nat by lia.
    assert (E : (if pod then pre ++ g ++ l ++ post
      else take (length pre + length g) (pre ++ g ++ l ++ post) ++ replicate (length l) None ++
           drop (length pre + length g + length l) (pre ++ g ++ l ++ post)) = pre ++ c0 ++ post).
    { unfold c0, vacated. destruct pod; [by rewrite <- app_assoc|].
      rewrite <- !drop_drop, !drop_app_length, take_app, take_ge by lia.
      replace (length pre + length g - length pre)%nat with (length g) by lia.
      rewrite take_app_length, <- !app_assoc. done. }
    assert (Es : take (length l) (drop (length pre + length g) (pre ++ g ++ l ++ post)) = l)
      by by rewrite <- drop_drop, !drop_app_length, take_app_length.
    rewrite Es, E, <- !drop_drop, !drop_app_length, !take_app_length.
    rewrite take_app_le by lia. rewrite existsb_raw by by apply raw_take.
    rewrite drop_app_le by lia. done.
Qed.
End BufferFacts.

(** ** The representation of a list *)

Lemma u64_id x : 0 <= x < 2 ^ 64 -> u64 x = x.
Proof. apply wrap_id. Qed.
Ltac u64s := repeat match goal with |- context [u64 ?x] => rewrite (u64_id x) by lia end.

Section Rep.
Context {A : Type} (pod : bool) (dflt : A).
Implicit Types (c l t g : list (option A)) (s : buf A).
Abbreviation zlen l := (Z.of_nat (length l)).

(** The buffer holds [l]: the slots up to [len] hold objects, those after it none. *)
Definition rep s l : Prop := exists t,
  cells s = l ++ t /\ raw pod t /\ live pod l /\ len s = zlen l /\ zlen l <= resv s <= zlen l + zlen t.

(** No allocation fails. *)
Definition ready s : Prop := Forall (eq true) (am s).

(** The sizes reached with [co] more elements are far from the width of [SIZE_T]. *)
Definition room (co : Z) s : Prop := 0 <= co /\ zlen (cells s) + co < 2 ^ 61.

Lemma rep_intro s l t : cells s = l ++ t -> raw pod t -> live pod l -> len s = zlen l ->
  zlen l <= resv s <= zlen l + zlen t -> rep s l.
Proof. intros. by exists t. Qed.

Lemma room_weaken co co' s : room co s -> 0 <= co' <= co -> room co' s.
Proof. unfold room. lia. Qed.

Lemma malloc_ready s : ready s -> exists a, malloc s = (true, Buf (cells s) (len s) (resv s) a) /\ Forall (eq true) a.
Proof.
  unfold ready, malloc. destruct s as [c n r [|b a]]; cbn; [eauto|]. inversion_clear 1. subst. eauto.
Qed.

Lemma regrow_spec l t n k : k = zlen l -> k <= n ->
  regrow n k (l ++ t) = Some (l ++ replicate (Z.to_nat (n - k)) None).
Proof.
  intros -> Hn. unfold regrow. rewrite length_app.
  repeat (rewrite (proj2 (Z.leb_le _ _)) by lia). cbn [andb]. by rewrite Nat2Z.id, take_app_length.
Qed.

Lemma add_entry_spec co s l : rep s l -> ready s -> room co s ->
  exists s' g t, add_entry co s = Some (true, s') /\ ready s' /\ cells s' = l ++ g ++ t /\ raw pod g /\ raw pod t /\
    live pod l /\ len s = zlen l /\ zlen l + co < 2 ^ 61 /\
    zlen g = co /\ len s' = zlen l + co /\ zlen l + co <= resv s' <= zlen l + co + zlen t.
Proof.
  intros (t & Ec & Ht & Hl & El & Hr) Ha [Hco Hroom]. rewrite Ec, length_app in Hroom.
  assert (exists s' t, add_entry co s = Some (true, s') /\ ready s' /\ cells s' = l ++ t /\ raw pod t /\
    len s' = zlen l + co /\ zlen l + co <= resv s' <= zlen l + zlen t) as (s' & t' & E & Ha' & Ec' & Ht' & El' & Hr').
  { unfold add_entry. rewrite El. u64s.
    destruct (Z.leb_spec (zlen l + co) (resv s)) as [Hle|Hgt].
    { eexists _, t. split; [done|]. cbn. repeat split; try done; lia. }
    destruct (malloc_ready s Ha) as (a & -> & Ha'). cbn [cells len resv am]. u64s.
    rewrite El, Ec, regrow_spec by lia. cbn [mbind option_bind].
    eexists _, _. split; [done|]. cbn. u64s. split; [done|]. split; [done|]. split; [apply raw_replicate|].
    rewrite length_replicate. lia. }
  destruct (raw_split pod (Z.to_nat co) t') as (g & t2 & -> & Hg & Hg1 & Ht2); [lia|done|].
  rewrite length_app in Hr'. exists s', g, t2. repeat split; try done; lia.
Qed.

(** What a step leaves: a result and a list, and no failed allocation ahead. *)
Definition yields {R} (o : option (R * buf A)) (P : R -> list (option A) -> Prop) : Prop :=
  exists r s' l', o = Some (r, s') /\ P r l' /\ rep s' l' /\ ready s'.
Definition ok (o : option (buf A)) : option (unit * buf A) := s ← o; Some (tt, s).

Lemma yields_intro {R} l' t (r : R) s' (P : R -> list (option A) -> Prop) : P r l' -> ready s' ->
  cells s' = l' ++ t -> raw pod t -> live pod l' ->
  len s' = zlen l' -> zlen l' <= resv s' <= zlen l' + zlen t -> yields (Some (r, s')) P.
Proof. intros. exists r, s', l'. repeat split; try done. by exists t. Qed.

Lemma yields_id {R} s l (r : R) (P : R -> list (option A) -> Prop) : rep s l -> ready s -> P r l -> yields (Some (r, s)) P.
Proof. intros. by exists r, s, l. Qed.

(** The side conditions of [yields_intro]. *)
Ltac side := cbn [cells len resv am set_cells set_len set_resv length]; u64s;
  rewrite ?length_app, ?length_fmap, ?length_replicate, ?fmap_replicate in *; cbn [length] in *;
  rewrite ?live_app, ?raw_app in *;
  repeat match goal with |- _ /\ _ => split end;
  first [ done | lia | (by app_norm) | (by eauto using live_fmap, live_some, live_nil, raw_nil, live_replicate, live_fresh, raw_replicate) | idtac ].
Ltac grown H Hs Ha Hr := destruct (add_entry_spec _ _ _ Hs Ha Hr) as
  (s1 & g & t & H & Ha1 & Ec & Hg & Ht & Hl & El0 & Hsz & Hlg & El & Hr1).

(** *** Pushing *)

Section Push.
Context s l (Hs : rep s l) (Ha : ready s).

Lemma push_back_spec x : room 1 s -> yields (ok (push_back pod x s)) (fun _ l' => l' = l ++ [Some x]).
Proof.
  intros Hr. unfold push_back, ok. grown E Hs Ha Hr. rewrite E. cbn [mbind option_bind]. rewrite El, Ec. u64s.
  rewrite (ctor_spec pod l g t _ x) by (done || lia). cbn [mbind option_bind].
  apply (yields_intro (l ++ [Some x]) t); side.
Qed.

Lemma push_back0_spec : room 1 s ->
  yields (ok (push_back0 pod dflt s)) (fun _ l' => exists g, fresh pod dflt 1 g /\ l' = l ++ g).
Proof.
  intros Hr. unfold push_back0, ok. grown E Hs Ha Hr. rewrite E. cbn [mbind option_bind]. rewrite El, Ec. u64s.
  destruct (ctor0_spec pod dflt l g t (zlen l + 1 - 1)) as (g' & -> & Hg'); [lia|done|lia|]. cbn [mbind option_bind].
  apply (yields_intro (l ++ g') t); destruct (Hg') as [Hgl _]; side.
Qed.

Lemma push_back_nx_spec x n : room n s ->
  yields (ok (push_back_nx pod x n s)) (fun _ l' => l' = l ++ replicate (Z.to_nat n) (Some x)).
Proof.
  intros Hr. unfold push_back_nx, ok. grown E Hs Ha Hr. rewrite E. cbn [mbind option_bind]. rewrite El, Ec, El0.
  replace (zlen l + n - zlen l) with n by lia.
  rewrite (ctors_spec pod _ l g t) by (done || rewrite ?length_replicate; lia). cbn [mbind option_bind].
  apply (yields_intro (l ++ replicate (Z.to_nat n) (Some x)) t); side.
Qed.

Lemma push_back_arr_spec xs : room (zlen xs) s ->
  yields (ok (push_back_arr pod xs s)) (fun _ l' => l' = l ++ (Some <$> xs)).
Proof.
  intros Hr. unfold push_back_arr, ok. grown E Hs Ha Hr. rewrite E. cbn [mbind option_bind]. rewrite El, Ec, El0.
  replace (zlen l + zlen xs - zlen l) with (zlen xs) by lia. rewrite Nat2Z.id, take_ge by done.
  rewrite (ctors_spec pod _ l g t) by (done || lia). cbn [mbind option_bind].
  apply (yields_intro (l ++ (Some <$> xs)) t); side.
Qed.

(** The elements have moved up by [n] slots. *)
Lemma shifted n l0 g t : zlen g = n -> raw pod g ->
  exists g', memmove pod n 0 (zlen l0) (l0 ++ g ++ t) = Some (g' ++ l0 ++ t) /\ raw pod g' /\ length g' = length g.
Proof. intros Hg Hr. by apply (memmove_up pod [] l0 g t n 0 (zlen l0)). Qed.

Lemma push_front_spec x : room 1 s -> yields (ok (push_front pod x s)) (fun _ l' => l' = Some x :: l).
Proof.
  intros Hr. unfold push_front, ok. grown E Hs Ha Hr. rewrite E. cbn [mbind option_bind]. rewrite El, Ec. u64s.
  replace (zlen l + 1 - 1) with (zlen l) by lia. destruct (shifted 1 l g t Hlg Hg) as (g' & -> & Hg' & Hlg').
  cbn [mbind option_bind]. rewrite (ctor_spec pod [] g' (l ++ t)) by (done || lia). cbn [mbind option_bind].
  apply (yields_intro (Some x :: l) t); side. by apply (live_app pod [Some x]); split; [apply live_some|].
Qed.

Lemma push_front0_spec : room 1 s ->
  yields (ok (push_front0 pod dflt s)) (fun _ l' => exists g, fresh pod dflt 1 g /\ l' = g ++ l).
Proof.
  intros Hr. unfold push_front0, ok. grown E Hs Ha Hr. rewrite E. cbn [mbind option_bind]. rewrite El, Ec. u64s.
  replace (zlen l + 1 - 1) with (zlen l) by lia. destruct (shifted 1 l g t Hlg Hg) as (g' & -> & Hg' & Hlg').
  cbn [mbind option_bind]. destruct (ctor0_spec pod dflt [] g' (l ++ t) 0) as (g2 & E2 & Hg2); [done|done|lia|].
  cbn [app] in E2. rewrite E2. cbn [mbind option_bind].
  apply (yields_intro (g2 ++ l) t); destruct (Hg2) as [Hgl _]; side.
Qed.

Lemma push_front_arr_spec xs : room (zlen xs) s ->
  yields (ok (push_front_arr pod xs s)) (fun _ l' => l' = (Some <$> xs) ++ l).
Proof.
  intros Hr. unfold push_front_arr, ok. destruct (Z.eqb_spec (zlen xs) 0) as [E0|E0].
  { destruct xs; [|done]. by apply (yields_id s l). }
  grown E Hs Ha Hr. rewrite E. cbn [mbind option_bind]. rewrite El0, Ec.
  destruct (shifted _ l g t Hlg Hg) as (g' & -> & Hg' & Hlg'). cbn [mbind option_bind].
  rewrite (ctors_spec pod xs [] g' (l ++ t)) by (done || lia). cbn [mbind option_bind app].
  apply (yields_intro ((Some <$> xs) ++ l) t); side.
Qed.

Lemma push_front_n_spec x n : room n s ->
  yields (ok (push_front_n pod x n s)) (fun _ l' => l' = replicate (Z.to_nat n) (Some x) ++ l).
Proof.
  intros Hr. unfold push_front_n, ok. destruct (Z.eqb_spec n 0) as [->|E0]; [by apply (yields_id s l)|].
  grown E Hs Ha Hr. rewrite E. cbn [mbind option_bind]. rewrite El0, Ec.
  destruct (shifted _ l g t Hlg Hg) as (g' & -> & Hg' & Hlg'). cbn [mbind option_bind].
  rewrite (ctors_spec pod _ [] g' (l ++ t)) by (done || rewrite ?length_replicate; lia). cbn [mbind option_bind app].
  rewrite fmap_replicate. apply (yields_intro (replicate (Z.to_nat n) (Some x) ++ l) t); side.
Qed.
End Push.

(** *** Erasing *)

Section Erase.
Context s l (Hs : rep s l) (Ha : ready s) (Hr : room 0 s).

Ltac opened := destruct (Hs) as (t & Ec & Ht & Hl & El & Hrs); destruct (Hr) as [_ Hsz]; rewrite Ec, length_app in Hsz.

Lemma erase_range_spec a m b i j : l = a ++ m ++ b -> i = zlen a -> j = i + zlen m - 1 -> (0 < length m)%nat ->
  yields (ok (erase_range pod i j s)) (fun _ l' => l' = a ++ b).
Proof.
  intros El0 Hi Hj Hm. opened. unfold erase_range, ok. subst l. rewrite !length_app in *. rewrite El, Ec. u64s.
  apply live_app in Hl as [Hla Hl]. apply live_app in Hl as [Hlm Hlb].
  replace (Z.to_nat (j + 1 - i)) with (length m) by lia. rewrite <- !app_assoc.
  destruct (dtors_spec pod m a (b ++ t) i Hi Hlm) as (g & -> & Hg & Hlg). cbn [mbind option_bind].
  destruct (memmove_down pod a g b t i (j + 1) (Z.of_nat (length a + (length m + length b)) - (j + 1)))
    as (g' & -> & Hg' & Hlg'); [done|lia|lia|done|]. cbn [mbind option_bind].
  apply (yields_intro (a ++ b) (g' ++ t)); side.
Qed.

Lemma erase_spec a y b i : l = a ++ y :: b -> i = zlen a ->
  yields (ok (erase pod i s)) (fun _ l' => l' = a ++ b).
Proof.
  intros El0 Hi. opened. unfold erase, ok. subst l. rewrite !length_app in *. cbn [length] in *.
  cbn [cells len resv am set_len set_cells]. rewrite El, Ec. u64s.
  apply live_app in Hl as [Hla Hl]. apply (live_app pod [y]) in Hl as [Hly Hlb]. rewrite <- !app_assoc. cbn [app].
  destruct (dtor_spec pod a y (b ++ t) i Hi Hly) as (g & -> & Hg & Hlg). cbn [mbind option_bind].
  destruct (memmove_down pod a g b t i (i + 1) (Z.of_nat (length a + S (length b)) - 1 - i))
    as (g' & -> & Hg' & Hlg'); [done|lia|lia|done|]. cbn [mbind option_bind].
  apply (yields_intro (a ++ b) (g' ++ t)); side.
Qed.

Lemma pop_back_spec a y : l = a ++ [y] -> yields (ok (pop_back pod s)) (fun _ l' => l' = a).
Proof.
  intros El0. opened. unfold pop_back, ok. subst l. rewrite !length_app in *. cbn [length] in *.
  cbn [cells len resv am set_len set_cells]. rewrite El, Ec. u64s. apply live_app in Hl as [Hla Hly].
  rewrite <- app_assoc. cbn [app]. replace (Z.of_nat (length a + 1) - 1) with (zlen a) by lia.
  destruct (dtor_spec pod a y t _ eq_refl Hly) as (g & -> & Hg & Hlg). cbn [mbind option_bind].
  apply (yields_intro a (g ++ t)); side.
Qed.

Lemma pop_front_spec y b : l = y :: b -> yields (ok (pop_front pod s)) (fun _ l' => l' = b).
Proof.
  intros El0. opened. unfold pop_front, ok. subst l. cbn [length app] in *.
  cbn [cells len resv am set_len set_cells]. rewrite El, Ec. u64s. apply (live_app pod [y]) in Hl as [Hly Hlb].
  destruct (dtor_spec pod [] y (b ++ t) 0 eq_refl Hly) as (g & E & Hg & Hlg). cbn [app] in E. rewrite E.
  cbn [mbind option_bind]. replace (Z.of_nat (S (length b)) - 1) with (zlen b) by lia.
  destruct (memmove_down pod [] g b t 0 1 (zlen b)) as (g' & E2 & Hg' & Hlg'); [done|cbn; lia|done|done|].
  cbn [app] in E2. rewrite E2. cbn [mbind option_bind]. apply (yields_intro b (g' ++ t)); side.
Qed.

Lemma ShrinkSize_spec a b n : l = a ++ b -> n = zlen a -> yields (ok (ShrinkSize pod n s)) (fun _ l' => l' = a).
Proof.
  intros El0 Hn. opened. unfold ShrinkSize, ok. rewrite El, El0. subst l. rewrite length_app in *.
  destruct (Z.eqb_spec n (Z.of_nat (length a + length b))).
  { assert (b = []) as -> by (destruct b; [done|cbn in *; lia]). rewrite app_nil_r in *. by apply (yields_id s a). }
  rewrite (proj2 (Z.ltb_lt _ _)) by lia. rewrite Ec. apply live_app in Hl as [Hla Hlb].
  replace (Z.to_nat (Z.of_nat (length a + length b) - n)) with (length b) by lia. rewrite <- app_assoc.
  destruct (dtors_spec pod b a t n Hn Hlb) as (g & -> & Hg & Hlg). cbn [mbind option_bind].
  apply (yields_intro a (g ++ t)); side.
Qed.

(** *** Capacity *)

Lemma reserve_spec co : 0 <= co ->
  exists s', reserve co s = Some (true, s') /\ rep s' l /\ ready s' /\ co <= resv s' /\ resv s <= resv s'.
Proof.
  intros Hco. opened. unfold reserve.
  destruct (Z.ltb_spec (resv s) co) as [Hlt|Hge]; [|exists s; repeat split; done || lia].
  destruct (malloc_ready s Ha) as (a & -> & Ha'). cbn [cells len resv am].
  rewrite Ec, El, regrow_spec by lia. cbn [mbind option_bind]. eexists. split; [done|]. cbn. split; [|split; [done|lia]].
  apply (rep_intro _ _ (replicate (Z.to_nat (co - zlen l)) None)); side.
Qed.

Lemma compact_memory_spec : yields (ok (compact_memory s)) (fun _ l' => l' = l).
Proof.
  opened. unfold compact_memory, ok. destruct (Z.ltb_spec (len s) (resv s)); [|by apply (yields_id s l)].
  destruct (malloc_ready s Ha) as (a & -> & Ha'). cbn [cells len resv am].
  rewrite Ec, El, regrow_spec by lia. cbn [mbind option_bind].
  apply (yields_intro l (replicate (Z.to_nat (zlen l - zlen l)) None)); side.
Qed.

(** The elements are followed by [k] free slots. *)
Lemma rep_gap s' k : rep s' l -> zlen l + k <= resv s' -> 0 <= k ->
  exists g t, cells s' = l ++ g ++ t /\ raw pod g /\ raw pod t /\ live pod l /\ len s' = zlen l /\ zlen g = k /\
    resv s' <= zlen l + k + zlen t.
Proof.
  intros (t & Ec & Ht & Hl & El & Hrs) Hk H0.
  destruct (raw_split pod (Z.to_nat k) t) as (g & t' & -> & Hg & Hg1 & Ht'); [lia|done|].
  rewrite length_app in Hrs. exists g, t'. repeat split; try done; lia.
Qed.

Lemma ChangeSize_grow n : zlen l <= n -> room n s ->
  yields (ChangeSize pod dflt n true s)
    (fun r l' => r = true /\ exists g, fresh pod dflt (Z.to_nat (n - zlen l)) g /\ l' = l ++ g).
Proof.
  intros Hn [_ Hrn]. opened. rewrite Ec, length_app in Hrn. unfold ChangeSize.
  destruct (Z.eqb_spec n (len s)) as [En|En].
  { apply (yields_id s l); [done..|]. split; [done|]. exists []. rewrite app_nil_r. split; [|done].
    replace (Z.to_nat (n - zlen l)) with O by lia. apply fresh_0. }
  rewrite (proj2 (Z.ltb_ge _ _)) by lia.
  assert (Hfill : forall s' t', cells s' = l ++ t' -> raw pod t' -> len s' = zlen l -> ready s' ->
    n <= resv s' <= zlen l + zlen t' ->
    yields (c ← ctors0 pod dflt (Z.to_nat (n - len s)) (len s) (cells s'); Some (true, set_len n (set_cells c s')))
      (fun r l' => r = true /\ exists g, fresh pod dflt (Z.to_nat (n - zlen l)) g /\ l' = l ++ g)).
  { intros s' t' Ec' Ht' El' Ha' Hr'. rewrite El, Ec'.
    destruct (raw_split pod (Z.to_nat (n - zlen l)) t') as (g & t2 & -> & Hg & Hg1 & Ht2); [lia|done|].
    destruct (ctors0_spec pod dflt (Z.to_nat (n - zlen l)) l g t2 (zlen l)) as (g' & -> & Hg'); [done..|].
    rewrite length_app in Hr'. cbn [mbind option_bind].
    apply (yields_intro (l ++ g') t2); destruct (Hg') as [Hgl _]; side. }
  destruct (Z.leb_spec n (resv s)) as [Hle|Hgt]; [apply (Hfill s t); done || lia|]. u64s.
  destruct (malloc_ready (set_resv (Z.max n (resv s * 2)) s) Ha) as (a & -> & Ha').
  cbn [cells len resv am set_resv]. rewrite Ec, El at 1. rewrite regrow_spec by lia. cbn [mbind option_bind].
  eapply (Hfill (Buf _ _ _ _)); cbn [cells len resv am set_cells]; [done|apply raw_replicate|done|done|].
  rewrite length_replicate. lia.
Qed.

Lemma SetSize_spec co : room co s ->
  yields (SetSize pod dflt co s) (fun r l' => r = true /\
    if co =? zlen l then l' = l else fresh pod dflt (Z.to_nat co) l').
Proof.
  intros [Hco _]. opened. unfold SetSize, Buffer_SetSize, SafeFree. rewrite El.
  assert (Hd : exists c, dtors pod (Z.to_nat (len s)) 0 (cells s) = Some c).
  { rewrite El, Ec, Nat2Z.id. destruct (dtors_spec pod l [] t 0 eq_refl Hl) as (g & E & _). eauto. }
  assert (Hf : match cells s with [] => Some s | _ => c ← dtors pod (Z.to_nat (zlen l)) 0 (cells s); Some (set_cells [] s) end
    = Some (set_cells [] s)).
  { rewrite El in Hd. destruct Hd as [c Hd]. destruct s as [cs n r a]; cbn in *. by destruct cs; [|rewrite Hd]. }
  rewrite Hf. destruct (Z.eqb_spec co (zlen l)) as [->|Hne].
  - destruct (Z.eqb_spec (zlen l) 0) as [E0|E0]; cbn [mbind option_bind].
    + destruct l; [|done]. apply (yields_intro [] []); side.
    + apply (yields_intro l t); side.
  - cbn [mbind option_bind]. destruct (Z.eqb_spec co 0) as [->|E0]; cbn [mbind option_bind].
    + apply (yields_intro [] []); side.
    + destruct (malloc_ready (set_cells [] s) Ha) as (a & -> & Ha'). cbn [cells len resv am set_cells].
      destruct (ctors0_spec pod dflt (Z.to_nat co) [] (replicate (Z.to_nat co) None) [] 0) as (g & E & Hg);
        [done|apply raw_replicate|apply length_replicate|].
      cbn [app] in E. rewrite !app_nil_r in E. rewrite E. cbn [mbind option_bind].
      apply (yields_intro g []); destruct (Hg) as [Hgl _]; side. by rewrite app_nil_r.
Qed.

Lemma Ex_assign_spec xs : room (zlen xs) s -> yields (ok (Ex_assign pod xs s)) (fun _ l' => l' = Some <$> xs).
Proof.
  intros [_ Hx]. unfold Ex_assign, ok.
  destruct (ShrinkSize_spec [] l 0 eq_refl eq_refl) as ([] & s1 & l1 & E & -> & Hs1 & Ha1).
  unfold ok in E. destruct (ShrinkSize pod 0 s) as [s1'|]; [|done]. injection E as ->. cbn [mbind option_bind].
  destruct Hs1 as (t & Ec & Ht & _ & El & Hr1). cbn [app] in Ec. destruct (Z.leb_spec (zlen xs) (resv s1)).
  - destruct (raw_split pod (length xs) t) as (g & t2 & -> & Hg & Hg1 & Ht2); [cbn in *; lia|done|].
    cbn [cells set_len]. rewrite Ec. rewrite (ctors_spec pod xs [] g t2) by done. cbn [mbind option_bind app].
    apply (yields_intro (Some <$> xs) t2); side.
  - cbn [cells]. pose proof (ctors_spec pod xs [] (replicate (length xs) None) [] 0 eq_refl) as E.
    cbn [app] in E. rewrite !app_nil_r in E. rewrite E by (apply raw_replicate || apply length_replicate).
    cbn [mbind option_bind]. apply (yields_intro (Some <$> xs) []); side; by rewrite ?app_nil_r.
Qed.
End Erase.

(** *** Inserting *)

Section Insert.
Context s l (Hs : rep s l) (Ha : ready s).

Lemma insert1_spec a b i : room 1 s -> l = a ++ b -> i = zlen a -> b <> [] ->
  yields (ok (insert1 pod dflt i s)) (fun _ l' => exists g, fresh pod dflt 1 g /\ l' = a ++ g ++ b).
Proof.
  intros Hr Eab Hi Hb. unfold insert1, ok. grown E Hs Ha Hr. rewrite E. cbn [mbind option_bind]. rewrite El, Ec.
  subst l. rewrite !length_app in *. assert (0 < length b)%nat by (destruct b; [done|cbn; lia]). u64s.
  rewrite (proj2 (Z.ltb_lt _ _)) by lia. apply live_app in Hl as [Hla Hlb]. rewrite <- !app_assoc.
  destruct (memmove_up pod a b g t (i + 1) i (Z.of_nat (length a + length b) + 1 - i - 1)) as (g' & -> & Hg' & Hlg');
    [done|lia|lia|done|]. cbn [mbind option_bind].
  destruct (ctor0_spec pod dflt a g' (b ++ t) i) as (g2 & -> & Hg2); [done|done|lia|]. cbn [mbind option_bind].
  apply (yields_intro (a ++ g2 ++ b) t); destruct (Hg2) as [Hgl _]; side.
Qed.

(** The gap of [n] slots at the index, after [reserve]. *)
Lemma insert_gap a b i n : room n s -> l = a ++ b -> i = zlen a ->
  exists s' g t, reserve (u64 (len s + n)) s = Some (true, s') /\ ready s' /\ len s' = zlen a + zlen b /\
    memmove pod (i + n) i (u64 (len s' - i)) (cells s') = Some (a ++ g ++ b ++ t) /\
    raw pod g /\ raw pod t /\ live pod a /\ live pod b /\ zlen g = n /\ zlen a + zlen b + n < 2 ^ 61 /\
    zlen a + zlen b + n <= resv s' <= zlen a + zlen b + n + zlen t.
Proof.
  intros Hr Eab Hi. destruct (Hs) as (t0 & Ec0 & _ & _ & El0 & Hr0). destruct (Hr) as [Hn Hsz].
  rewrite Ec0, length_app in Hsz. rewrite El0. subst l. rewrite length_app in *. u64s.
  destruct (reserve_spec s (a ++ b) Hs Ha) with (co := Z.of_nat (length a + length b) + n)
    as (s1 & -> & Hs1 & Ha1 & Hc1 & Hc2); [apply (room_weaken n); done || lia|lia|].
  destruct (rep_gap (a ++ b) s1 n Hs1) as (g & t & Ec & Hg & Ht & Hl & El & Hlg & Hr1); [rewrite length_app; lia|lia|].
  rewrite length_app in *. apply live_app in Hl as [Hla Hlb].
  destruct (memmove_up pod a b g t (i + n) i (u64 (len s1 - i))) as (g' & E & Hg' & Hlg');
    [done|lia|rewrite El; u64s; lia|done|].
  exists s1, g', t. rewrite Ec, <- app_assoc. repeat split; try done; lia.
Qed.

Lemma insert_n_spec a b i n : room n s -> l = a ++ b -> i = zlen a ->
  yields (insert_n pod dflt i n s)
    (fun r l' => r = true /\ exists g, fresh pod dflt (Z.to_nat n) g /\ l' = a ++ g ++ b).
Proof.
  intros Hr Eab Hi. destruct (insert_gap a b i n Hr Eab Hi)
    as (s1 & g & t & E1 & Ha1 & El1 & E2 & Hg & Ht & Hla & Hlb & Hlg & Hsz & Hr1).
  destruct (Hs) as (t0 & _ & _ & _ & El0 & _). subst l. rewrite length_app in El0.
  destruct Hr as [Hn _]. unfold insert_n. rewrite E1. cbn [mbind option_bind]. rewrite E2. cbn [mbind option_bind].
  destruct (ctors0_spec pod dflt (Z.to_nat n) a g (b ++ t) i) as (g2 & -> & Hg2); [done|done|lia|].
  cbn [mbind option_bind]. apply (yields_intro (a ++ g2 ++ b) t); destruct (Hg2) as [Hgl _]; side.
Qed.

Lemma insert_nx_spec a b i n x : room n s -> l = a ++ b -> i = zlen a ->
  yields (insert_nx pod i n x s) (fun r l' => r = true /\ l' = a ++ replicate (Z.to_nat n) (Some x) ++ b).
Proof.
  intros Hr Eab Hi. destruct (insert_gap a b i n Hr Eab Hi)
    as (s1 & g & t & E1 & Ha1 & El1 & E2 & Hg & Ht & Hla & Hlb & Hlg & Hsz & Hr1).
  destruct (Hs) as (t0 & _ & _ & _ & El0 & _). subst l. rewrite length_app in El0.
  destruct Hr as [Hn _]. unfold insert_nx. rewrite E1. cbn [mbind option_bind]. rewrite E2. cbn [mbind option_bind].
  rewrite (ctors_spec pod _ a g (b ++ t)) by (done || rewrite ?length_replicate; lia). cbn [mbind option_bind].
  rewrite fmap_replicate. apply (yields_intro (a ++ replicate (Z.to_nat n) (Some x) ++ b) t); side.
Qed.

Lemma push_back_n_spec n : 0 <= n -> room (len s + n) s ->
  yields (push_back_n pod dflt n s)
    (fun r l' => r = Some (zlen l) /\ exists g, fresh pod dflt (Z.to_nat n) g /\ l' = l ++ g).
Proof.
  intros Hn Hr. destruct (Hs) as (t0 & Ec0 & _ & _ & El0 & Hr0). destruct (Hr) as [_ Hsz].
  rewrite Ec0, length_app in Hsz. unfold push_back_n. u64s.
  destruct (ChangeSize_grow s l Hs Ha) with (n := len s + n) as (r & s1 & l1 & -> & (-> & g & Hg & ->) & Hs1 & Ha1);
    [by apply (room_weaken (len s + n)); [|lia]|lia|done|].
  cbn [mbind option_bind]. rewrite El0 in *. replace (zlen l + n - zlen l) with n in Hg by lia.
  exists (Some (zlen l)), s1, (l ++ g). eauto 10.
Qed.

(** Plain data only: the slots at the back have been constructed before. *)
Lemma push_both_spec x f b : pod = true -> 0 <= f -> 0 <= b -> room (len s + f + b) s ->
  yields (ok (push_both pod dflt x f b s))
    (fun _ l' => l' = replicate (Z.to_nat f) (Some x) ++ l ++ replicate (Z.to_nat b) (Some x)).
Proof.
  intros Hp Hf Hb Hr. destruct (Hs) as (t0 & Ec0 & _ & _ & El0 & Hr0). destruct (Hr) as [_ Hsz].
  rewrite Ec0, length_app in Hsz. unfold push_both, ok. u64s. destruct (Z.eqb_spec (f + b) 0) as [E0|E0].
  { apply (yields_id s l); [done..|]. replace f with 0 by lia. replace b with 0 by lia. cbn. by rewrite app_nil_r. }
  destruct (ChangeSize_grow s l Hs Ha) with (n := len s + f + b) as (r & s1 & l1 & -> & (-> & g & Hg & ->) & Hs1 & Ha1);
    [apply (room_weaken (len s + f + b)); done || lia|lia|done|].
  cbn [mbind option_bind]. destruct Hg as [Hgl _]. destruct Hs1 as (t & Ec & Ht & Hl & El & Hr1).
  rewrite El0 in *. rewrite !length_app in *.
  assert (Hraw : forall g, raw pod g) by (intros ?; unfold raw; congruence).
  destruct (raw_split pod (Z.to_nat f) g) as (g1 & g2 & -> & Hg1 & _ & _); [lia|done|].
  rewrite length_app in *. rewrite Ec, El, <- !app_assoc.
  destruct (shifted f l g1 (g2 ++ t)) as (g' & -> & Hg' & Hlg'); [lia|done|]. cbn [mbind option_bind].
  rewrite (ctors_spec pod _ [] g' (l ++ g2 ++ t)) by (done || rewrite ?length_replicate; lia).
  cbn [mbind option_bind app]. rewrite fmap_replicate, app_assoc.
  replace (Z.to_nat (Z.of_nat (length l + (length g1 + length g2)) - (zlen l + f))) with (Z.to_nat b) by lia.
  rewrite (ctors_spec pod _ _ g2 t) by (done || rewrite ?length_app, ?length_replicate; lia).
  cbn [mbind option_bind]. rewrite fmap_replicate.
  apply (yields_intro (replicate (Z.to_nat f) (Some x) ++ l ++ replicate (Z.to_nat b) (Some x)) t); side;
    unfold live; congruence.
Qed.
End Insert.

(** *** [SortedPush], [Include] *)

Lemma obj_mid (pre : list (option A)) y post i : i = zlen pre -> obj i (pre ++ Some y :: post) = Some y.
Proof. intros Hi. unfold obj. by rewrite at_mid. Qed.

Lemma sorted_loop_spec (lt : A -> A -> bool) x pre : forall fuel p g post,
  (forall y pre', pre = y :: pre' -> lt x y = false) -> pre <> [] ->
  p = zlen pre - 1 -> raw pod g -> length g = 1%nat -> (length pre <= fuel)%nat ->
  exists a b g', pre = a ++ b /\
    sorted_loop pod lt x fuel p ((Some <$> pre) ++ g ++ post) =
      Some (zlen a, (Some <$> a) ++ g' ++ (Some <$> b) ++ post) /\
    raw pod g' /\ length g' = 1%nat /\ Forall (fun y => lt x y = true) b /\
    (forall a' y, a = a' ++ [y] -> lt x y = false).
Proof.
  induction pre as [|y pre IH] using rev_ind; intros fuel p g post H0 Hne Hp Hg Hlg Hf; [done|].
  rewrite length_app in *. cbn [length] in *. destruct fuel as [|fuel]; [lia|]. cbn [sorted_loop].
  rewrite fmap_app, <- app_assoc. cbn [fmap list_fmap app].
  rewrite obj_mid by (rewrite length_fmap; lia). cbn [mbind option_bind]. destruct (lt x y) eqn:E.
  - destruct (memmove_up pod (Some <$> pre) [Some y] g post (p + 1) p 1) as (g' & E2 & Hg' & Hlg');
      [rewrite length_fmap; lia|lia|done|done|]. cbn [app] in E2. rewrite E2. cbn [mbind option_bind].
    destruct (IH fuel (p - 1) g' (Some y :: post)) as (a & b & g2 & -> & E3 & Hg2 & Hlg2 & Hb & Hla); try done; try lia.
    { intros z pre' ->. by apply (H0 z (pre' ++ [y])). }
    { intros ->. by rewrite (H0 y []) in E. }
    exists a, (b ++ [y]), g2. rewrite E3. split; [by rewrite <- app_assoc|].
    split; [rewrite fmap_app; by app_norm|]. split; [done|]. split; [done|]. split; [|done].
    apply Forall_app. split; [done|by constructor].
  - exists (pre ++ [y]), [], g. rewrite app_nil_r. split; [done|].
    split; [rewrite length_app; cbn [length]; rewrite fmap_app; app_norm; do 2 f_equal; lia|].
    split; [done|]. split; [done|]. split; [constructor|]. intros a' z Ez. apply app_inj_2 in Ez as [_ [= <-]]; done.
Qed.

Section SortedPush.
Context (lt : A -> A -> bool) s (xs : list A) (Hs : rep s (Some <$> xs)) (Ha : ready s) (x : A).

(** [x] comes after the elements not above it. *)
Definition placed (r : Z) (l' : list (option A)) : Prop :=
  exists a b, xs = a ++ b /\ l' = Some <$> a ++ x :: b /\ r = zlen a /\
    (b <> [] -> exists z b', b = z :: b' /\ lt x z = true) /\ (forall a' y, a = a' ++ [y] -> lt x y = false).

Lemma Ex_SortedPush_spec : room (2 * len s + 1) s -> yields (Ex_SortedPush pod lt x s) placed.
Proof.
  intros Hr. unfold Ex_SortedPush. pose proof Hs as (t0 & Ec0 & _ & _ & El0 & Hr0). pose proof Hr as [_ Hsz].
  rewrite Ec0, length_app in Hsz. rewrite length_fmap in *.
  assert (Hfront : (xs = [] \/ exists y xs', xs = y :: xs' /\ lt x y = true) ->
    yields (s ← push_front pod x s; Some (0, s)) placed).
  { intros Hx. destruct (push_front_spec s _ Hs Ha x) as ([] & s1 & l1 & E & -> & Hs1 & Ha1);
      [apply (room_weaken (2 * len s + 1)); done || lia|]. unfold ok in E.
    destruct (push_front pod x s); [|done]. injection E as ->. cbn [mbind option_bind].
    exists 0, s1, (Some x :: (Some <$> xs)). repeat split; try done. exists [], xs. repeat split.
    - intros Hne. destruct Hx as [|(y & xs' & -> & E)]; [done|eauto].
    - intros a' y. by destruct a'. }
  destruct xs as [|y xs'] eqn:Exs.
  { rewrite El0. cbn. apply Hfront. by left. }
  rewrite <- Exs in *. rewrite (proj2 (Z.eqb_neq (len s) 0)) by (rewrite El0, Exs; cbn; lia).
  assert (E0 : obj 0 (cells s) = Some y) by by rewrite Ec0, Exs. rewrite E0. cbn [mbind option_bind].
  destruct (lt x y) eqn:Exy; [apply Hfront; right; eauto|]. clear Hfront.
  assert (exists s1, (if resv s =? len s then reserve (u64 (u64 (len s * 2) + 1)) s else Some (true, s)) =
    Some (true, s1) /\ rep s1 (Some <$> xs) /\ ready s1 /\ zlen (Some <$> xs) + 1 <= resv s1)
    as (s1 & -> & Hs1 & Ha1 & Hr1).
  { rewrite length_fmap. destruct (Z.eqb_spec (resv s) (len s)) as [Er|Er]; [|exists s; repeat split; done || lia].
    u64s. destruct (reserve_spec s _ Hs Ha) with (co := len s * 2 + 1) as (s1 & -> & Hs1 & Ha1 & Hc & _); [|lia|].
    { apply (room_weaken (2 * len s + 1)); done || lia. }
    exists s1. repeat split; try done. lia. }
  cbn [mbind option_bind].
  destruct (rep_gap _ s1 1 Hs1 Hr1) as (g & t & Ec & Hg & Ht & Hl & El & Hlg & Hr2); [lia|].
  cbn [cells len resv am set_len]. rewrite Ec, El. rewrite length_fmap in *. u64s.
  destruct (sorted_loop_spec lt x xs (length ((Some <$> xs) ++ g ++ t)) (zlen xs + 1 - 2) g t)
    as (a & b & g' & Eab & -> & Hg' & Hlg' & Hb & Hla); try done; try lia.
  { intros z pre'. rewrite Exs. by intros [= <- _]. }
  { by rewrite Exs. }
  { rewrite length_app, length_fmap. lia. }
  cbn [mbind option_bind]. rewrite ctor_spec by (done || by rewrite length_fmap). cbn [mbind option_bind].
  apply (yields_intro (Some <$> a ++ x :: b) t); try done; cbn [cells len resv set_cells set_len].
  - exists a, b. repeat split; try done. intros Hne. destruct b as [|z b']; [done|]. inversion_clear Hb. eauto.
  - rewrite fmap_app. by app_norm.
  - apply live_fmap.
  - rewrite length_fmap, Eab, !length_app. cbn. lia.
  - rewrite length_fmap in *. rewrite Eab in *. rewrite !length_app in *. cbn. lia.
Qed.
End SortedPush.

Lemma find_cells_spec (eq : A -> A -> bool) x xs : forall (pre post : list (option A)) i, i = zlen pre ->
  exists r, find_cells eq x (length xs) i (pre ++ (Some <$> xs) ++ post) = Some r /\
    (r = -1 <-> Forall (fun y => eq y x = false) xs).
Proof.
  induction xs as [|y xs IH]; intros pre post i Hi; cbn [length find_cells].
  { exists (-1). split; [done|]. split; [constructor|done]. }
  cbn [fmap list_fmap app]. rewrite obj_mid by done. cbn [mbind option_bind]. destruct (eq y x) eqn:E.
  { exists i. split; [done|]. split; [lia|]. intros H. inversion_clear H. congruence. }
  destruct (IH (pre ++ [Some y]) post (i + 1)) as (r & Er & Hr); [rewrite length_app; cbn; lia|].
  rewrite <- app_assoc in Er. exists r. split; [done|]. rewrite Hr. split; [by constructor|by inversion_clear 1].
Qed.

Lemma Include_spec (eq : A -> A -> bool) x xs s : rep s (Some <$> xs) -> ready s -> room 1 s ->
  yields (Include pod eq x s) (fun r l' => (r = true <-> Forall (fun y => eq y x = false) xs) /\
    l' = Some <$> if r then xs ++ [x] else xs).
Proof.
  intros Hs Ha Hr. unfold Include. pose proof Hs as (t0 & Ec0 & _ & _ & El0 & _). rewrite length_fmap in El0.
  rewrite El0, Nat2Z.id, Ec0. destruct (find_cells_spec eq x xs [] t0 0 eq_refl) as (r & E & Hx).
  cbn [app] in E. rewrite E. cbn [mbind option_bind]. destruct (Z.eqb_spec r (-1)) as [Er|Er].
  - destruct (push_back_spec s _ Hs Ha x Hr) as ([] & s1 & l1 & E1 & -> & Hs1 & Ha1). unfold ok in E1.
    destruct (push_back pod x s); [|done]. injection E1 as ->. cbn [mbind option_bind].
    apply (yields_id s1 (Some <$> xs ++ [x])); [by rewrite fmap_app|done|]. tauto.
  - apply (yields_id s (Some <$> xs)); [done..|]. split; [|done]. split; [done|]. tauto.
Qed.

(** Plain data only: [Remove] filters. *)
Lemma remove_loop_spec (p : A -> bool) xs : forall (done_ : list A) (gap post : list (option A)) i op,
  pod = true -> op = zlen done_ -> i = op + zlen gap ->
  exists gap', remove_loop pod p (length xs) i op ((Some <$> done_) ++ gap ++ (Some <$> xs) ++ post) =
    Some (zlen (done_ ++ List.filter (fun x => negb (p x)) xs),
      (Some <$> done_ ++ List.filter (fun x => negb (p x)) xs) ++ gap' ++ post) /\
    (length gap' + length (List.filter (fun x => negb (p x)) xs) = length gap + length xs)%nat.
Proof.
  induction xs as [|x xs IH]; intros d gap post i op Hp Hop Hi; cbn [length remove_loop List.filter].
  { exists gap. rewrite app_nil_r, Hop. cbn. split; [done|lia]. }
  cbn [fmap list_fmap app]. rewrite app_assoc, obj_mid by (rewrite length_app, length_fmap; lia).
  cbn [mbind option_bind]. destruct (p x) eqn:Epx; cbn [negb].
  { destruct (IH d (gap ++ [Some x]) post (i + 1) op Hp Hop) as (gap' & E & Hl);
      [rewrite length_app; cbn; lia|]. rewrite <- !app_assoc in E. cbn [app] in E.
    rewrite <- app_assoc, E. exists gap'. split; [done|]. rewrite length_app in Hl. cbn in *. lia. }
  assert (Hraw : forall g, raw pod g) by (intros ?; unfold raw; congruence).
  assert (exists gap', length gap' = length gap /\
    (if i =? op then Some (((Some <$> d) ++ gap) ++ Some x :: (Some <$> xs) ++ post)
     else c ← dtor pod op (((Some <$> d) ++ gap) ++ Some x :: (Some <$> xs) ++ post); memmove pod op i 1 c) =
    Some ((Some <$> d ++ [x]) ++ gap' ++ (Some <$> xs) ++ post)) as (gap1 & Hlg & ->).
  { destruct (Z.eqb_spec i op) as [Eio|Eio].
    - exists []. assert (gap = []) as -> by (destruct gap; [done|cbn in *; lia]). split; [done|].
      rewrite fmap_app. by app_norm.
    - unfold dtor. rewrite Hp. cbn [mbind option_bind].
      destruct (memmove_down pod (Some <$> d) gap [Some x] ((Some <$> xs) ++ post) op i 1) as (g & E & _ & Hl);
        [by rewrite length_fmap|done|done|done|]. rewrite <- Hp. rewrite <- app_assoc. cbn [app] in E. rewrite E.
      exists g. split; [done|]. rewrite fmap_app. by app_norm. }
  cbn [mbind option_bind].
  destruct (IH (d ++ [x]) gap1 post (i + 1) (op + 1) Hp) as (gap' & E & Hl);
    [rewrite length_app; cbn; lia|rewrite Hlg; lia|].
  rewrite E, <- app_assoc. exists gap'. split; [done|]. cbn. lia.
Qed.

Lemma Remove_spec (p : A -> bool) xs s : pod = true -> rep s (Some <$> xs) -> ready s ->
  yields (Remove pod p s) (fun r l' => l' = Some <$> List.filter (fun x => negb (p x)) xs /\ r = zlen xs - zlen l').
Proof.
  intros Hp (t & Ec & Ht & Hl & El & Hr) Ha. unfold Remove. rewrite length_fmap in *. rewrite El, Nat2Z.id, Ec.
  destruct (remove_loop_spec p xs [] [] t 0 0 Hp eq_refl eq_refl) as (gap & E). cbn [app fmap list_fmap] in E.
  destruct E as [E Hlg]. cbn [length] in Hlg. rewrite E. cbn [mbind option_bind]. set (ys := List.filter _ xs) in *.
  eapply (yields_intro (Some <$> ys) (gap ++ t)); cbn [cells len resv set_cells set_len]; try done.
  - by rewrite length_fmap.
  - intros; congruence.
  - apply live_fmap.
  - by rewrite length_fmap.
  - rewrite length_fmap, length_app. lia.
Qed.

(** *** [Buffer], which has no reserve *)

Definition brep s l : Prop := exists t, cells s = l ++ t /\ raw pod t /\ live pod l /\ len s = zlen l.

Lemma Buffer_assign_spec xs s l : brep s l -> exists s', Buffer_assign pod xs s = Some s' /\ brep s' (Some <$> xs).
Proof.
  intros (t & Ec & Ht & Hl & El). unfold Buffer_assign. rewrite El, Ec, Nat2Z.id.
  destruct (dtors_spec pod l [] t 0 eq_refl Hl) as (g & E & Hg & Hlg). cbn [app] in E. rewrite E.
  cbn [mbind option_bind]. destruct (Z.leb_spec (zlen xs) (zlen l)).
  - destruct (raw_split pod (length xs) g) as (g1 & g2 & -> & Hl1 & H1 & H2); [lia|done|]. rewrite <- app_assoc.
    pose proof (ctors_spec pod xs [] g1 (g2 ++ t) 0 eq_refl H1 Hl1) as E1. cbn [app] in E1. rewrite E1.
    cbn [mbind option_bind]. eexists. split; [done|]. exists (g2 ++ t). cbn. rewrite length_fmap.
    split; [done|]. split; [by apply raw_app|]. split; [apply live_fmap|done].
  - pose proof (ctors_spec pod xs [] (replicate (length xs) None) [] 0 eq_refl) as E1.
    cbn [app] in E1. rewrite !app_nil_r in E1. rewrite E1 by (apply raw_replicate || apply length_replicate).
    cbn [mbind option_bind]. eexists. split; [done|]. exists []. cbn. rewrite length_fmap, app_nil_r.
    split; [done|]. split; [done|]. split; [apply live_fmap|done].
Qed.

Lemma Buffer_ChangeSize_spec n s l : brep s l -> ready s -> 0 <= n ->
  exists s' l', Buffer_ChangeSize pod dflt n s = Some (true, s') /\ brep s' l' /\
    if n <=? zlen l then l' = take (Z.to_nat n) l
    else exists g, fresh pod dflt (Z.to_nat (n - zlen l)) g /\ l' = l ++ g.
Proof.
  intros (t & Ec & Ht & Hl & El) Ha Hn. unfold Buffer_ChangeSize, ShrinkSize. rewrite El.
  destruct (Z.leb_spec n (zlen l)) as [Hle|Hgt].
  - destruct (Z.eqb_spec n (zlen l)) as [->|Hne].
    { exists s, l. rewrite Nat2Z.id, take_ge by done. split; [done|]. split; [by exists t|done]. }
    rewrite (proj2 (Z.ltb_lt _ _)) by lia. rewrite Ec. rewrite <- (take_drop (Z.to_nat n) l) in Hl.
    apply live_app in Hl as [Hl1 Hl2]. 
    replace (l ++ t) with (take (Z.to_nat n) l ++ drop (Z.to_nat n) l ++ t) by by rewrite app_assoc, take_drop.
    replace (Z.to_nat (zlen l - n)) with (length (drop (Z.to_nat n) l)) by (rewrite length_drop; lia).
    destruct (dtors_spec pod (drop (Z.to_nat n) l) (take (Z.to_nat n) l) t n) as (g & -> & Hg & Hlg);
      [rewrite length_take; lia|done|]. cbn [mbind option_bind]. eexists _, _. split; [done|]. split; [|done].
    exists (g ++ t). cbn. split; [done|]. split; [by apply raw_app|]. split; [done|]. rewrite length_take. lia.
  - destruct (malloc_ready s Ha) as (a & -> & Ha'). cbn [cells len resv am].
    rewrite Ec, El, regrow_spec by lia. cbn [mbind option_bind].
    destruct (ctors0_spec pod dflt (Z.to_nat (n - zlen l)) l (replicate (Z.to_nat (n - zlen l)) None) [] (zlen l))
      as (g & E & Hg); [done|apply raw_replicate|apply length_replicate|]. rewrite !app_nil_r in E. rewrite E.
    cbn [mbind option_bind]. exists (set_len n (set_cells (l ++ g) (Buf (cells s) (zlen l) (resv s) a))), (l ++ g).
    split; [done|]. split; [|by exists g]. exists []. cbn. destruct (Hg) as [Hlg _].
    rewrite app_nil_r, length_app. split; [done|]. split; [apply raw_nil|].
    split; [apply live_app; split; [done|by eapply live_fresh]|lia].
Qed.
End Rep.

(** ** The operations together *)

Inductive op (A : Type) :=
| OSetSize (co : Z) | OChangeSize (n : Z) | OShrink (n : Z) | OReserve (co : Z) | OCompact | OAssign (xs : list A)
| OPushFront0 | OPushFront (x : A) | OPushFrontArr (xs : list A) | OPushFrontN (x : A) (n : Z)
| OPushBoth (x : A) (f b : Z)
| OPushBack0 | OPushBack (x : A) | OPushBackArr (xs : list A) | OPushBackNx (x : A) (n : Z) | OPushBackN (n : Z)
| OErase (i : Z) | OEraseRange (i j : Z) | OPopBack | OPopFront
| OInsert1 (i : Z) | OInsertN (i n : Z) | OInsertNx (i n : Z) (x : A)
| OSortedPush (x : A) | OInclude (x : A) | ORemove (x : A).
Arguments OSetSize {A}. Arguments OChangeSize {A}. Arguments OShrink {A}. Arguments OReserve {A}. Arguments OCompact {A}.
Arguments OPushFront0 {A}. Arguments OPushBack0 {A}. Arguments OPushBackN {A}. Arguments OErase {A}.
Arguments OEraseRange {A}. Arguments OPopBack {A}. Arguments OPopFront {A}. Arguments OInsert1 {A}.
Arguments OInsertN {A}. Arguments OAssign {A}. Arguments OPushFront {A}. Arguments OPushFrontArr {A}.
Arguments OPushFrontN {A}. Arguments OPushBoth {A}. Arguments OPushBack {A}. Arguments OPushBackArr {A}.
Arguments OPushBackNx {A}. Arguments OInsertNx {A}. Arguments OSortedPush {A}. Arguments OInclude {A}. Arguments ORemove {A}.

Section Ops.
Context {A : Type} (pod : bool) (dflt : A) (lt eq : A -> A -> bool).

Abbreviation zlen l := (Z.of_nat (length l)).
Definition run (o : op A) (s : buf A) : option (buf A) :=
  let vd {R} (r : option (R * buf A)) := '(_, s) ← r; Some s in
  match o with
  | OSetSize co => vd (SetSize pod dflt co s)
  | OChangeSize n => vd (ChangeSize pod dflt n true s)
  | OShrink n => ShrinkSize pod n s
  | OReserve co => vd (reserve co s)
  | OCompact => compact_memory s
  | OAssign xs => Ex_assign pod xs s
  | OPushFront0 => push_front0 pod dflt s
  | OPushFront x => push_front pod x s
  | OPushFrontArr xs => push_front_arr pod xs s
  | OPushFrontN x n => push_front_n pod x n s
  | OPushBoth x f b => push_both pod dflt x f b s
  | OPushBack0 => push_back0 pod dflt s
  | OPushBack x => push_back pod x s
  | OPushBackArr xs => push_back_arr pod xs s
  | OPushBackNx x n => push_back_nx pod x n s
  | OPushBackN n => vd (push_back_n pod dflt n s)
  | OErase i => erase pod i s
  | OEraseRange i j => erase_range pod i j s
  | OPopBack => pop_back pod s
  | OPopFront => pop_front pod s
  | OInsert1 i => insert1 pod dflt i s
  | OInsertN i n => vd (insert_n pod dflt i n s)
  | OInsertNx i n x => vd (insert_nx pod i n x s)
  | OSortedPush x => vd (Ex_SortedPush pod lt x s)
  | OInclude x => vd (Include pod eq x s)
  | ORemove x => vd (Remove pod (fun y => eq y x) s)
  end.

(** How far an operation may grow the buffer of [n] elements. *)
Definition cost (o : op A) (n : Z) : Z :=
  match o with
  | OSetSize k | OChangeSize k | OReserve k => k
  | OAssign xs | OPushFrontArr xs | OPushBackArr xs => zlen xs
  | OPushFrontN _ k | OPushBackNx _ k | OInsertN _ k | OInsertNx _ k _ => k
  | OPushBackN k => n + k
  | OPushBoth _ f b => n + f + b
  | OSortedPush _ => 2 * n + 1
  | OPushFront0 | OPushFront _ | OPushBack0 | OPushBack _ | OInsert1 _ | OInclude _ => 1
  | _ => 0
  end.

(** The operation is used as it is meant to be on a buffer holding [l]. *)
Definition pre (o : op A) (l : list (option A)) : Prop :=
  match o with
  | OShrink n => 0 <= n <= zlen l
  | OPushBoth _ f b => pod = true /\ 0 <= f /\ 0 <= b
  | OPushBackN n => 0 <= n
  | OErase i => 0 <= i < zlen l
  | OEraseRange i j => 0 <= i <= j /\ j < zlen l
  | OPopBack | OPopFront => l <> []
  | OInsert1 i => 0 <= i < zlen l
  | OInsertN i _ | OInsertNx i _ _ => 0 <= i <= zlen l
  | OSortedPush _ | OInclude _ => Forall is_Some l
  | ORemove _ => pod = true /\ Forall is_Some l
  | _ => True
  end.

(** What it makes of the list: [g] stands for newly constructed elements. *)
Definition post (o : op A) (l l' : list (option A)) : Prop :=
  let at_nat i := Z.to_nat i in
  match o with
  | OSetSize k => if k =? zlen l then l' = l else fresh pod dflt (at_nat k) l'
  | OChangeSize k =>
    if k <=? zlen l then l' = take (at_nat k) l
    else exists g, fresh pod dflt (at_nat (k - zlen l)) g /\ l' = l ++ g
  | OShrink n => l' = take (at_nat n) l
  | OReserve _ | OCompact => l' = l
  | OAssign xs => l' = Some <$> xs
  | OPushFront0 => exists g, fresh pod dflt 1 g /\ l' = g ++ l
  | OPushFront x => l' = Some x :: l
  | OPushFrontArr xs => l' = (Some <$> xs) ++ l
  | OPushFrontN x n => l' = replicate (at_nat n) (Some x) ++ l
  | OPushBoth x f b => l' = replicate (at_nat f) (Some x) ++ l ++ replicate (at_nat b) (Some x)
  | OPushBack0 => exists g, fresh pod dflt 1 g /\ l' = l ++ g
  | OPushBack x => l' = l ++ [Some x]
  | OPushBackArr xs => l' = l ++ (Some <$> xs)
  | OPushBackNx x n => l' = l ++ replicate (at_nat n) (Some x)
  | OPushBackN n => exists g, fresh pod dflt (at_nat n) g /\ l' = l ++ g
  | OErase i => l' = take (at_nat i) l ++ drop (S (at_nat i)) l
  | OEraseRange i j => l' = take (at_nat i) l ++ drop (S (at_nat j)) l
  | OPopBack => l' = take (length l - 1) l
  | OPopFront => l' = drop 1 l
  | OInsert1 i => exists g, fresh pod dflt 1 g /\ l' = take (at_nat i) l ++ g ++ drop (at_nat i) l
  | OInsertN i n => exists g, fresh pod dflt (at_nat n) g /\ l' = take (at_nat i) l ++ g ++ drop (at_nat i) l
  | OInsertNx i n x => l' = take (at_nat i) l ++ replicate (at_nat n) (Some x) ++ drop (at_nat i) l
  | OSortedPush x => exists xs r, l = Some <$> xs /\ placed lt xs x r l'
  | OInclude x => exists xs, l = Some <$> xs /\
      l' = Some <$> (if forallb (fun y => negb (eq y x)) xs then xs ++ [x] else xs)
  | ORemove x => exists xs, l = Some <$> xs /\ l' = Some <$> List.filter (fun y => negb (eq y x)) xs
  end.

Lemma yields_vd {R} (r : option (R * buf A)) P s l o : yields pod r P -> (forall v l', P v l' -> post o l l') ->
  run o s = ('(_, s) ← r; Some s) ->
  exists s' l', run o s = Some s' /\ post o l l' /\ rep pod s' l' /\ ready s'.
Proof. intros (v & s' & l' & -> & HP & Hs & Ha) H E. exists s', l'. rewrite E. eauto 10. Qed.

Lemma yields_op (r : option (buf A)) P s l o : yields pod (ok r) P -> (forall v l', P v l' -> post o l l') ->
  run o s = r -> exists s' l', run o s = Some s' /\ post o l l' /\ rep pod s' l' /\ ready s'.
Proof.
  intros (v & s' & l' & E & HP & Hs & Ha) H ->. exists s', l'. unfold ok in E. destruct r; [|done].
  injection E as ? ->. eauto 10.
Qed.

Lemma cut (i : Z) (l : list (option A)) : 0 <= i <= zlen l ->
  l = take (Z.to_nat i) l ++ drop (Z.to_nat i) l /\ i = zlen (take (Z.to_nat i) l).
Proof. intros. rewrite take_drop, length_take. split; [done|lia]. Qed.

Lemma cut_at (i : Z) (l : list (option A)) : 0 <= i < zlen l ->
  exists y, l = take (Z.to_nat i) l ++ y :: drop (S (Z.to_nat i)) l /\ i = zlen (take (Z.to_nat i) l).
Proof.
  intros Hi. destruct (lookup_lt_is_Some_2 l (Z.to_nat i)) as [y Ey]; [lia|]. exists y.
  rewrite take_drop_middle by done. rewrite length_take. split; [done|lia].
Qed.

Lemma all_some (l : list (option A)) : Forall is_Some l -> exists xs, l = Some <$> xs.
Proof.
  induction 1 as [|y l [x ->] _ [xs ->]]; [by exists []|]. by exists (x :: xs).
Qed.

Lemma forallb_neg (p : A -> bool) xs : forallb (fun y => negb (p y)) xs = true <-> Forall (fun y => p y = false) xs.
Proof. rewrite forallb_forall, Forall_forall. setoid_rewrite negb_true_iff. by setoid_rewrite list_elem_of_In. Qed.

Lemma push_step o s l : rep pod s l -> ready s -> room (cost o (zlen l)) s -> pre o l ->
  match o with
  | OPushFront0 | OPushFront _ | OPushFrontArr _ | OPushFrontN _ _ | OPushBoth _ _ _
  | OPushBack0 | OPushBack _ | OPushBackArr _ | OPushBackNx _ _ | OPushBackN _ => True | _ => False end ->
  exists s' l', run o s = Some s' /\ post o l l' /\ rep pod s' l' /\ ready s'.
Proof.
  intros Hs Ha Hr Hp Ho. pose proof Hs as (t & _ & _ & _ & El & _).
  destruct o; try done; clear Ho; cbn [cost] in Hr; cbn [pre] in Hp.
  - eapply yields_op; [by eapply push_front0_spec| |done]. done.
  - eapply yields_op; [by eapply push_front_spec| |done]. done.
  - eapply yields_op; [by eapply push_front_arr_spec| |done]. done.
  - eapply yields_op; [by apply (push_front_n_spec pod s l Hs Ha x n Hr)| |done]. done.
  - destruct Hp as (Hp & Hf & Hb). eapply yields_op; [apply (push_both_spec pod dflt s l Hs Ha x f b); try done; by rewrite El| |done]. done.
  - eapply yields_op; [by eapply push_back0_spec| |done]. done.
  - eapply yields_op; [by eapply push_back_spec| |done]. done.
  - eapply yields_op; [by eapply push_back_arr_spec| |done]. done.
  - eapply yields_op; [by apply (push_back_nx_spec pod s l Hs Ha x n Hr)| |done]. done.
  - eapply yields_vd; [apply (push_back_n_spec pod dflt s l Hs Ha n); try done; by rewrite El| |done]. intros v l' [_ H]. done.
Qed.

Lemma size_step o s l : rep pod s l -> ready s -> room (cost o (zlen l)) s -> pre o l ->
  match o with
  | OSetSize _ | OChangeSize _ | OShrink _ | OReserve _ | OCompact | OAssign _ => True | _ => False end ->
  exists s' l', run o s = Some s' /\ post o l l' /\ rep pod s' l' /\ ready s'.
Proof.
  intros Hs Ha Hr Hp Ho. pose proof Hs as (t & _ & _ & _ & El & _).
  assert (Hr0 : room 0 s) by (eapply room_weaken; [exact Hr|destruct Hr; lia]).
  assert (Hshrink : forall n, 0 <= n <= zlen l -> yields pod (ok (ShrinkSize pod n s)) (fun _ l' => l' = take (Z.to_nat n) l)).
  { intros n Hn. destruct (cut n l Hn) as [E1 E2]. by apply (ShrinkSize_spec pod s l Hs Ha Hr0 _ _ n E1). }
  destruct o as [co|n|n|co| |xs| | | | | | | | | | | | | | | | | | | |]; try done; clear Ho; cbn [cost] in Hr; cbn [pre] in Hp.
  - eapply yields_vd; [by apply (SetSize_spec pod dflt s l Hs Ha Hr0 co)| |done]. cbn. by intros v l' [_ H].
  - destruct (Z.leb_spec n (zlen l)) as [Hle|Hgt].
    + assert (E : ChangeSize pod dflt n true s = (s ← ShrinkSize pod n s; Some (true, s))).
      { unfold ChangeSize, ShrinkSize. rewrite El. destruct (Z.eqb_spec n (zlen l)); [done|].
        by rewrite (proj2 (Z.ltb_lt _ _)) by lia. }
      eapply yields_op; [apply (Hshrink n); destruct Hr; lia| |].
      * intros v l' ->. cbn. by rewrite (proj2 (Z.leb_le _ _)) by lia.
      * cbn [run]. rewrite E. by destruct (ShrinkSize pod n s).
    + eapply yields_vd; [apply (ChangeSize_grow pod dflt s l Hs Ha Hr0 n); done || lia| |done]. cbn.
      rewrite (proj2 (Z.leb_gt _ _)) by lia. by intros v l' [_ H].
  - eapply yields_op; [by apply Hshrink| |done]. done.
  - destruct (reserve_spec pod s l Hs Ha Hr0 co) as (s' & E & Hs' & Ha' & _); [by destruct Hr|].
    exists s', l. cbn. by rewrite E.
  - eapply yields_op; [by apply (compact_memory_spec pod s l Hs Ha Hr0)| |done]. done.
  - eapply yields_op; [by apply (Ex_assign_spec pod s l Hs Ha Hr0 xs)| |done]. done.
Qed.

Lemma edit_step o s l : rep pod s l -> ready s -> room (cost o (zlen l)) s -> pre o l ->
  match o with
  | OErase _ | OEraseRange _ _ | OPopBack | OPopFront | OInsert1 _ | OInsertN _ _ | OInsertNx _ _ _
  | OSortedPush _ | OInclude _ | ORemove _ => True | _ => False end ->
  exists s' l', run o s = Some s' /\ post o l l' /\ rep pod s' l' /\ ready s'.
Proof.
  intros Hs Ha Hr Hp Ho. pose proof Hs as (t & _ & _ & _ & El & _).
  assert (Hr0 : room 0 s) by (eapply room_weaken; [exact Hr|destruct Hr; lia]).
  destruct o as [| | | | | | | | | | | | | | | |i|i j| | |i|i n|i n x|x|x|x]; try done; clear Ho; cbn [cost] in Hr; cbn [pre] in Hp.
  - destruct (cut_at i l Hp) as (y & E1 & E2). eapply yields_op; [by apply (erase_spec pod s l Hs Ha Hr0 _ y _ i E1 E2)| |done]. done.
  - destruct Hp as [Hi Hj]. destruct (cut_at i l) as (y & E1 & E2); [lia|].
    assert (E3 : drop (S (Z.to_nat i)) l = take (Z.to_nat (j - i)) (drop (S (Z.to_nat i)) l) ++ drop (S (Z.to_nat j)) l).
    { rewrite <- (take_drop (Z.to_nat (j - i)) (drop (S (Z.to_nat i)) l)) at 1. rewrite drop_drop. do 2 f_equal. lia. }
    rewrite E3, app_comm_cons in E1. eapply yields_op; [apply (erase_range_spec pod s l Hs Ha Hr0 _ _ _ i j E1 E2)| |done].
    + cbn [length]. rewrite length_take, length_drop. lia.
    + cbn. lia.
    + done.
  - destruct l as [|y a _] using rev_ind; [done|].
    eapply yields_op; [by eapply pop_back_spec| |done]. intros v l' ->. cbn.
    rewrite length_app. cbn. replace (length a + 1 - 1)%nat with (length a) by lia. by rewrite take_app_length.
  - destruct l as [|y b]; [done|]. eapply yields_op; [by eapply pop_front_spec| |done]. done.
  - destruct (cut i l) as [E1 E2]; [lia|]. eapply yields_op; [apply (insert1_spec pod dflt s l Hs Ha _ _ i Hr E1); try done| |done]; [|done].
    intros E. apply (f_equal length) in E. rewrite length_drop in E. cbn in E. lia.
  - destruct (cut i l Hp) as [E1 E2]. eapply yields_vd; [by apply (insert_n_spec pod dflt s l Hs Ha _ _ i n Hr E1)| |done]. cbn. by intros v l' [_ H].
  - destruct (cut i l Hp) as [E1 E2]. eapply yields_vd; [by apply (insert_nx_spec pod s l Hs Ha _ _ i n x Hr E1)| |done]. cbn. by intros v l' [_ H].
  - destruct (all_some l Hp) as [xs ->]. eapply yields_vd; [apply (Ex_SortedPush_spec pod lt s xs Hs Ha x); by rewrite El| |done].
    cbn. eauto.
  - destruct (all_some l Hp) as [xs ->]. eapply yields_vd; [by apply (Include_spec pod eq x xs s Hs Ha Hr)| |done]. cbn.
    intros v l' [Hv ->]. exists xs. split; [done|]. pose proof (forallb_neg (fun y => eq y x) xs) as Hf.
    destruct v, (forallb _ xs); try done; exfalso; destruct Hv, Hf; intuition congruence.
  - destruct Hp as [Hpod Hp]. destruct (all_some l Hp) as [xs ->].
    eapply yields_vd; [by apply (Remove_spec pod (fun y => eq y x) xs s Hpod Hs Ha)| |done]. cbn. intros v l' [-> _]. eauto.
Qed.
End Ops.

(** ** Properties *)



(** C32: when allocations fail.  [reserve], [_add_entry] and [ChangeSize]
    report it and the elements stay where they are; [_add_entry] and
    [ChangeSize] first try again with exactly the size needed.  But after its
    two failures [ChangeSize] keeps the enlarged [_len_reserved] of an
    allocation it never got. *)
Theorem growth_failure {A} (pod : bool) (dflt : A) s l n a :
  rep pod s l -> resv s < n -> Z.of_nat (length (cells s)) + n < 2 ^ 61 ->
  (am s = false :: a -> reserve n s = Some (false, Buf (cells s) (len s) (resv s) a)) /\
  (am s = false :: false :: a ->
     add_entry (n - len s) s = Some (false, Buf (cells s) (len s) (resv s) a) /\
     ChangeSize pod dflt n true s = Some (false, Buf (cells s) (len s) n a)) /\
  (am s = false :: true :: a -> exists s',
     add_entry (n - len s) s = Some (true, s') /\ resv s' = n /\ len s' = n /\
     cells s' = l ++ replicate (Z.to_nat (n - len s)) None).
Proof.
  intros (t & Ec & Ht & Hl & El & Hr) Hn Hsz. rewrite Ec, length_app in Hsz.
  assert (Hadd : u64 (len s + (n - len s)) = n) by (u64s; lia).
  assert (Hlt : (n <=? resv s) = false) by (apply Z.leb_gt; lia).
  assert (Hlt' : (n =? len s) = false /\ (n <? len s) = false) by (rewrite Z.eqb_neq, Z.ltb_ge; lia).
  destruct Hlt' as [He Hlt']. destruct s as [c len resv am]; cbn [cells Buffers.len Buffers.resv Buffers.am] in *.
  split; [|split]; intros ->.
  - unfold reserve, malloc. cbn. by rewrite (proj2 (Z.ltb_lt _ _)) by lia.
  - unfold add_entry, ChangeSize, malloc. cbn [cells Buffers.len Buffers.resv Buffers.am set_resv].
    by rewrite Hadd, Hlt, He, Hlt'.
  - unfold add_entry, malloc. cbn [cells Buffers.len Buffers.resv Buffers.am].
    rewrite Hadd, Hlt. rewrite Ec, regrow_spec by lia. cbn. eexists. split; [done|]. by rewrite El.
Qed.

Lemma growth_failure_witness :
  let s := Buf [Some 1; Some 3] 2 2 [false; false] in
  (am s = false :: [] -> reserve 5 s = Some (false, Buf (cells s) (len s) (resv s) [])) /\
  (am s = false :: false :: [] ->
     add_entry (5 - len s) s = Some (false, Buf (cells s) (len s) (resv s) []) /\
     ChangeSize false 0 5 true s = Some (false, Buf (cells s) (len s) 5 [])) /\
  (am s = false :: true :: [] -> exists s',
     add_entry (5 - len s) s = Some (true, s') /\ resv s' = 5 /\ len s' = 5 /\
     cells s' = [Some 1; Some 3] ++ replicate (Z.to_nat (5 - len s)) None).
Proof.
  apply (growth_failure false 0 (Buf [Some 1; Some 3] 2 2 [false; false]) [Some 1; Some 3] 5 []); [|cbn; lia..].
  exists []. cbn. split; [done|]. split; [done|]. split; [intros _; repeat constructor; by eexists|lia].
Defined.

(** The next [push_back] then leaves the allocation. *)
Example ChangeSize_failure_overruns :
  exists s', ChangeSize false 0 5 true (Buf [Some 1; Some 3] 2 2 [false; false]) = Some (false, s') /\
    push_back false 4 s' = None.
Proof. exists (Buf [Some 1; Some 3] 2 5 []). by split; vm_compute. Qed.

(** A [push_back] that cannot grow goes on and writes over the last element. *)
Example push_back_failure_overwrites :
  push_back true 9 (Buf [Some 1; Some 3] 2 2 [false; false]) = Some (Buf [Some 1; Some 9] 2 2 []).
Proof. reflexivity. Qed.

(** With objects that own something, [push_both] builds over the objects it has
    just built, [insert] at the end builds none, and [Remove] destroys an object it moved away. *)
Example push_both_leaks : push_both false 0 7 1 1 (Buf [Some 1; Some 3; None; None] 2 4 []) = None.
Proof. reflexivity. Qed.
Example insert_at_end_unbuilt :
  insert1 false 0 2 (Buf [Some 1; Some 3; None; None] 2 4 []) = Some (Buf [Some 1; Some 3; None; None] 3 4 []).
Proof. reflexivity. Qed.
Example Remove_destroys_twice : Remove false (Z.eqb 1) (Buf [Some 1; Some 3; Some 4] 3 3 []) = None.
Proof. reflexivity. Qed.

(** [SortedPush] keeps a sorted buffer sorted. *)
Lemma placed_sorted {A} {lt : A -> A -> bool} {WO : WeakOrder lt} xs x r l' :
  StronglySorted (le (lt := lt)) xs -> placed lt xs x r l' ->
  exists ys, l' = Some <$> ys /\ StronglySorted (le (lt := lt)) ys.
Proof.
  intros Hs (a & b & -> & -> & _ & Hb & Ha). exists (a ++ x :: b). split; [done|].
  apply sorted_insert; [done| |done]. apply StronglySorted_app in Hs as (_ & _ & Hsb).
  destruct b as [|z b]; [constructor|]. destruct Hb as (z' & b' & [= <- <-] & Hz); [done|].
  apply StronglySorted_cons in Hsb as [Hzb _]. constructor; [done|].
  eapply Forall_impl; [exact Hzb|]. cbn beta. intros y Hy. destruct (lt x y) eqn:E; [done|].
  pose proof (lt_asym _ _ Hz) as Hxz. unfold le in Hy. by rewrite (nlt_trans z y x Hy E) in Hz.
Qed.
