(* ===== verification/BoolArray.v ===== *)
(** [rt::BooleanArray] (rt/buffer_type.h): a fixed number of bits in 64-bit
    blocks.  A shift by the whole width of a block, which C++ leaves undefined,
    and an access outside the blocks have no result. *)
From S2P Require Import Prelude Bits Hash Select.

(** ** Definitions *)

Definition BLOCK_SIZE : Z := 64.
Definition ALL_ONES : Z := 2 ^ 64 - 1.

(** [SIZE_T] shifts. *)
Definition shl64 (x s : Z) : option Z := if (0 <=? s) && (s <? 64) then Some (u64 (x .<< s)) else None.
Definition shr64 (x s : Z) : option Z := if (0 <=? s) && (s <? 64) then Some (x .>> s) else None.

(** [_Bits[i] = v] *)
Definition upd (l : list Z) (i v : Z) : option (list Z) := _ ← at_ l i; Some (<[Z.to_nat i := v]> l).

(** [rt::Zero] of [n] blocks from block [i] on. *)
Fixpoint zero_blocks (n : nat) (i : Z) (l : list Z) : option (list Z) :=
  match n with
  | O => Some l
  | S k => l ← upd l i 0; zero_blocks k (i + 1) l
  end.

Section BooleanArray.
Context (BIT_SIZE : Z).

Definition BLOCK_COUNT : Z := u32 (BIT_SIZE + BLOCK_SIZE - 1) / BLOCK_SIZE.

Definition ClearTrailingBits (l : list Z) : option (list Z) :=
  m ← shr64 ALL_ONES (BLOCK_SIZE - BIT_SIZE mod BLOCK_SIZE);
  w ← at_ l (BLOCK_COUNT - 1); upd l (BLOCK_COUNT - 1) (w .& m).

(** [Index]: block and mask. *)
Definition BlockBitmask (idx : Z) : Z := 1 .<< (idx mod BLOCK_SIZE).
Definition Get (l : list Z) (idx : Z) : option bool :=
  w ← at_ l (idx / BLOCK_SIZE); Some (negb (w .& BlockBitmask idx =? 0)).
Definition Set_ (l : list Z) (idx : Z) (v : bool) : option (list Z) :=
  w ← at_ l (idx / BLOCK_SIZE);
  upd l (idx / BLOCK_SIZE) (if v then w .| BlockBitmask idx else Z.ldiff w (BlockBitmask idx)).

Definition False_ : list Z := replicate (Z.to_nat BLOCK_COUNT) 0.
Definition True_ : option (list Z) := ClearTrailingBits (replicate (Z.to_nat BLOCK_COUNT) ALL_ONES).
Definition IsFalse (l : list Z) : bool := forallb (fun w => w =? 0) l.
Definition BA_PopCount (l : list Z) : Z := fold_left (fun pc w => u32 (pc + PopCount w)) l 0.
Definition BA_xor (l x : list Z) : list Z := zip_with Z.lxor l x.
Definition BA_or (l x : list Z) : list Z := zip_with Z.lor l x.

(** The initializer list: [Set(i++, b)] from index [i] on. *)
Fixpoint init_loop (bs : list bool) (i : Z) (l : list Z) : option (list Z) :=
  match bs with
  | [] => Some l
  | b :: t => l ← Set_ l i b; init_loop t (i + 1) l
  end.
Definition BA_init (bs : list bool) : option (list Z) := init_loop bs 0 False_.

(** The bits of a block, the first [n] of them: [bits&(1ULL<<b)]. *)
Definition block_bits (n : nat) (w : Z) : list bool := map (fun b => negb (w .& (1 .<< Z.of_nat b) =? 0)) (seq 0 n).

(** [ForEach]: what the callback is given, in order; the last block is visited
    up to bit [BIT_SIZE % BLOCK_SIZE]. *)
Fixpoint ForEach (l : list Z) : list bool :=
  match l with
  | [] => []
  | [w] => block_bits (Z.to_nat (BIT_SIZE mod BLOCK_SIZE)) w
  | w :: t => block_bits 64 w ++ ForEach t
  end.

(** The inner loop of [VisitOnes]: bits [b] to [n - 1] of block [i]. *)
Definition visit_block (w i : Z) (n : nat) : list Z :=
  if w =? 0 then []
  else flat_map (fun b => if w .& (1 .<< Z.of_nat b) =? 0 then [] else [u32 (i * BLOCK_SIZE + Z.of_nat b)]) (seq 0 n).
Fixpoint visit_blocks (l : list Z) (i : Z) : list Z :=
  match l with
  | [] => []
  | [w] => visit_block w i (Z.to_nat (BIT_SIZE mod BLOCK_SIZE))
  | w :: t => visit_block w i 64 ++ visit_blocks t (i + 1)
  end.
(** [VisitOnes]: the indices given to the callback, and the number returned. *)
Definition VisitOnes (l : list Z) : list Z * Z := let v := visit_blocks l 0 in (v, u32 (Z.of_nat (length v))).

(** [ToString]: a character a bit. *)
Definition BA_ToString (one zero : Z) (l : list Z) : list Z := map (fun v : bool => if v then one else zero) (ForEach l).

Fixpoint left_loop (fuel : nat) (l : list Z) (offset s i : Z) : option (list Z * Z) :=
  match fuel with
  | O => None
  | S f =>
    if 0 <? u32 (i - offset) then
      a ← at_ l (u32 (i - offset)); b ← at_ l (u32 (u32 (i - offset) - 1));
      a ← shl64 a s; b ← shr64 b (BLOCK_SIZE - s);
      l ← upd l i (a .| b); left_loop f l offset s (u32 (i - 1))
    else Some (l, i)
  end.
Definition LeftShift (l : list Z) (s : Z) : option (list Z) :=
  if s =? 0 then Some l
  else if BIT_SIZE <? s then Some False_
  else
    let offset := s / BLOCK_SIZE in
    let s := s mod BLOCK_SIZE in
    '(l, i) ← left_loop (length l) l offset s (BLOCK_COUNT - 1);
    a ← at_ l (u32 (i - offset)); a ← shl64 a s;
    l ← upd l i a;
    l ← (if i =? 0 then Some l else zero_blocks (Z.to_nat (i - 1)) 0 l);
    ClearTrailingBits l.

Fixpoint right_loop (fuel : nat) (l : list Z) (offset s i : Z) : option (list Z * Z) :=
  match fuel with
  | O => None
  | S f =>
    if i + offset <? BLOCK_COUNT - 1 then
      a ← at_ l (i + offset); b ← at_ l (i + offset + 1);
      a ← shr64 a s; b ← shl64 b (BLOCK_SIZE - s);
      l ← upd l i (a .| b); right_loop f l offset s (i + 1)
    else Some (l, i)
  end.
Definition RightShift (l : list Z) (s : Z) : option (list Z) :=
  if s =? 0 then Some l
  else if BIT_SIZE <? s then Some False_
  else
    let offset := s / BLOCK_SIZE in
    let s := s mod BLOCK_SIZE in
    '(l, i) ← right_loop (length l) l offset s 0;
    a ← at_ l (i + offset); a ← shr64 a s;
    l ← upd l i a;
    if i + 1 <? BLOCK_COUNT then zero_blocks (Z.to_nat (BLOCK_COUNT - i - 1)) (i + 1) l else Some l.

(** [Shift(int s)] *)
Definition Shift (l : list Z) (s : Z) : option (list Z) :=
  if 0 <? s then LeftShift l (u32 s) else RightShift l (u32 (- u32 s)).
End BooleanArray.

(** ** Words and bits *)

Definition word (l : list Z) (k : Z) : Z := default 0 (at_ l k).
Definition bit (l : list Z) (j : Z) : bool := Z.testbit (word l (j / 64)) (j mod 64).

Abbreviation words l := (Forall (in_width 64) l).

Lemma at_word l k : 0 <= k < Z.of_nat (length l) -> at_ l k = Some (word l k).
Proof.
  intros Hk. unfold word, at_. rewrite (proj2 (Z.leb_le 0 k)) by lia.
  destruct (lookup_lt_is_Some_2 l (Z.to_nat k)) as [w E]; [lia|]. by rewrite E.
Qed.

Lemma word_out l k : k < 0 \/ Z.of_nat (length l) <= k -> word l k = 0.
Proof.
  intros Hk. unfold word, at_. destruct (Z.leb_spec 0 k); [|done]. rewrite lookup_ge_None_2; [done|lia].
Qed.

Lemma word_width l k : words l -> in_width 64 (word l k).
Proof.
  intros Hl. unfold word, at_. destruct (Z.leb_spec 0 k); [|done].
  destruct (l !! Z.to_nat k) as [w|] eqn:E; [|done]. cbn. by eapply Forall_lookup_1.
Qed.

Lemma bit_out l j : words l -> 64 * Z.of_nat (length l) <= j -> bit l j = false.
Proof.
  intros Hl Hj. unfold bit. rewrite word_out; [apply Z.testbit_0_l|]. right. by apply Z.div_le_lower_bound.
Qed.

Lemma upd_spec l i v : 0 <= i < Z.of_nat (length l) -> exists l', upd l i v = Some l' /\ length l' = length l /\
  (forall k, word l' k = if k =? i then v else word l k) /\ (words l -> in_width 64 v -> words l').
Proof.
  intros Hi. unfold upd. rewrite at_word by done. cbn [mbind option_bind]. eexists. split; [done|].
  split; [apply length_insert|]. split; [|intros; by apply Forall_insert].
  intros k. unfold word, at_. destruct (Z.leb_spec 0 k); [|by rewrite (proj2 (Z.eqb_neq _ _)) by lia].
  destruct (Z.eqb_spec k i) as [->|Hne]; [by rewrite list_lookup_insert_eq by lia|].
  by rewrite list_lookup_insert_ne by lia.
Qed.

Lemma bit_blocks i j : i / 64 = j / 64 -> i mod 64 = j mod 64 -> i = j.
Proof. intros H1 H2. rewrite (Z.div_mod i 64), (Z.div_mod j 64), H1, H2 by lia. done. Qed.

Lemma test_mask w b : 0 <= b -> negb (w .& (1 .<< b) =? 0) = Z.testbit w b.
Proof.
  intros Hb. assert (E : w .& (1 .<< b) = if Z.testbit w b then 2 ^ b else 0).
  { rewrite Z.shiftl_1_l. apply Z.bits_inj'. intros i Hi. rewrite Z.land_spec, Z.pow2_bits_eqb by done.
    destruct (Z.eqb_spec b i) as [->|Hne]; [rewrite andb_true_r|rewrite andb_false_r].
    - destruct (Z.testbit w i); [by rewrite Z.pow2_bits_true|by rewrite Z.testbit_0_l].
    - destruct (Z.testbit w b); [by rewrite Z.pow2_bits_false by done|by rewrite Z.testbit_0_l]. }
  rewrite E. destruct (Z.testbit w b); [|done]. pose proof (Z.pow_pos_nonneg 2 b).
  destruct (Z.eqb_spec (2 ^ b) 0); [lia|done].
Qed.

Lemma lor_width a b : in_width 64 a -> in_width 64 b -> in_width 64 (a .| b).
Proof.
  intros Ha Hb. assert (0 <= a .| b) by (apply Z.lor_nonneg; unfold in_width in *; lia).
  split; [done|]. apply Z.nle_gt. intros Hle.
  assert (Hl : 64 <= Z.log2 (a .| b)) by (apply Z.log2_le_pow2; lia).
  pose proof (Z.bit_log2 (a .| b) ltac:(lia)) as Hbit.
  rewrite Z.lor_spec, (testbit_above 64 a), (testbit_above 64 b) in Hbit by done. done.
Qed.

Lemma land_width a b : in_width 64 a -> in_width 64 (a .& b).
Proof.
  intros [Ha1 Ha2]. split; [apply Z.land_nonneg; by left|].
  destruct (Z_le_gt_dec (2 ^ 64) (a .& b)) as [Hle|]; [|lia].
  assert (Hl : 64 <= Z.log2 (a .& b)) by (apply Z.log2_le_pow2; lia).
  pose proof (Z.bit_log2 (a .& b) ltac:(lia)) as Hbit.
  by rewrite Z.land_spec, (testbit_above 64 a) in Hbit by done.
Qed.

Lemma ldiff_width a b : in_width 64 a -> in_width 64 (Z.ldiff a b).
Proof. rewrite Z.ldiff_land. apply land_width. Qed.

Lemma bitmask_width b : 0 <= b < 64 -> in_width 64 (1 .<< b).
Proof. intros Hb. rewrite Z.shiftl_1_l. split; [apply Z.pow_nonneg; lia|]. apply Z.pow_lt_mono_r; lia. Qed.

(** *** Double-word shifts *)

Lemma shl_or_spec x y s b : in_width 64 x -> in_width 64 y -> 0 < s < 64 -> 0 <= b < 64 ->
  Z.testbit (u64 (x .<< s) .| (y .>> (64 - s))) b =
    if s <=? b then Z.testbit x (b - s) else Z.testbit y (b + 64 - s).
Proof.
  intros Hx Hy Hs Hb. rewrite Z.lor_spec. unfold u64, wrap. rewrite Z.mod_pow2_bits_low by lia.
  rewrite Z.shiftl_spec, Z.shiftr_spec by lia. replace (b + (64 - s)) with (b + 64 - s) by lia.
  destruct (Z.leb_spec s b); [|by rewrite Z.testbit_neg_r by lia].
  rewrite (testbit_above 64 y) by (done || lia). apply orb_false_r.
Qed.

Lemma shr_or_spec x y s b : in_width 64 x -> in_width 64 y -> 0 < s < 64 -> 0 <= b < 64 ->
  Z.testbit ((x .>> s) .| u64 (y .<< (64 - s))) b =
    if b + s <? 64 then Z.testbit x (b + s) else Z.testbit y (b + s - 64).
Proof.
  intros Hx Hy Hs Hb. rewrite Z.lor_spec. unfold u64, wrap. rewrite Z.mod_pow2_bits_low by lia.
  rewrite Z.shiftl_spec, Z.shiftr_spec by lia. replace (b - (64 - s)) with (b + s - 64) by lia.
  destruct (Z.ltb_spec (b + s) 64).
  - rewrite (Z.testbit_neg_r y) by lia. apply orb_false_r.
  - by rewrite (testbit_above 64 x) by (done || lia).
Qed.

(** ** The array as a set of indices *)

Section Facts.
Context (n : Z) (Hn : 0 < n < 2 ^ 32 - 64).

(** Every word is a block and nothing is set past the last bit. *)
Definition wf (l : list Z) : Prop :=
  words l /\ Z.of_nat (length l) = BLOCK_COUNT n /\ forall j, n <= j -> bit l j = false.

Lemma count_eq : BLOCK_COUNT n = (n + 63) / 64.
Proof. unfold BLOCK_COUNT, BLOCK_SIZE, u32. rewrite wrap_id by (split; lia). f_equal. lia. Qed.

Lemma count_bounds : 64 * (BLOCK_COUNT n - 1) < n <= 64 * BLOCK_COUNT n /\ 0 < BLOCK_COUNT n < 2 ^ 27.
Proof.
  rewrite count_eq. pose proof (Z.div_mod (n + 63) 64). pose proof (Z.mod_pos_bound (n + 63) 64). lia.
Qed.

Lemma count_tail : n mod 64 <> 0 -> n = 64 * (BLOCK_COUNT n - 1) + n mod 64.
Proof.
  intros Hm. pose proof count_bounds. pose proof (Z.div_mod n 64). pose proof (Z.mod_pos_bound n 64).
  assert (BLOCK_COUNT n - 1 = n / 64) by lia. lia.
Qed.

Lemma block_of j : 0 <= j < n -> 0 <= j / 64 < BLOCK_COUNT n /\ 0 <= j mod 64 < 64.
Proof.
  intros Hj. pose proof count_bounds. pose proof (Z.div_mod j 64). pose proof (Z.mod_pos_bound j 64). lia.
Qed.

(** All but the bits past the end decide. *)
Lemma bit_neg l j : j < 0 -> bit l j = false.
Proof.
  intros Hj. unfold bit. rewrite word_out; [apply Z.testbit_0_l|]. left. by apply Z.div_lt_upper_bound.
Qed.

Lemma Get_bit l j : wf l -> 0 <= j < n -> Get l j = Some (bit l j).
Proof.
  intros (_ & Hl & _) Hj. pose proof (block_of j Hj) as [Hb Hm]. unfold Get, BLOCK_SIZE, BlockBitmask.
  rewrite at_word by lia. cbn [mbind option_bind]. unfold BLOCK_SIZE. by rewrite test_mask by lia.
Qed.

Lemma Set_spec l j v : wf l -> 0 <= j < n -> exists l', Set_ l j v = Some l' /\ wf l' /\
  forall i, bit l' i = if i =? j then v else bit l i.
Proof.
  intros (Hw & Hl & Ht) Hj. pose proof (block_of j Hj) as [Hb Hm].
  unfold Set_, BlockBitmask, BLOCK_SIZE. rewrite at_word by lia. cbn [mbind option_bind].
  set (w := word l (j / 64)). set (v' := if v then w .| (1 .<< (j mod 64)) else Z.ldiff w (1 .<< (j mod 64))).
  assert (Hww : in_width 64 w) by by apply word_width.
  destruct (upd_spec l (j / 64) v') as (l' & -> & Hl' & Hk & Hw'); [lia|].
  assert (Hbit : forall i, bit l' i = if i =? j then v else bit l i).
  { intros i. destruct (Z_lt_ge_dec i 0) as [Hi|Hi].
    { rewrite !bit_neg by done. by rewrite (proj2 (Z.eqb_neq i j)) by lia. }
    unfold bit. rewrite Hk. pose proof (Z.mod_pos_bound i 64).
    destruct (Z.eqb_spec (i / 64) (j / 64)) as [E1|E1]; [|by rewrite (proj2 (Z.eqb_neq i j)) by congruence].
    rewrite E1. fold w. assert (E : Z.testbit v' (i mod 64) = if i mod 64 =? j mod 64 then v else Z.testbit w (i mod 64)).
    { unfold v'. rewrite Z.shiftl_1_l. destruct v.
      - rewrite Z.lor_spec, Z.pow2_bits_eqb, (Z.eqb_sym (j mod 64)) by lia.
        destruct (i mod 64 =? j mod 64); [apply orb_true_r|apply orb_false_r].
      - rewrite Z.ldiff_spec, Z.pow2_bits_eqb, (Z.eqb_sym (j mod 64)) by lia.
        destruct (i mod 64 =? j mod 64); [apply andb_false_r|apply andb_true_r]. }
    rewrite E. destruct (Z.eqb_spec (i mod 64) (j mod 64)) as [E2|E2].
    - by rewrite (bit_blocks i j E1 E2), Z.eqb_refl.
    - by rewrite (proj2 (Z.eqb_neq i j)) by congruence. }
  exists l'. split; [done|]. split; [|done]. split; [|split; [lia|]].
  - apply Hw'; [done|]. unfold v'. destruct v; [apply lor_width; [done|by apply bitmask_width]|by apply ldiff_width].
  - intros i Hi. rewrite Hbit, (proj2 (Z.eqb_neq i j)) by lia. by apply Ht.
Qed.

Lemma word_replicate k c i : word (replicate k c) i = if (0 <=? i) && (i <? Z.of_nat k) then c else 0.
Proof.
  destruct (Z.leb_spec 0 i); [|by apply word_out; left]. cbn [andb]. destruct (Z.ltb_spec i (Z.of_nat k)).
  - unfold word, at_. rewrite (proj2 (Z.leb_le 0 i)) by done. by rewrite lookup_replicate_2 by lia.
  - apply word_out. rewrite length_replicate. lia.
Qed.

Lemma False_spec : wf (False_ n) /\ forall j, bit (False_ n) j = false.
Proof.
  assert (H : forall j, bit (False_ n) j = false).
  { intros j. unfold bit, False_. rewrite word_replicate. destruct (_ && _); apply Z.testbit_0_l. }
  split; [|done]. split; [by apply Forall_replicate|]. split; [|intros; apply H].
  unfold False_. rewrite length_replicate. pose proof count_bounds. lia.
Qed.

(** Clearing what is past the end; the array's size is not a multiple of 64. *)
Lemma ClearTrailingBits_spec l : n mod 64 <> 0 -> words l -> Z.of_nat (length l) = BLOCK_COUNT n ->
  exists l', ClearTrailingBits n l = Some l' /\ wf l' /\ forall j, j < n -> bit l' j = bit l j.
Proof.
  intros Hm Hw Hl. pose proof count_bounds as [Hc1 Hc2]. pose proof (count_tail Hm) as Hct.
  pose proof (Z.mod_pos_bound n 64). unfold ClearTrailingBits, shr64, BLOCK_SIZE.
  rewrite (proj2 (Z.leb_le _ _)), (proj2 (Z.ltb_lt _ _)) by lia. cbn [andb mbind option_bind].
  rewrite at_word by lia. cbn [mbind option_bind]. set (w := word l (BLOCK_COUNT n - 1)).
  assert (Em : ALL_ONES .>> (64 - n mod 64) = Z.ones (n mod 64)).
  { unfold ALL_ONES. rewrite shr_div by lia. rewrite Z.ones_equiv. symmetry.
    apply Z.div_unique with (2 ^ (64 - n mod 64) - 1); [left; pose proof (Z.pow_pos_nonneg 2 (64 - n mod 64)); lia|].
    replace (2 ^ 64) with (2 ^ (64 - n mod 64) * 2 ^ (n mod 64)) by (rewrite <- Z.pow_add_r by lia; f_equal; lia). lia. }
  rewrite Em. destruct (upd_spec l (BLOCK_COUNT n - 1) (w .& Z.ones (n mod 64))) as (l' & -> & Hl' & Hk & Hw'); [lia|].
  assert (Hbit : forall j, 0 <= j -> bit l' j = bit l j && (j <? n)).
  { intros j Hj. unfold bit. rewrite Hk. pose proof (Z.mod_pos_bound j 64). pose proof (Z.div_mod j 64).
    destruct (Z.eqb_spec (j / 64) (BLOCK_COUNT n - 1)) as [E|E].
    - rewrite E. fold w. rewrite Z.land_spec. f_equal.
      destruct (Z.ltb_spec j n); [apply Z.ones_spec_low; lia|apply Z.ones_spec_high; lia].
    - destruct (Z.ltb_spec j n); [by rewrite andb_true_r|]. rewrite andb_false_r, word_out; [apply Z.testbit_0_l|]. lia. }
  exists l'. split; [done|]. split; [split; [|split; [lia|]]|].
  - apply Hw'; [done|]. apply land_width, word_width, Hw.
  - intros j Hj. rewrite Hbit by lia. rewrite (proj2 (Z.ltb_ge j n)) by lia. apply andb_false_r.
  - intros j Hj. destruct (Z_lt_ge_dec j 0); [by rewrite !bit_neg|]. rewrite Hbit by lia.
    rewrite (proj2 (Z.ltb_lt j n)) by done. apply andb_true_r.
Qed.

Lemma True_spec : n mod 64 <> 0 -> exists l, True_ n = Some l /\ wf l /\ forall j, 0 <= j < n -> bit l j = true.
Proof.
  intros Hm. pose proof count_bounds as [Hc1 Hc2].
  destruct (ClearTrailingBits_spec (replicate (Z.to_nat (BLOCK_COUNT n)) ALL_ONES) Hm) as (l & E & Hwf & Hbit).
  { by apply Forall_replicate. }
  { rewrite length_replicate. lia. }
  exists l. split; [done|]. split; [done|]. intros j Hj. rewrite Hbit by lia. unfold bit.
  pose proof (block_of j Hj) as [Hb1 Hb2]. rewrite word_replicate, (proj2 (Z.leb_le _ _)), (proj2 (Z.ltb_lt _ _)) by lia.
  cbn [andb]. unfold ALL_ONES. replace (2 ^ 64 - 1) with (Z.ones 64) by done. apply Z.ones_spec_low. lia.
Qed.

Lemma zip_spec (f : Z -> Z -> Z) (fb : bool -> bool -> bool) l x :
  (forall a b i, Z.testbit (f a b) i = fb (Z.testbit a i) (Z.testbit b i)) -> fb false false = false ->
  (forall a b, in_width 64 a -> in_width 64 b -> in_width 64 (f a b)) ->
  wf l -> wf x -> wf (zip_with f l x) /\ forall j, bit (zip_with f l x) j = fb (bit l j) (bit x j).
Proof.
  intros Hf H0 Hfw (Hw1 & Hl1 & Ht1) (Hw2 & Hl2 & Ht2).
  assert (Hlen : length l = length x) by lia.
  assert (Hwd : forall k, word (zip_with f l x) k = f (word l k) (word x k) \/
    (word (zip_with f l x) k = 0 /\ word l k = 0 /\ word x k = 0)).
  { intros k. destruct (Z_le_gt_dec 0 k); [|right; rewrite !word_out by lia; done].
    destruct (Z_lt_ge_dec k (Z.of_nat (length l))); [left|right; rewrite !word_out by (rewrite ?length_zip_with; lia); done].
    unfold word, at_. rewrite (proj2 (Z.leb_le 0 k)) by lia. rewrite lookup_zip_with.
    destruct (lookup_lt_is_Some_2 l (Z.to_nat k)) as [a ->]; [lia|].
    destruct (lookup_lt_is_Some_2 x (Z.to_nat k)) as [b ->]; [lia|]. done. }
  assert (Hbit : forall j, bit (zip_with f l x) j = fb (bit l j) (bit x j)).
  { intros j. unfold bit. destruct (Hwd (j / 64)) as [->|(-> & -> & ->)]; [apply Hf|by rewrite !Z.testbit_0_l]. }
  split; [|done]. split; [|split; [rewrite length_zip_with; lia|]].
  - clear -Hw1 Hw2 Hfw. revert x Hw2. induction Hw1 as [|a l Ha _ IH]; intros x Hw2; [constructor|].
    inversion_clear Hw2; [constructor|]. cbn. constructor; [by apply Hfw|by apply IH].
  - intros j Hj. by rewrite Hbit, Ht1, Ht2.
Qed.

(** *** Shifts *)

Lemma bit_at l q r j : 0 <= r < 64 -> j = 64 * q + r -> bit l j = Z.testbit (word l q) r.
Proof.
  intros Hr ->. unfold bit. rewrite (Z.add_comm (64 * q)), (Z.mul_comm 64), Z.div_add, Z.mod_add by lia.
  by rewrite Z.mod_small, Z.div_small by lia.
Qed.

Lemma zero_blocks_spec k : forall i l, 0 <= i -> i + Z.of_nat k <= Z.of_nat (length l) ->
  exists l', zero_blocks k i l = Some l' /\ length l' = length l /\ (words l -> words l') /\
    forall j, word l' j = if (i <=? j) && (j <? i + Z.of_nat k) then 0 else word l j.
Proof.
  induction k as [|k IH]; intros i l Hi Hk; cbn [zero_blocks].
  { exists l. split; [done|]. split; [done|]. split; [done|]. intros j.
    destruct (Z.leb_spec i j), (Z.ltb_spec j (i + Z.of_nat 0)); try done; lia. }
  destruct (upd_spec l i 0) as (l1 & -> & Hl1 & Hk1 & Hw1); [lia|]. cbn [mbind option_bind].
  destruct (IH (i + 1) l1) as (l2 & -> & Hl2 & Hw2 & Hk2); [lia..|].
  exists l2. split; [done|]. split; [lia|]. split; [intros; by apply Hw2, Hw1|]. intros j. rewrite Hk2, Hk1.
  destruct (Z.eqb_spec j i), (Z.leb_spec (i + 1) j), (Z.leb_spec i j), (Z.ltb_spec j (i + 1 + Z.of_nat k)),
    (Z.ltb_spec j (i + Z.of_nat (S k))); cbn [andb]; done || lia.
Qed.

Section Shift.
Context (l0 : list Z) (Hwf : wf l0) (off s : Z) (Hs : 0 < s < 64) (Hoff : 0 <= off < BLOCK_COUNT n).

Definition new_left (k : Z) : Z := u64 (word l0 (k - off) .<< s) .| (word l0 (k - off - 1) .>> (64 - s)).
Definition new_right (k : Z) : Z := (word l0 (k + off) .>> s) .| u64 (word l0 (k + off + 1) .<< (64 - s)).

Lemma new_left_width k : in_width 64 (new_left k).
Proof. destruct Hwf as (Hw & _ & _). apply lor_width; [apply u64_range|]. apply shr_width; [lia|by apply word_width]. Qed.
Lemma new_right_width k : in_width 64 (new_right k).
Proof. destruct Hwf as (Hw & _ & _). apply lor_width; [|apply u64_range]. apply shr_width; [lia|by apply word_width]. Qed.

Lemma new_left_bit k b : 0 <= b < 64 -> Z.testbit (new_left k) b = bit l0 (64 * k + b - (64 * off + s)).
Proof.
  destruct Hwf as (Hw & _ & _). intros Hb. unfold new_left. rewrite shl_or_spec by (done || by apply word_width).
  destruct (Z.leb_spec s b); symmetry; apply bit_at; lia.
Qed.
Lemma new_right_bit k b : 0 <= b < 64 -> Z.testbit (new_right k) b = bit l0 (64 * k + b + (64 * off + s)).
Proof.
  destruct Hwf as (Hw & _ & _). intros Hb. unfold new_right. rewrite shr_or_spec by (done || by apply word_width).
  destruct (Z.ltb_spec (b + s) 64); symmetry; apply bit_at; lia.
Qed.

Lemma left_loop_spec fuel : forall l i, words l -> length l = length l0 -> off <= i < BLOCK_COUNT n ->
  i - off < Z.of_nat fuel -> (forall k, 0 <= k < BLOCK_COUNT n -> word l k = if i <? k then new_left k else word l0 k) ->
  exists l', left_loop fuel l off s i = Some (l', off) /\ words l' /\ length l' = length l0 /\
    forall k, 0 <= k < BLOCK_COUNT n -> word l' k = if off <? k then new_left k else word l0 k.
Proof.
  destruct Hwf as (Hw0 & Hl0 & _). pose proof (count_bounds) as [_ Hc].
  induction fuel as [|fuel IH]; intros l i Hw Hl Hi Hf Hk; [lia|]. cbn [left_loop].
  unfold u32. rewrite (wrap_id 32 (i - off)) by (split; lia). destruct (Z.ltb_spec 0 (i - off)).
  - rewrite !(wrap_id 32) by (split; lia). rewrite !at_word by lia. cbn [mbind option_bind].
    unfold shl64, shr64, BLOCK_SIZE.
    repeat (rewrite (proj2 (Z.leb_le _ _)) by lia). repeat (rewrite (proj2 (Z.ltb_lt _ _)) by lia).
    cbn [andb mbind option_bind].
    rewrite !Hk by lia. repeat (rewrite (proj2 (Z.ltb_ge _ _)) by lia). fold (new_left i).
    destruct (upd_spec l i (new_left i)) as (l1 & -> & Hl1 & Hk1 & Hw1); [lia|]. cbn [mbind option_bind].
    apply IH; [apply Hw1; [done|apply new_left_width]|lia|lia|lia|]. intros k Hkr. rewrite Hk1, Hk by done.
    destruct (Z.eqb_spec k i), (Z.ltb_spec i k), (Z.ltb_spec (i - 1) k); first [by subst | lia].
  - replace off with i in * by lia. exists l. auto.
Qed.

Lemma right_loop_spec fuel : forall l i, words l -> length l = length l0 -> 0 <= i <= BLOCK_COUNT n - 1 - off ->
  BLOCK_COUNT n - 1 - off - i < Z.of_nat fuel -> (forall k, 0 <= k < BLOCK_COUNT n -> word l k = if k <? i then new_right k else word l0 k) ->
  exists l', right_loop n fuel l off s i = Some (l', BLOCK_COUNT n - 1 - off) /\ words l' /\ length l' = length l0 /\
    forall k, 0 <= k < BLOCK_COUNT n -> word l' k = if k <? BLOCK_COUNT n - 1 - off then new_right k else word l0 k.
Proof.
  destruct Hwf as (Hw0 & Hl0 & _).
  induction fuel as [|fuel IH]; intros l i Hw Hl Hi Hf Hk; [lia|]. cbn [right_loop].
  destruct (Z.ltb_spec (i + off) (BLOCK_COUNT n - 1)).
  - rewrite !at_word by lia. cbn [mbind option_bind]. unfold shl64, shr64, BLOCK_SIZE.
    repeat (rewrite (proj2 (Z.leb_le _ _)) by lia). repeat (rewrite (proj2 (Z.ltb_lt _ _)) by lia).
    cbn [andb mbind option_bind].
    rewrite !Hk by lia. repeat (rewrite (proj2 (Z.ltb_ge _ _)) by lia). fold (new_right i).
    destruct (upd_spec l i (new_right i)) as (l1 & -> & Hl1 & Hk1 & Hw1); [lia|]. cbn [mbind option_bind].
    apply IH; [apply Hw1; [done|apply new_right_width]|lia|lia|lia|]. intros k Hkr. rewrite Hk1, Hk by done.
    destruct (Z.eqb_spec k i), (Z.ltb_spec k i), (Z.ltb_spec k (i + 1)); first [by subst | lia].
  - replace (BLOCK_COUNT n - 1 - off) with i in * by lia. exists l. auto.
Qed.
End Shift.

Lemma RightShift_spec l S : wf l -> 0 < S <= n -> S mod 64 <> 0 ->
  exists l', RightShift n l S = Some l' /\ wf l' /\ forall j, 0 <= j -> bit l' j = bit l (j + S).
Proof.
  intros Hwf HS Hm. pose proof Hwf as (Hw & Hl & Ht). pose proof count_bounds as [Hc1 Hc2].
  pose proof (Z.div_mod S 64). pose proof (Z.mod_pos_bound S 64).
  unfold RightShift, BLOCK_SIZE. rewrite (proj2 (Z.eqb_neq S 0)), (proj2 (Z.ltb_ge n S)) by lia.
  set (off := S / 64) in *. set (s := S mod 64) in *.
  destruct (right_loop_spec l Hwf off s) with (fuel := length l) (l := l) (i := 0) as (l1 & -> & Hw1 & Hl1 & Hk1);
    [lia|lia|done|done|lia|lia|intros k Hk; by rewrite (proj2 (Z.ltb_ge k 0)) by lia|].
  cbn [mbind option_bind]. set (i := BLOCK_COUNT n - 1 - off) in *.
  rewrite at_word by lia. cbn [mbind option_bind]. unfold shr64.
  rewrite (proj2 (Z.leb_le 0 s)), (proj2 (Z.ltb_lt s 64)) by lia. cbn [andb mbind option_bind].
  assert (Ei : word l1 (i + off) .>> s = new_right l off s i).
  { unfold new_right. rewrite (word_out l (i + off + 1)) by lia. rewrite Z.shiftl_0_l, Z.lor_0_r.
    rewrite Hk1, (proj2 (Z.ltb_ge (i + off) i)) by lia. done. }
  rewrite Ei. destruct (upd_spec l1 i (new_right l off s i)) as (l2 & -> & Hl2 & Hk2 & Hw2); [lia|].
  cbn [mbind option_bind]. specialize (Hw2 Hw1 (new_right_width l Hwf off s ltac:(lia) i)).
  assert (exists l3, (if i + 1 <? BLOCK_COUNT n then zero_blocks (Z.to_nat (BLOCK_COUNT n - i - 1)) (i + 1) l2 else Some l2)
    = Some l3 /\ length l3 = length l2 /\ words l3 /\ forall k, word l3 k = if i <? k then 0 else word l2 k)
    as (l3 & -> & Hl3 & Hw3 & Hk3).
  { destruct (Z.ltb_spec (i + 1) (BLOCK_COUNT n)) as [Hlt|Hge].
    - destruct (zero_blocks_spec (Z.to_nat (BLOCK_COUNT n - i - 1)) (i + 1) l2) as (l3 & -> & Hl3 & Hw3 & Hk3); [lia..|].
      exists l3. split; [done|]. split; [done|]. split; [by apply Hw3|]. intros k. rewrite Hk3.
      destruct (Z.ltb_spec i k), (Z.leb_spec (i + 1) k), (Z.ltb_spec k (i + 1 + Z.of_nat (Z.to_nat (BLOCK_COUNT n - i - 1))));
        cbn [andb]; first [done | lia | apply word_out; lia].
    - exists l2. split; [done|]. split; [done|]. split; [done|]. intros k.
      destruct (Z.ltb_spec i k); [apply word_out; lia|done]. }
  assert (Hbit : forall j, 0 <= j -> bit l3 j = bit l (j + S)).
  { intros j Hj. pose proof (Z.div_mod j 64). pose proof (Z.mod_pos_bound j 64). pose proof (Z.div_pos j 64).
    unfold bit at 1. rewrite Hk3, Hk2. destruct (Z.ltb_spec i (j / 64)).
    - rewrite Z.testbit_0_l. symmetry. apply bit_out; [done|lia].
    - destruct (Z.eqb_spec (j / 64) i) as [E|E]; [rewrite <- E|rewrite Hk1, (proj2 (Z.ltb_lt _ _)) by lia];
        rewrite (new_right_bit l Hwf) by lia; f_equal; lia. }
  exists l3. split; [done|]. split; [|done]. split; [done|]. split; [lia|].
  intros j Hj. rewrite Hbit by lia. apply Ht. lia.
Qed.

(** The block below the first shifted one keeps its bits. *)
Lemma LeftShift_spec l S : wf l -> n mod 64 <> 0 -> 0 < S <= n -> S mod 64 <> 0 ->
  exists l', LeftShift n l S = Some l' /\ wf l' /\ forall j, 0 <= j < n ->
    bit l' j = if 64 * (S / 64) <=? j then bit l (j - S) else (64 * (S / 64 - 1) <=? j) && bit l j.
Proof.
  intros Hwf Hn64 HS Hm. pose proof Hwf as (Hw & Hl & Ht). pose proof count_bounds as [Hc1 Hc2].
  pose proof (Z.div_mod S 64). pose proof (Z.mod_pos_bound S 64). pose proof (count_tail Hn64).
  pose proof (Z.mod_pos_bound n 64).
  unfold LeftShift, BLOCK_SIZE. rewrite (proj2 (Z.eqb_neq S 0)), (proj2 (Z.ltb_ge n S)) by lia.
  set (off := S / 64) in *. set (s := S mod 64) in *.
  destruct (left_loop_spec l Hwf off s) with (fuel := length l) (l := l) (i := BLOCK_COUNT n - 1)
    as (l1 & -> & Hw1 & Hl1 & Hk1);
    [lia|lia|done|done|lia|lia|intros k Hk; by rewrite (proj2 (Z.ltb_ge (BLOCK_COUNT n - 1) k)) by lia|].
  cbn [mbind option_bind]. rewrite Z.sub_diag. change (u32 0) with 0. rewrite at_word by lia. cbn [mbind option_bind].
  unfold shl64. rewrite (proj2 (Z.leb_le 0 s)), (proj2 (Z.ltb_lt s 64)) by lia. cbn [andb mbind option_bind].
  assert (Ei : u64 (word l1 0 .<< s) = new_left l off s off).
  { unfold new_left. rewrite Z.sub_diag, (word_out l (0 - 1)), Z.shiftr_0_l, Z.lor_0_r by lia.
    rewrite Hk1, (proj2 (Z.ltb_ge off 0)) by lia. done. }
  rewrite Ei. destruct (upd_spec l1 off (new_left l off s off)) as (l2 & -> & Hl2 & Hk2 & Hw2); [lia|].
  cbn [mbind option_bind]. specialize (Hw2 Hw1 (new_left_width l Hwf off s ltac:(lia) off)).
  assert (exists l3, (if off =? 0 then Some l2 else zero_blocks (Z.to_nat (off - 1)) 0 l2) = Some l3 /\
    length l3 = length l2 /\ words l3 /\ forall k, 0 <= k -> word l3 k = if k <? off - 1 then 0 else word l2 k)
    as (l3 & -> & Hl3 & Hw3 & Hk3).
  { destruct (Z.eqb_spec off 0) as [E0|E0].
    - exists l2. split; [done|]. split; [done|]. split; [done|]. intros k Hk. by rewrite (proj2 (Z.ltb_ge k _)) by lia.
    - destruct (zero_blocks_spec (Z.to_nat (off - 1)) 0 l2) as (l3 & -> & Hl3 & Hw3 & Hk3); [lia..|].
      exists l3. split; [done|]. split; [done|]. split; [by apply Hw3|]. intros k Hk. rewrite Hk3.
      rewrite (proj2 (Z.leb_le 0 k)) by lia. cbn [andb]. by replace (0 + Z.of_nat (Z.to_nat (off - 1))) with (off - 1) by lia. }
  cbn [mbind option_bind].
  destruct (ClearTrailingBits_spec l3 Hn64 Hw3) as (l4 & -> & Hwf4 & Hb4); [lia|].
  exists l4. split; [done|]. split; [done|]. intros j Hj. rewrite Hb4 by lia. pose proof (block_of j Hj) as [Hb1 Hb2].
  pose proof (Z.div_mod j 64). unfold bit at 1. rewrite Hk3, Hk2 by lia.
  destruct (Z.ltb_spec (j / 64) (off - 1)).
  { rewrite Z.testbit_0_l. by rewrite (proj2 (Z.leb_gt (64 * off) j)), (proj2 (Z.leb_gt (64 * (off - 1)) j)) by lia. }
  destruct (Z.eqb_spec (j / 64) off) as [E|E].
  { rewrite (new_left_bit l Hwf) by lia. rewrite (proj2 (Z.leb_le (64 * off) j)) by lia. f_equal. lia. }
  rewrite Hk1 by lia. destruct (Z.ltb_spec off (j / 64)).
  - rewrite (new_left_bit l Hwf) by lia. rewrite (proj2 (Z.leb_le (64 * off) j)) by lia. f_equal. lia.
  - by rewrite (proj2 (Z.leb_gt (64 * off) j)), (proj2 (Z.leb_le (64 * (off - 1)) j)) by lia.
Qed.

(** *** Visiting *)

Lemma bit_cons_low w t j : 0 <= j < 64 -> bit (w :: t) j = Z.testbit w j.
Proof. intros Hj. by rewrite (bit_at _ 0 j) by lia. Qed.

Lemma bit_cons_high w t j : 0 <= j -> bit (w :: t) (64 + j) = bit t j.
Proof.
  intros Hj. unfold bit. replace (64 + j) with (j + 1 * 64) by lia. rewrite Z.div_add, Z.mod_add by lia. f_equal.
  pose proof (Z.div_pos j 64). unfold word, at_.
  rewrite (proj2 (Z.leb_le 0 (j / 64 + 1))), (proj2 (Z.leb_le 0 (j / 64))) by lia.
  by replace (Z.to_nat (j / 64 + 1)) with (S (Z.to_nat (j / 64))) by lia.
Qed.

Lemma seqZ_of_nat k : seqZ 0 (Z.of_nat k) = map Z.of_nat (seq 0 k).
Proof. unfold seqZ. rewrite Nat2Z.id. apply list_fmap_ext. intros. lia. Qed.

Lemma block_bits_spec k w t : (k <= 64)%nat -> block_bits k w = map (bit (w :: t)) (seqZ 0 (Z.of_nat k)).
Proof.
  intros Hk. unfold block_bits. rewrite seqZ_of_nat, map_map. apply map_ext_in. intros b Hb%in_seq.
  rewrite test_mask by lia. by rewrite bit_cons_low by lia.
Qed.

(** How many bits [ForEach] and [VisitOnes] go through. *)
Definition visited (l : list Z) : Z := 64 * (Z.of_nat (length l) - 1) + n mod 64.

Lemma seqZ_step m : 0 <= m -> seqZ 0 (64 + m) = seqZ 0 64 ++ map (Z.add 64) (seqZ 0 m).
Proof. intros Hm. rewrite seqZ_app by lia. f_equal. symmetry. apply (fmap_add_seqZ 64 0 m). Qed.

Lemma visited_cons w w' t : visited (w :: w' :: t) = 64 + visited (w' :: t).
Proof. unfold visited. cbn [length]. lia. Qed.
Lemma visited_pos w t : 0 <= visited (w :: t).
Proof. unfold visited. cbn [length]. pose proof (Z.mod_pos_bound n 64). lia. Qed.
Lemma visited_one w : visited [w] = Z.of_nat (Z.to_nat (n mod 64)) /\ (Z.to_nat (n mod 64) <= 64)%nat.
Proof. unfold visited. pose proof (Z.mod_pos_bound n 64). cbn [length]. lia. Qed.

Lemma ForEach_spec l : l <> [] -> ForEach n l = map (bit l) (seqZ 0 (visited l)).
Proof.
  induction l as [|w [|w' t] IH]; intros Hne; [done| |].
  - destruct (visited_one w) as [-> Hle]. by apply block_bits_spec.
  - change (ForEach n (w :: w' :: t)) with (block_bits 64 w ++ ForEach n (w' :: t)).
    rewrite visited_cons, seqZ_step, map_app, map_map by apply visited_pos.
    rewrite (block_bits_spec 64 w (w' :: t)) by done. f_equal. rewrite IH by done. apply map_ext_in.
    intros j Hj. apply list_elem_of_In, elem_of_seqZ in Hj. by rewrite bit_cons_high by lia.
Qed.

Lemma visit_block_spec k w t i : (k <= 64)%nat ->
  visit_block w i k = map (fun j => u32 (64 * i + j)) (List.filter (bit (w :: t)) (seqZ 0 (Z.of_nat k))).
Proof.
  intros Hk. rewrite seqZ_of_nat. unfold visit_block, BLOCK_SIZE.
  assert (E : flat_map (fun b => if w .& (1 .<< Z.of_nat b) =? 0 then [] else [u32 (i * 64 + Z.of_nat b)]) (seq 0 k) =
    map (fun j => u32 (64 * i + j)) (List.filter (bit (w :: t)) (map Z.of_nat (seq 0 k)))).
  { assert (Hin : forall b, In b (seq 0 k) -> (b < 64)%nat) by (intros b Hb%in_seq; lia).
    induction (seq 0 k) as [|b bs IH]; [done|]. cbn [flat_map map List.filter].
    pose proof (test_mask w (Z.of_nat b) ltac:(lia)) as Hm.
    rewrite bit_cons_low by (specialize (Hin b (or_introl eq_refl)); lia). rewrite <- Hm.
    rewrite IH by (intros; apply Hin; by right). destruct (_ =? 0); [done|]. cbn [negb map app]. do 2 f_equal. lia. }
  destruct (Z.eqb_spec w 0) as [->|]; [|exact E]. rewrite <- E. clear E. induction (seq 0 k) as [|b bs IH]; [done|].
  cbn [flat_map]. by rewrite Z.land_0_l.
Qed.

Lemma filter_map_shift (p q : Z -> bool) (f : Z -> Z) l : (forall j, In j l -> p (f j) = q j) ->
  List.filter p (map f l) = map f (List.filter q l).
Proof.
  induction l as [|j l IH]; intros H; [done|]. cbn [map List.filter]. rewrite H by by left.
  rewrite IH by (intros; apply H; by right). by destruct (q j).
Qed.

Lemma filter_cons_high w t m : List.filter (bit (w :: t)) (map (Z.add 64) (seqZ 0 m)) =
  map (Z.add 64) (List.filter (bit t) (seqZ 0 m)).
Proof.
  apply filter_map_shift. intros j Hj. apply list_elem_of_In, elem_of_seqZ in Hj. apply bit_cons_high. lia.
Qed.

Lemma visit_blocks_spec l : forall i, l <> [] ->
  visit_blocks n l i = map (fun j => u32 (64 * i + j)) (List.filter (bit l) (seqZ 0 (visited l))).
Proof.
  induction l as [|w [|w' t] IH]; intros i Hne; [done| |].
  - destruct (visited_one w) as [-> Hle]. by apply visit_block_spec.
  - change (visit_blocks n (w :: w' :: t) i) with (visit_block w i 64 ++ visit_blocks n (w' :: t) (i + 1)).
    rewrite visited_cons, seqZ_step, List.filter_app, map_app by apply visited_pos.
    rewrite (visit_block_spec 64 w (w' :: t)) by done. f_equal. rewrite IH by done.
    rewrite filter_cons_high, map_map. apply map_ext. intros j. f_equal. lia.
Qed.

Lemma ones_count k w t : (k <= 64)%nat -> in_width 64 w ->
  ones k w = Z.of_nat (length (List.filter (bit (w :: t)) (seqZ 0 (Z.of_nat k)))).
Proof.
  intros Hk Hw. rewrite seqZ_of_nat.
  assert (E : forall k b x, (b + k <= 64)%nat -> x = w .>> Z.of_nat b ->
    ones k x = Z.of_nat (length (List.filter (bit (w :: t)) (map Z.of_nat (seq b k))))).
  { clear k Hk. induction k as [|k IH]; intros b x Hb ->; [done|]. cbn [ones seq map List.filter].
    rewrite (IH (S b)); [|lia|].
    - rewrite bit_cons_low by lia. rewrite <- Z.bit0_mod, Z.shiftr_spec, Z.add_0_l by lia.
      destruct (Z.testbit w (Z.of_nat b)); cbn [length Z.b2z]; lia.
    - rewrite Nat2Z.inj_succ, <- Z.add_1_r, <- Z.shiftr_shiftr by lia. by rewrite (Z.shiftr_div_pow2 _ 1). }
  apply E; [lia|done].
Qed.

Lemma PopCount_fold l : words l -> forall pc, 0 <= pc -> pc + 64 * Z.of_nat (length l) < 2 ^ 32 ->
  fold_left (fun pc w => u32 (pc + PopCount w)) l pc =
    pc + Z.of_nat (length (List.filter (bit l) (seqZ 0 (64 * Z.of_nat (length l))))).
Proof.
  induction 1 as [|w l Hw _ IH]; intros pc Hpc Hb.
  { cbn [fold_left length]. rewrite seqZ_nil by lia. cbn. lia. }
  cbn [fold_left length] in *.
  rewrite PopCount_correct by done. rewrite (ones_count 64 w l) by done. change (Z.of_nat 64) with 64.
  set (c := Z.of_nat (length (List.filter (bit (w :: l)) (seqZ 0 64)))).
  assert (Hc : 0 <= c <= 64).
  { unfold c. pose proof (List.filter_length_le (bit (w :: l)) (seqZ 0 64)) as Hle. rewrite length_seqZ in Hle. lia. }
  unfold u32. rewrite wrap_id by (split; lia). rewrite IH by lia.
  replace (64 * Z.of_nat (S (length l))) with (64 + 64 * Z.of_nat (length l)) by lia.
  rewrite seqZ_step, List.filter_app, length_app, filter_cons_high, length_map by lia. lia.
Qed.

(** *** Counting and testing *)

Definition members (p : Z -> bool) : list Z := List.filter p (seqZ 0 n).

Lemma members_padded (p : Z -> bool) m : n <= m -> (forall j, n <= j -> p j = false) ->
  List.filter p (seqZ 0 m) = members p.
Proof.
  intros Hm Hp. replace m with (n + (m - n)) by lia. rewrite seqZ_app, List.filter_app by lia.
  assert (E : List.filter p (seqZ (0 + n) (m - n)) = []).
  { assert (Hin : forall j, In j (seqZ (0 + n) (m - n)) -> n <= j)
      by (intros j Hj; apply list_elem_of_In, elem_of_seqZ in Hj; lia).
    induction (seqZ (0 + n) (m - n)) as [|j js IH]; [done|]. cbn. rewrite Hp by (apply Hin; by left).
    apply IH. intros; apply Hin; by right. }
  rewrite E. apply app_nil_r.
Qed.

Lemma PopCount_spec l : wf l -> BA_PopCount l = Z.of_nat (length (members (bit l))).
Proof.
  intros (Hw & Hl & Ht). pose proof count_bounds as [Hc1 Hc2]. unfold BA_PopCount. rewrite PopCount_fold by (done || lia).
  rewrite members_padded by (done || lia). done.
Qed.

Lemma IsFalse_spec l : wf l -> IsFalse l = true <-> forall j, 0 <= j < n -> bit l j = false.
Proof.
  intros (Hw & Hl & Ht). unfold IsFalse. rewrite forallb_forall. split.
  - intros H j Hj. pose proof (block_of j Hj) as [Hb Hm]. unfold bit.
    assert (E : word l (j / 64) = 0); [|rewrite E; apply Z.testbit_0_l].
    unfold word, at_. rewrite (proj2 (Z.leb_le _ _)) by lia.
    destruct (l !! Z.to_nat (j / 64)) as [w|] eqn:E; [|done]. cbn.
    apply list_elem_of_lookup_2, list_elem_of_In in E. apply H in E. lia.
  - intros H w Hw'. apply list_elem_of_In, list_elem_of_lookup in Hw' as [k Ek]. apply Z.eqb_eq, Z.bits_inj'.
    intros i Hi. rewrite Z.testbit_0_l.
    assert (Hww : in_width 64 w) by by eapply Forall_lookup_1.
    destruct (Z_lt_ge_dec i 64) as [Hi64|]; [|by apply (testbit_above 64); [|lia]].
    assert (E : word l (Z.of_nat k) = w).
    { unfold word, at_. rewrite (proj2 (Z.leb_le _ _)), Nat2Z.id by lia. by rewrite Ek. }
    rewrite <- E, <- (bit_at l (Z.of_nat k) i (64 * Z.of_nat k + i)) by lia.
    destruct (Z_lt_ge_dec (64 * Z.of_nat k + i) n); [apply H; lia|apply Ht; lia].
Qed.
End Facts.

(** ** Properties *)

(** C33: the array is a set of indices.  [Get] reads membership; [Set], [|=],
    [^=] and [False] keep every word a block, nothing set past the last
    bit, and have the membership their names say; so does [True] in arrays whose size
    is not a multiple of 64 (of the others it has no result: it shifts by 64,
    [multiple_of_64]).  [PopCount] is the number of members and [IsFalse] says there is
    none. *)
Theorem BooleanArray_set n l x : 0 < n < 2 ^ 32 - 64 -> wf n l -> wf n x ->
  (forall j, 0 <= j < n -> Get l j = Some (bit l j)) /\
  (forall j v, 0 <= j < n -> exists l', Set_ l j v = Some l' /\ wf n l' /\
     forall i, bit l' i = if i =? j then v else bit l i) /\
  (wf n (False_ n) /\ forall j, bit (False_ n) j = false) /\
  (n mod 64 <> 0 -> exists t, True_ n = Some t /\ wf n t /\ forall j, 0 <= j < n -> bit t j = true) /\
  (wf n (BA_or l x) /\ forall j, bit (BA_or l x) j = bit l j || bit x j) /\
  (wf n (BA_xor l x) /\ forall j, bit (BA_xor l x) j = xorb (bit l j) (bit x j)) /\
  BA_PopCount l = Z.of_nat (length (members n (bit l))) /\
  (IsFalse l = true <-> forall j, 0 <= j < n -> bit l j = false).
Proof.
  intros Hn Hl Hx. split; [intros; by apply (Get_bit n)|]. split; [intros; by apply Set_spec|].
  split; [by apply False_spec|]. split; [by apply True_spec|].
  split; [apply zip_spec; try done; [apply Z.lor_spec|apply lor_width]|].
  split; [apply zip_spec; try done; [apply Z.lxor_spec|intros; by apply lxor_width]|].
  split; [by apply PopCount_spec|by apply IsFalse_spec].
Qed.

Lemma wf_sample n bs : 0 < n < 2 ^ 32 - 64 -> Z.of_nat (length bs) <= n ->
  exists l, BA_init n bs = Some l /\ wf n l /\ forall j, 0 <= j -> bit l j = nth (Z.to_nat j) bs false.
Proof.
  intros Hn Hb. unfold BA_init. destruct (False_spec n Hn) as [Hwf H0].
  assert (H : forall bs i l, wf n l -> 0 <= i -> i + Z.of_nat (length bs) <= n -> exists l', init_loop bs i l = Some l' /\
    wf n l' /\ forall j, 0 <= j -> bit l' j = if i <=? j then nth (Z.to_nat (j - i)) bs (bit l j) else bit l j).
  { clear bs Hb. induction bs as [|b bs IH]; intros i l Hwl Hi Hb; cbn [init_loop length] in *.
    { exists l. split; [done|]. split; [done|]. intros j Hj. destruct (i <=? j); [|done]. by destruct (Z.to_nat _). }
    destruct (Set_spec n Hn l i b Hwl) as (l1 & -> & Hwf1 & Hb1); [lia|]. cbn [mbind option_bind].
    destruct (IH (i + 1) l1 Hwf1) as (l2 & -> & Hwf2 & Hb2); [lia..|]. exists l2. split; [done|]. split; [done|].
    intros j Hj. rewrite Hb2, Hb1 by done. destruct (Z.leb_spec (i + 1) j), (Z.leb_spec i j); try lia.
    - rewrite (proj2 (Z.eqb_neq j i)) by lia. by replace (Z.to_nat (j - i)) with (S (Z.to_nat (j - (i + 1)))) by lia.
    - replace j with i by lia. by rewrite Z.eqb_refl, Z.sub_diag.
    - by rewrite (proj2 (Z.eqb_neq j i)) by lia. }
  destruct (H bs 0 (False_ n) Hwf) as (l & E & Hl & Hbit); [lia..|]. exists l. split; [done|]. split; [done|].
  intros j Hj. rewrite Hbit, (proj2 (Z.leb_le 0 j)), Z.sub_0_r, H0 by done. done.
Qed.

Lemma wf_70 : wf 70 [0x8000000000000001; 0x21].
Proof.
  split; [repeat constructor; unfold in_width; lia|]. split; [done|]. intros j Hj.
  destruct (Z_lt_ge_dec j 128) as [H|H]; [|apply bit_out; [repeat constructor; unfold in_width; lia|cbn; lia]].
  rewrite (bit_at _ 1 (j - 64)) by lia. change (word _ 1) with 0x21. apply (testbit_above 6); unfold in_width; lia.
Qed.

Lemma BooleanArray_set_witness :
  let l := [0x8000000000000001; 0x21] in
  (forall j, 0 <= j < 70 -> Get l j = Some (bit l j)) /\
  (forall j v, 0 <= j < 70 -> exists l', Set_ l j v = Some l' /\ wf 70 l' /\
     forall i, bit l' i = if i =? j then v else bit l i) /\
  (wf 70 (False_ 70) /\ forall j, bit (False_ 70) j = false) /\
  (70 mod 64 <> 0 -> exists t, True_ 70 = Some t /\ wf 70 t /\ forall j, 0 <= j < 70 -> bit t j = true) /\
  (wf 70 (BA_or l l) /\ forall j, bit (BA_or l l) j = bit l j || bit l j) /\
  (wf 70 (BA_xor l l) /\ forall j, bit (BA_xor l l) j = xorb (bit l j) (bit l j)) /\
  BA_PopCount l = Z.of_nat (length (members 70 (bit l))) /\
  (IsFalse l = true <-> forall j, 0 <= j < 70 -> bit l j = false).
Proof. apply (BooleanArray_set 70 [0x8000000000000001; 0x21] [0x8000000000000001; 0x21]); [lia|apply wf_70..]. Defined.

(** Shifting by [S] bits, [S] and the size not multiples of 64.
    [RightShift] moves every index down by [S].  [LeftShift] moves every index
    up by [S] - but when [S > 64] the block below the first block written keeps
    its old bits, which should have been cleared.  Both keep the array well formed. *)
Theorem BooleanArray_shift n l S : 0 < n < 2 ^ 32 - 64 -> wf n l -> n mod 64 <> 0 -> 0 < S <= n -> S mod 64 <> 0 ->
  (exists r, Shift n l (- S) = Some r /\ wf n r /\ forall j, 0 <= j -> bit r j = bit l (j + S)) /\
  (exists r, Shift n l S = Some r /\ wf n r /\ forall j, 0 <= j < n ->
     bit r j = if 64 * (S / 64) <=? j then bit l (j - S) else (64 * (S / 64 - 1) <=? j) && bit l j).
Proof.
  intros Hn Hwf Hm HS HSm. unfold Shift, u32.
  rewrite (proj2 (Z.ltb_ge 0 (- S))), (proj2 (Z.ltb_lt 0 S)) by lia. rewrite (wrap_id 32 S) by (split; lia).
  assert (E : wrap 32 (- wrap 32 (- S)) = S).
  { unfold wrap. rewrite <- (Z.mod_unique (- S) (2 ^ 32) (-1) (2 ^ 32 - S)) by lia.
    symmetry. apply (Z.mod_unique _ _ (-1)); lia. }
  rewrite E. split; [by apply RightShift_spec|by apply LeftShift_spec].
Qed.

Lemma BooleanArray_shift_witness :
  let l := [0x8000000000000001; 0x21] in
  (exists r, Shift 70 l (- 66) = Some r /\ wf 70 r /\ forall j, 0 <= j -> bit r j = bit l (j + 66)) /\
  (exists r, Shift 70 l 66 = Some r /\ wf 70 r /\ forall j, 0 <= j < 70 ->
     bit r j = if 64 * (66 / 64) <=? j then bit l (j - 66) else (64 * (66 / 64 - 1) <=? j) && bit l j).
Proof.
  apply (BooleanArray_shift 70 [0x8000000000000001; 0x21] 66); [lia|apply wf_70|done|lia|done].
Defined.

(** Shifting left by 66 leaves the low block as it was, where it should be empty. *)
Example LeftShift_keeps_low_block : Shift 70 [0x8000000000000001; 0x21] 66 = Some [0x8000000000000001; 4].
Proof. vm_compute. reflexivity. Qed.

(** [ForEach] gives its callback the bits in the order of their indices,
    and [VisitOnes] the indices set, counting them, from 0 up to the size -
    when that is not a multiple of 64.  When it is, both stop 64 bits short. *)
Theorem BooleanArray_visit n l : 0 < n < 2 ^ 32 - 64 -> wf n l ->
  let m := if n mod 64 =? 0 then n - 64 else n in
  ForEach n l = map (bit l) (seqZ 0 m) /\
  VisitOnes n l = (List.filter (bit l) (seqZ 0 m), Z.of_nat (length (List.filter (bit l) (seqZ 0 m)))) /\
  forall one zero, BA_ToString n one zero l = map (fun j => if bit l j then one else zero) (seqZ 0 m).
Proof.
  intros Hn Hwf m. pose proof Hwf as (Hw & Hl & Ht). pose proof (count_bounds n Hn) as [Hc1 Hc2].
  assert (Hne : l <> []) by (intros ->; cbn in Hl; lia).
  assert (Em : visited n l = m).
  { unfold visited, m. rewrite Hl. destruct (Z.eqb_spec (n mod 64) 0) as [E|E]; [|by rewrite <- count_tail].
    pose proof (Z.div_mod n 64). lia. }
  assert (Hm : m <= n) by (unfold m; destruct (n mod 64 =? 0); lia).
  pose proof (ForEach_spec n l Hne) as HF. rewrite Em in HF. split; [exact HF|]. split.
  - unfold VisitOnes. rewrite visit_blocks_spec, Em by done. cbv zeta. rewrite length_map.
    assert (Hle : (length (List.filter (bit l) (seqZ 0 m)) <= Z.to_nat m)%nat)
      by (rewrite <- (length_seqZ 0 m); apply List.filter_length_le).
    unfold u32 at 2. rewrite wrap_id by (split; lia). f_equal.
    rewrite <- map_id. apply map_ext_in. intros j Hj. apply List.filter_In in Hj as [Hj _].
    apply list_elem_of_In, elem_of_seqZ in Hj. unfold u32. apply wrap_id. split; lia.
  - intros one zero. unfold BA_ToString. by rewrite HF, map_map.
Qed.

Lemma BooleanArray_visit_witness :
  let l := [0x8000000000000001; 0x21] in
  let m := if 70 mod 64 =? 0 then 70 - 64 else 70 in
  ForEach 70 l = map (bit l) (seqZ 0 m) /\
  VisitOnes 70 l = (List.filter (bit l) (seqZ 0 m), Z.of_nat (length (List.filter (bit l) (seqZ 0 m)))) /\
  forall one zero, BA_ToString 70 one zero l = map (fun j => if bit l j then one else zero) (seqZ 0 m).
Proof. apply (BooleanArray_visit 70 [0x8000000000000001; 0x21]); [lia|apply wf_70]. Defined.

(** In an array of 64 bits nothing is visited, and [True] shifts by a whole block. *)
Example multiple_of_64 : VisitOnes 64 [5] = ([], 0) /\ True_ 64 = None.
Proof. done. Qed.
