(* ===== verification/TopFreq.v ===== *)
(** [rt::TopFrequentValues] (rt/buffer_type.h): a few counters that follow the
    most frequent values of a stream. *)
From stdpp Require Import sorting.
From S2P Require Import Prelude Select.

(** ** Definitions *)

Record tval (A : Type) := mkVal { Val : A; Count : Z }.
Arguments mkVal {A}. Arguments Val {A}. Arguments Count {A}.

Definition UNMATCHED : Z := 0.
Definition MATCHED : Z := 1.
Definition MATCHED_WITH_TOP : Z := 2.

Section Top.
Context {A : Type} (eqb : A -> A -> bool) (store_last_val : bool).

(** [_Match] on the counters from one on; with none left nothing matches. *)
Fixpoint Match_ (l : list (tval A)) (val : A) : Z * list (tval A) :=
  match l with
  | [] => (UNMATCHED, [])
  | e :: t =>
    if eqb (Val e) val then
      (MATCHED_WITH_TOP, mkVal (if store_last_val then val else Val e) (s32 (Count e + 1)) :: t)
    else if Count e =? 0 then (MATCHED_WITH_TOP, mkVal val 1 :: t)
    else
      let '(ret, t') := Match_ t val in
      if ret =? MATCHED_WITH_TOP then
        match t' with
        | f :: u => if Count e <? Count f then (MATCHED_WITH_TOP, f :: e :: u) else (MATCHED, e :: t')
        | [] => (MATCHED, e :: t')
        end
      else (ret, e :: t')
  end.

Definition Sample (l : list (tval A)) (val : A) : Z * list (tval A) :=
  let '(ret, l') := Match_ l val in
  if ret =? UNMATCHED then
    match reverse l' with
    | z :: r =>
      let c := s32 (Count z - 1) in
      if c <? 0 then (MATCHED, reverse (mkVal val 1 :: r)) else (ret, reverse (mkVal (Val z) c :: r))
    | [] => (ret, l')
    end
  else (ret, l').

(** The members after [Reset]: [zero] is the value whose bytes are all zero. *)
Definition Top_Reset (k : nat) (zero : A) : list (tval A) := replicate k (mkVal zero 0).

Definition Samples (l : list (tval A)) (vs : list A) : list (tval A) := fold_left (fun l v => snd (Sample l v)) vs l.

Definition GetFrequency (l : list (tval A)) (i : Z) : option Z := Count <$> at_ l i.
Definition Top_Get (l : list (tval A)) (i : Z) : option (option (A * Z)) :=
  e ← at_ l i; Some (if 0 <? Count e then Some (Val e, Count e) else None).
Definition IsEmpty (l : list (tval A)) : option bool := c ← GetFrequency l 0; Some (c <=? 0).

(** [Count >= min_votes] compares as UINT. *)
Definition IsSignificant (l : list (tval A)) (min_votes : Z) : option bool :=
  c0 ← GetFrequency l 0;
  if min_votes <=? u32 c0 then c1 ← GetFrequency l 1; Some (s32 (2 * c1) <? c0) else Some false.

(** The division truncates towards zero; there is none by zero.  The last
    product and the sum are those of UINTs. *)
Definition GetSignificantRatio (l : list (tval A)) (min_votes : Z) : option Z :=
  c0 ← GetFrequency l 0;
  if s32 min_votes <=? c0 then
    c1 ← GetFrequency l 1;
    if c0 =? 0 then None else Some (u32 (50 + Z.min 50 (Z.quot (s32 (c0 - c1)) c0)))
  else Some (u32 (u32 (Z.quot c0 2) * min_votes)).

Definition Top_Remove (l : list (tval A)) (i : Z) : option (list (tval A)) :=
  let k := Z.of_nat (length l) in
  let l := if 0 <? s32 (k - s32 i - 1) then take (Z.to_nat i) l ++ drop (S (Z.to_nat i)) l ++ drop (length l - 1) l else l in
  match reverse l with
  | z :: r => Some (reverse (mkVal (Val z) 0 :: r))
  | [] => None
  end.
End Top.

(** ** Facts *)

Section TopFacts.
Context {A : Type} (eqb : A -> A -> bool) (eqb_ok : forall x y, eqb x y = true <-> x = y) (last : bool).
Implicit Types (l t : list (tval A)).

(** Occurrences in the stream so far. *)
Definition occ (vs : list A) (v : A) : Z := Z.of_nat (length (List.filter (eqb v) vs)).

(** The counters run down and are not negative. *)
Definition desc l : Prop := StronglySorted (fun a b => Count b <= Count a) l /\ Forall (fun e => 0 <= Count e) l.

Definition positive l : list (tval A) := List.filter (fun e => 0 <? Count e) l.

Lemma eqb_refl x : eqb x x = true.
Proof. by apply eqb_ok. Qed.

Lemma desc_cons e t : desc (e :: t) <-> Forall (fun f => Count f <= Count e) t /\ 0 <= Count e /\ desc t.
Proof. unfold desc. rewrite StronglySorted_cons, Forall_cons. tauto. Qed.

Lemma desc_zero l : desc l -> Forall (fun e => Count e <= 0) l -> positive l = [].
Proof.
  intros _. induction 1 as [|e l He _ IH]; [done|]. cbn. by rewrite (proj2 (Z.ltb_ge _ _)).
Qed.

(** One vote more for [v], the other positive counters as they were. *)
Definition bumped (v : A) l l' : Prop := exists c b, 0 <= c /\
  Permutation (positive l') (mkVal v (c + 1) :: b) /\
  Permutation (positive l) (if c =? 0 then b else mkVal v c :: b) /\ (c = 0 -> Forall (fun e => Val e <> v) b).

Lemma positive_cons e t : 0 < Count e -> positive (e :: t) = e :: positive t.
Proof. intros He. cbn. by rewrite (proj2 (Z.ltb_lt _ _)). Qed.

Lemma bumped_head v t c c' : 0 <= c -> c' = c + 1 -> (c = 0 -> positive t = []) ->
  bumped v (mkVal v c :: t) (mkVal v c' :: t).
Proof.
  intros Hc -> H0. exists c, (positive t). rewrite (positive_cons (mkVal v (c + 1))) by (cbn; lia).
  split; [done|]. split; [done|]. destruct (Z.eqb_spec c 0) as [->|Hne].
  - split; [done|]. intros _. by rewrite H0.
  - rewrite positive_cons by (cbn; lia). split; [done|lia].
Qed.

Lemma bumped_under v e t l' t' : 0 < Count e -> Val e <> v -> Permutation l' (e :: t') -> bumped v t t' ->
  bumped v (e :: t) l'.
Proof.
  intros He Hv Hl' (c & b & Hc & H1 & H2 & H3). exists c, (e :: b). split; [done|].
  assert (Hp : Permutation (positive l') (positive (e :: t'))).
  { clear -Hl'. unfold positive. induction Hl'; cbn; [done|..].
    - destruct (0 <? Count x); [by constructor|done].
    - destruct (0 <? Count x), (0 <? Count y); try done. constructor.
    - by etransitivity. }
  rewrite Hp, !positive_cons, H1, H2 by done. split; [constructor|]. split; [destruct (c =? 0); [done|constructor]|].
  intros Hc0. constructor; [done|]. by apply H3.
Qed.

(** The order and the bound [M] on the counters: only a new top may exceed it, by one. *)
Lemma Match_spec v l : forall M, desc l -> Forall (fun e => Count e <= M) l -> 0 <= M < 2 ^ 31 - 1 ->
  let '(r, l') := Match_ eqb last l v in
  (r = UNMATCHED /\ l' = l /\ Forall (fun e => 0 < Count e /\ Val e <> v) l) \/
  (length l' = length l /\ desc l' /\ bumped v l l' /\
   (r = MATCHED /\ Forall (fun e => Count e <= M) l' \/
    r = MATCHED_WITH_TOP /\ exists f u, l' = f :: u /\ Count f <= M + 1 /\ Forall (fun e => Count e <= M) u)).
Proof.
  induction l as [|e t IH]; intros M Hd HM HM31; cbn [Match_]; [by left|].
  apply desc_cons in Hd as (Het & He & Ht). apply Forall_cons in HM as [HeM HtM].
  assert (Hz : Count e = 0 -> positive t = []).
  { intros E. apply desc_zero; [done|]. eapply Forall_impl; [exact Het|]. cbn beta. lia. }
  assert (Hhead : forall c, c = Count e + 1 -> desc (mkVal v c :: t)).
  { intros c ->. apply desc_cons. split; [|cbn; split; [lia|done]]. eapply Forall_impl; [exact Het|]. cbn. lia. }
  destruct (eqb (Val e) v) eqn:Ev.
  { apply eqb_ok in Ev. right. rewrite s32_small by lia.
    replace (mkVal (if last then v else Val e) (Count e + 1)) with (mkVal v (Count e + 1)) by (rewrite Ev; by destruct last).
    split; [done|]. split; [by apply Hhead|]. split; [destruct e; cbn in *; subst; by apply bumped_head|].
    right. split; [done|]. eexists _, _. split; [done|]. cbn. split; [lia|done]. }
  assert (Hev : Val e <> v) by (intros E; apply eqb_ok in E; congruence).
  destruct (Z.eqb_spec (Count e) 0) as [E0|E0].
  { right. split; [done|]. split; [by apply Hhead; lia|]. split.
    - assert (Ez : positive (e :: t) = []).
      { unfold positive. cbn. rewrite (proj2 (Z.ltb_ge 0 (Count e))) by lia. by apply Hz. }
      exists 0, []. rewrite Ez, positive_cons, (Hz E0) by done. repeat split; done.
    - right. split; [done|]. eexists _, _. split; [done|]. cbn. split; [lia|done]. }
  specialize (IH (Count e) Ht Het ltac:(lia)). destruct (Match_ eqb last t v) as [r t'].
  assert (Hwide : forall u : list (tval A), Forall (fun f => Count f <= Count e) u -> Forall (fun f => Count f <= M) u).
  { intros u Hu. eapply Forall_impl; [exact Hu|]. cbn beta. lia. }
  destruct IH as [(-> & -> & Hall)|(Hlen & Hd' & Hb & [[-> Hle]|(-> & f & u & -> & Hf & Hu)])]; cbn [Z.eqb UNMATCHED MATCHED].
  - left. split; [done|]. split; [done|]. constructor; [split; [lia|done]|done].
  - right. change (MATCHED =? MATCHED_WITH_TOP) with false. cbn iota.
    split; [cbn; lia|]. split; [by apply desc_cons|]. split; [apply (bumped_under v e t _ t'); [lia|done|done|done]|].
    left. split; [done|]. constructor; [lia|by apply Hwide].
  - change (MATCHED_WITH_TOP =? MATCHED_WITH_TOP) with true. cbn iota.
    apply desc_cons in Hd' as (Hfu & Hf0 & Hdu). destruct (Z.ltb_spec (Count e) (Count f)) as [Hlt|Hge]; right.
    + split; [cbn in *; lia|]. split.
      { apply desc_cons. split; [constructor; [lia|done]|]. split; [lia|]. by apply desc_cons. }
      split; [apply (bumped_under v e t _ (f :: u)); [lia|done|apply perm_swap|done]|].
      right. split; [done|]. exists f, (e :: u). split; [done|]. split; [lia|]. constructor; [lia|by apply Hwide].
    + split; [cbn in *; lia|]. split.
      { apply desc_cons. split; [constructor; [lia|done]|]. split; [lia|]. by apply desc_cons. }
      split; [apply (bumped_under v e t _ (f :: u)); [lia|done|done|done]|].
      left. split; [done|]. constructor; [lia|]. constructor; [lia|by apply Hwide].
Qed.

(** *** The invariant of a stream *)

(** After the samples [vs]: as many counters, in order, with distinct values,
    none counting more votes than its value was given. *)
Definition counts (k : nat) (vs : list A) l : Prop :=
  length l = k /\ desc l /\ NoDup (map Val (positive l)) /\ Forall (fun e => Count e <= occ vs (Val e)) (positive l).

Lemma occ_snoc vs v x : occ (vs ++ [v]) x = occ vs x + (if eqb x v then 1 else 0).
Proof. unfold occ. rewrite List.filter_app, length_app. cbn. destruct (eqb x v); cbn; lia. Qed.

Lemma occ_bounds vs v : 0 <= occ vs v <= Z.of_nat (length vs).
Proof. unfold occ. pose proof (List.filter_length_le (eqb v) vs). lia. Qed.

Lemma counts_top k vs l : counts k vs l -> Forall (fun e => Count e <= Z.of_nat (length vs)) l.
Proof.
  intros (_ & _ & _ & Hc). rewrite Forall_forall in *. intros e He.
  destruct (Z_lt_ge_dec 0 (Count e)); [|lia]. pose proof (occ_bounds vs (Val e)).
  assert (Hin : e ∈ positive l) by (apply list_elem_of_In, List.filter_In; rewrite <- list_elem_of_In; split; [done|lia]).
  specialize (Hc e Hin). lia.
Qed.

(** A decrement of the last counter. *)
Lemma counts_weaken k vs v l l' : counts k vs l -> length l' = length l -> desc l' ->
  (exists z, Permutation (positive l) (positive l' ++ z) \/ exists y c, 0 < c /\ c < Count y /\ y ∈ positive l /\
    exists b, Permutation (positive l) (y :: b) /\ Permutation (positive l') (mkVal (Val y) c :: b)) ->
  counts k (vs ++ [v]) l'.
Proof.
  intros (Hk & _ & Hnd & Hc) Hlen Hd Hp. split; [lia|]. split; [done|].
  assert (Hocc : forall x, occ vs x <= occ (vs ++ [v]) x) by (intros x; rewrite occ_snoc; destruct (eqb x v); lia).
  rewrite Forall_forall in Hc. destruct Hp as (z & [Hp|(y & c & H0 & Hcy & Hy & b & Hp & Hp')]).
  - rewrite Hp, map_app in Hnd. apply NoDup_app in Hnd as (Hnd & _ & _). split; [done|].
    apply Forall_forall. intros e He. specialize (Hc e). rewrite Hp, elem_of_app in Hc. specialize (Hc (or_introl He)).
    specialize (Hocc (Val e)). lia.
  - rewrite Hp in Hnd. rewrite Hp'. split; [done|]. cbn. constructor.
    + cbn. specialize (Hc y Hy). specialize (Hocc (Val y)). lia.
    + apply Forall_forall. intros e He. specialize (Hc e). rewrite Hp in Hc.
      specialize (Hc (list_elem_of_further _ _ _ He)). specialize (Hocc (Val e)). lia.
Qed.

Lemma counts_bumped k vs v l l' : counts k vs l -> length l' = length l -> desc l' -> bumped v l l' ->
  counts k (vs ++ [v]) l'.
Proof.
  intros (Hk & _ & Hnd & Hc) Hlen Hd (c & b & Hc0 & Hp' & Hp & Hv). split; [lia|]. split; [done|].
  assert (Hocc : forall x, occ vs x <= occ (vs ++ [v]) x) by (intros x; rewrite occ_snoc; destruct (eqb x v); lia).
  assert (Hb : Forall (fun e => Count e <= occ (vs ++ [v]) (Val e)) b).
  { apply Forall_forall. intros e He. rewrite Forall_forall in Hc. specialize (Hc e). rewrite Hp in Hc.
    specialize (Hocc (Val e)). destruct (c =? 0); [specialize (Hc He)|specialize (Hc (list_elem_of_further _ _ _ He))]; lia. }
  rewrite Hp in Hnd. rewrite Hp'. destruct (Z.eqb_spec c 0) as [->|Hne].
  - split.
    + cbn. constructor; [|done]. rewrite list_elem_of_In, in_map_iff. intros (e & He & Hin).
      rewrite Forall_forall in Hv. by apply (Hv eq_refl e); [apply list_elem_of_In|].
    + constructor; [cbn; rewrite occ_snoc, eqb_refl; pose proof (occ_bounds vs v); lia|done].
  - split; [done|]. constructor; [|done]. cbn. rewrite occ_snoc, eqb_refl.
    rewrite Forall_forall in Hc. specialize (Hc (mkVal v c)). rewrite Hp in Hc. cbn in Hc.
    specialize (Hc (list_elem_of_here _ _)). lia.
Qed.

Lemma positive_app l1 l2 : positive (l1 ++ l2) = positive l1 ++ positive l2.
Proof. apply List.filter_app. Qed.

Lemma Sample_counts k vs v l : counts k vs l -> Z.of_nat (length vs) < 2 ^ 31 - 1 ->
  counts k (vs ++ [v]) (snd (Sample eqb last l v)).
Proof.
  intros Hc Hvs. unfold Sample. pose proof Hc as (Hk & Hd & _).
  pose proof (Match_spec v l (Z.of_nat (length vs)) Hd (counts_top k vs l Hc) ltac:(lia)) as HM.
  destruct (Match_ eqb last l v) as [r l'].
  destruct HM as [(-> & -> & Hall)|(Hlen & Hd' & Hb & Hr)].
  - change (UNMATCHED =? UNMATCHED) with true. cbn iota. destruct l as [|z l _] using rev_ind.
    { cbn. apply (counts_weaken k vs v []); [done|done|done|]. exists []. by left. }
    rewrite reverse_snoc. apply Forall_app in Hall as [Hall Hz]. inversion_clear Hz as [|? ? [Hz0 Hzv] _].
    pose proof (counts_top k vs _ Hc) as Htop. apply Forall_app in Htop as [_ Htop]. inversion_clear Htop as [|? ? Hzt _].
    rewrite s32_small by lia. rewrite (proj2 (Z.ltb_ge (Count z - 1) 0)) by lia. cbn [snd].
    rewrite reverse_cons, reverse_involutive.
    apply (counts_weaken k vs v (l ++ [z])); [done|by rewrite !length_app| |].
    + destruct Hd as [Hs Hn]. apply StronglySorted_app in Hs as (H1 & H2 & _). apply Forall_app in Hn as [Hn1 _].
      split; [|apply Forall_app; split; [done|by constructor; [cbn; lia|]]]. apply StronglySorted_app.
      split; [|split; [done|by repeat constructor]]. intros e f He ->%list_elem_of_singleton. cbn.
      specialize (H1 e z He (list_elem_of_here _ _)). cbn in H1. lia.
    + rewrite !positive_app, (positive_cons z) by done. destruct (Z.eqb_spec (Count z) 1) as [E1|E1].
      * exists [z]. left. assert (E : positive [mkVal (Val z) (Count z - 1)] = []) by (by rewrite E1).
        by rewrite E, app_nil_r.
      * exists []. right. exists z, (Count z - 1). split; [lia|]. split; [lia|].
        split; [apply elem_of_app; right; by constructor|].
        exists (positive l). rewrite (positive_cons (mkVal _ _)) by (cbn; lia). cbn [positive List.filter].
        split; symmetry; apply Permutation_cons_append.
  - assert (E : (if r =? UNMATCHED then
        match reverse l' with
        | z :: r0 => if s32 (Count z - 1) <? 0 then (MATCHED, reverse (mkVal v 1 :: r0))
          else (r, reverse (mkVal (Val z) (s32 (Count z - 1)) :: r0))
        | [] => (r, l') end else (r, l')) = (r, l')) by (by destruct Hr as [[-> _]|[-> _]]).
    cbv zeta. rewrite E. by apply (counts_bumped k vs v l).
Qed.

Lemma Reset_counts k zero : counts k [] (Top_Reset k zero).
Proof.
  unfold Top_Reset. split; [apply length_replicate|].
  assert (E : positive (replicate k (mkVal zero 0)) = []) by by induction k.
  split; [|rewrite E; split; [constructor|constructor]].
  split; [|by apply Forall_replicate]. clear E.
  induction k as [|k IH]; [constructor|cbn; constructor; [done|by apply Forall_replicate]].
Qed.

Lemma Samples_snoc l vs v : Samples eqb last l (vs ++ [v]) = snd (Sample eqb last (Samples eqb last l vs) v).
Proof. unfold Samples. by rewrite fold_left_app. Qed.

Lemma Samples_counts k zero vs : Z.of_nat (length vs) < 2 ^ 31 ->
  counts k vs (Samples eqb last (Top_Reset k zero) vs).
Proof.
  induction vs as [|v vs IH] using rev_ind; intros Hlen; [apply Reset_counts|].
  rewrite length_app in Hlen. cbn in Hlen. rewrite Samples_snoc. apply Sample_counts; [apply IH|]; lia.
Qed.

(** Removing a counter: the others close up, the last is empty. *)
Lemma Remove_counts k vs a e b : counts k vs (a ++ e :: b) -> Z.of_nat k < 2 ^ 31 ->
  exists x, Top_Remove (a ++ e :: b) (Z.of_nat (length a)) = Some (a ++ b ++ [mkVal x 0]) /\
    counts k vs (a ++ b ++ [mkVal x 0]).
Proof.
  intros Hc Hk. pose proof Hc as (Hl & Hd & Hnd & Ho). rewrite length_app in Hl. cbn in Hl.
  assert (Hx : exists x, Top_Remove (a ++ e :: b) (Z.of_nat (length a)) = Some (a ++ b ++ [mkVal x 0])).
  { unfold Top_Remove. rewrite length_app. cbn [length]. rewrite (s32_small (Z.of_nat (length a))) by lia.
    rewrite s32_small by lia. destruct b as [|z b _] using rev_ind.
    - rewrite (proj2 (Z.ltb_ge 0 _)) by (cbn; lia). rewrite reverse_snoc. exists (Val e).
      by rewrite reverse_cons, reverse_involutive.
    - rewrite length_app in *. cbn [length] in *. rewrite (proj2 (Z.ltb_lt 0 _)) by lia.
      rewrite Nat2Z.id, take_app_length, <- (Nat.add_1_r (length a)).
      rewrite <- (drop_drop (a ++ e :: b ++ [z])), drop_app_length. cbn [drop]. rewrite drop_0.
      replace (a ++ e :: b ++ [z]) with ((a ++ e :: b) ++ [z]) by by rewrite <- app_assoc.
      rewrite drop_app_length' by (rewrite length_app; cbn; lia).
      rewrite (app_assoc a), reverse_snoc. exists (Val z). rewrite reverse_cons, reverse_involutive. by app_norm. }
  destruct Hx as [x Ex]. exists x. split; [done|].
  assert (Ep : positive [mkVal x 0] = []) by done.
  assert (Hp : Permutation (positive (a ++ e :: b)) (positive (a ++ b ++ [mkVal x 0]) ++ positive [e])).
  { rewrite !positive_app, Ep, app_nil_r, <- app_assoc. apply Permutation_app_head.
    change (e :: b) with ([e] ++ b). rewrite positive_app. apply Permutation_app_comm. }
  split; [rewrite !length_app; cbn; lia|]. split.
  - destruct Hd as [Hs Hn]. apply StronglySorted_app in Hs as (H1 & H2 & H3). apply StronglySorted_cons in H3 as [H3 H4].
    apply Forall_app in Hn as [Hn1 Hn2]. apply Forall_cons in Hn2 as [Hne Hn2].
    rewrite Forall_forall in Hn1, Hn2.
    assert (H5 : StronglySorted (fun a b : tval A => Count b <= Count a) (b ++ [mkVal x 0])).
    { apply StronglySorted_app. split; [|split; [done|by repeat constructor]].
      intros y w Hy ->%list_elem_of_singleton. cbn. by apply Hn2. }
    split.
    + apply StronglySorted_app. split; [|by split]. intros y w Hy Hw.
      apply elem_of_app in Hw as [Hw| ->%list_elem_of_singleton]; [apply H1; [done|by right]|cbn; by apply Hn1].
    + rewrite !Forall_app, !Forall_forall. split; [done|]. split; [done|]. by intros w ->%list_elem_of_singleton.
  - rewrite Hp, map_app in Hnd. apply NoDup_app in Hnd as (Hnd & _ & _). split; [done|].
    rewrite Forall_forall in *. intros y Hy. apply Ho. rewrite Hp. apply elem_of_app. by left.
Qed.

(** *** One counter: the majority *)

Definition leads (vs : list A) (e : tval A) : Prop := 0 <= Count e <= Z.of_nat (length vs) /\
  forall x, 2 * occ vs x <= Z.of_nat (length vs) + (if eqb (Val e) x then Count e else - Count e).

Lemma eqb_neq x y : x <> y -> eqb x y = false.
Proof. intros H. destruct (eqb x y) eqn:E; [by apply eqb_ok in E|done]. Qed.

Lemma Sample_leads vs e v : leads vs e -> Z.of_nat (length vs) < 2 ^ 31 - 1 ->
  exists r e', Sample eqb last [e] v = (r, [e']) /\ leads (vs ++ [v]) e'.
Proof.
  intros [Hc Hx] Hlen. unfold Sample, leads. cbn [Match_]. rewrite length_app. cbn [length].
  destruct (eqb (Val e) v) eqn:Ev.
  { apply eqb_ok in Ev. exists MATCHED_WITH_TOP, (mkVal (if last then v else Val e) (s32 (Count e + 1))).
    split; [done|]. rewrite s32_small by lia. cbn [Val Count]. split; [lia|].
    replace (if last then v else Val e) with v by (rewrite Ev; by destruct last). subst v.
    intros x. specialize (Hx x). rewrite occ_snoc. destruct (eqb (Val e) x) eqn:E.
    - apply eqb_ok in E. subst x. rewrite eqb_refl. lia.
    - rewrite (eqb_neq x) by (intros ->; by rewrite eqb_refl in E). lia. }
  destruct (Z.eqb_spec (Count e) 0) as [E0|E0].
  { exists MATCHED_WITH_TOP, (mkVal v 1). split; [done|]. cbn [Val Count]. split; [lia|]. intros x. specialize (Hx x). rewrite occ_snoc.
    destruct (eqb v x) eqn:E.
    - apply eqb_ok in E. subst x. rewrite eqb_refl. destruct (eqb (Val e) v); lia.
    - rewrite (eqb_neq x v) by (intros ->; by rewrite eqb_refl in E). destruct (eqb (Val e) x); lia. }
  exists UNMATCHED, (mkVal (Val e) (Count e - 1)). change (UNMATCHED =? MATCHED_WITH_TOP) with false. cbn iota. change (UNMATCHED =? UNMATCHED) with true.
  cbn iota. change (reverse [e]) with [e]. cbv beta iota zeta. rewrite s32_small by lia.
  rewrite (proj2 (Z.ltb_ge _ 0)) by lia. split; [done|]. cbn [Val Count]. split; [lia|].
  intros x. specialize (Hx x). rewrite occ_snoc. destruct (eqb (Val e) x) eqn:E.
  - apply eqb_ok in E. subst x. rewrite Ev. lia.
  - destruct (eqb x v); lia.
Qed.

Lemma Samples_leads zero vs : Z.of_nat (length vs) < 2 ^ 31 ->
  exists e, Samples eqb last (Top_Reset 1 zero) vs = [e] /\ leads vs e.
Proof.
  induction vs as [|v vs IH] using rev_ind; intros Hlen.
  { exists (mkVal zero 0). split; [done|]. split; [cbn; lia|]. intros x. unfold occ. cbn. destruct (eqb zero x); lia. }
  rewrite length_app in Hlen. cbn in Hlen. destruct IH as (e & E & He); [lia|].
  destruct (Sample_leads vs e v He) as (r & e' & E' & He'); [lia|]. exists e'. rewrite Samples_snoc, E, E'. done.
Qed.
End TopFacts.

(** ** Properties *)

Section Properties.
Context {A : Type} (eqb : A -> A -> bool) (last : bool).

(** With one counter, a value that makes more than half of the stream is
    the one the counter holds at the end, with a positive count. *)
Theorem TopFrequentValues_majority zero vs x : (forall x y, eqb x y = true <-> x = y) ->
  Z.of_nat (length vs) < 2 ^ 31 -> Z.of_nat (length vs) < 2 * occ eqb vs x ->
  exists c, Samples eqb last (Top_Reset 1 zero) vs = [mkVal x c] /\ 0 < c <= Z.of_nat (length vs) /\
    Top_Get (Samples eqb last (Top_Reset 1 zero) vs) 0 = Some (Some (x, c)) /\
    IsEmpty (Samples eqb last (Top_Reset 1 zero) vs) = Some false.
Proof.
  intros Hok Hlen Hx. destruct (Samples_leads eqb Hok last zero vs Hlen) as ([v c] & -> & Hc & Hl). cbn [Val Count] in *.
  specialize (Hl x). destruct (eqb v x) eqn:E; [|lia]. apply Hok in E as ->. exists c.
  split; [done|]. split; [lia|]. unfold Top_Get, IsEmpty, GetFrequency.
  change (at_ [mkVal x c] 0) with (Some (mkVal x c)). cbn [mbind option_bind fmap option_fmap option_map Count Val].
  rewrite (proj2 (Z.ltb_lt 0 c)), (proj2 (Z.leb_gt c 0)) by lia. done.
Qed.

End Properties.

Lemma TopFrequentValues_majority_witness :
  let vs := [3; 7; 7; 2; 7] in
  exists c, Samples Z.eqb false (Top_Reset 1 0) vs = [mkVal 7 c] /\ 0 < c <= Z.of_nat (length vs) /\
    Top_Get (Samples Z.eqb false (Top_Reset 1 0) vs) 0 = Some (Some (7, c)) /\
    IsEmpty (Samples Z.eqb false (Top_Reset 1 0) vs) = Some false.
Proof. apply (TopFrequentValues_majority Z.eqb false 0 [3; 7; 7; 2; 7] 7); [apply Z.eqb_eq|done|done]. Defined.


(** With one counter [IsSignificant] reads the one after it; the ratio, meant
    in percent, is an integer division: 50 or 51. *)
Example IsSignificant_overruns : IsSignificant [mkVal 7 5] 3 = None.
Proof. done. Qed.
Example ratio_is_50 : GetSignificantRatio [mkVal 7 100; mkVal 3 1] 10 = Some 50 /\
  GetSignificantRatio [mkVal 7 100; mkVal 3 0] 10 = Some 51.
Proof. done. Qed.
