(* ===== verification/Streams.v ===== *)
(** The byte streams of rt/buffer_type.h: [StreamT], [OStreamT], [IStreamT] over
    a block of fixed size, and [OStream] over a growing [Buffer<BYTE>]. *)
From S2P Require Import Prelude Hash Select Buffers.

(** ** Definitions *)

Definition Seek_Begin : Z := 0.
Definition Seek_Current : Z := 1.
Definition Seek_End : Z := 2.

(** *** Over a block of fixed size *)

(** [st_data] is the storage, [_len] its length. *)
Record stream := mkStream { st_data : list Z; m_Pos : Z; m_Used : Z }.
Definition st_len (s : stream) : Z := Z.of_nat (length (st_data s)).

Definition StreamT (p : list Z) (used_len : Z) : stream := mkStream p 0 used_len.
Definition GetLength (s : stream) : Z := m_Used s.
Definition Rewind (s : stream) : stream := mkStream (st_data s) 0 (m_Used s).

(** The target of a seek; any other origin leaves 0. *)
Definition seek_pos (pos used offset nFrom : Z) : Z :=
  if nFrom =? Seek_Begin then offset
  else if nFrom =? Seek_Current then s64 (pos + offset)
  else if nFrom =? Seek_End then s64 (used + offset) else 0.

Definition StreamT_Seek (s : stream) (offset nFrom : Z) : Z * stream :=
  let newp := seek_pos (m_Pos s) (m_Used s) offset nFrom in
  let s := if (0 <=? newp) && (newp <=? s64 (st_len s)) then mkStream (st_data s) (u32 newp) (m_Used s) else s in
  (m_Pos s, s).

(** [memcpy] of [bs] to index [pos]. *)
Definition put {A} (pos : Z) (bs c : list A) : option (list A) :=
  if (0 <=? pos) && (pos + Z.of_nat (length bs) <=? Z.of_nat (length c)) then
    Some (take (Z.to_nat pos) c ++ bs ++ drop (Z.to_nat pos + length bs) c)
  else None.

(** [OStreamT::Write] of the first [co] bytes of [pBuf]. *)
Definition OStreamT_Write (s : stream) (pBuf : list Z) (co : Z) : option (Z * stream) :=
  let co := Z.min (u32 (st_len s - m_Pos s)) co in
  if co =? 0 then Some (0, s)
  else
    d ← put (m_Pos s) (take (Z.to_nat co) pBuf) (st_data s);
    let pos := u32 (m_Pos s + co) in
    Some (co, mkStream d pos (if m_Used s <? pos then pos else m_Used s)).

Definition IStreamT_Read (s : stream) (co : Z) : option (list Z * stream) :=
  let co := Z.min co (u32 (st_len s - m_Pos s)) in
  if m_Pos s + co <=? st_len s then
    Some (take (Z.to_nat co) (drop (Z.to_nat (m_Pos s)) (st_data s)),
          mkStream (st_data s) (u32 (m_Pos s + co)) (m_Used s))
  else None.

(** [OStreamFixed<LEN>::SetLength] *)
Definition OStreamFixed_SetLength (s : stream) (sz : Z) : bool * stream :=
  if sz <=? st_len s then (true, mkStream (st_data s) (Z.min (m_Pos s) sz) sz) else (false, s).

(** *** Over a growing buffer *)

Record ostream := mkOStream { os_buf : buf Z; os_Pos : Z; os_Used : Z }.

Definition OStream_init (a : list bool) : ostream := mkOStream (Buf [] 0 0 a) 0 0.

(** [m_Pos + co] is computed in 32 bits. *)
Definition OStream_Write (s : ostream) (pBuf : list Z) : option (Z * ostream) :=
  let co := Z.of_nat (length pBuf) in
  '(ok, b) ← Buffer_ChangeSize true 0 (Z.max (len (os_buf s)) (u32 (os_Pos s + co))) (os_buf s);
  if ok : bool then
    c ← put (os_Pos s) (Some <$> pBuf) (cells b);
    Some (co, mkOStream (set_cells c b) (u32 (os_Pos s + co)) (os_Used s))
  else Some (0, mkOStream b (os_Pos s) (os_Used s)).

Definition OStream_Seek (s : ostream) (offset nFrom : Z) : option (Z * ostream) :=
  let newp := seek_pos (os_Pos s) (len (os_buf s)) offset nFrom in
  if 0 <=? newp then
    '(ok, b) ← Buffer_ChangeSize true 0 (Z.max (len (os_buf s)) newp) (os_buf s);
    let pos := if ok : bool then u32 newp else os_Pos s in
    Some (pos, mkOStream b pos (os_Used s))
  else Some (os_Pos s, s).

Definition OStream_SetLength (s : ostream) (sz : Z) : option (bool * ostream) :=
  '(ok, b) ← Buffer_ChangeSize true 0 sz (os_buf s); Some (ok, mkOStream b (Z.min (os_Pos s) sz) sz).

(** A sequence of writes. *)
Fixpoint OStream_Writes (s : ostream) (bss : list (list Z)) : option ostream :=
  match bss with
  | [] => Some s
  | bs :: t => '(_, s) ← OStream_Write s bs; OStream_Writes s t
  end.

(** A sequence of reads. *)
Fixpoint IStream_Reads (s : stream) (ns : list Z) : option (list (list Z) * stream) :=
  match ns with
  | [] => Some ([], s)
  | n :: t => '(bs, s) ← IStreamT_Read s n; '(bss, s) ← IStream_Reads s t; Some (bs :: bss, s)
  end.

(** ** Facts *)

Abbreviation zlen l := (Z.of_nat (length l)).

(** The positions stay within the block. *)
Definition st_wf (s : stream) : Prop := 0 <= m_Pos s <= st_len s /\ 0 <= m_Used s <= st_len s /\ st_len s < 2 ^ 32.

Lemma put_spec {A} pos (bs c : list A) : 0 <= pos -> pos + zlen bs <= zlen c ->
  exists d, put pos bs c = Some d /\ length d = length c /\
    d = take (Z.to_nat pos) c ++ bs ++ drop (Z.to_nat pos + length bs) c.
Proof.
  intros H0 H1. unfold put. rewrite (proj2 (Z.leb_le 0 pos)), (proj2 (Z.leb_le _ (zlen c))) by done.
  eexists. split; [done|]. split; [|done]. rewrite !length_app, length_take, length_drop. lia.
Qed.


Lemma OStreamT_Write_spec s bs : st_wf s ->
  exists s', let n := Z.min (st_len s - m_Pos s) (zlen bs) in
  OStreamT_Write s bs (zlen bs) = Some (n, s') /\ st_wf s' /\ m_Pos s' = m_Pos s + n /\
  m_Used s' = Z.max (m_Used s) (if n =? 0 then 0 else m_Pos s') /\
  st_data s' = take (Z.to_nat (m_Pos s)) (st_data s) ++ take (Z.to_nat n) bs ++ drop (Z.to_nat (m_Pos s + n)) (st_data s).
Proof.
  intros (Hp & Hu & Hl). cbv zeta. unfold OStreamT_Write. rewrite u32_id by lia.
  set (n := Z.min (st_len s - m_Pos s) (zlen bs)). destruct (Z.eqb_spec n 0) as [E0|E0].
  { exists s. rewrite E0. split; [done|]. split; [done|]. split; [lia|]. split; [lia|].
    rewrite Z.add_0_r. change (Z.to_nat 0) with O. by rewrite take_0, app_nil_l, take_drop. }
  assert (Hln : zlen (take (Z.to_nat n) bs) = n) by (rewrite length_take; lia).
  destruct (put_spec (m_Pos s) (take (Z.to_nat n) bs) (st_data s)) as (d & -> & Hd & Ed); [lia|unfold st_len in *; lia|].
  cbn [mbind option_bind]. rewrite u32_id by (unfold st_len in *; lia). eexists. split; [done|]. unfold st_wf, st_len in *.
  cbn [m_Pos m_Used st_data]. rewrite Hd. split; [destruct (Z.ltb_spec (m_Used s) (m_Pos s + n)); lia|].
  split; [done|]. split; [destruct (Z.ltb_spec (m_Used s) (m_Pos s + n)); lia|].
  rewrite Ed. do 3 f_equal. lia.
Qed.

Lemma IStreamT_Read_spec s n : st_wf s -> 0 <= n ->
  exists s', let k := Z.min n (st_len s - m_Pos s) in
  IStreamT_Read s n = Some (take (Z.to_nat k) (drop (Z.to_nat (m_Pos s)) (st_data s)), s') /\ st_wf s' /\
  m_Pos s' = m_Pos s + k /\ st_data s' = st_data s /\ m_Used s' = m_Used s.
Proof.
  intros (Hp & Hu & Hl) Hn. cbv zeta. unfold IStreamT_Read. rewrite u32_id by lia.
  rewrite (proj2 (Z.leb_le _ _)) by lia. rewrite u32_id by lia. eexists. split; [done|].
  unfold st_wf, st_len in *. cbn [m_Pos m_Used st_data]. repeat split; lia.
Qed.

Lemma StreamT_Seek_spec s offset nFrom : st_wf s -> - 2 ^ 62 < offset < 2 ^ 62 ->
  let newp := seek_pos (m_Pos s) (m_Used s) offset nFrom in
  exists s', StreamT_Seek s offset nFrom = (m_Pos s', s') /\ st_wf s' /\ st_data s' = st_data s /\ m_Used s' = m_Used s /\
    m_Pos s' = if (0 <=? newp) && (newp <=? st_len s) then newp else m_Pos s.
Proof.
  intros (Hp & Hu & Hl) Ho newp. unfold StreamT_Seek. fold newp. rewrite s64_id by lia.
  destruct (Z.leb_spec 0 newp), (Z.leb_spec newp (st_len s)); cbn [andb];
    eexists; (split; [done|]); unfold st_wf, st_len in *; cbn [m_Pos m_Used st_data]; rewrite ?u32_id by lia;
    repeat split; lia.
Qed.

(** *** [OStream] *)

(** The stream holds [l] (bytes never written are indeterminate) and stands at [p]. *)
Definition os_holds (s : ostream) (l : list (option Z)) (p : Z) : Prop :=
  brep true (os_buf s) l /\ ready (os_buf s) /\ os_Pos s = p /\ 0 <= p <= zlen l /\ zlen l < 2 ^ 32.

Lemma ready_ChangeSize {A} pod (d : A) n s r s' : ready s -> Buffer_ChangeSize pod d n s = Some (r, s') -> ready s'.
Proof.
  unfold Buffer_ChangeSize, ShrinkSize, ready. intros Ha. destruct (n <=? len s).
  - destruct (n =? len s); [by intros [= _ <-]|]. destruct (n <? len s); [|by intros [= _ <-]].
    destruct (dtors _ _ _ _); [|done]. by intros [= _ <-].
  - unfold malloc. destruct s as [c k rs [|b a]]; cbn [am] in *; cbn.
    + destruct (regrow _ _ _); [|done]. cbn. destruct (ctors0 _ _ _ _ _); [|done]. by intros [= _ <-].
    + apply Forall_cons in Ha as [<- Ha]. cbn. destruct (regrow _ _ _); [|done]. cbn.
      destruct (ctors0 _ _ _ _ _); [|done]. by intros [= _ <-].
Qed.

(** Enough room, the contents at the front. *)
Lemma ChangeSize_room s l n : brep true s l -> ready s -> zlen l <= n ->
  exists s' g, Buffer_ChangeSize true 0 n s = Some (true, s') /\ brep true s' (l ++ g) /\ ready s' /\ zlen g = n - zlen l.
Proof.
  intros Hs Ha Hn. destruct (Buffer_ChangeSize_spec true 0 n s l Hs Ha) as (s' & l' & E & Hs' & Hl'); [lia|].
  pose proof (ready_ChangeSize true 0 n s true s' Ha E) as Ha'. exists s'. destruct (Z.leb_spec n (zlen l)).
  - exists []. rewrite take_ge in Hl' by lia. subst l'. rewrite app_nil_r. repeat split; try done. cbn. lia.
  - destruct Hl' as (g & [Hlg _] & ->). exists g. repeat split; try done. lia.
Qed.

Lemma OStream_Write_spec s l p bs : os_holds s l p -> p + zlen bs < 2 ^ 32 ->
  exists s', OStream_Write s bs = Some (zlen bs, s') /\
    os_holds s' (take (Z.to_nat p) l ++ (Some <$> bs) ++ drop (Z.to_nat p + length bs) l) (p + zlen bs) /\
    os_Used s' = os_Used s.
Proof.
  intros (Hs & Ha & Ep & Hp & Hl) Hbs. unfold OStream_Write. rewrite Ep, u32_id by lia.
  assert (Elen : len (os_buf s) = zlen l) by (by destruct Hs as (t & _ & _ & _ & El)). rewrite Elen.
  destruct (ChangeSize_room (os_buf s) l (Z.max (zlen l) (p + zlen bs)) Hs Ha) as (b & g & -> & Hb & Hab & Hg); [lia|].
  cbn [mbind option_bind]. destruct Hb as (t & Ec & Ht & Hlv & El). rewrite Ec, <- app_assoc.
  rewrite length_app in El.
  destruct (put_spec p (Some <$> bs) (l ++ g ++ t)) as (d & -> & Hd & Ed);
    [lia|rewrite !length_app, length_fmap; lia|]. cbn [mbind option_bind]. rewrite length_fmap in Ed.
  eexists. split; [done|]. split; [|done]. unfold os_holds. cbn [os_buf os_Pos].
  assert (Ed' : d = (take (Z.to_nat p) l ++ (Some <$> bs) ++ drop (Z.to_nat p + length bs) l) ++ t).
  { rewrite Ed, take_app_le by lia. rewrite <- !app_assoc. do 2 f_equal.
    destruct (Nat.le_gt_cases (Z.to_nat p + length bs) (length l)) as [Hle|Hgt].
    - assert (g = []) as -> by (destruct g; [done|cbn in *; lia]). rewrite app_nil_l. by apply drop_app_le.
    - rewrite (drop_ge l) by lia. rewrite app_assoc, drop_app_length' by (rewrite length_app; lia). done. }
  assert (Hl' : zlen (take (Z.to_nat p) l ++ (Some <$> bs) ++ drop (Z.to_nat p + length bs) l) = Z.max (zlen l) (p + zlen bs)).
  { rewrite !length_app, length_take, length_fmap, length_drop. lia. }
  split; [|split; [done|split; [done|lia]]]. exists t. cbn [cells len set_cells]. split; [done|]. split; [done|].
  split; [done|]. lia.
Qed.

Lemma OStream_Writes_spec bss : forall s l, os_holds s l (zlen l) -> zlen l + zlen (List.concat bss) < 2 ^ 32 ->
  exists s', OStream_Writes s bss = Some s' /\
    os_holds s' (l ++ (Some <$> List.concat bss)) (zlen l + zlen (List.concat bss)) /\ os_Used s' = os_Used s.
Proof.
  induction bss as [|bs bss IH]; intros s l Hs Hsz; cbn [OStream_Writes List.concat] in *.
  { exists s. cbn. rewrite app_nil_r, Z.add_0_r. done. }
  rewrite length_app in Hsz. destruct (OStream_Write_spec s l (zlen l) bs Hs) as (s1 & -> & Hs1 & Hu1); [lia|].
  rewrite Nat2Z.id, take_ge, drop_ge, app_nil_r in Hs1 by lia. cbn [mbind option_bind].
  assert (El : zlen (l ++ (Some <$> bs)) = zlen l + zlen bs) by (rewrite length_app, length_fmap; lia).
  rewrite <- El in Hs1. destruct (IH s1 _ Hs1) as (s2 & -> & Hs2 & Hu2); [lia|]. exists s2. split; [done|].
  rewrite El in Hs2. rewrite length_app, fmap_app, app_assoc.
  replace (zlen l + Z.of_nat (length bs + length (List.concat bss))) with (zlen l + zlen bs + zlen (List.concat bss)) by lia.
  split; [done|congruence].
Qed.

Lemma IStream_Reads_spec ns : forall s, st_wf s -> Forall (Z.le 0) ns ->
  exists bss s', IStream_Reads s ns = Some (bss, s') /\ st_wf s' /\ length bss = length ns /\
    List.concat bss = take (Z.to_nat (fold_right Z.add 0 ns)) (drop (Z.to_nat (m_Pos s)) (st_data s)).
Proof.
  induction ns as [|n ns IH]; intros s Hs Hns; cbn [IStream_Reads fold_right].
  { exists [], s. split; [done|]. split; [done|]. split; [done|]. by rewrite take_0. }
  apply Forall_cons in Hns as [Hn Hns]. destruct (IStreamT_Read_spec s n Hs Hn) as (s1 & E & Hs1 & Hp1 & Hd1 & _).
  cbv zeta in E. rewrite E. cbn [mbind option_bind]. destruct (IH s1 Hs1 Hns) as (bss & s2 & E2 & Hs2 & Hl & Hc).
  rewrite E2. cbn [mbind option_bind]. eexists _, s2. split; [done|]. split; [done|]. split; [cbn; by rewrite Hl|].
  cbn [List.concat]. rewrite Hc, Hd1, Hp1. destruct Hs as (Hp & _ & _). unfold st_len in *.
  assert (Hsum : 0 <= fold_right Z.add 0 ns) by (clear -Hns; induction Hns; cbn; lia).
  set (r := drop (Z.to_nat (m_Pos s)) (st_data s)).
  assert (Hr : zlen r = zlen (st_data s) - m_Pos s) by (unfold r; rewrite length_drop; lia).
  rewrite Z2Nat.inj_add, <- drop_drop by lia. fold r. destruct (Z_le_gt_dec n (zlen r)).
  - replace (Z.min n (zlen (st_data s) - m_Pos s)) with n by lia. rewrite Z2Nat.inj_add by lia.
    by rewrite <- take_take_drop.
  - replace (Z.min n (zlen (st_data s) - m_Pos s)) with (zlen r) by lia. rewrite Nat2Z.id.
    rewrite drop_ge, take_nil, app_nil_r, !take_ge by lia. done.
Qed.

(** ** Properties *)

(** What is written to an [OStream] in any number of pieces is its
    contents, in order, and an [IStream] over it gives the same bytes back in
    pieces of any sizes, up to the end.  [GetLength] stays 0: the growing
    stream's [Write] does not count what it stores. *)
Theorem stream_roundtrip (bss : list (list Z)) ns :
  zlen (List.concat bss) < 2 ^ 32 -> Forall (Z.le 0) ns ->
  exists s, OStream_Writes (OStream_init []) bss = Some s /\ os_holds s (Some <$> List.concat bss) (zlen (List.concat bss)) /\
    os_Used s = 0 /\
  exists rs s', IStream_Reads (StreamT (List.concat bss) (zlen (List.concat bss))) ns = Some (rs, s') /\
    List.concat rs = take (Z.to_nat (fold_right Z.add 0 ns)) (List.concat bss).
Proof.
  intros Hsz Hns. destruct (OStream_Writes_spec bss (OStream_init []) []) as (s & E & Hs & Hu); [|done|].
  { split; [exists []; repeat split; done || constructor|]. repeat split; done || constructor. }
  exists s. split; [done|]. split; [exact Hs|]. split; [done|].
  destruct (IStream_Reads_spec ns (StreamT (List.concat bss) (zlen (List.concat bss)))) as (rs & s' & E' & _ & _ & Hc); [|done|].
  { unfold st_wf, st_len. cbn. lia. }
  exists rs, s'. split; [done|exact Hc].
Qed.

Lemma stream_roundtrip_witness :
  let bss := [[1; 2; 3]; []; [4; 5]] in
  exists s, OStream_Writes (OStream_init []) bss = Some s /\ os_holds s (Some <$> List.concat bss) (zlen (List.concat bss)) /\
    os_Used s = 0 /\
  exists rs s', IStream_Reads (StreamT (List.concat bss) (zlen (List.concat bss))) [2; 9] = Some (rs, s') /\
    List.concat rs = take (Z.to_nat (fold_right Z.add 0 [2; 9])) (List.concat bss).
Proof. apply (stream_roundtrip [[1; 2; 3]; []; [4; 5]] [2; 9]); [done|repeat constructor; done]. Defined.

(** Over a block of fixed size the position and the length in use stay
    inside the block: [Write] stores what fits at the position and advances
    past it, raising the length in use when it goes beyond; [Read] returns what
    is left, at most what was asked for; [Seek] moves to a target inside the
    block and otherwise not at all. *)
Theorem block_stream_ops s bs n offset nFrom : st_wf s -> 0 <= n -> - 2 ^ 62 < offset < 2 ^ 62 ->
  (exists s', let k := Z.min (st_len s - m_Pos s) (zlen bs) in
     OStreamT_Write s bs (zlen bs) = Some (k, s') /\ st_wf s' /\ m_Pos s' = m_Pos s + k /\
     m_Used s' = Z.max (m_Used s) (if k =? 0 then 0 else m_Pos s') /\
     st_data s' = take (Z.to_nat (m_Pos s)) (st_data s) ++ take (Z.to_nat k) bs ++ drop (Z.to_nat (m_Pos s + k)) (st_data s)) /\
  (exists s', let k := Z.min n (st_len s - m_Pos s) in
     IStreamT_Read s n = Some (take (Z.to_nat k) (drop (Z.to_nat (m_Pos s)) (st_data s)), s') /\ st_wf s' /\
     m_Pos s' = m_Pos s + k /\ st_data s' = st_data s /\ m_Used s' = m_Used s) /\
  (let newp := seek_pos (m_Pos s) (m_Used s) offset nFrom in
   exists s', StreamT_Seek s offset nFrom = (m_Pos s', s') /\ st_wf s' /\ st_data s' = st_data s /\ m_Used s' = m_Used s /\
     m_Pos s' = if (0 <=? newp) && (newp <=? st_len s) then newp else m_Pos s).
Proof.
  intros Hs Hn Ho. split; [by apply OStreamT_Write_spec|]. split; [by apply IStreamT_Read_spec|by apply StreamT_Seek_spec].
Qed.

Lemma block_stream_ops_witness :
  let s := mkStream [1; 2; 3; 4] 2 3 in
  (exists s', let k := Z.min (st_len s - m_Pos s) (zlen [7; 8; 9]) in
     OStreamT_Write s [7; 8; 9] (zlen [7; 8; 9]) = Some (k, s') /\ st_wf s' /\ m_Pos s' = m_Pos s + k /\
     m_Used s' = Z.max (m_Used s) (if k =? 0 then 0 else m_Pos s') /\
     st_data s' = take (Z.to_nat (m_Pos s)) (st_data s) ++ take (Z.to_nat k) [7; 8; 9] ++ drop (Z.to_nat (m_Pos s + k)) (st_data s)) /\
  (exists s', let k := Z.min 5 (st_len s - m_Pos s) in
     IStreamT_Read s 5 = Some (take (Z.to_nat k) (drop (Z.to_nat (m_Pos s)) (st_data s)), s') /\ st_wf s' /\
     m_Pos s' = m_Pos s + k /\ st_data s' = st_data s /\ m_Used s' = m_Used s) /\
  (let newp := seek_pos (m_Pos s) (m_Used s) (-1) 2 in
   exists s', StreamT_Seek s (-1) 2 = (m_Pos s', s') /\ st_wf s' /\ st_data s' = st_data s /\ m_Used s' = m_Used s /\
     m_Pos s' = if (0 <=? newp) && (newp <=? st_len s) then newp else m_Pos s).
Proof.
  apply (block_stream_ops (mkStream [1; 2; 3; 4] 2 3) [7; 8; 9] 5 (-1) 2); [unfold st_wf, st_len; cbn; lia|lia|lia].
Defined.
