(* ===== verification/StrScan.v ===== *)
(** The read-only operations of [rt::String_Base] and [rt::String_Ref]
    (rt/string_type.h): tests, reverse searches, trims, path and URL parts,
    lines and tokens. *)
From S2P Require Import Prelude Str.

(** ** Definitions *)

(** [while(p<end && P( *p))p++] with [n = end - p]. *)
Fixpoint scan (P : Z -> bool) (n : nat) (m : mem) (p : Z) : Z :=
  match n with
  | O => p
  | S k => if P (sc m p) then scan P k m (p + 1) else p
  end.

(** [for(i=n-1;i>=0;i--)if(P(_p[i]))return i;], -1 without any. *)
Fixpoint rscan (P : Z -> bool) (n : nat) (m : mem) (p : Z) : Z :=
  match n with
  | O => -1
  | S k => if P (sc m (p + Z.of_nat k)) then Z.of_nat k else rscan P k m p
  end.

Definition str_len (r : ref) : nat := Z.to_nat (GetLength r).
Definition is_sep (c : Z) : bool := (c =? chr "\") || (c =? chr "/").
Definition c_dot : Z := chr ".".

(** *** Tests *)

Definition HasNonPrintableAscii (m : mem) (r : ref) : bool :=
  existsb (fun b => (s8 b <? 32) || (chr "~" <? s8 b)) (text m r).
Definition HasOnlyNumbers (m : mem) (r : ref) : bool :=
  forallb (fun b => negb ((s8 b <? chr "0") || (chr "9" <? s8 b))) (text m r).
Definition Occurrence (m : mem) (r : ref) (set : cset) : Z :=
  Z.of_nat (length (List.filter (fun b => Has set (s8 b)) (text m r))).

(** [memcmp] of [n] bytes: negative, zero or positive. *)
Fixpoint memcmp (n : nat) (m : mem) (a b : Z) : Z :=
  match n with
  | O => 0
  | S k => if m a =? m b then memcmp k m (a + 1) (b + 1) else m a - m b
  end.
Definition str_lt (m : mem) (r x : ref) : bool :=
  let ret := memcmp (Z.to_nat (Z.min (GetLength r) (GetLength x))) m (rb r) (rb x) in
  (ret <? 0) || ((ret =? 0) && (GetLength r <? GetLength x)).

Definition FindCharacterReverse (m : mem) (r : ref) (ch start_offset : Z) : Z :=
  let i := rscan (Z.eqb ch) (Z.to_nat (GetLength r - start_offset)) m (rb r + start_offset) in
  if i <? 0 then -1 else start_offset + i.

(** *** Trims *)

Definition TrimLeft (r : ref) (length : Z) : ref :=
  if GetLength r <=? length then null_ref else mkRef (rb r + length) (re r).
Definition TrimRight (r : ref) (length : Z) : ref :=
  if GetLength r <=? length then null_ref else mkRef (rb r) (re r - length).

Definition blank (c : Z) : bool := (c <=? 0x20) && (0 <=? c).
Definition TrimLeftSpace (m : mem) (r : ref) : ref :=
  if IsEmpty r then r else mkRef (scan blank (str_len r) m (rb r)) (re r).
(** [for(;l>1 && blank(_p[l-1]);l--)] *)
Fixpoint trim_right_loop (l : nat) (m : mem) (p : Z) : nat :=
  match l with
  | O => O
  | S k => match k with
           | O => l
           | S _ => if blank (sc m (p + Z.of_nat k)) then trim_right_loop k m p else l
           end
  end.
Definition TrimRightSpace (m : mem) (r : ref) : ref :=
  if IsEmpty r then r else mkRef (rb r) (rb r + Z.of_nat (trim_right_loop (str_len r) m (rb r))).
Definition TrimSpace (m : mem) (r : ref) : ref :=
  if IsEmpty r then r else TrimRightSpace m (TrimLeftSpace m r).

(** The bound [_len-1] wraps in a null string, which has no result. *)
Definition TrimBefore (m : mem) (r : ref) (seps : cset) : option ref :=
  if rb r =? 0 then None
  else let i := FindCharacter_set m r seps 0 in Some (if i <? 0 then r else mkRef (rb r + i + 1) (re r)).
Definition TrimAfter (m : mem) (r : ref) (seps : cset) : option ref :=
  if rb r =? 0 then None
  else let i := FindCharacter_set m r seps 0 in Some (if i <? 0 then r else mkRef (rb r) (rb r + i)).
Definition TrimBeforeReverse (m : mem) (r : ref) (seps : cset) : ref :=
  let i := rscan (Has seps) (str_len r) m (rb r) in if i <? 0 then r else mkRef (rb r + i + 1) (re r).
Definition TrimAfterReverse (m : mem) (r : ref) (seps : cset) : ref :=
  let i := rscan (Has seps) (str_len r) m (rb r) in if i <? 0 then r else mkRef (rb r) (rb r + i).

Definition TrimTrailingPathSeparator (m : mem) (r : ref) : ref :=
  if negb (IsEmpty r) && is_sep (sc m (re r - 1)) then mkRef (rb r) (re r - 1) else r.

(** *** Paths *)

(** The search starts at [_p[GetLength()]], one past the last character. *)
Definition TrimExtName (m : mem) (r : ref) : ref :=
  let i := rscan (fun c => (c =? c_dot) || is_sep c) (S (str_len r)) m (rb r) in
  if (0 <=? i) && (sc m (rb r + i) =? c_dot) then SubStr r 0 i else r.
Definition GetExtName (m : mem) (r : ref) : ref :=
  let i := rscan (fun c => (c =? c_dot) || is_sep c) (str_len r) m (rb r) in
  if (0 <=? i) && (sc m (rb r + i) =? c_dot) then mkRef (rb r + i) (re r) else null_ref.
Definition GetFilename (m : mem) (r : ref) : ref :=
  let i := rscan is_sep (str_len r) m (rb r) in if i <? 0 then r else mkRef (rb r + i + 1) (re r).
(** [None]: the constant ./ *)
Definition GetDirectoryName (m : mem) (r : ref) : option ref :=
  let i := rscan is_sep (str_len r) m (rb r) in if i <? 0 then None else Some (mkRef (rb r) (rb r + i + 1)).
Definition GetFilenameURL (m : mem) (r : ref) : ref :=
  let fn := GetFilename m r in
  let p := scan (fun c => negb ((c =? chr "?") || (c =? chr "#"))) (str_len fn) m (rb fn) in
  if p <? re fn then GetFilename m (mkRef (rb fn) p) else GetFilename m r.

(** *** URLs: protocol, host and path; [None] stands for the constant / *)

Definition SplitURL (m : mem) (r : ref) : ref * ref * option ref :=
  let s := s32 (FindCharacter m r (chr ":") 0) in
  if (s <? 0) || (s32 (GetLength r) <? s + 4) || negb (sc m (rb r + s + 1) =? chr "/") || negb (sc m (rb r + s + 2) =? chr "/")
  then (null_ref, null_ref, Some r)
  else
    let protocal := mkRef (rb r) (rb r + s) in
    let s := s + 3 in
    let h := s32 (FindCharacter m r (chr "/") s) in
    if s <=? h then (protocal, mkRef (rb r + s) (rb r + h), Some (mkRef (rb r + h) (re r)))
    else (protocal, mkRef (rb r + s) (re r), None).

(** With the part after the first question mark: file path and parameters. *)
Definition SplitURL_cgi (m : mem) (r : ref) : ref * ref * option ref * ref :=
  let '(protocal, host, path) := SplitURL m r in
  match path with
  | None => (protocal, host, None, null_ref)
  | Some path =>
    let off := s32 (FindCharacter m path (chr "?") 0) in
    if 0 <=? off then (protocal, host, Some (mkRef (rb path) (rb path + off)), TrimLeft path (off + 1))
    else (protocal, host, Some path, null_ref)
  end.

(** *** Lines *)

Definition crlf (c : Z) : bool := (c =? 0xd) || (c =? 0xa).

(** Where the scan goes on after [x]: at the start unless [x] ends inside. *)
Definition resume (r x : ref) : Z := if (rb r <=? re x) && (re x <=? re r) then re x else rb r.

(** [GetNextLine]: the line, [None] when there is no more. *)
Definition GetNextLine (m : mem) (r x : ref) (skip_empty_line : bool) : option ref :=
  let tail := re r in
  let start := resume r x in
  let '(start, e) :=
    if skip_empty_line then
      let start := scan crlf (Z.to_nat (tail - start)) m start in (start, start + 1)
    else if (start <? tail) && crlf (sc m start) then
      let start := start + 1 in
      let start := if (start <? tail) && (sc m (start - 1) =? 0xd) && (sc m start =? 0xa) then start + 1 else start in
      (start, start)
    else (start, start + 1) in
  if tail <=? start then None
  else Some (mkRef start (scan (fun c => negb (crlf c)) (Z.to_nat (tail - e)) m e)).

Definition count_char (m : mem) (r : ref) (ch : Z) : Z :=
  Z.of_nat (length (List.filter (fun b => s8 b =? ch) (text m r))).

(** The loop of [GetNextLineWithQuote]: where the quoted line ends. *)
Fixpoint quote_loop (fuel : nat) (m : mem) (r seg : ref) (QUOTE quote_co : Z) : option Z :=
  match fuel with
  | O => None
  | S f =>
    let quote_co := quote_co + count_char m seg QUOTE in
    if Z.even quote_co then Some (re seg)
    else match GetNextLine m r seg true with
         | Some seg' => quote_loop f m r seg' QUOTE quote_co
         | None => Some (re seg)
         end
  end.
Definition GetNextLineWithQuote (m : mem) (r x : ref) (QUOTE : Z) : option (option ref) :=
  match GetNextLine m r x true with
  | Some seg => e ← quote_loop (S (str_len r)) m r seg QUOTE 0; Some (Some (mkRef (rb seg) e))
  | None => Some None
  end.

(** *** Tokens *)

(** [GetNextToken(token_charset, token)]: the loops look at a character before
    they compare its address with the end. *)
Definition GetNextToken (m : mem) (r token : ref) (token_charset : cset) : option ref :=
  let tail := re r in
  let start := resume r token in
  if tail <=? start then None
  else
    let start := scan (fun c => negb (Has token_charset c)) (Z.to_nat (tail - start)) m start in
    if negb (Has token_charset (sc m start)) then None
    else
      let token_end := scan (Has token_charset) (Z.to_nat (tail - (start + 1))) m (start + 1) in
      Some (mkRef start token_end).

Fixpoint get_tokens (n : nat) (m : mem) (r v : ref) (token_charset : cset) : list ref :=
  match n with
  | O => []
  | S k => match GetNextToken m r v token_charset with
           | Some v => v :: get_tokens k m r v token_charset
           | None => []
           end
  end.
(** [GetTokens]: at most [token_count] tokens, which is not 0. *)
Definition GetTokens (m : mem) (r : ref) (token_charset : cset) (token_count : nat) : list ref :=
  get_tokens token_count m r null_ref token_charset.

(** [GetNextToken(token_charset, token, non_token)] *)
Definition GetNextToken2 (m : mem) (r token non_token : ref) (token_charset : cset) : option (ref * ref) :=
  let tail := re r in
  let inside x := (rb r <=? re x) && (re x <=? tail) in
  let start := if inside non_token then re non_token else if inside token then re token else rb r in
  if tail <=? start then None
  else
    let nts := scan (Has token_charset) (Z.to_nat (tail - start)) m start in
    if Has token_charset (sc m nts) then Some (mkRef start tail, null_ref)
    else
      let nte := scan (fun c => negb (Has token_charset c)) (Z.to_nat (tail - (nts + 1))) m (nts + 1) in
      if Has token_charset (sc m nte) then Some (mkRef start nts, mkRef nts nte)
      else Some (mkRef start nts, mkRef nts tail).

(** *** Numbers *)

Definition digit_char (c : Z) : bool := (chr "0" <=? c) && (c <=? chr "9").
Fixpoint parse_digits (n : nat) (m : mem) (p ret : Z) : Z * Z :=
  match n with
  | O => (p, ret)
  | S k => if digit_char (sc m p) then parse_digits k m (p + 1) (u32 (ret * 10 + (sc m p - chr "0"))) else (p, ret)
  end.
(** [String_Ref::ParseNextNumber]: the number and what is left of the text. *)
Definition ParseNextNumber (m : mem) (r : ref) : option (Z * ref) :=
  let start := scan (fun c => negb (digit_char c)) (str_len r) m (rb r) in
  if start <? re r then
    let '(p, ret) := parse_digits (Z.to_nat (re r - start)) m start 0 in Some (ret, mkRef p (re r))
  else None.

(** [ToNumber(bool&)]: the characters used and the value; a word is compared as
    a DWORD, which may lie past the end of the text. *)
Definition ToNumber_bool (m : mem) (r : ref) : Z * option bool :=
  if IsEmpty r then (0, None)
  else
    let c := sc m (rb r) in
    if c =? chr "1" then (1, Some true)
    else if c =? chr "0" then (1, Some false)
    else if c =? chr "t" then (if load 4 m (rb r) =? 0x65757274 then 4 else 1, Some true)
    else if c =? chr "f" then (if load 4 m (rb r + 1) =? 0x65736c61 then 5 else 1, Some false)
    else if c =? chr "T" then (if load 4 m (rb r) =? 0x45555254 then 4 else 1, Some true)
    else if c =? chr "F" then (if load 4 m (rb r + 1) =? 0x45534c41 then 5 else 1, Some false)
    else (0, None).

(** [GetLengthRecalculated] *)
Definition GetLengthRecalculated (m : mem) (r : ref) : ref :=
  if rb r =? 0 then r
  else
    let p := scan (fun c => negb (c =? 0)) (str_len r) m (rb r) in
    if p <? re r then mkRef (rb r) p else r.

(** ** Facts: scans *)

(** [r] refers to the bytes [l]. *)
Definition refers (m : mem) (r : ref) (l : list Z) : Prop := holds m (rb r) l /\ GetLength r = Z.of_nat (length l).

Abbreviation zlen l := (Z.of_nat (length l)).
Abbreviation all P l := (Forall (fun b => P (s8 b) = true) l).
Abbreviation none P l := (Forall (fun b => P (s8 b) = false) l).

Lemma span (P : Z -> bool) l : exists a b, l = a ++ b /\ all P a /\ forall c b', b = c :: b' -> P (s8 c) = false.
Proof.
  induction l as [|c l (a & b & -> & Ha & Hb)]; [by exists [], []|].
  destruct (P (s8 c)) eqn:E; [exists (c :: a), b; by repeat constructor|].
  exists [], (c :: a ++ b). split; [done|]. split; [constructor|]. by intros ? ? [= <- _].
Qed.

Lemma all_negb (P : Z -> bool) l : all (fun c => negb (P c)) l -> none P l.
Proof. intros H. eapply Forall_impl; [exact H|]. cbn. intros b Hb. by apply negb_true_iff in Hb. Qed.

Lemma scan_spec P m a : forall n p b, (length a <= n)%nat -> holds m p (a ++ b) -> all P a ->
  (n = length a \/ exists c b', b = c :: b' /\ P (s8 c) = false) -> scan P n m p = p + zlen a.
Proof.
  induction a as [|c a IH]; intros n p b Hn Hh Ha Hb.
  - destruct n as [|n]; [cbn; lia|]. destruct Hb as [Hb|(c & b' & -> & Hc)]; [cbn in Hb; lia|]. cbn [scan].
    destruct (holds_cons_inv m p c b' Hh) as [Hp _]. unfold sc. rewrite Hp, Hc. cbn. lia.
  - destruct n as [|n]; [cbn in Hn; lia|]. apply Forall_cons in Ha as [Hc Ha].
    destruct (holds_cons_inv m p c (a ++ b) Hh) as [Hp Hh']. cbn [scan]. unfold sc. rewrite Hp, Hc.
    rewrite (IH n (p + 1) b); [cbn [length]; lia|cbn in Hn; lia|done|done|].
    destruct Hb as [Hb|Hb]; [left; cbn in Hb; lia|by right].
Qed.

Lemma rscan_spec P m l : forall p, holds m p l ->
  (rscan P (length l) m p = -1 /\ none P l) \/
  exists a c b, l = a ++ c :: b /\ P (s8 c) = true /\ none P b /\ rscan P (length l) m p = zlen a.
Proof.
  induction l as [|c l IH] using rev_ind; intros p Hh; [left; split; [done|constructor]|].
  rewrite length_app, Nat.add_1_r. cbn [rscan]. apply holds_app in Hh as [Hh Hc].
  destruct (holds_cons_inv m _ c [] Hc) as [Hp _]. unfold sc. rewrite Hp. destruct (P (s8 c)) eqn:E.
  - right. exists l, c, []. repeat split; done || constructor.
  - destruct (IH p Hh) as [[-> Hn]|(a & d & b & -> & Hd & Hb & ->)].
    + left. split; [done|]. apply Forall_app. split; [done|by repeat constructor].
    + right. exists a, d, (b ++ [c]). split; [by rewrite <- app_assoc|]. split; [done|]. split; [|done].
      apply Forall_app. split; [done|by repeat constructor].
Qed.

Lemma refers_sub m r a w b p e : refers m r (a ++ w ++ b) -> p = rb r + zlen a -> e = p + zlen w ->
  refers m (mkRef p e) w.
Proof.
  intros [Hh Hl] -> ->. apply holds_app in Hh as [_ Hh]. apply holds_app in Hh as [Hh _].
  split; [done|]. unfold GetLength. cbn. lia.
Qed.

Lemma refers_len m r l : refers m r l -> str_len r = length l /\ re r = rb r + zlen l.
Proof. intros [_ H]. unfold str_len. unfold GetLength in *. lia. Qed.

(** *** Paths *)

Lemma GetFilename_spec m r l : refers m r l -> exists d f, l = d ++ f /\ refers m (GetFilename m r) f /\ none is_sep f /\
  match GetDirectoryName m r with
  | Some rd => refers m rd d /\ exists d' c, d = d' ++ [c] /\ is_sep (s8 c) = true
  | None => d = []
  end.
Proof.
  intros Hr. destruct (refers_len m r l Hr) as [El Ee]. unfold GetFilename, GetDirectoryName. rewrite El.
  destruct (rscan_spec is_sep m l (rb r) (proj1 Hr)) as [[-> Hn]|(a & c & b & -> & Hc & Hb & ->)].
  - exists [], l. done.
  - rewrite (proj2 (Z.ltb_ge _ 0)) by lia. exists (a ++ [c]), b. rewrite cons_middle, app_assoc in Hr.
    split; [by rewrite <- app_assoc|]. split; [|split; [done|split; [|eauto]]].
    + apply (refers_sub m r (a ++ [c]) b []); [by rewrite app_nil_r|rewrite length_app; cbn; lia|].
      rewrite Ee, length_app. cbn [length]. lia.
    + apply (refers_sub m r [] (a ++ [c]) b); [done|cbn; lia|]. rewrite length_app. cbn. lia.
Qed.

Lemma rscan_skip P m b : forall p a, holds m p (a ++ b) -> none P b -> rscan P (length (a ++ b)) m p = rscan P (length a) m p.
Proof.
  induction b as [|c b IH] using rev_ind; intros p a Hh Hb; [by rewrite app_nil_r|].
  rewrite app_assoc in Hh. apply Forall_app in Hb as [Hb Hc]. inversion_clear Hc as [|? ? Hc' _].
  rewrite app_assoc, length_app, Nat.add_1_r. cbn [rscan].
  apply holds_app in Hh as [Hh Hp]. destruct (holds_cons_inv m _ c [] Hp) as [Hc _]. unfold sc. rewrite Hc, Hc'.
  by apply IH.
Qed.

Lemma rscan_here P m p a c : holds m p (a ++ [c]) -> P (s8 c) = true -> rscan P (length (a ++ [c])) m p = zlen a.
Proof.
  intros Hh Hc. rewrite length_app, Nat.add_1_r. cbn [rscan]. apply holds_app in Hh as [_ Hp].
  destruct (holds_cons_inv m _ c [] Hp) as [Hc' _]. unfold sc. by rewrite Hc', Hc.
Qed.

Lemma split_last (P : Z -> bool) l : none P l \/ exists a c b, l = a ++ c :: b /\ P (s8 c) = true /\ none P b.
Proof.
  induction l as [|c l IH] using rev_ind; [left; constructor|]. destruct (P (s8 c)) eqn:E.
  - right. exists l, c, []. repeat split; done || constructor.
  - destruct IH as [Hn|(a & d & b & -> & Hd & Hb)].
    + left. apply Forall_app. split; [done|by repeat constructor].
    + right. exists a, d, (b ++ [c]). split; [by rewrite <- app_assoc|]. split; [done|].
      apply Forall_app. split; [done|by repeat constructor].
Qed.

Definition dot (c : Z) : bool := c =? c_dot.
Definition ext_stop (c : Z) : bool := (c =? c_dot) || is_sep c.

Lemma is_sep_dot c : is_sep c = true -> dot c = false.
Proof. unfold is_sep, dot, c_dot. intros [E|E]%orb_true_iff; apply Z.eqb_eq in E as ->; done. Qed.

Lemma none_stop l : none is_sep l -> none dot l -> none ext_stop l.
Proof. rewrite !Forall_forall. unfold ext_stop. intros H1 H2 b Hb. rewrite H1 by done. rewrite orb_false_r. by apply H2. Qed.

(** The extension, in a file name [f] after the directory part [d]. *)
Lemma GetExtName_spec m r d f : refers m r (d ++ f) -> none is_sep f ->
  (d = [] \/ exists d' c, d = d' ++ [c] /\ is_sep (s8 c) = true) -> ext_stop (sc m (re r)) = false ->
  (none dot f /\ GetExtName m r = null_ref /\ TrimExtName m r = r) \/
  exists a b e, f = a ++ e :: b /\ s8 e = c_dot /\ none dot b /\
    refers m (GetExtName m r) (e :: b) /\ (a ++ d <> [] -> refers m (TrimExtName m r) (d ++ a)).
Proof.
  intros Hr Hf Hd He. destruct (refers_len m r _ Hr) as [El Ee]. pose proof Hr as [Hh HL].
  unfold GetExtName, TrimExtName. fold ext_stop. rewrite El. cbn [rscan].
  replace (rb r + zlen (d ++ f)) with (re r) by lia. rewrite He.
  destruct (split_last dot f) as [Hn|(a & e & b & -> & Hdot & Hb)].
  - left. split; [done|]. pose proof (none_stop f Hf Hn) as Hs. rewrite (rscan_skip ext_stop m f) by done.
    assert (E : (0 <=? rscan ext_stop (length d) m (rb r)) && (sc m (rb r + rscan ext_stop (length d) m (rb r)) =? c_dot) = false).
    { destruct Hd as [->|(d' & c & -> & Hc)]; [done|]. apply holds_app in Hh as [Hh _].
      rewrite rscan_here by (done || by unfold ext_stop; rewrite Hc, orb_true_r).
      apply holds_app in Hh as [_ Hp]. destruct (holds_cons_inv m _ c [] Hp) as [Hcm _].
      unfold sc. rewrite Hcm. apply is_sep_dot in Hc. unfold dot in Hc. rewrite Hc. apply andb_false_r. }
    by rewrite E.
  - right. exists a, b, e. split; [done|]. split; [by apply Z.eqb_eq|]. split; [done|].
    apply Forall_app in Hf as [Hfa Hf]. apply Forall_cons in Hf as [_ Hfb].
    assert (Es : rscan ext_stop (length (d ++ a ++ e :: b)) m (rb r) = zlen (d ++ a)).
    { replace (d ++ a ++ e :: b) with (((d ++ a) ++ [e]) ++ b) in * by by rewrite <- !app_assoc.
      rewrite rscan_skip by (done || by apply none_stop). apply holds_app in Hh as [Hh _].
      apply rscan_here; [done|]. unfold ext_stop. unfold dot in Hdot. by rewrite Hdot. }
    rewrite Es. rewrite (proj2 (Z.leb_le 0 _)) by lia. cbn [andb].
    assert (Ed : sc m (rb r + zlen (d ++ a)) = s8 e).
    { rewrite app_assoc in Hh. apply holds_app in Hh as [_ Hh]. destruct (holds_cons_inv m _ e b Hh) as [E _]. unfold sc. by rewrite E. }
    unfold dot in Hdot. rewrite Ed, Hdot. split.
    + apply (refers_sub m r (d ++ a) (e :: b) []); [by rewrite app_nil_r, <- app_assoc|done|].
      rewrite !length_app in *. cbn [length] in *. lia.
    + intros Hne. unfold SubStr. rewrite !length_app in *. cbn [length] in *. rewrite (proj2 (Z.ltb_lt 0 _)) by lia.
      apply (refers_sub m r [] (d ++ a) (e :: b)); [by rewrite <- app_assoc|cbn; lia|]. rewrite length_app. lia.
Qed.

(** *** Lines and tokens *)

(** The maximal stretches of characters that satisfy [P]. *)
Definition starts (P : Z -> bool) (l : list Z) : bool := match l with d :: _ => P (s8 d) | [] => false end.
Fixpoint runs (P : Z -> bool) (l : list Z) : list (list Z) :=
  match l with
  | [] => []
  | c :: t =>
    let rs := runs P t in
    if P (s8 c) then
      match rs with
      | w :: ws => if starts P t then (c :: w) :: ws else [c] :: rs
      | [] => [[c]]
      end
    else rs
  end.

Lemma runs_none P l : none P l -> runs P l = [].
Proof. induction 1 as [|c l Hc _ IH]; [done|]. cbn. by rewrite Hc. Qed.

Lemma runs_skip P a l : none P a -> runs P (a ++ l) = runs P l.
Proof. induction 1 as [|c a Hc _ IH]; [done|]. cbn [app runs]. by rewrite Hc. Qed.

Lemma runs_take P w : forall l, w <> [] -> all P w -> (forall c l', l = c :: l' -> P (s8 c) = false) ->
  runs P (w ++ l) = w :: runs P l.
Proof.
  induction w as [|c w IH]; intros l Hne Hw Hl; [done|]. apply Forall_cons in Hw as [Hc Hw]. cbn [app runs]. rewrite Hc.
  destruct w as [|d w].
  - cbn [app]. assert (Es : starts P l = false) by (destruct l as [|e l]; [done|by apply (Hl e l)]).
    rewrite Es. by destruct (runs P l).
  - rewrite (IH l) by done. cbn [app starts]. apply Forall_cons in Hw as [Hd _]. by rewrite Hd.
Qed.

(** The next stretch of the text from [s] on. *)
Lemma next_run P m s l n : holds m s l -> n = length l ->
  (none P l /\ scan (fun c => negb (P c)) n m s = s + zlen l) \/
  exists a w rest, l = a ++ w ++ rest /\ none P a /\ w <> [] /\ all P w /\ runs P l = w :: runs P rest /\
    scan (fun c => negb (P c)) n m s = s + zlen a /\ P (sc m (s + zlen a)) = true /\
    scan P (length (w ++ rest) - 1) m (s + zlen a + 1) = s + zlen a + zlen w.
Proof.
  intros Hh ->. destruct (span (fun c => negb (P c)) l) as (a & l1 & -> & Ha & H1).
  destruct (span P l1) as (w & rest & -> & Hw & H2). destruct w as [|c w].
  - left. destruct rest as [|c rest]; [|specialize (H1 c rest eq_refl); specialize (H2 c rest eq_refl); cbn in *; by rewrite H2 in H1].
    cbn [app] in *. rewrite app_nil_r in *. split; [by apply all_negb|].
    apply (scan_spec _ m a _ s []); [done|by rewrite app_nil_r|done|by left].
  - right. exists a, (c :: w), rest. split; [done|]. split; [by apply all_negb|]. split; [done|]. split; [done|].
    split; [rewrite (runs_skip P a) by (by apply all_negb); by apply runs_take|]. split; [|split].
    + apply (scan_spec _ m a _ s ((c :: w) ++ rest)); [rewrite length_app; lia|done|done|]. right. cbn [app]. eexists _, _.
      split; [done|]. by apply (H1 c (w ++ rest)).
    + apply holds_app in Hh as [_ Hh]. cbn [app] in Hh. destruct (holds_cons_inv m _ c _ Hh) as [Hc _].
      unfold sc. rewrite Hc. by apply Forall_cons in Hw as [Hw _].
    + apply holds_app in Hh as [_ Hh]. cbn [app] in Hh. destruct (holds_cons_inv m _ c _ Hh) as [_ Hh'].
      apply Forall_cons in Hw as [_ Hw]. rewrite (scan_spec P m w _ _ rest); [cbn [length]; lia| |done|done|].
      * cbn [app length]. rewrite length_app. lia.
      * destruct rest as [|d rest]; [left; cbn [app length]; rewrite app_nil_r; lia|right; eauto].
Qed.

(** One step of the token iteration, where the text [l] is left: the character
    after the text is not of the set. *)
Lemma GetNextToken_step m r v set l : holds m (resume r v) l -> re r = resume r v + zlen l ->
  Has set (sc m (re r)) = false ->
  (none (Has set) l /\ GetNextToken m r v set = None) \/
  exists a w rest, l = a ++ w ++ rest /\ w <> [] /\ runs (Has set) l = w :: runs (Has set) rest /\
    GetNextToken m r v set = Some (mkRef (resume r v + zlen a) (resume r v + zlen a + zlen w)).
Proof.
  intros Hh Ee Hend. unfold GetNextToken. set (st := resume r v) in *. destruct (Z.leb_spec (re r) st) as [Hle|Hgt].
  { left. split; [|done]. destruct l; [constructor|cbn in *; lia]. }
  replace (Z.to_nat (re r - st)) with (length l) by lia.
  destruct (next_run (Has set) m st l (length l) Hh eq_refl) as [[Hn ->]|(a & w & rest & El & Ha & Hne & Hw & Hr & -> & HP & Hs)].
  - left. split; [done|]. replace (st + zlen l) with (re r) by lia. by rewrite Hend.
  - right. exists a, w, rest. split; [done|]. split; [done|]. split; [done|]. rewrite HP. cbn [negb].
    assert (Ew : (1 <= length w)%nat) by (destruct w; [done|cbn; lia]). subst l. rewrite !length_app in *.
    replace (Z.to_nat (re r - (st + zlen a + 1))) with (length w + length rest - 1)%nat by lia. by rewrite Hs.
Qed.

Lemma get_tokens_spec m r set n : forall v l, holds m (resume r v) l -> re r = resume r v + zlen l ->
  rb r <= resume r v -> Has set (sc m (re r)) = false ->
  Forall2 (refers m) (get_tokens n m r v set) (take n (runs (Has set) l)).
Proof.
  induction n as [|n IH]; intros v l Hh Ee Hb Hend; cbn [get_tokens]; [constructor|].
  destruct (GetNextToken_step m r v set l Hh Ee Hend) as [[Hn ->]|(a & w & rest & El & Hne & -> & ->)].
  { rewrite runs_none by done. constructor. }
  cbn [take]. subst l. rewrite !length_app in *. set (st := resume r v) in *.
  apply holds_app in Hh as [_ Hh]. apply holds_app in Hh as [Hw Hrest].
  constructor; [split; [done|unfold GetLength; cbn; lia]|].
  assert (Er : resume r (mkRef (st + zlen a) (st + zlen a + zlen w)) = st + zlen a + zlen w).
  { unfold resume. cbn [re]. by rewrite (proj2 (Z.leb_le _ _)), (proj2 (Z.leb_le _ (re r))) by lia. }
  apply IH; rewrite ?Er; done || lia.
Qed.

(** One step of the line iteration, empty lines skipped. *)
Definition in_line (c : Z) : bool := negb (crlf c).

Lemma GetNextLine_step m r x l : holds m (resume r x) l -> re r = resume r x + zlen l ->
  (none in_line l /\ GetNextLine m r x true = None) \/
  exists a w rest, l = a ++ w ++ rest /\ w <> [] /\ runs in_line l = w :: runs in_line rest /\
    GetNextLine m r x true = Some (mkRef (resume r x + zlen a) (resume r x + zlen a + zlen w)).
Proof.
  intros Hh Ee. unfold GetNextLine. set (st := resume r x) in *.
  replace (Z.to_nat (re r - st)) with (length l) by lia.
  assert (Esc : forall n p, scan crlf n m p = scan (fun c => negb (in_line c)) n m p).
  { induction n as [|n IH]; intros p; [done|]. cbn [scan]. unfold in_line at 1. rewrite negb_involutive. by rewrite IH. }
  rewrite Esc. destruct (next_run in_line m st l (length l) Hh eq_refl)
    as [[Hn ->]|(a & w & rest & El & Ha & Hne & Hw & Hr & -> & HP & Hs)].
  - left. split; [done|]. by rewrite (proj2 (Z.leb_le (re r) _)) by lia.
  - right. exists a, w, rest. split; [done|]. split; [done|]. split; [done|].
    assert (Ew : (1 <= length w)%nat) by (destruct w; [done|cbn; lia]). subst l. rewrite !length_app in *.
    rewrite (proj2 (Z.leb_gt (re r) _)) by lia.
    replace (Z.to_nat (re r - (st + zlen a + 1))) with (length w + length rest - 1)%nat by lia.
    change (fun c => negb (crlf c)) with in_line. by rewrite Hs.
Qed.

(** The lines [GetNextLine] gives one after the other. *)
Fixpoint all_lines (fuel : nat) (m : mem) (r x : ref) : list ref :=
  match fuel with
  | O => []
  | S f => match GetNextLine m r x true with Some x => x :: all_lines f m r x | None => [] end
  end.

Lemma all_lines_spec m r fuel : forall x l, holds m (resume r x) l -> re r = resume r x + zlen l ->
  rb r <= resume r x -> (length l < fuel)%nat -> Forall2 (refers m) (all_lines fuel m r x) (runs in_line l).
Proof.
  induction fuel as [|f IH]; intros x l Hh Ee Hb Hf; [lia|]. cbn [all_lines].
  destruct (GetNextLine_step m r x l Hh Ee) as [[Hn ->]|(a & w & rest & El & Hne & -> & ->)].
  { rewrite runs_none by done. constructor. }
  assert (Ew : (1 <= length w)%nat) by (destruct w; [done|cbn; lia]).
  subst l. rewrite !length_app in *. set (st := resume r x) in *.
  apply holds_app in Hh as [_ Hh]. apply holds_app in Hh as [Hw Hrest].
  constructor; [split; [done|unfold GetLength; cbn; lia]|].
  assert (Er : resume r (mkRef (st + zlen a) (st + zlen a + zlen w)) = st + zlen a + zlen w).
  { unfold resume. cbn [re]. by rewrite (proj2 (Z.leb_le _ _)), (proj2 (Z.leb_le _ (re r))) by lia. }
  apply IH; rewrite ?Er; done || lia.
Qed.

(** *** Trims *)

Lemma TrimLeftSpace_spec m r l : refers m r l -> rb r <> 0 ->
  exists a b, l = a ++ b /\ all blank a /\ (forall c b', b = c :: b' -> blank (s8 c) = false) /\
    refers m (TrimLeftSpace m r) b /\ re (TrimLeftSpace m r) = re r /\ rb r <= rb (TrimLeftSpace m r).
Proof.
  intros Hr H0. destruct (refers_len m r l Hr) as [El Ee]. unfold TrimLeftSpace, IsEmpty.
  rewrite (proj2 (Z.eqb_neq (rb r) 0)) by done. cbn [orb]. destruct (Z.eqb_spec (re r) (rb r)) as [E|E].
  { exists [], l. split; [done|]. split; [constructor|]. destruct l; [|cbn [length] in *; lia]. split; [done|]. split; [done|]. split; [done|lia]. }
  destruct (span blank l) as (a & b & -> & Ha & Hb). exists a, b. split; [done|]. split; [done|]. split; [done|].
  rewrite El. rewrite (scan_spec blank m a _ (rb r) b); [|rewrite length_app; lia|by destruct Hr|done|].
  - split; [|cbn; lia]. apply (refers_sub m r a b []); [by rewrite app_nil_r|done|]. rewrite Ee, length_app. lia.
  - destruct b as [|c b]; [left; by rewrite app_nil_r|right; eauto].
Qed.

Lemma trim_right_spec m p l : forall b, holds m p (l ++ b) -> all blank b ->
  (forall a c, l = a ++ [c] -> blank (s8 c) = false) -> l <> [] -> trim_right_loop (length (l ++ b)) m p = length l.
Proof.
  induction b as [|c b IH] using rev_ind; intros Hh Hb Hl Hne.
  - rewrite app_nil_r in *. destruct l as [|d l _] using rev_ind; [done|]. rewrite length_app, Nat.add_1_r.
    cbn [trim_right_loop]. destruct l as [|e l]; [done|]. cbn [length]. apply holds_app in Hh as [_ Hh].
    destruct (holds_cons_inv m _ d [] Hh) as [Hd _]. cbn [length] in Hd. unfold sc. rewrite Hd.
    by rewrite (Hl (e :: l) d eq_refl).
  - apply Forall_app in Hb as [Hb Hc]. inversion_clear Hc as [|? ? Hc' _]. rewrite app_assoc in *.
    rewrite length_app, Nat.add_1_r. cbn [trim_right_loop]. apply holds_app in Hh as [Hh Hc].
    destruct (holds_cons_inv m _ c [] Hc) as [Hcm _]. unfold sc. rewrite Hcm, Hc', IH by done.
    destruct (length (l ++ b)) eqn:E; [|done]. rewrite length_app in E. destruct l; [done|cbn in E; lia].
Qed.

Lemma TrimSpace_spec m r l : refers m r l -> rb r <> 0 -> 0 <= rb r ->
  exists a w b, l = a ++ w ++ b /\ all blank a /\ all blank b /\ refers m (TrimSpace m r) w /\
    (forall c w', w = c :: w' -> blank (s8 c) = false) /\ (forall c w', w = w' ++ [c] -> blank (s8 c) = false).
Proof.
  intros Hr H0 Hpos. unfold TrimSpace.
  destruct (IsEmpty r) eqn:Eempty.
  { unfold IsEmpty in Eempty. rewrite (proj2 (Z.eqb_neq (rb r) 0)) in Eempty by done. cbn in Eempty. apply Z.eqb_eq in Eempty.
    destruct (refers_len m r l Hr) as [_ Ee]. destruct l; [|cbn [length] in *; lia].
    exists [], [], []. repeat split; try done; try constructor; try apply Hr. intros c w'. by destruct w'. }
  destruct (TrimLeftSpace_spec m r l Hr H0) as (a & b & -> & Ha & Hb & Hr1 & Ee1 & Hb1).
  set (r1 := TrimLeftSpace m r) in *. destruct (refers_len m r1 b Hr1) as [El1 Ee].
  unfold TrimRightSpace, IsEmpty. rewrite (proj2 (Z.eqb_neq (rb r1) 0)) by lia. cbn [orb].
  destruct (Z.eqb_spec (re r1) (rb r1)) as [E|E].
  { destruct b; [|cbn [length] in *; lia]. exists a, [], []. repeat split; try done; try constructor; try apply Hr1.
    intros c w'. by destruct w'. }
  assert (Hs : exists w e, b = w ++ e /\ all blank e /\ forall c w', w = w' ++ [c] -> blank (s8 c) = false).
  { clear. induction b as [|c b (w & e & -> & He & Hw)] using rev_ind; [exists [], []; repeat split; [constructor|]; intros c w'; by destruct w'|].
    destruct (blank (s8 c)) eqn:E.
    - exists w, (e ++ [c]). split; [by rewrite <- app_assoc|]. split; [|done]. apply Forall_app. split; [done|by repeat constructor].
    - exists ((w ++ e) ++ [c]), []. rewrite app_nil_r. split; [done|]. split; [constructor|].
      intros d w' Ed. by apply app_inj_2 in Ed as [_ [= <-]]. }
  destruct Hs as (w & e & -> & He & Hw).
  assert (Hne : w <> []).
  { intros ->. cbn [app] in *. destruct e as [|c e]; [cbn [length] in *; lia|]. apply Forall_cons in He as [Hc _].
    specialize (Hb c e eq_refl). congruence. }
  exists a, w, e. split; [done|]. split; [done|]. split; [done|].
  rewrite El1, (trim_right_spec m (rb r1) w e) by (done || (by destruct Hr1) || (intros; by eapply Hw)).
  split; [apply (refers_sub m r1 [] w e); [done|cbn; lia|lia]|]. split; [|done].
  intros c w' ->. by apply (Hb c (w' ++ e)).
Qed.

(** *** URLs *)

Lemma find_char_spec m ch a : forall n p i b, (length a <= n)%nat -> holds m (p + i) (a ++ b) ->
  Forall (fun c => (s8 c =? ch) = false) a ->
  (n = length a -> find_char n m p ch i = -1) /\
  (forall c b', b = c :: b' -> (s8 c =? ch) = true -> (length a < n)%nat -> find_char n m p ch i = i + zlen a).
Proof.
  induction a as [|c a IH]; intros n p i b Hn Hh Ha.
  - split; [by intros ->|]. intros c b' -> Hc Hlt. destruct n; [cbn in Hlt; lia|]. cbn [find_char].
    destruct (holds_cons_inv m _ c b' Hh) as [Hp _]. unfold sc. rewrite Hp, Hc. cbn. lia.
  - destruct n as [|n]; [cbn in Hn; lia|]. apply Forall_cons in Ha as [Hc Ha]. cbn [length] in *.
    destruct (holds_cons_inv m _ c (a ++ b) Hh) as [Hp Hh']. cbn [find_char]. unfold sc. rewrite Hp, Hc.
    rewrite <- Z.add_assoc in Hh'. destruct (IH n p (i + 1) b) as [H1 H2]; [lia|done|done|]. split.
    + intros E. apply H1. lia.
    + intros d b' Eb Hd Hlt. rewrite (H2 d b' Eb Hd) by lia. lia.
Qed.

Lemma FindCharacter_at m r ch a c b start : refers m r (a ++ c :: b) -> 0 <= start <= zlen a -> (s8 c =? ch) = true ->
  Forall (fun c => (s8 c =? ch) = false) (drop (Z.to_nat start) a) -> FindCharacter m r ch start = zlen a.
Proof.
  intros [Hh HL] Hs Hc Ha. unfold FindCharacter. rewrite HL. rewrite <- (take_drop (Z.to_nat start) a) in Hh.
  rewrite <- app_assoc in Hh. apply holds_app in Hh as [_ Hh]. rewrite length_take, Nat.min_l in Hh by lia.
  rewrite Z2Nat.id in Hh by lia.
  assert (Hld : zlen (drop (Z.to_nat start) a) = zlen a - start) by (rewrite length_drop; lia).
  destruct (find_char_spec m ch (drop (Z.to_nat start) a) (Z.to_nat (zlen (a ++ c :: b) - start)) (rb r) start (c :: b)
    ltac:(rewrite length_app; cbn [length]; lia) Hh Ha) as [_ H].
  rewrite (H c b eq_refl Hc) by (rewrite length_app; cbn [length]; lia). lia.
Qed.

Lemma FindCharacter_none m r ch l start : refers m r l -> 0 <= start <= zlen l ->
  Forall (fun c => (s8 c =? ch) = false) (drop (Z.to_nat start) l) -> FindCharacter m r ch start = -1.
Proof.
  intros [Hh HL] Hs Ha. unfold FindCharacter. rewrite HL. rewrite <- (take_drop (Z.to_nat start) l) in Hh.
  apply holds_app in Hh as [_ Hh]. rewrite length_take, Nat.min_l in Hh by lia. rewrite Z2Nat.id in Hh by lia.
  destruct (find_char_spec m ch (drop (Z.to_nat start) l) (Z.to_nat (zlen l - start)) (rb r) start []
    ltac:(rewrite length_drop; lia)) as [H _]; [by rewrite app_nil_r|done|].
  apply H. rewrite length_drop. lia.
Qed.

Definition no_char (s : ascii) (l : list Z) : Prop := Forall (fun c => (s8 c =? chr s) = false) l.

(** [SplitURL] of a text protocol://host/path gives back the protocol, the
    host and the path with its first slash; without a path, the constant /. *)
Theorem SplitURL_parts m r pr h path : refers m r (pr ++ str "://" ++ h ++ path) -> no_char ":" pr -> no_char "/" h ->
  (path = [] /\ h <> [] \/ exists p, path = chr "/" :: p) -> zlen (pr ++ str "://" ++ h ++ path) < 2 ^ 31 ->
  let '(rp, rh, rpath) := SplitURL m r in
  refers m rp pr /\ refers m rh h /\
  match rpath with Some rq => refers m rq path /\ path <> [] | None => path = [] end.
Proof.
  intros Hr Hp Hh Hpath Hlen. destruct (refers_len m r _ Hr) as [El Ee]. pose proof Hr as [Hholds HL].
  assert (Hlp : (0 < length (h ++ path))%nat).
  { destruct Hpath as [[-> Hne]|(p & ->)]; rewrite length_app; [destruct h; [done|cbn; lia]|cbn; lia]. }
  assert (Hls : zlen (pr ++ str "://" ++ h ++ path) = zlen pr + 3 + zlen h + zlen path)
    by (rewrite !length_app; change (length (str "://")) with 3%nat; lia).
  assert (Hpos : 0 <= zlen pr /\ 0 <= zlen h /\ 0 <= zlen path /\ zlen (h ++ path) = zlen h + zlen path)
    by (rewrite length_app; lia).
  unfold SplitURL. rewrite (FindCharacter_at m r (chr ":") pr (chr ":") (str "//" ++ h ++ path) 0);
    [|done|lia|done|done]. rewrite s32_small by lia. rewrite HL, s32_small by lia.
  rewrite (proj2 (Z.ltb_ge (zlen pr) 0)), (proj2 (Z.ltb_ge (zlen _) (zlen pr + 4))) by lia. cbn [orb].
  apply holds_app in Hholds as [_ Hh3]. change (str "://") with [chr ":"; chr "/"; chr "/"] in Hh3. cbn [app] in Hh3.
  destruct (holds_cons_inv m _ _ _ Hh3) as [_ Hh2]. destruct (holds_cons_inv m _ _ _ Hh2) as [E1 Hh1].
  destruct (holds_cons_inv m _ _ _ Hh1) as [E2 _].
  assert (Es1 : sc m (rb r + zlen pr + 1) = chr "/") by (unfold sc; by rewrite E1).
  assert (Es2 : sc m (rb r + zlen pr + 2) = chr "/").
  { unfold sc. replace (rb r + zlen pr + 2) with (rb r + zlen pr + 1 + 1) by lia. by rewrite E2. }
  rewrite Es1, Es2, Z.eqb_refl. cbn [negb orb].
  set (pre := pr ++ str "://").
  assert (Hlpre : zlen pre = zlen pr + 3) by (unfold pre; rewrite length_app; change (length (str "://")) with 3%nat; lia).
  assert (Hr' : refers m r (pre ++ h ++ path)) by (unfold pre; by rewrite <- app_assoc).
  assert (Hdrop : forall x, drop (Z.to_nat (zlen pr + 3)) (pre ++ x) = x)
    by (intros x; apply drop_app_length'; lia).
  assert (Hrp : refers m (mkRef (rb r) (rb r + zlen pr)) pr)
    by (apply (refers_sub m r [] pr (str "://" ++ h ++ path)); [done|cbn; lia|lia]).
  destruct Hpath as [[-> Hne]|(p & ->)].
  - rewrite (FindCharacter_none m r (chr "/") (pre ++ h ++ []));
      [|done|rewrite !length_app; cbn [length]; lia|by rewrite Hdrop, app_nil_r].
    change (s32 (-1)) with (-1). rewrite (proj2 (Z.leb_gt (zlen pr + 3) (-1))) by lia.
    split; [done|]. split; [|done].
    apply (refers_sub m r pre h []); [done|lia|]. cbn [length] in *. rewrite Ee. lia.
  - rewrite app_assoc in Hr'.
    rewrite (FindCharacter_at m r (chr "/") (pre ++ h) (chr "/") p);
      [|done|rewrite length_app; lia|done|by rewrite Hdrop].
    rewrite length_app in *. cbn [length] in *. rewrite s32_small by lia.
    rewrite (proj2 (Z.leb_le (zlen pr + 3) _)) by lia. rewrite <- app_assoc in Hr'.
    split; [done|]. split; [apply (refers_sub m r pre h (chr "/" :: p)); [done|lia|lia]|]. split; [|done].
    apply (refers_sub m r (pre ++ h) (chr "/" :: p) []); [by rewrite app_nil_r, <- app_assoc|rewrite length_app; lia|].
    cbn [length]. rewrite Ee. lia.
Qed.

(** ** Properties *)

(** A path is taken apart without loss: directory (with its separator),
    base name and extension (with its dot) concatenate to the text; the file
    name holds no separator, and no dot after the extension's.  The character
    after the text, which [TrimExtName] looks at first, must not be a dot or a
    separator. *)
Theorem path_parts m r l : refers m r l -> ext_stop (sc m (re r)) = false ->
  exists d base ext, l = d ++ base ++ ext /\ none is_sep (base ++ ext) /\
    (d = [] \/ exists d' c, d = d' ++ [c] /\ is_sep (s8 c) = true) /\
    refers m (GetFilename m r) (base ++ ext) /\
    match GetDirectoryName m r with Some rd => refers m rd d /\ d <> [] | None => d = [] end /\
    (ext = [] /\ none dot base /\ GetExtName m r = null_ref /\ TrimExtName m r = r \/
     exists c e, ext = c :: e /\ s8 c = c_dot /\ none dot e /\ refers m (GetExtName m r) ext /\
       (d ++ base <> [] -> refers m (TrimExtName m r) (d ++ base))).
Proof.
  intros Hr He. destruct (GetFilename_spec m r l Hr) as (d & f & -> & Hf & Hnf & Hd).
  assert (Hd' : d = [] \/ exists d' c, d = d' ++ [c] /\ is_sep (s8 c) = true)
    by (destruct (GetDirectoryName m r); [right; tauto|by left]).
  assert (Hdir : match GetDirectoryName m r with Some rd => refers m rd d /\ d <> [] | None => d = [] end).
  { destruct (GetDirectoryName m r); [|done]. destruct Hd as (H1 & d' & c & -> & _). split; [done|by destruct d']. }
  destruct (GetExtName_spec m r d f Hr Hnf Hd' He) as [(H1 & H2 & H3)|(a & b & e & -> & H1 & H2 & H3 & H4)].
  - exists d, f, []. rewrite app_nil_r. do 5 (split; [done|]). by left.
  - exists d, a, (e :: b). do 5 (split; [done|]). right. exists e, b. do 4 (split; [done|]).
    intros Hne. apply H4. by destruct a, d.
Qed.

Lemma path_parts_witness :
  let l := str "a.b/c.txt" in let m := mem_of 0 100 (l ++ [0]) in let r := mkRef 100 109 in
  exists d base ext, l = d ++ base ++ ext /\ none is_sep (base ++ ext) /\
    (d = [] \/ exists d' c, d = d' ++ [c] /\ is_sep (s8 c) = true) /\
    refers m (GetFilename m r) (base ++ ext) /\
    match GetDirectoryName m r with Some rd => refers m rd d /\ d <> [] | None => d = [] end /\
    (ext = [] /\ none dot base /\ GetExtName m r = null_ref /\ TrimExtName m r = r \/
     exists c e, ext = c :: e /\ s8 c = c_dot /\ none dot e /\ refers m (GetExtName m r) ext /\
       (d ++ base <> [] -> refers m (TrimExtName m r) (d ++ base))).
Proof. apply (path_parts (mem_of 0 100 (str "a.b/c.txt" ++ [0])) (mkRef 100 109) (str "a.b/c.txt")); [by split|done]. Defined.

(** [GetNextLine], called until it fails, gives the non-empty lines of the
    text in order - the maximal stretches without CR or LF - and [GetTokens]
    the first [n] maximal stretches of characters of its set, when the
    character after the text is not of the set. *)
Theorem lines_and_tokens m r l set n : refers m r l -> 0 < rb r ->
  Forall2 (refers m) (all_lines (S (length l)) m r null_ref) (runs in_line l) /\
  (Has set (sc m (re r)) = false -> Forall2 (refers m) (GetTokens m r set n) (take n (runs (Has set) l))).
Proof.
  intros Hr H0. destruct (refers_len m r l Hr) as [_ Ee]. destruct Hr as [Hh _].
  assert (E : resume r null_ref = rb r) by (unfold resume; cbn [re null_ref]; by rewrite (proj2 (Z.leb_gt (rb r) 0)) by lia).
  split; [apply all_lines_spec; rewrite ?E; done || lia|].
  intros Hend. unfold GetTokens. apply get_tokens_spec; rewrite ?E; done || lia.
Qed.

Lemma lines_and_tokens_witness :
  let l := str "ab,c" ++ [13; 10; 10] ++ str "d" in let m := mem_of 0 100 (l ++ [0]) in let r := mkRef 100 108 in
  Forall2 (refers m) (all_lines (S (length l)) m r null_ref) (runs in_line l) /\
  (Has (CharacterSet (str "abcd")) (sc m (re r)) = false ->
   Forall2 (refers m) (GetTokens m r (CharacterSet (str "abcd")) 5) (take 5 (runs (Has (CharacterSet (str "abcd"))) l))).
Proof.
  apply (lines_and_tokens (mem_of 0 100 ((str "ab,c" ++ [13; 10; 10] ++ str "d") ++ [0])) (mkRef 100 108)
    (str "ab,c" ++ [13; 10; 10] ++ str "d")); [by split|done].
Defined.

(** The stretches are what one expects. *)
Example runs_example : runs in_line (str "ab,c" ++ [13; 10; 10] ++ str "d") = [str "ab,c"; str "d"].
Proof. vm_compute. reflexivity. Qed.

(** A token at the end of a part of a text runs into the character after it. *)
Example token_past_end :
  let m := mem_of 0 100 (str "ab,cd") in
  GetNextToken m (mkRef 100 103) (mkRef 100 102) (CharacterSet (str "abcd")) = Some (mkRef 103 104).
Proof. vm_compute. reflexivity. Qed.

(** [TrimExtName] takes a dot after the end of the text for the extension's. *)
Example ext_past_end : TrimExtName (mem_of 0 100 (str "a.b.c")) (mkRef 100 103) = mkRef 100 103 /\
  GetExtName (mem_of 0 100 (str "a.b.c")) (mkRef 100 103) = mkRef 101 103.
Proof. vm_compute. done. Qed.

Lemma SplitURL_parts_witness :
  let m := mem_of 0 100 (str "http://x.org/p?q") in let r := mkRef 100 116 in
  let '(rp, rh, rpath) := SplitURL m r in
  refers m rp (str "http") /\ refers m rh (str "x.org") /\
  match rpath with Some rq => refers m rq (str "/p?q") /\ str "/p?q" <> [] | None => str "/p?q" = [] end.
Proof.
  apply (SplitURL_parts (mem_of 0 100 (str "http://x.org/p?q")) (mkRef 100 116) (str "http") (str "x.org") (str "/p?q")).
  - by split.
  - repeat constructor.
  - repeat constructor.
  - right. by eexists.
  - done.
Defined.
