(* ===== verification/StrEdit.v ===== *)
(** The operations of [rt::String_Base] (rt/string_type.h) that rewrite a text
    in its own memory: character replacement, removal, unescaping,
    percent-decoding and the regularisation of UTF-8. *)
From S2P Require Import Prelude Str StrScan.

(** ** Definitions *)

(** [for(i=0;i<GetLength();i++)if(..)_p[i] = ..]: [f] gives the new character, if any. *)
Fixpoint edit_loop (f : Z -> option Z) (n : nat) (m : mem) (p : Z) : mem :=
  match n with
  | O => m
  | S k => edit_loop f k (match f (sc m p) with Some v => mset m p (u8 v) | None => m end) (p + 1)
  end.
Definition edit (f : Z -> option Z) (m : mem) (r : ref) : mem := edit_loop f (str_len r) m (rb r).

Definition MakeUpper : mem -> ref -> mem :=
  edit (fun c => if (chr "a" <=? c) && (c <=? chr "z") then Some (c - (chr "a" - chr "A")) else None).
Definition MakeLower : mem -> ref -> mem :=
  edit (fun c => if (chr "A" <=? c) && (c <=? chr "Z") then Some (c + (chr "a" - chr "A")) else None).
Definition Replace_char (a b : Z) : mem -> ref -> mem := edit (fun c => if c =? a then Some b else None).
Definition Replace_set (seps : cset) (b : Z) : mem -> ref -> mem := edit (fun c => if Has seps c then Some b else None).
Definition illegal : cset := CharacterSet (chr "\" :: str "/:*?" ++ [c_quot] ++ str "><|").
Definition ReplaceIllegalFilenameCharacters (wth : Z) : mem -> ref -> mem :=
  edit (fun c => if Has illegal c then Some wth else None).
Definition ReplaceControlCharacters (wth : Z) : mem -> ref -> mem :=
  edit (fun c => if (0 <? c) && (c <? 32) || (c =? -1) then Some wth else None).
Definition NormalizePathSeparator (wth : Z) : mem -> ref -> mem :=
  edit (fun c => if is_sep c then Some wth else None).
Definition Fill (c : Z) : mem -> ref -> mem := edit (fun _ => Some c).

(** The loops below read at [s], write at [p] and have [n] characters left;
    they return the memory and the end of what was written. *)

(** [RemoveCharacters] *)
Fixpoint remove_chars (set : cset) (n : nat) (m : mem) (s p : Z) : mem * Z :=
  match n with
  | O => (m, p)
  | S k => if Has set (sc m s) then remove_chars set k m (s + 1) p
           else remove_chars set k (mset m p (m s)) (s + 1) (p + 1)
  end.
Definition RemoveCharacters (m : mem) (r : ref) (set : cset) : mem * ref :=
  let '(m, p) := remove_chars set (str_len r) m (rb r) (rb r) in (m, mkRef (rb r) p).

(** [UnescapeCharacters]: [for(; s<end-1; s++)], then the character at [s],
    which is the one past the end when the last two were an escape. *)
Fixpoint unescape_loop (f : Z -> Z) (esc : Z) (fuel : nat) (m : mem) (s p e : Z) : option (mem * Z) :=
  match fuel with
  | O => None
  | S k =>
    if s <? e - 1 then
      if sc m s =? esc then unescape_loop f esc k (mset m p (f (m (s + 1)))) (s + 2) (p + 1) e
      else unescape_loop f esc k (mset m p (m s)) (s + 1) (p + 1) e
    else if sc m s =? esc then Some (m, p) else Some (mset m p (m s), p + 1)
  end.
Definition UnescapeCharacters (m : mem) (r : ref) (escape_sign : Z) : option (mem * ref) :=
  '(m, p) ← unescape_loop (fun b => b) escape_sign (S (str_len r)) m (rb r) (rb r) (re r); Some (m, mkRef (rb r) p).
Definition UnescapeCharacters_map (m : mem) (r : ref) (unescape : cset) (escape_sign : Z) : option (mem * ref) :=
  '(m, p) ← unescape_loop (fun b => u8 (Mapped unescape (s8 b))) escape_sign (S (str_len r)) m (rb r) (rb r) (re r);
  Some (m, mkRef (rb r) p).

(** [DecodedURL] *)
Definition hex_val (c : Z) : Z := if chr "A" <=? c then c - chr "A" + 10 else c - chr "0".
Fixpoint decode_loop (fuel : nat) (m : mem) (s p e : Z) : option (mem * Z) :=
  match fuel with
  | O => None
  | S k =>
    if s <? e then
      if negb (sc m s =? chr "%") then decode_loop k (mset m p (m s)) (s + 1) (p + 1) e
      else decode_loop k (mset m p (u8 ((hex_val (sc m (s + 1)) .<< 4) .| hex_val (sc m (s + 2))))) (s + 3) (p + 1) e
    else Some (m, p)
  end.
Definition DecodedURL (m : mem) (r : ref) : option (mem * ref) :=
  '(m, p) ← decode_loop (S (str_len r)) m (rb r) (rb r) (re r); Some (m, mkRef (rb r) p).

(** [RegularizeUTF8]: the continuation bytes are read from the memory as it is
    after the bytes before them have been written. *)
Definition cont (b : Z) : Z := 0x80 .| (0x3f .& b).
Fixpoint regularize_loop (fuel : nat) (m : mem) (s p e : Z) : option (mem * Z) :=
  match fuel with
  | O => None
  | S k =>
    if s <? e then
      let c := m s in
      if c .& 0x80 =? 0 then regularize_loop k (mset m p c) (s + 1) (p + 1) e
      else if c .& 0xe0 =? 0xc0 then
        let m := mset m p c in
        let m := mset m (p + 1) (cont (m (s + 1))) in regularize_loop k m (s + 2) (p + 2) e
      else if c .& 0xf0 =? 0xe0 then
        let m := mset m p c in
        let m := mset m (p + 1) (cont (m (s + 1))) in
        let m := mset m (p + 2) (cont (m (s + 2))) in regularize_loop k m (s + 3) (p + 3) e
      else regularize_loop k m (s + 1) p e
    else Some (m, p)
  end.
Definition RegularizeUTF8 (m : mem) (r : ref) : option (mem * ref) :=
  '(m, p) ← regularize_loop (S (str_len r)) m (rb r) (rb r) (re r); Some (m, mkRef (rb r) p).

(** [Replace(a, b)] of texts of the same length: the inner loops, [n] characters left. *)
Fixpoint match_at (n : nat) (m : mem) (p a : Z) : bool :=
  match n with
  | O => true
  | S k => (sc m p =? sc m a) && match_at k m (p + 1) (a + 1)
  end.
Fixpoint copy_at (n : nat) (m : mem) (p b : Z) : mem :=
  match n with
  | O => m
  | S k => copy_at k (mset m p (m b)) (p + 1) (b + 1)
  end.
(** [for(i=0; i < GetLength() - len; i++)]; a text shorter than the pattern
    wraps the bound and has no result. *)
Fixpoint replace_loop (fuel : nat) (m : mem) (r a b : ref) (i : Z) : option mem :=
  match fuel with
  | O => None
  | S f =>
    let len := GetLength a in
    if i <? GetLength r - len then
      if match_at (Z.to_nat len) m (rb r + i) (rb a) then
        replace_loop f (copy_at (Z.to_nat len) m (rb r + i) (rb b)) r a b (i + len)
      else replace_loop f m r a b (i + 1)
    else Some m
  end.
Definition Replace_str (m : mem) (r a b : ref) : option mem :=
  if GetLength a =? 0 then Some m
  else if GetLength r <? GetLength a then None
  else replace_loop (S (str_len r)) m r a b 0.

(** ** Facts: in place *)

Abbreviation zlen l := (Z.of_nat (length l)).

Lemma edit_loop_spec f l : forall m p, holds m p l ->
  let l' := map (fun b => match f (s8 b) with Some v => u8 v | None => b end) l in
  holds (edit_loop f (length l) m p) p l' /\
  forall a, a < p \/ p + zlen l <= a -> edit_loop f (length l) m p a = m a.
Proof.
  induction l as [|c l IH]; intros m p Hh; [done|]. cbn [edit_loop length map].
  destruct (holds_cons_inv m p c l Hh) as [Hc Hl]. unfold sc. rewrite Hc.
  set (m1 := match f (s8 c) with Some v => mset m p (u8 v) | None => m end).
  assert (Hm1 : forall a, a <> p -> m1 a = m a) by (intros a Ha; unfold m1; destruct (f (s8 c)); [by apply mset_ne|done]).
  assert (Hm1p : m1 p = match f (s8 c) with Some v => u8 v | None => c end).
  { unfold m1. destruct (f (s8 c)); [apply mset_eq|done]. }
  destruct (IH m1 (p + 1)) as [H1 H2]; [apply (holds_out m); [done|intros; apply Hm1; lia]|].
  split.
  - apply (holds_join _ p [_]); [|exact H1]. unfold holds. cbn [length mem_bytes]. f_equal.
    rewrite H2 by lia. exact Hm1p.
  - intros a Ha. rewrite H2 by lia. apply Hm1. lia.
Qed.

(** Reading has reached [rest], [done_] bytes after the base; [out] has been
    written over the bytes read; the rest of the memory is as it was. *)
Definition inplace (m0 : mem) (base : Z) (m : mem) (k : Z) (rest out : list Z) : Prop :=
  holds m (base + k) rest /\ holds m base out /\ zlen out <= k /\ (forall a, a < base \/ base + k <= a -> m a = m0 a).

Lemma inplace_start m base l : holds m base l -> inplace m base m 0 l [].
Proof. intros H. split; [by rewrite Z.add_0_r|]. split; [done|]. split; [cbn; lia|done]. Qed.

Lemma inplace_step m0 base m k taken rest out o m' : inplace m0 base m k (taken ++ rest) out ->
  zlen out + zlen o <= k + zlen taken -> wrote m (base + zlen out) o m' ->
  inplace m0 base m' (k + zlen taken) rest (out ++ o).
Proof.
  intros (H1 & H2 & H3 & H4) Ho Hw. apply holds_app in H1 as [_ H1].
  assert (Hout : forall a, a < base + zlen out \/ base + zlen out + zlen o <= a -> m' a = m a) by (intros; by eapply wrote_out).
  split; [|split; [|split]].
  - rewrite Z.add_assoc. apply (holds_out m); [done|]. intros a Ha. apply Hout. lia.
  - apply holds_join; [|by eapply wrote_holds]. apply (holds_out m); [done|]. intros a Ha. apply Hout. lia.
  - rewrite length_app. lia.
  - intros a Ha. rewrite Hout by lia. apply H4. lia.
Qed.

Lemma inplace_skip m0 base m k taken rest out : inplace m0 base m k (taken ++ rest) out ->
  inplace m0 base m (k + zlen taken) rest out.
Proof.
  intros H. rewrite <- (app_nil_r out). apply (inplace_step m0 base m k taken rest out []); [done| |apply wrote_nil].
  destruct H as (_ & _ & H & _). cbn [length]. lia.
Qed.

Lemma inplace_head m0 base m k c rest out : inplace m0 base m k (c :: rest) out -> m (base + k) = c.
Proof. intros (H & _). by destruct (holds_cons_inv m _ c rest H). Qed.

(** *** Removal and unescaping *)

Lemma remove_chars_spec set m0 base l : forall m k out, inplace m0 base m k l out ->
  exists m', remove_chars set (length l) m (base + k) (base + zlen out) =
    (m', base + zlen (out ++ List.filter (fun b => negb (Has set (s8 b))) l)) /\
    inplace m0 base m' (k + zlen l) [] (out ++ List.filter (fun b => negb (Has set (s8 b))) l).
Proof.
  induction l as [|c l IH]; intros m k out Hi; cbn [length remove_chars List.filter].
  { exists m. rewrite app_nil_r, Z.add_0_r. done. }
  pose proof (inplace_head _ _ _ _ _ _ _ Hi) as Hc. unfold sc. rewrite Hc.
  replace (k + Z.of_nat (S (length l))) with (k + 1 + zlen l) by lia. rewrite <- (Z.add_assoc base k 1).
  destruct (Has set (s8 c)); cbn [negb].
  - apply IH. by apply (inplace_skip m0 base m k [c]).
  - destruct (IH (mset m (base + zlen out) c) (k + 1) (out ++ [c])) as (m' & E & Hi').
    { apply (inplace_step m0 base m k [c] l out [c]); [done| |apply wrote_mset].
      destruct Hi as (_ & _ & H & _). cbn [length]. lia. }
    exists m'. rewrite length_app in E. cbn [length] in E.
    replace (base + Z.of_nat (length out + 1)) with (base + zlen out + 1) in E by lia.
    rewrite E, <- app_assoc in *. done.
Qed.

(** What [UnescapeCharacters] makes of [l] when [x] follows it. *)
Fixpoint unescaped (f : Z -> Z) (esc x : Z) (fuel : nat) (l : list Z) : list Z :=
  match fuel with
  | O => []
  | S k =>
    match l with
    | [] => if s8 x =? esc then [] else [x]
    | [c] => if s8 c =? esc then [] else [c]
    | c :: d :: t => if s8 c =? esc then f d :: unescaped f esc x k t else c :: unescaped f esc x k (d :: t)
    end
  end.

(** The character the loop stops at. *)
Lemma unescape_last esc m0 base m k c rest out : inplace m0 base m k (c :: rest) out ->
  let o := if s8 c =? esc then [] else [c] in
  exists m', (if sc m (base + k) =? esc then Some (m, base + zlen out)
              else Some (mset m (base + zlen out) (m (base + k)), base + zlen out + 1)) =
    Some (m', base + zlen (out ++ o)) /\ holds m' base (out ++ o) /\
    (forall a, a < base \/ base + k < a -> m' a = m0 a).
Proof.
  intros Hi. cbv zeta. pose proof (inplace_head _ _ _ _ _ _ _ Hi) as Hc. unfold sc. rewrite Hc.
  pose proof Hi as (_ & Hh & Hok & Hm0). destruct (s8 c =? esc).
  - exists m. rewrite app_nil_r. split; [done|]. split; [done|]. intros a Ha. apply Hm0. lia.
  - eexists. rewrite length_app. cbn [length]. split; [do 2 f_equal; lia|].
    pose proof (inplace_step m0 base m k [c] rest out [c] (mset m (base + zlen out) c) Hi) as Hi'.
    destruct Hi' as (_ & H & _ & Ho); [cbn [length]; lia|apply wrote_mset|]. split; [done|].
    intros a Ha. apply Ho. cbn [length]. lia.
Qed.

Lemma unescape_loop_spec f esc x m0 base fuel : forall l m k out e, inplace m0 base m k (l ++ [x]) out ->
  e = base + k + zlen l -> (length l < fuel)%nat ->
  exists m', unescape_loop f esc fuel m (base + k) (base + zlen out) e =
      Some (m', base + zlen (out ++ unescaped f esc x fuel l)) /\
    holds m' base (out ++ unescaped f esc x fuel l) /\ (forall a, a < base \/ e < a -> m' a = m0 a).
Proof.
  induction fuel as [|fuel IH]; intros l m k out e Hi -> Hf; [lia|]. cbn [unescape_loop unescaped].
  destruct l as [|c [|d t]].
  - rewrite (proj2 (Z.ltb_ge _ _)) by (cbn [length]; lia).
    destruct (unescape_last esc m0 base m k x [] out Hi) as (m' & E & Hh & Ho). exists m'. split; [exact E|].
    split; [exact Hh|]. intros a Ha. apply Ho. cbn [length] in Ha. lia.
  - rewrite (proj2 (Z.ltb_ge _ _)) by (cbn [length]; lia).
    destruct (unescape_last esc m0 base m k c [x] out Hi) as (m' & E & Hh & Ho). exists m'. split; [exact E|].
    split; [exact Hh|]. intros a Ha. apply Ho. cbn [length] in Ha. lia.
  - rewrite (proj2 (Z.ltb_lt _ _)) by (cbn [length]; lia).
    pose proof (inplace_head _ _ _ _ _ _ _ Hi) as Hc. unfold sc. rewrite Hc.
    pose proof Hi as (Hh0 & _ & Hok & _). cbn [app] in Hh0. destruct (holds_cons_inv m _ c _ Hh0) as [_ Hh1].
    destruct (holds_cons_inv m _ d _ Hh1) as [Hd _].
    assert (Hrec : forall taken rest o v, c :: d :: t = taken ++ rest -> (1 <= length taken)%nat -> zlen o = 1 ->
      o = [v] -> exists m', unescape_loop f esc fuel (mset m (base + zlen out) v) (base + k + zlen taken) (base + zlen out + 1)
          (base + k + zlen (c :: d :: t)) = Some (m', base + zlen (out ++ o ++ unescaped f esc x fuel rest)) /\
        holds m' base (out ++ o ++ unescaped f esc x fuel rest) /\
        (forall a, a < base \/ base + k + zlen (c :: d :: t) < a -> m' a = m0 a)).
    { intros taken rest o v El Ht Ho ->. rewrite El in *. rewrite <- app_assoc in Hi.
      pose proof (inplace_step m0 base m k taken (rest ++ [x]) out [v] (mset m (base + zlen out) v) Hi ltac:(lia)
        (wrote_mset _ _ _)) as Hi'.
      destruct (IH rest _ _ _ (base + k + zlen (taken ++ rest)) Hi') as (m' & E & Hh & Hout).
      { rewrite length_app. lia. }
      { apply (f_equal length) in El. rewrite length_app in El. cbn [length] in *. rewrite length_app in Hf. lia. }
      exists m'. rewrite length_app in E. cbn [length] in E.
      replace (base + Z.of_nat (length out + 1)) with (base + zlen out + 1) in E by lia.
      rewrite Z.add_assoc in E. rewrite E, <- app_assoc in *. done. }
    destruct (s8 c =? esc).
    + rewrite Hd. apply (Hrec [c; d] t [f d] (f d)); done || (cbn; lia).
    + apply (Hrec [c] (d :: t) [c] c); done || (cbn; lia).
Qed.

(** *** Percent-decoding *)

(** An encoded text: characters that stand for themselves, and escaped bytes
    with two upper-case digits. *)
Definition hex_upper (v : Z) : Z := if v <? 10 then chr "0" + v else chr "A" + v - 10.
Definition enc_item (i : bool * Z) : list Z :=
  if fst i then [chr "%"; hex_upper (snd i / 16); hex_upper (snd i mod 16)] else [snd i].
Definition item_ok (i : bool * Z) : Prop := if fst i then is_byte (snd i) else s8 (snd i) <> chr "%".

Lemma hex_upper_val v : 0 <= v < 16 -> hex_val (s8 (hex_upper v)) = v.
Proof.
  intros Hv. assert (E : forallb (fun v => hex_val (s8 (hex_upper v)) =? v) (map Z.of_nat (seq 0 16)) = true) by reflexivity.
  rewrite forallb_forall in E. apply Z.eqb_eq, E. apply in_map_iff. exists (Z.to_nat v). rewrite in_seq. lia.
Qed.

Lemma hex_join b : is_byte b -> u8 (((b / 16) .<< 4) .| (b mod 16)) = b.
Proof.
  intros Hb. assert (E : forallb (fun b => u8 (((b / 16) .<< 4) .| (b mod 16)) =? b) (map Z.of_nat (seq 0 256)) = true) by reflexivity.
  rewrite forallb_forall in E. apply Z.eqb_eq, E. apply in_map_iff. exists (Z.to_nat b). rewrite in_seq. unfold in_width in Hb. lia.
Qed.

Lemma decode_loop_spec m0 base items : forall fuel m k out e,
  inplace m0 base m k (flat_map enc_item items) out -> Forall item_ok items ->
  e = base + k + zlen (flat_map enc_item items) -> (length (flat_map enc_item items) < fuel)%nat ->
  exists m', decode_loop fuel m (base + k) (base + zlen out) e = Some (m', base + zlen (out ++ map snd items)) /\
    inplace m0 base m' (k + zlen (flat_map enc_item items)) [] (out ++ map snd items).
Proof.
  induction items as [|[esc b] items IH]; intros fuel m k out e Hi Hok -> Hf.
  { destruct fuel as [|fuel]; [cbn in Hf; lia|]. cbn [decode_loop flat_map map length] in *.
    rewrite Z.add_0_r, Z.ltb_irrefl, app_nil_r. rewrite Z.add_0_r. by exists m. }
  apply Forall_cons in Hok as [Hb Hok]. destruct fuel as [|fuel]; [lia|]. cbn [flat_map map snd] in *.
  pose proof Hi as (Hh & _ & Hlen & _). rewrite length_app in *.
  assert (Hrec : forall o, o = b -> let taken := enc_item (esc, b) in
    exists m', decode_loop fuel (mset m (base + zlen out) o) (base + k + zlen taken) (base + zlen out + 1)
      (base + k + Z.of_nat (length taken + length (flat_map enc_item items))) = Some (m', base + zlen (out ++ b :: map snd items)) /\
      inplace m0 base m' (k + Z.of_nat (length taken + length (flat_map enc_item items))) [] (out ++ b :: map snd items)).
  { intros o -> taken. assert (Ht : (1 <= length taken)%nat) by (unfold taken, enc_item; destruct esc; cbn; lia).
    pose proof (inplace_step m0 base m k taken _ out [b] (mset m (base + zlen out) b) Hi ltac:(cbn [length]; lia)
      (wrote_mset _ _ _)) as Hi'. fold taken in Hf.
    destruct (IH fuel _ _ _ (base + (k + zlen taken) + zlen (flat_map enc_item items)) Hi' Hok eq_refl) as (m' & E & Hi''); [lia|].
    exists m'. rewrite length_app in E. cbn [length] in E.
    replace (base + Z.of_nat (length out + 1)) with (base + zlen out + 1) in E by lia.
    replace (base + k + zlen taken) with (base + (k + zlen taken)) by lia.
    replace (base + k + Z.of_nat (length taken + length (flat_map enc_item items)))
      with (base + (k + zlen taken) + zlen (flat_map enc_item items)) by lia.
    rewrite E, <- app_assoc in *. split; [done|].
    by replace (k + Z.of_nat (length taken + length (flat_map enc_item items)))
      with (k + zlen taken + zlen (flat_map enc_item items)) by lia. }
  cbn [decode_loop]. destruct esc; unfold item_ok in Hb; cbn [fst snd] in Hb; unfold enc_item in Hh; cbn [fst snd app] in Hh.
  - rewrite (proj2 (Z.ltb_lt _ _)) by (unfold enc_item; cbn [fst length]; lia).
    destruct (holds_cons_inv m _ _ _ Hh) as [E0 Hh1]. destruct (holds_cons_inv m _ _ _ Hh1) as [E1 Hh2].
    destruct (holds_cons_inv m _ _ _ Hh2) as [E2 _].
    replace (base + k + 1 + 1) with (base + k + 2) in E2 by lia.
    unfold sc. rewrite E0, E1, E2. change (s8 (chr "%") =? chr "%") with true. cbn [negb].
    unfold in_width in Hb. rewrite !hex_upper_val by (zlia || (split; [zlia|apply Z.div_lt_upper_bound; lia])).
    rewrite hex_join by done. apply (Hrec b eq_refl).
  - rewrite (proj2 (Z.ltb_lt _ _)) by (unfold enc_item; cbn [fst length]; lia).
    destruct (holds_cons_inv m _ _ _ Hh) as [E0 _]. unfold sc. rewrite E0.
    rewrite (proj2 (Z.eqb_neq _ _)) by done. cbn [negb]. apply (Hrec b eq_refl).
Qed.

(** *** UTF-8 regularisation *)

(** A text cut into units: one to three bytes kept, or a stray byte dropped. *)
Inductive unit8 : list Z -> bool -> Prop :=
| unit_1 c : 0 <= c < 0x80 -> unit8 [c] true
| unit_2 c d : 0xc0 <= c < 0xe0 -> 0x80 <= d < 0xc0 -> unit8 [c; d] true
| unit_3 c d e : 0xe0 <= c < 0xf0 -> 0x80 <= d < 0xc0 -> 0x80 <= e < 0xc0 -> unit8 [c; d; e] true
| unit_stray c : 0x80 <= c < 0xc0 \/ 0xf0 <= c < 0x100 -> unit8 [c] false.

Lemma lead_bits c : is_byte c ->
  ((c .& 0x80 =? 0) = (c <? 0x80)) /\ ((c .& 0xe0 =? 0xc0) = ((0xc0 <=? c) && (c <? 0xe0))) /\
  ((c .& 0xf0 =? 0xe0) = ((0xe0 <=? c) && (c <? 0xf0))).
Proof.
  intros Hc. assert (E : forallb (fun c => Bool.eqb (c .& 0x80 =? 0) (c <? 0x80) &&
    Bool.eqb (c .& 0xe0 =? 0xc0) ((0xc0 <=? c) && (c <? 0xe0)) &&
    Bool.eqb (c .& 0xf0 =? 0xe0) ((0xe0 <=? c) && (c <? 0xf0))) (map Z.of_nat (seq 0 256)) = true) by reflexivity.
  rewrite forallb_forall in E. specialize (E c).
  assert (Hin : In c (map Z.of_nat (seq 0 256))).
  { apply in_map_iff. exists (Z.to_nat c). rewrite in_seq. unfold in_width in Hc. lia. }
  specialize (E Hin). apply andb_true_iff in E as [[E1 E2]%andb_true_iff E3].
  by apply eqb_prop in E1, E2, E3.
Qed.

Lemma cont_id d : 0x80 <= d < 0xc0 -> cont d = d.
Proof.
  intros Hd. assert (E : forallb (fun d => cont d =? d) (map (fun n => 0x80 + Z.of_nat n) (seq 0 64)) = true) by reflexivity.
  rewrite forallb_forall in E. apply Z.eqb_eq, E. apply in_map_iff. exists (Z.to_nat (d - 0x80)). rewrite in_seq. lia.
Qed.

Definition kept (us : list (list Z * bool)) : list Z := flat_map (fun u => if snd u : bool then fst u else []) us.

Lemma regularize_loop_spec m0 base us : forall fuel m k out e,
  Forall (fun u => unit8 (fst u) (snd u)) us -> inplace m0 base m k (flat_map fst us) out ->
  e = base + k + zlen (flat_map fst us) -> (length (flat_map fst us) < fuel)%nat ->
  exists m', regularize_loop fuel m (base + k) (base + zlen out) e = Some (m', base + zlen (out ++ kept us)) /\
    inplace m0 base m' (k + zlen (flat_map fst us)) [] (out ++ kept us).
Proof.
  induction us as [|[u keep] us IH]; intros fuel m k out e Hus Hi -> Hf.
  { destruct fuel as [|fuel]; [cbn in Hf; lia|]. cbn [regularize_loop flat_map kept length] in *.
    rewrite Z.add_0_r, Z.ltb_irrefl, app_nil_r. rewrite Z.add_0_r. by exists m. }
  apply Forall_cons in Hus as [Hu Hus]. destruct fuel as [|fuel]; [lia|]. unfold kept. cbn [flat_map fst snd] in *. fold (kept us).
  pose proof Hi as (Hh & _ & Hlen & _). rewrite length_app in *.
  assert (Hrec : forall o m1, o = (if keep then u else []) -> wrote m (base + zlen out) o m1 -> (1 <= length u)%nat ->
    exists m', regularize_loop fuel m1 (base + k + zlen u) (base + zlen out + zlen o)
      (base + k + Z.of_nat (length u + length (flat_map fst us))) = Some (m', base + zlen (out ++ o ++ kept us)) /\
      inplace m0 base m' (k + Z.of_nat (length u + length (flat_map fst us))) [] (out ++ o ++ kept us)).
  { intros o m1 Ho Hw Hu1.
    pose proof (inplace_step m0 base m k u _ out o m1 Hi ltac:(subst o; destruct keep; cbn [length]; lia) Hw) as Hi'.
    destruct (IH fuel _ _ _ (base + (k + zlen u) + zlen (flat_map fst us)) Hus Hi' eq_refl) as (m' & E & Hi''); [lia|].
    exists m'. rewrite length_app in E. replace (base + Z.of_nat (length out + length o)) with (base + zlen out + zlen o) in E by lia.
    replace (base + k + zlen u) with (base + (k + zlen u)) by lia.
    replace (base + k + Z.of_nat (length u + length (flat_map fst us)))
      with (base + (k + zlen u) + zlen (flat_map fst us)) by lia.
    rewrite E, <- app_assoc in *. split; [done|].
    by replace (k + Z.of_nat (length u + length (flat_map fst us))) with (k + zlen u + zlen (flat_map fst us)) by lia. }
  cbn [regularize_loop].
  rewrite (proj2 (Z.ltb_lt _ _)) by (destruct Hu; cbn [length]; lia).
  destruct Hu as [c Hc|c d Hc Hd|c d e Hc Hd He|c Hc]; cbn [app] in Hh; destruct (holds_cons_inv m _ _ _ Hh) as [E0 Hh1]; rewrite E0;
    (destruct (lead_bits c) as (-> & -> & ->); [unfold in_width; lia|]).
  - rewrite (proj2 (Z.ltb_lt _ _)) by lia. apply (Hrec [c]); [done|apply wrote_mset|cbn; lia].
  - rewrite (proj2 (Z.ltb_ge c 0x80)) by lia. rewrite (proj2 (Z.leb_le _ _)), (proj2 (Z.ltb_lt _ _)) by lia. cbn [andb].
    destruct (holds_cons_inv m _ _ _ Hh1) as [E1 _].
    rewrite (mset_ne m) by lia. rewrite E1, cont_id by done.
    apply (Hrec [c; d]); [done| |cbn; lia].
    apply (wrote_snoc m _ [c]); [apply wrote_mset|done].
  - rewrite (proj2 (Z.ltb_ge c 0x80)) by lia. rewrite (proj2 (Z.ltb_ge c 0xe0)) by lia. rewrite andb_false_r.
    rewrite (proj2 (Z.leb_le _ _)), (proj2 (Z.ltb_lt _ _)) by lia. cbn [andb].
    destruct (holds_cons_inv m _ _ _ Hh1) as [E1 Hh2]. destruct (holds_cons_inv m _ _ _ Hh2) as [E2 _].
    replace (base + k + 1 + 1) with (base + k + 2) in E2 by lia.
    rewrite (mset_ne m) by lia. rewrite (mset_ne _ (base + zlen out + 1)) by lia. rewrite (mset_ne m) by lia.
    rewrite E1, E2, !cont_id by done.
    apply (Hrec [c; d; e]); [done| |cbn; lia].
    apply (wrote_snoc m _ [c; d]); [apply (wrote_snoc m _ [c]); [apply wrote_mset|done]|cbn [length]; lia].
  - rewrite (proj2 (Z.ltb_ge c 0x80)) by lia.
    replace ((0xc0 <=? c) && (c <? 0xe0)) with false by (destruct (0xc0 <=? c) eqn:A, (c <? 0xe0) eqn:B; cbn; lia).
    replace ((0xe0 <=? c) && (c <? 0xf0)) with false by (destruct (0xe0 <=? c) eqn:A, (c <? 0xf0) eqn:B; cbn; lia).
    pose proof (Hrec [] m eq_refl (wrote_nil _ _) ltac:(cbn; lia)) as H. cbn [length] in H |- *. by rewrite Z.add_0_r in H.
Qed.

(** *** Substring replacement *)

Lemma match_at_spec la : forall m p a l, holds m p l -> holds m a la -> (length la <= length l)%nat ->
  match_at (length la) m p a = bool_decide (map s8 (take (length la) l) = map s8 la).
Proof.
  induction la as [|x la IH]; intros m p a [|y l] Hl Ha Hlen; cbn [length match_at take] in *; try lia; [done..|].
  destruct (holds_cons_inv m p y l Hl) as [Ey Hl']. destruct (holds_cons_inv m a x la Ha) as [Ex Ha'].
  unfold sc. rewrite Ey, Ex, (IH m (p + 1) (a + 1) l Hl' Ha') by lia. cbn [map].
  destruct (Z.eqb_spec (s8 y) (s8 x)) as [E|E]; cbn [andb]; [|symmetry; apply bool_decide_eq_false_2; congruence].
  rewrite E. apply bool_decide_ext. split; congruence.
Qed.

Lemma copy_at_wrote lb : forall m p b, holds m b lb -> b + zlen lb <= p \/ p + zlen lb <= b ->
  wrote m p lb (copy_at (length lb) m p b).
Proof.
  induction lb as [|x lb IH]; intros m p b Hb Hd; cbn [length copy_at] in *; [apply wrote_nil|].
  destruct (holds_cons_inv m b x lb Hb) as [Ex Hb']. rewrite Ex.
  apply (wrote_app m p [x] (mset m p x) (p + 1) lb); [apply wrote_mset|done|].
  apply IH; [|lia]. apply (holds_out m); [done|]. intros a Ha. apply mset_ne. lia.
Qed.

(** The text after [Replace]: an occurrence is looked for only while more
    characters than the pattern has are left. *)
Fixpoint replaced (la lb : list Z) (fuel : nat) (l : list Z) : list Z :=
  match fuel with
  | O => l
  | S k =>
    if (length l <=? length la)%nat then l
    else if bool_decide (map s8 (take (length la) l) = map s8 la) then lb ++ replaced la lb k (drop (length la) l)
    else match l with [] => [] | c :: t => c :: replaced la lb k t end
  end.

(** Two blocks of bytes without a common address. *)
Definition apart (r q : ref) : Prop := re q <= rb r \/ re r <= rb q.

Lemma replace_loop_spec m0 r a b la lb fuel : forall m l out,
  refers m0 a la -> refers m0 b lb -> length la = length lb -> la <> [] -> apart r a -> apart r b ->
  inplace m0 (rb r) m (zlen out) l out -> re r = rb r + zlen (out ++ l) -> (length l < fuel)%nat ->
  exists m', replace_loop fuel m r a b (zlen out) = Some m' /\ holds m' (rb r) (out ++ replaced la lb fuel l) /\
    forall x, x < rb r \/ re r <= x -> m' x = m0 x.
Proof.
  induction fuel as [|fuel IH]; intros m l out Ha Hb Hab Hne Hra Hrb Hi Hre Hf; [lia|].
  destruct (refers_len m0 a la Ha) as [Ela Ea]. destruct (refers_len m0 b lb Hb) as [_ Eb].
  pose proof (proj2 Ha) as HLa. unfold apart in *. rewrite length_app in Hre.
  pose proof Hi as (Hh & Ho & _ & Hm0). cbn [replace_loop replaced]. cbv zeta.
  assert (HLr : GetLength r = zlen out + zlen l) by (unfold GetLength; lia). rewrite HLr, HLa.
  assert (Hla : (0 < length la)%nat) by (destruct la; [done|cbn; lia]).
  destruct (Nat.leb_spec (length l) (length la)) as [Hc|Hc].
  { rewrite (proj2 (Z.ltb_ge _ _)) by lia. exists m. split; [done|]. split; [by apply holds_join|].
    intros x Hx. apply Hm0. lia. }
  rewrite (proj2 (Z.ltb_lt _ _)) by lia. rewrite Nat2Z.id.
  assert (Ham : holds m (rb a) la).
  { apply (holds_out m0); [by destruct Ha|]. intros x Hx. apply Hm0. lia. }
  rewrite (match_at_spec la m _ _ l Hh Ham) by lia.
  assert (Hrec : forall taken o m1, l = taken ++ drop (length taken) l -> (1 <= length taken)%nat -> length o = length taken ->
    wrote m (rb r + zlen out) o m1 ->
    exists m', replace_loop fuel m1 r a b (zlen out + zlen taken) = Some m' /\
      holds m' (rb r) (out ++ o ++ replaced la lb fuel (drop (length taken) l)) /\ forall x, x < rb r \/ re r <= x -> m' x = m0 x).
  { intros taken o m1 El Ht Ho1 Hw. rewrite El in Hi.
    pose proof (inplace_step m0 _ m _ taken _ out o m1 Hi ltac:(lia) Hw) as Hi'.
    assert (El' := f_equal length El). rewrite length_app in El'.
    replace (zlen out + zlen taken) with (zlen (out ++ o)) in Hi' |- * by (rewrite length_app; lia).
    rewrite app_assoc. apply IH; try done; [rewrite !length_app; lia|lia]. }
  case_bool_decide as E.
  - assert (Hlt : length (take (length la) l) = length la) by (rewrite length_take; lia).
    assert (Hw : wrote m (rb r + zlen out) lb (copy_at (length lb) m (rb r + zlen out) (rb b))).
    { apply copy_at_wrote; [|lia]. apply (holds_out m0); [by destruct Hb|]. intros x Hx. apply Hm0. lia. }
    rewrite <- Hab in Hw.
    destruct (Hrec (take (length la) l) lb (copy_at (length la) m (rb r + zlen out) (rb b))) as (m' & E1 & E2);
      rewrite ?Hlt; [by rewrite take_drop|lia|lia|exact Hw|].
    rewrite Hlt in E1, E2. by exists m'.
  - destruct l as [|c t]; [cbn in Hc; lia|].
    apply (Hrec [c] [c] m); try done.
    pose proof (inplace_head m0 (rb r) m _ c t out Hi) as Ec. intros x. cbn [mstore].
    destruct (Z.eq_dec x (rb r + zlen out)) as [->|Hx]; [by rewrite mset_eq|by rewrite mset_ne].
Qed.

Lemma length_replaced la lb fuel : forall l, length la = length lb -> length (replaced la lb fuel l) = length l.
Proof.
  induction fuel as [|fuel IH]; intros l E; [done|]. cbn [replaced]. destruct (Nat.leb_spec (length l) (length la)); [done|].
  case_bool_decide; [rewrite length_app, IH, length_drop by done; lia|].
  destruct l; [done|]. cbn [length]. by rewrite IH.
Qed.

(** ** Properties *)

(** Outside [r] nothing was written. *)
Definition only (m : mem) (r : ref) (m' : mem) : Prop := forall x, x < rb r \/ re r <= x -> m' x = m x.

(** The editing operations rewrite a text in its own memory. The
    character-wise ones map it; [RemoveCharacters] leaves the characters outside
    the set, in order; [UnescapeCharacters] drops each escape sign and keeps
    what follows it - reading and keeping the character behind the text when
    the text ends in an escape; [Replace] of equal-length texts replaces the
    occurrences from the left, except one at the very end of the text. *)
Theorem in_place_edits f set esc m r a b l x la lb : refers m r l -> m (re r) = x -> refers m a la -> refers m b lb ->
  length la = length lb -> la <> [] -> (length la <= length l)%nat -> apart r a -> apart r b ->
  refers (edit f m r) r (map (fun c => match f (s8 c) with Some v => u8 v | None => c end) l) /\ only m r (edit f m r) /\
  (let '(m', r') := RemoveCharacters m r set in
   refers m' r' (List.filter (fun c => negb (Has set (s8 c))) l) /\ only m r m') /\
  (exists m' r', UnescapeCharacters m r esc = Some (m', r') /\ refers m' r' (unescaped (fun b => b) esc x (S (length l)) l) /\
     forall y, y < rb r \/ re r < y -> m' y = m y) /\
  (exists m', Replace_str m r a b = Some m' /\ refers m' r (replaced la lb (S (length l)) l) /\ only m r m').
Proof.
  intros Hr Hx Ha Hb Hab Hne Hlen Hra Hrb. destruct (refers_len m r l Hr) as [El Ee]. pose proof Hr as [Hh HL].
  pose proof (inplace_start m (rb r) l Hh) as Hi.
  split; [|split; [|split; [|split]]].
  - destruct (edit_loop_spec f l m (rb r) Hh) as [H1 _]. unfold edit. rewrite El. split; [exact H1|]. by rewrite length_map.
  - intros a' Ha'. unfold edit. rewrite El. apply (edit_loop_spec f l m (rb r) Hh). lia.
  - destruct (remove_chars_spec set m (rb r) l m 0 [] Hi) as (m' & E & _ & Hh' & Hle & Hout).
    unfold RemoveCharacters. rewrite El. cbn [length app] in E. rewrite !Z.add_0_r in E. rewrite E.
    split; [split; [exact Hh'|unfold GetLength; cbn [rb re]; lia]|]. intros y Hy. apply Hout. lia.
  - assert (Hhx : holds m (rb r) (l ++ [x])).
    { apply holds_join; [done|]. unfold holds. cbn. by rewrite <- Ee, Hx. }
    destruct (unescape_loop_spec (fun b => b) esc x m (rb r) (S (length l)) l m 0 [] (re r) (inplace_start _ _ _ Hhx)) as (m' & E & Hh' & Hout).
    { lia. } { lia. }
    exists m', (mkRef (rb r) (rb r + zlen (unescaped (fun b => b) esc x (S (length l)) l))).
    unfold UnescapeCharacters. rewrite El. change (zlen []) with 0 in E. rewrite !Z.add_0_r in E. rewrite E.
    split; [done|]. split; [|exact Hout]. split; [exact Hh'|]. unfold GetLength. cbn [rb re]. lia.
  - unfold Replace_str. rewrite (proj2 Ha), HL. destruct la as [|c0 la]; [done|].
    rewrite (proj2 (Z.eqb_neq _ _)) by (cbn [length]; lia). rewrite (proj2 (Z.ltb_ge _ _)) by lia. rewrite El.
    destruct (replace_loop_spec m r a b (c0 :: la) lb (S (length l)) m l [] Ha Hb Hab Hne Hra Hrb Hi) as (m' & E & Hh' & Hout).
    { exact Ee. } { lia. }
    exists m'. split; [exact E|]. split; [|exact Hout]. split; [exact Hh'|]. by rewrite length_replaced.
Qed.

Lemma in_place_edits_witness :
  let t := str "a,b\,ab,ab" in let m := mem_of 0 100 (t ++ [0] ++ str "abxy") in
  let r := mkRef 100 110 in let a := mkRef 111 113 in let b := mkRef 113 115 in
  refers (edit (fun c => if c =? chr "," then Some (chr ";") else None) m r) r
    (map (fun c => match (if s8 c =? chr "," then Some (chr ";") else None) with Some v => u8 v | None => c end) t) /\
  only m r (edit (fun c => if c =? chr "," then Some (chr ";") else None) m r) /\
  (let '(m', r') := RemoveCharacters m r illegal in
   refers m' r' (List.filter (fun c => negb (Has illegal (s8 c))) t) /\ only m r m') /\
  (exists m' r', UnescapeCharacters m r (chr "\") = Some (m', r') /\ refers m' r' (unescaped (fun b => b) (chr "\") 0 11 t) /\
     forall y, y < rb r \/ re r < y -> m' y = m y) /\
  (exists m', Replace_str m r a b = Some m' /\ refers m' r (replaced (str "ab") (str "xy") 11 t) /\ only m r m').
Proof.
  apply (in_place_edits (fun c => if c =? chr "," then Some (chr ";") else None) illegal (chr "\")
    (mem_of 0 100 (str "a,b\,ab,ab" ++ [0] ++ str "abxy")) (mkRef 100 110) (mkRef 111 113) (mkRef 113 115)
    (str "a,b\,ab,ab") 0 (str "ab") (str "xy")); try (by split); done || (right; done) || (cbn; lia).
Defined.

(** [DecodedURL] undoes percent-encoding with upper-case digits, for every
    byte value and whatever mixture of escaped and plain characters;
    [RegularizeUTF8] keeps the well-formed one- to three-byte units of a text
    and drops the stray bytes between them. Both stay inside the text. *)
Theorem decoding_in_place m r items us :
  (refers m r (flat_map enc_item items) -> Forall item_ok items ->
   exists m' r', DecodedURL m r = Some (m', r') /\ refers m' r' (map snd items) /\ only m r m') /\
  (refers m r (flat_map fst us) -> Forall (fun u => unit8 (fst u) (snd u)) us ->
   exists m' r', RegularizeUTF8 m r = Some (m', r') /\ refers m' r' (kept us) /\ only m r m').
Proof.
  split; intros Hr Hok; destruct (refers_len m r _ Hr) as [El Ee]; pose proof (inplace_start m (rb r) _ (proj1 Hr)) as Hi.
  - destruct (decode_loop_spec m (rb r) items (S (str_len r)) m 0 [] (re r) Hi Hok) as (m' & E & _ & Hh & _ & Ho); [lia..|].
    cbn [length app] in E. change (Z.of_nat 0) with 0 in E. rewrite !Z.add_0_r in E. unfold DecodedURL. rewrite E.
    do 2 eexists. split; [done|]. split; [split; [exact Hh|unfold GetLength; cbn [rb re app]; lia]|]. intros y Hy. apply Ho. lia.
  - destruct (regularize_loop_spec m (rb r) us (S (str_len r)) m 0 [] (re r) Hok Hi) as (m' & E & _ & Hh & _ & Ho); [lia..|].
    cbn [length app] in E. change (Z.of_nat 0) with 0 in E. rewrite !Z.add_0_r in E. unfold RegularizeUTF8. rewrite E.
    do 2 eexists. split; [done|]. split; [split; [exact Hh|unfold GetLength; cbn [rb re app]; lia]|]. intros y Hy. apply Ho. lia.
Qed.

Lemma decoding_in_place_witness :
  (let m := mem_of 0 100 (str "a%2Fb%FF") in let r := mkRef 100 108 in
   exists m' r', DecodedURL m r = Some (m', r') /\ refers m' r' [chr "a"; 0x2f; chr "b"; 0xff] /\ only m r m') /\
  (let m := mem_of 0 100 [0x41; 0xc3; 0xa9; 0x80; 0xe2; 0x82; 0xac] in let r := mkRef 100 107 in
   exists m' r', RegularizeUTF8 m r = Some (m', r') /\ refers m' r' [0x41; 0xc3; 0xa9; 0xe2; 0x82; 0xac] /\ only m r m').
Proof.
  split.
  - apply (decoding_in_place (mem_of 0 100 (str "a%2Fb%FF")) (mkRef 100 108) [(false, chr "a"); (true, 0x2f); (false, chr "b"); (true, 0xff)] []).
    + by split.
    + repeat constructor; done.
  - apply (decoding_in_place (mem_of 0 100 [0x41; 0xc3; 0xa9; 0x80; 0xe2; 0x82; 0xac]) (mkRef 100 107) []
      [([0x41], true); ([0xc3; 0xa9], true); ([0x80], false); ([0xe2; 0x82; 0xac], true)]).
    + by split.
    + forall_list; [apply unit_1|apply unit_2|apply unit_stray|apply unit_3]; cbn; lia.
Defined.

(** A text that ends in an escape keeps the character behind it. *)
Example Unescape_past_end :
  (let t := str "x\n" in unescaped (fun b => b) (chr "\") 0 4 t = [chr "x"; chr "n"; 0]).
Proof. reflexivity. Qed.

(** An occurrence at the end of the text is not replaced. *)
Example Replace_misses_last : replaced (str "ab") (str "xy") 6 (str "ab-ab") = str "xy-ab".
Proof. reflexivity. Qed.
