(* ===== verification/StrBuf.v ===== *)
(** [rt::String] (rt/string_type.h): the growing, zero-terminated text.  The
    block is a list of bytes; an access outside it, through the null pointer or
    to a block that has been freed has no result. *)
From S2P Require Import Prelude Str StrScan StrEdit.

(** ** Definitions: the block *)

(** [_len] counts the terminator; [_len_reserved] is what the string believes
    the block to hold. *)
Record string := mkS { s_p : option (list Z); s_len : Z; s_reserved : Z }.
Definition String0 : string := mkS None 0 0.
Definition block (s : string) : list Z := match s_p s with Some b => b | None => [] end.
Definition sb_GetLength (s : string) : Z := if s_len s =? 0 then 0 else s_len s - 1.
Definition sb_IsEmpty (s : string) : bool := match s_p s with None => true | Some _ => s_len s <? 2 end.
Definition content (s : string) : list Z := firstn (Z.to_nat (sb_GetLength s)) (block s).

(** [memcpy] of [l] to index [p], and from index [p]. *)
Definition blit (b : list Z) (p : Z) (l : list Z) : option (list Z) :=
  if (0 <=? p) && (p + zlen l <=? zlen b)
  then Some (firstn (Z.to_nat p) b ++ l ++ skipn (Z.to_nat p + length l) b) else None.
Definition fetch (b : list Z) (p n : Z) : option (list Z) :=
  if (0 <=? p) && (0 <=? n) && (p + n <=? zlen b) then Some (firstn (Z.to_nat n) (skipn (Z.to_nat p) b)) else None.

(** Writing into the string's block. *)
Definition poke (s : string) (p : Z) (l : list Z) : option string :=
  b ← blit (block s) p l;
  Some (mkS (match s_p s with Some _ => Some b | None => None end) (s_len s) (s_reserved s)).
Definition with_len (s : string) (n : Z) : string := mkS (s_p s) n (s_reserved s).

Section Ops.
(** The allocator: a block of the size asked for, or [None]. *)
Context (malloc : Z -> option (list Z)).

Definition sb_ChangeSize (s : string) (new_size : Z) : option (bool * string) :=
  if new_size <=? s_reserved s then Some (true, with_len s new_size)
  else
    let r := Z.max (Z.max 16 new_size) (u64 (s_reserved s * 2)) in
    match malloc r with
    | None => Some (false, mkS (s_p s) (s_len s) r)
    | Some b => old ← fetch (block s) 0 (s_len s); b ← blit b 0 old; Some (true, mkS (Some b) new_size r)
    end.

Definition sb_SetLength (s : string) (sz : Z) : option (bool * string) :=
  if sz =? 0 then
    match s_p s with
    | Some _ => if 1 <? s_len s then s ← poke s 0 [0]; Some (true, with_len s 1) else Some (true, s)
    | None => Some (true, s)
    end
  else
    '(ok, s) ← sb_ChangeSize s (sz + 1);
    if ok : bool then s ← poke s sz [0]; Some (true, s) else Some (false, s).
Definition sb_Empty (s : string) : option string := '(_, s) ← sb_SetLength s 0; Some s.
Definition SecureEmpty (s : string) : option string :=
  poke (with_len s 0) 0 (repeat 0 (Z.to_nat (s_reserved s))).

(** [operator = (const String_Ref&)] of a text outside the string, and of the
    [n] characters at [off] of the string itself, which moves if it is enlarged.
    The copy is [memcpy]: there is no result where the part overlaps its new place. *)
Definition sb_assign (s : string) (x : list Z) : option string :=
  match x with
  | [] => sb_Empty s
  | _ =>
    '(ok, s) ← sb_ChangeSize s (zlen x + 1);
    if ok : bool then s ← poke s 0 x; poke s (zlen x) [0] else Some s
  end.
Definition assign_own (s : string) (off n : Z) : option string :=
  if n =? 0 then sb_Empty s
  else if n + 1 <=? s_reserved s then
    x ← fetch (block s) off n;
    _ ← assert_ (n <=? off);
    s ← poke (with_len s (n + 1)) 0 x; poke s n [0]
  else None.
Definition sb_assign_char (s : string) (c : Z) : option string :=
  '(_, s) ← sb_SetLength s 1; poke s 0 [c].

(** [operator = (const T&)] of an expression: always a new block. *)
Definition sb_assign_expr (s : string) (x : list Z) : option string :=
  b ← malloc (zlen x + 1); b ← blit b (zlen x) [0]; b ← blit b 0 x;
  Some (mkS (Some b) (zlen x + 1) (zlen x + 1)).

(** [operator += (const T&)]: [get] reads the argument, from the string itself
    perhaps, when it is copied - from the block before the change. *)
Definition append_with (s : string) (len : Z) (get : list Z -> option (list Z)) : option string :=
  if s_reserved s <? len + sb_GetLength s + 1 then
    b ← malloc (len + sb_GetLength s + 1);
    old ← fetch (block s) 0 (sb_GetLength s);
    b ← blit b 0 old;
    x ← get (block s);
    b ← blit b (sb_GetLength s) x;
    b ← blit b (len + sb_GetLength s) [0];
    Some (mkS (Some b) (len + sb_GetLength s + 1) (len + sb_GetLength s + 1))
  else
    x ← get (block s);
    s1 ← poke s (sb_GetLength s) x;
    s1 ← poke s1 (len + sb_GetLength s) [0];
    Some (with_len s1 (len + sb_GetLength s + 1)).
Definition sb_append (s : string) (x : list Z) : option string := append_with s (zlen x) (fun _ => Some x).
Definition append_own (s : string) (off n : Z) : option string := append_with s n (fun b => fetch b off n).

(** [operator += (char)] goes on when [SetLength] fails. *)
Definition append_char (s : string) (c : Z) : option string :=
  let pos := sb_GetLength s in '(_, s) ← sb_SetLength s (pos + 1); poke s pos [c].

Definition Insert_char (s : string) (pos c : Z) : option string :=
  let org_len := sb_GetLength s in
  '(_, s) ← sb_SetLength s (org_len + 1);
  t ← fetch (block s) pos (org_len - pos);
  s ← poke s (pos + 1) t; poke s pos [c].
Definition Insert_str (s : string) (pos : Z) (sub_str : list Z) : option string :=
  let org_len := sb_GetLength s in
  '(_, s) ← sb_SetLength s (org_len + zlen sub_str);
  t ← fetch (block s) pos (org_len - pos);
  s ← poke s (pos + zlen sub_str) t; poke s pos sub_str.

Definition Shorten (s : string) (n : Z) : option string :=
  '(_, s) ← sb_SetLength s (Z.max 0 (sb_GetLength s - n)); Some s.

(** The separator at the end gives way to the closing mark; [false]: there was none. *)
Definition EndClosure (s : string) (closure_symb : Z) : option (bool * string) :=
  l ← fetch (block s) (sb_GetLength s - 1) 1;
  let c := s8 (nth 0 l 0) in
  if (c =? chr ",") || (c =? chr ".") || (c =? chr ";")
  then s ← poke s (sb_GetLength s - 1) [closure_symb]; Some (true, s)
  else s ← append_char s closure_symb; Some (false, s).

(** *** Replacement *)

(** [Replace(char, String_Ref)]: built in another string, then swapped in; the loop
    counts to the length as an [int]. *)
Fixpoint replace_chars (a : Z) (b : list Z) (l : list Z) (tmp : string) : option string :=
  match l with
  | [] => Some tmp
  | c :: t => tmp ← (if s8 c =? a then sb_append tmp b else append_char tmp c); replace_chars a b t tmp
  end.
Definition Replace_cs (s : string) (a : Z) (b : list Z) : option string :=
  '(_, tmp) ← sb_SetLength String0 (u64 (sb_GetLength s * zlen b));
  '(_, tmp) ← sb_SetLength tmp 0;
  replace_chars a b (firstn (Z.to_nat (s32 (sb_GetLength s))) (content s)) tmp.

(** [FindString(const char*, skip)]: [strstr] sees the text up to its first zero; the
    position is converted to [int]. *)
Fixpoint is_prefix (a l : list Z) : bool :=
  match a, l with
  | [], _ => true
  | x :: a, y :: l => (x =? y) && is_prefix a l
  | _, [] => false
  end.
Fixpoint strstr (l a : list Z) : option nat :=
  if is_prefix a l then Some 0%nat
  else match l with
       | [] => None
       | c :: t => if c =? 0 then None else option_map S (strstr t a)
       end.
Definition sb_FindString (s : string) (a : list Z) (skip_first : Z) : Z :=
  if skip_first <? sb_GetLength s then
    match strstr (skipn (Z.to_nat skip_first) (content s)) a with
    | Some i => s32 (skip_first + Z.of_nat i)
    | None => -1
    end
  else -1.

(** [Replace(a, b)]: the search goes on behind what was put in. *)
Fixpoint replace_all_loop (fuel : nat) (a b : list Z) (tmp : string) (s replaced : Z) : option (string * Z) :=
  match fuel with
  | O => None
  | S k =>
    let p := sb_FindString tmp a s in
    if p <? 0 then Some (tmp, replaced)
    else
      let l := content tmp in
      tmp ← sb_assign_expr tmp (firstn (Z.to_nat p) l ++ b ++ skipn (Z.to_nat p + length a) l);
      replace_all_loop k a b tmp (p + zlen b) (u32 (replaced + 1))
  end.
Definition Replace_all (s : string) (a b : list Z) : option (string * Z) :=
  match a with
  | [] => Some (s, 0)
  | _ => tmp ← sb_assign String0 (content s); replace_all_loop (S (length (content s))) a b tmp 0 0
  end.

(** *** Escaping *)

Definition needs_escape (set : cset) (esc c : Z) : bool := (s8 c =? esc) || Has set (s8 c).
Definition escape_one (set : cset) (esc c : Z) : list Z :=
  if needs_escape set esc c then [u8 esc; u8 (Mapped set (s8 c))] else [c].

(** [EscapeCharacters(input, ..)]: [p] is the place to write. *)
Fixpoint escape_into (set : cset) (esc : Z) (l : list Z) (s : string) (p : Z) : option string :=
  match l with
  | [] => Some s
  | c :: t => s ← poke s p (escape_one set esc c); escape_into set esc t s (p + zlen (escape_one set esc c))
  end.
Definition EscapeCharacters_in (s : string) (input : list Z) (set : cset) (esc : Z) : option string :=
  let replace_count := zlen (List.filter (needs_escape set esc) input) in
  if replace_count =? 0 then sb_assign s input
  else '(_, s) ← sb_SetLength s (zlen input + replace_count); escape_into set esc input s 0.

(** [EscapeCharacters(..)] in place, from the end: [n] characters left, the last
    one at index [n - 1], [p] the place to write. *)
Fixpoint escape_back (set : cset) (esc : Z) (n : nat) (s : string) (p : Z) : option string :=
  match n with
  | O => Some s
  | S k =>
    l ← fetch (block s) (Z.of_nat k) 1;
    let c := nth 0 l 0 in
    if needs_escape set esc c then
      s ← poke s p [u8 (Mapped set (s8 c))]; s ← poke s (p - 1) [u8 esc]; escape_back set esc k s (p - 2)
    else s ← poke s p [c]; escape_back set esc k s (p - 1)
  end.
Definition EscapeCharacters (s : string) (set : cset) (esc : Z) : option string :=
  let n := sb_GetLength s in
  let replace_count := zlen (List.filter (needs_escape set esc) (content s)) in
  if replace_count =? 0 then Some s
  else '(_, s) ← sb_SetLength s (n + replace_count); escape_back set esc (Z.to_nat n) s (n + replace_count - 1).

(** [UnescapeCharacters(input, ..)]: the loop up to the last character, which is
    behind the text ([x]) when the text ends in an escape. *)
Fixpoint unescape_into (f : Z -> Z) (esc x : Z) (fuel : nat) (l : list Z) (s : string) (p : Z) : option (string * Z) :=
  match fuel with
  | O => None
  | S k =>
    match l with
    | c :: d :: t =>
      if s8 c =? esc then s ← poke s p [f d]; unescape_into f esc x k t s (p + 1)
      else s ← poke s p [c]; unescape_into f esc x k (d :: t) s (p + 1)
    | _ => let c := nth 0 l x in if s8 c =? esc then Some (s, p) else s ← poke s p [c]; Some (s, p + 1)
    end
  end.
Definition UnescapeCharacters_in (s : string) (input : list Z) (x : Z) (f : Z -> Z) (esc : Z) : option string :=
  '(_, s) ← sb_SetLength s (zlen input);
  '(s, p) ← unescape_into f esc x (S (length input)) input s 0;
  poke (with_len s (p + 1)) p [0].
End Ops.

(** ** Facts: blocks *)

Lemma blit_mid (a x y c : list Z) p : p = zlen a -> length x = length y -> blit (a ++ x ++ c) p y = Some (a ++ y ++ c).
Proof.
  intros -> H. unfold blit. rewrite !length_app. rewrite (proj2 (Z.leb_le 0 _)), (proj2 (Z.leb_le _ _)) by lia. cbn [andb].
  rewrite Nat2Z.id, firstn_app, firstn_all, Nat.sub_diag, firstn_O, app_nil_r. do 3 f_equal.
  rewrite app_assoc, skipn_app, skipn_all2 by (rewrite length_app; lia). cbn [app]. rewrite length_app.
  replace (length a + length y - (length a + length x))%nat with 0%nat by lia. done.
Qed.

Lemma blit_front (x y c : list Z) : length x = length y -> blit (x ++ c) 0 y = Some (y ++ c).
Proof. exact (blit_mid [] x y c 0 eq_refl). Qed.

Lemma blit_one (a c : list Z) u v p : p = zlen a -> blit (a ++ u :: c) p [v] = Some (a ++ v :: c).
Proof. intros H. exact (blit_mid a [u] [v] c p H eq_refl). Qed.

Lemma cut_block (b : list Z) p n : 0 <= p -> 0 <= n -> p + n <= zlen b ->
  exists a x c, b = a ++ x ++ c /\ zlen a = p /\ zlen x = n.
Proof.
  intros H1 H2 H3. exists (firstn (Z.to_nat p) b), (firstn (Z.to_nat n) (skipn (Z.to_nat p) b)), (skipn (Z.to_nat n) (skipn (Z.to_nat p) b)).
  rewrite firstn_skipn, firstn_skipn. split; [done|]. rewrite !length_firstn, length_skipn. lia.
Qed.

Lemma fetch_mid (a x c : list Z) p n : p = zlen a -> n = zlen x -> fetch (a ++ x ++ c) p n = Some x.
Proof.
  intros -> ->. unfold fetch. rewrite !length_app.
  rewrite (proj2 (Z.leb_le 0 _)), (proj2 (Z.leb_le 0 _)), (proj2 (Z.leb_le _ _)) by lia. cbn [andb]. rewrite !Nat2Z.id.
  rewrite skipn_app, skipn_all, Nat.sub_diag, skipn_O, app_nil_l. by rewrite firstn_app, firstn_all, Nat.sub_diag, firstn_O, app_nil_r.
Qed.

(** [s] holds the text [l], terminated, in a block as large as it believes. *)
Definition rep (s : string) (l : list Z) : Prop :=
  0 <= s_len s <= s_reserved s /\ s_reserved s <= zlen (block s) /\
  ((s_len s = 0 /\ l = []) \/ exists t, s_p s = Some (l ++ 0 :: t) /\ s_len s = zlen l + 1).

Lemma rep_0 : rep String0 [].
Proof. split; [cbn; lia|]. split; [cbn; lia|by left]. Qed.

Lemma rep_length s l : rep s l -> sb_GetLength s = zlen l.
Proof.
  intros (_ & _ & [[E ->]|(t & _ & E)]); unfold sb_GetLength; rewrite E; [done|].
  rewrite (proj2 (Z.eqb_neq _ _)) by lia. lia.
Qed.

Lemma rep_content s l : rep s l -> content s = l.
Proof.
  intros H. unfold content. rewrite (rep_length s l H), Nat2Z.id. destruct H as (_ & _ & [[E ->]|(t & E & _)]); [done|].
  unfold block. rewrite E. by rewrite firstn_app, firstn_all, Nat.sub_diag, firstn_O, app_nil_r.
Qed.

Lemma text_rep l t n r : n = zlen l + 1 -> n <= r -> r <= zlen (l ++ 0 :: t) -> rep (mkS (Some (l ++ 0 :: t)) n r) l.
Proof. intros -> H1 H2. split; [cbn; lia|]. split; [done|]. right. by exists t. Qed.

(** Writing inside the text. *)
Lemma poke_rep s (a x y c : list Z) p : rep s (a ++ x ++ c) -> p = zlen a -> length x = length y ->
  exists s', poke s p y = Some s' /\ rep s' (a ++ y ++ c).
Proof.
  intros (H1 & H2 & H3) Hp Hl. destruct H3 as [[E El]|(t & E & El)].
  - apply app_eq_nil in El as [-> El]. apply app_eq_nil in El as [-> ->]. destruct y; [|done]. cbn [app length] in *. subst p.
    unfold poke, blit. cbn [length]. change (Z.of_nat 0) with 0. rewrite Z.add_0_r. rewrite (proj2 (Z.leb_le 0 0)), (proj2 (Z.leb_le 0 (zlen (block s)))) by lia.
    cbn [andb firstn skipn app Z.to_nat mbind option_bind]. eexists. split; [reflexivity|]. split; [done|]. split; [|by left].
    unfold block in *. destruct (s_p s); done.
  - unfold poke, block in *. rewrite E in *. rewrite <- !app_assoc in *. rewrite (blit_mid a x y (c ++ 0 :: t) p Hp Hl).
    cbn [mbind option_bind]. eexists. split; [reflexivity|]. split; [exact H1|]. cbn [s_p s_len s_reserved].
    rewrite !length_app in *. split; [cbn; rewrite !length_app; lia|]. right. exists t. rewrite <- !app_assoc. split; [done|]. lia.
Qed.

Lemma fetch_rep s (a x c : list Z) p n : rep s (a ++ x ++ c) -> p = zlen a -> n = zlen x -> fetch (block s) p n = Some x.
Proof.
  intros (H1 & H2 & H3) Hp Hn. destruct H3 as [[E El]|(t & E & El)].
  - apply app_eq_nil in El as [-> El]. apply app_eq_nil in El as [-> ->]. subst. by apply (fetch_mid [] [] (block s)).
  - unfold block. rewrite E, <- !app_assoc. by apply fetch_mid.
Qed.

Section Spec.
Context (malloc : Z -> option (list Z)).
(** The allocator never fails. *)
Context (malloc_ok : forall n, 0 <= n -> exists b, malloc n = Some b /\ zlen b = n).

Lemma ChangeSize_ok s l n : rep s l -> 1 <= n -> exists b r,
  sb_ChangeSize malloc s n = Some (true, mkS (Some b) n r) /\ n <= r <= zlen b /\ (l = [] \/ exists t, b = l ++ t).
Proof.
  intros (H1 & H2 & H3) Hn. unfold sb_ChangeSize. destruct (Z.leb_spec n (s_reserved s)) as [Hle|Hgt].
  - destruct (s_p s) as [b|] eqn:E; [|unfold block in H2; rewrite E in H2; cbn in H2; lia].
    exists b, (s_reserved s). unfold with_len, block in *. rewrite E in *. split; [done|]. split; [lia|].
    destruct H3 as [[_ ->]|(t & [= ->] & _)]; [by left|right; eauto].
  - set (r := Z.max _ _). assert (Hr : n <= r) by (unfold r; lia).
    destruct (malloc_ok r ltac:(lia)) as (b & -> & Eb).
    assert (Hf : exists old, fetch (block s) 0 (s_len s) = Some old /\ zlen old = s_len s /\ (l = [] \/ exists t, old = l ++ t)).
    { destruct H3 as [[E ->]|(t & E & El)].
      - exists []. rewrite E. split; [by apply (fetch_mid [] [] (block s))|]. by split; [|left].
      - exists (l ++ [0]). unfold block. rewrite E. split.
        + change (l ++ 0 :: t) with ([] ++ l ++ [0] ++ t). rewrite (app_assoc l). apply fetch_mid; [done|]. rewrite length_app. cbn. lia.
        + rewrite length_app. cbn. split; [lia|right; eauto]. }
    destruct Hf as (old & -> & Eo & Hl). cbn [mbind option_bind].
    destruct (cut_block b 0 (zlen old) ltac:(lia) ltac:(lia) ltac:(lia)) as (a & x & c & -> & Ha & Hx).
    rewrite (blit_mid a x old c 0) by lia. cbn [mbind option_bind]. destruct a; [|cbn in Ha; lia]. cbn [app] in *.
    exists (old ++ c), r. split; [done|]. rewrite !length_app in *. split; [lia|].
    destruct Hl as [->|(t & ->)]; [by left|]. right. exists (t ++ c). by rewrite app_assoc.
Qed.

Lemma SetLength_ok s l n : rep s l -> 0 <= n -> exists s' g,
  sb_SetLength malloc s n = Some (true, s') /\ rep s' (firstn (Z.to_nat n) l ++ g) /\ zlen (firstn (Z.to_nat n) l ++ g) = n.
Proof.
  intros H Hn. unfold sb_SetLength. destruct (Z.eqb_spec n 0) as [->|Hne].
  - cbn [Z.to_nat firstn app]. destruct H as (H1 & H2 & H3). destruct (s_p s) as [b|] eqn:E.
    + destruct (Z.ltb_spec 1 (s_len s)) as [Hlt|Hge].
      * destruct H3 as [[E0 _]|(t & [= ->] & El)]; [lia|]. unfold poke, block in *. rewrite E in *.
        destruct l as [|c l]; [cbn in El; lia|]. change ((c :: l) ++ 0 :: t) with ([] ++ [c] ++ (l ++ 0 :: t)). rewrite (blit_mid [] [c] [0] (l ++ 0 :: t) 0) by done.
        cbn [mbind option_bind app]. eexists _, []. split; [reflexivity|]. split; [|done]. unfold with_len. cbn [s_p s_len s_reserved].
        apply (text_rep []); [done|lia|]. cbn [app length] in *. exact H2.
      * exists s, []. split; [done|]. split; [|done]. split; [done|]. split; [done|].
        destruct H3 as [[E0 ->]|(t & Et & El)]; [left; done|]. right. exists t. rewrite E.
        destruct l; [done|cbn in El; lia].
    + exists s, []. split; [done|]. split; [|done]. split; [done|]. split; [done|].
      destruct H3 as [[E0 ->]|(t & Et & El)]; [left; done|congruence].
  - destruct (ChangeSize_ok s l (n + 1) H ltac:(lia)) as (b & r & -> & Hr & Hl). cbn [mbind option_bind].
    unfold poke, block. cbn [s_p s_len s_reserved].
    destruct (cut_block b n 1 ltac:(lia) ltac:(lia) ltac:(lia)) as (a & x & c & -> & Ha & Hx).
    rewrite (blit_mid a x [0] c n) by (done || (cbn [length]; lia)). cbn [mbind option_bind].
    assert (Hg : exists g, a = firstn (Z.to_nat n) l ++ g).
    { destruct Hl as [->|(t & E)]; [exists a; by rewrite firstn_nil|].
      assert (Ea : a = firstn (Z.to_nat n) (a ++ x ++ c)).
      { replace (Z.to_nat n) with (length a) by lia. by rewrite firstn_app, firstn_all, Nat.sub_diag, firstn_O, app_nil_r. }
      rewrite E, firstn_app in Ea. eauto. }
    destruct Hg as (g & ->). eexists _, g. split; [reflexivity|]. split; [|done].
    apply (text_rep _ c); [lia|lia|]. rewrite !length_app in *. cbn [length] in *. lia.
Qed.

(** [f s] ends in a string that holds [l]. *)
Definition gives (r : option string) (l : list Z) : Prop := exists s, r = Some s /\ rep s l.

Lemma assign_spec s l x : rep s l -> gives (sb_assign malloc s x) x.
Proof.
  intros H. unfold sb_assign. destruct x as [|c x].
  - destruct (SetLength_ok s l 0 H ltac:(lia)) as (s' & g & E & Hr & Hl). unfold sb_Empty. rewrite E. cbn [mbind option_bind].
    exists s'. split; [done|]. destruct (firstn _ _ ++ g); [done|cbn in Hl; lia].
  - generalize (c :: x); clear c x; intros y. destruct (ChangeSize_ok s l (zlen y + 1) H ltac:(lia)) as (b & r & -> & Hr & _). cbn [mbind option_bind].
    destruct (cut_block b 0 (zlen y) ltac:(lia) ltac:(lia) ltac:(lia)) as (a & z & t & -> & Ha & Hz).
    destruct a; [|cbn in Ha; lia]. cbn [app] in *. rewrite length_app in Hr. unfold poke, block. cbn [s_p s_len s_reserved].
    rewrite (blit_front z y t) by (done || lia). cbn [mbind option_bind app s_p s_len s_reserved].
    destruct t as [|u t]; [cbn in Hr; lia|]. rewrite (blit_one y t u) by done. cbn [mbind option_bind].
    eexists. split; [reflexivity|]. apply (text_rep y t); [done|lia|]. rewrite length_app in *. cbn [length] in *. lia.
Qed.

Lemma assign_expr_spec s x : gives (sb_assign_expr malloc s x) x.
Proof.
  unfold sb_assign_expr. destruct (malloc_ok (zlen x + 1) ltac:(lia)) as (b & -> & Eb). cbn [mbind option_bind].
  destruct (cut_block b 0 (zlen x) ltac:(lia) ltac:(lia) ltac:(lia)) as (a & z & t & -> & Ha & Hz). destruct a; [|cbn in Ha; lia].
  cbn [app] in *. rewrite length_app in Eb. destruct t as [|u [|v t]]; cbn [length] in Eb; try lia.
  rewrite (blit_one z [] u) by (done || lia). cbn [mbind option_bind].
  rewrite (blit_front z x [0]) by (done || lia). cbn [mbind option_bind app].
  eexists. split; [reflexivity|]. apply text_rep; [done|lia|]. rewrite length_app. cbn. lia.
Qed.

Lemma append_with_spec s l get x : rep s l -> get (block s) = Some x -> gives (append_with malloc s (zlen x) get) (l ++ x).
Proof.
  intros H Hx. unfold append_with. rewrite (rep_length s l H), Hx. cbn [mbind option_bind].
  destruct (Z.ltb_spec (s_reserved s) (zlen x + zlen l + 1)) as [Hlt|Hge].
  - destruct (malloc_ok (zlen x + zlen l + 1) ltac:(lia)) as (b & -> & Eb). cbn [mbind option_bind].
    assert (Hf : fetch (block s) 0 (zlen l) = Some l).
    { apply (fetch_rep s [] l []); [by rewrite app_nil_r|done|done]. }
    rewrite Hf. cbn [mbind option_bind].
    destruct (cut_block b 0 (zlen l) ltac:(lia) ltac:(lia) ltac:(lia)) as (a & z & t & -> & Ha & Hz). destruct a; [|cbn in Ha; lia].
    cbn [app] in *. rewrite length_app in Eb. rewrite (blit_front z l t) by (done || lia). cbn [mbind option_bind app].
    destruct (cut_block t 0 (zlen x) ltac:(lia) ltac:(lia) ltac:(lia)) as (a & y & w & -> & Ha' & Hy). destruct a; [|cbn in Ha'; lia].
    cbn [app] in *. rewrite length_app in Eb. rewrite (blit_mid l y x w) by (done || lia). cbn [mbind option_bind].
    destruct w as [|u [|v w]]; cbn [length] in Eb; try lia. rewrite app_assoc.
    rewrite (blit_one (l ++ x) [] u) by (done || (rewrite length_app; lia)). cbn [mbind option_bind].
    eexists. split; [reflexivity|]. apply text_rep; rewrite ?length_app; cbn; lia.
  - destruct H as (H1 & H2 & H3). unfold poke, block in *. destruct (s_p s) as [b|] eqn:E; [|cbn in H2; lia].
    assert (Hb : exists t, b = l ++ t) by (destruct H3 as [[_ ->]|(t & [= ->] & _)]; eauto). destruct Hb as [t ->].
    rewrite length_app in H2. destruct (cut_block t 0 (zlen x) ltac:(lia) ltac:(lia) ltac:(lia)) as (a & y & w & -> & Ha & Hy).
    destruct a; [|cbn in Ha; lia]. cbn [app] in *. rewrite length_app in H2. rewrite (blit_mid l y x w) by (done || lia).
    cbn [mbind option_bind s_p s_len s_reserved]. destruct w as [|u w]; [cbn in H2; lia|]. rewrite app_assoc.
    rewrite (blit_one (l ++ x) w u) by (done || (rewrite length_app; lia)). cbn [mbind option_bind].
    eexists. split; [reflexivity|]. unfold with_len. cbn [s_p s_len s_reserved].
    apply text_rep; rewrite ?length_app; cbn [length] in *; lia.
Qed.

Lemma append_spec s l x : rep s l -> gives (sb_append malloc s x) (l ++ x).
Proof. intros H. by apply append_with_spec. Qed.

Lemma grown s l n x : rep s l -> x = zlen l + n -> 0 <= n -> exists s' g, sb_SetLength malloc s x = Some (true, s') /\ rep s' (l ++ g) /\ zlen g = n.
Proof.
  intros H -> Hn. destruct (SetLength_ok s l (zlen l + n) H ltac:(lia)) as (s' & g & E & Hr & Hl). exists s', g.
  rewrite firstn_all2 in Hr, Hl by lia. rewrite length_app in Hl. split; [done|]. split; [done|lia].
Qed.

Lemma append_char_spec s l c : rep s l -> gives (append_char malloc s c) (l ++ [c]).
Proof.
  intros H. unfold append_char. rewrite (rep_length s l H). destruct (grown s l 1 _ H eq_refl ltac:(lia)) as (s' & g & -> & Hr & Hg).
  cbn [mbind option_bind]. apply (poke_rep s' l g [c] []); [by rewrite app_nil_r|done|cbn; lia].
Qed.

Lemma Insert_str_spec s a b x : rep s (a ++ b) -> gives (Insert_str malloc s (zlen a) x) (a ++ x ++ b).
Proof.
  intros H. unfold Insert_str. rewrite (rep_length s _ H).
  destruct (grown s _ (zlen x) _ H eq_refl ltac:(lia)) as (s' & g & -> & Hr & Hg). cbn [mbind option_bind].
  rewrite length_app, <- app_assoc in *. rewrite (fetch_rep s' a b g _ _ Hr) by (done || lia). cbn [mbind option_bind].
  destruct (cut_block (b ++ g) (zlen x) (zlen b) ltac:(lia) ltac:(lia) ltac:(rewrite length_app; lia)) as (u & v & w & Eg & Hu & Hv).
  assert (Hw : w = []) by (apply (f_equal length) in Eg; rewrite !length_app in Eg; destruct w; [done|cbn in Eg; lia]). subst w.
  rewrite Eg, app_nil_r, app_assoc in Hr. rewrite <- (app_nil_r v), app_assoc in Hr. rewrite <- app_assoc in Hr.
  destruct (poke_rep s' (a ++ u) v b [] (zlen a + zlen x) Hr) as (s1 & E1 & H1); [rewrite length_app; lia|lia|]. rewrite E1. cbn [mbind option_bind].
  rewrite <- app_assoc, app_nil_r in H1.
  apply (poke_rep s1 a u x b); [done|done|lia].
Qed.

Lemma Insert_char_spec s a b c : rep s (a ++ b) -> gives (Insert_char malloc s (zlen a) c) (a ++ c :: b).
Proof. intros H. exact (Insert_str_spec s a b [c] H). Qed.

Lemma Shorten_spec s l n : rep s l -> 0 <= n -> gives (Shorten malloc s n) (firstn (length l - Z.to_nat n) l).
Proof.
  intros H Hn. unfold Shorten. rewrite (rep_length s l H). destruct (SetLength_ok s l (Z.max 0 (zlen l - n)) H ltac:(lia)) as (s' & g & -> & Hr & Hg).
  cbn [mbind option_bind]. exists s'. split; [done|]. replace (length l - Z.to_nat n)%nat with (Z.to_nat (Z.max 0 (zlen l - n))) by lia.
  rewrite length_app, length_firstn in Hg. destruct g; [by rewrite app_nil_r in Hr|cbn in Hg; lia].
Qed.

Definition closes (c : Z) : bool := (s8 c =? chr ",") || (s8 c =? chr ".") || (s8 c =? chr ";").

Lemma EndClosure_spec s l c k : rep s (l ++ [c]) -> exists s', EndClosure malloc s k = Some (closes c, s') /\
  rep s' (if closes c then l ++ [k] else l ++ [c; k]).
Proof.
  intros H. unfold EndClosure. rewrite (rep_length s _ H), length_app. cbn [length].
  replace (Z.of_nat (length l + 1) - 1) with (zlen l) by lia.
  rewrite (fetch_rep s l [c] []) by (by rewrite ?app_nil_r). cbn [mbind option_bind nth].
  fold (closes c). destruct (closes c).
  - destruct (poke_rep s l [c] [k] [] (zlen l)) as (s' & -> & Hr); [by rewrite app_nil_r|done|done|]. cbn [mbind option_bind].
    exists s'. by rewrite app_nil_r in Hr.
  - destruct (append_char_spec s _ k H) as (s' & -> & Hr). cbn [mbind option_bind]. exists s'. by rewrite <- app_assoc in Hr.
Qed.

Lemma assign_own_spec s a x b : rep s (a ++ x ++ b) -> zlen x <= zlen a ->
  gives (assign_own malloc s (zlen a) (zlen x)) x.
Proof.
  intros H Hov. unfold assign_own. destruct x as [|c x].
  - cbn [length]. change (Z.of_nat 0 =? 0) with true. cbn iota. exact (assign_spec s _ [] H).
  - assert (Hpos : 0 < zlen (c :: x)) by (cbn [length]; lia). revert H Hov Hpos. generalize (c :: x); clear c x; intros y H Hov Hpos.
    rewrite (proj2 (Z.eqb_neq (zlen y) 0)) by lia.
    rewrite (fetch_rep s a y b _ _ H) by done. cbn [mbind option_bind].
    destruct H as (H1 & H2 & [[_ E]|(t & E & El)]); [apply (f_equal length) in E; rewrite !length_app in E; cbn in E; lia|]. rewrite !length_app in El.
    rewrite (proj2 (Z.leb_le (zlen y + 1) _)) by lia. rewrite (proj2 (Z.leb_le (zlen y) _) Hov). unfold poke, with_len, block in *. cbn [s_p s_len s_reserved] in *. rewrite E in *.
    set (B := (a ++ y ++ b) ++ 0 :: t) in *.
    destruct (cut_block B 0 (zlen y) ltac:(lia) ltac:(lia) ltac:(lia)) as (u & v & w & -> & Hu & Hv). destruct u; [|cbn in Hu; lia].
    cbn [app] in *. rewrite length_app in H2. rewrite (blit_front v y w) by (done || lia).
    cbn [mbind option_bind app s_p s_len s_reserved]. destruct w as [|d w]; [cbn in H2; lia|].
    rewrite (blit_one y w d) by done. cbn [mbind option_bind]. eexists. split; [reflexivity|].
    apply text_rep; [done|lia|]. rewrite length_app. cbn [length] in *. lia.
Qed.

Lemma append_own_spec s a x b : rep s (a ++ x ++ b) -> gives (append_own malloc s (zlen a) (zlen x)) ((a ++ x ++ b) ++ x).
Proof. intros H. apply append_with_spec; [done|]. by apply (fetch_rep s a x b). Qed.

(** *** Replacement *)

Lemma replace_chars_spec a b l : forall tmp done_, rep tmp done_ ->
  gives (replace_chars malloc a b l tmp) (done_ ++ flat_map (fun c => if s8 c =? a then b else [c]) l).
Proof.
  induction l as [|c l IH]; intros tmp d H; cbn [replace_chars flat_map].
  - exists tmp. by rewrite app_nil_r.
  - destruct (s8 c =? a); [destruct (append_spec tmp d b H) as (t & -> & Ht)|destruct (append_char_spec tmp d c H) as (t & -> & Ht)];
      cbn [mbind option_bind]; rewrite app_assoc; by apply IH.
Qed.

Lemma Replace_cs_spec s l a b : rep s l -> zlen l < 2 ^ 31 -> zlen b < 2 ^ 31 -> gives (Replace_cs malloc s a b) (flat_map (fun c => if s8 c =? a then b else [c]) l).
Proof.
  intros H Hl Hb. unfold Replace_cs. rewrite (rep_length s l H).
  destruct (SetLength_ok String0 [] (u64 (zlen l * zlen b)) rep_0) as (t & g & -> & Ht & _); [apply u64_range|].
  cbn [mbind option_bind]. destruct (SetLength_ok t _ 0 Ht ltac:(lia)) as (t' & g' & -> & Ht' & Hg'). cbn [mbind option_bind].
  rewrite (rep_content s l H), s32_small, Nat2Z.id, firstn_all by lia. change (Z.to_nat 0) with 0%nat in *. rewrite firstn_O, app_nil_l in *.
  destruct g'; [|cbn in Hg'; lia]. by apply (replace_chars_spec a b l t' []).
Qed.

(** The reference: occurrences from the left, what is put in is not looked at. *)
Fixpoint substituted (fuel : nat) (a b l : list Z) : list Z :=
  match fuel with
  | O => l
  | S k =>
    match strstr l a with
    | None => l
    | Some i => firstn i l ++ b ++ substituted k a b (skipn (i + length a) l)
    end
  end.

Lemma is_prefix_app a l : is_prefix a l = true -> l = a ++ skipn (length a) l.
Proof.
  revert l. induction a as [|x a IH]; intros l H; [done|]. destruct l as [|y l]; [done|]. cbn [is_prefix] in H.
  apply andb_true_iff in H as [->%Z.eqb_eq H]. cbn [length skipn app]. f_equal. by apply IH.
Qed.

Lemma strstr_some l a i : strstr l a = Some i -> (i + length a <= length l)%nat /\ l = firstn i l ++ a ++ skipn (i + length a) l.
Proof.
  revert i. induction l as [|c l IH]; intros i; cbn [strstr].
  - destruct (is_prefix a []) eqn:E; [|done]. intros [= <-]. destruct a; [done|]. discriminate E.
  - destruct (is_prefix a (c :: l)) eqn:E.
    + intros [= <-]. apply is_prefix_app in E. split; [|exact E]. apply (f_equal length) in E. rewrite length_app in E. cbn [Nat.add]. lia.
    + destruct (c =? 0); [done|]. destruct (strstr l a) as [j|] eqn:Ej; [|done]. intros [= <-]. destruct (IH j eq_refl) as [H1 H2].
      cbn [length Nat.add firstn skipn app]. split; [lia|]. by f_equal.
Qed.

Lemma strstr_nil a : a <> [] -> strstr [] a = None.
Proof. by destruct a. Qed.

Lemma FindString_at s d l a : rep s (d ++ l) -> a <> [] ->
  sb_FindString s a (zlen d) = match strstr l a with Some i => s32 (zlen d + Z.of_nat i) | None => -1 end.
Proof.
  intros H Ha. unfold sb_FindString. rewrite (rep_length s _ H), (rep_content s _ H), length_app, Nat2Z.id.
  rewrite skipn_app, skipn_all, Nat.sub_diag, skipn_O, app_nil_l. destruct (Z.ltb_spec (zlen d) (Z.of_nat (length d + length l))); [done|].
  destruct l; [by rewrite strstr_nil|cbn in *; lia].
Qed.

Lemma replace_all_spec a b : a <> [] -> forall fuel l d tmp n, rep tmp (d ++ l) -> (length l < fuel)%nat ->
  zlen (d ++ substituted fuel a b l) < 2 ^ 31 ->
  exists s n', replace_all_loop malloc fuel a b tmp (zlen d) n = Some (s, n') /\ rep s (d ++ substituted fuel a b l).
Proof.
  intros Ha. induction fuel as [|fuel IH]; intros l d tmp n H Hf Hs; [lia|]. cbn [replace_all_loop substituted] in *.
  rewrite (FindString_at tmp d l a H Ha). destruct (strstr l a) as [i|] eqn:E.
  - destruct (strstr_some l a i E) as [Hi El]. cbv zeta. rewrite !length_app, length_firstn in Hs. rewrite s32_small by lia. rewrite (proj2 (Z.ltb_ge _ _)) by lia.
    rewrite (rep_content tmp _ H).
    replace (Z.to_nat (zlen d + Z.of_nat i)) with (length d + i)%nat by lia.
    rewrite firstn_app, firstn_all2 by lia. replace (length d + i - length d)%nat with i by lia.
    rewrite skipn_app, skipn_all2 by lia. replace (length d + i + length a - length d)%nat with (i + length a)%nat by lia.
    cbn [app]. rewrite <- app_assoc.
    destruct (assign_expr_spec tmp (d ++ firstn i l ++ b ++ skipn (i + length a) l)) as (t & Et & Ht). rewrite Et. cbn [mbind option_bind].
    replace (zlen d + Z.of_nat i + zlen b) with (zlen (d ++ firstn i l ++ b)) by (rewrite !length_app, length_firstn; lia).
    destruct (IH (skipn (i + length a) l) (d ++ firstn i l ++ b) t (u32 (n + 1))) as (s & n' & E' & Hs').
    + by rewrite <- !app_assoc.
    + rewrite length_skipn. assert (0 < length a)%nat by (destruct a; [done|cbn; lia]). lia.
    + rewrite !length_app, length_firstn. lia.
    + exists s, n'. rewrite <- !app_assoc in Hs'. done.
  - cbv zeta. change (-1 <? 0) with true. cbn iota. by exists tmp, n.
Qed.

Lemma Replace_all_spec s l a b : rep s l -> a <> [] -> zlen (substituted (S (length l)) a b l) < 2 ^ 31 ->
  exists s' n, Replace_all malloc s a b = Some (s', n) /\ rep s' (substituted (S (length l)) a b l).
Proof.
  intros H Ha Hs. unfold Replace_all. rewrite (rep_content s l H). destruct a as [|x a]; [done|].
  destruct (assign_spec String0 [] l rep_0) as (t & -> & Ht). cbn [mbind option_bind].
  exact (replace_all_spec (x :: a) b Ha (S (length l)) l [] t 0 Ht ltac:(lia) Hs).
Qed.

(** *** Escaping *)

Definition escaped (set : cset) (esc : Z) (l : list Z) : list Z := flat_map (escape_one set esc) l.

Lemma length_escaped set esc l : zlen (escaped set esc l) = zlen l + zlen (List.filter (needs_escape set esc) l).
Proof.
  unfold escaped. induction l as [|c l IH]; [done|]. cbn [flat_map List.filter]. rewrite length_app, Nat2Z.inj_add, IH. unfold escape_one.
  destruct (needs_escape set esc c); cbn [length]; lia.
Qed.

Lemma escaped_none set esc l : List.filter (needs_escape set esc) l = [] -> escaped set esc l = l.
Proof.
  unfold escaped. induction l as [|c l IH]; [done|]. cbn [flat_map List.filter].
  destruct (needs_escape set esc c) eqn:E; [done|]. intros H. rewrite IH by done. unfold escape_one. by rewrite E.
Qed.

Lemma escape_into_spec set esc l : forall s d g, rep s (d ++ g) -> zlen g = zlen (escaped set esc l) ->
  gives (escape_into set esc l s (zlen d)) (d ++ escaped set esc l).
Proof.
  induction l as [|c l IH]; intros s d g H Hg; cbn [escape_into].
  - cbn in Hg. destruct g; [|cbn in Hg; lia]. by exists s.
  - unfold escaped in Hg |- *. cbn [flat_map] in *. rewrite length_app in Hg.
    destruct (cut_block g 0 (zlen (escape_one set esc c)) ltac:(lia) ltac:(lia) ltac:(lia)) as (u & x & w & -> & Hu & Hx).
    destruct u; [|cbn in Hu; lia]. cbn [app] in *. rewrite length_app in Hg.
    destruct (poke_rep s d x (escape_one set esc c) w (zlen d) H eq_refl ltac:(lia)) as (s' & -> & Hs'). cbn [mbind option_bind].
    rewrite app_assoc in Hs'. replace (zlen d + zlen (escape_one set esc c)) with (zlen (d ++ escape_one set esc c)) by (rewrite length_app; lia).
    rewrite app_assoc. apply (IH s' _ w Hs'). unfold escaped. lia.
Qed.

Lemma EscapeCharacters_in_spec s l input set esc : rep s l -> gives (EscapeCharacters_in malloc s input set esc) (escaped set esc input).
Proof.
  intros H. unfold EscapeCharacters_in. pose proof (length_escaped set esc input) as Hl.
  destruct (Z.eqb_spec (zlen (List.filter (needs_escape set esc) input)) 0) as [E|E].
  - rewrite escaped_none by (by apply length_zero_iff_nil; lia). by apply (assign_spec s l).
  - destruct (SetLength_ok s l (zlen input + zlen (List.filter (needs_escape set esc) input)) H ltac:(lia)) as (s' & g & -> & Hr & Hg).
    cbn [mbind option_bind]. apply (escape_into_spec set esc input s' [] _ Hr). lia.
Qed.

Lemma escape_back_spec set esc : forall l s mid d, rep s (l ++ mid ++ d) ->
  length mid = length (List.filter (needs_escape set esc) l) ->
  gives (escape_back set esc (length l) s (zlen l + zlen mid - 1)) (escaped set esc l ++ d).
Proof.
  induction l as [|c l IH] using rev_ind; intros s mid d H Hm.
  - cbn in Hm. destruct mid; [|done]. by exists s.
  - rewrite length_app, Nat.add_comm. cbn [length Nat.add escape_back]. rewrite List.filter_app, length_app in Hm. cbn [List.filter] in Hm.
    rewrite <- app_assoc in H. rewrite (fetch_rep s l [c] (mid ++ d)) by done. cbn [mbind option_bind nth]. cbv zeta.
    assert (Ee : escaped set esc (l ++ [c]) = escaped set esc l ++ escape_one set esc c).
    { unfold escaped. rewrite flat_map_app. cbn [flat_map]. by rewrite app_nil_r. }
    rewrite Ee, <- app_assoc. unfold escape_one. destruct (needs_escape set esc c) eqn:En; cbn [length] in Hm.
    + assert (Hc : exists mid' u v, [c] ++ mid = mid' ++ [u; v] /\ length mid' = length (List.filter (needs_escape set esc) l)).
      { destruct mid as [|v mid _] using rev_ind; [cbn in Hm; lia|]. rewrite length_app in Hm. cbn [length] in Hm.
        destruct (exists_last (l := [c] ++ mid) ltac:(done)) as (m' & u & E). exists m', u, v. rewrite app_assoc, E, <- app_assoc. split; [done|].
        apply (f_equal length) in E. rewrite !length_app in E. cbn [length] in E. lia. }
      destruct Hc as (mid' & u & v & E & Hm'). assert (Elen := f_equal length E). rewrite !length_app in Elen. cbn [length] in Elen.
      rewrite (app_assoc [c]), E in H. set (x1 := u8 (Mapped set (s8 c))). set (x0 := u8 esc).
      destruct (poke_rep s (l ++ mid' ++ [u]) [v] [x1] d (Z.of_nat (S (length l)) + zlen mid - 1)) as (s1 & -> & H1);
        [by rewrite <- !app_assoc in *|rewrite !length_app; cbn [length]; lia|done|]. cbn [mbind option_bind].
      destruct (poke_rep s1 (l ++ mid') [u] [x0] ([x1] ++ d) (Z.of_nat (S (length l)) + zlen mid - 1 - 1)) as (s2 & -> & H2);
        [by rewrite <- !app_assoc in *|rewrite !length_app; lia|done|]. cbn [mbind option_bind].
      replace (Z.of_nat (S (length l)) + zlen mid - 1 - 2) with (zlen l + zlen mid' - 1) by lia.
      rewrite <- app_assoc in H2. exact (IH s2 mid' ([x0; x1] ++ d) H2 Hm').
    + destruct (poke_rep s (l ++ removelast ([c] ++ mid)) [List.last ([c] ++ mid) 0] [c] d (Z.of_nat (S (length l)) + zlen mid - 1)) as (s1 & -> & H1).
      * rewrite <- app_assoc, (app_assoc (removelast _)), <- app_removelast_last by done. by rewrite <- app_assoc.
      * assert (Er := f_equal length (app_removelast_last 0 (l := [c] ++ mid) ltac:(done))). rewrite !length_app in Er. cbn [length] in Er.
        rewrite length_app. lia.
      * done.
      * cbn [mbind option_bind].
        assert (Er := f_equal length (app_removelast_last 0 (l := [c] ++ mid) ltac:(done))). rewrite !length_app in Er. cbn [length] in Er.
        replace (Z.of_nat (S (length l)) + zlen mid - 1 - 1) with (zlen l + zlen (removelast ([c] ++ mid)) - 1) by lia.
        rewrite <- app_assoc in H1. apply (IH s1 _ _ H1). lia.
Qed.

Lemma EscapeCharacters_spec s l set esc : rep s l -> gives (EscapeCharacters malloc s set esc) (escaped set esc l).
Proof.
  intros H. unfold EscapeCharacters. rewrite (rep_length s l H), (rep_content s l H).
  destruct (Z.eqb_spec (zlen (List.filter (needs_escape set esc) l)) 0) as [E|E].
  - rewrite escaped_none by (by apply length_zero_iff_nil; lia). by exists s.
  - destruct (grown s l (zlen (List.filter (needs_escape set esc) l)) _ H eq_refl ltac:(lia)) as (s' & g & -> & Hr & Hg).
    cbn [mbind option_bind]. rewrite <- (app_nil_r g) in Hr.
    pose proof (escape_back_spec set esc l s' g [] Hr ltac:(lia)) as Hb. rewrite app_nil_r, Hg in Hb. by rewrite Nat2Z.id.
Qed.

Lemma unescape_into_spec f esc x fuel : forall l s d g, rep s (d ++ g) -> (length l < fuel)%nat ->
  (length l <= length g)%nat -> g <> [] ->
  exists s' g', unescape_into f esc x fuel l s (zlen d) = Some (s', zlen (d ++ unescaped f esc x fuel l)) /\
    rep s' (d ++ unescaped f esc x fuel l ++ g') /\ length (unescaped f esc x fuel l ++ g') = length g.
Proof.
  induction fuel as [|fuel IH]; intros l s d g H Hf Hg Hne; [lia|].
  destruct g as [|y g]; [done|].
  assert (Hput : forall v, exists s', poke s (zlen d) [v] = Some s' /\ rep s' ((d ++ [v]) ++ g)).
  { intros v. destruct (poke_rep s d [y] [v] g (zlen d) H eq_refl eq_refl) as (s' & E & Hr). exists s'. by rewrite <- app_assoc. }
  assert (Hlen : forall v, zlen d + 1 = zlen (d ++ [v])) by (intros v; rewrite length_app; cbn; lia).
  assert (Hlast : forall c, exists s' g', (if s8 c =? esc then Some (s, zlen d) else s ← poke s (zlen d) [c]; Some (s, zlen d + 1)) =
      Some (s', zlen (d ++ (if s8 c =? esc then [] else [c]))) /\ rep s' (d ++ (if s8 c =? esc then [] else [c]) ++ g') /\
      length ((if s8 c =? esc then [] else [c]) ++ g') = length (y :: g)).
  { intros c. destruct (s8 c =? esc).
    - exists s, (y :: g). by rewrite app_nil_r.
    - destruct (Hput c) as (s' & -> & Hr). cbn [mbind option_bind]. rewrite (Hlen c). exists s', g. by rewrite <- app_assoc in Hr. }
  destruct l as [|c [|e t]]; cbn [unescape_into unescaped nth]; cbv zeta; [exact (Hlast x)|exact (Hlast c)|].
  assert (Hstep : forall v rest, (length rest < fuel)%nat -> (length rest <= length g)%nat -> g <> [] ->
    exists s' g', (s ← poke s (zlen d) [v]; unescape_into f esc x fuel rest s (zlen d + 1)) =
      Some (s', zlen (d ++ v :: unescaped f esc x fuel rest)) /\ rep s' (d ++ (v :: unescaped f esc x fuel rest) ++ g') /\
      length ((v :: unescaped f esc x fuel rest) ++ g') = length (y :: g)).
  { intros v rest H1 H2 H3. destruct (Hput v) as (s1 & -> & Hr). cbn [mbind option_bind]. rewrite (Hlen v).
    destruct (IH rest s1 (d ++ [v]) g Hr H1 H2 H3) as (s' & g' & E & Hr' & Hl). exists s', g'. rewrite <- !app_assoc in *.
    split; [done|]. split; [done|]. cbn [app length]. by rewrite Hl. }
  cbn [length] in *. destruct (s8 c =? esc); apply Hstep; cbn [length]; try lia; intros ->; cbn in Hg; lia.
Qed.

Lemma UnescapeCharacters_in_spec s l input x f esc : rep s l -> input <> [] ->
  gives (UnescapeCharacters_in malloc s input x f esc) (unescaped f esc x (S (length input)) input).
Proof.
  intros H Hne. unfold UnescapeCharacters_in.
  destruct (SetLength_ok s l (zlen input) H ltac:(lia)) as (s' & g & -> & Hr & Hg). cbn [mbind option_bind].
  set (G := firstn _ _ ++ g) in *.
  destruct (unescape_into_spec f esc x (S (length input)) input s' [] G Hr ltac:(lia) ltac:(lia)) as (s1 & g1 & E & Hr1 & Hl1).
  { intros EG. rewrite EG in Hg. destruct input; [done|cbn in Hg; lia]. }
  change (zlen []) with 0 in E. rewrite E. cbn [mbind option_bind app] in *. set (u := unescaped _ _ _ _ _) in *.
  destruct Hr1 as (H1 & H2 & [[_ E1]|(t & E1 & El)]).
  - apply (f_equal length) in E1. rewrite Hl1 in E1. destruct input; [done|]. cbn [length] in *. lia.
  - assert (Hin : exists h w, g1 ++ 0 :: t = h :: w) by (destruct g1; cbn [app]; eauto). destruct Hin as (h & w & Eh).
    unfold poke, with_len, block in *. cbn [s_p s_len s_reserved] in *. rewrite E1, <- app_assoc, Eh in *.
    rewrite (blit_one u w h 0) by done. cbn [mbind option_bind]. eexists. split; [reflexivity|].
    rewrite length_app in El. apply text_rep; [done|lia|]. rewrite !length_app in *. cbn [length] in *. lia.
Qed.

(** *** Sequences of operations *)

Inductive sop :=
| OAssign (x : list Z) | OAssignOwn (off n : nat) | OAssignExpr (x : list Z)
| OAppend (x : list Z) | OAppendOwn (off n : nat) | OChar (c : Z)
| OInsert (pos : nat) (x : list Z) | OInsertChar (pos : nat) (c : Z) | OShorten (n : Z) | OClose (k : Z)
| OReplaceChar (a : Z) (b : list Z) | OReplace (a b : list Z)
| OEscape (set : cset) (esc : Z) | OEscapeIn (x : list Z) (set : cset) (esc : Z)
| OUnescapeIn (x : list Z) (behind : Z) (f : Z -> Z) (esc : Z).

Definition run_sop (o : sop) (s : string) : option string :=
  match o with
  | OAssign x => sb_assign malloc s x
  | OAssignOwn off n => assign_own malloc s (Z.of_nat off) (Z.of_nat n)
  | OAssignExpr x => sb_assign_expr malloc s x
  | OAppend x => sb_append malloc s x
  | OAppendOwn off n => append_own malloc s (Z.of_nat off) (Z.of_nat n)
  | OChar c => append_char malloc s c
  | OInsert pos x => Insert_str malloc s (Z.of_nat pos) x
  | OInsertChar pos c => Insert_char malloc s (Z.of_nat pos) c
  | OShorten n => Shorten malloc s n
  | OClose k => '(_, s) ← EndClosure malloc s k; Some s
  | OReplaceChar a b => Replace_cs malloc s a b
  | OReplace a b => '(s, _) ← Replace_all malloc s a b; Some s
  | OEscape set esc => EscapeCharacters malloc s set esc
  | OEscapeIn x set esc => EscapeCharacters_in malloc s x set esc
  | OUnescapeIn x behind f esc => UnescapeCharacters_in malloc s x behind f esc
  end.

Definition spec_sop (o : sop) (l : list Z) : list Z :=
  match o with
  | OAssign x | OAssignExpr x => x
  | OAssignOwn off n => firstn n (skipn off l)
  | OAppend x => l ++ x
  | OAppendOwn off n => l ++ firstn n (skipn off l)
  | OChar c => l ++ [c]
  | OInsert pos x => firstn pos l ++ x ++ skipn pos l
  | OInsertChar pos c => firstn pos l ++ c :: skipn pos l
  | OShorten n => firstn (length l - Z.to_nat n) l
  | OClose k => if closes (List.last l 0) then removelast l ++ [k] else l ++ [k]
  | OReplaceChar a b => flat_map (fun c => if s8 c =? a then b else [c]) l
  | OReplace a b => match a with [] => l | _ => substituted (S (length l)) a b l end
  | OEscape set esc => escaped set esc l
  | OEscapeIn x set esc => escaped set esc x
  | OUnescapeIn x behind f esc => unescaped f esc behind (S (length x)) x
  end.

Definition allowed (o : sop) (l : list Z) : Prop :=
  match o with
  | OAssignOwn off n => (off + n <= length l)%nat /\ (n <= off)%nat
  | OAppendOwn off n => (off + n <= length l)%nat
  | OInsert pos _ | OInsertChar pos _ => (pos <= length l)%nat
  | OShorten n => 0 <= n
  | OClose _ => l <> []
  | OReplaceChar _ b => zlen l < 2 ^ 31 /\ zlen b < 2 ^ 31
  | OReplace _ _ => zlen (spec_sop o l) < 2 ^ 31
  | OUnescapeIn x _ _ _ => x <> []
  | _ => True
  end.

Lemma own_parts (l : list Z) off n : (off + n <= length l)%nat ->
  l = firstn off l ++ firstn n (skipn off l) ++ skipn n (skipn off l) /\
  Z.of_nat off = zlen (firstn off l) /\ Z.of_nat n = zlen (firstn n (skipn off l)).
Proof. intros H. rewrite !firstn_skipn, !length_firstn, length_skipn. split; [done|]. lia. Qed.

Lemma sop_step o s l : rep s l -> allowed o l -> gives (run_sop o s) (spec_sop o l).
Proof.
  intros H Ha. destruct o; cbn [run_sop spec_sop allowed] in *.
  - by apply (assign_spec s l).
  - destruct Ha as [Ha Hov]. destruct (own_parts l off n Ha) as (E & E1 & E2). rewrite E in H at 1. apply assign_own_spec in H; [|lia].
    by rewrite E1, E2.
  - apply assign_expr_spec.
  - by apply append_spec.
  - destruct (own_parts l off n Ha) as (E & -> & ->). rewrite E in H at 1. apply append_own_spec in H. by rewrite <- E in H.
  - by apply append_char_spec.
  - replace (Z.of_nat pos) with (zlen (firstn pos l)) by (rewrite length_firstn; lia). apply Insert_str_spec. by rewrite firstn_skipn.
  - replace (Z.of_nat pos) with (zlen (firstn pos l)) by (rewrite length_firstn; lia). apply Insert_char_spec. by rewrite firstn_skipn.
  - by apply Shorten_spec.
  - rewrite (app_removelast_last 0 Ha) in H. destruct (EndClosure_spec s _ _ k H) as (s' & -> & Hr). cbn [mbind option_bind].
    exists s'. split; [done|]. destruct (closes _); [done|]. rewrite (app_removelast_last 0 Ha) at 1. by rewrite <- app_assoc.
  - destruct Ha. by apply Replace_cs_spec.
  - destruct a as [|c a]; [by exists s|]. destruct (Replace_all_spec s l (c :: a) b H ltac:(done) Ha) as (s' & n & -> & Hr). by exists s'.
  - by apply EscapeCharacters_spec.
  - by apply (EscapeCharacters_in_spec s l).
  - by apply (UnescapeCharacters_in_spec s l).
Qed.

Fixpoint run_sops (os : list sop) (s : string) : option string :=
  match os with [] => Some s | o :: t => s ← run_sop o s; run_sops t s end.
Fixpoint all_allowed (os : list sop) (l : list Z) : Prop :=
  match os with [] => True | o :: t => allowed o l /\ all_allowed t (spec_sop o l) end.
End Spec.

(** *** Undoing an escape *)

Lemma unescaped_escaped set esc x f : s8 (u8 esc) = esc ->
  forall l fuel, (forall c, In c l -> needs_escape set esc c = true -> f (u8 (Mapped set (s8 c))) = c) ->
  l <> [] -> (length (escaped set esc l) < fuel)%nat ->
  unescaped f esc x fuel (escaped set esc l) =
  l ++ (if needs_escape set esc (List.last l 0) && negb (s8 x =? esc) then [x] else []).
Proof.
  intros Hesc. induction l as [|c l IH]; intros fuel Hf Hne Hlen; [done|]. unfold escaped in *. cbn [flat_map] in *.
  rewrite length_app in Hlen. destruct fuel as [|fuel]; [lia|].
  assert (IH' : forall fuel, (length (flat_map (escape_one set esc) l) < fuel)%nat -> l <> [] ->
    unescaped f esc x fuel (flat_map (escape_one set esc) l) =
    l ++ (if needs_escape set esc (List.last (c :: l) 0) && negb (s8 x =? esc) then [x] else [])).
  { intros k Hk Hl. rewrite IH by (auto using in_cons). by destruct l. }
  assert (Hone : escape_one set esc c = if needs_escape set esc c then [u8 esc; u8 (Mapped set (s8 c))] else [c]) by done.
  rewrite Hone in *. destruct (needs_escape set esc c) eqn:En; cbn [app length] in *.
  - cbn [unescaped]. rewrite Hesc, Z.eqb_refl. rewrite (Hf c ltac:(by left) En). f_equal. destruct l as [|d l].
    + cbn [List.last flat_map app]. rewrite En. destruct fuel as [|fuel]; [lia|]. cbn [unescaped]. by destruct (s8 x =? esc).
    + apply IH'; [lia|done].
  - assert (Hc : (s8 c =? esc) = false) by (unfold needs_escape in En; by apply orb_false_iff in En as [? _]).
    destruct l as [|d l].
    + cbn [flat_map unescaped List.last app]. by rewrite Hc, En.
    + assert (Hnn : flat_map (escape_one set esc) (d :: l) <> []).
      { cbn [flat_map]. unfold escape_one at 1. by destruct (needs_escape set esc d). }
      specialize (IH' fuel ltac:(lia) ltac:(done)). revert IH' Hnn. cbn [app]. generalize (flat_map (escape_one set esc) (d :: l)) as t.
      intros [|e t] IH' Hnn; [done|]. cbn [unescaped]. by rewrite Hc, IH'.
Qed.

(** ** Definitions: comments *)

(** [TrimCodeComments]: the output block is as large as the code, [before] the
    byte in front of it. [cap] is its size. *)
Section Comments.
Context (m : mem) (e before cap : Z).

Definition push (out : list Z) (c : Z) : option (list Z) := if zlen out <? cap then Some (out ++ [c]) else None.
Fixpoint back_slashes_of (n : nat) (s : Z) : nat :=
  match n with O => O | S k => if sc m s =? 92 then S (back_slashes_of k (s - 1)) else O end.

(** The copy of a quoted text, from behind its mark; [None] within: the text ended. *)
Fixpoint copy_quoted (n : nat) (q p : Z) (out : list Z) : option (list Z * option Z) :=
  match n with
  | O => Some (out, None)
  | S k =>
    out ← push out (m p);
    if (sc m p =? q) && Nat.even (back_slashes_of (Z.to_nat p) (p - 1)) then Some (out, Some (p + 1))
    else copy_quoted k q (p + 1) out
  end.
Definition nl (c : Z) : bool := (c =? 13) || (c =? 10).
Definition skip_nl (stop : bool) (p : Z) : Z := scan (fun c => Bool.eqb (nl c) stop) (Z.to_nat (e - p)) m p.
Fixpoint block_end (n : nat) (p : Z) : Z :=
  match n with
  | O => p
  | S k => if (sc m (p - 1) =? chr "*") && (sc m p =? chr "/") then p else block_end k (p + 1)
  end.

Fixpoint comments_loop (fuel : nat) (p : Z) (out : list Z) : option (list Z) :=
  match fuel with
  | O => None
  | S f =>
    if p <? e - 1 then
      let c := sc m p in
      if (c =? c_quot) || (c =? c_apos) then
        out ← push out (m p);
        '(out, next) ← copy_quoted (Z.to_nat (e - (p + 1))) c (p + 1) out;
        match next with Some p => comments_loop f p out | None => Some out end
      else if (c =? chr "/") && (sc m (p + 1) =? chr "/") then
        let p := skip_nl false (p + 2) in
        let p := if nl (s8 (List.last out before)) then skip_nl true p else p in
        comments_loop f p out
      else
        let p := if (c =? chr "/") && (sc m (p + 1) =? chr "*") then block_end (Z.to_nat (e - (p + 2))) (p + 2) + 1 else p in
        out ← push out (m p); comments_loop f (p + 1) out
    else if p <? e then push out (m p) else Some out
  end.
End Comments.

Definition TrimCodeComments (malloc : Z -> option (list Z)) (s : string) (m : mem) (code : ref) (before : Z) : option string :=
  if IsEmpty code then sb_Empty malloc s
  else
    '(_, output) ← sb_SetLength malloc String0 (GetLength code);
    out ← comments_loop m (re code) before (zlen (block output)) (S (str_len code)) (rb code) [];
    sb_assign malloc s out.

(** ** Properties *)

(** C36: Along any sequence of operations - assignments, appends, insertions,
    replacements, escapes, closing marks - while allocations succeed,
    [rt::String] never leaves its block, stays zero-terminated within the size
    it believes in, and holds the text the list operations give.  The
    conditions on the arguments: positions and own parts lie in the text, an own
    part is assigned only if it does not overlap its new place (the copy is a
    [memcpy]), a text has a last character to close and is shortened by no
    negative number, the text to unescape from is not empty, and the text in
    which a character is replaced, what is put for it and the result of
    replacing a text are shorter than [2^31], positions being [int]s. *)
Theorem String_ops malloc : (forall n, 0 <= n -> exists b, malloc n = Some b /\ zlen b = n) ->
  forall os s l, rep s l -> all_allowed os l ->
  exists s', run_sops malloc os s = Some s' /\ rep s' (fold_left (fun l o => spec_sop o l) os l) /\
    content s' = fold_left (fun l o => spec_sop o l) os l.
Proof.
  intros Hm. induction os as [|o os IH]; intros s l H Ha; cbn [run_sops all_allowed fold_left] in *.
  - exists s. split; [done|]. split; [done|by apply rep_content].
  - destruct Ha as [Ha Has]. destruct (sop_step malloc Hm o s l H Ha) as (s1 & -> & H1). cbn [mbind option_bind]. by apply IH.
Qed.

Lemma String_ops_witness :
  let malloc := fun n => Some (repeat 0 (Z.to_nat n)) in
  let os := [OAssign (str "ab"); OAppendOwn 0 2; OAssignOwn 2 2; OReplaceChar (chr "a") (str "aa"); OInsert 1 (str "--"); OReplace (str "b") (str "xyz"); OChar (chr ","); OClose (chr "]"); OShorten 1] in
  exists s', run_sops malloc os String0 = Some s' /\ rep s' (fold_left (fun l o => spec_sop o l) os []) /\
    content s' = fold_left (fun l o => spec_sop o l) os [].
Proof.
  apply (String_ops (fun n => Some (repeat 0 (Z.to_nat n)))).
  - intros n Hn. eexists. split; [reflexivity|]. rewrite repeat_length. lia.
  - apply rep_0.
  - cbn [all_allowed allowed]. repeat split; try (vm_compute; congruence); vm_compute; lia.
Defined.

(** What [EscapeCharacters] writes, in place or from another text,
    [UnescapeCharacters] reads back, when the reader's table inverts the
    writer's - with the byte behind the text appended if the last character had
    to be escaped. *)
Theorem escape_roundtrip malloc set esc f x s l : (forall n, 0 <= n -> exists b, malloc n = Some b /\ zlen b = n) ->
  s8 (u8 esc) = esc -> (forall c, In c l -> needs_escape set esc c = true -> f (u8 (Mapped set (s8 c))) = c) ->
  rep s l -> l <> [] ->
  exists s1 s2, EscapeCharacters malloc s set esc = Some s1 /\
    EscapeCharacters_in malloc String0 l set esc = Some s2 /\ content s1 = content s2 /\
  exists s3, UnescapeCharacters_in malloc s (content s1) x f esc = Some s3 /\
    rep s3 (l ++ (if needs_escape set esc (List.last l 0) && negb (s8 x =? esc) then [x] else [])).
Proof.
  intros Hm Hesc Hf H Hne. destruct (EscapeCharacters_spec malloc Hm s l set esc H) as (s1 & E1 & H1).
  destruct (EscapeCharacters_in_spec malloc Hm String0 [] l set esc rep_0) as (s2 & E2 & H2).
  exists s1, s2. rewrite (rep_content s1 _ H1), (rep_content s2 _ H2). split; [done|]. split; [done|]. split; [done|].
  assert (Hne' : escaped set esc l <> []).
  { destruct l as [|c l]; [done|]. unfold escaped. cbn [flat_map]. unfold escape_one at 1. by destruct (needs_escape set esc c). }
  destruct (UnescapeCharacters_in_spec malloc Hm s l (escaped set esc l) x f esc H Hne') as (s3 & E3 & H3).
  exists s3. split; [done|]. by rewrite unescaped_escaped in H3 by (done || lia).
Qed.

Lemma escape_roundtrip_witness :
  let malloc := fun n => Some (repeat 0 (Z.to_nat n)) in
  let set := CharacterSet [c_quot] in let t := str "a\b" ++ [c_quot; chr "c"] in
  let s := mkS (Some (t ++ [0])) 6 6 in
  exists s1 s2, EscapeCharacters malloc s set (chr "\") = Some s1 /\
    EscapeCharacters_in malloc String0 t set (chr "\") = Some s2 /\ content s1 = content s2 /\
  exists s3, UnescapeCharacters_in malloc s (content s1) 7 (fun c => c) (chr "\") = Some s3 /\
    rep s3 (t ++ (if needs_escape set (chr "\") (List.last t 0) && negb (s8 7 =? chr "\") then [7] else [])).
Proof.
  apply (escape_roundtrip (fun n => Some (repeat 0 (Z.to_nat n)))).
  - intros n Hn. eexists. split; [reflexivity|]. rewrite repeat_length. lia.
  - done.
  - intros c Hc. cbn in Hc. repeat (destruct Hc as [<-|Hc]; [vm_compute; done|]). done.
  - split; [cbn; lia|]. split; [cbn; lia|]. right. by exists [].
  - done.
Defined.

(** A failed growth enlarges the size the string believes in; the append that
    goes on writes outside the block, here through the null pointer. *)
Example append_char_failure :
  sb_SetLength (fun _ => None) String0 5 = Some (false, mkS None 0 16) /\ append_char (fun _ => None) String0 65 = None.
Proof. split; reflexivity. Qed.

(** [TrimCodeComments] copies the character behind a comment as it is: a second
    comment that follows at once stays, a comment at the end of the code lets
    the byte behind the code in, and the slash of [/*/] closes what it opens. *)
Example comments_kept :
  let malloc := fun n => Some (repeat 0 (Z.to_nat n)) in
  let trim := fun t => option_map content
    (TrimCodeComments malloc String0 (mem_of 0 100 (t ++ [0])) (mkRef 100 (100 + zlen t)) 0) in
  trim (str "a /*1*/ b//c") = Some (str "a  b") /\
  trim (str "a/*1*//*2*/b") = Some (str "a/*2*/b") /\
  trim (str "x/*1*/") = Some (str "x" ++ [0]) /\
  trim (str "a/*/b*/c") = Some (str "ab*/c").
Proof. vm_compute. auto. Qed.

(** A part that overlaps its new place is copied with [memcpy] all the same. *)
Example own_part_overlaps :
  let malloc := fun n => Some (repeat 0 (Z.to_nat n)) in
  (s ← sb_assign malloc String0 (str "abcd"); assign_own malloc s 1 3) = None.
Proof. vm_compute. reflexivity. Qed.
