(* ===== verification/JsonEdit.v ===== *)
(** Rewriting JSON documents (rt/json.cpp, rt/json.h): [Override], [RemoveKeys],
    the in-line merges and [JsonBeautified].  The documents lie in memory; the
    [rt::String] they are written to is another block, given by its content. *)
From S2P Require Import Prelude Str StrScan JsonLex JsonDoc.

(** ** Definitions: removing and overriding fields *)

(** [{, "name": value] of [RemoveKeys]. *)
Definition removed_field (m : mem) (kv : kvpair) : list Z :=
  [c_nl] ++ str "  " ++ quoted (text m (k_Key kv)) ++ str ": " ++ text m (GetValueRaw m kv).
Definition remove_step (m : mem) (keys : list ref) (removed : list Z) (kv : kvpair) : list Z :=
  if existsb (ref_eq m (k_Key kv)) keys then removed
  else (match removed with [] => str "{ " | _ => removed ++ str ",  " end) ++ removed_field m kv.

(** The keys are split without merging separators; the first 256 count. *)
Definition RemoveKeys (fuel : nat) (m : mem) (source keys_to_exclude : ref) (removed : list Z) : option (list Z) :=
  match Split false m keys_to_exclude 256 (CharacterSet (str ",;|")) with
  | None => None
  | Some [] => Some (text m source)
  | Some keys =>
    let removed := fold_left (remove_step m keys) (all_pairs fuel m (Attach m source null_ref) empty_kvp) removed in
    Some (match removed with [] => str "{ }" | _ => removed ++ [c_nl; chr "}"] end)
  end.

(** [vals[key] = value]: the key that is there first stays. *)
Fixpoint upsert (m : mem) (k v : ref) (vals : list (ref * ref)) : list (ref * ref) :=
  match vals with
  | [] => [(k, v)]
  | (k', v') :: t => if ref_eq m k' k then (k', v) :: t else (k', v') :: upsert m k v t
  end.
Definition collect (m : mem) (kvs : list kvpair) (vals : list (ref * ref)) : list (ref * ref) :=
  fold_left (fun vals kv => upsert m (k_Key kv) (GetValueRaw m kv) vals) kvs vals.

Definition emit (m : mem) (derived : list Z) (kv : ref * ref) : list Z :=
  let entry := quoted (text m (fst kv)) ++ str " : " ++ text m (snd kv) in
  match derived with
  | [] => str "{ " ++ entry
  | _ => derived ++ chr "," :: c_nl :: str "  " ++ entry
  end.
Definition emit_all (m : mem) (vals : list (ref * ref)) (derived : list Z) : list Z :=
  match fold_left (emit m) vals derived with
  | [] => str "{}"
  | d => d ++ [chr "}"]
  end.

(** [order] is the order in which the hash map is gone through. *)
Section Override.
Context (order : list (ref * ref) -> list (ref * ref)).

Definition Override (fuel : nat) (m : mem) (base sub : ref) (derived : list Z) (append : bool) : list Z :=
  let vals := collect m (all_pairs fuel m (Attach m base null_ref) empty_kvp) [] in
  let vals := collect m (all_pairs fuel m (Attach m sub null_ref) empty_kvp) vals in
  emit_all m (order vals) (if append then derived else []).

Definition Override_key (fuel : nat) (m : mem) (base key val_raw : ref) (derived : list Z) (append : bool) : list Z :=
  let vals := collect m (all_pairs fuel m (Attach m base null_ref) empty_kvp) [] in
  emit_all m (order (upsert m key val_raw vals)) (if append then derived else []).
End Override.

(** [JSON_OBJECT_APPEND], [JSON_OBJECT_MERGE]: the last character of [x] gives way. *)
Definition JSON_OBJECT_APPEND (x key value : list Z) : list Z :=
  match x with
  | [] => chr "{" :: quoted key ++ chr ":" :: value ++ [chr "}"]
  | _ => removelast x ++ chr "," :: quoted key ++ chr ":" :: value ++ [chr "}"]
  end.
Definition JSON_OBJECT_MERGE (x json : list Z) : list Z :=
  match x with
  | [] => json
  | _ => removelast x ++ match json with [] => [] | _ :: t => chr "," :: t end
  end.

(** ** Definitions: typed values *)

(** [GetValue(xpath, p_exist)] *)
Definition GetValue_exist (m : mem) (doc xpath : ref) (p_exist bDoNotSplitDot : bool) : ref * bool :=
  if IsEmpty xpath then (doc, p_exist)
  else match LocateValue m doc xpath bDoNotSplitDot with
       | None => (null_ref, false)
       | Some p =>
         match seek_json_object_closure m p (re doc) with
         | None => (null_ref, false)
         | Some tail => let '(p, tail) := cook_raw_value m p tail in (mkRef p tail, true)
         end
       end.

(** [ToNumber] starts with [x = 0]: the default is lost when no digit is found. *)
Definition as_number (T : int_type) (m : mem) (s : ref) (default_val : Z) : Z :=
  if IsEmpty s then default_val else snd (ToNumber T m s).
Definition kvp_GetValueAs (T : int_type) (m : mem) (kv : kvpair) (default_val : Z) : Z :=
  as_number T m (k_Value kv) default_val.
Definition GetValueAs (T : int_type) (m : mem) (doc xpath : ref) (default_val : Z) : Z :=
  as_number T m (GetValue m doc xpath null_ref false) default_val.

(** The two readings of a truth value. *)
Definition kvp_GetValueAs_bool (m : mem) (kv : kvpair) (default_val : bool) : bool :=
  let s := k_Value kv in
  if IsEmpty s then default_val else (sc m (rb s) =? chr "T") || (sc m (rb s) =? chr "t").
Definition GetValueAs_bool (m : mem) (doc xpath : ref) (default_val : bool) : bool :=
  let s := GetValue m doc xpath null_ref false in
  if IsEmpty s then default_val
  else negb (sc m (rb s) =? chr "F") && negb (sc m (rb s) =? chr "f") && negb (sc m (rb s) =? chr "0").

(** [JsonArray::CopyNumbers]: at most [n] numbers. *)
Fixpoint copy_numbers (n : nat) (T : int_type) (m : mem) (doc item : ref) : list Z :=
  match n with
  | O => []
  | S k => match GetNextObject m doc item with
           | None => []
           | Some item => snd (ToNumber T m item) :: copy_numbers k T m doc item
           end
  end.
Definition CopyNumbers (n : nat) (T : int_type) (m : mem) (doc : ref) : list Z := copy_numbers n T m doc null_ref.

(** ** Definitions: beautifying *)

(** [_AppendSpace(UINT count)]: the argument is converted to [UINT], a negative one
    to a huge number.  The loop writes at the [UINT] positions from the old length
    on; there is no result where they pass [2^32], the [UINT] sum [SetLength] gets
    being too small then. *)
Definition AppendSpace (count : Z) (out : list Z) : option (list Z) :=
  let count := u32 count in
  _ ← assert_ (zlen out + count <? 2 ^ 32);
  Some (out ++ repeat (chr " ") (Z.to_nat count)).

(** [_count_seps]: the commas outside the quotation marks. *)
Fixpoint count_seps (n : nat) (m : mem) (p : Z) (in_quote : bool) : Z :=
  match n with
  | O => 0
  | S k =>
    let c := sc m p in
    if in_quote then count_seps k m (p + 1) (negb ((c =? c_quot) && negb (sc m (p - 1) =? c_bslash)))
    else (if c =? chr "," then 1 else 0) + count_seps k m (p + 1) (c =? c_quot)
  end.

(** What [_AppendAsSingleLine] appends. *)
Fixpoint single_line (n : nat) (m : mem) (p : Z) (in_quote : bool) : list Z :=
  match n with
  | O => []
  | S k =>
    let c := sc m p in
    if in_quote then m p :: single_line k m (p + 1) (negb ((c =? c_quot) && negb (sc m (p - 1) =? c_bslash)))
    else if c <=? chr " " then single_line k m (p + 1) false
    else if (c =? chr ",") || (c =? chr ":") then m p :: chr " " :: single_line k m (p + 1) false
    else m p :: single_line k m (p + 1) (c =? c_quot)
  end.

Definition fits_line (m : mem) (doc : ref) (line_remain : Z) : bool :=
  (s32 (GetLength doc) <? line_remain) &&
  (let seps := count_seps (str_len doc) m (rb doc) false in
   (seps =? 0) || ((GetLength doc <? u32 ((seps + 1) * 16)) && (seps <=? 3))).

(** The name of a pair, with its marks if it has them. *)
Definition marked_key (m : mem) (kv : kvpair) : ref :=
  let k := k_Key kv in if sc m (rb k - 1) =? c_quot then mkRef (rb k - 1) (re k + 1) else k.

(** [SetLength(GetLength()-2)] *)
Definition drop_two (out : list Z) : list Z := firstn (length out - 2) out.

Section Beautify.
Context (Indent Line_max : Z) (m : mem).

(** One turn of the loop over the fields, and over the items; [rec] is [_Beautify]. *)
Definition put_field (rec : ref -> bool -> Z -> Z -> list Z -> option (list Z)) (depth : Z) (out : option (list Z))
    (kv : kvpair) : option (list Z) :=
  out ← out;
  let k := marked_key m kv in
  out ← AppendSpace (Indent * depth) out;
  let out := out ++ text m k ++ str ": " in
  out ← rec (GetValueRaw m kv) false depth (Line_max - Indent * depth - s32 (GetLength k) + 3) out;
  Some (out ++ [chr ","; c_nl]).
Definition put_item (rec : ref -> bool -> Z -> Z -> list Z -> option (list Z)) (depth : Z) (out : option (list Z))
    (item : ref) : option (list Z) :=
  out ← out;
  out ← AppendSpace (Indent * depth) out;
  out ← rec item true depth (Line_max - Indent * depth - 2) out;
  Some (out ++ [chr ","; c_nl]).

Fixpoint Beautify_ (fuel : nat) (json_string : ref) (newline : bool) (depth line_remain : Z) (out : list Z) : option (list Z) :=
  match fuel with
  | O => None
  | S f =>
    let doc := TrimSpace m json_string in
    if IsEmpty doc then Some out
    else if negb (sc m (rb doc) =? chr "{") && negb (sc m (rb doc) =? chr "[") then Some (out ++ text m doc)
    else if fits_line m doc line_remain then Some (out ++ single_line (str_len doc) m (rb doc) false)
    else
      out ← (if newline then Some out else AppendSpace (Indent * depth) (out ++ [c_nl]));
      let out := out ++ [m (rb doc)] in
      let depth := depth + 1 in
      let out := if depth =? 0 then out else out ++ [c_nl] in
      let n := S (str_len doc) in
      '(out, not_empty) ←
        (if sc m (rb doc) =? chr "{" then
           let kvs := all_pairs n m (Attach m doc null_ref) empty_kvp in
           out ← fold_left (put_field (Beautify_ f) depth) kvs (Some out);
           Some (out, negb (Nat.eqb (length kvs) 0))
         else
           let items := all_items n m (JsonArray m doc) null_ref in
           out ← fold_left (put_item (Beautify_ f) depth) items (Some out);
           Some (out, negb (Nat.eqb (length items) 0)));
      let depth := depth - 1 in
      let out := if not_empty : bool then drop_two out ++ [c_nl] else out in
      out ← AppendSpace (Indent * depth) out;
      Some (out ++ [m (re doc - 1)])
  end.
End Beautify.

(** [_Line_max] is 80 whatever [line_remain] is. *)
Definition Beautify (m : mem) (json_string : ref) (indent line_remain : Z) : option (list Z) :=
  Beautify_ indent 80 m (S (str_len json_string)) json_string true 0 line_remain [].

(** ** Facts: white space outside quotation marks *)

(** A text read like the code does: between quotation marks ([q]) the text ends
    at a mark that no backslash precedes.  [strip] drops the white space
    outside, [lexq] is the state at the end, [clean] excludes negative
    characters outside. *)
Definition qnext (q : bool) (prev c : Z) : bool :=
  if q then negb ((s8 c =? c_quot) && negb (s8 prev =? c_bslash)) else s8 c =? c_quot.
Fixpoint strip (q : bool) (prev : Z) (l : list Z) : list Z :=
  match l with
  | [] => []
  | c :: t => (if negb q && ws_char (s8 c) then [] else [c]) ++ strip (qnext q prev c) c t
  end.
Fixpoint lexq (q : bool) (prev : Z) (l : list Z) : bool :=
  match l with [] => q | c :: t => lexq (qnext q prev c) c t end.
Fixpoint clean (q : bool) (prev : Z) (l : list Z) : bool :=
  match l with [] => true | c :: t => (q || (0 <=? s8 c)) && clean (qnext q prev c) c t end.

Lemma strip_app a b : forall q p, strip q p (a ++ b) = strip q p a ++ strip (lexq q p a) (List.last a p) b.
Proof.
  induction a as [|c a IH]; intros q p; [done|]. cbn [app strip lexq]. rewrite IH, <- app_assoc.
  do 3 f_equal. destruct a as [|d a]; [done|]. cbn [List.last]. clear. revert d. induction a; intros d; [done|]. cbn [List.last]. apply IHa.
Qed.

Lemma lexq_app a b : forall q p, lexq q p (a ++ b) = lexq (lexq q p a) (List.last a p) b.
Proof.
  induction a as [|c a IH]; intros q p; [done|]. cbn [app lexq]. rewrite IH. f_equal.
  destruct a as [|d a]; [done|]. cbn [List.last]. clear. revert d. induction a; intros d; [done|]. cbn [List.last]. apply IHa.
Qed.

Lemma clean_app a b : forall q p, clean q p (a ++ b) = clean q p a && clean (lexq q p a) (List.last a p) b.
Proof.
  induction a as [|c a IH]; intros q p; [done|]. cbn [app lexq clean]. rewrite IH, andb_assoc. do 2 f_equal.
  destruct a as [|d a]; [done|]. cbn [List.last]. clear. revert d. induction a; intros d; [done|]. cbn [List.last]. apply IHa.
Qed.

(** A text that starts and ends outside quotation marks, and what is left of it. *)
Definition closed (l x : list Z) : Prop :=
  forall p, strip false p l = x /\ lexq false p l = false /\ clean false p l = true.

Lemma closed_nil : closed [] [].
Proof. done. Qed.

Lemma closed_app a x b y : closed a x -> closed b y -> closed (a ++ b) (x ++ y).
Proof.
  intros Ha Hb p. destruct (Ha p) as (E1 & E2 & E3). destruct (Hb (List.last a p)) as (F1 & F2 & F3).
  rewrite strip_app, lexq_app, clean_app, E1, E2, E3, F1, F2, F3. done.
Qed.

Lemma closed_ws c : ws_char (s8 c) = true -> closed [c] [].
Proof.
  intros H p. cbn [strip lexq clean negb andb orb qnext]. rewrite H. unfold ws_char in H. apply andb_true_iff in H as [H1 H2].
  rewrite H2. apply Z.leb_le in H1. change (chr " ") with 32 in H1.
  rewrite (proj2 (Z.eqb_neq (s8 c) c_quot)) by (unfold c_quot; lia). done.
Qed.

Lemma closed_char c : (chr " " <? s8 c) = true -> s8 c <> c_quot -> closed [c] [c].
Proof.
  intros H Hq p. cbn [strip lexq clean negb andb orb qnext]. apply Z.ltb_lt in H. change (chr " ") with 32 in H. unfold ws_char.
  rewrite (proj2 (Z.leb_gt (s8 c) _)) by (change (chr " ") with 32; lia). cbn [andb app].
  rewrite (proj2 (Z.eqb_neq _ _) Hq), (proj2 (Z.leb_le 0 (s8 c))) by lia. done.
Qed.

Lemma closed_text t : forallb (fun c => chr " " <? s8 c) t = true -> Forall (fun c => s8 c <> c_quot) t -> closed t t.
Proof.
  induction t as [|c t IH]; intros H Hq; [apply closed_nil|]. cbn [forallb] in H. apply andb_true_iff in H as [H1 H2].
  apply Forall_cons in Hq as [Hq1 Hq2]. apply (closed_app [c] [c]); [by apply closed_char|by apply IH].
Qed.

Lemma closed_spaces n : closed (repeat (chr " ") n) [].
Proof. induction n as [|n IH]; [apply closed_nil|]. by apply (closed_app [chr " "] [] _ []); [apply closed_ws|]. Qed.

(** Inside a string body the state stays. *)
Lemma body_kept n : forall s p, (length s <= n)%nat -> bytes s -> str_body c_quot s = true ->
  strip true p s = s /\ lexq true p s = true /\ clean true p s = true.
Proof.
  induction n as [|n IH]; intros s p Hn Hb Hs; (destruct s as [|c t]; [done|]); [cbn in Hn; lia|]. cbn [length] in Hn.
  inversion_clear Hb as [|? ? Hc Ht]. cbn [str_body strip lexq clean qnext orb negb andb app] in *.
  destruct (Z.eqb_spec c c_bslash) as [->|Hne].
  - destruct t as [|d t]; [done|]. inversion_clear Ht as [|? ? Hd Ht']. cbn [strip lexq clean qnext length] in *.
    change (s8 c_bslash =? c_quot) with false. cbn [andb negb qnext orb app]. change (s8 c_bslash =? c_bslash) with true.
    cbn [negb]. rewrite andb_false_r. cbn [negb]. destruct (IH t d ltac:(lia) Ht' Hs) as (-> & -> & ->). done.
  - apply andb_true_iff in Hs as [Hq Hs]. apply negb_true_iff in Hq. rewrite s8_eqb, Hq by (done || unfold c_quot; lia).
    cbn [andb negb]. destruct (IH t c ltac:(lia) Ht Hs) as (-> & -> & ->). done.
Qed.

(** The last character of a string is no backslash, escaped or not. *)
Definition ends_well (s : list Z) : bool := negb (s8 (List.last s c_quot) =? c_bslash).

Lemma closed_quoted s : bytes s -> str_body c_quot s = true -> ends_well s = true -> closed (quoted s) (quoted s).
Proof.
  intros Hb Hs Hl p. unfold quoted. cbn [strip lexq clean negb andb orb qnext].
  change (ws_char (s8 c_quot)) with false. change (s8 c_quot =? c_quot) with true. change (0 <=? s8 c_quot) with true.
  cbn [app andb]. rewrite strip_app, lexq_app, clean_app.
  destruct (body_kept (length s) s c_quot ltac:(lia) Hb Hs) as (-> & -> & ->).
  cbn [strip lexq clean negb andb orb qnext app]. unfold ends_well in Hl. rewrite Hl. done.
Qed.

Lemma closed_join sep sepc xs ys : closed sep sepc -> Forall2 closed xs ys -> closed (join sep xs) (join sepc ys).
Proof.
  intros Hs. induction 1 as [|x y xs ys Hx Hxs IH]; [apply closed_nil|].
  inversion Hxs; subst; [exact Hx|]. cbn [join] in *. do 2 (apply closed_app; [done|]). exact IH.
Qed.

(** ** Facts: the documents *)

(** What a beautified document keeps of [v]: its text without white space. *)
Fixpoint compact (v : jv) : list Z :=
  match v with
  | JText t => t
  | JString s => quoted s
  | JBinary _ => render v
  | JArr l => chr "[" :: join [chr ","] (map compact l) ++ [chr "]"]
  | JObj fs => chr "{" :: join [chr ","] (map (fun f => quoted (fst f) ++ chr ":" :: compact (snd f)) fs) ++ [chr "}"]
  end.

(** The documents the two-state reading is right for: printable ASCII outside
    strings, no binaries, and no string that ends in a backslash. *)
Fixpoint nice (v : jv) : bool :=
  match v with
  | JText t => forallb (fun c => chr " " <? s8 c) t
  | JString s => ends_well s
  | JBinary _ => false
  | JArr l => forallb nice l
  | JObj fs => forallb (fun f => ends_well (fst f) && nice (snd f)) fs
  end.

Definition compact_field (f : list Z * jv) : list Z := quoted (fst f) ++ chr ":" :: compact (snd f).
Definition nice_field (f : list Z * jv) : bool := ends_well (fst f) && nice (snd f).

Lemma text_unquoted t : text_ok t = true -> bytes t -> Forall (fun c => s8 c <> c_quot) t.
Proof.
  intros Ht _. unfold text_ok in Ht. apply andb_true_iff in Ht as [_ Ht]. rewrite forallb_forall in Ht.
  apply List.Forall_forall. intros c Hc E. specialize (Ht c Hc). rewrite E in Ht. discriminate Ht.
Qed.

Lemma closed_items l : Forall (fun v => bytes (render v) -> closed (render v) (compact v)) l ->
  bytes (render_items l) -> closed (render_items l) (join [chr ","] (map compact l)).
Proof.
  intros H Hb. apply closed_join; [by apply closed_char|].
  induction H as [|v l Hv Hl IH]; cbn [map]; constructor.
  - apply Hv. by apply (items_bytes v l).
  - destruct l as [|w l]; [constructor|]. apply IH. by apply (items_bytes v (w :: l)).
Qed.

Lemma closed_field f : field_ok f = true -> nice_field f = true -> bytes (render_field f) ->
  (bytes (render (snd f)) -> closed (render (snd f)) (compact (snd f))) -> closed (render_field f) (compact_field f).
Proof.
  intros Hok Hn Hb H. unfold field_ok, nice_field in *. bool_prop. unfold render_field, compact_field in *.
  apply bytes_app in Hb as [Hbk Hbv]. inversion_clear Hbk as [|? ? _ Hbk']. apply bytes_app in Hbk' as [Hbk' _].
  inversion_clear Hbv as [|? ? _ Hbv']. apply closed_app; [by apply closed_quoted|].
  apply (closed_app [chr ":"] [chr ":"]); [by apply closed_char|by apply H].
Qed.

Lemma closed_fields fs : Forall (fun f => field_ok f = true /\ nice_field f = true /\
    (bytes (render (snd f)) -> closed (render (snd f)) (compact (snd f)))) fs ->
  bytes (render_fields fs) -> closed (render_fields fs) (join [chr ","] (map compact_field fs)).
Proof.
  intros H Hb. apply closed_join; [by apply (closed_app [chr ","] [chr ","] [c_nl] []); [apply closed_char|apply closed_ws]|].
  induction H as [|f fs (H1 & H2 & H3) Hl IH]; cbn [map]; constructor.
  - apply closed_field; [done..| |done]. by apply (field_bytes f fs).
  - destruct fs as [|g fs]; [constructor|]. apply IH. by apply (field_bytes f (g :: fs)).
Qed.

(** In the three kinds of value a document may hold. *)
Lemma obj_parts fs : jv_ok (JObj fs) = true -> nice (JObj fs) = true -> bytes (render (JObj fs)) ->
  Forall (fun f => field_ok f = true /\ nice_field f = true) fs /\ (fs <> [] -> bytes (render_fields fs)).
Proof.
  intros Hok Hn Hb. cbn [jv_ok nice] in *. split.
  - rewrite forallb_forall in Hok, Hn. apply List.Forall_forall. intros f Hf. split; [by apply Hok|by apply Hn].
  - intros Hne. rewrite render_obj in Hb by done. inversion_clear Hb as [|? ? _ Hb']. inversion_clear Hb' as [|? ? _ Hb''].
    apply bytes_app in Hb'' as [Hb'' _]. by apply bytes_app in Hb'' as [? _].
Qed.

Lemma arr_parts l : jv_ok (JArr l) = true -> nice (JArr l) = true -> bytes (render (JArr l)) ->
  Forall (fun v => jv_ok v = true /\ nice v = true) l /\ bytes (render_items l).
Proof.
  intros Hok Hn Hb. cbn [jv_ok nice] in *. apply andb_true_iff in Hok as [_ Hok]. split.
  - rewrite forallb_forall in Hok, Hn. apply List.Forall_forall. intros f Hf. split; [by apply Hok|by apply Hn].
  - cbn [render] in Hb. inversion_clear Hb as [|? ? _ Hb']. by apply bytes_app in Hb' as [? _].
Qed.

Lemma closed_render v : jv_ok v = true -> nice v = true -> bytes (render v) -> closed (render v) (compact v).
Proof.
  induction v as [t|s|b|l IH|fs IH] using jv_ind; intros Hok Hn Hb.
  - apply closed_text; [done|]. by apply text_unquoted.
  - cbn [render compact] in *. inversion_clear Hb as [|? ? _ Hb']. apply bytes_app in Hb' as [Hb' _]. by apply closed_quoted.
  - done.
  - destruct (arr_parts l Hok Hn Hb) as [H1 H2]. cbn [render compact]. apply (closed_app [chr "["] [chr "["]); [by apply closed_char|].
    apply closed_app; [|by apply closed_char]. apply closed_items; [|done].
    rewrite List.Forall_forall in *. intros v Hv Hbv. destruct (H1 v Hv). by apply IH.
  - destruct (obj_parts fs Hok Hn Hb) as [H1 H2]. cbn [compact]. destruct fs as [|f fs].
    { by apply (closed_app [chr "{"] [chr "{"]); apply closed_char. }
    rewrite render_obj by done. apply (closed_app [chr "{"] [chr "{"]); [by apply closed_char|].
    apply closed_app; [|by apply closed_char]. rewrite <- (app_nil_l (join _ _)). apply (closed_app [c_nl] []); [by apply closed_ws|].
    rewrite <- (app_nil_r (join _ _)). apply closed_app; [|by apply closed_ws]. apply closed_fields; [|by apply H2].
    rewrite List.Forall_forall in *. intros g Hg. destruct (H1 g Hg) as [G1 G2]. split; [done|]. split; [done|].
    intros Hbg. unfold field_ok, nice_field in *. apply IH; [done|by bool_prop|by bool_prop|done].
Qed.

(** A line keeps what the text keeps. *)
Lemma single_line_spec l : forall m p q pl pl', holds m p l -> bytes l ->
  (q = true -> sc m (p - 1) = s8 pl /\ s8 pl' = s8 pl) -> clean q pl l = true ->
  strip q pl' (single_line (length l) m p q) = strip q pl l /\
  lexq q pl' (single_line (length l) m p q) = lexq q pl l /\ clean q pl' (single_line (length l) m p q) = true.
Proof.
  induction l as [|c l IH]; intros m p q pl pl' Hh Hb Hq Hcl; [done|]. inversion_clear Hb as [|? ? Hc Hb'].
  destruct (holds_cons_inv m p c l Hh) as [Ec Hh']. cbn [length single_line clean strip lexq] in *.
  apply andb_true_iff in Hcl as [Hc0 Hcl]. assert (Es : sc m p = s8 c) by (unfold sc; by rewrite Ec).
  assert (Hnext : forall q', (q' = true -> sc m (p + 1 - 1) = s8 c /\ s8 c = s8 c)).
  { intros q' _. replace (p + 1 - 1) with p by lia. by rewrite Es. }
  cbv zeta. rewrite Es, Ec. destruct q.
  - destruct (Hq eq_refl) as [Hp Hpl]. rewrite Hp. cbn [negb andb app strip lexq clean orb qnext] in *. rewrite Hpl in *.
    destruct (IH m (p + 1) _ c c Hh' Hb' (Hnext _) Hcl) as (-> & -> & ->). done.
  - cbn [negb andb orb qnext] in *. destruct (s8 c <=? chr " ") eqn:Ele.
    + assert (Hw : ws_char (s8 c) = true) by (unfold ws_char; by rewrite Ele, Hc0). rewrite Hw. cbn [app].
      rewrite (proj2 (Z.eqb_neq (s8 c) c_quot)) in Hcl |- * by (apply Z.leb_le in Ele; change (chr " ") with 32 in Ele; unfold c_quot; lia).
      by apply IH.
    + assert (Hw : ws_char (s8 c) = false) by (unfold ws_char; by rewrite Ele). rewrite Hw.
      destruct ((s8 c =? chr ",") || (s8 c =? chr ":")) eqn:Esep.
      * assert (Hnq : (s8 c =? c_quot) = false).
        { apply orb_true_iff in Esep as [E|E]; apply Z.eqb_eq in E; by rewrite E. }
        rewrite Hnq in *. cbn [strip lexq clean negb andb orb qnext app]. rewrite Hw, Hc0, Hnq.
        cbn [strip lexq clean negb andb orb qnext app]. change (ws_char (s8 (chr " "))) with true.
        change (0 <=? s8 (chr " ")) with true. change (s8 (chr " ") =? c_quot) with false. cbn [app andb].
        destruct (IH m (p + 1) false c (chr " ") Hh' Hb' ltac:(done) Hcl) as (-> & -> & ->). done.
      * cbn [strip lexq clean negb andb orb qnext app]. rewrite Hw, Hc0.
        destruct (IH m (p + 1) _ c c Hh' Hb' (Hnext _) Hcl) as (-> & -> & ->). done.
Qed.

Lemma closed_single_line m p l x : holds m p l -> bytes l -> closed l x -> closed (single_line (length l) m p false) x.
Proof.
  intros Hh Hb H pl. destruct (H pl) as (E1 & E2 & E3).
  destruct (single_line_spec l m p false pl pl Hh Hb ltac:(done) E3) as (-> & -> & ->). done.
Qed.

(** ** Facts: beautifying *)

Fixpoint height (v : jv) : nat :=
  match v with
  | JArr l => S (list_max (map height l))
  | JObj fs => S (list_max (map (fun f => height (snd f)) fs))
  | _ => 1
  end.

Lemma length_join_le sep xs x : In x xs -> (length x <= length (join sep xs))%nat.
Proof.
  induction xs as [|y xs IH]; [done|]. intros [->|Hx]; (destruct xs as [|z xs]; [cbn in *; try done; lia|]); rewrite join_cons, !length_app; [lia|].
  specialize (IH Hx). lia.
Qed.

Lemma length_join_count sep xs : (0 < length sep)%nat -> (length xs <= S (length (join sep xs)))%nat.
Proof.
  intros Hs. induction xs as [|y [|z xs] IH]; [cbn; lia|cbn; lia|]. rewrite join_cons, !length_app. cbn [length] in *. lia.
Qed.

Lemma height_render v : (height v <= S (length (render v)))%nat.
Proof.
  induction v as [t|s|b|l IH|fs IH] using jv_ind; cbn [height]; try lia.
  - cbn [render length]. rewrite length_app. cbn [length]. apply le_n_S, list_max_le. apply List.Forall_map.
    rewrite List.Forall_forall in *. intros v Hv. specialize (IH v Hv).
    pose proof (length_join_le [chr ","] (map render l) (render v) (in_map _ _ _ Hv)). lia.
  - destruct fs as [|f fs]; [cbn; lia|]. rewrite render_obj by done. cbn [length]. rewrite length_app. cbn [length].
    rewrite length_app. cbn [length]. apply le_n_S, list_max_le. apply List.Forall_map. rewrite List.Forall_forall in *.
    intros g Hg. specialize (IH g Hg). pose proof (length_join_le [chr ","; c_nl] (map render_field (f :: fs)) (render_field g) (in_map _ _ _ Hg)).
    unfold render_fields. unfold render_field at 1 in H. rewrite length_app in H. cbn [length] in H. lia.
Qed.

Lemma trim_id m b l c0 c1 t t' : 0 < b -> holds m b l -> l = c0 :: t -> l = t' ++ [c1] ->
  StrScan.blank (s8 c0) = false -> StrScan.blank (s8 c1) = false ->
  TrimSpace m (mkRef b (b + zlen l)) = mkRef b (b + zlen l).
Proof.
  intros Hb Hh E0 E1 H0 H1. assert (Hl : (0 < length l)%nat) by (rewrite E0; cbn; lia).
  assert (He : IsEmpty (mkRef b (b + zlen l)) = false).
  { unfold IsEmpty. cbn [rb re]. rewrite (proj2 (Z.eqb_neq b 0)), (proj2 (Z.eqb_neq (b + _) b)) by lia. done. }
  assert (Hn : str_len (mkRef b (b + zlen l)) = length l) by (unfold str_len, GetLength; cbn [rb re]; lia).
  unfold TrimSpace, TrimLeftSpace. rewrite He, Hn. cbn [rb re].
  assert (Hs : scan StrScan.blank (length l) m b = b).
  { rewrite E0 in Hh |- *. cbn [length scan]. by rewrite (sc_holds _ _ _ _ Hh), H0. }
  rewrite Hs. unfold TrimRightSpace. rewrite He, Hn. cbn [rb re]. do 2 f_equal.
  rewrite E1 in Hh |- *. rewrite length_app. cbn [length]. rewrite Nat.add_1_r. cbn [trim_right_loop].
  destruct (length t') eqn:Et; [done|]. apply holds_app in Hh as [_ Hh]. rewrite Et in Hh.
  by rewrite (sc_holds _ _ _ _ Hh), H1.
Qed.

(** The room of [n] entries, each with its separator. *)
Definition room (M : Z) (xs : list (list Z)) : Z := fold_right (fun x n => M * (zlen x + 1) + n) 0 xs.

Lemma room_nonneg M xs : 0 <= M -> 0 <= room M xs.
Proof. intros HM. induction xs as [|x xs IH]; cbn [room fold_right]; [lia|]. change (fold_right _ 0 xs) with (room M xs). nia. Qed.

Lemma room_join M sep xs : 0 <= M -> sep <> [] -> room M xs <= M * (zlen (join sep xs) + 1).
Proof.
  intros HM Hsep. assert (1 <= zlen sep) by (destruct sep; [done|cbn [length]; lia]). induction xs as [|x [|y xs] IH].
  - cbn. lia.
  - cbn [room fold_right join]. lia.
  - rewrite join_cons, !length_app. cbn [room fold_right] in *. change (fold_right _ 0 xs) with (room M xs) in *. nia.
Qed.

(** The items appended one after the other, in the room there is. *)
Lemma fold_puts {A B} (step : option (list Z) -> A -> option (list Z)) (R : A -> B -> Prop) (g h : B -> list Z) M cap l bs :
  0 <= M ->
  (forall out a b, R a b -> zlen out + M * (zlen (h b) + 1) <= cap ->
     exists s, step (Some out) a = Some (out ++ s ++ [chr ","; c_nl]) /\ closed s (g b) /\ zlen s + 2 <= M * (zlen (h b) + 1)) ->
  Forall2 R l bs -> forall out, zlen out + room M (map h bs) <= cap -> exists ss,
    fold_left step l (Some out) = Some (out ++ concat (map (fun s => s ++ [chr ","; c_nl]) ss)) /\ Forall2 closed ss (map g bs) /\
    zlen (concat (map (fun s => s ++ [chr ","; c_nl]) ss)) <= room M (map h bs).
Proof.
  intros HM Hs. induction 1 as [|a b l bs Hab Hl IH]; intros out Hc.
  - exists []. cbn. by rewrite app_nil_r.
  - cbn [map room fold_right] in *. fold (room M (map h bs)) in *. pose proof (room_nonneg M (map h bs) HM).
    destruct (Hs out a b Hab) as (s & E & Hcl & Hw); [lia|].
    assert (Hl2 : zlen (s ++ [chr ","; c_nl]) = zlen s + 2) by (rewrite length_app; cbn [length]; lia).
    destruct (IH (out ++ s ++ [chr ","; c_nl])) as (ss & E' & Hcs & Hw'); [rewrite length_app; lia|].
    exists (s :: ss). cbn [fold_left map concat]. rewrite E, E', <- app_assoc. split; [done|]. split; [by constructor|].
    rewrite length_app. lia.
Qed.

Lemma AppendSpace_small count out : 0 <= count -> zlen out + count < 2 ^ 32 ->
  AppendSpace count out = Some (out ++ repeat (chr " ") (Z.to_nat count)).
Proof. intros H1 H2. unfold AppendSpace. rewrite u32_id by lia. cbv zeta. by rewrite (proj2 (Z.ltb_lt _ _) H2). Qed.

Lemma single_line_length m n : forall p q, (length (single_line n m p q) <= 2 * n)%nat.
Proof.
  induction n as [|n IH]; intros p q; cbn [single_line]; [done|]. cbv zeta. destruct q.
  - cbn [length]. specialize (IH (p + 1) (negb ((sc m p =? c_quot) && negb (sc m (p - 1) =? c_bslash)))). lia.
  - destruct (_ <=? _); [specialize (IH (p + 1) false); lia|]. destruct (_ || _); cbn [length].
    + specialize (IH (p + 1) false). lia.
    + specialize (IH (p + 1) (sc m p =? c_quot)). lia.
Qed.

Lemma concat_puts ss : ss <> [] ->
  concat (map (fun s => s ++ [chr ","; c_nl]) ss) = join [chr ","; c_nl] ss ++ [chr ","; c_nl].
Proof.
  intros Hne. induction ss as [|s [|s' ss] IH]; [done|cbn; by rewrite app_nil_r|]. rewrite join_cons. cbn [map concat] in *.
  rewrite IH by done. by rewrite <- !app_assoc.
Qed.

Lemma drop_two_join out ss : ss <> [] ->
  drop_two (out ++ concat (map (fun s => s ++ [chr ","; c_nl]) ss)) = out ++ join [chr ","; c_nl] ss.
Proof.
  intros Hne. rewrite concat_puts, app_assoc by done. unfold drop_two. rewrite length_app. cbn [length].
  replace (length (out ++ join [chr ","; c_nl] ss) + 2 - 2)%nat with (length (out ++ join [chr ","; c_nl] ss)) by lia.
  rewrite firstn_app, firstn_all, Nat.sub_diag. apply app_nil_r.
Qed.

Lemma text_ref m r l : text m r = l -> l <> [] -> holds m (rb r) l /\ r = mkRef (rb r) (rb r + zlen l).
Proof.
  unfold text, GetLength. intros H Hne. assert (E := f_equal length H). rewrite length_mem_bytes in E.
  assert (0 < length l)%nat by (destruct l; [done|cbn; lia]). split; [unfold holds; by rewrite <- E|].
  destruct r as [p e]. cbn [rb re] in *. f_equal. lia.
Qed.

Lemma IsEmpty_at b (l : list Z) : 0 < b -> l <> [] -> IsEmpty (mkRef b (b + zlen l)) = false.
Proof.
  intros Hb Hl. assert (0 < length l)%nat by (destruct l; [done|cbn; lia]). unfold IsEmpty. cbn [rb re].
  rewrite (proj2 (Z.eqb_neq b 0)), (proj2 (Z.eqb_neq (b + _) b)) by lia. done.
Qed.

Lemma Forall2_and_r {A B} (P : A -> B -> Prop) (Q : B -> Prop) l k :
  Forall2 P l k -> Forall Q k -> Forall2 (fun a b => P a b /\ Q b) l k.
Proof. induction 1; inversion_clear 1; constructor; auto. Qed.

Lemma height_items {A} (h : A -> nat) l x fuel : (list_max (map h l) <= fuel)%nat -> In x l -> (h x <= fuel)%nat.
Proof. intros H Hx. apply list_max_le in H. rewrite List.Forall_forall in H. by apply H, in_map. Qed.

(** The room: an entry of [L] characters becomes at most [M * L], [M] counting two
    lines of blanks at the deepest level. *)
Section BeautifySpec.
Context (Indent Line_max N : Z) (m : mem) (HI : 0 <= Indent) (HN : 0 <= N).
Let M : Z := 2 * (Indent * N) + 6.

(** [_Beautify] on a document in place appends its white-space variant. *)
Definition beautified (fuel : nat) (v : jv) : Prop :=
  forall b newline depth lr out, 0 < b -> holds m b (render v) ->
  0 <= depth -> depth + Z.of_nat (height v) <= N -> zlen out + M * zlen (render v) < 2 ^ 32 ->
  exists s, Beautify_ Indent Line_max m fuel (mkRef b (b + zlen (render v))) newline depth lr out = Some (out ++ s) /\
    closed s (compact v) /\ zlen s <= M * zlen (render v).

Lemma room_pos : 6 <= M.
Proof using HI HN. unfold M. nia. Qed.

Lemma pad depth out l : 0 <= depth <= N -> zlen out + (Indent * N + l) < 2 ^ 32 -> 0 <= l ->
  0 <= Indent * depth <= Indent * N /\
  AppendSpace (Indent * depth) out = Some (out ++ repeat (chr " ") (Z.to_nat (Indent * depth))) /\
  zlen (repeat (chr " ") (Z.to_nat (Indent * depth))) = Indent * depth.
Proof using HI. intros Hd Hc Hl. assert (0 <= Indent * depth <= Indent * N) by nia. split; [done|]. split; [apply AppendSpace_small; lia|]. rewrite repeat_length. lia. Qed.

Lemma put_field_spec fuel depth out kv f : field_ok f = true -> nice_field f = true -> bytes (fst f) ->
  beautified fuel (snd f) -> 0 <= depth -> depth + Z.of_nat (height (snd f)) <= N -> shows m kv f ->
  zlen out + M * (zlen (render_field f) + 1) <= 2 ^ 32 - 1 ->
  exists s, put_field Indent Line_max m (Beautify_ Indent Line_max m fuel) depth (Some out) kv =
      Some (out ++ s ++ [chr ","; c_nl]) /\ closed s (compact_field f) /\ zlen s + 2 <= M * (zlen (render_field f) + 1).
Proof using HI HN.
  intros Hok Hn Hb Hv Hd Hd' (Hk & _ & Hraw & _ & Hq & H0 & H1) Hroom. unfold field_ok, nice_field in *. bool_prop.
  assert (Hne : fst f <> []) by (intros E; rewrite E in *; done).
  destruct (text_ref m _ _ Hk Hne) as [_ Ek].
  assert (Emk : marked_key m kv = mkRef (rb (k_Key kv) - 1) (rb (k_Key kv) + zlen (fst f) + 1)).
  { unfold marked_key. rewrite (sc_holds m _ c_quot (fst f ++ [c_quot]) Hq). change (s8 c_quot =? c_quot) with true.
    by rewrite Ek at 2. }
  assert (Elen : zlen (quoted (fst f)) = zlen (fst f) + 2) by (unfold quoted; cbn [length]; rewrite length_app; cbn; lia).
  assert (Etk : text m (marked_key m kv) = quoted (fst f)).
  { rewrite Emk. apply text_holds; cbn [rb re]; [|done]. lia. }
  destruct (render_head (snd f) ltac:(done)) as (c & t & Er & _).
  destruct (text_ref m _ _ Hraw ltac:(by rewrite Er)) as [Hr Eraw].
  assert (Ef : zlen (render_field f) = zlen (fst f) + 3 + zlen (render (snd f))).
  { unfold render_field. rewrite length_app. cbn [length]. lia. }
  pose proof room_pos as HM. assert (HMd : M = 2 * (Indent * N) + 6) by done.
  assert (Hsum : M * (zlen (render_field f) + 1) = M * zlen (render (snd f)) + M * zlen (fst f) + 4 * M) by (rewrite Ef; lia).
  assert (Hmk : zlen (fst f) <= M * zlen (fst f)) by nia. assert (0 <= M * zlen (render (snd f))) by nia. assert (0 <= Indent * N) by nia.
  destruct (pad depth out 0) as (Hi & Ea & Elp); [lia|lia|done|].
  unfold put_field. cbn [mbind option_bind]. rewrite Ea. cbn [mbind option_bind]. rewrite Etk, Eraw.
  destruct (Hv _ false depth (Line_max - Indent * depth - s32 (GetLength (marked_key m kv)) + 3)
    ((out ++ repeat (chr " ") (Z.to_nat (Indent * depth))) ++ quoted (fst f) ++ str ": ") H1 Hr Hd Hd') as (s & E & Hc & Hw).
  { rewrite !length_app. change (length (str ": ")) with 2%nat. lia. }
  rewrite E. cbn [mbind option_bind]. exists (repeat (chr " ") (Z.to_nat (Indent * depth)) ++ quoted (fst f) ++ str ": " ++ s).
  split; [by rewrite <- !app_assoc|]. split.
  - unfold compact_field.
    apply (closed_app _ []); [apply closed_spaces|]. apply (closed_app (quoted (fst f)) (quoted (fst f))); [by apply closed_quoted|].
    apply (closed_app [chr ":"] [chr ":"]); [by apply closed_char|]. apply (closed_app [chr " "] []); [by apply closed_ws|done].
  - rewrite !length_app. change (length (str ": ")) with 2%nat. lia.
Qed.

Lemma put_item_spec fuel depth out e r v b : jv_ok v = true -> beautified fuel v -> 0 <= depth -> depth + Z.of_nat (height v) <= N ->
  item_shows m e r v -> 0 < b <= rb r -> zlen out + M * (zlen (render v) + 1) <= 2 ^ 32 - 1 ->
  exists s, put_item Indent Line_max (Beautify_ Indent Line_max m fuel) depth (Some out) r =
      Some (out ++ s ++ [chr ","; c_nl]) /\ closed s (compact v) /\ zlen s + 2 <= M * (zlen (render v) + 1).
Proof using HI HN.
  intros Hok Hv Hd Hd' [(_ & _ & Hh & _) He] Hb Hroom. destruct r as [p q]. cbn [rb re] in *. subst q.
  pose proof room_pos as HM. assert (HMd : M = 2 * (Indent * N) + 6) by done. assert (0 <= M * zlen (render v)) by nia. assert (0 <= Indent * N) by nia.
  destruct (pad depth out 0) as (Hi & Ea & Elp); [lia|lia|done|].
  unfold put_item. cbn [mbind option_bind]. rewrite Ea. cbn [mbind option_bind].
  destruct (Hv p true depth (Line_max - Indent * depth - 2) (out ++ repeat (chr " ") (Z.to_nat (Indent * depth))) ltac:(lia) Hh Hd Hd') as (s & E & Hc & Hw).
  { rewrite length_app. lia. }
  rewrite E. cbn [mbind option_bind].
  exists (repeat (chr " ") (Z.to_nat (Indent * depth)) ++ s). split; [by rewrite <- !app_assoc|]. split.
  - apply (closed_app _ []); [apply closed_spaces|done].
  - rewrite length_app. lia.
Qed.

(** The first and the last character of a document that is no text. *)
Lemma beautify_leaf fuel v : jv_ok v = true -> nice v = true -> bytes (render v) ->
  (exists c t, render v = c :: t /\ s8 c <> chr "{" /\ s8 c <> chr "[" /\ StrScan.blank (s8 c) = false) ->
  (exists c t, render v = t ++ [c] /\ StrScan.blank (s8 c) = false) -> beautified (S fuel) v.
Proof.
  intros Hok Hn Hb (c0 & t0 & E0 & Hc1 & Hc2 & Hw0) (c1 & t1 & E1 & Hw1) b newline depth lr out H0 Hh.
  intros Hd Hd' Hroom. pose proof room_pos. exists (render v). split; [|split; [by apply closed_render|nia]]. cbn [Beautify_]. cbv zeta.
  rewrite (trim_id m b (render v) c0 c1 t0 t1 H0 Hh E0 E1 Hw0 Hw1).
  rewrite (IsEmpty_at b (render v)) by (done || by rewrite E0). cbn [rb re]. pose proof Hh as Hh'. rewrite E0 in Hh'. rewrite (sc_holds _ _ _ _ Hh').
  rewrite (proj2 (Z.eqb_neq _ _) Hc1), (proj2 (Z.eqb_neq _ _) Hc2). cbn [negb andb].
  do 2 f_equal. by apply text_holds.
Qed.

(** A container: whatever its loop appends between the brackets. *)
Lemma beautify_container fuel v o body c xs : jv_ok v = true -> nice v = true -> bytes (render v) ->
  bracket o c -> render v = o :: body ++ [c] ->
  (forall b depth out, 0 < b -> holds m b (render v) -> 0 <= depth -> depth - 1 + Z.of_nat (height v) <= N ->
    zlen out + M * (zlen body + 1) <= 2 ^ 32 - 1 -> exists ss k,
    (let doc := mkRef b (b + zlen (render v)) in let n := S (str_len doc) in
     if o =? chr "{" then
       let kvs := all_pairs n m (Attach m doc null_ref) empty_kvp in
       out ← fold_left (put_field Indent Line_max m (Beautify_ Indent Line_max m fuel) depth) kvs (Some out);
       Some (out, negb (Nat.eqb (length kvs) 0))
     else
       let items := all_items n m (JsonArray m doc) null_ref in
       out ← fold_left (put_item Indent Line_max (Beautify_ Indent Line_max m fuel) depth) items (Some out);
       Some (out, negb (Nat.eqb (length items) 0))) =
      Some (out ++ concat (map (fun s => s ++ [chr ","; c_nl]) ss), negb (Nat.eqb k 0)) /\
    k = length ss /\ Forall2 closed ss xs /\ zlen (concat (map (fun s => s ++ [chr ","; c_nl]) ss)) <= M * (zlen body + 1)) ->
  compact v = o :: join [chr ","] xs ++ [c] -> beautified (S fuel) v.
Proof.
  intros Hok Hn Hb Hbr Er Hloop Hcv b newline depth lr out H0 Hh Hd Hd' Hroom. cbn [Beautify_]. cbv zeta.
  pose proof room_pos as HM. assert (HMd : M = 2 * (Indent * N) + 6) by done. assert (0 <= Indent * N) by nia.
  assert (El : zlen (render v) = zlen body + 2) by (rewrite Er; cbn [length]; rewrite length_app; cbn; lia).
  assert (Hh1 : (1 <= height v)%nat) by (destruct v; cbn; lia).
  assert (Hws : StrScan.blank (s8 o) = false /\ StrScan.blank (s8 c) = false) by (by destruct Hbr as [[-> ->]|[-> ->]]).
  rewrite (trim_id m b (render v) o c (body ++ [c]) (o :: body) H0 Hh Er Er (proj1 Hws) (proj2 Hws)).
  rewrite (IsEmpty_at b (render v)) by (done || by rewrite Er). cbn [rb re].
  assert (Em : m b = o /\ m (b + zlen (render v) - 1) = c).
  { pose proof Hh as Hh'. rewrite Er in Hh'. split; [by destruct (holds_cons_inv _ _ _ _ Hh')|].
    change (o :: body ++ [c]) with ((o :: body) ++ [c]) in Hh'. apply holds_app in Hh' as [_ Hh'].
    rewrite Er. cbn [length] in *. rewrite length_app. cbn [length].
    replace (b + Z.of_nat (S (length body + 1)) - 1) with (b + Z.of_nat (S (length body))) by lia.
    by destruct (holds_cons_inv _ _ _ _ Hh'). }
  destruct Em as [Eo Ec]. unfold sc. rewrite Eo, Ec.
  assert (Ho : s8 o = o) by (by destruct Hbr as [[-> ->]|[-> ->]]). rewrite Ho.
  assert (Hob : negb (o =? chr "{") && negb (o =? chr "[") = false) by (by destruct Hbr as [[-> ->]|[-> ->]]). rewrite Hob.
  assert (Hco : closed [o] [o] /\ closed [c] [c]) by (destruct Hbr as [[-> ->]|[-> ->]]; split; by apply closed_char).
  assert (Hsl : str_len (mkRef b (b + zlen (render v))) = length (render v)) by (unfold str_len, GetLength; cbn [rb re]; lia).
  destruct (fits_line m _ lr).
  { eexists. split; [reflexivity|]. rewrite Hsl. split; [apply closed_single_line; [done|done|by apply closed_render]|].
    pose proof (single_line_length m (length (render v)) b false). nia. }
  set (pre := (if newline then [] else c_nl :: repeat (chr " ") (Z.to_nat (Indent * depth))) ++ [o] ++
    (if depth + 1 =? 0 then [] else [c_nl])).
  assert (Hpre : closed pre [o]).
  { unfold pre. apply (closed_app _ []).
    - destruct newline; [apply closed_nil|]. apply (closed_app [c_nl] [] _ []); [by apply closed_ws|apply closed_spaces].
    - apply (closed_app [o] [o] _ []); [apply Hco|]. destruct (depth + 1 =? 0); [apply closed_nil|by apply closed_ws]. }
  assert (0 <= M * zlen body) by nia. assert (Hsum : M * zlen (render v) = M * (zlen body + 1) + M) by (rewrite El; lia).
  destruct (pad depth (out ++ [c_nl]) 0) as (Hi & Ea & Elp); [lia|rewrite length_app; cbn [length]; lia|done|].
  assert (Hpl : zlen pre <= Indent * N + 3).
  { unfold pre. rewrite !length_app. destruct newline, (depth + 1 =? 0); cbn [length]; rewrite ?Nat2Z.inj_succ; lia. }
  match goal with |- exists s, (mbind ?K ?X) = _ /\ _ => assert (EX : exists out', X = Some out' /\
    (if depth + 1 =? 0 then out' ++ [o] else (out' ++ [o]) ++ [c_nl]) = out ++ pre) end.
  { unfold pre. destruct newline; [|rewrite Ea]; eexists; (split; [reflexivity|]); destruct (depth + 1 =? 0); cbn [app]; by rewrite <- ?app_assoc. }
  destruct EX as (out' & -> & Eo'). cbn [mbind option_bind]. rewrite Eo'.
  destruct (Hloop b (depth + 1) (out ++ pre) H0 Hh) as (ss & k & E & -> & Hss & Hw); [lia|lia|rewrite length_app; lia|].
  cbv zeta in E. rewrite E.
  cbn [mbind option_bind]. rewrite Hcv. replace (depth + 1 - 1) with depth by lia. set (sp := repeat (chr " ") (Z.to_nat (Indent * depth))) in *.
  assert (Hsp : closed (sp ++ [c]) [c]) by (apply (closed_app _ []); [apply closed_spaces|apply Hco]).
  destruct ss as [|s ss].
  - inversion Hss; subst xs. cbn [length Nat.eqb negb map concat]. rewrite app_nil_r.
    destruct (pad depth (out ++ pre) 0) as (_ & -> & _); [lia|rewrite length_app; lia|done|]. cbn [mbind option_bind]. fold sp. eexists.
    split; [rewrite <- !app_assoc; reflexivity|]. split; [apply (closed_app pre [o]); [done|]; exact Hsp|].
    rewrite !length_app. cbn [length]. lia.
  - cbn [length Nat.eqb negb]. rewrite drop_two_join by done.
    assert (Hj := f_equal length (concat_puts (s :: ss) ltac:(done))). rewrite length_app in Hj. cbn [length] in Hj.
    destruct (pad depth ((out ++ pre ++ join [chr ","; c_nl] (s :: ss)) ++ [c_nl]) 0) as (_ & Ea2 & _);
      [lia|rewrite !length_app; cbn [length]; lia|done|].
    rewrite <- (app_assoc out), Ea2. cbn [mbind option_bind]. fold sp. eexists.
    split; [rewrite <- !app_assoc; reflexivity|]. split.
    + apply (closed_app pre [o]); [done|]. apply closed_app.
      * apply closed_join; [|done]. by apply (closed_app [chr ","] [chr ","] [c_nl] []); [apply closed_char|apply closed_ws].
      * apply (closed_app [c_nl] []); [by apply closed_ws|exact Hsp].
    + rewrite !length_app. cbn [length]. lia.
Qed.

Lemma Attach_at b fs : holds m b (render (JObj fs)) ->
  Attach m (mkRef b (b + zlen (render (JObj fs)))) null_ref = mkRef b (b + zlen (render (JObj fs))).
Proof.
  assert (Er : exists body, render (JObj fs) = chr "{" :: body) by (destruct fs; cbn [render]; eauto).
  destruct Er as [body ->]. intros Hh. unfold Attach, FindCharacter, GetLength. cbn [rb re length].
  replace (Z.to_nat (b + Z.of_nat (S (length body)) - b - 0)) with (S (length body)) by lia.
  cbn [find_char]. rewrite Z.add_0_r, (sc_holds _ _ _ _ Hh). change (s8 (chr "{") =? chr "{") with true. cbn iota.
  change (0 <=? 0) with true. cbn iota. unfold SubStr_from, GetLength. cbn [rb re].
  rewrite (proj2 (Z.ltb_lt 0 _)) by lia. by rewrite Z.add_0_r.
Qed.

Lemma beautify_obj fuel fs : jv_ok (JObj fs) = true -> nice (JObj fs) = true -> bytes (render (JObj fs)) ->
  Forall (fun f => beautified fuel (snd f)) fs -> beautified (S fuel) (JObj fs).
Proof using HI HN.
  intros Hok Hn Hb HP. destruct (obj_parts fs Hok Hn Hb) as [Hf Hbf].
  pose proof room_pos as HM.
  assert (Er : exists body, render (JObj fs) = chr "{" :: body ++ [chr "}"] /\ room M (map render_field fs) <= M * (zlen body + 1)).
  { destruct fs as [|f fs]; [exists []; split; [done|cbn; lia]|]. eexists. split; [by apply render_obj|].
    pose proof (room_join M [chr ","; c_nl] (map render_field (f :: fs)) ltac:(lia) ltac:(done)). unfold render_fields.
    rewrite ?length_app. cbn [length]. rewrite ?length_app. cbn [length]. nia. }
  destruct Er as (body & Er & Hbody).
  apply (beautify_container fuel _ (chr "{") body (chr "}") (map compact_field fs)); try done; [by right|].
  intros b depth out H0 Hh Hd Hd' Hroom. cbv zeta. change (chr "{" =? chr "{") with true. cbn iota.
  set (doc := mkRef b (b + zlen (render (JObj fs)))).
  assert (Ea : Attach m doc null_ref = doc) by (by apply Attach_at).
  rewrite Ea. set (kvs := all_pairs _ m doc empty_kvp).
  assert (Hsh : Forall2 (shows m) kvs fs).
  { apply (pairs_of_object m b fs); try done. unfold str_len, GetLength, doc. cbn [rb re].
    destruct fs as [|f fs]; [cbn; lia|]. rewrite render_obj by done. cbn [length]. rewrite length_app. cbn [length]. rewrite length_app.
    pose proof (length_join_count [chr ","; c_nl] (map render_field (f :: fs)) ltac:(cbn; lia)) as Hj. rewrite length_map in Hj.
    unfold render_fields. cbn [length] in *. lia. }
  assert (Hgood : Forall (fun f => field_ok f = true /\ nice_field f = true /\ bytes (fst f) /\ beautified fuel (snd f) /\
    depth + Z.of_nat (height (snd f)) <= N) fs).
  { assert (Hk : Forall (fun f => bytes (fst f)) fs).
    { clear -Hbf. induction fs as [|f fs IH]; constructor.
      - destruct (field_bytes f fs (Hbf ltac:(done))) as [Hb _]. apply bytes_app in Hb as [Hb _].
        inversion_clear Hb as [|? ? _ Hb']. by apply bytes_app in Hb' as [? _].
      - apply IH. intros Hne. by apply (field_bytes f fs (Hbf ltac:(done))). }
    rewrite List.Forall_forall in *. intros f Hin. destruct (Hf f Hin).
    assert (height (snd f) <= list_max (map (fun f => height (snd f)) fs))%nat by (by apply (height_items (fun f => height (snd f)) fs)).
    cbn [height] in Hd'. repeat (split; [by auto|]). lia. }
  destruct (fold_puts (put_field Indent Line_max m (Beautify_ Indent Line_max m fuel) depth)
    (fun kv f => shows m kv f /\ field_ok f = true /\ nice_field f = true /\ bytes (fst f) /\ beautified fuel (snd f) /\
       depth + Z.of_nat (height (snd f)) <= N) compact_field render_field M (2 ^ 32 - 1) kvs fs ltac:(lia)) with (out := out) as (ss & E & Hss & Hw).
  - intros out' kv f (G0 & G1 & G2 & G3 & G4 & G5) G6. by apply put_field_spec.
  - by apply Forall2_and_r.
  - lia.
  - exists ss, (length kvs). rewrite E. cbn [mbind option_bind]. split; [done|]. split; [|split; [done|lia]].
    by rewrite (Forall2_length _ _ _ Hss), length_map, (Forall2_length _ _ _ Hsh).
Qed.

Lemma beautify_arr fuel l : jv_ok (JArr l) = true -> nice (JArr l) = true -> bytes (render (JArr l)) ->
  Forall (beautified fuel) l -> beautified (S fuel) (JArr l).
Proof using HI HN.
  intros Hok Hn Hb HP. destruct (arr_parts l Hok Hn Hb) as [Hl Hbl].
  apply (beautify_container fuel _ (chr "[") (render_items l) (chr "]") (map compact l)); try done; [by left|].
  intros b depth out H0 Hh Hd Hd' Hroom. cbv zeta. pose proof room_pos as HM. change (chr "[" =? chr "{") with false. cbn iota.
  rewrite (JsonArray_at m b _ (render_items l ++ [chr "]"])) by (done || (cbn [render length]; lia)).
  set (doc := mkRef b (b + zlen (render (JArr l)))). set (items := all_items _ m doc null_ref).
  assert (Hsh : Forall2 (fun r v => item_shows m (re doc) r v /\ b <= rb r) items l).
  { apply all_items_spec; try done; try (unfold doc; cbn [re]; lia).
    - cbn [jv_ok] in Hok. by apply andb_true_iff in Hok as [_ ?].
    - unfold str_len, GetLength, doc. cbn [rb re render length]. rewrite length_app. cbn [length].
      pose proof (length_join_count [chr ","] (map render l) ltac:(cbn; lia)) as Hj. rewrite length_map in Hj. lia. }
  assert (Hgood : Forall (fun v => jv_ok v = true /\ beautified fuel v /\ depth + Z.of_nat (height v) <= N) l).
  { rewrite List.Forall_forall in *. intros v Hin. destruct (Hl v Hin). cbn [height] in Hd'.
    assert (height v <= list_max (map height l))%nat by (by apply (height_items height l)).
    repeat (split; [by auto|]). lia. }
  pose proof (room_join M [chr ","] (map render l) ltac:(lia) ltac:(done)) as Hj.
  destruct (fold_puts (put_item Indent Line_max (Beautify_ Indent Line_max m fuel) depth)
    (fun r v => (item_shows m (re doc) r v /\ b <= rb r) /\ jv_ok v = true /\ beautified fuel v /\ depth + Z.of_nat (height v) <= N)
    compact render M (2 ^ 32 - 1) items l ltac:(lia)) with (out := out) as (ss & E & Hss & Hw).
  - intros out' r v ((G0 & G1) & G2 & G3 & G4) G5. by apply (put_item_spec fuel depth out' (re doc) r v b).
  - by apply Forall2_and_r.
  - unfold render_items in *. lia.
  - exists ss, (length items). rewrite E. cbn [mbind option_bind]. split; [done|]. split; [|split; [done|unfold render_items in *; lia]].
    by rewrite (Forall2_length _ _ _ Hss), length_map, (Forall2_length _ _ _ Hsh).
Qed.

Lemma bytes_join sep xs : bytes (join sep xs) -> Forall (fun x => bytes x) xs.
Proof.
  induction xs as [|x [|y xs] IH]; intros H; [constructor|by repeat constructor|].
  rewrite join_cons in H. apply bytes_app in H as [H1 H2]. apply bytes_app in H2 as [_ H2]. constructor; auto.
Qed.

Lemma beautify_all v : jv_ok v = true -> nice v = true -> bytes (render v) ->
  forall fuel, (height v <= fuel)%nat -> beautified fuel v.
Proof.
  induction v as [t|s|b|l IH|fs IH] using jv_ind; intros Hok Hn Hb [|fuel] Hf; cbn [height] in Hf; try lia; try done.
  - assert (Ht : forall c, In c t -> s8 c <> chr "{" /\ s8 c <> chr "[" /\ StrScan.blank (s8 c) = false).
    { intros c Hc. cbn [jv_ok] in Hok. unfold text_ok in Hok. apply andb_true_iff in Hok as [_ Hok]. rewrite forallb_forall in Hok.
      specialize (Hok c Hc). unfold plain in Hok. bool_prop. auto. }
    assert (Hne : t <> []) by (intros ->; done).
    apply beautify_leaf; try done; cbn [render].
    + destruct t as [|c t]; [done|]. exists c, t. split; [done|]. apply Ht. by left.
    + destruct t as [|c t _] using rev_ind; [done|]. exists c, t. split; [done|]. apply Ht, in_or_app. right. by left.
  - apply beautify_leaf; try done; cbn [render].
    + by exists c_quot, (s ++ [c_quot]).
    + by exists c_quot, (c_quot :: s).
  - destruct (arr_parts l Hok Hn Hb) as [Hl Hbl]. pose proof (bytes_join _ _ Hbl) as Hbs. rewrite List.Forall_map in Hbs.
    apply beautify_arr; try done. rewrite List.Forall_forall in *. intros v Hin. destruct (Hl v Hin).
    apply IH; try done; [by apply Hbs|]. apply (height_items height l); [lia|done].
  - destruct (obj_parts fs Hok Hn Hb) as [Hl Hbl]. apply beautify_obj; try done.
    assert (Hbs : forall f, In f fs -> bytes (render_field f)).
    { intros f Hin. pose proof (bytes_join _ _ (Hbl ltac:(by intros ->))) as Hbs.
      rewrite List.Forall_map, List.Forall_forall in Hbs. by apply Hbs. }
    rewrite List.Forall_forall in IH, Hl. apply List.Forall_forall. intros f Hin. pose proof (Hbs f Hin) as Hbf. destruct (Hl f Hin) as [H1 H2]. unfold field_ok, nice_field in *. bool_prop.
    unfold render_field in Hbf. apply bytes_app in Hbf as [_ Hbf]. inversion_clear Hbf.
    apply IH; try done. apply (height_items (fun f => height (snd f)) fs); [lia|done].
Qed.
End BeautifySpec.

(** ** Facts: edited documents *)

Lemma ref_eq_text m a b : 0 < rb a -> 0 < GetLength a -> ref_eq m a b = zlist_eqb (text m a) (text m b).
Proof.
  intros H1 H2. unfold ref_eq, IsEmpty at 1, text. rewrite (proj2 (Z.eqb_neq (rb a) 0)) by lia.
  rewrite (proj2 (Z.eqb_neq (re a) _)) by (unfold GetLength in H2; lia). cbn [orb andb].
  destruct (Z.eqb_spec (GetLength a) (GetLength b)) as [E|E]; [cbn [andb]; by rewrite <- E, memeq_spec|].
  cbn [andb]. destruct (zlist_eqb _ _) eqn:Ez; [|done]. apply zlist_eqb_eq, (f_equal length) in Ez.
  rewrite !length_mem_bytes in Ez. lia.
Qed.

Lemma concat_join sep x xs : x ++ concat (map (fun y => sep ++ y) xs) = join sep (x :: xs).
Proof.
  revert x. induction xs as [|y xs IH]; intros x; [apply app_nil_r|]. rewrite join_cons. cbn [map concat].
  by rewrite <- (IH y), <- app_assoc.
Qed.

(** Entries appended with a separator, after an opening if nothing is there. *)
Section FoldJoin.
Context {A : Type} (f : list Z -> A -> list Z) (line : A -> list Z) (opening sep : list Z).
Context (Hnil : forall a, f [] a = opening ++ line a) (Hcons : forall acc a, acc <> [] -> f acc a = acc ++ sep ++ line a).
Context (Hopen : opening <> []).

Lemma fold_append l : forall acc, acc <> [] -> fold_left f l acc = acc ++ concat (map (fun x => sep ++ line x) l).
Proof.
  induction l as [|a l IH]; intros acc Hacc; cbn [fold_left map concat]; [by rewrite app_nil_r|].
  rewrite Hcons by done. rewrite IH; [by rewrite <- !app_assoc|]. by destruct acc.
Qed.

Lemma fold_join l : fold_left f l [] = match l with [] => [] | _ => opening ++ join sep (map line l) end.
Proof.
  destruct l as [|a l]; [done|]. cbn [fold_left]. rewrite Hnil, fold_append by (by destruct opening).
  rewrite <- app_assoc. cbn [map]. by rewrite <- concat_join, map_map.
Qed.
End FoldJoin.

Lemma fold_left_filter {A B} (f : B -> A -> B) (keep : A -> bool) l :
  forall acc, fold_left (fun acc a => if keep a then f acc a else acc) l acc = fold_left f (List.filter keep l) acc.
Proof. induction l as [|a l IH]; intros acc; [done|]. cbn [fold_left List.filter]. destruct (keep a); apply IH. Qed.

Lemma filter_Forall2 {A B} (P : A -> B -> Prop) (f : A -> bool) (g : B -> bool) l k :
  Forall2 P l k -> (forall a b, P a b -> f a = g b) -> Forall2 P (List.filter f l) (List.filter g k).
Proof. intros H Hfg. induction H as [|a b l k Hab H IH]; [constructor|]. cbn [List.filter]. rewrite (Hfg a b Hab). destruct (g b); auto. Qed.

Lemma Forall2_map_eq {A B C} (P : A -> B -> Prop) (f : A -> C) (g : B -> C) l k :
  Forall2 P l k -> (forall a b, P a b -> f a = g b) -> map f l = map g k.
Proof. intros H Hfg. induction H; [done|]. cbn [map]. f_equal; auto. Qed.

(** *** [RemoveKeys] *)

Definition field_line (f : list Z * jv) : list Z := [c_nl] ++ str "  " ++ quoted (fst f) ++ str ": " ++ render (snd f).
Definition removed_text (fs : list (list Z * jv)) : list Z :=
  match fs with
  | [] => str "{ }"
  | _ => str "{ " ++ join (str ",  ") (map field_line fs) ++ [c_nl; chr "}"]
  end.

Definition named (m : mem) (keys : list ref) (f : list Z * jv) : bool :=
  existsb (fun k => zlist_eqb (fst f) (text m k)) keys.

Lemma shows_key m kv f : shows m kv f -> fst f <> [] -> 0 < rb (k_Key kv) /\ 0 < GetLength (k_Key kv).
Proof.
  intros (Hk & _ & _ & _ & _ & H0 & _) Hne. split; [done|]. destruct (text_ref m _ _ Hk Hne) as [_ ->]. unfold GetLength. cbn [rb re].
  assert (0 < length (fst f))%nat by (destruct (fst f); [done|cbn; lia]). lia.
Qed.

Lemma remove_fold m keys kvs fs : Forall2 (shows m) kvs fs -> Forall (fun f => fst f <> []) fs ->
  fold_left (remove_step m keys) kvs [] =
  match List.filter (fun f => negb (named m keys f)) fs with
  | [] => []
  | l => str "{ " ++ join (str ",  ") (map field_line l)
  end.
Proof.
  intros Hs Hne. pose proof (Forall2_and_r _ _ _ _ Hs Hne) as H.
  pose proof (filter_Forall2 _ (fun kv => negb (existsb (ref_eq m (k_Key kv)) keys)) (fun f => negb (named m keys f)) _ _ H) as Hf.
  set (g := fun removed kv => (match removed with [] => str "{ " | _ => removed ++ str ",  " end) ++ removed_field m kv).
  assert (E : forall acc, fold_left (remove_step m keys) kvs acc =
    fold_left g (List.filter (fun kv => negb (existsb (ref_eq m (k_Key kv)) keys)) kvs) acc).
  { intros acc. rewrite <- fold_left_filter. clear. revert acc. induction kvs as [|kv kvs IH]; intros acc; [done|].
    cbn [fold_left]. rewrite IH. f_equal. unfold remove_step, g. by destruct (existsb _ keys). }
  rewrite E, (fold_join g (removed_field m) (str "{ ") (str ",  "));
    [|done|intros [|x acc] a Ha; [done|]; unfold g; by rewrite <- app_assoc|done].
  assert (Hkeep : Forall2 (fun kv f => shows m kv f /\ fst f <> [])
    (List.filter (fun kv => negb (existsb (ref_eq m (k_Key kv)) keys)) kvs) (List.filter (fun f => negb (named m keys f)) fs)).
  { apply Hf. intros kv f [Hk Hn]. f_equal. unfold named. destruct (shows_key m kv f Hk Hn) as [K1 K2].
    clear -Hk K1 K2. induction keys as [|k keys IH]; [done|]. cbn [existsb]. rewrite IH, ref_eq_text by done.
    by destruct Hk as [-> _]. }
  rewrite (Forall2_map_eq _ (removed_field m) field_line _ _ Hkeep).
  - by destruct Hkeep.
  - intros kv f [(Hk & _ & Hr & _) _]. unfold removed_field, field_line. by rewrite Hk, Hr.
Qed.
(** *** [Override] *)

(** Names and raw values, by their texts. *)
Abbreviation entry := (list Z * list Z)%type.
Fixpoint put (k v : list Z) (l : list entry) : list entry :=
  match l with
  | [] => [(k, v)]
  | (k', v') :: t => if zlist_eqb k' k then (k', v) :: t else (k', v') :: put k v t
  end.
Fixpoint last_value (k : list Z) (l : list entry) : option (list Z) :=
  match l with
  | [] => None
  | (k', v) :: t => match last_value k t with Some w => Some w | None => if zlist_eqb k' k then Some v else None end
  end.
Definition put_all (l acc : list entry) : list entry := fold_left (fun acc e => put (fst e) (snd e) acc) l acc.

Lemma put_keys k v l x : In x (map fst (put k v l)) <-> x = k \/ In x (map fst l).
Proof.
  induction l as [|[k' v'] l IH]; cbn [put map fst In]; [split; intros [->|H]; auto|].
  destruct (zlist_eqb k' k) eqn:E; cbn [map fst In]; [apply zlist_eqb_eq in E as ->; split; [intros [<-|H]; auto|intros [->|[<-|H]]; auto]|rewrite IH; tauto].
Qed.

Lemma put_nodup k v l : NoDup (map fst l) -> NoDup (map fst (put k v l)).
Proof.
  induction l as [|[k' v'] l IH]; cbn [put map fst]; intros H; [by repeat constructor; intros []%elem_of_nil|].
  apply NoDup_cons in H as [H1 H2]. destruct (zlist_eqb k' k) eqn:E; cbn [map fst]; apply NoDup_cons; [done|].
  split; [|auto]. rewrite list_elem_of_In, put_keys. intros [->|Hin]; [by rewrite zlist_eqb_refl in E|]. by rewrite list_elem_of_In in H1.
Qed.

Lemma put_in k v l a b : NoDup (map fst l) -> In (a, b) (put k v l) <-> (a = k /\ b = v) \/ (a <> k /\ In (a, b) l).
Proof.
  induction l as [|[k' v'] l IH]; cbn [put map fst In]; intros H.
  - split; [intros [[= -> ->]|[]]; auto|intros [[-> ->]|[_ []]]; auto].
  - apply NoDup_cons in H as [H1 H2]. rewrite list_elem_of_In in H1. destruct (zlist_eqb k' k) eqn:E; cbn [In].
    + apply zlist_eqb_eq in E as ->. split.
      * intros [[= <- <-]|Hin]; [auto|]. right. split; [|by right]. intros ->. apply H1. by apply (in_map fst) in Hin.
      * intros [[-> ->]|[Hne [[= ? ?]|Hin]]]; [auto|congruence|auto].
    + rewrite IH by done. assert (k' <> k) by (intros ->; by rewrite zlist_eqb_refl in E). split.
      * intros [[= <- <-]|[H'|[H' H'']]]; auto.
      * intros [[-> ->]|[Hne [[= -> ->]|Hin]]]; auto.
Qed.

(** The map holds every name once, with the value given last. *)
Lemma put_all_spec l : NoDup (map fst (put_all l [])) /\
  forall k v, In (k, v) (put_all l []) <-> last_value k l = Some v.
Proof.
  assert (H : forall acc, NoDup (map fst acc) -> NoDup (map fst (put_all l acc)) /\
    forall k v, In (k, v) (put_all l acc) <-> last_value k l = Some v \/ (last_value k l = None /\ In (k, v) acc)).
  { induction l as [|[k0 v0] l IH]; intros acc Hacc; cbn [put_all fold_left last_value fst snd].
    - split; [done|]. intros k v. split; [auto|intros [?|[_ ?]]; done].
    - destruct (IH (put k0 v0 acc) (put_nodup _ _ _ Hacc)) as [H1 H2]. split; [exact H1|]. intros k v.
      unfold put_all in H2. rewrite H2, put_in by done. destruct (last_value k l) as [w|] eqn:El.
      + split; [intros [?|[? _]]; by auto|intros [?|[? _]]; by auto].
      + destruct (zlist_eqb k0 k) eqn:E.
        * apply zlist_eqb_eq in E as ->. split; [intros [?|[_ [[_ ->]|[? _]]]]; by auto|intros [[= ->]|[? _]]; by auto].
        * assert (k <> k0) by (intros ->; by rewrite zlist_eqb_refl in E).
          split; [intros [?|[_ [[? _]|[_ ?]]]]; by auto|intros [?|[_ ?]]; by auto]. }
  destruct (H [] (NoDup_nil_2)) as [H1 H2]. split; [exact H1|]. intros k v. rewrite H2. split; [intros [?|[_ []]]; done|auto].
Qed.

Definition entries (fs : list (list Z * jv)) : list entry := map (fun f => (fst f, render (snd f))) fs.
Definition texts (m : mem) (vals : list (ref * ref)) : list entry := map (fun kv => (text m (fst kv), text m (snd kv))) vals.
Definition key_ok (kv : ref * ref) : Prop := 0 < rb (fst kv) /\ 0 < GetLength (fst kv).

Lemma upsert_texts m k v vals : Forall key_ok vals -> 0 < rb k -> 0 < GetLength k ->
  texts m (upsert m k v vals) = put (text m k) (text m v) (texts m vals) /\ Forall key_ok (upsert m k v vals).
Proof.
  intros H Hk1 Hk2. induction H as [|[k' v'] vals [H1 H2] H IH]; [split; [done|by repeat constructor]|].
  cbn [upsert texts map put fst snd]. rewrite (ref_eq_text m k' k H1 H2). destruct IH as [E1 E2].
  destruct (zlist_eqb _ _); cbn [map fst snd]; [split; [done|by constructor]|]. split; [f_equal; exact E1|by constructor].
Qed.

Lemma collect_texts m kvs fs : Forall2 (shows m) kvs fs -> Forall (fun f => fst f <> []) fs -> forall vals, Forall key_ok vals ->
  texts m (collect m kvs vals) = put_all (entries fs) (texts m vals) /\ Forall key_ok (collect m kvs vals).
Proof.
  induction 1 as [|kv f kvs fs Hs H IH]; intros Hne vals Hv; [done|]. apply Forall_cons in Hne as [Hn Hne].
  destruct (shows_key m kv f Hs Hn) as [K1 K2]. destruct (upsert_texts m (k_Key kv) (GetValueRaw m kv) vals Hv K1 K2) as [E1 E2].
  cbn [collect fold_left]. destruct (IH Hne _ E2) as [F1 F2]. split; [|exact F2]. unfold collect in F1. rewrite F1, E1.
  destruct Hs as (-> & _ & -> & _). done.
Qed.

Definition entry_text (e : entry) : list Z := quoted (fst e) ++ str " : " ++ snd e.
Definition entry_sep : list Z := chr "," :: c_nl :: str "  ".
(** A document of the entries, or the entries after what is there. *)
Definition derived_text (before : list Z) (es : list entry) : list Z :=
  match before, es with
  | [], [] => str "{}"
  | [], _ => str "{ " ++ join entry_sep (map entry_text es) ++ [chr "}"]
  | _, _ => before ++ concat (map (fun e => entry_sep ++ entry_text e) es) ++ [chr "}"]
  end.

Lemma emit_all_text m vals before : emit_all m vals before = derived_text before (texts m vals).
Proof.
  set (line := fun kv => entry_text (text m (fst kv), text m (snd kv))).
  assert (Hcons : forall acc a, acc <> [] -> emit m acc a = acc ++ entry_sep ++ line a) by (intros [|x acc] a Ha; done).
  unfold emit_all, derived_text, texts. rewrite !map_map.
  destruct before as [|c before].
  - rewrite (fold_join (emit m) line (str "{ ") entry_sep); [|done|done|done]. destruct vals as [|v vals]; [done|].
    by change (str "{ ") with [123; 32].
  - rewrite (fold_append (emit m) line entry_sep) by done. cbn [app]. by rewrite <- app_assoc.
Qed.
(** The pairs of a whole document. *)
Lemma doc_pairs m b fs fuel : 0 < b -> jv_ok (JObj fs) = true -> bytes (render (JObj fs)) -> holds m b (render (JObj fs)) ->
  (length fs < fuel)%nat ->
  Forall2 (shows m) (all_pairs fuel m (Attach m (mkRef b (b + zlen (render (JObj fs)))) null_ref) empty_kvp) fs /\
  Forall (fun f => fst f <> []) fs.
Proof.
  intros H0 Hok Hb Hh Hf. split.
  - rewrite Attach_at by done. by apply (pairs_of_object m b fs).
  - cbn [jv_ok] in Hok. rewrite forallb_forall in Hok. apply List.Forall_forall. intros f Hin E. specialize (Hok f Hin).
    by rewrite E in Hok.
Qed.

(** Going through the map in another order. *)
Lemma ordered_map m order vals l : Permutation (order vals) vals -> texts m vals = put_all l [] ->
  NoDup (map fst (texts m (order vals))) /\ forall k v, In (k, v) (texts m (order vals)) <-> last_value k l = Some v.
Proof.
  intros Ho E. destruct (put_all_spec l) as [H1 H2]. rewrite <- E in H1, H2.
  assert (Hp : Permutation (texts m (order vals)) (texts m vals)) by (by apply Permutation_map).
  split; [by rewrite Hp|]. intros k v. rewrite <- H2. split; intros Hin; [by rewrite <- Hp|by rewrite Hp].
Qed.

(** ** Properties *)

(** [JsonObject::Override] of two documents writes every field name once,
    with the last value it has in the base followed by the overriding document,
    in the order the hash map is gone through; the three-argument form does so
    for a single name; with [append] the fields go after what is there. *)
Theorem Override_fields order m b1 fs1 b2 fs2 key val derived append fuel :
  let d1 := mkRef b1 (b1 + zlen (render (JObj fs1))) in
  let d2 := mkRef b2 (b2 + zlen (render (JObj fs2))) in
  (forall l, Permutation (order l) l) ->
  0 < b1 -> jv_ok (JObj fs1) = true -> bytes (render (JObj fs1)) -> holds m b1 (render (JObj fs1)) ->
  0 < b2 -> jv_ok (JObj fs2) = true -> bytes (render (JObj fs2)) -> holds m b2 (render (JObj fs2)) ->
  0 < rb key -> 0 < GetLength key -> (length fs1 + length fs2 < fuel)%nat ->
  (exists es, Override order fuel m d1 d2 derived append = derived_text (if append then derived else []) es /\
     NoDup (map fst es) /\ forall k v, In (k, v) es <-> last_value k (entries fs1 ++ entries fs2) = Some v) /\
  (exists es, Override_key order fuel m d1 key val derived append = derived_text (if append then derived else []) es /\
     NoDup (map fst es) /\ forall k v, In (k, v) es <-> last_value k (entries fs1 ++ [(text m key, text m val)]) = Some v).
Proof.
  intros d1 d2 Ho H01 Hok1 Hb1 Hh1 H02 Hok2 Hb2 Hh2 Hk1 Hk2 Hf.
  destruct (doc_pairs m b1 fs1 fuel H01 Hok1 Hb1 Hh1 ltac:(lia)) as [Hp1 Hn1].
  destruct (doc_pairs m b2 fs2 fuel H02 Hok2 Hb2 Hh2 ltac:(lia)) as [Hp2 Hn2].
  destruct (collect_texts m _ _ Hp1 Hn1 [] ltac:(constructor)) as [E1 G1].
  destruct (collect_texts m _ _ Hp2 Hn2 _ G1) as [E2 _].
  destruct (upsert_texts m key val _ G1 Hk1 Hk2) as [E3 _].
  split; eexists; (split; [unfold Override, Override_key; apply emit_all_text|]); eapply ordered_map; try apply Ho.
  - fold d1 d2 in E1, E2. rewrite E2, E1. cbn [texts map]. unfold put_all. by rewrite <- fold_left_app.
  - fold d1 in E1, E3. rewrite E3, E1. cbn [texts map]. unfold put_all. by rewrite fold_left_app.
Qed.

Lemma Override_fields_witness :
  let fs1 := [(str "a", JText (str "1")); (str "b", JArr [])] in
  let fs2 := [(str "b", JString (str "x")); (str "c", JObj [])] in
  let m := mem_of 0 64 (render (JObj fs1) ++ render (JObj fs2) ++ str "ak") in
  let d1 := mkRef 64 (64 + zlen (render (JObj fs1))) in
  let d2 := mkRef (re d1) (re d1 + zlen (render (JObj fs2))) in
  let key := mkRef (re d2) (re d2 + 1) in let val := mkRef (re d2 + 1) (re d2 + 2) in
  (exists es, Override (fun l => rev l) 9 m d1 d2 (str "{}") false = derived_text [] es /\
     NoDup (map fst es) /\ forall k v, In (k, v) es <-> last_value k (entries fs1 ++ entries fs2) = Some v) /\
  (exists es, Override_key (fun l => rev l) 9 m d1 key val (str "{}") false = derived_text [] es /\
     NoDup (map fst es) /\ forall k v, In (k, v) es <-> last_value k (entries fs1 ++ [(text m key, text m val)]) = Some v).
Proof.
  cbv zeta.
  refine (Override_fields (fun l => rev l)
    (mem_of 0 64 (render (JObj [(str "a", JText (str "1")); (str "b", JArr [])]) ++
       render (JObj [(str "b", JString (str "x")); (str "c", JObj [])]) ++ str "ak"))
    64 [(str "a", JText (str "1")); (str "b", JArr [])] _ [(str "b", JString (str "x")); (str "c", JObj [])]
    _ _ (str "{}") false 9 _ _ _ _ _ _ _ _ _ _ _ _).
  - intros l. apply Permutation_sym, Permutation_rev.
  - lia.
  - reflexivity.
  - vm_compute. repeat constructor; discriminate.
  - vm_compute. reflexivity.
  - vm_compute. reflexivity.
  - reflexivity.
  - vm_compute. repeat constructor; discriminate.
  - vm_compute. reflexivity.
  - vm_compute. reflexivity.
  - vm_compute. reflexivity.
  - cbn. lia.
Defined.

(** [JsonObject::RemoveKeys] writes the fields whose names are not among
    the keys, in their order, raw values unchanged; without keys it copies the
    document. *)
Theorem RemoveKeys_text m b fs excl keys fuel :
  let d := mkRef b (b + zlen (render (JObj fs))) in
  0 < b -> jv_ok (JObj fs) = true -> bytes (render (JObj fs)) -> holds m b (render (JObj fs)) -> (length fs < fuel)%nat ->
  Split false m excl 256 (CharacterSet (str ",;|")) = Some keys ->
  RemoveKeys fuel m d excl [] = Some (match keys with
    | [] => render (JObj fs)
    | _ => removed_text (List.filter (fun f => negb (named m keys f)) fs)
    end).
Proof.
  intros d H0 Hok Hb Hh Hf Hs. destruct (doc_pairs m b fs fuel H0 Hok Hb Hh Hf) as [Hp Hn]. fold d in Hp.
  unfold RemoveKeys. rewrite Hs. destruct keys as [|k keys].
  - f_equal. by apply text_holds.
  - rewrite (remove_fold m (k :: keys) _ _ Hp Hn). f_equal. unfold removed_text.
    destruct (List.filter _ fs) as [|f l]; [done|]. rewrite app_assoc. by change (str "{ ") with [123; 32].
Qed.

Lemma RemoveKeys_text_witness :
  let fs := [(str "a", JText (str "1")); (str "b", JArr []); (str "c", JString (str "b"))] in
  let m := mem_of 0 64 (render (JObj fs) ++ str "b;d") in
  let d := mkRef 64 (64 + zlen (render (JObj fs))) in
  let keys := [mkRef (re d) (re d + 1); mkRef (re d + 2) (re d + 3)] in
  RemoveKeys 9 m d (mkRef (re d) (re d + 3)) [] = Some (removed_text (List.filter (fun f => negb (named m keys f)) fs)).
Proof.
  apply (RemoveKeys_text (mem_of 0 64 (render (JObj [(str "a", JText (str "1")); (str "b", JArr []); (str "c", JString (str "b"))]) ++ str "b;d"))
    64 [(str "a", JText (str "1")); (str "b", JArr []); (str "c", JString (str "b"))] _ [_; _] 9).
  - lia.
  - reflexivity.
  - vm_compute. repeat constructor; discriminate.
  - vm_compute. reflexivity.
  - cbn. lia.
  - vm_compute. reflexivity.
Defined.

(** C35: [JsonBeautified::Beautify] terminates on a document in the composer's
    syntax and changes nothing but white space outside the strings, for every line
    width and every indentation that is not negative - under these conditions: no
    string ends in a backslash, texts and names are printable ASCII, there are no
    binaries, and the output cannot outgrow a [UINT]: twice the indentation times
    the nesting depth, plus six, times the length of the document is below
    [2^31]. *)
Theorem Beautify_content m b v indent line_remain :
  0 < b -> jv_ok v = true -> nice v = true -> bytes (render v) -> holds m b (render v) ->
  0 <= indent -> (2 * (indent * Z.of_nat (height v)) + 6) * zlen (render v) < 2 ^ 31 ->
  exists t, Beautify m (mkRef b (b + zlen (render v))) indent line_remain = Some t /\
    strip false 0 t = compact v /\ lexq false 0 t = false.
Proof.
  intros H0 Hok Hn Hb Hh Hi Hs. assert (Hsl : str_len (mkRef b (b + zlen (render v))) = length (render v))
    by (unfold str_len, GetLength; cbn [rb re]; lia).
  destruct (beautify_all indent 80 (Z.of_nat (height v)) m Hi ltac:(lia) v Hok Hn Hb (S (length (render v))) (height_render v)
    b true 0 line_remain [] H0 Hh) as (s & E & Hc & _); [lia|lia|cbn [length]; lia|].
  exists s. unfold Beautify. rewrite Hsl. split; [exact E|]. destruct (Hc 0) as (-> & -> & _). done.
Qed.

Definition edit_sample : jv :=
  JObj [(str "a", JText (str "1")); (str "b", JArr [JString (str "x, \[y"); JObj []; JText (str "true")]); (str "c d", JObj [(str "e", JArr [])])].

Lemma Beautify_content_witness :
  let m := mem_of 0 64 (render edit_sample) in
  (0 < 64 /\ jv_ok edit_sample = true /\ nice edit_sample = true /\ bytes (render edit_sample) /\ holds m 64 (render edit_sample) /\
   (2 * (3 * Z.of_nat (height edit_sample)) + 6) * zlen (render edit_sample) < 2 ^ 31) /\
  exists t, Beautify m (mkRef 64 (64 + zlen (render edit_sample))) 3 10 = Some t /\
    strip false 0 t = compact edit_sample /\ lexq false 0 t = false.
Proof.
  intros m. assert (H1 : 0 < 64) by lia. assert (H2 : jv_ok edit_sample = true) by reflexivity.
  assert (H3 : nice edit_sample = true) by reflexivity.
  assert (H4 : bytes (render edit_sample)) by (vm_compute; repeat constructor; discriminate).
  assert (H5 : holds m 64 (render edit_sample)) by (vm_compute; reflexivity).
  assert (H6 : (2 * (3 * Z.of_nat (height edit_sample)) + 6) * zlen (render edit_sample) < 2 ^ 31) by (vm_compute; reflexivity).
  split; [exact (conj H1 (conj H2 (conj H3 (conj H4 (conj H5 H6)))))|].
  exact (Beautify_content m 64 edit_sample 3 10 H1 H2 H3 H4 H5 ltac:(vm_compute; discriminate) H6).
Defined.

(** A negative indentation becomes a huge [UINT]: the blanks do not fit. *)
Example negative_indent :
  let t := render (JArr [JText (str "1")]) in
  Beautify (mem_of 0 64 t) (mkRef 64 (64 + zlen t)) (-1) 0 = None.
Proof. vm_compute. reflexivity. Qed.

(** A string that ends in an escaped backslash is not seen to end: a blank of
    the next string is lost. *)
Example Beautify_loses_blank :
  let v := JArr [JString [c_bslash; c_bslash]; JString (str "a b")] in
  let t := render v in
  Beautify (mem_of 0 64 t) (mkRef 64 (64 + zlen t)) 3 80 =
  Some (chr "[" :: quoted [c_bslash; c_bslash] ++ [chr ","] ++ quoted (str "ab") ++ [chr "]"]).
Proof. vm_compute. reflexivity. Qed.

(** Appending to an empty object leaves a stray comma. *)
Example append_to_empty : JSON_OBJECT_APPEND (str "{}") (str "k") (str "1") = str "{," ++ quoted (str "k") ++ str ":1}".
Proof. reflexivity. Qed.

Example typed_values :
  let t := render (JObj [(str "n", JText (str "none")); (str "b", JText (str "1")); (str "xs", JArr [JText (str "7"); JText (str "-8"); JText (str "9")])]) in
  let m := mem_of 0 64 (t ++ str "nbxs") in let e := 64 + zlen t in let doc := mkRef 64 e in
  GetValueAs T_INT m doc (mkRef e (e + 1)) 5 = 0 /\
  GetValueAs_bool m doc (mkRef (e + 1) (e + 2)) false = true /\
  map (fun kv => kvp_GetValueAs_bool m kv false) (all_pairs 9 m doc empty_kvp) = [false; false; false] /\
  CopyNumbers 2 T_INT m (JsonArray m (GetValue m doc (mkRef (e + 2) (e + 4)) null_ref false)) = [7; -8].
Proof. vm_compute. auto. Qed.
