(* ===== verification/Dates.v ===== *)
(** Calendar arithmetic of os/kernel.h and os/kernel.cpp: the packed [Date32],
    the day counts of [Timestamp], DOS dates, and dates in text.  The clock and
    the time zone are the platform's and not modelled. *)
From S2P Require Import Prelude Str StrScan.

(** ** Definitions: the calendar *)

(** [%] of a divisor that a negative operand keeps negative. *)
Definition IsLeapYear (year : Z) : bool :=
  (((year .& 3) =? 0) && negb (Z.rem year 100 =? 0)) || (Z.rem year 400 =? 0).

(** A [UINT]: before 1970 it wraps. *)
Definition DaysSince1970 (year : Z) : Z :=
  let year := year - 1 in u32 (365 * year + Z.quot year 400 - Z.quot year 100 + Z.quot year 4 - 719162).
Definition days_before : list Z := [0; 31; 59; 90; 120; 151; 181; 212; 243; 273; 304; 334].
Definition days_before_leap : list Z := [0; 31; 60; 91; 121; 152; 182; 213; 244; 274; 305; 335].
Definition DaysSinceJan1 (year month day : Z) : option Z :=
  d ← (if IsLeapYear year then days_before_leap else days_before) !! Z.to_nat (month - 1);
  if month <? 1 then None else Some (u32 (d + day - 1)).
Definition GetDayOfWeek (year month day : Z) : option Z :=
  d ← DaysSinceJan1 year month day; Some (u32 (DaysSince1970 year + d - 3) mod 7).
Definition month_days : list Z := [31; 28; 31; 30; 31; 30; 31; 31; 30; 31; 30; 31].
(** A month outside 1..12 reads outside the table. *)
Definition GetDayOfMonthMax (year month : Z) : option Z :=
  d ← month_days !! Z.to_nat (month - 1);
  if month <? 1 then None else Some (d + (if (month =? 2) && IsLeapYear year then 1 else 0)).

(** The table of 365 entries. *)
Definition month_table : list Z :=
  concat (imap (fun i d => repeat (Z.of_nat (S i)) (Z.to_nat d)) month_days).
Definition GetMonthFromDays (DaysSinceJan1 year : Z) : option Z :=
  if DaysSinceJan1 <? 0 then None
  else if (DaysSinceJan1 <=? 31 + 28) || negb (IsLeapYear year) then month_table !! Z.to_nat DaysSinceJan1
  else month_table !! Z.to_nat (DaysSinceJan1 - 1).

(** *** Names *)

Definition month_name : list Z :=
  concat (map (fun s => str s ++ [0])
    ["Jan"; "Feb"; "Mar"; "Apr"; "May"; "Jun"; "Jul"; "Aug"; "Sep"; "Oct"; "Nov"; "Dec"]%string).
Definition day_name : list Z :=
  concat (map (fun s => str s ++ [0]) ["Sun"; "Mon"; "Tue"; "Wed"; "Thu"; "Fri"; "Sat"]%string).
(** Three characters of a table of four-byte entries. *)
Definition name_at (table : list Z) (i : Z) : option (list Z) :=
  if (0 <=? i) && (4 * i + 3 <=? zlen table) then Some (firstn 3 (skipn (Z.to_nat (4 * i)) table)) else None.
Definition GetMonthName (month : Z) : option (list Z) := name_at month_name (month - 1).
Definition GetDayOfWeekName (weekday : Z) : option (list Z) := name_at day_name weekday.

Definition month_hash : list Z := [10; 5; 9; 0; 0; 7; 0; 6; 1; 0; 0; 0; 8; 11; 0; 3; 12; 2; 4; 0; 0].
Definition wday_hash : list Z := [0; 0; 3; 4; 6; 5; 0; 0; 0; 0; 1; 7; 0; 2; 0].
(** A negative sum (characters above 127) reads outside the table. *)
Definition hash_name (table : list Z) (b : list Z) : option Z :=
  let s := Z.rem (s8 (nth 0 b 0) + s8 (nth 1 b 0) + s8 (nth 2 b 0)) (zlen table) in
  if s <? 0 then None else table !! Z.to_nat s.
Definition ParseMonthName : list Z -> option Z := hash_name month_hash.
Definition ParseWeekdayName : list Z -> option Z := hash_name wday_hash.

(** [_details::SolveMonth]: the letters are made upper case and compared with
    lower case ones. *)
Definition SolveMonthLetter (l : Z) : Z := if chr "Z" <? l then l - (chr "a" - chr "A") else l.
Definition letter_sum (a b c : Z) : Z := a * 10000 + b * 100 + c.
Definition solve_cases : list Z :=
  map (fun s => let l := str s in letter_sum (nth 0 l 0) (nth 1 l 0) (nth 2 l 0))
    ["jan"; "feb"; "mar"; "apr"; "may"; "jun"; "jul"; "aug"; "sep"; "oct"; "nov"; "dec"]%string.
Fixpoint index_of (x : Z) (l : list Z) (i : Z) : Z :=
  match l with [] => 0 | y :: t => if x =? y then i else index_of x t (i + 1) end.
Definition SolveMonth (m : mem) (seg : ref) : Z :=
  if GetLength seg <? 3 then 0
  else index_of (letter_sum (SolveMonthLetter (sc m (rb seg))) (SolveMonthLetter (sc m (rb seg + 1)))
                   (SolveMonthLetter (sc m (rb seg + 2)))) solve_cases 1.

(** [SolveDate]: year, month and day of three segments and their numbers. *)
Definition in_ranges (year month day : Z) : option (Z * Z * Z) :=
  if (1 <=? month) && (month <=? 12) && (1 <=? day) && (day <=? 31) then Some (year, month, day) else None.
Definition SolveDate (m : mem) (s0 s1 s2 : ref) (n0 n1 n2 : Z) : option (Z * Z * Z) :=
  if (n0 =? 0) && (0 <? SolveMonth m s0) then in_ranges n2 (SolveMonth m s0) n1
  else if (n1 =? 0) && (0 <? SolveMonth m s1) then
    if n2 <? n0 then in_ranges n0 (SolveMonth m s1) n2 else in_ranges n2 (SolveMonth m s1) n0
  else if (n2 =? 0) && (0 <? SolveMonth m s2) then in_ranges n0 (SolveMonth m s2) n1
  else if (n2 =? 0) || (n1 =? 0) || (n0 =? 0) then None
  else if 1000 <? n0 then in_ranges n0 n1 n2
  else if 1000 <? n2 then in_ranges n2 n0 n1
  else None.

(** ** Definitions: date and time fields *)

Record Fields := mkFields {
  Year : Z; Month : Z; Day : Z; DayOfWeek : Z; Hour : Z; Minute : Z; Second : Z; MillSecond : Z }.
Definition SetDateTime (year mon day hour min sec msec : Z) : Fields := mkFields year mon day 0 hour min sec msec.

Definition GetDosDate (f : Fields) : Z := u16 (Day f .| (Month f .<< 5) .| ((Year f - 1980) .<< 9)).
Definition GetDosTime (f : Fields) : Z :=
  u16 (((Second f + Z.quot (MillSecond f + 500) 1000) .>> 1) .| (Minute f .<< 5) .| (Hour f .<< 11)).
Definition SetDosTime (date timex : Z) : Fields :=
  SetDateTime ((date .>> 9) + 1980) ((date .>> 5) .& 0xf) (date .& 0x1f)
    (timex .>> 11) ((timex .>> 5) .& 0x3f) (timex .& 0x1f) 0.

(** Two digits at index [i] of [b]. *)
Definition digit_at (m : mem) (b i : Z) : Z := sc m (b + i) - chr "0".
Definition two (m : mem) (b i : Z) : Z := digit_at m b i * 10 + digit_at m b (i + 1).
Definition FromInternetTimeFormat (m : mem) (s : ref) : option Fields :=
  if (GetLength s =? 29) && (load 4 m (rb s + 25) =? 0x544d4720) then
    let b := rb s in
    mon ← ParseMonthName (mem_bytes m (b + 8) 3);
    Some (mkFields (two m b 12 * 100 + two m b 14) mon (two m b 5) 0 (two m b 17) (two m b 20) (two m b 23) 0)
  else None.

(** [%0nd] of a number that is not negative. *)
Definition padded (n : nat) (v : Z) : list Z := let d := decimal v in repeat (chr "0") (n - length d) ++ d.
Definition ToInternetTimeFormat (f : Fields) : option (list Z) :=
  w ← GetDayOfWeekName (DayOfWeek f); mon ← GetMonthName (Month f);
  Some (w ++ str ", " ++ padded 2 (Day f) ++ str " " ++ mon ++ str " " ++ padded 4 (Year f) ++ str " " ++
        padded 2 (Hour f) ++ str ":" ++ padded 2 (Minute f) ++ str ":" ++ padded 2 (Second f) ++ str " GMT").

(** *** Dates in free text *)

Definition date_seps : cset := CharacterSet (str " -/:.+,;" ++ [9; 13; 10] ++ str "TZ").
(** [EndsWith] of a constant. *)
Definition ends_text (m : mem) (r : ref) (l : list Z) : bool :=
  (zlen l <=? GetLength r) && zlist_eqb (mem_bytes m (re r - zlen l) (length l)) l.
Definition is_pm (m : mem) (r : ref) : bool := ends_text m r (str "pm") || ends_text m r (str "PM").
Definition UINT_of (m : mem) (r : ref) : Z := snd (ToNumber T_UINT m r).

(** The return value and the fields, which keep what is not assigned; the cases
    fall through when no date is found. *)
Definition FromString (m : mem) (f0 : Fields) (s : ref) (low_bound : bool) : option (Z * Fields) :=
  refs ← Split true m s 7 date_seps;
  let f := fun i => nth i refs null_ref in
  let fi := fun i => snd (ToNumber T_INT m (f i)) in
  let bound := fun x : Z => if low_bound then 0 else x in
  let hour_pm := fun h => if (h <? 12) && is_pm m (f 4%nat) then h + 12 else h in
  let date := SolveDate m (f 0%nat) (f 1%nat) (f 2%nat) (fi 0%nat) (fi 1%nat) (fi 2%nat) in
  let with_date (k : Z) (h mi sec ms : Z) (next : Z * Fields) :=
    match date with Some (y, mo, d) => (k, mkFields y mo d 0 h mi sec ms) | None => next end in
  let case2 := (2, mkFields 1970 1 1 0 (hour_pm (fi 0%nat)) (fi 1%nat) (bound 59) (bound 999)) in
  let case3 :=
    if 0 <? FindCharacter m s (chr ":") 0 then (3, mkFields 1970 1 1 0 (fi 0%nat) (fi 1%nat) (fi 2%nat) (bound 999))
    else with_date 3 (bound 23) (bound 59) (bound 59) (bound 999) case2 in
  let case4 := (4, mkFields 1970 1 1 0 (fi 0%nat) (fi 1%nat) (fi 2%nat) (fi 3%nat)) in
  let case5 := with_date 5 (hour_pm (fi 3%nat)) (fi 4%nat) (bound 59) (bound 999) case4 in
  let case6 := with_date 6 (fi 3%nat) (fi 4%nat) (fi 5%nat) (bound 999) case5 in
  let case7 := with_date 7 (fi 3%nat) (fi 4%nat) (fi 5%nat) (fi 6%nat) case6 in
  let unset := mkFields (Year f0) (Month f0) (Day f0) 0 (Hour f0) (Minute f0) (Second f0) (MillSecond f0) in
  let case1 :=
    if GetLength s =? 8 then
      let t := UINT_of m s in
      (3, mkFields (t / 10000) (t mod 10000 / 100) (t mod 100) 0 (bound 23) (bound 59) (bound 59) (bound 999))
    else if GetLength s =? 8 + 6 then
      let t := UINT_of m (SubStr s 0 8) in let u := UINT_of m (SubStr s 8 6) in
      (6, mkFields (t / 10000) (u mod 10000 mod 100) (u mod 100) 0 (u / 10000) (Minute f0) (Second f0) (bound 999))
    else if GetLength s =? 8 + 4 then
      let t := UINT_of m (SubStr s 0 8) in let u := UINT_of m (SubStr s 8 4) in
      (5, mkFields (t / 10000) (t mod 10000 / 100) (t mod 100) 0 (u / 100) (u mod 100) (bound 59) (bound 999))
    else (0, unset) in
  Some (if existsb (fun r => fst (ToNumber T_INT m r) =? 0) refs then (-100, unset)
        else match length refs with
             | 7%nat => case7 | 6%nat => case6 | 5%nat => case5 | 4%nat => case4 | 3%nat => case3 | 2%nat => case2
             | 1%nat => case1 | _ => (0, unset) end).

(** The stream operator of [Fields]: numbers padded by [RightAlign]. *)
Definition RightAlign (w : nat) (pad : Z) (l : list Z) : list Z := repeat pad (w - length l) ++ l.
Definition Number (v : Z) : list Z := decimal_signed v.
Definition Fields_text (f : Fields) : list Z :=
  let two := fun v => RightAlign 2 (chr "0") (Number v) in
  Number (Year f) ++ str "/" ++ two (Month f) ++ str "/" ++ two (Day f) ++ str " " ++ two (Hour f) ++ str ":" ++
  two (Minute f) ++ str ":" ++ two (Second f) ++ str "." ++ RightAlign 3 (chr "0") (Number (MillSecond f)).
Definition Date32_text (d : Z) : list Z :=
  let two := fun v => RightAlign 2 (chr "0") (Number v) in
  Number (d .>> 16) ++ str "/" ++ two ((d .>> 8) .& 0xff) ++ str "/" ++ two (d .& 0xff).

(** ** Definitions: [Date32] *)

(** Year in the upper half, month in the second byte, day in the first. *)
Definition Date32 := Z.
Definition SetDate (year mon day : Z) : Date32 := u32 ((year .<< 16) .| (mon .<< 8) .| day).
Definition GetYear (d : Date32) : Z := d .>> 16.
Definition GetMonth (d : Date32) : Z := (d .>> 8) .& 0xff.
Definition GetDay (d : Date32) : Z := d .& 0xff.
Definition IsMonthEqual (d x : Date32) : bool := ((d .^ x) .& 0xffffff00) =? 0.
Definition SetYear (d : Date32) (y : Z) : Date32 := u32 ((d .& 0xffff) .| (y .<< 16)).
Definition SetMonth (d : Date32) (m : Z) : Date32 := u32 ((d .& 0xffff00ff) .| (m .<< 8)).
Definition SetDay (d : Date32) (x : Z) : Date32 := u32 ((d .& 0xffffff00) .| x).

Definition NextDay (d : Date32) : option Date32 :=
  mx ← GetDayOfMonthMax (GetYear d) (GetMonth d);
  Some (if negb (GetDay d =? mx) then u32 (d + 1)
        else if negb (GetMonth d =? 12) then u32 ((d .& 0xffffff00) + 0x101) else u32 ((d .& 0xffff0000) + 0x10101)).
Definition LastDay (d : Date32) : option Date32 :=
  if negb (GetDay d =? 1) then Some (u32 (d - 1))
  else if negb (GetMonth d =? 1) then
    mx ← GetDayOfMonthMax (GetYear d) (GetMonth d - 1); Some (u32 ((d .& 0xffffff00) - 0x100 + mx))
  else Some (u32 ((d .& 0xffff0000) - 0x10000 + 31 + (12 .<< 8))).
(** [++] and [--] are written out again in the source. *)
Definition incr : Date32 -> option Date32 := NextDay.
Definition decr : Date32 -> option Date32 := LastDay.

Definition NextYear (d : Date32) : Date32 := SetDate (GetYear d + 1) 1 1.
Definition LastYear (d : Date32) : Date32 := SetDate (GetYear d - 1) 1 1.
Definition NextMonth (d : Date32) : Date32 :=
  let m := GetMonth d in SetDate (GetYear d + m / 12) (1 + m mod 12) 1.
Definition LastMonth (d : Date32) : Date32 :=
  let m := GetMonth d in SetDate (GetYear d - Z.quot (13 - m) 12) (1 + (10 + m) mod 12) 1.

(** The loop of [+=] and [-=]. *)
Fixpoint repeated (f : Date32 -> option Date32) (n : nat) (d : Date32) : option Date32 :=
  match n with O => Some d | S k => d ← f d; repeated f k d end.
(** [+=] of a negative number is [-=] of its opposite. *)
Definition add_days (d : Date32) (x : Z) : option Date32 :=
  if x <? 0 then repeated decr (Z.to_nat (- x)) d else repeated incr (Z.to_nat x) d.
Definition sub_days (d : Date32) (x : Z) : option Date32 :=
  if x <? 0 then repeated incr (Z.to_nat (- x)) d else repeated decr (Z.to_nat x) d.

(** [FromString]: three numbers with one character between them; the reading
    goes on behind the text. [n] bounds it. *)
Fixpoint date_number (n : nat) (m : mem) (p v : Z) : Z * Z :=
  match n with
  | O => (p, v)
  | S k => let c := sc m p in
           if (chr "0" <=? c) && (c <=? chr "9") then date_number k m (p + 1) (s32 (v * 10 + (c - chr "0"))) else (p, v)
  end.
Definition DATEFMT_MMDDYYYY : Z := 0x010002.
Definition DATEFMT_YYYYMMDD : Z := 0x020100.
Definition Date_FromString (n : nat) (m : mem) (s : ref) (format : Z) : option Date32 :=
  if IsEmpty s then None
  else
    let '(p, v0) := date_number n m (rb s) 0 in
    let '(p, v1) := date_number n m (p + 1) 0 in
    let '(p, v2) := date_number n m (p + 1) 0 in
    if negb (v0 =? 0) && negb (v1 =? 0) && negb (v2 =? 0) then
      let v := fun i => nth (Z.to_nat i) [v0; v1; v2] 0 in
      Some (SetDate (v (format .& 0xff)) (v ((format .>> 8) .& 0xff)) (v ((format .>> 16) .& 0xff)))
    else None.

(** *** The calendar the counts are compared with *)

(** The days of a month, and those of the months before it. *)
Definition leap (y : Z) : bool := ((y mod 4 =? 0) && negb (y mod 100 =? 0)) || (y mod 400 =? 0).
Definition days_in (y mth : Z) : Z :=
  if mth =? 2 then (if leap y then 29 else 28) else if (mth =? 4) || (mth =? 6) || (mth =? 9) || (mth =? 11) then 30 else 31.
Fixpoint days_to (y : Z) (n : nat) : Z :=
  match n with O => 0 | S k => days_to y k + days_in y (Z.of_nat n) end.
Definition year_days (y : Z) : Z := 365 * (y - 1) + (y - 1) / 4 - (y - 1) / 100 + (y - 1) / 400.
(** Days since January 1st, 1970 in the Gregorian calendar. *)
Definition ordinal (y mth d : Z) : Z := year_days y + days_to y (Z.to_nat (mth - 1)) + (d - 1) - 719162.
Definition ordinal32 (d : Date32) : Z := ordinal (GetYear d) (GetMonth d) (GetDay d).
Definition valid_ymd (y mth d : Z) : Prop := 1 <= y <= 65535 /\ 1 <= mth <= 12 /\ 1 <= d <= days_in y mth.
(** A date word whose fields are a date of the years 1 to 65535. *)
Definition valid_date (d : Date32) : Prop :=
  in_width 32 d /\ valid_ymd (GetYear d) (GetMonth d) (GetDay d).

(** ** The calendar *)

Lemma IsLeapYear_leap y : 0 <= y -> IsLeapYear y = leap y.
Proof.
  intros H. unfold IsLeapYear, leap. change 3 with (2 ^ 2 - 1). rewrite (land_mask 2) by lia.
  by rewrite !Z.rem_mod_nonneg by lia.
Qed.

Lemma month_cases mth : 1 <= mth <= 12 ->
  mth = 1 \/ mth = 2 \/ mth = 3 \/ mth = 4 \/ mth = 5 \/ mth = 6 \/ mth = 7 \/ mth = 8 \/ mth = 9 \/ mth = 10 \/
  mth = 11 \/ mth = 12.
Proof. lia. Qed.

(** Each month in turn. *)
Ltac months H := destruct (month_cases _ H) as [->|[->|[->|[->|[->|[->|[->|[->|[->|[->|[->| ->]]]]]]]]]]].

Lemma days_in_range y mth : 28 <= days_in y mth <= 31.
Proof. unfold days_in. destruct (mth =? 2), (leap y), ((mth =? 4) || (mth =? 6) || (mth =? 9) || (mth =? 11)); lia. Qed.

Lemma GetDayOfMonthMax_days y mth : 0 <= y -> 1 <= mth <= 12 -> GetDayOfMonthMax y mth = Some (days_in y mth).
Proof.
  intros Hy Hm. unfold GetDayOfMonthMax, days_in. rewrite IsLeapYear_leap by done.
  months Hm; destruct (leap y); reflexivity.
Qed.

Lemma days_to_step y mth : 1 <= mth -> days_to y (Z.to_nat mth) = days_to y (Z.to_nat (mth - 1)) + days_in y mth.
Proof.
  intros H. replace (Z.to_nat mth) with (S (Z.to_nat (mth - 1))) by lia. cbn [days_to].
  by replace (Z.of_nat (S (Z.to_nat (mth - 1)))) with mth by lia.
Qed.

Lemma days_to_mono y n k : (n <= k)%nat -> days_to y n <= days_to y k.
Proof.
  induction 1 as [|k Hk IH]; [lia|]. cbn [days_to]. assert (H := days_in_range y (Z.of_nat (S k))). lia.
Qed.

Lemma days_to_year y : days_to y 12 = if leap y then 366 else 365.
Proof. cbn [days_to]. unfold days_in. destruct (leap y); reflexivity. Qed.

Lemma year_days_step y : year_days (y + 1) = year_days y + days_to y 12.
Proof.
  rewrite days_to_year. unfold year_days, leap.
  destruct (y mod 4 =? 0) eqn:E4, (y mod 100 =? 0) eqn:E100, (y mod 400 =? 0) eqn:E400; cbn [andb orb negb]; bool_prop; zlia.
Qed.

Lemma year_days_december y : year_days (y + 1) = year_days y + days_to y (Z.to_nat (12 - 1)) + days_in y 12.
Proof.
  rewrite year_days_step. change 12%nat with (Z.to_nat 12). rewrite (days_to_step y 12) by lia. lia.
Qed.

Lemma year_days_mono y z : y <= z -> year_days y <= year_days z.
Proof. unfold year_days. intros H. zlia. Qed.

(** A valid date lies in its month. *)
Lemma ordinal_month y mth d : 1 <= mth -> 1 <= d <= days_in y mth ->
  ordinal y mth 1 <= ordinal y mth d < ordinal y (mth + 1) 1.
Proof.
  intros Hm Hd. unfold ordinal. replace (mth + 1 - 1) with mth by lia. rewrite (days_to_step y mth) by lia. lia.
Qed.

Lemma ordinal_lt y1 m1 d1 y2 m2 d2 : valid_ymd y1 m1 d1 -> valid_ymd y2 m2 d2 ->
  y1 < y2 \/ y1 = y2 /\ (m1 < m2 \/ m1 = m2 /\ d1 < d2) -> ordinal y1 m1 d1 < ordinal y2 m2 d2.
Proof.
  intros (H1 & H2 & H3) (G1 & G2 & G3) [Hy|[-> [Hm|[-> Hd]]]].
  - apply (Z.lt_le_trans _ (year_days (y1 + 1) - 719162)).
    + destruct (ordinal_month y1 m1 d1) as [_ E]; [lia..|]. apply (Z.lt_le_trans _ _ _ E).
      rewrite year_days_step. unfold ordinal.
      assert (X := days_to_mono y1 (Z.to_nat (m1 + 1 - 1)) 12 ltac:(lia)). lia.
    + assert (X := year_days_mono (y1 + 1) y2 ltac:(lia)). assert (Y := days_to_mono y2 0 (Z.to_nat (m2 - 1)) ltac:(lia)).
      cbn [days_to] in Y. unfold ordinal. lia.
  - destruct (ordinal_month y2 m1 d1) as [_ E]; [lia..|]. apply (Z.lt_le_trans _ _ _ E).
    assert (X := days_to_mono y2 (Z.to_nat (m1 + 1 - 1)) (Z.to_nat (m2 - 1)) ltac:(lia)). unfold ordinal. lia.
  - unfold ordinal. lia.
Qed.

(** The source's counts are the calendar's, as machine words. *)
Lemma days_tables y mth : 0 <= y -> 1 <= mth <= 12 ->
  (if IsLeapYear y then days_before_leap else days_before) !! Z.to_nat (mth - 1) =
  Some (days_to y (Z.to_nat (mth - 1))).
Proof.
  intros Hy Hm. rewrite IsLeapYear_leap by done.
  months Hm; match goal with |- context [Z.to_nat ?k] =>
    let n := eval vm_compute in (Z.to_nat k) in change (Z.to_nat k) with n end;
    cbn [days_to]; unfold days_in; destruct (leap y); reflexivity.
Qed.

Lemma u32_add_l a b : u32 (u32 a + b) = u32 (a + b).
Proof. unfold u32, wrap. by rewrite Zplus_mod_idemp_l. Qed.
Lemma u32_add_r a b : u32 (a + u32 b) = u32 (a + b).
Proof. unfold u32, wrap. by rewrite Zplus_mod_idemp_r. Qed.

Lemma DaysSince1970_days y : 1 <= y -> DaysSince1970 y = u32 (year_days y - 719162).
Proof.
  intros H. unfold DaysSince1970, year_days. cbv zeta. rewrite !Z.quot_div_nonneg by lia. f_equal. lia.
Qed.

Lemma DaysSinceJan1_days y mth d : 1 <= y -> 1 <= mth <= 12 ->
  DaysSinceJan1 y mth d = Some (u32 (days_to y (Z.to_nat (mth - 1)) + d - 1)).
Proof.
  intros Hy Hm. unfold DaysSinceJan1. rewrite days_tables by lia. cbn.
  by replace (mth <? 1) with false by lia.
Qed.

(** ** [Date32] *)

Lemma SetDate_val y mth d : 0 <= y < 65536 -> is_byte mth -> is_byte d ->
  SetDate y mth d = y * 65536 + mth * 256 + d.
Proof.
  unfold in_width. intros Hy Hm Hd. unfold SetDate. rewrite !shl_mul by lia.
  replace (y * 2 ^ 16) with ((y * 2 ^ 8) * 2 ^ 8) by lia. rewrite <- (shl_mul 8 (y * 2 ^ 8)), <- (shl_mul 8 mth) by lia.
  rewrite <- Z.shiftl_lor, (shl_mul 8 _) by lia.
  rewrite (lor_low 8 y) by (unfold in_width; lia). rewrite lor_low by (unfold in_width; lia).
  unfold u32. rewrite wrap_id by (unfold in_width; lia). lia.
Qed.

Lemma fields_val d : 0 <= d -> GetYear d = d / 65536 /\ GetMonth d = (d / 256) mod 256 /\ GetDay d = d mod 256.
Proof.
  intros H. unfold GetYear, GetMonth, GetDay. change 0xff with (2 ^ 8 - 1).
  rewrite !shr_div, !land_mask by lia. done.
Qed.

Lemma fields_SetDate y mth d : 0 <= y < 65536 -> is_byte mth -> is_byte d ->
  GetYear (SetDate y mth d) = y /\ GetMonth (SetDate y mth d) = mth /\ GetDay (SetDate y mth d) = d.
Proof.
  intros Hy Hm Hd. rewrite SetDate_val by done. unfold in_width in *.
  destruct (fields_val (y * 65536 + mth * 256 + d)) as (-> & -> & ->); [lia|]. repeat split; zlia.
Qed.

Lemma Date32_eta d : in_width 32 d -> d = SetDate (GetYear d) (GetMonth d) (GetDay d).
Proof.
  unfold in_width. intros H. destruct (fields_val d) as (Ey & Em & Ed); [lia|].
  rewrite SetDate_val by (unfold in_width; rewrite ?Ey, ?Em, ?Ed; zlia). rewrite Ey, Em, Ed. zlia.
Qed.

Lemma clear_low k d : 0 <= k <= 32 -> in_width 32 d -> d .& (2 ^ 32 - 2 ^ k) = d / 2 ^ k * 2 ^ k.
Proof.
  unfold in_width. intros Hk Hd. assert (E : 2 ^ 32 = 2 ^ (32 - k) * 2 ^ k) by (rewrite <- Z.pow_add_r by lia; f_equal; lia).
  replace (2 ^ 32 - 2 ^ k) with ((2 ^ (32 - k) - 1) .<< k) by (rewrite shl_mul by lia; lia).
  rewrite land_shl, shl_mul, land_mask, shr_div by lia. f_equal. apply Z.mod_small. split; [apply Z.div_pos; lia|].
  apply Z.div_lt_upper_bound; lia.
Qed.

Definition date_val (y mth d : Z) : Z := y * 65536 + mth * 256 + d.

Lemma valid_bytes y mth d : valid_ymd y mth d -> 0 <= y < 65536 /\ is_byte mth /\ is_byte d.
Proof. intros (H1 & H2 & H3). assert (X := days_in_range y mth). unfold in_width. lia. Qed.

Lemma valid_SetDate y mth d : valid_ymd y mth d ->
  SetDate y mth d = date_val y mth d /\ valid_date (SetDate y mth d) /\
  GetYear (SetDate y mth d) = y /\ GetMonth (SetDate y mth d) = mth /\ GetDay (SetDate y mth d) = d.
Proof.
  intros H. destruct (valid_bytes _ _ _ H) as (B1 & B2 & B3).
  destruct (fields_SetDate y mth d) as (E1 & E2 & E3); [done..|].
  split; [by apply SetDate_val|]. unfold valid_date. rewrite E1, E2, E3.
  split; [|done]. split; [|done]. apply u32_range.
Qed.

Lemma valid_date_eta d : valid_date d -> exists y mth x, valid_ymd y mth x /\ d = SetDate y mth x.
Proof. intros [H V]. exists (GetYear d), (GetMonth d), (GetDay d). split; [done|]. by apply Date32_eta. Qed.

Lemma ordinal_SetDate y mth d : valid_ymd y mth d -> ordinal32 (SetDate y mth d) = ordinal y mth d.
Proof. intros V. destruct (valid_SetDate _ _ _ V) as (_ & _ & E1 & E2 & E3). unfold ordinal32. by rewrite E1, E2, E3. Qed.

(** The two upper fields of a date word. *)
Lemma upper_fields y mth d : valid_ymd y mth d ->
  SetDate y mth d .& 0xffffff00 = date_val y mth 0 /\ SetDate y mth d .& 0xffff0000 = date_val y 0 0.
Proof.
  intros V. destruct (valid_SetDate _ _ _ V) as (E & (W & _) & _). destruct (valid_bytes _ _ _ V) as (B1 & B2 & B3).
  change 0xffffff00 with (2 ^ 32 - 2 ^ 8). change 0xffff0000 with (2 ^ 32 - 2 ^ 16).
  rewrite !clear_low by (done || lia). rewrite E. unfold date_val, in_width in *. zlia.
Qed.

Lemma u32_date_val y mth d : valid_ymd y mth d -> u32 (date_val y mth d) = SetDate y mth d.
Proof.
  intros V. destruct (valid_SetDate _ _ _ V) as (E & (W & _) & _). rewrite E in *. apply wrap_id, W.
Qed.

(** The day after and the day before, by fields. *)
Definition next_ymd (y mth d : Z) : Z * Z * Z :=
  if negb (d =? days_in y mth) then (y, mth, d + 1) else if negb (mth =? 12) then (y, mth + 1, 1) else (y + 1, 1, 1).
Definition last_ymd (y mth d : Z) : Z * Z * Z :=
  if negb (d =? 1) then (y, mth, d - 1)
  else if negb (mth =? 1) then (y, mth - 1, days_in y (mth - 1)) else (y - 1, 12, 31).

Definition valid3 (t : Z * Z * Z) : Prop := let '(y, mth, d) := t in valid_ymd y mth d.
Definition date3 (t : Z * Z * Z) : Date32 := let '(y, mth, d) := t in SetDate y mth d.
Definition ordinal3 (t : Z * Z * Z) : Z := let '(y, mth, d) := t in ordinal y mth d.

Lemma incr_next y mth d : valid_ymd y mth d -> valid3 (next_ymd y mth d) ->
  incr (SetDate y mth d) = Some (date3 (next_ymd y mth d)).
Proof.
  intros V. destruct (valid_SetDate _ _ _ V) as (E & _ & E1 & E2 & E3). destruct (upper_fields _ _ _ V) as [U1 U2].
  destruct V as (V1 & V2 & V3). unfold incr, NextDay. rewrite E1, E2, E3, U1, U2, GetDayOfMonthMax_days by lia.
  cbn [mbind option_bind]. unfold next_ymd. intros N. f_equal. destruct (negb (d =? _)) eqn:Ed; [|destruct (negb (mth =? _)) eqn:Em].
  - cbn in N |- *. rewrite E, <- (u32_date_val _ _ _ N). f_equal. unfold date_val. lia.
  - cbn in N |- *. rewrite <- (u32_date_val _ _ _ N). f_equal. unfold date_val. lia.
  - cbn in N |- *. rewrite <- (u32_date_val _ _ _ N). f_equal. unfold date_val. bool_prop. lia.
Qed.

Lemma decr_last y mth d : valid_ymd y mth d -> valid3 (last_ymd y mth d) ->
  decr (SetDate y mth d) = Some (date3 (last_ymd y mth d)).
Proof.
  intros V. destruct (valid_SetDate _ _ _ V) as (E & _ & E1 & E2 & E3). destruct (upper_fields _ _ _ V) as [U1 U2].
  destruct V as (V1 & V2 & V3). unfold decr, LastDay, last_ymd. rewrite E1, E2, E3, U1, U2.
  destruct (negb (d =? 1)) eqn:Ed; [|destruct (negb (mth =? 1)) eqn:Em]; cbn [valid3 date3]; intros N.
  - f_equal. rewrite E, <- (u32_date_val _ _ _ N). f_equal. unfold date_val. lia.
  - bool_prop. rewrite GetDayOfMonthMax_days by lia. cbn. f_equal. rewrite <- (u32_date_val _ _ _ N). f_equal. unfold date_val. lia.
  - f_equal. rewrite <- (u32_date_val _ _ _ N). f_equal. change (12 .<< 8) with 3072. unfold date_val. bool_prop. lia.
Qed.

Lemma next_ordinal y mth d : valid_ymd y mth d -> ordinal3 (next_ymd y mth d) = ordinal y mth d + 1.
Proof.
  intros (V1 & V2 & V3). unfold next_ymd. destruct (negb (d =? _)) eqn:Ed; [|destruct (negb (mth =? _)) eqn:Em]; bool_prop; cbn [ordinal3].
  - unfold ordinal. lia.
  - unfold ordinal. replace (mth + 1 - 1) with mth by lia. rewrite (days_to_step y mth) by lia. lia.
  - subst mth. unfold ordinal. rewrite year_days_december. change (Z.to_nat (1 - 1)) with 0%nat. cbn [days_to]. lia.
Qed.

Lemma last_ordinal y mth d : valid_ymd y mth d -> ordinal3 (last_ymd y mth d) = ordinal y mth d - 1.
Proof.
  intros (V1 & V2 & V3). unfold last_ymd. destruct (negb (d =? _)) eqn:Ed; [|destruct (negb (mth =? _)) eqn:Em]; bool_prop; cbn [ordinal3].
  - unfold ordinal. lia.
  - unfold ordinal. rewrite (days_to_step y (mth - 1)) by lia. lia.
  - subst mth. unfold ordinal. assert (X := year_days_december (y - 1)). replace (y - 1 + 1) with y in X by lia.
    change (Z.to_nat (1 - 1)) with 0%nat. cbn [days_to]. change (days_in (y - 1) 12) with 31 in X. lia.
Qed.

(** A date that has a next day within the range has a valid one, and the same
    for the day before. *)
Definition first_day : Z := ordinal 1 1 1.
Definition final_day : Z := ordinal 65535 12 31.

Lemma next_valid y mth d : valid_ymd y mth d -> ordinal y mth d < final_day -> valid3 (next_ymd y mth d).
Proof.
  intros (V1 & V2 & V3) L. unfold next_ymd. destruct (negb (d =? _)) eqn:Ed; [|destruct (negb (mth =? _)) eqn:Em]; bool_prop; cbn.
  - unfold valid_ymd. lia.
  - assert (X := days_in_range y (mth + 1)). unfold valid_ymd. lia.
  - assert (X := days_in_range (y + 1) 1). unfold valid_ymd. subst mth. assert (y <> 65535); [|lia].
    intros ->. subst d. unfold final_day in L. change (days_in 65535 12) with 31 in L. lia.
Qed.

Lemma last_valid y mth d : valid_ymd y mth d -> first_day < ordinal y mth d -> valid3 (last_ymd y mth d).
Proof.
  intros (V1 & V2 & V3) L. unfold last_ymd. destruct (negb (d =? _)) eqn:Ed; [|destruct (negb (mth =? _)) eqn:Em]; bool_prop; cbn.
  - unfold valid_ymd. lia.
  - assert (X := days_in_range y (mth - 1)). unfold valid_ymd. lia.
  - unfold valid_ymd. change (days_in (y - 1) 12) with 31. subst mth. assert (y <> 1); [|lia].
    intros ->. subst d. unfold first_day in L. lia.
Qed.

Lemma ordinal3_valid t : valid3 t -> valid_date (date3 t) /\ ordinal32 (date3 t) = ordinal3 t.
Proof. destruct t as [[y mth] d]. cbn. intros V. split; [by apply valid_SetDate|by apply ordinal_SetDate]. Qed.

(** The order of the words is the order of the days. *)
Lemma Date32_order d e : valid_date d -> valid_date e -> (d < e <-> ordinal32 d < ordinal32 e).
Proof.
  intros Vd Ve. destruct (valid_date_eta _ Vd) as (y1 & m1 & d1 & V1 & ->), (valid_date_eta _ Ve) as (y2 & m2 & d2 & V2 & ->).
  rewrite !ordinal_SetDate by done.
  destruct (valid_SetDate _ _ _ V1) as (-> & _), (valid_SetDate _ _ _ V2) as (-> & _).
  assert (B1 := valid_bytes _ _ _ V1). assert (B2 := valid_bytes _ _ _ V2). unfold in_width in *.
  unfold date_val. split.
  - intros H. apply ordinal_lt; [done..|lia].
  - intros H. apply Z.nle_gt. intros C. assert (D : date_val y2 m2 d2 = date_val y1 m1 d1 \/ date_val y2 m2 d2 < date_val y1 m1 d1)
      by (unfold date_val; lia). unfold date_val in D. destruct D as [D|D].
    + assert (y1 = y2 /\ m1 = m2 /\ d1 = d2) as (-> & -> & ->) by lia. lia.
    + assert (X := ordinal_lt y2 m2 d2 y1 m1 d1 V2 V1 ltac:(lia)). lia.
Qed.

Lemma Date32_unique d e : valid_date d -> valid_date e -> ordinal32 d = ordinal32 e -> d = e.
Proof.
  intros Vd Ve E. assert (A := Date32_order d e Vd Ve). assert (B := Date32_order e d Ve Vd). lia.
Qed.

Lemma incr_spec d : valid_date d -> ordinal32 d < final_day ->
  exists d', incr d = Some d' /\ valid_date d' /\ ordinal32 d' = ordinal32 d + 1.
Proof.
  intros Vd. destruct (valid_date_eta _ Vd) as (y & mth & x & V & ->). rewrite ordinal_SetDate by done. intros L.
  assert (N := next_valid _ _ _ V L). destruct (ordinal3_valid _ N) as [A B].
  eexists. split; [by apply incr_next|]. split; [done|]. rewrite B. by apply next_ordinal.
Qed.

Lemma decr_spec d : valid_date d -> first_day < ordinal32 d ->
  exists d', decr d = Some d' /\ valid_date d' /\ ordinal32 d' = ordinal32 d - 1.
Proof.
  intros Vd. destruct (valid_date_eta _ Vd) as (y & mth & x & V & ->). rewrite ordinal_SetDate by done. intros L.
  assert (N := last_valid _ _ _ V L). destruct (ordinal3_valid _ N) as [A B].
  eexists. split; [by apply decr_last|]. split; [done|]. rewrite B. by apply last_ordinal.
Qed.

Lemma repeated_incr n : forall d, valid_date d -> ordinal32 d + Z.of_nat n <= final_day ->
  exists d', repeated incr n d = Some d' /\ valid_date d' /\ ordinal32 d' = ordinal32 d + Z.of_nat n.
Proof.
  induction n as [|n IH]; intros d V L; cbn [repeated].
  - exists d. split; [done|]. split; [done|lia].
  - destruct (incr_spec d V ltac:(lia)) as (d1 & -> & V1 & E1). cbn.
    destruct (IH d1 V1 ltac:(lia)) as (d2 & -> & V2 & E2). exists d2. split; [done|]. split; [done|lia].
Qed.

Lemma repeated_decr n : forall d, valid_date d -> first_day <= ordinal32 d - Z.of_nat n ->
  exists d', repeated decr n d = Some d' /\ valid_date d' /\ ordinal32 d' = ordinal32 d - Z.of_nat n.
Proof.
  induction n as [|n IH]; intros d V L; cbn [repeated].
  - exists d. split; [done|]. split; [done|lia].
  - destruct (decr_spec d V ltac:(lia)) as (d1 & -> & V1 & E1). cbn.
    destruct (IH d1 V1 ltac:(lia)) as (d2 & -> & V2 & E2). exists d2. split; [done|]. split; [done|lia].
Qed.

Lemma add_days_spec d x : valid_date d -> first_day <= ordinal32 d + x <= final_day ->
  exists d', add_days d x = Some d' /\ sub_days d (- x) = Some d' /\ valid_date d' /\ ordinal32 d' = ordinal32 d + x.
Proof.
  intros V L. unfold add_days, sub_days. rewrite Z.opp_involutive. destruct (Z.ltb_spec x 0) as [H|H].
  - replace (- x <? 0) with false by lia.
    destruct (repeated_decr (Z.to_nat (- x)) d V ltac:(lia)) as (d' & -> & V' & E). exists d'. do 3 (split; [done|]). lia.
  - destruct (Z.ltb_spec (- x) 0).
    + destruct (repeated_incr (Z.to_nat x) d V ltac:(lia)) as (d' & -> & V' & E). exists d'. do 3 (split; [done|]). lia.
    + assert (x = 0) as -> by lia. exists d. cbn. do 3 (split; [done|]). lia.
Qed.

Lemma GetDayOfWeek_days y mth d : valid_ymd y mth d -> 3 <= ordinal y mth d ->
  GetDayOfWeek y mth d = Some ((ordinal y mth d + 4) mod 7).
Proof.
  intros (V1 & V2 & V3) L. unfold GetDayOfWeek. rewrite DaysSinceJan1_days, DaysSince1970_days by lia. cbn [mbind option_bind].
  f_equal. set (a := year_days y - 719162). set (b := days_to y (Z.to_nat (mth - 1)) + d - 1).
  replace (u32 a + u32 b - 3) with (u32 a + (u32 b - 3)) by lia. rewrite u32_add_l.
  replace (a + (u32 b - 3)) with (u32 b + (a - 3)) by lia. rewrite u32_add_l.
  replace (b + (a - 3)) with (ordinal y mth d - 3) by (unfold ordinal, a, b; lia).
  unfold u32. rewrite wrap_id; [zlia|]. split; [lia|].
  assert (X := days_to_mono y (Z.to_nat (mth - 1)) 12 ltac:(lia)). rewrite days_to_year in X.
  assert (Y := days_in_range y mth). assert (Z := year_days_mono y 65535 ltac:(lia)).
  change (year_days 65535) with 23935801 in Z. unfold ordinal. destruct (leap y); lia.
Qed.

(** [GetMonthFromDays] is right except for February 29th, for which it gives
    March. *)
Lemma GetMonthFromDays_month y mth d : valid_ymd y mth d ->
  GetMonthFromDays (days_to y (Z.to_nat (mth - 1)) + d - 1) y =
  Some (if leap y && (mth =? 2) && (d =? 29) then 3 else mth).
Proof.
  intros (V1 & V2 & V3). unfold GetMonthFromDays. rewrite IsLeapYear_leap by lia. remember (Z.to_nat (d - 1)) as n.
  replace d with (Z.of_nat n + 1) in * by lia. assert (n < 31)%nat by (assert (X := days_in_range y mth); lia). clear Heqn.
  months V2; match goal with |- context [Z.to_nat ?k] =>
    let n := eval vm_compute in (Z.to_nat k) in change (Z.to_nat k) with n end;
    cbn [days_to]; unfold days_in in *; destruct (leap y);
    do 31 (destruct n as [|n]; [first [reflexivity | exfalso; cbn in V3; lia]|]); lia.
Qed.

(** Every valid date lies between the first and the last day. *)
Lemma ordinal_range d : valid_date d -> first_day <= ordinal32 d <= final_day.
Proof.
  intros V. assert (F : valid_ymd 1 1 1) by (unfold valid_ymd; change (days_in 1 1) with 31; lia).
  assert (T : valid_ymd 65535 12 31) by (unfold valid_ymd; change (days_in 65535 12) with 31; lia).
  destruct (valid_date_eta _ V) as (y & mth & z & W & ->). rewrite ordinal_SetDate by done.
  assert (X := days_in_range y mth). assert (D := W). destruct D as (W1 & W2 & W3).
  unfold first_day, final_day. split; apply Z.nlt_ge; intros C.
  - destruct (decide (y = 1 /\ mth = 1 /\ z = 1)) as [(-> & -> & ->)|N]; [lia|].
    assert (E := ordinal_lt 1 1 1 y mth z F W ltac:(lia)). lia.
  - destruct (decide (y = 65535 /\ mth = 12 /\ z = 31)) as [(-> & -> & ->)|N]; [lia|].
    assert (E := ordinal_lt y mth z 65535 12 31 W T ltac:(lia)). lia.
Qed.

(** C39: For every date of the years 1 to 65535, adding or subtracting a number of
    days that stays in that range ends in a valid date that many calendar days
    away (leap years and month lengths included), subtracting takes the addition
    back, the unsigned order of the words is the order of the days, and the day
    counts are the calendar's; from January 4th, 1970 on, so is the day of the week
    (before that the code's is not, [next_days]). *)
Theorem Date32_arithmetic d x : valid_date d -> first_day <= ordinal32 d + x <= final_day ->
  exists d' k, add_days d x = Some d' /\ sub_days d (- x) = Some d' /\ sub_days d' x = Some d /\
    valid_date d' /\ ordinal32 d' = ordinal32 d + x /\ (d < d' <-> 0 < x) /\
    DaysSinceJan1 (GetYear d') (GetMonth d') (GetDay d') = Some k /\
    u32 (DaysSince1970 (GetYear d') + k) = u32 (ordinal32 d') /\
    (3 <= ordinal32 d' -> GetDayOfWeek (GetYear d') (GetMonth d') (GetDay d') = Some ((ordinal32 d' + 4) mod 7)).
Proof.
  intros V L. destruct (add_days_spec d x V L) as (d' & A & B & V' & E).
  assert (L' : first_day <= ordinal32 d' + - x <= final_day).
  { replace (ordinal32 d' + - x) with (ordinal32 d) by lia. by apply ordinal_range. }
  destruct (add_days_spec d' (- x) V' L') as (d2 & _ & A2 & V2 & E2). rewrite Z.opp_involutive in A2.
  rewrite (Date32_unique d2 d V2 V) in A2 by lia. destruct V' as (W & Vy). assert (VV := Vy). destruct Vy as (V1 & V3 & V4).
  exists d'. eexists. do 3 (split; [done|]). split; [done|]. split; [done|].
  split; [rewrite Date32_order by done; lia|]. split; [apply DaysSinceJan1_days; lia|]. split.
  - rewrite DaysSince1970_days, u32_add_l, u32_add_r by lia. f_equal. unfold ordinal32, ordinal. lia.
  - intros H3. by apply GetDayOfWeek_days.
Qed.

Lemma Date32_arithmetic_witness :
  valid_date (SetDate 1900 2 28) /\ first_day <= ordinal32 (SetDate 1900 2 28) + 1 <= final_day /\
  exists d' k, add_days (SetDate 1900 2 28) 1 = Some d' /\ sub_days (SetDate 1900 2 28) (- 1) = Some d' /\ sub_days d' 1 = Some (SetDate 1900 2 28) /\
    valid_date d' /\ ordinal32 d' = ordinal32 (SetDate 1900 2 28) + 1 /\ (SetDate 1900 2 28 < d' <-> 0 < 1) /\
    DaysSinceJan1 (GetYear d') (GetMonth d') (GetDay d') = Some k /\
    u32 (DaysSince1970 (GetYear d') + k) = u32 (ordinal32 d') /\
    (3 <= ordinal32 d' -> GetDayOfWeek (GetYear d') (GetMonth d') (GetDay d') = Some ((ordinal32 d' + 4) mod 7)).
Proof.
  assert (V : valid_date (SetDate 1900 2 28)).
  { apply valid_SetDate. unfold valid_ymd. change (days_in 1900 2) with 28. lia. }
  assert (L : first_day <= ordinal32 (SetDate 1900 2 28) + 1 <= final_day) by (vm_compute; split; discriminate).
  split; [exact V|]. split; [exact L|]. exact (Date32_arithmetic (SetDate 1900 2 28) 1 V L).
Defined.

(** The day after February 28th of a leap year, of a century year, and of a
    year; the first days of 1970 have the wrong day of the week. *)
Example next_days :
  add_days (SetDate 2000 2 28) 1 = Some (SetDate 2000 2 29) /\ add_days (SetDate 1900 2 28) 1 = Some (SetDate 1900 3 1) /\
  add_days (SetDate 2023 12 31) 60 = Some (SetDate 2024 2 29) /\
  GetDayOfWeek 1970 1 4 = Some 0 /\ GetDayOfWeek 1970 1 1 = Some 1 /\ GetDayOfWeek 1969 12 31 = Some 0.
Proof. vm_compute. done. Qed.

(** ** Names *)

(** No three characters are recognised as a month name: the sums compared are
    of lower case letters. *)
Lemma SolveMonth_never m seg : SolveMonth m seg = 0.
Proof.
  unfold SolveMonth. destruct (GetLength seg <? 3); [done|].
  assert (R : forall a, SolveMonthLetter (sc m a) <= 95).
  { intros a. unfold SolveMonthLetter, sc. change (chr "Z") with 90. change (chr "a" - chr "A") with 32.
    assert (X : s8 (m a) <= 127) by (unfold s8, swrap; zlia). case_cmp; lia. }
  assert (R0 := R (rb seg)). assert (R1 := R (rb seg + 1)). assert (R2 := R (rb seg + 2)). clear R.
  unfold letter_sum. assert (G : forall l x i, (forall y, In y l -> x < y) -> index_of x l i = 0).
  { induction l as [|y l IH]; intros x i H; cbn [index_of]; [done|].
    assert (x < y) by (apply H; left; done). destruct (Z.eqb_spec x y); [lia|]. apply IH. intros z Hz. apply H. by right. }
  apply G. intros y Hy. assert (X : forallb (Z.leb 970000) solve_cases = true) by reflexivity.
  rewrite forallb_forall in X. specialize (X y Hy). bool_prop. lia.
Qed.

Lemma names_parse :
  (forall i, 1 <= i <= 12 -> exists w, GetMonthName i = Some w /\ length w = 3%nat /\ ParseMonthName w = Some i) /\
  (forall i, 0 <= i <= 6 -> exists w, GetDayOfWeekName i = Some w /\ length w = 3%nat /\ ParseWeekdayName w = Some (i + 1)).
Proof.
  split; intros i Hi.
  - months Hi; eexists; split_and!; reflexivity.
  - assert (i = 0 \/ i = 1 \/ i = 2 \/ i = 3 \/ i = 4 \/ i = 5 \/ i = 6) as [->|[->|[->|[->|[->|[->| ->]]]]]] by lia;
      eexists; split_and!; reflexivity.
Qed.

(** ** Dates in text *)

Lemma range_check (P : Z -> bool) n v : forallb P (map Z.of_nat (seq 0 n)) = true -> 0 <= v < Z.of_nat n -> P v = true.
Proof.
  rewrite forallb_forall. intros H Hv. apply H. rewrite <- (Z2Nat.id v) by lia. apply List.in_map, in_seq. lia.
Qed.

Lemma padded2 v : 0 <= v < 100 -> padded 2 v = [48 + v / 10; 48 + v mod 10].
Proof.
  intros H. apply zlist_eqb_eq. apply (range_check (fun v => zlist_eqb (padded 2 v) [48 + v / 10; 48 + v mod 10]) 100 v); [vm_compute; done|lia].
Qed.

Lemma padded4 v : 0 <= v < 10000 -> padded 4 v = padded 2 (v / 100) ++ padded 2 (v mod 100).
Proof.
  intros H. apply zlist_eqb_eq.
  apply (range_check (fun v => zlist_eqb (padded 4 v) (padded 2 (v / 100) ++ padded 2 (v mod 100))) (100 * 100) v); [vm_compute; done|lia].
Qed.

Lemma two_digits m b i v : m (b + i) = 48 + v / 10 -> m (b + (i + 1)) = 48 + v mod 10 -> 0 <= v < 100 -> two m b i = v.
Proof.
  intros E1 E2 H. unfold two, digit_at, sc. rewrite E1, E2. change (chr "0") with 48.
  assert (0 <= v / 10 <= 9 /\ 0 <= v mod 10 <= 9) by zlia. unfold s8, swrap.
  rewrite !Z.mod_small by lia. zlia.
Qed.

(** Fields whose text has the fixed width. *)
Definition printable (f : Fields) : Prop :=
  0 <= DayOfWeek f <= 6 /\ 1 <= Month f <= 12 /\ 0 <= Year f < 10000 /\ 0 <= Day f < 100 /\
  0 <= Hour f < 100 /\ 0 <= Minute f < 100 /\ 0 <= Second f < 100.

(** The RFC 1123 text of printable fields is 29 characters, and the parser
    gives the same date and time back from it wherever the text lies (the day of
    the week, which it checks nothing of, and the milliseconds are cleared). *)
Theorem internet_time_roundtrip f : printable f ->
  exists t, ToInternetTimeFormat f = Some t /\ length t = 29%nat /\
    forall m s, GetLength s = 29 -> text m s = t ->
      FromInternetTimeFormat m s =
      Some (mkFields (Year f) (Month f) (Day f) 0 (Hour f) (Minute f) (Second f) 0).
Proof.
  intros (Hw & Hm & Hy & Hd & Hh & Hi & Hs). destruct names_parse as [NM NW].
  destruct (NM _ Hm) as (mn & Em & Lm & Pm), (NW _ Hw) as (wn & Ew & Lw & _).
  destruct mn as [|m0 [|m1 [|m2 [|]]]]; try discriminate Lm. destruct wn as [|w0 [|w1 [|w2 [|]]]]; try discriminate Lw.
  unfold ToInternetTimeFormat. rewrite Ew, Em. cbn [mbind option_bind].
  rewrite padded4, !padded2 by zlia. eexists. split; [reflexivity|]. split; [reflexivity|].
  intros m s Hl Ht. unfold text in Ht. rewrite Hl in Ht.
  assert (H : forall k a, a = rb s + Z.of_nat k -> (k < 29)%nat -> m a = nth k (mem_bytes m (rb s) 29) 0).
  { intros k a -> Hk. apply (holds_nth m (rb s) _ k 0); unfold holds; by rewrite length_mem_bytes. }
  change (Z.to_nat 29) with 29%nat in Ht. rewrite Ht in H.
  unfold FromInternetTimeFormat. rewrite Hl.
  assert (T : (load 4 m (rb s + 25) =? 0x544d4720) = true).
  { unfold load. cbn [mem_bytes].
    rewrite (H 25%nat (rb s + 25)), (H 26%nat (rb s + 25 + 1)), (H 27%nat (rb s + 25 + 1 + 1)),
      (H 28%nat (rb s + 25 + 1 + 1 + 1)) by lia. reflexivity. }
  rewrite T. change ((29 =? 29) && true) with true. cbv iota zeta.
  replace (mem_bytes m (rb s + 8) 3) with [m0; m1; m2]
    by (cbn [mem_bytes]; by rewrite (H 8%nat (rb s + 8)), (H 9%nat (rb s + 8 + 1)), (H 10%nat (rb s + 8 + 1 + 1)) by lia).
  rewrite Pm. cbn [mbind option_bind]. do 2 f_equal;
  [rewrite (two_digits m (rb s) 12 (Year f / 100)), (two_digits m (rb s) 14 (Year f mod 100)); [zlia|..]
  |apply two_digits..]; try zlia;
  match goal with |- m (rb s + ?k) = _ =>
    let n := eval vm_compute in (Z.to_nat k) in exact (H n _ eq_refl ltac:(lia)) end.
Qed.

Lemma internet_time_roundtrip_witness :
  printable (mkFields 1994 11 15 2 12 45 26 0) /\
  exists t, ToInternetTimeFormat (mkFields 1994 11 15 2 12 45 26 0) = Some t /\ length t = 29%nat /\
    forall m s, GetLength s = 29 -> text m s = t ->
      FromInternetTimeFormat m s = Some (mkFields 1994 11 15 0 12 45 26 0).
Proof.
  assert (V : printable (mkFields 1994 11 15 2 12 45 26 0)) by (unfold printable; cbn; lia).
  split; [exact V|]. exact (internet_time_roundtrip _ V).
Defined.

Example ToInternetTimeFormat_example :
  ToInternetTimeFormat (mkFields 1994 11 15 2 12 45 26 0) = Some (str "Tue, 15 Nov 1994 12:45:26 GMT").
Proof. reflexivity. Qed.

(** DOS dates keep the date, the hour and the minute; the seconds come back
    halved, with the milliseconds rounded in. *)
Lemma dos_roundtrip f : 1980 <= Year f < 2108 -> 0 <= Month f < 16 -> 0 <= Day f < 32 -> 0 <= Hour f < 32 ->
  0 <= Minute f < 64 -> 0 <= Second f < 60 -> 0 <= MillSecond f < 1000 ->
  SetDosTime (GetDosDate f) (GetDosTime f) =
  mkFields (Year f) (Month f) (Day f) 0 (Hour f) (Minute f) ((Second f + (MillSecond f + 500) / 1000) / 2) 0.
Proof.
  intros Hy Hm Hd Hh Hi Hs Hms. unfold GetDosDate, GetDosTime. rewrite Z.quot_div_nonneg by lia.
  set (s2 := (Second f + (MillSecond f + 500) / 1000) .>> 1).
  assert (S : s2 = (Second f + (MillSecond f + 500) / 1000) / 2) by (unfold s2; by rewrite shr_div by lia).
  assert (0 <= s2 < 32) by (rewrite S; zlia).
  rewrite (shl_mul 5 (Month f)), (shl_mul 9), (shl_mul 5 (Minute f)), (shl_mul 11) by lia.
  rewrite (lor_low' 5 (Month f)), (lor_low' 5 (Minute f)) by (unfold in_width; lia).
  rewrite (lor_low' 9), (lor_low' 11) by (unfold in_width; lia).
  unfold u16. rewrite !wrap_id by (unfold in_width; lia).
  unfold SetDosTime, SetDateTime. change 0xf with (2 ^ 4 - 1). change 0x1f with (2 ^ 5 - 1). change 0x3f with (2 ^ 6 - 1).
  rewrite !shr_div, !land_mask by lia. rewrite <- S. clearbody s2. f_equal; zlia.
Qed.

(** *** Reading the printed fields back *)

(** A smaller array takes the first fields. *)
Lemma split_loop_room mg q1 q2 seps m fuel : forall room start p tail q l, (0 < room)%nat ->
  split_loop mg q1 q2 seps m fuel (S room) start p tail q = Some l ->
  split_loop mg q1 q2 seps m fuel room start p tail q = Some (take room l).
Proof.
  induction fuel as [|fuel IH]; intros room start p tail q l Hr; [done|]. cbn [split_loop]. cbv zeta.
  destruct room as [|room]; [lia|].
  assert (E : forall o, (if p =? tail then Some [split_unquote q1 q2 m (mkRef start p)]
      else option_map (cons (split_unquote q1 q2 m (mkRef start p)))
        (split_loop mg q1 q2 seps m fuel (S room) o o tail 0)) = Some l ->
    match room with
    | O => Some [split_unquote q1 q2 m (mkRef start p)]
    | S _ => if p =? tail then Some [split_unquote q1 q2 m (mkRef start p)]
      else option_map (cons (split_unquote q1 q2 m (mkRef start p))) (split_loop mg q1 q2 seps m fuel room o o tail 0)
    end = Some (take (S room) l)).
  { intros o. destruct (p =? tail).
    - intros [= <-]. by destruct room.
    - destruct (split_loop _ _ _ _ _ fuel (S room) _ _ _ _) as [l'|] eqn:El; [|done]. intros [= <-].
      destruct room as [|room]; [done|]. by rewrite (IH _ _ _ _ _ l') by (done || lia). }
  destruct (p <? tail); [|exact (E _)]. destruct (negb (q =? 0)); [apply IH; lia|].
  destruct ((sc m p =? q1) || _); [apply IH; lia|]. destruct (negb _); [apply IH; lia|exact (E _)].
Qed.

Lemma length_chain_refs ch : forall p, length (chain_refs p ch) = length ch.
Proof. induction ch as [|[w s] t IH]; intros p; [done|]. cbn. by rewrite IH. Qed.

(** A text of as many fields as fit. *)
Lemma Split_chain m r n seps ch : rb r <> 0 -> (length ch = n)%nat -> chain_open ch = false -> chain_ok seps ch ->
  refers m r (chain_text ch) -> Split true m r n seps = Some (chain_refs (rb r) ch).
Proof.
  intros Hr Hn Ho Hok [Hh Hl]. unfold Split, Split_, IsEmpty.
  assert (Ht : (0 < length (chain_text ch))%nat).
  { destruct ch as [|[w sp] t]; [done|]. destruct Hok as [Hw _]. unfold chain_text. cbn. rewrite !length_app. lia. }
  assert (E : re r = rb r + Z.of_nat (length (chain_text ch))) by (unfold GetLength in Hl; lia).
  rewrite (proj2 (Z.eqb_neq (rb r) 0)), (proj2 (Z.eqb_neq (re r) (rb r))) by lia. cbn [orb].
  assert (0 < n)%nat by (destruct ch; [done|cbn in Hn; lia]).
  rewrite (split_loop_room _ _ _ _ _ _ _ _ _ _ _ (chain_refs (rb r) ch)); [f_equal|done|].
  - apply take_ge. rewrite length_chain_refs. lia.
  - rewrite E, (split_chain seps m ch) by (done || lia). by rewrite Ho, app_nil_r.
Qed.

Definition is_number (l : list Z) (v : Z) : Prop :=
  Forall is_digit l /\ (0 < length l)%nat /\ dec_val l = v /\ 0 <= v < 2 ^ 31.

Lemma Number_is v : 0 <= v < 2 ^ 31 -> is_number (Number v) v.
Proof.
  intros H. unfold Number, decimal_signed. rewrite (proj2 (Z.ltb_ge v 0)) by lia. split; [apply decimal_digits; lia|].
  split; [apply length_decimal|]. split; [apply decimal_val|]; lia.
Qed.

Lemma RightAlign_is w l v : is_number l v -> is_number (RightAlign w (chr "0") l) v.
Proof.
  intros (H1 & H2 & H3 & H4). unfold RightAlign. change (chr "0") with 48. split; [|split; [|split; [|done]]].
  - apply Forall_app. split; [|done]. apply List.Forall_forall. intros x Hx%repeat_spec. subst. unfold is_digit. lia.
  - rewrite length_app. lia.
  - rewrite <- H3. generalize (w - length l)%nat. induction n as [|n IH]; [done|]. cbn [repeat app].
    rewrite <- IH. unfold dec_val. cbn [fold_left]. done.
Qed.

(** The fields of a chain of numbers. *)
Lemma chain_numbers m ch vs : forall p, holds m p (chain_text ch) -> Forall2 (fun ws v => is_number (fst ws) v) ch vs ->
  Forall2 (fun r v => ToNumber T_INT m r = (GetLength r, v) /\ 0 < GetLength r) (chain_refs p ch) vs.
Proof.
  intros p Hh F. revert p Hh. induction F as [|[w s] v ch vs (H1 & H2 & H3 & H4) F IH]; intros p Hh; cbn [chain_refs]; constructor.
  - unfold chain_text in Hh. cbn [map concat fst snd] in *. rewrite <- app_assoc in Hh. apply holds_app in Hh as [Hh _].
    unfold GetLength. cbn [rb re]. replace (p + Z.of_nat (length w) - p) with (Z.of_nat (length w)) by lia.
    rewrite <- H3. split; [|lia]. apply ToNumber_digits; first [done|by right; left|lia|rewrite H3; apply H4].
  - apply IH. unfold chain_text in *. cbn [map concat fst snd] in Hh. apply holds_app in Hh as [_ Hh].
    rewrite length_app in Hh. by replace (p + Z.of_nat (length w) + Z.of_nat (length s)) with (p + Z.of_nat (length w + length s)) by lia.
Qed.

Lemma number_word l v : is_number l v -> (0 < length l)%nat /\ word_ok c_quot c_apos date_seps l.
Proof.
  intros (H1 & H2 & _). split; [done|]. apply (Forall_impl _ _ _ H1). unfold is_digit. intros c Hc.
  assert (X : negb (Has date_seps (s8 c)) && (s8 c =? c) = true).
  { assert (E := range_check (fun k => negb (Has date_seps (s8 (k + 48))) && (s8 (k + 48) =? k + 48)) 10 (c - 48)
      ltac:(vm_compute; done) ltac:(lia)). cbv beta in E. by replace (c - 48 + 48) with c in E by lia. }
  apply andb_true_iff in X as [X1%negb_true_iff X2%Z.eqb_eq]. rewrite X1, X2. unfold c_quot, c_apos. split; [done|lia].
Qed.

(** Separators of the date between the fields. *)
Definition sep_char (c : Z) : bool := Has date_seps (s8 c) && negb (s8 c =? c_quot) && negb (s8 c =? c_apos).
Fixpoint seps_ok (l : list (list Z)) : bool :=
  match l with
  | [] => false
  | s :: t => forallb sep_char s && match t with [] => true | _ => negb (Nat.eqb (length s) 0) && seps_ok t end
  end.

Lemma chain_numbers_ok ch vs : Forall2 (fun ws v => is_number (fst ws) v) ch vs -> seps_ok (map snd ch) = true ->
  chain_ok date_seps ch.
Proof.
  induction 1 as [|[w s] v ch vs N _ IH]; [done|]. cbn [map snd seps_ok chain_ok]. intros [S T]%andb_true_iff.
  destruct (number_word _ _ N) as [W1 W2]. cbn [fst] in *. split; [done|]. split; [done|]. split.
  - rewrite forallb_forall in S. apply List.Forall_forall. intros c Hc. specialize (S c Hc). unfold sep_char in S.
    apply andb_true_iff in S as [[S1 S2]%andb_true_iff S3]. apply negb_true_iff, Z.eqb_neq in S2, S3. done.
  - destruct ch as [|x ch]; [done|]. cbn [map] in T. apply andb_true_iff in T as [T1 T2].
    apply negb_true_iff, Nat.eqb_neq in T1. split; [lia|]. by apply IH.
Qed.

(** C40: What the stream operator prints for a date after the year 1000 and a time
    of day is read back by [FromString]: all seven fields, whatever their widths. *)
Theorem fields_text_roundtrip m r f f0 b :
  refers m r (Fields_text f) -> rb r <> 0 -> 1000 < Year f < 2 ^ 31 -> 1 <= Month f <= 12 -> 1 <= Day f <= 31 ->
  (forall v, In v [Hour f; Minute f; Second f; MillSecond f] -> 0 <= v < 2 ^ 31) ->
  FromString m f0 r b =
  Some (7, mkFields (Year f) (Month f) (Day f) 0 (Hour f) (Minute f) (Second f) (MillSecond f)).
Proof.
  intros Hr Hn Hy Hm Hd Ht. pose (al := fun n v => RightAlign n (chr "0") (Number v)).
  pose (ch := [(Number (Year f), [47]); (al 2%nat (Month f), [47]); (al 2%nat (Day f), [32]);
    (al 2%nat (Hour f), [58]); (al 2%nat (Minute f), [58]); (al 2%nat (Second f), [46]); (al 3%nat (MillSecond f), [])]).
  assert (N : Forall2 (fun ws v => is_number (fst ws) v) ch
    [Year f; Month f; Day f; Hour f; Minute f; Second f; MillSecond f]).
  { unfold ch, al. repeat (apply Forall2_cons_2; [cbn [fst]|]); [..|apply Forall2_nil_2]; try apply RightAlign_is; apply Number_is; first [lia|apply Ht; cbn; tauto]. }
  assert (E : Fields_text f = chain_text ch).
  { unfold chain_text, ch. cbn [map concat fst snd]. rewrite <- !app_assoc, !app_nil_r. reflexivity. }
  rewrite E in Hr. assert (O : chain_ok date_seps ch) by exact (chain_numbers_ok ch _ N eq_refl).
  unfold FromString. rewrite (Split_chain m r 7 date_seps ch) by (done || reflexivity). cbn [mbind option_bind].
  destruct Hr as [Hh _]. assert (F := chain_numbers m ch _ (rb r) Hh N). unfold ch in F |- *. cbn [chain_refs length] in F |- *.
  clearbody al. clear - F Hy Hm Hd Ht.
  repeat match goal with H : Forall2 _ (_ :: _) _ |- _ => inversion_clear H as [|? ? ? ? [? ?] ?] end.
  cbn [nth existsb]. cbv zeta. repeat match goal with H : ToNumber _ _ _ = _ |- _ => rewrite H; clear H end. cbn [fst snd].
  repeat match goal with H : 0 < GetLength ?x |- context [GetLength ?x =? 0] => rewrite (proj2 (Z.eqb_neq (GetLength x) 0)) by lia end.
  cbn [orb]. unfold SolveDate. rewrite !SolveMonth_never, !andb_false_r.
  rewrite !(proj2 (Z.eqb_neq _ 0)) by lia. rewrite (proj2 (Z.ltb_lt 1000 (Year f))) by lia. cbn [orb].
  unfold in_ranges. rewrite !(proj2 (Z.leb_le _ _)) by lia. reflexivity.
Qed.

Lemma fields_text_roundtrip_witness :
  let f := mkFields 2015 3 20 0 12 34 56 789 in let t := str "2015/03/20 12:34:56.789" in
  let m := mstore (fun _ => 0) 100 t in
  (Fields_text f = t /\ refers m (mkRef 100 123) (Fields_text f) /\ rb (mkRef 100 123) <> 0 /\ 1000 < Year f < 2 ^ 31 /\ 1 <= Month f <= 12 /\
   1 <= Day f <= 31 /\ (forall v, In v [Hour f; Minute f; Second f; MillSecond f] -> 0 <= v < 2 ^ 31)) /\
  FromString m f (mkRef 100 123) true = Some (7, mkFields 2015 3 20 0 12 34 56 789).
Proof.
  assert (H : forall v, In v [12; 34; 56; 789] -> 0 <= v < 2 ^ 31) by (cbn; intros v Hv; lia).
  assert (R : refers (mstore (fun _ => 0) 100 (str "2015/03/20 12:34:56.789")) (mkRef 100 123)
    (Fields_text (mkFields 2015 3 20 0 12 34 56 789))) by (split; reflexivity).
  split.
  - split; [reflexivity|]. split; [exact R|]. cbn [rb Year Month Day Hour Minute Second MillSecond]. split; [lia|]. split; [lia|].
    split; [lia|]. split; [lia|exact H].
  - apply (fields_text_roundtrip _ (mkRef 100 123) (mkFields 2015 3 20 0 12 34 56 789)); cbn [rb Year Month Day]; [exact R|lia..|exact H].
Defined.

(** Reading of one text. *)
Definition read_date (s : list Z) : option (Z * Fields) :=
  FromString (mstore (fun _ => 0) 100 s) (mkFields 7 7 7 7 7 7 7 7) (mkRef 100 (100 + zlen s)) true.

(** Texts of other shapes: three fields, times, a month name (taken for the time
    0:20), packed digits; of 14 digits the minutes end in [Month] and [Day] and
    the minute and second are not set. *)
Example FromString_shapes :
  read_date (str "2015-3-20") = Some (3, mkFields 2015 3 20 0 0 0 0 0) /\
  read_date (str "3/20/2015") = Some (3, mkFields 2015 3 20 0 0 0 0 0) /\
  read_date (str "12:34:56") = Some (3, mkFields 1970 1 1 0 12 34 56 0) /\
  read_date (str "March 20,2015") = Some (2, mkFields 1970 1 1 0 0 20 0 0) /\
  read_date (str "20150320") = Some (3, mkFields 2015 3 20 0 0 0 0 0) /\
  read_date (str "201503201234") = Some (5, mkFields 2015 3 20 0 12 34 0 0) /\
  read_date (str "20150320123456") = Some (6, mkFields 2015 56 56 0 12 7 7 0) /\
  read_date (str "x") = Some (0, mkFields 7 7 7 0 7 7 7 7).
Proof. vm_compute. done. Qed.

(** The search for a digit ends at one or at the end. *)
Lemma find_digit_stops n m : forall d, d <= find_digit n 10 m d <= d + Z.of_nat n /\
  (find_digit n 10 m d = d + Z.of_nat n \/ to_num 10 (sc m (find_digit n 10 m d)) < 10).
Proof.
  induction n as [|n IH]; intros d; cbn [find_digit]; [lia|]. destruct (Z.leb_spec 10 (to_num 10 (sc m d))); [|lia].
  destruct (IH (d + 1)) as [H1 H2]. split; [lia|]. destruct H2; [left; lia|by right].
Qed.

Lemma digits_loop_mono T n : forall m d x, d <= fst (digits_loop n T 10 m d x).
Proof.
  induction n as [|n IH]; intros m d x; cbn [digits_loop]; [cbn; lia|]. cbv zeta.
  repeat case_match; cbn [fst]; try lia; (etransitivity; [|apply IH]); lia.
Qed.

(** The test of [FromString] for a failed number never holds: a failure is -1,
    and a number takes at least one character. *)
Lemma ToNumber_never_zero T m r : rb r <= re r -> fst (ToNumber T m r) <> 0.
Proof.
  intros Hr. unfold ToNumber, ToNumber_. destruct (rb r =? re r); [cbn; lia|]. cbv zeta.
  destruct (find_digit_stops (Z.to_nat (re r - rb r)) m (rb r)) as [L [E|E]]; set (d := find_digit _ _ _ _) in *;
    (destruct (Z.eqb_spec d (re r)) as [|Hd]; [cbn; lia|]); [lia|]. cbn [negb andb].
  destruct (Z.to_nat (re r - d)) as [|k] eqn:Ek; [lia|]. cbn [digits_loop].
  assert (C : (sc m d =? chr ",") = false).
  { apply Z.eqb_neq. intros C. rewrite C in E. vm_compute in E. discriminate. }
  rewrite C, (proj2 (Z.ltb_lt _ 10) E). cbv zeta.
  assert (M := digits_loop_mono T k m (d + 1) (cast T (0 * 10 + to_num 10 (sc m d)))).
  destruct (digits_loop k T 10 m (d + 1) _) as [e x]. cbn [fst] in *. lia.
Qed.

(** ** Printed [Date32] *)

Lemma date_number_spec m l : forall n p v, (length l < n)%nat -> Forall is_digit l -> holds m p l ->
  ~ is_digit (sc m (p + zlen l)) ->
  date_number n m p v = (p + zlen l, fold_left (fun x c => cast T_INT (x * 10 + (c - 48))) l v).
Proof.
  induction l as [|c l IH]; intros n p v Hn Hl Hh He; (destruct n as [|n]; [cbn in Hn; lia|]); cbn [date_number].
  - cbn [length fold_left] in *. rewrite Z.add_0_r in *. cbv zeta. change (chr "0") with 48. change (chr "9") with 57.
    unfold is_digit in He. destruct (_ && _) eqn:E; [bool_prop; lia|done].
  - inversion_clear Hl as [|? ? Hc Hl']. apply holds_cons_inv in Hh as [Em Hh]. cbv zeta.
    assert (Es : sc m p = c) by (rewrite sc_small; rewrite Em; [done|by apply is_digit_small]). rewrite Es.
    change (chr "0") with 48. change (chr "9") with 57. unfold is_digit in Hc.
    rewrite (proj2 (Z.leb_le 48 c)), (proj2 (Z.leb_le c 57)) by lia. cbn [andb fold_left].
    assert (Z1 : zlen (c :: l) = 1 + zlen l) by (cbn [length]; lia). rewrite Z1 in He |- *.
    rewrite IH; [f_equal; lia|cbn in Hn; lia|done|done|by replace (p + 1 + zlen l) with (p + (1 + zlen l)) by lia].
Qed.

Lemma date_number_read m n p l v : is_number l v -> (length l < n)%nat -> holds m p l -> ~ is_digit (sc m (p + zlen l)) ->
  date_number n m p 0 = (p + zlen l, v).
Proof.
  intros (H1 & H2 & H3 & H4) Hn Hh He. rewrite (date_number_spec m l) by done. f_equal. rewrite <- H3.
  apply (fold_cast T_INT l 0 (2 ^ 31)); try done; try lia. fold (dec_val l). lia.
Qed.

(** The text of a date, followed by a character that is not a digit, is read
    back by [Date32::FromString]. *)
Lemma Date32_text_roundtrip m n r y mth d : 1 <= y < 65536 -> 1 <= mth <= 12 -> 1 <= d <= 31 ->
  refers m r (Date32_text (SetDate y mth d)) -> rb r <> 0 -> ~ is_digit (sc m (re r)) -> (22 < n)%nat ->
  Date_FromString n m r DATEFMT_YYYYMMDD = Some (SetDate y mth d).
Proof.
  intros Hy Hm Hd [Hh Hl] Hn He Hf. destruct (fields_SetDate y mth d) as (E1 & E2 & E3); [lia|unfold in_width; lia..|].
  unfold Date32_text in *. cbv zeta in *. unfold GetYear, GetMonth, GetDay in E1, E2, E3. rewrite E1, E2, E3 in *.
  assert (N1 := Number_is y ltac:(lia)). assert (N2 := RightAlign_is 2 _ _ (Number_is mth ltac:(lia))).
  assert (N3 := RightAlign_is 2 _ _ (Number_is d ltac:(lia))).
  assert (L : forall v, 0 <= v -> (length (Number v) <= 20)%nat).
  { intros v Hv. unfold Number, decimal_signed. rewrite (proj2 (Z.ltb_ge v 0)) by lia. apply length_decimal. }
  assert (L2 : forall v, 0 <= v -> (length (RightAlign 2 (chr "0") (Number v)) <= 22)%nat).
  { intros v Hv. unfold RightAlign. rewrite length_app, repeat_length. specialize (L v Hv). lia. }
  assert (K1 := L y ltac:(lia)). assert (K2 := L2 mth ltac:(lia)). assert (K3 := L2 d ltac:(lia)). clear L L2.
  set (a := Number y) in *. set (b := RightAlign 2 _ (Number mth)) in *. set (c := RightAlign 2 _ (Number d)) in *. clearbody a b c.
  apply holds_app in Hh as [Ha Hh]. apply holds_app in Hh as [Hs Hh]. apply holds_app in Hh as [Hb Hh]. apply holds_app in Hh as [Ht Hc].
  apply holds_cons_inv in Hs as [Hs _]. apply holds_cons_inv in Ht as [Ht _].
  change (Z.of_nat (length (str "/"))) with 1 in *. rewrite !length_app in Hl. change (length (str "/")) with 1%nat in Hl. unfold GetLength in Hl.
  assert (S : forall x, m x = chr "/" -> ~ is_digit (sc m x)).
  { intros x Ex. unfold sc. rewrite Ex. vm_compute. intros [H _]. by apply H. }
  unfold Date_FromString, IsEmpty.
  rewrite (proj2 (Z.eqb_neq (rb r) 0)), (proj2 (Z.eqb_neq (re r) (rb r))) by lia. cbn [orb].
  rewrite (date_number_read m n (rb r) a y); [|done|lia|done|by apply S].
  rewrite (date_number_read m n (rb r + zlen a + 1) b mth); [|done|lia|done|by apply S].
  rewrite (date_number_read m n (rb r + zlen a + 1 + zlen b + 1) c d); [|done|lia|done|].
  - rewrite !(proj2 (Z.eqb_neq _ 0)) by lia. reflexivity.
  - replace (rb r + zlen a + 1 + zlen b + 1 + zlen c) with (re r) by lia. done.
Qed.
