(* ===== verification/XmlScan.v ===== *)
(** Scanning of rt/xml_xhtml.cpp: tags, special nodes, the end of a node and
    attributes, over a text that ends in a NUL.  The reference syntax [xitem]
    of the documents the theorems are about is at the end of the definitions. *)
From S2P Require Import Prelude Str StrScan.

(** ** Definitions: the scans *)

Inductive XMLParseError :=
| ERR_XML_OK | ERR_XML_HEADER_BAD_FORMAT | ERR_XML_UNEXPECTED_ENDOFFILE | ERR_XML_SYMBOL_UNEXPECTED
| ERR_XML_OUT_OF_MEMORY | ERR_ATTRIBUTE_EQUALSIGN_NOT_FOUND | ERR_ATTRIBUTE_NAME_NOT_FOUND
| ERR_ATTRIBUTE_QUOTATION_NOT_MATCHED | ERR_NODE_CLOSURE_NOT_MATCHED | ERR_TAG_CLOSURE_NOT_MATCHED
| ERR_CDATA_CLOSURE_NOT_MATCHED | ERR_COMMENT_CLOSURE_NOT_MATCHED | ERR_PROC_INST_CLOSURE_NOT_MATCHED
| ERR_TAG_NAME_NOT_FOUND | ERR_XML_DEPTH_EXCEEDED
| ERR_HTML_COMMENT_CLOSURE_NOT_MATCHED | ERR_HTML_SPECIAL_NODE_UNKNONW | ERR_HTML_TAG_NAME_NOT_FOUND
| ERR_HTML_ATTRIBUTE_NAME_NOT_FOUND | ERR_HTML_TAG_CLOSURE_NOT_MATCHED | ERR_HTML_QUOTATION_NOT_MATCHED
| ERR_HTML_NODE_CLOSURE_NOT_MATCHED | ERR_HTML_UNEXPECTED_SYMBOL | ERR_HTML_CSS_OPERATOR_NOT_SUPPORTED.

#[export] Instance XMLParseError_eq_dec : EqDecision XMLParseError.
Proof. solve_decision. Defined.

Section Scans.
(** [n] bounds every scan; a text shorter than [n] is scanned to its end. *)
Context (n : nat) (m : mem).

(** The C library's [strchr] and [strstr]; 0 is the null pointer. *)
Fixpoint strchr_ (k : nat) (p c : Z) : Z :=
  match k with
  | O => 0
  | S k => if sc m p =? c then p else if sc m p =? 0 then 0 else strchr_ k (p + 1) c
  end.
Definition strchr : Z -> Z -> Z := strchr_ n.
Definition at_text (p : Z) (t : list Z) : bool := zlist_eqb (mem_bytes m p (length t)) t.
Fixpoint strstr_ (k : nat) (p : Z) (t : list Z) : Z :=
  match k with
  | O => 0
  | S k => if at_text p t then p else if sc m p =? 0 then 0 else strstr_ k (p + 1) t
  end.
Definition strstr : Z -> list Z -> Z := strstr_ n.

Definition _seek_tag_open (start : Z) : Z := strchr start (chr "<").
Definition _seek_tag_close (start : Z) : Z := strchr start (chr ">").

(** [_seek_symbol_end] *)
Definition symbol_char (c : Z) : bool :=
  ((0x2d <=? c) || (c =? chr "#") || (c <? 0)) && negb (c =? chr "/") && negb (c =? chr "<") && negb (c =? chr ">") &&
  negb (c =? chr "=") && negb (c =? chr "[") && negb (c =? chr "]").
Definition _seek_symbol_end (start : Z) : Z := scan symbol_char n m start.

(** [_search_special_node_close]: the error and the position returned. *)
Fixpoint control_loop (k : nat) (p : Z) : option Z * Z :=
  match k with
  | O => (None, p)
  | S k =>
    let c := sc m p in
    if (c =? 0) || (c =? chr ">") || (c =? chr "[") then (Some c, p)
    else if c =? chr "<" then (None, p) else control_loop k (p + 1)
  end.
Definition until (start start_pos : Z) (ending_symbol : list Z) (errnum : XMLParseError) : XMLParseError * Z :=
  let p := strstr start_pos ending_symbol in
  if p =? 0 then (errnum, start) else (ERR_XML_OK, p + zlen ending_symbol - 1).
Definition _search_special_node_close (start : Z) : XMLParseError * Z :=
  if load 4 m start =? 0x2d2d213c then until start (start + 4) (str "-->") ERR_COMMENT_CLOSURE_NOT_MATCHED
  else if load 2 m start =? 0x3f3c then until start (start + 2) (str "?>") ERR_PROC_INST_CLOSURE_NOT_MATCHED
  else if (load 4 m (start + 1) =? 0x44435b21) && (load 4 m (start + 5) =? 0x5b415441) then
    until start (start + 9) (str "]]>") ERR_CDATA_CLOSURE_NOT_MATCHED
  else
    match control_loop n (start + 1) with
    | (None, p) => (ERR_XML_SYMBOL_UNEXPECTED, p)
    | (Some c, p) =>
      if c =? chr ">" then (ERR_XML_OK, p)
      else if c =? 0 then (ERR_XML_UNEXPECTED_ENDOFFILE, start)
      else until start (start + 2) (str "]>") ERR_PROC_INST_CLOSURE_NOT_MATCHED
    end.

Definition special_start (p : Z) : bool := (sc m (p + 1) =? chr "!") || (sc m (p + 1) =? chr "?").

(** [_search_node_close]: the error, the position returned and
    [pInnerXML_End]; one tag or special node per step. *)
Fixpoint node_close (fuel : nat) (start_inner start enclosure : Z) (tag_name : ref) : option (XMLParseError * Z * option Z) :=
  match fuel with
  | O => None
  | S f =>
    let start := _seek_tag_open start in
    if start =? 0 then Some (ERR_XML_UNEXPECTED_ENDOFFILE, start_inner, None)
    else if special_start start then
      let '(err, p) := _search_special_node_close start in
      if decide (err = ERR_XML_OK) then node_close f start_inner (p + 1) enclosure tag_name else Some (err, p, None)
    else
      let pend := _seek_tag_close (start + 1) in
      if pend =? 0 then Some (ERR_TAG_CLOSURE_NOT_MATCHED, start, None)
      else if sc m (start + 1) =? chr "/" then
        if sc m (pend - 1) =? chr "/" then Some (ERR_XML_SYMBOL_UNEXPECTED, pend - 1, None)
        else
          let enclosure := enclosure - 1 in
          if (enclosure =? -1) && memeq (Z.to_nat (GetLength tag_name)) m (rb tag_name) (start + 2)
          then Some (ERR_XML_OK, pend, Some start)
          else node_close f start_inner (pend + 1) enclosure tag_name
      else node_close f start_inner (pend + 1) (if sc m (pend - 1) =? chr "/" then enclosure else enclosure + 1) tag_name
  end.
Definition _search_node_close (start_inner : Z) (tag_name : ref) : option (XMLParseError * Z * option Z) :=
  node_close n start_inner start_inner 0 tag_name.

(** [_search_control_close] *)
Fixpoint control_close (k : nat) (start enclosure : Z) : Z :=
  match k with
  | O => 0
  | S k =>
    let c := sc m start in
    if c =? 0 then 0
    else if (c =? chr "<") || (c =? chr ">") then
      let enclosure := enclosure - (c - 0x3d) in
      if enclosure =? -1 then start else control_close k (start + 1) enclosure
    else control_close k (start + 1) enclosure
  end.
Definition _search_control_close (start : Z) : Z := control_close n start 0.

(** [_seek_next_attrib]: the position returned (0 for none), the name, the
    value, and the last syntax error set on the way. *)
Definition syntax_error := option (XMLParseError * Z).
Record attrib := mkAttrib { a_next : Z; a_name : ref; a_value : ref; a_err : syntax_error }.
Definition no_attrib (e : syntax_error) : attrib := mkAttrib 0 null_ref null_ref e.

(** The search for the quoted value: it ends with the value, or at [start] with
    an error that may have been set. *)
Fixpoint value_loop (k : nat) (start : Z) : (Z * ref) + (Z * syntax_error) :=
  match k with
  | O => inr (start, None)
  | S k =>
    let c := sc m start in
    if (c =? 0) || (c =? chr ">") then inr (start, None)
    else if (c =? c_quot) || (c =? c_apos) then
      let p := strchr (start + 1) c in
      if p =? 0 then inr (start, Some (ERR_ATTRIBUTE_QUOTATION_NOT_MATCHED, start)) else inl (p + 1, mkRef (start + 1) p)
    else value_loop k (start + 1)
  end.
Definition attrib_end (start : Z) : bool :=
  (sc m start =? 0) || (sc m start =? chr ">") || ((sc m start =? chr "/") && (sc m (start + 1) =? chr ">")).
Definition attrib_start (start : Z) : bool :=
  (sc m (start - 1) <? 0x2d) && ((0x2d <=? sc m start) || (sc m start <? 0)).
Definition keep_error (e e0 : syntax_error) : syntax_error := match e with Some _ => e | None => e0 end.
Fixpoint attrib_loop (k : nat) (start : Z) (e : syntax_error) : attrib :=
  match k with
  | O => no_attrib e
  | S k =>
    if attrib_end start then no_attrib e
    else if attrib_start start then
      let s1 := _seek_symbol_end start in
      if s1 =? start then no_attrib (Some (ERR_ATTRIBUTE_NAME_NOT_FOUND, s1))
      else
        let p := strchr s1 (chr "=") in
        if p =? 0 then no_attrib (Some (ERR_ATTRIBUTE_EQUALSIGN_NOT_FOUND, s1))
        else match value_loop n (p + 1) with
             | inl (next, value) => mkAttrib next (mkRef start s1) value e
             | inr (s2, e2) => attrib_loop k (s2 + 1) (keep_error e2 e)
             end
    else attrib_loop k (start + 1) e
  end.
Definition _seek_next_attrib (start : Z) : attrib := attrib_loop n start None.

(** Comparison with a C string. *)
Definition name_is (r : ref) (name : list Z) : bool :=
  (GetLength r =? zlen name) && zlist_eqb (mem_bytes m (rb r) (length name)) name.

(** [_search_attrib]: the value if the name is found, and the last syntax error. *)
Fixpoint search_attrib (k : nat) (start : Z) (attrib_name : list Z) (e : syntax_error) : option ref * syntax_error :=
  match k with
  | O => (None, e)
  | S k =>
    let a := _seek_next_attrib start in
    let e := keep_error (a_err a) e in
    if (a_next a =? 0) || IsEmpty (a_name a) then (None, e)
    else if name_is (a_name a) attrib_name then (Some (a_value a), e)
    else search_attrib k (a_next a) attrib_name e
  end.
Definition _search_attrib (start : Z) (attrib_name : list Z) : option ref * syntax_error :=
  search_attrib n start attrib_name None.
End Scans.

(** ** Definitions: the reference syntax *)

(** Text, a special node ([<!...>], [<?...>]), or an element with its attribute
    text and children. *)
Inductive xitem :=
| XText (t : list Z)
| XSpecial (t : list Z)
| XElem (tag att : list Z) (compact : bool) (kids : list xitem).

Definition open_tag (tag att : list Z) (compact : bool) : list Z :=
  str "<" ++ tag ++ att ++ (if compact then str "/>" else str ">").
Definition close_tag (tag : list Z) : list Z := str "</" ++ tag ++ str ">".
Fixpoint xrender (x : xitem) : list Z :=
  match x with
  | XText t => t
  | XSpecial t => t
  | XElem tag att c kids =>
    open_tag tag att c ++ (if c then [] else flat_map xrender kids ++ close_tag tag)
  end.
Definition xrenders (l : list xitem) : list Z := flat_map xrender l.

(** Characters of memory: bytes. *)
Definition avoids (c : ascii) (l : list Z) : Prop := Forall (fun x => s8 x <> chr c) l.
Definition no_nul (l : list Z) : Prop := Forall (fun x => s8 x <> 0) l.

(** [pat] is found first at the end of [c ++ pat]. *)
Definition first_at (c pat : list Z) : Prop :=
  forall i, (i < length c)%nat -> take (length pat) (drop i (c ++ pat)) <> pat.

(** The kinds of special node. *)
Inductive special : list Z -> Prop :=
| sp_comment c : no_nul c -> first_at c (str "-->") -> special (str "<!--" ++ c ++ str "-->")
| sp_inst c : no_nul c -> first_at c (str "?>") -> special (str "<?" ++ c ++ str "?>")
| sp_cdata c : no_nul c -> first_at c (str "]]>") -> special (str "<![CDATA[" ++ c ++ str "]]>")
| sp_decl d : bytes d -> no_nul d -> avoids "<" d -> avoids ">" d -> avoids "[" d ->
    take 2 d <> str "--" -> special (str "<!" ++ d ++ str ">").

Definition tag_ok (tag : list Z) : Prop :=
  all symbol_char tag /\ match tag with [] => False | c :: _ => s8 c <> chr "?" end.
(** The attribute text: a separator first, no angle bracket, no slash at the end. *)
Definition att_ok (att : list Z) : Prop :=
  no_nul att /\ avoids "<" att /\ avoids ">" att /\
  match att with [] => True | c :: _ => symbol_char (s8 c) = false end /\
  s8 (List.last att 0) <> chr "/".

Fixpoint xwf (x : xitem) : Prop :=
  match x with
  | XText t => no_nul t /\ avoids "<" t
  | XSpecial t => special t
  | XElem tag att c kids => tag_ok tag /\ att_ok att /\ (if c then kids = [] else List.fold_right (fun k P => xwf k /\ P) True kids)
  end.
Definition xwfs (l : list xitem) : Prop := Forall xwf l.

(** ** The scans *)

(** Induction on items and their children. *)
Lemma xitem_rect_list (P : xitem -> Prop) :
  (forall t, P (XText t)) -> (forall t, P (XSpecial t)) ->
  (forall tag att c kids, Forall P kids -> P (XElem tag att c kids)) -> forall x, P x.
Proof.
  intros H1 H2 H3. fix IH 1. intros [t|t|tag att c kids]; [apply H1|apply H2|apply H3].
  induction kids as [|k kids IHk]; constructor; [apply IH|exact IHk].
Qed.

Lemma xwf_kids tag att kids : xwf (XElem tag att false kids) -> xwfs kids.
Proof.
  cbn. intros (_ & _ & H). induction kids as [|k kids IH]; constructor; [apply H|apply IH, H].
Qed.

Definition scanned (c : Z) (a : list Z) : Prop := Forall (fun y => s8 y <> c /\ s8 y <> 0) a.

Lemma scanned_avoids c a : no_nul a -> avoids c a -> scanned (chr c) a.
Proof. intros H1 H2. apply Forall_and. split; [exact H2|exact H1]. Qed.

Section ScanFacts.
Context (n : nat) (m : mem).
Local Abbreviation strchr := (strchr n m).

Lemma strchr_at k c a : forall p x, holds m p (a ++ [x]) -> s8 x = c -> scanned c a -> (length a < k)%nat ->
  strchr_ m k p c = p + zlen a.
Proof.
  revert a. induction k as [|k IH]; intros a p x Hh Hx Ha Hk; [lia|]. cbn [strchr_]. destruct a as [|y a]; cbn [app length] in *.
  - apply holds_cons_inv in Hh as [E _]. unfold sc. rewrite E, Hx, Z.eqb_refl. lia.
  - apply holds_cons_inv in Hh as [E Hh]. inversion_clear Ha as [|? ? [Hy Hy0] Ha']. unfold sc. rewrite E.
    rewrite (proj2 (Z.eqb_neq _ _) Hy), (proj2 (Z.eqb_neq _ _) Hy0). rewrite (IH a (p + 1) x) by (done || lia). lia.
Qed.

Lemma strchr_none k c a : forall p, holds m p (a ++ [0]) -> c <> 0 -> scanned c a -> strchr_ m k p c = 0.
Proof.
  revert a. induction k as [|k IH]; intros a p Hh Hc Ha; [done|]. cbn [strchr_]. destruct a as [|y a]; cbn [app] in *.
  - apply holds_cons_inv in Hh as [E _]. unfold sc. rewrite E. change (s8 0) with 0.
    by rewrite (proj2 (Z.eqb_neq 0 c)) by congruence.
  - apply holds_cons_inv in Hh as [E Hh]. inversion_clear Ha as [|? ? [Hy Hy0] Ha']. unfold sc. rewrite E.
    rewrite (proj2 (Z.eqb_neq _ _) Hy), (proj2 (Z.eqb_neq _ _) Hy0). by apply (IH a).
Qed.

Lemma at_text_holds p t : at_text m p t = true <-> holds m p t.
Proof.
  unfold at_text, holds. split; [by apply zlist_eqb_eq|]. intros ->. apply zlist_eqb_refl.
Qed.

Lemma strstr_at k pat c : forall p, holds m p (c ++ pat) -> no_nul c -> first_at c pat -> (length c < k)%nat ->
  strstr_ m k p pat = p + zlen c.
Proof.
  revert c. induction k as [|k IH]; intros c p Hh Hc Hf Hk; [lia|]. cbn [strstr_].
  destruct (at_text m p pat) eqn:E.
  - apply at_text_holds in E. destruct c as [|y c]; [cbn; lia|]. exfalso. apply (Hf 0%nat); [cbn; lia|].
    rewrite drop_0. unfold holds in *. rewrite <- Hh at 1. rewrite length_app.
    replace (length (y :: c) + length pat)%nat with (length pat + length (y :: c))%nat by lia.
    rewrite mem_bytes_app, take_app_length'; [exact E|by rewrite length_mem_bytes].
  - destruct c as [|y c]; [cbn in Hh; apply at_text_holds in Hh; congruence|]. cbn [app length] in *.
    apply holds_cons_inv in Hh as [Ey Hh]. inversion_clear Hc as [|? ? Hy Hc']. unfold sc. rewrite Ey.
    rewrite (proj2 (Z.eqb_neq _ _) Hy). rewrite (IH c); [lia|done|done| |lia].
    intros i Hi. apply (Hf (S i)). cbn. lia.
Qed.

Lemma symbol_end_at a x : forall p, holds m p (a ++ [x]) -> all symbol_char a -> symbol_char (s8 x) = false -> (length a < n)%nat ->
  _seek_symbol_end n m p = p + zlen a.
Proof.
  intros p Hh Ha Hx Hk. unfold _seek_symbol_end. revert a p Hh Ha Hk. generalize n as k.
  induction k as [|k IH]; intros a p Hh Ha Hk; [lia|]. cbn [scan]. destruct a as [|y a]; cbn [app length] in *.
  - apply holds_cons_inv in Hh as [E _]. unfold sc. rewrite E, Hx. lia.
  - apply holds_cons_inv in Hh as [E Hh]. inversion_clear Ha as [|? ? Hy Ha']. unfold sc. rewrite E, Hy, (IH a) by (done || lia). lia.
Qed.

(** ** Special nodes *)

Lemma load_known k a b p : holds m p (a ++ b) -> length a = k -> load k m p = le_val a.
Proof. intros [H _]%holds_app <-. unfold load. by rewrite H. Qed.

Lemma until_at start p c pat e : holds m p (c ++ pat) -> no_nul c -> first_at c pat -> (length c < n)%nat -> 0 < p ->
  until n m start p pat e = (ERR_XML_OK, p + zlen c + zlen pat - 1).
Proof.
  intros Hh Hc Hf Hn Hp. unfold until, strstr. rewrite (strstr_at n pat c) by done. cbv zeta.
  by rewrite (proj2 (Z.eqb_neq _ 0)) by lia.
Qed.

Lemma control_loop_at k d : forall p, holds m p (d ++ [62]) -> no_nul d -> avoids "<" d -> avoids ">" d -> avoids "[" d ->
  (length d < k)%nat -> control_loop m k p = (Some (chr ">"), p + zlen d).
Proof.
  revert d. induction k as [|k IH]; intros d p Hh H0 H1 H2 H3 Hk; [lia|]. cbn [control_loop]. cbv zeta.
  destruct d as [|y d]; cbn [app length] in *.
  - apply holds_cons_inv in Hh as [E _]. unfold sc. rewrite E. change (s8 62) with 62. cbn. f_equal. lia.
  - apply holds_cons_inv in Hh as [E Hh]. inversion_clear H0. inversion_clear H1. inversion_clear H2. inversion_clear H3.
    unfold sc. rewrite E. rewrite !(proj2 (Z.eqb_neq _ _)) by done. cbn [orb]. rewrite (IH d) by (done || lia). f_equal. lia.
Qed.

Lemma decl_not_comment d p : holds m p (str "<!" ++ d ++ str ">") -> bytes d -> take 2 d <> str "--" ->
  load 4 m p <> 0x2d2d213c.
Proof.
  intros Hh Hb Hd. unfold load. cbn [mem_bytes le_val].
  change (str "<!" ++ d ++ str ">") with (60 :: 33 :: d ++ [62]) in Hh. apply holds_cons_inv in Hh as [E0 Hh]. apply holds_cons_inv in Hh as [E1 Hh]. rewrite E0, E1.
  destruct d as [|y [|z d]]; cbn [app] in Hh.
  - apply holds_cons_inv in Hh as [E2 _]. rewrite E2. lia.
  - apply holds_cons_inv in Hh as [E2 Hh]. apply holds_cons_inv in Hh as [E3 _]. rewrite E2, E3.
    apply Forall_cons in Hb as [[] _]. lia.
  - apply holds_cons_inv in Hh as [E2 Hh]. apply holds_cons_inv in Hh as [E3 _]. rewrite E2, E3.
    apply Forall_cons in Hb as [[? ?] [[? ?] _]%Forall_cons]. intros E. apply Hd.
    assert (y = 45 /\ z = 45) as [-> ->] by lia. reflexivity.
Qed.

Lemma decl_not_cdata d p : holds m p (str "<!" ++ d ++ str ">") -> bytes d -> avoids "[" d ->
  load 4 m (p + 1) <> 0x44435b21.
Proof.
  intros Hh Hb Hd. unfold load. cbn [mem_bytes le_val].
  change (str "<!" ++ d ++ str ">") with (60 :: 33 :: d ++ [62]) in Hh. apply holds_cons_inv in Hh as [_ Hh]. apply holds_cons_inv in Hh as [E1 Hh]. rewrite E1.
  destruct d as [|y d]; cbn [app] in Hh; apply holds_cons_inv in Hh as [E2 _]; rewrite E2; [lia|].
  apply Forall_cons in Hb as [[? ?] _]. inversion_clear Hd as [|? ? Hy _]. intros E.
  assert (y = 91) as -> by lia. by apply Hy.
Qed.

(** [_search_special_node_close] returns the last character of a special node. *)
Lemma special_close t p : special t -> holds m p t -> (length t < n)%nat -> 0 < p ->
  _search_special_node_close n m p = (ERR_XML_OK, p + zlen t - 1).
Proof.
  intros [c Hc Hf|c Hc Hf|c Hc Hf|d Hb H0 H1 H2 H3 Hd] Hh Hn Hp; rewrite !length_app in Hn |- *;
    unfold _search_special_node_close.
  - rewrite (load_known 4 (str "<!--") _ p Hh eq_refl). change (le_val (str "<!--") =? 0x2d2d213c) with true. cbv iota.
    apply holds_app in Hh as [_ Hh]. change (zlen (str "<!--")) with 4 in Hh.
    rewrite (until_at _ _ c) by (done || lia). f_equal. change (length (str "<!--")) with 4%nat. lia.
  - assert (E : (load 4 m p =? 0x2d2d213c) = false).
    { apply Z.eqb_neq. unfold load. cbn [mem_bytes le_val].
      change (str "<?" ++ c ++ str "?>") with (60 :: 63 :: c ++ str "?>") in Hh. apply holds_cons_inv in Hh as [E0 Hh].
      apply holds_cons_inv in Hh as [E1 _]. rewrite E0, E1. lia. }
    rewrite E, (load_known 2 (str "<?") _ p Hh eq_refl). change (le_val (str "<?") =? 0x3f3c) with true. cbv iota.
    apply holds_app in Hh as [_ Hh]. change (zlen (str "<?")) with 2 in Hh.
    rewrite (until_at _ _ c) by (done || lia). f_equal. change (length (str "<?")) with 2%nat. lia.
  - set (T := c ++ str "]]>") in *. assert (Hx := Hh). change (str "<![CDATA[" ++ T) with ([60; 33; 91; 67] ++ str "DATA[" ++ T) in Hx.
    rewrite (load_known 4 [60; 33; 91; 67] _ p Hx eq_refl). change (le_val [60; 33; 91; 67] =? 0x2d2d213c) with false. cbv iota.
    change (str "<![CDATA[" ++ T) with ([60; 33] ++ str "[CDATA[" ++ T) in Hh.
    rewrite (load_known 2 [60; 33] _ p Hh eq_refl). change (le_val [60; 33] =? 0x3f3c) with false. cbv iota.
    change ([60; 33] ++ str "[CDATA[" ++ T) with (60 :: [33; 91; 67; 68] ++ [65; 84; 65; 91] ++ T) in Hh.
    apply holds_cons_inv in Hh as [_ Hh]. rewrite (load_known 4 [33; 91; 67; 68] _ (p + 1) Hh eq_refl).
    apply holds_app in Hh as [_ Hh]. change (zlen [33; 91; 67; 68]) with 4 in Hh. replace (p + 1 + 4) with (p + 5) in Hh by lia.
    rewrite (load_known 4 [65; 84; 65; 91] _ (p + 5) Hh eq_refl).
    change ((le_val [33; 91; 67; 68] =? 0x44435b21) && (le_val [65; 84; 65; 91] =? 0x5b415441)) with true. cbv iota.
    apply holds_app in Hh as [_ Hh]. change (zlen [65; 84; 65; 91]) with 4 in Hh. replace (p + 5 + 4) with (p + 9) in Hh by lia.
    rewrite (until_at _ _ c) by (done || lia). f_equal. change (length (str "<![CDATA[")) with 9%nat. lia.
  - rewrite (proj2 (Z.eqb_neq _ _) (decl_not_comment d p Hh Hb Hd)), (load_known 2 (str "<!") _ p Hh eq_refl).
    change (le_val (str "<!") =? 0x3f3c) with false. cbv iota.
    rewrite (proj2 (Z.eqb_neq _ _) (decl_not_cdata d p Hh Hb H3)). cbn [andb].
    apply holds_cons_inv in Hh as [_ Hh].
    rewrite (control_loop_at n (33 :: d)); [|exact Hh|by constructor..|
      change (length (str "<!")) with 2%nat in Hn; change (length (str ">")) with 1%nat in Hn; cbn [length]; lia].
    change (chr ">" =? chr ">") with true. cbv iota. f_equal. change (length (str "<!")) with 2%nat.
    change (length (str ">")) with 1%nat. cbn [length]. lia.
Qed.

Lemma special_head t p : special t -> holds m p t -> m p = 60 /\ special_start m p = true.
Proof.
  intros S Hh. unfold special_start, sc. destruct S; apply holds_cons_inv in Hh as [E0 Hh]; apply holds_cons_inv in Hh as [E1 _];
    rewrite E1; split; done.
Qed.

(** ** Tags *)

Lemma symbol_not c : symbol_char c = true ->
  c <> 0 /\ c <> chr "/" /\ c <> chr "<" /\ c <> chr ">" /\ c <> chr "=" /\ c <> chr "!".
Proof.
  unfold symbol_char. intros H. split_and!; intros ->; vm_compute in H; discriminate.
Qed.

Lemma symbols_scanned c tag : all symbol_char tag -> (forall x, symbol_char x = true -> x <> c) -> scanned c tag.
Proof.
  intros H Hc. apply (Forall_impl _ _ _ H). intros x Hx. split; [by apply Hc|by apply symbol_not].
Qed.

Lemma sc_at p a x b : holds m p (a ++ x :: b) -> sc m (p + zlen a) = s8 x.
Proof. intros [_ H]%holds_app. apply holds_cons_inv in H as [E _]. unfold sc. by rewrite E. Qed.

(** What is scanned of an opening tag. *)
Record tag_scan (p : Z) (tag att : list Z) (c : bool) : Prop := {
  ts_open : sc m p = chr "<";
  ts_special : special_start m p = false;
  ts_first : (sc m (p + 1) =? chr "/") = false;
  ts_symbol : _seek_symbol_end n m (p + 1) = p + 1 + zlen tag;
  ts_close : _seek_tag_close n m (p + 1) = p + zlen (open_tag tag att c) - 1;
  ts_close' : _seek_tag_close n m (p + 1 + zlen tag) = p + zlen (open_tag tag att c) - 1;
  ts_compact : (sc m (p + zlen (open_tag tag att c) - 2) =? chr "/") = c }.

Lemma last_split (l : list Z) : l <> [] -> exists l', l = l' ++ [List.last l 0].
Proof. intros H. exists (removelast l). by apply app_removelast_last. Qed.

Lemma last_app_ne (w l : list Z) : l <> [] -> List.last (w ++ l) 0 = List.last l 0.
Proof.
  intros H. destruct (last_split l H) as [l' E]. rewrite E at 1. by rewrite app_assoc, List.last_last.
Qed.

Lemma open_tag_scan p tag att c : holds m p (open_tag tag att c) -> tag_ok tag -> att_ok att ->
  (length (open_tag tag att c) < n)%nat -> tag_scan p tag att c.
Proof.
  intros Hh [Ht H1] (A0 & A1 & A2 & A3 & A4) Hn. destruct tag as [|t0 tag]; [done|].
  set (w := t0 :: tag) in *. assert (T := symbols_scanned (chr ">") w Ht ltac:(intros x Hx; by apply symbol_not)).
  set (e := if c then [47; 62] else [62]) in *.
  assert (E : open_tag w att c = 60 :: w ++ att ++ e) by (by destruct c). rewrite E in *.
  assert (H0 := Hh). apply holds_cons_inv in H0 as [E0 H0]. assert (H2 := H0). rewrite app_comm_cons in Hh.
  assert (A : scanned (chr ">") (att ++ (if c then [47] else []))).
  { apply Forall_app. split; [by apply scanned_avoids|]. destruct c; [|done]. constructor; [|done]. done. }
  assert (S0 : symbol_char (s8 t0) = true) by (by inversion_clear Ht). destruct (symbol_not _ S0) as (_ & S1 & _ & _ & _ & S2).
  assert (E1 : sc m (p + 1) = s8 t0) by (apply holds_cons_inv in H0 as [E1 _]; unfold sc; by rewrite E1).
  assert (L : length (60 :: w ++ att ++ e) = S (length w + (length (att ++ (if c then [47] else [])) + 1))).
  { unfold e. cbn [length]. rewrite !length_app. destruct c; cbn [length]; lia. }
  assert (R : att ++ e = (att ++ (if c then [47] else [])) ++ [62]) by (unfold e; destruct c; by rewrite <- app_assoc).
  rewrite <- E in L. rewrite R in *. rewrite <- E, L in Hn. clearbody e. constructor; rewrite ?L.
  - unfold sc. by rewrite E0.
  - unfold special_start. rewrite E1. by rewrite !(proj2 (Z.eqb_neq _ _)) by done.
  - rewrite E1. by apply Z.eqb_neq.
  - destruct ((att ++ (if c then [47] else [])) ++ [62]) as [|x r] eqn:Er; [by destruct (att ++ _)|].
    apply (symbol_end_at w x); [|done| |lia].
    + rewrite cons_middle, app_assoc in H0. by apply holds_app in H0 as [H0 _].
    + destruct att as [|a att]; [|by injection Er as -> _].
      destruct c; injection Er as <- _; done.
  - rewrite app_assoc in H0. unfold _seek_tag_close, strchr. rewrite (strchr_at n (chr ">") _ (p + 1) 62 H0); [|done|..].
    + rewrite length_app. lia.
    + by apply Forall_app.
    + rewrite length_app. lia.
  - apply holds_app in H0 as [_ H0]. unfold _seek_tag_close, strchr. rewrite (strchr_at n (chr ">") _ _ 62 H0); [lia|done|done|lia].
  - destruct c.
    + rewrite <- !app_assoc, app_assoc in H2. change ([47] ++ [62]) with [47; 62] in H2.
      replace (p + _ - 2) with (p + 1 + zlen (w ++ att)) by (rewrite !length_app; cbn [length]; lia).
      rewrite (sc_at _ _ _ _ H2). done.
    + rewrite app_nil_r in *. destruct (last_split (w ++ att)) as [l' El']; [done|]. rewrite app_assoc, El', <- app_assoc in H2.
      assert (LL := f_equal length El'). rewrite !length_app in LL. cbn [length] in LL.
      replace (p + _ - 2) with (p + 1 + zlen l') by lia. rewrite (sc_at _ _ _ _ H2). apply Z.eqb_neq.
      destruct att as [|a att]; [|rewrite last_app_ne by done; exact A4].
      rewrite app_nil_r. assert (X : symbol_char (s8 (List.last w 0)) = true).
      { clear - Ht. assert (K : w <> []) by done. clearbody w. destruct (last_split w K) as [u Eu]. rewrite Eu in Ht.
        apply Forall_app in Ht as [_ Ht]. by inversion_clear Ht. }
      by destruct (symbol_not _ X) as (_ & ? & _).
Qed.

Lemma close_tag_scan p tag : holds m p (close_tag tag) -> tag_ok tag -> (length (close_tag tag) < n)%nat ->
  sc m p = chr "<" /\ special_start m p = false /\ (sc m (p + 1) =? chr "/") = true /\
  _seek_tag_close n m (p + 1) = p + zlen (close_tag tag) - 1 /\
  (sc m (p + zlen (close_tag tag) - 2) =? chr "/") = false.
Proof.
  intros Hh [Ht H1] Hn. assert (T := symbols_scanned (chr ">") tag Ht ltac:(intros x Hx; by apply symbol_not)).
  assert (L : length (close_tag tag) = (length tag + 3)%nat) by (unfold close_tag; rewrite !length_app; cbn; lia).
  rewrite L in *. change (close_tag tag) with (60 :: 47 :: tag ++ [62]) in Hh.
  apply holds_cons_inv in Hh as [E0 Hh]. assert (E1 := Hh). apply holds_cons_inv in E1 as [E1 H2].
  unfold special_start, sc. rewrite E0, E1. split; [done|]. split; [done|]. split; [done|]. split.
  - rewrite app_comm_cons in Hh. unfold _seek_tag_close, strchr. rewrite (strchr_at n (chr ">") (47 :: tag) (p + 1) 62 Hh); [cbn [length]; lia|done| |cbn [length]; lia].
    by constructor.
  - assert (K : tag <> []) by (by destruct tag). destruct (last_split tag K) as [u Eu]. rewrite Eu in Ht, H2.
    assert (LL := f_equal length Eu). rewrite length_app in LL. cbn [length] in LL.
    rewrite <- app_assoc in H2. replace (p + _ - 2) with (p + 1 + 1 + zlen u) by lia.
    fold (sc m (p + 1 + 1 + zlen u)). rewrite (sc_at _ _ _ _ H2). apply Z.eqb_neq.
    apply Forall_app in Ht as [_ Ht]. inversion_clear Ht as [|? ? X _]. by destruct (symbol_not _ X) as (_ & ? & _).
Qed.

(** ** The end of a node *)

(** The next angle bracket behind a list of items is one of theirs, or the one
    that follows. *)
Lemma items_head l : xwfs l -> exists a b, xrenders l ++ [60] = a ++ 60 :: b /\ scanned (chr "<") a.
Proof.
  induction 1 as [|x l Hx Hl (a & b & E & Ha)]; [exists [], []; split; [done|constructor]|]. unfold xrenders in *. cbn [flat_map]. rewrite <- app_assoc, E.
  destruct x as [t|t|tag att c kids].
  - destruct Hx as [H1 H2]. exists (t ++ a), b. cbn [xrender]. rewrite <- app_assoc. split; [done|].
    apply Forall_app. split; [by apply scanned_avoids|done].
  - exists []. cbn [xrender]. destruct Hx; eexists; (split; [reflexivity|constructor]).
  - exists []. cbn [xrender]. eexists. split; [reflexivity|constructor].
Qed.

Lemma seek_skip p t l rest : holds m p (t ++ xrenders l ++ 60 :: rest) -> no_nul t -> avoids "<" t -> xwfs l ->
  (length (t ++ xrenders l) < n)%nat -> _seek_tag_open n m p = _seek_tag_open n m (p + zlen t).
Proof.
  intros Hh H1 H2 Hl Hn. destruct (items_head l Hl) as (a & b & E & Ha).
  rewrite cons_middle, (app_assoc (xrenders l)), E, <- app_assoc in Hh. cbn [app] in Hh.
  assert (La : (length a <= length (xrenders l))%nat) by (apply (f_equal length) in E; rewrite !length_app in E; cbn [length] in E; lia).
  rewrite length_app in Hn. unfold _seek_tag_open, strchr.
  rewrite cons_middle, !app_assoc in Hh. apply holds_app in Hh as [Hh _]. apply holds_app in Hh as [Hh _].
  rewrite (strchr_at n (chr "<") (t ++ a) p 60 Hh); [|done| |rewrite length_app; lia].
  - rewrite <- app_assoc in Hh. apply holds_app in Hh as [_ Hh].
    rewrite (strchr_at n (chr "<") a _ 60 Hh); [rewrite length_app; lia|done|done|lia].
  - apply Forall_app. split; [by apply scanned_avoids|done].
Qed.

Lemma seek_here p : sc m p = chr "<" -> (0 < n)%nat -> _seek_tag_open n m p = p.
Proof. intros E Hn. unfold _seek_tag_open, strchr. destruct n as [|k]; [lia|]. cbn [strchr_]. by rewrite E. Qed.

(** The steps of the loop over items: one per tag and special node. *)
Fixpoint xsteps (x : xitem) : nat :=
  match x with
  | XText _ => 0
  | XSpecial _ => 1
  | XElem _ _ c kids => if c then 1 else 2 + list_sum (map xsteps kids)
  end.
Definition xsteps_all (l : list xitem) : nat := list_sum (map xsteps l).

Lemma node_close_seek f si p q e tag : _seek_tag_open n m p = _seek_tag_open n m q ->
  node_close n m f si p e tag = node_close n m f si q e tag.
Proof. intros E. destruct f as [|f]; [done|]. cbn [node_close]. by rewrite E. Qed.

Lemma node_close_open f si p e tag t att c : tag_scan p t att c -> 0 < p -> (0 < n)%nat ->
  node_close n m (S f) si p e tag = node_close n m f si (p + zlen (open_tag t att c)) (if c then e else e + 1) tag.
Proof.
  intros [S0 S1 S2 S3 S4 _ S5] Hp Hn. cbn [node_close]. cbv zeta. rewrite seek_here by done.
  assert (L : 1 <= zlen (open_tag t att c)) by (unfold open_tag; rewrite length_app; cbn; lia).
  rewrite (proj2 (Z.eqb_neq p 0)) by lia. rewrite S1, S4, S2. rewrite (proj2 (Z.eqb_neq _ 0)) by lia.
  replace (p + zlen (open_tag t att c) - 1 - 1) with (p + zlen (open_tag t att c) - 2) by lia. rewrite S5.
  by replace (p + zlen (open_tag t att c) - 1 + 1) with (p + zlen (open_tag t att c)) by lia.
Qed.

Lemma node_close_end f si p e tag t : holds m p (close_tag t) -> tag_ok t -> (length (close_tag t) < n)%nat -> 0 < p -> 0 < e ->
  node_close n m (S f) si p e tag = node_close n m f si (p + zlen (close_tag t)) (e - 1) tag.
Proof.
  intros Hh Ht Hn Hp He. destruct (close_tag_scan p t Hh Ht Hn) as (S0 & S1 & S2 & S3 & S4).
  cbn [node_close]. cbv zeta. rewrite seek_here by (done || lia).
  rewrite (proj2 (Z.eqb_neq p 0)) by lia. assert (L : 1 <= zlen (close_tag t)) by (unfold close_tag; rewrite length_app; cbn; lia).
  rewrite S1, S3, S2, (proj2 (Z.eqb_neq (_ - 1) 0)) by lia.
  replace (p + zlen (close_tag t) - 1 - 1) with (p + zlen (close_tag t) - 2) by lia. rewrite S4.
  rewrite (proj2 (Z.eqb_neq (e - 1) (-1))) by lia. cbn [andb].
  by replace (p + zlen (close_tag t) - 1 + 1) with (p + zlen (close_tag t)) by lia.
Qed.

Lemma node_close_special f si p e tag t : special t -> holds m p t -> (length t < n)%nat -> 0 < p ->
  node_close n m (S f) si p e tag = node_close n m f si (p + zlen t) e tag.
Proof.
  intros St Hh Hn Hp. destruct (special_head t p St Hh) as [S0 S1]. cbn [node_close]. cbv zeta.
  rewrite seek_here by (lia || (unfold sc; by rewrite S0)). rewrite (proj2 (Z.eqb_neq p 0)), S1 by lia.
  rewrite (special_close t p St Hh Hn Hp). by replace (p + zlen t - 1 + 1) with (p + zlen t) by lia.
Qed.

Definition skips (x : xitem) : Prop := forall f si p e tag l rest, xwf x -> xwfs l ->
  holds m p (xrender x ++ xrenders l ++ 60 :: rest) -> (length (xrender x ++ xrenders l) < n)%nat -> 0 < p -> 0 <= e ->
  node_close n m (xsteps x + f) si p e tag = node_close n m f si (p + zlen (xrender x)) e tag.

Lemma skips_all l : Forall skips l -> forall f si p e tag rest, xwfs l ->
  holds m p (xrenders l ++ 60 :: rest) -> (length (xrenders l) < n)%nat -> 0 < p -> 0 <= e ->
  node_close n m (xsteps_all l + f) si p e tag = node_close n m f si (p + zlen (xrenders l)) e tag.
Proof.
  induction 1 as [|x l Hx Hl IH]; intros f si p e tag rest Hw Hh Hn Hp He; [cbn; by rewrite Z.add_0_r|].
  apply Forall_cons in Hw as [Hwx Hwl]. unfold xrenders, xsteps_all in *. cbn [flat_map map list_sum fold_right] in *.
  rewrite <- app_assoc in Hh. change (xsteps x + list_sum (map xsteps l) + f)%nat with ((xsteps x + list_sum (map xsteps l)) + f)%nat.
  rewrite <- Nat.add_assoc, (Hx _ si p e tag l rest) by done. apply holds_app in Hh as [_ Hh]. rewrite length_app in *.
  rewrite (IH f si _ e tag rest) by (done || lia). f_equal. lia.
Qed.

Lemma skips_item x : skips x.
Proof.
  induction x as [t|t|t att c kids IH] using xitem_rect_list; intros f si p e tag l rest Hx Hl Hh Hn Hp He.
  - cbn [xsteps xrender Nat.add] in *. destruct Hx as [H1 H2]. apply node_close_seek. by apply (seek_skip p t l rest).
  - cbn [xsteps xrender Nat.add] in *. apply holds_app in Hh as [Hh _]. rewrite length_app in Hn. apply node_close_special; (done || lia).
  - assert (W := Hx). destruct Hx as (Ht & Ha & Hk). cbn [xrender] in Hh, Hn |- *. rewrite <- app_assoc in Hh. rewrite length_app in Hn.
    assert (H1 := Hh). apply holds_app in H1 as [H1 H2]. rewrite length_app in Hn.
    assert (S := open_tag_scan p t att c H1 Ht Ha ltac:(lia)). destruct c.
    + cbn [xsteps Nat.add]. rewrite (node_close_open f si p e tag t att true S) by lia. by rewrite app_nil_r.
    + cbn [xsteps Nat.add]. fold (xsteps_all kids). fold (xrenders kids) in *. rewrite !length_app in Hn.
      rewrite (node_close_open _ si p e tag t att false S) by lia.
      replace (Datatypes.S (xsteps_all kids + f)) with (xsteps_all kids + Datatypes.S f)%nat by lia.
      assert (H3 := H2). rewrite <- !app_assoc in H3. change (close_tag t) with (60 :: [47] ++ t ++ [62]) in H3.
      rewrite (skips_all kids IH _ si _ (e + 1) tag _ (xwf_kids _ _ _ W) H3) by lia.
      rewrite <- !app_assoc in H2. apply holds_app in H2 as [_ H2]. apply holds_app in H2 as [H2 _].
      rewrite (node_close_end f si _ (e + 1) tag t H2 Ht) by lia. rewrite !length_app. f_equal; lia.
Qed.

(** The fuel of [_search_node_close] is enough: a step takes a character. *)
Lemma xsteps_le x : (xsteps x <= length (xrender x))%nat \/ ~ xwf x.
Proof.
  induction x as [t|t|t att c kids IH] using xitem_rect_list.
  - left. cbn. lia.
  - destruct (decide (t = [])) as [->|Ht]; [right; intros H; inversion H|left; cbn; destruct t; [done|cbn; lia]].
  - destruct c; [left; cbn [xsteps xrender]; unfold open_tag; rewrite length_app; cbn; lia|].
    assert (D : (xsteps_all kids <= length (xrenders kids))%nat \/ ~ xwfs kids).
    { unfold xsteps_all, xrenders. induction IH as [|x l [Hx|Hx] Hl [IH|IH]]; [left; done| |right..].
      - left. cbn [map list_sum fold_right flat_map]. rewrite length_app. unfold list_sum in *. lia.
      - by intros [_ ?]%Forall_cons.
      - by intros [? _]%Forall_cons.
      - by intros [? _]%Forall_cons. }
    destruct D as [D|D]; [left|right; intros H; by apply D, (xwf_kids t att)].
    cbn [xsteps xrender]. fold (xsteps_all kids). fold (xrenders kids). unfold open_tag, close_tag. rewrite !length_app. cbn. lia.
Qed.

Lemma xsteps_all_le l : xwfs l -> (xsteps_all l <= length (xrenders l))%nat.
Proof.
  induction 1 as [|x l Hx _ IH]; [done|]. unfold xsteps_all, xrenders in *. cbn [map list_sum fold_right flat_map].
  rewrite length_app. unfold list_sum in *. destruct (xsteps_le x); [lia|done].
Qed.

(** From behind an opening tag, [_search_node_close] finds the closing tag that
    matches it. *)
Lemma search_node_close_at p kids tag r : xwfs kids -> tag_ok tag -> holds m p (xrenders kids ++ close_tag tag) ->
  refers m r tag -> (length (xrenders kids ++ close_tag tag) < n)%nat -> 0 < p ->
  _search_node_close n m p r =
  Some (ERR_XML_OK, p + zlen (xrenders kids) + zlen (close_tag tag) - 1, Some (p + zlen (xrenders kids))).
Proof.
  intros Hk Ht Hh [Hr Hl] Hn Hp. unfold _search_node_close. rewrite length_app in Hn.
  assert (L : (1 <= length (close_tag tag))%nat) by (unfold close_tag; rewrite length_app; cbn; lia).
  assert (X := xsteps_all_le kids Hk). assert (E : exists f, n = (xsteps_all kids + S f)%nat).
  { exists (n - xsteps_all kids - 1)%nat. lia. }
  destruct E as [f E]. rewrite E at 2. rewrite (skips_all kids) with (rest := [47] ++ tag ++ [62]); try (done || lia).
  2: { clear -kids. induction kids; constructor; [apply skips_item|done]. }
  apply holds_app in Hh as [_ Hh]. set (q := p + zlen (xrenders kids)) in *.
  destruct (close_tag_scan q tag Hh Ht ltac:(lia)) as (S0 & S1 & S2 & S3 & S4).
  cbn [node_close]. cbv zeta. rewrite seek_here by (done || lia). rewrite (proj2 (Z.eqb_neq q 0)) by lia.
  rewrite S1, S3, S2, (proj2 (Z.eqb_neq (_ - 1) 0)) by lia.
  replace (q + zlen (close_tag tag) - 1 - 1) with (q + zlen (close_tag tag) - 2) by lia. rewrite S4.
  change (0 - 1 =? -1) with true. cbn [andb]. rewrite Hl, Nat2Z.id.
  assert (M : memeq (length tag) m (rb r) (q + 2) = true); [|by rewrite M].
  change (close_tag tag) with ([60; 47] ++ tag ++ [62]) in Hh. apply holds_app in Hh as [_ Hh]. apply holds_app in Hh as [Hh _].
  change (zlen [60; 47]) with 2 in Hh. revert Hr Hh. clear. generalize (rb r), (q + 2). induction tag as [|c tag IH]; intros a b Ha Hb; [done|].
  cbn [length memeq]. apply holds_cons_inv in Ha as [-> Ha]. apply holds_cons_inv in Hb as [-> Hb]. by rewrite Z.eqb_refl, (IH _ _ Ha Hb).
Qed.
End ScanFacts.
