(* ===== verification/XmlText.v ===== *)
(** Conversion of XML text of rt/xml_xhtml.cpp: [_convert_xml_to_text], which
    expands the character references and drops the tags, and the escaping of
    [XMLComposer::_InsertPlainText], which it undoes. *)
From S2P Require Import Prelude Str StrScan XmlScan.

(** ** Definitions *)

(** [TrimSpace] of an [rt::String] with the content [l]. *)
Definition trimmed (l : list Z) : list Z :=
  let m := mstore (fun _ => 0) 1 l in text m (TrimSpace m (mkRef 1 (1 + zlen l))).

Section Convert.
(** [before] is the byte in front of the block of the output, which [d[-1]]
    reads while the output is empty. *)
Context (n : nat) (m : mem) (before : Z) (TrimXMLCode TrimSubnodes : bool) (sep : Z).

(** The output is kept with its last character first: [d[-1]]. *)
Definition last_char (out : list Z) : Z := match out with c :: _ => s8 c | [] => s8 before end.
Definition put_plain (out : list Z) (x : Z) : list Z :=
  let c := s8 x in
  if (chr " " <? c) || ((c =? chr " ") && negb (last_char out =? chr " ") && negb (last_char out =? sep)) then x :: out else out.
Fixpoint plain_loop (k : nat) (s : Z) (out : list Z) : Z * list Z :=
  match k with
  | O => (s, out)
  | S k =>
    if (sc m s =? chr "&") || (TrimXMLCode && (sc m s =? chr "<")) then (s, out) else plain_loop k (s + 1) (put_plain out (m s))
  end.

Fixpoint ref_number (k : nat) (s a : Z) : Z * Z :=
  match k with
  | O => (s, a)
  | S k => if digit_char (sc m s) then ref_number k (s + 1) (s32 (a * 10 + (sc m s - chr "0"))) else (s, a)
  end.
(** A character reference at [s]: the rest of the text and the output.  A
    character below 128 or from 2048 up is stored without advancing [d]. *)
Definition convert_ref (s : Z) (out : list Z) : Z * list Z :=
  if sc m (s + 1) =? chr "#" then
    if digit_char (sc m (s + 2)) then
      let '(s, a) := ref_number n (s + 2) 0 in
      let s := if sc m s =? chr ";" then s + 1 else s in
      (s, if (a <=? 0x7f) || (0x7ff <? a) then out
          else (0x80 .| (0x3f .& a)) :: (0xc0 .| ((a .>> 6) .& 0x1f)) :: out)
    else (s + 2, chr "#" :: chr "&" :: out)
  else
    let w := load 4 m s in
    if w =? 0x3b746c26 then (s + 4, chr "<" :: out)
    else if w =? 0x706d6126 then (s + 5, chr "&" :: out)
    else if w =? 0x3b746726 then (s + 4, chr ">" :: out)
    else if w =? 0x6f757126 then (s + 6, c_quot :: out)
    else if w =? 0x6f706126 then (s + 6, c_apos :: out)
    else (s + 1, m s :: out).

(** [while(d[-1] == ' ')d--]: below the start of the block it is undefined. *)
Fixpoint strip_spaces (out : list Z) : option (list Z) :=
  match out with
  | [] => if s8 before =? chr " " then None else Some []
  | c :: t => if s8 c =? chr " " then strip_spaces t else Some out
  end.
Definition is_letter (c : Z) (lo up : ascii) : bool := (c =? chr lo) || (c =? chr up).
(** A tag at [s]: the rest of the text, or none when it is not closed. *)
Definition convert_tag (s : Z) (out : list Z) : option (option Z * list Z) :=
  out ← strip_spaces out;
  let close := _seek_tag_close n m (s + 1) in
  if close =? 0 then Some (None, out)
  else
    let breaks := (is_letter (sc m (s + 1)) "b" "B" && is_letter (sc m (s + 2)) "r" "R" && (sc m (s + 3) <? chr "@")) ||
                  (is_letter (sc m (s + 1)) "p" "P" && (sc m (s + 2) <? chr "@")) in
    let out := if breaks then 10 :: 13 :: out else if last_char out =? sep then out else sep :: out in
    if TrimSubnodes && negb (sc m (close - 1) =? chr "/") then
      r ← _search_node_close n m close (mkRef (s + 1) (_seek_symbol_end n m (s + 1)));
      let '(err, close_tag, _) := r in
      Some (Some (if decide (err = ERR_XML_OK) then close_tag + 1 else close + 1), out)
    else Some (Some (close + 1), out).

Fixpoint convert_loop (fuel : nat) (p pend : Z) (out : list Z) : option (list Z) :=
  match fuel with
  | O => None
  | S f =>
    if p <? pend then
      let '(s, out) := plain_loop (Z.to_nat (pend - p)) p out in
      if s =? pend then Some out
      else if sc m s =? chr "&" then let '(s, out) := convert_ref s out in convert_loop f s pend out
      else r ← convert_tag s out;
           match r with (Some p, out) => convert_loop f p pend out | (None, out) => Some out end
    else Some out
  end.
Definition convert (string : ref) : option (list Z) :=
  if IsEmpty string then Some []
  else
    out ← convert_loop (S (str_len string)) (rb string) (re string) [];
    Some (if TrimXMLCode then trimmed (rev out) else rev out).
End Convert.

Definition _convert_xml_to_text (n : nat) (m : mem) (before : Z) (string : ref) (TrimXMLCode TrimSubnodes : bool) (sep : Z)
  : option (list Z) :=
  convert n m before (TrimSubnodes || TrimXMLCode) TrimSubnodes sep string.
(** The default arguments, as for the values of attributes. *)
Definition attribute_text (n : nat) (m : mem) (before : Z) (string : ref) : option (list Z) :=
  _convert_xml_to_text n m before string false false (chr " ").

(** [_InsertPlainText], as the text put out. *)
Definition escape_char (x : Z) : list Z :=
  if s8 x =? chr "<" then str "&lt;" else if s8 x =? chr "&" then str "&amp;" else if s8 x =? chr ">" then str "&gt;"
  else if s8 x =? c_quot then str "&quot;" else if s8 x =? c_apos then str "&apos;" else [x].
Definition _InsertPlainText (t : list Z) : list Z := flat_map escape_char t.

(** ** What the conversion keeps of a plain text *)

(** The characters kept: those above the blank, and a blank that does not follow
    a blank; bytes from 128 up are negative characters and dropped. *)
Fixpoint squeeze (prev : Z) (t : list Z) : list Z :=
  match t with
  | [] => []
  | x :: t =>
    if (chr " " <? s8 x) || ((s8 x =? chr " ") && negb (prev =? chr " ")) then x :: squeeze (s8 x) t else squeeze prev t
  end.

Section ConvertFacts.
Context (n : nat) (m : mem) (before : Z).
Local Abbreviation last_char := (last_char before).
Local Abbreviation put := (put_plain before (chr " ")).

Definition special_char (c : Z) : bool :=
  (c =? chr "<") || (c =? chr "&") || (c =? chr ">") || (c =? c_quot) || (c =? c_apos).

Lemma escape_plain x : special_char (s8 x) = false -> escape_char x = [x].
Proof.
  unfold special_char, escape_char. intros [[[[-> ->]%orb_false_iff ->]%orb_false_iff ->]%orb_false_iff ->]%orb_false_iff. done.
Qed.

Lemma escape_plains a : all (fun c => negb (special_char c)) a -> _InsertPlainText a = a.
Proof.
  induction 1 as [|x a Hx Ha IH]; [done|]. unfold _InsertPlainText in *. cbn [flat_map]. rewrite IH, escape_plain; [done|].
  by apply negb_true_iff.
Qed.

Lemma plain_run a : forall k p out b, all (fun c => negb (special_char c)) a -> holds m p (a ++ b) -> (length a <= k)%nat ->
  (k = length a \/ exists c b', b = c :: b' /\ c = 38) ->
  plain_loop m before false (chr " ") k p out = (p + zlen a, fold_left put a out).
Proof.
  induction a as [|x a IH]; intros k p out b Ha Hh Hk Hb; cbn [length fold_left] in *.
  - rewrite Z.add_0_r. destruct k as [|k]; [done|]. destruct Hb as [Hb|(c & b' & -> & ->)]; [lia|].
    cbn [plain_loop]. apply holds_cons_inv in Hh as [E _]. unfold sc. by rewrite E.
  - destruct k as [|k]; [lia|]. apply Forall_cons in Ha as [Hx Ha]. apply holds_cons_inv in Hh as [E Hh].
    cbn [plain_loop]. unfold sc. rewrite E. apply negb_true_iff in Hx. unfold special_char in Hx.
    apply orb_false_iff in Hx as [[[[_ ->]%orb_false_iff _]%orb_false_iff _]%orb_false_iff _]. cbn [orb andb]. rewrite (IH k (p + 1) _ b); [f_equal; lia|done|done|lia|].
    destruct Hb as [Hb|Hb]; [left; lia|by right].
Qed.

Lemma put_squeeze a : forall out, fold_left put a out = rev (squeeze (last_char out) a) ++ out.
Proof.
  induction a as [|x a IH]; intros out; [done|]. cbn [fold_left squeeze]. rewrite IH. unfold put_plain.
  destruct (chr " " <? s8 x); cbn [orb].
  - cbn [rev]. rewrite <- app_assoc. done.
  - destruct (s8 x =? chr " "); cbn [andb]; [|done]. destruct (last_char out =? chr " "); cbn [negb andb]; [done|].
    cbn [rev]. rewrite <- app_assoc. done.
Qed.

Lemma squeeze_app a b : forall out, squeeze (last_char out) (a ++ b) =
  squeeze (last_char out) a ++ squeeze (last_char (fold_left put a out)) b.
Proof.
  induction a as [|x a IH]; intros out; [done|]. cbn [app squeeze fold_left]. unfold put_plain.
  destruct (chr " " <? s8 x); cbn [orb].
  - cbn [app]. f_equal. exact (IH (x :: out)).
  - destruct (s8 x =? chr " "); cbn [andb]; [|exact (IH out)]. destruct (last_char out =? chr " "); cbn [negb andb]; [exact (IH out)|].
    cbn [app]. f_equal. exact (IH (x :: out)).
Qed.

(** One reference: its character comes out. *)
Lemma convert_entity p out c1 c2 c3 r : holds m p ([38; c1; c2; c3] ++ r) -> (s8 c1 =? chr "#") = false ->
  convert_ref n m p out =
  let w := le_val [38; c1; c2; c3] in
  if w =? 0x3b746c26 then (p + 4, chr "<" :: out)
  else if w =? 0x706d6126 then (p + 5, chr "&" :: out)
  else if w =? 0x3b746726 then (p + 4, chr ">" :: out)
  else if w =? 0x6f757126 then (p + 6, c_quot :: out)
  else if w =? 0x6f706126 then (p + 6, c_apos :: out)
  else (p + 1, 38 :: out).
Proof.
  intros Hh Hc. unfold convert_ref. rewrite (load_known m 4 _ r p Hh eq_refl).
  apply holds_cons_inv in Hh as [E0 Hh]. apply holds_cons_inv in Hh as [E1 _]. unfold sc. by rewrite E0, E1, Hc.
Qed.

Lemma convert_special x p out : is_byte x -> special_char (s8 x) = true -> holds m p (escape_char x) ->
  exists r, escape_char x = 38 :: r /\ convert_ref n m p out = (p + zlen (escape_char x), x :: out).
Proof.
  intros Hx Hs Hh.
  assert (D : x = 60 \/ x = 38 \/ x = 62 \/ x = 34 \/ x = 39).
  { assert (K := byte_forall (fun x => implb (special_char (s8 x)) ((x =? 60) || (x =? 38) || (x =? 62) || (x =? 34) || (x =? 39)))
      ltac:(vm_compute; reflexivity) x Hx). cbv beta in K. rewrite Hs in K. cbn [implb] in K.
    repeat (apply orb_true_iff in K as [K|K]; [|right]); lia. }
  destruct D as [->|[->|[->|[->| ->]]]]; (eexists; split; [reflexivity|]).
  - by rewrite (convert_entity p out 108 116 59 [] Hh eq_refl).
  - by rewrite (convert_entity p out 97 109 112 [59] Hh eq_refl).
  - by rewrite (convert_entity p out 103 116 59 [] Hh eq_refl).
  - by rewrite (convert_entity p out 113 117 111 [116; 59] Hh eq_refl).
  - by rewrite (convert_entity p out 97 112 111 [115; 59] Hh eq_refl).
Qed.

Lemma special_kept x : special_char (s8 x) = true -> (chr " " <? s8 x) = true.
Proof.
  unfold special_char. rewrite !orb_true_iff, !Z.eqb_eq. intros H. apply Z.ltb_lt.
  destruct H as [[[[->| ->]| ->]| ->]| ->]; vm_compute; reflexivity.
Qed.

Lemma length_escape_char x : (1 <= length (escape_char x))%nat.
Proof. unfold escape_char. repeat case_match; cbn; lia. Qed.

Lemma convert_loop_escape k : forall t p out f, (length t <= k)%nat -> bytes t -> holds m p (_InsertPlainText t) ->
  (length (_InsertPlainText t) < f)%nat ->
  convert_loop n m before false false (chr " ") f p (p + zlen (_InsertPlainText t)) out = Some (rev (squeeze (last_char out) t) ++ out).
Proof.
  induction k as [|k IH]; intros t p out f Hk Hb Hh Hf.
  - destruct t; [|cbn in Hk; lia]. destruct f; [lia|]. cbn [convert_loop]. change (zlen (_InsertPlainText [])) with 0.
    by rewrite Z.add_0_r, Z.ltb_irrefl.
  - destruct (span (fun c => negb (special_char c)) t) as (a & b & -> & Ha & Hs).
    unfold _InsertPlainText in Hh, Hf |- *. rewrite flat_map_app in *. fold (_InsertPlainText a) (_InsertPlainText b) in *.
    rewrite (escape_plains a Ha) in *. destruct f as [|f]; [lia|]. cbn [convert_loop].
    rewrite length_app in *. destruct b as [|x b].
    + cbn [length] in *. change (length (_InsertPlainText [])) with 0%nat in *. rewrite Nat.add_0_r in *. rewrite !app_nil_r in *.
      destruct (Z.ltb_spec p (p + zlen a)) as [L|L].
      * rewrite (plain_run a _ p out []); [|done|by rewrite app_nil_r|lia|left; lia]. by rewrite Z.eqb_refl, put_squeeze.
      * by destruct a; [|cbn [length] in L; lia].
    + apply Forall_app in Hb as [_ Hb]. apply Forall_cons in Hb as [Hx Hb]. specialize (Hs x b eq_refl). apply negb_false_iff in Hs.
      unfold _InsertPlainText in Hh, Hf |- *. cbn [flat_map] in *. fold (_InsertPlainText b) in *.
      assert (Hh2 := Hh). apply holds_app in Hh2 as [_ Hh2]. assert (Hx2 := Hh2). apply holds_app in Hx2 as [Hx2 Hb2].
      destruct (convert_special x (p + zlen a) (fold_left put a out) Hx Hs Hx2) as (r & Er & Ec).
      assert (Lx := length_escape_char x). rewrite length_app in *.
      rewrite (proj2 (Z.ltb_lt p _)) by lia.
      rewrite (plain_run a _ p out (escape_char x ++ _InsertPlainText b)); [|done|done|lia|right; rewrite Er; eexists _, _; done].
      rewrite (proj2 (Z.eqb_neq (p + zlen a) _)) by lia. rewrite Er in Hx2. apply holds_cons_inv in Hx2 as [E0 _].
      unfold sc. rewrite E0. change (s8 38 =? chr "&") with true. cbv iota. rewrite Ec.
      replace (p + Z.of_nat (length a + (length (escape_char x) + length (_InsertPlainText b)))) with
        (p + zlen a + zlen (escape_char x) + zlen (_InsertPlainText b)) by lia.
      rewrite (IH b); [|cbn [length] in Hk; lia|done|done|lia].
      rewrite put_squeeze, (squeeze_app a (x :: b)). cbn [squeeze]. rewrite (special_kept x Hs). cbn [orb].
      rewrite rev_app_distr. cbn [rev]. rewrite <- !app_assoc. done.
Qed.

(** Converting an escaped text gives the text back, less control characters,
    bytes from 128 up and repeated blanks. *)
Lemma attribute_text_escape r t : bytes t -> refers m r (_InsertPlainText t) -> rb r <> 0 ->
  attribute_text n m before r = Some (squeeze (s8 before) t).
Proof.
  intros Hb [Hh Hl] Hr. unfold attribute_text, _convert_xml_to_text, convert, IsEmpty. rewrite (proj2 (Z.eqb_neq _ 0) Hr). cbn [orb].
  unfold GetLength in Hl. destruct (Z.eqb_spec (re r) (rb r)) as [E|E].
  - destruct t as [|x t]; [done|]. exfalso. unfold _InsertPlainText in Hl. cbn [flat_map] in Hl. rewrite length_app in Hl.
    assert (L := length_escape_char x). lia.
  - replace (re r) with (rb r + zlen (_InsertPlainText t)) by lia.
    rewrite (convert_loop_escape (length t)); [|lia|done|done|unfold str_len, GetLength; lia].
    cbn. by rewrite app_nil_r, rev_involutive.
Qed.
End ConvertFacts.

(** Texts that are kept whole: printable ASCII with single blanks, none first. *)
Fixpoint kept (prev : Z) (t : list Z) : bool :=
  match t with
  | [] => true
  | x :: t => ((chr " " <? s8 x) || ((s8 x =? chr " ") && negb (prev =? chr " "))) && kept (s8 x) t
  end.
Lemma squeeze_kept t : forall prev, kept prev t = true -> squeeze prev t = t.
Proof.
  induction t as [|x t IH]; intros prev H; [done|]. cbn [kept squeeze] in *. apply andb_true_iff in H as [-> H]. by rewrite IH.
Qed.

(** ** Attributes *)

(** The attributes as [SetAttribute] writes them: name and value text. *)
Definition attr_text (nv : list Z * list Z) : list Z := str " " ++ fst nv ++ str "=" ++ [c_quot] ++ snd nv ++ [c_quot].
Definition attrs_text (l : list (list Z * list Z)) : list Z := flat_map attr_text l.

Definition name_ok (w : list Z) : Prop :=
  all symbol_char w /\ match w with [] => False | c :: _ => 0x2d <= s8 c \/ s8 c < 0 end.
Definition value_ok (v : list Z) : Prop := scanned c_quot v.
Definition attrs_ok (l : list (list Z * list Z)) : Prop := Forall (fun nv => name_ok (fst nv) /\ value_ok (snd nv)) l.

Section AttribFacts.
Context (n : nat) (m : mem).

(** The attribute that starts at [p]: its name, its value and where the scan
    goes on. *)
Lemma attrib_at k p w v e : holds m p (w ++ str "=" ++ [c_quot] ++ v ++ [c_quot]) -> name_ok w -> value_ok v ->
  sc m (p - 1) < 0x2d -> (length w + length v + 1 < n)%nat -> 0 < p ->
  attrib_loop n m (S k) p e =
  mkAttrib (p + zlen w + zlen v + 3) (mkRef p (p + zlen w)) (mkRef (p + zlen w + 2) (p + zlen w + 2 + zlen v)) e.
Proof.
  intros Hh [Hw H1] Hv Hp Hn Hpos. cbn [attrib_loop].
  assert (Sy : _seek_symbol_end n m p = p + zlen w).
  { apply (symbol_end_at n m w 61 p); [|done|reflexivity|lia]. change (str "=" ++ [c_quot] ++ v ++ [c_quot]) with ([61] ++ [c_quot] ++ v ++ [c_quot]) in Hh.
    rewrite app_assoc in Hh. by apply holds_app in Hh as [Hh _]. }
  assert (W : (1 <= length w)%nat) by (destruct w; [done|cbn; lia]).
  assert (A1 : attrib_end m p = false /\ attrib_start m p = true).
  { destruct w as [|c w]; [done|]. assert (Hc : symbol_char (s8 c) = true) by (by inversion_clear Hw).
    destruct (symbol_not _ Hc) as (N0 & N1 & _ & N2 & _). apply holds_cons_inv in Hh as [E _].
    assert (Es : sc m p = s8 c) by (unfold sc; by rewrite E).
    unfold attrib_end, attrib_start. rewrite Es, !(proj2 (Z.eqb_neq _ _)) by done. split; [done|].
    rewrite (proj2 (Z.ltb_lt _ _) Hp). cbn [andb]. apply orb_true_iff. rewrite Z.leb_le, Z.ltb_lt. exact H1. }
  destruct A1 as [-> ->]. cbv zeta. rewrite Sy. rewrite (proj2 (Z.eqb_neq (p + zlen w) p)) by lia.
  apply holds_app in Hh as [_ Hh]. set (q := p + zlen w) in *. apply holds_cons_inv in Hh as [E1 Hh].
  assert (St : strchr n m q (chr "=") = q).
  { unfold strchr. destruct n as [|k']; [lia|]. cbn [strchr_]. unfold sc. by rewrite E1. }
  rewrite St, (proj2 (Z.eqb_neq q 0)) by lia. apply holds_cons_inv in Hh as [E2 Hh].
  assert (V : value_loop n m n (q + 1) = inl (q + 2 + zlen v + 1, mkRef (q + 2) (q + 2 + zlen v))).
  { destruct n as [|k'] eqn:En; [lia|]. cbn [value_loop]. rewrite <- En. cbv zeta.
    assert (Es : sc m (q + 1) = 34) by (unfold sc; by rewrite E2). rewrite Es. cbn [Z.eqb orb].
    change ((34 =? 0) || (34 =? chr ">")) with false. change ((34 =? c_quot) || (34 =? c_apos)) with true. cbv iota.
    unfold strchr. replace (q + 1 + 1) with (q + 2) in * by lia.
    rewrite (strchr_at m n 34 v (q + 2) 34 Hh eq_refl Hv) by lia. by rewrite (proj2 (Z.eqb_neq _ 0)) by lia. }
  rewrite V. f_equal. lia.
Qed.

(** The scan starts on the blank in front of an attribute, or on its name. *)
Lemma attrib_blank k p nv e : holds m p (attr_text nv) -> name_ok (fst nv) -> value_ok (snd nv) ->
  (length (attr_text nv) < n)%nat -> 0 < p ->
  attrib_loop n m (S (S k)) p e =
  mkAttrib (p + zlen (attr_text nv)) (mkRef (p + 1) (p + 1 + zlen (fst nv)))
    (mkRef (p + 1 + zlen (fst nv) + 2) (p + 1 + zlen (fst nv) + 2 + zlen (snd nv))) e.
Proof.
  destruct nv as [w v]. cbn [fst snd]. intros Hh Hw Hv Hn Hp. unfold attr_text in *. cbn [fst snd] in *.
  rewrite !length_app in Hn. cbn [length] in Hn. change (length (str " ")) with 1%nat in Hn. change (length (str "=")) with 1%nat in Hn.
  apply holds_cons_inv in Hh as [E Hh].
  assert (A : attrib_end m p = false /\ attrib_start m p = false).
  { assert (Es : sc m p = 32) by (unfold sc; by rewrite E). unfold attrib_end, attrib_start. rewrite Es.
    split; [done|]. by rewrite andb_false_r. }
  destruct A as [A1 A2]. replace (S (S k)) with (1 + S k)%nat by lia. cbn [Nat.add].
  assert (L : attrib_loop n m (S (S k)) p e = attrib_loop n m (S k) (p + 1) e).
  { remember (S k) as k1. cbn [attrib_loop]. by rewrite A1, A2. }
  rewrite L, (attrib_at k (p + 1) w v e Hh Hw Hv); [|unfold sc; replace (p + 1 - 1) with p by lia; rewrite E; vm_compute; reflexivity|lia|lia].
  rewrite !length_app. change (length (str " ")) with 1%nat. change (length (str "=")) with 1%nat. cbn [length]. f_equal; try lia; f_equal; lia.
Qed.

(** Behind the attributes: blanks, then the end of the tag. *)
Lemma attrib_none k p e : holds m p (str ">") \/ holds m p (str "/>") \/ holds m p (str " />") ->
  attrib_loop n m (S (S k)) p e = no_attrib e.
Proof.
  intros H. remember (S k) as k1. cbn [attrib_loop]. destruct H as [H|[H|H]].
  - apply holds_cons_inv in H as [E _]. unfold attrib_end, sc. by rewrite E.
  - apply holds_cons_inv in H as [E H]. apply holds_cons_inv in H as [E1 _]. unfold attrib_end, sc. by rewrite E, E1.
  - apply holds_cons_inv in H as [E H]. apply holds_cons_inv in H as [E1 H]. apply holds_cons_inv in H as [E2 _].
    assert (A : attrib_end m p = false /\ attrib_start m p = false).
    { assert (Es : sc m p = 32) by (unfold sc; by rewrite E). unfold attrib_end, attrib_start. rewrite Es.
    split; [done|]. by rewrite andb_false_r. }
    destruct A as [-> ->]. subst k1. cbn [attrib_loop]. unfold attrib_end, sc. by rewrite E1, E2.
Qed.

Lemma name_is_refers r w name : refers m r w -> name_is m r name = zlist_eqb w name.
Proof.
  intros [Hh Hl]. unfold name_is. rewrite Hl. destruct (Z.eqb_spec (zlen w) (zlen name)) as [E|E]; cbn [andb].
  - assert (E' : length w = length name) by lia. unfold holds in Hh. by rewrite <- E', Hh.
  - symmetry. apply not_true_iff_false. intros X%zlist_eqb_eq. by subst.
Qed.

(** The parts of an attribute in memory. *)
Lemma attr_parts p nv : holds m p (attr_text nv) ->
  refers m (mkRef (p + 1) (p + 1 + zlen (fst nv))) (fst nv) /\
  refers m (mkRef (p + 1 + zlen (fst nv) + 2) (p + 1 + zlen (fst nv) + 2 + zlen (snd nv))) (snd nv).
Proof.
  destruct nv as [w v]. cbn [fst snd]. intros [_ Hh]%holds_cons_inv. apply holds_app in Hh as [H1 Hh].
  change ([61; c_quot] ++ v ++ [c_quot]) with (str "=" ++ [c_quot] ++ v ++ [c_quot]).
  apply (holds_app m _ [61; c_quot]) in Hh as [_ Hh]. apply holds_app in Hh as [H2 _]. change (zlen [61; c_quot]) with 2 in H2.
  split; (split; [done|unfold GetLength; cbn [rb re]; lia]).
Qed.

Fixpoint assoc_text (name : list Z) (l : list (list Z * list Z)) : option (list Z) :=
  match l with [] => None | (w, v) :: t => if zlist_eqb w name then Some v else assoc_text name t end.

Definition found (o : option (list Z)) (res : option ref * syntax_error) (e : syntax_error) : Prop :=
  match o with
  | Some v => exists r, res = (Some r, e) /\ refers m r v /\ 0 < rb r
  | None => res = (None, e)
  end.

Lemma length_attr_text nv : (5 <= length (attr_text nv))%nat \/ fst nv = [].
Proof.
  destruct nv as [[|c w] v]; [by right|left]. unfold attr_text. cbn [fst snd]. rewrite !length_app.
  change (length (str " ")) with 1%nat. change (length (str "=")) with 1%nat. cbn [length]. lia.
Qed.

(** One attribute of the search. *)
Lemma search_step k p name (nv : list Z * list Z) next e : a_err (_seek_next_attrib n m p) = None ->
  _seek_next_attrib n m p = mkAttrib next (mkRef (rb (a_name (_seek_next_attrib n m p))) (re (a_name (_seek_next_attrib n m p))))
     (a_value (_seek_next_attrib n m p)) None ->
  0 < next -> refers m (a_name (_seek_next_attrib n m p)) (fst nv) -> 0 < rb (a_name (_seek_next_attrib n m p)) -> fst nv <> [] ->
  search_attrib n m (S k) p name e =
  if zlist_eqb (fst nv) name then (Some (a_value (_seek_next_attrib n m p)), e) else search_attrib n m k next name e.
Proof.
  intros He Ha Hn Hr Hp Hw. cbn [search_attrib]. cbv zeta. rewrite He. cbn [keep_error]. rewrite (name_is_refers _ (fst nv) name Hr).
  assert (Hnext : a_next (_seek_next_attrib n m p) = next) by (rewrite Ha; done). rewrite Hnext.
  rewrite (proj2 (Z.eqb_neq next 0)) by lia. unfold IsEmpty. rewrite (proj2 (Z.eqb_neq (rb _) 0)) by lia.
  destruct Hr as [_ Hl]. unfold GetLength in Hl. assert (0 < length (fst nv))%nat by (destruct (fst nv); [done|cbn; lia]).
  by rewrite (proj2 (Z.eqb_neq (re _) (rb _))) by lia.
Qed.

Lemma two_more : (1 < n)%nat -> exists k, n = S (S k).
Proof. intros H. exists (n - 2)%nat. lia. Qed.

Definition tag_end (z : list Z) : Prop := z = str ">" \/ z = str "/>" \/ z = str " />".

Lemma search_attrs l z name : attrs_ok l -> tag_end z -> forall k p e, holds m p (attrs_text l ++ z) ->
  (length l < k)%nat -> (length (attrs_text l) + 2 < n)%nat -> 0 < p ->
  found (assoc_text name l) (search_attrib n m k p name e) e.
Proof.
  intros Hl Hz. induction Hl as [|[w v] l [Hw Hv] Hl IH]; intros k p e Hh Hk Hn Hp.
  - destruct k as [|k]; [cbn in Hk; lia|]. cbn [assoc_text found search_attrib]. cbv zeta.
    assert (E : _seek_next_attrib n m p = no_attrib None).
    { unfold _seek_next_attrib. destruct (two_more ltac:(lia)) as [k' Ek]. rewrite Ek at 2. apply attrib_none. unfold tag_end in Hz.
      destruct Hz as [->|[->| ->]]; cbn [attrs_text flat_map app] in Hh; tauto. }
    by rewrite E.
  - destruct k as [|k]; [cbn in Hk; lia|]. unfold attrs_text in *. cbn [flat_map length] in *. rewrite length_app in Hn.
    rewrite <- app_assoc in Hh. apply holds_app in Hh as [H1 H2]. destruct (attr_parts p (w, v) H1) as [R1 R2]. cbn [fst snd] in *.
    assert (E : _seek_next_attrib n m p = mkAttrib (p + zlen (attr_text (w, v))) (mkRef (p + 1) (p + 1 + zlen w))
      (mkRef (p + 1 + zlen w + 2) (p + 1 + zlen w + 2 + zlen v)) None).
    { unfold _seek_next_attrib. destruct (two_more ltac:(lia)) as [k' Ek]. rewrite Ek at 2. rewrite (attrib_blank k' p (w, v)); [done|done|done|done|lia|lia]. }
    rewrite (search_step k p name (w, v) (p + zlen (attr_text (w, v))) e); rewrite ?E; cbn [a_err a_name a_value rb fst]; [|done|done|lia|done|lia|by destruct Hw, w].
    cbn [assoc_text]. destruct (zlist_eqb w name).
    + cbn [found]. eexists. split; [done|]. split; [done|cbn [rb]; lia].
    + apply IH; [done|lia|lia|lia].
Qed.

(** The same from the first name, behind which the trimmed attributes start. *)
Lemma search_attrs_trimmed l z name p : attrs_ok l -> l <> [] -> tag_end z -> holds m p (attrs_text l ++ z) ->
  (length l < n)%nat -> (length (attrs_text l) + 2 < n)%nat -> 0 < p ->
  found (assoc_text name l) (_search_attrib n m (p + 1) name) None.
Proof.
  intros Hl Hne Hz Hh Hk Hn Hp. destruct Hl as [|[w v] l [Hw Hv] Hl]; [done|]. unfold _search_attrib.
  assert (X : exists k, n = S k) by (destruct n; [lia|eauto]). destruct X as [k Ek]. rewrite Ek at 2.
  unfold attrs_text in *. cbn [flat_map length] in *. rewrite length_app in Hn.
  rewrite <- app_assoc in Hh. apply holds_app in Hh as [H1 H2]. destruct (attr_parts p (w, v) H1) as [R1 R2]. cbn [fst snd] in *.
  assert (L : zlen (attr_text (w, v)) = zlen w + zlen v + 4).
  { unfold attr_text. cbn [fst snd]. rewrite !length_app. change (length (str " ")) with 1%nat. change (length (str "=")) with 1%nat. cbn [length]. lia. }
  assert (E : _seek_next_attrib n m (p + 1) = mkAttrib (p + zlen (attr_text (w, v))) (mkRef (p + 1) (p + 1 + zlen w))
    (mkRef (p + 1 + zlen w + 2) (p + 1 + zlen w + 2 + zlen v)) None).
  { unfold _seek_next_attrib. rewrite Ek at 2. apply holds_cons_inv in H1 as [E0 H1]. rewrite (attrib_at k (p + 1) w v None H1 Hw Hv); [|..].
    - f_equal. lia.
    - unfold sc. replace (p + 1 - 1) with p by lia. rewrite E0. vm_compute. reflexivity.
    - lia.
    - lia. }
  rewrite (search_step k (p + 1) name (w, v) (p + zlen (attr_text (w, v))) None); rewrite ?E; cbn [a_err a_name a_value rb fst];
    [|done|done|lia|done|lia|by destruct Hw, w].
  cbn [assoc_text]. destruct (zlist_eqb w name).
  - cbn [found]. eexists. split; [done|]. split; [done|cbn [rb]; lia].
  - apply (search_attrs l z name Hl Hz); [done|lia|unfold attrs_text; lia|lia].
Qed.
End AttribFacts.
