(* ===== verification/XmlPath.v ===== *)
(** XPath selection of rt/xml_xhtml.cpp: [XPathParser], its compilation of a path
    into qualifiers ([Load], [ParseQualifier]) and the test of a node
    ([QualifierTest], [_TagTest]). *)
From S2P Require Import Prelude Str StrScan XmlScan XmlText.

(** ** Definitions *)

Inductive XPathParseError :=
| ERR_XPATH_OK | ERR_XPATH_DESCENDANT_IN_HALFWAY | ERR_SELECTOR_ATTRIBUTE_SET_NOT_SUPPORTED
| ERR_SELECTOR_NODENAME_NOT_FOUND | ERR_SELECTOR_UNEXPECTED_SYMBOL | ERR_QUALIFIER_CONDITION_CLOSURE_NOT_MATCHED
| ERR_QUALIFIER_CONDITION_NOT_SUPPORTED | ERR_QUALIFIER_VALUE_NOT_SUPPORTED | ERR_QUALIFIER_BAD_ORDINAL
| ERR_QUALIFIER_QUOTATION_NOT_MATCHED | ERR_QUALIFIER_OPERATOR_NOT_SUPPORTED.

(** [_QualifierType], the bits for the name and for the attribute. *)
Inductive name_type := QT_NAME_NOT_PARSED | QT_NAME_ANY | QT_NAME_EXACT.
Inductive att_type :=
| QT_ATTRIBUTE_ANY | QT_ATTRIBUTE_HAVE | QT_ATTRIBUTE_EQUAL | QT_ATTRIBUTE_NOTEQUAL | QT_ATTRIBUTE_STARTWITH
| QT_ATTRIBUTE_ENDWITH | QT_ATTRIBUTE_CONTAIN | QT_ATTRIBUTE_HAVE_WORD.

(** The strings are given by their contents. *)
Record _Qualifier := mkQualifier {
  qt_TagName : name_type; TagName : list Z; qt_Attribute : att_type; Attribute : list Z; Value : list Z;
  qt_Ordinal : Z; _LastOrdinalTestPast : Z }.
#[export] Instance att_type_eq_dec : EqDecision att_type.
Proof. solve_decision. Defined.
#[export] Instance name_type_eq_dec : EqDecision name_type.
Proof. solve_decision. Defined.

Definition Load_qualifier (q : _Qualifier) (qualify : list Z) : _Qualifier :=
  mkQualifier QT_NAME_NOT_PARSED qualify (qt_Attribute q) (Attribute q) (Value q) (qt_Ordinal q) (_LastOrdinalTestPast q).
Definition set_att (q : _Qualifier) (t : att_type) (a v : list Z) (o : Z) : _Qualifier :=
  mkQualifier (qt_TagName q) (TagName q) t a v o (_LastOrdinalTestPast q).
Definition set_name (q : _Qualifier) (t : name_type) (name : list Z) : _Qualifier :=
  mkQualifier t name (qt_Attribute q) (Attribute q) (Value q) (qt_Ordinal q) (_LastOrdinalTestPast q).
Definition set_past (q : _Qualifier) (past : Z) : _Qualifier :=
  mkQualifier (qt_TagName q) (TagName q) (qt_Attribute q) (Attribute q) (Value q) (qt_Ordinal q) past.

(** [_skip_whitespace] *)
Definition white (c : Z) : bool := (0 <? c) && (c <=? chr " ").
Definition _skip_whitespace (n : nat) (m : mem) (p : Z) : Z := scan white n m p.

Section Qualifier.
(** The text of the qualifier is a string of its own in [m] at [q0], ended by a
    NUL; [before] is the byte in front of the block of [q.Value]. *)
Context (n : nat) (m : mem) (q0 before : Z).
Definition parsed : Type := (_Qualifier * XPathParseError)%type.

(** The value behind the operator: a quoted string, then the bracket. *)
Definition ParseValue (q : _Qualifier) (t : att_type) (a : list Z) (patt : Z) : option parsed :=
  let patt := _skip_whitespace n m patt in
  let q := set_att q t a (Value q) (-1) in
  if (sc m patt =? c_apos) || (sc m patt =? c_quot) then
    let pend := strchr n m (patt + 1) (sc m patt) in
    if pend =? 0 then Some (q, ERR_QUALIFIER_QUOTATION_NOT_MATCHED)
    else
      v ← attribute_text n m before (mkRef (patt + 1) pend);
      let patt := _skip_whitespace n m (pend + 1) in
      Some (set_att q t a v (-1), if sc m patt =? chr "]" then ERR_XPATH_OK else ERR_QUALIFIER_CONDITION_NOT_SUPPORTED)
  else Some (q, ERR_QUALIFIER_VALUE_NOT_SUPPORTED).

(** The condition of an attribute, behind the [@]. *)
Definition ParseAttribute (q : _Qualifier) (patt : Z) : option parsed :=
  let patt := _skip_whitespace n m patt in
  let pend := _seek_symbol_end n m patt in
  let a := mem_bytes m patt (Z.to_nat (pend - patt)) in
  let patt := _skip_whitespace n m pend in
  let short := removelast a in
  if sc m patt =? chr "=" then
    let c := sc m (patt - 1) in
    if c =? chr ":" then ParseValue q QT_ATTRIBUTE_STARTWITH short (patt + 1)
    else if c =? chr "?" then ParseValue q QT_ATTRIBUTE_ENDWITH short (patt + 1)
    else if c =? chr "~" then ParseValue q QT_ATTRIBUTE_CONTAIN short (patt + 1)
    else if c =? chr "^" then ParseValue q QT_ATTRIBUTE_HAVE_WORD short (patt + 1)
    else ParseValue q QT_ATTRIBUTE_EQUAL a (patt + 1)
  else if (sc m patt =? chr "!") && (sc m (patt + 1) =? chr "=") then ParseValue q QT_ATTRIBUTE_NOTEQUAL a (patt + 2)
  else Some (set_att q QT_ATTRIBUTE_HAVE a (Value q) (-1),
             if sc m patt =? chr "]" then ERR_XPATH_OK else ERR_QUALIFIER_OPERATOR_NOT_SUPPORTED).

(** The part behind the name. *)
Definition ParseCondition (q : _Qualifier) (patt : Z) : option parsed :=
  let patt := _skip_whitespace n m patt in
  if sc m patt =? chr "[" then
    let patt := _skip_whitespace n m (patt + 1) in
    if digit_char (sc m patt) then
      let tail := _seek_symbol_end n m patt in
      if sc m tail =? chr "]" then
        Some (set_att q QT_ATTRIBUTE_ANY (Attribute q) (Value q) (snd (ToNumber T_INT m (mkRef patt tail))), ERR_XPATH_OK)
      else Some (set_att q QT_ATTRIBUTE_ANY (Attribute q) (Value q) (qt_Ordinal q), ERR_QUALIFIER_BAD_ORDINAL)
    else if sc m patt =? chr "@" then ParseAttribute q (patt + 1)
    else Some (q, ERR_QUALIFIER_CONDITION_NOT_SUPPORTED)
  else if sc m patt =? 0 then Some (set_att q QT_ATTRIBUTE_ANY (Attribute q) (Value q) (-1), ERR_XPATH_OK)
  else Some (q, ERR_SELECTOR_UNEXPECTED_SYMBOL).

Definition ParseQualifier_at (q : _Qualifier) : option parsed :=
  let q := set_past q 0 in
  let qualify := _skip_whitespace n m q0 in
  if sc m qualify =? chr "@" then Some (q, ERR_SELECTOR_ATTRIBUTE_SET_NOT_SUPPORTED)
  else if sc m qualify =? chr "*" then ParseCondition (set_name q QT_NAME_ANY (TagName q)) (qualify + 1)
  else
    let patt := _seek_symbol_end n m qualify in
    if patt =? qualify then Some (q, ERR_SELECTOR_NODENAME_NOT_FOUND)
    else ParseCondition (set_name q QT_NAME_EXACT (mem_bytes m qualify (Z.to_nat (patt - qualify)))) patt.
End Qualifier.

(** [ParseQualifier] on the copy of the text, placed at address 2. *)
Definition ParseQualifier (before : Z) (q : _Qualifier) : option parsed :=
  match TagName q with
  | [] => Some (set_past q 0, ERR_SELECTOR_NODENAME_NOT_FOUND)
  | t => ParseQualifier_at (length t + 1) (mstore (fun _ => 0) 2 t) 2 before q
  end.

Record XPathParser := mkXPath {
  m_Qualifiers : list _Qualifier; m_FinalQualifier : _Qualifier; m_bRelativePath : bool; m_bIncludeDescendants : bool;
  m_UpLevelCount : Z; m_QualifierShifts : Z; _LastNodeSatificated : bool; m_XPathParseError : XPathParseError }.
Definition with_qualifiers (x : XPathParser) (qs : list _Qualifier) (final : _Qualifier) : XPathParser :=
  mkXPath qs final (m_bRelativePath x) (m_bIncludeDescendants x) (m_UpLevelCount x) (m_QualifierShifts x)
    (_LastNodeSatificated x) (m_XPathParseError x).
Definition with_path (x : XPathParser) (relative descendants : bool) (up : Z) : XPathParser :=
  mkXPath (m_Qualifiers x) (m_FinalQualifier x) relative descendants up (m_QualifierShifts x) (_LastNodeSatificated x) (m_XPathParseError x).
Definition with_shifts (x : XPathParser) (relative : bool) (up shifts : Z) : XPathParser :=
  mkXPath (m_Qualifiers x) (m_FinalQualifier x) relative (m_bIncludeDescendants x) up shifts (_LastNodeSatificated x) (m_XPathParseError x).
Definition with_satisfied (x : XPathParser) (s : bool) : XPathParser :=
  mkXPath (m_Qualifiers x) (m_FinalQualifier x) (m_bRelativePath x) (m_bIncludeDescendants x) (m_UpLevelCount x) (m_QualifierShifts x)
    s (m_XPathParseError x).
(** [SetLastSyntaxError]; the error stays until the next one. *)
Definition with_xpath_error (x : XPathParser) (e : XPathParseError) : XPathParser :=
  match e with
  | ERR_XPATH_OK => x
  | _ => mkXPath (m_Qualifiers x) (m_FinalQualifier x) (m_bRelativePath x) (m_bIncludeDescendants x) (m_UpLevelCount x)
           (m_QualifierShifts x) (_LastNodeSatificated x) e
  end.
Definition xpath_ok (e : XPathParseError) : bool := match e with ERR_XPATH_OK => true | _ => false end.

Definition fresh_qualifier : _Qualifier := mkQualifier QT_NAME_NOT_PARSED [] QT_ATTRIBUTE_ANY [] [] (-1) 0.
(** The constructor. *)
Definition XPathParser_new : XPathParser := mkXPath [] fresh_qualifier false false 0 0 true ERR_XPATH_OK.
(** [Clear] *)
Definition XPath_Clear (x : XPathParser) : XPathParser :=
  let f := m_FinalQualifier x in
  mkXPath [] (set_name f QT_NAME_NOT_PARSED (TagName f)) false false 0 0 true (m_XPathParseError x).

Section LoadPath.
Context (n : nat) (m : mem) (before : Z).

(** [strlen] and [strrchr]; 0 is the null pointer. *)
Definition strlen (p : Z) : Z := scan (fun c => negb (c =? 0)) n m p - p.
Fixpoint strrchr_ (k : nat) (p c last : Z) : Z :=
  match k with
  | O => last
  | S k => let last := if sc m p =? c then p else last in if sc m p =? 0 then last else strrchr_ k (p + 1) c last
  end.
Definition strrchr (p c : Z) : Z := strrchr_ n p c 0.
Definition text_at (p len : Z) : list Z := mem_bytes m p (Z.to_nat len).

(** The loop over the segments up to [pend]; false for [//] in the middle. *)
Fixpoint segment_loop (fuel : nat) (xpath pend : Z) (qs : list _Qualifier) (up : Z) : option (list _Qualifier * Z * bool) :=
  match fuel with
  | O => None
  | S f =>
    if xpath <? pend then
      let next := strchr n m xpath (chr "/") in
      if sc m xpath =? chr "/" then Some (qs, up, false)
      else if (sc m xpath =? chr ".") && (xpath + 1 =? next) then segment_loop f (next + 1) pend qs up
      else if (sc m xpath =? chr ".") && (sc m (xpath + 1) =? chr ".") && (xpath + 2 =? next) then
        match qs with
        | [] => segment_loop f (next + 1) pend qs (up + 1)
        | _ => segment_loop f (next + 1) pend (removelast qs) up
        end
      else segment_loop f (next + 1) pend (qs ++ [Load_qualifier fresh_qualifier (text_at xpath (next - xpath))]) up
    else Some (qs, up, true)
  end.

(** [for(...)if(!ParseQualifier(m_Qualifiers[i]))return false;] *)
Fixpoint parse_all (qs : list _Qualifier) : option (list _Qualifier * XPathParseError) :=
  match qs with
  | [] => Some ([], ERR_XPATH_OK)
  | q :: t =>
    r ← ParseQualifier before q;
    let '(q, e) := r in
    if xpath_ok e then r ← parse_all t; let '(t, e) := r in Some (q :: t, e) else Some (q :: t, e)
  end.
Definition load_all (x : XPathParser) : option (XPathParser * bool) :=
  r ← parse_all (m_Qualifiers x);
  let '(qs, e) := r in Some (with_xpath_error (with_qualifiers x qs (m_FinalQualifier x)) e, xpath_ok e).

Definition XPath_Load (x : XPathParser) (xpath : Z) : option (XPathParser * bool) :=
  let x := with_satisfied (with_path (with_qualifiers x [] (m_FinalQualifier x)) (m_bRelativePath x) (m_bIncludeDescendants x) 0) true in
  let xpath := _skip_whitespace n m xpath in
  let pLastSep := strrchr xpath (chr "/") in
  let final p := Load_qualifier (m_FinalQualifier x) (text_at p (strlen p)) in
  if pLastSep =? 0 then
    r ← ParseQualifier before (final xpath);
    let '(q, e) := r in
    Some (with_xpath_error (with_qualifiers (with_path x true false 0) [] q) e, xpath_ok e)
  else
    let descendants := sc m (pLastSep - 1) =? chr "/" in
    let pend := if descendants then pLastSep - 1 else pLastSep in
    r ← ParseQualifier before (final (pLastSep + 1));
    let '(q, e) := r in
    let x := with_xpath_error (with_qualifiers (with_path x (m_bRelativePath x) descendants 0) [] q) e in
    if xpath_ok e then
      let relative := negb (sc m xpath =? chr "/") in
      let x := with_path x relative descendants 0 in
      r ← segment_loop (S n) (if relative then xpath else xpath + 1) pend [] 0;
      let '(qs, up, ok) := r in
      let x := with_path (with_qualifiers x qs q) relative descendants up in
      if (ok : bool) then load_all x else Some (with_xpath_error x ERR_XPATH_DESCENDANT_IN_HALFWAY, false)
    else load_all x.
End LoadPath.

(** *** The test of a node *)

Section TagTest.
Context (n : nat) (m : mem) (before : Z).
(** The user's filter, if one is set. *)
Context (m_pUserTagFilter : option (ref -> Z -> Z -> bool)).

(** The first attribute with the name whose value is long enough. *)
Fixpoint find_attrib (k : nat) (attributes : Z) (name : list Z) (min_len : Z) (e : syntax_error) : option ref * syntax_error :=
  match k with
  | O => (None, e)
  | S k =>
    let a := _seek_next_attrib n m attributes in
    let e := keep_error (a_err a) e in
    if a_next a =? 0 then (None, e)
    else if name_is m (a_name a) name && (min_len <=? GetLength (a_value a)) then (Some (a_value a), e)
    else find_attrib k (a_next a) name min_len e
  end.

Definition starts_list (l v : list Z) : bool := (length v <=? length l)%nat && zlist_eqb (take (length v) l) v.
Definition ends_list (l v : list Z) : bool := (length v <=? length l)%nat && zlist_eqb (drop (length l - length v) l) v.
Fixpoint contains_list (l v : list Z) : bool :=
  starts_list l v || match l with [] => false | _ :: t => contains_list t v end.
Definition word_sep : cset :=
  fun i => if (0 <=? i) && (i <? 31) then 1 else CharacterSet (str " ") i.
(** [Split] of the converted value, in a string of its own. *)
Definition has_word (l v : list Z) : option bool :=
  let mm := mstore (fun _ => 0) 1 l in
  words ← Split false mm (mkRef 1 (1 + zlen l)) 256 word_sep;
  Some (existsb (fun r => zlist_eqb (text mm r) v) words).

(** [failed]: a syntax error of a path has been set before. *)
Definition QualifierTest (failed : bool) (q : _Qualifier) (tag_name : ref) (attributes : Z) : option (bool * syntax_error) :=
  if bool_decide (qt_TagName q = QT_NAME_EXACT) && negb (zlist_eqb (text m tag_name) (TagName q)) then Some (false, None)
  else
    let find len := find_attrib n attributes (Attribute q) len None in
    let test (P : list Z -> option bool) :=
      match find (zlen (Value q)) with
      | (None, e) => Some (false, e)
      | (Some v, e) => t ← attribute_text n m before v; b ← P t; Some (b, e)
      end in
    match qt_Attribute q with
    | QT_ATTRIBUTE_ANY => Some (true, None)
    | QT_ATTRIBUTE_HAVE => match find 0 with (None, e) => Some (false, e) | (Some _, e) => Some (true, e) end
    | QT_ATTRIBUTE_EQUAL => test (fun t => Some (zlist_eqb t (Value q)))
    | QT_ATTRIBUTE_NOTEQUAL =>
      match find 0 with
      | (None, e) => Some (negb failed, e)
      | (Some v, e) => t ← attribute_text n m before v; Some (negb (zlist_eqb t (Value q)), e)
      end
    | QT_ATTRIBUTE_STARTWITH => test (fun t => Some (starts_list t (Value q)))
    | QT_ATTRIBUTE_ENDWITH => test (fun t => Some (ends_list t (Value q)))
    | QT_ATTRIBUTE_CONTAIN => test (fun t => Some ((zlen (Value q) <=? zlen t) && contains_list t (Value q)))
    | QT_ATTRIBUTE_HAVE_WORD => test (fun t => has_word t (Value q))
    end.

Definition user_test (tag_name : ref) (attributes level : Z) : bool :=
  match m_pUserTagFilter with Some f => f tag_name attributes level | None => true end.

(** [_ClearLastOrdinalTestPast] *)
Definition _ClearLastOrdinalTestPast (x : XPathParser) (level : Z) : XPathParser :=
  let qs := m_Qualifiers x in let f := m_FinalQualifier x in
  if level <? zlen qs then with_qualifiers x (alter (fun q => set_past q 0) (Z.to_nat level) qs) f
  else with_qualifiers x qs (set_past f 0).

(** The ordinal test that ends [_TagTest]: the result and the new count. *)
Definition ordinal_test (q : _Qualifier) (ret : bool) : bool * _Qualifier :=
  if ret && (0 <=? qt_Ordinal q)
  then (_LastOrdinalTestPast q =? qt_Ordinal q, set_past q (_LastOrdinalTestPast q + 1)) else (ret, q).
Definition past_ordinal (q : _Qualifier) : bool := (0 <=? qt_Ordinal q) && (qt_Ordinal q <? _LastOrdinalTestPast q).

Definition _TagTest (x : XPathParser) (tag_name : ref) (attributes DescendantLevel : Z)
  : option (XPathParser * bool * syntax_error) :=
  let size := zlen (m_Qualifiers x) in let shifts := m_QualifierShifts x in
  let failed := negb (xpath_ok (m_XPathParseError x)) in
  if DescendantLevel <=? shifts + size then
    let x := _ClearLastOrdinalTestPast x (DescendantLevel - shifts) in
    let i := Z.to_nat (DescendantLevel - shifts - 1) in
    qu ← m_Qualifiers x !! i;
    if past_ordinal qu then Some (x, false, None)
    else
      let x := with_satisfied x false in
      r ← QualifierTest failed qu tag_name attributes;
      let '(b, e) := r in
      let '(ret, qu) := ordinal_test qu (b && user_test tag_name attributes DescendantLevel) in
      Some (with_qualifiers x (<[i:=qu]> (m_Qualifiers x)) (m_FinalQualifier x), ret, e)
  else if negb (m_bIncludeDescendants x) && (shifts + size + 1 <? DescendantLevel) then Some (with_satisfied x false, false, None)
  else
    let q := m_FinalQualifier x in
    if past_ordinal q then Some (x, false, None)
    else
      r ← QualifierTest failed q tag_name attributes;
      let '(b, e) := r in
      let sat := b && user_test tag_name attributes DescendantLevel in
      let '(ret, q) := ordinal_test q (m_bIncludeDescendants x || sat) in
      Some (with_qualifiers (with_satisfied x sat) (m_Qualifiers x) q, ret, e).
End TagTest.
