(* ===== verification/XmlNav.v ===== *)
(** The cursor of rt/xml_xhtml.cpp: [XMLParser], its path of nodes, the steps to
    children, siblings, parents and the next node in document order, and what the
    current node gives. *)
From S2P Require Import Prelude Str StrScan XmlScan XmlText XmlPath.

(** ** Definitions *)

Record XNode := mkNode {
  NTagName : ref; Attributes : ref; OuterXML_Start : Z; InnerXML_Start : Z; IsCompactNode : bool }.

(** What [m_pCurTagFilter] points to. *)
Inductive cur_filter := NoFilter | UserFilter | XPathFilter.
#[export] Instance cur_filter_eq_dec : EqDecision cur_filter.
Proof. solve_decision. Defined.

(** The path is kept with the current node first. *)
Record XMLParser := mkParser {
  m_pDocument : Z; _root_node_xml_start : Z; _root_node_xml_end : Z; _attribute_cursor : Z;
  m_NodePath : list XNode; m_XMLParseError : XMLParseError; m_XMLParseErrorPosition : Z;
  m_XPathParser : XPathParser; m_pCurTagFilter : cur_filter }.

Definition with_nodes (P : XMLParser) (l : list XNode) : XMLParser :=
  mkParser (m_pDocument P) (_root_node_xml_start P) (_root_node_xml_end P) (_attribute_cursor P) l
    (m_XMLParseError P) (m_XMLParseErrorPosition P) (m_XPathParser P) (m_pCurTagFilter P).
Definition with_cursor (P : XMLParser) (c : Z) : XMLParser :=
  mkParser (m_pDocument P) (_root_node_xml_start P) (_root_node_xml_end P) c (m_NodePath P)
    (m_XMLParseError P) (m_XMLParseErrorPosition P) (m_XPathParser P) (m_pCurTagFilter P).
Definition with_xpath (P : XMLParser) (x : XPathParser) : XMLParser :=
  mkParser (m_pDocument P) (_root_node_xml_start P) (_root_node_xml_end P) (_attribute_cursor P) (m_NodePath P)
    (m_XMLParseError P) (m_XMLParseErrorPosition P) x (m_pCurTagFilter P).
Definition with_filter (P : XMLParser) (f : cur_filter) : XMLParser :=
  mkParser (m_pDocument P) (_root_node_xml_start P) (_root_node_xml_end P) (_attribute_cursor P) (m_NodePath P)
    (m_XMLParseError P) (m_XMLParseErrorPosition P) (m_XPathParser P) f.
Definition with_root_start (P : XMLParser) (a : Z) : XMLParser :=
  mkParser (m_pDocument P) a (_root_node_xml_end P) (_attribute_cursor P) (m_NodePath P)
    (m_XMLParseError P) (m_XMLParseErrorPosition P) (m_XPathParser P) (m_pCurTagFilter P).
(** [SetLastSyntaxError]; a null position counts as 0. *)
Definition SetLastSyntaxError (P : XMLParser) (errnum : XMLParseError) (pos : Z) : XMLParser :=
  mkParser (m_pDocument P) (_root_node_xml_start P) (_root_node_xml_end P) (_attribute_cursor P) (m_NodePath P)
    errnum (if pos =? 0 then 0 else u32 (pos - m_pDocument P)) (m_XPathParser P) (m_pCurTagFilter P).
Definition with_error (P : XMLParser) (e : syntax_error) : XMLParser :=
  match e with Some (errnum, pos) => SetLastSyntaxError P errnum pos | None => P end.
Definition ClearSyntaxError (P : XMLParser) : XMLParser :=
  mkParser (m_pDocument P) (_root_node_xml_start P) (_root_node_xml_end P) (_attribute_cursor P) (m_NodePath P)
    ERR_XML_OK 0 (m_XPathParser P) (m_pCurTagFilter P).
Definition has_error (P : XMLParser) : bool := negb (bool_decide (m_XMLParseError P = ERR_XML_OK)).

Section Parser.
Context (n : nat) (m : mem) (before : Z).
Context (m_pUserTagFilter : option (ref -> Z -> Z -> bool)).

(** The filter a step uses: the current one, behind a test of the name in
    [EnterFirstChildNode]. *)
Definition filter_test (P : XMLParser) (f : cur_filter) (name : option (list Z)) (tag : ref) (attributes level : Z)
  : option (XMLParser * bool) :=
  if match name with Some w => negb (zlist_eqb (text m tag) w) | None => false end then Some (P, false)
  else match f with
       | NoFilter => Some (P, true)
       | UserFilter => Some (P, user_test m_pUserTagFilter tag attributes level)
       | XPathFilter =>
         r ← _TagTest n m before m_pUserTagFilter (m_XPathParser P) tag attributes level;
         let '(x, b, e) := r in Some (with_error (with_xpath P x) e, b)
       end.

(** The wrappers that record the error. *)
Definition search_special_node_close (P : XMLParser) (start : Z) : XMLParser * Z :=
  let '(err, p) := _search_special_node_close n m start in
  if decide (err = ERR_XML_OK) then (P, p) else (SetLastSyntaxError P err p, 0).
Definition search_node_close (P : XMLParser) (start_inner : Z) (tag : ref) : option (XMLParser * Z * option Z) :=
  r ← _search_node_close n m start_inner tag;
  let '(err, p, inner) := r in
  if decide (err = ERR_XML_OK) then Some (P, p, inner) else Some (SetLastSyntaxError P err p, 0, inner).

Definition GetDescendantLevel (P : XMLParser) : Z := zlen (m_NodePath P).

(** The node of the tag at [ptag]. *)
Definition node_at (ptag patt pend : Z) : XNode :=
  let compact := sc m (pend - 1) =? chr "/" in
  mkNode (mkRef (ptag + 1) patt) (TrimSpace m (mkRef patt (if compact then pend - 1 else pend))) ptag (pend + 1) compact.

Fixpoint enter_loop (fuel : nat) (P : XMLParser) (start : Z) (f : cur_filter) (name : option (list Z)) (replace_node : bool)
  : option (XMLParser * bool) :=
  match fuel with
  | O => None
  | S k =>
    let ptag := _seek_tag_open n m start in
    if (ptag =? 0) || (sc m (ptag + 1) =? chr "/") then Some (P, false)
    else if _root_node_xml_end P <=? ptag then Some (P, false)
    else if special_start m ptag then
      let '(P, p) := search_special_node_close P ptag in
      if p =? 0 then Some (P, false) else enter_loop k P (p + 1) f name replace_node
    else
      let patt := _seek_symbol_end n m (ptag + 1) in
      if patt =? ptag + 1 then Some (SetLastSyntaxError P ERR_TAG_NAME_NOT_FOUND (ptag + 1), false)
      else
        let pend := _seek_tag_close n m patt in
        if pend =? 0 then Some (SetLastSyntaxError P ERR_TAG_CLOSURE_NOT_MATCHED ptag, false)
        else
          let tag := mkRef (ptag + 1) patt in
          r ← filter_test P f name tag patt (GetDescendantLevel P + (if replace_node then 0 else 1));
          let '(P, pass) := r in
          if (pass : bool) then
            let rest := if replace_node then tail (m_NodePath P) else m_NodePath P in
            Some (with_nodes P (node_at ptag patt pend :: rest), true)
          else if sc m (pend - 1) =? chr "/" then enter_loop k P (pend + 1) f name replace_node
          else
            r ← search_node_close P (pend + 1) tag;
            let '(P, p, _) := r in
            if p =? 0 then Some (SetLastSyntaxError P ERR_NODE_CLOSURE_NOT_MATCHED ptag, false)
            else enter_loop k P (p + 1) f name replace_node
  end.
Definition _EnterNextNode (P : XMLParser) (start : Z) (f : cur_filter) (name : option (list Z)) (replace_node : bool)
  : option (XMLParser * bool) :=
  if _root_node_xml_end P <=? start then Some (P, false) else enter_loop n P start f name replace_node.

Definition user_filter : cur_filter := match m_pUserTagFilter with Some _ => UserFilter | None => NoFilter end.

(** The search of the first tag in [Load]. *)
Fixpoint load_loop (fuel : nat) (P : XMLParser) (start : Z) : option (XMLParser * Z) :=
  match fuel with
  | O => None
  | S k =>
    let start := _seek_tag_open n m start in
    if start =? 0 then Some (P, 0)
    else if special_start m start then
      let '(P, p) := search_special_node_close P start in
      if p =? 0 then Some (P, 0) else load_loop k P (p + 1)
    else Some (P, start)
  end.
(** [Load]: the document is [text], or the copy of it at [_content_copy]; the end
    of a text of unknown length is that of [text] in both cases. *)
Definition Load (P : XMLParser) (text_ : Z) (_content_copy : option Z) (len : Z) : option (XMLParser * bool) :=
  let doc := match _content_copy with Some c => c | None => text_ end in
  let xml_end := if len <? 0 then text_ + strlen n m text_ else doc + len in
  let bom := zlist_eqb (mem_bytes m doc 3) [0xef; 0xbb; 0xbf] in
  let P := mkParser (if bom then doc + 3 else doc) (_root_node_xml_start P) xml_end 0 [] ERR_XML_OK 0 (m_XPathParser P) NoFilter in
  r ← load_loop n P (m_pDocument P);
  let '(P, start) := r in
  if start =? 0 then Some (P, false) else _EnterNextNode (with_root_start P start) start NoFilter None false.

Definition EnterRootNode (P : XMLParser) : XMLParser :=
  let root := match List.rev (m_NodePath P) with r :: _ => [r] | [] => [] end in
  with_filter (with_nodes (with_cursor P 0) root) user_filter.
Definition EnterParentNode (P : XMLParser) : XMLParser * bool :=
  let P := with_cursor P 0 in
  if 1 <? GetDescendantLevel P then (with_nodes P (tail (m_NodePath P)), true) else (P, false).

(** Where the current node ends; the end of [OuterXML], 0 if it is not found. *)
Definition node_end (P : XMLParser) (c : XNode) : option (XMLParser * Z * option Z) :=
  if IsCompactNode c then Some (P, InnerXML_Start c - 1, None) else search_node_close P (InnerXML_Start c) (NTagName c).

Definition EnterNextSiblingNode (P : XMLParser) : option (XMLParser * bool) :=
  match m_NodePath P with
  | [] => Some (P, false)
  | c :: _ =>
    r ← node_end (with_cursor P 0) c;
    let '(P, close, _) := r in
    if close =? 0 then Some (P, false) else _EnterNextNode P (close + 1) (m_pCurTagFilter P) None true
  end.
Fixpoint EnterNextSiblingNode_n (P : XMLParser) (n_th : nat) : option (XMLParser * bool) :=
  match n_th with
  | O => Some (P, true)
  | S k => r ← EnterNextSiblingNode P; let '(P, b) := r in if (b : bool) then EnterNextSiblingNode_n P k else Some (P, false)
  end.
Definition EnterFirstChildNode (P : XMLParser) (tag_name : option (list Z)) : option (XMLParser * bool) :=
  match m_NodePath P with
  | c :: _ =>
    if IsCompactNode c then Some (P, false)
    else _EnterNextNode (with_cursor P 0) (InnerXML_Start c) (m_pCurTagFilter P) tag_name false
  | [] => _EnterNextNode (with_cursor P 0) (_root_node_xml_start P) (m_pCurTagFilter P) tag_name false
  end.
Definition EnterChildNode (P : XMLParser) (n_th : nat) (tag_name : option (list Z)) : option (XMLParser * bool) :=
  r ← EnterFirstChildNode P tag_name;
  let '(P, b) := r in if (b : bool) then EnterNextSiblingNode_n P (n_th - 1) else Some (P, false).

(** [EnterSucceedNode] without XPath: a child, else the next sibling of the node
    or of the nearest ancestor that has one. *)
Fixpoint ascend (fuel : nat) (P : XMLParser) : option (XMLParser * bool) :=
  match fuel with
  | O => None
  | S k =>
    if has_error P then Some (P, false)
    else
      let '(P, up) := EnterParentNode P in
      if (up : bool) then
        r ← EnterNextSiblingNode P;
        let '(P, b) := r in if (b : bool) then Some (P, true) else ascend k P
      else Some (P, false)
  end.
Definition succeed_plain (P : XMLParser) : option (XMLParser * bool) :=
  r ← EnterFirstChildNode P None;
  let '(P, b) := r in
  if (b : bool) then Some (P, true)
  else if has_error P then Some (P, false)
  else
    r ← EnterNextSiblingNode P;
    let '(P, b) := r in
    if (b : bool) then Some (P, true) else ascend (S (length (m_NodePath P))) P.

(** With XPath: nodes that the path lets through are visited in document order
    until one is selected. *)
Definition may_descend (P : XMLParser) : bool :=
  let x := m_XPathParser P in
  m_bIncludeDescendants x || (zlen (m_NodePath P) <? m_QualifierShifts x + zlen (m_Qualifiers x) + 1).
Fixpoint ascend_xpath (fuel : nat) (P : XMLParser) : option (XMLParser * bool) :=
  match fuel with
  | O => None
  | S k =>
    if m_QualifierShifts (m_XPathParser P) + 1 <? GetDescendantLevel P then
      if has_error P then Some (P, false)
      else
        let '(P, up) := EnterParentNode P in
        if (up : bool) then
          r ← EnterNextSiblingNode P;
          let '(P, b) := r in if (b : bool) then Some (P, true) else ascend_xpath k P
        else Some (P, false)
    else Some (P, false)
  end.
(** One round: the next node let through, or none. *)
Definition succeed_round (P : XMLParser) : option (XMLParser * bool) :=
  r ← (if may_descend P then
         r ← EnterFirstChildNode P None;
         let '(P, b) := r in Some (P, b : bool, negb b && has_error P)
       else Some (P, false, false));
  let '(P, child, stop) := r in
  if (child : bool) then Some (P, true)
  else if (stop : bool) then Some (P, false)
  else
    r ← EnterNextSiblingNode P;
    let '(P, b) := r in
    if (b : bool) then Some (P, true) else ascend_xpath (S (length (m_NodePath P))) P.
Fixpoint succeed_xpath (fuel : nat) (P : XMLParser) : option (XMLParser * bool) :=
  match fuel with
  | O => None
  | S k =>
    r ← succeed_round P;
    let '(P, b) := r in
    if (b : bool) then if _LastNodeSatificated (m_XPathParser P) then Some (P, true) else succeed_xpath k P
    else Some (P, false)
  end.
Definition EnterSucceedNode (P : XMLParser) : option (XMLParser * bool) :=
  let P := with_cursor P 0 in
  if decide (m_pCurTagFilter P = XPathFilter) then succeed_xpath n P else succeed_plain P.

(** [ClearXPathFilter] (also [EscapeXPath]) and [EnterXPath]. *)
Definition ClearXPathFilter (P : XMLParser) : XMLParser :=
  with_xpath (with_filter P user_filter) (XPath_Clear (m_XPathParser P)).
Fixpoint parents (k : nat) (P : XMLParser) : XMLParser * nat * bool :=
  match k with
  | O => (P, O, true)
  | S k => let '(P, b) := EnterParentNode P in if (b : bool) then parents k P else (P, k, false)
  end.
Definition EnterXPath (P : XMLParser) (xpath : Z) : option (XMLParser * bool) :=
  if xpath =? 0 then Some (P, false)
  else
    let P := ClearSyntaxError (ClearXPathFilter (with_cursor P 0)) in
    r ← XPath_Load n m before (m_XPathParser P) xpath;
    let '(x, ok) := r in
    let P := with_xpath P x in
    if (ok : bool) then
      let enter P := EnterSucceedNode (with_filter P XPathFilter) in
      if m_bRelativePath x then
        if m_UpLevelCount x =? GetDescendantLevel P then
          enter (with_nodes (with_xpath P (with_shifts x false 0 0)) [])
        else
          let '(P, rest, b) := parents (Z.to_nat (m_UpLevelCount x)) P in
          if (b : bool) then
            match m_NodePath P with
            | [] => None
            | c :: _ =>
              let P := with_xpath P (with_shifts x (m_bRelativePath x) 0 (GetDescendantLevel P)) in
              enter (with_root_start P (OuterXML_Start c))
            end
          else match m_NodePath P with
               | [] => None
               | _ => Some (EnterRootNode (with_xpath P (with_shifts x (m_bRelativePath x) (Z.of_nat rest) (m_QualifierShifts x))), false)
               end
      else enter (with_nodes (with_xpath P (with_shifts x (m_bRelativePath x) (m_UpLevelCount x) 0)) [])
    else Some (P, false).

(** *** What the current node gives *)

Definition GetNodeName (c : XNode) : ref := NTagName c.
(** [GetOuterXML]: the length is converted to [int]. *)
Definition outer_ref (c : XNode) (e : Z) : ref := mkRef (OuterXML_Start c) (OuterXML_Start c + s32 (e + 1 - OuterXML_Start c)).
Definition GetOuterXML (P : XMLParser) (c : XNode) : option (XMLParser * ref) :=
  r ← node_end P c;
  let '(P, e, _) := r in
  Some (P, if e =? 0 then null_ref else outer_ref c e).
Definition GetInnerXML (P : XMLParser) (c : XNode) : option (XMLParser * ref) :=
  if IsCompactNode c then Some (P, null_ref)
  else
    r ← search_node_close P (InnerXML_Start c) (NTagName c);
    let '(P, e, inner) := r in
    Some (P, match inner with
             | Some i => if e =? 0 then null_ref else TrimSpace m (mkRef (InnerXML_Start c) i)
             | None => null_ref end).
(** [GetInnerText]: the content, or false with an empty one. *)
Definition GetInnerText (P : XMLParser) (c : XNode) (no_text_from_subnodes : bool) : option (XMLParser * list Z * bool) :=
  if IsCompactNode c then Some (P, [], true)
  else
    r ← search_node_close P (InnerXML_Start c) (NTagName c);
    match r with
    | (P, e, Some i) =>
      if e =? 0 then Some (P, [], false)
      else
        let r := mkRef (InnerXML_Start c) i in
        if IsEmpty (TrimSpace m r) then Some (P, [], true)
        else t ← _convert_xml_to_text n m before r true no_text_from_subnodes (chr " "); Some (P, t, true)
    | (P, _, None) => Some (P, [], false)
    end.
Definition GetInnerCDATA (P : XMLParser) (c : XNode) : option (XMLParser * ref) :=
  r ← GetInnerXML P c;
  let '(P, a) := r in
  let opens := starts_list (text m a) (str "<![CDATA[") in
  let closes := ends_list (text m a) (str "]]>") in
  Some (P, if opens && closes then TrimRight (TrimLeft a 9) 3 else null_ref).
Definition GetAttributesXML (c : XNode) : list Z * bool :=
  if IsEmpty (Attributes c) then ([], false) else (text m (Attributes c), true).
Definition GetNodeDocumentOffset (P : XMLParser) (c : XNode) : Z := OuterXML_Start c - m_pDocument P.

Definition HasAttribute (P : XMLParser) (c : XNode) (name : list Z) : XMLParser * bool :=
  if IsEmpty (Attributes c) then (P, false)
  else let '(v, e) := _search_attrib n m (rb (Attributes c)) name in
       (with_error P e, match v with Some _ => true | None => false end).
(** The value, or none with an empty one. *)
Definition GetAttribute (P : XMLParser) (c : XNode) (name : list Z) : option (XMLParser * option (list Z)) :=
  if IsEmpty (Attributes c) then Some (P, None)
  else match _search_attrib n m (rb (Attributes c)) name with
       | (Some v, e) => t ← attribute_text n m before v; Some (with_error P e, Some t)
       | (None, e) => Some (with_error P e, None)
       end.
Definition GetAttribute_default (P : XMLParser) (c : XNode) (name default_value : list Z) : option (XMLParser * list Z * bool) :=
  r ← GetAttribute P c name;
  Some (match r with (P, Some t) => (P, t, true) | (P, None) => (P, default_value, false) end).
Definition strip_last_sep (l : list Z) : list Z := if is_sep (s8 (List.last l 0)) then removelast l else l.
(** An empty value has no last character: the byte in front of the block is
    read, and the length becomes -1. *)
Definition GetAttribute_Path (P : XMLParser) (c : XNode) (name : list Z) : option (XMLParser * option (list Z)) :=
  r ← GetAttribute P c name;
  match r with
  | (P, Some []) => if is_sep (s8 before) then None else Some (P, Some [])
  | (P, Some t) => Some (P, Some (strip_last_sep t))
  | (P, None) => Some (P, None)
  end.

(** [GetFirstAttribute] and [GetNextAttribute]: name and value, not converted. *)
Definition GetNextAttribute (P : XMLParser) : XMLParser * option (list Z * list Z) :=
  let a := _seek_next_attrib n m (_attribute_cursor P) in
  let P := with_error P (a_err a) in
  if (a_next a =? 0) || IsEmpty (a_name a) then (P, None)
  else (with_cursor P (a_next a), Some (text m (a_name a), text m (a_value a))).
Definition GetFirstAttribute (P : XMLParser) (c : XNode) : XMLParser * option (list Z * list Z) :=
  if IsEmpty (Attributes c) then (P, None) else GetNextAttribute (with_cursor P (rb (Attributes c))).

(** [GetAttribute_Int64], [_FileSize]: the number at the head of the text and the
    unit behind it. *)
Definition parse_text (T : int_type) (l : list Z) : Z * Z :=
  ToNumber T (mstore (fun _ => 0) 1 l) (mkRef 1 (1 + zlen l)).
Definition GetAttribute_Int64 (P : XMLParser) (c : XNode) (name : list Z) (dd : Z) : option (XMLParser * Z) :=
  r ← GetAttribute P c name;
  Some (match r with (P, Some t) => (P, snd (parse_text T_LONGLONG t)) | (P, None) => (P, dd) end).
(** The first character above the blank, the NUL at the end of the text else. *)
Fixpoint first_above (l : list Z) : Z :=
  match l with [] => 0 | x :: t => if chr " " <? s8 x then s8 x else first_above t end.
Definition unit_factor (u : Z) : Z :=
  if is_letter u "k" "K" then 2 ^ 10 else if is_letter u "m" "M" then 2 ^ 20
  else if is_letter u "g" "G" then 2 ^ 30 else if is_letter u "t" "T" then 2 ^ 40 else 1.
(** The offset is a [UINT]: -1, for no number, is past every length, and the unit
    read there is outside the text. *)
Definition file_size (l : list Z) : option Z :=
  let '(off, sz) := parse_text T_ULONGLONG l in
  if off <? 0 then None else Some (u64 (sz * unit_factor (first_above (drop (Z.to_nat off) l)))).
Definition GetAttribute_FileSize (P : XMLParser) (c : XNode) (name : list Z) (dd : Z) : option (XMLParser * Z) :=
  r ← GetAttribute P c name;
  match r with (P, Some t) => sz ← file_size t; Some (P, sz) | (P, None) => Some (P, dd) end.

(** *** Documents of nodes and copies of the parser *)

(** The overloads that fill a string: the content, or false with an empty one - also
    where the [int] length of the node is negative, no string being as long as it is
    as a [SIZE_T]. *)
Definition GetOuterXML_text (P : XMLParser) (c : XNode) : option (XMLParser * list Z * bool) :=
  r ← node_end P c;
  let '(P, e, _) := r in
  Some (if e =? 0 then (P, [], false)
        else if GetLength (outer_ref c e) <? 0 then (SetLastSyntaxError P ERR_XML_OUT_OF_MEMORY (OuterXML_Start c), [], false)
        else (P, text m (outer_ref c e), true)).
Definition GetInnerXML_text (P : XMLParser) (c : XNode) : option (XMLParser * list Z * bool) :=
  if IsCompactNode c then Some (P, [], true)
  else
    r ← search_node_close P (InnerXML_Start c) (NTagName c);
    let '(P, e, inner) := r in
    Some (match inner with
          | Some i => if e =? 0 then (P, [], false) else (P, text m (TrimSpace m (mkRef (InnerXML_Start c) i)), true)
          | None => (P, [], false) end).
Definition ExtractInnerText (doc : ref) (sep : Z) : option (list Z) := _convert_xml_to_text n m before doc true false sep.
Definition GetInternalDocument (P : XMLParser) : ref := mkRef (m_pDocument P) (_root_node_xml_end P).
Definition GetNodeFileOffset (P : XMLParser) (c : XNode) : Z := OuterXML_Start c - m_pDocument P.
Definition Clear (P : XMLParser) : XMLParser :=
  mkParser 0 0 0 0 [] ERR_XML_OK 0 (XPath_Clear (m_XPathParser P)) user_filter.

(** Where a node's own end is looked for: a compact one's at the next [>]. *)
Definition node_document_end (P : XMLParser) (c : XNode) : option (XMLParser * Z) :=
  if IsCompactNode c then Some (P, _seek_tag_close n m (OuterXML_Start c))
  else r ← search_node_close P (InnerXML_Start c) (NTagName c); let '(P, e, _) := r in Some (P, e).
(** [while(p > m_pDocument && (p[-1] == '\t' || p[-1] == ' '))p--] *)
Fixpoint back_blanks (k : nat) (doc p : Z) : Z :=
  match k with
  | O => p
  | S k => if (doc <? p) && ((sc m (p - 1) =? 9) || (sc m (p - 1) =? chr " ")) then back_blanks k doc (p - 1) else p
  end.
Definition GetNodeDocument_text (header : list Z) (P : XMLParser) (c : XNode) : option (XMLParser * option (list Z)) :=
  let p := back_blanks (Z.to_nat (OuterXML_Start c - m_pDocument P)) (m_pDocument P) (OuterXML_Start c) in
  r ← node_document_end P c;
  let '(P, pend) := r in
  Some (if pend =? 0 then
          (mkParser (m_pDocument P) (_root_node_xml_start P) (_root_node_xml_end P) (_attribute_cursor P) (m_NodePath P)
             ERR_NODE_CLOSURE_NOT_MATCHED (u32 (p - _root_node_xml_start P)) (m_XPathParser P) (m_pCurTagFilter P), None)
        else (P, Some (header ++ [13; 10] ++ text m (mkRef p (pend + 1))))).
(** The parser of a node or of an ancestor: this parser and the new one. *)
Definition GetNodeDocument (P : XMLParser) (nth_parent : nat) : option (XMLParser * XMLParser) :=
  out ← m_NodePath P !! nth_parent;
  r ← node_document_end P out;
  let '(P, e) := r in
  Some (P, mkParser (OuterXML_Start out) (OuterXML_Start out) e 0 [out] ERR_XML_OK 0 XPathParser_new user_filter).

(** [operator =]: [self] takes over [xml], whose own copy of the text, if it has
    one, is copied to a block [ptr_shift] further. *)
Definition shift_ref (ptr_shift : Z) (r : ref) : ref :=
  if IsEmpty r then null_ref else mkRef (rb r + ptr_shift) (re r + ptr_shift).
Definition shift_node (ptr_shift : Z) (c : XNode) : XNode :=
  mkNode (shift_ref ptr_shift (NTagName c)) (shift_ref ptr_shift (Attributes c)) (OuterXML_Start c + ptr_shift)
    (InnerXML_Start c + ptr_shift) (IsCompactNode c).
Definition assign (self xml : XMLParser) (ptr_shift : Z) : XMLParser :=
  let x := m_XPathParser self in let y := m_XPathParser xml in
  let by_path := bool_decide (m_pCurTagFilter xml = XPathFilter) in
  let xml_end := if _root_node_xml_end xml =? 2 ^ 64 - 1 then 2 ^ 64 - 1 else _root_node_xml_end xml + ptr_shift in
  mkParser (m_pDocument xml + ptr_shift) (_root_node_xml_start xml + ptr_shift) xml_end 0
    (map (shift_node ptr_shift) (m_NodePath xml)) ERR_XML_OK 0
    (if by_path then mkXPath (m_Qualifiers y) (m_FinalQualifier y) (m_bRelativePath y) (m_bIncludeDescendants y) (m_UpLevelCount y)
                       (m_QualifierShifts y) (_LastNodeSatificated x) (m_XPathParseError x)
     else x)
    (m_pCurTagFilter xml).

(** *** CSS paths *)

(** The part for one node: from the third on with the id, or the classes. *)
Definition css_node (P : XMLParser) (i : nat) (c : XNode) : option (XMLParser * list Z) :=
  if (2 <=? i)%nat then
    let '(v, e) := _search_attrib n m (rb (Attributes c)) (str "id") in
    let P := with_error P e in
    match v with
    | Some v => Some (P, text m (NTagName c) ++ str "#" ++ text m v ++ str " ")
    | None =>
      let '(v, e) := _search_attrib n m (rb (Attributes c)) (str "class") in
      let P := with_error P e in
      match v with
      | Some v =>
        classes ← Split true m v 256 word_sep;
        Some (P, text m (NTagName c) ++ flat_map (fun r => str "." ++ text m r) classes ++ str " ")
      | None => Some (P, text m (NTagName c) ++ str " ")
      end
    end
  else Some (P, text m (NTagName c) ++ str " ").
Fixpoint css_nodes (P : XMLParser) (i : nat) (l : list XNode) : option (XMLParser * list Z) :=
  match l with
  | [] => Some (P, [])
  | c :: l =>
    r ← css_node P i c;
    let '(P, a) := r in
    r ← css_nodes P (S i) l;
    let '(P, b) := r in Some (P, a ++ b)
  end.
(** The last blank is cut off, of which an empty path has none. *)
Definition GetXPathAsCSSPath (P : XMLParser) : option (XMLParser * list Z) :=
  r ← css_nodes P 0 (List.rev (m_NodePath P));
  match r with (P, []) => None | (P, l) => Some (P, removelast l) end.
End Parser.

(** [EnterXPathByCSSPath]: the path is put together in a string at [q]. *)
Definition css_sep : cset :=
  fun i => if (0 <=? i) && (i <? 31) then 1 else CharacterSet (str " >/\") i.
Fixpoint css_segments (m : mem) (segs : list ref) : option (list Z + Z) :=
  match segs with
  | [] => Some (inl [])
  | seg :: segs =>
    if IsEmpty seg then css_segments m segs
    else
      f ← Split false m seg 2 (CharacterSet (str "#."));
      part ← match f with
             | [] => Some (inl (str "/"))
             | [a] => Some (inl (str "/" ++ text m a))
             | a :: b :: _ =>
               let c := sc m (rb b - 1) in
               if c =? chr "#" then Some (inl (str "/" ++ text m a ++ str "[@id='" ++ text m b ++ str "']"))
               else if c =? chr "." then Some (inl (str "/" ++ text m a ++ str "[@class^='" ++ text m b ++ str "']"))
               else Some (inr (rb b - 1))
             end;
      match part with
      | inr e => Some (inr e)
      | inl t => r ← css_segments m segs; Some (match r with inl rest => inl (t ++ rest) | inr e => inr e end)
      end
  end.
Definition EnterXPathByCSSPath (n : nat) (m : mem) (before : Z) (user : option (ref -> Z -> Z -> bool)) (P : XMLParser) (css_path : ref) (q : Z)
  : option (XMLParser * bool) :=
  if IsEmpty css_path then Some (P, true)
  else
    segs ← Split true m css_path 256 css_sep;
    r ← css_segments m segs;
    match r with
    | inl xpath => EnterXPath n (mstore m q (xpath ++ [0])) before user P q
    | inr e => Some (SetLastSyntaxError P ERR_HTML_CSS_OPERATOR_NOT_SUPPORTED e, false)
    end.
