(* ===== verification/XmlTree.v ===== *)
(** Traversal of a document with the cursor of [XmlNav]: on every document of the
    reference syntax, [Load] enters the first element and [EnterSucceedNode]
    visits all the others in document order, each with its own name, depth and
    outer XML, and then stops. *)
From S2P Require Import Prelude Str StrScan XmlScan XmlText XmlPath XmlNav.

(** ** The document as the cursor sees it *)

(** The first element of a list of items, what is in front of it and behind. *)
Fixpoint split_elem (l : list xitem) : option (list xitem * (list Z * list Z * bool * list xitem) * list xitem) :=
  match l with
  | [] => None
  | XElem tag att c kids :: t => Some ([], (tag, att, c, kids), t)
  | x :: t => match split_elem t with Some (pre, e, post) => Some (x :: pre, e, post) | None => None end
  end.

(** An element at an address with the siblings behind it. *)
Record frame := mkFrame {
  f_at : Z; f_tag : list Z; f_att : list Z; f_compact : bool; f_kids : list xitem; f_sibs : list xitem }.
Definition f_item (f : frame) : xitem := XElem (f_tag f) (f_att f) (f_compact f) (f_kids f).
Definition f_inner (f : frame) : Z := f_at f + zlen (open_tag (f_tag f) (f_att f) (f_compact f)).
Definition f_next (f : frame) : Z := f_at f + zlen (xrender (f_item f)).

(** The frame of the first element of items at an address. *)
Definition first_frame (p : Z) (l : list xitem) : option frame :=
  match split_elem l with
  | Some (pre, (tag, att, c, kids), post) => Some (mkFrame (p + zlen (xrenders pre)) tag att c kids post)
  | None => None
  end.
Fixpoint next_up (fs : list frame) : option (list frame) :=
  match fs with
  | [] => None
  | f :: rest => match first_frame (f_next f) (f_sibs f) with Some g => Some (g :: rest) | None => next_up rest end
  end.
Definition next_frames (fs : list frame) : option (list frame) :=
  match fs with
  | [] => None
  | f :: rest => match first_frame (f_inner f) (f_kids f) with Some g => Some (g :: fs) | None => next_up fs end
  end.

(** Document order: the elements with their depths. *)
Fixpoint preorder (d : nat) (x : xitem) : list (nat * xitem) :=
  match x with XElem _ _ _ kids => (d, x) :: flat_map (preorder (S d)) kids | _ => [] end.
Definition preorders (d : nat) (l : list xitem) : list (nat * xitem) := flat_map (preorder d) l.

Lemma xrender_in x l : In x l -> (length (xrender x) <= length (xrenders l))%nat.
Proof.
  intros H. unfold xrenders. induction l as [|y l IH]; [done|]. cbn [flat_map]. rewrite length_app. destruct H as [->|H]; [lia|].
  specialize (IH H). lia.
Qed.

(** No element is longer than the document. *)
Lemma preorder_length x : forall d, xwf x -> Forall (fun dx => (length (xrender (snd dx)) <= length (xrender x))%nat) (preorder d x).
Proof.
  induction x as [t|t|tag att c kids IH] using xitem_rect_list; intros d Hw; [constructor..|]. cbn [preorder]. constructor; [done|].
  cbn [xwf] in Hw. destruct Hw as (_ & _ & Hk). destruct c; [by subst kids|].
  assert (L : (length (xrenders kids) <= length (xrender (XElem tag att false kids)))%nat) by (cbn [xrender]; rewrite !length_app; unfold xrenders; lia).
  assert (Hx : Forall xwf kids) by (clear -Hk; induction kids; cbn in *; constructor; tauto).
  rewrite List.Forall_forall in *. intros dx Hdx. apply in_flat_map in Hdx as (k & Hin & Hdx).
  specialize (IH k Hin (S d) (Hx k Hin)). rewrite List.Forall_forall in IH. specialize (IH dx Hdx). assert (H := xrender_in k kids Hin). lia.
Qed.

Lemma preorders_length d l : xwfs l -> Forall (fun dx => (length (xrender (snd dx)) <= length (xrenders l))%nat) (preorders d l).
Proof.
  intros Hl. unfold xwfs in Hl. rewrite List.Forall_forall in *. intros dx Hdx. apply in_flat_map in Hdx as (k & Hin & Hdx).
  assert (P := preorder_length k d (Hl k Hin)). rewrite List.Forall_forall in P. specialize (P dx Hdx). assert (H := xrender_in k l Hin). lia.
Qed.

(** What is left to visit. *)
Fixpoint after (fs : list frame) : list (nat * xitem) :=
  match fs with [] => [] | f :: rest => preorders (length fs) (f_sibs f) ++ after rest end.
Definition remaining (fs : list frame) : list (nat * xitem) :=
  match fs with [] => [] | f :: _ => preorders (S (length fs)) (f_kids f) ++ after fs end.

Lemma preorders_split d l : preorders d l =
  match split_elem l with
  | Some (_, (tag, att, c, kids), post) => (d, XElem tag att c kids) :: preorders (S d) kids ++ preorders d post
  | None => []
  end.
Proof.
  induction l as [|[t|t|tag att c kids] l IH]; [done| | |done]; unfold preorders in *; cbn [flat_map preorder app split_elem];
    rewrite IH; by destruct (split_elem l) as [[[pre [[[? ?] ?] ?]] post]|].
Qed.

Lemma next_up_after fs : match next_up fs with
  | Some (g :: rest) => after fs = (length (g :: rest), f_item g) :: remaining (g :: rest) /\ (length rest < length fs)%nat
  | Some [] => False
  | None => after fs = []
  end.
Proof.
  induction fs as [|f rest IH]; [done|]. cbn [next_up after]. unfold first_frame.
  rewrite (preorders_split _ (f_sibs f)). destruct (split_elem (f_sibs f)) as [[[pre [[[tag att] c] kids]] post]|].
  - cbn [remaining after f_kids f_sibs f_item f_tag f_att f_compact length]. split; [|lia]. cbn [app]. by rewrite <- app_assoc.
  - cbn [app]. destruct (next_up rest) as [[|g r]|]; [done| |done]. destruct IH as [-> IH]. split; [done|cbn [length] in *; lia].
Qed.

Lemma next_frames_remaining fs : fs <> [] -> match next_frames fs with
  | Some (g :: rest) => remaining fs = (length (g :: rest), f_item g) :: remaining (g :: rest)
  | Some [] => False
  | None => remaining fs = []
  end.
Proof.
  destruct fs as [|f rest]; [done|]. intros _. cbn [next_frames remaining]. unfold first_frame.
  rewrite (preorders_split _ (f_kids f)). destruct (split_elem (f_kids f)) as [[[pre [[[tag att] c] kids]] post]|].
  - cbn [remaining after f_kids f_sibs f_item f_tag f_att f_compact length]. cbn [app]. by rewrite <- !app_assoc.
  - cbn [app]. assert (X := next_up_after (f :: rest)). destruct (next_up (f :: rest)) as [[|g r]|]; [done|by destruct X|done].
Qed.

(** ** The cursor on the document *)

Section Cursor.
Context (n : nat) (m : mem) (before : Z) (user : option (ref -> Z -> Z -> bool)).

Definition node_of (f : frame) : XNode :=
  let patt := f_at f + 1 + zlen (f_tag f) in
  mkNode (mkRef (f_at f + 1) patt) (TrimSpace m (mkRef patt (patt + zlen (f_att f)))) (f_at f) (f_inner f) (f_compact f).

(** What may follow the items: the end of the text, or a closing tag. *)
Definition tail_ok (tl : list Z) : Prop := tl = [0] \/ exists t, tl = close_tag t.

Lemma tail_head tl : tail_ok tl -> exists c b, tl = c :: b /\ (c = 60 \/ c = 0).
Proof. intros [->|[t ->]]; [exists 0, []; tauto|exists 60, ([47] ++ t ++ [62]); tauto]. Qed.

Lemma items_head_tail l tl : xwfs l -> tail_ok tl ->
  exists a c b, xrenders l ++ tl = a ++ c :: b /\ (c = 60 \/ c = 0) /\ scanned (chr "<") a /\ (length a <= length (xrenders l))%nat.
Proof.
  intros Hl Ht. induction Hl as [|x l Hx Hl (a & c & b & E & Hc & Ha & La)].
  - destruct (tail_head tl Ht) as (c & b & -> & Hc). exists [], c, b. split; [done|]. split; [done|]. split; [constructor|done].
  - unfold xrenders in *. cbn [flat_map]. rewrite <- app_assoc, E. destruct x as [t|t|tag att cc kids].
    + destruct Hx as [H1 H2]. exists (t ++ a), c, b. cbn [xrender]. rewrite <- app_assoc. split; [done|]. split; [done|].
      split; [apply Forall_app; split; [by apply scanned_avoids|done]|]. rewrite !length_app. lia.
    + exists [], 60. cbn [xrender]. destruct Hx; (eexists; split; [reflexivity|]; split; [by left|]; split; [constructor|cbn; lia]).
    + exists [], 60. cbn [xrender]. (eexists; split; [reflexivity|]; split; [by left|]; split; [constructor|cbn; lia]).
Qed.

Lemma seek_text p t l tl : holds m p (t ++ xrenders l ++ tl) -> no_nul t -> avoids "<" t -> xwfs l -> tail_ok tl ->
  (length (t ++ xrenders l) < n)%nat -> _seek_tag_open n m p = _seek_tag_open n m (p + zlen t).
Proof.
  intros Hh H1 H2 Hl Ht Hn. destruct (items_head_tail l tl Hl Ht) as (a & c & b & E & Hc & Ha & La).
  rewrite E, cons_middle, !app_assoc in Hh. apply holds_app in Hh as [Hh _]. rewrite length_app in Hn.
  assert (Hta : scanned (chr "<") (t ++ a)) by (apply Forall_app; split; [by apply scanned_avoids|done]).
  assert (Hh2 := Hh). rewrite <- app_assoc in Hh2. apply holds_app in Hh2 as [_ Hh2].
  unfold _seek_tag_open, strchr. destruct Hc as [->| ->].
  - rewrite (strchr_at m n (chr "<") (t ++ a) p 60 Hh), (strchr_at m n (chr "<") a _ 60 Hh2); try done; rewrite ?length_app; lia.
  - by rewrite (strchr_none m n (chr "<") (t ++ a) p Hh), (strchr_none m n (chr "<") a _ Hh2).
Qed.

Lemma enter_loop_seek k P p q f name rep : _seek_tag_open n m p = _seek_tag_open n m q ->
  enter_loop n m before user k P p f name rep = enter_loop n m before user k P q f name rep.
Proof. intros E. destruct k as [|k]; [done|]. cbn [enter_loop]. by rewrite E. Qed.

Lemma length_open_tag tag att c : length (open_tag tag att c) = (length tag + length att + (if c then 3 else 2))%nat.
Proof. unfold open_tag. rewrite !length_app. destruct c; cbn; lia. Qed.

(** The items that take a step: all but the texts. *)
Fixpoint xcount (l : list xitem) : nat :=
  match l with [] => 0 | XText _ :: t => xcount t | _ :: t => S (xcount t) end.
Lemma xcount_le l : xwfs l -> (xcount l <= length (xrenders l))%nat.
Proof.
  induction 1 as [|x l Hx _ IH]; [done|]. unfold xrenders in *. cbn [flat_map]. rewrite length_app.
  destruct x as [t|t|tag att c kids]; cbn [xcount].
  - lia.
  - assert (1 <= length (xrender (XSpecial t)))%nat by (destruct Hx; cbn; lia). lia.
  - cbn [xrender]. rewrite length_app, length_open_tag. destruct c; lia.
Qed.

(** Entering among items goes to the first element. *)
Lemma enter_items l tl : forall k P p rep, xwfs l -> tail_ok tl -> holds m p (xrenders l ++ tl) ->
  (length (xrenders l ++ tl) < n)%nat -> 0 < p -> p + zlen (xrenders l) <= _root_node_xml_end P -> (xcount l < k)%nat ->
  enter_loop n m before user k P p NoFilter None rep =
  Some (match first_frame p l with
        | Some g => (with_nodes P (node_of g :: (if rep then tail (m_NodePath P) else m_NodePath P)), true)
        | None => (P, false)
        end).
Proof.
  induction l as [|x l IH]; intros k P p rep Hl Ht Hh Hn Hp He Hk; (destruct k as [|k]; [lia|]).
  - cbn [enter_loop first_frame split_elem]. cbn [xrenders flat_map app] in *. destruct Ht as [->|[t ->]].
    + unfold _seek_tag_open, strchr. rewrite (strchr_none m n (chr "<") [] p Hh); [done|done|constructor].
    + apply holds_cons_inv in Hh as [E0 Hh]. apply holds_cons_inv in Hh as [E1 _].
      rewrite seek_here; [|unfold sc; by rewrite E0|lia]. unfold sc at 1. rewrite E1. by rewrite orb_true_r.
  - apply Forall_cons in Hl as [Hx Hl]. unfold xrenders in *. cbn [flat_map] in *. rewrite <- app_assoc in Hh, Hn. assert (Hh2 := Hh).
    apply holds_app in Hh as [Hhx Hhl]. rewrite length_app in Hn, He. rewrite length_app in Hn.
    assert (IHl : forall k, (xcount l < k)%nat -> enter_loop n m before user k P (p + zlen (xrender x)) NoFilter None rep =
      Some (match first_frame (p + zlen (xrender x)) l with
        | Some g => (with_nodes P (node_of g :: (if rep then tail (m_NodePath P) else m_NodePath P)), true)
        | None => (P, false) end)).
    { intros k' Hk'. apply IH; first [done|lia|rewrite length_app; lia]. }
    assert (Step : forall y, x = y -> (match y with XElem _ _ _ _ => False | _ => True end) -> first_frame p (x :: l) = first_frame (p + zlen (xrender x)) l).
    { intros y -> Hy. unfold first_frame. destruct y as [t|t|]; [| |done]; cbn [split_elem];
        destruct (split_elem l) as [[[pre [[[? ?] ?] ?]] post]|]; try done; unfold xrenders; cbn [flat_map]; rewrite length_app; do 2 f_equal; lia. }
    destruct x as [t|t|tag att c kids].
    + rewrite (Step _ eq_refl I). destruct Hx as [H1 H2]. rewrite <- (IHl (S k)) by (cbn [xcount] in Hk; lia). apply enter_loop_seek.
      cbn [xrender] in *. apply (seek_text p t l tl); try done. rewrite length_app. unfold xrenders. lia.
    + rewrite (Step _ eq_refl I). cbn [xrender] in *. destruct (special_head m t p Hx Hhx) as [S0 S1]. cbn [enter_loop].
      assert (Lt : (2 <= length t)%nat) by (destruct Hx; cbn; lia).
      rewrite seek_here; [|unfold sc; by rewrite S0|lia]. rewrite (proj2 (Z.eqb_neq p 0)) by lia.
      assert (S2 : (sc m (p + 1) =? chr "/") = false).
      { destruct Hx; apply holds_cons_inv in Hhx as [_ Hhx]; apply holds_cons_inv in Hhx as [E1 _]; unfold sc; by rewrite E1. }
      rewrite S2, S1. cbn [orb]. rewrite (proj2 (Z.leb_gt _ p)) by lia. unfold search_special_node_close.
      rewrite (special_close n m t p Hx Hhx) by lia. rewrite decide_True by done. rewrite (proj2 (Z.eqb_neq _ 0)) by lia.
      replace (p + zlen t - 1 + 1) with (p + zlen t) by lia. apply IHl. cbn [xcount] in Hk. lia.
    + unfold first_frame. cbn [split_elem xrenders flat_map length]. rewrite Z.add_0_r. destruct Hx as (Htag & Hatt & Hkids).
      cbn [xrender] in Hhx, Hn, He. rewrite length_app in Hn, He. apply holds_app in Hhx as [Hop _].
      destruct (open_tag_scan n m p tag att c Hop Htag Hatt ltac:(lia)) as [S0 S1 S2 S3 S4 S5 S6].
      assert (Lo := length_open_tag tag att c). cbn [enter_loop]. rewrite seek_here; [|done|lia]. rewrite (proj2 (Z.eqb_neq p 0)) by lia.
      rewrite S2, S1. cbn [orb]. rewrite (proj2 (Z.leb_gt _ p)) by (destruct c; lia). rewrite S3, S5.
      assert (Lt : (1 <= length tag)%nat) by (destruct Htag as [_ Ht1]; destruct tag; [done|cbn; lia]).
      rewrite (proj2 (Z.eqb_neq (p + 1 + zlen tag) _)) by lia. rewrite (proj2 (Z.eqb_neq (p + zlen _ - 1) 0)) by (destruct c; lia).
      assert (N : node_at m p (p + 1 + zlen tag) (p + zlen (open_tag tag att c) - 1) = node_of (mkFrame p tag att c kids l)).
      { unfold node_at, node_of, f_inner. cbn [f_at f_tag f_att f_compact].
        replace (p + zlen (open_tag tag att c) - 1 - 1) with (p + zlen (open_tag tag att c) - 2) by lia. rewrite S6.
        f_equal; [|lia]. do 2 f_equal. destruct c; lia. }
      cbn [filter_test mbind option_bind]. by rewrite N.
Qed.

(** *** Frames in memory *)

Definition tail_of (fs : list frame) : list Z := match fs with [] => [0] | g :: _ => close_tag (f_tag g) end.
Record frame_ok (xml_end : Z) (tl : list Z) (f : frame) : Prop := {
  fo_holds : holds m (f_at f) (xrender (f_item f) ++ xrenders (f_sibs f) ++ tl);
  fo_wf : xwf (f_item f);
  fo_sibs : xwfs (f_sibs f);
  fo_pos : 0 < f_at f;
  fo_end : f_at f + zlen (xrender (f_item f) ++ xrenders (f_sibs f)) <= xml_end;
  fo_len : (length (xrender (f_item f) ++ xrenders (f_sibs f) ++ tl) < n)%nat }.
Fixpoint frames_ok (xml_end : Z) (fs : list frame) : Prop :=
  match fs with [] => True | f :: rest => frame_ok xml_end (tail_of rest) f /\ frames_ok xml_end rest end.

Lemma tail_of_ok fs : tail_ok (tail_of fs).
Proof. destruct fs as [|g fs]; [by left|right; by exists (f_tag g)]. Qed.

Lemma f_item_parts f : xwf (f_item f) -> tag_ok (f_tag f) /\ att_ok (f_att f) /\ xwfs (f_kids f) /\ (f_compact f = true -> f_kids f = []) /\
  xrender (f_item f) = open_tag (f_tag f) (f_att f) (f_compact f) ++ (if f_compact f then [] else xrenders (f_kids f) ++ close_tag (f_tag f)).
Proof.
  unfold f_item. intros W. assert (W2 := W). destruct W as (H1 & H2 & H3). split; [done|]. split; [done|].
  destruct (f_compact f); [rewrite H3; split; [constructor|done]|]. split; [by apply (xwf_kids (f_tag f) (f_att f))|done].
Qed.

Lemma item_pos f : xwf (f_item f) -> (2 <= length (xrender (f_item f)))%nat.
Proof.
  intros W. destruct (f_item_parts f W) as (_ & _ & _ & _ & ->). rewrite length_app, length_open_tag. destruct (f_compact f); lia.
Qed.

Lemma tag_refers E tl f : frame_ok E tl f -> refers m (NTagName (node_of f)) (f_tag f).
Proof.
  intros [Hh W _ _ _ _]. destruct (f_item_parts f W) as (_ & _ & _ & _ & X). rewrite X, <- app_assoc in Hh.
  unfold open_tag in Hh. rewrite <- !app_assoc in Hh. apply holds_app in Hh as [_ Hh]. apply holds_app in Hh as [Hh _].
  split; [exact Hh|]. unfold GetLength, node_of. cbn [NTagName rb re]. lia.
Qed.

(** The end of the current node. *)
Lemma node_end_frame E tl f P : frame_ok E tl f ->
  exists inner, node_end n m P (node_of f) = Some (P, f_next f - 1, inner).
Proof.
  intros F. assert (R := tag_refers _ _ _ F). destruct F as [Hh W _ Hp _ Hl]. destruct (f_item_parts f W) as (Ht & Ha & Hk & Hc & X).
  unfold node_end, f_next. unfold node_of at 1 2. cbn [IsCompactNode InnerXML_Start]. destruct (f_compact f) eqn:Ec.
  - eexists. do 2 f_equal. f_equal. rewrite X, app_nil_r. unfold f_inner. by rewrite Ec.
  - unfold search_node_close. rewrite X in Hh, Hl |- *. rewrite <- !app_assoc in Hh, Hl. rewrite !length_app in Hl.
    apply holds_app in Hh as [_ Hh]. rewrite app_assoc in Hh. apply holds_app in Hh as [Hh _].
    cbn [InnerXML_Start node_of]. unfold f_inner at 1. rewrite Ec.
    rewrite (search_node_close_at n m _ (f_kids f) (f_tag f) _ Hk Ht Hh R) by (rewrite ?length_app; lia).
    cbn [mbind option_bind]. rewrite decide_True by done. eexists. do 2 f_equal. f_equal. rewrite !length_app. lia.
Qed.

(** First frames of items are in memory. *)
Lemma first_frame_ok E tl p l g : xwfs l -> holds m p (xrenders l ++ tl) -> 0 < p -> p + zlen (xrenders l) <= E ->
  (length (xrenders l ++ tl) < n)%nat -> first_frame p l = Some g -> frame_ok E tl g.
Proof.
  unfold first_frame. intros Hl Hh Hp He Hn.
  assert (S : forall pre tag att c kids post, split_elem l = Some (pre, (tag, att, c, kids), post) -> l = pre ++ XElem tag att c kids :: post).
  { clear. induction l as [|[t|t|tag att c kids] l IH]; intros pre tag' att' c' kids' post; cbn [split_elem]; [done| | |by intros [= <- <- <- <- <- <-]];
      (destruct (split_elem l) as [[[pre0 [[[? ?] ?] ?]] post0]|]; [|done]); intros [= <- <- <- <- <- <-]; cbn [app]; f_equal; by apply IH. }
  destruct (split_elem l) as [[[pre [[[tag att] c] kids]] post]|]; [|done]. intros [= <-]. rewrite (S _ _ _ _ _ _ eq_refl) in *. clear S.
  unfold xrenders in *. rewrite flat_map_app in *. cbn [flat_map] in *. apply Forall_app in Hl as [_ Hl]. apply Forall_cons in Hl as [Hx Hl].
  rewrite <- app_assoc in Hh, Hn. rewrite length_app in Hn, He. assert (Hh2 := Hh). apply holds_app in Hh as [_ Hh]. rewrite <- app_assoc in Hh, Hn.
  split; unfold f_item, xrenders; cbn [f_at f_tag f_att f_compact f_kids f_sibs]; [exact Hh|exact Hx|exact Hl|lia|lia|lia].
Qed.

(** *** The steps *)

(** A cursor without error on the frames. *)
Record on_frames (fs : list frame) (P : XMLParser) : Prop := {
  of_path : m_NodePath P = map node_of fs;
  of_frames : frames_ok (_root_node_xml_end P) fs;
  of_error : m_XMLParseError P = ERR_XML_OK;
  of_filter : m_pCurTagFilter P = NoFilter }.

Lemma on_frames_nodes fs gs P : on_frames fs P -> frames_ok (_root_node_xml_end P) gs -> on_frames gs (with_nodes P (map node_of gs)).
Proof. intros [_ _ H1 H2] H. by split. Qed.
Lemma on_frames_cursor fs P c : on_frames fs P -> on_frames fs (with_cursor P c).
Proof. intros [H1 H2 H3 H4]. by split. Qed.

(** Entering from the position [p] among items, for a child or a sibling. *)
Lemma enter_step fs P p l tl rep : on_frames fs P -> xwfs l -> tail_ok tl -> holds m p (xrenders l ++ tl) ->
  (length (xrenders l ++ tl) < n)%nat -> 0 < p -> p + zlen (xrenders l) <= _root_node_xml_end P ->
  _EnterNextNode n m before user P p NoFilter None rep =
  Some (match first_frame p l with
        | Some g => (with_nodes P (node_of g :: (if rep then tail (m_NodePath P) else m_NodePath P)), true)
        | None => (P, false)
        end).
Proof.
  intros F Hl Ht Hh Hn Hp He. unfold _EnterNextNode. destruct (Z.leb_spec (_root_node_xml_end P) p) as [L|L].
  - assert (E : xrenders l = []) by (destruct (xrenders l); [done|cbn [length] in He; lia]).
    assert (S : split_elem l = None); [|unfold first_frame; by rewrite S].
    clear -E Hl. induction Hl as [|x l Hx Hl IH]; [done|]. unfold xrenders in *. cbn [flat_map] in E. apply app_eq_nil in E as [E1 E2].
    destruct x as [t|t|tag att c kids]; cbn [split_elem]; [by rewrite IH..|]. cbn [xrender] in E1.
    apply (f_equal length) in E1. rewrite length_app, length_open_tag in E1. cbn in E1. destruct c; lia.
  - apply (enter_items l tl); try done. assert (X := xcount_le l Hl). rewrite length_app in Hn. destruct (tail_head tl Ht) as (c & b & -> & _). cbn [length] in Hn. lia.
Qed.

Definition stepped (o : option frame) (gs : frame -> list frame) (fs : list frame) (r : option (XMLParser * bool)) : Prop :=
  exists P', match o with
             | Some g => r = Some (P', true) /\ on_frames (gs g) P'
             | None => r = Some (P', false) /\ on_frames fs P'
             end.

Lemma child_step f rest P : on_frames (f :: rest) P ->
  stepped (first_frame (f_inner f) (f_kids f)) (fun g => g :: f :: rest) (f :: rest) (EnterFirstChildNode n m before user P None).
Proof.
  intros F. assert (Fc := on_frames_cursor _ _ 0 F). destruct F as [Ep Ef Ee En]. unfold EnterFirstChildNode. rewrite Ep, En. cbn [map].
  destruct Ef as [Hf Hr]. assert (Hf2 := Hf). destruct Hf2 as [Hh W Ws Hp He Hl]. destruct (f_item_parts f W) as (Ht & Ha & Hk & Hc & X).
  unfold node_of at 1 2. cbn [IsCompactNode InnerXML_Start]. destruct (f_compact f) eqn:Ec.
  - rewrite (Hc eq_refl). exists P. split; [done|]. by split.
  - rewrite X in Hh, He, Hl. rewrite <- !app_assoc in Hh, Hl. rewrite !length_app in Hl, He. apply holds_app in Hh as [_ Hh].
    rewrite app_assoc in Hh. apply holds_app in Hh as [Hh _].
    assert (Hi : f_inner f = f_at f + zlen (open_tag (f_tag f) (f_att f) false)) by (unfold f_inner; by rewrite Ec). rewrite <- Hi in Hh.
    assert (Lk : (length (xrenders (f_kids f) ++ close_tag (f_tag f)) < n)%nat) by (rewrite length_app; lia).
    rewrite (enter_step _ _ _ (f_kids f) (close_tag (f_tag f)) false Fc); [|done|right; by exists (f_tag f)|done|done|lia|cbn; lia].
    destruct (first_frame (f_inner f) (f_kids f)) as [g|] eqn:Eg; [|exists (with_cursor P 0); by split].
    eexists. split; [reflexivity|]. cbn [m_NodePath with_cursor]. rewrite Ep. apply (on_frames_nodes (f :: rest) (g :: f :: rest) (with_cursor P 0)); [done|].
    split; [|split; done]. cbn [tail_of]. apply (first_frame_ok _ _ (f_inner f) (f_kids f)); try done; cbn; lia.
Qed.

Lemma sibling_step f rest P : on_frames (f :: rest) P ->
  stepped (first_frame (f_next f) (f_sibs f)) (fun g => g :: rest) (f :: rest) (EnterNextSiblingNode n m before user P).
Proof.
  intros F. assert (Fc := on_frames_cursor _ _ 0 F). destruct F as [Ep Ef Ee En]. unfold EnterNextSiblingNode. rewrite Ep. cbn [map].
  destruct Ef as [Hf Hr]. destruct (node_end_frame _ _ _ (with_cursor P 0) Hf) as [inner E]. rewrite E. cbn [mbind option_bind]. rewrite (of_filter _ _ Fc).
  destruct Hf as [Hh W Ws Hp He Hl]. assert (Lp := item_pos f W). rewrite !length_app in *. apply holds_app in Hh as [_ Hh]. fold (f_next f) in Hh.
  assert (Hx : f_next f = f_at f + zlen (xrender (f_item f))) by done.
  rewrite (proj2 (Z.eqb_neq (f_next f - 1) 0)) by lia. replace (f_next f - 1 + 1) with (f_next f) by lia.
  assert (Ls : (length (xrenders (f_sibs f) ++ tail_of rest) < n)%nat) by (rewrite length_app; lia).
  rewrite (enter_step _ _ _ (f_sibs f) (tail_of rest) true Fc); [|done|apply tail_of_ok|done|done|lia|cbn; lia].
  destruct (first_frame (f_next f) (f_sibs f)) as [g|] eqn:Eg; [|exists (with_cursor P 0); by split].
  eexists. split; [reflexivity|]. cbn [m_NodePath with_cursor tail]. rewrite Ep. apply (on_frames_nodes (f :: rest) (g :: rest) (with_cursor P 0)); [done|].
  split; [|done]. apply (first_frame_ok _ _ (f_next f) (f_sibs f)); try done; cbn; lia.
Qed.

Lemma parent_step f g rest P : on_frames (f :: g :: rest) P ->
  exists P', EnterParentNode P = (P', true) /\ on_frames (g :: rest) P'.
Proof.
  intros [Ep Ef Ee En]. unfold EnterParentNode, GetDescendantLevel. cbn [m_NodePath with_cursor]. rewrite Ep. cbn [map length tail].
  rewrite (proj2 (Z.ltb_lt 1 _)) by lia. eexists. split; [reflexivity|]. destruct Ef as [_ Ef]. by split.
Qed.

Lemma no_error fs P : on_frames fs P -> has_error P = false.
Proof. intros [_ _ E _]. unfold has_error. rewrite E. by rewrite bool_decide_true. Qed.

(** The ascent: to the next sibling of the nearest ancestor that has one. *)
Lemma ascend_step rest : forall f fuel P, on_frames (f :: rest) P -> (length rest < fuel)%nat ->
  exists P', match next_up rest with
             | Some gs => ascend n m before user fuel P = Some (P', true) /\ on_frames gs P'
             | None => ascend n m before user fuel P = Some (P', false)
             end.
Proof.
  induction rest as [|g rest IH]; intros f fuel P F Hf; (destruct fuel as [|fuel]; [lia|]); cbn [ascend]; rewrite (no_error _ _ F).
  - exists (with_cursor P 0). cbn [next_up]. unfold EnterParentNode, GetDescendantLevel. cbn [m_NodePath with_cursor].
    rewrite (of_path _ _ F). done.
  - destruct (parent_step _ _ _ _ F) as (P1 & -> & F1). cbn [next_up].
    destruct (sibling_step g rest P1 F1) as [P2 H2]. destruct (first_frame (f_next g) (f_sibs g)) as [h|].
    + destruct H2 as [-> F2]. by exists P2.
    + destruct H2 as [-> F2]. cbn [mbind option_bind]. apply (IH g fuel P2 F2). cbn in Hf. lia.
Qed.

(** [EnterSucceedNode] goes to the next node in document order. *)
Lemma succeed_step fs P : on_frames fs P -> fs <> [] ->
  exists P', match next_frames fs with
             | Some gs => EnterSucceedNode n m before user P = Some (P', true) /\ on_frames gs P'
             | None => EnterSucceedNode n m before user P = Some (P', false)
             end.
Proof.
  intros F Hne. destruct fs as [|f rest]; [done|]. unfold EnterSucceedNode.
  assert (F0 := on_frames_cursor _ _ 0 F). set (P0 := with_cursor P 0) in *. rewrite (of_filter _ _ F0), decide_False by done.
  unfold succeed_plain. destruct (child_step f rest P0 F0) as [P1 H1]. cbn [next_frames].
  destruct (first_frame (f_inner f) (f_kids f)) as [g|].
  - destruct H1 as [-> F1]. by exists P1.
  - destruct H1 as [-> F1]. cbn [mbind option_bind]. rewrite (no_error _ _ F1). cbn [next_up].
    destruct (sibling_step f rest P1 F1) as [P2 H2]. destruct (first_frame (f_next f) (f_sibs f)) as [g|].
    + destruct H2 as [-> F2]. by exists P2.
    + destruct H2 as [-> F2]. cbn [mbind option_bind]. apply (ascend_step rest f _ P2 F2).
      rewrite (of_path _ _ F2), length_map. cbn. lia.
Qed.

(** *** Loading *)

Lemma load_items l tl : forall k P p, xwfs l -> tail_ok tl -> tl = [0] -> holds m p (xrenders l ++ tl) ->
  (length (xrenders l ++ tl) < n)%nat -> 0 < p -> (xcount l < k)%nat ->
  load_loop n m k P p = Some (P, match first_frame p l with Some g => f_at g | None => 0 end).
Proof.
  induction l as [|x l IH]; intros k P p Hl Ht E0 Hh Hn Hp Hk; (destruct k as [|k]; [lia|]).
  - subst tl. cbn [load_loop first_frame split_elem]. cbn [xrenders flat_map app] in *.
    unfold _seek_tag_open, strchr. rewrite (strchr_none m n (chr "<") [] p Hh); [done|done|constructor].
  - apply Forall_cons in Hl as [Hx Hl]. unfold xrenders in *. cbn [flat_map] in *. rewrite <- app_assoc in Hh, Hn. assert (Hh2 := Hh).
    apply holds_app in Hh as [Hhx Hhl]. rewrite length_app in Hn.
    assert (Step : (match x with XElem _ _ _ _ => False | _ => True end) ->
      match first_frame (p + zlen (xrender x)) l with Some g => f_at g | None => 0 end =
      match first_frame p (x :: l) with Some g => f_at g | None => 0 end).
    { intros Hy. unfold first_frame. destruct x as [t|t|]; [| |done]; cbn [split_elem];
        destruct (split_elem l) as [[[pre [[[? ?] ?] ?]] post]|]; try done; cbn [f_at]; unfold xrenders; cbn [flat_map]; rewrite length_app; lia. }
    destruct x as [t|t|tag att c kids].
    + rewrite <- (Step I). cbn [xcount] in Hk. rewrite <- (IH (S k) P (p + zlen (xrender (XText t)))) by (done || lia).
      cbn [load_loop]. destruct Hx as [H1 H2]. cbn [xrender] in *.
      by rewrite (seek_text p t l tl) by (done || (rewrite length_app in *; unfold xrenders; lia)).
    + rewrite <- (Step I). cbn [xrender xcount] in *. destruct (special_head m t p Hx Hhx) as [S0 S1]. cbn [load_loop].
      assert (Lt : (2 <= length t)%nat) by (destruct Hx; cbn; lia).
      rewrite seek_here; [|unfold sc; by rewrite S0|lia]. rewrite (proj2 (Z.eqb_neq p 0)), S1 by lia. unfold search_special_node_close.
      rewrite (special_close n m t p Hx Hhx) by lia. rewrite decide_True by done. rewrite (proj2 (Z.eqb_neq _ 0)) by lia.
      replace (p + zlen t - 1 + 1) with (p + zlen t) by lia. apply IH; (done || lia).
    + unfold first_frame. cbn [split_elem xrenders flat_map length f_at]. rewrite Z.add_0_r. destruct Hx as (Htag & Hatt & Hkids).
      cbn [xrender] in Hhx, Hn. rewrite length_app in Hn. apply holds_app in Hhx as [Hop _].
      destruct (open_tag_scan n m p tag att c Hop Htag Hatt ltac:(lia)) as [S0 S1 _ _ _ _ _].
      cbn [load_loop]. rewrite seek_here; [|done|lia]. by rewrite (proj2 (Z.eqb_neq p 0)), S1 by lia.
Qed.

Lemma no_nul_render x : xwf x -> no_nul (xrender x).
Proof.
  assert (T : forall tag, all symbol_char tag -> no_nul tag).
  { intros tag H. apply (Forall_impl _ _ _ H). intros y Hy. by apply symbol_not. }
  induction x as [t|t|tag att c kids IH] using xitem_rect_list; intros W.
  - by destruct W.
  - destruct W as [c0 H ?|c0 H ?|c0 H ?|c0 ? H ?]; repeat (apply Forall_app; split); try done; repeat constructor; done.
  - assert (W2 := W). destruct W as (H1 & (H2 & _) & H3). cbn [xrender]. unfold open_tag, close_tag. destruct H1 as [H1 _].
    apply Forall_app. split.
    + repeat (apply Forall_app; split); [by repeat constructor|by apply T|done|by destruct c; repeat constructor].
    + destruct c; [constructor|]. apply xwf_kids in W2. repeat (apply Forall_app; split); [|by repeat constructor|by apply T|by repeat constructor].
      clear H3. induction IH as [|y l Hy _ IHl]; [constructor|]. apply Forall_cons in W2 as [W3 W4]. cbn [flat_map].
      apply Forall_app. split; [by apply Hy|by apply IHl].
Qed.

Lemma strlen_holds l p : no_nul l -> holds m p (l ++ [0]) -> (length l < n)%nat -> strlen n m p = zlen l.
Proof.
  intros Hl Hh Hn. unfold strlen. rewrite (scan_spec (fun c => negb (c =? 0)) m l n p [0]); [lia|lia|done| |].
  - apply (Forall_impl _ _ _ Hl). intros x Hx. by apply negb_true_iff, Z.eqb_neq.
  - right. exists 0, []. done.
Qed.

Lemma no_nul_renders l : xwfs l -> no_nul (xrenders l).
Proof. induction 1 as [|x l Hx _ IH]; [constructor|]. apply Forall_app. split; [by apply no_nul_render|done]. Qed.

Lemma load_first l p P0 : xwfs l -> holds m p (xrenders l ++ [0]) -> 0 < p -> (length (xrenders l) + 1 < n)%nat ->
  mem_bytes m p 3 <> [0xef; 0xbb; 0xbf] ->
  exists P, match first_frame p l with
            | Some g => Load n m before user P0 p None (-1) = Some (P, true) /\ on_frames [g] P
            | None => Load n m before user P0 p None (-1) = Some (P, false)
            end.
Proof.
  intros Hl Hh Hp Hn Hb. unfold Load. change (-1 <? 0) with true. cbv iota.
  destruct (zlist_eqb (mem_bytes m p 3) _) eqn:E; [by apply zlist_eqb_eq in E|]. clear E.
  rewrite (strlen_holds (xrenders l) p (no_nul_renders l Hl) Hh) by lia. cbn [m_pDocument].
  rewrite (load_items l [0]); [|done|by left|done|done|rewrite length_app; cbn; lia|done|assert (X := xcount_le l Hl); lia].
  cbn [mbind option_bind]. destruct (first_frame p l) as [g|] eqn:Eg; [|by eexists].
  assert (Hg : frame_ok (p + zlen (xrenders l)) [0] g).
  { apply (first_frame_ok _ _ p l); first [done|lia|rewrite length_app; cbn; lia]. }
  destruct Hg as [Gh Gw Gs Gp Ge Gl]. rewrite (proj2 (Z.eqb_neq (f_at g) 0)) by lia.
  set (P1 := with_root_start _ _). assert (F1 : on_frames [] P1) by done.
  rewrite (enter_step [] P1 (f_at g) (f_item g :: f_sibs g) [0] false F1); [|by constructor|by left| | |done|].
  - unfold first_frame. cbn [split_elem f_item]. cbn [xrenders flat_map length]. rewrite Z.add_0_r. destruct g as [a tag att c kids sibs].
    cbn [f_at f_tag f_att f_compact f_kids f_sibs]. eexists. split; [reflexivity|].
    apply (on_frames_nodes [] [mkFrame a tag att c kids sibs] P1 F1). split; [|done]. by split.
  - unfold xrenders. cbn [flat_map]. by rewrite <- app_assoc.
  - unfold xrenders. cbn [flat_map]. by rewrite <- app_assoc.
  - exact Ge.
Qed.

(** ** Visiting *)

Section Visit.
Context {A : Type} (obs : XMLParser -> XNode -> option A).

(** The loop of [TextDump]: look at the node, go to the next. *)
Fixpoint visit (k : nat) (P : XMLParser) : option (list A) :=
  match k with
  | O => None
  | S k =>
    match m_NodePath P with
    | [] => None
    | c :: _ =>
      a ← obs P c;
      r ← EnterSucceedNode n m before user P;
      let '(P, b) := r in if (b : bool) then l ← visit k P; Some (a :: l) else Some [a]
    end
  end.

(** The relation of an element at its depth with what is seen of it. *)
Context (R : nat * xitem -> A -> Prop).
Hypothesis obs_spec : forall f rest P a, on_frames (f :: rest) P -> R (length (f :: rest), f_item f) a -> obs P (node_of f) = Some a.

Lemma visit_frames k : forall f rest P a l, on_frames (f :: rest) P -> R (length (f :: rest), f_item f) a ->
  Forall2 R (remaining (f :: rest)) l -> (length l < k)%nat -> visit k P = Some (a :: l).
Proof.
  induction k as [|k IH]; intros f rest P a l F Ha Hl Hk; [lia|]. cbn [visit]. rewrite (of_path _ _ F). cbn [map].
  rewrite (obs_spec _ _ _ a F Ha). cbn [mbind option_bind].
  destruct (succeed_step (f :: rest) P F ltac:(done)) as [P' H].
  assert (N := next_frames_remaining (f :: rest) ltac:(done)). destruct (next_frames (f :: rest)) as [[|g gs]|]; [done| |].
  - destruct H as [-> F']. cbn [mbind option_bind]. rewrite N in Hl. destruct l as [|b l]; [by inversion Hl|].
    apply Forall2_cons in Hl as [Hb Hl]. cbn [length] in Hk. by rewrite (IH g gs P' b l F' Hb Hl) by lia.
  - rewrite H. cbn [mbind option_bind]. rewrite N in Hl. by inversion Hl.
Qed.

(** From [Load] on: every element of the document in document order. *)
Lemma load_visit l p P0 seen : xwfs l -> holds m p (xrenders l ++ [0]) -> 0 < p -> (length (xrenders l) + 1 < n)%nat ->
  mem_bytes m p 3 <> [0xef; 0xbb; 0xbf] -> preorders 1 l <> [] -> Forall2 R (preorders 1 l) seen ->
  exists P, Load n m before user P0 p None (-1) = Some (P, true) /\ visit (S (length seen)) P = Some seen.
Proof.
  intros Hl Hh Hp Hn Hb Hne HR. destruct (load_first l p P0 Hl Hh Hp Hn Hb) as [P H]. exists P.
  rewrite preorders_split in Hne, HR. unfold first_frame in H. destruct (split_elem l) as [[[pre [[[tag att] c] kids]] post]|]; [|done].
  destruct H as [HL F]. split; [done|]. destruct seen as [|a seen]; [by inversion HR|]. apply Forall2_cons in HR as [Ha HR].
  apply (visit_frames _ _ _ _ a seen F Ha); [|cbn; lia]. cbn [remaining after f_kids f_sibs length]. by rewrite app_nil_r.
Qed.
End Visit.

(** *** Observations of the current node *)

Definition item_tag (x : xitem) : list Z := match x with XElem tag _ _ _ => tag | _ => [] end.
Definition item_att (x : xitem) : list Z := match x with XElem _ att _ _ => att | _ => [] end.

(** Depth, name and outer XML. *)
Definition outline (P : XMLParser) (c : XNode) : option (nat * list Z * list Z) :=
  r ← GetOuterXML n m P c;
  Some (Z.to_nat (GetDescendantLevel P), text m (GetNodeName c), text m (snd r)).
Definition item_outline (dx : nat * xitem) : nat * list Z * list Z := (fst dx, item_tag (snd dx), xrender (snd dx)).

Lemma refers_text r l : refers m r l -> text m r = l.
Proof. intros [Hh Hl]. unfold text. rewrite Hl, Nat2Z.id. exact Hh. Qed.

Lemma outline_frame f rest P : on_frames (f :: rest) P -> zlen (xrender (f_item f)) < 2 ^ 31 ->
  outline P (node_of f) = Some (item_outline (length (f :: rest), f_item f)).
Proof.
  intros F Hs. destruct (of_frames _ _ F) as [Hf _]. unfold outline, GetOuterXML, GetDescendantLevel.
  destruct (node_end_frame _ _ _ P Hf) as [inner ->]. cbn [mbind option_bind]. rewrite (of_path _ _ F), length_map, Nat2Z.id.
  assert (R := tag_refers _ _ _ Hf). destruct Hf as [Hh W _ Hp _ _]. assert (L := item_pos f W).
  assert (Hx : f_next f = f_at f + zlen (xrender (f_item f))) by done.
  rewrite (proj2 (Z.eqb_neq (f_next f - 1) 0)) by lia. unfold item_outline, GetNodeName. rewrite (refers_text _ _ R). cbn [fst snd item_tag f_item].
  do 2 f_equal. apply refers_text. apply holds_app in Hh as [Hh _]. unfold outer_ref. cbn [OuterXML_Start node_of].
  rewrite s32_small by (unfold f_item in *; lia). split; [exact Hh|].
  unfold GetLength. cbn [rb re]. unfold f_item in *. lia.
Qed.

(** Attributes written as [SetAttribute] writes them. *)
Definition escaped_attrs (rl : list (list Z * list Z)) : list (list Z * list Z) := map (fun nv => (fst nv, _InsertPlainText (snd nv))) rl.
Definition raw_attrs_ok (rl : list (list Z * list Z)) : Prop :=
  Forall (fun nv => name_ok (fst nv) /\ bytes (snd nv) /\ no_nul (snd nv)) rl.
Definition plain_item (x : xitem) (rl : list (list Z * list Z)) : Prop :=
  match x with
  | XElem _ att c _ => raw_attrs_ok rl /\ att = attrs_text (escaped_attrs rl) ++ (if c then str " " else [])
  | _ => False
  end.

Lemma escape_clean x : s8 x <> 0 -> Forall (fun y => s8 y <> 0 /\ s8 y <> c_quot /\ s8 y <> chr "<" /\ s8 y <> chr ">") (escape_char x).
Proof.
  intros Hx. unfold escape_char. repeat (case_match; [by repeat constructor|]). rewrite !Z.eqb_neq in *. repeat constructor; done.
Qed.
Lemma escape_text_clean t : no_nul t -> Forall (fun y => s8 y <> 0 /\ s8 y <> c_quot /\ s8 y <> chr "<" /\ s8 y <> chr ">") (_InsertPlainText t).
Proof.
  induction 1 as [|x t Hx _ IH]; [constructor|]. apply Forall_app. split; [by apply escape_clean|done].
Qed.

Lemma escaped_ok rl : raw_attrs_ok rl -> attrs_ok (escaped_attrs rl).
Proof.
  induction 1 as [|[w t] rl (H1 & _ & H2) _ IH]; constructor; [|done]. cbn [fst snd] in *. split; [done|].
  apply (Forall_impl _ _ _ (escape_text_clean t H2)). intros y (? & ? & _). done.
Qed.

Lemma assoc_escaped name rl : assoc_text name (escaped_attrs rl) = option_map _InsertPlainText (assoc_text name rl).
Proof. induction rl as [|[w t] rl IH]; [done|]. cbn. by case_match. Qed.
Lemma assoc_bytes name rl t : raw_attrs_ok rl -> assoc_text name rl = Some t -> bytes t.
Proof.
  induction 1 as [|[w t'] rl (_ & H & _) _ IH]; [done|]. cbn [assoc_text]. destruct (zlist_eqb w name); [by intros [= <-]|done].
Qed.

Lemma trim_attributes p w tl : holds m p (str " " ++ w ++ tl) -> 0 < p -> w <> [] -> all blank tl ->
  (forall c w', w = c :: w' -> blank (s8 c) = false) -> (forall c w', w = w' ++ [c] -> blank (s8 c) = false) ->
  TrimSpace m (mkRef p (p + zlen (str " " ++ w ++ tl))) = mkRef (p + 1) (p + 1 + zlen w).
Proof.
  intros Hh Hp Hw Ht Hf Hl. assert (W : (1 <= length w)%nat) by (destruct w; [done|cbn; lia]).
  assert (L : length (str " " ++ w ++ tl) = (1 + length w + length tl)%nat) by (rewrite !length_app; done). rewrite L.
  unfold TrimSpace, TrimLeftSpace, IsEmpty. cbn [rb re]. rewrite (proj2 (Z.eqb_neq p 0)), (proj2 (Z.eqb_neq _ p)) by lia. cbn [orb].
  unfold str_len, GetLength. cbn [rb re]. rewrite (scan_spec blank m (str " ") _ p (w ++ tl)); [|cbn; lia|done|by repeat constructor|].
  2: { right. destruct w as [|c w]; [done|]. exists c, (w ++ tl). split; [done|]. by eapply Hf. }
  change (zlen (str " ")) with 1. unfold TrimRightSpace, IsEmpty, str_len, GetLength. cbn [rb re].
  rewrite (proj2 (Z.eqb_neq (p + 1) 0)), (proj2 (Z.eqb_neq _ (p + 1))) by lia. cbn [orb].
  replace (Z.to_nat (p + Z.of_nat (1 + length w + length tl) - (p + 1))) with (length (w ++ tl)) by (rewrite length_app; lia).
  apply holds_cons_inv in Hh as [_ Hh]. rewrite (trim_right_spec m (p + 1) w tl); try done.
  intros a c Ew. by eapply Hl.
Qed.

Lemma attrs_shape al : attrs_ok al -> al <> [] -> exists w, attrs_text al = str " " ++ w /\ w <> [] /\
  (forall c w', w = c :: w' -> blank (s8 c) = false) /\ (forall c w', w = w' ++ [c] -> blank (s8 c) = false).
Proof.
  intros Hal Hne. assert (E : exists u, attrs_text al = u ++ [c_quot]).
  { clear -Hne. induction al as [|nv al IH]; [done|]. unfold attrs_text in *. cbn [flat_map]. destruct al as [|nv2 al].
    - exists (str " " ++ fst nv ++ str "=" ++ [c_quot] ++ snd nv). cbn [flat_map]. rewrite app_nil_r. unfold attr_text. by rewrite <- !app_assoc.
    - destruct (IH ltac:(done)) as [u E]. exists (attr_text nv ++ u). by rewrite E, <- app_assoc. }
  destruct E as [u E]. destruct Hal as [|[w0 v0] al [[Hs Hw] _] _]; [done|]. cbn [fst] in *. destruct w0 as [|c0 w0]; [done|].
  set (W := (c0 :: w0) ++ [61; c_quot] ++ v0 ++ [c_quot] ++ attrs_text al).
  assert (A : attrs_text ((c0 :: w0, v0) :: al) = str " " ++ W).
  { unfold attrs_text, attr_text, W. cbn [flat_map fst snd]. rewrite <- !app_assoc. done. }
  rewrite A in E |- *. exists W. split; [done|]. split; [done|]. split.
  - intros c w' [= <- _]. assert (symbol_char (s8 c0) = true) as X by (by inversion_clear Hs). unfold blank.
    destruct Hw as [Hw|Hw]; [by rewrite (proj2 (Z.leb_gt (s8 c0) _)) by lia|by rewrite (proj2 (Z.leb_gt 0 _)), andb_false_r by lia].
  - intros c w' Ew. destruct u as [|x u]; [discriminate E|]. injection E as _ E. rewrite E in Ew. by apply app_inj_2 in Ew as [_ [= <-]].
Qed.

(** [GetAttribute] on such attributes: the first with the name, converted. *)
Lemma get_attribute f rest P rl name : on_frames (f :: rest) P -> plain_item (f_item f) rl ->
  GetAttribute n m before P (node_of f) name = Some (P, option_map (squeeze (s8 before)) (assoc_text name rl)).
Proof.
  intros F [Hrl Hatt]. destruct (of_frames _ _ F) as [Hf _]. destruct Hf as [Hh W _ Hp _ Hn].
  destruct (f_item_parts f W) as (Ht & Ha & _ & _ & X). rewrite X in Hh, Hn. unfold open_tag in Hh, Hn. rewrite <- !app_assoc in Hh, Hn.
  apply holds_app in Hh as [_ Hh]. apply holds_app in Hh as [_ Hh].
  assert (Hal := escaped_ok rl Hrl). assert (Has := assoc_escaped name rl). set (al := escaped_attrs rl) in *. clearbody al.
  rewrite Hatt, <- !app_assoc in Hh, Hn.
  change (zlen (str "<")) with 1 in Hh. set (q := f_at f + 1 + zlen (f_tag f)) in *.
  unfold GetAttribute, node_of. cbn [Attributes]. fold q. rewrite Hatt.
  set (tl := if f_compact f then str " " else []) in *. set (e := if f_compact f then str "/>" else str ">") in *.
  assert (Tz : tag_end (tl ++ e)) by (unfold tl, e, tag_end; destruct (f_compact f); tauto).
  assert (Tl : tl = [] \/ tl = str " ") by (unfold tl; destruct (f_compact f); tauto). clearbody tl e.
  assert (Le : (1 <= length e)%nat) by (destruct Tz as [Tz|[Tz|Tz]]; destruct Tl as [->| ->]; destruct e; (discriminate Tz || (cbn; lia))).
  assert (H2 : holds m q (attrs_text al ++ tl ++ e)) by (rewrite (app_assoc tl), (app_assoc (attrs_text al)) in Hh; by apply holds_app in Hh as [Hh _]).
  rewrite !length_app in Hn.
  assert (H1 : holds m q (attrs_text al ++ tl)) by (rewrite app_assoc in H2; by apply holds_app in H2 as [H2 _]).
  destruct (decide (al = [])) as [->|Hne].
  - destruct (assoc_text name rl); [discriminate Has|]. cbn [attrs_text flat_map app option_map] in *.
    assert (Em : IsEmpty (TrimSpace m (mkRef q (q + zlen tl))) = true); [|by rewrite Em].
    destruct Tl as [->| ->]; [|].
    { change (zlen []) with 0. rewrite Z.add_0_r. assert (I : IsEmpty (mkRef q q) = true) by (unfold IsEmpty; cbn [rb re]; by rewrite Z.eqb_refl, orb_true_r). unfold TrimSpace. by rewrite I. }
    apply holds_cons_inv in H1 as [E1 _]. unfold TrimSpace, TrimLeftSpace, TrimRightSpace, IsEmpty, str_len, GetLength. cbn [rb re].
    change (zlen (str " ")) with 1. rewrite (proj2 (Z.eqb_neq q 0)), (proj2 (Z.eqb_neq (q + 1) q)) by lia. cbn [orb rb re].
    replace (Z.to_nat (q + 1 - q)) with 1%nat by lia. cbn [scan]. unfold sc. rewrite E1. change (blank (s8 (chr " "))) with true. cbv iota.
    rewrite Z.eqb_refl, orb_true_r. cbn [rb re]. by rewrite Z.eqb_refl, orb_true_r.
  - destruct (attrs_shape al Hal Hne) as (w & Ew & Hw & Hw1 & Hw2).
    assert (Etrim : TrimSpace m (mkRef q (q + zlen (attrs_text al ++ tl))) = mkRef (q + 1) (q + 1 + zlen w)).
    { rewrite Ew, <- app_assoc in *. apply (trim_attributes q w); try done; [lia|]. destruct Tl as [->| ->]; repeat constructor. }
    rewrite Etrim. assert (W1 : (1 <= length w)%nat) by (destruct w; [done|cbn; lia]).
    unfold IsEmpty. cbn [rb re]. rewrite (proj2 (Z.eqb_neq (q + 1) 0)), (proj2 (Z.eqb_neq _ (q + 1))) by lia. cbn [orb].
    assert (Lal : (length al <= length (attrs_text al))%nat).
    { clear. induction al as [|nv al IH]; [done|]. unfold attrs_text in *. cbn [flat_map length]. rewrite length_app. unfold attr_text at 1.
      rewrite !length_app. cbn [length]. change (length (str " ")) with 1%nat. lia. }
    change (length (str "<")) with 1%nat in Hn. assert (Lt : (1 <= length (f_tag f))%nat) by (destruct Ht as [_ Ht]; destruct (f_tag f); [done|cbn; lia]).
    assert (S := search_attrs_trimmed n m al (tl ++ e) name q Hal Hne Tz H2 ltac:(lia) ltac:(lia) ltac:(lia)).
    rewrite Has in S. destruct (assoc_text name rl) as [t|] eqn:Er; cbn [option_map found] in *; [|by rewrite S].
    destruct S as (r & -> & Rr & Hr). assert (Bt := assoc_bytes name rl t Hrl Er).
    by rewrite (attribute_text_escape n m before r t Bt Rr) by lia.
Qed.
End Cursor.

(** C7: [Load] on any document of the reference syntax, shorter than [2^31]
    (lengths are [int]s), enters its first element, and [EnterSucceedNode] then visits all the others in document order, each with its
    depth, its name and exactly its own outer XML, and stops after the last. *)
Theorem document_order n m before user l p P0 : xwfs l -> holds m p (xrenders l ++ [0]) -> 0 < p ->
  (length (xrenders l) + 1 < n)%nat -> zlen (xrenders l) < 2 ^ 31 -> mem_bytes m p 3 <> [0xef; 0xbb; 0xbf] -> preorders 1 l <> [] ->
  exists P, Load n m before user P0 p None (-1) = Some (P, true) /\ visit n m before user (outline n m) (S (length (preorders 1 l))) P = Some (map item_outline (preorders 1 l)).
Proof.
  intros Hl Hh Hp Hn Hs Hb Hne. rewrite <- (length_map item_outline (preorders 1 l)).
  apply load_visit with (R := fun dx a => a = item_outline dx /\ zlen (xrender (snd dx)) < 2 ^ 31) (l := l); try done.
  - intros f rest P a F [-> Hf]. by apply outline_frame.
  - apply Forall2_fmap_r, Forall_Forall2_diag. apply (Forall_impl _ _ _ (preorders_length 1 l Hl)). intros dx H. split; [done|lia].
Qed.

Definition sample_items : list xitem :=
  [XElem (str "a") [] false [XText (str "t"); XElem (str "b") (str " ") true []; XElem (str "a") [] false []]].
Definition no_parser : XMLParser := mkParser 0 0 0 0 [] ERR_XML_OK 0 XPathParser_new NoFilter.
(** A text at address 64. *)
Definition at_64 (l : list Z) : mem := mem_of 0 64 (l ++ [0]).

Lemma document_order_witness :
  let m := at_64 (xrenders sample_items) in
  exists P, Load 99 m 0 None no_parser 64 None (-1) = Some (P, true) /\
    visit 99 m 0 None (outline 99 m) 4 P =
    Some [(1%nat, str "a", str "<a>t<b /><a></a></a>"); (2%nat, str "b", str "<b />"); (2%nat, str "a", str "<a></a>")].
Proof.
  apply (document_order 99 (at_64 (xrenders sample_items)) 0 None sample_items 64 no_parser); [|vm_compute; (reflexivity || lia || discriminate)..].
  assert (T : forall c, symbol_char (s8 c) = true -> s8 c <> chr "?" -> tag_ok [c]) by (intros c H1 H2; split; [by repeat constructor|done]).
  constructor; [|constructor]. cbn [xwf List.fold_right sample_items].
  repeat match goal with
    | |- _ /\ _ => split
    | |- tag_ok _ => apply T; [by vm_compute|by vm_compute]
    | |- att_ok _ => unfold att_ok
    | |- no_nul _ => by repeat constructor
    | |- avoids _ _ => by repeat constructor
    | |- _ => by vm_compute
    end.
Defined.

(** *** What the scans accept *)

Definition first_node {A} (l : list Z) (obs : mem -> XMLParser -> XNode -> option A) : option A :=
  let m := at_64 l in
  r ← Load 400 m 0 None no_parser 64 None (-1);
  match r with (P, true) => match m_NodePath P with c :: _ => obs m P c | [] => None end | _ => None end.

(** The end of a node is found by the front of the name. *)
Example close_tag_prefix :
  first_node (str "<a></ab></a>") (fun m P c => r ← GetOuterXML 400 m P c; Some (text m (snd r))) = Some (str "<a></ab>").
Proof. reflexivity. Qed.
(** Behind an unquoted value, attributes are looked for in the text. *)
Example attribute_in_text :
  first_node (str "<a x=1>b y=" ++ [c_quot; 50; c_quot] ++ str "</a>") (fun m P c => r ← GetAttribute 400 m 0 P c (str "y"); Some (snd r)) =
  Some (Some (str "2")).
Proof. reflexivity. Qed.
(** References to ASCII characters leave nothing, hexadecimal ones are not
    known, and bytes from 128 up go. *)
Example references_dropped :
  let conv l := attribute_text 400 (at_64 l) 0 (mkRef 64 (64 + zlen l)) in
  conv (str "a&#65;b") = Some (str "ab") /\ conv (str "a&#x41;b") = Some (str "a&#x41;b") /\
  conv (str "caf" ++ [0xc3; 0xa9; 33]) = Some (str "caf!").
Proof. repeat split; reflexivity. Qed.
(** With [//] the ordinal counts nodes that do not match: the root is the
    first, and nothing is found. *)
Example ordinal_consumed :
  let xpath t := first_node (str "<r><b>1</b></r>") (fun m P c =>
    let m := mstore m 900 (t ++ [0]) in
    r ← EnterXPath 400 m 0 None P 900;
    let '(P, b) := r in Some (b : bool, option_map (fun c => text m (NTagName c)) (head (m_NodePath P)))) in
  xpath (str "//b") = Some (true, Some (str "b")) /\ xpath (str "/r/b[0]") = Some (true, Some (str "b")) /\
  xpath (str "//b[0]") = Some (false, Some (str "r")).
Proof. repeat split; reflexivity. Qed.
