(* ===== verification/XmlCompose.v ===== *)
(** [XMLComposer] of rt/xml_xhtml.cpp, over memory and over a stream, and its
    composition with [XMLParser]: what is composed is what a parser visits. *)
From S2P Require Import Prelude Str StrScan Buffers Streams XmlScan XmlText XmlPath XmlNav XmlTree.

(** ** Definitions: the composer *)

(** What the composer uses of [rt::_File]; the count written is not looked at. *)
Class File (F : Type) := {
  file_Write : F -> list Z -> option F;
  file_Seek : F -> Z -> Z -> option (Z * F) }.

#[export] Instance File_ostream : File ostream := {
  file_Write s bs := '(_, s) ← OStream_Write s bs; Some s;
  file_Seek := OStream_Seek }.

(** A node entered: its tag, and the document length when it was entered. *)
Record _TagCache := mkTagCache { tc_tag : option (list Z); tag_pos : Z }.

(** The innermost node first; a null pointer is [None]. *)
Record XMLComposer (F : Type) := mkComposer {
  _EnteringNodeTag : option (list Z); _DepthMax : Z;
  m_pStreamOut : option F; m_StreamOutOrgPos : Z; m_Output : list Z; m_WrittenLength : Z; m_HeaderLength : Z;
  m_NestLevelTag : list _TagCache }.
Arguments mkComposer {F}.
Arguments _EnteringNodeTag {F}.
Arguments _DepthMax {F}.
Arguments m_pStreamOut {F}.
Arguments m_StreamOutOrgPos {F}.
Arguments m_Output {F}.
Arguments m_WrittenLength {F}.
Arguments m_HeaderLength {F}.
Arguments m_NestLevelTag {F}.

Definition g_XML_Header : list Z := str "<?xml version=" ++ [c_quot] ++ str "1.0" ++ [c_quot] ++ str " encoding=" ++ [c_quot] ++ str "utf-8" ++ [c_quot] ++ str " ?>".

Section Composer.
Context {F : Type} `{File F}.
Local Abbreviation composer := (XMLComposer F).

Definition with_nest (s : composer) (tag : option (list Z)) (depth : Z) (nest : list _TagCache) : composer :=
  mkComposer tag depth (m_pStreamOut s) (m_StreamOutOrgPos s) (m_Output s) (m_WrittenLength s) (m_HeaderLength s) nest.
Definition with_output (s : composer) (t : list Z) : composer :=
  mkComposer (_EnteringNodeTag s) (_DepthMax s) (m_pStreamOut s) (m_StreamOutOrgPos s) t (m_WrittenLength s) (m_HeaderLength s) (m_NestLevelTag s).
Definition with_stream (s : composer) (f : F) (written : Z) : composer :=
  mkComposer (_EnteringNodeTag s) (_DepthMax s) (Some f) (m_StreamOutOrgPos s) (m_Output s) written (m_HeaderLength s) (m_NestLevelTag s).
Definition with_header (s : composer) (l : Z) : composer :=
  mkComposer (_EnteringNodeTag s) (_DepthMax s) (m_pStreamOut s) (m_StreamOutOrgPos s) (m_Output s) (m_WrittenLength s) l (m_NestLevelTag s).

(** [Output] of a character or a text. *)
Definition Output (s : composer) (x : list Z) : option composer :=
  match m_pStreamOut s with
  | Some f => f ← file_Write f x; Some (with_stream s f (u32 (m_WrittenLength s + zlen x)))
  | None => Some (with_output s (m_Output s ++ x))
  end.
(** Of a pointer: a null one is an empty [String_Ref], and has no [strlen]. *)
Definition Output_ptr (s : composer) (x : option (list Z)) : option composer :=
  match x, m_pStreamOut s with
  | Some x, _ => Output s x
  | None, None => Some s
  | None, Some _ => None
  end.
Fixpoint Outputs (s : composer) (xs : list (list Z)) : option composer :=
  match xs with [] => Some s | x :: xs => s ← Output s x; Outputs s xs end.

Definition GetSize (s : composer) : Z := zlen (m_NestLevelTag s).
(** No count of blanks below 0: the bound of the loop would wrap. *)
Definition Linebreak (s : composer) (vary : Z) : option composer :=
  if GetSize s + vary <? 0 then None
  else Outputs s ([13] :: [10] :: repeat [32] (4 * Z.to_nat (GetSize s + vary))).

Definition GetDocumentLength (s : composer) (withHeader : bool) : Z :=
  let ret := match m_pStreamOut s with Some _ => m_WrittenLength s | None => u32 (zlen (m_Output s)) end in
  if withHeader then ret else u32 (ret - u32 (m_HeaderLength s + 2)).
(** The text from the pointer on. *)
Definition GetDocumentBuffer (s : composer) (withHeader : bool) : option (list Z) :=
  if withHeader then Some (m_Output s)
  else if m_HeaderLength s + 2 <=? zlen (m_Output s) then Some (drop (Z.to_nat (m_HeaderLength s + 2)) (m_Output s)) else None.

Definition ResetContent (s : composer) (customized_header : option (list Z)) : option composer :=
  s ← match m_pStreamOut s with
      | Some f => '(_, f) ← file_Seek f (m_StreamOutOrgPos s) Seek_Begin; Some (with_stream s f (m_WrittenLength s))
      | None => Some (with_output s [])
      end;
  let header := match customized_header with Some h => h | None => g_XML_Header end in
  s ← Output s header;
  Some (with_nest (with_header s (u32 (zlen header))) None (_DepthMax s) []).
(** The constructor sets neither the count of what was written nor the depth. *)
Definition XMLComposer_new (out_stream : option F) (written depth : Z) : option composer :=
  match out_stream with
  | Some f => '(p, f) ← file_Seek f 0 Seek_Current; ResetContent (mkComposer None depth (Some f) p [] written 0 []) None
  | None => ResetContent (mkComposer None depth None 0 [] written 0 []) None
  end.

Definition EnteringNode (s : composer) (tag : list Z) : option composer :=
  s ← Linebreak s 0;
  s ← Output s (str "<");
  s ← Output s tag;
  Some (with_nest s (Some tag) (_DepthMax s) (m_NestLevelTag s)).
Definition EnteringNodeDone (s : composer) (compact : bool) : option composer :=
  if compact then
    let d := u32 (1 + u32 (GetSize s)) in
    s ← Outputs (with_nest s (_EnteringNodeTag s) d (m_NestLevelTag s)) [str " "; str "/"; str ">"];
    Some (with_nest s None (_DepthMax s) (m_NestLevelTag s))
  else
    let nest := mkTagCache (_EnteringNodeTag s) (GetDocumentLength s true) :: m_NestLevelTag s in
    s ← Output (with_nest s (_EnteringNodeTag s) (u32 (zlen nest)) nest) (str ">");
    Some (with_nest s None (_DepthMax s) (m_NestLevelTag s)).
Definition EnterNode (s : composer) (tag : list Z) : option composer :=
  s ← EnteringNode s tag; EnteringNodeDone s false.

Definition InsertPlainText (s : composer) (text : list Z) : option composer := Outputs s (map escape_char text).
Definition SetAttribute (s : composer) (name value : option (list Z)) : option composer :=
  match _EnteringNodeTag s, name with
  | Some _, Some name =>
    s ← Outputs s [str " "; name; str "="; [c_quot]];
    s ← match value with Some v => InsertPlainText s v | None => Some s end;
    Output s [c_quot]
  | _, _ => Some s
  end.
(** The overloads for integers. *)
Definition SetAttribute_number (s : composer) (name : option (list Z)) (value : Z) : option composer :=
  SetAttribute s name (Some (decimal_signed value)).
Definition AddCData (s : composer) (cdata : option (list Z)) : option composer :=
  match cdata, _EnteringNodeTag s with
  | Some c, None => s ← Linebreak s 0; Outputs s [str "<![CDATA["; c; str "]]>"]
  | _, _ => Some s
  end.
Definition AddText (s : composer) (text : option (list Z)) : option composer :=
  match text, _EnteringNodeTag s with
  | Some t, None => InsertPlainText s t
  | _, _ => Some s
  end.

Definition ExitNode (s : composer) : option composer :=
  match m_NestLevelTag s with
  | [] => None
  | top :: rest =>
    s ← (if tag_pos top =? GetDocumentLength s true then
           s ← match m_pStreamOut s with
               | Some f => '(_, f) ← file_Seek f (-1) Seek_Current; Some (with_stream s f (u32 (m_WrittenLength s - 1)))
               | None => Some s
               end;
           Outputs s [str " "; str "/"; str ">"]
         else
           s ← (if GetSize s <? _DepthMax s then Linebreak s (-1) else Some s);
           s ← Outputs s [str "<"; str "/"];
           s ← Output_ptr s (tc_tag top);
           Output s (str ">"));
    Some (with_nest s (_EnteringNodeTag s) (_DepthMax s) rest)
  end.
Definition AppendTrail (s : composer) (text : list Z) : option composer := Output s text.

(** [AddXML]: the lines of the other document behind its header, each at the
    depth of this one.  [None] when the loop would leave the text. *)
Fixpoint leading_spaces (xml : list Z) : nat :=
  match xml with x :: t => if s8 x =? chr " " then S (leading_spaces t) else O | [] => O end.
Fixpoint FindCharacter_CR (t : list Z) : option nat :=
  match t with x :: t => if s8 x =? 13 then Some O else option_map S (FindCharacter_CR t) | [] => None end.
Fixpoint add_lines (k : nat) (s : composer) (leading : nat) (p : list Z) : option composer :=
  match k with
  | O => None
  | S k =>
    if (length p <? leading)%nat then None
    else
      let p := drop leading p in
      match FindCharacter_CR p with
      | None => s ← Linebreak s 0; Output s p
      | Some q =>
        if (length p <? q + 2)%nat then None
        else
          s ← Linebreak s 0;
          s ← Output s (take q p);
          match drop (q + 2) p with [] => Some s | nextp => add_lines k s leading nextp end
      end
  end.
Definition AddXML (s another : composer) : option composer :=
  xml ← GetDocumentBuffer another false;
  let leadingSpaces := leading_spaces xml in
  if (leadingSpaces =? length xml)%nat then Some s
  else
    s ← add_lines (S (length xml)) s leadingSpaces xml;
    Some (with_nest s (_EnteringNodeTag s) (u32 (1 + u32 (GetSize s))) (m_NestLevelTag s)).

(** Sequences of calls. *)
Inductive xop :=
| OpEnterNode (tag : list Z)
| OpEnteringNode (tag : list Z)
| OpEnteringNodeDone (compact : bool)
| OpSetAttribute (name value : option (list Z))
| OpAddText (text : option (list Z))
| OpAddCData (cdata : option (list Z))
| OpExitNode
| OpAppendTrail (text : list Z).
Definition xstep (s : composer) (o : xop) : option composer :=
  match o with
  | OpEnterNode tag => EnterNode s tag
  | OpEnteringNode tag => EnteringNode s tag
  | OpEnteringNodeDone compact => EnteringNodeDone s compact
  | OpSetAttribute name value => SetAttribute s name value
  | OpAddText text => AddText s text
  | OpAddCData cdata => AddCData s cdata
  | OpExitNode => ExitNode s
  | OpAppendTrail text => AppendTrail s text
  end.
Fixpoint xrun (s : composer) (l : list xop) : option composer :=
  match l with [] => Some s | o :: l => s ← xstep s o; xrun s l end.
End Composer.

(** ** Definitions: composing a tree *)

Inductive cnode :=
| CText (t : list Z)
| CCData (c : list Z)
| CElem (tag : list Z) (attrs : list (list Z * list Z)) (compact : bool) (kids : list cnode).

(** The calls that put a node out. *)
Fixpoint cops (x : cnode) : list xop :=
  match x with
  | CText t => [OpAddText (Some t)]
  | CCData c => [OpAddCData (Some c)]
  | CElem tag attrs compact kids =>
    OpEnteringNode tag :: map (fun nv => OpSetAttribute (Some (fst nv)) (Some (snd nv))) attrs ++
    OpEnteringNodeDone compact :: (if compact then [] else flat_map cops kids ++ [OpExitNode])
  end.
Definition is_elem (x : cnode) : bool := match x with CElem _ _ _ _ => true | _ => false end.

(** The document they make, with [d] open nodes around. *)
Definition linebreak_text (d : nat) : list Z := [13; 10] ++ repeat 32 (4 * d).
Definition cdata_text (c : list Z) : list Z := str "<![CDATA[" ++ c ++ str "]]>".
Fixpoint citems (d : nat) (x : cnode) : list xitem :=
  match x with
  | CText t => [XText (_InsertPlainText t)]
  | CCData c => [XText (linebreak_text d); XSpecial (cdata_text c)]
  | CElem tag attrs compact kids =>
    [XText (linebreak_text d);
     XElem tag (attrs_text (escaped_attrs attrs) ++ (if compact then str " " else [])) compact
       (if compact then [] else flat_map (citems (S d)) kids ++ (if existsb is_elem kids then [XText (linebreak_text d)] else []))]
  end.
Definition document (l : list cnode) : list xitem := XSpecial g_XML_Header :: flat_map (citems 0) l.

(** Its elements in document order with depth and attributes. *)
Fixpoint celems (d : nat) (x : cnode) : list (nat * list Z * list (list Z * list Z)) :=
  match x with CElem tag attrs _ kids => (d, tag, attrs) :: flat_map (celems (S d)) kids | _ => [] end.

(** Values the parser keeps whole: [kept] behind a blank. *)
Fixpoint cwf (x : cnode) : Prop :=
  match x with
  | CText t => no_nul t
  | CCData c => no_nul c /\ first_at c (str "]]>")
  | CElem tag attrs compact kids =>
    tag_ok tag /\ raw_attrs_ok attrs /\ Forall (fun nv => kept (chr " ") (snd nv) = true) attrs /\
    (if compact then kids = [] else List.fold_right (fun k P => cwf k /\ P) True kids)
  end.

(** ** Definitions: the order of calls *)

(** What the assertions ask for: whether a node is being entered, and how many
    are open. *)
Definition pstep (q : bool * nat) (o : xop) : option (bool * nat) :=
  match o, q with
  | OpEnterNode _, (false, d) => Some (false, S d)
  | OpEnteringNode _, (false, d) => Some (true, d)
  | OpEnteringNodeDone compact, (true, d) => Some (false, if compact then d else S d)
  | OpSetAttribute _ _, (true, d) => Some (true, d)
  | OpAddText _, (false, d) => Some (false, d)
  | OpAddCData _, (false, d) => Some (false, d)
  | OpExitNode, (false, S d) => Some (false, d)
  | OpAppendTrail _, (false, O) => Some (false, O)
  | _, _ => None
  end.
Fixpoint prun (q : bool * nat) (l : list xop) : option (bool * nat) :=
  match l with [] => Some q | o :: l => q ← pstep q o; prun q l end.

(** What a file does for the composer: a write goes behind what is in front of
    the position. *)
Class FileLaws (F : Type) `{File F} := {
  stream_at : F -> list Z -> Prop;
  write_at f l bs : stream_at f l -> zlen l + zlen bs < 2 ^ 32 ->
    exists f', file_Write f bs = Some f' /\ stream_at f' (l ++ bs);
  seek_here f l : stream_at f l -> exists f', file_Seek f 0 Seek_Current = Some (zlen l, f') /\ stream_at f' l;
  seek_back_here f l : stream_at f l -> exists p f', file_Seek f (zlen l) Seek_Begin = Some (p, f') /\ stream_at f' l }.

Lemma ostream_write_at (s : ostream) (l bs : list Z) : os_holds s (Some <$> l) (zlen l) -> zlen l + zlen bs < 2 ^ 32 ->
  exists s', file_Write s bs = Some s' /\ os_holds s' (Some <$> (l ++ bs)) (zlen (l ++ bs)).
Proof.
  intros Hs Hl. destruct (OStream_Write_spec s _ _ bs Hs Hl) as (s' & E & Hs' & _). exists s'.
  cbn [file_Write File_ostream]. rewrite E. split; [done|].
  rewrite Nat2Z.id, take_ge, drop_ge, app_nil_r in Hs' by (rewrite length_fmap; lia).
  rewrite length_app, Nat2Z.inj_add, fmap_app. exact Hs'.
Qed.
Lemma ostream_seek_at (s : ostream) (l : list Z) offset nFrom : os_holds s (Some <$> l) (zlen l) ->
  seek_pos (zlen l) (len (os_buf s)) offset nFrom = zlen l ->
  exists s', OStream_Seek s offset nFrom = Some (zlen l, s') /\ os_holds s' (Some <$> l) (zlen l).
Proof.
  intros (Hs & Ha & Ep & Hp & Hl) E. rewrite length_fmap in Hl. unfold OStream_Seek. rewrite Ep, E, (proj2 (Z.leb_le 0 _)) by lia.
  assert (Elen : len (os_buf s) = zlen l) by (destruct Hs as (t & _ & _ & _ & El); by rewrite length_fmap in El).
  rewrite Elen, Z.max_id. destruct (ChangeSize_room (os_buf s) (Some <$> l) (zlen l) Hs Ha) as (b & g & -> & Hb & Hab & Hg); [rewrite length_fmap; lia|].
  cbn [mbind option_bind]. rewrite u32_id by lia. eexists. split; [done|]. rewrite length_fmap in Hg.
  assert (g = []) as -> by (destruct g; [done|cbn in Hg; lia]). rewrite app_nil_r in Hb. split; [exact Hb|]. split; [exact Hab|]. cbn [os_Pos].
  rewrite length_fmap. split; [done|]. split; [lia|done].
Qed.
Lemma ostream_seek_here (s : ostream) (l : list Z) : os_holds s (Some <$> l) (zlen l) ->
  exists s', file_Seek s 0 Seek_Current = Some (zlen l, s') /\ os_holds s' (Some <$> l) (zlen l).
Proof.
  intros Hs. apply ostream_seek_at; [done|]. destruct Hs as (_ & _ & _ & _ & Hl). rewrite length_fmap in Hl.
  unfold seek_pos. cbn. rewrite s64_id; lia.
Qed.
Lemma ostream_seek_back (s : ostream) (l : list Z) : os_holds s (Some <$> l) (zlen l) ->
  exists p s', file_Seek s (zlen l) Seek_Begin = Some (p, s') /\ os_holds s' (Some <$> l) (zlen l).
Proof. intros Hs. exists (zlen l). by apply ostream_seek_at. Qed.
#[export] Instance FileLaws_ostream : FileLaws ostream := {
  stream_at s l := os_holds s (Some <$> l) (zlen l); write_at := ostream_write_at;
  seek_here := ostream_seek_here; seek_back_here := ostream_seek_back }.

(** ** Runs over memory and over a stream *)

Section Runs.
Context {F : Type} `{FileLaws F}.
Implicit Types s m : XMLComposer F.

Record proto (q : bool * nat) (m : XMLComposer F) : Prop := {
  pr_mem : m_pStreamOut m = None;
  pr_tag : q.1 = match _EnteringNodeTag m with Some _ => true | None => false end;
  pr_depth : length (m_NestLevelTag m) = q.2;
  pr_tags : Forall (fun t => tc_tag t <> None) (m_NestLevelTag m) }.
(** Every open node was entered in front of the end of the document. *)
Definition entered (m : XMLComposer F) : Prop :=
  Forall (fun t => 0 <= tag_pos t < zlen (m_Output m)) (m_NestLevelTag m).

(** Text put out to memory. *)
Definition emit m (t : list Z) : XMLComposer F := with_output m (m_Output m ++ t).
Lemma emit_emit m a b : emit (emit m a) b = emit m (a ++ b).
Proof. unfold emit. cbn. by rewrite app_assoc. Qed.

Lemma Output_mem m x : m_pStreamOut m = None -> Output m x = Some (emit m x).
Proof. unfold Output. by intros ->. Qed.
Lemma Outputs_mem xs : forall m, m_pStreamOut m = None -> Outputs m xs = Some (emit m (List.concat xs)).
Proof.
  induction xs as [|x xs IH]; intros m E; cbn [Outputs List.concat]; [destruct m; unfold emit; cbn; by rewrite app_nil_r|].
  rewrite Output_mem by done. cbn [mbind option_bind]. rewrite IH by done. by rewrite emit_emit.
Qed.

Lemma concat_repeat (x : Z) k : List.concat (repeat [x] k) = repeat x k.
Proof. induction k as [|k IH]; [done|]. cbn. by rewrite IH. Qed.
Lemma linebreak_list m vary d : GetSize m + vary = Z.of_nat d -> Linebreak m vary = Outputs m ([13] :: [10] :: repeat [32] (4 * d)).
Proof. intros E. unfold Linebreak. rewrite E, Nat2Z.id. by rewrite (proj2 (Z.ltb_ge _ 0)) by lia. Qed.
Lemma Linebreak_mem m vary d : m_pStreamOut m = None -> GetSize m + vary = Z.of_nat d ->
  Linebreak m vary = Some (emit m (linebreak_text d)).
Proof. intros Em E. rewrite (linebreak_list m vary d E), Outputs_mem by done. cbn [List.concat]. by rewrite concat_repeat. Qed.
Lemma concat_escape t : List.concat (map escape_char t) = _InsertPlainText t.
Proof. unfold _InsertPlainText. by rewrite flat_map_concat_map. Qed.

(** *** The calls over memory *)

Lemma EnteringNode_mem m tag : m_pStreamOut m = None ->
  EnteringNode m tag = Some (with_nest (emit m (linebreak_text (length (m_NestLevelTag m)) ++ str "<" ++ tag)) (Some tag) (_DepthMax m) (m_NestLevelTag m)).
Proof.
  intros E. unfold EnteringNode. rewrite (Linebreak_mem m 0 (length (m_NestLevelTag m)) E) by (unfold GetSize; lia). cbn [mbind option_bind].
  rewrite Output_mem by done. cbn [mbind option_bind]. rewrite Output_mem by done. cbn [mbind option_bind]. rewrite !emit_emit. done.
Qed.
Lemma EnteringNodeDone_mem m compact : m_pStreamOut m = None -> exists D,
  EnteringNodeDone m compact = Some (with_nest (emit m (if compact then str " />" else str ">")) None D
    (if compact then m_NestLevelTag m else mkTagCache (_EnteringNodeTag m) (u32 (zlen (m_Output m))) :: m_NestLevelTag m)) /\
  (Z.of_nat (length (m_NestLevelTag m)) + 1 < 2 ^ 32 -> D = Z.of_nat (length (m_NestLevelTag m)) + 1).
Proof.
  intros E. unfold EnteringNodeDone. destruct compact.
  - rewrite Outputs_mem by done. cbn [mbind option_bind]. eexists. split; [reflexivity|]. unfold GetSize. intros Hd.
    cbn [_DepthMax emit with_output with_nest]. rewrite !u32_id by (rewrite ?u32_id by lia; lia). lia.
  - unfold Output, GetDocumentLength. cbn [m_pStreamOut with_nest]. rewrite E. cbn [mbind option_bind length].
    eexists. split; [reflexivity|]. intros Hd. cbn [_DepthMax emit with_output with_nest]. rewrite u32_id; lia.
Qed.
Definition attribute_put (name : list Z) (value : option (list Z)) : list Z :=
  attr_text (name, match value with Some v => _InsertPlainText v | None => [] end).
Lemma SetAttribute_mem m name value tag : m_pStreamOut m = None -> _EnteringNodeTag m = Some tag ->
  SetAttribute m name value = Some (match name with Some w => emit m (attribute_put w value) | None => m end).
Proof.
  intros E Et. unfold SetAttribute. rewrite Et. destruct name as [w|]; [|done]. rewrite Outputs_mem by done. cbn [mbind option_bind List.concat].
  unfold attribute_put, attr_text. destruct value as [v|]; unfold InsertPlainText;
    [rewrite Outputs_mem by done|]; cbn [mbind option_bind]; rewrite ?concat_escape, Output_mem by done; rewrite !emit_emit; cbn [fst snd];
    rewrite app_nil_r, <- !app_assoc; done.
Qed.
Lemma AddText_mem m t : m_pStreamOut m = None -> _EnteringNodeTag m = None -> AddText m (Some t) = Some (emit m (_InsertPlainText t)).
Proof. intros E Et. unfold AddText, InsertPlainText. rewrite Et, Outputs_mem by done. by rewrite concat_escape. Qed.
Lemma AddCData_mem m c : m_pStreamOut m = None -> _EnteringNodeTag m = None ->
  AddCData m (Some c) = Some (emit m (linebreak_text (length (m_NestLevelTag m)) ++ str "<![CDATA[" ++ c ++ str "]]>")).
Proof.
  intros E Et. unfold AddCData. rewrite Et. rewrite (Linebreak_mem m 0 (length (m_NestLevelTag m)) E) by (unfold GetSize; lia).
  cbn [mbind option_bind]. rewrite Outputs_mem by done. by rewrite emit_emit.
Qed.
Lemma exit_text_mem m tag pos rest : m_pStreamOut m = None -> m_NestLevelTag m = mkTagCache (Some tag) pos :: rest ->
  (s ← (if GetSize m <? _DepthMax m then Linebreak m (-1) else Some m); s ← Outputs s [str "<"; str "/"]; s ← Output_ptr s (Some tag);
   Output s (str ">")) =
  Some (emit m ((if Z.of_nat (S (length rest)) <? _DepthMax m then linebreak_text (length rest) else []) ++ close_tag tag)).
Proof.
  intros E En. assert (El : GetSize m = Z.of_nat (S (length rest))) by (unfold GetSize; by rewrite En). rewrite El.
  assert (X : forall s, m_pStreamOut s = None ->
    (s ← Outputs s [str "<"; str "/"]; s ← Output_ptr s (Some tag); Output s (str ">")) = Some (emit s (close_tag tag))).
  { intros s Es. rewrite Outputs_mem by done. cbn [mbind option_bind]. unfold Output_ptr. rewrite Output_mem by done. cbn [mbind option_bind].
    rewrite Output_mem by done. by rewrite !emit_emit. }
  destruct (Z.of_nat (S (length rest)) <? _DepthMax m); [|cbn [mbind option_bind]; by rewrite X].
  rewrite (Linebreak_mem m (-1) (length rest) E) by lia. cbn [mbind option_bind]. rewrite X by done. by rewrite emit_emit.
Qed.
(** The end of a node; the short form only if nothing follows the mark. *)
Lemma ExitNode_mem m tag pos rest : m_pStreamOut m = None -> m_NestLevelTag m = mkTagCache (Some tag) pos :: rest -> exists t,
  ExitNode m = Some (with_nest (emit m t) (_EnteringNodeTag m) (_DepthMax m) rest) /\
  (pos <> u32 (zlen (m_Output m)) ->
   t = (if Z.of_nat (S (length rest)) <? _DepthMax m then linebreak_text (length rest) else []) ++ close_tag tag).
Proof.
  intros E En. unfold ExitNode, GetDocumentLength. rewrite En, E. cbn [tag_pos tc_tag]. destruct (Z.eqb_spec pos (u32 (zlen (m_Output m)))) as [Hp|Hp].
  - cbn [mbind option_bind]. rewrite Outputs_mem by done. eexists. split; [reflexivity|done].
  - rewrite (exit_text_mem m tag pos rest E En). eexists. split; [reflexivity|done].
Qed.

(** *** The order of calls is enough for every call to succeed *)

Lemma proto_step q q' m o : proto q m -> pstep q o = Some q' ->
  exists m' t, xstep m o = Some m' /\ m_Output m' = m_Output m ++ t /\ proto q' m'.
Proof.
  destruct q as [e d]. intros [Em Et Ed Eg] Hq. cbn [fst snd] in *. destruct (_EnteringNodeTag m) as [tag0|] eqn:E0; subst e.
  - destruct o; cbn [pstep] in Hq; try done; injection Hq as <-; cbn [xstep].
    + destruct (EnteringNodeDone_mem m compact Em) as (D & -> & _). eexists _, _. split; [done|]. split; [done|].
      split; cbn; [done|done|by destruct compact; cbn; rewrite Ed|]. destruct compact; [done|]. constructor; [by rewrite E0|done].
    + rewrite (SetAttribute_mem m name value tag0 Em E0). destruct name; eexists _, _; (split; [done|]);
        [split; [done|]|split; [by rewrite app_nil_r|]]; split; cbn; try done; by rewrite E0.
  - destruct o as [tag|tag|c|name value|[t|]|[c|]| |t]; cbn [pstep] in Hq; try done;
      [injection Hq as <-; cbn [xstep]..|destruct d as [|d]; [done|]; injection Hq as <-; cbn [xstep]|destruct d as [|d]; [|done]; injection Hq as <-; cbn [xstep]].
    + unfold EnterNode. rewrite EnteringNode_mem by done. cbn [mbind option_bind]. set (m1 := with_nest _ _ _ _).
      destruct (EnteringNodeDone_mem m1 false) as (D & -> & _); [done|]. eexists _, _. split; [done|]. split; [cbn; by rewrite <- app_assoc|].
      split; cbn; try done; [by rewrite Ed|]. by constructor.
    + rewrite EnteringNode_mem by done. eexists _, _. split; [done|]. split; [done|]. by split.
    + rewrite AddText_mem by done. eexists _, _. split; [done|]. split; [done|]. split; cbn; try done; by rewrite E0.
    + exists m, []. unfold AddText. rewrite app_nil_r. split; [done|]. split; [done|]. split; try done; by rewrite E0.
    + rewrite AddCData_mem by done. eexists _, _. split; [done|]. split; [done|]. split; cbn; try done; by rewrite E0.
    + exists m, []. unfold AddCData. rewrite app_nil_r. split; [done|]. split; [done|]. split; try done; by rewrite E0.
    + destruct (m_NestLevelTag m) as [|[[tag|] pos] rest] eqn:En; [done| |by inversion Eg].
      destruct (ExitNode_mem m tag pos rest Em En) as (t & -> & _). eexists _, _. split; [done|]. split; [done|].
      inversion_clear Eg. injection Ed as Ed. split; cbn; try done; by rewrite E0.
    + unfold AppendTrail. rewrite Output_mem by done. eexists _, _. split; [done|]. split; [done|]. split; cbn; try done; by rewrite E0.
Qed.

Lemma entered_grow m t tag D : entered m -> entered (with_nest (emit m t) tag D (m_NestLevelTag m)).
Proof. intros Hm. apply (Forall_impl _ _ _ Hm). intros x Hx. cbn. rewrite length_app. lia. Qed.
Lemma entered_push m t tag tag' D : entered m -> zlen (m_Output m) < 2 ^ 32 -> (0 < length t)%nat ->
  entered (with_nest (emit m t) tag D (mkTagCache tag' (u32 (zlen (m_Output m))) :: m_NestLevelTag m)).
Proof.
  intros Hm Hl Ht. constructor; [|exact (entered_grow m t tag D Hm)]. cbn. rewrite length_app, u32_id; lia.
Qed.

Lemma entered_step q q' m m' o : proto q m -> entered m -> pstep q o = Some q' -> xstep m o = Some m' ->
  zlen (m_Output m') < 2 ^ 32 -> entered m'.
Proof.
  destruct q as [e d]. intros [Em Et Ed Eg] He Hq. cbn [fst snd] in *. destruct (_EnteringNodeTag m) as [tag0|] eqn:E0; subst e.
  - destruct o; cbn [pstep] in Hq; try done; cbn [xstep].
    + destruct (EnteringNodeDone_mem m compact Em) as (D & -> & _). intros [= <-] Hl.
      destruct compact; [by apply entered_grow|]. cbn in Hl. rewrite length_app in Hl. apply entered_push; [done|lia|cbn; lia].
    + rewrite (SetAttribute_mem m name value tag0 Em E0). intros [= <-] _. destruct name; [|done].
      exact (entered_grow m _ (_EnteringNodeTag m) (_DepthMax m) He).
  - destruct o as [tag|tag|c|name value|[t|]|[c|]| |t]; cbn [pstep] in Hq; try done; cbn [xstep].
    + unfold EnterNode. rewrite EnteringNode_mem by done. cbn [mbind option_bind]. set (m1 := with_nest _ _ _ _).
      destruct (EnteringNodeDone_mem m1 false) as (D & -> & _); [done|]. intros [= <-] Hl. cbn [with_nest emit with_output m_Output] in Hl.
      rewrite length_app in Hl. apply (entered_push m1); [by apply entered_grow|lia|cbn; lia].
    + rewrite EnteringNode_mem by done. intros [= <-] _. by apply entered_grow.
    + rewrite AddText_mem by done. intros [= <-] _. exact (entered_grow m _ (_EnteringNodeTag m) (_DepthMax m) He).
    + unfold AddText. by intros [= <-].
    + rewrite AddCData_mem by done. intros [= <-] _. exact (entered_grow m _ (_EnteringNodeTag m) (_DepthMax m) He).
    + unfold AddCData. by intros [= <-].
    + destruct (m_NestLevelTag m) as [|[[tag|] pos] rest] eqn:En; [unfold ExitNode; by rewrite En| |by inversion Eg].
      destruct (ExitNode_mem m tag pos rest Em En) as (t & -> & _). intros [= <-] _. unfold entered in He. rewrite En in He.
      inversion_clear He as [|? ? _ Hr]. apply (Forall_impl _ _ _ Hr). intros x Hx. cbn. rewrite length_app. lia.
    + unfold AppendTrail. rewrite Output_mem by done. intros [= <-] _. exact (entered_grow m _ (_EnteringNodeTag m) (_DepthMax m) He).
Qed.

(** *** Over a stream *)

(** The stream of [s] holds [b] and what [m] has put out; the count of [s] runs
    from [w0]. *)
Record sim (b : list Z) (w0 : Z) (s m : XMLComposer F) : Prop := {
  si_stream : exists f, m_pStreamOut s = Some f /\ stream_at f (b ++ m_Output m);
  si_mem : m_pStreamOut m = None;
  si_written : m_WrittenLength s = u32 (w0 + zlen (m_Output m));
  si_tag : _EnteringNodeTag s = _EnteringNodeTag m;
  si_depth : _DepthMax s = _DepthMax m;
  si_nest : Forall2 (fun a c => tc_tag a = tc_tag c /\ tag_pos a = u32 (w0 + tag_pos c)) (m_NestLevelTag s) (m_NestLevelTag m) }.

Lemma sim_size b w0 s m : sim b w0 s m -> GetSize s = GetSize m.
Proof. intros S. unfold GetSize. by rewrite (Forall2_length _ _ _ (si_nest _ _ _ _ S)). Qed.
Lemma sim_nest b w0 s m tag D ns nm : sim b w0 s m ->
  Forall2 (fun a c => tc_tag a = tc_tag c /\ tag_pos a = u32 (w0 + tag_pos c)) ns nm -> sim b w0 (with_nest s tag D ns) (with_nest m tag D nm).
Proof. intros [H1 H2 H3 H4 H5 H6] Hn. by split. Qed.

Lemma sim_Output b w0 s m x : sim b w0 s m -> zlen b + zlen (m_Output (emit m x)) < 2 ^ 32 ->
  exists s', Output s x = Some s' /\ sim b w0 s' (emit m x).
Proof.
  intros [(f & Ef & Hf) Em Ew Et Ed En] Hl. unfold Output. rewrite Ef. cbn in Hl. rewrite length_app in Hl.
  destruct (write_at f _ x Hf) as (f' & -> & Hf'); [rewrite length_app; lia|]. cbn [mbind option_bind]. eexists. split; [done|].
  split; cbn; try done; [exists f'; by rewrite app_assoc|]. rewrite Ew, length_app. unfold u32, wrap.
  rewrite Zplus_mod_idemp_l. f_equal. lia.
Qed.
Lemma sim_Outputs b w0 xs : forall s m, sim b w0 s m -> zlen b + zlen (m_Output (emit m (List.concat xs))) < 2 ^ 32 ->
  exists s', Outputs s xs = Some s' /\ sim b w0 s' (emit m (List.concat xs)).
Proof.
  induction xs as [|x xs IH]; intros s m S Hl; cbn [Outputs List.concat] in *.
  - exists s. split; [done|]. unfold emit. rewrite app_nil_r. by destruct m.
  - rewrite <- emit_emit in Hl |- *. destruct (sim_Output b w0 s m x S) as (s1 & -> & S1).
    + cbn in Hl |- *. rewrite !length_app in *. lia.
    + cbn [mbind option_bind]. by apply IH.
Qed.
Lemma sim_Linebreak b w0 s m vary d : sim b w0 s m -> GetSize m + vary = Z.of_nat d ->
  zlen b + zlen (m_Output (emit m (linebreak_text d))) < 2 ^ 32 ->
  exists s', Linebreak s vary = Some s' /\ sim b w0 s' (emit m (linebreak_text d)).
Proof.
  intros S Ed Hl. rewrite (linebreak_list s vary d) by (by rewrite (sim_size _ _ _ _ S)).
  destruct (sim_Outputs b w0 ([13] :: [10] :: repeat [32] (4 * d)) s m S) as (s' & E & S'); cbn [List.concat] in *; rewrite concat_repeat in *; [done|].
  by exists s'.
Qed.

Ltac fits := cbn [m_Output emit with_output with_nest List.concat app] in *; rewrite ?app_nil_r in *; rewrite ?length_app in *; lia.

Lemma sim_EnteringNode b w0 s m tag : sim b w0 s m ->
  zlen b + zlen (m_Output (emit m (linebreak_text (length (m_NestLevelTag m)) ++ str "<" ++ tag))) < 2 ^ 32 ->
  exists s', EnteringNode s tag = Some s' /\
    sim b w0 s' (with_nest (emit m (linebreak_text (length (m_NestLevelTag m)) ++ str "<" ++ tag)) (Some tag) (_DepthMax m) (m_NestLevelTag m)).
Proof.
  intros S Hl. unfold EnteringNode. rewrite <- !emit_emit in Hl |- *.
  destruct (sim_Linebreak b w0 s m 0 (length (m_NestLevelTag m)) S) as (s1 & -> & S1); [unfold GetSize; lia|fits|]. cbn [mbind option_bind].
  destruct (sim_Output b w0 s1 _ (str "<") S1) as (s2 & -> & S2); [fits|]. cbn [mbind option_bind].
  destruct (sim_Output b w0 s2 _ tag S2) as (s3 & -> & S3); [fits|]. cbn [mbind option_bind]. eexists. split; [done|].
  rewrite (si_depth _ _ _ _ S3). apply (sim_nest _ _ _ _ _ _ _ _ S3), (si_nest _ _ _ _ S3).
Qed.

Lemma sim_EnteringNodeDone b w0 s m m' compact : sim b w0 s m -> EnteringNodeDone m compact = Some m' ->
  zlen b + zlen (m_Output m') < 2 ^ 32 -> exists s', EnteringNodeDone s compact = Some s' /\ sim b w0 s' m'.
Proof.
  intros S. assert (Em := si_mem _ _ _ _ S). assert (Es := sim_size _ _ _ _ S). unfold EnteringNodeDone. rewrite Es. destruct compact.
  - set (D := u32 (1 + _)). set (m1 := with_nest m _ D _). assert (S1 : sim b w0 (with_nest s (_EnteringNodeTag s) D (m_NestLevelTag s)) m1).
    { unfold m1. rewrite (si_tag _ _ _ _ S). apply (sim_nest _ _ _ _ _ _ _ _ S), (si_nest _ _ _ _ S). }
    rewrite (Outputs_mem _ m1 Em). cbn [mbind option_bind]. intros [= <-] Hl.
    destruct (sim_Outputs _ _ [str " "; str "/"; str ">"] _ _ S1) as (s2 & -> & S2); [exact Hl|]. cbn [mbind option_bind]. eexists. split; [done|].
    rewrite (si_depth _ _ _ _ S2). apply (sim_nest _ _ _ _ _ _ _ _ S2), (si_nest _ _ _ _ S2).
  - set (ns := _ :: m_NestLevelTag s). set (nm := _ :: m_NestLevelTag m).
    assert (Hn : Forall2 (fun a c => tc_tag a = tc_tag c /\ tag_pos a = u32 (w0 + tag_pos c)) ns nm).
    { constructor; [|exact (si_nest _ _ _ _ S)]. cbn [tc_tag tag_pos]. split; [exact (si_tag _ _ _ _ S)|]. unfold GetDocumentLength.
      rewrite Em, (si_written _ _ _ _ S). destruct (si_stream _ _ _ _ S) as (f & -> & _). unfold u32, wrap. by rewrite Zplus_mod_idemp_r. }
    rewrite (Forall2_length _ _ _ Hn), (si_tag _ _ _ _ S).
    assert (S1 := sim_nest _ _ _ _ (_EnteringNodeTag m) (u32 (zlen nm)) _ _ S Hn).
    rewrite Output_mem by exact Em. cbn [mbind option_bind]. intros [= <-] Hl.
    destruct (sim_Output _ _ _ _ (str ">") S1) as (s2 & -> & S2); [exact Hl|]. cbn [mbind option_bind]. eexists. split; [done|].
    rewrite (si_depth _ _ _ _ S2). apply (sim_nest _ _ _ _ _ _ _ _ S2), (si_nest _ _ _ _ S2).
Qed.

Lemma sim_attribute b w0 s m name value m' : sim b w0 s m -> SetAttribute m name value = Some m' ->
  zlen b + zlen (m_Output m') < 2 ^ 32 -> exists s', SetAttribute s name value = Some s' /\ sim b w0 s' m'.
Proof.
  intros S E Hl. destruct (_EnteringNodeTag m) as [tag|] eqn:Et.
  2: { unfold SetAttribute in *. rewrite (si_tag _ _ _ _ S), Et in *. injection E as <-. by exists s. }
  rewrite (SetAttribute_mem m name value tag (si_mem _ _ _ _ S) Et) in E. injection E as <-.
  unfold SetAttribute. rewrite (si_tag _ _ _ _ S), Et. destruct name as [w|]; [|by exists s].
  set (v := match value with Some v => map escape_char v | None => [] end).
  assert (Ev : attribute_put w value = (List.concat [str " "; w; str "="; [c_quot]] ++ List.concat v) ++ [c_quot]).
  { unfold attribute_put, attr_text, v. cbn [fst snd List.concat]. destruct value; rewrite ?concat_escape, app_nil_r, <- !app_assoc; done. }
  rewrite Ev in Hl |- *. rewrite <- !emit_emit in Hl |- *.
  destruct (sim_Outputs b w0 [str " "; w; str "="; [c_quot]] s m S) as (s1 & -> & S1); [fits|]. cbn [mbind option_bind].
  assert (X : match value with Some v => InsertPlainText s1 v | None => Some s1 end = Outputs s1 v) by (unfold v; by destruct value). rewrite X.
  destruct (sim_Outputs b w0 v s1 _ S1) as (s2 & -> & S2); [fits|]. cbn [mbind option_bind].
  apply (sim_Output b w0 s2 _ [c_quot] S2). exact Hl.
Qed.

(** The mark of an open node is never the end of the document, on a stream too. *)
Lemma sim_mark b w0 s m a c : sim b w0 s m -> tag_pos a = u32 (w0 + tag_pos c) -> 0 <= tag_pos c < zlen (m_Output m) ->
  zlen (m_Output m) < 2 ^ 32 -> tag_pos a <> GetDocumentLength s true.
Proof.
  intros S -> Hc Hl. unfold GetDocumentLength. destruct (si_stream _ _ _ _ S) as (f & -> & _). rewrite (si_written _ _ _ _ S).
  unfold u32, wrap. intros E. zlia.
Qed.

Lemma sim_ExitNode b w0 s m m' q : sim b w0 s m -> proto q m -> entered m -> ExitNode m = Some m' ->
  zlen b + zlen (m_Output m') < 2 ^ 32 -> exists s', ExitNode s = Some s' /\ sim b w0 s' m'.
Proof.
  intros S P He E Hl. assert (Em := si_mem _ _ _ _ S). destruct (m_NestLevelTag m) as [|[[tag|] pos] rest] eqn:En.
  - unfold ExitNode in E. by rewrite En in E.
  - destruct (ExitNode_mem m tag pos rest Em En) as (t & E' & Ht). rewrite E in E'. injection E' as ->.
    unfold entered in He. rewrite En in He. inversion_clear He as [|? ? Hp _]. cbn [tag_pos] in Hp.
    assert (Hm : zlen (m_Output m) < 2 ^ 32) by (cbn in Hl; rewrite length_app in Hl; lia).
    rewrite (Ht ltac:(rewrite u32_id; lia)) in *. clear Ht E t. assert (Sn := si_nest _ _ _ _ S). rewrite En in Sn.
    unfold ExitNode. destruct (m_NestLevelTag s) as [|top nest] eqn:Ens; [by inversion Sn|]. apply Forall2_cons in Sn as [[Htag Hpos] Sn].
    cbn [tc_tag tag_pos] in Htag, Hpos. rewrite (proj2 (Z.eqb_neq _ _) (sim_mark _ _ _ _ top (mkTagCache (Some tag) pos) S Hpos Hp Hm)).
    rewrite (si_depth _ _ _ _ S), (sim_size _ _ _ _ S), Htag.
    assert (Esz : GetSize m = Z.of_nat (Datatypes.S (length rest))) by (unfold GetSize; by rewrite En). rewrite Esz.
    set (lb := if _ <? _ then _ else []) in *.
    assert (L : exists s1, (if Z.of_nat (Datatypes.S (length rest)) <? _DepthMax m then Linebreak s (-1) else Some s) = Some s1 /\ sim b w0 s1 (emit m lb)).
    { unfold lb in *. destruct (Z.of_nat (Datatypes.S (length rest)) <? _DepthMax m); [apply (sim_Linebreak b w0 s m (-1) (length rest) S); [lia|fits]|].
      exists s. split; [done|]. unfold emit. rewrite app_nil_r. by destruct m. }
    destruct L as (s1 & -> & S1). cbn [mbind option_bind]. unfold close_tag in *. rewrite <- emit_emit in Hl |- *.
    change (str "</" ++ tag ++ str ">") with (List.concat [str "<"; str "/"] ++ tag ++ str ">") in *. rewrite <- !emit_emit in Hl |- *.
    destruct (sim_Outputs b w0 [str "<"; str "/"] s1 _ S1) as (s2 & -> & S2); [fits|]. cbn [mbind option_bind]. unfold Output_ptr.
    destruct (sim_Output b w0 s2 _ tag S2) as (s3 & -> & S3); [fits|]. cbn [mbind option_bind].
    destruct (sim_Output b w0 s3 _ (str ">") S3) as (s4 & -> & S4); [fits|]. cbn [mbind option_bind]. eexists. split; [done|].
    rewrite (si_depth _ _ _ _ S4), (si_tag _ _ _ _ S4). exact (sim_nest _ _ _ _ _ _ _ _ S4 Sn).
  - destruct P as [_ _ _ P]. rewrite En in P. by inversion P.
Qed.

Lemma sim_step b w0 s m m' q q' o : sim b w0 s m -> proto q m -> entered m -> pstep q o = Some q' -> xstep m o = Some m' ->
  zlen b + zlen (m_Output m') < 2 ^ 32 -> exists s', xstep s o = Some s' /\ sim b w0 s' m'.
Proof.
  intros I P He Hq. assert (Em := si_mem _ _ _ _ I). assert (Et := si_tag _ _ _ _ I). destruct o as [tag|tag|c|name value|t|c| |t]; cbn [xstep].
  - unfold EnterNode. rewrite EnteringNode_mem by done. cbn [mbind option_bind]. intros E Hl.
    destruct (sim_EnteringNode b w0 s m tag I) as (s1 & -> & I1); [|cbn [mbind option_bind]; by eapply sim_EnteringNodeDone].
    set (m1 := with_nest _ _ _ _) in E. destruct (EnteringNodeDone_mem m1 false) as (D & E' & _); [done|]. rewrite E in E'. injection E' as ->.
    unfold m1 in Hl. fits.
  - rewrite EnteringNode_mem by done. intros [= <-] Hl. by apply sim_EnteringNode.
  - by apply sim_EnteringNodeDone.
  - by apply sim_attribute.
  - unfold AddText. rewrite Et. destruct t as [t|], (_EnteringNodeTag m); try (intros [= <-] _; by exists s). unfold InsertPlainText.
    rewrite Outputs_mem by done. intros [= <-] Hl. by apply sim_Outputs.
  - destruct c as [c|]; [|intros [= <-] _; by exists s]. unfold AddCData. rewrite Et. destruct (_EnteringNodeTag m) eqn:Etm; [intros [= <-] _; by exists s|].
    rewrite (Linebreak_mem m 0 (length (m_NestLevelTag m)) Em) by (unfold GetSize; lia). cbn [mbind option_bind]. rewrite Outputs_mem by done.
    intros [= <-] Hl. destruct (sim_Linebreak b w0 s m 0 (length (m_NestLevelTag m)) I) as (s1 & -> & I1); [unfold GetSize; lia|fits|].
    cbn [mbind option_bind]. by apply sim_Outputs.
  - intros E Hl. by apply (sim_ExitNode b w0 s m m' q).
  - unfold AppendTrail. rewrite Output_mem by done. intros [= <-] Hl. by apply sim_Output.
Qed.

(** *** Runs *)

Lemma proto_run l : forall q q' m, proto q m -> prun q l = Some q' ->
  exists m' t, xrun m l = Some m' /\ m_Output m' = m_Output m ++ t /\ proto q' m'.
Proof.
  induction l as [|o l IH]; intros q q' m P; cbn [prun xrun].
  - intros [= <-]. exists m, []. by rewrite app_nil_r.
  - destruct (pstep q o) as [q1|] eqn:Eq; [|done]. cbn [mbind option_bind]. intros Hl.
    destruct (proto_step q q1 m o P Eq) as (m1 & t1 & -> & E1 & P1). cbn [mbind option_bind].
    destruct (IH q1 q' m1 P1 Hl) as (m2 & t2 & -> & E2 & P2). exists m2, (t1 ++ t2). rewrite E2, E1, app_assoc. done.
Qed.
Lemma sim_run l : forall b w0 q q' s m m', sim b w0 s m -> proto q m -> entered m -> prun q l = Some q' -> xrun m l = Some m' ->
  zlen b + zlen (m_Output m') < 2 ^ 32 -> exists s', xrun s l = Some s' /\ sim b w0 s' m' /\ entered m'.
Proof.
  induction l as [|o l IH]; intros b w0 q q' s m m' I P He; cbn [prun xrun].
  - intros _ [= <-] _. by exists s.
  - destruct (pstep q o) as [q1|] eqn:Eq; [|done]. cbn [mbind option_bind]. intros Hq Hm Hl.
    destruct (proto_step q q1 m o P Eq) as (m1 & t1 & E1 & _ & P1). rewrite E1 in Hm. cbn [mbind option_bind] in Hm.
    destruct (proto_run l q1 q' m1 P1 Hq) as (m2 & t2 & E2 & E3 & _). rewrite Hm in E2. injection E2 as <-.
    assert (Hl1 : zlen b + zlen (m_Output m1) < 2 ^ 32) by (rewrite E3, length_app in Hl; lia).
    destruct (sim_step b w0 s m m1 q q1 o I P He Eq E1 Hl1) as (s1 & -> & I1). cbn [mbind option_bind].
    apply (IH b w0 q1 q' s1 m1 m'); try done. apply (entered_step q q1 m m1 o); try done. lia.
Qed.

(** The composer over memory after its construction. *)
Definition fresh (w0 depth : Z) : XMLComposer F :=
  mkComposer None depth None 0 g_XML_Header w0 (zlen g_XML_Header) [].
Lemma new_mem w0 depth : XMLComposer_new None w0 depth = Some (fresh w0 depth).
Proof. done. Qed.
Lemma proto_fresh w0 depth : proto (false, O) (fresh w0 depth).
Proof. by split. Qed.
Lemma entered_fresh w0 depth : entered (fresh w0 depth).
Proof. by constructor. Qed.
Lemma new_stream b f w0 depth : stream_at f b -> zlen b + zlen g_XML_Header < 2 ^ 32 ->
  exists s, XMLComposer_new (Some f) w0 depth = Some s /\ sim b w0 s (fresh w0 depth).
Proof.
  intros Hf Hl. unfold XMLComposer_new. destruct (seek_here f b Hf) as (f1 & -> & Hf1). cbn [mbind option_bind].
  unfold ResetContent. cbn [m_pStreamOut m_StreamOutOrgPos]. destruct (seek_back_here f1 b Hf1) as (p & f2 & -> & Hf2). cbn [mbind option_bind].
  unfold Output. cbn [m_pStreamOut with_stream]. destruct (write_at f2 b g_XML_Header Hf2 Hl) as (f3 & -> & Hf3). cbn [mbind option_bind].
  eexists. split; [done|]. split; try done. by exists f3.
Qed.
End Runs.

(** ** Composing a tree *)

Lemma cnode_rect_list (P : cnode -> Prop) :
  (forall t, P (CText t)) -> (forall c, P (CCData c)) ->
  (forall tag attrs c kids, Forall P kids -> P (CElem tag attrs c kids)) -> forall x, P x.
Proof.
  intros H1 H2 H3. fix IH 1. intros [t|c|tag attrs c kids]; [apply H1|apply H2|apply H3].
  induction kids as [|k kids IHk]; constructor; [apply IH|exact IHk].
Qed.

Lemma xrenders_app a b : xrenders (a ++ b) = xrenders a ++ xrenders b.
Proof. apply flat_map_app. Qed.

Section Compose.
Context {F : Type} `{FileLaws F}.
Implicit Types m : XMLComposer F.

Lemma xrun_app l1 : forall m l2, xrun m (l1 ++ l2) = (m ← xrun m l1; xrun m l2).
Proof. induction l1 as [|o l1 IH]; intros m l2; cbn [app xrun]; [done|]. destruct (xstep m o); [apply IH|done]. Qed.

Lemma xrun_attributes tag attrs : forall m, m_pStreamOut m = None -> _EnteringNodeTag m = Some tag ->
  xrun m (map (fun nv => OpSetAttribute (Some (fst nv)) (Some (snd nv))) attrs) = Some (emit m (attrs_text (escaped_attrs attrs))).
Proof.
  induction attrs as [|[w v] attrs IH]; intros m Em Et; cbn [map xrun xstep fst snd]; [unfold emit; cbn; rewrite app_nil_r; by destruct m|].
  rewrite (SetAttribute_mem m _ _ tag Em Et). cbn [mbind option_bind]. rewrite IH by done. by rewrite emit_emit.
Qed.

(** What a node does to a composer over memory outside a start tag. *)
Definition composed (ops : list xop) (items : nat -> list xitem) (elem : bool) : Prop :=
  forall m, m_pStreamOut m = None -> _EnteringNodeTag m = None ->
  let d := length (m_NestLevelTag m) in
  Z.of_nat d + 1 <= zlen (m_Output m) -> zlen (m_Output m) + zlen (xrenders (items d)) < 2 ^ 32 ->
  exists D, xrun m ops = Some (with_nest (emit m (xrenders (items d))) None D (m_NestLevelTag m)) /\
    (if elem then Z.of_nat d + 1 <= D else D = _DepthMax m).

Lemma composed_nil : composed [] (fun _ => []) false.
Proof. intros m _ Et d _ _. exists (_DepthMax m). split; [|done]. destruct m. cbn in *. subst. unfold emit. cbn. by rewrite app_nil_r. Qed.

Lemma composed_list l : Forall (fun x => composed (cops x) (fun d => citems d x) (is_elem x)) l ->
  composed (flat_map cops l) (fun d => flat_map (citems d) l) (existsb is_elem l).
Proof.
  induction 1 as [|x l Hx Hl IH]; [exact composed_nil|]. intros m Em Et d Hd Hb. cbn [flat_map existsb] in *.
  rewrite xrenders_app, length_app in Hb. destruct (Hx m Em Et Hd ltac:(fold d; lia)) as (D1 & E1 & HD1). fold d in E1, HD1.
  rewrite xrun_app, E1. cbn [mbind option_bind]. set (m1 := with_nest _ _ _ _).
  destruct (IH m1 Em eq_refl) as (D2 & E2 & HD2).
  - unfold m1. cbn. rewrite length_app. fold d. lia.
  - unfold m1. cbn. rewrite length_app. fold d. lia.
  - rewrite E2. exists D2. change (length (m_NestLevelTag m1)) with d in *. split.
    + unfold m1. rewrite xrenders_app, <- emit_emit. done.
    + unfold m1 in HD2. cbn [_DepthMax with_nest] in HD2. destruct (existsb is_elem l); [by rewrite orb_true_r|]. rewrite orb_false_r.
      rewrite HD2. destruct (is_elem x); [done|]. exact HD1.
Qed.

Lemma composed_node x : composed (cops x) (fun d => citems d x) (is_elem x).
Proof.
  induction x as [t|c|tag attrs compact kids IH] using cnode_rect_list; intros m Em Et d Hd Hb; cbn [cops citems is_elem xrun xstep] in *.
  - rewrite AddText_mem by done. cbn [mbind option_bind xrenders flat_map xrender]. exists (_DepthMax m). rewrite app_nil_r. split; [|done].
    destruct m. cbn in *. by subst.
  - rewrite AddCData_mem by done. cbn [mbind option_bind xrenders flat_map xrender]. exists (_DepthMax m). rewrite app_nil_r. split; [|done].
    destruct m. cbn in *. by subst.
  - rewrite EnteringNode_mem by done. cbn [mbind option_bind]. rewrite xrun_app, (xrun_attributes tag) by done. cbn [mbind option_bind xrun xstep].
    fold d. set (m1 := emit (with_nest _ _ _ _) _). destruct (EnteringNodeDone_mem m1 compact) as (D & -> & HD); [done|]. cbn [mbind option_bind].
    change (length (m_NestLevelTag m1)) with d in HD. assert (Hd1 : Z.of_nat d + 1 < 2 ^ 32) by lia. rewrite (HD Hd1). clear D HD Hd1.
    cbn [xrenders flat_map xrender app] in Hb |- *. rewrite app_nil_r in *. unfold open_tag in Hb |- *. destruct compact.
    + exists (Z.of_nat d + 1). split; [|lia]. cbn [xrun]. unfold m1, emit, with_nest, with_output. cbn. rewrite <- !app_assoc. cbn. rewrite <- !app_assoc. cbn. done.
    + set (m2 := with_nest _ _ _ _). rewrite xrun_app.
      assert (O1 : m_Output m1 = m_Output m ++ linebreak_text d ++ str "<" ++ tag ++ attrs_text (escaped_attrs attrs)).
      { unfold m1, emit. cbn [m_Output with_nest with_output]. by rewrite <- !app_assoc. }
      assert (O2 : m_Output m2 = m_Output m1 ++ str ">") by done.
      unfold xrenders in Hb. rewrite flat_map_app in Hb. change (flat_map xrender) with xrenders in Hb. rewrite !length_app in Hb.
      change (length (str "<")) with 1%nat in Hb. change (length (str ">")) with 1%nat in Hb.
      assert (P1 : zlen (m_Output m) < zlen (m_Output m1)) by (rewrite O1, !length_app; change (length (str "<")) with 1%nat; lia).
      assert (P2 : zlen (m_Output m2) = zlen (m_Output m1) + 1) by (rewrite O2, length_app; change (length (str ">")) with 1%nat; lia).
      assert (P3 : zlen (m_Output m1) + 1 + zlen (xrenders (flat_map (citems (S d)) kids)) < 2 ^ 32).
      { rewrite O1, !length_app. change (length (str "<")) with 1%nat. lia. }
      destruct (composed_list kids IH m2 Em eq_refl) as (D & E & HD); change (length (m_NestLevelTag m2)) with (S d) in *; [lia..|].
      rewrite E. cbn [mbind option_bind xrun xstep]. set (m3 := with_nest _ _ _ _).
      assert (O3 : m_Output m3 = m_Output m2 ++ xrenders (flat_map (citems (S d)) kids)) by done.
      destruct (ExitNode_mem m3 tag (u32 (zlen (m_Output m1))) (m_NestLevelTag m) Em eq_refl) as (t & -> & Ht). cbn [mbind option_bind].
      change (_DepthMax m2) with (Z.of_nat d + 1) in HD.
      exists D. split; [|destruct (existsb is_elem kids); lia].
      rewrite Ht by (rewrite O3, length_app; rewrite !u32_id; lia). clear t Ht.
      change (_DepthMax m3) with D. change (length (m_NestLevelTag m)) with d.
      assert (Ed : (Z.of_nat (S d) <? D) = existsb is_elem kids).
      { destruct (existsb is_elem kids); [apply Z.ltb_lt; lia|apply Z.ltb_ge; lia]. }
      rewrite Ed. rewrite flat_map_app. change (flat_map xrender) with xrenders.
      assert (Ex : xrenders (if existsb is_elem kids then [XText (linebreak_text d)] else []) = if existsb is_elem kids then linebreak_text d else []).
      { destruct (existsb is_elem kids); [apply app_nil_r|done]. }
      rewrite Ex. unfold emit at 1. rewrite O3, O2, O1. unfold emit, with_nest, with_output. cbn [m_pStreamOut m_StreamOutOrgPos m_WrittenLength m_HeaderLength m_Output].
      rewrite app_nil_r, <- !app_assoc. done.
Qed.
End Compose.

(** *** The document is in the reference syntax *)

Lemma linebreak_wf d : xwf (XText (linebreak_text d)).
Proof.
  cbn. assert (A : Forall (fun x => x = 13 \/ x = 10 \/ x = 32) (linebreak_text d)).
  { unfold linebreak_text. apply Forall_app. split; [repeat constructor; tauto|]. apply List.Forall_forall. intros x Hx%repeat_spec. tauto. }
  split; apply (Forall_impl _ _ _ A); intros x [-> |[-> | ->]]; by vm_compute.
Qed.
Lemma header_wf : xwf (XSpecial g_XML_Header).
Proof.
  pose (c := str "xml version=" ++ [c_quot] ++ str "1.0" ++ [c_quot] ++ str " encoding=" ++ [c_quot] ++ str "utf-8" ++ [c_quot] ++ str " ").
  change (special (str "<?" ++ c ++ str "?>")). apply sp_inst.
  - by repeat (constructor; [vm_compute; done|]).
  - intros i Hi. change (length c) with 35%nat in Hi. do 35 (destruct i as [|i]; [vm_compute; done|]). lia.
Qed.
Lemma cdata_wf c : no_nul c -> first_at c (str "]]>") -> xwf (XSpecial (cdata_text c)).
Proof. intros H1 H2. by apply sp_cdata. Qed.
Lemma text_wf t : no_nul t -> xwf (XText (_InsertPlainText t)).
Proof.
  intros Ht. assert (A := escape_text_clean t Ht). split; apply (Forall_impl _ _ _ A); intros x (? & ? & ? & ?); done.
Qed.

Lemma symbol_clean x : symbol_char (s8 x) = true -> s8 x <> 0 /\ s8 x <> chr "<" /\ s8 x <> chr ">".
Proof.
  unfold symbol_char. intros H. rewrite !andb_true_iff, !negb_true_iff, !Z.eqb_neq in H. destruct H as ((((((H & _) & H1) & H2) & _) & _) & _).
  split; [|done]. intros E. by rewrite E in H.
Qed.
Lemma attrs_clean rl : raw_attrs_ok rl -> Forall (fun x => s8 x <> 0 /\ s8 x <> chr "<" /\ s8 x <> chr ">") (attrs_text (escaped_attrs rl)).
Proof.
  induction 1 as [|[w v] rl ([Hw _] & _ & Hv) _ IH]; [constructor|]. cbn [fst snd] in *. unfold attrs_text in *. cbn [escaped_attrs map flat_map].
  apply Forall_app. split; [|exact IH]. unfold attr_text. cbn [fst snd]. repeat (apply Forall_app; split).
  - by repeat constructor.
  - apply (Forall_impl _ _ _ Hw). intros x. apply symbol_clean.
  - by repeat constructor.
  - by repeat constructor.
  - apply (Forall_impl _ _ _ (escape_text_clean v Hv)). intros x (? & ? & ? & ?). done.
  - by repeat constructor.
Qed.
Lemma attrs_last rl : rl <> [] -> exists u, attrs_text rl = u ++ [c_quot].
Proof.
  intros Hne. destruct (exists_last Hne) as (r & [w v] & ->). unfold attrs_text. rewrite flat_map_app. cbn [flat_map]. unfold attr_text at 2. cbn [fst snd].
  exists (flat_map attr_text r ++ str " " ++ w ++ str "=" ++ [c_quot] ++ v). rewrite app_nil_r, <- !app_assoc. done.
Qed.
Lemma attrs_att_ok rl (compact : bool) : raw_attrs_ok rl -> att_ok (attrs_text (escaped_attrs rl) ++ (if compact then str " " else [])).
Proof.
  intros Hrl. assert (A : Forall (fun x => s8 x <> 0 /\ s8 x <> chr "<" /\ s8 x <> chr ">") (attrs_text (escaped_attrs rl) ++ (if compact then str " " else []))).
  { apply Forall_app. split; [by apply attrs_clean|destruct compact; by repeat constructor]. }
  unfold att_ok. split; [|split; [|split; [|split]]]; try (apply (Forall_impl _ _ _ A); tauto).
  - destruct rl as [|[w v] rl]; [by destruct compact|done].
  - destruct compact; [change (str " ") with [32]; by rewrite List.last_last|]. rewrite app_nil_r. destruct (escaped_attrs rl) as [|e er] eqn:E; [done|].
    destruct (attrs_last (e :: er)) as [u ->]; [done|]. by rewrite List.last_last.
Qed.

Lemma fold_and {A} (P : A -> Prop) l : List.fold_right (fun k Q => P k /\ Q) True l <-> Forall P l.
Proof. induction l as [|x l IH]; [done|]. cbn. by rewrite Forall_cons, IH. Qed.

Lemma citems_wf x : forall d, cwf x -> xwfs (citems d x).
Proof.
  induction x as [t|c|tag attrs compact kids IH] using cnode_rect_list; intros d Hw; cbn [cwf citems] in *.
  - constructor; [by apply text_wf|constructor].
  - constructor; [apply linebreak_wf|]. constructor; [destruct Hw; by apply cdata_wf|constructor].
  - destruct Hw as (Ht & Hrl & _ & Hk). constructor; [apply linebreak_wf|]. constructor; [|constructor]. cbn [xwf].
    split; [done|]. split; [by apply attrs_att_ok|]. destruct compact; [reflexivity|]. apply fold_and. apply fold_and in Hk. apply Forall_app. split.
    + apply Forall_flat_map, Forall_forall. intros y Hy. rewrite Forall_forall in IH, Hk. by apply IH, Hk.
    + destruct (existsb is_elem kids); [|constructor]. constructor; [apply linebreak_wf|constructor].
Qed.
Lemma document_wf l : Forall cwf l -> xwfs (document l).
Proof.
  intros Hl. constructor; [exact header_wf|]. apply Forall_flat_map. apply (Forall_impl _ _ _ Hl). intros x. apply citems_wf.
Qed.

(** *** The calls of a tree keep the order *)

Lemma prun_app l1 : forall q l2, prun q (l1 ++ l2) = (q ← prun q l1; prun q l2).
Proof. induction l1 as [|o l1 IH]; intros q l2; cbn [app prun]; [done|]. destruct (pstep q o); [apply IH|done]. Qed.
Lemma prun_node x : forall d, prun (false, d) (cops x) = Some (false, d).
Proof.
  induction x as [t|c|tag attrs compact kids IH] using cnode_rect_list; intros d; [done..|]. cbn [cops prun pstep mbind option_bind].
  rewrite prun_app.
  assert (A : prun (true, d) (map (fun nv => OpSetAttribute (Some (fst nv)) (Some (snd nv))) attrs) = Some (true, d)).
  { clear. induction attrs as [|nv attrs IH]; [done|]. exact IH. }
  rewrite A. cbn [mbind option_bind prun pstep]. destruct compact; [done|]. rewrite prun_app.
  assert (K : prun (false, S d) (flat_map cops kids) = Some (false, S d)).
  { clear A. induction IH as [|k kids Hk _ IHk]; [done|]. cbn [flat_map]. rewrite prun_app, Hk. exact IHk. }
  by rewrite K.
Qed.
Lemma prun_nodes l d : prun (false, d) (flat_map cops l) = Some (false, d).
Proof. induction l as [|x l IH]; [done|]. cbn [flat_map]. rewrite prun_app, prun_node. exact IH. Qed.

(** *** What the cursor sees *)

Definition attribute_view (n : nat) (m : mem) (before : Z) (name : list Z) (P : XMLParser) (c : XNode)
  : option (nat * list Z * option (list Z)) :=
  r ← GetAttribute n m before P c name;
  Some (Z.to_nat (GetDescendantLevel P), text m (GetNodeName c), snd r).
Definition shown (name : list Z) (e : nat * list Z * list (list Z * list Z)) : nat * list Z * option (list Z) :=
  (fst e, assoc_text name (snd e)).
(** An element as composed. *)
Definition seen_as (name : list Z) (dx : nat * xitem) (a : nat * list Z * option (list Z)) : Prop :=
  exists rl, plain_item (snd dx) rl /\ Forall (fun nv => kept (chr " ") (snd nv) = true) rl /\
    a = (fst dx, item_tag (snd dx), assoc_text name rl).

Lemma kept_behind prev t : kept (chr " ") t = true -> kept prev t = true.
Proof.
  destruct t as [|x t]; [done|]. cbn [kept]. rewrite Z.eqb_refl, andb_false_r, orb_false_r. by intros [-> ->]%andb_true_iff.
Qed.
Lemma assoc_kept name rl t : Forall (fun nv => kept (chr " ") (snd nv) = true) rl -> assoc_text name rl = Some t -> kept (chr " ") t = true.
Proof. induction 1 as [|[w v] rl H _ IH]; [done|]. cbn [assoc_text]. destruct (zlist_eqb w name); [by intros [= <-]|done]. Qed.

Lemma attribute_view_spec n m before name f rest P a : on_frames n m (f :: rest) P ->
  seen_as name (length (f :: rest), f_item f) a -> attribute_view n m before name P (node_of m f) = Some a.
Proof.
  intros Hf (rl & Hp & Hk & ->). unfold attribute_view. rewrite (get_attribute n m before f rest P rl name Hf Hp).
  cbn [mbind option_bind snd fst]. unfold GetDescendantLevel. rewrite (of_path _ _ _ _ Hf), length_map, Nat2Z.id. do 2 f_equal.
  - f_equal. apply refers_text. destruct (of_frames _ _ _ _ Hf) as [H1 _]. exact (tag_refers _ _ _ _ _ H1).
  - destruct (assoc_text name rl) as [t|] eqn:E; [|done]. cbn [option_map]. f_equal. apply squeeze_kept, kept_behind. by eapply assoc_kept.
Qed.

Lemma seen_node name x : forall k d, cwf x -> Forall2 (seen_as name) (preorders k (citems d x)) (map (shown name) (celems k x)).
Proof.
  induction x as [t|c|tag attrs compact kids IH] using cnode_rect_list; intros k d Hw; [constructor..|].
  cbn [citems celems]. unfold preorders. cbn [flat_map preorder app map]. rewrite app_nil_r. destruct Hw as (Ht & Hrl & Hv & Hk).
  constructor; [by exists attrs|]. destruct compact; [subst kids; constructor|]. apply fold_and in Hk.
  rewrite flat_map_app. assert (Y : flat_map (preorder (S k)) (if existsb is_elem kids then [XText (linebreak_text d)] else []) = []).
  { by destruct (existsb is_elem kids). }
  rewrite Y, app_nil_r. clear Y. induction kids as [|y kids IHk]; [constructor|]. cbn [flat_map]. rewrite flat_map_app, map_app.
  apply Forall_cons in IH as [IHy IH]. apply Forall_cons in Hk as [Hy Hk]. apply Forall2_app; [by apply IHy|by apply IHk].
Qed.
Lemma seen_document name l : Forall cwf l ->
  Forall2 (seen_as name) (preorders 1 (document l)) (map (shown name) (flat_map (celems 1) l)).
Proof.
  intros Hl. unfold document, preorders. cbn [flat_map preorder app]. induction Hl as [|x l Hx _ IH]; [constructor|].
  cbn [flat_map]. rewrite flat_map_app, map_app. apply Forall2_app; [by apply seen_node|exact IH].
Qed.

Section Fresh.
Context {F : Type} `{FileLaws F}.

Lemma compose_document l w0 depth : zlen (xrenders (document l)) < 2 ^ 32 ->
  exists m D, xrun (fresh (F := F) w0 depth) (flat_map cops l) = Some m /\
    m = with_nest (emit (fresh w0 depth) (xrenders (flat_map (citems 0) l))) None D [] /\ m_Output m = xrenders (document l).
Proof.
  intros Hl. assert (Ed : xrenders (document l) = g_XML_Header ++ xrenders (flat_map (citems 0) l)) by done. rewrite Ed, length_app in Hl.
  assert (C : Forall (fun x => composed (F := F) (cops x) (fun d => citems d x) (is_elem x)) l) by (apply Forall_forall; intros; apply composed_node).
  destruct (composed_list l C (fresh w0 depth) eq_refl eq_refl) as (D & -> & _); [by vm_compute|cbn [fresh m_Output m_NestLevelTag length]; lia|].
  eexists _, D. split; [done|]. split; [done|]. by rewrite Ed.
Qed.
End Fresh.

(** *** Lines at another depth *)

Definition cr_free (a : list Z) : Prop := Forall (fun x => s8 x <> 13) a.
(** No carriage return but those of the line breaks. *)
Fixpoint one_line (x : cnode) : Prop :=
  match x with
  | CText t => cr_free t
  | CCData c => cr_free c
  | CElem tag attrs _ kids =>
    cr_free tag /\ Forall (fun nv => cr_free (fst nv) /\ cr_free (snd nv)) attrs /\ List.fold_right (fun k P => one_line k /\ P) True kids
  end.

(** The lines of a text, and the same lines [d] levels deeper. *)
Inductive deeper (d : nat) : list Z -> list Z -> Prop :=
| deeper_end a : cr_free a -> deeper d a a
| deeper_line a X Y : cr_free a -> X <> [] -> deeper d X Y -> deeper d (a ++ [13; 10] ++ X) (a ++ linebreak_text d ++ Y).
Definition shifts (d : nat) (A B : list Z) : Prop := forall X Y, deeper d X Y -> deeper d (A ++ X) (B ++ Y).

Lemma shifts_same d a : cr_free a -> shifts d a a.
Proof.
  intros Ha X Y [b Hb|b X' Y' Hb Hne H]; [constructor; by apply Forall_app|]. rewrite !(app_assoc a b). constructor; [by apply Forall_app|done|done].
Qed.
Lemma shifts_app d A B A' B' : shifts d A B -> shifts d A' B' -> shifts d (A ++ A') (B ++ B').
Proof. intros H1 H2 X Y H. rewrite <- !app_assoc. apply H1, H2, H. Qed.
Lemma linebreak_add d e : linebreak_text (d + e) = linebreak_text d ++ repeat 32 (4 * e).
Proof. unfold linebreak_text. rewrite <- app_assoc, <- repeat_app. do 2 f_equal. lia. Qed.
Lemma shifts_break d e A B : shifts d A B -> A <> [] -> shifts d (linebreak_text e ++ A) (linebreak_text (d + e) ++ B).
Proof.
  intros H Hne X Y HX. rewrite linebreak_add. unfold linebreak_text at 1. rewrite <- !app_assoc.
  apply (deeper_line d [] (repeat 32 (4 * e) ++ A ++ X)); [constructor| |].
  - destruct (repeat 32 (4 * e)); [|done]. by destruct A.
  - apply shifts_same; [|by apply H]. apply Forall_forall. intros x Hx%list_elem_of_In%repeat_spec. by subst.
Qed.

Lemma cr_free_escape t : cr_free t -> cr_free (_InsertPlainText t).
Proof.
  induction 1 as [|x t Hx _ IH]; [constructor|]. apply Forall_app. split; [|exact IH]. unfold escape_char.
  repeat (case_match; [by repeat constructor|]). by repeat constructor.
Qed.
Lemma cr_free_attrs attrs : Forall (fun nv => cr_free (fst nv) /\ cr_free (snd nv)) attrs -> cr_free (attrs_text (escaped_attrs attrs)).
Proof.
  induction 1 as [|[w v] attrs [Hw Hv] _ IH]; [constructor|]. apply Forall_app. split; [|exact IH]. unfold attr_text. cbn [fst snd] in *.
  repeat (apply Forall_app; split); try done; try (by repeat constructor). by apply cr_free_escape.
Qed.

(** A node behind its line break. *)
Definition node_body (e : nat) (x : cnode) : list Z :=
  match x with CText _ => xrenders (citems e x) | _ => xrenders (tail (citems e x)) end.
Lemma body_break e x : xrenders (citems e x) = (match x with CText _ => [] | _ => linebreak_text e end) ++ node_body e x.
Proof. by destruct x. Qed.

Lemma shifts_node d x : forall e, one_line x -> shifts d (node_body e x) (node_body (d + e) x) /\
  shifts d (xrenders (citems e x)) (xrenders (citems (d + e) x)).
Proof.
  induction x as [t|c|tag attrs compact kids IH] using cnode_rect_list; intros e Hx; cbn [one_line] in Hx.
  - assert (S : shifts d (_InsertPlainText t) (_InsertPlainText t)) by (by apply shifts_same, cr_free_escape).
    unfold node_body, xrenders. cbn [citems flat_map xrender]. by rewrite app_nil_r.
  - assert (S : shifts d (cdata_text c) (cdata_text c)).
    { apply shifts_same. unfold cdata_text. repeat (apply Forall_app; split); [by repeat constructor|done|by repeat constructor]. }
    unfold node_body, xrenders. cbn [citems flat_map xrender tail]. rewrite app_nil_r. split; [done|]. by apply shifts_break.
  - assert (S : shifts d (node_body e (CElem tag attrs compact kids)) (node_body (d + e) (CElem tag attrs compact kids))).
    2: { split; [done|]. rewrite !body_break. by apply shifts_break. }
    destruct Hx as (Ht & Ha & Hk). unfold node_body. cbn [citems tail]. unfold xrenders. cbn [flat_map xrender]. rewrite !app_nil_r. apply shifts_app.
    { apply shifts_same. unfold open_tag. repeat (apply Forall_app; split); try done; try (by repeat constructor);
        [by apply cr_free_attrs|destruct compact; by repeat constructor|destruct compact; by repeat constructor]. }
    destruct compact; [apply shifts_same; constructor|]. rewrite !flat_map_app, <- !app_assoc. apply shifts_app.
    + apply fold_and in Hk. clear Ha. induction kids as [|k kids IHk]; [apply shifts_same; constructor|]. cbn [flat_map].
      rewrite !flat_map_app. apply Forall_cons in IH as [IH0 IH]. apply Forall_cons in Hk as [Hk0 Hk]. apply shifts_app; [|by apply IHk].
      assert (X := IH0 (S e) Hk0). rewrite Nat.add_succ_r in X. apply X.
    + assert (C : shifts d (close_tag tag) (close_tag tag)).
      { apply shifts_same. unfold close_tag. repeat (apply Forall_app; split); try done; by repeat constructor. }
      destruct (existsb is_elem kids); [|exact C]. cbn [flat_map xrender]. rewrite !app_nil_r. by apply shifts_break.
Qed.
Lemma shifts_nodes d e l : Forall one_line l -> shifts d (xrenders (flat_map (citems e) l)) (xrenders (flat_map (citems (d + e)) l)).
Proof.
  induction 1 as [|x l Hx _ IH]; [apply shifts_same; constructor|]. cbn [flat_map]. rewrite !xrenders_app. apply shifts_app; [|exact IH].
  by apply shifts_node.
Qed.

Lemma find_cr_none a : cr_free a -> FindCharacter_CR a = None.
Proof. induction 1 as [|x a Hx _ IH]; [done|]. cbn. by rewrite (proj2 (Z.eqb_neq _ _) Hx), IH. Qed.
Lemma find_cr_at a b : cr_free a -> FindCharacter_CR (a ++ 13 :: b) = Some (length a).
Proof. induction 1 as [|x a Hx _ IH]; [done|]. cbn. by rewrite (proj2 (Z.eqb_neq _ _) Hx), IH. Qed.

Lemma add_lines_deeper {F} `{FileLaws F} d X Y : deeper d X Y -> forall k (m : XMLComposer F), m_pStreamOut m = None ->
  length (m_NestLevelTag m) = d -> (length X < k)%nat -> add_lines k m 0 X = Some (emit m (linebreak_text d ++ Y)).
Proof.
  induction 1 as [a Ha|a X Y Ha Hne HX IH]; intros k m Em Ed Hk; (destruct k as [|k]; [lia|]); cbn [add_lines];
    change (length ?x <? 0)%nat with false; cbv iota; rewrite drop_0.
  - rewrite find_cr_none by done. rewrite (Linebreak_mem m 0 d Em) by (unfold GetSize; lia). cbn [mbind option_bind].
    rewrite Output_mem by done. by rewrite emit_emit.
  - cbn [app]. rewrite find_cr_at by done. rewrite !length_app in *. cbn [length] in *. rewrite (proj2 (Nat.ltb_ge _ _)) by lia.
    rewrite (Linebreak_mem m 0 d Em) by (unfold GetSize; lia). cbn [mbind option_bind]. rewrite take_app_length.
    rewrite Output_mem by done. cbn [mbind option_bind]. rewrite drop_app_add. cbn [drop]. rewrite drop_0.
    destruct X as [|x X]; [done|]. rewrite IH by (done || (cbn in *; lia)). rewrite !emit_emit. done.
Qed.

(** ** Properties *)

(** C4: what the composer writes for a tree, the parser reads back: [Load] enters the
    first element and [EnterSucceedNode] visits every element of the tree in
    document order, each at its depth, under its name, and [GetAttribute] returns
    for any name the value that was set under it, or none - for attribute values
    of printable ASCII without a blank in front and without two blanks in a row
    ([kept]: the conversion of an attribute's text drops the other characters,
    [references_dropped]), names and texts of the syntax ([cwf]), and a document shorter
    than [2^32]. *)
Theorem compose_then_visit l w0 depth : Forall cwf l -> zlen (xrenders (document l)) < 2 ^ 32 -> flat_map (celems 1) l <> [] ->
  exists c0 c, XMLComposer_new (F := ostream) None w0 depth = Some c0 /\ xrun c0 (flat_map cops l) = Some c /\
  forall n m before user p P0 name, holds m p (m_Output c ++ [0]) -> 0 < p -> (length (m_Output c) + 1 < n)%nat ->
  exists P, Load n m before user P0 p None (-1) = Some (P, true) /\
    visit n m before user (attribute_view n m before name) (S (length (flat_map (celems 1) l))) P =
    Some (map (shown name) (flat_map (celems 1) l)).
Proof.
  intros Hw Hl Hne. destruct (compose_document (F := ostream) l w0 depth Hl) as (c & D & Hr & _ & Eo).
  exists (fresh w0 depth), c. split; [done|]. split; [done|]. rewrite Eo. intros n m before user p P0 name Hh Hp Hn.
  assert (S := seen_document name l Hw). rewrite <- (length_map (shown name)). apply load_visit with (R := seen_as name) (l := document l); try done.
  - intros f rest P a. apply attribute_view_spec.
  - by apply document_wf.
  - assert (E : xrenders (document l) ++ [0] = 60 :: tail (xrenders (document l) ++ [0])) by done. rewrite E in Hh.
    apply holds_cons_inv in Hh as [E0 _]. cbn [mem_bytes]. rewrite E0. by intros [=].
  - intros E. rewrite E in S. apply Forall2_nil_inv_l in S. by apply map_eq_nil in S.
Qed.

(** C8: a composer over a file puts out exactly what a composer over memory keeps,
    behind what the file holds, for every sequence of calls in the order the
    assertions ask for, all of which succeed. *)
Theorem stream_composer {F} `{FileLaws F} (f : F) b w0 depth ops q : prun (false, O) ops = Some q -> stream_at f b ->
  exists m0 m, XMLComposer_new (F := F) None w0 depth = Some m0 /\ xrun m0 ops = Some m /\
  (zlen b + zlen (m_Output m) < 2 ^ 32 ->
   exists s0 s f', XMLComposer_new (Some f) w0 depth = Some s0 /\ xrun s0 ops = Some s /\
     m_pStreamOut s = Some f' /\ stream_at f' (b ++ m_Output m) /\ m_WrittenLength s = u32 (w0 + zlen (m_Output m))).
Proof.
  intros Hq Hf. destruct (proto_run ops _ q (fresh w0 depth) (proto_fresh w0 depth) Hq) as (m & t & Em & Et & _).
  exists (fresh w0 depth), m. split; [done|]. split; [done|]. intros Hl. rewrite Et, length_app in Hl. cbn [fresh m_Output] in Hl.
  destruct (new_stream b f w0 depth Hf) as (s0 & -> & I); [lia|].
  destruct (sim_run ops b w0 _ q s0 _ m I (proto_fresh w0 depth) (entered_fresh w0 depth) Hq Em) as (s & Es & I' & _).
  - rewrite Et, length_app. cbn [fresh m_Output]. lia.
  - destruct (si_stream _ _ _ _ I') as (f' & E1 & E2). exists s0, s, f'. split; [done|]. split; [done|]. split; [done|]. split; [done|].
    exact (si_written _ _ _ _ I').
Qed.

(** In no state a composer over memory or over a file reaches is the end of the
    document the position where an open node was entered, so [ExitNode] never
    takes the branch that moves the file back and writes the short form. *)
Theorem exit_never_rewinds {F} `{FileLaws F} (f : F) b w0 depth ops q m s0 s : prun (false, O) ops = Some q -> stream_at f b ->
  xrun (fresh w0 depth) ops = Some m -> XMLComposer_new (Some f) w0 depth = Some s0 -> xrun s0 ops = Some s ->
  zlen b + zlen (m_Output m) < 2 ^ 32 ->
  Forall (fun t => tag_pos t <> GetDocumentLength m true) (m_NestLevelTag m) /\
  Forall (fun t => tag_pos t <> GetDocumentLength s true) (m_NestLevelTag s).
Proof.
  intros Hq Hf Em Es0 Es Hl. destruct (proto_run ops _ q (fresh w0 depth) (proto_fresh w0 depth) Hq) as (m' & t & Em' & Et & P).
  rewrite Em in Em'. injection Em' as <-. assert (Hl0 := Hl). rewrite Et, length_app in Hl0. cbn [fresh m_Output] in Hl0.
  destruct (new_stream b f w0 depth Hf) as (s1 & Es1 & I); [lia|]. rewrite Es0 in Es1. injection Es1 as <-.
  destruct (sim_run ops b w0 _ q s0 _ m I (proto_fresh w0 depth) (entered_fresh w0 depth) Hq Em Hl) as (s2 & Es2 & I' & He).
  rewrite Es in Es2. injection Es2 as <-. split.
  - apply (Forall_impl _ _ _ He). intros x Hx. unfold GetDocumentLength. rewrite (si_mem _ _ _ _ I'), u32_id; lia.
  - assert (Hn := si_nest _ _ _ _ I'). unfold entered in He. revert He. induction Hn as [|a c ns nm [_ Hac] _ IH]; constructor.
    + apply (sim_mark b w0 s m a c I' Hac); [by inversion He|lia].
    + apply IH. by inversion He.
Qed.


(** ** Witnesses *)

Definition sample_tree : list cnode :=
  [CElem (str "r") [(str "a", str "1 < 2"); (str "b-2", [])] false
     [CElem (str "e") [] true []; CElem (str "f") [(str "id", str "x & y")] false [CText (str "hi > bye")]; CCData (str "raw")]].

Lemma sample_wf : Forall cwf sample_tree.
Proof.
  assert (C : forall l, forallb (fun x => negb (s8 x =? 0)) l = true -> no_nul l).
  { intros l Hl. apply Forall_forall. intros x Hx. rewrite forallb_forall in Hl. apply list_elem_of_In in Hx.
    by apply Hl, negb_true_iff, Z.eqb_neq in Hx. }
  assert (B : forall l, forallb (fun x => (0 <=? x) && (x <? 256)) l = true -> bytes l).
  { intros l Hl. apply Forall_forall. intros x Hx. rewrite forallb_forall in Hl. apply list_elem_of_In in Hx.
    apply Hl, andb_true_iff in Hx as [H1 H2]. apply Z.leb_le in H1. apply Z.ltb_lt in H2. unfold in_width. lia. }
  assert (T : forall l, forallb (fun x => symbol_char (s8 x)) l = true -> all symbol_char l).
  { intros l Hl. apply Forall_forall. intros x Hx. rewrite forallb_forall in Hl. apply list_elem_of_In in Hx. by apply Hl. }
  assert (N : forall w v, forallb (fun x => symbol_char (s8 x)) w = true -> (0x2d <=? s8 (hd 0 w)) = true -> w <> [] ->
    forallb (fun x => (0 <=? x) && (x <? 256)) v = true -> forallb (fun x => negb (s8 x =? 0)) v = true ->
    name_ok w /\ bytes v /\ no_nul v).
  { intros w v H1 H2 H3 H4 H5. split; [|split; [by apply B|by apply C]]. split; [by apply T|]. destruct w; [done|]. left. by apply Z.leb_le. }
  constructor; [|constructor]. cbn [cwf]. unfold tag_ok, raw_attrs_ok. repeat match goal with
    | |- _ /\ _ => split
    | |- Forall _ [] => constructor
    | |- Forall _ (_ :: _) => constructor
    | |- all symbol_char _ => by apply T
    | |- name_ok _ => apply N with (v := []); by vm_compute
    | |- bytes _ => by apply B
    | |- no_nul _ => by apply C
    | |- first_at _ _ => intros i Hi; change (length (str "raw")) with 3%nat in Hi; do 3 (destruct i as [|i]; [by vm_compute|]); lia
    | |- List.fold_right _ _ _ => cbn [List.fold_right cwf]; unfold tag_ok, raw_attrs_ok
    | |- _ => by vm_compute
    end.
Qed.

Lemma compose_then_visit_witness :
  let doc := xrenders (document sample_tree) in
  exists P, Load 400 (mem_of 0 64 (doc ++ [0])) 0 None no_parser 64 None (-1) = Some (P, true) /\
    visit 400 (mem_of 0 64 (doc ++ [0])) 0 None (attribute_view 400 (mem_of 0 64 (doc ++ [0])) 0 (str "id")) 4 P =
    Some [(1%nat, str "r", None); (2%nat, str "e", None); (2%nat, str "f", Some (str "x & y"))].
Proof.
  destruct (compose_then_visit sample_tree 7 9) as (c0 & c & E0 & E & V); [exact sample_wf|vm_compute; reflexivity|discriminate|].
  injection E0 as <-. vm_compute in E. injection E as <-. apply (V 400%nat); vm_compute; (reflexivity || lia).
Defined.

Lemma ostream_init_at : stream_at (OStream_init []) [].
Proof. split; [exists []; repeat split; done || constructor|]. repeat split; done || constructor. Qed.

Lemma stream_composer_witness :
  let ops := flat_map cops sample_tree in
  exists s0 s f', XMLComposer_new (Some (OStream_init [])) 7 9 = Some s0 /\ xrun s0 ops = Some s /\
    m_pStreamOut s = Some f' /\ os_holds f' (Some <$> xrenders (document sample_tree)) (zlen (xrenders (document sample_tree))) /\
    m_WrittenLength s = 7 + zlen (xrenders (document sample_tree)).
Proof.
  destruct (stream_composer (OStream_init []) [] 7 9 (flat_map cops sample_tree) (false, O)) as (m0 & m & E0 & E & V);
    [vm_compute; reflexivity|exact ostream_init_at|].
  rewrite (new_mem (F := ostream) 7 9) in E0. apply (f_equal (fun o => match o with Some c => c | None => m0 end)) in E0. cbv beta iota in E0. subst m0.
  destruct (compose_document (F := ostream) sample_tree 7 9) as (m' & D & E' & _ & Eo); [vm_compute; reflexivity|].
  rewrite E in E'. injection E' as <-. rewrite Eo in V.
  destruct V as (s0 & s & f' & E1 & E2 & E3 & E4 & E5); [vm_compute; reflexivity|].
  exists s0, s, f'. split; [exact E1|]. split; [exact E2|]. split; [exact E3|]. split; [exact E4|].
  rewrite E5. vm_compute. reflexivity.
Defined.

(** Inside the second child. *)
Lemma exit_never_rewinds_witness :
  let ops := [OpEnterNode (str "r"); OpEnteringNode (str "e"); OpEnteringNodeDone true; OpEnterNode (str "f")] in
  exists m s0 s, xrun (fresh (F := ostream) 7 9) ops = Some m /\ XMLComposer_new (Some (OStream_init [])) 7 9 = Some s0 /\
    xrun s0 ops = Some s /\ length (m_NestLevelTag s) = 2%nat /\
    Forall (fun t => tag_pos t <> GetDocumentLength m true) (m_NestLevelTag m) /\
    Forall (fun t => tag_pos t <> GetDocumentLength s true) (m_NestLevelTag s).
Proof.
  set (ops := [OpEnterNode (str "r"); OpEnteringNode (str "e"); OpEnteringNodeDone true; OpEnterNode (str "f")]).
  assert (X : exists m s0 s, xrun (fresh (F := ostream) 7 9) ops = Some m /\ XMLComposer_new (Some (OStream_init [])) 7 9 = Some s0 /\
    xrun s0 ops = Some s /\ length (m_NestLevelTag s) = 2%nat /\ (zlen (m_Output m) <? 2 ^ 32) = true).
  { eexists _, _, _. split; [vm_compute; reflexivity|]. split; [vm_compute; reflexivity|]. split; [vm_compute; reflexivity|].
    split; vm_compute; reflexivity. }
  destruct X as (m & s0 & s & E1 & E2 & E3 & E4 & E5). exists m, s0, s. split; [exact E1|]. split; [exact E2|]. split; [exact E3|]. split; [exact E4|].
  apply (exit_never_rewinds (OStream_init []) [] 7 9 ops (false, 2%nat) m s0 s); try assumption; [vm_compute; reflexivity|exact ostream_init_at|].
  apply Z.ltb_lt in E5. cbn [length]. lia.
Defined.

