(* ===== verification/Threads.v ===== *)
(** Interleavings of threads: the steps of a thread over a shared state and its
    own, schedules, invariants along schedules and counts of threads. *)
From S2P Require Import Prelude.

Section System.
(** The shared state, the state of a thread, what a step chooses and what it
    lets be seen. *)
Context {G L C E : Type} (tstep : nat -> C -> G -> L -> option (G * L * option E)).

(** One atomic step of thread [i]. *)
Definition sys_step (i : nat) (c : C) (s : G * list L) : option (G * list L * option E) :=
  l ← s.2 !! i;
  r ← tstep i c s.1 l;
  let '(g, l, e) := r in Some (g, <[i:=l]> s.2, e).
(** A schedule: the final state and the events in order. *)
Fixpoint run (s : G * list L) (sched : list (nat * C)) : option (G * list L * list E) :=
  match sched with
  | [] => Some (s, [])
  | (i, c) :: t =>
    r ← sys_step i c s;
    let '(g, ls, e) := r in
    r ← run (g, ls) t;
    let '(s, es) := r in Some (s, match e with Some e => e :: es | None => es end)
  end.

(** Every step keeps [I]: so does every schedule. *)
Lemma run_invariant (I : G * list L -> Prop) :
  (forall i c s g ls e, I s -> sys_step i c s = Some (g, ls, e) -> I (g, ls)) ->
  forall sched s s' es, I s -> run s sched = Some (s', es) -> I s'.
Proof.
  intros HI sched. induction sched as [|[i c] t IH]; intros s s' es Hs; cbn [run]; [by intros [= <- <-]|].
  destruct (sys_step i c s) as [[[g ls] e]|] eqn:E1; [|done]. cbn [mbind option_bind].
  destruct (run (g, ls) t) as [[s1 es1]|] eqn:E2; [|done]. intros [= <- _]. by eapply IH, E2; eapply HI.
Qed.

Lemma run_app s1 : forall s s2 s' es,
  run s s1 = Some (s', es) -> run s (s1 ++ s2) = (r ← run s' s2; let '(q, e2) := r in Some (q, es ++ e2)).
Proof.
  induction s1 as [|[i c] t IH]; intros s s2 s' es; cbn [app run].
  - intros [= <- <-]. by destruct (run s s2) as [[]|].
  - destruct (sys_step i c s) as [[[g ls] e]|]; [|done]. cbn [mbind option_bind].
    destruct (run (g, ls) t) as [[s1 es1]|] eqn:E1; [|done]. cbn [mbind option_bind]. intros [= <- <-].
    rewrite (IH _ s2 _ _ E1). destruct (run s1 s2) as [[q e2]|]; cbn [mbind option_bind]; [|done]. by destruct e.
Qed.
Lemma sys_step_inv i c s g ls e : sys_step i c s = Some (g, ls, e) ->
  exists l l', s.2 !! i = Some l /\ tstep i c s.1 l = Some (g, l', e) /\ ls = <[i:=l']> s.2.
Proof.
  unfold sys_step. destruct (s.2 !! i) as [l|] eqn:El; [|done]. cbn [mbind option_bind].
  destruct (tstep i c s.1 l) as [[[g1 l1] e1]|] eqn:Et; [|done]. intros [= <- <- <-]. by exists l, l1.
Qed.
Lemma sys_step_length i c s g ls e : sys_step i c s = Some (g, ls, e) -> length ls = length s.2.
Proof. intros (l & l' & _ & _ & ->)%sys_step_inv. apply length_insert. Qed.
End System.

(** ** Counts of threads *)

Section Count.
Context {L : Type} (P : L -> bool).

Fixpoint cnt (ls : list L) : Z := match ls with [] => 0 | l :: ls => Z.b2z (P l) + cnt ls end.

Lemma cnt_range ls : 0 <= cnt ls <= Z.of_nat (length ls).
Proof. induction ls as [|l ls IH]; cbn [cnt length]; [done|]. destruct (P l); cbn [Z.b2z]; lia. Qed.
Lemma cnt_insert ls i l l' : ls !! i = Some l -> cnt (<[i:=l']> ls) = cnt ls - Z.b2z (P l) + Z.b2z (P l').
Proof.
  revert i. induction ls as [|x ls IH]; intros [|i] H; try done.
  - injection H as ->. change (<[0%nat:=l']> (l :: ls)) with (l' :: ls). cbn [cnt]. lia.
  - change (<[S i:=l']> (x :: ls)) with (x :: <[i:=l']> ls). cbn [cnt]. rewrite (IH i H). lia.
Qed.
Lemma cnt_in ls i l : ls !! i = Some l -> P l = true -> 1 <= cnt ls.
Proof.
  intros H E. assert (X := cnt_insert ls i l l H). revert i H X. induction ls as [|x ls IH]; intros [|i] H X; try done; cbn [cnt].
  - injection H as ->. rewrite E. assert (R := cnt_range ls). cbn [Z.b2z]. lia.
  - assert (R : 1 <= cnt ls) by (apply (IH i H); rewrite (cnt_insert ls i l l H); lia). destruct (P x); cbn [Z.b2z]; lia.
Qed.
Lemma cnt_two ls i j a b : ls !! i = Some a -> ls !! j = Some b -> i <> j -> P a = true -> P b = true -> 2 <= cnt ls.
Proof.
  revert i j. induction ls as [|x ls IH]; intros [|i] [|j] Hi Hj Hne Ha Hb; try done; cbn [cnt].
  - injection Hi as ->. assert (X := cnt_in ls j b Hj Hb). rewrite Ha. cbn [Z.b2z]. lia.
  - injection Hj as ->. assert (X := cnt_in ls i a Hi Ha). rewrite Hb. cbn [Z.b2z]. lia.
  - assert (X := IH i j Hi Hj ltac:(congruence) Ha Hb). destruct (P x); cbn [Z.b2z]; lia.
Qed.
Lemma cnt_missing ls i l : ls !! i = Some l -> P l = false -> cnt ls < Z.of_nat (length ls).
Proof.
  revert i. induction ls as [|x t IH]; intros [|i] H E; try done; cbn [cnt length].
  - injection H as ->. rewrite E. assert (R := cnt_range t). cbn [Z.b2z]. lia.
  - assert (R := IH i H E). destruct (P x); cbn [Z.b2z]; lia.
Qed.
Lemma cnt_none ls : Forall (fun l => P l = false) ls -> cnt ls = 0.
Proof. induction 1 as [|l ls H _ IH]; [done|]. cbn [cnt]. rewrite H, IH. done. Qed.
Lemma cnt_repeat l k : P l = false -> cnt (repeat l k) = 0.
Proof. intros H. induction k as [|k IH]; [done|]. cbn [repeat cnt]. rewrite H, IH. done. Qed.
End Count.

Lemma lookup_repeat {A} (x : A) n i : (i < n)%nat -> repeat x n !! i = Some x.
Proof. revert i. induction n as [|n IH]; intros [|i] H; [lia|lia|done|]. apply IH. lia. Qed.
