(* ===== verification/ProdCons.v ===== *)
(** [ProducerConsumerQueue] of os/multi_thread.h, lock-free with many producers
    and one consumer.  Every atomic operation is a step of its own, an assertion
    belongs to the step it is next to; the theorem holds for every
    interleaving. *)
From S2P Require Import Prelude Threads.

Abbreviation zlen l := (Z.of_nat (length l)).

Section Queue.
Context {T : Type}.

Record queue := mkQueue {
  _IndexMask : Z; _Buf : list T; _BufFin : list Z; _Count : Z; _Head : Z; _Tail : Z }.
Definition with_buf (q : queue) (b : list T) : queue := mkQueue (_IndexMask q) b (_BufFin q) (_Count q) (_Head q) (_Tail q).
Definition with_fin (q : queue) (f : list Z) : queue := mkQueue (_IndexMask q) (_Buf q) f (_Count q) (_Head q) (_Tail q).
Definition with_count (q : queue) (c : Z) : queue := mkQueue (_IndexMask q) (_Buf q) (_BufFin q) c (_Head q) (_Tail q).
Definition with_head (q : queue) (h : Z) : queue := mkQueue (_IndexMask q) (_Buf q) (_BufFin q) (_Count q) h (_Tail q).
Definition with_tail (q : queue) (t : Z) : queue := mkQueue (_IndexMask q) (_Buf q) (_BufFin q) (_Count q) (_Head q) t.

Definition GetCapacity (q : queue) : Z := u32 (zlen (_Buf q)).
(** The index masked, as a position in the buffers. *)
Definition slot (q : queue) (i : Z) : nat := Z.to_nat (i .& _IndexMask q).

(** [Reset]: the capacity rounded up to a power of two, by at most [k] rounds. *)
Fixpoint round_up (k : nat) (mask capacity : Z) : Z :=
  match k with
  | O => capacity
  | S k =>
    let high := capacity .& u32 (Z.lnot mask) in
    if high =? 0 then round_up k (mask .>> 1) capacity
    else if (capacity .& mask) =? 0 then high else u32 (high .<< 1)
  end.
Definition Reset (q : queue) (capacity : Z) (fill : T) : queue :=
  if capacity =? 0 then mkQueue (_IndexMask q) [] [] 0 0 0
  else
    let capacity := round_up 30 0x3fffffff (Z.max 2 capacity) in
    mkQueue (u32 (capacity - 1)) (repeat fill (Z.to_nat capacity)) (repeat 0 (Z.to_nat capacity)) 0 0 0.

Definition _SizeInConsumerView (q : queue) : Z :=
  let h := _Head q in let t := _Tail q in
  if h <=? t then t - h else u32 (u32 (zlen (_Buf q)) + t - h).

(** Where a thread is: a producer in [Produce], the consumer in [Head] and
    [Consume].  An assertion that fails has no result. *)
Inductive local :=
| P_idle                        (* outside, after a success, a failure or nothing *)
| P_over                        (* the count was past the capacity *)
| P_counted (first : bool)
| P_writing (pos : nat)         (* the slot is claimed *)
| P_written (pos : nat) (x : T) (* and filled *)
| C_idle (more : bool)
| C_seen                        (* there is a claimed slot *)
| C_item                        (* [Head] returned the item *)
| C_cleared
| C_popped.

(** What a step lets be seen. *)
Inductive event := Claimed (i : nat) | Finished (i : nat) (x : T) | Peeked (x : T) | Popped.

(** The steps of thread [i]; [x] is what it produces, [go] whether the consumer
    consumes the item it has or looks at it. *)
Definition qstep (i : nat) (c : T * bool) (q : queue) (l : local) : option (queue * local * option event) :=
  let '(x, go) := c in
  match l with
  | P_idle =>
    let n := s32 (_Count q + 1) in
    Some (with_count q n, if s32 (GetCapacity q) <? n then P_over else P_counted (n =? 1), None)
  | P_over => Some (with_count q (s32 (_Count q - 1)), P_idle, None)
  | P_counted _ =>
    let new_tail := u32 (_Tail q + 1) in
    let pos := slot q (u32 (new_tail - 1)) in
    f ← _BufFin q !! pos;
    if f =? 0 then Some (with_tail q new_tail, P_writing pos, Some (Claimed i)) else None
  | P_writing pos => Some (with_buf q (<[pos:=x]> (_Buf q)), P_written pos x, None)
  | P_written pos y =>
    f ← _BufFin q !! pos;
    if f =? 0 then Some (with_fin q (<[pos:=1]> (_BufFin q)), P_idle, Some (Finished i y)) else None
  | C_idle b => Some (q, if _SizeInConsumerView q =? 0 then C_idle b else C_seen, None)
  | C_seen => f ← _BufFin q !! slot q (_Head q); Some (q, if f =? 0 then C_idle false else C_item, None)
  | C_item =>
    if go then
      f ← _BufFin q !! slot q (_Head q);
      if (_SizeInConsumerView q =? 0) || (f =? 0) then None
      else Some (with_fin q (<[slot q (_Head q):=0]> (_BufFin q)), C_cleared, None)
    else y ← _Buf q !! slot q (_Head q); Some (q, C_item, Some (Peeked y))
  | C_cleared => Some (with_head q (u32 (_Head q + 1)), C_popped, Some Popped)
  | C_popped =>
    let n := s32 (_Count q - 1) in
    if n <? 0 then None else Some (with_count q n, C_idle (negb (n =? 0)), None)
  end.

(** The contract: a queue whose places are taken in order and filled by the
    thread that took them; only a filled item at the head can be seen and
    removed. *)
Inductive place := Open (i : nat) | Done (x : T).
Inductive aq_step : list place -> event -> list place -> Prop :=
| aq_claim Q i : aq_step Q (Claimed i) (Q ++ [Open i])
| aq_finish Q j i x : Q !! j = Some (Open i) -> aq_step Q (Finished i x) (<[j:=Done x]> Q)
| aq_peek Q x : aq_step (Done x :: Q) (Peeked x) (Done x :: Q)
| aq_pop Q x : aq_step (Done x :: Q) Popped Q.
Inductive aq_run : list place -> list event -> list place -> Prop :=
| aq_nil Q : aq_run Q [] Q
| aq_cons Q e Q1 es Q2 : aq_step Q e Q1 -> aq_run Q1 es Q2 -> aq_run Q (e :: es) Q2.

(** ** The capacity *)

Lemma high_part k c : (k <= 30)%nat -> 0 <= c < 2 ^ 32 ->
  c .& u32 (Z.lnot (2 ^ Z.of_nat k - 1)) = 2 ^ Z.of_nat k * (c / 2 ^ Z.of_nat k).
Proof.
  intros Hk Hc. set (e := Z.of_nat k). assert (He : 0 <= e <= 30) by lia.
  assert (E : u32 (Z.lnot (2 ^ e - 1)) = Z.shiftl (2 ^ (32 - e) - 1) e).
  { unfold Z.lnot. rewrite shl_mul by lia. assert (H32 : 2 ^ 32 = 2 ^ (32 - e) * 2 ^ e) by (rewrite <- Z.pow_add_r by lia; f_equal; lia).
    assert (P1 : 0 < 2 ^ e) by (apply Z.pow_pos_nonneg; lia). assert (P2 : 0 < 2 ^ (32 - e)) by (apply Z.pow_pos_nonneg; lia).
    unfold u32, wrap. rewrite H32. symmetry. apply (Z.mod_unique _ _ (-1)); [left|]; nia. }
  rewrite E, land_shl, shr_div, shl_mul, land_mask by lia. rewrite (Z.mod_small (c / 2 ^ e)); [lia|].
  split; [apply Z.div_pos; [lia|apply Z.pow_pos_nonneg; lia]|]. apply Z.div_lt_upper_bound; [apply Z.pow_pos_nonneg; lia|].
  rewrite <- Z.pow_add_r by lia. replace (e + (32 - e)) with 32 by lia. lia.
Qed.

(** The least power of two that is not below. *)
Lemma round_up_spec k : forall c, (k <= 30)%nat -> 2 <= c < 2 ^ (Z.of_nat k + 1) -> c <= 2 ^ 31 ->
  exists d, 1 <= d <= Z.of_nat k + 1 /\ round_up k (2 ^ Z.of_nat k - 1) c = 2 ^ d /\ 2 ^ (d - 1) < c <= 2 ^ d.
Proof.
  induction k as [|k IH]; intros c Hk Hc Hb; [cbn in Hc; lia|]. cbn [round_up]. rewrite high_part by lia.
  set (e := Z.of_nat (S k)) in *. assert (He : 1 <= e <= 30) by (unfold e; lia).
  assert (P : 0 < 2 ^ e) by (apply Z.pow_pos_nonneg; lia). assert (P2 : 2 ^ (e + 1) = 2 * 2 ^ e) by (rewrite Z.pow_add_r by lia; lia).
  assert (P3 : 2 ^ e <= 2 ^ 30) by (apply Z.pow_le_mono_r; lia).
  destruct (Z.lt_ge_cases c (2 ^ e)) as [L|L].
  - rewrite Z.div_small by lia. rewrite Z.mul_0_r, Z.eqb_refl.
    assert (Em : (2 ^ e - 1) .>> 1 = 2 ^ Z.of_nat k - 1).
    { rewrite shr_div by lia. replace e with (Z.of_nat k + 1) by (unfold e; lia). rewrite Z.pow_add_r by lia. zlia. }
    rewrite Em. destruct (IH c) as (d & H1 & H2 & H3); [lia|replace (Z.of_nat k + 1) with e by (unfold e; lia); lia|done|].
    exists d. split; [unfold e; lia|done].
  - assert (Ed : c / 2 ^ e = 1) by (symmetry; apply (Z.div_unique _ _ _ (c - 2 ^ e)); lia). rewrite Ed, Z.mul_1_r.
    rewrite (proj2 (Z.eqb_neq _ 0)) by lia. rewrite land_mask by lia.
    assert (Em : c mod 2 ^ e = c - 2 ^ e) by (symmetry; apply (Z.mod_unique _ _ 1); lia). rewrite Em.
    destruct (Z.eqb_spec (c - 2 ^ e) 0) as [E|E].
    + exists e. split; [lia|]. split; [done|]. split; [apply (Z.lt_le_trans _ (2 ^ e)); [apply Z.pow_lt_mono_r; lia|lia]|lia].
    + exists (e + 1). split; [lia|]. split; [|replace (e + 1 - 1) with e by lia; lia]. rewrite shl_mul by lia.
      rewrite P2. unfold u32, wrap. rewrite Z.mod_small; lia.
Qed.

(** ** The invariant *)

Implicit Types (q : queue) (ls : list local) (Q : list place) (l : local).

(** The position of the place [j] of the contract, the head being number [h]. *)
Definition pos (e h : Z) (j : nat) : nat := Z.to_nat ((h + Z.of_nat j) mod 2 ^ e).

Lemma pos_lt e h j : 0 <= e -> Z.of_nat (pos e h j) < 2 ^ e.
Proof. intros He. unfold pos. assert (X := Z.mod_pos_bound (h + Z.of_nat j) (2 ^ e) ltac:(by apply Z.pow_pos_nonneg)). lia. Qed.
Lemma pos_inj e h j k : 0 <= e -> Z.of_nat j < 2 ^ e -> Z.of_nat k < 2 ^ e -> pos e h j = pos e h k -> j = k.
Proof.
  intros He Hj Hk E. unfold pos in E. assert (P : 0 < 2 ^ e) by (by apply Z.pow_pos_nonneg).
  apply Z2Nat.inj in E; [|by apply Z.mod_pos_bound..].
  assert (X := Z.div_mod (h + Z.of_nat j) (2 ^ e) ltac:(lia)). assert (Y := Z.div_mod (h + Z.of_nat k) (2 ^ e) ltac:(lia)). rewrite E in X.
  set (a := (h + Z.of_nat j) / 2 ^ e) in *. set (b := (h + Z.of_nat k) / 2 ^ e) in *. clearbody a b. set (r := _ mod _) in *. clearbody r.
  assert (a = b) by (destruct (Z.lt_trichotomy a b) as [L|[L|L]]; [|done|]; exfalso; nia). subst. lia.
Qed.
Lemma pos_next e h j : pos e (h + 1) j = pos e h (S j).
Proof. unfold pos. f_equal. f_equal. lia. Qed.
Lemma pos_around e h : 0 <= e -> pos e (h + 1) (Z.to_nat (2 ^ e - 1)) = pos e h 0.
Proof.
  intros He. assert (P : 0 < 2 ^ e) by (by apply Z.pow_pos_nonneg). unfold pos. f_equal. rewrite Z2Nat.id by lia.
  replace (h + 1 + (2 ^ e - 1)) with (h + 1 * 2 ^ e) by lia. rewrite Z_mod_plus_full. f_equal. lia.
Qed.
Lemma slot_at q e z : 0 <= e <= 32 -> _IndexMask q = 2 ^ e - 1 -> slot q (u32 z) = Z.to_nat (z mod 2 ^ e).
Proof.
  intros He Hm. unfold slot. rewrite Hm. f_equal. unfold u32. rewrite land_wrap; [apply land_mask; lia|lia|].
  assert (2 ^ e <= 2 ^ 32) by (apply Z.pow_le_mono_r; lia). assert (0 < 2 ^ e) by (apply Z.pow_pos_nonneg; lia). unfold in_width. lia.
Qed.

Record shape (e h : Z) q (n : Z) : Prop := {
  s_exp : 1 <= e <= 30;
  s_mask : _IndexMask q = 2 ^ e - 1;
  s_buf : zlen (_Buf q) = 2 ^ e;
  s_fin : zlen (_BufFin q) = 2 ^ e;
  s_head : _Head q = u32 h;
  s_tail : _Tail q = u32 (h + n) }.

(** Classes of threads. *)
Definition counted l : bool := match l with P_counted _ => true | _ => false end.
Definition over l : bool := match l with P_over => true | _ => false end.
Definition popped l : bool := match l with C_popped => true | _ => false end.
Definition cleared l : bool := match l with C_cleared => true | _ => false end.
Definition consumer l : bool :=
  match l with C_idle _ | C_seen | C_item | C_cleared | C_popped => true | _ => false end.
Definition own l : option nat := match l with P_writing p | P_written p _ => Some p | _ => None end.

Record counts (e : Z) q ls (n : Z) : Prop := {
  n_count : _Count q = n + cnt counted ls + cnt over ls + cnt popped ls;
  n_room : n + cnt counted ls + cnt popped ls <= 2 ^ e;
  n_small : 2 ^ e + zlen ls + 1 < 2 ^ 31;
  n_consumer : cnt consumer ls <= 1 }.

Definition fin_of (cl : bool) Q (j : nat) : Z :=
  match Q !! j with Some (Done _) => if cl && (j =? 0)%nat then 0 else 1 | _ => 0 end.
Record content (e h : Z) (buf : list T) (fin : list Z) (cl : bool) ls Q : Prop := {
  c_fin j : Z.of_nat j < 2 ^ e -> fin !! pos e h j = Some (fin_of cl Q j);
  c_val j x : Q !! j = Some (Done x) -> buf !! pos e h j = Some x;
  c_open j i : Q !! j = Some (Open i) -> exists l, ls !! i = Some l /\ own l = Some (pos e h j);
  c_own i l p : ls !! i = Some l -> own l = Some p -> exists j, Q !! j = Some (Open i) /\ p = pos e h j;
  c_filled i p x : ls !! i = Some (P_written p x) -> buf !! p = Some x }.

(** What the consumer knows. *)
Definition knows l Q : Prop :=
  match l with
  | C_seen => Q <> []
  | C_item | C_cleared => exists x Q', Q = Done x :: Q'
  | _ => True
  end.

Record inv (e h : Z) q ls Q : Prop := {
  v_shape : shape e h q (zlen Q);
  v_counts : counts e q ls (zlen Q);
  v_content : content e h (_Buf q) (_BufFin q) (0 <? cnt cleared ls) ls Q;
  v_knows i l : ls !! i = Some l -> knows l Q }.

Lemma content_frame e h buf fin cl ls Q i l l' : content e h buf fin cl ls Q -> ls !! i = Some l -> own l' = own l ->
  (forall p x, l' = P_written p x -> buf !! p = Some x) -> content e h buf fin cl (<[i:=l']> ls) Q.
Proof.
  intros [H1 H2 H3 H4 H5] Hl Ho Hw. split; [done|done| | |].
  - intros j k Hj. destruct (H3 j k Hj) as (l0 & E1 & E2). destruct (decide (k = i)) as [->|Hne].
    + rewrite Hl in E1. injection E1 as ->. exists l'. rewrite list_lookup_insert_eq by (by eapply lookup_lt_Some). by rewrite Ho.
    + exists l0. by rewrite list_lookup_insert_ne.
  - intros k l0 p E1 E2. destruct (decide (k = i)) as [->|Hne].
    + rewrite list_lookup_insert_eq in E1 by (by eapply lookup_lt_Some). injection E1 as <-. rewrite Ho in E2. by apply (H4 i l).
    + rewrite list_lookup_insert_ne in E1 by done. by apply (H4 k l0).
  - intros k p x E. destruct (decide (k = i)) as [->|Hne].
    + rewrite list_lookup_insert_eq in E by (by eapply lookup_lt_Some). injection E as E. by apply Hw.
    + rewrite list_lookup_insert_ne in E by done. by apply (H5 k).
Qed.

Lemma knows_frame ls Q i l' : (forall k l, ls !! k = Some l -> knows l Q) -> knows l' Q ->
  forall k l, <[i:=l']> ls !! k = Some l -> knows l Q.
Proof.
  intros H H' k l E. apply list_lookup_insert_Some in E as [(-> & <- & _)|[_ E]]; [done|by apply (H k)].
Qed.

(** Only one thread is the consumer. *)
Lemma one_consumer ls i l k l0 : cnt consumer ls <= 1 -> ls !! i = Some l -> consumer l = true -> ls !! k = Some l0 -> consumer l0 = true -> k = i.
Proof.
  intros Hc Hi Hl Hk H0. destruct (decide (k = i)) as [->|Hne]; [done|]. assert (X := cnt_two consumer ls k i l0 l Hk Hi Hne H0 Hl). lia.
Qed.
Lemma cleared_other ls i l : cnt consumer ls <= 1 -> ls !! i = Some l -> consumer l = true -> cleared l = false -> cnt cleared ls = 0.
Proof.
  intros Hc Hi Hl Hcl. apply cnt_none, Forall_forall. intros x Hx. apply list_elem_of_lookup in Hx as [k Hk].
  destruct (cleared x) eqn:E; [|done]. assert (X : consumer x = true) by (by destruct x).
  assert (K := one_consumer ls i l k x Hc Hi Hl Hk X). subst k. rewrite Hi in Hk. injection Hk as ->. congruence.
Qed.

Ltac cnts Hi := rewrite ?(cnt_insert _ _ _ _ _ Hi) in *; cbn [counted over popped cleared consumer Z.b2z] in *.

(** A step that changes neither the buffers nor what is owned. *)
Lemma places_frame e h q q' ls Q i l l' : inv e h q ls Q -> ls !! i = Some l -> own l' = own l -> cleared l' = cleared l ->
  (forall p x, l' = P_written p x -> _Buf q !! p = Some x) -> knows l' Q ->
  shape e h q' (zlen Q) -> counts e q' (<[i:=l']> ls) (zlen Q) -> _Buf q' = _Buf q -> _BufFin q' = _BufFin q ->
  inv e h q' (<[i:=l']> ls) Q.
Proof.
  intros [H1 H2 H3 H4] Hi Ho Hc Hw Hk Hs Hn Eb Ef. split; [done|done| |by apply knows_frame].
  rewrite Eb, Ef, (cnt_insert _ _ _ _ _ Hi), Hc. replace (cnt cleared ls - _ + _) with (cnt cleared ls) by lia.
  by apply content_frame with (l := l).
Qed.

Section Steps.
Context (e h : Z) (q : queue) (ls : list local) (Q : list place) (i : nat).
Hypothesis I : inv e h q ls Q.

Definition good (l : local) (x : T) (go : bool) : Prop :=
  exists q' l' ev, qstep i (x, go) q l = Some (q', l', ev) /\
  exists h' Q', inv e h' q' (<[i:=l']> ls) Q' /\ match ev with None => Q' = Q | Some ev => aq_step Q ev Q' end.

(** The counts are small. *)
Lemma count_small : 0 <= _Count q < 2 ^ 31 - 1.
Proof.
  destruct I as [_ [H1 H2 H3 H4] _ _]. assert (A := cnt_range counted ls). assert (B := cnt_range over ls). assert (C := cnt_range popped ls).
  assert (cnt over ls + cnt popped ls <= zlen ls).
  { clear. induction ls as [|l t IH]; [done|]. cbn [cnt length]. destruct l; cbn [over popped Z.b2z]; lia. }
  lia.
Qed.
Lemma capacity_is : s32 (GetCapacity q) = 2 ^ e.
Proof.
  destruct I as [[E _ H _ _ _] _ _ _]. unfold GetCapacity. rewrite H. assert (2 ^ e <= 2 ^ 30) by (apply Z.pow_le_mono_r; lia).
  assert (0 < 2 ^ e) by (apply Z.pow_pos_nonneg; lia). rewrite u32_id by lia. rewrite s32_small; lia.
Qed.
Lemma places_range : zlen Q <= 2 ^ e.
Proof.
  destruct I as [_ [_ H _ _] _ _]. assert (A := cnt_range counted ls). assert (C := cnt_range popped ls). lia.
Qed.
Lemma size_zero : _SizeInConsumerView q = 0 <-> Q = [].
Proof.
  assert (R := places_range). destruct I as [[E _ Hb _ Hh Ht] _ _ _]. assert (2 ^ e <= 2 ^ 30) by (apply Z.pow_le_mono_r; lia).
  unfold _SizeInConsumerView. rewrite Hh, Ht, Hb. assert (P : 0 < 2 ^ e) by (apply Z.pow_pos_nonneg; lia). rewrite (u32_id (2 ^ e)) by lia.
  assert (Z0 : zlen Q = 0 <-> Q = []) by (destruct Q; cbn [length]; split; [done|done|lia|done]).
  rewrite <- Z0. assert (0 <= zlen Q) by lia. clear -R H P H0. set (n := zlen Q) in *. clearbody n. revert H P R. generalize (2 ^ e) as c. intros c Hc Pc R.
  assert (D := Z.div_mod h (2 ^ 32) ltac:(lia)). assert (M := Z.mod_pos_bound h (2 ^ 32) ltac:(lia)).
  unfold u32, wrap. set (hm := h mod 2 ^ 32) in *. 
  assert (T1 : (h + n) mod 2 ^ 32 = if hm + n <? 2 ^ 32 then hm + n else hm + n - 2 ^ 32).
  { destruct (Z.ltb_spec (hm + n) (2 ^ 32)); symmetry; [apply (Z.mod_unique _ _ (h / 2 ^ 32))|apply (Z.mod_unique _ _ (h / 2 ^ 32 + 1))]; lia. }
  rewrite T1. destruct (Z.ltb_spec (hm + n) (2 ^ 32)).
  - rewrite (proj2 (Z.leb_le _ _)) by lia. lia.
  - rewrite (proj2 (Z.leb_gt _ _)) by lia. replace (c + (hm + n - 2 ^ 32) - hm) with (c + n + (-1) * 2 ^ 32) by lia. rewrite Z_mod_plus_full.
    rewrite Z.mod_small by lia. lia.
Qed.
Lemma head_slot : slot q (_Head q) = pos e h 0.
Proof. destruct I as [[E Hm _ _ Hh _] _ _ _]. rewrite Hh, (slot_at q e) by (done || lia). unfold pos. do 2 f_equal. lia. Qed.

Lemma good_outside x go : ls !! i = Some P_idle -> good P_idle x go.
Proof.
  intros Hi. unfold good. cbn [qstep]. rewrite capacity_is. assert (C := count_small). rewrite s32_small by lia.
  eexists _, _, _. split; [reflexivity|]. exists h, Q. split; [|done]. destruct I as [Hs Hn Hc Hk]. destruct (Z.ltb_spec (2 ^ e) (_Count q + 1)) as [L|L].
  - apply places_frame with (q := q) (l := P_idle); try done; [by destruct Hs|]. destruct Hn. split; cbn; cnts Hi; rewrite ?length_insert; lia.
  - apply places_frame with (q := q) (l := P_idle); try done; [by destruct Hs|]. assert (A := cnt_range over ls).
    destruct Hn. split; cbn; cnts Hi; rewrite ?length_insert; lia.
Qed.
Lemma good_over x go : ls !! i = Some P_over -> good P_over x go.
Proof.
  intros Hi. unfold good. cbn [qstep]. assert (C := count_small). rewrite s32_small by lia.
  eexists _, _, _. split; [reflexivity|]. exists h, Q. split; [|done]. destruct I as [Hs Hn Hc Hk].
  apply places_frame with (q := q) (l := P_over); try done; [by destruct Hs|]. destruct Hn. split; cbn; cnts Hi; rewrite ?length_insert; lia.
Qed.

(** A place that is open is not filled, and its slot not another's. *)
Lemma pos_same j k : (j < length Q)%nat -> (k < length Q)%nat -> pos e h j = pos e h k -> j = k.
Proof. intros Hj Hk. assert (R := places_range). destruct I as [[E _ _ _ _ _] _ _ _]. apply pos_inj; lia. Qed.
Lemma fin_at j : Z.of_nat j < 2 ^ e -> _BufFin q !! pos e h j = Some (fin_of (0 <? cnt cleared ls) Q j).
Proof. apply (c_fin _ _ _ _ _ _ _ (v_content _ _ _ _ _ I)). Qed.
Lemma fin_open j k : Q !! j = Some (Open k) -> _BufFin q !! pos e h j = Some 0.
Proof.
  intros H. assert (R := places_range). assert (X := lookup_lt_Some _ _ _ H). rewrite fin_at by lia. unfold fin_of. by rewrite H.
Qed.

Lemma good_counted x go b : ls !! i = Some (P_counted b) -> good (P_counted b) x go.
Proof.
  intros Hi. unfold good. cbn [qstep]. destruct I as [Hs Hn Hc Hk]. assert (Hs2 := Hs). destruct Hs2 as [E Hm Hb Hf Hh Ht]. assert (Hn2 := Hn). destruct Hn2 as [N1 N2 N3 N4].
  assert (K1 := cnt_in counted ls i _ Hi eq_refl). assert (K2 := cnt_range popped ls). set (n := length Q) in *.
  assert (Eu : u32 (u32 (_Tail q + 1) - 1) = u32 (h + Z.of_nat n)).
  { rewrite Ht. unfold u32, wrap. rewrite Zminus_mod_idemp_l. rewrite Z.add_simpl_r. apply Z.mod_mod. lia. }
  assert (Ep : slot q (u32 (u32 (_Tail q + 1) - 1)) = pos e h n) by (rewrite Eu; rewrite (slot_at q e) by (done || lia); done).
  rewrite Ep. assert (Ef : _BufFin q !! pos e h n = Some 0).
  { rewrite fin_at by lia. unfold fin_of. by rewrite lookup_ge_None_2 by lia. }
  rewrite Ef. cbn [mbind option_bind]. rewrite Z.eqb_refl. eexists _, _, _. split; [reflexivity|].
  exists h, (Q ++ [Open i]). split; [|constructor]. assert (Lq : zlen (Q ++ [Open i]) = zlen Q + 1) by (rewrite length_app; cbn; lia).
  assert (Li := lookup_lt_Some _ _ _ Hi). split.
  - rewrite Lq. split; try done. cbn [_Tail with_tail]. rewrite Ht. unfold u32, wrap. rewrite Zplus_mod_idemp_l. f_equal. lia.
  - rewrite Lq. split; cbn; cnts Hi; rewrite ?length_insert; lia.
  - cbn [_Buf _BufFin with_tail]. cnts Hi. rewrite Z.sub_0_r, Z.add_0_r. destruct Hc as [C1 C2 C3 C4 C5].
    assert (Own : forall j k, Q !! j = Some (Open k) -> k <> i).
    { intros j k Hj ->. destruct (C3 j i Hj) as (l0 & X1 & X2). rewrite Hi in X1. injection X1 as <-. done. }
    split.
    + intros j Hj. rewrite C1 by done. f_equal. unfold fin_of. destruct (decide (j < length Q)%nat); [by rewrite lookup_app_l by lia|].
      rewrite (lookup_ge_None_2 Q) by lia. destruct (decide (j = length Q)) as [->|].
      * by rewrite list_lookup_middle.
      * by rewrite lookup_ge_None_2 by (rewrite length_app; cbn; lia).
    + intros j y Hj. apply lookup_app_Some in Hj as [Hj|[_ Hj]]; [by apply C2|]. apply list_lookup_singleton_Some in Hj as [_ [=]].
    + intros j k Hj. apply lookup_app_Some in Hj as [Hj|[X Hj]].
      * destruct (C3 j k Hj) as (l0 & Y1 & Y2). exists l0. split; [|done]. rewrite list_lookup_insert_ne; [done|]. intros ->. by eapply Own.
      * apply list_lookup_singleton_Some in Hj as [Y [= ->]]. replace j with n by (unfold n; lia). eexists. split; [by apply list_lookup_insert_eq|done].
    + intros k l0 p Hl Hp. apply list_lookup_insert_Some in Hl as [(-> & <- & _)|[_ Hl]].
      * injection Hp as <-. exists (length Q). by rewrite list_lookup_middle.
      * destruct (C4 k l0 p Hl Hp) as (j & Y1 & Y2). exists j. split; [|done]. by apply lookup_app_l_Some.
    + intros k p y Hl. apply list_lookup_insert_Some in Hl as [(_ & [=] & _)|[_ Hl]]. by apply (C5 k).
  - intros k l0 Hl. apply list_lookup_insert_Some in Hl as [(-> & <- & _)|[_ Hl]]; [done|]. assert (X := Hk k l0 Hl).
    destruct l0; cbn [knows] in *; try done; [by destruct Q|destruct X as (y & Q' & ->)..]; by eexists _, _.
Qed.

Lemma good_writing x go p : ls !! i = Some (P_writing p) -> good (P_writing p) x go.
Proof.
  intros Hi. unfold good. cbn [qstep]. eexists _, _, _. split; [reflexivity|]. exists h, Q. split; [|done]. destruct I as [Hs Hn Hc Hk].
  assert (Li := lookup_lt_Some _ _ _ Hi). assert (Hc2 := Hc). destruct Hc2 as [C1 C2 C3 C4 C5]. destruct (C4 i _ p Hi eq_refl) as (j & Hj & ->).
  assert (Lj := lookup_lt_Some _ _ _ Hj).
  assert (Lp : (pos e h j < length (_Buf q))%nat).
  { destruct Hs as [E _ Hb _ _ _]. assert (X := pos_lt e h j ltac:(lia)). lia. }
  split; [by destruct Hs; split; cbn; rewrite ?length_insert| | |by apply knows_frame].
  - destruct Hn. split; cbn; cnts Hi; rewrite ?length_insert; lia.
  - cnts Hi. rewrite Z.sub_0_r, Z.add_0_r. cbn [_Buf _BufFin with_buf]. apply content_frame with (l := P_writing (pos e h j)); [|done|done|].
    + split; [done| |done|done|].
      * intros k y Hk'. rewrite list_lookup_insert_ne; [by apply C2|]. intros Ep. apply pos_same in Ep; [|done|by eapply lookup_lt_Some]. subst. congruence.
      * intros k p y Hk'. destruct (decide (k = i)) as [->|Hne]; [congruence|]. destruct (C4 k _ p Hk' eq_refl) as (j' & Hj' & ->).
        rewrite list_lookup_insert_ne; [by apply (C5 k)|]. intros Ep. apply pos_same in Ep; [|done|by eapply lookup_lt_Some]. subst. congruence.
    + intros p y [= <- <-]. by apply list_lookup_insert_eq.
Qed.

Lemma good_written x go p y : ls !! i = Some (P_written p y) -> good (P_written p y) x go.
Proof.
  intros Hi. unfold good. cbn [qstep]. destruct I as [Hs Hn Hc Hk]. assert (Li := lookup_lt_Some _ _ _ Hi). assert (Hc2 := Hc). destruct Hc2 as [C1 C2 C3 C4 C5].
  assert (Hy := C5 i p y Hi). destruct (C4 i _ p Hi eq_refl) as (j & Hj & ->). assert (Lj := lookup_lt_Some _ _ _ Hj).
  rewrite (fin_open j i Hj). cbn [mbind option_bind]. rewrite Z.eqb_refl. eexists _, _, _. split; [reflexivity|].
  exists h, (<[j:=Done y]> Q). split; [|by constructor].
  assert (Lp : (pos e h j < length (_BufFin q))%nat).
  { destruct Hs as [E _ _ Hf _ _]. assert (X := pos_lt e h j ltac:(lia)). lia. }
  (* the head is not being removed while it is open *)
  assert (Hcl : forall b, (0 <? cnt cleared ls) && (j =? 0)%nat = true -> b = false -> False).
  { intros b [X1 X2]%andb_true_iff _. apply Z.ltb_lt in X1. apply Nat.eqb_eq in X2. subst j.
    assert (exists k l0, ls !! k = Some l0 /\ cleared l0 = true) as (k & l0 & Hl & Hcl).
    { destruct (decide (Exists (fun l => cleared l = true) ls)) as [Hex|Hno].
      - apply Exists_exists in Hex as (l0 & Hin & Hcl). apply list_elem_of_lookup in Hin as [k Hin]. by exists k, l0.
      - exfalso. rewrite cnt_none in X1; [lia|]. apply Forall_forall. intros l0 Hin. destruct (cleared l0) eqn:E0; [|done]. destruct Hno. apply Exists_exists. by exists l0. }
    assert (X := Hk k l0 Hl). destruct l0; try done. cbn [knows] in X. destruct X as (z & Q' & ->). done. }
  split.
  - rewrite length_insert. destruct Hs. split; cbn; rewrite ?length_insert; done.
  - rewrite length_insert. destruct Hn. split; cbn; cnts Hi; rewrite ?length_insert; lia.
  - cbn [_Buf _BufFin with_fin]. cnts Hi. rewrite Z.sub_0_r, Z.add_0_r. split.
    + intros k Hk'. destruct (decide (k = j)) as [->|Hne].
      * rewrite list_lookup_insert_eq by done. unfold fin_of. rewrite list_lookup_insert_eq by done.
        destruct ((0 <? cnt cleared ls) && (j =? 0)%nat) eqn:Eb; [by destruct (Hcl false)|done].
      * rewrite list_lookup_insert_ne. 2: { intros Ep. apply pos_inj in Ep; [congruence|destruct Hs; lia| |done]. assert (R := places_range). lia. }
        rewrite C1 by done. unfold fin_of. by rewrite list_lookup_insert_ne by done.
    + intros k z Hz. destruct (decide (k = j)) as [->|Hne].
      * rewrite list_lookup_insert_eq in Hz by done. by injection Hz as <-.
      * rewrite list_lookup_insert_ne in Hz by done. by apply C2.
    + intros k i' Hz. destruct (decide (k = j)) as [->|Hne]; [by rewrite list_lookup_insert_eq in Hz by done|].
      rewrite list_lookup_insert_ne in Hz by done. destruct (C3 k i' Hz) as (l0 & Y1 & Y2). exists l0. split; [|done].
      rewrite list_lookup_insert_ne; [done|]. intros ->. rewrite Hi in Y1. injection Y1 as <-. injection Y2 as Ep.
      apply pos_same in Ep; [congruence|done|by eapply lookup_lt_Some].
    + intros k l0 p Hl Hp. apply list_lookup_insert_Some in Hl as [(-> & <- & _)|[Hne Hl]]; [done|].
      destruct (C4 k l0 p Hl Hp) as (j' & Y1 & Y2). exists j'. split; [|done]. rewrite list_lookup_insert_ne; [done|]. intros ->. congruence.
    + intros k p z Hl. apply list_lookup_insert_Some in Hl as [(_ & [=] & _)|[_ Hl]]. by apply (C5 k).
  - intros k l0 Hl. apply list_lookup_insert_Some in Hl as [(-> & <- & _)|[_ Hl]]; [done|]. assert (X := Hk k l0 Hl).
    destruct l0; cbn [knows] in *; try done; [intros E; apply (f_equal length) in E; rewrite length_insert in E; by destruct Q|destruct X as (z & Q' & ->)..];
      (destruct j as [|j]; [by injection Hj|by eexists _, _]).
Qed.

(** The consumer. *)
Lemma good_cidle x go b : ls !! i = Some (C_idle b) -> good (C_idle b) x go.
Proof.
  intros Hi. unfold good. cbn [qstep]. eexists _, _, _. split; [reflexivity|]. exists h, Q. split; [|done].
  assert (Z := size_zero). assert (I2 := I). destruct I2 as [Hs Hn _ _]. assert (E : _SizeInConsumerView q = 0 \/ _SizeInConsumerView q <> 0) by lia.
  destruct E as [E|E].
  - rewrite E, Z.eqb_refl. apply places_frame with (q := q) (l := C_idle b); try done. destruct Hn. split; cnts Hi; rewrite ?length_insert; lia.
  - rewrite (proj2 (Z.eqb_neq _ _) E). apply places_frame with (q := q) (l := C_idle b); try done; [by intros EQ; apply E, Z|].
    destruct Hn. split; cnts Hi; rewrite ?length_insert; lia.
Qed.
Lemma good_seen x go : ls !! i = Some C_seen -> good C_seen x go.
Proof.
  intros Hi. unfold good. cbn [qstep]. assert (I2 := I). destruct I2 as [Hs Hn _ Hk]. assert (K := Hk i _ Hi). cbn [knows] in K.
  rewrite head_slot, fin_at by (cbn; apply Z.pow_pos_nonneg; destruct Hs; lia). cbn [mbind option_bind].
  eexists _, _, _. split; [reflexivity|]. exists h, Q. split; [|done].
  destruct (fin_of (0 <? cnt cleared ls) Q 0 =? 0) eqn:E.
  - apply places_frame with (q := q) (l := C_seen); try done. destruct Hn. split; cnts Hi; rewrite ?length_insert; lia.
  - apply places_frame with (q := q) (l := C_seen); try done.
    + cbn [knows]. destruct Q as [|[k|y] Q']; [done|done|]. by exists y, Q'.
    + destruct Hn. split; cnts Hi; rewrite ?length_insert; lia.
Qed.
Lemma head_done y Q' : Q = Done y :: Q' -> _Buf q !! slot q (_Head q) = Some y.
Proof. intros E. rewrite head_slot. apply (c_val _ _ _ _ _ _ _ (v_content _ _ _ _ _ I)). by rewrite E. Qed.
Lemma good_item x go : ls !! i = Some C_item -> good C_item x go.
Proof.
  intros Hi. unfold good. cbn [qstep]. assert (I2 := I). destruct I2 as [Hs Hn Hc Hk]. destruct (Hk i _ Hi) as (y & Q' & EQ).
  assert (Cl : cnt cleared ls = 0) by (destruct Hn; by eapply cleared_other).
  assert (He : 1 <= e <= 30) by (by destruct Hs). assert (P : 0 < 2 ^ e) by (apply Z.pow_pos_nonneg; lia).
  destruct go.
  2: { rewrite (head_done y Q' EQ). cbn [mbind option_bind]. eexists _, _, _. split; [reflexivity|]. exists h, Q. split; [|subst Q; constructor].
       apply places_frame with (q := q) (l := C_item); try done; [by exists y, Q'|]. destruct Hn. split; cnts Hi; rewrite ?length_insert; lia. }
  assert (Sz : _SizeInConsumerView q <> 0) by (rewrite size_zero; by rewrite EQ).
  rewrite head_slot, fin_at, Cl by (cbn; lia). assert (Ef : fin_of (0 <? 0) Q 0 = 1) by (unfold fin_of; by rewrite EQ).
  rewrite Ef. cbn [mbind option_bind]. rewrite (proj2 (Z.eqb_neq _ _) Sz). change (1 =? 0) with false. cbn [orb].
  eexists _, _, _. split; [reflexivity|]. exists h, Q. split; [|done]. split.
  - destruct Hs. split; cbn; rewrite ?length_insert; done.
  - destruct Hn. split; cbn; cnts Hi; rewrite ?length_insert; lia.
  - rewrite (cnt_insert _ _ _ _ _ Hi), Cl. cbn [cleared Z.b2z _Buf _BufFin with_fin]. change (0 <? 0 - 0 + 1) with true.
    rewrite Cl in Hc. change (0 <? 0) with false in Hc. apply content_frame with (l := C_item); [|done|done|done]. destruct Hc as [C1 C2 C3 C4 C5]. split; try done.
    intros j Hj. destruct (decide (j = 0%nat)) as [->|Hne].
    + rewrite list_lookup_insert_eq by (eapply lookup_lt_Some, C1; lia). unfold fin_of. by rewrite EQ.
    + rewrite list_lookup_insert_ne by (intros Ep; apply pos_inj in Ep; lia). rewrite C1 by done. unfold fin_of. rewrite (proj2 (Nat.eqb_neq _ _) Hne). by rewrite andb_false_r.
  - apply knows_frame; [done|]. by exists y, Q'.
Qed.
Lemma good_cleared x go : ls !! i = Some C_cleared -> good C_cleared x go.
Proof.
  intros Hi. unfold good. cbn [qstep]. assert (I2 := I). assert (R := places_range). destruct I2 as [Hs Hn Hc Hk]. destruct (Hk i _ Hi) as (y & Q' & EQ).
  eexists _, _, _. split; [reflexivity|]. exists (h + 1), Q'. split; [|subst Q; constructor].
  assert (He : 1 <= e <= 30) by (by destruct Hs). assert (P : 0 < 2 ^ e) by (apply Z.pow_pos_nonneg; lia).
  assert (Lq : zlen Q = zlen Q' + 1) by (rewrite EQ; cbn [length]; lia).
  assert (C1 := cnt_in cleared ls i _ Hi eq_refl). assert (Cl : cnt cleared ls = 1).
  { enough (cnt cleared (<[i:=C_popped]> ls) = 0) as X by (rewrite (cnt_insert _ _ _ _ _ Hi) in X; cbn [cleared Z.b2z] in X; lia).
    apply (cleared_other _ i C_popped); try done; [|by apply list_lookup_insert_eq; eapply lookup_lt_Some].
    destruct Hn. rewrite (cnt_insert _ _ _ _ _ Hi). cbn [consumer Z.b2z]. lia. }
  split.
  - destruct Hs. split; cbn; try done; [|by rewrite s_tail0; f_equal; lia]. rewrite s_head0. unfold u32, wrap. apply Zplus_mod_idemp_l.
  - destruct Hn. split; cbn; cnts Hi; rewrite ?length_insert; lia.
  - rewrite (cnt_insert _ _ _ _ _ Hi), Cl. cbn [cleared Z.b2z _Buf _BufFin with_head]. change (0 <? 1 - 1 + 0) with false.
    rewrite Cl in Hc. change (0 <? 1) with true in Hc. destruct Hc as [F1 F2 F3 F4 F5].
    assert (X : content e (h + 1) (_Buf q) (_BufFin q) false ls Q').
    { split; [| | | |done].
      - intros j Hj. destruct (decide (Z.of_nat j = 2 ^ e - 1)) as [Ej|Hne].
        + replace j with (Z.to_nat (2 ^ e - 1)) by lia. rewrite pos_around by lia. rewrite F1 by (cbn; lia). unfold fin_of.
          rewrite (lookup_ge_None_2 Q') by lia. by rewrite EQ.
        + rewrite pos_next, F1 by lia. unfold fin_of. rewrite EQ. cbn [lookup list_lookup]. fold (Q' !! j). by destruct (Q' !! j) as [[]|].
      - intros j z Hz. rewrite pos_next. apply F2. by rewrite EQ.
      - intros j k Hz. rewrite pos_next. apply F3. by rewrite EQ.
      - intros k l0 p Hl Hp. destruct (F4 k l0 p Hl Hp) as ([|j] & Y1 & ->); rewrite EQ in Y1; [done|]. exists j. by rewrite pos_next. }
    by apply content_frame with (l := C_cleared).
  - intros k l0 Hl. apply list_lookup_insert_Some in Hl as [(-> & <- & _)|[Hne Hl]]; [done|].
    destruct (consumer l0) eqn:Ec; [|by destruct l0]. destruct Hne. symmetry. destruct Hn. by apply (one_consumer ls i C_cleared k l0).
Qed.
Lemma good_popped x go : ls !! i = Some C_popped -> good C_popped x go.
Proof.
  intros Hi. unfold good. cbn [qstep]. assert (C := count_small). assert (I2 := I). destruct I2 as [Hs Hn _ _].
  assert (C1 := cnt_in popped ls i _ Hi eq_refl). assert (C2 := cnt_range counted ls). assert (C3 := cnt_range over ls).
  assert (0 <= _Count q - 1) by (destruct Hn; lia). rewrite s32_small by lia. rewrite (proj2 (Z.ltb_ge _ _)) by done.
  eexists _, _, _. split; [reflexivity|]. exists h, Q. split; [|done].
  apply places_frame with (q := q) (l := C_popped); try done; [by destruct Hs|]. destruct Hn. split; cbn; cnts Hi; rewrite ?length_insert; lia.
Qed.

Lemma place_step l x go : ls !! i = Some l -> good l x go.
Proof.
  destruct l; [apply good_outside|apply good_over|apply good_counted|apply good_writing|apply good_written|apply good_cidle
    |apply good_seen|apply good_item|apply good_cleared|apply good_popped].
Qed.
End Steps.

(** The start: [Reset], one consumer and [k] producers, nothing begun. *)
Definition threads (k : nat) : list local := C_idle false :: repeat P_idle k.

Lemma reset_inv q0 capacity fill k : 0 < capacity <= 2 ^ 30 -> Z.of_nat k + 2 < 2 ^ 30 ->
  exists e, inv e 0 (Reset q0 capacity fill) (threads k) [] /\ 2 ^ (e - 1) < Z.max 2 capacity <= 2 ^ e.
Proof.
  intros Hc Hk. unfold Reset. rewrite (proj2 (Z.eqb_neq _ 0)) by lia.
  destruct (round_up_spec 30 (Z.max 2 capacity) ltac:(lia) ltac:(cbn; lia) ltac:(lia)) as (d & Hd & E & H1).
  change (2 ^ Z.of_nat 30 - 1) with 0x3fffffff in E. rewrite E. exists d.
  assert (P0 : 0 < 2 ^ d) by (apply Z.pow_pos_nonneg; lia).
  assert (He : 1 <= d <= 30). { split; [lia|]. destruct (Z.le_gt_cases d 30) as [|L]; [done|]. assert (2 ^ 30 <= 2 ^ (d - 1)) by (apply Z.pow_le_mono_r; lia). lia. }
  assert (P : 2 ^ d <= 2 ^ 30) by (apply Z.pow_le_mono_r; lia).
  split; [|done]. unfold threads. split.
  - split; cbn; rewrite ?repeat_length; try done; [|lia..]. rewrite u32_id by lia. done.
  - assert (R : forall f : local -> bool, f P_idle = false -> cnt f (repeat P_idle k) = 0) by (intros f Hf; by apply cnt_repeat).
    split; cbn; rewrite ?R, ?repeat_length by done; cbn; lia.
  - cbn [cnt cleared Z.b2z]. rewrite cnt_repeat by done.
    assert (Hl : forall j l, (C_idle false :: repeat P_idle k) !! j = Some l -> own l = None).
    { intros j l Hj%list_elem_of_lookup_2. apply elem_of_cons in Hj as [->|Hj%list_elem_of_In%repeat_spec]; by subst. }
    split; try done; [| |].
    + intros j Hj. cbn. unfold fin_of. change ([] !! j) with (@None place). apply lookup_repeat. assert (X := pos_lt d 0 j ltac:(lia)). lia.
    + intros j l p Hj Hp. rewrite (Hl j l Hj) in Hp. done.
    + intros j p x Hj. by apply Hl in Hj.
  - intros j l Hj%list_elem_of_lookup_2. apply elem_of_cons in Hj as [->|Hj%list_elem_of_In%repeat_spec]; by subst.
Qed.

Lemma run_places sched : forall e h q ls Q, inv e h q ls Q -> Forall (fun s : nat * (T * bool) => (s.1 < length ls)%nat) sched ->
  exists q' ls' es h' Q', run qstep (q, ls) sched = Some (q', ls', es) /\ aq_run Q es Q' /\ inv e h' q' ls' Q'.
Proof.
  induction sched as [|[i [x go]] t IH]; intros e h q ls Q HI Hv; [exists q, ls, [], h, Q; split; [done|split; [apply aq_nil|done]]|].
  inversion_clear Hv as [|? ? Hi Ht]. cbn [fst] in Hi. destruct (lookup_lt_is_Some_2 ls i Hi) as [l Hl].
  destruct (place_step e h q ls Q i HI l x go Hl) as (q1 & l1 & ev & E & h1 & Q1 & HI1 & He).
  destruct (IH e h1 q1 (<[i:=l1]> ls) Q1 HI1) as (q2 & ls2 & es & h2 & Q2 & Er & Ha & HI2); [by rewrite length_insert|].
  exists q2, ls2, (match ev with Some ev => ev :: es | None => es end), h2, Q2. split; [|split; [|done]].
  - cbn [run]. unfold sys_step. cbn [fst snd]. rewrite Hl. cbn [mbind option_bind]. rewrite E. cbn [mbind option_bind]. rewrite Er. done.
  - destruct ev; [by econstructor|by subst].
Qed.

(** C19: every schedule of one consumer and any number of producers over a
    [ProducerConsumerQueue] runs with every assertion holding, and what it lets
    be seen is a run of the contract: places taken in order, each filled once
    by the producer that took it, the consumer seeing and removing only filled
    items at the head, never more than [GetCapacity] places taken. *)
Theorem queue_refines q0 capacity fill k sched :
  0 < capacity <= 2 ^ 30 -> Z.of_nat k + 2 < 2 ^ 30 -> Forall (fun s : nat * (T * bool) => (s.1 <= k)%nat) sched ->
  exists q ls es Q, run qstep (Reset q0 capacity fill, threads k) sched = Some (q, ls, es) /\
    aq_run [] es Q /\ zlen Q <= GetCapacity q < 2 * Z.max 2 capacity /\ capacity <= GetCapacity q.
Proof.
  intros Hc Hk Hv. destruct (reset_inv q0 capacity fill k Hc Hk) as (e & HI & Hcap).
  destruct (run_places sched e 0 _ _ [] HI) as (q & ls & es & h & Q & Er & Ha & HI').
  { eapply Forall_impl; [exact Hv|]. intros s Hs. cbn beta in *. unfold threads. cbn [length]. rewrite repeat_length. lia. }
  exists q, ls, es, Q. split; [done|]. split; [done|]. assert (R := places_range _ _ _ _ _ HI').
  assert (X : GetCapacity q = 2 ^ e).
  { destruct HI' as [[He _ Hb _ _ _] _ _ _]. assert (2 ^ e <= 2 ^ 30) by (apply Z.pow_le_mono_r; lia).
    assert (0 < 2 ^ e) by (apply Z.pow_pos_nonneg; lia). unfold GetCapacity. rewrite Hb. apply u32_id. lia. }
  assert (P2 : 2 ^ e = 2 * 2 ^ (e - 1)). { destruct HI as [[He _ _ _ _ _] _ _ _]. rewrite <- (Z.pow_succ_r 2 (e - 1)) by lia. f_equal. lia. }
  rewrite X. lia.
Qed.
End Queue.

(** Two producers race for a queue of two places and the consumer takes the
    first item although the second producer finished before the first. *)
Definition race : list (nat * (Z * bool)) :=
  [(1%nat, (7, true)); (2%nat, (8, true)); (1%nat, (7, true)); (2%nat, (8, true)); (2%nat, (8, true)); (2%nat, (8, true)); (0%nat, (0, true)); (0%nat, (0, true));
   (1%nat, (7, true)); (1%nat, (7, true)); (0%nat, (0, true)); (0%nat, (0, true)); (0%nat, (0, false)); (0%nat, (0, true)); (0%nat, (0, true)); (0%nat, (0, true))].
Definition race_run := run qstep (Reset (mkQueue 0 [] [] 0 0 0) 2 0, threads 2) race.

Lemma race_events : option_map snd race_run =
  Some [Claimed 1; Claimed 2; Finished 2 8; Finished 1 7; Peeked 7; Popped].
Proof. vm_compute. reflexivity. Qed.

Lemma queue_refines_witness : exists q ls es Q, race_run = Some (q, ls, es) /\
  aq_run [] es Q /\ zlen Q <= GetCapacity q < 2 * Z.max 2 2 /\ 2 <= GetCapacity q.
Proof. apply (queue_refines (mkQueue 0 [] [] 0 0 0) 2 0 2 race); [lia|lia|]. repeat constructor. Defined.
