(* ===== verification/Droppable.v ===== *)
(** [DroppableQueue] of os/multi_thread.h: a producer that never waits and a
    consumer, over four slots.  Every access to a shared field is a step. *)
From S2P Require Import Prelude Threads.

Abbreviation zlen l := (Z.of_nat (length l)).

Section Queue.
Context {T : Type}.

Record queue := mkQueue { _Head : Z; _Tail : Z; _Bufs : list T }.

(** The consumer: outside, or with the pointer [Consume_Begin] gave.  The
    producer: outside, with the reference of [Produce_Begin], done writing
    through it, or in [Produce_End] past its test. *)
Inductive local :=
| C_idle | C_have (p : nat)
| P_idle | P_have (p : nat) | P_filled (p : nat) (x : T) | P_keep (p : nat) (x : T).
Inductive event := Peeked (x : T) | Popped | Added (x : T) | Dropped (x : T).

(** [x] is what the producer writes; [go] ends the use of the item or of the
    reference, which can be looked at or written many times. *)
Definition qstep (i : nat) (c : T * bool) (q : queue) (l : local) : option (queue * local * option event) :=
  let '(x, go) := c in
  match l with
  | C_idle => Some (q, if _Head q =? _Tail q then C_idle else C_have (Z.to_nat (_Head q .& 3)), None)
  | C_have p =>
    if go then Some (mkQueue (u32 (_Head q + 1)) (_Tail q) (_Bufs q), C_idle, Some Popped)
    else y ← _Bufs q !! p; Some (q, l, Some (Peeked y))
  | P_idle => Some (q, P_have (Z.to_nat (_Tail q .& 3)), None)
  | P_have p => Some (mkQueue (_Head q) (_Tail q) (<[p:=x]> (_Bufs q)), if go then P_filled p x else P_have p, None)
  | P_filled p y =>
    if (_Head q .& 3) =? (u32 (_Tail q + 1) .& 3) then Some (q, P_idle, Some (Dropped y))
    else Some (q, P_keep p y, None)
  | P_keep p y => Some (mkQueue (_Head q) (u32 (_Tail q + 1)) (_Bufs q), P_idle, Some (Added y))
  end.

(** The contract: a queue of three; the newest item is dropped when it is full. *)
Inductive aq_step : list T -> event -> list T -> Prop :=
| aq_peek x Q : aq_step (x :: Q) (Peeked x) (x :: Q)
| aq_pop x Q : aq_step (x :: Q) Popped Q
| aq_add Q x : (length Q < 3)%nat -> aq_step Q (Added x) (Q ++ [x])
| aq_drop Q x : length Q = 3%nat -> aq_step Q (Dropped x) Q.
Inductive aq_run : list T -> list event -> list T -> Prop :=
| aq_nil Q : aq_run Q [] Q
| aq_cons Q e Q1 es Q2 : aq_step Q e Q1 -> aq_run Q1 es Q2 -> aq_run Q (e :: es) Q2.

Implicit Types (q : queue) (Q : list T).

(** What a thread knows; the consumer is thread 0, the producer thread 1. *)
Definition pos (h : Z) (j : nat) : nat := Z.to_nat ((h + Z.of_nat j) mod 4).
Definition consumer_ok h Q (c : local) : Prop :=
  match c with C_idle => True | C_have p => p = pos h 0 /\ Q <> [] | _ => False end.
Definition producer_ok h q Q (p : local) : Prop :=
  match p with
  | P_idle => True
  | P_have p => p = pos h (length Q)
  | P_filled p x => p = pos h (length Q) /\ _Bufs q !! p = Some x
  | P_keep p x => p = pos h (length Q) /\ _Bufs q !! p = Some x /\ (length Q < 3)%nat
  | _ => False
  end.
Record inv (h : Z) q (c p : local) Q : Prop := {
  v_head : _Head q = u32 h;
  v_tail : _Tail q = u32 (h + zlen Q);
  v_bufs : length (_Bufs q) = 4%nat;
  v_room : (length Q <= 3)%nat;
  v_items j x : Q !! j = Some x -> _Bufs q !! pos h j = Some x;
  v_consumer : consumer_ok h Q c;
  v_producer : producer_ok h q Q p }.

Lemma drop_pos_lt h j : (pos h j < 4)%nat.
Proof. unfold pos. assert (X := Z.mod_pos_bound (h + Z.of_nat j) 4 ltac:(lia)). lia. Qed.
Lemma drop_pos_inj h j k : (j < 4)%nat -> (k < 4)%nat -> pos h j = pos h k -> j = k.
Proof. intros Hj Hk E. unfold pos in E. zlia. Qed.
Lemma drop_pos_next h j : pos (h + 1) j = pos h (S j).
Proof. unfold pos. do 2 f_equal. lia. Qed.
Lemma low2 z : u32 z .& 3 = z mod 4.
Proof. unfold u32. rewrite land_wrap by (unfold in_width; lia). apply (land_mask 2 z). lia. Qed.

(** The two never touch the same slot. *)
Lemma apart h q Q c p a b : inv h q c p Q -> c = C_have a ->
  match p with P_have b' | P_filled b' _ | P_keep b' _ => b = b' | _ => False end -> a <> b.
Proof.
  intros [_ _ _ R _ Hc Hp] -> Hb. destruct Hc as [-> Hne]. assert (Eb : b = pos h (length Q)) by (destruct p; cbn in *; intuition congruence).
  rewrite Eb. intros E%drop_pos_inj; [|lia|lia]. by destruct Q.
Qed.

Definition good q (c p : local) Q i (l : local) x (go : bool) : Prop :=
  exists q' l' ev, qstep i (x, go) q l = Some (q', l', ev) /\
  exists h' Q', inv h' q' (if (i =? 0)%nat then l' else c) (if (i =? 0)%nat then p else l') Q' /\
    match ev with None => Q' = Q | Some ev => aq_step Q ev Q' end.

Lemma consumer_step h q c p Q x go : inv h q c p Q -> good q c p Q 0 c x go.
Proof.
  intros [H1 H2 H3 H4 H5 H6 H7]. unfold good. cbn [Nat.eqb]. destruct c as [|a| | | |]; try done; cbn [qstep].
  - eexists _, _, _. split; [reflexivity|]. exists h, Q. split; [|done]. split; try done.
    destruct (Z.eqb_spec (_Head q) (_Tail q)) as [E|E]; [done|]. split; [rewrite H1, low2; unfold pos; do 2 f_equal; lia|].
    intros ->. apply E. rewrite H1, H2. f_equal. cbn. lia.
  - destruct H6 as [-> Hne]. destruct Q as [|y Q]; [done|]. destruct go.
    + eexists _, _, _. split; [reflexivity|]. exists (h + 1), Q. split; [|constructor]. cbn [length] in *. split; cbn; try done.
      * rewrite H1. unfold u32, wrap. apply Zplus_mod_idemp_l.
      * rewrite H2. f_equal. lia.
      * lia.
      * intros j z Hj. rewrite drop_pos_next. by apply H5.
      * destruct p; cbn in *; rewrite ?drop_pos_next; try done. destruct H7 as (E1 & E2 & E3). repeat split; [done|done|lia].
    + rewrite (H5 0%nat y eq_refl). cbn [mbind option_bind]. eexists _, _, _. split; [reflexivity|]. exists h, (y :: Q). split; [done|constructor].
Qed.
Lemma producer_step h q c p Q x go : inv h q c p Q -> good q c p Q 1 p x go.
Proof.
  intros [H1 H2 H3 H4 H5 H6 H7]. unfold good. cbn [Nat.eqb]. destruct p as [| | |b|b y|b y]; try done; cbn [qstep].
  - eexists _, _, _. split; [reflexivity|]. exists h, Q. split; [|done]. split; try done. cbn. by rewrite H2, low2.
  - cbn in H7. subst b. eexists _, _, _. split; [reflexivity|]. exists h, Q. split; [|done].
    assert (Hb : <[pos h (length Q):=x]> (_Bufs q) !! pos h (length Q) = Some x) by (apply list_lookup_insert_eq; rewrite H3; apply drop_pos_lt).
    split; cbn; try done; [by rewrite length_insert| |by destruct go].
    intros j z Hj. assert (L := lookup_lt_Some _ _ _ Hj). rewrite list_lookup_insert_ne; [by apply H5|]. intros E%drop_pos_inj; lia.
  - destruct H7 as [-> Hb]. rewrite H1, H2. assert (Et : u32 (u32 (h + zlen Q) + 1) = u32 (h + zlen Q + 1)) by (unfold u32, wrap; apply Zplus_mod_idemp_l).
    rewrite Et, !low2. destruct (Z.eqb_spec (h mod 4) ((h + zlen Q + 1) mod 4)) as [E|E].
    + eexists _, _, _. split; [reflexivity|]. exists h, Q. split; [done|]. constructor. zlia.
    + eexists _, _, _. split; [reflexivity|]. exists h, Q. split; [|done]. split; try done. split; [done|]. split; [done|].
      assert (length Q <> 3)%nat; [|lia]. intros E3. apply E. rewrite E3. zlia.
  - destruct H7 as (-> & Hb & Hl). eexists _, _, _. split; [reflexivity|]. exists h, (Q ++ [y]). split; [|by constructor].
    assert (Lq : length (Q ++ [y]) = S (length Q)) by (rewrite length_app; cbn; lia). split; rewrite ?Lq; cbn; try done.
    + rewrite H2. unfold u32, wrap. rewrite Zplus_mod_idemp_l. f_equal. lia.
    + intros j z [Hj|[Hge Hj]]%lookup_app_Some; [by apply H5|]. apply list_lookup_singleton_Some in Hj as [E <-]. by replace j with (length Q) by lia.
    + destruct c; cbn in *; try done. destruct H6 as [-> _]. split; [done|]. by destruct Q.
Qed.

Lemma run_drops sched : forall h q c p Q, inv h q c p Q -> Forall (fun s : nat * (T * bool) => (s.1 <= 1)%nat) sched ->
  exists q' c' p' es h' Q', run qstep (q, [c; p]) sched = Some (q', [c'; p'], es) /\ aq_run Q es Q' /\ inv h' q' c' p' Q'.
Proof.
  induction sched as [|[i [x go]] t IH]; intros h q c p Q HI Hv; [exists q, c, p, [], h, Q; split; [done|split; [apply aq_nil|done]]|].
  inversion_clear Hv as [|? ? Hi Ht]. cbn [fst] in Hi.
  assert (G : exists l, [c; p] !! i = Some l /\ good q c p Q i l x go).
  { destruct i as [|[|i]]; [exists c|exists p|lia]; (split; [done|]); [by eapply consumer_step|by eapply producer_step]. }
  destruct G as (l & Hl & q1 & l1 & ev & E & h1 & Q1 & HI1 & He).
  destruct (IH _ _ _ _ _ HI1 Ht) as (q2 & c2 & p2 & es & h2 & Q2 & Er & Ha & HI2).
  exists q2, c2, p2, (match ev with Some ev => ev :: es | None => es end), h2, Q2. split; [|split; [|done]].
  - cbn [run]. unfold sys_step. cbn [fst snd]. rewrite Hl. cbn [mbind option_bind]. rewrite E. cbn [mbind option_bind].
    assert (El : <[i:=l1]> [c; p] = [if (i =? 0)%nat then l1 else c; if (i =? 0)%nat then p else l1]) by (destruct i as [|[|i]]; [done|done|lia]).
    rewrite El, Er. done.
  - destruct ev; [by econstructor|by subst].
Qed.

(** What lies between the indices. *)
Definition left_over q : list T := omap (fun j => _Bufs q !! pos (_Head q) j) (seq 0 (Z.to_nat (u32 (_Tail q - _Head q)))).
Lemma left_over_lookup q j x : length (_Bufs q) = 4%nat -> left_over q !! j = Some x -> _Bufs q !! pos (_Head q) j = Some x.
Proof.
  intros Hl. unfold left_over. set (f := fun j => _Bufs q !! pos (_Head q) j). change (omap f (seq 0 (Z.to_nat (u32 (_Tail q - _Head q)))) !! j = Some x -> f j = Some x).
  assert (G : forall n a k, omap f (seq a n) !! k = Some x -> f (a + k)%nat = Some x).
  { induction n as [|n IH]; intros a k; [done|]. assert (Is : is_Some (f a)) by (apply lookup_lt_is_Some_2; rewrite Hl; apply drop_pos_lt). destruct Is as [y Ey].
    cbn [seq omap list_omap]. rewrite Ey. destruct k as [|k]; [intros [= <-]; by rewrite Nat.add_0_r|]. intros H. rewrite <- (IH (S a) k H). f_equal. lia. }
  apply (G _ 0%nat).
Qed.
Lemma left_over_length q : length (_Bufs q) = 4%nat -> length (left_over q) = Z.to_nat (u32 (_Tail q - _Head q)).
Proof.
  intros Hl. unfold left_over. generalize (Z.to_nat (u32 (_Tail q - _Head q))) as n, 0%nat as a. induction n as [|n IH]; intros a; [done|].
  assert (Is : is_Some (_Bufs q !! pos (_Head q) a)) by (apply lookup_lt_is_Some_2; rewrite Hl; apply drop_pos_lt). destruct Is as [y Ey].
  cbn [seq omap list_omap]. rewrite Ey. cbn [length]. by rewrite IH.
Qed.

(** C24: the class sets none of its fields, so the indices are what lies in the memory
    of a new queue.  From any indices that are at most three apart (equal ones in
    zeroed memory) every schedule of a consumer and a producer over a
    [DroppableQueue] is a run of the contract that begins with what lies between
    them, and the slot the consumer looks at is never the one the producer writes. *)
Theorem drop_queue_refines q0 sched : 0 <= _Head q0 < 2 ^ 32 -> 0 <= _Tail q0 < 2 ^ 32 -> u32 (_Tail q0 - _Head q0) <= 3 -> length (_Bufs q0) = 4%nat ->
  Forall (fun s : nat * (T * bool) => (s.1 <= 1)%nat) sched ->
  exists q c p es Q, run qstep (q0, [C_idle; P_idle]) sched = Some (q, [c; p], es) /\ aq_run (left_over q0) es Q /\
    (forall a b, c = C_have a -> match p with P_have b' | P_filled b' _ | P_keep b' _ => b = b' | _ => False end -> a <> b).
Proof.
  intros Hh Ht Hn Hl Hv. assert (Len := left_over_length q0 Hl). assert (Rng := u32_range (_Tail q0 - _Head q0)). unfold in_width in Rng.
  assert (I0 : inv (_Head q0) q0 C_idle P_idle (left_over q0)).
  { split; cbn; try done; [by rewrite u32_id by lia| |lia|by intros; apply left_over_lookup].
    rewrite Len, Z2Nat.id by lia. unfold u32, wrap. rewrite Zplus_mod_idemp_r. replace (_Head q0 + (_Tail q0 - _Head q0)) with (_Tail q0) by lia. rewrite Z.mod_small; lia. }
  destruct (run_drops sched (_Head q0) q0 C_idle P_idle (left_over q0) I0 Hv) as (q & c & p & es & h & Q & Er & Ha & HI).
  exists q, c, p, es, Q. split; [done|]. split; [done|]. intros a b. by eapply apart.
Qed.
End Queue.

(** A queue in zeroed memory. *)
Definition zeroed : queue := mkQueue 0 0 (repeat 0 4).

(** Four items offered before the consumer looks: the last is dropped. *)
Definition offer (x : Z) : list (nat * (Z * bool)) := [(1%nat, (0, true)); (1%nat, (x, true)); (1%nat, (0, true)); (1%nat, (0, true))].
Definition flood : list (nat * (Z * bool)) :=
  offer 5 ++ offer 6 ++ offer 7 ++ [(1%nat, (0, true)); (1%nat, (8, true)); (1%nat, (0, true)); (0%nat, (0, true)); (0%nat, (0, false)); (0%nat, (0, true))].
Lemma flood_events : option_map snd (run qstep (zeroed, [C_idle; P_idle]) flood) =
  Some [Added 5; Added 6; Added 7; Dropped 8; Peeked 5; Popped].
Proof. vm_compute. reflexivity. Qed.


(** Indices four apart: the consumer looks at the slot the producer writes. *)
Example wild_indices : (fun r => (fst r).2) <$> run qstep (mkQueue 7 11 (repeat 0 4), [C_idle; P_idle]) [(0%nat, (0, true)); (1%nat, (0, true))] = Some [C_have 3; P_have 3].
Proof. vm_compute. reflexivity. Qed.

Lemma drop_queue_refines_witness : let q0 := mkQueue (2 ^ 32 - 1) 1 [4; 0; 0; 3] in exists q c p es Q, run qstep (q0, [C_idle; P_idle]) flood = Some (q, [c; p], es) /\ aq_run [3; 4] es Q /\
  (forall a b, c = C_have a -> match p with P_have b' | P_filled b' _ | P_keep b' _ => b = b' | _ => False end -> a <> b).
Proof.
  intros q0. change [3; 4] with (left_over q0). apply (drop_queue_refines q0 flood); [cbn; lia|cbn; lia|vm_compute; congruence|done|]. repeat constructor.
Defined.
