(* ===== verification/AtomLock.v ===== *)
(** [AtomicLock] of os/multi_thread.h, a try-lock over one counter, between any
    number of threads. *)
From S2P Require Import Prelude Threads.

Abbreviation zlen l := (Z.of_nat (length l)).

(** Where a thread is: in [TryLock] past a count that was not one, or holding. *)
Inductive local := Free | Failing | Held.
Inductive event := Got (i : nat) | Failed (i : nat) | Released (i : nat) | WasReset (i : nat).

Definition IsLocked (iAtom : Z) : bool := 1 <=? iAtom.

(** A free thread tries to lock; the holder calls [Unlock], or [Reset] when
    [reset]. *)
Definition lstep (i : nat) (reset : bool) (iAtom : Z) (l : local) : option (Z * local * option event) :=
  match l with
  | Free => let ret := s32 (iAtom + 1) in Some (ret, if ret =? 1 then Held else Failing, if ret =? 1 then Some (Got i) else None)
  | Failing => Some (s32 (iAtom - 1), Free, Some (Failed i))
  | Held => if reset then Some (0, Free, Some (WasReset i)) else Some (s32 (iAtom - 1), Free, Some (Released i))
  end.

(** The contract: a lock with at most one owner; an attempt may fail. *)
Inductive lk_step : option nat -> event -> option nat -> Prop :=
| lk_got i : lk_step None (Got i) (Some i)
| lk_failed o i : lk_step o (Failed i) o
| lk_released i : lk_step (Some i) (Released i) None.
Inductive lk_run : option nat -> list event -> option nat -> Prop :=
| lk_nil o : lk_run o [] o
| lk_cons o e o1 es o2 : lk_step o e o1 -> lk_run o1 es o2 -> lk_run o (e :: es) o2.

Implicit Types (l : local) (ls : list local) (i k : nat) (o : option nat).

Definition held l : bool := match l with Held => true | _ => false end.
Definition failing l : bool := match l with Failing => true | _ => false end.
Record inv (g : Z) (ls : list local) (o : option nat) : Prop := {
  v_count : g = cnt held ls + cnt failing ls;
  v_small : zlen ls < 2 ^ 31 - 1;
  v_owner i : ls !! i = Some Held <-> o = Some i;
  v_one : cnt held ls = match o with Some _ => 1 | None => 0 end }.

Ltac cnts Hi := rewrite ?(cnt_insert _ _ _ _ _ Hi), ?length_insert in *; cbn [held failing Z.b2z] in *.

Lemma held_failing ls : cnt held ls + cnt failing ls <= zlen ls.
Proof. induction ls as [|[] t IH]; cbn [cnt length held failing Z.b2z]; lia. Qed.

Lemma owner_insert ls i l l' o o' : ls !! i = Some l ->
  (forall k, ls !! k = Some Held <-> o = Some k) -> (l' = Held <-> o' = Some i) -> (forall k, k <> i -> o = Some k <-> o' = Some k) ->
  forall k, <[i:=l']> ls !! k = Some Held <-> o' = Some k.
Proof.
  intros Hi Ho Hl Hn k. destruct (decide (k = i)) as [->|Hne].
  - rewrite list_lookup_insert_eq by (by eapply lookup_lt_Some). rewrite <- Hl. split; congruence.
  - rewrite list_lookup_insert_ne by done. rewrite Ho. by apply Hn.
Qed.

Lemma lock_step g ls o i l : inv g ls o -> ls !! i = Some l ->
  exists g' l' ev o', lstep i false g l = Some (g', l', ev) /\ inv g' (<[i:=l']> ls) o' /\
    match ev with None => o' = o | Some ev => lk_step o ev o' end.
Proof.
  intros [H1 H2 H3 H4] Hi. assert (R := held_failing ls). assert (R1 := cnt_range held ls). assert (R2 := cnt_range failing ls).
  destruct l; cbn [lstep].
  - rewrite s32_small by lia. destruct (Z.eqb_spec (g + 1) 1) as [E|E].
    + assert (Eo : o = None) by (destruct o; [lia|done]). subst o. eexists _, _, _, (Some i). split; [reflexivity|]. split; [|constructor].
      split; cnts Hi; try lia. apply (owner_insert ls i Free _ None); try done; intros; split; congruence.
    + eexists _, _, _, o. split; [reflexivity|]. split; [|done]. split; cnts Hi; try lia.
      apply (owner_insert ls i Free _ o); try done. split; [done|]. intros X%H3. congruence.
  - rewrite s32_small by lia. assert (F := cnt_in failing ls i _ Hi eq_refl). eexists _, _, _, o. split; [reflexivity|]. split; [|constructor].
    split; cnts Hi; try lia. apply (owner_insert ls i Failing _ o); try done. split; [done|]. intros X%H3. congruence.
  - rewrite s32_small by lia. assert (Eo : o = Some i) by (by apply H3). subst o. eexists _, _, _, None. split; [reflexivity|]. split; [|constructor].
    split; cnts Hi; try lia. apply (owner_insert ls i Held _ (Some i)); try done; intros; split; congruence.
Qed.

Lemma run_locks sched : forall g ls o, inv g ls o -> Forall (fun s : nat * bool => (s.1 < length ls)%nat /\ s.2 = false) sched ->
  exists g' ls' es o', run lstep (g, ls) sched = Some (g', ls', es) /\ lk_run o es o' /\ inv g' ls' o'.
Proof.
  induction sched as [|[i b] t IH]; intros g ls o HI Hv; [exists g, ls, [], o; split; [done|split; [constructor|done]]|].
  inversion_clear Hv as [|? ? [Hi Hb] Ht]. cbn [fst snd] in Hi, Hb. subst b. destruct (lookup_lt_is_Some_2 ls i Hi) as [l Hl].
  destruct (lock_step g ls o i l HI Hl) as (g1 & l1 & ev & o1 & E & HI1 & He).
  destruct (IH g1 (<[i:=l1]> ls) o1 HI1) as (g2 & ls2 & es & o2 & Er & Ha & HI2); [by rewrite length_insert|].
  exists g2, ls2, (match ev with Some ev => ev :: es | None => es end), o2. split; [|split; [|done]].
  - cbn [run]. unfold sys_step. cbn [fst snd]. rewrite Hl. cbn [mbind option_bind]. rewrite E. cbn [mbind option_bind]. rewrite Er. done.
  - destruct ev; [by econstructor|by subst].
Qed.

(** C23: every schedule of lockers is a run of the contract: never two holders, the
    lock says it is locked while there is one, and an attempt while nobody
    holds it or is in another attempt succeeds. *)
Theorem lock_excludes k sched : Z.of_nat k < 2 ^ 31 - 1 -> Forall (fun s : nat * bool => (s.1 < k)%nat /\ s.2 = false) sched ->
  exists g ls es o, run lstep (0, repeat Free k) sched = Some (g, ls, es) /\ lk_run None es o /\
    (forall i, ls !! i = Some Held <-> o = Some i) /\ (o <> None -> IsLocked g = true) /\
    (o = None -> cnt failing ls = 0 -> forall i, lstep i false g Free = Some (1, Held, Some (Got i))).
Proof.
  intros Hk Hv. destruct (run_locks sched 0 (repeat Free k) None) as (g & ls & es & o & Er & Ha & [H1 H2 H3 H4]).
  - split; rewrite ?repeat_length, ?cnt_repeat by done; try done; try lia. intros i. split; [|done]. intros X%list_elem_of_lookup_2%list_elem_of_In%repeat_spec. done.
  - by rewrite repeat_length.
  - exists g, ls, es, o. assert (R2 := cnt_range failing ls). split; [done|]. split; [done|]. split; [done|]. split.
    + intros Ho. unfold IsLocked. apply Z.leb_le. destruct o; [lia|done].
    + intros -> Hf i. cbn [lstep]. assert (g = 0) as -> by lia. done.
Qed.

(** [Reset] by the holder while another thread is in [TryLock]: two threads
    then hold the lock. *)
Definition after_reset : list (nat * bool) :=
  [(0%nat, false); (1%nat, false); (0%nat, true); (1%nat, false); (1%nat, false); (2%nat, false); (1%nat, false); (0%nat, false)].
Lemma reset_breaks : option_map snd (run lstep (0, repeat Free 3) after_reset) =
    Some [Got 0; WasReset 0; Failed 1; Got 2; Failed 1; Got 0] /\
  option_map (fun r => r.1.2) (run lstep (0, repeat Free 3) after_reset) = Some [Held; Free; Held].
Proof. split; vm_compute; reflexivity. Qed.

Lemma lock_excludes_witness : exists g ls es o, run lstep (0, repeat Free 2) [(0%nat, false); (1%nat, false); (0%nat, false)] = Some (g, ls, es) /\ lk_run None es o /\
    (forall i, ls !! i = Some Held <-> o = Some i) /\ (o <> None -> IsLocked g = true) /\
    (o = None -> cnt failing ls = 0 -> forall i, lstep i false g Free = Some (1, Held, Some (Got i))).
Proof. apply (lock_excludes 2); [lia|]. repeat constructor. Defined.
