(* ===== verification/Fence.v ===== *)
(** [Event] off Windows and [ThreadFence] of os/multi_thread.h, a barrier over two
    events, access by access.  [pthread_cond_wait] does not fail; it can return
    without a signal, as POSIX lets it. *)
From S2P Require Import Prelude Threads.

Abbreviation zlen l := (Z.of_nat (length l)).

(** The constructor sets [bSet] and leaves [bIsPulsed] as the memory has it. *)
Record signal := mkSignal { bSet : bool; bIsPulsed : bool }.
Definition Event (pulsed : bool) : signal := mkSignal false pulsed.
Definition Set_ (e : signal) : signal := mkSignal true (bIsPulsed e).
Definition Reset (e : signal) : signal := mkSignal false (bIsPulsed e).
(** [WaitSignal] holds the mutex but within [pthread_cond_wait]: a thread that comes
    goes on or waits, one that is woken goes on or waits again. *)
Definition WaitSignal_enter (e : signal) : bool := bSet e.
Definition WaitSignal_woken (e : signal) : bool * signal :=
  if bIsPulsed e then (true, mkSignal (bSet e) false) else (bSet e, e).

Record fence := mkFence { _num_reached : list Z; _release_sign : list signal; _toggle : Z; _num_thread : Z }.
Definition ix (z : Z) : nat := Z.to_nat (z .& 1).
(** On a new fence; what the counter of the other one holds before its first use
    does not matter. *)
Definition SetThreadCount (n junk : Z) (p0 p1 : bool) : fence := mkFence [0; junk] [Reset (Event p0); Event p1] 0 n.

(** [WaitOthers] and [ReleaseOthers] access by access. *)
Inductive local :=
| W_out
| W_count (k : nat)      (* [_toggle] read, about to count *)
| W_reached (r : Z)
| W_wait (k : nat)
| W_block (k : nat)      (* in [pthread_cond_wait] *)
| W_told                 (* told to be the latest, [ReleaseOthers] not called *)
| W_last                 (* about to release the others *)
| W_reset | W_zero | W_set
| W_passed (latest : bool).
Inductive event := Reached (i : nat) | Passed (i : nat) (latest : bool).

Definition set_sign (f : fence) (k : nat) (e : signal) : fence := mkFence (_num_reached f) (<[k:=e]> (_release_sign f)) (_toggle f) (_num_thread f).
(** Thread [i]; [auto] is [auto_release_others].  [go] wakes a thread that waits, and
    makes the latest call [ReleaseOthers] where it is not done for it.  The assertion
    that fails has no result. *)
Definition fstep (auto : bool) (i : nat) (go : bool) (f : fence) (l : local) : option (fence * local * option event) :=
  match l with
  | W_out => Some (f, W_count (ix (_toggle f)), None)
  | W_count k =>
    n ← _num_reached f !! k;
    let r := s32 (n + 1) in
    Some (mkFence (<[k:=r]> (_num_reached f)) (_release_sign f) (_toggle f) (_num_thread f), W_reached r, Some (Reached i))
  | W_reached r =>
    if r <? _num_thread f then Some (f, W_wait (ix (_toggle f)), None)
    else if r =? _num_thread f then
      if auto then Some (f, W_last, None) else Some (f, W_told, Some (Passed i true))
    else None
  | W_wait k =>
    e ← _release_sign f !! k;
    if WaitSignal_enter e then Some (f, W_passed false, Some (Passed i false)) else Some (f, W_block k, None)
  | W_block k =>
    if go then
      e ← _release_sign f !! k;
      let '(passes, e) := WaitSignal_woken e in
      Some (set_sign f k e, if passes then W_passed false else l, if passes then Some (Passed i false) else None)
    else Some (f, l, None)
  | W_told => Some (f, if go then W_last else l, None)
  | W_last =>
    Some (mkFence (_num_reached f) (_release_sign f) (s32 (_toggle f + 1) .& 1) (_num_thread f), W_reset, None)
  | W_reset =>
    e ← _release_sign f !! ix (_toggle f);
    Some (set_sign f (ix (_toggle f)) (Reset e), W_zero, None)
  | W_zero =>
    Some (mkFence (<[ix (_toggle f):=0]> (_num_reached f)) (_release_sign f) (_toggle f) (_num_thread f), W_set, None)
  | W_set =>
    e ← _release_sign f !! ix (s32 (_toggle f + 1));
    Some (set_sign f (ix (s32 (_toggle f + 1))) (Set_ e), W_passed true, if auto then Some (Passed i true) else None)
  | W_passed _ => Some (f, l, None)
  end.

Implicit Types (l : local) (ls : list local) (i k : nat) (f : fence).

Definition arrived l : bool := match l with W_out | W_count _ => false | _ => true end.
(** The thread whose count was the number of threads. *)
Definition latest (n : Z) l : bool :=
  match l with W_reached r => r =? n | W_told | W_last | W_reset | W_zero | W_set | W_passed true => true | _ => false end.

(** What [WaitOthers] has returned. *)
Definition past (auto : bool) l : option bool :=
  match l with
  | W_passed b => Some b | W_told => Some true
  | W_last | W_reset | W_zero | W_set => if auto then None else Some true
  | _ => None
  end.

(** The fence used once: [n] threads, each in one [WaitOthers]; [a] have
    arrived, [t] is the toggle. *)
Definition ok (n a t : Z) l : Prop :=
  match l with
  | W_out => True
  | W_count k => k = 0%nat
  | W_reached r => 1 <= r <= a /\ (r = n -> t = 0)
  | W_wait k | W_block k => (k < 2)%nat
  | W_told | W_last => a = n /\ t = 0
  | W_reset | W_zero | W_set => a = n /\ t = 1
  | W_passed _ => a = n
  end.
Record inv (n : Z) f ls : Prop := {
  v_num : _num_thread f = n;
  v_threads : n = zlen ls;
  v_small : 0 < n < 2 ^ 31;
  v_reached : length (_num_reached f) = 2%nat;
  v_signs : length (_release_sign f) = 2%nat;
  v_toggle : _toggle f = 0 \/ _toggle f = 1 /\ cnt arrived ls = n;
  v_count : _num_reached f !! 0%nat = Some (cnt arrived ls);
  v_sign k e : _release_sign f !! k = Some e -> bIsPulsed e = false /\ (bSet e = true -> cnt arrived ls = n);
  v_latest : cnt (latest n) ls = Z.b2z (cnt arrived ls =? n);
  v_ok i l : ls !! i = Some l -> ok n (cnt arrived ls) (_toggle f) l }.

(** The threads after a step of thread [i]. *)
Lemma ok_insert n a t ls i l' : (forall k l, k <> i -> ls !! k = Some l -> ok n a t l) -> ok n a t l' ->
  forall k l, <[i:=l']> ls !! k = Some l -> ok n a t l.
Proof. intros H H' k l E. apply list_lookup_insert_Some in E as [(-> & <- & _)|[Hne E]]; [done|by apply (H k)]. Qed.

Section Steps.
Context (n : Z) (f : fence) (ls : list local) (i : nat) (auto : bool).
Hypothesis I : inv n f ls.

Definition good l : Prop := forall go, exists f' l' ev, fstep auto i go f l = Some (f', l', ev) /\ inv n f' (<[i:=l']> ls).

(** A step that moves a thread past the count and leaves the rest. *)
Lemma inv_move l l' g : ls !! i = Some l -> arrived l' = arrived l -> latest n l' = latest n l ->
  _num_thread g = n -> length (_num_reached g) = 2%nat -> length (_release_sign g) = 2%nat ->
  _toggle g = _toggle f -> _num_reached g !! 0%nat = _num_reached f !! 0%nat ->
  (forall k e, _release_sign g !! k = Some e -> bIsPulsed e = false /\ (bSet e = true -> cnt arrived ls = n)) -> ok n (cnt arrived ls) (_toggle f) l' -> inv n g (<[i:=l']> ls).
Proof.
  intros Hi Ha Hl G1 G2 G3 G4 G5 G6 G7. destruct I as [H1 H2 H3 H4 H5 H6 H7 H8 H9 H10].
  assert (Ea : cnt arrived (<[i:=l']> ls) = cnt arrived ls) by (rewrite (cnt_insert _ _ _ _ _ Hi), Ha; lia).
  assert (El : cnt (latest n) (<[i:=l']> ls) = cnt (latest n) ls) by (rewrite (cnt_insert _ _ _ _ _ Hi), Hl; lia).
  split; rewrite ?length_insert, ?Ea, ?El, ?G4, ?G5; try done. apply ok_insert; [|done]. intros k l0 _. apply H10.
Qed.
Lemma same_move l l' : ls !! i = Some l -> arrived l' = arrived l -> latest n l' = latest n l -> ok n (cnt arrived ls) (_toggle f) l' -> inv n f (<[i:=l']> ls).
Proof. intros Hi Ha Hl Ho. destruct I. by apply (inv_move l). Qed.

Lemma arrived_most : cnt arrived ls <= n.
Proof. rewrite (v_threads _ _ _ I). apply (cnt_range arrived). Qed.
Lemma early l : ls !! i = Some l -> arrived l = false -> cnt arrived ls < n /\ _toggle f = 0.
Proof.
  intros Hi Ha. assert (X := cnt_missing arrived ls i l Hi Ha). destruct I as [_ H2 _ _ _ [H6|[_ H6]] _ _ _ _]; lia.
Qed.
Lemma sign_set k e' : (exists e, _release_sign f !! k = Some e /\ bIsPulsed e' = bIsPulsed e) -> (bSet e' = true -> cnt arrived ls = n) ->
  forall k0 e, <[k:=e']> (_release_sign f) !! k0 = Some e -> bIsPulsed e = false /\ (bSet e = true -> cnt arrived ls = n).
Proof.
  intros (e0 & He0 & Ep) Hs k0 e [(<- & <- & _)|[_ H]]%list_lookup_insert_Some; [|by apply (v_sign _ _ _ I k0)]. split; [|done]. rewrite Ep. by apply (v_sign _ _ _ I k).
Qed.
Lemma ix_small z : (ix z < 2)%nat.
Proof. unfold ix. change 1 with (2 ^ 1 - 1). rewrite land_mask by lia. change (2 ^ 1) with 2. zlia. Qed.

Lemma good_count k : ls !! i = Some (W_count k) -> good (W_count k).
Proof.
  intros Hi. assert (HI := I). destruct HI as [H1 H2 H3 H4 H5 H6 H7 H8 H9 H10]. assert (K := H10 i _ Hi). cbn [ok] in K. subst k.
  destruct (early _ Hi eq_refl) as [Ha Ht]. assert (R := cnt_range arrived ls). intros go. cbn [fstep]. rewrite H7. cbn [mbind option_bind]. rewrite s32_small by lia.
  assert (Ea : cnt arrived (<[i:=W_reached (cnt arrived ls + 1)]> ls) = cnt arrived ls + 1) by (rewrite (cnt_insert _ _ _ _ _ Hi); cbn [arrived Z.b2z]; lia).
  assert (Z0 : cnt (latest n) ls = 0) by (rewrite H9, (proj2 (Z.eqb_neq _ _)) by lia; done).
  eexists _, _, _. split; [reflexivity|]. split; rewrite ?length_insert, ?Ea; cbn; try done.
  - by rewrite length_insert.
  - by left.
  - apply list_lookup_insert_eq. lia.
  - intros k e Hk. destruct (H8 k e Hk) as [Hp Hs]. split; [done|]. intros Hb. specialize (Hs Hb). lia.
  - rewrite (cnt_insert _ _ _ _ _ Hi), Z0. cbn [latest Z.b2z]. lia.
  - apply ok_insert; [|cbn; lia]. intros k l Hne Hk. assert (X := H10 k l Hk). destruct l; cbn in *; intuition lia.
Qed.
Lemma good_last : ls !! i = Some W_last -> good W_last.
Proof.
  intros Hi. assert (HI := I). destruct HI as [H1 H2 H3 H4 H5 H6 H7 H8 H9 H10]. assert (K := H10 i _ Hi). cbn [ok] in K. destruct K as [Ka Kt].
  intros go. cbn [fstep]. rewrite Kt. change (s32 (0 + 1) .& 1) with 1.
  assert (Ea : cnt arrived (<[i:=W_reset]> ls) = cnt arrived ls) by (rewrite (cnt_insert _ _ _ _ _ Hi); cbn [arrived Z.b2z]; lia).
  assert (El : cnt (latest n) (<[i:=W_reset]> ls) = cnt (latest n) ls) by (rewrite (cnt_insert _ _ _ _ _ Hi); cbn [latest Z.b2z]; lia).
  eexists _, _, _. split; [reflexivity|]. split; rewrite ?length_insert, ?Ea, ?El; cbn; try done; [by right|].
  apply ok_insert; [|done]. intros k l Hne Hk. assert (X := H10 k l Hk).
  assert (U : latest n l = false).
  { destruct (latest n l) eqn:E; [|done]. assert (T := cnt_two (latest n) ls k i l _ Hk Hi Hne E eq_refl). rewrite H9 in T. destruct (_ =? _); cbn in T; lia. }
  destruct l; cbn in *; try done; [|intuition lia..]. apply Z.eqb_neq in U. intuition lia.
Qed.

Lemma sign_at k : (k < 2)%nat -> exists e, _release_sign f !! k = Some e.
Proof. intros Hk. apply lookup_lt_is_Some_2. rewrite (v_signs _ _ _ I). lia. Qed.
Lemma good_waiting k : ls !! i = Some (W_wait k) -> good (W_wait k).
Proof.
  intros Hi go. assert (K := v_ok _ _ _ I i _ Hi). cbn in K. destruct (sign_at k K) as [e He]. cbn [fstep]. rewrite He. cbn [mbind option_bind].
  unfold WaitSignal_enter. destruct (bSet e) eqn:Eb; (eexists _, _, _; split; [reflexivity|]); apply (same_move (W_wait k)); try done. cbn. by apply (v_sign _ _ _ I k e).
Qed.
Lemma good_blocked k : ls !! i = Some (W_block k) -> good (W_block k).
Proof.
  intros Hi go. assert (HI := I). destruct HI as [H1 H2 H3 H4 H5 H6 H7 H8 H9 H10]. assert (K := H10 i _ Hi). cbn in K. destruct (sign_at k K) as [e He]. destruct (H8 k e He) as [Hp Hs]. cbn [fstep].
  destruct go; [|eexists _, _, _; split; [reflexivity|]; by apply (same_move (W_block k))]. rewrite He. cbn [mbind option_bind]. unfold WaitSignal_woken. rewrite Hp.
  eexists _, _, _. split; [reflexivity|]. apply (inv_move (W_block k)); cbn; rewrite ?length_insert; try done; [by destruct (bSet e)..| |destruct (bSet e); cbn; [by apply Hs|done]].
  by apply sign_set; [exists e|].
Qed.
Lemma good_release l : ls !! i = Some l -> match l with W_reset | W_zero | W_set => True | _ => False end -> good l.
Proof.
  intros Hi Hl go. assert (HI := I). destruct HI as [H1 H2 H3 H4 H5 H6 H7 H8 H9 H10]. assert (K := H10 i _ Hi).
  destruct l; try done; cbn in K; destruct K as [Ka Kt]; cbn [fstep]; rewrite Kt; change (ix 1) with 1%nat; change (ix (s32 (1 + 1))) with 0%nat.
  - destruct (sign_at 1 ltac:(lia)) as [e He]. rewrite He. cbn [mbind option_bind]. eexists _, _, _. split; [reflexivity|].
    apply (inv_move W_reset); cbn; rewrite ?length_insert; try done. apply sign_set; [by exists e|done].
  - eexists _, _, _. split; [reflexivity|]. apply (inv_move W_zero); cbn; rewrite ?length_insert; try done. by apply list_lookup_insert_ne.
  - destruct (sign_at 0 ltac:(lia)) as [e He]. rewrite He. cbn [mbind option_bind]. eexists _, _, _. split; [reflexivity|].
    apply (inv_move W_set); cbn; rewrite ?length_insert; try done. apply sign_set; [by exists e|done].
Qed.
Lemma fence_step l : ls !! i = Some l -> good l.
Proof.
  intros Hi. assert (HI := I). destruct HI as [H1 H2 H3 H4 H5 H6 H7 H8 H9 H10]. assert (K := H10 i _ Hi). assert (A := arrived_most). destruct l; try (by apply good_release); intros go.
  - destruct (early _ Hi eq_refl) as [_ Ht]. eexists _, _, _. split; [reflexivity|]. rewrite Ht. by apply (same_move W_out).
  - by apply good_count.
  - cbn in K. destruct K as [K1 K2]. cbn [fstep]. rewrite H1. destruct (Z.ltb_spec r n) as [L|L].
    + eexists _, _, _. split; [reflexivity|]. apply (same_move (W_reached r)); try done; [|apply ix_small]. cbn. symmetry. apply Z.eqb_neq. lia.
    + assert (r = n) as -> by lia. rewrite Z.eqb_refl. destruct auto; (eexists _, _, _; split; [reflexivity|]);
        (apply (same_move (W_reached n)); try done; cbn; rewrite ?Z.eqb_refl; intuition lia).
  - by apply good_waiting.
  - by apply good_blocked.
  - eexists _, _, _. split; [reflexivity|]. destruct go; by apply (same_move W_told).
  - by apply good_last.
  - eexists _, _, _. split; [reflexivity|]. by apply (same_move (W_passed latest0)).
Qed.
End Steps.

Lemma run_ok auto n sched : forall f ls, inv n f ls -> Forall (fun s : nat * bool => (s.1 < length ls)%nat) sched ->
  exists f' ls' es, run (fstep auto) (f, ls) sched = Some (f', ls', es) /\ inv n f' ls'.
Proof.
  induction sched as [|[i go] t IH]; intros f ls HI Hv; [by exists f, ls, []|].
  inversion_clear Hv as [|? ? Hi Ht]. cbn [fst] in Hi. destruct (lookup_lt_is_Some_2 ls i Hi) as [l Hl].
  destruct (fence_step n f ls i auto HI l Hl go) as (f1 & l1 & ev & E & HI1).
  destruct (IH f1 (<[i:=l1]> ls) HI1) as (f2 & ls2 & es & Er & HI2); [by rewrite length_insert|].
  exists f2, ls2, (match ev with Some ev => ev :: es | None => es end). split; [|done].
  cbn [run]. unfold sys_step. cbn [fst snd]. rewrite Hl. cbn [mbind option_bind]. rewrite E. cbn [mbind option_bind]. by rewrite Er.
Qed.

(** C22: a fence for [n] threads, each waiting once, on events whose [bIsPulsed] the
    memory happens to have as false (nothing sets it; the other way
    [pulsed_passes]), where waits may end without a signal and the latest releases
    the others itself or not: no assertion fails, no thread has been let through
    before all have arrived, and at most one is told it is the latest. *)
Theorem fence_holds auto n junk sched : (0 < n)%nat -> Z.of_nat n < 2 ^ 31 -> Forall (fun s : nat * bool => (s.1 < n)%nat) sched ->
  exists f ls es, run (fstep auto) (SetThreadCount (Z.of_nat n) junk false false, repeat W_out n) sched = Some (f, ls, es) /\
    (forall i l b, ls !! i = Some l -> past auto l = Some b -> Forall (fun l => arrived l = true) ls) /\
    (forall i j l l', ls !! i = Some l -> ls !! j = Some l' -> past auto l = Some true -> past auto l' = Some true -> i = j).
Proof.
  intros Hn Hs Hv. destruct (run_ok auto (Z.of_nat n) sched (SetThreadCount (Z.of_nat n) junk false false) (repeat W_out n)) as (f & ls & es & Er & HI).
  - split; rewrite ?repeat_length, ?cnt_repeat by done; cbn; try done; [lia|by left| | |].
    + intros [|[|k]] e; [intros [= <-]; done..|done].
    + destruct n; [lia|done].
    + intros i l X%list_elem_of_lookup_2%list_elem_of_In%repeat_spec. by subst.
  - by rewrite repeat_length.
  - exists f, ls, es. split; [done|]. destruct HI as [H1 H2 H3 H4 H5 H6 H7 H8 H9 H10]. split.
    + intros i l b Hi%H10 Hb. assert (Ha : cnt arrived ls = Z.of_nat n) by (destruct l; cbn in Hi, Hb; try done; by destruct Hi). apply Forall_forall. intros l' Hl. apply list_elem_of_lookup in Hl as [k Hk].
      destruct (arrived l') eqn:E; [done|]. assert (X := cnt_missing arrived ls k l' Hk E). lia.
    + intros i j l l' Hi Hj Hb Hb'. destruct (decide (i = j)) as [|Hne]; [done|]. assert (L : forall x, past auto x = Some true -> latest (Z.of_nat n) x = true) by (intros [| | | | | | | | | |[]]; cbn; done).
      assert (X := cnt_two (latest (Z.of_nat n)) ls i j _ _ Hi Hj Hne (L _ Hb) (L _ Hb')). rewrite H9 in X. destruct (_ =? _); cbn in X; lia.
Qed.

(** An event whose [bIsPulsed] is set in new memory: a wait that ends without a
    signal lets the first of two threads through. *)
Example pulsed_passes : (fun r => ((fst r).2, snd r)) <$> run (fstep true) (SetThreadCount 2 0 true false, repeat W_out 2) (map (fun i => (i, true)) [0; 0; 0; 0; 0]%nat) =
  Some ([W_passed false; W_out], [Reached 0; Passed 0 false]).
Proof. vm_compute. reflexivity. Qed.

(** [WaitOthers] reads [_toggle] again after it has counted: the latest may
    have turned it, and the thread then waits for the wrong fence, for ever. *)
Definition stranding : list (nat * bool) := map (fun i => (i, true)) [0; 0; 1; 1; 1; 1; 0; 0; 1; 1; 1]%nat.
Lemma fence_strands junk sched : Forall (fun s : nat * bool => (s.1 < 2)%nat) sched ->
  exists f es, run (fstep true) (SetThreadCount 2 junk false false, repeat W_out 2) (stranding ++ sched) = Some (f, [W_block 1; W_passed true], es) /\
    Passed 1 true ∈ es.
Proof.
  intros Hv. set (fe := mkFence [2; 0] [mkSignal true false; mkSignal false false] 1 2). assert (E : exists es, run (fstep true) (SetThreadCount 2 junk false false, repeat W_out 2) stranding =
    Some (fe, [W_block 1; W_passed true], es) /\ Passed 1 true ∈ es).
  { eexists. split; [vm_compute; reflexivity|]. apply list_elem_of_In. cbn. tauto. }
  destruct E as (es & E & Hin). rewrite (run_app _ _ _ _ _ _ E).
  assert (X : forall s, Forall (fun s : nat * bool => (s.1 < 2)%nat) s -> run (fstep true) (fe, [W_block 1; W_passed true]) s = Some (fe, [W_block 1; W_passed true], [])).
  { assert (St : forall i go, (i < 2)%nat -> sys_step (fstep true) i go (fe, [W_block 1; W_passed true]) = Some (fe, [W_block 1; W_passed true], None)) by (intros [|[|i]] [] Hi; done || lia).
    induction 1 as [|[i go] t Hi Ht IH]; [done|]. cbn [run]. rewrite St by done. cbn [mbind option_bind]. by rewrite IH. }
  rewrite X by done. eexists _, _. split; [reflexivity|]. rewrite app_nil_r. done.
Qed.

Lemma fence_holds_witness : exists f ls es, run (fstep false) (SetThreadCount 2 0 false false, repeat W_out 2) stranding = Some (f, ls, es) /\
    (forall i l b, ls !! i = Some l -> past false l = Some b -> Forall (fun l => arrived l = true) ls) /\
    (forall i j l l', ls !! i = Some l -> ls !! j = Some l' -> past false l = Some true -> past false l' = Some true -> i = j).
Proof. apply (fence_holds false 2 0 stranding); [lia|lia|]. repeat constructor. Defined.
