(* ===== verification/Garbage.v ===== *)
(** [GarbageCollection] of os/multi_thread.cpp, the objects deleted after a
    delay by a thread that sweeps once a second. *)
From S2P Require Import Prelude.

Section GC.
(** What deletes an object. *)
Context {F : Type}.

Record _GarbagItem := mkItem { pObj : Z; pDeletionFunction : F; TTL : Z }.
(** A deletion: the object and the function called on it. *)
Definition Delete (g : _GarbagItem) : Z * F := (pObj g, pDeletionFunction g).
Definition Tick (g : _GarbagItem) : _GarbagItem * bool :=
  let t := if TTL g =? 0 then TTL g else s32 (TTL g - 1) in
  (mkItem (pObj g) (pDeletionFunction g) t, negb (t =? 0)).

(** [_PendingGarbag], and whether [_GarbagDeletionThread] runs. *)
Record bin := mkBin { _PendingGarbag : list _GarbagItem; _Running : bool }.

(** The delay in sweeps. *)
Definition rounds (TTL_msec : Z) : Z := u32 (TTL_msec + 999) / 1000.

(** The operations give the deletions they do.  There has to be a function, and a
    debug build asserts that the object does not wait for its deletion already. *)
Definition DeleteObject (b : bin) (x TTL_msec : Z) (delete_func : option F) : option (bin * list (Z * F)) :=
  f ← delete_func;
  if x =? 0 then Some (b, [])
  else if TTL_msec =? 0 then Some (b, [(x, f)])
  else
    _ ← assert_ (forallb (fun g => negb (pObj g =? x)) (_PendingGarbag b));
    Some (mkBin (_PendingGarbag b ++ [mkItem x f (rounds TTL_msec)]) true, []).

(** One sweep of [_DeletionThread]: [k] items to go, the kept ones moved down
    to [open]. *)
Fixpoint sweep_loop (k i open : nat) (a : list _GarbagItem) (log : list (Z * F)) : option (list _GarbagItem * list (Z * F)) :=
  match k with
  | O => Some (take open a, log)
  | S k =>
    g ← a !! i;
    let '(g, keep) := Tick g in
    let a := <[i:=g]> a in
    if keep then sweep_loop k (S i) (S open) (<[open:=g]> a) log else sweep_loop k (S i) open a (log ++ [Delete g])
  end.
Definition Sweep (b : bin) : option (bin * list (Z * F)) :=
  if _Running b then
    r ← sweep_loop (length (_PendingGarbag b)) 0 0 (_PendingGarbag b) [];
    let '(a, log) := r in Some (mkBin a true, log)
  else Some (b, []).
(** The thread leaves its loop. *)
Definition Exit (b : bin) : bin * list (Z * F) :=
  if _Running b then (mkBin [] false, map Delete (_PendingGarbag b)) else (b, []).

Inductive op := Hand (x TTL_msec : Z) (f : option F) | Round | Leave.
Definition step (b : bin) (o : op) : option (bin * list (Z * F)) :=
  match o with Hand x t f => DeleteObject b x t f | Round => Sweep b | Leave => Some (Exit b) end.
(** The deletions of each operation in turn. *)
Fixpoint steps (b : bin) (ops : list op) : option (bin * list (list (Z * F))) :=
  match ops with
  | [] => Some (b, [])
  | o :: ops =>
    r ← step b o; let '(b, log) := r in
    r ← steps b ops; let '(b, logs) := r in Some (b, log :: logs)
  end.

(** The contract: an object is due a number of sweeps after it was handed over,
    which is not done while it is due already, and is deleted by that sweep, in the
    order of handing over, or at the end. *)
Record agenda := mkAgenda { now : Z; due : list (Z * F * Z) }.
Definition agenda_step (s : agenda) (o : op) : option (agenda * list (Z * F)) :=
  match o with
  | Hand x t f =>
    f ← f;
    if x =? 0 then Some (s, []) else if t =? 0 then Some (s, [(x, f)])
    else _ ← assert_ (negb (bool_decide (x ∈ map (fun d => d.1.1) (due s)))); Some (mkAgenda (now s) (due s ++ [(x, f, now s + rounds t)]), [])
  | Round => Some (mkAgenda (now s + 1) (filter (fun d => now s + 1 < d.2) (due s)), map fst (filter (fun d => d.2 <= now s + 1) (due s)))
  | Leave => Some (mkAgenda (now s) [], map fst (due s))
  end.
Fixpoint agenda_steps (s : agenda) (ops : list op) : option (list (list (Z * F))) :=
  match ops with
  | [] => Some []
  | o :: ops => '(s, log) ← agenda_step s o; logs ← agenda_steps s ops; Some (log :: logs)
  end.

(** ** The sweep *)

Definition older (g : _GarbagItem) : _GarbagItem := mkItem (pObj g) (pDeletionFunction g) (TTL g - 1).
Definition ttl_ok (g : _GarbagItem) : Prop := 0 <= TTL g < 2 ^ 31.

Lemma insert_middle {A} (l1 l2 : list A) x y : <[length l1:=y]> (l1 ++ x :: l2) = l1 ++ y :: l2.
Proof. rewrite insert_app_r_alt, Nat.sub_diag by done. done. Qed.

Lemma tick_keep g : ttl_ok g -> 1 < TTL g -> Tick g = (older g, true).
Proof.
  intros Hg H. unfold ttl_ok in Hg. unfold Tick, older. rewrite (proj2 (Z.eqb_neq _ 0)) by lia. rewrite s32_small by lia.
  rewrite (proj2 (Z.eqb_neq _ 0)) by lia. done.
Qed.
Lemma tick_drop g : ttl_ok g -> TTL g <= 1 -> exists g', Tick g = (g', false) /\ Delete g' = Delete g.
Proof.
  intros Hg H. unfold ttl_ok in Hg. unfold Tick. destruct (Z.eqb_spec (TTL g) 0) as [->|E]; [by eexists|].
  assert (TTL g = 1) as -> by lia. by eexists.
Qed.

Lemma sweep_loop_spec r : forall kept junk log, Forall ttl_ok r ->
  sweep_loop (length r) (length (kept ++ junk)) (length kept) (kept ++ junk ++ r) log =
  Some (kept ++ map older (filter (fun g => 1 < TTL g) r), log ++ map Delete (filter (fun g => TTL g <= 1) r)).
Proof.
  induction r as [|g r IH]; intros kept junk log Hr.
  - cbn [length sweep_loop]. rewrite take_app_length, filter_nil. cbn. by rewrite !app_nil_r.
  - inversion_clear Hr as [|? ? Hg Hr']. cbn [length sweep_loop].
    assert (El : (kept ++ junk ++ g :: r) !! length (kept ++ junk) = Some g) by (rewrite app_assoc; by apply list_lookup_middle).
    rewrite El. cbn [mbind option_bind].
    assert (Ei : forall g', <[length (kept ++ junk):=g']> (kept ++ junk ++ g :: r) = kept ++ (junk ++ [g']) ++ r).
    { intros g'. rewrite (app_assoc kept junk), insert_middle. by rewrite <- !app_assoc. }
    destruct (Z.lt_ge_cases 1 (TTL g)) as [L|L].
    + rewrite (tick_keep g Hg L), Ei. rewrite (filter_cons_True (fun g => 1 < TTL g)) by done. rewrite (filter_cons_False (fun g => TTL g <= 1)) by lia.
      assert (Eo : exists junk', <[length kept:=older g]> (kept ++ (junk ++ [older g]) ++ r) = (kept ++ [older g]) ++ junk' ++ r /\ length junk' = length junk).
      { destruct junk as [|j junk]; cbn [app].
        - exists []. by rewrite insert_middle, <- app_assoc.
        - exists (junk ++ [older g]). rewrite insert_middle, <- !app_assoc. split; [done|]. rewrite length_app. cbn. lia. }
      destruct Eo as (junk' & -> & Ej). specialize (IH (kept ++ [older g]) junk' log Hr'). rewrite !length_app in *. cbn [length] in *.
      rewrite Ej in IH. replace (S (length kept + length junk)) with (length kept + 1 + length junk)%nat by lia.
      replace (S (length kept)) with (length kept + 1)%nat by lia. rewrite IH. cbn [map]. by rewrite <- app_assoc.
    + destruct (tick_drop g Hg ltac:(lia)) as (g' & -> & Ed). rewrite Ei, Ed.
      rewrite (filter_cons_False (fun g => 1 < TTL g)) by lia. rewrite (filter_cons_True (fun g => TTL g <= 1)) by lia.
      specialize (IH kept (junk ++ [g']) (log ++ [Delete g]) Hr'). rewrite !length_app in *. cbn [length] in *.
      replace (S (length kept + length junk)) with (length kept + (length junk + 1))%nat by lia. rewrite IH. cbn [map]. by rewrite <- app_assoc.
Qed.
Lemma Sweep_spec b : Forall ttl_ok (_PendingGarbag b) -> _Running b = true ->
  Sweep b = Some (mkBin (map older (filter (fun g => 1 < TTL g) (_PendingGarbag b))) true, map Delete (filter (fun g => TTL g <= 1) (_PendingGarbag b))).
Proof.
  intros H Hr. unfold Sweep. rewrite Hr. assert (X := sweep_loop_spec (_PendingGarbag b) [] [] [] H). cbn [length app] in X. rewrite X. done.
Qed.
Lemma rounds_range t : 0 <= rounds t < 2 ^ 31.
Proof. unfold rounds. assert (X := u32_range (t + 999)). unfold in_width in X. zlia. Qed.

(** ** The agenda *)

Definition matches (b : bin) (s : agenda) : Prop :=
  _PendingGarbag b = map (fun d => mkItem d.1.1 d.1.2 (d.2 - now s)) (due s) /\
  Forall ttl_ok (_PendingGarbag b) /\ (_Running b = false -> due s = []).

Lemma filter_map_comm {A B} (f : A -> B) (P : B -> Prop) (Q : A -> Prop) `{forall x, Decision (P x)} `{forall x, Decision (Q x)} l :
  (forall x, P (f x) <-> Q x) -> filter P (map f l) = map f (filter Q l).
Proof.
  intros HPQ. induction l as [|x l IH]; [done|]. cbn [map]. rewrite !filter_cons. destruct (decide (P (f x))) as [Hp|Hp], (decide (Q x)) as [Hq|Hq].
  - cbn [map]. by rewrite IH.
  - by apply HPQ in Hp.
  - by apply HPQ in Hq.
  - done.
Qed.

Lemma waits b s x : matches b s -> forallb (fun g => negb (pObj g =? x)) (_PendingGarbag b) = negb (bool_decide (x ∈ map (fun d => d.1.1) (due s))).
Proof.
  intros (-> & _ & _). induction (due s) as [|d l IH]; [done|]. cbn [forallb map pObj]. rewrite IH.
  destruct (Z.eqb_spec d.1.1 x) as [E|E]; [by rewrite (bool_decide_eq_true_2 (x ∈ _ :: _)) by (rewrite E; by left)|].
  cbn [negb andb]. f_equal. apply bool_decide_ext. rewrite elem_of_cons. split; [by right|by intros [->|]].
Qed.
Lemma step_matches b s o : matches b s ->
  match step b o, agenda_step s o with
  | Some (b', log), Some (s', log') => log = log' /\ matches b' s'
  | None, None => True
  | _, _ => False
  end.
Proof.
  intros M. assert (W := fun x => waits b s x M). destruct M as (Hp & Ht & Hr). destruct o as [x t [f|]| |]; cbn [step agenda_step mbind option_bind]; [|done|..].
  - unfold DeleteObject. cbn [mbind option_bind]. destruct (x =? 0); [done|]. destruct (t =? 0); [done|]. rewrite W. destruct (assert_ _); [|done]. cbn [mbind option_bind]. split; [done|]. split; [|split]; cbn.
    + rewrite Hp, map_app. cbn. do 3 f_equal. lia.
    + apply Forall_app. split; [done|]. constructor; [apply rounds_range|done].
    + done.
  - destruct (_Running b) eqn:Er.
    + rewrite Sweep_spec by done. split.
      * rewrite Hp. rewrite (filter_map_comm _ _ (fun d => d.2 <= now s + 1)) by (intros d; cbn; lia). rewrite map_map. apply map_ext. by intros [[]].
      * split; [|split]; cbn.
        -- rewrite Hp. rewrite (filter_map_comm _ _ (fun d => now s + 1 < d.2)) by (intros d; cbn; lia). rewrite map_map. apply map_ext. intros d. unfold older. cbn. f_equal. lia.
        -- apply Forall_map, Forall_forall. intros g [Hg Hin]%list_elem_of_filter. rewrite Forall_forall in Ht. specialize (Ht g Hin). unfold ttl_ok in *. cbn. lia.
        -- done.
    + unfold Sweep. rewrite Er. rewrite Hr in * by done. split; [done|]. split; [|split]; cbn; done.
  - unfold Exit. destruct (_Running b) eqn:Er.
    + split; [|by split; [|split; [constructor|]]]. rewrite Hp, map_map. apply map_ext. by intros [[]].
    + rewrite Hr in * by done. split; [done|]. split; [|split]; cbn; done.
Qed.

(** C25: every sequence of objects handed over, sweeps and endings does what the
    agenda says: it fails an assertion exactly when an object is handed over without
    a function, or for a delayed deletion while it waits for one already, and
    otherwise each object is deleted by the function it came with, in the sweep it
    is due in and in no other. *)
Theorem collector_refines ops :
  snd <$> steps (mkBin [] false) ops = agenda_steps (mkAgenda 0 []) ops.
Proof.
  assert (M : matches (mkBin [] false) (mkAgenda 0 [])) by (split; [|split]; done).
  revert M. generalize (mkBin [] false) as b, (mkAgenda 0 []) as s. induction ops as [|o ops IH]; intros b s M; [done|].
  assert (E := step_matches b s o M). cbn [steps agenda_steps]. destruct (step b o) as [[b1 log]|], (agenda_step s o) as [[s1 log1]|]; try done. destruct E as [-> M1].
  cbn [mbind option_bind]. rewrite <- (IH b1 s1 M1). by destruct (steps b1 ops) as [[b2 logs]|].
Qed.

(** Nothing is deleted twice or lost, when no assertion fails. *)
Fixpoint handed (ops : list op) : list (Z * F) :=
  match ops with [] => [] | Hand x _ (Some f) :: ops => (if x =? 0 then [] else [(x, f)]) ++ handed ops | _ :: ops => handed ops end.
Lemma agenda_pending s o s1 log ops : agenda_step s o = Some (s1, log) -> map fst (due s) ++ handed (o :: ops) ≡ₚ log ++ map fst (due s1) ++ handed ops.
Proof.
  destruct o as [x t [f|]| |]; cbn [agenda_step handed mbind option_bind]; [|done|..].
  - destruct (x =? 0); [by intros [= <- <-]|]. destruct (t =? 0); [intros [= <- <-]; cbn; by rewrite <- Permutation_middle|].
    destruct (assert_ _); [|done]. intros [= <- <-]. cbn [due]. rewrite map_app, <- app_assoc. done.
  - intros [= <- <-]. cbn [due]. rewrite app_assoc. f_equiv. rewrite <- map_app. f_equiv. rewrite (Permutation_app_comm (filter _ _)).
    clear. induction (due s) as [|d l IH]; [done|]. rewrite !filter_cons.
    destruct (decide (now s + 1 < d.2)), (decide (d.2 <= now s + 1)); try lia; cbn [app]; [by apply perm_skip|].
    rewrite <- Permutation_middle. by apply perm_skip.
  - by intros [= <- <-].
Qed.
Lemma agenda_all ops : forall s logs, agenda_steps s (ops ++ [Leave]) = Some logs -> map fst (due s) ++ handed ops ≡ₚ concat logs.
Proof.
  induction ops as [|o ops IH]; intros s logs; [intros [= <-]; cbn; by rewrite app_nil_r|]. cbn [app agenda_steps].
  destruct (agenda_step s o) as [[s1 log]|] eqn:E; [|done]. cbn [mbind option_bind]. destruct (agenda_steps s1 (ops ++ [Leave])) as [logs1|] eqn:E1; [|done]. intros [= <-].
  rewrite (agenda_pending s o s1 log ops E). cbn [concat]. f_equiv. by apply IH.
Qed.
Theorem deleted_once ops b logs : steps (mkBin [] false) (ops ++ [Leave]) = Some (b, logs) -> concat logs ≡ₚ handed ops.
Proof.
  intros E. assert (X := collector_refines (ops ++ [Leave])). rewrite E in X. symmetry. by apply (agenda_all ops (mkAgenda 0 [])).
Qed.
End GC.
Arguments bin F : clear implicits.
Arguments op F : clear implicits.
Arguments agenda F : clear implicits.
