(* ===== verification/Mutable.v ===== *)
(** [ThreadSafeMutable] of os/multi_thread.h with its updaters, over the delayed
    deletion of [GarbageCollection]: readers that hold no lock, updaters that
    change a clone under the lock and swap it in, and the thread that sweeps. *)
From S2P Require Import Prelude Threads Garbage.
From stdpp Require Import gmap.
#[local] Open Scope Z_scope.

Section TSM.
(** The object, its default, and the allocator: an address that is not in use. *)
Context {V : Type} (dflt : V) (alloc : gmap Z V -> Z) (old_TTL : Z).
Hypothesis alloc_new : forall m, alloc m <> 0 /\ m !! alloc m = None.

(** [_p], the objects in memory, who holds [_cs], the objects to delete, and
    how many sweeps there were. *)
Record store := mkStore { _p : Z; heap : gmap Z V; _cs : option nat; gc : bin unit; swept : Z }.

(** A reader in [Get], or with the reference it gave, the sweep count and the
    object then; an updater with its clone, or in [EndUpdate]; the sweeper. *)
Inductive local :=
| R_out | R_test | R_have (p born : Z) (v : V)
| U_out | U_in (_Cloned : Z) | U_swapped (pOld : Z) | U_unlock
| Sweeper.
Inductive choice := Go | Try | ReadyModify (from_new : bool) | Write (v : V) | Revert | Done.
Inductive event := Saw (v : V) | Freed | NotBegun.

Definition set_heap (s : store) (h : gmap Z V) : store := mkStore (_p s) h (_cs s) (gc s) (swept s).
Definition set_cs (s : store) (o : option nat) : store := mkStore (_p s) (heap s) o (gc s) (swept s).
Definition delete_all (log : list (Z * unit)) (h : gmap Z V) : gmap Z V := foldr (fun d h => delete d.1 h) h log.

Definition tstep (i : nat) (c : choice) (s : store) (l : local) : option (store * local * option event) :=
  match l with
  | R_out => if _p s =? 0 then Some (s, R_out, Some (Saw dflt)) else Some (s, R_test, None)
  | R_test =>
    match heap s !! _p s with Some v => Some (s, R_have (_p s) (swept s) v, None) | None => Some (s, R_out, Some Freed) end
  | R_have p _ _ =>
    match c with
    | Done => Some (s, R_out, None)
    | _ => Some (s, l, Some (match heap s !! p with Some v => Saw v | None => Freed end))
    end
  | U_out =>
    match _cs s with
    | None => Some (set_cs s (Some i), U_in 0, None)
    | Some _ => Some (s, U_out, match c with Try => Some NotBegun | _ => None end)
    end
  | U_in p =>
    match c with
    | ReadyModify from_new =>
      if p =? 0 then
        v ← if from_new || (_p s =? 0) then Some dflt else heap s !! _p s;
        let a := alloc (heap s) in Some (set_heap s (<[a:=v]> (heap s)), U_in a, None)
      else Some (s, l, None)
    | Write v => if p =? 0 then Some (s, l, None) else Some (set_heap s (<[p:=v]> (heap s)), l, None)
    | Revert => Some (set_heap s (if p =? 0 then heap s else delete p (heap s)), U_unlock, None)
    | Done =>
      if p =? 0 then Some (s, U_unlock, None)
      else Some (mkStore p (heap s) (_cs s) (gc s) (swept s), U_swapped (_p s), None)
    | _ => Some (s, l, None)
    end
  | U_swapped old =>
    '(b, log) ← DeleteObject (gc s) old old_TTL (Some tt);
    Some (mkStore (_p s) (delete_all log (heap s)) (_cs s) b (swept s), U_unlock, None)
  | U_unlock => Some (set_cs s None, U_out, None)
  | Sweeper =>
    r ← Sweep (gc s);
    let '(b, log) := r in Some (mkStore (_p s) (delete_all log (heap s)) (_cs s) b (swept s + 1), l, None)
  end.

(** ** The invariant *)

Implicit Types (s : store) (l : local) (ls : list local) (i k : nat).

Definition pending s : list (_GarbagItem (F := unit)) := _PendingGarbag (gc s).
Definition updating l : bool := match l with U_in _ | U_swapped _ | U_unlock => true | _ => false end.
(** The object a thread is about to hand over. *)
Definition leaving ls (p : Z) : Prop := exists i, ls !! i = Some (U_swapped p).
(** Until which sweep an object is kept. *)
Definition kept s ls (p until : Z) : Prop :=
  p = _p s \/ leaving ls p /\ until <= swept s + rounds old_TTL \/ exists g, g ∈ pending s /\ pObj g = p /\ until <= swept s + TTL g.

Definition ok s ls l : Prop :=
  match l with
  | R_test => _p s <> 0
  | R_have p born v =>
    p <> 0 /\ born <= swept s /\ (swept s < born + rounds old_TTL -> heap s !! p = Some v /\ kept s ls p (born + rounds old_TTL))
  | U_in p => p <> 0 -> p <> _p s /\ is_Some (heap s !! p) /\ Forall (fun g => pObj g <> p) (pending s)
  | U_swapped p => p <> _p s /\ (p <> 0 -> is_Some (heap s !! p)) /\ Forall (fun g => pObj g <> p) (pending s)
  | _ => True
  end.
Record inv s ls : Prop := {
  v_p : _p s <> 0 -> is_Some (heap s !! _p s);
  v_pending g : g ∈ pending s -> pObj g <> 0 /\ pObj g <> _p s /\ is_Some (heap s !! pObj g) /\ ttl_ok g;
  v_nodup : NoDup (map pObj (pending s));
  v_runs : _Running (gc s) = false -> pending s = [];
  v_cs i l : ls !! i = Some l -> updating l = true -> _cs s = Some i;
  v_ok i l : ls !! i = Some l -> ok s ls l }.

Lemma delete_all_out log h (p : Z) : p ∉ map fst log -> delete_all log h !! p = h !! p.
Proof.
  induction log as [|d log IH]; intros Hp; [done|]. cbn [map] in Hp. apply not_elem_of_cons in Hp as [Hne Hp].
  cbn [delete_all foldr]. rewrite lookup_delete_ne by done. by apply IH.
Qed.

Section Steps.
Context (s : store) (ls : list local) (i : nat).
Hypothesis I : inv s ls.

Definition good (c : choice) l : Prop := exists s' l' ev, tstep i c s l = Some (s', l', ev) /\ inv s' (<[i:=l']> ls).

(** Only the holder of the lock updates. *)
Lemma holder l k l0 : ls !! i = Some l -> updating l = true -> ls !! k = Some l0 -> updating l0 = true -> k = i.
Proof. intros Hi Hu Hk H0. assert (A := v_cs _ _ I i l Hi Hu). assert (B := v_cs _ _ I k l0 Hk H0). congruence. Qed.
Lemma leaving_only l p : ls !! i = Some l -> updating l = true -> leaving ls p -> l = U_swapped p.
Proof. intros Hi Hu (k & Hk). assert (k = i) by (by apply (holder l k (U_swapped p))). subst k. congruence. Qed.
Lemma leaving_insert l l' p : ls !! i = Some l -> (forall q, l <> U_swapped q) -> leaving ls p -> leaving (<[i:=l']> ls) p.
Proof.
  intros Hi Hl (k & Hk). exists k. rewrite list_lookup_insert_ne; [done|]. intros ->. rewrite Hi in Hk. injection Hk as Hk. by destruct (Hl p).
Qed.

(** A step that leaves the objects. *)
Lemma store_frame s' l l' : ls !! i = Some l -> _p s' = _p s -> heap s' = heap s -> gc s' = gc s -> swept s' = swept s ->
  (forall q, l <> U_swapped q) -> (forall k l0, k <> i -> ls !! k = Some l0 -> updating l0 = true -> _cs s' = Some k) ->
  (updating l' = true -> _cs s' = Some i) -> ok s' (<[i:=l']> ls) l' -> inv s' (<[i:=l']> ls).
Proof.
  intros Hi Ep Eh Eg Ew Hl Hc Hc' Ho. assert (HI := I). destruct HI as [H1 H2 H3 H4 H5 H6]. unfold pending in *.
  split; unfold pending; rewrite ?Ep, ?Eh, ?Eg; try done.
  - intros k l0 Hk Hu. apply list_lookup_insert_Some in Hk as [(-> & <- & _)|[Hne Hk]]; [by apply Hc'|by apply (Hc k l0)].
  - intros k l0 Hk. apply list_lookup_insert_Some in Hk as [(-> & <- & _)|[Hne Hk]]; [done|]. assert (X := H6 k l0 Hk).
    destruct l0; cbn in *; unfold pending, kept in *; rewrite ?Ep, ?Eh, ?Eg, ?Ew; try done.
    destruct X as (X1 & X2 & X3). split; [done|]. split; [done|]. intros L. destruct (X3 L) as [X4 [X5|[[X5 X6]|X5]]]; (split; [done|]).
    + by left.
    + right; left. split; [|done]. by apply (leaving_insert l).
    + right; right. unfold pending. rewrite Eg. done.
Qed.
Lemma same_frame l l' : ls !! i = Some l -> (forall q, l <> U_swapped q) -> (updating l' = true -> _cs s = Some i) -> ok s (<[i:=l']> ls) l' -> inv s (<[i:=l']> ls).
Proof. intros Hi Hl Hc Ho. apply (store_frame s l l'); try done. intros k l0 _. apply (v_cs _ _ I). Qed.

(** A step of the holder of the lock. *)
Lemma inv_holder s' l l' : ls !! i = Some l -> updating l = true -> _cs s' = _cs s ->
  (_p s <> 0 -> _p s' <> 0) ->
  (forall p born v, ok s ls (R_have p born v) -> ok s' (<[i:=l']> ls) (R_have p born v)) ->
  (_p s' <> 0 -> is_Some (heap s' !! _p s')) ->
  (forall g, g ∈ pending s' -> pObj g <> 0 /\ pObj g <> _p s' /\ is_Some (heap s' !! pObj g) /\ ttl_ok g) ->
  NoDup (map pObj (pending s')) -> (_Running (gc s') = false -> pending s' = []) -> ok s' (<[i:=l']> ls) l' -> inv s' (<[i:=l']> ls).
Proof.
  intros Hi Hu Ec Hp Hr G1 G2 G3 G4 G5. split; try done.
  - intros k l0 Hk H0. rewrite Ec. apply list_lookup_insert_Some in Hk as [(-> & <- & _)|[Hne Hk]]; [by apply (v_cs _ _ I k l)|by apply (v_cs _ _ I k l0)].
  - intros k l0 Hk. apply list_lookup_insert_Some in Hk as [(-> & <- & _)|[Hne Hk]]; [done|]. assert (X := v_ok _ _ I k l0 Hk).
    assert (N : updating l0 = false) by (destruct (updating l0) eqn:E; [|done]; destruct Hne; symmetry; by apply (holder l k l0)).
    destruct l0; try done; [by apply Hp|by apply Hr].
Qed.

(** Readers, when only the object of the holder changes. *)
Lemma readers_frame s' l' : (forall q, ~ leaving ls q) -> _p s' = _p s -> pending s' = pending s -> swept s' = swept s ->
  (forall q w, heap s !! q = Some w -> (q = _p s \/ exists g, g ∈ pending s /\ pObj g = q) -> heap s' !! q = Some w) ->
  forall q born v, ok s ls (R_have q born v) -> ok s' (<[i:=l']> ls) (R_have q born v).
Proof.
  intros NL E1 E2 E3 E4 q born v (X1 & X2 & X3). cbn. rewrite E3. split; [done|]. split; [done|]. intros L. destruct (X3 L) as [X4 X5].
  destruct X5 as [X5|[[X5 _]|X5]]; [|by destruct (NL q)|].
  - split; [by apply E4; [|left]|]. left. by rewrite E1.
  - split; [apply E4; [done|right]; destruct X5 as (g & ? & ? & _); by exists g|]. right; right. by rewrite E2, E3.
Qed.

Lemma good_in c p : ls !! i = Some (U_in p) -> good c (U_in p).
Proof.
  intros Hi. assert (HI := I). destruct HI as [H1 H2 H3 H4 H5 H6]. assert (K := H6 i _ Hi). cbn [ok] in K. assert (Hc := H5 i _ Hi eq_refl).
  assert (Stay : inv s (<[i:=U_in p]> ls)) by (by apply (same_frame (U_in p))).
  assert (NL : forall q, ~ leaving ls q) by (intros q X%(leaving_only (U_in p)); done).
  assert (Rd := fun s' l' => readers_frame s' l' NL).
  unfold good. cbn [tstep]. destruct c as [| |from_new|v| |].
  - eexists _, _, _. split; [reflexivity|done].
  - eexists _, _, _. split; [reflexivity|done].
  - destruct (Z.eqb_spec p 0) as [->|Np]; [|by eexists _, _, _; split; [reflexivity|]].
    assert (Ev : exists v, (if from_new || (_p s =? 0) then Some dflt else heap s !! _p s) = Some v).
    { destruct from_new; [by eexists|]. destruct (Z.eqb_spec (_p s) 0) as [E|E]; [by eexists|]. apply H1, E. }
    destruct Ev as [v ->]. cbn [mbind option_bind]. destruct (alloc_new (heap s)) as [A1 A2].
    assert (Old : forall q w, heap s !! q = Some w -> <[alloc (heap s):=v]> (heap s) !! q = Some w) by (intros q w Hq; rewrite lookup_insert_ne; [done|congruence]).
    assert (Old' : forall q, is_Some (heap s !! q) -> is_Some (<[alloc (heap s):=v]> (heap s) !! q)) by (intros q [w Hw]; exists w; by apply Old).
    eexists _, _, _. split; [reflexivity|]. apply (inv_holder _ (U_in 0)); try done.
    + apply Rd; try done. intros q w Hq _. by apply Old.
    + intros Hp. by apply Old', H1.
    + intros g Hg. destruct (H2 g Hg) as (B1 & B2 & B3 & B4). split; [done|]. split; [done|]. split; [by apply Old'|done].
    + intros _. split; [|split].
      * intros E. cbn in E. assert (Hp : _p s <> 0) by congruence. destruct (H1 Hp) as [w Hw]. congruence.
      * cbn. by rewrite lookup_insert_eq.
      * apply Forall_forall. intros g Hg E. destruct (H2 g Hg) as (_ & _ & [w Hw] & _). congruence.
  - destruct (Z.eqb_spec p 0) as [->|Np]; [by eexists _, _, _; split; [reflexivity|]|]. destruct (K Np) as (K1 & K2 & K3). rewrite Forall_forall in K3.
    eexists _, _, _. split; [reflexivity|]. apply (inv_holder _ (U_in p)); try done.
    + apply Rd; try done. intros q w Hq Hk. cbn. rewrite lookup_insert_ne; [done|]. intros <-. destruct Hk as [->|(g & Hg & E)]; [done|by apply (K3 g)].
    + intros Hp. cbn in *. rewrite lookup_insert_ne by done. by apply H1.
    + intros g Hg. destruct (H2 g Hg) as (B1 & B2 & B3 & B4). cbn in *. rewrite lookup_insert_ne by (intros E; by apply (K3 g)). done.
    + intros _. split; [done|]. split; [cbn; by rewrite lookup_insert_eq|]. by apply Forall_forall.
  - eexists _, _, _. split; [reflexivity|]. destruct (Z.eqb_spec p 0) as [->|Np].
    + apply (store_frame _ (U_in 0)); cbn; try done. intros k l0 _. apply H5.
    + destruct (K Np) as (K1 & K2 & K3). rewrite Forall_forall in K3. apply (inv_holder _ (U_in p)); try done.
      * apply Rd; try done. intros q w Hq Hk. cbn. rewrite lookup_delete_ne; [done|]. intros <-. destruct Hk as [->|(g & Hg & E)]; [done|by apply (K3 g)].
      * intros Hp. cbn in *. rewrite lookup_delete_ne by done. by apply H1.
      * intros g Hg. destruct (H2 g Hg) as (B1 & B2 & B3 & B4). cbn in *. rewrite lookup_delete_ne by (intros E; by apply (K3 g)). done.
  - destruct (Z.eqb_spec p 0) as [->|Np]; (eexists _, _, _; split; [reflexivity|]); [by apply (same_frame (U_in 0))|].
    destruct (K Np) as (K1 & K2 & K3). rewrite Forall_forall in K3. apply (inv_holder _ (U_in p)); try done.
    + intros q born v (X1 & X2 & X3). split; [done|]. split; [done|]. intros L. destruct (X3 L) as [X4 [X5|[[X5 _]|X5]]]; [|by destruct (NL q)|]; (split; [done|]).
      * right; left. split; [|cbn; lia]. exists i. subst q. apply list_lookup_insert_eq. by eapply lookup_lt_Some.
      * by right; right.
    + intros g Hg. destruct (H2 g Hg) as (B1 & B2 & B3 & B4). split; [done|]. split; [by apply K3|done].
    + split; [done|]. split; [done|]. apply Forall_forall. intros g Hg. by destruct (H2 g Hg) as (_ & B2 & _).
Qed.

Lemma good_swapped c old : ls !! i = Some (U_swapped old) -> good c (U_swapped old).
Proof.
  intros Hi. assert (HI := I). destruct HI as [H1 H2 H3 H4 H5 H6]. destruct (H6 i _ Hi) as (K1 & K2 & K3). rewrite Forall_forall in K3.
  assert (Once : forallb (fun g => negb (pObj g =? old)) (_PendingGarbag (gc s)) = true).
  { apply forallb_forall. intros g Hg%list_elem_of_In. by rewrite (proj2 (Z.eqb_neq _ _)) by (by apply K3). }
  unfold good. cbn [tstep]. unfold DeleteObject. cbn [mbind option_bind]. rewrite Once. destruct (Z.eqb_spec old 0) as [->|No].
  - eexists _, _, _. split; [reflexivity|]. apply (inv_holder _ (U_swapped 0)); try done.
    intros q born v (X1 & X2 & X3). split; [done|]. split; [done|]. intros L. destruct (X3 L) as [X4 [X5|[[X5 _]|X5]]]; (split; [done|]).
    + by left.
    + apply (leaving_only (U_swapped 0)) in X5; [|done|done]. by injection X5 as <-.
    + by right; right.
  - destruct (Z.eqb_spec old_TTL 0) as [Et|Et]; (eexists _, _, _; split; [reflexivity|]); (apply (inv_holder _ (U_swapped old)); try done); cbn.
    + intros q born v (X1 & X2 & X3). split; [done|]. split; [done|]. rewrite Et. change (rounds 0) with 0. cbn. lia.
    + intros Hp. rewrite lookup_delete_ne by done. by apply H1.
    + intros g Hg. destruct (H2 g Hg) as (B1 & B2 & B3 & B4). rewrite lookup_delete_ne by (intros E; by apply (K3 g)). done.
    + intros q born v (X1 & X2 & X3). split; [done|]. split; [done|]. intros L. destruct (X3 L) as [X4 [X5|[[X5 X6]|(g & X5 & X6)]]]; (split; [done|]).
      * by left.
      * apply (leaving_only (U_swapped old)) in X5; [|done|done]. injection X5 as <-. right; right. eexists. split; [apply elem_of_app; right; by apply list_elem_of_singleton|done].
      * right; right. exists g. split; [apply elem_of_app; by left|done].
    + intros g [Hg| ->%list_elem_of_singleton]%elem_of_app; [by apply H2|]. split; [done|]. split; [done|]. split; [by apply K2|apply rounds_range].
    + rewrite map_app. cbn. apply NoDup_app. split; [done|]. split; [|apply NoDup_singleton]. intros x Hx ->%list_elem_of_singleton.
      apply list_elem_of_fmap in Hx as (g & E & Hg). by apply (K3 g).
Qed.

(** A sweep. *)
Lemma swept_out p : Forall (fun g => pObj g <> p \/ 1 < TTL g) (pending s) ->
  p ∉ map fst (map Garbage.Delete (filter (fun g => TTL g <= 1) (pending s))).
Proof.
  intros H. rewrite map_map. intros (g & E & [Hg Hin]%list_elem_of_filter)%list_elem_of_fmap. rewrite Forall_forall in H. destruct (H g Hin); cbn in *; [congruence|lia].
Qed.
Lemma good_sweeper c : ls !! i = Some Sweeper -> good c Sweeper.
Proof.
  intros Hi. assert (HI := I). destruct HI as [H1 H2 H3 H4 H5 H6]. unfold good. cbn [tstep].
  assert (Ei : <[i:=Sweeper]> ls = ls) by (by apply list_insert_id).
  assert (Sw : exists b, Sweep (gc s) = Some (b, map Garbage.Delete (filter (fun g => TTL g <= 1) (pending s))) /\
    _PendingGarbag b = map older (filter (fun g => 1 < TTL g) (pending s)) /\ (_Running b = false -> _PendingGarbag b = [])).
  { destruct (_Running (gc s)) eqn:Er.
    - rewrite Sweep_spec; [|apply Forall_forall; intros g Hg; by apply H2|done]. by eexists.
    - exists (gc s). unfold Sweep. rewrite Er. unfold pending in *. rewrite H4 by done. done. }
  destruct Sw as (b & -> & Ep & Er). cbn [mbind option_bind]. eexists _, _, _. split; [reflexivity|]. rewrite Ei.
  assert (Out := fun p H => delete_all_out (map Garbage.Delete (filter (fun g => TTL g <= 1) (pending s))) (heap s) p (swept_out p H)).
  assert (Cur : _p s <> 0 -> Forall (fun g => pObj g <> _p s \/ 1 < TTL g) (pending s)) by (intros _; apply Forall_forall; intros g Hg; left; by apply H2).
  assert (Kp : forall q, Forall (fun g => pObj g <> q) (pending s) -> Forall (fun g => pObj g <> q \/ 1 < TTL g) (pending s)) by (intros q H; eapply Forall_impl; [exact H|]; cbn; tauto).
  assert (One : forall g q, g ∈ pending s -> pObj g = q -> 1 < TTL g -> Forall (fun g => pObj g <> q \/ 1 < TTL g) (pending s)).
  { intros g q Hg E Ht. apply Forall_forall. intros g' Hg'. destruct (decide (pObj g' = q)) as [E'|]; [|by left]. right.
    apply list_elem_of_lookup in Hg as [a Ha]. apply list_elem_of_lookup in Hg' as [a' Ha'].
    assert (a = a') as <- by (eapply NoDup_lookup; [exact H3|rewrite list_lookup_fmap, Ha; cbn; by rewrite E|rewrite list_lookup_fmap, Ha'; cbn; by rewrite E']). congruence. }
  split; unfold pending; cbn; try done.
  - intros Hp. rewrite Out by (by apply Cur). by apply H1.
  - intros g. rewrite Ep. intros (g0 & -> & [Hg Hin]%list_elem_of_filter)%list_elem_of_fmap. destruct (H2 g0 Hin) as (B1 & B2 & B3 & B4).
    unfold older. cbn. split; [done|]. split; [done|]. rewrite Out by (by apply (One g0)). split; [done|]. unfold ttl_ok in *. cbn. lia.
  - rewrite Ep, map_map. cbn. clear -H3. induction (pending s) as [|g l IH]; [constructor|]. cbn in H3. apply NoDup_cons in H3 as [Hn Hd]. rewrite filter_cons.
    destruct (decide (1 < TTL g)); [|by apply IH]. cbn. apply NoDup_cons. split; [|by apply IH]. intros (g0 & E & [_ Hin]%list_elem_of_filter)%list_elem_of_fmap.
    apply Hn. apply list_elem_of_fmap. by exists g0.
  - intros k l Hk. assert (X := H6 k l Hk). destruct l; try done; cbn in X |- *.
    + destruct X as (X1 & X2 & X3). split; [done|]. split; [lia|]. intros L. destruct (X3 ltac:(lia)) as [X4 [X5|[[X5 X6]|(g & X5 & X6 & X7)]]].
      * subst p. rewrite Out by (by apply Cur). split; [done|]. by left.
      * assert (Xk := X5). destruct Xk as (j & Hj). destruct (H6 j _ Hj) as (_ & _ & Y). rewrite Out by (by apply Kp). split; [done|].
        right; left. split; [done|]. cbn. lia.
      * rewrite Out by (apply (One g); [done|done|lia]). split; [done|]. right; right. exists (older g). unfold pending. cbn. rewrite Ep. split; [|unfold older; cbn; split; [done|lia]].
        apply list_elem_of_fmap. exists g. split; [done|]. apply list_elem_of_filter. split; [lia|done].
    + intros Np. destruct (X Np) as (X1 & X2 & X3). split; [done|]. rewrite Out by (by apply Kp). split; [done|]. unfold pending. cbn. rewrite Ep.
      apply Forall_forall. intros g (g0 & -> & [Hg Hin]%list_elem_of_filter)%list_elem_of_fmap. rewrite Forall_forall in X3. by apply (X3 g0).
    + destruct X as (X1 & X2 & X3). split; [done|]. rewrite Out by (by apply Kp). split; [done|]. unfold pending. cbn. rewrite Ep.
      apply Forall_forall. intros g (g0 & -> & [Hg Hin]%list_elem_of_filter)%list_elem_of_fmap. rewrite Forall_forall in X3. by apply (X3 g0).
Qed.

Lemma store_step c l : ls !! i = Some l -> good c l.
Proof.
  intros Hi. assert (X := v_ok _ _ I i l Hi). destruct l; cbn in X.
  - unfold good. cbn [tstep]. destruct (Z.eqb_spec (_p s) 0) as [E|E]; (eexists _, _, _; split; [reflexivity|]); by apply (same_frame R_out).
  - unfold good. cbn [tstep]. destruct (v_p _ _ I X) as [v Hv]. rewrite Hv. eexists _, _, _. split; [reflexivity|]. apply (same_frame R_test); try done.
    split; [done|]. split; [lia|]. intros L. split; [done|]. by left.
  - unfold good. cbn [tstep]. assert (Stay : inv s (<[i:=R_have p born v]> ls)) by (by rewrite list_insert_id).
    assert (Away : inv s (<[i:=R_out]> ls)) by (by apply (same_frame (R_have p born v))). destruct c; by eexists _, _, _.
  - unfold good. cbn [tstep]. destruct (_cs s) as [k|] eqn:Ec.
    + eexists _, _, _. split; [reflexivity|]. by rewrite list_insert_id.
    + eexists _, _, _. split; [reflexivity|]. apply (store_frame _ U_out); cbn; try done. intros k l0 Hne Hk Hu. assert (Y := v_cs _ _ I k l0 Hk Hu). congruence.
  - by apply good_in.
  - by apply good_swapped.
  - eexists _, _, _. split; [reflexivity|]. apply (store_frame _ U_unlock); cbn; try done. intros k l0 Hne Hk Hu. destruct Hne. by apply (holder U_unlock k l0).
  - by apply good_sweeper.
Qed.
End Steps.

Definition init : store := mkStore 0 ∅ None (mkBin [] false) 0.
Definition outside l : bool := match l with R_out | U_out | Sweeper => true | _ => false end.

Lemma init_inv ls : Forall (fun l => outside l = true) ls -> inv init ls.
Proof.
  intros H. assert (Hl : forall k l, ls !! k = Some l -> outside l = true) by (intros k l Hk; rewrite Forall_forall in H; by eapply H, list_elem_of_lookup_2).
  split; cbn; try done.
  - intros g Hg. by apply not_elem_of_nil in Hg.
  - apply NoDup_nil_2.
  - intros k l Hk Hu. apply Hl in Hk. by destruct l.
  - intros k l Hk. apply Hl in Hk. by destruct l.
Qed.
Lemma run_inv sched : forall s ls, inv s ls -> Forall (fun a : nat * choice => (a.1 < length ls)%nat) sched ->
  exists s' ls' es, run tstep (s, ls) sched = Some (s', ls', es) /\ inv s' ls'.
Proof.
  induction sched as [|[i c] t IH]; intros s ls HI Hv; [by exists s, ls, []|].
  inversion_clear Hv as [|? ? Hi Ht]. cbn [fst] in Hi. destruct (lookup_lt_is_Some_2 ls i Hi) as [l Hl].
  destruct (store_step s ls i HI c l Hl) as (s1 & l1 & ev & E & HI1).
  destruct (IH s1 (<[i:=l1]> ls) HI1) as (s2 & ls2 & es & Er & HI2); [by rewrite length_insert|].
  exists s2, ls2, (match ev with Some ev => ev :: es | None => es end). split; [|done].
  cbn [run]. unfold sys_step. cbn [fst snd]. rewrite Hl. cbn [mbind option_bind]. rewrite E. cbn [mbind option_bind]. by rewrite Er.
Qed.

(** C20: readers, updaters and the sweeper in every interleaving: no clone is ever
    made of a deleted object, one updater at a time has the lock, and what a
    reader got stays in memory, unchanged, for as many sweeps as the delay
    has seconds. *)
Theorem readers_keep ls0 sched : Forall (fun l => outside l = true) ls0 -> Forall (fun a : nat * choice => (a.1 < length ls0)%nat) sched ->
  exists s ls es, run tstep (init, ls0) sched = Some (s, ls, es) /\
    (forall i j a b, ls !! i = Some a -> ls !! j = Some b -> updating a = true -> updating b = true -> i = j) /\
    (forall i p born v, ls !! i = Some (R_have p born v) -> swept s < born + rounds old_TTL -> heap s !! p = Some v).
Proof.
  intros H0 Hv. destruct (run_inv sched init ls0 (init_inv ls0 H0) Hv) as (s & ls & es & Er & HI). exists s, ls, es. split; [done|]. split.
  - intros i j a b Ha Hb Ua Ub. by apply (holder s ls j HI b i a).
  - intros i p born v Hi L. apply (v_ok _ _ HI) in Hi as (_ & _ & X). by apply X.
Qed.
End TSM.

(** A reader holds the first object while an updater replaces it and two of
    the three sweeps go by. *)
Definition above (m : gmap Z Z) : Z := 1 + map_fold (fun k _ a => Z.max k a) 0 m.
Lemma above_new m : above m <> 0 /\ m !! above m = None.
Proof.
  unfold above. assert (X : forall k v, m !! k = Some v -> k <= map_fold (fun k _ a => Z.max k a) 0 m).
  { intros k v. revert k v. apply (map_fold_weak_ind (fun r m => forall k v, m !! k = Some v -> k <= r)); [done|].
    intros i x m' r Hi IH k v [(-> & _)|(Hne & Hk)]%lookup_insert_Some; [lia|]. specialize (IH k v Hk). lia. }
  assert (P : 0 <= map_fold (fun k _ a => Z.max k a) 0 m) by (apply (map_fold_weak_ind (fun r _ => 0 <= r)); intros; lia).
  split; [lia|]. destruct (m !! (1 + _)) as [v|] eqn:E; [|done]. apply X in E. lia.
Qed.
Definition update (v : Z) : list (nat * choice (V := Z)) :=
  map (fun c => (1%nat, c)) [Go; ReadyModify false; Write v; Done; Go; Go].
Definition reading : list (nat * choice (V := Z)) :=
  update 7 ++ [(0%nat, Go); (0%nat, Go)] ++ update 8 ++ [(2%nat, Go); (2%nat, Go); (0%nat, Go); (2%nat, Go); (0%nat, Go)].
Lemma reading_events : option_map snd (run (tstep 0 above 2500) (init, [R_out; U_out; Sweeper]) reading) = Some [Saw 7; Freed].
Proof. vm_compute. reflexivity. Qed.

Lemma readers_keep_witness : exists s ls es, run (tstep 0 above 2500) (init, [R_out; U_out; Sweeper]) reading = Some (s, ls, es) /\
    (forall i j a b, ls !! i = Some a -> ls !! j = Some b -> updating a = true -> updating b = true -> i = j) /\
    (forall i p born v, ls !! i = Some (R_have p born v) -> swept s < born + rounds 2500 -> heap s !! p = Some v).
Proof. apply (readers_keep 0 above 2500 above_new [R_out; U_out; Sweeper] reading); repeat constructor. Defined.
