(* ===== verification/ParWriter.v ===== *)
(** [ParallelWriter] of os/multi_thread.h: threads claim room in a buffer with
    one atomic addition, write there and finalize, and the write thread takes
    the finalized chunks down in order. *)
From S2P Require Import Prelude Threads.

Abbreviation zlen l := (Z.of_nat (length l)).

Section Writer.
(** [pBuf] of the front buffer and [_WriteBufferSize]. *)
Context (pBuf _WriteBufferSize : Z).

Definition _ChunkHeaderSize : Z := 8.
Definition INFINITE : Z := 0xffffffff.

Record wbuf := mkBuf {
  bytes : mem; Used : Z; stat_TotalClaimed : Z; stat_ClaimFailure : Z; stat_FinalizeFailure : Z }.
Definition with_bytes (b : wbuf) (m : mem) : wbuf :=
  mkBuf m (Used b) (stat_TotalClaimed b) (stat_ClaimFailure b) (stat_FinalizeFailure b).

(** The fields of a [_Chunk] at [p]. *)
Definition get_size (m : mem) (p : Z) : Z := load 4 m p.
Definition get_length (m : mem) (p : Z) : Z := load 4 m (p + 4).

(** [ClaimWriting] and [FinalizeWritten] as their clients call them in [Write]:
    where a thread is, with the offset of its chunk and what it writes. *)
Inductive local :=
| W_idle
| W_failed                              (* no room *)
| W_claimed (chunk : Z) (d : list Z)    (* the room is taken *)
| W_sized (chunk : Z) (d : list Z)      (* [size] is set *)
| W_open (chunk : Z) (d : list Z)       (* and [length]; the pointer is returned *)
| W_copied (chunk : Z) (d : list Z).
Inductive choice := Write (d : list Z) | Go | GiveUp.
Inductive event := Claimed (i : nat) (d : list Z) | Rejected | Written (i : nat) | Lost (i : nat).

Definition fits (chunk size : Z) : bool := s32 (chunk + s32 size + _ChunkHeaderSize) <=? s32 _WriteBufferSize.

Definition wstep (i : nat) (c : choice) (b : wbuf) (l : local) : option (wbuf * local * option event) :=
  match l with
  | W_idle =>
    match c with
    | Write d =>
      let size := u32 (zlen d) in
      let used := s32 (Used b + s32 (size + _ChunkHeaderSize)) in
      let chunk := s32 (used - (size + _ChunkHeaderSize)) in
      let b := mkBuf (bytes b) used (stat_TotalClaimed b) (stat_ClaimFailure b) (stat_FinalizeFailure b) in
      if fits chunk size then Some (b, W_claimed chunk d, Some (Claimed i d)) else Some (b, W_failed, None)
    | _ => Some (b, l, None)
    end
  | W_failed =>
    Some (mkBuf (bytes b) (Used b) (s32 (stat_TotalClaimed b + 1)) (s32 (stat_ClaimFailure b + 1)) (stat_FinalizeFailure b), W_idle, Some Rejected)
  | W_claimed chunk d =>
    Some (mkBuf (store 4 (bytes b) (pBuf + chunk) (u32 (zlen d))) (Used b) (s32 (stat_TotalClaimed b + 1)) (stat_ClaimFailure b) (stat_FinalizeFailure b),
          W_sized chunk d, None)
  | W_sized chunk d => Some (with_bytes b (store 4 (bytes b) (pBuf + chunk + 4) INFINITE), W_open chunk d, None)
  | W_open chunk d =>
    match c with
    | GiveUp => Some (b, W_idle, Some (Lost i))
    | _ => Some (with_bytes b (mstore (bytes b) (pBuf + chunk + 8) d), W_copied chunk d, None)
    end
  | W_copied chunk d =>
    let p := pBuf + chunk + 8 - _ChunkHeaderSize in
    let len := u32 (zlen d) in
    if (len <=? get_size (bytes b) p) && (get_length (bytes b) p =? INFINITE) && (get_size (bytes b) p <? _WriteBufferSize)
    then Some (with_bytes b (store 4 (bytes b) (p + 4) len), W_idle, Some (Written i))
    else Some (mkBuf (bytes b) (Used b) (stat_TotalClaimed b) (stat_ClaimFailure b) (s32 (stat_FinalizeFailure b + 1)), W_idle, None)
  end.

(** [_WriteDownBackBuffer]: what goes to [Write] of the actual writer, and how
    many chunks are not finalized; [k] chunks at most.  The usage statistics,
    averages in floating point that nothing here reads, are left out. *)
Fixpoint write_loop (k : nat) (m : mem) (p pend : Z) (out : list (list Z)) (unfinalized : Z) : option (list (list Z) * Z) :=
  match k with
  | O => None
  | S k =>
    if p <? pend then
      let size := get_size m p in
      if size =? 0 then Some (out, unfinalized)
      else
        let length := get_length m p in
        let next := p + 8 + size in
        if length =? INFINITE then write_loop k m next pend out (unfinalized + 1)
        else write_loop k m next pend (if 0 <? length then out ++ [mem_bytes m (p + 8) (Z.to_nat length)] else out) unfinalized
    else Some (out, unfinalized)
  end.
Definition zeroed (m : mem) (p : Z) (size : nat) : mem := mstore m p (repeat 0 size).
Definition _WriteDownBackBuffer (b : wbuf) : option (wbuf * list (list Z) * Z) :=
  let pend := pBuf + Z.min (Used b) (s32 (_WriteBufferSize - _ChunkHeaderSize)) in
  r ← write_loop (S (Z.to_nat _WriteBufferSize)) (bytes b) pBuf pend [] 0;
  let '(out, unfinalized) := r in
  Some (mkBuf (zeroed (bytes b) pBuf (Z.to_nat _WriteBufferSize)) 0 (stat_TotalClaimed b) (stat_ClaimFailure b) (stat_FinalizeFailure b), out, unfinalized).

(** The contract: the claims in order, each written by the thread that made it
    or given up. *)
Inductive entry := Open (i : nat) (d : list Z) | Closed (d : list Z) | Gone (d : list Z).
Inductive q_step : list entry -> event -> list entry -> Prop :=
| q_claim Q i d : q_step Q (Claimed i d) (Q ++ [Open i d])
| q_reject Q : q_step Q Rejected Q
| q_written Q j i d : Q !! j = Some (Open i d) -> q_step Q (Written i) (<[j:=Closed d]> Q)
| q_lost Q j i d : Q !! j = Some (Open i d) -> q_step Q (Lost i) (<[j:=Gone d]> Q).
Inductive q_run : list entry -> list event -> list entry -> Prop :=
| q_nil Q : q_run Q [] Q
| q_cons Q e Q1 es Q2 : q_step Q e Q1 -> q_run Q1 es Q2 -> q_run Q (e :: es) Q2.
(** What reaches the file, and how much does not. *)
Definition written (Q : list entry) : list (list Z) := omap (fun e => match e with Closed d => Some d | _ => None end) Q.
Definition lost (Q : list entry) : Z := cnt (fun e => match e with Closed _ => false | _ => true end) Q.

(** What the write thread makes of a chunk: it stops where no size is set yet, steps
    over it where there is no length, counts it where it is not finalized. *)
Inductive seen := S_stop | S_skip | S_count | S_text (d : list Z).
Definition sees (ls : list local) (e : entry) : seen :=
  match e with
  | Closed d => S_text d
  | Gone _ => S_count
  | Open i _ => match ls !! i with Some (W_claimed _ _) => S_stop | Some (W_sized _ _) => S_skip | _ => S_count end
  end.
Fixpoint taken (ls : list local) (Q : list entry) : list (list Z) * Z :=
  match Q with
  | [] => ([], 0)
  | e :: Q =>
    let t := taken ls Q in
    match sees ls e with S_stop => ([], 0) | S_skip => t | S_count => (t.1, t.2 + 1) | S_text d => (d :: t.1, t.2) end
  end.

(** ** The invariant *)

Implicit Types (b : wbuf) (l : local) (ls : list local) (i j k : nat) (Q : list entry) (m : mem).

Definition data (e : entry) : list Z := match e with Open _ d | Closed d | Gone d => d end.
Fixpoint total Q : Z := match Q with [] => 0 | e :: Q => 8 + zlen (data e) + total Q end.
(** The offset of the chunk of entry [j]. *)
Definition off Q j : Z := total (take j Q).

Definition head (size length : Z) : list Z := le_bytes 4 size ++ le_bytes 4 length.
(** The chunk of an entry at [p]. *)
Definition closed_at m p (e : entry) : Prop :=
  match e with
  | Open _ _ => True
  | Closed d => holds m p (head (zlen d) (zlen d) ++ d)
  | Gone d => holds m p (head (zlen d) INFINITE)
  end.
(** The chunk of a thread at offset [c]. *)
Definition open_at m l : Prop :=
  match l with
  | W_claimed c d => holds m (pBuf + c) (head 0 0)
  | W_sized c d => holds m (pBuf + c) (head (zlen d) 0)
  | W_open c d => holds m (pBuf + c) (head (zlen d) INFINITE)
  | W_copied c d => holds m (pBuf + c) (head (zlen d) INFINITE ++ d)
  | _ => True
  end.
Definition own l : option (Z * list Z) :=
  match l with W_claimed c d | W_sized c d | W_open c d | W_copied c d => Some (c, d) | _ => None end.

Record inv b ls Q : Prop := {
  v_width : 8 < _WriteBufferSize < 2 ^ 31;
  v_used : 0 <= Used b < 2 ^ 31 /\ (Used b = total Q \/ _WriteBufferSize < Used b);
  v_final : stat_FinalizeFailure b = 0;
  v_room : total Q <= _WriteBufferSize;
  v_some e : e ∈ Q -> data e <> [];
  v_rest a : pBuf + total Q <= a < pBuf + _WriteBufferSize -> bytes b a = 0;
  v_closed j e : Q !! j = Some e -> closed_at (bytes b) (pBuf + off Q j) e;
  v_open j i d : Q !! j = Some (Open i d) -> exists l, ls !! i = Some l /\ own l = Some (off Q j, d);
  v_own i l c d : ls !! i = Some l -> own l = Some (c, d) -> exists j, Q !! j = Some (Open i d) /\ c = off Q j;
  v_at i l : ls !! i = Some l -> open_at (bytes b) l }.

(** ** Offsets *)

Lemma total_app Q R : total (Q ++ R) = total Q + total R.
Proof. induction Q as [|e Q IH]; cbn [app total]; lia. Qed.
Lemma total_nonneg Q : 0 <= total Q.
Proof. induction Q as [|e Q IH]; cbn [total]; lia. Qed.
Lemma total_data Q : forall R, map data Q = map data R -> total Q = total R.
Proof. induction Q as [|e Q IH]; intros [|e' R] H; try done. injection H as He H. cbn [total]. rewrite He, (IH R H). done. Qed.
Lemma data_insert Q j e e' : Q !! j = Some e -> data e' = data e -> map data (<[j:=e']> Q) = map data Q.
Proof.
  revert j. induction Q as [|x Q IH]; intros [|j] H E; try done.
  - injection H as ->. cbn. by rewrite E.
  - cbn. f_equal. by apply IH.
Qed.
Lemma total_insert Q j e e' : Q !! j = Some e -> data e' = data e -> total (<[j:=e']> Q) = total Q.
Proof. intros H E. apply total_data. by apply (data_insert Q j e). Qed.
Lemma off_insert Q j e e' k : Q !! j = Some e -> data e' = data e -> off (<[j:=e']> Q) k = off Q k.
Proof. intros H E. unfold off. apply total_data. rewrite <- !firstn_map. f_equal. by apply (data_insert Q j e). Qed.
Lemma off_app Q R j : (j <= length Q)%nat -> off (Q ++ R) j = off Q j.
Proof. intros H. unfold off. by rewrite take_app_le. Qed.
Lemma off_length Q : off Q (length Q) = total Q.
Proof. unfold off. by rewrite firstn_all. Qed.
Lemma off_next Q j e : Q !! j = Some e -> off Q (S j) = off Q j + 8 + zlen (data e).
Proof. intros H. unfold off. rewrite (take_S_r _ _ _ H), total_app. cbn [total]. lia. Qed.
Lemma off_le Q j k : (j <= k)%nat -> off Q j <= off Q k.
Proof.
  intros H. unfold off. replace k with (j + (k - j))%nat by lia. rewrite <- (take_take_drop Q j (k - j)), total_app. assert (X := total_nonneg (take (k - j) (drop j Q))). lia.
Qed.
Lemma off_range Q j e : Q !! j = Some e -> 0 <= off Q j /\ off Q j + 8 + zlen (data e) <= total Q.
Proof.
  intros H. assert (L := lookup_lt_Some _ _ _ H). rewrite <- off_length. rewrite <- (off_next Q j e H).
  split; [apply total_nonneg|apply off_le; lia].
Qed.
(** Chunks do not overlap. *)
Lemma off_apart Q j k e e' : Q !! j = Some e -> Q !! k = Some e' -> j <> k ->
  off Q j + 8 + zlen (data e) <= off Q k \/ off Q k + 8 + zlen (data e') <= off Q j.
Proof.
  intros Hj Hk Hne. rewrite <- (off_next Q j e Hj), <- (off_next Q k e' Hk). destruct (Nat.lt_ge_cases j k); [left|right]; apply off_le; lia.
Qed.

(** ** Chunks in memory *)

Lemma holds_zero m p k : (forall a, p <= a < p + Z.of_nat k -> m a = 0) -> holds m p (repeat 0 k).
Proof.
  revert p. induction k as [|k IH]; intros p H; [done|]. apply (holds_join _ _ [0] (repeat 0 k)).
  - unfold holds. cbn [length mem_bytes]. f_equal. apply H. lia.
  - apply IH. intros a Ha. apply H. cbn [length] in Ha. lia.
Qed.
Lemma length_head (n k : Z) : length (head n k) = 8%nat.
Proof. done. Qed.
Lemma closed_out m m' p e : closed_at m p e -> (forall a, p <= a < p + 8 + zlen (data e) -> m' a = m a) -> closed_at m' p e.
Proof.
  intros H Ha. destruct e; cbn [closed_at data] in *; [done| |]; apply (holds_out m); try done; intros a; rewrite ?length_app, ?length_head; intros Hr; apply Ha; lia.
Qed.
Lemma open_out m m' l c d : own l = Some (c, d) -> open_at m l -> (forall a, pBuf + c <= a < pBuf + c + 8 + zlen d -> m' a = m a) -> open_at m' l.
Proof.
  intros Ho H Ha. destruct l; try done; injection Ho as -> ->; cbn [open_at] in *; try done; apply (holds_out m); try done; intros a;
    rewrite ?length_app, ?length_head, ?length_le_bytes; intros Hr; apply Ha; lia.
Qed.
Lemma get_size_is m p (n k : Z) t : holds m p (head n k ++ t) -> 0 <= n < 2 ^ 32 -> 0 <= k < 2 ^ 32 -> get_size m p = n /\ get_length m p = k.
Proof.
  intros [H _]%holds_app Hn Hk. unfold head in H. apply holds_app in H as [H1 H2]. unfold get_size, get_length, load, holds in *.
  rewrite !length_le_bytes in *. change (Z.of_nat 4) with 4 in H2. rewrite H1, H2, !le_val_bytes. change (8 * Z.of_nat 4) with 32. rewrite !Z.mod_small by lia. done.
Qed.

(** ** The steps *)

Section Steps.
Context (b : wbuf) (ls : list local) (Q : list entry) (i : nat).
Hypothesis I : inv b ls Q.

(** The thread writes within its own chunk. *)
Lemma inv_write b' l l' c d : ls !! i = Some l -> own l = Some (c, d) -> own l' = Some (c, d) -> Used b' = Used b -> stat_FinalizeFailure b' = stat_FinalizeFailure b ->
  (forall a, a < pBuf + c \/ pBuf + c + 8 + zlen d <= a -> bytes b' a = bytes b a) -> open_at (bytes b') l' -> inv b' (<[i:=l']> ls) Q.
Proof.
  intros Hi Ho Ho' Eu Es Hm Hl. assert (HI := I). destruct HI as [H1 H2 HF H3 H4 H5 H6 H7 H8 H9]. destruct (H8 i l c d Hi Ho) as (j & Hj & ->).
  assert (R := off_range Q j _ Hj). cbn [data] in R. split; rewrite ?Eu, ?Es; try done.
  - intros a Ha. rewrite Hm by lia. by apply H5.
  - intros k e Hk. destruct (decide (k = j)) as [->|Hne]; [rewrite Hj in Hk; by injection Hk as <-|].
    apply (closed_out (bytes b)); [by apply H6|]. intros a Ha. apply Hm. destruct (off_apart Q k j e _ Hk Hj Hne); cbn [data] in *; lia.
  - intros k i' d' Hk. destruct (H7 k i' d' Hk) as (l0 & Y1 & Y2). destruct (decide (i' = i)) as [->|Hne].
    + exists l'. rewrite list_lookup_insert_eq by (by eapply lookup_lt_Some). split; [done|]. rewrite Hi in Y1. injection Y1 as <-. congruence.
    + exists l0. by rewrite list_lookup_insert_ne.
  - intros k l0 c' d' Hk H0. apply list_lookup_insert_Some in Hk as [(-> & <- & _)|[Hne Hk]]; [|by apply (H8 k l0)].
    rewrite Ho' in H0. injection H0 as <- <-. by exists j.
  - intros k l0 Hk. apply list_lookup_insert_Some in Hk as [(-> & <- & _)|[Hne Hk]]; [done|]. destruct (own l0) as [[c' d']|] eqn:E0; [|by destruct l0].
    destruct (H8 k l0 c' d' Hk E0) as (j' & Hj' & ->). apply (open_out (bytes b) _ l0 (off Q j') d'); [done|by apply (H9 k)|]. intros a Ha. apply Hm.
    assert (j' <> j) as Hd by (intros ->; rewrite Hj in Hj'; injection Hj'; congruence).
    destruct (off_apart Q j' j _ _ Hj' Hj Hd); cbn [data] in *; lia.
Qed.
(** The thread is done with its chunk. *)
Lemma inv_close b' l c d e j : ls !! i = Some l -> own l = Some (c, d) -> Q !! j = Some (Open i d) -> c = off Q j ->
  data e = d -> (forall k d', e <> Open k d') -> Used b' = Used b -> stat_FinalizeFailure b' = stat_FinalizeFailure b ->
  (forall a, a < pBuf + c \/ pBuf + c + 8 + zlen d <= a -> bytes b' a = bytes b a) -> closed_at (bytes b') (pBuf + c) e ->
  inv b' (<[i:=W_idle]> ls) (<[j:=e]> Q).
Proof.
  intros Hi Ho Hj Hc Ed Ne Eu Es Hm He. assert (HI := I). destruct HI as [H1 H2 HF H3 H4 H5 H6 H7 H8 H9].
  assert (R := off_range Q j _ Hj). cbn [data] in R. assert (Lj := lookup_lt_Some _ _ _ Hj). assert (Li := lookup_lt_Some _ _ _ Hi).
  assert (Et := total_insert Q j _ e Hj Ed). assert (Eo := fun k => off_insert Q j _ e k Hj Ed).
  split; rewrite ?Eu, ?Et, ?Es; try done.
  - intros x (k & Hk)%list_elem_of_lookup. apply list_lookup_insert_Some in Hk as [(_ & <- & _)|[_ Hk]].
    + rewrite Ed. apply (H4 (Open i d)). by eapply list_elem_of_lookup_2.
    + apply H4. by eapply list_elem_of_lookup_2.
  - intros a Ha. rewrite Hm by lia. by apply H5.
  - intros k x Hk. rewrite Eo. apply list_lookup_insert_Some in Hk as [(-> & <- & _)|[Hne Hk]]; [by rewrite <- Hc|].
    apply (closed_out (bytes b)); [by apply H6|]. intros a Ha. apply Hm. destruct (off_apart Q j k _ x Hj Hk Hne); cbn [data] in *; lia.
  - intros k i' d' Hk. apply list_lookup_insert_Some in Hk as [(_ & Hk & _)|[Hne Hk]]; [by destruct (Ne _ _ Hk)|]. rewrite Eo.
    destruct (H7 k i' d' Hk) as (l0 & Y1 & Y2). exists l0. split; [|done]. rewrite list_lookup_insert_ne; [done|]. intros <-.
    rewrite Hi in Y1. injection Y1 as <-. rewrite Ho in Y2. injection Y2 as Y2 _. destruct (off_apart Q j k _ _ Hj Hk Hne); cbn [data] in *; lia.
  - intros k l0 c' d' Hk H0. apply list_lookup_insert_Some in Hk as [(-> & <- & _)|[Hne Hk]]; [done|].
    destruct (H8 k l0 c' d' Hk H0) as (j' & Hj' & ->). exists j'. rewrite Eo. split; [|done]. rewrite list_lookup_insert_ne; [done|].
    intros <-. rewrite Hj in Hj'. injection Hj'. congruence.
  - intros k l0 Hk. apply list_lookup_insert_Some in Hk as [(-> & <- & _)|[Hne Hk]]; [done|]. destruct (own l0) as [[c' d']|] eqn:E0; [|by destruct l0].
    destruct (H8 k l0 c' d' Hk E0) as (j' & Hj' & ->). apply (open_out (bytes b) _ l0 (off Q j') d'); [done|by apply (H9 k)|]. intros a Ha. apply Hm.
    assert (j' <> j) as Hd by (intros ->; rewrite Hj in Hj'; injection Hj'; congruence).
    destruct (off_apart Q j' j _ _ Hj' Hj Hd); cbn [data] in *; lia.
Qed.
(** What the thread holds fits. *)
Lemma own_size l c d : ls !! i = Some l -> own l = Some (c, d) -> 0 <= c /\ 0 < zlen d < _WriteBufferSize /\ c + 8 + zlen d <= _WriteBufferSize.
Proof.
  intros Hi Ho. destruct I as [H1 H2 HF H3 H4 H5 H6 H7 H8 H9]. destruct (H8 i l c d Hi Ho) as (j & Hj & ->). assert (R := off_range Q j _ Hj). cbn [data] in R.
  assert (N := H4 _ (list_elem_of_lookup_2 _ _ _ Hj)). cbn [data] in N. assert (0 < zlen d) by (destruct d; [done|cbn [length]; lia]). lia.
Qed.

Definition weight (c : choice) : Z := match c with Write d => 8 + zlen d | _ => 0 end.
Definition good (c : choice) l : Prop := exists b' l' ev, wstep i c b l = Some (b', l', ev) /\
  exists Q', inv b' (<[i:=l']> ls) Q' /\ Used b' <= Used b + weight c /\ match ev with None => Q' = Q | Some ev => q_step Q ev Q' end.

Lemma inv_same l l' b' : ls !! i = Some l -> own l = None -> own l' = None -> bytes b' = bytes b -> stat_FinalizeFailure b' = stat_FinalizeFailure b ->
  0 <= Used b' < 2 ^ 31 /\ (Used b' = total Q \/ _WriteBufferSize < Used b') -> inv b' (<[i:=l']> ls) Q.
Proof.
  intros Hi Ho Ho' Eb Es Hu. assert (HI := I). destruct HI as [H1 H2 HF H3 H4 H5 H6 H7 H8 H9]. split; rewrite ?Eb, ?Es; try done.
  - intros k i' d' Hk. destruct (H7 k i' d' Hk) as (l0 & Y1 & Y2). exists l0. split; [|done]. rewrite list_lookup_insert_ne; [done|]. intros <-. congruence.
  - intros k l0 c' d' Hk H0. apply list_lookup_insert_Some in Hk as [(-> & <- & _)|[Hne Hk]]; [congruence|by apply (H8 k l0)].
  - intros k l0 Hk. apply list_lookup_insert_Some in Hk as [(-> & <- & _)|[Hne Hk]]; [by destruct l'|by apply (H9 k)].
Qed.

Lemma claim_idle c : ls !! i = Some W_idle -> Used b + weight c < 2 ^ 31 -> (forall d, c = Write d -> d <> []) -> good c W_idle.
Proof.
  intros Hi Hw Hd. assert (HI := I). destruct HI as [H1 [H2 H2'] HF H3 H4 H5 H6 H7 H8 H9]. unfold good. cbn [wstep]. destruct c as [d| |].
  2,3: eexists _, _, _; split; [reflexivity|]; exists Q; split; [by apply (inv_same W_idle)|split; [cbn; lia|done]].
  cbn [weight] in Hw. specialize (Hd d eq_refl). assert (Ld : 0 < zlen d) by (destruct d; [done|cbn [length]; lia]).
  unfold _ChunkHeaderSize. rewrite (u32_id (zlen d)) by lia. rewrite (s32_small (zlen d + 8)) by lia. rewrite (s32_small (Used b + _)) by lia.
  replace (Used b + (zlen d + 8) - (zlen d + 8)) with (Used b) by lia. rewrite (s32_small (Used b)) by lia.
  unfold fits, _ChunkHeaderSize. rewrite (s32_small (zlen d)) by lia. rewrite (s32_small (Used b + zlen d + 8)) by lia. rewrite (s32_small _WriteBufferSize) by lia.
  destruct (Z.leb_spec (Used b + zlen d + 8) _WriteBufferSize) as [L|L]; (eexists _, _, _; split; [reflexivity|]).
  2: { exists Q. split; [apply (inv_same W_idle); cbn; try done; lia|]. cbn. split; [lia|done]. }
  assert (Eu : Used b = total Q) by lia. exists (Q ++ [Open i d]). split; [|split; [cbn; lia|constructor]].
  assert (Et : total (Q ++ [Open i d]) = total Q + 8 + zlen d) by (rewrite total_app; cbn [total data]; lia).
  assert (Li := lookup_lt_Some _ _ _ Hi). split; rewrite ?Et; cbn [Used bytes]; try done; try lia.
  - intros e [He| ->%list_elem_of_singleton]%elem_of_app; [by apply H4|done].
  - intros a Ha. apply H5. lia.
  - intros j e [Hj|[Hge Hj]]%lookup_app_Some.
    + rewrite off_app by (apply lookup_lt_Some in Hj; lia). by apply H6.
    + apply list_lookup_singleton_Some in Hj as [_ <-]. done.
  - intros j k d' [Hj|[Hge Hj]]%lookup_app_Some.
    + rewrite off_app by (apply lookup_lt_Some in Hj; lia). destruct (H7 j k d' Hj) as (l0 & Y1 & Y2). exists l0. split; [|done].
      rewrite list_lookup_insert_ne; [done|]. intros <-. rewrite Hi in Y1. by injection Y1 as <-.
    + apply list_lookup_singleton_Some in Hj as [E [= <- <-]]. replace j with (length Q) by lia. rewrite off_app, off_length by lia.
      eexists. split; [by apply list_lookup_insert_eq|]. cbn. by rewrite Eu.
  - intros k l0 c d' Hk H0. apply list_lookup_insert_Some in Hk as [(-> & <- & _)|[Hne Hk]].
    + injection H0 as <- <-. exists (length Q). rewrite list_lookup_middle by done. rewrite off_app, off_length by lia. done.
    + destruct (H8 k l0 c d' Hk H0) as (j & Hj & ->). exists j. rewrite off_app by (apply lookup_lt_Some in Hj; lia). split; [|done]. by apply lookup_app_l_Some.
  - intros k l0 Hk. apply list_lookup_insert_Some in Hk as [(-> & <- & _)|[Hne Hk]]; [|by apply (H9 k)].
    cbn [open_at]. apply (holds_zero _ _ 8). intros a Ha. apply H5. change (Z.of_nat 8) with 8 in Ha. lia.
Qed.

Lemma good_claimed c o d : ls !! i = Some (W_claimed o d) -> 0 <= weight c -> good c (W_claimed o d).
Proof.
  intros Hi Hw. destruct (own_size _ o d Hi eq_refl) as (S1 & S2 & S3). assert (W := v_width _ _ _ I).
  assert (A := v_at _ _ _ I i _ Hi). cbn [open_at] in A. unfold good. cbn [wstep].
  eexists _, _, _. split; [reflexivity|]. exists Q. split; [|split; [cbn; lia|done]].
  apply (inv_write _ (W_claimed o d) _ o d); try done.
  - intros a Ha. cbn [bytes with_bytes]. apply store_out. lia.
  - cbn [bytes open_at]. rewrite u32_id by lia. unfold head in *. apply holds_app in A as [_ A]. rewrite length_le_bytes in A.
    apply holds_join; [apply holds_mstore|]. rewrite length_le_bytes. apply (holds_out (bytes b)); [done|]. intros a Ha. rewrite length_le_bytes in Ha. apply store_out. lia.
Qed.
Lemma good_sized c o d : ls !! i = Some (W_sized o d) -> 0 <= weight c -> good c (W_sized o d).
Proof.
  intros Hi Hw. assert (A := v_at _ _ _ I i _ Hi). cbn [open_at] in A. unfold good. cbn [wstep].
  eexists _, _, _. split; [reflexivity|]. exists Q. split; [|split; [cbn; lia|done]].
  apply (inv_write _ (W_sized o d) _ o d); try done.
  - intros a Ha. cbn [bytes with_bytes]. apply store_out. lia.
  - cbn [bytes open_at with_bytes]. unfold head in *. apply holds_app in A as [A _]. apply holds_join; [|apply holds_mstore]. apply (holds_out (bytes b)); [done|]. intros a Ha. rewrite length_le_bytes in Ha. apply store_out. lia.
Qed.
Lemma good_open c o d : ls !! i = Some (W_open o d) -> 0 <= weight c -> good c (W_open o d).
Proof.
  intros Hi Hw. assert (A := v_at _ _ _ I i _ Hi). cbn [open_at] in A. unfold good. cbn [wstep].
  assert (Cp : exists Q', inv (with_bytes b (mstore (bytes b) (pBuf + o + 8) d)) (<[i:=W_copied o d]> ls) Q' /\ Used b <= Used b + weight c /\ Q' = Q).
  { exists Q. split; [|split; [lia|done]]. apply (inv_write _ (W_open o d) _ o d); try done.
    - intros a Ha. apply mstore_out. lia.
    - cbn [bytes open_at with_bytes]. apply holds_join; [|apply holds_mstore]. apply (holds_out (bytes b)); [done|]. intros a Ha. rewrite length_head in Ha. apply mstore_out. lia. }
  destruct c; (eexists _, _, _; split; [reflexivity|]); [exact Cp|exact Cp|].
  destruct (v_own _ _ _ I i _ o d Hi eq_refl) as (j & Hj & Eo). exists (<[j:=Gone d]> Q). split; [|split; [cbn; lia|by econstructor]].
  by apply (inv_close _ (W_open o d) o d).
Qed.
Lemma good_copied c o d : ls !! i = Some (W_copied o d) -> 0 <= weight c -> good c (W_copied o d).
Proof.
  intros Hi Hw. assert (A := v_at _ _ _ I i _ Hi). cbn [open_at] in A. destruct (own_size _ o d Hi eq_refl) as (S1 & S2 & S3). assert (W := v_width _ _ _ I).
  unfold good. cbn [wstep]. unfold _ChunkHeaderSize. replace (pBuf + o + 8 - 8) with (pBuf + o) by lia. rewrite u32_id by lia.
  destruct (get_size_is (bytes b) (pBuf + o) (zlen d) INFINITE d A ltac:(lia) ltac:(unfold INFINITE; lia)) as [-> ->].
  rewrite Z.leb_refl, Z.eqb_refl, (proj2 (Z.ltb_lt _ _)) by lia. cbn [andb]. eexists _, _, _. split; [reflexivity|].
  destruct (v_own _ _ _ I i _ o d Hi eq_refl) as (j & Hj & Eo). exists (<[j:=Closed d]> Q). split; [|split; [cbn; lia|by econstructor]].
  apply (inv_close _ (W_copied o d) o d); try done.
  - intros a Ha. cbn [bytes with_bytes]. apply store_out. lia.
  - cbn [bytes closed_at with_bytes]. unfold head in *. apply holds_app in A as [A A2]. apply holds_app in A as [A1 _]. rewrite length_app, !length_le_bytes in A2.
    apply holds_join; [apply holds_join|].
    + apply (holds_out (bytes b)); [done|]. intros a Ha. rewrite length_le_bytes in Ha. apply store_out. lia.
    + apply holds_mstore.
    + rewrite length_app, !length_le_bytes. apply (holds_out (bytes b)); [done|]. intros a Ha. apply store_out. lia.
Qed.
Lemma writer_step c l : ls !! i = Some l -> Used b + weight c < 2 ^ 31 -> (forall d, c = Write d -> d <> []) -> good c l.
Proof.
  intros Hi Hw Hd. assert (0 <= weight c) by (destruct c; cbn; lia).
  destruct l; [by apply claim_idle| |by apply good_claimed|by apply good_sized|by apply good_open|by apply good_copied].
  unfold good. cbn [wstep]. assert (U := v_used _ _ _ I). eexists _, _, _. split; [reflexivity|]. exists Q.
  split; [by apply (inv_same W_failed)|split; [cbn; lia|constructor]].
Qed.
End Steps.

Fixpoint load_of (sched : list (nat * choice)) : Z := match sched with [] => 0 | a :: t => weight a.2 + load_of t end.

Lemma run_writes sched : forall b ls Q, inv b ls Q -> Used b + load_of sched < 2 ^ 31 ->
  Forall (fun a : nat * choice => (a.1 < length ls)%nat /\ forall d, a.2 = Write d -> d <> []) sched ->
  exists b' ls' es Q', run wstep (b, ls) sched = Some (b', ls', es) /\ q_run Q es Q' /\ inv b' ls' Q'.
Proof.
  induction sched as [|[i c] t IH]; intros b ls Q HI Hw Hv; [exists b, ls, [], Q; split; [done|split; [constructor|done]]|].
  inversion_clear Hv as [|? ? [Hi Hd] Ht]. cbn [fst snd load_of] in *. destruct (lookup_lt_is_Some_2 ls i Hi) as [l Hl].
  assert (W : 0 <= load_of t) by (clear; induction t as [|[i []] t IH]; cbn in *; lia).
  destruct (writer_step b ls Q i HI c l Hl ltac:(lia) Hd) as (b1 & l1 & ev & E & Q1 & HI1 & Hu & He).
  destruct (IH b1 (<[i:=l1]> ls) Q1 HI1 ltac:(lia)) as (b2 & ls2 & es & Q2 & Er & Ha & HI2); [by rewrite length_insert|].
  exists b2, ls2, (match ev with Some ev => ev :: es | None => es end), Q2. split; [|split; [|done]].
  - cbn [run]. unfold sys_step. cbn [fst snd]. rewrite Hl. cbn [mbind option_bind]. rewrite E. cbn [mbind option_bind]. by rewrite Er.
  - destruct ev; [by econstructor|by subst].
Qed.

(** ** Taking the chunks down *)

(** The chunk of an entry at [p] as the write thread finds it. *)
Definition found m p (e : entry) (x : seen) : Prop :=
  match x with
  | S_stop => holds m p (head 0 0)
  | S_skip => holds m p (head (zlen (data e)) 0)
  | S_count => holds m p (head (zlen (data e)) INFINITE)
  | S_text d => d = data e /\ holds m p (head (zlen d) (zlen d) ++ d)
  end.

Lemma write_loop_spec pend m ls R : forall k p out n, (length R < k)%nat ->
  (forall j e, R !! j = Some e -> data e <> [] /\ zlen (data e) < 2 ^ 31 /\ found m (p + off R j) e (sees ls e)) ->
  (forall a, p <= a -> a + 9 <= p + total R -> a < pend) ->
  (p + total R < pend -> get_size m (p + total R) = 0) ->
  write_loop k m p pend out n = Some (out ++ (taken ls R).1, n + (taken ls R).2).
Proof.
  induction R as [|e R IH]; intros [|k] p out n Hk He Hp Hz; cbn [length] in Hk; try lia; cbn [write_loop].
  - cbn [total taken fst snd] in *. rewrite app_nil_r. rewrite Z.add_0_r in Hz. rewrite (Z.add_0_r n). destruct (Z.ltb_spec p pend) as [L|L]; [|done]. by rewrite Hz.
  - cbn [total taken] in *. assert (T := total_nonneg R). destruct (He 0%nat e eq_refl) as (Hd & Hs & Hc). unfold off in Hc. cbn [take total] in Hc. rewrite Z.add_0_r in Hc.
    assert (L : 0 < zlen (data e)) by (destruct (data e); [done|cbn [length]; lia]).
    rewrite (proj2 (Z.ltb_lt _ _)) by (apply Hp; lia).
    assert (Hk' : (length R < k)%nat) by lia. set (p' := p + 8 + zlen (data e)).
    assert (Hp' : forall a, p' <= a -> a + 9 <= p' + total R -> a < pend) by (intros a A1 A2; apply Hp; unfold p' in *; lia).
    assert (Hz' : p' + total R < pend -> get_size m (p' + total R) = 0) by (unfold p'; rewrite <- !Z.add_assoc in *; exact Hz).
    assert (He' : forall j e', R !! j = Some e' -> data e' <> [] /\ zlen (data e') < 2 ^ 31 /\ found m (p' + off R j) e' (sees ls e')).
    { intros j e' Hj. destruct (He (S j) e' Hj) as (X1 & X2 & X3). split; [done|]. split; [done|].
      unfold off in X3. cbn [take total] in X3. unfold p', off. by rewrite <- !Z.add_assoc in *. }
    assert (Hread : forall (n k : Z) t, holds m p (head n k ++ t) -> 0 <= n < 2 ^ 32 -> 0 <= k < 2 ^ 32 -> get_size m p = n /\ get_length m p = k) by (intros; by eapply get_size_is).
    assert (Hread0 : forall n k : Z, holds m p (head n k) -> 0 <= n < 2 ^ 32 -> 0 <= k < 2 ^ 32 -> get_size m p = n /\ get_length m p = k) by (intros; apply (Hread _ _ []); [by rewrite app_nil_r|done|done]).
    destruct (sees ls e) as [| | |d] eqn:Es; cbn [found] in Hc.
    + destruct (Hread0 0 0 Hc ltac:(lia) ltac:(lia)) as [-> _]. cbn [Z.eqb fst snd]. by rewrite app_nil_r, Z.add_0_r.
    + destruct (Hread0 _ 0 Hc ltac:(lia) ltac:(lia)) as [-> ->]. rewrite (proj2 (Z.eqb_neq _ 0)) by lia.
      change (0 =? INFINITE) with false. change (0 <? 0) with false. cbv iota. fold p'. exact (IH k p' out n Hk' He' Hp' Hz').
    + destruct (Hread0 _ INFINITE Hc ltac:(lia) ltac:(unfold INFINITE; lia)) as [-> ->].
      rewrite (proj2 (Z.eqb_neq _ 0)), Z.eqb_refl by lia. fold p'. rewrite (IH k p' out (n + 1) Hk' He' Hp' Hz'). cbn [fst snd]. do 2 f_equal. lia.
    + destruct Hc as [-> Hc]. destruct (Hread _ _ _ Hc ltac:(lia) ltac:(lia)) as [-> ->].
      rewrite (proj2 (Z.eqb_neq _ 0)), (proj2 (Z.eqb_neq _ INFINITE)), (proj2 (Z.ltb_lt _ _)) by (unfold INFINITE; lia).
      assert (Eb : mem_bytes m (p + 8) (Z.to_nat (zlen (data e))) = data e) by (apply holds_app in Hc as [_ Hc]; rewrite Nat2Z.id; exact Hc).
      rewrite Eb. fold p'. rewrite (IH k p' _ n Hk' He' Hp' Hz'). cbn [fst snd]. by rewrite <- app_assoc.
Qed.

Lemma length_total Q : (forall e, e ∈ Q -> data e <> []) -> 9 * zlen Q <= total Q.
Proof.
  induction Q as [|e Q IH]; intros H; [done|]. cbn [length total]. assert (X := H e ltac:(by left)). assert (0 < zlen (data e)) by (destruct (data e); [done|cbn [length]; lia]).
  assert (Y := IH ltac:(intros e' He'; apply H; by right)). lia.
Qed.
Lemma found_entry b ls Q j e : inv b ls Q -> Q !! j = Some e -> found (bytes b) (pBuf + off Q j) e (sees ls e).
Proof.
  intros HI Hj. destruct e as [i d|d|d].
  - destruct (v_open _ _ _ HI j i d Hj) as (l & Hl & Ho). assert (A := v_at _ _ _ HI i l Hl). unfold sees. rewrite Hl.
    destruct l; try done; injection Ho as -> ->; cbn [found data open_at] in *; try done. by apply holds_app in A as [A _].
  - split; [done|]. exact (v_closed _ _ _ HI j _ Hj).
  - exact (v_closed _ _ _ HI j _ Hj).
Qed.
(** The take-down at any moment. *)
Lemma write_down b ls Q : inv b ls Q -> exists b', _WriteDownBackBuffer b = Some (b', (taken ls Q).1, (taken ls Q).2) /\
  Used b' = 0 /\ forall a, pBuf <= a < pBuf + _WriteBufferSize -> bytes b' a = 0.
Proof.
  intros HI. assert (H := HI). destruct H as [H1 [H2 H2'] HF H3 H4 H5 H6 H7 H8 H9]. unfold _WriteDownBackBuffer, _ChunkHeaderSize. rewrite s32_small by lia.
  assert (L := length_total Q H4). assert (T := total_nonneg Q).
  rewrite (write_loop_spec _ _ ls Q).
  - cbn [mbind option_bind app]. rewrite Z.add_0_l. eexists. split; [reflexivity|]. split; [done|]. intros a Ha. cbn [bytes].
    unfold zeroed. replace a with (pBuf + (a - pBuf)) by lia. rewrite (mstore_in _ _ _ _ 0) by (rewrite repeat_length; lia). by rewrite nth_repeat.
  - lia.
  - intros j e Hj. split; [apply H4; by eapply list_elem_of_lookup_2|]. assert (R := off_range Q j e Hj). split; [lia|]. by apply found_entry.
  - intros a A1 A2. lia.
  - intros Lt. unfold get_size, load. rewrite (mem_bytes_agree _ _ (fun _ => 0)); [done|]. intros a Ha. apply H5. lia.
Qed.
(** When no claim waits for its size or its length, everything finalized is taken. *)
Definition settled l : bool := match l with W_claimed _ _ | W_sized _ _ => false | _ => true end.
Lemma taken_all ls Q : Forall (fun l => settled l = true) ls -> taken ls Q = (written Q, lost Q).
Proof.
  intros Hl. induction Q as [|e Q IH]; [done|]. cbn [taken]. rewrite IH. unfold written, lost. cbn [omap list_omap cnt].
  destruct e as [i d|d|d]; cbn [sees fst snd Z.b2z]; [|by rewrite Z.add_0_l|by rewrite Z.add_comm].
  destruct (ls !! i) as [l|] eqn:E; [|by rewrite Z.add_comm]. rewrite Forall_forall in Hl. assert (X := Hl l (list_elem_of_lookup_2 _ _ _ E)).
  destruct l; try discriminate X; by rewrite Z.add_comm.
Qed.

(** C21: one interval of the writer: any number of threads write texts that are not
    empty into the front buffer in any interleaving ([Q], the claims in order).
    Whenever the write thread then takes the buffer down - at one moment, which it does
    not wait for the threads to choose - it ends, leaves the buffer empty and zeroed,
    and puts out, in the order the room was claimed, the finalized texts up to the
    first claim whose size is not stored yet, where it stops ([taken]); it counts the
    chunks before that whose length says they are not finalized.  When no thread is
    between its claim and the end of [ClaimWriting] these are all the finalized texts
    and all the other chunks. *)
Theorem interval_written m n sched :
  8 < _WriteBufferSize < 2 ^ 31 -> (forall a, pBuf <= a < pBuf + _WriteBufferSize -> m a = 0) -> load_of sched < 2 ^ 31 ->
  Forall (fun a : nat * choice => (a.1 < n)%nat /\ forall d, a.2 = Write d -> d <> []) sched ->
  exists b ls es Q, run wstep (mkBuf m 0 0 0 0, repeat W_idle n) sched = Some (b, ls, es) /\ q_run [] es Q /\
    total Q <= _WriteBufferSize /\ stat_FinalizeFailure b = 0 /\
    (exists b', _WriteDownBackBuffer b = Some (b', (taken ls Q).1, (taken ls Q).2) /\
      Used b' = 0 /\ forall a, pBuf <= a < pBuf + _WriteBufferSize -> bytes b' a = 0) /\
    (Forall (fun l => settled l = true) ls -> taken ls Q = (written Q, lost Q)).
Proof.
  intros Hw Hm Hl Hv. destruct (run_writes sched (mkBuf m 0 0 0 0) (repeat W_idle n) []) as (b & ls & es & Q & Er & Ha & HI).
  - assert (X : forall k l, repeat W_idle n !! k = Some l -> l = W_idle) by (intros k l X%list_elem_of_lookup_2%list_elem_of_In%repeat_spec; done).
    split; cbn; try done; try lia.
    + intros e He. by apply not_elem_of_nil in He.
    + intros a Ha. apply Hm. lia.
    + intros k l c d Hk Ho. apply X in Hk. by subst.
    + intros k l Hk. apply X in Hk. by subst.
  - cbn. lia.
  - by rewrite repeat_length.
  - exists b, ls, es, Q. split; [done|]. split; [done|]. split; [apply (v_room _ _ _ HI)|]. split; [apply (v_final _ _ _ HI)|].
    split; [by apply write_down|apply taken_all].
Qed.
End Writer.

(** Two threads, the second done before the first, and one that gives up. *)
Definition turns (i : nat) (d : list Z) : list (nat * choice) := [(i, Write d); (i, Go); (i, Go)].
Definition interval : list (nat * choice) :=
  turns 0 (str "ab") ++ turns 1 (str "cde") ++ turns 2 (str "f") ++ [(1, Go); (1, Go); (2, GiveUp); (0, Go); (0, Go)]%nat ++ [(2%nat, Write (repeat 65 40)); (2%nat, Go)].
Definition interval_run := run (wstep 0 64) (mkBuf (fun _ => 0) 0 0 0 0, repeat W_idle 3) interval.
Lemma interval_out : option_map (fun r => option_map (fun r => (r.1.2, r.2)) (_WriteDownBackBuffer 0 64 r.1.1)) interval_run = Some (Some ([str "ab"; str "cde"], 1)) /\
  option_map snd interval_run = Some [Claimed 0 (str "ab"); Claimed 1 (str "cde"); Claimed 2 (str "f"); Written 1; Lost 2; Written 0; Rejected].
Proof. split; vm_compute; reflexivity. Qed.

(** An empty text stops the write thread: what was claimed after it is lost. *)
Lemma empty_text_hides : option_map (fun r => (option_map (fun r => (r.1.2, r.2)) (_WriteDownBackBuffer 0 64 r.1.1), r.2))
    (run (wstep 0 64) (mkBuf (fun _ => 0) 0 0 0 0, [W_idle]) (turns 0 [] ++ [(0, Go); (0, Go)]%nat ++ turns 0 (str "ab") ++ [(0, Go); (0, Go)]%nat)) =
  Some (Some ([], 0), [Claimed 0 []; Written 0; Claimed 0 (str "ab"); Written 0]).
Proof. vm_compute. reflexivity. Qed.

(** The take-down does not wait: the second thread has not stored its size, and the text
    the third one has finalized is lost with the buffer. *)
Example unsized_claim_hides : option_map (fun r => (option_map (fun r => (r.1.2, r.2)) (_WriteDownBackBuffer 0 64 r.1.1), r.2))
    (run (wstep 0 64) (mkBuf (fun _ => 0) 0 0 0 0, repeat W_idle 3)
      (turns 0 (str "ab") ++ [(0, Go); (0, Go); (1, Write (str "cde"))]%nat ++ turns 2 (str "f") ++ [(2, Go); (2, Go)]%nat)) =
  Some (Some ([str "ab"], 0), [Claimed 0 (str "ab"); Written 0; Claimed 1 (str "cde"); Claimed 2 (str "f"); Written 2]).
Proof. vm_compute. reflexivity. Qed.

Lemma interval_written_witness : exists b ls es Q, interval_run = Some (b, ls, es) /\ q_run [] es Q /\
    total Q <= 64 /\ stat_FinalizeFailure b = 0 /\
    (exists b', _WriteDownBackBuffer 0 64 b = Some (b', (taken ls Q).1, (taken ls Q).2) /\
      Used b' = 0 /\ forall a, 0 <= a < 0 + 64 -> bytes b' a = 0) /\
    (Forall (fun l => settled l = true) ls -> taken ls Q = (written Q, lost Q)).
Proof.
  apply (interval_written 0 64 (fun _ => 0) 3 interval); [lia|done|vm_compute; reflexivity|].
  apply Forall_forall. intros [i c] Hin. apply list_elem_of_In in Hin. cbn in Hin.
  repeat (destruct Hin as [[= <- <-]|Hin]; [split; [cbn; lia|by intros d [= <-]]|]). done.
Defined.
