(* ===== verification/Files.v ===== *)
(** The files of os/file_dir.h: [os::File] over a file on disk that can fill up,
    [MemoryFileRef] over a block of memory, both behind [rt::_File]. *)
From S2P Require Import Prelude.

Abbreviation zlen l := (Z.of_nat (length l)).

(** [rt::_File]: the three origins, and what a client calls. *)
Inductive origin := Seek_Begin | Seek_Current | Seek_End.
Class RtFile (F : Type) := {
  Read : F -> Z -> F * list Z;            (* the bytes that were read *)
  Write : F -> list Z -> F * Z;           (* how many were written *)
  Seek : F -> Z -> origin -> option (F * Z);
  GetLength : F -> Z }.

(** ** A file on disk *)

(** The bytes, how many there are, the position, the length the file cannot
    pass, and [_bErrorFlag]. *)
Record disk := mkDisk { bytes : mem; len : Z; pos : Z; room : Z; _bErrorFlag : bool }.

Definition disk_Read (d : disk) (nCount : Z) : disk * list Z :=
  let read := Z.max 0 (Z.min nCount (len d - pos d)) in
  (mkDisk (bytes d) (len d) (pos d + read) (room d) (_bErrorFlag d || negb (read =? nCount)), mem_bytes (bytes d) (pos d) (Z.to_nat read)).
(** [fwrite] is taken to reach the file at once: what the stream of the C library
    still holds back, and may fail to write when it is flushed or closed, is part of
    the platform. *)
Definition disk_Write (d : disk) (l : list Z) : disk * Z :=
  let write := Z.max 0 (Z.min (zlen l) (room d - pos d)) in
  (mkDisk (mstore (bytes d) (pos d) (take (Z.to_nat write) l)) (if write =? 0 then len d else Z.max (len d) (pos d + write))
     (pos d + write) (room d) (_bErrorFlag d || negb (write =? zlen l)), write).
(** [ASSERT(offset<0x7fffffff)] of a signed offset, which a [long] of 64 bits holds.
    [fseek] fails before the beginning and leaves the position. *)
Definition disk_Seek (d : disk) (offset : Z) (nFrom : origin) : option (disk * Z) :=
  let offset := s64 offset in
  _ ← assert_ (offset <? 0x7fffffff);
  let p := match nFrom with Seek_Begin => offset | Seek_Current => pos d + offset | Seek_End => len d + offset end in
  let p := if p <? 0 then pos d else p in
  Some (mkDisk (bytes d) (len d) p (room d) (_bErrorFlag d), p).
Definition GetCurrentPosition (d : disk) : Z := pos d.
(** A file just created. *)
Definition created (room : Z) : disk := mkDisk (fun _ => 0) 0 0 room false.

#[export] Instance File_on_disk : RtFile disk := {
  Read := disk_Read; Write := disk_Write; Seek := disk_Seek; GetLength := len }.

(** ** A file in memory *)

Record mfile := mkMem { _pData : mem; _CurPos : Z; _Len : Z }.
Definition SetMemoryBuffer (pData : mem) (Len : Z) : mfile := mkMem pData 0 Len.

Definition mem_Write (f : mfile) (l : list Z) : mfile * Z :=
  let sz := zlen l in
  if sz + _CurPos f <=? _Len f then (mkMem (mstore (_pData f) (_CurPos f) l) (_CurPos f + sz) (_Len f), sz)
  else if _CurPos f <? _Len f then
    let sz := _Len f - _CurPos f in
    (mkMem (mstore (_pData f) (_CurPos f) (take (Z.to_nat sz) l)) (_Len f) (_Len f), sz)
  else (f, 0).
Definition mem_Read (f : mfile) (sz : Z) : mfile * list Z :=
  if sz + _CurPos f <=? _Len f then (mkMem (_pData f) (_CurPos f + sz) (_Len f), mem_bytes (_pData f) (_CurPos f) (Z.to_nat sz))
  else if _CurPos f <? _Len f then
    let sz := _Len f - _CurPos f in
    (mkMem (_pData f) (_Len f) (_Len f), mem_bytes (_pData f) (_CurPos f) (Z.to_nat sz))
  else (f, []).
(** An assertion that fails has no result. *)
Definition mem_Seek (f : mfile) (offset : Z) (where_ : origin) : option (mfile * Z) :=
  match where_ with
  | Seek_Begin => if offset <=? s32 (_Len f) then Some (mkMem (_pData f) offset (_Len f), offset) else None
  | Seek_Current =>
    if (0 <=? offset + s32 (_CurPos f)) && (offset + s32 (_CurPos f) <=? s32 (_Len f))
    then Some (mkMem (_pData f) (_CurPos f + offset) (_Len f), _CurPos f + offset) else None
  | Seek_End =>
    if (offset <=? 0) && (u32 (- offset) <? _Len f) then Some (mkMem (_pData f) (_Len f + offset - 1) (_Len f), _Len f + offset - 1) else None
  end.
#[export] Instance File_in_memory : RtFile mfile := { Read := mem_Read; Write := mem_Write; Seek := mem_Seek; GetLength := _Len }.

(** ** What a file does *)

Lemma disk_write_all d l : 0 <= pos d -> pos d + zlen l <= room d -> l <> [] ->
  Write d l = (mkDisk (mstore (bytes d) (pos d) l) (Z.max (len d) (pos d + zlen l)) (pos d + zlen l) (room d) (_bErrorFlag d), zlen l).
Proof.
  intros Hp Hr Hl. cbn [Write File_on_disk]. unfold disk_Write. assert (0 < zlen l) by (destruct l; [done|cbn [length]; lia]).
  replace (Z.max 0 (Z.min (zlen l) (room d - pos d))) with (zlen l) by lia. rewrite (proj2 (Z.eqb_neq _ 0)), Z.eqb_refl by lia.
  rewrite Nat2Z.id, firstn_all, orb_false_r. done.
Qed.
Lemma disk_read_all d n : 0 <= n -> pos d + n <= len d ->
  Read d n = (mkDisk (bytes d) (len d) (pos d + n) (room d) (_bErrorFlag d), mem_bytes (bytes d) (pos d) (Z.to_nat n)).
Proof.
  intros Hn Hp. cbn [Read File_on_disk]. unfold disk_Read. replace (Z.max 0 (Z.min n (len d - pos d))) with n by lia. by rewrite Z.eqb_refl, orb_false_r.
Qed.
Lemma disk_seek d off from : - 2 ^ 63 <= off < 0x7fffffff ->
  disk_Seek d off from = let p := match from with Seek_Begin => off | Seek_Current => pos d + off | Seek_End => len d + off end in
    let p := if p <? 0 then pos d else p in Some (mkDisk (bytes d) (len d) p (room d) (_bErrorFlag d), p).
Proof. intros H. unfold disk_Seek. rewrite s64_id, (proj2 (Z.ltb_lt off _)) by lia. done. Qed.
Lemma disk_seek_begin d p : 0 <= p < 0x7fffffff -> disk_Seek d p Seek_Begin = Some (mkDisk (bytes d) (len d) p (room d) (_bErrorFlag d), p).
Proof. intros H. rewrite disk_seek by lia. cbn zeta. by rewrite (proj2 (Z.ltb_ge _ _)) by lia. Qed.

(** ** A file in memory is a file on disk of fixed length *)

(** [_bErrorFlag] apart, which a memory file has not. *)
Definition same (f : mfile) (d : disk) : Prop :=
  (forall a, _pData f a = bytes d a) /\ _CurPos f = pos d /\ _Len f = len d /\ room d = len d.

Lemma mem_bytes_ext m1 m2 n : forall p, (forall a, m1 a = m2 a) -> mem_bytes m1 p n = mem_bytes m2 p n.
Proof. intros p H. apply mem_bytes_agree. intros a _. apply H. Qed.

(** Reading, writing and seeking from the beginning or the current position do
    the same on a [MemoryFileRef] as on a file that cannot grow, and stay inside
    the block; [Seek_End] counts from the last byte and not from the end.  Blocks of
    less than 2^31 - 1 bytes, the offsets that [File] asserts. *)
Theorem memory_file f d : same f d -> 0 <= _CurPos f <= _Len f -> _Len f < 2 ^ 31 - 1 ->
  (forall l, (Write f l).2 = (Write d l).2 /\ same (Write f l).1 (Write d l).1 /\
     (forall a, a < 0 \/ _Len f <= a -> _pData (Write f l).1 a = _pData f a)) /\
  (forall n, 0 <= n -> (Read f n).2 = (Read d n).2 /\ same (Read f n).1 (Read d n).1) /\
  (forall off from f' p, from <> Seek_End -> 0 <= off \/ from = Seek_Current -> Seek f off from = Some (f', p) ->
     exists d', Seek d off from = Some (d', p) /\ same f' d' /\ 0 <= _CurPos f' <= _Len f') /\
  (forall off f' p, - _Len f < off <= 0 -> Seek f off Seek_End = Some (f', p) ->
     exists d', Seek d (off - 1) Seek_End = Some (d', p) /\ same f' d').
Proof.
  intros (S1 & S2 & S3 & S4) Hp Hl. split; [|split; [|split]].
  - intros l. cbn [Write File_in_memory File_on_disk]. unfold mem_Write, disk_Write. rewrite S4, <- S2, <- S3.
    destruct (Z.leb_spec (zlen l + _CurPos f) (_Len f)) as [L|L]; [|destruct (Z.ltb_spec (_CurPos f) (_Len f)) as [L2|L2]].
    + replace (Z.max 0 (Z.min (zlen l) (_Len f - _CurPos f))) with (zlen l) by lia. rewrite Nat2Z.id, firstn_all. cbn. split; [done|]. split.
      * split; [|split; [|split]]; cbn; [intros a; by apply mstore_ext|done|destruct (_ =? 0); lia|destruct (_ =? 0); lia].
      * intros a Ha. apply mstore_out. lia.
    + replace (Z.max 0 (Z.min (zlen l) (_Len f - _CurPos f))) with (_Len f - _CurPos f) by lia. cbn. split; [done|]. split.
      * split; [|split; [|split]]; cbn; [intros a; by apply mstore_ext|lia|destruct (_ =? 0); lia|destruct (_ =? 0); lia].
      * intros a Ha. apply mstore_out. rewrite length_take. lia.
    + replace (Z.max 0 (Z.min (zlen l) (_Len f - _CurPos f))) with 0 by lia. cbn. split; [done|]. split; [|done].
      split; [|split; [|split]]; cbn; [done|lia|lia|lia].
  - intros n Hn. cbn [Read File_in_memory File_on_disk]. unfold mem_Read, disk_Read. rewrite <- S2, <- S3.
    destruct (Z.leb_spec (n + _CurPos f) (_Len f)) as [L|L]; [|destruct (Z.ltb_spec (_CurPos f) (_Len f)) as [L2|L2]].
    + replace (Z.max 0 (Z.min n (_Len f - _CurPos f))) with n by lia. cbn. split; [by apply mem_bytes_ext|]. split; [|split; [|split]]; cbn; try done; lia.
    + replace (Z.max 0 (Z.min n (_Len f - _CurPos f))) with (_Len f - _CurPos f) by lia. cbn. split; [by apply mem_bytes_ext|].
      split; [|split; [|split]]; cbn; try done; lia.
    + replace (Z.max 0 (Z.min n (_Len f - _CurPos f))) with 0 by lia. cbn. split; [done|]. split; [|split; [|split]]; cbn; try done; lia.
  - intros off from f' p Hf Ho. cbn [Seek File_in_memory File_on_disk]. unfold mem_Seek. destruct from; [| |done].
    + destruct Ho as [Ho|Ho]; [|done]. rewrite s32_small by lia. destruct (Z.leb_spec off (_Len f)) as [L|L]; [|done]. intros [= <- <-].
      eexists. split; [by rewrite disk_seek_begin by lia|]. split; [split; [|split; [|split]]; cbn; try done; lia|cbn; lia].
    + rewrite !s32_small by lia. destruct (Z.leb_spec 0 (off + _CurPos f)) as [L|L]; [|done]. destruct (Z.leb_spec (off + _CurPos f) (_Len f)) as [L2|L2]; [|done].
      cbn [andb]. intros [= <- <-]. rewrite disk_seek, <- S2 by lia. eexists. split; [cbn zeta; rewrite (proj2 (Z.ltb_ge _ _)) by lia; reflexivity|]. split; [split; [|split; [|split]]; cbn; try done; lia|cbn; lia].
  - intros off f' p Ho. cbn [Seek File_in_memory File_on_disk]. unfold mem_Seek. rewrite (proj2 (Z.leb_le off 0)) by lia. rewrite u32_id by lia.
    rewrite (proj2 (Z.ltb_lt (- off) _)) by lia. cbn [andb]. intros [= <- <-]. rewrite disk_seek, <- S3 by lia. cbn zeta. replace (_Len f + (off - 1)) with (_Len f + off - 1) by lia.
    eexists. split; [rewrite (proj2 (Z.ltb_ge _ _)) by lia; reflexivity|]. split; [|split; [|split]]; cbn; try done; lia.
Qed.

(** [Seek_End] with 0 goes to the last byte: what is then written replaces it. *)
Lemma memory_append : option_map (fun r => let f := (Write r.1 (str "x")).1 in mem_bytes (_pData f) 0 3) (Seek (SetMemoryBuffer (mem_of 0 0 (str "abc")) 3) 0 Seek_End) =
  Some (str "abx").
Proof. vm_compute. reflexivity. Qed.

Lemma memory_file_witness : let f := SetMemoryBuffer (mem_of 0 0 (str "abc")) 3 in let d := mkDisk (mem_of 0 0 (str "abc")) 3 0 3 false in
  (forall l, (Write f l).2 = (Write d l).2 /\ same (Write f l).1 (Write d l).1 /\
     (forall a, a < 0 \/ _Len f <= a -> _pData (Write f l).1 a = _pData f a)) /\
  (forall n, 0 <= n -> (Read f n).2 = (Read d n).2 /\ same (Read f n).1 (Read d n).1) /\
  (forall off from f' p, from <> Seek_End -> 0 <= off \/ from = Seek_Current -> Seek f off from = Some (f', p) ->
     exists d', Seek d off from = Some (d', p) /\ same f' d' /\ 0 <= _CurPos f' <= _Len f') /\
  (forall off f' p, - _Len f < off <= 0 -> Seek f off Seek_End = Some (f', p) ->
     exists d', Seek d (off - 1) Seek_End = Some (d', p) /\ same f' d').
Proof. apply memory_file; [by split|cbn; lia|cbn; lia]. Defined.
