(* ===== verification/Packed.v ===== *)
(** The packed archive of os/file_dir.h: [FilePacked_Writer] puts named blocks
    one after another into a file, [FilePacked_Reader] lists and reads them. *)
From S2P Require Import Prelude Files.

Record FilePackedEntry := mkEntry { FileName : Z; Offset : Z; Size : Z }.
Definition FilePackedMagic : Z := 0x50444b43.

(** The entry as the 16 bytes it is in the file. *)
Definition entry_bytes (e : FilePackedEntry) : list Z := le_bytes 8 (FileName e) ++ le_bytes 4 (Offset e) ++ le_bytes 4 (Size e).
Definition entry_of (b : list Z) : FilePackedEntry :=
  mkEntry (le_val (take 8 b)) (le_val (take 4 (drop 8 b))) (le_val (take 4 (drop 12 b))).

(** ** The writer *)

Definition Writer_Open (room : Z) : option disk :=
  let '(f, n) := Write (created room) (le_bytes 4 FilePackedMagic) in if n =? 4 then Some f else None.
Definition Writer_Write (f : disk) (name : Z) (data : list Z) : option (disk * bool) :=
  let e := mkEntry name (u32 (GetCurrentPosition f)) (u32 (zlen data)) in
  let '(f, n) := Write f (entry_bytes e) in
  let '(f, ok) := if n =? 16 then let '(f, n) := Write f data in (f, n =? zlen data) else (f, false) in
  if ok then Some (f, true) else '(f, _) ← disk_Seek f (Offset e) Seek_Begin; Some (f, false).

(** ** The reader *)

Record reader := mkReader { _File : disk; _Entries : list FilePackedEntry; _FileSearchName : Z; _FileSearchMask : Z; _FileSearchLast : Z }.

(** The entries as far as they are in place; [k] of them at most. *)
Fixpoint open_loop (k : nat) (f : disk) (es : list FilePackedEntry) : option (disk * list FilePackedEntry) :=
  match k with
  | O => None
  | S k =>
    let offset := GetCurrentPosition f in
    if offset =? 0 then Some (f, es)
    else
      let '(f, b) := Read f 16 in
      let e := entry_of b in
      if (zlen b =? 16) && (Offset e =? offset) then
        let next := u64 (offset + 16 + Size e) in
        if next =? 0 then Some (f, es)
        else
          '(f, p) ← disk_Seek f next Seek_Begin;
          if p =? next then open_loop k f (es ++ [mkEntry (FileName e) (u32 (Offset e + 16)) (Size e)]) else Some (f, es)
      else Some (f, es)
  end.
(** On a file just opened. *)
Definition Reader_Open (f : disk) : option reader :=
  let '(f, b) := Read (mkDisk (bytes f) (len f) 0 (room f) false) 4 in
  if (zlen b =? 4) && (le_val b =? FilePackedMagic) then
    r ← open_loop (S (Z.to_nat (len f))) f [];
    let '(f, es) := r in Some (mkReader f es 0 0 0)
  else None.

Definition GetFileCount (r : reader) : Z := u32 (zlen (_Entries r)).
Definition GetFileSize (r : reader) (idx : nat) : option Z := Size <$> _Entries r !! idx.
Definition GetFileName (r : reader) (idx : nat) : option Z := FileName <$> _Entries r !! idx.
(** The bytes read, when all of them are. *)
Definition Reader_Read (r : reader) (idx : nat) : option (reader * option (list Z)) :=
  e ← _Entries r !! idx;
  '(f, p) ← disk_Seek (_File r) (Offset e) Seek_Begin;
  let with_file f := mkReader f (_Entries r) (_FileSearchName r) (_FileSearchMask r) (_FileSearchLast r) in
  if p =? Offset e then
    let '(f, b) := Read f (Size e) in Some (with_file f, if zlen b =? Size e then Some b else None)
  else Some (with_file f, None).

Fixpoint find_from (i : nat) (es : list FilePackedEntry) (P : Z -> bool) : option nat :=
  match es with
  | [] => None
  | e :: es => if P (FileName e) then Some i else find_from (S i) es P
  end.
Definition _FindFile (r : reader) (name : Z) : option nat := find_from 0 (_Entries r) (fun n => n =? name).
Definition FindNextFile (r : reader) : reader * option nat :=
  let i := Z.to_nat (_FileSearchLast r + 1) in
  let found := find_from i (drop i (_Entries r)) (fun n => (n .& _FileSearchMask r) =? _FileSearchName r) in
  (mkReader (_File r) (_Entries r) (_FileSearchName r) (_FileSearchMask r)
     (match found with Some k => Z.of_nat k | None => Z.max (zlen (_Entries r)) (_FileSearchLast r + 1) end), found).
Definition FindFirstFile (r : reader) (name mask : Z) : reader * option nat :=
  FindNextFile (mkReader (_File r) (_Entries r) (name .& mask) mask (-1)).
Definition Load (r : reader) (name : Z) : option (reader * option (list Z)) :=
  match _FindFile r name with None => Some (r, None) | Some idx => Reader_Read r idx end.

(** [Copy] from the entry [i] on. *)
Fixpoint copy_loop (k i : nat) (w : disk) (r : reader) (desired mask : Z) : option (disk * reader * bool) :=
  match k with
  | O => Some (w, r, true)
  | S k =>
    name ← GetFileName r i;
    if (name .& mask) =? desired then
      a ← Reader_Read r i;
      let '(r, data) := a in
      match data with
      | None => Some (w, r, false)
      | Some data => '(w, ok) ← Writer_Write w name data; if ok : bool then copy_loop k (S i) w r desired mask else Some (w, r, false)
      end
    else copy_loop k (S i) w r desired mask
  end.
Definition Copy (w : disk) (r : reader) (desired mask : Z) : option (disk * reader * bool) :=
  copy_loop (length (_Entries r)) 0 w r desired mask.

(** ** The layout *)

Implicit Types (fs : list (Z * list Z)) (m : mem) (f : disk) (p : Z).

(** The files [fs] packed from [p] on. *)
Fixpoint total fs : Z := match fs with [] => 0 | (_, d) :: fs => 16 + zlen d + total fs end.
Fixpoint packed m p fs : Prop :=
  match fs with
  | [] => True
  | (n, d) :: fs => holds m p (entry_bytes (mkEntry n p (zlen d)) ++ d) /\ 0 <= n < 2 ^ 64 /\ packed m (p + 16 + zlen d) fs
  end.
Fixpoint entries p fs : list FilePackedEntry :=
  match fs with [] => [] | (n, d) :: fs => mkEntry n (p + 16) (zlen d) :: entries (p + 16 + zlen d) fs end.

Lemma packed_total_app fs gs : total (fs ++ gs) = total fs + total gs.
Proof. induction fs as [|[n d] fs IH]; cbn [app total]; lia. Qed.
Lemma packed_total_nonneg fs : 0 <= total fs.
Proof. induction fs as [|[n d] fs IH]; cbn [total]; lia. Qed.
Lemma length_entry_bytes e : length (entry_bytes e) = 16%nat.
Proof. done. Qed.
Lemma entry_of_bytes n o s : 0 <= n < 2 ^ 64 -> 0 <= o < 2 ^ 32 -> 0 <= s < 2 ^ 32 -> entry_of (entry_bytes (mkEntry n o s)) = mkEntry n o s.
Proof.
  intros Hn Ho Hs. unfold entry_of, entry_bytes. cbn [FileName Offset Size].
  change (take 8 _) with (le_bytes 8 n). change (take 4 (drop 8 _)) with (le_bytes 4 o). change (take 4 (drop 12 _)) with (le_bytes 4 s).
  rewrite !le_val_bytes. change (8 * Z.of_nat 8) with 64. change (8 * Z.of_nat 4) with 32. by rewrite !Z.mod_small.
Qed.
Lemma packed_out m m' fs : forall p, packed m p fs -> (forall a, p <= a < p + total fs -> m' a = m a) -> packed m' p fs.
Proof.
  induction fs as [|[n d] fs IH]; intros p H Ha; [done|]. cbn [packed total] in *. destruct H as (H1 & H2 & H3). assert (T := packed_total_nonneg fs). split; [|split; [done|]].
  - apply (holds_out m); [done|]. rewrite length_app, length_entry_bytes. intros a A. apply Ha. lia.
  - apply IH; [done|]. intros a A. apply Ha. lia.
Qed.
Lemma packed_app m fs gs : forall p, packed m p (fs ++ gs) <-> packed m p fs /\ packed m (p + total fs) gs.
Proof.
  induction fs as [|[n d] fs IH]; intros p; cbn [app packed total].
  - rewrite Z.add_0_r. tauto.
  - rewrite IH. replace (p + 16 + zlen d + total fs) with (p + (16 + zlen d + total fs)) by lia. tauto.
Qed.

(** A file that the writer has open with [fs] in it. *)
Record pack f fs : Prop := {
  k_head : holds (bytes f) 0 (le_bytes 4 FilePackedMagic);
  k_files : packed (bytes f) 4 fs;
  k_pos : pos f = 4 + total fs;
  k_len : len f = 4 + total fs;
  k_room : 4 + total fs <= room f }.

Lemma pack_open room : 4 <= room -> exists f, Writer_Open room = Some f /\ pack f [].
Proof.
  intros H. unfold Writer_Open. rewrite disk_write_all by (cbn; lia || done). rewrite length_le_bytes. eexists. split; [reflexivity|].
  split; cbn [bytes pos len total Files.room created]; rewrite ?length_le_bytes; try lia; [apply holds_mstore|done].
Qed.
(** A file whose block fits is added. *)
Lemma pack_write f fs n d : pack f fs -> 0 <= n < 2 ^ 64 -> 4 + total fs + 16 + zlen d <= room f -> 4 + total fs + 16 + zlen d < 2 ^ 31 - 1 ->
  exists f', Writer_Write f n d = Some (f', true) /\ pack f' (fs ++ [(n, d)]) /\ room f' = room f.
Proof.
  intros [K1 K2 K3 K4 K5] Hn Hr Hw. assert (T := packed_total_nonneg fs). unfold Writer_Write, GetCurrentPosition. rewrite K3. rewrite (u32_id (4 + total fs)), (u32_id (zlen d)) by lia.
  rewrite disk_write_all; [|lia|rewrite length_entry_bytes; lia|done]. rewrite length_entry_bytes. change (Z.of_nat 16 =? 16) with true. cbn [bytes pos len room _bErrorFlag].
  set (m1 := mstore (bytes f) (pos f) (entry_bytes (mkEntry n (4 + total fs) (zlen d)))).
  assert (Hm : forall m2, (forall a, a < pos f + 16 \/ pos f + 16 + zlen d <= a -> m2 a = m1 a) -> holds m2 (pos f + 16) d ->
    holds m2 0 (le_bytes 4 FilePackedMagic) /\ packed m2 4 (fs ++ [(n, d)])).
  { intros m2 E Hd. assert (Out : forall a, a < pos f -> m2 a = bytes f a) by (intros a Ha; rewrite E by lia; apply mstore_out; lia). split.
    - apply (holds_out (bytes f)); [done|]. intros a Ha. apply Out. rewrite length_le_bytes in Ha. lia.
    - apply packed_app. split; [apply (packed_out (bytes f)); [done|]; intros a Ha; apply Out; lia|]. cbn [packed]. rewrite <- K3. split; [|split; [done|done]].
      apply holds_join; [|exact Hd]. apply (holds_out m1); [unfold m1; rewrite K3; apply holds_mstore|]. intros a Ha. rewrite length_entry_bytes in Ha. apply E. lia. }
  destruct d as [|c d'].
  - change (Write ?f []) with (disk_Write f []). unfold disk_Write. cbn [length pos len room bytes _bErrorFlag]. change (Z.of_nat 0) with 0 in *. rewrite (Z.min_l 0) by lia.
    rewrite Z.max_id. change (0 =? 0) with true. cbn [Z.to_nat take mstore]. eexists. split; [reflexivity|]. split; [|done].
    destruct (Hm m1) as [A B]; [done|by unfold holds|]. split; cbn [bytes pos len room]; rewrite ?packed_total_app; cbn [total length]; try done; lia.
  - rewrite disk_write_all; [|cbn [pos]; lia|cbn [pos room]; lia|done]. rewrite Z.eqb_refl. cbn [bytes pos len room _bErrorFlag]. change (Z.of_nat 16) with 16. eexists. split; [reflexivity|]. split; [|done].
    destruct (Hm (mstore m1 (pos f + 16) (c :: d'))) as [A B]; [intros a Ha; apply mstore_out; lia|apply holds_mstore|].
    split; cbn [bytes pos len room]; rewrite ?packed_total_app; cbn [total]; try done; lia.
Qed.

(** ** Opening *)

Lemma read_holds f l n : holds (bytes f) (pos f) l -> n = zlen l -> pos f + n <= len f ->
  Read f n = (mkDisk (bytes f) (len f) (pos f + n) (room f) (_bErrorFlag f), l).
Proof. intros H -> Hl. rewrite disk_read_all by lia. rewrite Nat2Z.id. unfold holds in H. by rewrite H. Qed.

Lemma open_loop_spec m L R fs : forall k p es err, (length fs < k)%nat -> 0 < p -> p + total fs = L -> L < 2 ^ 31 - 1 -> packed m p fs ->
  exists f, open_loop k (mkDisk m L p R err) es = Some (f, es ++ entries p fs) /\ bytes f = m /\ len f = L /\ room f = R.
Proof.
  induction fs as [|[n d] fs IH]; intros [|k] p es err Hk Hp HL HL2 H; cbn [length] in Hk; try lia; cbn [open_loop].
  - unfold GetCurrentPosition. cbn [pos total] in *. rewrite (proj2 (Z.eqb_neq p 0)) by lia. change (Read ?f ?n) with (disk_Read f n). unfold disk_Read. cbn [len pos bytes room _bErrorFlag].
    replace (Z.max 0 (Z.min 16 (L - p))) with 0 by lia. cbn. rewrite app_nil_r. by eexists.
  - cbn [packed total] in *. destruct H as (H1 & H2 & H3). assert (T := packed_total_nonneg fs). unfold GetCurrentPosition. cbn [pos]. rewrite (proj2 (Z.eqb_neq p 0)) by lia.
    apply holds_app in H1 as [H1 _]. rewrite (read_holds _ (entry_bytes (mkEntry n p (zlen d))) 16); [|exact H1|done|cbn [pos len]; lia].
    rewrite entry_of_bytes by lia. cbn [Offset FileName Size]. rewrite length_entry_bytes, Z.eqb_refl. change (Z.of_nat 16 =? 16) with true. cbn [andb].
    assert (U : u64 (p + 16 + zlen d) = p + 16 + zlen d) by (apply wrap_id; unfold in_width; lia). rewrite U. rewrite (proj2 (Z.eqb_neq _ 0)) by lia.
    rewrite disk_seek_begin by lia. cbn [mbind option_bind bytes len pos room _bErrorFlag]. rewrite (u32_id (p + 16)) by lia.
    destruct (IH k (p + 16 + zlen d) (es ++ [mkEntry n (p + 16) (zlen d)]) err) as (f & E & F); try done; try lia. exists f. split; [|done].
    rewrite !Z.eqb_refl, E, <- app_assoc. done.
Qed.

Record readable r fs : Prop := {
  r_entries : _Entries r = entries 4 fs;
  r_files : packed (bytes (_File r)) 4 fs;
  r_len : 4 + total fs <= len (_File r) }.

Lemma packed_length_total fs : 16 * zlen fs <= total fs.
Proof. induction fs as [|[n d] fs IH]; cbn [length total]; lia. Qed.
Lemma open_readable f fs : pack f fs -> 4 + total fs < 2 ^ 31 - 1 -> exists r, Reader_Open f = Some r /\ readable r fs.
Proof.
  intros [K1 K2 K3 K4 K5] Hr. unfold Reader_Open. assert (T := packed_total_nonneg fs). assert (T2 := packed_length_total fs).
  rewrite (read_holds _ (le_bytes 4 FilePackedMagic) 4); [|exact K1|done|cbn [pos len]; lia]. change (zlen (le_bytes 4 FilePackedMagic) =? 4) with true.
  change (le_val (le_bytes 4 FilePackedMagic) =? FilePackedMagic) with true. cbn [andb pos bytes len room _bErrorFlag].
  destruct (open_loop_spec (bytes f) (len f) (room f) fs (S (Z.to_nat (len f))) (0 + 4) [] false) as (g & -> & Eb & El & _); try done; try lia.
  cbn [mbind option_bind]. eexists. split; [reflexivity|]. split; cbn [_Entries _File]; [done|by rewrite Eb|lia].
Qed.

Lemma entries_lookup fs : forall p i n d, fs !! i = Some (n, d) ->
  entries p fs !! i = Some (mkEntry n (p + total (take i fs) + 16) (zlen d)).
Proof.
  induction fs as [|[n0 d0] fs IH]; intros p [|i] n d H; try done.
  - injection H as -> ->. cbn. do 2 f_equal. lia.
  - cbn [entries]. change ((?x :: ?l) !! S i) with (l !! i). rewrite (IH _ i n d H). cbn [take total]. do 2 f_equal. lia.
Qed.
Lemma packed_lookup m fs i n d : forall p, fs !! i = Some (n, d) -> packed m p fs ->
  holds m (p + total (take i fs) + 16) d /\ p + total (take i fs) + 16 + zlen d <= p + total fs.
Proof.
  revert i. induction fs as [|[n0 d0] fs IH]; intros [|i] p H Hp; try done; cbn [packed] in Hp; destruct Hp as (H1 & H2 & H3).
  - injection H as -> ->. cbn [take total]. apply holds_app in H1 as [_ H1]. rewrite length_entry_bytes in H1. rewrite Z.add_0_r. assert (T := packed_total_nonneg fs). split; [exact H1|lia].
  - destruct (IH i _ H H3) as [A B]. cbn [take total]. replace (p + (16 + zlen d0 + total (take i fs)) + 16) with (p + 16 + zlen d0 + total (take i fs) + 16) by lia. split; [done|lia].
Qed.
(** Every listed file can be read, and the reader goes on. *)
Lemma read_file r fs i n d : readable r fs -> 4 + total fs < 2 ^ 31 - 1 -> fs !! i = Some (n, d) ->
  exists r', Reader_Read r i = Some (r', Some d) /\ readable r' fs.
Proof.
  intros [R1 R2 R3] Hb Hi. unfold Reader_Read. rewrite R1, (entries_lookup fs 4 i n d Hi). cbn [mbind option_bind Offset Size].
  destruct (packed_lookup _ fs i n d 4 Hi R2) as [A B]. assert (T := packed_total_nonneg (take i fs)). rewrite disk_seek_begin by lia. cbn [mbind option_bind]. rewrite Z.eqb_refl.
  rewrite (read_holds _ d (zlen d)); [|exact A|done|cbn [pos len]; lia]. rewrite Z.eqb_refl. eexists. split; [reflexivity|]. by split.
Qed.

(** ** Finding *)

Lemma find_from_spec es P : forall i, match find_from i es P with
  | Some k => (i <= k)%nat /\ (exists e, es !! (k - i)%nat = Some e /\ P (FileName e) = true) /\
      (forall j e, es !! j = Some e -> (j < k - i)%nat -> P (FileName e) = false)
  | None => forall e, e ∈ es -> P (FileName e) = false
  end.
Proof.
  induction es as [|e es IH]; intros i; cbn [find_from]; [by intros e He%not_elem_of_nil|]. destruct (P (FileName e)) eqn:E.
  - split; [lia|]. rewrite Nat.sub_diag. split; [by exists e|]. intros j e' _ H. lia.
  - specialize (IH (S i)). destruct (find_from (S i) es P) as [k|].
    + destruct IH as (H1 & (e' & H2 & H3) & H4). split; [lia|]. replace (k - i)%nat with (S (k - S i)) by lia. split; [by exists e'|].
      intros [|j] e0 Hj Hlt; [by injection Hj as <-|]. apply (H4 j); [done|lia].
    + intros e' [->|He]%elem_of_cons; [done|by apply IH].
Qed.
Lemma entries_names fs : forall p j, FileName <$> entries p fs !! j = fst <$> fs !! j.
Proof. induction fs as [|[n d] fs IH]; intros p [|j]; [done|done|done|]. apply IH. Qed.
(** The first file of a name. *)
Lemma find_first r fs n d i : readable r fs -> fs !! i = Some (n, d) -> (forall j n' d', fs !! j = Some (n', d') -> (j < i)%nat -> n' <> n) ->
  _FindFile r n = Some i.
Proof.
  intros [R1 _ _] Hi Hj. unfold _FindFile. rewrite R1. assert (S := find_from_spec (entries 4 fs) (fun x => x =? n) 0).
  assert (Ni := entries_names fs 4 i). rewrite Hi in Ni. destruct (entries 4 fs !! i) as [e|] eqn:Ee; [|done]. injection Ni as Ni.
  destruct (find_from 0 (entries 4 fs) (fun x => x =? n)) as [k|].
  - destruct S as (_ & (e' & S2 & S3) & S4). rewrite Nat.sub_0_r in *. f_equal. destruct (Nat.lt_trichotomy k i) as [L|[L|L]]; [|done|].
    + assert (Nk := entries_names fs 4 k). rewrite S2 in Nk. destruct (fs !! k) as [[n' d']|] eqn:Ek; [|done]. injection Nk as Nk. destruct (Hj k n' d' Ek L).
      apply Z.eqb_eq in S3. congruence.
    + assert (X := S4 i e Ee L). apply Z.eqb_neq in X. congruence.
  - assert (X := S e (list_elem_of_lookup_2 _ _ _ Ee)). cbn beta in X. apply Z.eqb_neq in X. congruence.
Qed.

(** ** The archive *)

Fixpoint Writer_all (f : disk) fs : option disk :=
  match fs with
  | [] => Some f
  | (n, d) :: fs => '(f, ok) ← Writer_Write f n d; if ok : bool then Writer_all f fs else None
  end.
Lemma pack_all fs : forall f gs, pack f gs -> (forall n d, (n, d) ∈ fs -> 0 <= n < 2 ^ 64) -> 4 + total gs + total fs <= room f -> 4 + total gs + total fs < 2 ^ 31 - 1 ->
  exists f', Writer_all f fs = Some f' /\ pack f' (gs ++ fs) /\ room f' = room f.
Proof.
  induction fs as [|[n d] fs IH]; intros f gs Hf Hn Hr Hw; [exists f; by rewrite app_nil_r|]. cbn [total Writer_all] in *. assert (T := packed_total_nonneg fs).
  destruct (pack_write f gs n d Hf) as (f1 & -> & Hf1 & Er); [apply (Hn n d); by left|lia|lia|]. cbn [mbind option_bind].
  destruct (IH f1 (gs ++ [(n, d)]) Hf1) as (f2 & E2 & Hf2 & Er2); [intros n' d' H; apply (Hn n' d'); by right|rewrite packed_total_app; cbn [total]; lia..|].
  exists f2. rewrite <- app_assoc in Hf2. split; [done|]. split; [done|congruence].
Qed.

(** [Copy] adds the files whose masked name is the one desired. *)
Lemma copy_loop_spec desired mask r_fs fs : forall i w gs r, drop i r_fs = fs -> 4 + total r_fs < 2 ^ 31 - 1 -> readable r r_fs -> pack w gs ->
  (forall n d, (n, d) ∈ fs -> 0 <= n < 2 ^ 64) -> 4 + total gs + total fs <= room w -> 4 + total gs + total fs < 2 ^ 31 - 1 ->
  exists w' r', copy_loop (length fs) i w r desired mask = Some (w', r', true) /\
    pack w' (gs ++ filter (fun a => (a.1 .& mask) = desired) fs) /\ readable r' r_fs.
Proof.
  induction fs as [|[n d] fs IH]; intros i w gs r Hd Hbound Hr Hw Hn Hroom Hsz; cbn [length copy_loop total] in *.
  - exists w, r. by rewrite filter_nil, app_nil_r.
  - assert (Hi : r_fs !! i = Some (n, d)) by (rewrite <- (Nat.add_0_r i), <- lookup_drop, Hd; done).
    assert (Hd' : drop (S i) r_fs = fs) by (rewrite (drop_S _ _ _ Hi) in Hd; by injection Hd).
    assert (Hn' : forall n d, (n, d) ∈ fs -> 0 <= n < 2 ^ 64) by (intros n' d' H; apply (Hn n' d'); by right).
    unfold GetFileName. rewrite (r_entries _ _ Hr), (entries_lookup r_fs 4 i n d Hi). cbn [fmap option_fmap option_map FileName mbind option_bind].
    assert (T := packed_total_nonneg fs). destruct (Z.eqb_spec (n .& mask) desired) as [E|E].
    + destruct (read_file r r_fs i n d Hr Hbound Hi) as (r1 & -> & Hr1). cbn [mbind option_bind].
      destruct (pack_write w gs n d Hw) as (w1 & -> & Hw1 & Er); [apply (Hn n d); by left|lia|lia|]. cbn [mbind option_bind].
      destruct (IH (S i) w1 (gs ++ [(n, d)]) r1 Hd' Hbound Hr1 Hw1 Hn') as (w2 & r2 & E2 & Hw2 & Hr2); [rewrite packed_total_app; cbn [total]; lia..|].
      exists w2, r2. split; [done|]. split; [|done]. rewrite filter_cons_True by done. by rewrite <- app_assoc in Hw2.
    + destruct (IH (S i) w gs r Hd' Hbound Hr Hw Hn') as (w2 & r2 & E2 & Hw2 & Hr2); [lia|lia|].
      exists w2, r2. split; [done|]. split; [|done]. by rewrite filter_cons_False.
Qed.

(** C13: an archive of less than 2^31 - 1 bytes in all, the offsets that [File::Seek]
    asserts, of files written one after another on a disk that has room for them, is
    opened with as many entries, in order, with their names and sizes; every entry is
    read back byte for byte, the first of a name is found and loaded, and copying into
    another archive adds exactly the files of the masked name. *)
Theorem pack_roundtrip fs room desired mask : (forall n d, (n, d) ∈ fs -> 0 <= n < 2 ^ 64) -> 4 + total fs <= room -> 4 + total fs < 2 ^ 31 - 1 ->
  exists w f r, Writer_Open room = Some w /\ Writer_all w fs = Some f /\ Reader_Open f = Some r /\
    GetFileCount r = zlen fs /\
    (forall i n d, fs !! i = Some (n, d) -> GetFileName r i = Some n /\ GetFileSize r i = Some (zlen d) /\
       (exists r', Reader_Read r i = Some (r', Some d) /\ readable r' fs) /\
       ((forall j n' d', fs !! j = Some (n', d') -> (j < i)%nat -> n' <> n) -> _FindFile r n = Some i /\ exists r', Load r n = Some (r', Some d))) /\
    (exists w' r', Copy w r desired mask = Some (w', r', true) /\ pack w' (filter (fun a => (a.1 .& mask) = desired) fs)).
Proof.
  intros Hn Hr Hb. assert (T := packed_total_nonneg fs). destruct (pack_open room ltac:(lia)) as (w & Ew & Hw).
  assert (Er : Files.room w = room). { unfold Writer_Open in Ew. rewrite disk_write_all in Ew by (cbn; lia || done). rewrite length_le_bytes in Ew. by injection Ew as <-. }
  destruct (pack_all fs w [] Hw Hn) as (f & Ef & Hf & Erf); [cbn [total]; lia..|]. cbn [app] in Hf.
  destruct (open_readable f fs Hf ltac:(lia)) as (r & Erd & Hrd). exists w, f, r. split; [done|]. split; [done|]. split; [done|].
  assert (Ln : length (_Entries r) = length fs). { rewrite (r_entries _ _ Hrd). generalize 4. clear. induction fs as [|[n d] fs IH]; intros p; [done|]. cbn. by rewrite IH. }
  split; [|split].
  - unfold GetFileCount. rewrite Ln. apply u32_id. assert (X := packed_length_total fs). lia.
  - intros i n d Hi. unfold GetFileName, GetFileSize. rewrite (r_entries _ _ Hrd), (entries_lookup fs 4 i n d Hi). split; [done|]. split; [done|].
    destruct (read_file r fs i n d Hrd Hb Hi) as (r' & Er' & Hr'). split; [by exists r'|]. intros X.
    assert (F := find_first r fs n d i Hrd Hi X). split; [done|]. exists r'. unfold Load. by rewrite F.
  - unfold Copy. rewrite Ln. destruct (copy_loop_spec desired mask fs fs 0 w [] r) as (w' & r' & E & Hw' & _); try done; [cbn [total]; lia..|].
    exists w', r'. by split.
Qed.

(** When the disk is full in the middle of a block, the entry stays behind:
    the archive then lists a file that cannot be read. *)
Lemma pack_full : option_map (fun r => (_Entries r, option_map snd (Reader_Read r 1)))
    (w ← Writer_Open 50; '(w, ok1) ← Writer_Write w 7 (str "abcde"); '(w, ok2) ← Writer_Write w 8 (str "xyz....................");
     if (ok1 : bool) && negb ok2 then Reader_Open w else None) =
  Some ([mkEntry 7 20 5; mkEntry 8 41 23], Some None).
Proof. vm_compute. reflexivity. Qed.

Definition three : list (Z * list Z) := [(1, str "one"); (2, []); (257, str "again")].
Lemma pack_roundtrip_witness :
  exists w f r, Writer_Open 100 = Some w /\ Writer_all w three = Some f /\ Reader_Open f = Some r /\
    GetFileCount r = zlen three /\
    (forall i n d, three !! i = Some (n, d) -> GetFileName r i = Some n /\ GetFileSize r i = Some (zlen d) /\
       (exists r', Reader_Read r i = Some (r', Some d) /\ readable r' three) /\
       ((forall j n' d', three !! j = Some (n', d') -> (j < i)%nat -> n' <> n) -> _FindFile r n = Some i /\ exists r', Load r n = Some (r', Some d))) /\
    (exists w' r', Copy w r 1 255 = Some (w', r', true) /\ pack w' (filter (fun a => (a.1 .& 255) = 1) three)).
Proof.
  apply (pack_roundtrip three 100 1 255); [|cbn; lia|cbn; lia]. intros n d H. apply list_elem_of_In in H. cbn in H.
  repeat (destruct H as [[= <- <-]|H]; [lia|]). done.
Defined.
