(* ===== verification/Zip.v ===== *)
(** [FileZip] of os/file_zip.h and os/file_zip.cpp: the headers as bytes, the
    operations on the archive, and its directory.  Deflate and the checksum are
    library code and so parameters, as are the local time and [std::sort]. *)
From S2P Require Import Prelude Search Files.

(** ** Packed headers *)

(** Unsigned fields of the widths [ws], in bytes, one after another. *)
Fixpoint put (ws : list nat) (vs : list Z) : list Z :=
  match ws, vs with w :: ws, v :: vs => le_bytes w v ++ put ws vs | _, _ => [] end.
Fixpoint get (ws : list nat) (b : list Z) : list Z :=
  match ws with [] => [] | w :: ws => le_val (take w b) :: get ws (drop w b) end.
Definition width (ws : list nat) : nat := fold_right Nat.add 0%nat ws.
Definition fits (ws : list nat) (vs : list Z) : Prop := Forall2 (fun w v => 0 <= v < 2 ^ (8 * Z.of_nat w)) ws vs.

Lemma length_put ws vs : length ws = length vs -> length (put ws vs) = width ws.
Proof. revert vs. induction ws as [|w ws IH]; intros [|v vs] H; try done. cbn. rewrite length_app, length_le_bytes, IH; [done|by injection H]. Qed.
Lemma get_put ws vs rest : fits ws vs -> get ws (put ws vs ++ rest) = vs.
Proof.
  unfold fits. induction 1 as [|w v ws vs Hv _ IH]; [done|]. cbn [put get]. rewrite <- app_assoc.
  rewrite take_app_length' by (by rewrite length_le_bytes). rewrite drop_app_length' by (by rewrite length_le_bytes). rewrite le_val_bytes, Z.mod_small by done. by rewrite IH.
Qed.

Record LocalFileHeader := mkLFH {
  l_Signature : Z; l_Version : Z; l_Flag : Z; l_Compression : Z; l_FileTime : Z; l_FileDate : Z;
  l_CRC32 : Z; l_Size : Z; l_SizeOriginal : Z; l_FileNameLength : Z; l_ExtraFieldLength : Z }.
Definition lfh_magic : Z := 0x04034b50.
Definition lfh_widths : list nat := [4; 2; 2; 2; 2; 2; 4; 4; 4; 2; 2]%nat.
Definition lfh_bytes (h : LocalFileHeader) : list Z :=
  put lfh_widths [l_Signature h; l_Version h; l_Flag h; l_Compression h; l_FileTime h; l_FileDate h; l_CRC32 h; l_Size h; l_SizeOriginal h;
    l_FileNameLength h; l_ExtraFieldLength h].
Definition lfh_of (b : list Z) : LocalFileHeader :=
  match get lfh_widths b with
  | [a1; a2; a3; a4; a5; a6; a7; a8; a9; a10; a11] => mkLFH a1 a2 a3 a4 a5 a6 a7 a8 a9 a10 a11
  | _ => mkLFH 0 0 0 0 0 0 0 0 0 0 0
  end.

(** [FileEntry]; the bytes behind the fixed fields are the name, the extra field
    and the comment. *)
Record FileEntry := mkFE {
  Signature : Z; ZipVersion : Z; UnzipVersion : Z; Flag : Z; Compression : Z; FileTime : Z; FileDate : Z;
  CRC32 : Z; Size : Z; SizeOriginal : Z; FileNameLength : Z; ExtraFieldLength : Z; FileCommentLength : Z;
  DiskNumber : Z; FileAttributes : Z; FileAttributesOriginal : Z; OffsetToLocalFileHeader : Z; tail : list Z }.
Definition fe_magic : Z := 0x02014b50.
Definition fe_widths : list nat := [4; 2; 2; 2; 2; 2; 2; 4; 4; 4; 2; 2; 2; 2; 2; 4; 4]%nat.
Definition fe_fields (e : FileEntry) : list Z :=
  [Signature e; ZipVersion e; UnzipVersion e; Flag e; Compression e; FileTime e; FileDate e; CRC32 e; Size e; SizeOriginal e;
   FileNameLength e; ExtraFieldLength e; FileCommentLength e; DiskNumber e; FileAttributes e; FileAttributesOriginal e; OffsetToLocalFileHeader e].
Definition fe_bytes (e : FileEntry) : list Z := put fe_widths (fe_fields e) ++ tail e.
Definition fe_of (b : list Z) : FileEntry :=
  match get fe_widths b with
  | [a1; a2; a3; a4; a5; a6; a7; a8; a9; a10; a11; a12; a13; a14; a15; a16; a17] =>
    mkFE a1 a2 a3 a4 a5 a6 a7 a8 a9 a10 a11 a12 a13 a14 a15 a16 a17 (take (Z.to_nat (a11 + a12 + a13)) (drop 46 b))
  | _ => mkFE 0 0 0 0 0 0 0 0 0 0 0 0 0 0 0 0 0 []
  end.
Definition GetTotalSize (e : FileEntry) : Z := u32 (46 + FileNameLength e + ExtraFieldLength e + FileCommentLength e).
Definition GetOffsetToLocalData (e : FileEntry) : Z := u32 (OffsetToLocalFileHeader e + 30 + FileNameLength e).
Definition FileName (e : FileEntry) : list Z := take (Z.to_nat (FileNameLength e)) (tail e).

Record CentralDirectory := mkCD {
  c_Signature : Z; m_uThisDisk : Z; m_uDiskWithCD : Z; m_uDiskEntriesNo : Z; m_uEntriesNumber : Z; m_uSize : Z; m_uOffset : Z; m_ZipCommentLength : Z }.
Definition cd_magic : Z := 0x06054b50.
Definition cd_widths : list nat := [4; 2; 2; 2; 2; 4; 4; 2]%nat.
Definition cd_bytes (c : CentralDirectory) : list Z :=
  put cd_widths [c_Signature c; m_uThisDisk c; m_uDiskWithCD c; m_uDiskEntriesNo c; m_uEntriesNumber c; m_uSize c; m_uOffset c; m_ZipCommentLength c].
Definition cd_of (b : list Z) : CentralDirectory :=
  match get cd_widths b with [a1; a2; a3; a4; a5; a6; a7; a8] => mkCD a1 a2 a3 a4 a5 a6 a7 a8 | _ => mkCD 0 0 0 0 0 0 0 0 end.

(** ** The archive *)

(** The entry being added, the hole it takes, and what undoes it. *)
Record pending := mkPending {
  _AddingNonZeroFileEntry : FileEntry; _HoleFromEntry : option nat; _HoleTakenSize : Z; _CentralDirectoryStart_Old : Z; _ClaimedSize : Z }.
Record zip := mkZip {
  _pZipFile : disk; m_FileEntries : list FileEntry; m_CentralDirectoryStart : Z; m_CentralDirectoryModified : bool;
  m_ListSorted : bool; m_ZipComment : list Z; m_CompressionMode : Z; adding : option pending }.
Definition ZIP_STORE : Z := 0.
Definition ZIP_DEFLATED : Z := 8.
Definition FILE_ATTRIBUTE_DIRECTORY : Z := 0x10.
Definition FILE_ATTRIBUTE_ARCHIVE : Z := 0x20.

Definition set_file (z : zip) (f : disk) : zip :=
  mkZip f (m_FileEntries z) (m_CentralDirectoryStart z) (m_CentralDirectoryModified z) (m_ListSorted z) (m_ZipComment z) (m_CompressionMode z) (adding z).
Definition set_entries (z : zip) (es : list FileEntry) : zip :=
  mkZip (_pZipFile z) es (m_CentralDirectoryStart z) (m_CentralDirectoryModified z) (m_ListSorted z) (m_ZipComment z) (m_CompressionMode z) (adding z).
Definition set_start (z : zip) (s : Z) : zip :=
  mkZip (_pZipFile z) (m_FileEntries z) s (m_CentralDirectoryModified z) (m_ListSorted z) (m_ZipComment z) (m_CompressionMode z) (adding z).
Definition set_adding (z : zip) (a : option pending) : zip :=
  mkZip (_pZipFile z) (m_FileEntries z) (m_CentralDirectoryStart z) (m_CentralDirectoryModified z) (m_ListSorted z) (m_ZipComment z) (m_CompressionMode z) a.
Definition changed (z : zip) : zip :=
  mkZip (_pZipFile z) (m_FileEntries z) (m_CentralDirectoryStart z) true false (m_ZipComment z) (m_CompressionMode z) (adding z).
(** The extent of an entry: a removed one is a hole. *)
Definition resized (e : FileEntry) (by_ : Z) : FileEntry :=
  mkFE (Signature e) (ZipVersion e) (UnzipVersion e) (Flag e) (Compression e) (FileTime e) (FileDate e) (CRC32 e) (u32 (Size e - by_)) (SizeOriginal e)
    (FileNameLength e) (ExtraFieldLength e) (FileCommentLength e) (DiskNumber e) (FileAttributes e) (FileAttributesOriginal e)
    (u32 (OffsetToLocalFileHeader e + by_)) (tail e).

(** Seek there and write, or read, all of it. *)
Definition put_at (z : zip) (p : Z) (l : list Z) : option (zip * bool) :=
  '(f, q) ← disk_Seek (_pZipFile z) p Seek_Begin;
  Some (if q =? p then let '(f, n) := Write f l in (set_file z f, n =? zlen l) else (set_file z f, false)).
Definition get_at (z : zip) (p n : Z) : option (zip * option (list Z)) :=
  '(f, q) ← disk_Seek (_pZipFile z) p Seek_Begin;
  Some (if q =? p then let '(f, b) := Read f n in (set_file z f, if zlen b =? n then Some b else None) else (set_file z f, None)).

Section Zip.
Context (crc : list Z -> Z) (zlib_encode : list Z -> option (list Z)) (zlib_decode : list Z -> Z -> option (list Z)).
Context (dos : Z -> Z * Z) (sort : list FileEntry -> list FileEntry).

(** [Replace('\\','/')]. *)
Definition slashes (name : list Z) : list Z := map (fun c => if c =? 92 then 47 else c) name.
Definition new_entry (name : list Z) (size ftime attrib offset : Z) : FileEntry :=
  mkFE fe_magic 0x014 0x000a 0 0 (dos ftime).2 (dos ftime).1 0 size size (u16 (zlen name)) 0 0 0 0 attrib offset name.

(** The last character of an empty name does not exist. *)
Definition AddZeroSizedEntry (z : zip) (pathname : list Z) (ftime attrib : Z) : option (zip * bool) :=
  if 0xffff <? zlen pathname then Some (z, false)
  else if 0xffff <=? zlen (m_FileEntries z) then Some (z, false)
  else
    c ← last pathname;
    let slash_add := negb (c =? 47) && negb (c =? 92) && (attrib =? FILE_ATTRIBUTE_DIRECTORY) in
    let e := new_entry (slashes pathname ++ (if slash_add then [47] else [])) 0 ftime attrib 0 in
    Some (changed (set_entries z (m_FileEntries z ++ [e])), true).

(** The first removed entry that is large enough. *)
Fixpoint find_hole (i : nat) (es : list FileEntry) (n : Z) : option nat :=
  match es with
  | [] => None
  | e :: es => if (Signature e =? 0) && (n <=? Size e) then Some i else find_hole (S i) es n
  end.

Definition update_adding (z : zip) (f : FileEntry -> FileEntry) : zip :=
  match adding z with
  | Some a => set_adding z (Some (mkPending (f (_AddingNonZeroFileEntry a)) (_HoleFromEntry a) (_HoleTakenSize a) (_CentralDirectoryStart_Old a) (_ClaimedSize a)))
  | None => z
  end.
(** The hole gives back [n] bytes, or the directory starts at [start]. *)
Definition give_back (z : zip) (hole : option nat) (n start : Z) : zip :=
  match hole with
  | Some i => match m_FileEntries z !! i with Some e => set_entries z (<[i:=resized e (- n)]> (m_FileEntries z)) | None => z end
  | None => set_start z start
  end.

Definition lfh_for (e : FileEntry) : LocalFileHeader :=
  mkLFH lfh_magic (UnzipVersion e) (Flag e) (Compression e) (FileTime e) (FileDate e) (CRC32 e) (Size e) (SizeOriginal e) (FileNameLength e) 0.
Definition _AddNonZeroFileEntry_End (z : zip) (commit : bool) : option (zip * bool) :=
  a ← adding z;
  let e := _AddingNonZeroFileEntry a in
  let rollback z := give_back (set_adding z None) (_HoleFromEntry a) (_HoleTakenSize a) (_CentralDirectoryStart_Old a) in
  if commit then
    '(z, ok) ← put_at z (OffsetToLocalFileHeader e) (lfh_bytes (lfh_for e));
    if ok : bool then
      let z := changed (set_entries z (m_FileEntries z ++ [e])) in
      let saved := s32 (_ClaimedSize a - Size e) in
      let z := if saved =? 0 then z else give_back z (_HoleFromEntry a) saved (u32 (m_CentralDirectoryStart z - saved)) in
      Some (set_adding z None, true)
    else Some (rollback z, false)
  else Some (rollback z, true).

Definition _AddNonZeroFileEntry_Begin (z : zip) (pathname : list Z) (size ftime : Z) : option (zip * bool) :=
  if 0xffff <? zlen pathname then Some (z, false)
  else if 0xffff <=? zlen (m_FileEntries z) then Some (z, false)
  else
    let LFlen := u32 (30 + zlen pathname + size) in
    let start := m_CentralDirectoryStart z in
    let save (z : zip) (hole : option nat) (offset : Z) :=
      let e := new_entry (slashes pathname) size ftime FILE_ATTRIBUTE_ARCHIVE offset in
      let z := set_adding z (Some (mkPending e hole LFlen start size)) in
      '(z, ok) ← put_at z (u32 (offset + 30)) pathname;
      if ok : bool then Some (z, true) else r ← _AddNonZeroFileEntry_End z false; Some ((r : zip * bool).1, false) in
    match find_hole 0 (m_FileEntries z) LFlen with
    | Some i =>
      h ← m_FileEntries z !! i;
      save (set_entries z (<[i:=resized h LFlen]> (m_FileEntries z))) (Some i) (OffsetToLocalFileHeader h)
    | None =>
      if 2 ^ 32 - 1 - 23 - 0xffff <? u32 (start + LFlen) then Some (z, false)
      else save (set_start z (u32 (start + LFlen))) None start
    end.

Definition with_data (e : FileEntry) (crc32 size size_org compression : Z) : FileEntry :=
  mkFE (Signature e) (ZipVersion e) (UnzipVersion e) (Flag e) (u16 compression) (FileTime e) (FileDate e) crc32 size size_org
    (FileNameLength e) (ExtraFieldLength e) (FileCommentLength e) (DiskNumber e) (FileAttributes e) (FileAttributesOriginal e)
    (OffsetToLocalFileHeader e) (tail e).

(** The data of the entry being added. *)
Definition add_data (z : zip) (data stored : list Z) : option (zip * bool) :=
  a ← adding z;
  let e := _AddingNonZeroFileEntry a in
  '(z, ok) ← put_at z (GetOffsetToLocalData e) stored;
  if ok : bool then
    _AddNonZeroFileEntry_End (update_adding z (fun e =>
      with_data e (crc data) (zlen stored) (zlen data) (if zlen stored =? zlen data then 0 else m_CompressionMode z))) true
  else r ← _AddNonZeroFileEntry_End z false; Some ((r : zip * bool).1, false).

(** [AddFile] of a whole file.  What [zlib_encode] gives is used when it is
    shorter. *)
Definition AddFile (z : zip) (pathname data : list Z) (ftime : Z) : option (zip * bool) :=
  if zlen data =? 0 then AddZeroSizedEntry z pathname ftime FILE_ATTRIBUTE_ARCHIVE
  else
    let stored := if m_CompressionMode z =? 0 then data
      else match zlib_encode data with Some d => if zlen d <? zlen data then d else data | None => data end in
    r ← _AddNonZeroFileEntry_Begin z pathname (zlen stored) ftime;
    let '(z, ok) := (r : zip * bool) in
    if ok then add_data z data stored else Some (z, false).

(** [AddFile] of a size gives a stream to write the data to; [store] is
    [compress_store], the other kind deflates. *)
Record compress_stream := mkWriter { Written : Z; w_BaseInFile : Z; w_CRC : Z; store_ : bool }.
Definition with_crc_size (e : FileEntry) (crc32 size : Z) : FileEntry := with_data e crc32 size (SizeOriginal e) (Compression e).
Definition AddFile_stream (z : zip) (pathname : list Z) (size ftime : Z) : option (zip * option compress_stream) :=
  r ← _AddNonZeroFileEntry_Begin z pathname size ftime;
  let '(z, ok) := (r : zip * bool) in
  if ok then
    a ← adding z;
    let s := mkWriter 0 (GetOffsetToLocalData (_AddingNonZeroFileEntry a)) 0 (m_CompressionMode z =? 0) in
    if (m_CompressionMode z =? 0) || (m_CompressionMode z =? 8) then
      Some (update_adding z (fun e => with_data e (CRC32 e) (Size e) size (m_CompressionMode z)), Some s)
    else None
  else Some (z, None).
(** [INFINITE] is the failure. *)
Definition compress_store_Write (z : zip) (s : compress_stream) (p : list Z) : option (zip * compress_stream * Z) :=
  a ← adding z;
  if u32 (Written s + zlen p) <=? _ClaimedSize a then
    '(z, ok) ← put_at z (u32 (w_BaseInFile s + Written s)) p;
    if ok : bool then Some (z, mkWriter (u32 (Written s + zlen p)) (w_BaseInFile s) (crc p) (store_ s), zlen p)
    else Some (z, mkWriter (Written s) (w_BaseInFile s) (crc p) (store_ s), u32 (-1))
  else Some (z, s, u32 (-1)).
Definition compress_stream_Finalize (z : zip) (s : compress_stream) (commit : bool) : option (zip * bool) :=
  _AddNonZeroFileEntry_End (update_adding z (fun e => with_crc_size e (w_CRC s) (Written s))) commit.

Definition RemoveFile (z : zip) (idx : nat) : option zip :=
  e ← m_FileEntries z !! idx;
  if Signature e =? 0 then None
  else
    let h := mkFE 0 (ZipVersion e) (UnzipVersion e) (Flag e) (Compression e) (FileTime e) (FileDate e) (CRC32 e) (u32 (Size e + 30 + FileNameLength e))
      (SizeOriginal e) (FileNameLength e) (ExtraFieldLength e) (FileCommentLength e) (DiskNumber e) (FileAttributes e) (FileAttributesOriginal e)
      (OffsetToLocalFileHeader e) (tail e) in
    Some (set_entries z (<[idx:=h]> (m_FileEntries z))).

(** [ExtractFile] into the memory at [pData]: what lies there when its checksum
    agrees, also where there was no local header and nothing was read.
    [zlib_decode] sets the original size. *)
Definition ExtractFile (z : zip) (idx : nat) (pData : list Z) : option (zip * option (list Z)) :=
  e ← m_FileEntries z !! idx;
  let checked z e data := if crc data =? CRC32 e then (z, Some data) else (z, None) in
  let untouched z := checked z e (take (Z.to_nat (SizeOriginal e)) pData) in
  '(z, b) ← get_at z (OffsetToLocalFileHeader e) 30;
  match (b : option (list Z)) with
  | None => Some (untouched z)
  | Some b =>
    let h := lfh_of b in
    if l_Signature h =? lfh_magic then
      let begin_ := u32 (OffsetToLocalFileHeader e + l_FileNameLength h + l_ExtraFieldLength h + 30) in
      if l_Compression h =? 0 then
        if Size e =? SizeOriginal e then
          '(z, b) ← get_at z begin_ (Size e);
          Some match (b : option (list Z)) with Some data => checked z e data | None => (z, None) end
        else Some (z, None)
      else
        '(z, b) ← get_at z begin_ (Size e);
        Some match (b : option (list Z)) with
        | None => (z, None)
        | Some p =>
          if l_Compression h =? 8 then
            match zlib_decode p (SizeOriginal e) with
            | Some data =>
              let e := with_data e (CRC32 e) (Size e) (zlen data) (Compression e) in
              checked (set_entries z (<[idx:=e]> (m_FileEntries z))) e data
            | None => (z, None)
            end
          else (z, None)
        end
    else Some (untouched z)
  end.

(** [ExtractFile] as a stream.  What passes the end of the data fails an
    assertion of [CheckCRC]. *)
Record decompress_stream := mkReader { TotalOutput : Z; Outputed : Z; r_BaseInFile : Z; r_CRC : Z; Target_CRC : Z; stored : bool }.
Definition ExtractFile_stream (z : zip) (idx : nat) : option (zip * option decompress_stream) :=
  e ← m_FileEntries z !! idx;
  '(z, b) ← get_at z (OffsetToLocalFileHeader e) 30;
  match (b : option (list Z)) with
  | None => Some (z, None)
  | Some b =>
    let h := lfh_of b in
    if l_Signature h =? lfh_magic then
      let begin_ := u32 (OffsetToLocalFileHeader e + l_FileNameLength h + l_ExtraFieldLength h + 30) in
      if (l_Compression h =? 0) || (l_Compression h =? 8) then
        Some (z, Some (mkReader (SizeOriginal e) 0 begin_ 0 (CRC32 e) (l_Compression h =? 0)))
      else None
    else Some (z, None)
  end.
Definition decompress_store_Read (z : zip) (s : decompress_stream) (size : Z) : option (zip * decompress_stream * list Z) :=
  if Outputed s <? TotalOutput s then
    let p := u32 (r_BaseInFile s + Outputed s) in
    '(f, q) ← disk_Seek (_pZipFile z) p Seek_Begin;
    if q =? p then
      let '(f, b) := Read f size in
      let z := set_file z f in
      if zlen b =? 0 then Some (z, s, [])
      else if TotalOutput s <? zlen b + Outputed s then None
      else
        let next := mkReader (TotalOutput s) (Outputed s) (r_BaseInFile s) (crc b) (Target_CRC s) (stored s) in
        if negb (zlen b + Outputed s =? TotalOutput s) || (crc b =? Target_CRC s) then
          Some (z, mkReader (TotalOutput s) (Outputed s + zlen b) (r_BaseInFile s) (crc b) (Target_CRC s) (stored s), b)
        else Some (z, next, [])
    else Some (set_file z f, s, [])
  else Some (z, s, []).

Definition IsFileExtractable (e : FileEntry) : bool := (Compression e =? 0) || (Compression e =? 8).

(** ** The directory *)

Fixpoint name_lt (a b : list Z) : bool :=
  match a, b with
  | [], [] => false | [], _ :: _ => true | _ :: _, [] => false
  | x :: a, y :: b => (x <? y) || ((x =? y) && name_lt a b)
  end.
Definition ReindexAllEntries (z : zip) : zip :=
  if m_ListSorted z then z
  else mkZip (_pZipFile z) (sort (m_FileEntries z)) (m_CentralDirectoryStart z) (m_CentralDirectoryModified z) true (m_ZipComment z) (m_CompressionMode z) (adding z).

(** One entry after another as long as the disk takes them whole. *)
Fixpoint save_entries (f : disk) (es : list FileEntry) (cdsize entry_co : Z) : disk * option (Z * Z) :=
  match es with
  | [] => (f, Some (cdsize, entry_co))
  | e :: es =>
    if Signature e =? 0 then save_entries f es cdsize entry_co
    else
      let '(f, n) := Write f (take (Z.to_nat (GetTotalSize e)) (fe_bytes e)) in
      if n =? GetTotalSize e then save_entries f es (u32 (cdsize + GetTotalSize e)) (u32 (entry_co + 1)) else (f, None)
  end.
Definition Save (z : zip) : option (zip * bool) :=
  if m_CentralDirectoryModified z then
    '(f, p) ← disk_Seek (_pZipFile z) (m_CentralDirectoryStart z) Seek_Begin;
    Some (if p =? m_CentralDirectoryStart z then
      let '(f, r) := save_entries f (m_FileEntries z) 0 0 in
      match r with
      | None => (set_file z f, false)
      | Some (cdsize, entry_co) =>
        let cd := mkCD cd_magic 0 0 (u16 entry_co) (u16 entry_co) cdsize (m_CentralDirectoryStart z) (u16 (zlen (m_ZipComment z))) in
        let '(f, n) := Write f (cd_bytes cd) in
        if n =? 22 then
          let '(f, ok) := if zlen (m_ZipComment z) =? 0 then (f, true) else let '(f, n) := Write f (m_ZipComment z) in (f, n =? zlen (m_ZipComment z)) in
          if ok then
            (mkZip f (m_FileEntries z) (m_CentralDirectoryStart z) false (m_ListSorted z) (m_ZipComment z) (m_CompressionMode z) (adding z), true)
          else (set_file z f, false)
        else (set_file z f, false)
      end
    else (set_file z f, false))
  else Some (z, false).

(** [Close] saves and forgets. *)
Definition Close (z : zip) : option zip :=
  '(z, _) ← Save z;
  Some (mkZip (_pZipFile z) [] 0 (m_CentralDirectoryModified z) (m_ListSorted z) [] (m_CompressionMode z) (adding z)).
Definition SetCompressionMode (z : zip) (mode : Z) : zip :=
  mkZip (_pZipFile z) (m_FileEntries z) (m_CentralDirectoryStart z) (m_CentralDirectoryModified z) (m_ListSorted z) (m_ZipComment z) mode (adding z).

(** [Open]: the end record is looked for from the end of the last bytes, [i] of
    them to go. *)
Fixpoint find_end (i : nat) (cdir : list Z) (filelen : Z) : option (nat * CentralDirectory) :=
  match i with
  | O => None
  | S i =>
    let c := cd_of (drop i cdir) in
    if (c_Signature c =? cd_magic) && (m_uOffset c <? filelen) then Some (i, c) else find_end i cdir filelen
  end.
(** [n] entries from the bytes of the directory, each with room for itself. *)
Fixpoint load_entries (n : nat) (pool : list Z) : option (list FileEntry) :=
  match n with
  | O => Some []
  | S n =>
    let e := fe_of pool in
    let size := 46 + FileNameLength e + ExtraFieldLength e + FileCommentLength e in
    if (Signature e =? fe_magic) && (47 <=? zlen pool) && (size <=? zlen pool) then
      es ← load_entries n (drop (Z.to_nat size) pool); Some (e :: es)
    else None
  end.
Definition Open (f : disk) (create load_indexed : bool) : option zip :=
  if create && (GetLength f =? 0) then Some (mkZip f [] 0 false false [] ZIP_STORE None)
  else
    let filelen := u32 (s32 (GetLength f)) in
    if filelen <? 23 then None
    else
      let n := Z.min (GetLength f) (0xffff + 23) in
      '(f, _) ← disk_Seek f (- n) Seek_End;
      let '(f, cdir) := Read f n in
      r ← (if zlen cdir =? n then find_end (Z.to_nat (n - 19)) cdir filelen else None);
      let '(i, c) := (r : nat * CentralDirectory) in
      if (m_uThisDisk c =? 0) && (m_uDiskWithCD c =? 0) && (m_uDiskEntriesNo c =? m_uEntriesNumber c) && (u32 (m_uSize c + m_uOffset c) <? filelen) then
        let comment := take (Z.to_nat (Z.min (m_ZipCommentLength c) (u16 (n - Z.of_nat i - 22)))) (drop (i + 22) cdir) in
        '(f, _) ← disk_Seek f (m_uOffset c) Seek_Begin;
        let '(f, pool) := Read f (m_uSize c) in
        let z := mkZip f [] (m_uOffset c) false false comment ZIP_STORE None in
        if zlen pool =? m_uSize c then
          es ← load_entries (Z.to_nat (m_uEntriesNumber c)) pool;
          let z := set_entries z es in Some (if load_indexed then ReindexAllEntries z else z)
        else Some z
      else None.

(** [FindFile]: in order, or with [rt::BinarySearch] in a sorted list. *)
Fixpoint find_name (i : nat) (es : list FileEntry) (name : list Z) : option nat :=
  match es with
  | [] => None
  | e :: es => if decide (FileName e = name) then Some i else find_name (S i) es name
  end.
Definition no_entry : FileEntry := mkFE 0 0 0 0 0 0 0 0 0 0 0 0 0 0 0 0 0 [].
Definition entry_at (es : list FileEntry) (i : Z) : FileEntry := nth (Z.to_nat i) es no_entry.
Definition FindFile (z : zip) (pathname : list Z) : Z :=
  let es := m_FileEntries z in
  if zlen es =? 0 then -1
  else if m_ListSorted z then
    match BinarySearch (fun e k => name_lt (FileName e) k) (fun k e => name_lt k (FileName e)) (entry_at es) (zlen es) pathname with
    | Some idx => if (idx <? zlen es) && negb (Signature (entry_at es idx) =? 0) then idx else -1
    | None => -1
    end
  else match find_name 0 es pathname with Some i => Z.of_nat i | None => -1 end.
Definition FindFileRecursive (z : zip) (suffix : list Z) (start : nat) : option nat :=
  let n := length suffix in
  let ends e := (zlen suffix <=? FileNameLength e) && bool_decide (drop (length (FileName e) - n) (FileName e) = suffix) in
  (fix go (i : nat) (es : list FileEntry) := match es with [] => None | e :: es => if ends e : bool then Some i else go (S i) es end)
    start (drop start (m_FileEntries z)).
Definition GetFileSize (z : zip) (idx : nat) : option Z := SizeOriginal <$> m_FileEntries z !! idx.
Definition GetFileName (z : zip) (idx : nat) : option (list Z) := FileName <$> m_FileEntries z !! idx.
Definition GetFileAttribute (z : zip) (idx : nat) : option Z := FileAttributesOriginal <$> m_FileEntries z !! idx.
Definition GetFileArchivedSize (z : zip) (idx : nat) : option Z := Size <$> m_FileEntries z !! idx.
Definition GetLocalFileHeaderOffset (z : zip) (idx : nat) : option Z := OffsetToLocalFileHeader <$> m_FileEntries z !! idx.
End Zip.
