(* ===== verification/ZipInv.v ===== *)
(** What a [FileZip] keeps: the files and the holes of an archive do not overlap,
    every file is in place, and what fails leaves the archive as it was. *)
From S2P Require Import Prelude Files Zip.

(** An entry is a hole, an empty file or a directory, or a file with its data. *)
Inductive item := Hole | Empty | Stored (d : list Z).
Definition member : Type := FileEntry * item.

Definition lo (a : member) : Z := OffsetToLocalFileHeader a.1.
Definition extent (a : member) : Z :=
  match a.2 with Hole => Size a.1 | Empty => 0 | Stored _ => 30 + FileNameLength a.1 + Size a.1 end.
Definition apart (a b : member) : Prop :=
  extent a = 0 \/ extent b = 0 \/ lo a + extent a <= lo b \/ lo b + extent b <= lo a.
Fixpoint all_apart (L : list member) : Prop :=
  match L with [] => True | a :: L => Forall (apart a) L /\ all_apart L end.

Lemma apart_sym a b : apart a b -> apart b a.
Proof. unfold apart. tauto. Qed.
Lemma all_apart_app L x : all_apart (L ++ [x]) <-> all_apart L /\ Forall (fun a => apart a x) L.
Proof.
  induction L as [|a L IH]; cbn [app all_apart]; [split; [done|split; [apply Forall_nil_2|done]]|]. rewrite IH, Forall_app, Forall_singleton, Forall_cons. tauto.
Qed.
Lemma all_apart_insert L i a a' : all_apart L -> L !! i = Some a -> (forall b, apart a b -> apart a' b) -> all_apart (<[i:=a']> L).
Proof.
  revert i. induction L as [|x L IH]; intros [|i] H Hi Hs; try done; destruct H as [H1 H2].
  - injection Hi as ->. split; [|done]. eapply Forall_impl; [exact H1|]. exact Hs.
  - change (<[S i:=a']> (x :: L)) with (x :: <[i:=a']> L). split; [|by apply (IH i)]. apply Forall_insert; [done|].
    apply apart_sym, Hs, apart_sym. rewrite Forall_lookup in H1. by apply (H1 i).
Qed.
Lemma all_apart_lookup L i j a b : all_apart L -> L !! i = Some a -> L !! j = Some b -> i <> j -> apart a b.
Proof.
  revert i j. induction L as [|x L IH]; intros [|i] [|j] H Hi Hj Hne; try done; destruct H as [H1 H2]; rewrite Forall_lookup in H1.
  - injection Hi as ->. by apply (H1 j).
  - injection Hj as ->. apply apart_sym. by apply (H1 i).
  - apply (IH i j); [done|done|done|congruence].
Qed.
Lemma all_apart_perm L K : L ≡ₚ K -> all_apart L -> all_apart K.
Proof.
  induction 1 as [|x L K P IH|x y L|L K M _ IH1 _ IH2]; [done| | |tauto]; cbn [all_apart].
  - intros [H1 H2]. split; [by rewrite <- P|by apply IH].
  - intros [H1 [H2 H3]]. apply Forall_cons in H1 as [H0 H1]. split; [constructor; [by apply apart_sym|done]|by split].
Qed.
Lemma all_apart_filter (P : member -> Prop) `{forall x, Decision (P x)} L : all_apart L -> all_apart (filter P L).
Proof.
  induction L as [|x L IH]; intros H0; [done|]. destruct H0 as [H1 H2]. rewrite filter_cons. destruct (decide (P x)); [|by apply IH].
  split; [|by apply IH]. apply Forall_forall. intros y [_ Hy]%list_elem_of_filter. rewrite Forall_forall in H1. by apply H1.
Qed.

(** ** The entries that a directory lists *)

Definition live (e : FileEntry) : bool := negb (Signature e =? 0).
Definition lives (es : list FileEntry) : list FileEntry := filter live es.
Definition dir_bytes (es : list FileEntry) : list Z := concat (map fe_bytes (lives es)).
Lemma lives_cons e es : lives (e :: es) = if live e then e :: lives es else lives es.
Proof. unfold lives. rewrite filter_cons. by destruct (live e). Qed.
Lemma dir_bytes_cons e es : dir_bytes (e :: es) = (if live e then fe_bytes e else []) ++ dir_bytes es.
Proof. unfold dir_bytes. rewrite lives_cons. by destruct (live e). Qed.
Lemma dir_bytes_app es e : dir_bytes (es ++ [e]) = dir_bytes es ++ (if live e then fe_bytes e else []).
Proof. induction es as [|x es IH]; cbn [app]; rewrite !dir_bytes_cons; [apply app_nil_r|]. by rewrite IH, app_assoc. Qed.
Lemma dir_bytes_insert es i e h : es !! i = Some e -> live e = false -> live h = false -> dir_bytes (<[i:=h]> es) = dir_bytes es.
Proof.
  revert i. induction es as [|x es IH]; intros [|i] Hi He Hh; [done..| |].
  - injection Hi as ->. change (<[0%nat:=h]> (e :: es)) with (h :: es). by rewrite !dir_bytes_cons, He, Hh.
  - change (<[S i:=h]> (x :: es)) with (x :: <[i:=h]> es). rewrite !dir_bytes_cons. f_equal. by apply IH.
Qed.

Section Inv.
Context (crc : list Z -> Z) (zlib_encode : list Z -> option (list Z)) (zlib_decode : list Z -> Z -> option (list Z)).
Context (dos : Z -> Z * Z) (sort : list FileEntry -> list FileEntry).
Hypothesis crc_range : forall d, 0 <= crc d < 2 ^ 32.
Hypothesis dos_range : forall t, 0 <= (dos t).1 < 2 ^ 16 /\ 0 <= (dos t).2 < 2 ^ 16.
(** Inflate undoes deflate, which gives something. *)
Hypothesis zlib_law : forall d s, zlib_encode d = Some s -> s <> [] /\ zlib_decode s (zlen d) = Some d.

(** The local header, the name and the stored bytes of a file. *)
Definition stored_at (m : mem) (flen : Z) (e : FileEntry) (d : list Z) : Prop :=
  exists name s, holds m (OffsetToLocalFileHeader e) (lfh_bytes (lfh_for e) ++ name ++ s) /\ zlen name = FileNameLength e /\ zlen s = Size e /\
    OffsetToLocalFileHeader e + 30 + FileNameLength e + Size e <= flen /\ CRC32 e = crc d /\ SizeOriginal e = zlen d /\
    (Compression e = 0 /\ s = d \/ Compression e = 8 /\ zlib_decode s (zlen d) = Some d) /\ s <> [].
Definition member_ok (m : mem) (flen start : Z) (a : member) : Prop :=
  fits fe_widths (fe_fields a.1) /\ zlen (tail a.1) = FileNameLength a.1 + ExtraFieldLength a.1 + FileCommentLength a.1 /\
  0 <= lo a /\ 0 <= extent a /\ lo a + extent a <= start /\
  match a.2 with
  | Hole => Signature a.1 = 0
  | Empty => Signature a.1 = fe_magic /\ Size a.1 = 0 /\ SizeOriginal a.1 = 0
  | Stored d => Signature a.1 = fe_magic /\ stored_at m flen a.1 d
  end.
Record inv (z : zip) (L : list member) : Prop := {
  z_entries : m_FileEntries z = map fst L;
  z_count : zlen L <= 0xffff;
  z_start : 0 <= m_CentralDirectoryStart z < 2 ^ 31;
  z_members : Forall (member_ok (bytes (_pZipFile z)) (len (_pZipFile z)) (m_CentralDirectoryStart z)) L;
  z_apart : all_apart L;
  z_mode : m_CompressionMode z = 0 \/ m_CompressionMode z = 8;
  z_idle : adding z = None;
  z_comment : m_ZipComment z = [] }.

(** ** The file below *)

Lemma put_at_spec z p l : 0 <= p < 0x7fffffff -> exists f ok, put_at z p l = Some (set_file z f, ok) /\
  (forall a, a < p \/ p + zlen l <= a -> bytes f a = bytes (_pZipFile z) a) /\ len (_pZipFile z) <= len f <= Z.max (len (_pZipFile z)) (p + zlen l) /\ room f = room (_pZipFile z) /\
  (ok = true -> holds (bytes f) p l /\ (l <> [] -> p + zlen l <= len f)) /\ (p + zlen l <= room f -> ok = true).
Proof.
  intros Hp. unfold put_at. rewrite disk_seek_begin by done. cbn [mbind option_bind]. rewrite Z.eqb_refl. cbn [Write File_on_disk]. unfold disk_Write. cbn [bytes len pos room _bErrorFlag].
  set (w := Z.max 0 (Z.min (zlen l) (room (_pZipFile z) - p))). eexists _, _. split; [reflexivity|]. cbn [bytes len pos room]. split; [|split; [|split; [|split]]].
  - intros a Ha. apply mstore_out. rewrite length_take. lia.
  - destruct (Z.eqb_spec w 0); lia.
  - done.
  - intros E. apply Z.eqb_eq in E. rewrite E, Nat2Z.id, firstn_all. split; [apply holds_mstore|]. intros Hl.
    assert (0 < zlen l) by (destruct l; [done|cbn [length]; lia]). rewrite (proj2 (Z.eqb_neq _ 0)) by lia. lia.
  - intros H. apply Z.eqb_eq. lia.
Qed.
Lemma get_at_spec z p l : 0 <= p < 0x7fffffff -> holds (bytes (_pZipFile z)) p l -> p + zlen l <= len (_pZipFile z) ->
  exists f, get_at z p (zlen l) = Some (set_file z f, Some l) /\ bytes f = bytes (_pZipFile z) /\ len f = len (_pZipFile z) /\ room f = room (_pZipFile z).
Proof.
  intros Hp H Hl. unfold get_at. rewrite disk_seek_begin by done. cbn [mbind option_bind]. rewrite Z.eqb_refl. rewrite disk_read_all by (cbn [pos len]; lia). cbn [bytes len pos room _bErrorFlag].
  rewrite Nat2Z.id. unfold holds in H. rewrite H, Z.eqb_refl. by eexists.
Qed.

(** A member stays in place under writes elsewhere. *)
Lemma member_frame m m' flen flen' start start' a : member_ok m flen start a -> flen <= flen' -> start <= start' ->
  (a.2 <> Hole -> forall x, lo a <= x < lo a + extent a -> m' x = m x) -> member_ok m' flen' start' a.
Proof.
  intros (H1 & H2 & H3 & H4 & H5 & H6) Hf Hs Hm. split; [done|]. split; [done|]. split; [done|]. split; [done|]. split; [lia|].
  destruct a as [e [| |d]]; cbn [fst snd] in *; try done. destruct H6 as [H6 (name & s & S1 & S2 & S3 & S4 & S5)]. split; [done|].
  exists name, s. split; [|split; [done|split; [done|split; [lia|done]]]]. apply (holds_out m); [done|]. intros x Hx. apply Hm; [done|]. unfold lo, extent. cbn [fst snd].
  rewrite !length_app in Hx. change (length (lfh_bytes (lfh_for e))) with 30%nat in Hx. lia.
Qed.
(** [n] bytes at [o] that no member uses, or that hold nothing. *)
Definition free (L : list member) (o n : Z) : Prop := Forall (fun a => extent a = 0 \/ lo a + extent a <= o \/ o + n <= lo a) L.
Definition clear (L : list member) (o n : Z) : Prop := Forall (fun a => a.2 = Hole \/ extent a = 0 \/ lo a + extent a <= o \/ o + n <= lo a) L.
Lemma inv_file z L f o n : inv z L -> clear L o n -> len (_pZipFile z) <= len f ->
  (forall x, x < o \/ o + n <= x -> bytes f x = bytes (_pZipFile z) x) -> inv (set_file z f) L.
Proof.
  intros [H1 Hz H2 H3 H4 H5 H6] Hc Hl Hb. split; try done. unfold clear in Hc. rewrite Forall_forall in H3, Hc |- *. intros a Ha.
  eapply member_frame; [by apply H3|done|done|]. intros Hh x Hx. apply Hb. destruct (Hc a Ha) as [E|[E|E]]; [done|lia|lia].
Qed.

(** ** Room for a file *)

Lemma find_hole_spec n es : forall i, match find_hole i es n with
  | Some k => (i <= k)%nat /\ exists e, es !! (k - i)%nat = Some e /\ Signature e = 0 /\ n <= Size e
  | None => True
  end.
Proof.
  induction es as [|e es IH]; intros i; cbn [find_hole]; [done|]. destruct ((Signature e =? 0) && (n <=? Size e)) eqn:E.
  - apply andb_true_iff in E as [E1 E2]. split; [lia|]. rewrite Nat.sub_diag. exists e. split; [done|]. lia.
  - specialize (IH (S i)). destruct (find_hole (S i) es n) as [k|]; [|done]. destruct IH as (H1 & e' & H2 & H3). split; [lia|].
    exists e'. replace (k - i)%nat with (S (k - S i)) by lia. done.
Qed.

Lemma fe_ranges e : fits fe_widths (fe_fields e) ->
  0 <= Size e < 2 ^ 32 /\ 0 <= OffsetToLocalFileHeader e < 2 ^ 32 /\ 0 <= FileNameLength e < 2 ^ 16.
Proof. intros H. unfold fits, fe_widths, fe_fields in H. repeat (apply Forall2_cons in H as [? H]). split; [|split]; assumption. Qed.
Lemma resized_fits e n : fits fe_widths (fe_fields e) -> fits fe_widths (fe_fields (resized e n)).
Proof.
  intros H. unfold fits, fe_widths, fe_fields, resized in *. repeat (apply Forall2_cons in H as [? H]). cbn. repeat (apply Forall2_cons_2; [first [assumption|apply u32_range]|]). constructor.
Qed.
Lemma resized_back e n : fits fe_widths (fe_fields e) -> resized (resized e n) (- n) = e.
Proof.
  intros H. destruct (fe_ranges e H) as (R1 & R2 & _). destruct e. unfold resized. cbn in *. f_equal; unfold u32, wrap.
  - rewrite Zminus_mod_idemp_l. rewrite Z.mod_small; lia.
  - rewrite Zplus_mod_idemp_l. rewrite Z.mod_small; lia.
Qed.

(** [n] bytes at [o] are taken: from a hole, or by moving the directory. *)
Record reserved (z : zip) (L : list member) (z1 : zip) (L1 : list member) (hole : option nat) (o n : Z) : Prop := {
  r_inv : inv z1 L1;
  r_file : _pZipFile z1 = _pZipFile z;
  r_mode : m_CompressionMode z1 = m_CompressionMode z;
  r_comment : m_ZipComment z1 = m_ZipComment z;
  r_free : free L1 o n;
  r_clear : clear L o n;
  r_range : 0 <= o <= m_CentralDirectoryStart z /\ o + n <= m_CentralDirectoryStart z1 <= m_CentralDirectoryStart z + n /\
    m_CentralDirectoryStart z <= m_CentralDirectoryStart z1;
  r_names : map FileName (m_FileEntries z1) = map FileName (m_FileEntries z);
  r_items : map snd L1 = map snd L;
  r_dir : dir_bytes (m_FileEntries z1) = dir_bytes (m_FileEntries z);
  r_back f : give_back (set_file z1 f) hole n (m_CentralDirectoryStart z) = set_file z f }.

Lemma hole_member z L i e : inv z L -> m_FileEntries z !! i = Some e -> Signature e = 0 -> L !! i = Some ((e, Hole) : member).
Proof.
  intros [H1 _ _ H3 _ _ _] Hi Hs. rewrite H1 in Hi. apply list_lookup_fmap_Some in Hi as ([e' it] & -> & E). cbn [fst] in *.
  rewrite Forall_lookup in H3. destruct (H3 i _ E) as (_ & _ & _ & _ & _ & H6). destruct it; cbn [fst snd] in H6; [done|destruct H6 as [H6 _]; rewrite H6 in Hs; done..].
Qed.
Lemma reserve_hole z L i e n : inv z L -> m_FileEntries z !! i = Some e -> Signature e = 0 -> 0 < n <= Size e ->
  reserved z L (set_entries z (<[i:=resized e n]> (m_FileEntries z))) (<[i:=(resized e n, Hole)]> L) (Some i) (OffsetToLocalFileHeader e) n.
Proof.
  intros HI Hi Hs Hn. assert (HL := hole_member z L i e HI Hi Hs). assert (HI2 := HI). destruct HI2 as [H1 Hz H2 H3 H4 H5 H6].
  assert (Ok := Forall_lookup_1 _ _ _ _ H3 HL). destruct Ok as (F1 & F2 & F3 & F4 & F5 & _). cbn [fst snd] in *. unfold lo, extent in F3, F4, F5. cbn [fst snd] in F3, F4, F5.
  destruct (fe_ranges e F1) as (R1 & R2 & R3).
  assert (away : forall j b, L !! j = Some b -> i <> j ->
    Size e = 0 \/ extent b = 0 \/ OffsetToLocalFileHeader e + Size e <= lo b \/ lo b + extent b <= OffsetToLocalFileHeader e).
  { intros j b Hj Hne. exact (all_apart_lookup L i j (e, Hole) b H4 HL Hj Hne). }
  assert (Eo : OffsetToLocalFileHeader (resized e n) = OffsetToLocalFileHeader e + n) by (cbn; apply u32_id; lia).
  assert (Es : Size (resized e n) = Size e - n) by (cbn; apply u32_id; lia).
  split; try done.
  - split; try done.
    + cbn [m_FileEntries set_entries]. rewrite H1. by rewrite list_fmap_insert.
    + by rewrite length_insert.
    + apply Forall_insert; [done|]. split; [by apply resized_fits|]. split; [done|]. unfold lo, extent. cbn [fst snd]. rewrite Eo, Es. cbn [m_CentralDirectoryStart set_entries]. repeat split; try lia; done.
    + apply (all_apart_insert L i (e, Hole)); [done|done|]. intros b. unfold apart, lo, extent. cbn [fst snd]. rewrite Eo, Es. lia.
  - unfold free. apply Forall_lookup. intros j b Hj. apply list_lookup_insert_Some in Hj as [(<- & <- & _)|[Hne Hj]].
    + unfold lo, extent. cbn [fst snd]. rewrite Eo, Es. lia.
    + assert (A := away j b Hj Hne). lia.
  - unfold clear. apply Forall_lookup. intros j b Hj. destruct (decide (i = j)) as [->|Hne]; [left; assert (X : Some b = Some ((e, Hole) : member)) by (rewrite <- Hj; exact HL); by injection X as ->|right].
    assert (A := away j b Hj Hne). lia.
  - cbn [m_CentralDirectoryStart set_entries]. lia.
  - cbn [m_FileEntries set_entries]. rewrite list_fmap_insert. apply list_insert_id. rewrite list_lookup_fmap, Hi. done.
  - rewrite list_fmap_insert. apply list_insert_id. apply list_lookup_fmap_Some. by exists (e, Hole).
  - cbn [m_FileEntries set_entries]. apply (dir_bytes_insert _ i e); [done| |]; unfold live; cbn; by rewrite Hs.
  - intros f. unfold give_back. cbn [m_FileEntries set_entries set_file]. rewrite list_lookup_insert_eq by (by eapply lookup_lt_Some).
    rewrite resized_back by done. unfold set_entries, set_file. cbn. f_equal. rewrite list_insert_insert_eq. by apply list_insert_id.
Qed.
Lemma reserve_end z L n : inv z L -> 0 < n -> m_CentralDirectoryStart z + n < 2 ^ 31 ->
  reserved z L (set_start z (m_CentralDirectoryStart z + n)) L None (m_CentralDirectoryStart z) n.
Proof.
  intros [H1 Hz H2 H3 H4 H5 H6] Hn Hs. split; try done.
  - split; try done; [cbn; lia|]. eapply Forall_impl; [exact H3|]. intros a Ha. eapply member_frame; [exact Ha|done|cbn; lia|done].
  - unfold free. eapply Forall_impl; [exact H3|]. intros a (_ & _ & _ & _ & A & _). lia.
  - unfold clear. eapply Forall_impl; [exact H3|]. intros a (_ & _ & _ & _ & A & _). lia.
  - cbn. lia.
Qed.

(** ** Adding *)

Lemma slashes_length name : length (slashes name) = length name.
Proof. apply length_map. Qed.
Lemma new_entry_fits name size ftime attrib o : zlen name < 2 ^ 16 -> 0 <= size < 2 ^ 32 -> 0 <= attrib < 2 ^ 32 -> 0 <= o < 2 ^ 32 ->
  fits fe_widths (fe_fields (new_entry dos name size ftime attrib o)).
Proof.
  intros Hn Hs Ha Ho. destruct (dos_range ftime) as [D1 D2]. assert (U := Z.mod_pos_bound (zlen name) (2 ^ 16) ltac:(lia)).
  unfold fits, fe_widths, fe_fields, new_entry. cbn. repeat (apply Forall2_cons_2; [unfold fe_magic, u16, wrap; lia|]). constructor.
Qed.
(** The entry of the file as it is recorded. *)
Definition recorded (name stored data : list Z) (ftime mode o : Z) : FileEntry :=
  with_data (new_entry dos (slashes name) (zlen stored) ftime FILE_ATTRIBUTE_ARCHIVE o) (crc data) (zlen stored) (zlen data)
    (if zlen stored =? zlen data then 0 else mode).
Definition to_store (mode : Z) (data : list Z) : list Z :=
  if mode =? 0 then data else match zlib_encode data with Some d => if zlen d <? zlen data then d else data | None => data end.

Lemma to_store_spec mode data : mode = 0 \/ mode = 8 -> zlen (to_store mode data) <= zlen data /\
  (zlen (to_store mode data) = zlen data /\ to_store mode data = data \/
   zlen (to_store mode data) <> zlen data /\ mode = 8 /\ to_store mode data <> [] /\ zlib_decode (to_store mode data) (zlen data) = Some data).
Proof.
  intros Hm. unfold to_store. destruct (Z.eqb_spec mode 0) as [E|E]; [split; [lia|by left]|].
  destruct (zlib_encode data) as [d|] eqn:Ed; [|split; [lia|by left]]. destruct (Z.ltb_spec (zlen d) (zlen data)) as [L|L]; [|split; [lia|by left]].
  split; [lia|]. right. split; [lia|]. split; [lia|]. by apply zlib_law.
Qed.
Lemma recorded_ok m flen start name data ftime mode o : mode = 0 \/ mode = 8 ->
  zlen name <= 0xffff -> 0 < zlen data < 2 ^ 31 -> 0 <= o ->
  let s := to_store mode data in let e := recorded name s data ftime mode o in
  o + 30 + zlen name + zlen s <= start < 2 ^ 31 -> o + 30 + zlen name + zlen s <= flen ->
  holds m o (lfh_bytes (lfh_for e) ++ name ++ s) -> member_ok m flen start (e, Stored data).
Proof.
  intros Hm Hn Hd Ho s e Hs Hf H. destruct (to_store_spec mode data Hm) as [T1 T2]. fold s in T1, T2.
  assert (F : fits fe_widths (fe_fields (new_entry dos (slashes name) (zlen s) ftime FILE_ATTRIBUTE_ARCHIVE o))).
  { apply new_entry_fits; rewrite ?slashes_length; unfold FILE_ATTRIBUTE_ARCHIVE; lia. }
  assert (En : FileNameLength e = zlen name) by (cbn; rewrite slashes_length; unfold u16; rewrite wrap_id; [done|unfold in_width; lia]).
  assert (Ec : Compression e = u16 (if zlen s =? zlen data then 0 else mode)) by done.
  assert (Cr := crc_range data). split; [|split; [|split; [|split; [|split]]]].
  - unfold fits, fe_widths, fe_fields in *. cbn in F |- *. repeat (apply Forall2_cons in F as [? F]).
    repeat (apply Forall2_cons_2; [first [assumption|lia|apply (wrap_range 16); lia]|]). constructor.
  - cbn [fst tail recorded with_data new_entry ExtraFieldLength FileCommentLength]. fold (FileNameLength e). cbn. rewrite !slashes_length. unfold u16. rewrite wrap_id; unfold in_width; lia.
  - done.
  - unfold extent. cbn [fst snd]. rewrite En. cbn. lia.
  - unfold lo, extent. cbn [fst snd]. rewrite En. cbn. lia.
  - split; [done|]. exists name, s. cbn [fst]. split; [exact H|]. split; [done|]. split; [done|]. split; [rewrite En; cbn; lia|]. split; [done|]. split; [done|].
    split; [|destruct T2 as [[_ ->]|(_ & _ & T2 & _)]; [intros ->; cbn in Hd; lia|done]].
    destruct T2 as [[T2 T3]|(T2 & -> & _ & T3)].
    + left. split; [|done]. rewrite Ec. by rewrite T2, Z.eqb_refl.
    + right. split; [|done]. rewrite Ec. by rewrite (proj2 (Z.eqb_neq _ _) T2).
Qed.

(** The entry is given up: nothing is left of it but bytes in free space. *)
Lemma taken_back z L z1 L1 hole o n a f : reserved z L z1 L1 hole o n -> adding z1 = None ->
  _HoleFromEntry a = hole -> _HoleTakenSize a = n -> _CentralDirectoryStart_Old a = m_CentralDirectoryStart z ->
  _AddNonZeroFileEntry_End (set_file (set_adding z1 (Some a)) f) false = Some (set_file z f, true).
Proof.
  intros R Hz1 <- <- Eo. unfold _AddNonZeroFileEntry_End. cbn [adding set_file set_adding mbind option_bind]. do 2 f_equal. rewrite Eo. rewrite <- (r_back _ _ _ _ _ _ _ R f).
  f_equal. unfold set_file, set_adding. cbn. by rewrite Hz1.
Qed.
Lemma inv_gave_up z L z1 L1 hole o n f : inv z L -> reserved z L z1 L1 hole o n -> len (_pZipFile z) <= len f ->
  (forall x, x < o \/ o + n <= x -> bytes f x = bytes (_pZipFile z) x) -> inv (set_file z f) L.
Proof. intros HI R. apply inv_file; [done|apply (r_clear _ _ _ _ _ _ _ R)]. Qed.

Lemma begin_spec z L name size ftime : inv z L -> 0 < size -> m_CentralDirectoryStart z + 30 + zlen name + size < 2 ^ 31 ->
  zlen name <= 0xffff -> zlen (m_FileEntries z) < 0xffff ->
  exists z1 L1 hole o f ok, let n := 30 + zlen name + size in
    let a := mkPending (new_entry dos (slashes name) size ftime FILE_ATTRIBUTE_ARCHIVE o) hole n (m_CentralDirectoryStart z) size in
    reserved z L z1 L1 hole o n /\
    _AddNonZeroFileEntry_Begin dos z name size ftime = Some (if ok : bool then set_file (set_adding z1 (Some a)) f else set_file z f, ok) /\
    (forall x, x < o + 30 \/ o + 30 + zlen name <= x -> bytes f x = bytes (_pZipFile z) x) /\ len (_pZipFile z) <= len f <= Z.max (len (_pZipFile z)) (o + 30 + zlen name) /\ room f = room (_pZipFile z) /\
    (ok = true -> holds (bytes f) (o + 30) name) /\ (o + 30 + zlen name <= room f -> ok = true).
Proof.
  intros HI Hs Hb Hn Hc. set (n := 30 + zlen name + size). assert (St := z_start _ _ HI).
  assert (Save : forall z1 L1 hole o, reserved z L z1 L1 hole o n ->
    let a := mkPending (new_entry dos (slashes name) size ftime FILE_ATTRIBUTE_ARCHIVE o) hole n (m_CentralDirectoryStart z) size in
    exists f ok, (let z := set_adding z1 (Some a) in '(z, ok) ← put_at z (u32 (o + 30)) name;
        if ok : bool then Some (z, true) else r ← _AddNonZeroFileEntry_End z false; Some ((r : zip * bool).1, false)) =
      Some (if ok : bool then set_file (set_adding z1 (Some a)) f else set_file z f, ok) /\
      (forall x, x < o + 30 \/ o + 30 + zlen name <= x -> bytes f x = bytes (_pZipFile z) x) /\ len (_pZipFile z) <= len f <= Z.max (len (_pZipFile z)) (o + 30 + zlen name) /\ room f = room (_pZipFile z) /\
      (ok = true -> holds (bytes f) (o + 30) name) /\ (o + 30 + zlen name <= room f -> ok = true)).
  { intros z1 L1 hole o R a. assert (Rg := r_range _ _ _ _ _ _ _ R). assert (S1 := z_start _ _ (r_inv _ _ _ _ _ _ _ R)). rewrite (u32_id (o + 30)) by (unfold n in *; lia).
    destruct (put_at_spec (set_adding z1 (Some a)) (o + 30) name ltac:(lia)) as (f & ok & Ep & P1 & P2 & P3 & P4 & P5). cbn zeta. rewrite Ep. cbn [mbind option_bind].
    cbn [_pZipFile set_adding] in *. rewrite (r_file _ _ _ _ _ _ _ R) in P1, P2, P3. exists f, ok. split; [|split; [done|split; [done|split; [done|split; [intros E; by apply P4|done]]]]].
    destruct ok; [done|]. rewrite (taken_back z L z1 L1 hole o n a f R (z_idle _ _ (r_inv _ _ _ _ _ _ _ R))) by done. done. }
  unfold _AddNonZeroFileEntry_Begin. rewrite (proj2 (Z.ltb_ge 0xffff _)), (proj2 (Z.leb_gt 0xffff _)) by lia. rewrite (u32_id (30 + zlen name + size)) by lia. fold n.
  assert (Hh := find_hole_spec n (m_FileEntries z) 0). destruct (find_hole 0 (m_FileEntries z) n) as [k|].
  - destruct Hh as (_ & e & He & Se & Le). rewrite Nat.sub_0_r in He. rewrite He. cbn [mbind option_bind].
    assert (R := reserve_hole z L k e n HI He Se ltac:(unfold n; lia)). destruct (Save _ _ _ _ R) as (f & ok & E & P). eexists _, _, _, _, f, ok. split; [exact R|]. split; [exact E|exact P].
  - rewrite (u32_id (m_CentralDirectoryStart z + n)) by (unfold n; lia). rewrite (proj2 (Z.ltb_ge _ _)) by (unfold n; lia).
    assert (R := reserve_end z L n HI ltac:(unfold n; lia) ltac:(unfold n; lia)). destruct (Save _ _ _ _ R) as (f & ok & E & P). eexists _, _, _, _, f, ok. split; [exact R|]. split; [exact E|exact P].
Qed.

(** A file in the room reserved for it. *)
Lemma inv_add z L z1 L1 hole o name data ftime f : inv z L -> zlen L < 0xffff -> zlen name <= 0xffff -> 0 < zlen data < 2 ^ 31 ->
  let s := to_store (m_CompressionMode z) data in let e := recorded name s data ftime (m_CompressionMode z) o in
  reserved z L z1 L1 hole o (30 + zlen name + zlen s) ->
  m_CompressionMode z1 = m_CompressionMode z ->
  (forall x, x < o \/ o + 30 + zlen name + zlen s <= x -> bytes f x = bytes (_pZipFile z) x) -> len (_pZipFile z) <= len f ->
  o + 30 + zlen name + zlen s <= len f -> holds (bytes f) o (lfh_bytes (lfh_for e) ++ name ++ s) ->
  inv (mkZip f (m_FileEntries z1 ++ [e]) (m_CentralDirectoryStart z1) true false [] (m_CompressionMode z1) None) (L1 ++ [(e, Stored data)]).
Proof.
  intros HI HL Hn Hd s e R Em Hf Hl Hl2 H. assert (I1 := r_inv _ _ _ _ _ _ _ R). assert (Rg := r_range _ _ _ _ _ _ _ R).
  assert (I2 : inv (set_file z1 f) L1).
  { apply (inv_file z1 L1 f o (30 + zlen name + zlen s)); [done| |by rewrite (r_file _ _ _ _ _ _ _ R)|].
    - assert (Fr := r_free _ _ _ _ _ _ _ R). unfold free, clear in *. eapply Forall_impl; [exact Fr|]. cbn beta. tauto.
    - intros x Hx. rewrite (r_file _ _ _ _ _ _ _ R). apply Hf. lia. }
  destruct I2 as [H1 Hz H2 H3 H4 H5 H6]. cbn [m_FileEntries _pZipFile m_CentralDirectoryStart m_CompressionMode adding set_file] in *.
  destruct (to_store_spec (m_CompressionMode z) data (z_mode _ _ HI)) as [T1 _]. fold s in T1.
  split; cbn [m_FileEntries _pZipFile m_CentralDirectoryStart m_CompressionMode adding]; try done.
  - by rewrite map_app, H1.
  - assert (El := f_equal length (r_items _ _ _ _ _ _ _ R)). rewrite !length_map in El. change (length (L1 : list member) = length (L : list member)) in El.
    change (zlen (L1 ++ [(e, Stored data) : member]) <= 0xffff). rewrite length_app, El. cbn [length]. lia.
  - apply Forall_app. split; [done|]. apply Forall_singleton. apply recorded_ok; try done; try lia; fold s; lia.
  - apply all_apart_app. split; [done|]. assert (Fr := r_free _ _ _ _ _ _ _ R). unfold free in Fr. eapply Forall_impl; [exact Fr|]. cbn beta. intros a Ha.
    assert (En : FileNameLength e = zlen name) by (cbn; rewrite slashes_length; unfold u16; rewrite wrap_id; [done|unfold in_width; lia]).
    unfold apart, lo at 2 3, extent at 2 4. cbn [fst snd]. rewrite En. change (Size e) with (zlen s). change (OffsetToLocalFileHeader e) with o. lia.
Qed.

(** The local header is written and the entry recorded, or all is given up. *)
Lemma commit_spec z L z1 L1 hole o n a f : 0 < n -> reserved z L z1 L1 hole o n -> _HoleFromEntry a = hole -> _HoleTakenSize a = n ->
  _CentralDirectoryStart_Old a = m_CentralDirectoryStart z -> OffsetToLocalFileHeader (_AddingNonZeroFileEntry a) = o ->
  _ClaimedSize a = Size (_AddingNonZeroFileEntry a) ->
  exists f' ok, _AddNonZeroFileEntry_End (set_file (set_adding z1 (Some a)) f) true =
      Some (if ok : bool then mkZip f' (m_FileEntries z1 ++ [_AddingNonZeroFileEntry a]) (m_CentralDirectoryStart z1) true false (m_ZipComment z1) (m_CompressionMode z1) None
            else set_file z f', ok) /\
    (forall x, x < o \/ o + 30 <= x -> bytes f' x = bytes f x) /\ len f <= len f' <= Z.max (len f) (o + 30) /\ room f' = room f /\
    (ok = true -> holds (bytes f') o (lfh_bytes (lfh_for (_AddingNonZeroFileEntry a)))) /\ (o + 30 <= room f -> ok = true).
Proof.
  intros Hn R Eh En Es Eo Ec. assert (Rg := r_range _ _ _ _ _ _ _ R). assert (S1 := z_start _ _ (r_inv _ _ _ _ _ _ _ R)). unfold _AddNonZeroFileEntry_End. cbn [adding set_file set_adding mbind option_bind]. rewrite Eo.
  destruct (put_at_spec (set_file (set_adding z1 (Some a)) f) o (lfh_bytes (lfh_for (_AddingNonZeroFileEntry a))) ltac:(lia)) as (f' & ok & Ep & P1 & P2 & P3 & P4 & P5).
  fold (set_adding z1 (Some a)). fold (set_file (set_adding z1 (Some a)) f). rewrite Ep. cbn [mbind option_bind _pZipFile set_file] in *. change (zlen (lfh_bytes (lfh_for (_AddingNonZeroFileEntry a)))) with 30 in *.
  exists f', ok. split; [|split; [done|split; [done|split; [done|split; [intros E; by apply P4|rewrite <- P3; done]]]]]. destruct ok.
  - rewrite Ec, Z.sub_diag. done.
  - do 2 f_equal. rewrite Eh, En, Es, <- (r_back _ _ _ _ _ _ _ R f'). f_equal. unfold set_file, set_adding. cbn. by rewrite (z_idle _ _ (r_inv _ _ _ _ _ _ _ R)).
Qed.

(** The archive with one more file. *)
Record added (z z' : zip) (L : list member) (name data : list Z) : Prop := {
  ad_inv : exists L1 e, inv z' (L1 ++ [(e, Stored data)]) /\ map snd L1 = map snd L;
  ad_names : map FileName (m_FileEntries z') = map FileName (m_FileEntries z) ++ [slashes name];
  ad_mode : m_CompressionMode z' = m_CompressionMode z;
  ad_room : room (_pZipFile z') = room (_pZipFile z);
  ad_len : len (_pZipFile z') <= Z.max (len (_pZipFile z)) (m_CentralDirectoryStart z');
  ad_start : m_CentralDirectoryStart z <= m_CentralDirectoryStart z' <= m_CentralDirectoryStart z + 30 + zlen name + zlen data;
  ad_dir : zlen (dir_bytes (m_FileEntries z')) = zlen (dir_bytes (m_FileEntries z)) + 46 + zlen name;
  ad_modified : m_CentralDirectoryModified z' = true }.

(** The data of a file in the room reserved for it, the name being there. *)
Lemma add_data_spec z L z1 L1 hole o f name data ftime : inv z L -> zlen L < 0xffff -> zlen name <= 0xffff -> 0 < zlen data < 2 ^ 31 ->
  let s := to_store (m_CompressionMode z) data in let n := 30 + zlen name + zlen s in
  let a := mkPending (new_entry dos (slashes name) (zlen s) ftime FILE_ATTRIBUTE_ARCHIVE o) hole n (m_CentralDirectoryStart z) (zlen s) in
  0 < zlen s -> reserved z L z1 L1 hole o n ->
  (forall x, x < o + 30 \/ o + 30 + zlen name <= x -> bytes f x = bytes (_pZipFile z) x) -> len (_pZipFile z) <= len f <= Z.max (len (_pZipFile z)) (o + 30 + zlen name) -> room f = room (_pZipFile z) ->
  holds (bytes f) (o + 30) name ->
  exists z' ok, add_data crc (set_file (set_adding z1 (Some a)) f) data s = Some (z', ok) /\
    (ok = false -> inv z' L /\ exists f, z' = set_file z f) /\
    (ok = true -> added z z' L name data) /\
    (o + n <= room (_pZipFile z) -> ok = true).
Proof.
  intros HI HL Ln Hd s n a Hs R B1 B2 B3 B4. unfold n in *. assert (Rg := r_range _ _ _ _ _ _ _ R). assert (S1 := z_start _ _ (r_inv _ _ _ _ _ _ _ R)).
  unfold add_data.
  cbn [adding set_file set_adding mbind option_bind]. change (_AddingNonZeroFileEntry a) with (new_entry dos (slashes name) (zlen s) ftime FILE_ATTRIBUTE_ARCHIVE o).
  assert (Ed : GetOffsetToLocalData (new_entry dos (slashes name) (zlen s) ftime FILE_ATTRIBUTE_ARCHIVE o) = o + 30 + zlen name).
  { unfold GetOffsetToLocalData. cbn [OffsetToLocalFileHeader FileNameLength new_entry]. rewrite slashes_length. unfold u16. rewrite wrap_id by (unfold in_width; lia). apply u32_id. lia. }
  rewrite Ed. fold (set_adding z1 (Some a)). fold (set_file (set_adding z1 (Some a)) f).
  destruct (put_at_spec (set_file (set_adding z1 (Some a)) f) (o + 30 + zlen name) s ltac:(lia)) as (f2 & ok2 & Ep & P1 & P2 & P3 & P4 & P5). rewrite Ep. cbn [mbind option_bind].
  cbn [_pZipFile set_file] in P1, P2, P3. change (set_file (set_file (set_adding z1 (Some a)) f) f2) with (set_file (set_adding z1 (Some a)) f2). destruct ok2.
  2: { rewrite (taken_back z L z1 L1 hole o _ a f2 R (z_idle _ _ (r_inv _ _ _ _ _ _ _ R))) by done. exists (set_file z f2), false. split; [done|]. split; [|split; [done|]].
       - intros _. split; [|by exists f2]. apply (inv_gave_up z L z1 L1 hole o _ f2 HI R); [lia|]. intros x Hx. rewrite P1 by lia. apply B1. lia.
       - intros Hr. exfalso. assert (false = true); [|done]. apply P5. rewrite P3, B3. lia. }
  assert (Em := r_mode _ _ _ _ _ _ _ R).
  set (e := recorded name s data ftime (m_CompressionMode z) o).
  set (a' := mkPending e hole (30 + zlen name + zlen s) (m_CentralDirectoryStart z) (zlen s)).
  assert (Eu : update_adding (set_file (set_adding z1 (Some a)) f2) (fun e => with_data e (crc data) (zlen s) (zlen data)
      (if zlen s =? zlen data then 0 else m_CompressionMode (set_file (set_adding z1 (Some a)) f2))) = set_file (set_adding z1 (Some a')) f2).
  { unfold update_adding. cbn [adding set_file set_adding m_CompressionMode]. rewrite Em. done. }
  rewrite Eu. destruct (commit_spec z L z1 L1 hole o (30 + zlen name + zlen s) a' f2 ltac:(lia) R) as (f3 & ok3 & -> & C1 & C2 & C3 & C4 & C5); try done.
  assert (Out : forall x, x < o \/ o + (30 + zlen name + zlen s) <= x -> bytes f3 x = bytes (_pZipFile z) x).
  { intros x Hx. rewrite C1, P1 by lia. apply B1. lia. }
  eexists _, ok3. split; [reflexivity|]. destruct ok3; (split; [|split]); try done.
  - intros _. destruct (to_store_spec (m_CompressionMode z) data (z_mode _ _ HI)) as [T1 _]. fold s in T1. destruct (P4 eq_refl) as [P6 P7].
    specialize (P7 ltac:(intros E; rewrite E in Hs; done)). assert (En : FileNameLength e = zlen name) by (cbn; rewrite slashes_length; unfold u16; rewrite wrap_id; [done|unfold in_width; lia]).
    assert (Ef : zlen (fe_bytes e) = 46 + zlen name) by (unfold fe_bytes; rewrite length_app, length_put by done; cbn; rewrite slashes_length; lia).
    split; cbn [m_FileEntries m_CompressionMode _pZipFile m_CentralDirectoryStart m_CentralDirectoryModified]; try done; try lia.
    + exists L1, e. split; [|apply (r_items _ _ _ _ _ _ _ R)].
      rewrite (z_comment _ _ (r_inv _ _ _ _ _ _ _ R)). apply (inv_add z L z1 L1 hole o name data ftime f3); try done; [intros x Hx; fold s in Hx; apply Out; lia|lia|fold s; lia|]. fold s. fold e.
      apply holds_join; [by apply C4|]. change (Z.of_nat (length (lfh_bytes (lfh_for e)))) with 30. apply holds_join.
      * apply (holds_out (bytes f)); [exact B4|]. intros x Hx. rewrite C1, P1 by lia. done.
      * apply (holds_out (bytes f2)); [done|]. intros x Hx. apply C1. lia.
    + rewrite map_app, (r_names _ _ _ _ _ _ _ R). do 2 f_equal. cbn [map _AddingNonZeroFileEntry a']. unfold FileName. rewrite En, Nat2Z.id.
      change (tail e) with (slashes name). rewrite <- (slashes_length name). by rewrite firstn_all.
    + rewrite dir_bytes_app, (r_dir _ _ _ _ _ _ _ R), length_app. change (live (_AddingNonZeroFileEntry a')) with true. cbn [_AddingNonZeroFileEntry a']. lia.
  - intros _. split; [|by exists f3]. apply (inv_gave_up z L z1 L1 hole o _ f3 HI R); [lia|done].
  - intros Hr. exfalso. assert (false = true); [|done]. apply C5. rewrite P3, B3. lia.
Qed.
Lemma AddFile_spec z L name data ftime : inv z L -> 0 < zlen data < 2 ^ 31 -> m_CentralDirectoryStart z + 30 + zlen name + zlen data < 2 ^ 31 ->
  exists z' ok, AddFile crc zlib_encode dos z name data ftime = Some (z', ok) /\
    (ok = false -> inv z' L /\ exists f, z' = set_file z f) /\
    (ok = true -> added z z' L name data) /\
    (zlen name <= 0xffff -> zlen (m_FileEntries z) < 0xffff -> m_CentralDirectoryStart z + 30 + zlen name + zlen data <= room (_pZipFile z) -> ok = true).
Proof.
  intros HI Hd Hb. unfold AddFile. rewrite (proj2 (Z.eqb_neq _ 0)) by lia. fold (to_store (m_CompressionMode z) data). set (s := to_store (m_CompressionMode z) data).
  destruct (to_store_spec (m_CompressionMode z) data (z_mode _ _ HI)) as [T1 T2]. fold s in T1, T2.
  assert (Hs : 0 < zlen s). { destruct T2 as [[T2 _]|(T2 & _ & T3 & _)]; [lia|]. destruct s; [done|cbn [length]; lia]. }
  assert (Fz : exists f, z = set_file z f) by (exists (_pZipFile z); by destruct z).
  destruct (Z.lt_ge_cases 0xffff (zlen name)) as [Ln|Ln].
  { unfold _AddNonZeroFileEntry_Begin. rewrite (proj2 (Z.ltb_lt 0xffff _)) by lia. exists z, false. split; [done|]. split; [done|]. split; [done|lia]. }
  destruct (Z.le_gt_cases 0xffff (zlen (m_FileEntries z))) as [Lc|Lc].
  { unfold _AddNonZeroFileEntry_Begin. rewrite (proj2 (Z.ltb_ge 0xffff _)), (proj2 (Z.leb_le 0xffff _)) by lia. exists z, false. split; [done|]. split; [done|]. split; [done|lia]. }
  destruct (begin_spec z L name (zlen s) ftime HI Hs ltac:(lia) Ln Lc) as (z1 & L1 & hole & o & f & ok & B). cbn zeta in B. set (a := mkPending _ _ _ _ _) in B.
  destruct B as (R & -> & B1 & B2 & B3 & B4 & B5). assert (Rg := r_range _ _ _ _ _ _ _ R). assert (S1 := z_start _ _ (r_inv _ _ _ _ _ _ _ R)).
  cbn [mbind option_bind]. destruct ok.
  2: { exists (set_file z f), false. split; [done|]. split; [|split; [done|]].
       - intros _. split; [|by exists f]. apply (inv_gave_up z L z1 L1 hole o _ f HI R ltac:(lia)). intros x Hx. apply B1. lia.
       - intros _ _ Hr. exfalso. assert (false = true); [|done]. apply B5. rewrite B3. lia. }
  assert (HL : zlen L < 0xffff) by (rewrite (z_entries _ _ HI), length_map in Lc; exact Lc).
  destruct (add_data_spec z L z1 L1 hole o f name data ftime HI HL Ln Hd Hs R B1 B2 B3 (B4 eq_refl)) as (z' & ok & E & C1 & C2 & C3).
  exists z', ok. split; [exact E|]. split; [exact C1|]. split; [exact C2|]. intros _ _ Hr. apply C3. fold s. lia.
Qed.
End Inv.
