(* ===== verification/ZipOps.v ===== *)
(** The operations of [FileZip] as operations on a list of names and files: empty
    entries, extracting, removing, saving, and any sequence of them. *)
From S2P Require Import Prelude Files Zip ZipInv.

Section Ops.
Context (crc : list Z -> Z) (zlib_encode : list Z -> option (list Z)) (zlib_decode : list Z -> Z -> option (list Z)).
Context (dos : Z -> Z * Z) (sort : list FileEntry -> list FileEntry).
Hypothesis crc_range : forall d, 0 <= crc d < 2 ^ 32.
Hypothesis dos_range : forall t, 0 <= (dos t).1 < 2 ^ 16 /\ 0 <= (dos t).2 < 2 ^ 16.
Hypothesis zlib_law : forall d s, zlib_encode d = Some s -> s <> [] /\ zlib_decode s (zlen d) = Some d.
Abbreviation inv := (inv crc zlib_decode).
Abbreviation member_ok := (member_ok crc zlib_decode).

(** ** Empty entries *)

Definition slash_added (name : list Z) (attrib : Z) : list Z :=
  slashes name ++ match last name with Some c => if negb (c =? 47) && negb (c =? 92) && (attrib =? FILE_ATTRIBUTE_DIRECTORY) then [47] else [] | None => [] end.

Lemma AddZeroSized_spec z L name ftime attrib : inv z L -> name <> [] -> zlen (slash_added name attrib) <= 0xffff -> zlen (m_FileEntries z) < 0xffff -> 0 <= attrib < 2 ^ 32 ->
  exists e, AddZeroSizedEntry dos z name ftime attrib = Some (changed (set_entries z (m_FileEntries z ++ [e])), true) /\
    inv (changed (set_entries z (m_FileEntries z ++ [e]))) (L ++ [(e, Empty)]) /\ FileName e = slash_added name attrib.
Proof.
  intros [H1 Hz H2 H3 H4 H5 H6 H7] Hn Hl Hc Ha. unfold AddZeroSizedEntry. assert (Hl2 : zlen name <= 0xffff) by (unfold slash_added in Hl; rewrite length_app, slashes_length in Hl; lia). rewrite (proj2 (Z.ltb_ge 0xffff _)), (proj2 (Z.leb_gt 0xffff _)) by lia.
  unfold slash_added in *. destruct (last name) as [c|] eqn:E; [|by apply last_None in E]. cbn [mbind option_bind].
  set (nm := slashes name ++ _) in *. assert (Eu : u16 (zlen nm) = zlen nm) by (apply wrap_id; unfold in_width; lia).
  eexists. split; [reflexivity|]. split.
  - split; cbn [changed set_entries m_FileEntries m_CentralDirectoryStart _pZipFile m_CompressionMode adding m_ZipComment]; try done.
    + by rewrite map_app, H1.
    + rewrite H1, length_map in Hc. change (zlen (L : list member) < 0xffff) in Hc. change (zlen (L ++ [(new_entry dos nm 0 ftime attrib 0, Empty) : member]) <= 0xffff).
      rewrite length_app. cbn [length]. lia.
    + apply Forall_app. split; [done|]. apply Forall_singleton. split; [apply new_entry_fits; lia || done|]. split; [cbn; rewrite Eu; lia|]. unfold lo, extent. cbn. repeat split; lia.
    + apply all_apart_app. split; [done|]. apply Forall_forall. intros a _. right. by left.
  - unfold FileName, new_entry. cbn. by rewrite Eu, Nat2Z.id, firstn_all.
Qed.

(** ** Extracting *)

Lemma lfh_of_bytes e : fits fe_widths (fe_fields e) -> lfh_of (lfh_bytes (lfh_for e)) = lfh_for e.
Proof.
  intros H. unfold lfh_of, lfh_bytes. rewrite <- (app_nil_r (put _ _)), get_put; [done|].
  unfold fits, fe_widths, fe_fields, lfh_widths in *. repeat (apply Forall2_cons in H as [? H]). repeat (apply Forall2_cons_2; [assumption || (cbn; unfold lfh_magic; lia)|]). constructor.
Qed.
Lemma Extract_spec z L i e d pData : inv z L -> L !! i = Some ((e, Stored d) : member) ->
  exists f, ExtractFile crc zlib_decode z i pData = Some (set_file z f, Some d) /\
    bytes f = bytes (_pZipFile z) /\ len f = len (_pZipFile z) /\ room f = room (_pZipFile z).
Proof.
  intros [H1 Hz H2 H3 H4 H5 H6 H7] Hi. assert (Ok := Forall_lookup_1 _ _ _ _ H3 Hi). destruct Ok as (F1 & F2 & F3 & F4 & F5 & _ & name & s & Hh & Hn & Hs & Hl & Hc & Ho & Hd & Hne).
  assert (Hpos : 0 < zlen s) by (destruct s; [done|cbn [length]; lia]).
  unfold lo, extent in F3, F4, F5. cbn [fst snd] in *. assert (Ei : m_FileEntries z !! i = Some e) by (rewrite H1; apply list_lookup_fmap_Some; by exists (e, Stored d)).
  destruct (fe_ranges e F1) as (R1 & R2 & R3). apply holds_app in Hh as [A1 A2]. apply holds_app in A2 as [A2 A3].
  change (zlen (lfh_bytes (lfh_for e))) with 30 in A3. unfold ExtractFile. rewrite Ei. cbn [mbind option_bind].
  destruct (get_at_spec z (OffsetToLocalFileHeader e) (lfh_bytes (lfh_for e)) ltac:(assert (S1 := H2); lia) A1) as (f & E1 & B1 & L1 & R4); [change (zlen (lfh_bytes (lfh_for e))) with 30; lia|].
  change (zlen (lfh_bytes (lfh_for e))) with 30 in E1. rewrite E1. cbn [mbind option_bind]. rewrite lfh_of_bytes by done. cbn [l_Signature l_FileNameLength l_ExtraFieldLength l_Compression lfh_for]. rewrite Z.eqb_refl.
  rewrite (u32_id (_ + _ + _ + _)) by lia. replace (OffsetToLocalFileHeader e + FileNameLength e + 0 + 30) with (OffsetToLocalFileHeader e + 30 + zlen name) by lia.
  destruct (get_at_spec (set_file z f) (OffsetToLocalFileHeader e + 30 + zlen name) s) as (f2 & E2 & B2 & L2 & R5); [lia|by cbn [_pZipFile set_file]; rewrite B1|cbn [_pZipFile set_file]; lia|].
  rewrite Hs in E2. cbn [_pZipFile set_file] in *. change (set_file (set_file z f) f2) with (set_file z f2).
  exists f2. split; [|rewrite B2, L2, R5; done]. destruct Hd as [[C1 ->]|[C1 C2]]; rewrite C1; cbn [Z.eqb].
  - rewrite Ho, <- Hs, Z.eqb_refl. rewrite Hs, E2. cbn [mbind option_bind]. by rewrite Hc, Z.eqb_refl.
  - rewrite E2. cbn [mbind option_bind]. rewrite Ho, C2. cbn [CRC32 with_data]. rewrite Hc, Z.eqb_refl. do 3 f_equal. unfold set_entries, set_file. cbn. f_equal.
    apply list_insert_id. rewrite Ei. f_equal. destruct e. unfold with_data. cbn in *. by rewrite Hc, Ho, C1.
Qed.

(** ** Removing *)

Lemma RemoveFile_spec z L i e d : inv z L -> L !! i = Some ((e, Stored d) : member) ->
  exists h, RemoveFile z i = Some (set_entries z (<[i:=h]> (m_FileEntries z))) /\
    inv (set_entries z (<[i:=h]> (m_FileEntries z))) (<[i:=(h, Hole)]> L) /\ FileName h = FileName e.
Proof.
  intros [H1 Hz H2 H3 H4 H5 H6 H7] Hi. assert (Ok := Forall_lookup_1 _ _ _ _ H3 Hi). destruct Ok as (F1 & F2 & F3 & F4 & F5 & F6 & F7).
  unfold lo, extent in F3, F4, F5. cbn [fst snd] in *. assert (Ei : m_FileEntries z !! i = Some e) by (rewrite H1; apply list_lookup_fmap_Some; by exists (e, Stored d)).
  destruct (fe_ranges e F1) as (R1 & R2 & R3). unfold RemoveFile. rewrite Ei. cbn [mbind option_bind]. rewrite F6. cbn [Z.eqb fe_magic]. eexists. split; [reflexivity|].
  rewrite (u32_id (_ + _ + _)) by lia. set (h := mkFE _ _ _ _ _ _ _ _ _ _ _ _ _ _ _ _ _ _). split; [|done].
  split; cbn [set_entries m_FileEntries m_CentralDirectoryStart _pZipFile m_CompressionMode adding m_ZipComment]; try done.
  - by rewrite H1, list_fmap_insert.
  - by rewrite length_insert.
  - apply Forall_insert; [done|]. split; [|split; [done|unfold lo, extent; cbn; repeat split; lia]].
    unfold fits, fe_widths, fe_fields in *. cbn in F1 |- *. repeat (apply Forall2_cons in F1 as [? F1]). repeat (apply Forall2_cons_2; [assumption || lia|]). constructor.
  - apply (all_apart_insert L i (e, Stored d)); [done|done|]. intros b. unfold apart, lo, extent. cbn [fst snd h OffsetToLocalFileHeader Size]. lia.
Qed.

(** ** The stream *)

(** A file written in one piece to the stream of [AddFile]. *)
Definition AddFile_streamed (z : zip) (name data : list Z) (ftime : Z) : option (zip * bool) :=
  r ← AddFile_stream dos z name (zlen data) ftime;
  match (r : zip * option compress_stream) with
  | (z, None) => Some (z, false)
  | (z, Some s) =>
    w ← compress_store_Write crc z s data;
    let '(z, s, n) := (w : zip * compress_stream * Z) in
    let ok := n =? zlen data in
    r ← compress_stream_Finalize z s ok; Some ((r : zip * bool).1, ok && r.2)
  end.
Lemma put_at_update z F p l : put_at (update_adding z F) p l = (fun r : zip * bool => (update_adding r.1 F, r.2)) <$> put_at z p l.
Proof.
  unfold put_at, update_adding. destruct (adding z) eqn:E; cbn [_pZipFile set_adding]; destruct (disk_Seek (_pZipFile z) p Seek_Begin) as [[f q]|]; try done; cbn [mbind option_bind]; destruct (q =? p); [destruct (Write f l)| |destruct (Write f l)|]; cbn; by rewrite E.
Qed.
Lemma put_at_same z p l z' ok : put_at z p l = Some (z', ok) -> m_CompressionMode z' = m_CompressionMode z /\ adding z' = adding z.
Proof. unfold put_at. destruct (disk_Seek _ _ _) as [[f q]|]; [|done]. cbn [mbind option_bind]. destruct (q =? p); [destruct (Write f l)|]; by intros [= <- _]. Qed.
(** One piece is written and finalised as [add_data] does it. *)
Lemma stream_piece z a data : adding z = Some a -> m_CompressionMode z = 0 -> _ClaimedSize a = zlen data -> zlen data < 2 ^ 31 ->
  (w ← compress_store_Write crc (update_adding z (fun e => with_data e (CRC32 e) (Size e) (zlen data) 0))
         (mkWriter 0 (GetOffsetToLocalData (_AddingNonZeroFileEntry a)) 0 true) data;
   let '(z, s, n) := (w : zip * compress_stream * Z) in
   let ok := n =? zlen data in
   r ← compress_stream_Finalize z s ok; Some ((r : zip * bool).1, ok && r.2)) =
  add_data crc z data data.
Proof.
  intros Ha Hm Hc Hd. unfold compress_store_Write, add_data. rewrite Ha.
  set (Z1 := update_adding z _). assert (A1 : exists e, adding Z1 = Some (mkPending e (_HoleFromEntry a) (_HoleTakenSize a) (_CentralDirectoryStart_Old a) (_ClaimedSize a))) by (unfold Z1, update_adding; rewrite Ha; by eexists).
  destruct A1 as [e1 ->]. unfold Z1. clear Z1. cbn [mbind option_bind _ClaimedSize Written w_BaseInFile store_].
  rewrite Hc, Z.add_0_l, (u32_id (zlen data)), Z.leb_refl, Z.add_0_r by lia.
  rewrite (u32_id (GetOffsetToLocalData _)) by apply (wrap_range 32 _ ltac:(lia)). rewrite put_at_update.
  destruct (put_at z (GetOffsetToLocalData (_AddingNonZeroFileEntry a)) data) as [[z1 ok]|] eqn:Ep; [|done].
  destruct (put_at_same _ _ _ _ _ Ep) as [Em Ea]. cbn [fmap option_fmap option_map mbind option_bind fst snd]. rewrite Hm in Em. rewrite Ha in Ea.
  destruct ok; cbn [mbind option_bind].
  - rewrite !Z.eqb_refl. cbn [andb]. unfold compress_stream_Finalize. cbn [w_CRC Written].
    assert (Eu : update_adding (update_adding z1 (fun e => with_data e (CRC32 e) (Size e) (zlen data) 0)) (fun e => with_crc_size e (crc data) (zlen data)) =
      update_adding z1 (fun e => with_data e (crc data) (zlen data) (zlen data) 0)) by (unfold update_adding; rewrite Ea; done).
    rewrite Eu. destruct (_AddNonZeroFileEntry_End _ true) as [[z2 b]|]; done.
  - rewrite (proj2 (Z.eqb_neq (u32 (-1)) _)) by (change (u32 (-1)) with (2 ^ 32 - 1); lia). cbn [andb]. unfold compress_stream_Finalize, _AddNonZeroFileEntry_End, update_adding. rewrite Ea. done.
Qed.
(** C37: a file stored by one write to the stream that [AddFile] gives, and then
    finalised, leaves the archive and the disk as [AddFile] with the data does, also
    when the disk fills up at any point. *)
Theorem stream_once z L name data ftime : inv z L -> m_CompressionMode z = 0 -> 0 < zlen data < 2 ^ 31 ->
  m_CentralDirectoryStart z + 30 + zlen name + zlen data < 2 ^ 31 ->
  AddFile_streamed z name data ftime = AddFile crc zlib_encode dos z name data ftime.
Proof.
  intros HI Hm Hd Hb. unfold AddFile_streamed, AddFile, AddFile_stream. rewrite (proj2 (Z.eqb_neq _ 0)), Hm by lia. cbn [Z.eqb].
  destruct (Z.lt_ge_cases 0xffff (zlen name)) as [Ln|Ln].
  { unfold _AddNonZeroFileEntry_Begin. by rewrite (proj2 (Z.ltb_lt 0xffff _)) by lia. }
  destruct (Z.le_gt_cases 0xffff (zlen (m_FileEntries z))) as [Lc|Lc].
  { unfold _AddNonZeroFileEntry_Begin. by rewrite (proj2 (Z.ltb_ge 0xffff _)), (proj2 (Z.leb_le 0xffff _)) by lia. }
  destruct (begin_spec crc zlib_decode dos z L name (zlen data) ftime HI ltac:(lia) ltac:(lia) Ln Lc) as (z1 & L1 & hole & o & f & ok & B). cbn zeta in B. set (a := mkPending _ _ _ _ _) in B.
  destruct B as (R & -> & _). cbn [mbind option_bind]. destruct ok; [|done].
  set (Z0 := set_file (set_adding z1 (Some a)) f). assert (Em : m_CompressionMode Z0 = 0) by (change (m_CompressionMode z1 = 0); by rewrite (r_mode _ _ _ _ _ _ _ _ _ R)).
  assert (Ea : adding Z0 = Some a) by done. rewrite Ea, Em. cbn [mbind option_bind Z.eqb orb]. apply (stream_piece Z0 a data); [done..|lia].
Qed.
End Ops.
