(* ===== verification/ZipDir.v ===== *)
(** The directory of an archive: what [Save] writes behind the files is what
    [Open] reads. *)
From S2P Require Import Prelude Files Zip ZipInv.

(** An entry that its fixed fields describe. *)
Definition entry_ok (e : FileEntry) : Prop :=
  fits fe_widths (fe_fields e) /\ zlen (tail e) = FileNameLength e + ExtraFieldLength e + FileCommentLength e.

Lemma entry_ranges e : entry_ok e -> 0 <= FileNameLength e < 2 ^ 16 /\ 0 <= ExtraFieldLength e < 2 ^ 16 /\ 0 <= FileCommentLength e < 2 ^ 16.
Proof. intros [H _]. unfold fits, fe_widths, fe_fields in H. repeat (apply Forall2_cons in H as [? H]). split; [|split]; assumption. Qed.
Lemma length_fe_bytes e : entry_ok e -> zlen (fe_bytes e) = 46 + FileNameLength e + ExtraFieldLength e + FileCommentLength e /\ GetTotalSize e = zlen (fe_bytes e).
Proof.
  intros H. assert (R := entry_ranges e H). destruct H as [_ H]. unfold GetTotalSize. rewrite u32_id by lia.
  unfold fe_bytes. rewrite length_app, length_put by done. change (width fe_widths) with 46%nat. lia.
Qed.
Lemma fe_of_bytes e rest : entry_ok e -> fe_of (fe_bytes e ++ rest) = e.
Proof.
  intros [H1 H2]. unfold fe_of, fe_bytes. rewrite <- app_assoc, get_put by done. cbn [fe_fields]. rewrite drop_app_length' by (by rewrite length_put).
  rewrite <- H2, Nat2Z.id, take_app_length. by destruct e.
Qed.

(** ** Writing it *)

(** What is written goes behind [p], and the file grows no further than that. *)
Record appended (f f' : disk) : Prop := {
  a_bytes x : x < pos f -> bytes f' x = bytes f x;
  a_pos : pos f <= pos f';
  a_len : len f <= len f' <= Z.max (len f) (pos f');
  a_room : room f' = room f }.
Lemma appended_trans f g h : appended f g -> appended g h -> appended f h.
Proof. intros [A1 A2 A3 A4] [B1 B2 B3 B4]. split; [intros x Hx; rewrite B1, A1 by lia; done|lia|lia|congruence]. Qed.
Lemma write_spec f l : 0 <= pos f -> exists f' n, disk_Write f l = (f', n) /\ appended f f' /\
  (pos f + zlen l <= room f -> n = zlen l) /\
  (n = zlen l -> pos f' = pos f + zlen l /\ holds (bytes f') (pos f) l /\ (l <> [] -> pos f' <= len f')).
Proof.
  intros Hp. unfold disk_Write. set (w := Z.max 0 (Z.min (zlen l) (room f - pos f))). eexists _, _. split; [reflexivity|]. cbn [bytes len pos room].
  split; [split; cbn [bytes len pos room]|split].
  - intros x Hx. apply mstore_out. lia.
  - lia.
  - destruct (Z.eqb_spec w 0); lia.
  - done.
  - lia.
  - intros E. rewrite E, Nat2Z.id, firstn_all. split; [done|]. split; [apply holds_mstore|]. intros Hl.
    assert (0 < zlen l) by (destruct l; [done|cbn [length]; lia]). rewrite (proj2 (Z.eqb_neq _ 0)); lia.
Qed.
Lemma save_entries_spec es : forall f c k, 0 <= pos f -> Forall entry_ok es ->
  0 <= c -> c + zlen (dir_bytes es) < 2 ^ 32 -> 0 <= k -> k + Z.of_nat (length (lives es)) < 2 ^ 32 ->
  exists f' r, save_entries f es c k = (f', r) /\ appended f f' /\
    (pos f + zlen (dir_bytes es) <= room f -> r = Some (c + zlen (dir_bytes es), k + Z.of_nat (length (lives es)))) /\
    (r <> None -> pos f' = pos f + zlen (dir_bytes es) /\ holds (bytes f') (pos f) (dir_bytes es) /\ (dir_bytes es <> [] -> pos f' <= len f') /\
       r = Some (c + zlen (dir_bytes es), k + Z.of_nat (length (lives es)))).
Proof.
  induction es as [|e es IH]; intros f c k Hp Hes Hc Hcb Hk Hkb.
  - cbn. exists f, (Some (c, k)). split; [done|]. split; [split; done || lia|]. rewrite !Z.add_0_r. split; [done|]. intros _. done.
  - apply Forall_cons in Hes as [He Hes]. cbn [save_entries]. rewrite dir_bytes_cons in *. rewrite lives_cons in *.
    destruct (Z.eqb_spec (Signature e) 0) as [S|S].
    + assert (Lv : live e = false) by (unfold live; by rewrite S). rewrite Lv in *. cbn [app] in *.
      destruct (IH f c k Hp Hes Hc Hcb Hk Hkb) as (f' & r & E & A & B & C). by exists f', r.
    + assert (Lv : live e = true) by (unfold live; by rewrite (proj2 (Z.eqb_neq _ _) S)). rewrite Lv in *.
      destruct (length_fe_bytes e He) as [F1 F2]. assert (R := entry_ranges e He). rewrite length_app in *. cbn [length] in *.
      rewrite F2, Nat2Z.id, firstn_all. destruct (write_spec f (fe_bytes e) Hp) as (g & n & Ew & Ag & W1 & W2). cbn [Write File_on_disk]. rewrite Ew.
      destruct (Z.eqb_spec n (zlen (fe_bytes e))) as [->|Hn].
      2: { exists g, None. split; [done|]. split; [done|]. split; [|done]. intros Hr. exfalso. apply Hn, W1. lia. }
      destruct (W2 eq_refl) as (P1 & P2 & P3). rewrite !u32_id by lia.
      destruct (IH g (c + zlen (fe_bytes e)) (k + 1)) as (f' & r & E & A & B & C); [lia|done|lia|lia|lia|lia|].
      exists f', r. rewrite E. split; [done|]. split; [by eapply appended_trans|]. split.
      * intros Hr. rewrite B; [f_equal; f_equal; lia|]. rewrite P1, (a_room _ _ Ag). lia.
      * intros Hr. destruct (C Hr) as (C1 & C2 & C3 & C4). split; [lia|]. split; [|split].
        -- apply holds_join; [|by rewrite <- P1]. apply (holds_out (bytes g)); [done|]. intros x Hx. apply (a_bytes _ _ A). lia.
        -- intros _. specialize (P3 ltac:(intros X; rewrite X in F1; cbn in F1; lia)). destruct (dir_bytes es) eqn:X; [rewrite C1; cbn; assert (Y := a_len _ _ A); lia|by apply C3].
        -- rewrite C4. f_equal. f_equal; lia.
Qed.

(** ** Reading it *)

Lemma load_lives es : Forall (fun e => entry_ok e /\ Signature e = fe_magic /\ tail e <> []) es ->
  load_entries (length es) (concat (map fe_bytes es)) = Some es.
Proof.
  induction 1 as [|e es (He & Hs & Ht) _ IH]; [done|]. cbn [length load_entries map concat]. rewrite fe_of_bytes, Hs, Z.eqb_refl by done.
  destruct (length_fe_bytes e He) as [F1 _]. assert (Tl := proj2 He). assert (0 < zlen (tail e)) by (destruct (tail e); [done|cbn [length]; lia]).
  rewrite <- F1, Nat2Z.id, drop_app_length, IH. rewrite length_app, !(proj2 (Z.leb_le _ _)) by lia. done.
Qed.
Lemma cd_of_bytes k s o : 0 <= k < 2 ^ 16 -> 0 <= s < 2 ^ 32 -> 0 <= o < 2 ^ 32 -> let c := mkCD cd_magic 0 0 k k s o 0 in cd_of (cd_bytes c) = c.
Proof.
  intros Hk Hs Ho c. unfold cd_of, cd_bytes. rewrite <- (app_nil_r (put _ _)), get_put; [done|].
  unfold fits, cd_widths, c, cd_magic. cbn. repeat (apply Forall2_cons_2; [lia|]). constructor.
Qed.
(** The bytes of the end record do not hold another one two or one further. *)
Lemma find_end_last n cdir k s o filelen : 0 <= k < 2 ^ 16 -> 0 <= s < 2 ^ 32 -> 0 <= o < filelen -> o < 2 ^ 32 ->
  let c := mkCD cd_magic 0 0 k k s o 0 in drop n cdir = cd_bytes c -> find_end (3 + n) cdir filelen = Some (n, c).
Proof.
  intros Hk Hs Ho Ho2 c Hd. cbn [Nat.add find_end]. replace (drop (S (S n)) cdir) with (drop 2 (cd_bytes c)) by (by rewrite <- Hd, drop_drop, Nat.add_comm).
  replace (drop (S n) cdir) with (drop 1 (cd_bytes c)) by (by rewrite <- Hd, drop_drop, Nat.add_comm).
  change (c_Signature (cd_of (drop 2 (cd_bytes c))) =? cd_magic) with false. change (c_Signature (cd_of (drop 1 (cd_bytes c))) =? cd_magic) with false.
  cbn [andb]. rewrite Hd. subst c. rewrite (cd_of_bytes k s o) by lia. cbn [c_Signature m_uOffset]. by rewrite Z.eqb_refl, (proj2 (Z.ltb_lt _ _)) by lia.
Qed.

Section Dir.
Context (crc : list Z -> Z) (zlib_decode : list Z -> Z -> option (list Z)) (sort : list FileEntry -> list FileEntry).
Abbreviation inv := (inv crc zlib_decode).
Abbreviation member_ok := (member_ok crc zlib_decode).

(** The archive after its directory has been written, or some of it. *)
Definition resaved (z : zip) (f : disk) (m : bool) : zip :=
  mkZip f (m_FileEntries z) (m_CentralDirectoryStart z) m (m_ListSorted z) (m_ZipComment z) (m_CompressionMode z) (adding z).
Definition end_record (z : zip) : CentralDirectory :=
  let n := Z.of_nat (length (lives (m_FileEntries z))) in mkCD cd_magic 0 0 n n (zlen (dir_bytes (m_FileEntries z))) (m_CentralDirectoryStart z) 0.
Definition dir_end (z : zip) : Z := m_CentralDirectoryStart z + zlen (dir_bytes (m_FileEntries z)) + 22.

Lemma inv_behind z L f m : inv z L -> (forall x, x < m_CentralDirectoryStart z -> bytes f x = bytes (_pZipFile z) x) -> len (_pZipFile z) <= len f ->
  inv (resaved z f m) L.
Proof.
  intros [H1 Hz H2 H3 H4 H5 H6 H7] Hb Hl. split; try done. eapply Forall_impl; [exact H3|]. intros a Ha. eapply member_frame; [exact Ha|done|done|].
  destruct Ha as (_ & _ & A3 & _ & A5 & _). intros _ x Hx. apply Hb. lia.
Qed.
Lemma inv_entries_ok z L : inv z L -> Forall entry_ok (m_FileEntries z).
Proof. intros [H1 Hz H2 H3 H4 H5 H6 H7]. rewrite H1. apply Forall_fmap. eapply Forall_impl; [exact H3|]. intros a (A1 & A2 & _). by split. Qed.
Lemma length_lives es : (length (lives es) <= length es)%nat.
Proof. apply length_filter. Qed.

Lemma Save_spec z L : inv z L -> dir_end z < 2 ^ 31 ->
  exists f m ok, Save z = Some (resaved z f m, ok) /\ inv (resaved z f m) L /\ room f = room (_pZipFile z) /\
    len (_pZipFile z) <= len f /\
    (ok = true -> holds (bytes f) (m_CentralDirectoryStart z) (dir_bytes (m_FileEntries z) ++ cd_bytes (end_record z)) /\
       len f = Z.max (len (_pZipFile z)) (dir_end z)) /\
    (m_CentralDirectoryModified z = true -> dir_end z <= room (_pZipFile z) -> ok = true).
Proof.
  intros HI Hb. unfold dir_end in *. assert (Es := inv_entries_ok z L HI). assert (Lc := z_count _ _ _ _ HI). assert (St := z_start _ _ _ _ HI).
  assert (Ll := length_lives (m_FileEntries z)). rewrite (z_entries _ _ _ _ HI) in Ll at 2. rewrite length_map in Ll. change (length (lives (m_FileEntries z)) <= length (L : list member))%nat in Ll.
  assert (Keep : forall f m, appended (mkDisk (bytes (_pZipFile z)) (len (_pZipFile z)) (m_CentralDirectoryStart z) (room (_pZipFile z)) (_bErrorFlag (_pZipFile z))) f ->
    inv (resaved z f m) L /\ room f = room (_pZipFile z) /\ len (_pZipFile z) <= len f).
  { intros f m [A1 A2 A3 A4]. cbn [bytes len pos room] in *. split; [|split; [done|lia]]. apply inv_behind; [done|done|lia]. }
  unfold Save. destruct (m_CentralDirectoryModified z) eqn:Em.
  2: { exists (_pZipFile z), (m_CentralDirectoryModified z), false. split; [by destruct z|]. split; [by destruct z|]. split; [done|]. split; [lia|]. by split. }
  rewrite disk_seek_begin by lia. cbn [mbind option_bind]. rewrite Z.eqb_refl. set (f0 := mkDisk _ _ _ _ _).
  destruct (save_entries_spec (m_FileEntries z) f0 0 0) as (f1 & r & -> & A1 & R1 & R2); [cbn; lia|done|lia|lia|lia|lia|]. cbn [pos room] in R1, R2. rewrite !Z.add_0_l in R1, R2.
  destruct r as [[c k]|].
  2: { exists f1, (m_CentralDirectoryModified z), false. split; [done|]. destruct (Keep f1 (m_CentralDirectoryModified z) A1) as (K1 & K2 & K3). split; [done|]. split; [done|]. split; [done|]. split; [done|]. intros _ Hr.
       exfalso. by specialize (R1 ltac:(subst f0; cbn; lia)). }
  destruct (R2 ltac:(done)) as (P1 & P2 & P3 & [= -> ->]). subst f0. cbn [pos] in P1, P2. clear R1 R2.
  rewrite (z_comment _ _ _ _ HI). cbn [length Z.of_nat Z.eqb].
  replace (mkCD _ _ _ _ _ _ _ _) with (end_record z) by (unfold end_record; f_equal; symmetry; apply wrap_id; unfold in_width; lia).
  destruct (write_spec f1 (cd_bytes (end_record z))) as (f2 & n & Ew & A2 & W1 & W2); [lia|]. cbn [Write File_on_disk]. rewrite Ew.
  change (zlen (cd_bytes (end_record z))) with 22 in *. assert (A := appended_trans _ _ _ A1 A2). rewrite (a_room _ _ A1), P1 in W1. cbn [room] in W1.
  destruct (Z.eqb_spec n 22) as [->|Hn].
  - exists f2, false, true. split; [unfold resaved; by rewrite (z_comment _ _ _ _ HI)|]. destruct (Keep f2 false A) as (K1 & K2 & K3). split; [done|]. split; [done|]. split; [done|]. split; [|done]. intros _.
    destruct (W2 eq_refl) as (Q1 & Q2 & Q3). specialize (Q3 ltac:(done)). split.
    + apply holds_join; [|by rewrite <- P1]. apply (holds_out (bytes f1)); [done|]. intros x Hx. apply (a_bytes _ _ A2). lia.
    + assert (Y := a_len _ _ A). cbn [len] in Y. lia.
  - exists f2, (m_CentralDirectoryModified z), false. split; [done|]. destruct (Keep f2 (m_CentralDirectoryModified z) A) as (K1 & K2 & K3). split; [done|]. split; [done|]. split; [done|]. split; [done|]. intros _ Hr.
    exfalso. apply Hn, W1. lia.
Qed.

Definition alive (L : list member) : list member := filter (fun a => live a.1) L.
Lemma map_alive L : map fst (alive L) = lives (map fst L).
Proof. unfold alive, lives. induction L as [|a L IH]; [done|]. cbn [map]. rewrite !filter_cons. destruct (decide (live a.1)); [cbn [map]; f_equal|]; exact IH. Qed.
Lemma drop_mem_bytes n : forall m p k, drop n (mem_bytes m p (n + k)) = mem_bytes m (p + Z.of_nat n) k.
Proof. intros m p k. rewrite mem_bytes_app, drop_app_length'; [done|]. by rewrite length_mem_bytes. Qed.

(** What [Open] makes of a directory at the end of a file. *)
Lemma Open_reads z f idx : 0 <= m_CentralDirectoryStart z -> dir_end z < 2 ^ 31 -> len f = dir_end z ->
  zlen (m_FileEntries z) <= 0xffff -> lives (m_FileEntries z) <> [] ->
  Forall (fun e => entry_ok e /\ Signature e = fe_magic /\ tail e <> []) (lives (m_FileEntries z)) ->
  holds (bytes f) (m_CentralDirectoryStart z) (dir_bytes (m_FileEntries z) ++ cd_bytes (end_record z)) ->
  exists g, bytes g = bytes f /\ len g = len f /\ room g = room f /\
    let z2 := mkZip g (lives (m_FileEntries z)) (m_CentralDirectoryStart z) false false [] ZIP_STORE None in
    Open sort f false idx = Some (if idx : bool then ReindexAllEntries sort z2 else z2).
Proof.
  intros Hs Hb Hl Hc Hne Hes Hh. apply holds_app in Hh as [D1 D2]. unfold dir_end in *. assert (Ll := length_lives (m_FileEntries z)).
  assert (Dl : 46 < zlen (dir_bytes (m_FileEntries z))).
  { unfold dir_bytes. destruct (lives (m_FileEntries z)) as [|e es]; [done|]. apply Forall_cons in Hes as [(He & _ & Ht) _]. cbn [map concat]. rewrite length_app.
    assert (F := proj1 (length_fe_bytes e He)). assert (Tl := proj2 He). assert (0 < zlen (tail e)) by (destruct (tail e); [done|cbn [length]; lia]). lia. }
  unfold Open. cbn [andb GetLength File_on_disk]. rewrite Hl, s32_small, u32_id by lia. set (N := _ + _ + 22). rewrite (proj2 (Z.ltb_ge N 23)) by lia.
  set (n := Z.min N _). assert (Hn : 68 <= n <= N) by lia. rewrite (disk_seek f) by lia. cbn [mbind option_bind len]. rewrite Hl. fold N. rewrite (proj2 (Z.ltb_ge (N + - n) 0)) by lia. cbn zeta.
  rewrite disk_read_all by (cbn [pos len]; lia). cbn [bytes len pos room _bErrorFlag]. rewrite length_mem_bytes, Z2Nat.id, Z.eqb_refl by lia.
  replace (Z.to_nat (n - 19)) with (3 + Z.to_nat (n - 22))%nat by lia.
  assert (Dr : drop (Z.to_nat (n - 22)) (mem_bytes (bytes f) (N + - n) (Z.to_nat n)) = cd_bytes (end_record z)).
  { replace (Z.to_nat n) with (Z.to_nat (n - 22) + 22)%nat by lia. rewrite drop_mem_bytes. unfold holds in D2. rewrite <- D2. f_equal. lia. }
  
  rewrite (find_end_last (Z.to_nat (n - 22)) _ (Z.of_nat (length (lives (m_FileEntries z)))) (zlen (dir_bytes (m_FileEntries z))) (m_CentralDirectoryStart z) N
    ltac:(lia) ltac:(lia) ltac:(lia) ltac:(lia) Dr). cbn [mbind option_bind m_uThisDisk m_uDiskWithCD m_uDiskEntriesNo m_uEntriesNumber m_uSize m_uOffset m_ZipCommentLength].
  rewrite !Z.eqb_refl, u32_id, (proj2 (Z.ltb_lt _ N)) by lia. cbn [andb]. rewrite disk_seek_begin by lia. cbn [mbind option_bind]. rewrite disk_read_all by (cbn [pos len]; lia).
  cbn [bytes len pos room _bErrorFlag]. rewrite length_mem_bytes, !Nat2Z.id, Z2Nat.id, Z.eqb_refl by lia. unfold holds in D1. rewrite D1. unfold dir_bytes at 1. rewrite load_lives by done.
  cbn [mbind option_bind]. rewrite (Z.min_l 0) by apply (wrap_range 16 _ ltac:(lia)). eexists. split; [|split; [|split]]; [..|reflexivity]; done.
Qed.

(** An archive that was saved, the directory being the end of its file, and opened
    again has the files and no holes. *)
Lemma Open_spec z L f idx : inv (resaved z f false) L -> dir_end z < 2 ^ 31 -> len f = dir_end z -> (forall es, sort es ≡ₚ es) ->
  alive L <> [] -> Forall (fun a => FileName a.1 <> []) (alive L) ->
  holds (bytes f) (m_CentralDirectoryStart z) (dir_bytes (m_FileEntries z) ++ cd_bytes (end_record z)) ->
  exists z2 L2, Open sort f false idx = Some z2 /\ inv z2 L2 /\ L2 ≡ₚ alive L /\ m_ListSorted z2 = idx /\
    m_CentralDirectoryStart z2 = m_CentralDirectoryStart z /\ len (_pZipFile z2) = len f /\ room (_pZipFile z2) = room f /\
    (idx = true -> exists es, m_FileEntries z2 = sort es).
Proof.
  intros HI Hb Hl Hp Hne Hn Hh. assert (HI2 := HI). destruct HI as [H1 Hz H2 H3 H4 H5 H6 H7]. cbn [m_FileEntries _pZipFile m_CentralDirectoryStart resaved] in *.
  assert (Ea : lives (m_FileEntries z) = map fst (alive L)) by (by rewrite map_alive, H1).
  assert (Ok : Forall (member_ok (bytes f) (len f) (m_CentralDirectoryStart z)) (alive L)).
  { apply Forall_forall. intros a [_ Ha]%list_elem_of_filter. rewrite Forall_forall in H3. by apply H3. }
  assert (Oe : Forall (fun e => entry_ok e /\ Signature e = fe_magic /\ tail e <> []) (lives (m_FileEntries z))).
  { rewrite Ea. apply Forall_fmap. rewrite Forall_forall in *. intros a Ha. destruct (Ok a Ha) as (A1 & A2 & _ & _ & _ & A6). split; [by split|].
    apply list_elem_of_filter in Ha as [Hl2 Ha]. unfold live in Hl2. split; [destruct a as [e [| |d]]; cbn [fst snd] in *; [rewrite A6 in Hl2; done|by destruct A6|by destruct A6]|].
    intros X. apply (Hn a); [by apply list_elem_of_filter|]. unfold FileName. by rewrite X, take_nil. }
  destruct (Open_reads z f idx) as (g & G1 & G2 & G3 & E); [lia|done|done| |by rewrite Ea; destruct (alive L)|done|done|].
  { rewrite H1, length_map. exact Hz. }
  assert (Lf : zlen (alive L) <= 0xffff) by (eapply Z.le_trans; [apply inj_le, length_filter|exact Hz]).
  assert (Fin : forall es L2 m, es = map fst L2 -> L2 ≡ₚ alive L -> inv (mkZip g es (m_CentralDirectoryStart z) false m [] ZIP_STORE None) L2).
  { intros es L2 m -> P. split; cbn [m_FileEntries _pZipFile m_CentralDirectoryStart m_CompressionMode adding m_ZipComment]; try done; [by rewrite P| | |by left].
    - rewrite G1, G2. by rewrite P.
    - eapply all_apart_perm; [by symmetry|]. by apply all_apart_filter. }
  destruct idx; cbn [ReindexAllEntries m_ListSorted] in E.
  - destruct (Permutation_map_inv fst (l1 := sort (lives (m_FileEntries z))) (alive L)) as (L2 & E2 & P2); [by rewrite <- Ea|].
    eexists _, L2. split; [exact E|]. split; [apply Fin; [exact E2|by symmetry]|]. split; [by symmetry|]. do 4 (split; [done|]). intros _. by eexists.
  - eexists _, (alive L). split; [exact E|]. split; [by apply Fin|]. done.
Qed.
End Dir.
