(* ===== verification/ZipArchive.v ===== *)
(** An archive as the list of its names and files: any sequence of operations,
    finding by name, and an archive that is saved and opened again. *)
From stdpp Require Import sorting.
From S2P Require Import Prelude Search Files Zip ZipInv ZipOps ZipDir.

(** ** Names in order *)

Lemma name_lt_irrefl a : name_lt a a = false.
Proof. induction a as [|x a IH]; [done|]. cbn. by rewrite Z.ltb_irrefl, Z.eqb_refl, IH. Qed.
Lemma name_lt_trans a : forall b c, name_lt a b = true -> name_lt b c = true -> name_lt a c = true.
Proof.
  induction a as [|x a IH]; intros [|y b] [|w c]; cbn; try done. intros H1 H2. apply orb_true_iff in H1, H2. apply orb_true_iff.
  rewrite andb_true_iff in *. destruct H1 as [H1|[H1 H1']], H2 as [H2|[H2 H2']]; [left; lia..|]. right. split; [lia|]. by apply (IH b).
Qed.
Lemma name_lt_total a : forall b, name_lt a b = false -> name_lt b a = false -> a = b.
Proof.
  induction a as [|x a IH]; intros [|y b]; cbn; try done. intros [H1 H2]%orb_false_iff [H3 H4]%orb_false_iff. assert (x = y) as -> by lia.
  rewrite Z.eqb_refl in *. f_equal. by apply IH.
Qed.
Lemma name_le_lt a b c : name_lt b a = false -> name_lt b c = true -> name_lt a c = true.
Proof. intros H1 H2. destruct (name_lt a b) eqn:E; [by apply (name_lt_trans a b)|]. by rewrite (name_lt_total a b E H1). Qed.
Lemma name_lt_le a b c : name_lt a b = true -> name_lt c b = false -> name_lt a c = true.
Proof. intros H1 H2. destruct (name_lt b c) eqn:E; [by apply (name_lt_trans a b)|]. by rewrite <- (name_lt_total b c E H2). Qed.

(** No entry's name is before that of an earlier one. *)
Definition in_order (es : list FileEntry) : Prop := StronglySorted (fun a b => name_lt (FileName b) (FileName a) = false) es.
Lemma in_order_at es i j a b : in_order es -> (i <= j)%nat -> es !! i = Some a -> es !! j = Some b -> name_lt (FileName b) (FileName a) = false.
Proof.
  intros H. revert i j. induction H as [|x es _ IH H]; intros [|i] [|j] Hij Ha Hb; try done || lia.
  - injection Ha as <-. injection Hb as <-. apply name_lt_irrefl.
  - injection Ha as <-. rewrite Forall_lookup in H. by apply (H j).
  - apply (IH i j); [lia|done..].
Qed.
Lemma entry_at_lookup es i : 0 <= i < zlen es -> es !! Z.to_nat i = Some (entry_at es i).
Proof. intros H. unfold entry_at. rewrite nth_lookup. destruct (lookup_lt_is_Some_2 es (Z.to_nat i)) as [e E]; [lia|]. by rewrite E. Qed.

Lemma find_name_spec es nm : forall k, match find_name k es nm with
  | Some i => (k <= i)%nat /\ exists e, es !! (i - k)%nat = Some e /\ FileName e = nm
  | None => Forall (fun e => FileName e <> nm) es
  end.
Proof.
  induction es as [|e es IH]; intros k; cbn [find_name]; [constructor|]. destruct (decide (FileName e = nm)) as [E|E].
  - split; [lia|]. rewrite Nat.sub_diag. by exists e.
  - specialize (IH (S k)). destruct (find_name (S k) es nm) as [i|]; [|by constructor]. destruct IH as (H1 & e' & H2 & H3). split; [lia|].
    exists e'. by replace (i - k)%nat with (S (i - S k)) by lia.
Qed.
(** [FindFile] gives an entry of that name, and -1 only when there is none. *)
Lemma FindFile_spec z nm : (m_ListSorted z = true -> in_order (m_FileEntries z)) -> Forall (fun e => Signature e <> 0) (m_FileEntries z) -> zlen (m_FileEntries z) < 2 ^ 63 ->
  FindFile z nm = -1 /\ Forall (fun e => FileName e <> nm) (m_FileEntries z) \/
  exists i e, FindFile z nm = Z.of_nat i /\ m_FileEntries z !! i = Some e /\ FileName e = nm.
Proof.
  intros Hs Hl Hb. unfold FindFile. set (es := m_FileEntries z) in *. destruct (Z.eqb_spec (zlen es) 0) as [E|E].
  { left. destruct es; [done|discriminate E]. }
  destruct (m_ListSorted z).
  - specialize (Hs eq_refl). destruct (BinarySearch_correct (fun e k => name_lt (FileName e) k) (fun k e => name_lt k (FileName e)) (entry_at es) (zlen es) nm) as (r & -> & Hr & B1 & B2).
    + lia.
    + intros i j Hi Hj. apply name_le_lt. apply (in_order_at es (Z.to_nat i) (Z.to_nat j)); [done|lia|apply entry_at_lookup; lia..].
    + intros i j Hi Hj H. apply (name_lt_le _ _ _ H). apply (in_order_at es (Z.to_nat i) (Z.to_nat j)); [done|lia|apply entry_at_lookup; lia..].
    + intros e H1 H2. assert (H3 := name_lt_trans _ _ _ H1 H2). by rewrite name_lt_irrefl in H3.
    + destruct (Z.ltb_spec r (zlen es)) as [L|L].
      * destruct (B1 L) as (B3 & B4 & _). assert (Hi := entry_at_lookup es r ltac:(lia)). assert (Sg := Forall_lookup_1 _ _ _ _ Hl Hi). cbn beta in Sg.
        rewrite (proj2 (Z.eqb_neq _ _) Sg). right. exists (Z.to_nat r), (entry_at es r). split; [cbn; lia|]. split; [done|]. by apply name_lt_total.
      * left. cbn [andb]. split; [done|]. assert (Er : r = zlen es) by lia. apply Forall_lookup. intros i e He X. assert (Hi := lookup_lt_Some _ _ _ He).
        assert (Ee : entry_at es (Z.of_nat i) = e) by (unfold entry_at; by rewrite Nat2Z.id, nth_lookup, He).
        destruct (B2 Er (Z.of_nat i)) as [H|H]; [lia|rewrite Ee, X, name_lt_irrefl in H; done..].
  - assert (H := find_name_spec es nm 0). destruct (find_name 0 es nm) as [i|]; [|by left]. right. destruct H as (_ & e & H1 & H2). rewrite Nat.sub_0_r in H1. by exists i, e.
Qed.

(** ** The archive as a list *)

Abbreviation archive := (list (list Z * item)).
Definition view (L : list member) : archive := map (fun a => (FileName a.1, a.2)) L.
Definition item_of (d : list Z) : item := match d with [] => Empty | _ => Stored d end.

Inductive zip_op :=
  | Add (name data : list Z) (ftime : Z) | AddEntry (name : list Z) (ftime attrib : Z)
  | Remove (i : nat) | Extract (i : nat) (pData : list Z) | SaveNow | SetMode (mode : Z).
Inductive answer := Bool (b : bool) | Data (d : option (list Z)) | Nothing.

(** What a client may ask for: a file that is there, and a name. *)
Definition legal (l : archive) (op : zip_op) : Prop :=
  match op with
  | Add name _ _ => name <> []
  | AddEntry name _ attrib => name <> [] /\ 0 <= attrib < 2 ^ 32 /\ (zlen name <= 0xffff -> zlen (slash_added name attrib) <= 0xffff)
  | Remove i | Extract i _ => exists nm d, l !! i = Some (nm, Stored d)
  | SaveNow => True
  | SetMode mode => mode = 0 \/ mode = 8
  end.
(** The archive stays below 2 GB. *)
Definition budget (z : zip) (op : zip_op) : Prop :=
  match op with
  | Add name data _ => m_CentralDirectoryStart z + 30 + zlen name + zlen data < 2 ^ 31
  | SaveNow => dir_end z < 2 ^ 31
  | _ => True
  end.
(** The list after the operation has given its answer. *)
Definition after (l : archive) (op : zip_op) (r : answer) : archive :=
  match op, r with
  | Add name data _, Bool true => l ++ [(slashes name, item_of data)]
  | AddEntry name _ attrib, Bool true => l ++ [(slash_added name attrib, Empty)]
  | Remove i, _ => match l !! i with Some (nm, _) => <[i:=(nm, Hole)]> l | None => l end
  | _, _ => l
  end.
Definition answers (l : archive) (op : zip_op) (r : answer) : Prop :=
  match op with
  | Extract i _ => exists nm d, l !! i = Some (nm, Stored d) /\ r = Data (Some d)
  | Add _ _ _ | AddEntry _ _ _ | SaveNow => exists b, r = Bool b
  | Remove _ | SetMode _ => r = Nothing
  end.

Section Archive.
Context (crc : list Z -> Z) (zlib_encode : list Z -> option (list Z)) (zlib_decode : list Z -> Z -> option (list Z)).
Context (dos : Z -> Z * Z) (sort : list FileEntry -> list FileEntry).
Hypothesis crc_range : forall d, 0 <= crc d < 2 ^ 32.
Hypothesis dos_range : forall t, 0 <= (dos t).1 < 2 ^ 16 /\ 0 <= (dos t).2 < 2 ^ 16.
Hypothesis zlib_law : forall d s, zlib_encode d = Some s -> s <> [] /\ zlib_decode s (zlen d) = Some d.
Abbreviation inv := (inv crc zlib_decode).

(** Every file of the list is in its place in the archive. *)
Definition shows (z : zip) (l : archive) : Prop := exists L, inv z L /\ l = view L.

Definition do_op (z : zip) (op : zip_op) : option (zip * answer) :=
  match op with
  | Add name data ftime => r ← AddFile crc zlib_encode dos z name data ftime; Some ((r : zip * bool).1, Bool r.2)
  | AddEntry name ftime attrib => r ← AddZeroSizedEntry dos z name ftime attrib; Some ((r : zip * bool).1, Bool r.2)
  | Remove i => z ← RemoveFile z i; Some (z, Nothing)
  | Extract i pData => r ← ExtractFile crc zlib_decode z i pData; Some ((r : zip * option (list Z)).1, Data r.2)
  | SaveNow => r ← Save z; Some ((r : zip * bool).1, Bool r.2)
  | SetMode mode => Some (SetCompressionMode z mode, Nothing)
  end.
Inductive reached (z0 : zip) (l0 : archive) : zip -> archive -> Prop :=
  | reached_start : reached z0 l0 z0 l0
  | reached_step z l op z' r : reached z0 l0 z l -> legal l op -> budget z op -> do_op z op = Some (z', r) -> reached z0 l0 z' (after l op r).

Lemma view_lookup L i nm d : view L !! i = Some (nm, Stored d) <-> exists e, L !! i = Some ((e, Stored d) : member) /\ FileName e = nm.
Proof.
  unfold view. rewrite list_lookup_fmap_Some. split.
  - intros ([e it] & [= -> ->] & H). by exists e.
  - intros (e & H & <-). by exists (e, Stored d).
Qed.
Lemma shows_extract z l i nm d : shows z l -> l !! i = Some (nm, Stored d) ->
  GetFileName z i = Some nm /\ forall pData, exists f, ExtractFile crc zlib_decode z i pData = Some (set_file z f, Some d) /\ shows (set_file z f) l.
Proof.
  intros (L & HI & ->) H. apply view_lookup in H as (e & He & <-). split.
  - unfold GetFileName. rewrite (z_entries _ _ _ _ HI). apply fmap_Some. exists e. split; [|done]. apply list_lookup_fmap_Some. by exists (e, Stored d).
  - intros pData. destruct (Extract_spec crc zlib_decode z L i e d pData HI He) as (f & E & F1 & F2 & F3). exists f. split; [done|]. exists L. split; [|done].
    apply (inv_file crc zlib_decode z L f 0 0 HI); [|lia|by intros; rewrite F1]. apply Forall_forall. intros a Ha. right.
    assert (M := z_members _ _ _ _ HI). rewrite Forall_forall in M. destruct (M a Ha) as (_ & _ & A3 & A4 & _). lia.
Qed.

Lemma view_app L a : view (L ++ [a]) = view L ++ [(FileName a.1, a.2)].
Proof. apply map_app. Qed.
Lemma shows_same_items L L1 : map fst (view L) = map fst (view L1) -> map snd L = map snd L1 -> view L = view L1.
Proof.
  revert L1. induction L as [|a L IH]; intros [|b L1] H1 H2; try done. unfold view in *. cbn in *. injection H1 as H1 H3. injection H2 as H2 H4. rewrite H1, H2. f_equal. by apply IH.
Qed.
Lemma map_fst_view L : map fst (view L) = map FileName (map fst L).
Proof. unfold view. by rewrite !map_map. Qed.
Lemma added_shows z z' L name data : inv z L -> data <> [] -> added crc zlib_decode z z' L name data -> shows z' (view L ++ [(slashes name, item_of data)]).
Proof.
  intros HI Hd A. destruct (ad_inv _ _ _ _ _ _ _ A) as (L1 & e & I1 & E1). exists (L1 ++ [(e, Stored data)]). split; [done|].
  assert (N := ad_names _ _ _ _ _ _ _ A). rewrite (z_entries _ _ _ _ I1), (z_entries _ _ _ _ HI), !map_app in N. apply app_inj_2 in N as [N1 N2]; [|done]. injection N2 as N2.
  rewrite view_app. cbn [fst snd]. rewrite N2. f_equal; [|by destruct data]. apply shows_same_items; [by rewrite !map_fst_view|done].
Qed.
Lemma zero_entry_step z L name ftime attrib : inv z L -> name <> [] -> 0 <= attrib < 2 ^ 32 -> (zlen name <= 0xffff -> zlen (slash_added name attrib) <= 0xffff) ->
  exists z' b, AddZeroSizedEntry dos z name ftime attrib = Some (z', b) /\ shows z' (if b : bool then view L ++ [(slash_added name attrib, Empty)] else view L).
Proof.
  intros HI Hn Ha Hl.
  destruct (Z.lt_ge_cases 0xffff (zlen name)) as [Ln|Ln].
  { unfold AddZeroSizedEntry. rewrite (proj2 (Z.ltb_lt 0xffff _)) by lia. exists z, false. split; [done|]. by exists L. }
  destruct (Z.le_gt_cases 0xffff (zlen (m_FileEntries z))) as [Lc|Lc].
  { unfold AddZeroSizedEntry. rewrite (proj2 (Z.ltb_ge 0xffff _)), (proj2 (Z.leb_le 0xffff _)) by lia. exists z, false. split; [done|]. by exists L. }
  destruct (AddZeroSized_spec crc zlib_decode dos dos_range z L name ftime attrib HI Hn (Hl Ln) Lc Ha) as (e & E & I2 & N). eexists _, true. split; [exact E|].
  exists (L ++ [(e, Empty)]). split; [done|]. rewrite view_app. cbn [fst snd]. by rewrite N.
Qed.
Lemma op_step z l op : shows z l -> legal l op -> budget z op -> exists z' r, do_op z op = Some (z', r) /\ shows z' (after l op r) /\ answers l op r.
Proof.
  intros (L & HI & ->) Hl Hb. destruct op as [name data ftime|name ftime attrib|i|i pData| |mode]; cbn [do_op legal budget answers] in *.
  - destruct (decide (data = [])) as [->|Hd].
    + unfold AddFile. change (zlen (@nil Z) =? 0) with true. cbn iota. assert (Es : zlen (slash_added name FILE_ATTRIBUTE_ARCHIVE) = zlen name /\ slash_added name FILE_ATTRIBUTE_ARCHIVE = slashes name).
      { unfold slash_added. change (FILE_ATTRIBUTE_ARCHIVE =? FILE_ATTRIBUTE_DIRECTORY) with false. destruct (last name); rewrite ?andb_false_r; cbn iota; by rewrite app_nil_r, slashes_length. }
      destruct (zero_entry_step z L name ftime FILE_ATTRIBUTE_ARCHIVE HI Hl) as (z' & b & -> & S); [unfold FILE_ATTRIBUTE_ARCHIVE; lia|rewrite (proj1 Es); lia|].
      exists z', (Bool b). split; [done|]. split; [|by exists b]. rewrite (proj2 Es) in S. by destruct b.
    + assert (0 < zlen data) by (destruct data; [done|cbn [length]; lia]).
      destruct (AddFile_spec crc zlib_encode zlib_decode dos crc_range dos_range zlib_law z L name data ftime HI) as (z' & ok & -> & A1 & A2 & _); [assert (S := z_start _ _ _ _ HI); lia|lia|].
      exists z', (Bool ok). split; [done|]. split; [|by exists ok]. destruct ok; [by apply (added_shows z z' L name data HI Hd), A2|exists L; split; [by apply A1|done]].
  - destruct Hl as (H1 & H2 & H3). destruct (zero_entry_step z L name ftime attrib HI H1 H2 H3) as (z' & b & -> & S). exists z', (Bool b). split; [done|]. split; [by destruct b|by exists b].
  - destruct Hl as (nm & d & Hi). apply view_lookup in Hi as (e & He & <-). destruct (RemoveFile_spec crc zlib_decode z L i e d HI He) as (h & -> & I2 & N). cbn [mbind option_bind].
    eexists _, Nothing. split; [reflexivity|]. split; [|done]. eexists. split; [exact I2|]. cbn [after]. rewrite (proj2 (view_lookup L i (FileName e) d)) by (by exists e).
    unfold view. rewrite list_fmap_insert. cbn [fst snd]. by rewrite N.
  - destruct Hl as (nm & d & Hi). destruct (shows_extract z (view L) i nm d ltac:(by exists L) Hi) as (_ & H). destruct (H pData) as (f & -> & S). cbn [mbind option_bind].
    eexists _, _. split; [reflexivity|]. split; [exact S|]. by exists nm, d.
  - destruct (Save_spec crc zlib_decode z L HI Hb) as (f & m & ok & E & I2 & _). rewrite E. eexists _, _. split; [reflexivity|]. split; [by exists L|by exists ok].
  - eexists _, _. split; [reflexivity|]. split; [|done]. exists L. split; [|done]. destruct HI as [H1 Hz H2 H3 H4 H5 H6 H7]. by split.
Qed.

(** ** Saved and opened again *)

Fixpoint AddFiles (z : zip) (fs : list (list Z * list Z)) (ftime : Z) : option zip :=
  match fs with
  | [] => Some z
  | (name, data) :: fs => match AddFile crc zlib_encode dos z name data ftime with Some (z, true) => AddFiles z fs ftime | _ => None end
  end.
Definition stored_files (fs : list (list Z * list Z)) : archive := map (fun nd => (slashes nd.1, Stored nd.2)) fs.
(** The bytes of the files, and of their entries in the directory. *)
Definition data_cost (fs : list (list Z * list Z)) : Z := fold_right (fun nd s => 30 + zlen nd.1 + zlen nd.2 + s) 0 fs.
Definition dir_cost (fs : list (list Z * list Z)) : Z := fold_right (fun nd s => 46 + zlen nd.1 + s) 0 fs.
Definition file_ok (nd : list Z * list Z) : Prop := nd.1 <> [] /\ zlen nd.1 <= 0xffff /\ nd.2 <> [].

Lemma costs_pos fs : 0 <= data_cost fs /\ 0 <= dir_cost fs.
Proof. induction fs as [|nd fs IH]; [done|]. cbn [data_cost dir_cost fold_right]. fold (data_cost fs) (dir_cost fs). lia. Qed.
Lemma AddFiles_spec fs ftime : forall z l, shows z l -> len (_pZipFile z) <= m_CentralDirectoryStart z -> zlen l + zlen fs <= 0xffff ->
  m_CentralDirectoryStart z + data_cost fs < 2 ^ 31 -> m_CentralDirectoryStart z + data_cost fs <= room (_pZipFile z) -> Forall file_ok fs ->
  exists z', AddFiles z fs ftime = Some z' /\ shows z' (l ++ stored_files fs) /\ len (_pZipFile z') <= m_CentralDirectoryStart z' <= m_CentralDirectoryStart z + data_cost fs /\
    room (_pZipFile z') = room (_pZipFile z) /\ zlen (dir_bytes (m_FileEntries z')) = zlen (dir_bytes (m_FileEntries z)) + dir_cost fs /\
    (m_CentralDirectoryModified z = true \/ fs <> [] -> m_CentralDirectoryModified z' = true).
Proof.
  induction fs as [|[name data] fs IH]; intros z l Hz Hlen Hc Hb Hr Hok; cbn [AddFiles stored_files data_cost dir_cost map fold_right fst snd length] in *.
  - exists z. rewrite app_nil_r, Z.add_0_r. split; [done|]. split; [done|]. split; [lia|]. split; [done|]. split; [lia|]. intros [H|H]; done.
  - fold (data_cost fs) (dir_cost fs) (stored_files fs) in *. apply Forall_cons in Hok as [(Hn & Hn2 & Hd) Hok]. cbn [fst snd] in *.
    assert (0 < zlen data) by (destruct data; [done|cbn [length]; lia]). destruct (costs_pos fs) as [Pd _].
    destruct Hz as (L & HI & ->). assert (S := z_start _ _ _ _ HI). assert (Le : length (m_FileEntries z) = length (view L)) by (rewrite (z_entries _ _ _ _ HI); unfold view; by rewrite !length_map).
    destruct (AddFile_spec crc zlib_encode zlib_decode dos crc_range dos_range zlib_law z L name data ftime HI) as (z1 & ok & E & _ & A2 & A3); [lia|lia|].
    rewrite (A3 Hn2 ltac:(lia) ltac:(lia)) in *. rewrite E. specialize (A2 eq_refl). assert (S1 := ad_start _ _ _ _ _ _ _ A2). assert (S2 := ad_len _ _ _ _ _ _ _ A2).
    assert (Sh := added_shows z z1 L name data HI Hd A2). replace (item_of data) with (Stored data) in Sh by (by destruct data).
    destruct (IH z1 _ Sh) as (z' & E' & Sh' & B1 & B2 & B3 & B4); [lia|rewrite length_app; cbn [length]; lia|lia|rewrite (ad_room _ _ _ _ _ _ _ A2); lia|done|].
    exists z'. split; [done|]. split; [by rewrite <- app_assoc in Sh'|]. split; [lia|]. split; [by rewrite B2, (ad_room _ _ _ _ _ _ _ A2)|]. split; [rewrite B3, (ad_dir _ _ _ _ _ _ _ A2); lia|].
    intros _. apply B4. left. apply (ad_modified _ _ _ _ _ _ _ A2).
Qed.

Lemma alive_stored z L fs : inv z L -> view L = stored_files fs -> alive L = L.
Proof.
  intros HI V. assert (M := z_members _ _ _ _ HI). clear HI. assert (Hl : Forall (fun a : member => live a.1) L).
  { rewrite Forall_forall in *. intros [e it] Ha. destruct (M _ Ha) as (_ & _ & _ & _ & _ & X). cbn [fst snd] in *.
    assert (Hv : (FileName e, it) ∈ stored_files fs) by (rewrite <- V; unfold view; apply list_elem_of_fmap; by exists (e, it)).
    apply list_elem_of_fmap in Hv as (nd & [= _ ->] & _). destruct X as [X _]. unfold live. by rewrite X. }
  clear M V. unfold alive. induction Hl as [|a L Ha _ IH]; [done|]. rewrite filter_cons, decide_True by done. f_equal. exact IH.
Qed.
Lemma inv_new room mode : mode = 0 \/ mode = 8 -> inv (SetCompressionMode (mkZip (created room) [] 0 false false [] ZIP_STORE None) mode) [].
Proof. intros Hm. split; cbn; try done; try lia. Qed.
Lemma shows_new room mode : mode = 0 \/ mode = 8 -> shows (SetCompressionMode (mkZip (created room) [] 0 false false [] ZIP_STORE None) mode) [].
Proof. intros Hm. exists []. split; [by apply inv_new|done]. Qed.

Lemma NoDup_map_inj {A B} (f : A -> B) l x y : NoDup (map f l) -> x ∈ l -> y ∈ l -> f x = f y -> x = y.
Proof.
  intros H [i Hi]%list_elem_of_lookup [j Hj]%list_elem_of_lookup E. assert (i = j) as ->; [|congruence].
  apply (NoDup_lookup _ i j (f x) H); apply list_lookup_fmap_Some; [by exists x|by exists y; split].
Qed.
(** The files of an archive are found and read, and other names are not found. *)
Lemma found_stored z L fs : inv z L -> view L ≡ₚ stored_files fs -> NoDup (map (fun nd => slashes nd.1) fs) -> (m_ListSorted z = true -> in_order (m_FileEntries z)) ->
  (forall name data, (name, data) ∈ fs -> exists i, FindFile z (slashes name) = Z.of_nat i /\ GetFileName z i = Some (slashes name) /\
     forall pData, exists z3, ExtractFile crc zlib_decode z i pData = Some (z3, Some data)) /\
  (forall nm, nm ∉ map (fun nd => slashes nd.1) fs -> FindFile z nm = -1).
Proof.
  intros HI P Hnd Ho.
  assert (In_view : forall i e, m_FileEntries z !! i = Some e -> exists nd, nd ∈ fs /\ FileName e = slashes nd.1 /\ Signature e <> 0 /\ L !! i = Some ((e, Stored nd.2) : member)).
  { intros i e He. rewrite (z_entries _ _ _ _ HI) in He. apply list_lookup_fmap_Some in He as ([e' it] & -> & He). cbn [fst].
    assert (Hv : (FileName e', it) ∈ view L) by (unfold view; apply list_elem_of_fmap; exists (e', it); split; [done|by eapply list_elem_of_lookup_2]).
    rewrite P in Hv. apply list_elem_of_fmap in Hv as (nd & [= Y ->] & Hin). exists nd. split; [done|]. split; [done|]. split; [|done].
    assert (M := Forall_lookup_1 _ _ _ _ (z_members _ _ _ _ HI) He). destruct M as (_ & _ & _ & _ & _ & X & _). cbn [fst snd] in X. by rewrite X. }
  assert (Sg : Forall (fun e => Signature e <> 0) (m_FileEntries z)) by (apply Forall_lookup; intros i e He; by destruct (In_view i e He) as (nd & _ & _ & X & _)).
  assert (Lc : zlen (m_FileEntries z) < 2 ^ 63).
  { rewrite (z_entries _ _ _ _ HI), length_map. assert (X := z_count _ _ _ _ HI). eapply Z.le_lt_trans; [exact X|lia]. }
  split.
  - intros name data Hin. destruct (FindFile_spec z (slashes name) Ho Sg Lc) as [[_ F]|(i & e & F & He & Hn)].
    + exfalso. assert (Hv : (slashes name, Stored data) ∈ view L) by (rewrite P; apply list_elem_of_fmap; by exists (name, data)).
      apply list_elem_of_fmap in Hv as ([e it] & [= Y _] & Hv). rewrite Forall_forall in F. apply (F e); [|done]. rewrite (z_entries _ _ _ _ HI). apply list_elem_of_fmap. by exists (e, it).
    + exists i. split; [done|]. destruct (In_view i e He) as (nd & Hin2 & Y & _ & Hj).
      assert (E : nd = (name, data)) by (apply (NoDup_map_inj (fun nd => slashes nd.1) fs); [done..|cbn [fst]; congruence]). subst nd. cbn [fst snd] in *.
      destruct (shows_extract z (view L) i (slashes name) data) as [G X]; [by exists L|by apply view_lookup; exists e|]. split; [done|].
      intros pData. destruct (X pData) as (f & Ef & _). by eexists.
  - intros nm Hnm. destruct (FindFile_spec z nm Ho Sg Lc) as [[F _]|(i & e & _ & He & <-)]; [done|]. destruct (In_view i e He) as (nd & Hin & Y & _). exfalso. apply Hnm. rewrite Y.
    apply list_elem_of_fmap. by exists nd.
Qed.
(** C10: files added to a new archive of either kind, one after another, are in the
    archive that [Close] leaves and [Open] reads, and nothing else is: [FindFile]
    finds each under its name with slashes, indexed or not, [ExtractFile] gives its
    data, and every other name is not found. *)
Theorem zip_roundtrip mode room_ fs ftime idx : mode = 0 \/ mode = 8 -> Forall file_ok fs -> fs <> [] -> NoDup (map (fun nd => slashes nd.1) fs) -> zlen fs <= 0xffff ->
  data_cost fs + dir_cost fs + 22 < 2 ^ 31 -> data_cost fs + dir_cost fs + 22 <= room_ ->
  (forall es, sort es ≡ₚ es) -> (forall es, in_order (sort es)) ->
  exists z0 z1 zc z2, Open sort (created room_) true idx = Some z0 /\ AddFiles (SetCompressionMode z0 mode) fs ftime = Some z1 /\
    Close z1 = Some zc /\ Open sort (_pZipFile zc) false idx = Some z2 /\
    (forall name data, (name, data) ∈ fs -> exists i, FindFile z2 (slashes name) = Z.of_nat i /\ GetFileName z2 i = Some (slashes name) /\
       forall pData, exists z3, ExtractFile crc zlib_decode z2 i pData = Some (z3, Some data)) /\
    (forall nm, nm ∉ map (fun nd => slashes nd.1) fs -> FindFile z2 nm = -1).
Proof.
  intros Hm Hok Hne Hnd Hc Hb Hr Hp Ho. set (z0 := mkZip (created room_) [] 0 false false [] ZIP_STORE None).
  destruct (costs_pos fs) as [C1 C2].
  destruct (AddFiles_spec fs ftime (SetCompressionMode z0 mode) [] (shows_new room_ mode Hm)) as (z1 & E1 & (L1 & I1 & V1) & B1 & B2 & B3 & B4); [cbn; lia..|done|]. cbn [app] in V1. symmetry in V1.
  cbn [SetCompressionMode z0 m_CentralDirectoryStart _pZipFile created room len m_FileEntries] in B1, B2, B3. change (zlen (dir_bytes [])) with 0 in B3.
  assert (De : dir_end z1 <= data_cost fs + dir_cost fs + 22) by (unfold dir_end; lia).
  destruct (Save_spec crc zlib_decode z1 L1 I1) as (f & m & ok & Es & I2 & F1 & F2 & F3 & F4); [lia|]. specialize (F4 (B4 (or_intror Hne)) ltac:(lia)). subst ok.
  destruct (F3 eq_refl) as [F5 F6]. assert (Al := alive_stored z1 L1 fs I1 V1).
  assert (I3 : inv (resaved z1 f false) L1) by (destruct I2 as [H1 Hz H2 H3 H4 H5 H6 H7]; by split).
  assert (Hl : len f = dir_end z1) by (unfold dir_end in *; assert (0 <= zlen (dir_bytes (m_FileEntries z1))) by lia; lia).
  assert (Hl1 : L1 <> []) by (intros ->; by destruct fs).
  destruct (Open_spec crc zlib_decode sort z1 L1 f idx I3) as (z2 & L2 & E2 & I4 & P & So & _ & _ & _ & Oi); [lia|done|done|by rewrite Al| |done|].
  { rewrite Al. apply Forall_forall. intros a Ha X. assert (Hv : (FileName a.1, a.2) ∈ stored_files fs) by (rewrite <- V1; unfold view; apply list_elem_of_fmap; by exists a).
    apply list_elem_of_fmap in Hv as ([n d] & [= Y _] & Hin). rewrite Forall_forall in Hok. destruct (Hok _ Hin) as (Hn & _). apply Hn. cbn [fst] in *. rewrite X in Y. by destruct n. }
  rewrite Al in P. assert (PV : view L2 ≡ₚ stored_files fs) by (rewrite <- V1; unfold view; by rewrite P).
  assert (N2 : map FileName (m_FileEntries z2) ≡ₚ map (fun nd => slashes nd.1) fs).
  { rewrite (z_entries _ _ _ _ I4), <- map_fst_view. unfold stored_files in PV. rewrite PV, map_map. done. }
  eexists z0, z1, _, z2. split; [done|]. split; [done|]. split; [unfold Close; rewrite Es; reflexivity|]. split; [exact E2|].
  apply (found_stored z2 L2 fs I4 PV Hnd). rewrite So. intros ->. destruct (Oi eq_refl) as [es ->]. apply Ho.
Qed.

(** C11: whatever is done to an archive that stays below 2 GB ([budget]), files and
    empty entries of some name added, files that have data removed and extracted (not
    empty ones and directories, which [RemoveFile] breaks the archive with,
    [false_hole]), the mode set and the directory saved, in any order, on a disk that
    may fill up at any point and says so at each write: every operation has a result,
    every file that was added and not removed is there under its name, and
    [ExtractFile] gives exactly its data. *)
Theorem archive_kept z0 l0 z l : shows z0 l0 -> reached z0 l0 z l ->
  shows z l /\
  (forall i nm d, l !! i = Some (nm, Stored d) -> GetFileName z i = Some nm /\
     forall pData, exists z', ExtractFile crc zlib_decode z i pData = Some (z', Some d)) /\
  (forall op, legal l op -> budget z op -> exists z' r, do_op z op = Some (z', r) /\ answers l op r /\ shows z' (after l op r)).
Proof.
  intros H0 R. assert (S : shows z l).
  { induction R as [|z l op z' r _ IH Hl Hb E]; [done|]. destruct (op_step z l op IH Hl Hb) as (z2 & r2 & E2 & S & _). congruence. }
  split; [done|]. split.
  - intros i nm d Hi. destruct (shows_extract z l i nm d S Hi) as [G X]. split; [done|]. intros pData. destruct (X pData) as (f & E & _). by eexists.
  - intros op Hl Hb. destruct (op_step z l op S Hl Hb) as (z' & r & E & S' & A). by exists z', r.
Qed.

(** C12: an [AddFile] that fails leaves the entries, the start of the directory and
    every file of the archive as they were, whatever it wrote, and it fails only when
    the name or the number of entries is past 0xffff or the disk has no room. *)
Theorem AddFile_failed z l name data ftime z' : shows z l -> 0 < zlen data < 2 ^ 31 -> m_CentralDirectoryStart z + 30 + zlen name + zlen data < 2 ^ 31 ->
  AddFile crc zlib_encode dos z name data ftime = Some (z', false) ->
  m_FileEntries z' = m_FileEntries z /\ m_CentralDirectoryStart z' = m_CentralDirectoryStart z /\ adding z' = None /\
  (forall i nm d, l !! i = Some (nm, Stored d) -> forall pData, exists z2, ExtractFile crc zlib_decode z' i pData = Some (z2, Some d)) /\
  (0xffff < zlen name \/ 0xffff <= zlen (m_FileEntries z) \/ room (_pZipFile z) < m_CentralDirectoryStart z + 30 + zlen name + zlen data).
Proof.
  intros (L & HI & ->) Hd Hb E. destruct (AddFile_spec crc zlib_encode zlib_decode dos crc_range dos_range zlib_law z L name data ftime HI Hd Hb) as (z2 & ok & E2 & A1 & _ & A3).
  rewrite E in E2. injection E2 as <- <-. destruct (A1 eq_refl) as [I2 [f ->]]. do 2 (split; [done|]). split; [apply (z_idle _ _ _ _ I2)|]. split.
  - intros i nm d Hi pData. destruct (shows_extract (set_file z f) (view L) i nm d ltac:(by exists L) Hi) as [_ X]. destruct (X pData) as (g & Eg & _). by eexists.
  - destruct (Z.lt_ge_cases 0xffff (zlen name)) as [|H1]; [by left|right]. destruct (Z.le_gt_cases 0xffff (zlen (m_FileEntries z))) as [|H2]; [by left|right].
    apply Z.nle_gt. intros H3. by specialize (A3 H1 H2 H3).
Qed.
End Archive.

(** ** Examples *)

(** A checksum, a codec that shortens a run of one byte, a date and a sort. *)
Definition sum31 (d : list Z) : Z := fold_left (fun s x => u32 (31 * s + x)) d 7.
Definition encode_run (d : list Z) : option (list Z) :=
  match d with c :: _ => if bool_decide (d = replicate (length d) c) then Some [c] else None | [] => None end.
Definition decode_run (s : list Z) (n : Z) : option (list Z) := match s with [c] => Some (replicate (Z.to_nat n) c) | _ => None end.
Definition some_date (t : Z) : Z * Z := (33, 0).
Definition name_le (a b : FileEntry) : Prop := name_lt (FileName b) (FileName a) = false.
#[global] Instance name_le_dec : RelDecision name_le.
Proof. intros a b. unfold name_le. apply _. Defined.
#[global] Instance name_le_total : Total name_le.
Proof. intros a b. unfold name_le. destruct (name_lt (FileName b) (FileName a)) eqn:E; [right|by left]. destruct (name_lt (FileName a) (FileName b)) eqn:F; [|done]. assert (H := name_lt_trans _ _ _ E F). by rewrite name_lt_irrefl in H. Qed.
#[global] Instance name_le_trans : Transitive name_le.
Proof. intros a b c H1 H2. unfold name_le in *. destruct (name_lt (FileName c) (FileName a)) eqn:E; [|done]. assert (H := name_lt_le _ _ _ E H1). by rewrite H in H2. Qed.
Definition sorted_names (es : list FileEntry) : list FileEntry := merge_sort name_le es.

Lemma sum31_range d : 0 <= sum31 d < 2 ^ 32.
Proof. unfold sum31. assert (H : 0 <= 7 < 2 ^ 32) by lia. revert H. generalize 7. induction d as [|x d IH]; intros s Hs; [done|]. cbn. apply IH, u32_range. Qed.
Lemma some_date_range t : 0 <= (some_date t).1 < 2 ^ 16 /\ 0 <= (some_date t).2 < 2 ^ 16.
Proof. cbn. lia. Qed.
Lemma encode_run_law d s : encode_run d = Some s -> s <> [] /\ decode_run s (zlen d) = Some d.
Proof.
  destruct d as [|c d]; [done|]. unfold encode_run. case_bool_decide as H; [|done]. intros [= <-]. split; [done|]. cbn [decode_run]. rewrite Nat2Z.id. by rewrite <- H.
Qed.
Lemma sorted_names_order es : in_order (sorted_names es).
Proof. apply (StronglySorted_merge_sort name_le es). Qed.
Lemma sorted_names_perm es : sorted_names es ≡ₚ es.
Proof. apply merge_sort_Permutation. Qed.

Definition new_zip (room : Z) : zip := mkZip (created room) [] 0 false false [] ZIP_STORE None.
Abbreviation add := (AddFile sum31 encode_run some_date).
Abbreviation extract := (ExtractFile sum31 decode_run).
Lemma new_shows room : shows sum31 decode_run (new_zip room) [].
Proof. exact (shows_new sum31 decode_run room 0 (or_introl eq_refl)). Qed.

Lemma zip_roundtrip_witness : let fs := [(str "a\b", str "aaaa"); (str "c", str "xyz"); (str "B", str "q")] in
  exists z0 z1 zc z2, Open sorted_names (created 1000) true true = Some z0 /\ AddFiles sum31 encode_run some_date (SetCompressionMode z0 8) fs 0 = Some z1 /\
    Close z1 = Some zc /\ Open sorted_names (_pZipFile zc) false true = Some z2 /\
    (forall name data, (name, data) ∈ fs -> exists i, FindFile z2 (slashes name) = Z.of_nat i /\ GetFileName z2 i = Some (slashes name) /\
       forall pData, exists z3, extract z2 i pData = Some (z3, Some data)) /\
    (forall nm, nm ∉ map (fun nd => slashes nd.1) fs -> FindFile z2 nm = -1).
Proof.
  apply (zip_roundtrip sum31 encode_run decode_run some_date sorted_names sum31_range some_date_range encode_run_law 8 1000); try done.
  - by right.
  - repeat constructor; done.
  - vm_compute. apply (bool_decide_unpack _). vm_compute. exact I.
  - apply sorted_names_perm.
  - apply sorted_names_order.
Defined.

Lemma archive_kept_witness : let z0 := new_zip 1000 in exists z, reached sum31 encode_run decode_run some_date z0 [] z [(str "a", Stored (str "xyz"))] /\
  shows sum31 decode_run z [(str "a", Stored (str "xyz"))] /\
  (forall i nm d, [(str "a", Stored (str "xyz"))] !! i = Some (nm, Stored d) -> GetFileName z i = Some nm /\
     forall pData, exists z', extract z i pData = Some (z', Some d)) /\
  (forall op, legal [(str "a", Stored (str "xyz"))] op -> budget z op -> exists z' r, do_op sum31 encode_run decode_run some_date z op = Some (z', r) /\
     answers [(str "a", Stored (str "xyz"))] op r /\ shows sum31 decode_run z' (after [(str "a", Stored (str "xyz"))] op r)).
Proof.
  intros z0. assert (R : exists z, reached sum31 encode_run decode_run some_date z0 [] z [(str "a", Stored (str "xyz"))]).
  { set (op := Add (str "a") (str "xyz") 0). assert (H : snd <$> do_op sum31 encode_run decode_run some_date z0 op = Some (Bool true)) by (vm_compute; done).
    destruct (do_op sum31 encode_run decode_run some_date z0 op) as [[z r]|] eqn:E; [|done]. injection H as ->. exists z.
    apply (reached_step sum31 encode_run decode_run some_date z0 [] z0 [] op z (Bool true)); [apply reached_start|done|vm_compute; done|exact E]. }
  destruct R as [z R]. exists z. split; [exact R|].
  apply (archive_kept sum31 encode_run decode_run some_date sum31_range some_date_range encode_run_law z0 [] z); [apply new_shows|exact R].
Defined.

Lemma AddFile_failed_witness : let z := new_zip 33 in exists z', add z (str "a") (str "xyz") 0 = Some (z', false) /\
  m_FileEntries z' = m_FileEntries z /\ m_CentralDirectoryStart z' = m_CentralDirectoryStart z /\ adding z' = None /\
  (forall i nm d, (@nil (list Z * item)) !! i = Some (nm, Stored d) -> forall pData, exists z2, extract z' i pData = Some (z2, Some d)) /\
  (0xffff < zlen (str "a") \/ 0xffff <= zlen (m_FileEntries z) \/ room (_pZipFile z) < m_CentralDirectoryStart z + 30 + zlen (str "a") + zlen (str "xyz")).
Proof.
  intros z.
  assert (H : snd <$> add (new_zip 33) (str "a") (str "xyz") 0 = Some false) by (vm_compute; done).
  destruct (add (new_zip 33) (str "a") (str "xyz") 0) as [[z' ok]|] eqn:E; [|done]. injection H as ->. exists z'. split; [done|].
  apply (AddFile_failed sum31 encode_run decode_run some_date sum31_range some_date_range encode_run_law z [] (str "a") (str "xyz") 0); [apply new_shows|cbn; lia|cbn; lia|exact E].
Defined.

Lemma stream_once_witness : AddFile_streamed sum31 some_date (new_zip 1000) (str "a") (str "xyz") 0 = add (new_zip 1000) (str "a") (str "xyz") 0.
Proof.
  apply (stream_once sum31 encode_run decode_run some_date (new_zip 1000) []); [exact (inv_new sum31 decode_run 1000 0 (or_introl eq_refl))|done|cbn; lia|cbn; lia].
Defined.

(** *** What clients may not do *)

Definition then_ (z : option (zip * bool)) (k : zip -> option (zip * bool)) : option (zip * bool) := match z with Some (z, true) => k z | _ => None end.
Definition data_of (z : option zip) (i : nat) : option (list Z) := z ← z; r ← extract z i []; (r : zip * option (list Z)).2.

(** A removed empty entry leaves a hole at the beginning of the file, where the next
    file that fits in it is written over another. *)
Lemma false_hole :
  let z := then_ (add (new_zip 1000) (str "a") (str "first") 0) (fun z => AddZeroSizedEntry some_date z (str "directory") 0 FILE_ATTRIBUTE_DIRECTORY) in
  let z' := z ← z; z ← RemoveFile z.1 1; add z (str "b") (str "2nd") 0 in
  data_of (fst <$> z) 0 = Some (str "first") /\ snd <$> z' = Some true /\ data_of (fst <$> z') 0 = None.
Proof. vm_compute. done. Qed.
(** The directory of an archive that became shorter has the end of the old one
    behind it, and [Open] reads that. *)
Lemma stale_directory :
  let z := then_ (then_ (add (new_zip 1000) (str "a") (str "first") 0) (fun z => add z (str "b") (str "second") 0)) Save in
  let z' := z ← z; z ← RemoveFile z.1 0; z ← RemoveFile z 1; z ← add z (str "c") (str "3rd") 0; Save z.1 in
  snd <$> z' = Some true /\ (z' ≫= fun z => Open sorted_names (_pZipFile z.1) false true) = None.
Proof. vm_compute. done. Qed.
(** A removal alone is not saved. *)
Lemma removal_not_saved :
  let z := then_ (add (new_zip 1000) (str "a") (str "first") 0) Save in
  let z' := z ← z; z ← RemoveFile z.1 0; Save z in
  snd <$> z' = Some false /\ (z' ≫= fun z => z ← Open sorted_names (_pZipFile z.1) false true; Some (FindFile z (str "a"))) = Some 0.
Proof. vm_compute. done. Qed.
(** An archive of no files is written and not read. *)
Lemma empty_archive :
  let z := then_ (AddZeroSizedEntry some_date (new_zip 1000) (str "a") 0 FILE_ATTRIBUTE_ARCHIVE) (fun z => z ← RemoveFile z 0; Save z) in
  snd <$> z = Some true /\ (z ≫= fun z => Open sorted_names (_pZipFile z.1) false true) = None.
Proof. vm_compute. done. Qed.
(** Of two pieces written to a stream only the last is in the checksum, and a file
    shorter than it was announced has the announced size: neither is extracted. *)
Lemma stream_pieces :
  let open_ := AddFile_stream some_date (new_zip 1000) (str "a") 5 0 in
  let two := z ← open_; s ← z.2; w ← compress_store_Write sum31 z.1 s (str "fi"); w ← compress_store_Write sum31 w.1.1 w.1.2 (str "rst"); compress_stream_Finalize w.1.1 w.1.2 true in
  let short := z ← open_; s ← z.2; w ← compress_store_Write sum31 z.1 s (str "fir"); compress_stream_Finalize w.1.1 w.1.2 true in
  snd <$> two = Some true /\ data_of (fst <$> two) 0 = None /\ snd <$> short = Some true /\ data_of (fst <$> short) 0 = None.
Proof. vm_compute. done. Qed.
(** Where the local header cannot be read, [ExtractFile] accepts what the caller's
    memory held. *)
Lemma stale_buffer :
  let z := fst <$> add (new_zip 1000) (str "a") (str "first") 0 in
  let broken := z ← z; r ← disk_Seek (_pZipFile z) 0 Seek_Begin; Some (set_file z (Write r.1 [0]).1) in
  (z ← broken; r ← extract z 0 (str "first"); (r : zip * option (list Z)).2) = Some (str "first") /\ data_of broken 0 = None.
Proof. vm_compute. done. Qed.
(** A file that is removed is still found in the list that is not indexed, and hides
    one of its name that was added again from the indexed. *)
Lemma removed_found :
  let z := z ← add (new_zip 1000) (str "a") (str "first") 0; z ← RemoveFile z.1 0; add z (str "a") (str "longer than the first was, and its name") 0 in
  (z ← z; Some (FindFile z.1 (str "a"))) = Some 0 /\ (z ← z; Some (FindFile (ReindexAllEntries sorted_names z.1) (str "a"))) = Some (-1).
Proof. vm_compute. done. Qed.
