(* ===== verification/Macro.v ===== *)
(** The macros of os/precompiler.h and os/precompiler.cpp: the predefined ones and
    the table, the search for the next token and the substitution in a line. *)
From stdpp Require Import gmap.
From S2P Require Import Prelude Str StrScan.

Abbreviation zlen l := (Z.of_nat (length l)).
Abbreviation name := (list Z).

(** ** The tables *)

(** [PrecompilerPredefinedMacros] *)
Definition predefined : Type := gmap name (list Z).
Definition Set_ (d : predefined) (macro : name) (value : list Z) : predefined := <[macro:=value]> d.
Definition Unset (d : predefined) (macro : name) : predefined := base.delete macro d.
Definition IsDefined (d : predefined) (macro : name) : bool := bool_decide (is_Some (d !! macro)).
Definition Get (d : predefined) (macro : name) : option (list Z) := d !! macro.
Definition Merge (d x : predefined) : predefined := x ∪ d.
(** [ImportCmdLineOptions] of the options, each with its value. *)
Definition ImportCmdLineOptions (d : predefined) (options : list (name * list Z)) : predefined :=
  fold_left (fun d o => match o.1 with [] => d | _ => Set_ d o.1 o.2 end) options d.

(** [_macro]: -1 arguments for a macro that is no function, -2 for one that is
    new.  The arguments of a function are numbered behind the byte 1 in its value. *)
Record macro := mkMacro { ArgmentCount : Z; Value : list Z }.
Definition new_macro : macro := mkMacro (-2) [].
Record precompiler := mkPre {
  _MacroPrefix : list Z; _MacroSuffix : list Z; _MacroConnectOp : list Z;
  _pPredefined : option predefined; _Macros : gmap name macro; _ErrorCount : Z; _WarningCount : Z }.

Definition Precompiler_new (macro_prefix macro_suffix macro_connect : list Z) : precompiler := mkPre macro_prefix macro_suffix macro_connect None ∅ 0 0.
Definition SetEnvVars (P : precompiler) (pv : option predefined) : precompiler :=
  mkPre (_MacroPrefix P) (_MacroSuffix P) (_MacroConnectOp P) pv (_Macros P) (_ErrorCount P) (_WarningCount P).
Definition set_macros (P : precompiler) (t : gmap name macro) : precompiler :=
  mkPre (_MacroPrefix P) (_MacroSuffix P) (_MacroConnectOp P) (_pPredefined P) t (_ErrorCount P) (_WarningCount P).
Definition PrintError (P : precompiler) : precompiler :=
  mkPre (_MacroPrefix P) (_MacroSuffix P) (_MacroConnectOp P) (_pPredefined P) (_Macros P) (u32 (_ErrorCount P + 1)) (_WarningCount P).
Definition PrintWarning (P : precompiler) : precompiler :=
  mkPre (_MacroPrefix P) (_MacroSuffix P) (_MacroConnectOp P) (_pPredefined P) (_Macros P) (_ErrorCount P) (u32 (_WarningCount P + 1)).
Definition is_predefined (P : precompiler) (macro : name) : bool :=
  match _pPredefined P with Some d => IsDefined d macro | None => false end.
Definition IsMacroDefined (P : precompiler) (macro : name) : bool := is_predefined P macro || bool_decide (is_Some (_Macros P !! macro)).
Definition GetMacroDefinition (P : precompiler) (macro : name) : list Z := match _Macros P !! macro with Some x => Value x | None => [] end.
Definition ClearMacros (P : precompiler) : precompiler := set_macros P ∅.

Definition _DefineMacro (P : precompiler) (macro : name) (value : list Z) : precompiler * bool :=
  if is_predefined P macro then (PrintError P, false)
  else
    let x := default new_macro (_Macros P !! macro) in
    if 0 <=? ArgmentCount x then (PrintError P, false)
    else if (ArgmentCount x =? -1) && negb (bool_decide (Value x = value)) then (PrintError P, false)
    else (set_macros P (<[macro:=mkMacro (-1) value]> (_Macros P)), true).
Definition _UndefineMacro (P : precompiler) (key : name) : precompiler * bool :=
  if is_predefined P key then (PrintError P, false)
  else match _Macros P !! key with
       | Some _ => (set_macros P (base.delete key (_Macros P)), true)
       | None => (PrintWarning P, false)
       end.

Definition alphabet : list Z := str "abcdefghijklmnopqrstuvwxyzABCDEFGHIJKLMNOPQRSTUVWXYZ".
Definition CharacterSet_Alphabet : cset := CharacterSet (alphabet ++ str "_").
Definition CharacterSet_Symbol : cset := CharacterSet (str "0123456789" ++ alphabet ++ str "_").

(** The value with each argument that is a token of it numbered; only the first of
    equal names counts, and only the first argument is not trimmed. *)
Fixpoint index_of (i : Z) (t : list Z) (fs : list (list Z)) : option Z :=
  match fs with [] => None | f :: fs => if bool_decide (t = f) then Some i else index_of (i + 1) t fs end.
Fixpoint number_arguments (fuel : nat) (m : mem) (value token non_token : ref) (fs : list (list Z)) (out : list Z) : option (list Z) :=
  match fuel with
  | O => None
  | S f =>
    match GetNextToken2 m value token non_token CharacterSet_Symbol with
    | None => Some out
    | Some (token, non_token) =>
      let t := text m token in
      let t := match index_of 0 t fs with Some i => [1; u8 i] | None => t end in
      number_arguments f m value token non_token fs (out ++ t ++ text m non_token)
    end
  end.
Definition _DefineMacroFunction (P : precompiler) (m : mem) (macro value arg : ref) : option (precompiler * bool) :=
  let name := text m macro in
  if is_predefined P name then Some (PrintError P, false)
  else if bool_decide (is_Some (_Macros P !! name)) then Some (PrintError P, false)
  else
    f ← Split false m arg 256 (CharacterSet [chr ","]);
    let co := zlen f in
    let names := match f with f0 :: f => text m f0 :: map (fun x => text m (TrimSpace m x)) f | [] => [] end in
    v ← (if co =? 0 then Some (text m value) else number_arguments (S (str_len value)) m value null_ref null_ref names []);
    Some (set_macros P (<[name:=mkMacro co v]> (_Macros P)), true).

(** ** The next token *)

Definition begins_with (m : mem) (p : Z) (l : list Z) : bool := bool_decide (mem_bytes m p (length l) = l).
Fixpoint seek_prefix (n : nat) (P : precompiler) (m : mem) (start : Z) : option Z :=
  if begins_with m start (_MacroPrefix P) && Has CharacterSet_Alphabet (sc m (start + zlen (_MacroPrefix P))) then Some start
  else match n with O => None | S n => seek_prefix n P m (start + 1) end.
(** With a suffix a token counts only when the suffix, or a parenthesis, is behind it. *)
Fixpoint first_token (fuel : nat) (P : precompiler) (m : mem) (content : ref) (start : Z) : option (option ref) :=
  match fuel with
  | O => None
  | S f =>
    let tail := re content in
    let found :=
      if bool_decide (_MacroPrefix P = []) then
        let start := scan (fun c => negb (Has CharacterSet_Alphabet c)) (Z.to_nat (tail - start)) m start in
        if Has CharacterSet_Alphabet (sc m start) then Some start else None
      else
        let e := tail - zlen (_MacroPrefix P) - 1 in
        if e - start <? zlen (_MacroPrefix P) then None
        else option_map (fun p => p + zlen (_MacroPrefix P)) (seek_prefix (Z.to_nat (e - start)) P m start) in
    match found with
    | None => Some None
    | Some start =>
      let token_end := scan (Has CharacterSet_Symbol) (Z.to_nat (tail - (start + 1))) m (start + 1) in
      if negb (bool_decide (_MacroSuffix P = [])) && negb (sc m token_end =? chr "(") && negb (begins_with m token_end (_MacroSuffix P))
      then first_token f P m content token_end
      else Some (Some (mkRef start token_end))
    end
  end.
Definition _GetFirstToken (P : precompiler) (m : mem) (content : ref) : option (option ref) :=
  first_token (S (str_len content)) P m content (rb content).

(** ** Substitution *)

(** A string is a block of its own, with a NUL behind it. *)
Definition string_mem (l : list Z) : mem := mem_of 0 1 l.
Definition string_ref (l : list Z) : ref := mkRef 1 (1 + zlen l).
(** A piece of text that ends before it begins has no length. *)
Definition piece (m : mem) (b e : Z) : option (list Z) := if e <? b then None else Some (text m (mkRef b e)).

Definition ends_with (l s : list Z) : bool := bool_decide (drop (length l - length s) l = s).
Definition disconnect (P : precompiler) (out : list Z) : list Z :=
  if negb (bool_decide (_MacroConnectOp P = [])) && ends_with out (_MacroConnectOp P)
  then take (length out - length (_MacroConnectOp P)) out else out.
Definition after_connect (P : precompiler) (m : mem) (p : Z) : Z :=
  if negb (bool_decide (_MacroConnectOp P = [])) && begins_with m p (_MacroConnectOp P) then p + zlen (_MacroConnectOp P) else p.

(** [while(p<content.End()) if( *p == '(')break;] *)
Fixpoint seek_parenthesis (fuel : nat) (m : mem) (p e : Z) : option Z :=
  match fuel with
  | O => None
  | S f => if p <? e then if sc m p =? chr "(" then Some p else seek_parenthesis f m p e else Some p
  end.
(** The closing parenthesis, or the end. *)
Fixpoint seek_closure (n : nat) (m : mem) (p closure : Z) : Z :=
  match n with
  | O => p
  | S n =>
    if sc m p =? chr "(" then seek_closure n m (p + 1) (closure + 1)
    else if sc m p =? chr ")" then if closure - 1 =? 0 then p else seek_closure n m (p + 1) (closure - 1)
    else seek_closure n m (p + 1) closure
  end.

(** [_SubsituteMacrosInline]: [subst] is a call, [tokens] its loop, at [last], and
    [pieces] the loop over the value of a function.  [fuel] counts the calls and
    the turns of the loops. *)
Fixpoint subst (fuel : nat) (P : precompiler) (m : mem) (content : ref) (output : list Z) : option (precompiler * list Z) :=
  match fuel with
  | O => None
  | S f => if IsEmpty content then Some (P, output) else tokens f P m content (rb content) output
  end
with tokens (fuel : nat) (P : precompiler) (m : mem) (content : ref) (last : Z) (output : list Z) : option (precompiler * list Z) :=
  match fuel with
  | O => None
  | S f =>
    t ← _GetFirstToken P m (mkRef last (re content));
    match t with
    | None => l ← piece m last (re content); Some (P, output ++ l)
    | Some token =>
      l ← piece m last (rb token - zlen (_MacroPrefix P));
      let output := output ++ l in
      let behind := re token + zlen (_MacroSuffix P) in
      let unmatched (P : precompiler) output := tokens f P m content behind (output ++ text m token) in
      let replaced v :=
        r ← subst f P (string_mem v) (string_ref v) (disconnect P output);
        tokens f (r : precompiler * list Z).1 m content (after_connect P m behind) r.2 in
      match _Macros P !! text m token with
      | Some x =>
        if (ArgmentCount x =? -1) && negb (negb (bool_decide (_MacroSuffix P = [])) && (sc m (re token) =? chr "(")) then replaced (Value x)
        else
          let output := disconnect P output in
          p ← seek_parenthesis f m (re token) (re content);
          if negb (sc m p =? chr "(") then unmatched (PrintWarning P) output
          else
            let q := seek_closure (Z.to_nat (re content - (p + 1))) m (p + 1) 1 in
            if q =? re content then unmatched (PrintWarning P) output
            else if negb (begins_with m (q + 1) (_MacroSuffix P)) then unmatched (PrintWarning P) output
            else
              arg ← Split false m (mkRef (p + 1) q) 256 (CharacterSet [chr ","]);
              if u32 (zlen arg) =? u32 (ArgmentCount x) then
                r ← pieces f P (string_mem (Value x)) 1 (1 + zlen (Value x)) m arg output;
                tokens f (r : precompiler * list Z).1 m content (after_connect P m (q + 1 + zlen (_MacroSuffix P))) r.2
              else unmatched (PrintError P) output
      | None =>
        match (d ← _pPredefined P; Get d (text m token)) with
        | Some v => replaced v
        | None => unmatched P output
        end
      end
    end
  end
with pieces (fuel : nat) (P : precompiler) (mv : mem) (p e : Z) (m : mem) (arg : list ref) (output : list Z) : option (precompiler * list Z) :=
  match fuel with
  | O => None
  | S f =>
    if p <? e then
      let q := scan (fun c => negb (c =? 1)) (Z.to_nat (e - p)) mv p in
      r ← (if p <? q then subst f P mv (mkRef p q) output else Some (P, output));
      if q =? e then Some r
      else
        r ← match arg !! Z.to_nat (u32 (sc mv (q + 1))) with Some a => subst f (r : precompiler * list Z).1 m a r.2 | None => Some r end;
        pieces f (r : precompiler * list Z).1 mv (q + 2) e m arg r.2
    else Some (P, output)
  end.
(** [SubsituteMacros] of a text. *)
Definition SubsituteMacros (fuel : nat) (P : precompiler) (l : list Z) : option (precompiler * list Z) :=
  subst fuel P (string_mem l) (string_ref l) [].
