(* ===== verification/MacroSpec.v ===== *)
(** What the substitution of macros is meant to give, as a semantics of structured
    texts, and that [_SubsituteMacrosInline] gives it. *)
From stdpp Require Import gmap.
From S2P Require Import Prelude Str StrScan Macro.

(** ** Texts and macros *)

(** A text: characters between the words, words, and calls of macro functions. *)
Inductive src :=
  | End
  | Gap (g : list Z) (s : src)
  | Word (w : name) (s : src)
  | Call (w : name) (a : args) (s : src)
with args := No | Arg (x : src) (a : args).
(** The value of a function: texts and arguments. *)
Inductive part := Lit (s : src) | Par (i : nat).
Inductive def := Obj (v : src) | Fun (n : nat) (t : list part).

Fixpoint commas (fs : list (list Z)) : list Z :=
  match fs with [] => [] | [f] => f | f :: fs => f ++ chr "," :: commas fs end.
Fixpoint render (s : src) : list Z :=
  match s with
  | End => []
  | Gap g s => g ++ render s
  | Word w s => w ++ render s
  | Call w a s => w ++ chr "(" :: commas (render_args a) ++ chr ")" :: render s
  end
with render_args (a : args) : list (list Z) :=
  match a with No => [] | Arg x a => render x :: render_args a end.
Definition part_text (x : part) : list Z := match x with Lit s => render s | Par i => [1; Z.of_nat i] end.
Definition template (t : list part) : list Z := concat (map part_text t).
Definition macro_of (d : def) : macro :=
  match d with Obj v => mkMacro (-1) (render v) | Fun n t => mkMacro (Z.of_nat n) (template t) end.

Section Semantics.
Context (D : name -> option def).

(** Macros are replaced by their values, in which macros are replaced; the arguments
    of a call too. *)
Inductive expands : src -> list Z -> Prop :=
  | x_end : expands End []
  | x_gap g s r : expands s r -> expands (Gap g s) (g ++ r)
  | x_word w s r : D w = None -> expands s r -> expands (Word w s) (w ++ r)
  | x_obj w v s rv r : D w = Some (Obj v) -> expands v rv -> expands s r -> expands (Word w s) (rv ++ r)
  | x_call w n t a s ra rt r : D w = Some (Fun n t) -> args_expand a ra -> length ra = n -> filled t ra rt -> expands s r ->
      expands (Call w a s) (rt ++ r)
with args_expand : args -> list (list Z) -> Prop :=
  | x_no : args_expand No []
  | x_arg x a r ra : expands x r -> args_expand a ra -> args_expand (Arg x a) (r :: ra)
with filled : list part -> list (list Z) -> list Z -> Prop :=
  | x_nil ra : filled [] ra []
  | x_lit v t ra rv r : expands v rv -> filled t ra r -> filled (Lit v :: t) ra (rv ++ r)
  | x_par i t ra x r : ra !! i = Some x -> filled t ra r -> filled (Par i :: t) ra (x ++ r).

(** Tables without cycles: the macros in a value are of lower rank; the arguments
    of each call are as many as expected. *)
Context (rank : name -> nat).
Fixpoint arity (a : args) : nat := match a with No => 0 | Arg _ a => S (arity a) end.
Fixpoint closed (n : nat) (s : src) : Prop :=
  match s with
  | End => True
  | Gap _ s => closed n s
  | Word w s => match D w with None => True | Some (Obj _) => (rank w < n)%nat | Some (Fun _ _) => False end /\ closed n s
  | Call w a s => match D w with Some (Fun k _) => (rank w < n)%nat /\ arity a = k | _ => False end /\ closed_args n a /\ closed n s
  end
with closed_args (n : nat) (a : args) : Prop := match a with No => True | Arg x a => closed n x /\ closed_args n a end.
Definition closed_part (n k : nat) (x : part) : Prop := match x with Lit s => closed n s | Par i => (i < k)%nat end.
Definition closed_def (n : nat) (d : def) : Prop := match d with Obj v => closed n v | Fun k t => Forall (closed_part n k) t end.
Scheme src_mut := Induction for src Sort Prop
  with args_mut := Induction for args Sort Prop.
Combined Scheme src_args_ind from src_mut, args_mut.

Lemma fill n k ra : (forall s, closed n s -> exists r, expands s r) -> length ra = k -> forall t, Forall (closed_part n k) t -> exists r, filled t ra r.
Proof.
  intros H Hk. induction 1 as [|[s|i] t Hx Ht [r IH]]; [eexists; constructor| |].
  - destruct (H s Hx) as [rv Hv]. eexists. by constructor.
  - cbn in Hx. destruct (lookup_lt_is_Some_2 ra i ltac:(lia)) as [x Hi]. eexists. by econstructor.
Qed.
Lemma expands_below : (forall w d, D w = Some d -> closed_def (rank w) d) -> forall n s, closed n s -> exists r, expands s r.
Proof.
  intros Hd n. induction (lt_wf n) as [n _ IH].
  cut ((forall s, closed n s -> exists r, expands s r) /\ (forall a, closed_args n a -> exists ra, args_expand a ra /\ length ra = arity a)); [tauto|]. apply src_args_ind.
  - intros _. eexists. constructor.
  - intros g s IHs Hs. destruct (IHs Hs) as [r Hr]. eexists. by constructor.
  - intros w s IHs [Hw Hs]. destruct (IHs Hs) as [r Hr]. destruct (D w) as [[v|k t]|] eqn:E; [|done|].
    + destruct (IH (rank w) Hw v (Hd w _ E)) as [rv Hv]. eexists. by econstructor.
    + eexists. by constructor.
  - intros w a IHa s IHs (Hw & Ha & Hs). destruct (IHs Hs) as [r Hr], (IHa Ha) as (ra & Hra & Hl). destruct (D w) as [[v|k t]|] eqn:E; [done| |done]. destruct Hw as [Hw Hk].
    destruct (fill (rank w) k ra (IH (rank w) Hw) (eq_trans Hl Hk) t (Hd w _ E)) as [rt Ht]. eexists. eapply x_call; [exact E|exact Hra|lia|exact Ht|exact Hr].
  - intros _. exists []. split; [constructor|done].
  - intros x IHx a IHa [Hx Ha]. destruct (IHx Hx) as [r Hr], (IHa Ha) as (ra & Hra & Hl). exists (r :: ra). split; [by constructor|cbn; by f_equal].
Qed.
Scheme expands_mut := Induction for expands Sort Prop
  with args_expand_mut := Induction for args_expand Sort Prop
  with filled_mut := Induction for filled Sort Prop.
Combined Scheme expansion_ind from expands_mut, args_expand_mut, filled_mut.
End Semantics.

(** *** The texts that are read this way *)

Definition initial (c : Z) : bool := Has CharacterSet_Alphabet (s8 c).
Definition symbol (c : Z) : bool := Has CharacterSet_Symbol (s8 c).
Definition is_gap (g : list Z) : Prop := Forall (fun c => initial c = false) g.
Definition is_word (w : list Z) : Prop := match w with c :: w => initial c = true /\ Forall (fun c => symbol c = true) w | [] => False end.
Definition no_symbol (l : list Z) : Prop := match l with c :: _ => symbol c = false | [] => True end.
(** Parentheses in pairs. *)
Fixpoint level (d : nat) (l : list Z) : option nat :=
  match l with
  | [] => Some d
  | c :: l => if s8 c =? chr "(" then level (S d) l else if s8 c =? chr ")" then match d with O => None | S d => level d l end else level d l
  end.
Definition is_argument (l : list Z) : Prop :=
  l <> [] /\ level 0 l = Some 0%nat /\ word_ok c_quot c_apos (CharacterSet [chr ","]) l.
Fixpoint src_ok (s : src) : Prop :=
  match s with
  | End => True
  | Gap g s => is_gap g /\ src_ok s
  | Word w s => is_word w /\ no_symbol (render s) /\ src_ok s
  | Call w a s => is_word w /\ args_ok a /\ Forall is_argument (render_args a) /\ src_ok s
  end
with args_ok (a : args) : Prop := match a with No => True | Arg x a => src_ok x /\ args_ok a end.
Fixpoint parts_ok (n : nat) (t : list part) : Prop :=
  match t with
  | [] => True
  | Par i :: t => (i < n)%nat /\ parts_ok n t
  | Lit s :: t => src_ok s /\ render s <> [] /\ Forall (fun c => s8 c <> 1) (render s) /\ match t with Lit _ :: _ => False | _ => True end /\ parts_ok n t
  end.
Definition def_ok (d : def) : Prop := match d with Obj v => src_ok v | Fun n t => (n < 128)%nat /\ parts_ok n t end.

(** ** The search for a token *)

Lemma cs_Init_in p : forall s k, Forall (fun c => c <> 0) p -> cs_Init s p p k <> 0 <-> In (k + 1) p \/ s k <> 0.
Proof.
  induction p as [|c p IH]; intros s k Hp; cbn [cs_Init]; [cbn; tauto|]. apply Forall_cons in Hp as [Hc Hp]. rewrite IH by done. cbn [In].
  unfold mset. destruct (Z.eqb_spec k (c - 1)) as [->|E]; [replace (c - 1 + 1) with c by lia; tauto|]. split; [tauto|]. intros [[H|H]|H]; [lia|tauto|tauto].
Qed.
Lemma Has_CharacterSet p c : Forall (fun c => 1 <= c) p -> Has (CharacterSet p) c = true <-> In c p.
Proof.
  intros Hp. unfold Has, CharacterSet. assert (H0 : Forall (fun c => c <> 0) p) by (eapply Forall_impl; [exact Hp|cbn; lia]).
  assert (H := cs_Init_in p (fun _ => 0) (c - 1) H0). replace (c - 1 + 1) with c in H by lia. rewrite Forall_forall in Hp. destruct (Z.leb_spec 1 c) as [L|L].
  - rewrite negb_true_iff, Z.eqb_neq, H. tauto.
  - split; [done|]. intros I. specialize (Hp c (proj2 (list_elem_of_In _ _) I)). lia.
Qed.
Lemma alphabet_pos : Forall (fun c => 1 <= c) (alphabet ++ str "_") /\ Forall (fun c => 1 <= c) (str "0123456789" ++ alphabet ++ str "_").
Proof.
  assert (H : forall l, forallb (Z.leb 1) l = true -> Forall (fun c => 1 <= c) l).
  { intros l H. rewrite forallb_forall in H. apply Forall_forall. intros c Hc%list_elem_of_In. specialize (H c Hc). lia. }
  split; apply H; vm_compute; reflexivity.
Qed.
Lemma initial_symbol c : initial c = true -> symbol c = true.
Proof.
  destruct alphabet_pos as [A1 A2]. unfold initial, symbol, CharacterSet_Alphabet, CharacterSet_Symbol. rewrite !Has_CharacterSet by done. rewrite !in_app_iff. tauto.
Qed.

(** A piece of memory with the text [l], and no word that goes on behind it. *)
Definition at_text (m : mem) (p e : Z) (l : list Z) : Prop := holds m p l /\ e = p + zlen l /\ Has CharacterSet_Symbol (sc m e) = false.

Lemma not_initial c : Has CharacterSet_Symbol c = false -> Has CharacterSet_Alphabet c = false.
Proof.
  destruct alphabet_pos as [A1 A2]. intros H. apply not_true_is_false. intros X. apply not_true_iff_false in H. apply H.
  revert X. unfold CharacterSet_Alphabet, CharacterSet_Symbol. rewrite !Has_CharacterSet by done. rewrite !in_app_iff. tauto.
Qed.
Section Tokens.
Context (P : precompiler) (Hpre : _MacroPrefix P = []) (Hsuf : _MacroSuffix P = []).

Definition gap_char (c : Z) : bool := negb (Has CharacterSet_Alphabet c).
Lemma gap_all g : is_gap g -> all gap_char g.
Proof. intros H. eapply Forall_impl; [exact H|]. intros c Hc. unfold gap_char. unfold initial in Hc. by rewrite Hc. Qed.
Lemma token_at m p g w rest : is_gap g -> is_word w -> no_symbol rest -> at_text m p (p + zlen (g ++ w ++ rest)) (g ++ w ++ rest) ->
  _GetFirstToken P m (mkRef p (p + zlen (g ++ w ++ rest))) = Some (Some (mkRef (p + zlen g) (p + zlen g + zlen w))).
Proof.
  intros Hg Hw Hr (Hh & _ & Hs). destruct w as [|c w]; [done|]. destruct Hw as [Hc Hw]. unfold _GetFirstToken. cbn [first_token re rb].
  rewrite (bool_decide_eq_true_2 _ Hpre), (bool_decide_eq_true_2 _ Hsuf). cbn [negb andb].
  set (e := p + zlen (g ++ (c :: w) ++ rest)) in *. assert (Le : e = p + zlen g + 1 + zlen w + zlen rest) by (unfold e; rewrite !length_app; cbn [length]; lia).
  assert (Hgw := Hh). apply holds_app in Hgw as [_ Hwr]. apply holds_cons_inv in Hwr as [Mc Hwr].
  change (fun c0 : Z => negb (Has CharacterSet_Alphabet c0)) with gap_char.
  rewrite (scan_spec gap_char m g _ p ((c :: w) ++ rest)); [|lia|done|by apply gap_all|right; exists c, (w ++ rest); split; [done|unfold gap_char; unfold initial in Hc; by rewrite Hc]].
  unfold sc at 1. rewrite Mc. unfold initial in Hc. rewrite Hc. rewrite (scan_spec (Has CharacterSet_Symbol) m w _ (p + zlen g + 1) rest); [|lia|done|done|].
  - do 3 f_equal. cbn [length]. lia.
  - destruct rest as [|d rest]; [left; cbn [length] in *; lia|right; by exists d, rest].
Qed.
Lemma no_token m p g : is_gap g -> at_text m p (p + zlen g) g -> _GetFirstToken P m (mkRef p (p + zlen g)) = Some None.
Proof.
  intros Hg (Hh & _ & Hs). unfold _GetFirstToken. cbn [first_token re rb]. rewrite (bool_decide_eq_true_2 _ Hpre).
  change (fun c0 : Z => negb (Has CharacterSet_Alphabet c0)) with gap_char.
  rewrite (scan_spec gap_char m g _ p []); [|lia|by rewrite app_nil_r|by apply gap_all|left; lia]. by rewrite (not_initial _ Hs).
Qed.
End Tokens.

(** ** Balanced parentheses and arguments *)

Lemma closure_at m rest l : forall n p d, holds m p (l ++ chr ")" :: rest) -> level d l = Some 0%nat -> (length l < n)%nat ->
  seek_closure n m p (1 + Z.of_nat d) = p + zlen l.
Proof.
  induction l as [|c l IH]; intros [|n] p d Hh Hl Hn; cbn [length level seek_closure] in *; try lia.
  - injection Hl as ->. cbn [app] in Hh. apply holds_cons_inv in Hh as [Hc _]. unfold sc. rewrite Hc. change (s8 (chr ")") =? chr "(") with false. change (s8 (chr ")") =? chr ")") with true. rewrite (proj2 (Z.eqb_eq (1 + Z.of_nat 0 - 1) 0)) by lia. lia.
  - cbn [app] in Hh. apply holds_cons_inv in Hh as [Hc Hh]. unfold sc. rewrite Hc. destruct (Z.eqb_spec (s8 c) (chr "(")) as [E|E].
    + replace (1 + Z.of_nat d + 1) with (1 + Z.of_nat (S d)) by lia. rewrite IH by (done || lia). lia.
    + destruct (Z.eqb_spec (s8 c) (chr ")")) as [E2|E2].
      * destruct d as [|d]; [done|]. rewrite (proj2 (Z.eqb_neq _ 0)) by lia. replace (1 + Z.of_nat (S d) - 1) with (1 + Z.of_nat d) by lia. rewrite IH by (done || lia). lia.
      * rewrite IH by (done || lia). lia.
Qed.
Lemma level_app a b : forall d e, level d a = Some e -> level d (a ++ b) = level e b.
Proof.
  induction a as [|c a IH]; intros d e H; cbn [level app] in *; [by injection H as ->|]. destruct (s8 c =? chr "("); [by apply IH|]. destruct (s8 c =? chr ")"); [|by apply IH].
  destruct d; [done|by apply IH].
Qed.
Lemma level_commas fs : Forall is_argument fs -> level 0 (commas fs) = Some 0%nat.
Proof.
  induction 1 as [|f fs (_ & Hf & _) _ IH]; [done|]. destruct fs as [|g fs]; [done|]. change (commas (f :: g :: fs)) with (f ++ chr "," :: commas (g :: fs)).
  rewrite (level_app _ _ 0 0 Hf). exact IH.
Qed.

(** The addresses of fields with one separator between them. *)
Fixpoint field_refs (p : Z) (fs : list (list Z)) : list ref :=
  match fs with [] => [] | f :: fs => mkRef p (p + zlen f) :: field_refs (p + zlen f + 1) fs end.
Lemma split_commas m fs : forall fuel room p, fs <> [] -> Forall is_argument fs -> holds m p (commas fs) -> (length (commas fs) < fuel)%nat -> (length fs <= room)%nat ->
  split_loop false c_quot c_apos (CharacterSet [chr ","]) m fuel room p p (p + zlen (commas fs)) 0 = Some (field_refs p fs).
Proof.
  induction fs as [|f fs IH]; intros fuel room p Hne Hok Hh Hf Hr; [done|]. apply Forall_cons in Hok as [(Hn & _ & Hw) Hok].
  destruct fs as [|g fs].
  - cbn [commas field_refs length] in *. replace fuel with (length f + (fuel - length f))%nat by lia. rewrite split_word by (done || lia).
    destruct (fuel - length f)%nat as [|k] eqn:Ek; [lia|]. cbn [split_loop]. rewrite Z.ltb_irrefl. rewrite (split_unquote_word c_quot c_apos (CharacterSet [chr ","])) by done.
    destruct room as [|[|room]]; [lia|done|by rewrite Z.eqb_refl].
  - change (commas (f :: g :: fs)) with (f ++ chr "," :: commas (g :: fs)) in *. apply holds_app in Hh as [H1 H2]. apply holds_cons_inv in H2 as [H2 H3].
    rewrite length_app in *. cbn [length] in Hf, Hr. set (T := commas (g :: fs)) in *. cbn [length].
    replace fuel with (length f + (fuel - length f))%nat by lia. rewrite split_word by (done || lia).
    destruct (fuel - length f)%nat as [|k] eqn:Ek; [lia|]. cbn [split_loop]. rewrite (proj2 (Z.ltb_lt _ _)) by lia. cbn [negb Z.eqb].
    assert (Es : sc m (p + zlen f) = s8 (chr ",")) by (unfold sc; by rewrite H2). rewrite Es. change (s8 (chr ",") =? c_quot) with false. change (c_apos =? s8 (chr ",")) with false. cbn [orb].
    change (Has (CharacterSet [chr ","]) (s8 (chr ","))) with true. cbn [negb]. rewrite (split_unquote_word c_quot c_apos (CharacterSet [chr ","])) by done.
    destruct room as [|[|room]]; [lia|lia|]. rewrite (proj2 (Z.eqb_neq _ _)) by lia.
    replace (p + Z.of_nat (length f + S (length T))) with (p + zlen f + 1 + zlen T) by lia. unfold T in *. rewrite IH; [reflexivity|done|exact Hok|exact H3|lia|cbn [length]; lia].
Qed.

(** ** The substitution *)

Lemma holds_mem_of d b l : holds (mem_of d b l) b l.
Proof.
  cut (forall a, holds (mem_of d b (a ++ l)) (b + zlen a) l); [intros H; specialize (H []); cbn in H; by rewrite Z.add_0_r in H|].
  induction l as [|c l IH]; intros a; [done|]. specialize (IH (a ++ [c])). rewrite <- app_assoc in IH. cbn [app] in IH. rewrite length_app in IH. cbn [length] in IH.
  unfold holds in *. cbn [length mem_bytes]. replace (b + zlen a + 1) with (b + Z.of_nat (length a + 1)) by lia. rewrite IH. f_equal. unfold mem_of.
  rewrite (proj2 (Z.leb_le _ _)), (proj2 (Z.ltb_lt _ _)) by (rewrite ?length_app; cbn [length]; lia). cbn [andb]. rewrite app_nth2 by lia. replace (_ - _)%nat with 0%nat by lia. done.
Qed.

Lemma string_end l : string_mem l (1 + zlen l) = 0.
Proof. unfold string_mem, mem_of. rewrite (proj2 (Z.ltb_ge _ _)) by lia. by rewrite andb_false_r. Qed.
(** Membership in a list that is written out. *)
Ltac listed := first [by left | right; listed].

Section Substitution.
Context (P : precompiler) (D : name -> option def).
Hypothesis Hpre : _MacroPrefix P = [].
Hypothesis Hsuf : _MacroSuffix P = [].

(** The macro that a word stands for, from the table or predefined. *)
Definition macro_for (w : name) : option macro :=
  match _Macros P !! w with Some x => Some x | None => d ← _pPredefined P; mkMacro (-1) <$> Get d w end.
(** The text has not the character with which the connecting operator begins. *)
Definition quiet (l : list Z) : Prop := match _MacroConnectOp P with [] => True | c :: _ => c ∉ l end.
Hypothesis Htable : forall w, is_word w -> macro_for w = macro_of <$> D w.
Hypothesis Hdefs : forall w d, D w = Some d -> def_ok d /\ quiet (Value (macro_of d)).
Hypothesis Hquiet0 : quiet [0; chr ","; chr "("; chr ")"; 1].

Lemma quiet_nil : quiet [].
Proof. unfold quiet. destruct (_MacroConnectOp P); [done|apply not_elem_of_nil]. Qed.
Lemma quiet_app a b : quiet (a ++ b) <-> quiet a /\ quiet b.
Proof. unfold quiet. destruct (_MacroConnectOp P) as [|c op]; [tauto|]. rewrite elem_of_app. tauto. Qed.
Lemma quiet_char c : c ∈ [0; chr ","; chr "("; chr ")"; 1] -> quiet [c].
Proof. unfold quiet in Hquiet0 |- *. destruct (_MacroConnectOp P) as [|d op]; [done|]. intros Hc. rewrite list_elem_of_singleton. intros ->. done. Qed.
Lemma disconnect_quiet out : quiet out -> disconnect P out = out.
Proof.
  unfold quiet, disconnect, ends_with. destruct (_MacroConnectOp P) as [|c op]; [done|]. intros H. rewrite bool_decide_eq_false_2 by done. cbn [negb andb]. case_bool_decide as E2; [|reflexivity].
  exfalso. apply H. rewrite <- (take_drop (length out - length (c :: op)) out), E2. apply elem_of_app. right. left.
Qed.
Lemma after_connect_quiet m p c : m p = c -> quiet [c] -> after_connect P m p = p.
Proof.
  unfold quiet, after_connect, begins_with. destruct (_MacroConnectOp P) as [|d op]; [done|]. intros E H. rewrite bool_decide_eq_false_2 by done. cbn [negb andb]. case_bool_decide as Y; [|reflexivity].
  exfalso. apply H. cbn in Y. injection Y as Y _. rewrite <- Y, E. left.
Qed.

(** A text that may be substituted: behind it is neither a symbol nor the operator. *)
Definition spot (m : mem) (p e : Z) (l : list Z) : Prop := 0 < p /\ at_text m p e l /\ quiet [m e].
Definition good (l r : list Z) : Prop := exists k, forall fuel, (k <= fuel)%nat -> forall m p e out, spot m p e l -> quiet out -> subst fuel P m (mkRef p e) out = Some (P, out ++ r).

Lemma spot_app m p e a b : spot m p e (a ++ b) -> spot m (p + zlen a) e b.
Proof.
  intros (Hp & (Hh & He & Hs) & Hq). apply holds_app in Hh as [_ Hh]. rewrite length_app in He. repeat split; try done; lia.
Qed.
Lemma spot_string l : quiet l -> spot (string_mem l) 1 (1 + zlen l) l.
Proof.
  intros Hl. assert (E := string_end l). split; [reflexivity|]. split; [split; [apply holds_mem_of|split; [done|unfold sc; by rewrite E]]|]. rewrite E. apply quiet_char. left.
Qed.
Lemma spot_quiet_at m p e l k : spot m p e l -> quiet l -> p <= k <= e -> quiet [m k].
Proof.
  intros (_ & (Hh & He & _) & Hq) Hl Hk. destruct (decide (k = e)) as [->|Hne]; [done|]. unfold quiet in Hq, Hl |- *. destruct (_MacroConnectOp P) as [|c op]; [done|].
  replace k with (p + Z.of_nat (Z.to_nat (k - p))) by lia. rewrite (holds_nth m p l (Z.to_nat (k - p)) 0 Hh) by lia.
  rewrite list_elem_of_singleton. intros ->. apply Hl. apply list_elem_of_In, nth_In. lia.
Qed.
Lemma piece_holds m p l : holds m p l -> piece m p (p + zlen l) = Some l.
Proof.
  intros H. unfold piece. rewrite (proj2 (Z.ltb_ge _ _)) by lia. unfold text, GetLength. cbn [rb re]. replace (Z.to_nat _) with (length l) by lia. by rewrite H.
Qed.
Lemma holds_text m p l : holds m p l -> text m (mkRef p (p + zlen l)) = l.
Proof. intros H. apply piece_holds in H. unfold piece in H. rewrite (proj2 (Z.ltb_ge _ _)) in H by lia. by injection H as ->. Qed.

(** The turn of the loop at each kind of token, after a gap. *)
Lemma tokens_none f m p e b out g : is_gap g -> spot m p e g -> tokens (S f) P m (mkRef b e) p out = Some (P, out ++ g).
Proof.
  intros Hg (Hp & Ha & Hq). assert (Hh := Ha). destruct Hh as (Hh & He & _). subst e. cbn [tokens re]. rewrite (no_token P Hpre) by done. cbn [mbind option_bind].
  by rewrite piece_holds.
Qed.
Lemma tokens_word f m p e b out g w l : is_gap g -> is_word w -> no_symbol l -> spot m p e (g ++ w ++ l) -> macro_for w = None ->
  tokens (S f) P m (mkRef b e) p out = tokens f P m (mkRef b e) (p + zlen g + zlen w) (out ++ g ++ w).
Proof.
  intros Hg Hw Hl (Hp & Ha & Hq) Hm. assert (Hh := Ha). destruct Hh as (Hh & He & _). subst e. cbn [tokens re rb]. rewrite (token_at P Hpre Hsuf) by done. cbn [mbind option_bind rb re].
  apply holds_app in Hh as [H1 H2]. apply holds_app in H2 as [H2 H3]. rewrite Hpre, Hsuf. cbn [length]. change (Z.of_nat 0) with 0. rewrite Z.sub_0_r, Z.add_0_r, piece_holds by done.
  cbn [mbind option_bind]. rewrite (holds_text m _ _ H2). unfold macro_for in Hm. destruct (_Macros P !! w); [done|].
  destruct (_pPredefined P) as [d|]; cbn [mbind option_bind] in *; [destruct (Get d w); [done|]|]; by rewrite <- app_assoc.
Qed.
Lemma tokens_value f m p e b out g w l v out' : is_gap g -> is_word w -> no_symbol l -> spot m p e (g ++ w ++ l) -> quiet (g ++ w ++ l) -> quiet out ->
  macro_for w = Some (mkMacro (-1) v) -> subst f P (string_mem v) (string_ref v) (out ++ g) = Some (P, out') ->
  tokens (S f) P m (mkRef b e) p out = tokens f P m (mkRef b e) (p + zlen g + zlen w) out'.
Proof.
  intros Hg Hw Hl Hs Ql Qo Hm Hv. assert (Hq : quiet [m (p + zlen g + zlen w)]).
  { apply (spot_quiet_at m p e (g ++ w ++ l)); [done|done|]. destruct Hs as (_ & (_ & He & _) & _). rewrite !length_app in He. lia. }
  destruct Hs as (Hp & Ha & _). assert (Hh := Ha). destruct Hh as (Hh & He & _). subst e. cbn [tokens re rb]. rewrite (token_at P Hpre Hsuf) by done. cbn [mbind option_bind rb re].
  apply holds_app in Hh as [H1 H2]. apply holds_app in H2 as [H2 H3]. rewrite Hpre, Hsuf. cbn [length]. change (Z.of_nat 0) with 0. rewrite Z.sub_0_r, Z.add_0_r, piece_holds by done.
  cbn [mbind option_bind]. rewrite (holds_text m _ _ H2). rewrite (disconnect_quiet (out ++ g)) by (apply quiet_app; apply quiet_app in Ql; tauto).
  unfold macro_for in Hm. destruct (_Macros P !! w) as [x|].
  - injection Hm as ->. cbn [ArgmentCount Value]. rewrite bool_decide_eq_true_2 by done. cbn [negb andb Z.eqb Pos.eqb]. rewrite Hv. cbn [mbind option_bind fst snd].
    by rewrite (after_connect_quiet m _ _ eq_refl Hq).
  - destruct (_pPredefined P) as [d|]; cbn [mbind option_bind] in *; [|done]. destruct (Get d w) as [v'|]; [|done]. cbn in Hm. injection Hm as ->. rewrite Hv. cbn [mbind option_bind fst snd].
    by rewrite (after_connect_quiet m _ _ eq_refl Hq).
Qed.

(** Arguments in place. *)
Definition placed (m : mem) : list ref -> list (list Z) -> Prop := Forall2 (fun r l => spot m (rb r) (re r) l).
Lemma placed_fields m fs : forall p c, 0 < p -> holds m p (commas fs) -> m (p + zlen (commas fs)) = c -> Has CharacterSet_Symbol (s8 c) = false -> quiet [c] ->
  placed m (field_refs p fs) fs.
Proof.
  induction fs as [|f fs IH]; intros p c Hp Hh Hc Hs Hq; [constructor|]. destruct fs as [|g fs].
  - repeat constructor; cbn [commas rb re] in *; try done; [unfold sc; by rewrite Hc|by rewrite Hc].
  - change (commas (f :: g :: fs)) with (f ++ chr "," :: commas (g :: fs)) in *. rewrite length_app in Hc. cbn [length] in Hc.
    apply holds_app in Hh as [H1 H2]. apply holds_cons_inv in H2 as [H2 H3]. change (field_refs p (f :: g :: fs)) with (mkRef p (p + zlen f) :: field_refs (p + zlen f + 1) (g :: fs)).
    constructor.
    + cbn [rb re]. split; [done|]. split; [|rewrite H2; apply quiet_char; listed]. split; [done|]. split; [done|]. unfold sc. by rewrite H2.
    + apply (IH _ c); [lia|done| |done|done]. rewrite <- Hc. f_equal. lia.
Qed.
Lemma length_field_refs fs : forall p, length (field_refs p fs) = length fs.
Proof. induction fs; intros p; cbn; [done|by f_equal]. Qed.
Lemma split_args m p fs : 0 < p -> Forall is_argument fs -> holds m p (commas fs) -> (length fs <= 256)%nat ->
  Split false m (mkRef p (p + zlen (commas fs))) 256 (CharacterSet [chr ","]) = Some (field_refs p fs).
Proof.
  intros Hp Hok Hh Hn. unfold Split, Split_, IsEmpty. cbn [rb re]. rewrite (proj2 (Z.eqb_neq p 0)) by lia. destruct fs as [|f fs]; [cbn [commas length]; by rewrite Z.add_0_r, Z.eqb_refl|].
  rewrite (proj2 (Z.eqb_neq _ _)).
  - cbn [orb]. apply split_commas; [done|done|done| |lia]. unfold GetLength. cbn [rb re]. lia.
  - apply Forall_cons in Hok as [(Hf & _) _]. destruct f as [|c f]; [done|]. assert (0 < length (commas ((c :: f) :: fs)))%nat; [|lia]. destruct fs; cbn; lia.
Qed.
Lemma tokens_call f m p e b out g w fs l n t out' : is_gap g -> is_word w -> Forall is_argument fs ->
  let rest := chr "(" :: commas fs ++ chr ")" :: l in
  spot m p e (g ++ w ++ rest) -> quiet (g ++ w ++ rest) -> quiet out ->
  macro_for w = Some (mkMacro (Z.of_nat n) t) -> length fs = n -> (n < 128)%nat ->
  (forall refs, placed m refs fs -> pieces (S f) P (string_mem t) 1 (1 + zlen t) m refs (out ++ g) = Some (P, out')) ->
  tokens (S (S f)) P m (mkRef b e) p out = tokens (S f) P m (mkRef b e) (p + zlen (g ++ w ++ chr "(" :: commas fs ++ [chr ")"])) out'.
Proof.
  intros Hg Hw Hf rest Hs Ql Qo Hm Hn Hn' Hv. set (q := p + zlen g + zlen w + 1 + zlen (commas fs)).
  assert (He : e = q + 1 + zlen l) by (destruct Hs as (_ & (_ & He & _) & _); rewrite He; unfold rest, q; rewrite !length_app; cbn [length]; rewrite length_app; cbn [length]; lia).
  assert (Hq : quiet [m (q + 1)]) by (apply (spot_quiet_at m p e (g ++ w ++ rest)); [done|done|unfold q in *; lia]).
  destruct Hs as (Hp & Ha & _). assert (Hh := Ha). destruct Hh as (Hh & He' & _).
  assert (Ht := token_at P Hpre Hsuf m p g w rest Hg Hw). rewrite <- He' in Ht. specialize (Ht ltac:(by cbn) Ha).
  apply holds_app in Hh as [H1 H2]. apply holds_app in H2 as [H2 H3]. unfold rest in H3. apply holds_cons_inv in H3 as [H3 H4].
  assert (Hclose := closure_at m l (commas fs) (Z.to_nat (e - (p + zlen g + zlen w + 1))) _ 0 H4 (level_commas _ Hf) ltac:(unfold q in *; lia)). change (1 + Z.of_nat 0) with 1 in Hclose.
  apply holds_app in H4 as [H4 H5]. apply holds_cons_inv in H5 as [H5 _]. fold q in Hclose, H5.
  set (n1 := S f). cbn [tokens re rb]. rewrite Ht. cbn [mbind option_bind rb re].
  rewrite Hpre, Hsuf. cbn [length]. change (Z.of_nat 0) with 0. rewrite Z.sub_0_r, !Z.add_0_r, piece_holds by done. cbn [mbind option_bind]. rewrite (holds_text m _ _ H2).
  unfold macro_for in Hm. destruct (_Macros P !! w) as [x|]; [|destruct (_pPredefined P) as [d|]; cbn in Hm; [destruct (Get d w); [injection Hm as Hm; lia|done]|done]].
  injection Hm as ->. cbn [ArgmentCount Value]. rewrite (proj2 (Z.eqb_neq (Z.of_nat n) (-1))) by lia. cbn [andb].
  rewrite (disconnect_quiet (out ++ g)) by (apply quiet_app; apply quiet_app in Ql; tauto).
  assert (Eo : (sc m (p + zlen g + zlen w) =? chr "(") = true) by (unfold sc; by rewrite H3).
  assert (Ep : seek_parenthesis n1 m (p + zlen g + zlen w) e = Some (p + zlen g + zlen w)) by (unfold n1; cbn [seek_parenthesis]; rewrite (proj2 (Z.ltb_lt _ _)) by (unfold q in *; lia); by rewrite Eo).
  rewrite Ep. cbn [mbind option_bind]. rewrite Eo. cbn [negb]. rewrite Hclose.
  rewrite (proj2 (Z.eqb_neq q e)) by lia. change (begins_with m (q + 1) []) with true. cbn [negb].
  assert (Es := split_args m (p + zlen g + zlen w + 1) fs ltac:(lia) Hf H4 ltac:(lia)). fold q in Es. rewrite Es. cbn [mbind option_bind]. rewrite length_field_refs, Hn, Z.eqb_refl. unfold n1. rewrite Hv.
  - cbn [mbind option_bind fst snd]. rewrite Z.add_0_r, (after_connect_quiet m _ _ eq_refl Hq). f_equal. unfold q. rewrite !length_app. cbn [length]. rewrite length_app. cbn [length]. lia.
  - apply (placed_fields _ _ _ (chr ")")); [lia|done|exact H5|done|apply quiet_char; listed].
Qed.

(** The turn of the loop over the value of a function. *)
Definition no_mark (c : Z) : bool := negb (c =? 1).
Lemma pieces_literal f mv p e m refs out l rest : 0 < p -> l <> [] -> Forall (fun c => s8 c <> 1) l -> at_text mv p e (l ++ rest) -> (rest = [] \/ exists t, rest = 1 :: t) ->
  pieces (S f) P mv p e m refs out = r ← subst f P mv (mkRef p (p + zlen l)) out; pieces (S f) (r : precompiler * list Z).1 mv (p + zlen l) e m refs r.2.
Proof.
  intros Hp Hl Hm (Hh & He & _) Hr. rewrite length_app in He. assert (Hl' : 0 < zlen l) by (destruct l; [done|cbn; lia]).
  assert (A : all no_mark l) by (eapply Forall_impl; [exact Hm|]; intros c Hc; unfold no_mark; by apply negb_true_iff, Z.eqb_neq).
  cbn [pieces]. rewrite (proj2 (Z.ltb_lt p e)) by lia. change (fun c => negb (c =? 1)) with no_mark.
  rewrite (scan_spec no_mark mv l _ p rest); [|lia|done|done|destruct Hr as [->|[t ->]]; [left; cbn in He; lia|right; by exists 1, t]].
  rewrite (proj2 (Z.ltb_lt p _)) by lia. destruct (subst f P mv _ out) as [[P' o]|]; cbn [mbind option_bind fst snd]; [|done].
  destruct Hr as [->|[t ->]]; cbn [length] in He.
  - rewrite (proj2 (Z.eqb_eq _ e)) by lia. rewrite (proj2 (Z.ltb_ge _ e)) by lia. done.
  - rewrite (proj2 (Z.eqb_neq _ e)), (proj2 (Z.ltb_lt _ e)) by lia. apply holds_app in Hh as [_ Hh]. apply holds_cons_inv in Hh as [Hh _].
    assert (E : no_mark (sc mv (p + zlen l)) = false) by (unfold sc; by rewrite Hh). destruct (Z.to_nat (e - (p + zlen l))) as [|n] eqn:En; [lia|].
    cbn [scan]. rewrite E, Z.ltb_irrefl. cbn [mbind option_bind fst snd]. by rewrite (proj2 (Z.eqb_neq _ e)) by lia.
Qed.
Lemma pieces_argument f mv p e m refs out i a rest : 0 < p -> (i < 128)%nat -> at_text mv p e (1 :: Z.of_nat i :: rest) -> refs !! i = Some a ->
  pieces (S f) P mv p e m refs out = r ← subst f P m a out; pieces f (r : precompiler * list Z).1 mv (p + 2) e m refs r.2.
Proof.
  intros Hp Hi (Hh & He & _) Ha. cbn [length] in He. apply holds_cons_inv in Hh as [H1 Hh]. apply holds_cons_inv in Hh as [H2 _].
  cbn [pieces]. rewrite (proj2 (Z.ltb_lt p e)) by lia. destruct (Z.to_nat (e - p)) as [|n] eqn:En; [lia|]. cbn [scan].
  assert (E : (sc mv p =? 1) = true) by (unfold sc; by rewrite H1). rewrite E. cbn [negb]. rewrite Z.ltb_irrefl. cbn [mbind option_bind fst snd]. rewrite (proj2 (Z.eqb_neq p e)) by lia.
  replace (Z.to_nat (u32 (sc mv (p + 1)))) with i; [by rewrite Ha|]. rewrite sc_small by (rewrite H2; lia). rewrite H2. unfold u32, wrap. rewrite Z.mod_small by lia. lia.
Qed.

Lemma quiet_commas fs : quiet (commas fs) -> Forall quiet fs.
Proof.
  induction fs as [|f fs IH]; intros H; [constructor|]. destruct fs as [|g fs]; [by repeat constructor|]. change (commas (f :: g :: fs)) with (f ++ [chr ","] ++ commas (g :: fs)) in H.
  apply quiet_app in H as [H1 H2]. apply quiet_app in H2 as [_ H2]. constructor; [done|by apply IH].
Qed.
(** *** The three parts of the induction *)
Definition loop_good (s : src) (r : list Z) : Prop := src_ok s -> quiet (render s) -> quiet r /\
  exists k, forall fuel, (k <= fuel)%nat -> forall m p e b out g, is_gap g -> quiet g -> spot m p e (g ++ render s) -> quiet out ->
    tokens fuel P m (mkRef b e) p out = Some (P, out ++ g ++ r).
Definition args_good (a : args) (ra : list (list Z)) : Prop := args_ok a -> Forall quiet (render_args a) -> Forall quiet ra /\ Forall2 good (render_args a) ra.
Definition filled_good (t : list part) (ra : list (list Z)) (r : list Z) : Prop := forall n fs, parts_ok n t -> (n < 128)%nat -> quiet (template t) -> Forall quiet ra -> Forall2 good fs ra ->
  quiet r /\ exists k, forall fuel, (k <= fuel)%nat -> forall m refs mv p e out, placed m refs fs -> spot mv p e (template t) -> quiet out ->
    pieces fuel P mv p e m refs out = Some (P, out ++ r).

Lemma loop_subst s r : loop_good s r -> src_ok s -> quiet (render s) -> quiet r /\ good (render s) r.
Proof.
  intros H Hs Hq. destruct (H Hs Hq) as (Qr & k & Hk). split; [done|]. exists (S k). intros [|f] Hf m p e out Hsp Ho; [lia|].
  assert (Ht : forall f', (k <= f')%nat -> tokens f' P m (mkRef p e) p out = Some (P, out ++ r)) by (intros f' Hf'; apply (Hk f' Hf' m p e p out []); [constructor|apply quiet_nil|done|done]).
  cbn [subst]. unfold IsEmpty. cbn [rb re]. assert (Hp : 0 < p) by apply Hsp. rewrite (proj2 (Z.eqb_neq p 0)) by lia. destruct (Z.eqb_spec e p) as [->|Hne]; cbn [orb]; [|apply Ht; lia].
  assert (Hl : render s = []) by (destruct Hsp as (_ & (_ & E & _) & _); destruct (render s); [done|cbn [length] in E; lia]).
  rewrite <- (Ht (S k)) by lia. rewrite Hl in Hsp. rewrite (tokens_none k m p p p out []); [by rewrite app_nil_r|constructor|done].
Qed.

Lemma table_ok w d : is_word w -> D w = Some d -> macro_for w = Some (macro_of d) /\ def_ok d /\ quiet (Value (macro_of d)).
Proof. intros Hw Hd. rewrite (Htable w Hw), Hd. destruct (Hdefs w d Hd). done. Qed.
Lemma call_step w n t a s ra rt r : D w = Some (Fun n t) -> args_good a ra -> length ra = n -> filled_good t ra rt -> loop_good s r -> loop_good (Call w a s) (rt ++ r).
Proof.
  intros Hd IHa Hn IHt IHs (Hw & Haok & Harg & Hs) Hq. destruct (table_ok w _ Hw Hd) as (Hm & (Hn' & Ht) & Qt). cbn [macro_of Value render] in *.
  apply quiet_app in Hq as [Qw Hq]. assert (Hq' := Hq). change (quiet ([chr "("] ++ commas (render_args a) ++ [chr ")"] ++ render s)) in Hq'.
  apply quiet_app in Hq' as [_ Hq']. apply quiet_app in Hq' as [Qa Hq']. apply quiet_app in Hq' as [_ Qs].
  destruct (IHa Haok (quiet_commas _ Qa)) as [Qra Ga]. destruct (IHt n (render_args a) Ht Hn' Qt Qra Ga) as (Qrt & k1 & Hk1). destruct (IHs Hs Qs) as (Qr & k2 & Hk2).
  split; [by apply quiet_app|]. exists (S (S (max k1 k2))). intros [|[|f]] Hf m p e b out g Hg Qg Hsp Ho; [lia|lia|].
  rewrite (tokens_call f m p e b out g w (render_args a) (render s) n (template t) (out ++ g ++ rt)); try done.
  - rewrite (Hk2 (S f) ltac:(lia) m _ e b (out ++ g ++ rt) []); [by rewrite <- !app_assoc|constructor|apply quiet_nil| |by rewrite !quiet_app].
    cbn [app]. apply (spot_app m p e). rewrite <- !app_assoc. cbn [app]. by rewrite <- app_assoc.
  - by rewrite !quiet_app.
  - rewrite <- Hn. symmetry. clear -Ga. revert Ga. generalize (render_args a). intros l H. symmetry. by eapply Forall2_length.
  - intros refs Hr. rewrite (Hk1 (S f) ltac:(lia) m refs _ 1 _ (out ++ g)); [by rewrite <- app_assoc|done|by apply spot_string|by apply quiet_app].
Qed.
Lemma word_step w s r : D w = None -> loop_good s r -> loop_good (Word w s) (w ++ r).
Proof.
  intros Hd IHs (Hw & Hl & Hs) Hq. cbn [render] in *. apply quiet_app in Hq as [Qw Qs]. destruct (IHs Hs Qs) as (Qr & k & Hk). split; [by apply quiet_app|].
  exists (S k). intros [|f] Hf m p e b out g Hg Qg Hsp Ho; [lia|]. rewrite (tokens_word f m p e b out g w (render s)); try done; [|by rewrite (Htable w Hw), Hd].
  rewrite (Hk f ltac:(lia) m _ e b (out ++ g ++ w) []); [by rewrite <- !app_assoc|constructor|apply quiet_nil| |by rewrite !quiet_app].
  cbn [app]. rewrite <- Z.add_assoc, <- Nat2Z.inj_add, <- length_app. apply spot_app. by rewrite <- app_assoc.
Qed.
Lemma value_step w v s rv r : D w = Some (Obj v) -> loop_good v rv -> loop_good s r -> loop_good (Word w s) (rv ++ r).
Proof.
  intros Hd IHv IHs (Hw & Hl & Hs) Hq. destruct (table_ok w _ Hw Hd) as (Hm & Hv & Qv). cbn [render macro_of Value def_ok] in *. apply quiet_app in Hq as [Qw Qs].
  destruct (loop_subst v rv IHv Hv Qv) as (Qrv & k1 & Hk1). destruct (IHs Hs Qs) as (Qr & k2 & Hk2). split; [by apply quiet_app|].
  exists (S (max k1 k2)). intros [|f] Hf m p e b out g Hg Qg Hsp Ho; [lia|]. rewrite (tokens_value f m p e b out g w (render s) (render v) (out ++ g ++ rv)); try done.
  - rewrite (Hk2 f ltac:(lia) m _ e b (out ++ g ++ rv) []); [by rewrite <- !app_assoc|constructor|apply quiet_nil| |by rewrite !quiet_app].
    cbn [app]. rewrite <- Z.add_assoc, <- Nat2Z.inj_add, <- length_app. apply spot_app. by rewrite <- app_assoc.
  - by rewrite !quiet_app.
  - unfold string_ref. rewrite (Hk1 f ltac:(lia) _ 1 _ (out ++ g)); [by rewrite <- app_assoc|by apply spot_string|by apply quiet_app].
Qed.
Lemma literal_step v t ra rv r : loop_good v rv -> filled_good t ra r -> filled_good (Lit v :: t) ra (rv ++ r).
Proof.
  intros IHv IHt n fs (Hv & Hne & Hm & Hnext & Ht) Hn Hq Qra Ga. change (template (Lit v :: t)) with (render v ++ template t) in *. apply quiet_app in Hq as [Qv Qt].
  destruct (loop_subst v rv IHv Hv Qv) as (Qrv & k1 & Hk1). destruct (IHt n fs Ht Hn Qt Qra Ga) as (Qr & k2 & Hk2). split; [by apply quiet_app|].
  exists (S (max k1 k2)). intros [|f] Hf m refs mv p e out Hp Hsp Ho; [lia|]. assert (Hs := Hsp). destruct Hsp as (Hpos & Ha & Hq).
  assert (Hnx : template t = [] \/ exists l, template t = 1 :: l) by (destruct t as [|[]]; [by left|done|by right; eexists]).
  rewrite (pieces_literal f mv p e m refs out (render v) (template t)) by done. rewrite (Hk1 f ltac:(lia)); [|split; [done|]|done].
  - cbn [mbind option_bind fst snd]. rewrite (Hk2 (S f) ltac:(lia) m refs mv _ e (out ++ rv)); [by rewrite <- app_assoc|done|by apply spot_app|by apply quiet_app].
  - destruct Ha as (Hh & He & Hsy). destruct Hnx as [E|[l E]]; rewrite E in *.
    + rewrite app_nil_r in *. by rewrite He in *.
    + apply holds_app in Hh as [H1 H2]. apply holds_cons_inv in H2 as [H2 _]. repeat split; [done|unfold sc; by rewrite H2|rewrite H2; apply quiet_char; listed].
Qed.
Lemma argument_step i t ra x r : ra !! i = Some x -> filled_good t ra r -> filled_good (Par i :: t) ra (x ++ r).
Proof.
  intros Hx IHt n fs (Hi & Ht) Hn Hq Qra Ga. change (template (Par i :: t)) with ([1; Z.of_nat i] ++ template t) in *. apply quiet_app in Hq as [_ Qt].
  destruct (IHt n fs Ht Hn Qt Qra Ga) as (Qr & k2 & Hk2). assert (Qx : quiet x) by (rewrite Forall_forall in Qra; apply Qra; by eapply list_elem_of_lookup_2).
  destruct (Forall2_lookup_r _ _ _ _ _ Ga Hx) as (l & Hl & k1 & Hk1). split; [by apply quiet_app|].
  exists (S (max k1 k2)). intros [|f] Hf m refs mv p e out Hp Hsp Ho; [lia|]. destruct (Forall2_lookup_r _ _ _ _ _ Hp Hl) as ([ab ae] & Hr & Har).
  rewrite (pieces_argument f mv p e m refs out i (mkRef ab ae) (template t)); [|apply Hsp|lia|apply Hsp|done].
  rewrite (Hk1 f ltac:(lia) m ab ae out) by done. cbn [mbind option_bind fst snd].
  rewrite (Hk2 f ltac:(lia) m refs mv _ e (out ++ x)); [by rewrite <- app_assoc|done| |by apply quiet_app].
  exact (spot_app mv p e [1; Z.of_nat i] (template t) Hsp).
Qed.
Lemma end_step : loop_good End [].
Proof.
  intros _ _. split; [apply quiet_nil|]. exists 1%nat. intros [|f] Hf m p e b out g Hg Qg Hsp Ho; [lia|]. cbn [render] in Hsp. rewrite app_nil_r in *. by apply tokens_none.
Qed.
Lemma gap_step g s r : loop_good s r -> loop_good (Gap g s) (g ++ r).
Proof.
  intros IHs (Hg & Hs) Hq. cbn [render] in *. apply quiet_app in Hq as [Qg Qs]. destruct (IHs Hs Qs) as (Qr & k & Hk). split; [by apply quiet_app|].
  exists k. intros f Hf m p e b out g' Hg' Qg' Hsp Ho. rewrite (Hk f Hf m p e b out (g' ++ g)); [by rewrite <- app_assoc|by apply Forall_app|by apply quiet_app|by rewrite <- app_assoc|done].
Qed.

Lemma expansion_done : (forall s r, expands D s r -> loop_good s r) /\ (forall a ra, args_expand D a ra -> args_good a ra) /\ (forall t ra r, filled D t ra r -> filled_good t ra r).
Proof.
  apply expansion_ind; intros.
  - apply end_step.
  - by apply gap_step.
  - by apply word_step.
  - by eapply value_step.
  - by eapply call_step.
  - by split.
  - intros [Hx Ha] Hq. cbn [render_args] in *. apply Forall_cons in Hq as [Q1 Q2]. destruct (loop_subst x r H Hx Q1). destruct (H0 Ha Q2). split; by constructor.
  - intros n fs _ _ _ _ _. split; [apply quiet_nil|]. exists 1%nat. intros [|f] Hf m refs mv p e out _ (_ & (_ & He & _) & _) _; [lia|]. cbn [template map concat length] in He. cbn [pieces].
    rewrite (proj2 (Z.ltb_ge p e)) by (cbn in He; lia). by rewrite app_nil_r.
  - by apply literal_step.
  - by eapply argument_step.
Qed.
End Substitution.

(** The table stands for [D]. *)
Definition table_for (P : precompiler) (D : name -> option def) : Prop :=
  (forall w, is_word w -> macro_for P w = macro_of <$> D w) /\ (forall w d, D w = Some d -> def_ok d /\ quiet P (Value (macro_of d))) /\ quiet P [0; chr ","; chr "("; chr ")"; 1].

(** C14: the substitution of macros terminates and is correct, on the texts of the grammar
    [src]: for every table without cycles (each macro in a value of lower rank), objects
    and functions of fewer than 128 arguments, predefined or defined, and every text whose
    calls have the right arity, there is a result of the reference semantics [expands],
    and with enough fuel [SubsituteMacros] gives it, with no error or warning, leaving
    the table as it was.  The conditions: an argument is not empty, has its parentheses
    in pairs and holds neither a comma nor a quotation mark ([is_argument]), so that a
    call of two arguments cannot stand in an argument (its comma is taken for the outer
    call's, [nested_call]); the character the connecting operator begins with does not
    occur in text and values ([quiet], [table_for]); names have no prefix and no
    suffix. *)
Theorem substitution_correct P D rank s n : _MacroPrefix P = [] -> _MacroSuffix P = [] -> table_for P D ->
  (forall w d, D w = Some d -> closed_def D rank (rank w) d) -> closed D rank n s -> src_ok s -> quiet P (render s) ->
  exists r, expands D s r /\ exists k, forall fuel, (k <= fuel)%nat -> SubsituteMacros fuel P (render s) = Some (P, r).
Proof.
  intros Hp Hs (Ht & Hd & H0) Hr Hc Hok Hq. destruct (expands_below D rank Hr n s Hc) as [r He]. exists r. split; [done|].
  destruct (expansion_done P D Hp Hs Ht Hd H0) as [H _]. destruct (loop_subst P Hp s r (H s r He) Hok Hq) as (_ & k & Hk). exists k. intros fuel Hf.
  unfold SubsituteMacros, string_ref. rewrite (Hk fuel Hf _ 1 _ []); [done|by apply spot_string|by apply quiet_nil].
Qed.
