(* ===== verification/MacroDef.v ===== *)
(** The definition of macros: that [_DefineMacroFunction] numbers the arguments, the
    rules of redefinition, and the texts whose substitution does not end. *)
From stdpp Require Import gmap.
From S2P Require Import Prelude Str StrScan Macro MacroSpec.

(** ** The numbering of arguments *)

(** A value as its tokens, each with what is behind it. *)
Definition symbols (l : list Z) : Prop := Forall (fun c => symbol c = true) l.
Definition separators (l : list Z) : Prop := Forall (fun c => symbol c = false) l.
Definition value_text (ts : list (list Z * list Z)) : list Z := concat (map (fun x => x.1 ++ x.2) ts).
Fixpoint value_ok (ts : list (list Z * list Z)) : Prop :=
  match ts with
  | [] => True
  | (t, s) :: ts => symbols t /\ separators s /\ match ts with [] => t ++ s <> [] | (t', _) :: _ => s <> [] /\ t' <> [] end /\ value_ok ts
  end.
Definition numbered (fs : list (list Z)) (ts : list (list Z * list Z)) : list Z :=
  concat (map (fun x => match index_of 0 x.1 fs with Some i => [1; u8 i] | None => x.1 end ++ x.2) ts).

Definition symbol_char (c : Z) : bool := Has CharacterSet_Symbol c.
Definition separator_char (c : Z) : bool := negb (Has CharacterSet_Symbol c).
(** The text of a value in memory: neither of the two characters behind it is a symbol. *)
Definition value_at (m : mem) (p e : Z) (l : list Z) : Prop :=
  0 < p /\ holds m p l /\ e = p + zlen l /\ symbol_char (sc m e) = false /\ symbol_char (sc m (e + 1)) = false.
Definition next_start (value token non_token : ref) : Z :=
  let inside x := (rb value <=? re x) && (re x <=? re value) in
  if inside non_token then re non_token else if inside token then re token else rb value.

Lemma value_text_cons t s ts : value_text ((t, s) :: ts) = t ++ s ++ value_text ts.
Proof. unfold value_text. cbn. by rewrite <- app_assoc. Qed.
Lemma next_token m b e token non_token p t s ts : next_start (mkRef b e) token non_token = p -> b <= p -> value_ok ((t, s) :: ts) ->
  value_at m p e (value_text ((t, s) :: ts)) ->
  GetNextToken2 m (mkRef b e) token non_token CharacterSet_Symbol = Some (mkRef p (p + zlen t), mkRef (p + zlen t) (p + zlen t + zlen s)).
Proof.
  intros Hn Hb (Ht & Hs & Hx & Hts) (Hp & Hh & He & H1 & H2). rewrite value_text_cons in *. rewrite !length_app in He. unfold GetNextToken2.
  unfold next_start in Hn. cbn [rb re] in *. rewrite Hn. assert (Hlen : 0 < zlen t + zlen s) by (destruct ts as [|[] ts]; [destruct t, s; cbn in *; (done || lia)|destruct s; [tauto|cbn; lia]]).
  rewrite (proj2 (Z.leb_gt e p)) by lia. assert (Hs' : all separator_char s) by (eapply Forall_impl; [exact Hs|]; intros c Hc; unfold separator_char; unfold symbol in Hc; by rewrite Hc).
  change (Has CharacterSet_Symbol) with symbol_char. change (fun c => negb (symbol_char c)) with separator_char.
  rewrite (scan_spec symbol_char m t _ p (s ++ value_text ts)); [|lia|done|done|].
  2:{ destruct s as [|c s]; [|right; exists c, (s ++ value_text ts); by inversion Hs]. destruct ts as [|[]]; [left; cbn in *; lia|tauto]. }
  assert (Hh2 := Hh). apply holds_app in Hh2 as [_ Hh2]. destruct s as [|c s].
  - destruct ts as [|[]]; [|tauto]. cbn [value_text map concat length] in *. replace (p + zlen t) with e by (cbn in *; lia). rewrite H1.
    replace (Z.to_nat (e - (e + 1))) with 0%nat by lia. cbn [scan]. rewrite H2. do 3 f_equal. lia.
  - cbn [app] in Hh2. apply holds_cons_inv in Hh2 as [Hc Hh3]. apply Forall_cons in Hs as [Hsc Hs]. apply Forall_cons in Hs' as [_ Hs'].
    assert (Ec : symbol_char (sc m (p + zlen t)) = false) by (unfold sc; by rewrite Hc). rewrite Ec. cbn [length] in *.
    rewrite (scan_spec separator_char m s _ (p + zlen t + 1) (value_text ts)); [|lia|done|done|].
    + assert (Eq : p + zlen t + Z.of_nat (S (length s)) = p + zlen t + 1 + zlen s) by lia. rewrite Eq. destruct (symbol_char (sc m (p + zlen t + 1 + zlen s))) eqn:E; [reflexivity|]. do 3 f_equal.
      destruct ts as [|[[|c' t'] s'] ts]; [cbn [value_text map concat length] in *; lia|tauto|]. exfalso.
      apply holds_app in Hh3 as [_ Hh3]. rewrite value_text_cons in Hh3. apply holds_cons_inv in Hh3 as [Hc' _]. destruct Hts as [Ht' _]. apply Forall_cons in Ht' as [Ht' _].
      unfold sc in E. rewrite Hc' in E. unfold symbol in Ht'. unfold symbol_char in E. congruence.
    + destruct ts as [|[[|c' t'] s'] ts]; [left; cbn [value_text map concat length] in *; lia|tauto|]. right. exists c', (t' ++ s' ++ value_text ts). split; [by rewrite value_text_cons|].
      destruct Hts as [Ht' _]. apply Forall_cons in Ht' as [Ht' _]. unfold separator_char. unfold symbol in Ht'. by rewrite Ht'.
Qed.

Lemma numbered_cons fs t s ts : numbered fs ((t, s) :: ts) = match index_of 0 t fs with Some i => [1; u8 i] | None => t end ++ s ++ numbered fs ts.
Proof. unfold numbered. cbn. by rewrite <- app_assoc. Qed.
Lemma numbered_nil ts : numbered [] ts = value_text ts.
Proof. done. Qed.
Lemma number_arguments_spec m b e fs : forall ts fuel p token non_token out, 0 < b -> b <= p -> next_start (mkRef b e) token non_token = p -> value_ok ts -> value_at m p e (value_text ts) ->
  (length (value_text ts) < fuel)%nat -> number_arguments fuel m (mkRef b e) token non_token fs out = Some (out ++ numbered fs ts).
Proof.
  induction ts as [|[t s] ts IH]; intros [|f] p token non_token out H0 Hb Hn Hok Hv Hf; try lia; cbn [number_arguments].
  - unfold GetNextToken2. unfold next_start in Hn. cbn [rb re] in *. rewrite Hn. destruct Hv as (_ & _ & He & _). cbn in He. rewrite (proj2 (Z.leb_le e p)) by lia. by rewrite app_nil_r.
  - rewrite (next_token m b e token non_token p t s ts) by done. assert (Hv' := Hv). destruct Hv as (Hp & Hh & He & H1 & H2). rewrite value_text_cons in *. rewrite !length_app in *.
    apply holds_app in Hh as [Ht Hh]. apply holds_app in Hh as [Hs Hh]. rewrite (holds_text m p t Ht), (holds_text m _ s Hs). destruct Hok as (_ & _ & Hx & Hok).
    rewrite (IH f (p + zlen t + zlen s)); [by rewrite numbered_cons, <- !app_assoc|done|lia| |done| |].
    + unfold next_start. cbn [rb re]. rewrite (proj2 (Z.leb_le b _)), (proj2 (Z.leb_le _ e)) by lia. done.
    + split; [lia|split; [exact Hh|split; [lia|split; assumption]]].
    + assert (0 < length t + length s)%nat; [|lia]. destruct ts as [|[]]; [destruct t, s; cbn in *; (done || lia)|destruct s; [tauto|cbn; lia]].
Qed.


(** ** The rules of definition *)

Lemma symbols_all (Q : Z -> bool) : forallb Q (str "0123456789" ++ alphabet ++ str "_") = true -> forall c, Has CharacterSet_Symbol c = true -> Q c = true.
Proof.
  intros H c Hs. destruct alphabet_pos as [_ A2]. unfold CharacterSet_Symbol in Hs. rewrite (Has_CharacterSet _ c A2) in Hs. rewrite forallb_forall in H. by apply H.
Qed.
Lemma symbol_not_blank c : blank c = true -> Has CharacterSet_Symbol c = true -> False.
Proof. intros H Hs. apply (symbols_all (fun c => negb (blank c))) in Hs; [by rewrite H in Hs|vm_compute; reflexivity]. Qed.

(** The arguments as written: names with a comma between them. *)
Lemma TrimSpace_word m p w : 0 < p -> is_word w -> holds m p w -> text m (TrimSpace m (mkRef p (p + zlen w))) = w.
Proof.
  intros Hp Hw Hh. destruct (TrimSpace_spec m (mkRef p (p + zlen w)) w) as (a & v & b & E & Ha & Hb & [Hr Hl] & _); [split; [done|unfold GetLength; cbn; lia]|cbn; lia|cbn; lia|].
  assert (Hs : Forall (fun c => symbol c = true) w) by (destruct w as [|c w]; [done|destruct Hw; constructor; [by apply initial_symbol|done]]).
  assert (Hn : forall l, all blank l -> Forall (fun c => symbol c = true) l -> l = []).
  { intros [|c l] H1 H2; [done|]. apply Forall_cons in H1 as [H1 _]. apply Forall_cons in H2 as [H2 _]. destruct (symbol_not_blank _ H1 H2). }
  subst w. apply Forall_app in Hs as [Hs1 Hs]. apply Forall_app in Hs as [_ Hs2]. assert (a = []) as -> by by apply Hn. assert (b = []) as -> by by apply Hn. rewrite app_nil_r in *. cbn [app] in *.
  unfold text. rewrite Hl, Nat2Z.id. exact Hr.
Qed.

Lemma word_argument w : is_word w -> is_argument w.
Proof.
  intros Hw. assert (Hs : Forall (fun c => symbol c = true) w) by (destruct w as [|c w]; [done|destruct Hw; constructor; [by apply initial_symbol|done]]).
  split; [by destruct w|]. split.
  - clear Hw. induction Hs as [|c w Hc Hs IH]; [done|]. cbn [level]. assert (A := symbols_all (fun c => negb (c =? chr "(")) eq_refl _ Hc). assert (B := symbols_all (fun c => negb (c =? chr ")")) eq_refl _ Hc).
    cbn beta in *. apply negb_true_iff in A, B. by rewrite A, B.
  - eapply Forall_impl; [exact Hs|]. intros c Hc.
    assert (A := symbols_all (fun c => negb (Has (CharacterSet [chr ","]) c) && negb (c =? c_quot) && negb (c =? c_apos)) eq_refl _ Hc). cbn beta in A.
    apply andb_true_iff in A as [A A3]. apply andb_true_iff in A as [A A2]. apply negb_true_iff in A, A2, A3. rewrite Z.eqb_neq in A2, A3. done.
Qed.
Lemma names_of m fs : forall p, 0 < p -> Forall is_word fs -> holds m p (commas fs) ->
  match field_refs p fs with f0 :: f => text m f0 :: map (fun x => text m (TrimSpace m x)) f | [] => [] end = fs /\ map (fun x => text m (TrimSpace m x)) (field_refs p fs) = fs.
Proof.
  induction fs as [|f fs IH]; intros p Hp Hok Hh; [done|]. apply Forall_cons in Hok as [Hf Hok]. cbn [field_refs map]. destruct fs as [|g fs].
  - cbn [commas field_refs map] in *. by rewrite holds_text, TrimSpace_word.
  - change (commas (f :: g :: fs)) with (f ++ chr "," :: commas (g :: fs)) in Hh. apply holds_app in Hh as [H1 H2]. apply holds_cons_inv in H2 as [_ H2].
    destruct (IH (p + zlen f + 1) ltac:(lia) Hok H2) as [_ E]. by rewrite E, holds_text, TrimSpace_word.
Qed.

(** C17: a macro function is defined as written: when the name is neither predefined
    nor defined, for up to 256 argument names separated by single commas without blanks,
    and a value behind which the next two characters are no symbols ([value_at]),
    [_DefineMacroFunction] stores the number of arguments and the value with every token
    that is an argument replaced by its number; no other token and nothing between the
    tokens changes.  (A blank in front of the first name is taken for a part of it,
    [first_name_kept]; a symbol behind the end of the line is read as well,
    [swallowed_newline].) *)
Theorem define_function P m macro fs ts pa ea pv ev : let name := text m macro in
  is_predefined P name = false -> _Macros P !! name = None -> Forall is_word fs -> (length fs <= 256)%nat -> value_ok ts ->
  0 < pa -> ea = pa + zlen (commas fs) -> holds m pa (commas fs) -> value_at m pv ev (value_text ts) ->
  _DefineMacroFunction P m macro (mkRef pv ev) (mkRef pa ea) =
    Some (set_macros P (<[name := mkMacro (zlen fs) (numbered fs ts)]> (_Macros P)), true).
Proof.
  intros name Hp Hn Hf Hlen Hok Hpa -> Ha Hv. unfold _DefineMacroFunction. fold name. rewrite Hp, Hn. rewrite bool_decide_eq_false_2 by (intros [? E]; done).
  rewrite split_args; [|done|by eapply Forall_impl; [exact Hf|apply word_argument]|done|done]. cbn [mbind option_bind]. destruct (names_of m fs pa Hpa Hf Ha) as [E _]. rewrite E, length_field_refs.
  assert (Hv' := Hv). destruct Hv as (Hpv & Hh & He & _). destruct fs as [|f fs].
  - cbn [length]. change (Z.of_nat 0 =? 0) with true. cbn match. subst ev. rewrite (holds_text m pv _ Hh). rewrite (numbered_nil ts). reflexivity.
  - cbn [length]. rewrite (proj2 (Z.eqb_neq _ 0)) by lia.
    rewrite (number_arguments_spec m pv ev (f :: fs) ts _ pv null_ref null_ref []); [done|done|lia| |done|exact Hv'|unfold str_len, GetLength; cbn [rb re]; lia].
    unfold next_start. cbn [rb re null_ref]. by rewrite (proj2 (Z.leb_gt pv 0)) by lia.
Qed.

(** ** Texts whose substitution does not end *)

(** A macro that is its own value is substituted for ever. *)
Theorem self_reference P w : _MacroPrefix P = [] -> _MacroSuffix P = [] -> _MacroConnectOp P = [] -> is_word w -> _Macros P !! w = Some (mkMacro (-1) w) ->
  forall fuel out, subst fuel P (string_mem w) (string_ref w) out = None.
Proof.
  intros H1 H2 H3 Hw Hm. induction fuel as [fuel IH] using lt_wf_ind. intros out. assert (Q : forall l, quiet P l) by (intros l; unfold quiet; by rewrite H3).
  destruct (spot_string P (Q _) w (Q w)) as (_ & Ha & _). assert (Hh := Ha). destruct Hh as (Hh & _).
  assert (T := token_at P H1 H2 (string_mem w) 1 [] w []). cbn [app length] in T. rewrite app_nil_r, Z.add_0_r in T. specialize (T (Forall_nil_2 _) Hw I Ha).
  assert (Hl : 0 < zlen w) by (destruct w; [done|cbn; lia]).
  destruct fuel as [|[|f]]; [done| |]; cbn [subst]; unfold IsEmpty, string_ref; cbn [rb re]; rewrite (proj2 (Z.eqb_neq (1 + zlen w) 1)) by lia; cbn [Z.eqb Pos.eqb orb]; [done|].
  cbn [tokens re rb]. rewrite T. cbn [mbind option_bind rb re]. rewrite H1. cbn [length]. change (piece (string_mem w) 1 (1 - Z.of_nat 0)) with (Some (@nil Z)). cbn [mbind option_bind].
  rewrite (holds_text _ 1 w Hh), Hm. cbn [ArgmentCount Value Z.eqb Pos.eqb]. rewrite H2. cbn [andb negb bool_decide]. rewrite (IH f ltac:(lia)). done.
Qed.
(** Nor does a call end in which the parenthesis is not directly behind the name. *)
Theorem distant_parenthesis m p e : p < e -> sc m p <> chr "(" -> forall fuel, seek_parenthesis fuel m p e = None.
Proof. intros Hp Hc. induction fuel as [|f IH]; [done|]. cbn [seek_parenthesis]. by rewrite (proj2 (Z.ltb_lt p e)), (proj2 (Z.eqb_neq _ _)). Qed.

(** ** Examples *)

Definition ex_list : list (name * def) :=
  [(str "PI", Obj (Gap (str "3.14") End)); (str "TWO_PI", Obj (Gap (str "2*") (Word (str "PI") End)));
   (str "SQ", Fun 1 [Lit (Gap (str "(") End); Par 0; Lit (Gap (str ")*(") End); Par 0; Lit (Gap (str ")") End)])].
Definition ex_table : gmap name def := list_to_map ex_list.
Definition ex_pre : precompiler := mkPre [] [] [] None (macro_of <$> ex_table) 0 0.
Definition ex_text : src :=
  Word (str "x") (Gap (str "=") (Call (str "SQ") (Arg (Word (str "TWO_PI") (Gap (str "+1") End)) No) (Gap (str ";") End))).
Definition ex_rank (w : name) : nat := if bool_decide (w = str "TWO_PI") then 1 else 0.
Example ex_substitution : option_map snd (SubsituteMacros 40 ex_pre (render ex_text)) = Some (str "x=(2*3.14+1)*(2*3.14+1);").
Proof. vm_compute. reflexivity. Qed.
Lemma ex_cases (Q : name -> def -> Prop) : Forall (fun x => Q x.1 x.2) ex_list -> forall w d, ex_table !! w = Some d -> Q w d.
Proof. intros H w d E%elem_of_list_to_map_2. rewrite Forall_forall in H. exact (H (w, d) E). Qed.
(** A decision of the side conditions on characters. *)
Ltac each_char := repeat first [apply Forall_nil_2 | apply Forall_cons_2; [vm_compute; repeat split; first [reflexivity | discriminate]|]].
Ltac text_ok := repeat split; try solve [each_char | discriminate | vm_compute; (reflexivity || lia)].

Lemma ex_table_for : table_for ex_pre (fun w => ex_table !! w).
Proof.
  split; [|split; [|done]].
  - intros w _. unfold macro_for, ex_pre. cbn [_Macros _pPredefined]. rewrite lookup_fmap. by destruct (ex_table !! w).
  - apply (ex_cases (fun w d => def_ok d /\ quiet ex_pre (Value (macro_of d)))). unfold ex_list. repeat constructor; cbn; text_ok.
Qed.
Lemma substitution_correct_witness : exists r, expands (fun w => ex_table !! w) ex_text r /\ exists k, forall fuel, (k <= fuel)%nat -> SubsituteMacros fuel ex_pre (render ex_text) = Some (ex_pre, r).
Proof.
  apply (substitution_correct ex_pre (fun w => ex_table !! w) ex_rank ex_text 2); [done|done|apply ex_table_for| | | |done].
  - apply (ex_cases (fun w d => closed_def (fun w => ex_table !! w) ex_rank (ex_rank w) d)). unfold ex_list. repeat constructor; vm_compute; lia.
  - vm_compute. repeat split; lia.
  - cbn. text_ok. apply Forall_singleton. text_ok.
Defined.

Definition empty_pre : precompiler := mkPre [] [] [] None ∅ 0 0.
Definition ex_define : mem := string_mem (str "F(a,b) a+b*a2 ;").
Definition ex_names : list name := [str "a"; str "b"].
Definition ex_value : list (list Z * list Z) := [(str "a", str "+"); (str "b", str "*"); (str "a2", [])].
Lemma define_function_witness :
  _DefineMacroFunction empty_pre ex_define (mkRef 1 2) (mkRef 8 14) (mkRef 3 6) =
    Some (set_macros empty_pre (<[text ex_define (mkRef 1 2) := mkMacro (zlen ex_names) (numbered ex_names ex_value)]> (_Macros empty_pre)), true).
Proof.
  apply (define_function empty_pre ex_define (mkRef 1 2) ex_names ex_value 3 6 8 14); try done.
  - unfold ex_names. repeat constructor.
  - cbn; lia.
  - cbn. text_ok.
Defined.
(** With LF at the ends of lines: the LF behind the value is taken into it when the
    next line begins with a symbol. *)
Example swallowed_newline : option_map (fun x => GetMacroDefinition x.1 (str "F")) (_DefineMacroFunction empty_pre (string_mem (str "F(a) a" ++ [10] ++ str "int")) (mkRef 1 2) (mkRef 6 7) (mkRef 3 4)) = Some [1; 0; 10].
Proof. vm_compute. reflexivity. Qed.
(** The first name is not trimmed, the others are. *)
Example first_name_kept : option_map (fun x => GetMacroDefinition x.1 (str "F")) (_DefineMacroFunction empty_pre (string_mem (str "F( a, b) a b;")) (mkRef 1 2) (mkRef 10 13) (mkRef 3 8)) = Some (str "a " ++ [1; 1]).
Proof. vm_compute. reflexivity. Qed.
(** The commas of a call within a call count for the outer one. *)
Definition two_table : gmap name macro := {[str "ADD" := mkMacro 2 ([1; 0] ++ str "+" ++ [1; 1]); str "G" := mkMacro 2 ([1; 0] ++ str "-" ++ [1; 1])]}.
Example nested_call : option_map (fun x => (_ErrorCount x.1, x.2)) (SubsituteMacros 40 (set_macros empty_pre two_table) (str "ADD(G(1,2),3)")) = Some (1, str "ADD(1-2,3)").
Proof. vm_compute. reflexivity. Qed.
(** Words within numbers are words. *)
Example word_in_number : option_map snd (SubsituteMacros 40 (set_macros empty_pre {[str "x10" := mkMacro (-1) (str "?")]}) (str "0x10")) = Some (str "0?").
Proof. vm_compute. reflexivity. Qed.
Definition dollar_pre (s : list Z) : precompiler := mkPre (str "$(") s [] None {[str "A" := mkMacro (-1) (str "1")]} 0 0.
(** With a prefix and a suffix: a token that is no macro loses both; a text shorter
    than twice the prefix and one is not searched. *)
Example unmatched_stripped : option_map snd (SubsituteMacros 40 (dollar_pre (str ")")) (str "$(A) $(B) x")) = Some (str "1 B x").
Proof. vm_compute. reflexivity. Qed.
Example short_text_unseen : option_map snd (SubsituteMacros 40 (dollar_pre (str ")")) (str "$(A)")) = Some (str "$(A)").
Proof. vm_compute. reflexivity. Qed.
