(* ===== verification/Cond.v ===== *)
(** The conditional directives of os/precompiler.cpp: the expressions of [#if], the
    search for the end of a branch, and the loop over the lines of a file. *)
From stdpp Require Import gmap.
From S2P Require Import Prelude Str StrScan Macro.

(** ** Directives *)

Definition s_if : list Z := str "#if".
Definition s_elif : list Z := str "#elif".
Definition s_else : list Z := str "#else".
Definition s_endif : list Z := str "#endif".
Definition s_ifdef : list Z := str "#ifdef".
Definition s_ifndef : list Z := str "#ifndef".
Definition s_define : list Z := str "#define".
Definition s_undef : list Z := str "#undef".
(** [CharacterSet_ControlChar]: the given characters and all below the space. *)
Definition control_chars : list Z := map Z.of_nat (seq 1 31).
Definition CharacterSet_ControlChar (p : list Z) : cset := CharacterSet (p ++ control_chars).
Definition directive_sep : cset := CharacterSet_ControlChar [32; 9].

Definition is_text (l x : list Z) : bool := bool_decide (l = x).
Definition starts_with (l prefix : list Z) : bool := bool_decide (take (length prefix) l = prefix).
Definition _IsMacroBranchCloseDirective (d : list Z) : bool := is_text d s_elif || is_text d s_else || is_text d s_endif.
Definition _IsMacroBranchOpenDirective (d : list Z) : bool := is_text d s_elif || is_text d s_else || starts_with d s_if.

Section Files.
(** [rt::Expression<float>]: whether the value of an expression is not zero; [None]
    when it does not compile. *)
Context (eval : list Z -> option bool).

Definition if_ops : cset := CharacterSet (str "()-=+!~:/?*&^%<> " ++ [9; 13; 10]).
Definition next_begin (rest : list ref) (e : Z) : Z := match rest with n :: _ => rb n | [] => e end.
(** The loop over the operands of an expression: those of [defined] are replaced by
    true or false, the others are substituted. *)
Fixpoint translate (fuel : nat) (P : precompiler) (m : mem) (e : Z) (vars : list ref) (translated : list Z) : option (precompiler * option (list Z)) :=
  match vars with
  | [] => Some (P, Some translated)
  | v :: vars =>
    if is_text (text m v) (str "defined") then
      match vars with
      | [] => Some (PrintError P, None)
      | v1 :: vars =>
        let translated := translated ++ if IsMacroDefined P (text m v1) then str " true " else str " false " in
        let op := TrimSpace m (mkRef (re v1) (next_begin vars e)) in
        if IsEmpty op || negb (sc m (rb op) =? chr ")") then Some (PrintError P, None)
        else translate fuel P m e vars (translated ++ text m (SubStr_from op 1))
      end
    else
      r ← subst fuel P m v translated;
      translate fuel (r : precompiler * list Z).1 m e vars (r.2 ++ text m (TrimSpace m (mkRef (re v) (next_begin vars e))))
  end.
Definition quotes_replaced (l : list Z) : list Z := map (fun c => if c =? c_quot then c_apos else c) l.

(** The result of a test; [None] for a directive in error. *)
Definition _EvalueMacroIf (fuel : nat) (P : precompiler) (m : mem) (directive : list Z) (expr : ref) : option (precompiler * option bool) :=
  if is_text directive s_ifdef then Some (P, Some (IsMacroDefined P (text m expr)))
  else if is_text directive s_ifndef then Some (P, Some (negb (IsMacroDefined P (text m expr))))
  else if is_text directive s_else then Some (P, Some true)
  else if is_text directive s_if || is_text directive s_elif then
    vars ← Split true m expr 1023 if_ops;
    r ← translate fuel P m (re expr) vars (text m (mkRef (rb expr) (next_begin vars (re expr))));
    match r : precompiler * option (list Z) with
    | (P, None) => Some (P, None)
    | (P, Some translated) =>
      match eval (quotes_replaced translated) with
      | Some b => Some (P, Some b)
      | None => Some (PrintError P, None)
      end
    end
  else Some (PrintError P, None).

(** The next directive that ends a branch, or the last line. *)
Fixpoint _SeekToNextCloseDirective (fuel : nat) (m : mem) (content line : ref) (enclosure_level : Z) : option (ref * bool) :=
  match fuel with
  | O => None
  | S f =>
    match GetNextLine m content line true with
    | None => Some (line, false)
    | Some line =>
      d ← TrimAfter m line directive_sep;
      let directive := TrimSpace m d in
      let again := _SeekToNextCloseDirective f m content line in
      if sc m (rb directive) =? chr "#" then
        let d := text m directive in
        if (enclosure_level =? 0) && _IsMacroBranchCloseDirective d then Some (line, true)
        else if starts_with d s_if then again (enclosure_level + 1)
        else if is_text d s_endif then again (enclosure_level - 1)
        else again enclosure_level
      else again enclosure_level
    end
  end.

(** The first three fields of a directive. *)
Definition fields (m : mem) (control_line : ref) : option (list ref) := Split_ true 0 0 directive_sep m control_line 3.
Definition field (m : mem) (f : list ref) (i : nat) : ref := nth i f null_ref.

(** [None]: a macro function without its closing parenthesis, whose argument is a
    text that ends before it begins. *)
Definition define_line (P : precompiler) (m : mem) (control_line : ref) (f : list ref) : option precompiler :=
  let func := FindCharacter m (field m f 1) (chr "(") 0 in
  if 0 <? func then
    let arg_start := 1 + func + rb (field m f 1) - rb control_line in
    let arg_end := FindCharacter m control_line (chr ")") arg_start in
    if arg_end <? 0 then None
    else
      fst <$> _DefineMacroFunction P m (SubStrHead (field m f 1) func) (TrimSpace m (mkRef (rb control_line + arg_end + 1) (re control_line)))
        (mkRef (rb control_line + arg_start) (rb control_line + arg_end))
  else if (length f =? 3)%nat then Some (_DefineMacro P (text m (field m f 1)) (text m (mkRef (rb (field m f 2)) (re control_line)))).1
  else Some (_DefineMacro P (text m (field m f 1)) []).1.

(** The branches of an [#if], up to the one that is entered, or the end. *)
Fixpoint if_loop (fuel : nat) (P : precompiler) (m : mem) (content line control_line : ref) (f : list ref) : option (precompiler * ref * bool) :=
  match fuel with
  | O => None
  | S k =>
    let expr := if (1 <? length f)%nat then mkRef (rb (field m f 1)) (re control_line) else null_ref in
    r ← _EvalueMacroIf k P m (text m (field m f 0)) expr;
    let '(P, go_if) := r : precompiler * option bool in
    let P := match go_if with None => PrintError P | _ => P end in
    if default false go_if then Some (P, line, true)
    else
      s ← _SeekToNextCloseDirective k m content line 0;
      let '(line, found) := s : ref * bool in
      if found then
        let control_line := TrimSpace m line in
        f ← fields m control_line;
        if is_text (text m (field m f 0)) s_endif then Some (P, line, false) else if_loop k P m content line control_line f
      else Some (PrintError P, line, false)
  end.
(** The rest of a conditional, behind the branch that was entered. *)
Fixpoint skip_loop (fuel : nat) (P : precompiler) (m : mem) (content line : ref) (f0 : list Z) : option (precompiler * ref) :=
  match fuel with
  | O => None
  | S k =>
    if is_text f0 s_endif then Some (P, line)
    else
      s ← _SeekToNextCloseDirective k m content line 0;
      let '(line, found) := s : ref * bool in
      if found then f ← fields m (TrimSpace m line); skip_loop k P m content line (text m (field m f 0))
      else Some (PrintError P, line)
  end.

(** [_SubsituteFile]: the loop over the lines. *)
Fixpoint file_loop (fuel : nat) (P : precompiler) (m : mem) (content line : ref) (branch_level : Z) (output : list Z) : option (precompiler * list Z) :=
  match fuel with
  | O => None
  | S k =>
    match GetNextLine m content line false with
    | None => Some (P, output)
    | Some line =>
      let control_line := TrimSpace m line in
      let plain (_ : unit) :=
        r ← subst k P m line output;
        file_loop k (r : precompiler * list Z).1 m content line branch_level (r.2 ++ [13; 10]) in
      if sc m (rb control_line) =? chr "#" then
        f ← fields m control_line;
        let f0 := text m (field m f 0) in
        if is_text f0 s_define then
          P ← define_line P m control_line f;
          file_loop k P m content line branch_level output
        else if is_text f0 s_undef && (length f =? 2)%nat then
          file_loop k (_UndefineMacro P (text m (field m f 1))).1 m content line branch_level output
        else if starts_with f0 s_if then
          r ← if_loop k P m content line control_line f;
          let '(P, line, entered) := r : precompiler * ref * bool in
          file_loop k P m content line (if entered then branch_level + 1 else branch_level) output
        else if _IsMacroBranchCloseDirective f0 then
          r ← skip_loop k P m content line f0;
          let '(P, line) := r : precompiler * ref in
          if 0 <? branch_level then file_loop k P m content line (branch_level + 1) output
          else file_loop k (PrintError P) m content line branch_level output
        else plain tt
      else plain tt
    end
  end.
Definition _SubsituteFile (fuel : nat) (P : precompiler) (m : mem) (content : ref) : option (precompiler * list Z) :=
  file_loop fuel P m content null_ref 0 [].
End Files.
