(* ===== verification/CondSpec.v ===== *)
(** What conditional directives are meant to do, on files as trees of lines, and that
    the loop of [_SubsituteFile] does it. *)
From stdpp Require Import gmap.
From S2P Require Import Prelude Str StrScan Macro Cond.

(** ** Files *)

(** Lines, and groups of branches, each with its directive, closed by an [#endif]. *)
Inductive file :=
  | Done
  | Plain (line : ref) (f : file)
  | Group (bs : branches) (e : ref) (f : file)
with branches := NoBranch | Branch (h : ref) (b : file) (bs : branches).
Scheme file_mut := Induction for file Sort Prop
  with branches_mut := Induction for branches Sort Prop.
Combined Scheme file_branches_ind from file_mut, branches_mut.

Fixpoint flines (f : file) : list ref :=
  match f with Done => [] | Plain l f => l :: flines f | Group bs e f => blines bs ++ e :: flines f end
with blines (bs : branches) : list ref := match bs with NoBranch => [] | Branch h b bs => h :: flines b ++ blines bs end.

(** *** What a line is, for the loop over the lines and for the search *)
Inductive kind := KOther | KIf | KElse | KEndif.
Definition word_kind (d : list Z) : kind :=
  if is_text d s_endif then KEndif else if _IsMacroBranchCloseDirective d then KElse else if starts_with d s_if then KIf else KOther.
Definition seek_kind (m : mem) (line : ref) : kind :=
  match TrimAfter m line directive_sep with
  | Some d => let d := TrimSpace m d in if sc m (rb d) =? chr "#" then word_kind (text m d) else KOther
  | None => KOther
  end.
Definition loop_kind (m : mem) (line : ref) : kind :=
  let c := TrimSpace m line in
  if sc m (rb c) =? chr "#" then match fields m c with Some f => word_kind (text m (field m f 0)) | None => KOther end else KOther.
Definition blank_line (line : ref) : bool := re line =? rb line.
Definition directive (m : mem) (k : kind) (line : ref) : Prop := blank_line line = false /\ seek_kind m line = k /\ loop_kind m line = k.
Definition plain (m : mem) (line : ref) : Prop := loop_kind m line = KOther /\ (blank_line line = false -> TrimAfter m line directive_sep <> None /\ seek_kind m line = KOther).

(** Directives both find alike; the first branch of a group has an [#if], the others
    have an [#elif] or [#else]. *)
Fixpoint file_ok (m : mem) (f : file) : Prop :=
  match f with
  | Done => True
  | Plain l f => plain m l /\ file_ok m f
  | Group bs e f => match bs with NoBranch => False | Branch h b bs => directive m KIf h /\ file_ok m b /\ tail_ok m bs end /\ directive m KEndif e /\ file_ok m f
  end
with tail_ok (m : mem) (bs : branches) : Prop :=
  match bs with NoBranch => True | Branch h b bs => directive m KElse h /\ file_ok m b /\ tail_ok m bs end.

(** ** What is meant *)

Section Meaning.
Context (eval : list Z -> option bool) (m : mem).

(** A line that is no conditional directive. *)
Definition plain_line (fuel : nat) (P : precompiler) (line : ref) (output : list Z) : option (precompiler * list Z) :=
  let control_line := TrimSpace m line in
  let plain := r ← subst fuel P m line output; Some ((r : precompiler * list Z).1, r.2 ++ [13; 10]) in
  if sc m (rb control_line) =? chr "#" then
    f ← fields m control_line;
    let f0 := text m (field m f 0) in
    if is_text f0 s_define then P ← define_line P m control_line f; Some (P, output)
    else if is_text f0 s_undef && (length f =? 2)%nat then Some ((_UndefineMacro P (text m (field m f 1))).1, output)
    else plain
  else plain.
Definition line_test (fuel : nat) (P : precompiler) (line : ref) : option (precompiler * option bool) :=
  let control_line := TrimSpace m line in
  f ← fields m control_line;
  _EvalueMacroIf eval fuel P m (text m (field m f 0)) (if (1 <? length f)%nat then mkRef (rb (field m f 1)) (re control_line) else null_ref).
Definition line_does P line o P' o' : Prop := exists k, forall fuel, (k <= fuel)%nat -> plain_line fuel P line o = Some (P', o').
Definition tests P line P' (go : option bool) : Prop := exists k, forall fuel, (k <= fuel)%nat -> line_test fuel P line = Some (P', go).

(** Lines one after the other; of a group the first branch whose test holds. *)
Inductive runs : precompiler -> file -> list Z -> precompiler -> list Z -> Prop :=
  | r_done P o : runs P Done o P o
  | r_plain P l f o P1 o1 P2 o2 : line_does P l o P1 o1 -> runs P1 f o1 P2 o2 -> runs P (Plain l f) o P2 o2
  | r_group P bs e f o P1 o1 P2 o2 : takes P bs o P1 o1 -> runs P1 f o1 P2 o2 -> runs P (Group bs e f) o P2 o2
with takes : precompiler -> branches -> list Z -> precompiler -> list Z -> Prop :=
  | t_none P o : takes P NoBranch o P o
  | t_enter P h b bs o P1 P2 o2 : tests P h P1 (Some true) -> runs P1 b o P2 o2 -> takes P (Branch h b bs) o P2 o2
  | t_next P h b bs o P1 P2 o2 : tests P h P1 (Some false) -> takes P1 bs o P2 o2 -> takes P (Branch h b bs) o P2 o2
  | t_error P h b bs o P1 P2 o2 : tests P h P1 None -> takes (PrintError P1) bs o P2 o2 -> takes P (Branch h b bs) o P2 o2.
Scheme runs_mut := Induction for runs Sort Prop
  with takes_mut := Induction for takes Sort Prop.
Combined Scheme runs_takes_ind from runs_mut, takes_mut.
End Meaning.

(** ** The lines that are read *)

Section Lines.
Context (m : mem) (content : ref).

(** Behind [x] come these lines; a blank line is passed over by a search. *)
Fixpoint stream (x : ref) (rs : list ref) : Prop :=
  match rs with
  | [] => GetNextLine m content x false = None /\ GetNextLine m content x true = None
  | r :: rs => GetNextLine m content x false = Some r /\ GetNextLine m content x true = (if blank_line r then GetNextLine m content r true else Some r) /\ stream r rs
  end.
Definition head_line (rs : list ref) : Prop := match rs with r :: _ => blank_line r = false | [] => False end.

Lemma stream_some rs rest : forall x, stream x (rs ++ rest) -> head_line rest -> is_Some (GetNextLine m content x true).
Proof.
  induction rs as [|r rs IH]; intros x H Hr; cbn [app stream] in H.
  - destruct rest as [|r rest]; [done|]. destruct H as (_ & -> & _). cbn in Hr. by rewrite Hr.
  - destruct H as (_ & -> & H). destruct (blank_line r); [by apply IH|done].
Qed.

(** *** The search passes over the lines of a branch *)
Abbreviation seek := (fun fuel x level => _SeekToNextCloseDirective fuel m content x level).
Definition on_line (f : nat) (line : ref) (level : Z) : option (ref * bool) :=
  match seek_kind m line with
  | KOther => seek f line level
  | KIf => seek f line (level + 1)
  | KElse => if level =? 0 then Some (line, true) else seek f line level
  | KEndif => if level =? 0 then Some (line, true) else seek f line (level - 1)
  end.
Lemma seek_line f x line level : GetNextLine m content x true = Some line -> TrimAfter m line directive_sep <> None -> seek (S f) x level = on_line f line level.
Proof.
  intros E Ht. cbn [_SeekToNextCloseDirective]. rewrite E. unfold on_line, seek_kind. destruct (TrimAfter m line directive_sep) as [d|]; [|done]. cbn [mbind option_bind].
  destruct (sc m _ =? chr "#"); [|done]. set (t := text m (TrimSpace m d)). unfold word_kind, _IsMacroBranchCloseDirective, is_text, starts_with.
  case_bool_decide as E1; [rewrite E1; cbn; by destruct (level =? 0)|]. case_bool_decide as E2; [rewrite E2; cbn; by destruct (level =? 0)|].
  case_bool_decide as E3; [rewrite E3; cbn; by destruct (level =? 0)|]. cbn [orb]. rewrite andb_false_r. by case_bool_decide.
Qed.
Lemma directive_line k line : directive m k line -> k <> KOther -> blank_line line = false /\ TrimAfter m line directive_sep <> None.
Proof. intros (H & Hs & _) Hk. split; [done|]. unfold seek_kind in Hs. by destruct (TrimAfter m line directive_sep). Qed.
Lemma seek_directive f x line rs k level : directive m k line -> k <> KOther -> stream x (line :: rs) -> seek (S f) x level = on_line f line level.
Proof. intros Hd Hk (_ & E & _). destruct (directive_line k line Hd Hk) as [Hb Ht]. rewrite Hb in E. by apply seek_line. Qed.

(** The search from [x] goes on from [x'], a number of lines later. *)
Definition passes (x : ref) (level : Z) (x' : ref) (level' : Z) : Prop := exists k, forall fuel, seek (k + fuel)%nat x level = seek fuel x' level'.
Lemma passes_refl x level : passes x level x level.
Proof. by exists 0%nat. Qed.
Lemma passes_trans a la b lb c lc : passes a la b lb -> passes b lb c lc -> passes a la c lc.
Proof. intros [k1 H1] [k2 H2]. exists (k1 + k2)%nat. intros fuel. by rewrite <- Nat.add_assoc, H1. Qed.
Lemma passes_line k line level' x rs level : directive m k line -> k <> KOther -> stream x (line :: rs) -> (forall f, on_line f line level = seek f line level') -> passes x level line level'.
Proof. intros Hd Hk Hs H. exists 1%nat. intros fuel. cbn [Nat.add]. rewrite (seek_directive fuel x line rs k) by done. apply H. Qed.

Lemma head_branches bs rest : tail_ok m bs -> head_line rest -> head_line (blines bs ++ rest).
Proof. intros Hb Hr. destruct bs as [|h b bs]; cbn; [done|]. apply Hb. Qed.
(** Behind the directive of the first branch. *)
Definition inner_ok (bs : branches) : Prop := match bs with NoBranch => False | Branch h b bs => file_ok m b /\ tail_ok m bs end.
Definition inner_lines (bs : branches) : list ref := match bs with NoBranch => [] | Branch h b bs => flines b ++ blines bs end.
Lemma skip_over :
  (forall f, file_ok m f -> forall x rest level, 0 <= level -> head_line rest -> stream x (flines f ++ rest) -> exists x', stream x' rest /\ passes x level x' level) /\
  (forall bs, inner_ok bs -> forall x rest level, 0 < level -> head_line rest -> stream x (inner_lines bs ++ rest) -> exists x', stream x' rest /\ passes x level x' level).
Proof.
  apply file_branches_ind.
  - intros _ x rest level _ _ Hs. exists x. split; [done|apply passes_refl].
  - intros l f IH [[_ Hl] Hf] x rest level Hv Hr Hs. cbn [flines app] in Hs. destruct (IH Hf l rest level Hv Hr (proj2 (proj2 Hs))) as (x' & Hs' & Hp). exists x'. split; [done|].
    eapply passes_trans; [|exact Hp]. destruct Hs as (_ & E & Hs). destruct (blank_line l) eqn:Eb.
    + exists 0%nat. intros [|fuel]; [done|]. cbn [Nat.add _SeekToNextCloseDirective]. rewrite E. destruct (stream_some (flines f) rest l Hs Hr) as [y ->]. done.
    + destruct (Hl eq_refl) as [Ht Hk]. exists 1%nat. intros fuel. cbn [Nat.add]. rewrite (seek_line fuel x l level E Ht). unfold on_line. by rewrite Hk.
  - intros bs IHb e f IHf (Hb & He & Hf) x rest level Hv Hr Hs. destruct bs as [|h b bs]; [done|]. cbn [flines blines] in Hs. rewrite <- app_assoc in Hs. cbn [app] in Hs.
    destruct Hb as (Hh & Hb & Ht). destruct (IHb (conj Hb Ht) h (e :: flines f ++ rest) (level + 1)) as (x1 & Hs1 & Hp1); [lia|apply He|apply Hs|].
    destruct (IHf Hf e rest level Hv Hr) as (x2 & Hs2 & Hp2); [apply Hs1|]. exists x2. split; [done|]. eapply passes_trans; [|eapply passes_trans; [exact Hp1|eapply passes_trans; [|exact Hp2]]].
    + eapply (passes_line KIf h); [done|done|exact Hs|]. intros fl. unfold on_line. by rewrite (proj1 (proj2 Hh)).
    + eapply (passes_line KEndif e); [done|done|exact Hs1|]. intros fl. unfold on_line. rewrite (proj1 (proj2 He)), (proj2 (Z.eqb_neq _ _)) by lia. f_equal. lia.
  - done.
  - intros h b IHf bs IHb [Hb Ht] x rest level Hv Hr Hs. cbn [inner_lines] in Hs. rewrite <- app_assoc in Hs.
    destruct (IHf Hb x (blines bs ++ rest) level) as (x1 & Hs1 & Hp1); [lia|by apply head_branches|done|]. destruct bs as [|h' b' bs]; [by exists x1|].
    destruct Ht as (Hh & Hb' & Ht). destruct (IHb (conj Hb' Ht) h' rest level Hv Hr) as (x2 & Hs2 & Hp2); [apply Hs1|]. exists x2. split; [done|].
    eapply passes_trans; [exact Hp1|]. eapply passes_trans; [|exact Hp2]. eapply (passes_line KElse h'); [done|done|exact Hs1|].
    intros fl. unfold on_line. by rewrite (proj1 (proj2 Hh)), (proj2 (Z.eqb_neq _ _)) by lia.
Qed.
(** From within a branch, to the next directive of the same group. *)
Lemma seek_next f x h rest k : file_ok m f -> stream x (flines f ++ h :: rest) -> directive m k h -> k = KElse \/ k = KEndif ->
  stream h rest /\ exists n, forall fuel, (n <= fuel)%nat -> seek fuel x 0 = Some (h, true).
Proof.
  intros Hf Hs Hh Hk. destruct (proj1 skip_over f Hf x (h :: rest) 0) as (x' & Hs' & n & Hn); [lia|apply Hh|done|]. split; [apply Hs'|]. exists (n + 1)%nat. intros fuel Hfu.
  replace fuel with (n + S (fuel - n - 1))%nat by lia. rewrite Hn. rewrite (seek_directive _ x' h rest k); [|done|by destruct Hk; subst|done]. unfold on_line. rewrite (proj1 (proj2 Hh)). by destruct Hk; subst.
Qed.
End Lines.

(** ** The loops *)

Section Loops.
Context (eval : list Z -> option bool) (m : mem) (content : ref).
Abbreviation stream := (stream m content).
Abbreviation file_loop := (file_loop eval).
Abbreviation if_loop := (if_loop eval).

(** The first field of a directive. *)
Lemma directive_fields k h : directive m k h -> k <> KOther ->
  (sc m (rb (TrimSpace m h)) =? chr "#") = true /\ exists f, fields m (TrimSpace m h) = Some f /\ word_kind (text m (field m f 0)) = k.
Proof.
  intros (_ & _ & Hl) Hk. unfold loop_kind in Hl. destruct (sc m _ =? chr "#"); [|by subst]. split; [done|]. destruct (fields m _) as [f|]; [by exists f|by subst].
Qed.
Lemma word_cases d : match word_kind d with
  | KEndif => d = s_endif
  | KElse => is_text d s_endif = false /\ _IsMacroBranchCloseDirective d = true /\ starts_with d s_if = false /\ is_text d s_define = false /\ is_text d s_undef = false
  | KIf => is_text d s_endif = false /\ _IsMacroBranchCloseDirective d = false /\ starts_with d s_if = true /\ is_text d s_define = false /\ is_text d s_undef = false
  | KOther => _IsMacroBranchCloseDirective d = false /\ starts_with d s_if = false
  end.
Proof.
  unfold word_kind, _IsMacroBranchCloseDirective, is_text, starts_with. case_bool_decide as E1; [done|]. case_bool_decide as E2; [by rewrite E2|]. case_bool_decide as E3; [by rewrite E3|]. cbn [orb].
  case_bool_decide as E4; [|done]. repeat split; try done; apply bool_decide_eq_false_2; intros ->; done.
Qed.
(** A line that is no conditional directive. *)
Lemma loop_plain k P x l lvl o : GetNextLine m content x false = Some l -> loop_kind m l = KOther ->
  file_loop (S k) P m content x lvl o = q ← plain_line m k P l o; file_loop k (q : precompiler * list Z).1 m content l lvl q.2.
Proof.
  intros E Hk. cbn [Cond.file_loop]. rewrite E. unfold plain_line. unfold loop_kind in Hk. destruct (sc m _ =? chr "#").
  - destruct (fields m (TrimSpace m l)) as [f|]; cbn [mbind option_bind]; [|done]. set (d := text m (field m f 0)) in *. assert (W := word_cases d). rewrite Hk in W. destruct W as [W1 W2].
    destruct (is_text d s_define); [by destruct (define_line _ _ _ _)|]. destruct (is_text d s_undef && _); [done|]. rewrite W1, W2. by destruct (subst k P m l o) as [[]|].
  - by destruct (subst k P m l o) as [[]|].
Qed.
(** Behind an entered branch all others are skipped, and the [#endif]. *)
Lemma skip_to_end P e rest : directive m KEndif e -> forall bs b h f0, file_ok m b -> tail_ok m bs -> is_text f0 s_endif = false -> stream h (flines b ++ blines bs ++ e :: rest) ->
  stream e rest /\ exists n, forall fuel, (n <= fuel)%nat -> skip_loop fuel P m content h f0 = Some (P, e).
Proof.
  intros He. assert (Hne : KEndif <> KOther) by done. destruct (directive_fields KEndif e He Hne) as (_ & fe & Efe & Ke). assert (We := word_cases (text m (field m fe 0))). rewrite Ke in We.
  induction bs as [|h' b' bs IH]; intros b h f0 Hb Ht H0 Hs.
  - destruct (seek_next m content b h e rest KEndif Hb Hs He (or_intror eq_refl)) as (Hse & n & Hn). split; [done|]. exists (S (S n)). intros [|[|k]] Hk; [lia|lia|].
    cbn [skip_loop]. rewrite H0, Hn by lia. cbn [mbind option_bind]. rewrite Efe. cbn [mbind option_bind]. by rewrite We.
  - destruct Ht as (Hh & Hb' & Ht). cbn [blines] in Hs. cbn [app] in Hs. destruct (seek_next m content b h h' _ KElse Hb Hs Hh (or_introl eq_refl)) as (Hsh & n & Hn).
    assert (Hne' : KElse <> KOther) by done. destruct (directive_fields KElse h' Hh Hne') as (_ & fh & Efh & Kh). assert (Wh := word_cases (text m (field m fh 0))). rewrite Kh in Wh.
    rewrite <- app_assoc in Hsh. destruct (IH b' h' (text m (field m fh 0)) Hb' Ht (proj1 Wh) Hsh) as (Hse & n' & Hn'). split; [done|]. exists (S (max n n')). intros [|k] Hk; [lia|].
    cbn [skip_loop]. rewrite H0, Hn by lia. cbn [mbind option_bind]. rewrite Efh. cbn [mbind option_bind]. apply Hn'. lia.
Qed.
Definition is_endif (k : kind) : bool := match k with KEndif => true | _ => false end.
Lemma loop_close x l kd : GetNextLine m content x false = Some l -> directive m kd l -> kd = KElse \/ kd = KEndif -> exists f0, is_text f0 s_endif = is_endif kd /\
  forall k P lvl o, file_loop (S k) P m content x lvl o =
    r ← skip_loop k P m content l f0;
    let '(P, line) := r : precompiler * ref in
    if 0 <? lvl then file_loop k P m content line (lvl + 1) o else file_loop k (PrintError P) m content line lvl o.
Proof.
  intros E Hd Hk. assert (Hne : kd <> KOther) by (by destruct Hk; subst). destruct (directive_fields kd l Hd Hne) as (Eh & f & Ef & Kf). exists (text m (field m f 0)).
  set (d := text m (field m f 0)) in *. assert (W := word_cases d). rewrite Kf in W.
  split; [destruct Hk; subst kd; [by destruct W|by rewrite W]|]. intros k P lvl o. cbn [Cond.file_loop]. rewrite E, Eh, Ef. cbn [mbind option_bind]. fold d.
  destruct Hk; subst kd.
  - destruct W as (W1 & W2 & W3 & W4 & W5). by rewrite W4, W5, W3, W2.
  - by rewrite W.
Qed.
Lemma leave_branch P x lvl o bs e rest : tail_ok m bs -> directive m KEndif e -> stream x (blines bs ++ e :: rest) -> 0 < lvl ->
  stream e rest /\ exists n, forall k, (n <= k)%nat -> file_loop (S k) P m content x lvl o = file_loop k P m content e (lvl + 1) o.
Proof.
  intros Ht He Hs Hv. destruct bs as [|h b bs]; cbn [blines app] in Hs.
  - split; [apply Hs|]. exists 1%nat. intros k Hk. destruct (loop_close x e KEndif (proj1 Hs) He (or_intror eq_refl)) as (f0 & E0 & ->).
    destruct k as [|k]; [lia|]. cbn [skip_loop]. rewrite E0. cbn [is_endif mbind option_bind]. by rewrite (proj2 (Z.ltb_lt _ _)).
  - destruct Ht as (Hh & Hb & Ht). rewrite <- app_assoc in Hs. assert (Hs' := proj2 (proj2 Hs)).
    destruct (loop_close x h KElse (proj1 Hs) Hh (or_introl eq_refl)) as (f0 & E0 & Hl).
    destruct (skip_to_end P e rest He bs b h f0 Hb Ht E0 Hs') as (Hse & n & Hn).
    split; [done|]. exists n. intros k Hk. rewrite Hl, Hn by done. cbn [mbind option_bind]. by rewrite (proj2 (Z.ltb_lt _ _)).
Qed.

(** *** The semantics is what the loop does *)
Definition loop_runs (P : precompiler) (f : file) (o : list Z) (P' : precompiler) (o' : list Z) : Prop := file_ok m f -> forall x lvl rest, 0 <= lvl -> stream x (flines f ++ rest) ->
  exists n k0 x' lvl', stream x' rest /\ lvl <= lvl' /\ forall fuel, (k0 <= fuel)%nat -> file_loop (n + fuel) P m content x lvl o = file_loop fuel P' m content x' lvl' o'.
Definition cond_step (fuel1 fuel : nat) (P : precompiler) (h : ref) (lvl : Z) (o : list Z) : option (precompiler * list Z) :=
  f ← fields m (TrimSpace m h);
  r ← if_loop fuel1 P m content h (TrimSpace m h) f;
  let '(P, line, entered) := r : precompiler * ref * bool in
  file_loop fuel P m content line (if entered then lvl + 1 else lvl) o.
Definition loop_takes (P : precompiler) (bs : branches) (o : list Z) (P' : precompiler) (o' : list Z) : Prop :=
  match bs with
  | NoBranch => P' = P /\ o' = o
  | Branch h b bs => forall k lvl e rest, directive m k h -> k <> KOther -> file_ok m b -> tail_ok m bs -> directive m KEndif e -> 0 <= lvl -> stream h (flines b ++ blines bs ++ e :: rest) ->
    exists n k1 k0 x' lvl', stream x' rest /\ lvl <= lvl' /\ forall fuel1 fuel, (k1 <= fuel1)%nat -> (k0 <= fuel)%nat -> cond_step fuel1 (n + fuel) P h lvl o = file_loop fuel P' m content x' lvl' o'
  end.

Lemma runs_plain P l f o P1 o1 P2 o2 : line_does m P l o P1 o1 -> loop_runs P1 f o1 P2 o2 -> loop_runs P (Plain l f) o P2 o2.
Proof.
  intros [k Hk] IH [[Hl _] Hf] x lvl rest Hv Hs. cbn [flines app] in Hs. destruct (IH Hf l lvl rest Hv (proj2 (proj2 Hs))) as (n & k0 & x' & lvl' & Hs' & Hv' & H).
  exists (S n), (max k k0), x', lvl'. split; [done|]. split; [done|]. intros fuel Hfu. cbn [Nat.add]. rewrite (loop_plain _ P x l lvl o (proj1 Hs) Hl), Hk by lia. cbn [mbind option_bind]. apply H. lia.
Qed.
Lemma runs_group P bs e f o P1 o1 P2 o2 : loop_takes P bs o P1 o1 -> loop_runs P1 f o1 P2 o2 -> loop_runs P (Group bs e f) o P2 o2.
Proof.
  intros IHb IHf (Hb & He & Hf) x lvl rest Hv Hs. destruct bs as [|h b bs]; [done|]. destruct Hb as (Hh & Hb & Ht). cbn [flines blines] in Hs. cbn [app] in Hs. rewrite <- !app_assoc in Hs. cbn [app] in Hs.
  assert (Hne : KIf <> KOther) by done. destruct (IHb KIf lvl e (flines f ++ rest) Hh Hne Hb Ht He Hv (proj2 (proj2 Hs))) as (n & k1 & k0 & x1 & lvl1 & Hs1 & Hv1 & H1).
  destruct (IHf Hf x1 lvl1 rest) as (n2 & k2 & x2 & lvl2 & Hs2 & Hv2 & H2); [lia|done|].
  exists (S (n + n2)), (max k1 (max k0 k2)), x2, lvl2. split; [done|]. split; [lia|]. intros fuel Hfu. cbn [Nat.add]. rewrite <- (H2 fuel) by lia.
  rewrite <- (H1 (n + n2 + fuel)%nat (n2 + fuel)%nat) by lia. rewrite Nat.add_assoc. cbn [Cond.file_loop]. rewrite (proj1 Hs).
  destruct (directive_fields KIf h Hh Hne) as (Eh & fh & Ef & Kf). assert (W := word_cases (text m (field m fh 0))). rewrite Kf in W. destruct W as (W1 & W2 & W3 & W4 & W5).
  unfold cond_step. rewrite Eh, Ef. cbn [mbind option_bind]. by rewrite W4, W5, W3.
Qed.
Lemma if_step k P h f : fields m (TrimSpace m h) = Some f ->
  if_loop (S k) P m content h (TrimSpace m h) f =
    r ← line_test eval m k P h;
    let '(P, go_if) := r : precompiler * option bool in
    let P := match go_if with None => PrintError P | _ => P end in
    if default false go_if then Some (P, h, true)
    else
      s ← _SeekToNextCloseDirective k m content h 0;
      let '(line, found) := s : ref * bool in
      if found then
        f ← fields m (TrimSpace m line);
        if is_text (text m (field m f 0)) s_endif then Some (P, line, false) else if_loop k P m content line (TrimSpace m line) f
      else Some (PrintError P, line, false).
Proof. intros E. unfold line_test. rewrite E. reflexivity. Qed.
Lemma takes_enter P h b bs o P1 P2 o2 : tests eval m P h P1 (Some true) -> loop_runs P1 b o P2 o2 -> loop_takes P (Branch h b bs) o P2 o2.
Proof.
  intros [kt Hkt] IH k lvl e rest Hh Hk Hb Ht He Hv Hs. destruct (directive_fields k h Hh Hk) as (_ & f & Ef & _).
  destruct (IH Hb h (lvl + 1) (blines bs ++ e :: rest)) as (n & k0 & x1 & lvl1 & Hs1 & Hv1 & H1); [lia|done|].
  destruct (leave_branch P2 x1 lvl1 o2 bs e rest Ht He Hs1) as (Hse & n2 & Hn2); [lia|]. exists (n + 1)%nat, (S kt), (max k0 n2), e, (lvl1 + 1).
  split; [done|]. split; [lia|]. intros [|fuel1] fuel Hf1 Hf; [lia|]. unfold cond_step. rewrite Ef. cbn [mbind option_bind]. rewrite (if_step fuel1 P h f Ef), Hkt by lia. cbn [mbind option_bind default from_option id].
  rewrite <- Nat.add_assoc, H1 by lia. apply Hn2. lia.
Qed.
Lemma takes_other P h b bs o go P1 P2 o2 : tests eval m P h P1 go -> default false go = false -> loop_takes (match go with None => PrintError P1 | _ => P1 end) bs o P2 o2 ->
  loop_takes P (Branch h b bs) o P2 o2.
Proof.
  intros [kt Hkt] Hgo IH k lvl e rest Hh Hk Hb Ht He Hv Hs. destruct (directive_fields k h Hh Hk) as (_ & f & Ef & _). set (P1' := match go with None => PrintError P1 | _ => P1 end) in *.
  destruct bs as [|h' b' bs]; cbn [blines app] in Hs.
  - destruct (seek_next m content b h e rest KEndif Hb Hs He (or_intror eq_refl)) as (Hse & ns & Hns). destruct IH as [-> ->]. assert (Hne : KEndif <> KOther) by done.
    destruct (directive_fields KEndif e He Hne) as (_ & fe & Efe & Ke). assert (We := word_cases (text m (field m fe 0))). rewrite Ke in We.
    exists 0%nat, (S (max kt ns)), 0%nat, e, lvl. split; [done|]. split; [lia|]. intros [|fuel1] fuel Hf1 Hf; [lia|]. unfold cond_step. rewrite Ef. cbn [mbind option_bind].
    rewrite (if_step fuel1 P h f Ef), Hkt by lia. cbn [mbind option_bind]. rewrite Hgo, Hns by lia. cbn [mbind option_bind]. rewrite Efe. cbn [mbind option_bind]. by rewrite We.
  - destruct Ht as (Hh' & Hb' & Ht). destruct (seek_next m content b h h' _ KElse Hb Hs Hh' (or_introl eq_refl)) as (Hs' & ns & Hns). assert (Hne : KElse <> KOther) by done. rewrite <- app_assoc in Hs'.
    destruct (directive_fields KElse h' Hh' Hne) as (_ & fh & Efh & Kh). assert (Wh := word_cases (text m (field m fh 0))). rewrite Kh in Wh. destruct Wh as [Wh _].
    destruct (IH KElse lvl e rest Hh' Hne Hb' Ht He Hv Hs') as (n & k1 & k0 & x' & lvl' & Hsx & Hvx & H). exists n, (S (max k1 (max kt ns))), k0, x', lvl'. split; [done|]. split; [done|].
    intros [|fuel1] fuel Hf1 Hf; [lia|]. rewrite <- (H fuel1 fuel) by lia. unfold cond_step. rewrite Ef, Efh. cbn [mbind option_bind].
    rewrite (if_step fuel1 P h f Ef), Hkt by lia. cbn [mbind option_bind]. rewrite Hgo, Hns by lia. cbn [mbind option_bind]. rewrite Efh. cbn [mbind option_bind]. by rewrite Wh.
Qed.
Lemma loop_does : (forall P f o P' o', runs eval m P f o P' o' -> loop_runs P f o P' o') /\ (forall P bs o P' o', takes eval m P bs o P' o' -> loop_takes P bs o P' o').
Proof.
  apply runs_takes_ind; intros.
  - intros _ x lvl rest Hv Hs. by exists 0%nat, 0%nat, x, lvl.
  - by eapply runs_plain.
  - by eapply runs_group.
  - done.
  - by eapply takes_enter.
  - by eapply (takes_other P h b bs o (Some false)).
  - by eapply (takes_other P h b bs o None).
Qed.
End Loops.

(** C15: the conditional directives select the branches that are meant: a file whose lines
    are those of a tree of groups, nested to any depth, gives the output and the macros
    of the reference semantics [runs], in which of each group the first branch whose test
    holds is read and all others are skipped; no directive of the tree is reported as
    unmatched, and the loop ends.  The condition ([file_ok]): each line of the tree is
    taken for the same directive, or for none, by the loop over the lines and by the
    search for the end of a branch.  The search sees only directives that begin their
    lines, the loop those behind blanks as well, so that files with indented directives
    are excluded (they go wrong, [indented_skipped]). *)
Theorem conditionals_correct eval m content f P P' o : stream m content null_ref (flines f) -> file_ok m f -> runs eval m P f [] P' o ->
  exists k, forall fuel, (k <= fuel)%nat -> _SubsituteFile eval fuel P m content = Some (P', o).
Proof.
  intros Hs Hf Hr. destruct (proj1 (loop_does eval m content) P f [] P' o Hr Hf null_ref 0 []) as (n & k0 & x' & lvl' & Hs' & _ & H); [lia|by rewrite app_nil_r|].
  exists (n + S k0)%nat. intros fuel Hfu. unfold _SubsituteFile. replace fuel with (n + S (fuel - n - 1))%nat by lia. rewrite H by lia. cbn [file_loop]. by rewrite (proj1 Hs').
Qed.
