(* ===== verification/CondText.v ===== *)
(** Files as texts: the lines that [GetNextLine] gives of a text of lines, what makes a
    line a directive, and examples of whole files. *)
From stdpp Require Import gmap.
From S2P Require Import Prelude Str StrScan Macro MacroSpec Cond CondSpec.

(** ** Lines of a text *)

Definition eols : list (list Z) := [[10]; [13]; [13; 10]].
Definition line (l : list Z) : Prop := none crlf l.
Definition lines_text (eol : list Z) (ls : list (list Z)) : list Z := concat (map (fun l => l ++ eol) ls).
Fixpoint line_refs (p : Z) (eol : list Z) (ls : list (list Z)) : list ref :=
  match ls with [] => [] | l :: ls => mkRef p (p + zlen l) :: line_refs (p + zlen l + zlen eol) eol ls end.

Lemma lines_text_cons eol l ls : lines_text eol (l :: ls) = l ++ eol ++ lines_text eol ls.
Proof. unfold lines_text. cbn. by rewrite <- app_assoc. Qed.
Lemma eol_crlf eol : eol ∈ eols -> all crlf eol /\ eol <> [].
Proof. unfold eols. rewrite !elem_of_cons. intros [->|[->|[->|H]]]; [..|by apply not_elem_of_nil in H]; split; try done; repeat constructor. Qed.
Definition not_crlf (c : Z) : bool := negb (crlf c).
Lemma line_not_crlf l : line l -> all not_crlf l.
Proof. intros H. eapply Forall_impl; [exact H|]. intros c Hc. cbn beta in Hc. unfold not_crlf. by rewrite Hc. Qed.

Lemma scan_past (P : Z -> bool) m a : forall n p b, holds m p (a ++ b) -> all P a -> scan P (length a + n) m p = scan P n m (p + zlen a).
Proof.
  induction a as [|c a IH]; intros n p b Hh Ha; cbn [length Nat.add]; [by rewrite Z.add_0_r|]. apply Forall_cons in Ha as [Hc Ha]. cbn [app] in Hh. apply holds_cons_inv in Hh as [Hp Hh].
  cbn [scan]. unfold sc. rewrite Hp, Hc, (IH n (p + 1) b Hh Ha). f_equal. lia.
Qed.
Section Text.
Context (m : mem) (content : ref) (eol : list Z).
Hypothesis Heol : eol ∈ eols.

Lemma scan_line n p l rest : line l -> (length l <= n)%nat -> holds m p (l ++ rest) -> (n = length l \/ exists c b, rest = c :: b /\ crlf (s8 c) = true) ->
  scan (fun c => negb (crlf c)) n m p = p + zlen l.
Proof.
  intros Hl Hn Hh Hr. apply (scan_spec not_crlf m l n p rest); [done|done|by apply line_not_crlf|]. destruct Hr as [->|(c & b & -> & Hc)]; [by left|].
  right. exists c, b. split; [done|]. unfold not_crlf. by rewrite Hc.
Qed.
Lemma eol_first : exists c b, eol = c :: b /\ crlf (s8 c) = true.
Proof. destruct (eol_crlf eol Heol) as [Ha Hne]. destruct eol as [|c b]; [done|]. exists c, b. split; [done|]. by apply Forall_cons in Ha as [Ha _]. Qed.
Lemma eol_passed p rest tail : holds m p (eol ++ rest) -> p + zlen eol <= tail -> match rest with c :: _ => eol = [13] -> s8 c <> 10 | [] => True end -> tail = p + zlen eol + zlen rest ->
  (let start := p + 1 in if (start <? tail) && (sc m (start - 1) =? 0xd) && (sc m start =? 0xa) then start + 1 else start) = p + zlen eol.
Proof.
  intros Hh Hp Hr ->. cbn zeta. replace (p + 1 - 1) with p by lia. unfold eols in Heol. rewrite !elem_of_cons in Heol. destruct Heol as [E|[E|[E|E]]]; [..|by apply not_elem_of_nil in E]; rewrite E in *; cbn [app length] in *.
  - apply holds_cons_inv in Hh as [H0 _]. assert (Es : (sc m p =? 0xd) = false) by (unfold sc; by rewrite H0). by rewrite Es, andb_false_r.
  - apply holds_cons_inv in Hh as [H0 H1]. destruct rest as [|c rest]; [rewrite (proj2 (Z.ltb_ge _ _)) by (cbn; lia); done|]. apply holds_cons_inv in H1 as [H1 _].
    assert (Es : (sc m (p + 1) =? 0xa) = false) by (unfold sc; rewrite H1; by apply Z.eqb_neq, Hr). by rewrite Es, andb_false_r.
  - apply holds_cons_inv in Hh as [H0 H1]. apply holds_cons_inv in H1 as [H1 _]. unfold sc. rewrite H0, H1, (proj2 (Z.ltb_lt _ _)) by (cbn [length] in *; lia). change (s8 13 =? 13) with true. change (s8 10 =? 10) with true. cbn [andb]. lia.
Qed.

Lemma rest_first l ls c b : line l -> l ++ eol ++ lines_text eol ls = c :: b -> eol = [13] -> s8 c <> 10.
Proof. intros Hl E ->. destruct l as [|d l]; cbn in E; injection E as <- _; [done|]. apply Forall_cons in Hl as [Hl _]. intros X. by rewrite X in Hl. Qed.
(** The two forms of the call, at the end of a line that a line follows. *)
Lemma next_line x p l ls : line l -> resume content x = p -> holds m p (eol ++ l ++ eol ++ lines_text eol ls) -> re content = p + zlen eol + zlen l + zlen eol + zlen (lines_text eol ls) ->
  let r := mkRef (p + zlen eol) (p + zlen eol + zlen l) in rb content <= p ->
  GetNextLine m content x false = Some r /\ GetNextLine m content x true = (if blank_line r then GetNextLine m content r true else Some r).
Proof.
  intros Hl Hx Hh He r Hb. destruct (eol_crlf eol Heol) as [Ha _]. destruct eol_first as (c0 & b0 & E0 & Hc0). assert (Hpos : 0 < zlen eol) by (rewrite E0; cbn; lia).
  assert (Hp0 : crlf (sc m p) = true) by (rewrite E0 in Hh; apply holds_cons_inv in Hh as [Hh _]; unfold sc; by rewrite Hh).
  assert (Hstart := eol_passed p (l ++ eol ++ lines_text eol ls) (re content) Hh ltac:(lia)). rewrite !length_app in Hstart.
  specialize (Hstart ltac:(destruct (l ++ eol ++ lines_text eol ls) eqn:E; [done|by eapply rest_first]) ltac:(lia)).
  assert (Hh2 := Hh). apply holds_app in Hh2 as [_ Hh2]. split.
  - unfold GetNextLine. rewrite Hx, Hp0, (proj2 (Z.ltb_lt p _)) by lia. cbn [andb]. cbn zeta in Hstart. rewrite Hstart. rewrite (proj2 (Z.leb_gt (re content) _)) by lia.
    rewrite (scan_line _ _ l (eol ++ lines_text eol ls)); [done|done|lia|done|]. right. exists c0, (b0 ++ lines_text eol ls). by rewrite E0.
  - destruct l as [|d l]; unfold GetNextLine; rewrite Hx; cbn [blank_line re rb].
    + assert (Er : blank_line r = true) by (unfold blank_line, r; cbn; apply Z.eqb_eq; lia). rewrite Er.
      assert (Erb : resume content r = p + zlen eol) by (unfold resume, r; cbn [re]; rewrite (proj2 (Z.leb_le _ _)), (proj2 (Z.leb_le _ (re content))) by (cbn [length] in *; lia); cbn; lia).
      rewrite Erb. cbn [app length] in *. replace (Z.to_nat (re content - p)) with (length eol + Z.to_nat (re content - (p + zlen eol)))%nat by lia.
      by rewrite (scan_past crlf m eol _ p (eol ++ lines_text eol ls)).
    + assert (Er : blank_line r = false) by (unfold blank_line, r; cbn; apply Z.eqb_neq; lia). rewrite Er.
      assert (Hd : crlf (s8 d) = false) by by apply Forall_cons in Hl as [Hl _].
      rewrite (scan_spec crlf m eol _ p ((d :: l) ++ eol ++ lines_text eol ls)); [|cbn [length] in *; lia|done|done|right; by exists d, (l ++ eol ++ lines_text eol ls)].
      cbn [app length] in *. rewrite (proj2 (Z.leb_gt (re content) _)) by lia. apply holds_cons_inv in Hh2 as [_ Hh2]. apply Forall_cons in Hl as [_ Hl].
      rewrite (scan_line _ _ l (eol ++ lines_text eol ls)); [|done|lia|done|right; exists c0, (b0 ++ lines_text eol ls); by rewrite E0]. unfold r. do 2 f_equal. cbn. lia.
Qed.
Lemma text_stream ls : forall x p, Forall line ls -> resume content x = p -> rb content <= p -> holds m p (eol ++ lines_text eol ls) -> re content = p + zlen eol + zlen (lines_text eol ls) ->
  stream m content x (line_refs (p + zlen eol) eol ls).
Proof.
  destruct (eol_crlf eol Heol) as [Ha _]. destruct eol_first as (c0 & b0 & E0 & Hc0). assert (Hpos : 0 < zlen eol) by (rewrite E0; cbn; lia).
  induction ls as [|l ls IH]; intros x p Hls Hx Hb Hh He.
  - cbn [line_refs stream]. cbn [lines_text map concat length] in *. assert (Hp0 : crlf (sc m p) = true) by (rewrite E0 in Hh; apply holds_cons_inv in Hh as [Hh _]; unfold sc; by rewrite Hh).
    unfold GetNextLine. rewrite Hx, Hp0, (proj2 (Z.ltb_lt p _)) by lia. cbn [andb]. assert (Hstart := eol_passed p [] (re content) Hh ltac:(lia) I ltac:(cbn; lia)). cbn zeta in Hstart. rewrite Hstart.
    rewrite (scan_spec crlf m eol _ p []); [|lia|done|done|left; lia]. by rewrite (proj2 (Z.leb_le (re content) _)) by lia.
  - apply Forall_cons in Hls as [Hl Hls]. rewrite lines_text_cons in *. rewrite !length_app in He. cbn [line_refs stream].
    destruct (next_line x p l ls Hl Hx Hh ltac:(lia) Hb) as [E1 E2]. split; [exact E1|]. split; [exact E2|]. apply IH; [done| |lia| |lia].
    + unfold resume. cbn [re]. by rewrite (proj2 (Z.leb_le _ _)), (proj2 (Z.leb_le _ (re content))) by lia.
    + apply holds_app in Hh as [_ Hh]. by apply holds_app in Hh as [_ Hh].
Qed.
(** A file whose first line is not blank. *)
Lemma file_stream l ls : l <> [] -> Forall line (l :: ls) -> 0 < rb content -> holds m (rb content) (lines_text eol (l :: ls)) -> re content = rb content + zlen (lines_text eol (l :: ls)) ->
  stream m content null_ref (line_refs (rb content) eol (l :: ls)).
Proof.
  intros Hne Hls Hb Hh He. apply Forall_cons in Hls as [Hl Hls]. destruct eol_first as (c0 & b0 & E0 & Hc0). rewrite lines_text_cons in *. rewrite !length_app in He. cbn [line_refs stream].
  assert (Ex : resume content null_ref = rb content) by (unfold resume; cbn [re null_ref]; by rewrite (proj2 (Z.leb_gt _ _)) by lia). destruct l as [|d l]; [done|].
  assert (Hd : crlf (s8 d) = false) by by apply Forall_cons in Hl as [Hl _]. cbn [app length] in *. assert (Hh2 := Hh). apply holds_cons_inv in Hh2 as [H0 Hh2].
  assert (Hs0 : crlf (sc m (rb content)) = false) by (unfold sc; by rewrite H0). assert (Hl' := Hl). apply Forall_cons in Hl' as [_ Hl'].
  assert (Hscan : scan (fun c => negb (crlf c)) (Z.to_nat (re content - (rb content + 1))) m (rb content + 1) = rb content + 1 + zlen l).
  { apply (scan_line _ _ l (eol ++ lines_text eol ls)); [done|lia|done|right; exists c0, (b0 ++ lines_text eol ls); by rewrite E0]. }
  replace (rb content + Z.of_nat (S (length l))) with (rb content + 1 + zlen l) by lia.
  split; [|split].
  - unfold GetNextLine. rewrite Ex, Hs0, andb_false_r. rewrite (proj2 (Z.leb_gt (re content) _)) by lia. by rewrite Hscan.
  - assert (Er : blank_line (mkRef (rb content) (rb content + 1 + zlen l)) = false) by (apply Z.eqb_neq; cbn; lia). rewrite Er. unfold GetNextLine. rewrite Ex.
    destruct (Z.to_nat (re content - rb content)) as [|n] eqn:En; [lia|]. cbn [scan]. rewrite Hs0. rewrite (proj2 (Z.leb_gt (re content) _)) by lia. by rewrite Hscan.
  - apply text_stream; [done| |lia| |lia].
    + unfold resume. cbn [re]. by rewrite (proj2 (Z.leb_le _ _)), (proj2 (Z.leb_le _ (re content))) by lia.
    + change (d :: l ++ eol ++ lines_text eol ls) with ((d :: l) ++ eol ++ lines_text eol ls) in Hh. apply holds_app in Hh as [_ Hh]. cbn [length] in Hh.
      replace (rb content + 1 + zlen l) with (rb content + Z.of_nat (S (length l))) by lia. exact Hh.
Qed.
End Text.

(** ** Directives of a text *)

Definition visible (c : Z) : bool := negb (blank c).
(** A word that begins with #, and after a space or a tab anything else. *)
Definition directive_text (w rest l : list Z) : Prop :=
  l = w ++ rest /\ (exists w', w = chr "#" :: w' /\ all visible w') /\ match rest with [] => True | c :: _ => s8 c = 32 \/ s8 c = 9 end.

Lemma sep_blank c : Has directive_sep c = true -> blank c = true.
Proof.
  unfold directive_sep, CharacterSet_ControlChar. rewrite Has_CharacterSet.
  - intros H. assert (F : forallb blank ([32; 9] ++ control_chars) = true) by (vm_compute; reflexivity). rewrite forallb_forall in F. by apply F.
  - assert (F : forallb (Z.leb 1) ([32; 9] ++ control_chars) = true) by (vm_compute; reflexivity). rewrite forallb_forall in F. apply Forall_forall. intros x Hx%list_elem_of_In. specialize (F x Hx). lia.
Qed.
Lemma visible_not_sep c : visible c = true -> Has directive_sep c = false.
Proof. unfold visible. intros H. apply not_true_iff_false. intros X%sep_blank. by rewrite X in H. Qed.
Lemma word_visible w w' : w = chr "#" :: w' -> all visible w' -> all visible w.
Proof. intros -> H. by constructor. Qed.

Lemma visible_blank l : all visible l -> all blank l -> l = [].
Proof.
  intros H1 H2. destruct l as [|c l]; [done|]. apply Forall_cons in H1 as [H1 _]. apply Forall_cons in H2 as [H2 _]. cbn beta in *. unfold visible in H1. by rewrite H2 in H1.
Qed.
Lemma TrimSpace_keeps m r w rest : 0 < rb r -> w <> [] -> all visible w -> refers m r (w ++ rest) -> exists rest' b, rest = rest' ++ b /\ refers m (TrimSpace m r) (w ++ rest').
Proof.
  intros Hp Hne Hw Hr. destruct (TrimSpace_spec m r (w ++ rest)) as (a & v & b & E & Ha & Hb & Hv & _); [done|lia|lia|].
  assert (a = []) as ->. { destruct a as [|c a]; [done|]. destruct w as [|d w]; [done|]. injection E as -> _. apply Forall_cons in Hw as [Hw _]. apply Forall_cons in Ha as [Ha _]. discriminate (visible_blank [c]); by repeat constructor. }
  cbn [app] in E. apply app_eq_app in E as [l [[-> ->]|[-> ->]]].
  - apply Forall_app in Hw as [_ Hw]. apply Forall_app in Hb as [Hb _]. rewrite (visible_blank l Hw Hb), app_nil_r in *. exists [], rest. by rewrite app_nil_r.
  - by exists l, b.
Qed.

Lemma scan_after P m n : forall p, p <= scan P n m p.
Proof. induction n as [|n IH]; intros p; cbn [scan]; [lia|]. destruct (P _); [specialize (IH (p + 1))|]; lia. Qed.
Lemma TrimSpace_after m r : rb r <= rb (TrimSpace m r).
Proof.
  unfold TrimSpace. destruct (IsEmpty r) eqn:E; [lia|]. unfold TrimLeftSpace. rewrite E. unfold TrimRightSpace. destruct (IsEmpty (mkRef _ _)); cbn [rb]; apply scan_after.
Qed.

(** *** The first field *)
Lemma skip_seps_bounds seps m n : forall p, p <= skip_seps seps m n p <= p + Z.of_nat n.
Proof. induction n as [|n IH]; intros p; cbn [skip_seps]; [lia|]. destruct (Has _ _); [specialize (IH (p + 1))|]; lia. Qed.
Lemma split_total mg q1 q2 seps m fuel : forall room start p tail q, (0 < room)%nat -> p <= tail -> tail - p < Z.of_nat fuel -> is_Some (split_loop mg q1 q2 seps m fuel room start p tail q).
Proof.
  induction fuel as [|f IH]; intros room start p tail q Hr Hp Hf; [lia|]. cbn [split_loop].
  set (o := if mg then skip_seps seps m (Z.to_nat (tail - (p + 1))) (p + 1) else p + 1).
  assert (He : p < tail \/ p = tail -> is_Some (match room with O => None | S O => Some [split_unquote q1 q2 m (mkRef start p)]
    | S room' => if p =? tail then Some [split_unquote q1 q2 m (mkRef start p)] else option_map (cons (split_unquote q1 q2 m (mkRef start p))) (split_loop mg q1 q2 seps m f room' o o tail 0) end)).
  { intros Hpt. destruct room as [|[|room]]; [lia|by eexists|]. destruct (Z.eqb_spec p tail); [by eexists|].
    assert (Ho : p < o <= tail) by (unfold o; destruct mg; [assert (B := skip_seps_bounds seps m (Z.to_nat (tail - (p + 1))) (p + 1))|]; lia).
    destruct (IH (S room) o o tail 0) as [l ->]; [lia|lia|lia|by eexists]. }
  destruct (Z.ltb_spec p tail) as [L|L]; [|apply He; lia]. destruct (negb (q =? 0)); [apply IH; lia|]. destruct ((sc m p =? q1) || _); [apply IH; lia|]. destruct (negb _); [apply IH; lia|]. apply He. lia.
Qed.
Lemma first_field m c w rest : 0 < rb c -> w <> [] -> all visible w -> Forall (fun c => s8 c <> 0) w -> match rest with [] => True | d :: _ => s8 d = 32 \/ s8 d = 9 end -> refers m c (w ++ rest) ->
  exists f, fields m c = Some (mkRef (rb c) (rb c + zlen w) :: f).
Proof.
  intros Hp Hne Hw H0 Hrest [Hh Hl]. assert (Hwl : 0 < zlen w) by (destruct w; [done|cbn; lia]). rewrite length_app in Hl. unfold GetLength in Hl.
  assert (Hok : word_ok 0 0 directive_sep w).
  { apply Forall_forall. intros d Hd. rewrite Forall_forall in Hw, H0. specialize (Hw d Hd). specialize (H0 d Hd). split; [by apply visible_not_sep|done]. }
  unfold fields, Split_, IsEmpty, GetLength. rewrite (proj2 (Z.eqb_neq (rb c) 0)), (proj2 (Z.eqb_neq (re c) (rb c))) by lia. cbn [orb].
  replace (Z.to_nat (re c - rb c) + 1)%nat with (length w + S (length rest))%nat by lia. assert (Hh2 := Hh). apply holds_app in Hh2 as [Hh1 Hh2].
  rewrite split_word by (done || lia). cbn [split_loop]. rewrite (split_unquote_word 0 0 directive_sep) by done. destruct rest as [|d rest].
  - rewrite (proj2 (Z.ltb_ge _ _)) by (cbn in Hl; lia). rewrite (proj2 (Z.eqb_eq _ (re c))) by (cbn in Hl; lia). by eexists.
  - cbn [length] in Hl. apply holds_cons_inv in Hh2 as [Hd _]. rewrite (proj2 (Z.ltb_lt _ (re c))) by lia. change (negb (0 =? 0)) with false. cbn match.
    assert (Es : sc m (rb c + zlen w) = s8 d) by (unfold sc; by rewrite Hd). rewrite Es. assert (Hsep : Has directive_sep (s8 d) = true) by (destruct Hrest as [-> | ->]; vm_compute; reflexivity).
    assert (Hz : (s8 d =? 0) = false /\ (0 =? s8 d) = false) by (destruct Hrest as [-> | ->]; done). destruct Hz as [-> ->]. rewrite Hsep. cbn [orb negb]. rewrite (proj2 (Z.eqb_neq _ (re c))) by lia.
    assert (B := skip_seps_bounds directive_sep m (Z.to_nat (re c - (rb c + zlen w + 1))) (rb c + zlen w + 1)).
    destruct (split_total true 0 0 directive_sep m (S (length rest)) 2 (skip_seps directive_sep m (Z.to_nat (re c - (rb c + zlen w + 1))) (rb c + zlen w + 1)) (skip_seps directive_sep m (Z.to_nat (re c - (rb c + zlen w + 1))) (rb c + zlen w + 1)) (re c) 0) as [f Ef]; [lia|lia|lia|].
    cbn [length]. rewrite Ef. by eexists.
Qed.

(** *** The kinds of the lines of a text *)
Lemma find_set_spec m p seps a : forall n i b, (length a <= n)%nat -> holds m (p + i) (a ++ b) -> Forall (fun c => Has seps (s8 c) = false) a ->
  (n = length a -> find_set n m p seps i = -1) /\ (forall c b', b = c :: b' -> Has seps (s8 c) = true -> (length a < n)%nat -> find_set n m p seps i = i + zlen a).
Proof.
  induction a as [|c a IH]; intros n i b Hn Hh Ha; cbn [length] in *.
  - split; [by intros ->|]. intros c b' -> Hc Hn'. destruct n as [|n]; [lia|]. cbn [app find_set] in *. apply holds_cons_inv in Hh as [Hh _]. unfold sc. rewrite Hh, Hc. lia.
  - destruct n as [|n]; [lia|]. apply Forall_cons in Ha as [Hc Ha]. cbn [app] in Hh. apply holds_cons_inv in Hh as [Hh0 Hh]. rewrite <- Z.add_assoc in Hh.
    destruct (IH n (i + 1) b ltac:(lia) Hh Ha) as [H1 H2]. cbn [find_set]. unfold sc. rewrite Hh0, Hc. split; [intros [= E]; by apply H1|]. intros d b' Eb Hd Hl. rewrite (H2 d b' Eb Hd) by lia. lia.
Qed.
Lemma TrimAfter_word m r w rest : 0 < rb r -> all visible w -> refers m r (w ++ rest) -> match rest with [] => True | d :: _ => s8 d = 32 \/ s8 d = 9 end ->
  exists d, TrimAfter m r directive_sep = Some d /\ rb d = rb r /\ refers m d w.
Proof.
  intros Hp Hw [Hh Hl] Hr. unfold TrimAfter. rewrite (proj2 (Z.eqb_neq (rb r) 0)) by lia. unfold FindCharacter_set. rewrite Z.sub_0_r, Hl, Nat2Z.id.
  assert (Ha : Forall (fun c => Has directive_sep (s8 c) = false) w) by (eapply Forall_impl; [exact Hw|intros c; apply visible_not_sep]). assert (Hh1 := Hh). apply holds_app in Hh1 as [Hh1 _].
  destruct (find_set_spec m (rb r) directive_sep w (length (w ++ rest)) 0 rest) as [H1 H2]; [rewrite length_app; lia|by rewrite Z.add_0_r|done|]. destruct rest as [|d rest].
  - rewrite app_nil_r in *. rewrite H1 by done. exists r. repeat split; done.
  - rewrite (H2 d rest eq_refl); [|destruct Hr as [-> | ->]; vm_compute; reflexivity|rewrite length_app; cbn; lia]. rewrite (proj2 (Z.ltb_ge _ 0)) by lia. eexists. split; [done|]. split; [done|].
    split; [exact Hh1|unfold GetLength; cbn; lia].
Qed.
Lemma first_char m r c l : refers m r (c :: l) -> sc m (rb r) = s8 c.
Proof. intros [Hh _]. apply holds_cons_inv in Hh as [Hh _]. unfold sc. by rewrite Hh. Qed.
Lemma text_refers m r l : refers m r l -> text m r = l.
Proof. intros [Hh Hl]. unfold text. rewrite Hl, Nat2Z.id. exact Hh. Qed.

(** A directive at the beginning of its line is found by the loop and by the search. *)
Lemma directive_found m r w rest l : 0 < rb r -> refers m r l -> directive_text w rest l -> Forall (fun c => s8 c <> 0) w -> directive m (word_kind w) r.
Proof.
  intros Hp Hr (-> & (w' & Ew & Hw') & Hrest) H0. assert (Hne : w <> []) by (by subst w). assert (Hw := word_visible w w' Ew Hw').
  assert (Hlen : 0 < zlen w) by (subst w; cbn; lia). split; [|split].
  - destruct Hr as [_ Hl]. unfold GetLength in Hl. rewrite length_app in Hl. apply Z.eqb_neq. lia.
  - unfold seek_kind. destruct (TrimAfter_word m r w rest Hp Hw Hr Hrest) as (d & -> & Hd & Hrd).
    destruct (TrimSpace_keeps m d w []) as (rest' & b & E & Ht); [lia|done|done|by rewrite app_nil_r|]. destruct rest'; [|done]. rewrite app_nil_r in Ht.
    rewrite (text_refers _ _ _ Ht). subst w. by rewrite (first_char _ _ _ _ Ht).
  - unfold loop_kind. destruct (TrimSpace_keeps m r w rest Hp Hne Hw Hr) as (rest' & b & E & Ht). assert (Ec : sc m (rb (TrimSpace m r)) = chr "#") by (subst w; by rewrite (first_char _ _ _ _ Ht)). rewrite Ec. cbn [Z.eqb].
    rewrite Z.eqb_refl. destruct (first_field m (TrimSpace m r) w rest') as [f Ef]; try done.
    + assert (A := TrimSpace_after m r). lia.
    + by destruct rest'; [|rewrite E in Hrest].
    + rewrite Ef. unfold field. cbn [nth]. destruct Ht as [Hh _]. apply holds_app in Hh as [Hh _]. by rewrite (holds_text _ _ _ Hh).
Qed.

(** ** Examples *)

(** In the examples an expression is true unless it is the text 0. *)
Definition ex_eval (l : list Z) : option bool := Some (negb (is_text l (str "0"))).
Definition ex_lines : list (list Z) :=
  [str "#define A 1"; str "#ifdef A"; str "x A"; str "#if 0"; str "B"; str "#else"; []; str "y"; str "#endif"; str "#elif 1"; str "#if A"; str "z"; str "#endif"; str "#endif"; str "A;"].
Definition ex_file_text : list Z := lines_text [10] ex_lines.
Definition ex_at (i : nat) : ref := nth i (line_refs 1 [10] ex_lines) null_ref.
Definition ex_tree : file :=
  Plain (ex_at 0) (Group (Branch (ex_at 1) (Plain (ex_at 2) (Group (Branch (ex_at 3) (Plain (ex_at 4) Done) (Branch (ex_at 5) (Plain (ex_at 6) (Plain (ex_at 7) Done)) NoBranch)) (ex_at 8) Done))
    (Branch (ex_at 9) (Group (Branch (ex_at 10) (Plain (ex_at 11) Done) NoBranch) (ex_at 12) Done) NoBranch)) (ex_at 13) (Plain (ex_at 14) Done)).
Definition ex_start : precompiler := mkPre [] [] [] None ∅ 0 0.
Definition ex_end : precompiler := mkPre [] [] [] None {[str "A" := mkMacro (-1) (str "1")]} 0 0.
Definition ex_output : list Z := lines_text [13; 10] [str "x 1"; []; str "y"; str "1;"].
Example ex_run : option_map snd (_SubsituteFile ex_eval 60 ex_start (string_mem ex_file_text) (string_ref ex_file_text)) = Some ex_output.
Proof. vm_compute. reflexivity. Qed.

(** The result for all fuel from 20 on, computed. *)
Ltac enough_fuel := exists 20%nat; intros fuel Hf; do 20 (destruct fuel as [|fuel]; [lia|]); vm_compute; reflexivity.
Lemma ex_runs : runs ex_eval (string_mem ex_file_text) ex_start ex_tree [] ex_end ex_output.
Proof.
  unfold ex_tree. eapply r_plain; [enough_fuel|]. eapply r_group; [eapply t_enter; [enough_fuel|]|].
  - eapply r_plain; [enough_fuel|]. eapply r_group; [|apply r_done]. eapply t_next; [enough_fuel|]. eapply t_enter; [enough_fuel|].
    eapply r_plain; [enough_fuel|]. eapply r_plain; [enough_fuel|]. apply r_done.
  - eapply r_plain; [enough_fuel|]. apply r_done.
Qed.
Lemma conditionals_correct_witness : exists k, forall fuel, (k <= fuel)%nat -> _SubsituteFile ex_eval fuel ex_start (string_mem ex_file_text) (string_ref ex_file_text) = Some (ex_end, ex_output).
Proof.
  apply (conditionals_correct ex_eval _ _ ex_tree).
  - change (flines ex_tree) with (line_refs 1 [10] ex_lines). apply (file_stream (string_mem ex_file_text) (string_ref ex_file_text) [10]); [left|done| |done|apply holds_mem_of|done].
    unfold ex_lines. repeat constructor.
  - unfold ex_tree. cbn. repeat split; vm_compute; first [reflexivity | discriminate | done].
  - apply ex_runs.
Defined.

(** What the code does with other files: the errors and the output. *)
Definition ex_result (eol : list Z) (ls : list (list Z)) : option (Z * list Z) :=
  let l := lines_text eol ls in option_map (fun x => (_ErrorCount x.1, x.2)) (_SubsituteFile ex_eval 60 ex_start (string_mem l) (string_ref l)).
(** The level rises at the end of a group too: an unmatched [#endif] behind it is not reported. *)
Example unmatched_first : ex_result [10] [str "#endif"] = Some (1, []).
Proof. vm_compute. reflexivity. Qed.
Example unmatched_later : ex_result [10] [str "#if 1"; str "#endif"; str "#endif"] = Some (0, []).
Proof. vm_compute. reflexivity. Qed.
(** An indented directive is found by the loop, but not by the search. *)
Example indented_entered : ex_result [10] [str "#if 1"; str "a"; str " #else"; str "b"; str "#endif"; str "c"] = Some (0, lines_text [13; 10] [str "a"; str "c"]).
Proof. vm_compute. reflexivity. Qed.
Example indented_skipped : ex_result [10] [str "#if 0"; str "a"; str " #else"; str "b"; str "#endif"; str "c"] = Some (0, lines_text [13; 10] [str "c"]).
Proof. vm_compute. reflexivity. Qed.
Example first_blank_lost : ex_result [10] [[]; str "x"; []; str "y"] = Some (0, lines_text [13; 10] [str "x"; []; str "y"]).
Proof. vm_compute. reflexivity. Qed.
Example defined_without_parentheses : ex_result [10] [str "#if defined A"; str "x"; str "#endif"] = Some (2, []).
Proof. vm_compute. reflexivity. Qed.
(** What an expression is translated to. *)
Definition ex_translated (l : list Z) : option (list Z) :=
  vars ← Split true (string_mem l) (string_ref l) 1023 if_ops;
  r ← translate 60 ex_end (string_mem l) (1 + zlen l) vars (text (string_mem l) (mkRef 1 (next_begin vars (1 + zlen l))));
  (r : precompiler * option (list Z)).2.
Example translated_and : ex_translated (str "(defined(A) && !defined(B))+A") = Some (str "( true  && ! false )+1").
Proof. vm_compute. reflexivity. Qed.
Example defined_or_defined : ex_translated (str "defined(A)||defined(B)") = Some (str " true ||defined(B)").
Proof. vm_compute. reflexivity. Qed.
Example words_joined : ex_translated (str "A and A") = Some (str "1and1").
Proof. vm_compute. reflexivity. Qed.
