(* ===== verification/Paths.v ===== *)
(** [os::File::ResolveRelativePath] of os/file_dir.cpp: the absolute path of a path,
    without dots, for the platforms that are not Windows. *)
From stdpp Require Import gmap.
From S2P Require Import Prelude Str StrScan Macro MacroSpec.

(** ** The function *)

Definition path_sep : cset := CharacterSet (str "/\").
(** [seg[parsed++] = seg[i]] in the array of the segments, which are taken in order;
    [None] for the return when a name follows too many steps up. *)
Fixpoint resolve_loop (m : mem) (n i : nat) (seg : list ref) (parsed : Z) : option (list ref * Z) :=
  match n with
  | O => Some (seg, parsed)
  | S n =>
    let s := nth i seg null_ref in
    if IsEmpty s || bool_decide (text m s = str ".") then resolve_loop m n (S i) seg parsed
    else if bool_decide (text m s = str "..") then resolve_loop m n (S i) seg (parsed - 1)
    else if parsed <? 0 then None
    else resolve_loop m n (S i) (<[Z.to_nat parsed := s]> seg) (parsed + 1)
  end.
Definition joined (m : mem) (seg : list ref) : list Z := concat (map (fun s => chr "/" :: text m s) seg).
Definition input_path (cwd path : list Z) : list Z :=
  match path with c :: _ => if c =? chr "/" then path else cwd ++ chr "/" :: path | [] => cwd ++ [chr "/"] end.
(** The current directory is [cwd].  [None]: the number of segments is negative, and
    the loop that joins them, which takes it as unsigned, leaves the array. *)
Definition ResolveRelativePath (cwd path : list Z) : option (list Z) :=
  let input := input_path cwd path in
  let m := string_mem input in
  seg ← Split true m (string_ref input) 1024 path_sep;
  match resolve_loop m (length seg) 0 seg 0 with
  | None => Some []
  | Some (seg, parsed) =>
    if parsed <? 0 then None
    else
      let last := sc m (zlen input) in
      Some (joined m (take (Z.to_nat parsed) seg) ++ if (last =? chr "/") || (last =? chr "\") then [chr "/"] else [])
  end.

(** ** What is meant *)

(** One segment more: nothing for an empty one or a dot, a step up for two dots. *)
Definition step_path (acc : list (list Z)) (s : list Z) : list (list Z) :=
  if bool_decide (s = []) || bool_decide (s = str ".") then acc else if bool_decide (s = str "..") then take (length acc - 1) acc else acc ++ [s].
Definition normal (ss : list (list Z)) : list (list Z) := fold_left step_path ss [].
(** No step leads above the root. *)
Fixpoint below_root (d : nat) (ss : list (list Z)) : Prop :=
  match ss with
  | [] => True
  | s :: ss =>
    if bool_decide (s = []) || bool_decide (s = str ".") then below_root d ss
    else if bool_decide (s = str "..") then match d with O => False | S d => below_root d ss end else below_root (S d) ss
  end.
Definition path_text (ss : list (list Z)) : list Z := concat (map (cons (chr "/")) ss).

Lemma IsEmpty_text m r : 0 < rb r -> rb r <= re r -> IsEmpty r = bool_decide (text m r = []).
Proof.
  intros H1 H2. unfold IsEmpty. rewrite (proj2 (Z.eqb_neq _ 0)) by lia. cbn [orb]. unfold text, GetLength. destruct (Z.eqb_spec (re r) (rb r)) as [E|E].
  - symmetry. apply bool_decide_eq_true_2. replace (Z.to_nat _) with 0%nat by lia. done.
  - symmetry. apply bool_decide_eq_false_2. destruct (Z.to_nat _) eqn:En; [lia|done].
Qed.
Lemma resolve_spec m todo : forall i seg k, drop i seg = todo -> (k <= i)%nat -> (k <= length seg)%nat -> Forall (fun r => 0 < rb r <= re r) todo -> below_root k (map (text m) todo) ->
  exists seg' k', resolve_loop m (length todo) i seg (Z.of_nat k) = Some (seg', Z.of_nat k') /\ map (text m) (take k' seg') = fold_left step_path (map (text m) todo) (map (text m) (take k seg)).
Proof.
  induction todo as [|s todo IH]; intros i seg k Hd Hk Hl Hr Hb; [by exists seg, k|]. apply Forall_cons in Hr as [[Hs1 Hs2] Hr]. cbn [map below_root] in Hb. cbn [length resolve_loop map fold_left].
  assert (Hi : seg !! i = Some s) by (rewrite <- (Nat.add_0_r i), <- lookup_drop, Hd; done). rewrite (nth_lookup_Some seg i null_ref s Hi), (IsEmpty_text m s Hs1 Hs2).
  assert (Hd' : drop (S i) seg = todo) by (rewrite <- Nat.add_1_r, <- drop_drop, Hd; done). assert (Hil := lookup_lt_Some _ _ _ Hi). unfold step_path at 2.
  destruct (bool_decide (text m s = []) || bool_decide (text m s = str ".")) eqn:E1; [by apply IH; auto with lia|].
  destruct (bool_decide (text m s = str "..")) eqn:E2.
  - destruct k as [|k]; [done|]. replace (Z.of_nat (S k) - 1) with (Z.of_nat k) by lia. destruct (IH (S i) seg k) as (seg' & k' & E & En); [done|lia|lia|done|done|].
    exists seg', k'. split; [done|]. rewrite En. f_equal. rewrite length_map, length_take, Nat.min_l by lia. cbn [Nat.sub]. rewrite Nat.sub_0_r, !firstn_map, take_take, Nat.min_l by lia. done.
  - rewrite (proj2 (Z.ltb_ge _ 0)) by lia. rewrite Nat2Z.id. replace (Z.of_nat k + 1) with (Z.of_nat (S k)) by lia.
    destruct (IH (S i) (<[k:=s]> seg) (S k)) as (seg' & k' & E & En); [by rewrite drop_insert_lt by lia|lia|rewrite length_insert; lia|done|done|].
    exists seg', k'. split; [done|]. rewrite En. f_equal. rewrite (take_S_r _ k s) by (apply list_lookup_insert_eq; lia). rewrite take_insert_ge by lia. by rewrite map_app.
Qed.

(** ** A path in memory *)

Lemma sep_first s : word_ok c_quot c_apos path_sep s -> Forall (fun c => Has path_sep (s8 c) = false) s.
Proof. intros H. eapply Forall_impl; [exact H|]. cbn. tauto. Qed.
(** A path: a separator, then names with separators behind them. *)
Definition absolute (ch : list (list Z * list Z)) : list Z := chr "/" :: chain_text ch.
Definition trailing (ch : list (list Z * list Z)) : list Z := if chain_open ch then [chr "/"] else [].
Lemma chain_texts m ch : forall p, holds m p (chain_text ch) -> map (text m) (chain_refs p ch) = map fst ch.
Proof.
  induction ch as [|[w s] ch IH]; intros p Hh; [done|]. cbn [chain_refs map fst]. unfold chain_text in Hh. cbn [map concat fst snd] in Hh. rewrite <- app_assoc in Hh.
  apply holds_app in Hh as [H1 H2]. apply holds_app in H2 as [_ H2]. by rewrite holds_text, IH.
Qed.
Lemma chain_refs_ok ch : forall p, 0 < p -> Forall (fun r => 0 < rb r <= re r) (chain_refs p ch).
Proof. induction ch as [|[w s] ch IH]; intros p Hp; cbn [chain_refs]; constructor; [cbn; lia|apply IH; lia]. Qed.
Lemma split_absolute ch : chain_ok path_sep ch -> (length ch < 1023)%nat ->
  Split true (string_mem (absolute ch)) (string_ref (absolute ch)) 1024 path_sep =
    Some (mkRef 1 1 :: chain_refs 2 ch ++ if chain_open ch then [mkRef (1 + zlen (absolute ch)) (1 + zlen (absolute ch))] else []).
Proof.
  intros Hok Hlen. set (m := string_mem (absolute ch)). assert (Hh : holds m 1 (absolute ch)) by apply holds_mem_of. unfold absolute in Hh. apply holds_cons_inv in Hh as [H0 Hh].
  assert (Hl : zlen (absolute ch) = 1 + zlen (chain_text ch)) by (unfold absolute; cbn [length]; lia). unfold Split, Split_, IsEmpty, string_ref, GetLength. cbn [rb re]. rewrite Hl.
  rewrite (proj2 (Z.eqb_neq _ 1)) by lia. cbn [Z.eqb Pos.eqb orb]. replace (Z.to_nat _ + 1)%nat with (S (S (length (chain_text ch)))) by lia. set (T := 1 + (1 + zlen (chain_text ch))). assert (HT : T = 2 + zlen (chain_text ch)) by (unfold T; lia). clearbody T. remember (S (length (chain_text ch))) as k eqn:Ek.
  cbn [split_loop]. rewrite (proj2 (Z.ltb_lt 1 _)) by lia. assert (Es : sc m 1 = chr "/") by (unfold sc; by rewrite H0). rewrite Es. change (negb (0 =? 0)) with false. change (chr "/" =? c_quot) with false. change (c_apos =? chr "/") with false. cbn [orb].
  change (negb (Has path_sep (chr "/"))) with false. cbn match. rewrite (proj2 (Z.eqb_neq 1 T)) by lia. change (split_unquote c_quot c_apos m (mkRef 1 1)) with (mkRef 1 1).
  assert (Hskip : skip_seps path_sep m (Z.to_nat (T - (1 + 1))) (1 + 1) = 2).
  { destruct ch as [|[w s] ch]; [done|]. destruct (chain_head path_sep w s ch Hok) as (c & u & -> & Hc). unfold chain_text in Hh. cbn [map concat fst app] in Hh. apply holds_cons_inv in Hh as [Hc0 _].
    destruct (Z.to_nat _) as [|n]; [done|]. cbn [skip_seps]. unfold sc. by rewrite Hc0, Hc. }
  rewrite Hskip. subst T k. rewrite (split_chain path_sep m ch) by (done || lia). done.
Qed.

Lemma map_tail ch T : map (text (string_mem (absolute ch))) (if chain_open ch then [mkRef T T] else []) = if chain_open ch then [[]] else [].
Proof. destruct (chain_open ch); [|done]. cbn. unfold text, GetLength. cbn [rb re]. by rewrite Z.sub_diag. Qed.
Lemma below_root_tail ss : forall d, below_root d ss -> below_root d (ss ++ [[]]).
Proof. induction ss as [|s ss IH]; intros d H; cbn [app below_root] in *; [done|]. destruct (_ || _); [by apply IH|]. destruct (bool_decide _); [destruct d; [done|]|]; by apply IH. Qed.

Lemma has_sep c : Has path_sep c = (c =? chr "/") || (c =? chr "\").
Proof.
  assert (H : Has path_sep c = true <-> In c (str "/\")) by (apply Has_CharacterSet; repeat constructor; vm_compute; discriminate).
  apply eq_true_iff_eq. rewrite H, orb_true_iff, !Z.eqb_eq. cbn. intuition congruence.
Qed.
Lemma last_word_char w : w <> [] -> word_ok c_quot c_apos path_sep w -> exists l c, w = l ++ [c] /\ Has path_sep (s8 c) = false.
Proof.
  intros Hne Hw. destruct (exists_last Hne) as (l & c & E). exists l, c. split; [done|]. unfold word_ok in Hw. rewrite E in Hw. apply Forall_app in Hw as [_ Hw]. apply Forall_cons in Hw as [Hw _]. apply Hw.
Qed.
Lemma chain_last ch : chain_ok path_sep ch -> exists l c, chain_text ch = l ++ [c] /\ Has path_sep (s8 c) = chain_open ch.
Proof.
  induction ch as [|[w s] ch IH]; [done|]. intros (Hn & Hw & Hs & Ht). unfold chain_text. cbn [map concat fst snd]. destruct ch as [|x ch].
  - cbn [map concat chain_open]. rewrite app_nil_r. destruct s as [|c0 s].
    + rewrite app_nil_r. destruct (last_word_char w) as (l & c & -> & Hc); [by destruct w; [cbn in Hn; lia|]|done|]. by exists l, c.
    + destruct (exists_last (l := c0 :: s)) as (l & c & E); [done|]. exists (w ++ l), c. split; [by rewrite E, app_assoc|]. cbn [length Nat.eqb negb]. rewrite E in Hs. apply Forall_app in Hs as [_ Hs]. apply Forall_cons in Hs as [Hs _]. apply Hs.
  - destruct Ht as [_ Ht]. destruct (IH Ht) as (l & c & E & Hc). unfold chain_text in E. exists ((w ++ s) ++ l), c. split; [by rewrite E, app_assoc|]. rewrite Hc. by destruct s.
Qed.
Lemma fold_skip ss acc : fold_left step_path (ss ++ [[]]) acc = fold_left step_path ss acc.
Proof. by rewrite fold_left_app. Qed.

Lemma resolve_exact cwd path ch : input_path cwd path = absolute ch -> chain_ok path_sep ch -> (length ch < 1023)%nat -> below_root 0 (map fst ch) ->
  ResolveRelativePath cwd path = Some (path_text (normal (map fst ch)) ++ trailing ch).
Proof.
  intros Ei Hok Hlen Hb. unfold ResolveRelativePath. rewrite Ei.
  rewrite (split_absolute ch Hok Hlen). cbn [mbind option_bind]. set (T := 1 + zlen (absolute ch)). set (m := string_mem (absolute ch)).
  set (todo := mkRef 1 1 :: chain_refs 2 ch ++ if chain_open ch then [mkRef T T] else []).
  assert (Hh : holds m 1 (absolute ch)) by apply holds_mem_of. assert (Hh2 := Hh). unfold absolute in Hh2. apply holds_cons_inv in Hh2 as [_ Hh2].
  assert (Ht : map (text m) todo = [] :: map fst ch ++ if chain_open ch then [[]] else []).
  { unfold todo. cbn [map]. rewrite map_app, (chain_texts m ch 2 Hh2). unfold m. by rewrite map_tail. }
  destruct (resolve_spec m todo 0 todo 0) as (seg' & k' & E & En); [done|lia|lia| | |].
  - unfold todo. constructor; [cbn; lia|]. apply Forall_app. split; [apply chain_refs_ok; lia|]. destruct (chain_open ch); repeat constructor; cbn; unfold T; lia.
  - rewrite Ht. cbn [below_root]. destruct (chain_open ch); [by apply below_root_tail|by rewrite app_nil_r].
  - change (Z.of_nat 0) with 0 in E. rewrite E, (proj2 (Z.ltb_ge _ 0)), Nat2Z.id by lia. f_equal. f_equal.
    + unfold joined, path_text, normal. rewrite Ht in En. change (map (text m) (take k' seg') = fold_left step_path (map fst ch ++ if chain_open ch then [[]] else []) []) in En.
      assert (Ef : fold_left step_path (map fst ch ++ if chain_open ch then [[]] else []) [] = fold_left step_path (map fst ch) []) by (destruct (chain_open ch); [by rewrite fold_skip|by rewrite app_nil_r]).
      rewrite Ef in En. rewrite <- En, map_map. done.
    + unfold trailing. destruct (chain_last ch Hok) as (l & c & Ec & Hc). rewrite <- Hc, has_sep. replace (sc m (zlen (absolute ch))) with (s8 c); [done|].
      unfold sc. f_equal. unfold absolute in *. rewrite Ec in *. cbn [length]. rewrite length_app. cbn [length]. apply holds_app in Hh2 as [_ Hh2]. apply holds_cons_inv in Hh2 as [Hh2 _]. rewrite <- Hh2. f_equal. lia.
Qed.

(** *** Resolved paths *)
Definition clean (s : list Z) : Prop := s <> [] /\ s <> str "." /\ s <> str ".." /\ word_ok c_quot c_apos path_sep s.
Fixpoint chain_of (ss : list (list Z)) (t : list Z) : list (list Z * list Z) :=
  match ss with [] => [] | [s] => [(s, t)] | s :: ss => (s, [chr "/"]) :: chain_of ss t end.
Lemma step_clean ss : forall acc, Forall clean ss -> fold_left step_path ss acc = acc ++ ss.
Proof.
  induction ss as [|s ss IH]; intros acc H; cbn [fold_left]; [by rewrite app_nil_r|]. apply Forall_cons in H as [(H1 & H2 & H3 & _) H]. unfold step_path at 2.
  rewrite !bool_decide_eq_false_2 by done. cbn [orb]. by rewrite IH, <- app_assoc.
Qed.
Lemma normal_clean ss : forall acc, Forall clean acc -> Forall (word_ok c_quot c_apos path_sep) ss -> Forall clean (fold_left step_path ss acc).
Proof.
  induction ss as [|s ss IH]; intros acc Ha Hs; cbn [fold_left]; [done|]. apply Forall_cons in Hs as [H1 Hs]. apply IH; [|done]. unfold step_path.
  case_bool_decide as E1; [done|]. case_bool_decide as E2; [done|]. cbn [orb]. case_bool_decide as E3; [by apply Forall_take|]. apply Forall_app. by repeat constructor.
Qed.
Lemma below_clean ss : forall d, Forall clean ss -> below_root d ss.
Proof.
  induction ss as [|s ss IH]; intros d H; cbn [below_root]; [done|]. apply Forall_cons in H as [(H1 & H2 & H3 & _) H]. rewrite !bool_decide_eq_false_2 by done. by apply IH.
Qed.
Lemma chain_of_spec t ss : t = [] \/ t = [chr "/"] -> ss <> [] -> Forall clean ss ->
  chain_ok path_sep (chain_of ss t) /\ absolute (chain_of ss t) = path_text ss ++ t /\ map fst (chain_of ss t) = ss /\ chain_open (chain_of ss t) = negb (length t =? 0)%nat.
Proof.
  intros Ht. assert (Hsep : Forall (fun c => Has path_sep (s8 c) = true /\ s8 c <> c_quot /\ s8 c <> c_apos) [chr "/"]) by (repeat constructor; done).
  induction ss as [|s ss IH]; intros Hne H; [done|]. apply Forall_cons in H as [(H1 & H2 & H3 & Hw) H]. assert (Hl : (0 < length s)%nat) by (destruct s; [done|cbn; lia]). destruct ss as [|s' ss].
  - cbn [chain_of chain_ok map fst chain_open]. unfold absolute, chain_text, path_text. cbn. rewrite !app_nil_r. split; [|done]. split; [done|]. split; [done|]. split; [destruct Ht as [-> | ->]; [constructor|exact Hsep]|done].
  - destruct (IH ltac:(done) H) as (Hok & Ea & Em & Eo). change (chain_of (s :: s' :: ss) t) with ((s, [chr "/"]) :: chain_of (s' :: ss) t). set (C := chain_of (s' :: ss) t) in *.
    split; [|split; [|split]].
    + cbn [chain_ok]. split; [done|]. split; [done|]. split; [done|]. destruct C; [done|]. split; [cbn; lia|done].
    + unfold absolute, chain_text, path_text in *. cbn [map concat fst snd app]. rewrite <- app_assoc. cbn [app]. rewrite Ea. cbn [map concat app]. by rewrite <- !app_assoc, <- app_comm_cons, <- app_assoc.
    + cbn [map fst]. by rewrite Em.
    + cbn [chain_open]. by destruct C.
Qed.
Lemma length_steps ss : forall acc, (length (fold_left step_path ss acc) <= length acc + length ss)%nat.
Proof.
  induction ss as [|s ss IH]; intros acc; cbn [fold_left length]; [lia|]. specialize (IH (step_path acc s)). assert (length (step_path acc s) <= S (length acc))%nat; [|lia].
  unfold step_path. destruct (_ || _); [lia|]. destruct (bool_decide _); [rewrite length_take; lia|rewrite length_app; cbn; lia].
Qed.
Lemma length_names ss t : length (chain_of ss t) = length ss.
Proof. induction ss as [|s ss IH]; [done|]. destruct ss as [|s' ss]; [done|]. change (chain_of (s :: s' :: ss) t) with ((s, [chr "/"]) :: chain_of (s' :: ss) t). cbn [length]. by rewrite IH. Qed.
Lemma chain_words ch : chain_ok path_sep ch -> Forall (word_ok c_quot c_apos path_sep) (map fst ch).
Proof.
  induction ch as [|[w s] ch IH]; [done|]. intros (Hn & Hw & Hs & Ht). cbn [map fst]. constructor; [done|]. destruct ch as [|x ch]; [constructor|]. apply IH, Ht.
Qed.
(** Resolving is idempotent: what [ResolveRelativePath] gives, unless no name is left,
    is what it gives for it, wherever the current directory is. *)
Theorem resolve_idempotent cwd cwd' path ch : input_path cwd path = absolute ch -> chain_ok path_sep ch -> (length ch < 1023)%nat -> below_root 0 (map fst ch) -> normal (map fst ch) <> [] ->
  exists r, ResolveRelativePath cwd path = Some r /\ ResolveRelativePath cwd' r = Some r.
Proof.
  intros Ei Hok Hlen Hb Hne. exists (path_text (normal (map fst ch)) ++ trailing ch). split; [by apply resolve_exact|].
  set (ss := normal (map fst ch)) in *. assert (Hc : Forall clean ss) by (apply normal_clean; [constructor|by apply chain_words]).
  assert (Ht : trailing ch = [] \/ trailing ch = [chr "/"]) by (unfold trailing; destruct (chain_open ch); auto).
  destruct (chain_of_spec (trailing ch) ss Ht Hne Hc) as (Hok' & Ea & Em & Eo). rewrite <- Ea at 1. rewrite (resolve_exact cwd' _ (chain_of ss (trailing ch))); [|done|done| |].
  - rewrite Em. f_equal. unfold normal. rewrite step_clean by done. cbn [app]. f_equal. unfold trailing at 1. rewrite Eo. by destruct Ht as [-> | ->].
  - rewrite length_names. assert (L := length_steps (map fst ch) []). rewrite length_map in L. cbn [length] in L. unfold ss, normal. lia.
  - rewrite Em. by apply below_clean.
Qed.
(** C18: a path is resolved, from the current directory unless it is absolute, to the names
    that are left when each dot is dropped and each step up takes the name before it
    away, whatever separators stand between the names; a separator at the end stays.
    The conditions: no step leads above the root, no name holds a quotation mark or an
    apostrophe ([chain_ok]; separators between two of them are not seen, [apostrophe]),
    and there are fewer than 1023 names. *)
Theorem resolve_correct cwd path ch : input_path cwd path = absolute ch -> chain_ok path_sep ch -> (length ch < 1023)%nat -> below_root 0 (map fst ch) ->
  ResolveRelativePath cwd path = Some (path_text (normal (map fst ch)) ++ trailing ch).
Proof. apply resolve_exact. Qed.

(** ** Examples *)

Definition ex_chain : list (list Z * list Z) := [(str "home", str "/"); (str "u", str "/"); (str "a", str "//"); (str "..", str "\"); (str ".", str "/"); (str "b.h", [])].
Lemma resolve_correct_witness : ResolveRelativePath (str "/home/u") (str "a//..\./b.h") = Some (path_text (normal (map fst ex_chain)) ++ trailing ex_chain).
Proof.
  apply resolve_correct; [reflexivity| |cbn; lia|vm_compute; exact I].
  cbn. repeat split; try lia; repeat constructor; vm_compute; discriminate.
Defined.
Lemma resolve_idempotent_witness : exists r, ResolveRelativePath (str "/home/u") (str "a//..\./b.h") = Some r /\ ResolveRelativePath (str "/tmp") r = Some r.
Proof.
  apply (resolve_idempotent (str "/home/u") (str "/tmp") (str "a//..\./b.h") ex_chain); [reflexivity| |cbn; lia|vm_compute; exact I|vm_compute; discriminate].
  cbn. repeat split; try lia; repeat constructor; vm_compute; discriminate.
Defined.
Example resolved : ResolveRelativePath (str "/home/u") (str "a//..\./b.h") = Some (str "/home/u/b.h").
Proof. vm_compute. reflexivity. Qed.
(** Above the root: the text is empty when a name follows, and undefined at the end; of a
    path to the root nothing is left; a quotation mark hides the separators behind it. *)
Example above_root : ResolveRelativePath [] (str "/../a") = Some [] /\ ResolveRelativePath [] (str "/a/../..") = None /\ ResolveRelativePath [] (str "/a/..") = Some [].
Proof. vm_compute. auto. Qed.
Example apostrophe : ResolveRelativePath [] (str "/it's/../x") = Some (str "/it's/../x").
Proof. vm_compute. reflexivity. Qed.
