(* ===== verification/Include.v ===== *)
(** The merging of included files: [_Compile], [_MergeIncludedFile] and [Compile] of
    os/precompiler.cpp, over a file system that is a parameter. *)
From stdpp Require Import gmap.
From S2P Require Import Prelude Str StrScan StrBuf Macro Cond Paths.

(** A computation: out of fuel, undefined behaviour, or a result. *)
Inductive outcome (A : Type) := NoFuel | Crash | Ok (a : A).
Arguments NoFuel {A}.
Arguments Crash {A}.
Arguments Ok {A} a.
Definition obind {A B} (r : outcome A) (f : A -> outcome B) : outcome B := match r with NoFuel => NoFuel | Crash => Crash | Ok a => f a end.
Declare Scope outcome_scope.
Notation "x <- r ;; s" := (obind r (fun x => s)) (at level 100, r at next level, right associativity) : outcome_scope.
Open Scope outcome_scope.
Definition or_crash {A} (o : option A) : outcome A := match o with Some a => Ok a | None => Crash end.
Definition or_fuel {A} (o : option A) : outcome A := match o with Some a => Ok a | None => NoFuel end.

(** ** The state *)

Definition CST_FINALIZED : Z := 1.
Definition CST_INCLUDE_ONCE : Z := 2.
Record code := mkCode { State : Z; Content : list Z }.
Record merger := mkMerger { pre : precompiler; _Compiled : gmap name code }.
Definition set_pre (P : precompiler) (s : merger) : merger := mkMerger P (_Compiled s).
Definition error (s : merger) : merger := set_pre (PrintError (pre s)) s.
Definition on_code (f : code -> code) (fn : name) (s : merger) : merger := mkMerger (pre s) (alter f fn (_Compiled s)).
Definition add_content (l : list Z) : name -> merger -> merger := on_code (fun c => mkCode (State c) (Content c ++ l)).
Definition add_state (flag : Z) : name -> merger -> merger := on_code (fun c => mkCode (Z.lor (State c) flag) (Content c)).
Definition content_of (fn : name) (s : merger) : list Z := match _Compiled s !! fn with Some c => Content c | None => [] end.

(** [_LoadFile] *)
Definition _LoadFile (loader : option (name -> option (list Z))) (allow_fallback : bool) (LoadText : name -> option (list Z)) (fn : name) : option (list Z) :=
  match (f ← loader; f fn) with Some out => Some out | None => if allow_fallback then LoadText fn else None end.

Definition SetFileLoader (f : option (name -> option (list Z))) (allow_fallback : bool) : option (name -> option (list Z)) * bool := (f, match f with Some _ => allow_fallback | None => true end).
Definition Empty (s : merger) : merger := mkMerger (ClearMacros (pre s)) ∅.

Definition trimmed (l : list Z) : list Z := text (string_mem l) (TrimSpace (string_mem l) (string_ref l)).
Definition directory_of (fn : name) : list Z :=
  match GetDirectoryName (string_mem fn) (string_ref fn) with Some r => text (string_mem fn) r | None => str "./" end.
(** Slashes for back slashes, as [NormalizePathSeparator] does. *)
Definition slashes (l : list Z) : list Z := map (fun c => if is_sep (s8 c) then chr "/" else c) l.

(** The directories that are searched: absolute, with a slash behind them, each once.
    A path of which nothing is left has no last character to look at. *)
Definition AddIncludeSearchDirectory (cwd : list Z) (dirs : list (list Z)) (dir : list Z) : option (list (list Z)) :=
  out ← slashes <$> ResolveRelativePath cwd dir;
  match out with
  | [] => None
  | _ =>
    let out := if s8 (List.last out 0) =? chr "/" then out else out ++ [chr "/"] in
    Some (if bool_decide (out ∈ dirs) then dirs else dirs ++ [out])
  end.
Definition SetIncludeSearchDirectories (cwd : list Z) (l : list Z) : option (list (list Z)) :=
  let m := string_mem l in
  paths ← Split true m (string_ref l) 1024 (CharacterSet (str ";|"));
  fold_left (fun dirs r => ds ← dirs; let r := TrimSpace m r in if IsEmpty r then Some ds else AddIncludeSearchDirectory cwd ds (text m r)) paths (Some []).

Section Merging.
Context (malloc : Z -> option (list Z)) (cwd : list Z) (load : name -> option (list Z)) (dirs : list (list Z)).

Definition resolve (path : list Z) : option name := slashes <$> ResolveRelativePath cwd path.
Definition trim_comments (source : list Z) : option (list Z) := StrBuf.content <$> TrimCodeComments malloc String0 (string_mem source) (string_ref source) 0.
Definition include_sep : cset := CharacterSet (str "<>" ++ [c_quot]).
Definition pragma_sep : cset := CharacterSet [32; 9].
Definition ends_backslash (m : mem) (line : ref) : bool := negb (IsEmpty line) && (sc m (re line - 1) =? chr "\").

(** The lines that are connected to the one before; the last line read. *)
Fixpoint join_lines (fuel : nat) (s : merger) (filename : name) (m : mem) (source line : ref) : outcome (merger * ref) :=
  match fuel with
  | O => NoFuel
  | S f =>
    match GetNextLine m source line false with
    | None => Ok (s, line)
    | Some line =>
      if ends_backslash m line then join_lines f (add_content (text m (TrimSpace m (TrimRight line 1)) ++ [32]) filename s) filename m source line
      else Ok (add_content (text m (TrimSpace m line)) filename s, line)
    end
  end.
(** How the name of an included file is written: in quotation marks, or in brackets
    when there are directories to search. *)
Definition lib_mode (m : mem) (f1 : ref) : option bool :=
  if (sc m (rb f1 - 1) =? c_quot) && (sc m (re f1) =? c_quot) then Some false
  else if (sc m (rb f1 - 1) =? chr "<") && (sc m (re f1) =? chr ">") then Some (negb (length dirs =? 0)%nat)
  else None.

(** [compile_file] is [_Compile], the text it returns with the state, [compile_lines] its
    loop, [search] the one over the directories, [merge] is [_MergeIncludedFile],
    which adds to the file [into]. *)
Fixpoint compile_file (fuel : nat) (s : merger) (filename : name) (source_in : list Z) : outcome (merger * list Z) :=
  match fuel with
  | O => NoFuel
  | S f =>
    let s := mkMerger (pre s) (<[filename := mkCode 0 []]> (_Compiled s)) in
    source <- or_crash (trim_comments source_in) ;;
    r <- compile_lines f s filename (string_mem source) (string_ref source) null_ref ;;
    let '(s, ok) := r : merger * bool in
    if ok then let s := add_state CST_FINALIZED filename s in Ok (s, content_of filename s) else Ok (s, [])
  end
with compile_lines (fuel : nat) (s : merger) (filename : name) (m : mem) (source line : ref) : outcome (merger * bool) :=
  match fuel with
  | O => NoFuel
  | S f =>
    match GetNextLine m source line false with
    | None => Ok (s, true)
    | Some line =>
      let t := TrimSpace m line in
      let next s line := compile_lines f (add_content [10] filename s) filename m source line in
      if starts_with (text m t) (str "#include") || starts_with (text m t) (str "#import") then
        fs <- or_crash (Split_ false 0 0 include_sep m t 3) ;;
        match fs with
        | [_; f1; _] =>
          r <- or_fuel (subst f (pre s) m f1 []) ;;
          let '(P, fn) := r : precompiler * list Z in
          let s := set_pre P s in
          match lib_mode m f1 with
          | None => Ok (error s, false)
          | Some lib =>
            r <- (if lib then Ok (s, 0) else p <- or_crash (resolve (directory_of filename ++ fn)) ;; merge f s filename p) ;;
            r <- search f (r : merger * Z).1 filename r.2 dirs fn ;;
            let '(s, ret) := r : merger * Z in
            if ret =? 1 then next s line else if ret =? -1 then Ok (s, false) else Ok (error s, false)
          end
        | _ => next s line
        end
      else if starts_with (text m t) (str "#pragma") then
        fs <- or_crash (Split false m t 3 pragma_sep) ;;
        next (match fs with [_; f1] => if bool_decide (text m f1 = str "once") then add_state CST_INCLUDE_ONCE filename s else error s | _ => error s end) line
      else if ends_backslash m line then
        r <- join_lines f (add_content (text m (TrimRightSpace m (TrimRight line 1)) ++ [32]) filename s) filename m source line ;;
        next (r : merger * ref).1 r.2
      else next (add_content (text m line) filename s) line
    end
  end
with search (fuel : nat) (s : merger) (into : name) (ret : Z) (ds : list (list Z)) (fn : list Z) : outcome (merger * Z) :=
  match fuel with
  | O => NoFuel
  | S f =>
    match ds with
    | [] => Ok (s, ret)
    | d :: ds =>
      if ret =? 0 then
        p <- or_crash (resolve (d ++ fn)) ;;
        r <- merge f s into p ;;
        search f (r : merger * Z).1 into r.2 ds fn
      else Ok (s, ret)
    end
  end
with merge (fuel : nat) (s : merger) (into import : name) : outcome (merger * Z) :=
  match fuel with
  | O => NoFuel
  | S f =>
    match _Compiled s !! import with
    | Some c =>
      if negb (Z.land (State c) CST_INCLUDE_ONCE =? 0) then Ok (s, 1)
      else if negb (Z.land (State c) CST_FINALIZED =? 0) then Ok (add_content (Content c) into s, 1)
      else Ok (error s, -1)
    | None =>
      match load import with
      | None => Ok (s, 0)
      | Some l =>
        r <- compile_file f s import l ;;
        let '(s, text) := r : merger * list Z in
        let import := trimmed text in
        Ok (match import with [] => set_pre (PrintWarning (pre s)) s | _ => add_content import into s end, 1)
      end
    end
  end.

(** [Compile]: the root file and the files it includes are merged, then the lines of the
    whole are taken; the text is what [GetCompiled] returns. *)
Definition Compile (eval : list Z -> option bool) (fuel : nat) (P : precompiler) (filename source_in : list Z) : outcome (precompiler * list Z) :=
  let P := mkPre (_MacroPrefix P) (_MacroSuffix P) (_MacroConnectOp P) (_pPredefined P) (_Macros P) 0 0 in
  root <- or_crash (resolve filename) ;;
  match (match source_in with [] => load root | _ => Some source_in end) with
  | None => Ok (PrintError P, [])
  | Some source =>
    r <- compile_file fuel (mkMerger P ∅) root source ;;
    let l := content_of root (r : merger * list Z).1 in
    or_fuel (_SubsituteFile eval fuel (pre r.1) (string_mem l) (string_ref l))
  end.
End Merging.
