(* ===== verification/IncludeSpec.v ===== *)
(** That the merging of included files ends, for any file system with finitely many
    files, and what it leaves as it was. *)
From stdpp Require Import gmap.
From S2P Require Import Prelude Str StrScan Macro MacroSpec Cond CondSpec CondText Paths Include.
Open Scope outcome_scope.

(** ** Computations that end *)

(** From some fuel on the result is the same, and it is a result - or there is a reason
    for undefined behaviour. *)
Definition settles (ub : Prop) {A} (F : nat -> outcome A) (Q : A -> Prop) : Prop :=
  exists k r, (forall fuel, (k <= fuel)%nat -> F fuel = r) /\ match r with NoFuel => False | Crash => ub | Ok a => Q a end.
Section Settles.
Context {ub : Prop}.
Lemma settles_ok {A} (a : A) (Q : A -> Prop) : Q a -> settles ub (fun _ => Ok a) Q.
Proof. intros H. by exists 0%nat, (Ok a). Qed.
Lemma settles_crash {A} (o : option A) (Q : A -> Prop) : (o = None -> ub) -> (forall a, o = Some a -> Q a) -> settles ub (fun _ => or_crash o) Q.
Proof. intros Hu H. exists 0%nat, (or_crash o). split; [done|]. destruct o; [by apply H|by apply Hu]. Qed.
Lemma settles_bind {A B} (F : nat -> outcome A) (G : A -> nat -> outcome B) Q R : settles ub F Q -> (forall a, Q a -> settles ub (G a) R) -> settles ub (fun fuel => obind (F fuel) (fun a => G a fuel)) R.
Proof.
  intros (k & r & Hk & Hr) HG. destruct r as [| |a]; [done| |].
  - exists k, Crash. split; [|done]. intros fuel Hf. by rewrite Hk.
  - destruct (HG a Hr) as (k' & r' & Hk' & Hr'). exists (max k k'), r'. split; [|done]. intros fuel Hf. rewrite Hk by lia. apply Hk'. lia.
Qed.
Lemma settles_step {A} (F G : nat -> outcome A) Q : (forall f, F (S f) = G f) -> settles ub G Q -> settles ub F Q.
Proof. intros E (k & r & Hk & Hr). exists (S k), r. split; [|done]. intros [|f] Hf; [lia|]. rewrite E. apply Hk. lia. Qed.
Lemma settles_impl {A} (F : nat -> outcome A) (Q R : A -> Prop) : settles ub F Q -> (forall a, Q a -> R a) -> settles ub F R.
Proof. intros (k & r & Hk & Hr) H. exists k, r. split; [done|]. destruct r; auto. Qed.
End Settles.

(** ** Substitution without macros *)

(** No macro is known yet, and tokens have no prefix. *)
Definition fresh (P : precompiler) : Prop := _MacroPrefix P = [] /\ _MacroSuffix P = [] /\ _Macros P = ∅ /\ _pPredefined P = None.
Lemma fresh_error P : fresh P -> fresh (PrintError P).
Proof. done. Qed.
Lemma fresh_warning P : fresh P -> fresh (PrintWarning P).
Proof. done. Qed.

Lemma scan_upto P m n : forall p, p <= scan P n m p <= p + Z.of_nat n.
Proof. induction n as [|n IH]; intros p; cbn [scan]; [lia|]. destruct (P _); [specialize (IH (p + 1))|]; lia. Qed.
Lemma token_inside P m p e t : fresh P -> p <= e -> Has CharacterSet_Symbol (sc m e) = false -> _GetFirstToken P m (mkRef p e) = Some (Some t) -> p <= rb t < re t /\ re t <= e.
Proof.
  intros (H1 & H2 & _) Hp He. unfold _GetFirstToken. cbn [first_token re rb]. rewrite H1, H2. cbn [bool_decide negb andb].
  set (s := scan _ _ m p). assert (Hs : p <= s <= e) by (unfold s; assert (B := scan_upto (fun c => negb (Has CharacterSet_Alphabet c)) m (Z.to_nat (e - p)) p); lia).
  destruct (Has CharacterSet_Alphabet (sc m s)) eqn:Ea; [|done]. assert (Hse : s <> e) by (intros E; rewrite E in Ea; by rewrite (not_initial _ He) in Ea).
  intros [= <-]. cbn [rb re]. assert (B := scan_upto (Has CharacterSet_Symbol) m (Z.to_nat (e - (s + 1))) (s + 1)). lia.
Qed.
Lemma tokens_fresh P m b e : fresh P -> Has CharacterSet_Symbol (sc m e) = false -> forall n p, p <= e -> e - p <= Z.of_nat n -> forall fuel out, (n < fuel)%nat ->
  tokens fuel P m (mkRef b e) p out = Some (P, out ++ text m (mkRef p e)).
Proof.
  intros HP He. induction n as [n IH] using lt_wf_ind. intros p Hp Hn [|f] out Hf; [lia|]. cbn [tokens re]. destruct (_GetFirstToken P m (mkRef p e)) as [[t|]|] eqn:Et; cbn [mbind option_bind].
  - destruct (token_inside P m p e t HP Hp He Et) as [Hb Ht]. destruct HP as (H1 & H2 & H3 & H4). rewrite H1, H2, H3, H4, lookup_empty. cbn [length mbind option_bind]. change (Z.of_nat 0) with 0.
    rewrite Z.sub_0_r, Z.add_0_r. unfold piece at 1. rewrite (proj2 (Z.ltb_ge (rb t) p)) by lia. cbn [mbind option_bind].
    assert (L : (Z.to_nat (e - re t) < n)%nat) by lia. rewrite (IH _ L (re t) ltac:(lia) ltac:(lia) f) by lia. rewrite <- !app_assoc. do 3 f_equal.
    unfold text, GetLength. destruct t as [tb te]. cbn [rb re] in *. replace (Z.to_nat (e - p)) with (Z.to_nat (tb - p) + (Z.to_nat (te - tb) + Z.to_nat (e - te)))%nat by lia.
    rewrite !mem_bytes_app. do 2 f_equal; f_equal; lia.
  - unfold piece. by rewrite (proj2 (Z.ltb_ge e p)) by lia.
  - exfalso. revert Et. unfold _GetFirstToken. destruct HP as (H1 & H2 & _). cbn [first_token re rb]. rewrite H1, H2. cbn [bool_decide negb andb].
    match goal with |- context [if ?c then Some _ else None] => destruct c end; intros X; discriminate X.
Qed.
(** Without macros a text is substituted by itself. *)
Lemma subst_fresh ub P m r : fresh P -> 0 < rb r <= re r -> Has CharacterSet_Symbol (sc m (re r)) = false ->
  settles ub (fun fuel => or_fuel (subst fuel P m r [])) (fun x => x = (P, text m r)).
Proof.
  intros HP Hr He. exists (S (S (str_len r))), (Ok (P, text m r)). split; [|done]. intros [|f] Hf; [lia|]. cbn [subst].
  destruct r as [b e]. cbn [rb re] in *. unfold IsEmpty. cbn [rb re]. rewrite (proj2 (Z.eqb_neq b 0)) by lia. cbn [orb].
  destruct (Z.eqb_spec e b) as [->|N]; [unfold text, GetLength; cbn [rb re]; by rewrite Z.sub_diag|].
  unfold str_len, GetLength in Hf. cbn [rb re] in Hf. by rewrite (tokens_fresh P m b e HP He (Z.to_nat (e - b)) b) by lia.
Qed.

(** ** Lines and fields *)

Lemma next_progress m src x l : rb src <= re src -> GetNextLine m src x false = Some l -> resume src x < resume src l /\ re l <= re src /\ rb src < re l.
Proof.
  intros Hr. assert (Hx : rb src <= resume src x) by (unfold resume; destruct (_ && _) eqn:E; [apply andb_true_iff in E; lia|lia]). unfold GetNextLine. set (p := resume src x) in *.
  set (c := (p <? re src) && crlf (sc m p)). set (q := if (p + 1 <? re src) && _ && _ then p + 1 + 1 else p + 1).
  assert (Hq : p + 1 <= q) by (unfold q; match goal with |- context [if ?b then _ else _] => destruct b end; lia).
  intros E. assert (H : p < re l /\ re l <= re src).
  { destruct c; [destruct (Z.leb_spec (re src) q)|destruct (Z.leb_spec (re src) p)]; try done; injection E as <-; cbn [re].
    - assert (B := scan_upto (fun c => negb (crlf c)) m (Z.to_nat (re src - q)) q). lia.
    - assert (B := scan_upto (fun c => negb (crlf c)) m (Z.to_nat (re src - (p + 1))) (p + 1)). lia. }
  unfold resume. rewrite (proj2 (Z.leb_le (rb src) (re l))), (proj2 (Z.leb_le (re l) (re src))) by lia. cbn [andb]. lia.
Qed.
Lemma resume_bounds src x : rb src <= re src -> rb src <= resume src x <= re src.
Proof. intros H. unfold resume. destruct (_ && _) eqn:E; [apply andb_true_iff in E; lia|lia]. Qed.

(** Enough fuel and room for a field: there are fields. *)
Lemma split_some q1 q2 seps m : forall fuel room start p tail q, p <= tail -> tail - p < Z.of_nat fuel -> room <> O -> is_Some (split_loop false q1 q2 seps m fuel room start p tail q).
Proof.
  induction fuel as [|f IH]; intros room start p tail q Hp Hf Hroom; [lia|]. cbn [split_loop]. set (v := split_unquote q1 q2 m (mkRef start p)). set (emit := match room with O => None | S O => Some [v] | _ => _ end).
  assert (He : is_Some emit).
  { unfold emit. destruct room as [|[|room]]; [done|by eexists|]. destruct (Z.eqb_spec p tail) as [->|N]; [by eexists|].
    destruct (IH (S room) (p + 1) (p + 1) tail 0 ltac:(lia) ltac:(lia) ltac:(done)) as [l El]. rewrite El. by eexists. }
  destruct (Z.ltb_spec p tail); [|done]. destruct (negb (q =? 0)); [apply IH; lia|]. destruct (_ || _); [apply IH; lia|]. destruct (negb _); [apply IH; lia|done].
Qed.
Lemma Split_some q1 q2 seps m r n : rb r <= re r -> n <> O -> is_Some (Split_ false q1 q2 seps m r n).
Proof. intros H Hn. unfold Split_, GetLength. destruct (IsEmpty r); [by eexists|]. by apply split_some; [|lia|]. Qed.

(** Behind a field that is not the last is a separator. *)
Lemma split_fields seps m : (forall c, Has seps c = true -> Has CharacterSet_Symbol c = false) -> forall fuel room start p tail q fs, start <= p <= tail -> split_loop false 0 0 seps m fuel room start p tail q = Some fs ->
  forall i r, fs !! i = Some r -> (S i < length fs)%nat -> start <= rb r <= re r /\ re r <= tail /\ Has CharacterSet_Symbol (sc m (re r)) = false.
Proof.
  intros Hseps. induction fuel as [|f IH]; intros room start p tail q fs Hp; [done|]. cbn [split_loop].
  set (v := split_unquote 0 0 m (mkRef start p)). set (emit := match room with O => None | S O => Some [v] | _ => _ end).
  assert (Hemit : emit = Some fs -> p = tail \/ Has seps (sc m p) = true -> forall i r, fs !! i = Some r -> (S i < length fs)%nat -> start <= rb r <= re r /\ re r <= tail /\ Has CharacterSet_Symbol (sc m (re r)) = false).
  { unfold emit. intros E Hsep i r Hi Hl. destruct room as [|[|room]]; [done|injection E as <-; cbn in Hl; lia|]. destruct (Z.eqb_spec p tail) as [->|Hpt]; [injection E as <-; cbn in Hl; lia|].
    destruct Hsep as [?|Hsep]; [done|]. destruct (split_loop false 0 0 seps m f (S room) (p + 1) (p + 1) tail 0) as [l|] eqn:El; [|done]. injection E as <-.
    assert (Hpt' : p < tail) by lia. destruct i as [|i].
    - injection Hi as <-. unfold v, split_unquote. destruct (_ && _ && _) eqn:Eu; [|cbn [rb re]; split; [lia|split; [lia|by apply Hseps]]].
      apply andb_true_iff in Eu as [Eu E0]. apply andb_true_iff in Eu as [El2 Es]. unfold GetLength in *. cbn [rb re] in *. unfold SubStr, GetLength. cbn [rb re]. rewrite (proj2 (Z.ltb_lt 1 _)) by lia. cbn [rb re].
      split; [lia|]. split; [lia|]. replace (start + 1 + Z.min (p - start - 2) (p - start - 1)) with (p - 1) by lia. apply Z.eqb_eq in Es. rewrite <- Es. rewrite orb_diag in E0. apply Z.eqb_eq in E0. by rewrite E0.
    - cbn [length] in Hl. destruct (IH (S room) (p + 1) (p + 1) tail 0 l ltac:(lia) El i r Hi ltac:(lia)) as (G1 & G2 & G3). split; [lia|done]. }
  destruct (Z.ltb_spec p tail) as [L|L].
  - destruct (negb (q =? 0)); [apply IH; lia|]. destruct (_ || _); [apply IH; lia|]. destruct (Has seps (sc m p)) eqn:Es; cbn [negb]; [|apply IH; lia]. intros E. apply Hemit; auto.
  - intros E. apply Hemit; [done|left; lia].
Qed.

Lemma text_string l : text (string_mem l) (string_ref l) = l.
Proof. unfold text, GetLength. cbn [rb re string_ref]. replace (Z.to_nat _) with (length l) by lia. apply holds_mem_of. Qed.

(** A part of a text. *)
Lemma text_part m src r : rb src <= rb r -> rb r <= re r -> re r <= re src -> exists a b, text m src = a ++ text m r ++ b.
Proof.
  intros H1 H2 H3. unfold text, GetLength. exists (mem_bytes m (rb src) (Z.to_nat (rb r - rb src))), (mem_bytes m (re r) (Z.to_nat (re src - re r))).
  replace (Z.to_nat (re src - rb src)) with (Z.to_nat (rb r - rb src) + (Z.to_nat (re r - rb r) + Z.to_nat (re src - re r)))%nat by lia.
  rewrite !mem_bytes_app. do 2 f_equal; [f_equal; lia|]. f_equal. lia.
Qed.

(** ** What is left as it was *)

(** Of the files compiled before, only [fn] may change; no macro is defined. *)
Definition extends (fn : name) (s s' : merger) : Prop :=
  fresh (pre s') /\ forall g c, _Compiled s !! g = Some c -> is_Some (_Compiled s' !! g) /\ (g <> fn -> _Compiled s' !! g = Some c).
Lemma extends_refl fn s : fresh (pre s) -> extends fn s s.
Proof. intros H. split; [done|]. intros g c E. by rewrite E. Qed.
Lemma extends_trans fn a b c : extends fn a b -> extends fn b c -> extends fn a c.
Proof.
  intros [_ H1] [F H2]. split; [done|]. intros g x E. destruct (H1 g x E) as [[y Ey] Hne]. destruct (H2 g y Ey) as [Hs Hne2]. split; [done|]. intros N. destruct (H2 g x (Hne N)) as [_ H3]. by apply H3.
Qed.
Lemma extends_on_code f fn s : fresh (pre s) -> extends fn s (on_code f fn s).
Proof.
  intros H. split; [done|]. intros g c E. cbn [on_code _Compiled]. split.
  - destruct (decide (g = fn)) as [->|N]; [rewrite lookup_alter_eq, E; by eexists|rewrite lookup_alter_ne by done; by rewrite E].
  - intros N. by rewrite lookup_alter_ne by done.
Qed.
Lemma extends_content l fn s : fresh (pre s) -> extends fn s (add_content l fn s).
Proof. apply extends_on_code. Qed.
Lemma extends_pre P fn s : fresh P -> extends fn s (set_pre P s).
Proof. intros H. split; [done|]. intros g c E. cbn. by rewrite E. Qed.
Lemma extends_fresh fn s s' : extends fn s s' -> fresh (pre s').
Proof. by intros [H _]. Qed.

Section Merged.
Context (malloc : Z -> option (list Z)) (cwd : list Z) (load : name -> option (list Z)) (dirs : list (list Z)) (files : gset name).
Hypothesis Hfiles : forall fn l, load fn = Some l -> fn ∈ files.
(** The text compiled first and its name; the texts and the names of files that there are. *)
Context (first_text : list Z) (first_name : name).
Definition source (t : list Z) : Prop := t = first_text \/ exists f, load f = Some t.
Definition file_name (g : name) : Prop := g = first_name \/ exists x, resolve cwd x = Some g.
(** Why there may be no result: comments that cannot be removed from a source, or a name
    written in a source that does not resolve in a directory that is looked in. *)
Definition undefined : Prop :=
  (exists t, source t /\ trim_comments malloc t = None) \/
  (exists t t' a x b d, source t /\ trim_comments malloc t = Some t' /\ t' = a ++ x ++ b /\
     (d ∈ dirs \/ exists g, file_name g /\ d = directory_of g) /\ resolve cwd (d ++ x) = None).
Definition written (x : list Z) : Prop := exists t t' a b, source t /\ trim_comments malloc t = Some t' /\ t' = a ++ x ++ b.
Lemma unresolved x d : written x -> (d ∈ dirs \/ exists g, file_name g /\ d = directory_of g) -> resolve cwd (d ++ x) = None -> undefined.
Proof. intros (t & t' & a & b & H1 & H2 & H3) Hd E. right. by exists t, t', a, x, b, d. Qed.
Abbreviation settles := (settles undefined).
Abbreviation compile_file := (compile_file malloc cwd load dirs).
Abbreviation compile_lines := (compile_lines malloc cwd load dirs).
Abbreviation search := (search malloc cwd load dirs).
Abbreviation merge := (merge malloc cwd load dirs).

(** The files that may still be compiled. *)
Definition left_over (s : merger) : nat := size (files ∖ dom (_Compiled s)).
Lemma left_extends fn s s' : extends fn s s' -> (left_over s' <= left_over s)%nat.
Proof.
  intros [_ H]. unfold left_over. apply subseteq_size. intros g. rewrite !elem_of_difference, !elem_of_dom. intros [Hg Hn]. split; [done|]. intros [c E]. apply Hn. by destruct (H g c E).
Qed.
Lemma left_insert fn c P s : fn ∈ files -> _Compiled s !! fn = None -> (left_over (mkMerger P (<[fn:=c]> (_Compiled s))) < left_over s)%nat.
Proof.
  intros Hf Hn. unfold left_over. apply subset_size. split.
  - intros g. cbn [_Compiled]. rewrite !elem_of_difference, !elem_of_dom. intros [Hg Hx]. split; [done|]. intros [y E]. apply Hx. destruct (decide (g = fn)) as [->|N]; [rewrite lookup_insert_eq; by eexists|rewrite lookup_insert_ne by done; by eexists].
  - intros X. specialize (X fn). cbn [_Compiled] in X. rewrite !elem_of_difference, !elem_of_dom in X. destruct X as [_ X]; [split; [done|]; rewrite Hn; by intros [? ?]|]. apply X. rewrite lookup_insert_eq. by eexists.
Qed.

(** A file that is new is compiled; all others stay as they were. *)
Definition file_done (fn : name) (s s' : merger) : Prop :=
  fresh (pre s') /\ is_Some (_Compiled s' !! fn) /\ forall g c, _Compiled s !! g = Some c -> _Compiled s' !! g = Some c.
Definition compiles (n : nat) : Prop := forall s fn l c, (left_over (mkMerger (pre s) (<[fn:=c]> (_Compiled s))) < n)%nat -> _Compiled s !! fn = None -> fresh (pre s) -> file_name fn -> source l ->
  settles (fun fuel => compile_file fuel s fn l) (fun r => file_done fn s r.1).

Lemma join_settles m src fn : rb src <= re src -> forall n s x, re src - resume src x <= Z.of_nat n -> fresh (pre s) ->
  settles (fun fuel => join_lines fuel s fn m src x) (fun r => extends fn s r.1 /\ resume src x <= resume src r.2).
Proof.
  intros Hr. induction n as [n IH] using lt_wf_ind. intros s x Hn Hs. destruct (GetNextLine m src x false) as [l|] eqn:E.
  - destruct (next_progress m src x l Hr E) as (Hp & _). assert (B := resume_bounds src l Hr). destruct (ends_backslash m l) eqn:Eb.
    + eapply settles_step; [intros f; cbn [join_lines]; rewrite E, Eb; reflexivity|]. set (s1 := add_content _ fn s).
      assert (L : (Z.to_nat (re src - resume src l) < n)%nat) by lia. eapply settles_impl; [apply (IH _ L s1 l); [lia|done]|]. intros [s' y] [He Hy]. cbn [fst snd] in *. split; [|lia].
      eapply extends_trans; [|exact He]. by apply extends_content.
    + eapply settles_step; [intros f; cbn [join_lines]; rewrite E, Eb; reflexivity|]. apply settles_ok. cbn [fst snd]. split; [by apply extends_content|lia].
  - eapply settles_step; [intros f; cbn [join_lines]; rewrite E; reflexivity|]. apply settles_ok. cbn [fst snd]. split; [by apply extends_refl|lia].
Qed.
Lemma merge_settles n s into import : compiles n -> (left_over s <= n)%nat -> fresh (pre s) -> file_name import -> settles (fun fuel => merge fuel s into import) (fun r => extends into s r.1).
Proof.
  intros IH Hn Hs Hnm. destruct (_Compiled s !! import) as [c|] eqn:E.
  - eapply settles_step; [intros f; cbn [Include.merge]; rewrite E; reflexivity|]. destruct (negb _); [apply settles_ok; by apply extends_refl|]. destruct (negb _); apply settles_ok; [by apply extends_content|by apply extends_pre].
  - destruct (load import) as [l|] eqn:El; [|eapply settles_step; [intros f; cbn [Include.merge]; rewrite E, El; reflexivity|apply settles_ok; by apply extends_refl]].
    eapply settles_step; [intros f; cbn [Include.merge]; rewrite E, El; reflexivity|]. eapply settles_bind.
    + apply (IH s import l (mkCode 0 [])); [|done|done|done|right; by exists import]. assert (L := left_insert import (mkCode 0 []) (pre s) s (Hfiles _ _ El) E). lia.
    + intros [s' t] (F & _ & H). cbn [fst] in *. assert (He : extends into s s') by (split; [done|]; intros g c Eg; rewrite (H g c Eg); by split; [eexists|]). apply settles_ok. cbn [fst].
      destruct (trimmed t); eapply extends_trans; [exact He|by apply extends_pre|exact He|by apply extends_content].
Qed.
Lemma search_settles n into fn ds : compiles n -> written fn -> (forall d, d ∈ ds -> d ∈ dirs) -> forall s ret, (left_over s <= n)%nat -> fresh (pre s) -> settles (fun fuel => search fuel s into ret ds fn) (fun r => extends into s r.1).
Proof.
  intros IH Hw. induction ds as [|d ds IHd]; intros Hds s ret Hn Hs.
  - eapply settles_step; [intros f; reflexivity|]. apply settles_ok. by apply extends_refl.
  - eapply settles_step; [intros f; cbn [Include.search]; reflexivity|]. destruct (ret =? 0); [|apply settles_ok; by apply extends_refl].
    eapply (settles_bind (fun _ => or_crash (resolve cwd (d ++ fn)))); [apply (settles_crash _ (fun p => resolve cwd (d ++ fn) = Some p)); [|done]; apply unresolved; [done|left; apply Hds; by left]|]. intros p Ep. eapply settles_bind; [apply (merge_settles n s into p); try done; right; by exists (d ++ fn)|]. intros [s1 ret1] H1. cbn [fst snd] in *.
    eapply settles_impl; [apply IHd; [intros; apply Hds; by right|assert (L := left_extends _ _ _ H1); lia|by eapply extends_fresh]|]. intros r Hr. by eapply extends_trans.
Qed.

Lemma include_seps c : Has include_sep c = true -> Has CharacterSet_Symbol c = false.
Proof.
  intros H. apply not_true_iff_false. intros X. assert (Hp : Forall (fun c => 1 <= c) (str "<>" ++ [c_quot])) by (repeat constructor; vm_compute; discriminate).
  unfold include_sep in H. rewrite (Has_CharacterSet _ c Hp) in H. destruct alphabet_pos as [_ A2]. unfold CharacterSet_Symbol in X. rewrite (Has_CharacterSet _ c A2) in X.
  assert (F : forallb (fun c => negb (existsb (Z.eqb c) (str "0123456789" ++ alphabet ++ str "_"))) (str "<>" ++ [c_quot]) = true) by (vm_compute; reflexivity).
  rewrite forallb_forall in F. specialize (F c H). apply negb_true_iff in F. apply not_true_iff_false in F. apply F, existsb_exists. exists c. split; [done|apply Z.eqb_refl].
Qed.
Lemma middle_field m t f0 f1 f2 : Split_ false 0 0 include_sep m t 3 = Some [f0; f1; f2] -> rb t <= re t -> rb t <= rb f1 <= re f1 /\ re f1 <= re t /\ Has CharacterSet_Symbol (sc m (re f1)) = false.
Proof.
  intros E Ht. unfold Split_ in E. destruct (IsEmpty t); [done|]. apply (split_fields include_sep m include_seps _ _ _ _ _ _ _ (conj (Z.le_refl _) Ht) E 1%nat f1); [done|cbn; lia].
Qed.
Lemma trim_right_le m p n : (trim_right_loop n m p <= n)%nat.
Proof. induction n as [|n IH]; [done|]. cbn [trim_right_loop]. destruct n; [done|]. destruct (blank _); lia. Qed.
Lemma trim_ordered m r : rb r <= re r -> rb r <= rb (TrimSpace m r) <= re (TrimSpace m r) /\ re (TrimSpace m r) <= re r.
Proof.
  intros H. unfold TrimSpace. destruct (IsEmpty r) eqn:E; [lia|]. unfold TrimLeftSpace. rewrite E. assert (B := scan_upto blank m (str_len r) (rb r)). unfold str_len, GetLength in B.
  set (p := scan _ _ m (rb r)) in *. unfold TrimRightSpace. destruct (IsEmpty (mkRef _ _)); cbn [rb re]; [unfold str_len, GetLength in *; lia|].
  assert (T := trim_right_le m p (str_len (mkRef p (re r)))). unfold str_len, GetLength in *. cbn [rb re] in *. lia.
Qed.
Lemma line_ordered m src x l : rb src <= re src -> GetNextLine m src x false = Some l -> rb src <= rb l <= re l.
Proof.
  intros Hr. assert (Hx := resume_bounds src x Hr). unfold GetNextLine. set (p := resume src x) in *. set (c := (p <? re src) && crlf (sc m p)). set (q := if (p + 1 <? re src) && _ && _ then p + 1 + 1 else p + 1).
  assert (Hq : p + 1 <= q) by (unfold q; match goal with |- context [if ?b then _ else _] => destruct b end; lia).
  intros E. destruct c; [destruct (Z.leb_spec (re src) q)|destruct (Z.leb_spec (re src) p)]; try done; injection E as <-; cbn [rb re].
  - assert (B := scan_upto (fun c => negb (crlf c)) m (Z.to_nat (re src - q)) q). lia.
  - assert (B := scan_upto (fun c => negb (crlf c)) m (Z.to_nat (re src - (p + 1))) (p + 1)). lia.
Qed.

Lemma lines_settle n fn m src : compiles n -> 0 < rb src <= re src -> written (text m src) -> file_name fn -> forall k s x, re src - resume src x <= Z.of_nat k -> (left_over s <= n)%nat -> fresh (pre s) ->
  settles (fun fuel => compile_lines fuel s fn m src x) (fun r => extends fn s r.1).
Proof.
  intros IHf [Hr0 Hr] Hw Hfn. induction k as [k IH] using lt_wf_ind. intros s x Hk Hn Hs. destruct (GetNextLine m src x false) as [l|] eqn:E.
  2:{ eapply settles_step; [intros f; cbn [Include.compile_lines]; rewrite E; reflexivity|]. apply settles_ok. by apply extends_refl. }
  destruct (next_progress m src x l Hr E) as (Hp & _). assert (B := resume_bounds src l Hr).
  assert (Hnext : forall s1 y, extends fn s s1 -> resume src l <= resume src y -> settles (fun fuel => compile_lines fuel (add_content [10] fn s1) fn m src y) (fun r => extends fn s r.1)).
  { intros s1 y He Hy. assert (By := resume_bounds src y Hr). assert (L : (Z.to_nat (re src - resume src y) < k)%nat) by lia. assert (He2 : extends fn s (add_content [10] fn s1)) by (eapply extends_trans; [exact He|apply extends_content; by eapply extends_fresh]).
    eapply settles_impl; [apply (IH _ L (add_content [10] fn s1) y); [lia|assert (X := left_extends _ _ _ He2); lia|by eapply extends_fresh]|]. intros r. by apply extends_trans. }
  assert (Hl := line_ordered m src x l Hr E). destruct (next_progress m src x l Hr E) as (_ & Hle & _). set (t := TrimSpace m l).
  assert (Ht : rb l <= rb t <= re t /\ re t <= re l) by (apply trim_ordered; lia). destruct (starts_with (text m t) (str "#include") || starts_with (text m t) (str "#import")) eqn:Ei.
  - eapply settles_step; [intros f; cbn [Include.compile_lines]; rewrite E; fold t; rewrite Ei; reflexivity|]. eapply (settles_bind (fun _ => or_crash _)); [apply (settles_crash _ (fun fs => Split_ false 0 0 include_sep m t 3 = Some fs)); [|done]; intros EN; exfalso; destruct (Split_some 0 0 include_sep m t 3) as [? ?]; [lia|done|congruence]|].
    intros fs Efs. assert (Hother := Hnext s l (extends_refl fn s Hs) (Z.le_refl _)). destruct fs as [|f0 [|f1 [|f2 [|]]]]; try exact Hother.
    destruct (middle_field m t f0 f1 f2 Efs ltac:(lia)) as (F1 & F3 & F2). eapply settles_bind; [apply subst_fresh; [done|lia|done]|]. intros [P name] [= -> ->].
    assert (Hwn : written (text m f1)).
    { destruct Hw as (t0 & t1 & a & b & G1 & G2 & G3). destruct (text_part m src f1 ltac:(lia) ltac:(lia) ltac:(lia)) as (a' & b' & G4).
      exists t0, t1, (a ++ a'), (b' ++ b). split; [done|]. split; [done|]. rewrite G3, G4. by rewrite <- !app_assoc. }
    set (name := text m f1) in *. assert (H1 := extends_pre (pre s) fn s Hs). destruct (lib_mode dirs m f1) as [lib|]; [|apply settles_ok; eapply extends_trans; [exact H1|by apply extends_pre]].
    eapply (settles_bind (fun fuel => if lib then Ok (set_pre (pre s) s, 0) else _) _ (fun r => extends fn s r.1)).
    + destruct lib; [by apply settles_ok|]. eapply (settles_bind (fun _ => or_crash _)); [apply (settles_crash _ (fun p => resolve cwd (directory_of fn ++ name) = Some p)); [|done]; apply unresolved; [done|right; by exists fn]|]. intros p Ep.
      eapply settles_impl; [apply (merge_settles n (set_pre (pre s) s) fn p IHf); [assert (X := left_extends _ _ _ H1); lia|done|right; by exists (directory_of fn ++ name)]|]. intros r. by apply extends_trans.
    + intros [s2 ret2] H2. cbn [fst snd] in *. assert (X := left_extends _ _ _ H2). eapply settles_bind; [apply (search_settles n fn name dirs IHf Hwn (fun d Hd => Hd) s2 ret2); [lia|by eapply extends_fresh]|].
      intros [s3 ret3] H3. cbn [fst snd] in *. assert (H4 := extends_trans _ _ _ _ H2 H3). destruct (ret3 =? 1); [apply Hnext; [done|lia]|]. destruct (ret3 =? -1); apply settles_ok; [done|].
      eapply extends_trans; [exact H4|]. apply extends_pre. by eapply extends_fresh.
  - destruct (starts_with (text m t) (str "#pragma")) eqn:Ep.
    + eapply settles_step; [intros f; cbn [Include.compile_lines]; rewrite E; fold t; rewrite Ei, Ep; reflexivity|]. eapply (settles_bind (fun _ => or_crash _)); [apply (settles_crash _ (fun _ => True)); [|done]; intros EN; exfalso; destruct (Split_some c_quot c_apos pragma_sep m t 3) as [? X]; [lia|done|unfold Split in EN; congruence]|].
      intros fs _. apply Hnext; [|lia]. destruct fs as [|f0 [|f1 [|]]]; try (by apply extends_pre). destruct (bool_decide _); [by apply extends_on_code|by apply extends_pre].
    + destruct (ends_backslash m l) eqn:Eb.
      * eapply settles_step; [intros f; cbn [Include.compile_lines]; rewrite E; fold t; rewrite Ei, Ep, Eb; reflexivity|]. set (s1 := add_content _ fn s). assert (H1 : extends fn s s1) by by apply extends_content.
        eapply settles_bind; [by apply (join_settles m src fn Hr (Z.to_nat (re src - resume src l)) s1 l); [lia|]|]. intros [s2 y] [H2 Hy]. cbn [fst snd] in *. apply Hnext; [by eapply extends_trans|done].
      * eapply settles_step; [intros f; cbn [Include.compile_lines]; rewrite E; fold t; rewrite Ei, Ep, Eb; reflexivity|]. apply Hnext; [by apply extends_content|lia].
Qed.
Lemma compiles_all n : compiles n.
Proof.
  induction n as [|n IH]; intros s fn l c Hlt Hnew Hs Hfn Hl0; [lia|]. set (s0 := mkMerger (pre s) (<[fn := mkCode 0 []]> (_Compiled s))).
  assert (Hdone : forall s', extends fn s0 s' -> file_done fn s s').
  { intros s' [F H]. split; [done|]. split.
    - apply (H fn (mkCode 0 [])). apply lookup_insert_eq.
    - intros g x Eg. assert (N : g <> fn) by (intros ->; congruence). apply (H g x); [|done]. cbn [s0 _Compiled]. by rewrite lookup_insert_ne by done. }
  assert (Hl : (left_over s0 <= n)%nat).
  { assert (E : left_over s0 = left_over (mkMerger (pre s) (<[fn:=c]> (_Compiled s)))); [|lia]. unfold left_over. cbn [_Compiled s0]. by rewrite !dom_insert_L. }
  eapply settles_step; [intros f; cbn [Include.compile_file]; reflexivity|]. eapply (settles_bind (fun _ => or_crash _)); [apply (settles_crash _ (fun t => trim_comments malloc l = Some t)); [intros EN; left; by exists l|done]|]. intros src Esrc.
  eapply settles_bind; [apply (lines_settle n fn (string_mem src) (string_ref src) IH) with (k := length src) (s := s0) (x := null_ref)|].
  - cbn. lia.
  - exists l, src, [], []. split; [done|]. split; [done|]. rewrite app_nil_r. symmetry. apply text_string.
  - done.
  - cbn. lia.
  - exact Hl.
  - exact Hs.
  - intros [s' ok] H. cbn [fst] in H. destruct ok; apply settles_ok; [|by apply Hdone]. apply Hdone. cbn [fst]. eapply extends_trans; [exact H|]. apply extends_on_code. by eapply extends_fresh.
Qed.
End Merged.

(** C16: the merging of included files ends, whatever files include each other: for a file
    system with finitely many files and a precompiler that has no macro yet, predefined
    or defined, and no prefix or suffix (so that no macro is substituted in the lines
    that include), [_Compile] of a file that is new comes to an end with enough fuel.
    It has a result unless the comments of a source cannot be removed within its block
    or a name written in a source, behind a directory that is looked in, is a path whose
    resolving leaves its array ([undefined]).  In the result every file that was compiled
    or is being compiled before has its state and its content - none is compiled twice,
    and none is changed while another one includes it - and no macro is defined. *)
Theorem merging_ends (malloc : Z -> option (list Z)) (cwd : list Z) (load : name -> option (list Z)) (dirs : list (list Z)) (files : gset name) (s : merger) (fn l : list Z) : (forall f t, load f = Some t -> f ∈ files) -> fresh (pre s) -> _Compiled s !! fn = None ->
  exists k r, (forall fuel, (k <= fuel)%nat -> compile_file malloc cwd load dirs fuel s fn l = r) /\
    match r with
    | NoFuel => False
    | Crash => undefined malloc cwd load dirs l fn
    | Ok (s', _) => fresh (pre s') /\ is_Some (_Compiled s' !! fn) /\ forall g c, _Compiled s !! g = Some c -> _Compiled s' !! g = Some c
    end.
Proof.
  intros Hf Hs Hn. destruct (compiles_all malloc cwd load dirs files Hf l fn (S (left_over files (mkMerger (pre s) (<[fn := mkCode 0 []]> (_Compiled s))))) s fn l (mkCode 0 [])) as (k & r & Hk & Hr); [lia|done|done|by left|by left|].
  exists k, r. split; [done|]. by destruct r as [| |[]].
Qed.

(** ** Examples *)

Definition ex_malloc (n : Z) : option (list Z) := Some (repeat 0 (Z.to_nat n)).
Definition quoted (l : list Z) : list Z := c_quot :: l ++ [c_quot].
Definition ex_files : gmap name (list Z) := list_to_map
  [(str "/p/main.c", str "#include " ++ quoted (str "a.h") ++ [10] ++ str "x" ++ [10] ++ str "#include " ++ quoted (str "./a.h") ++ [10] ++ str "y \" ++ [10] ++ str "  z" ++ [10]);
   (str "/p/a.h", str "#include " ++ quoted (str "sub/b.h") ++ [10] ++ str "a // comment" ++ [10]);
   (str "/p/sub/b.h", str "#pragma once" ++ [10] ++ str "b" ++ [10] ++ str "#include " ++ quoted (str "b.h") ++ [10]);
   (str "/p/loop.h", str "#include " ++ quoted (str "loop.h") ++ [10] ++ str "l" ++ [10])].
Definition ex_load (fn : name) : option (list Z) := ex_files !! fn.
Definition ex_new : merger := mkMerger (mkPre [] [] [] None ∅ 0 0) ∅.
Definition ex_compile (source : list Z) : outcome (Z * Z * list Z) :=
  r <- compile_file ex_malloc (str "/p") ex_load [] 60 ex_new (str "/p/t.c") source ;; Ok (_ErrorCount (pre (r : merger * list Z).1), _WarningCount (pre r.1), r.2).
Lemma merging_ends_witness : exists k r, (forall fuel, (k <= fuel)%nat -> compile_file ex_malloc (str "/p") ex_load [] fuel ex_new (str "/p/main.c") (str "#include <a.h>") = r) /\
  match r with NoFuel => False | Crash => undefined ex_malloc (str "/p") ex_load [] (str "#include <a.h>") (str "/p/main.c") | Ok (s', _) => fresh (pre s') /\ is_Some (_Compiled s' !! str "/p/main.c") /\ forall g c, _Compiled ex_new !! g = Some c -> _Compiled s' !! g = Some c end.
Proof.
  apply (merging_ends ex_malloc (str "/p") ex_load [] (dom ex_files)); [|done|done]. intros f t E. apply elem_of_dom. by exists t.
Defined.
Definition ex_source (fn : list Z) : list Z := default [] (ex_load fn).
(** Lines are connected, comments and files that are included once left out; the text of a
    file is trimmed the first time it is included only. *)
Example merged : ex_compile (ex_source (str "/p/main.c")) = Ok (0, 0, lines_text [10] [str "b"; str "a"; str "x"; str "b"; str "a "; []; str "y z"]).
Proof. vm_compute. reflexivity. Qed.
(** A loop is an error within, and a warning for the one who includes it; included again,
    the same file is taken for a loop. *)
Example looped : ex_compile (str "#include " ++ quoted (str "loop.h") ++ [10] ++ str "x") = Ok (1, 1, lines_text [10] [[]; str "x"]) /\
  ex_compile (str "#include " ++ quoted (str "loop.h") ++ [10] ++ str "#include " ++ quoted (str "loop.h") ++ [10] ++ str "x") = Ok (2, 1, []).
Proof. vm_compute. auto. Qed.
(** A file within a branch that is skipped is included before; a directive that is not closed
    is dropped; an absolute name is looked for behind the directory of the file. *)
Example included_in_skipped : ex_compile (str "#if 0" ++ [10] ++ str "#include " ++ quoted (str "none.h") ++ [10] ++ str "#endif") = Ok (1, 0, []).
Proof. vm_compute. reflexivity. Qed.
Example unclosed_dropped : ex_compile (str "#include <none.h" ++ [10] ++ str "x") = Ok (0, 0, lines_text [10] [[]; str "x"]).
Proof. vm_compute. reflexivity. Qed.
Example absolute_name : ex_compile (str "#include " ++ quoted (str "/p/a.h") ++ [10] ++ str "x") = Ok (1, 0, []).
Proof. vm_compute. reflexivity. Qed.
Example whole : Compile ex_malloc (str "/p") ex_load [] (fun _ => None) 60 (mkPre [] [] [] None ∅ 0 0) (str "main.c") (str "#define K 3" ++ [10] ++ str "#include " ++ quoted (str "a.h") ++ [10] ++ str "x K") =
  Ok (mkPre [] [] [] None {[str "K" := mkMacro (-1) (str "3")]} 0 0, lines_text [13; 10] [str "b"; str "a"; str "x 3"]).
Proof. vm_compute. reflexivity. Qed.
Example search_directories : SetIncludeSearchDirectories (str "/p") (str "inc; ./inc/ ;/usr\include") = Some [str "/p/inc/"; str "/usr/include/"].
Proof. vm_compute. reflexivity. Qed.
