(* ===== verification/HttpHead.v ===== *)
(** [HttpSession::ResponseHeader] (inet/http_client.cpp): the parser of the header of
    an HTTP response.  The header's own copy of the text is a memory that holds it at
    address 1 with a zero behind it; the fields and the parts of their values refer to it. *)
From S2P Require Import Prelude Str StrScan StrEdit StrBuf Macro.

(** ** [sscanf] *)

Definition isspace (c : Z) : bool := (c =? 32) || (9 <=? c) && (c <=? 13).
Definition isdigit (c : Z) : bool := (chr "0" <=? c) && (c <=? chr "9").
Definition isalpha (c : Z) : bool := (chr "a" <=? c) && (c <=? chr "z") || (chr "A" <=? c) && (c <=? chr "Z").

Fixpoint skip_while (P : Z -> bool) (l : list Z) : list Z :=
  match l with c :: t => if P c then skip_while P t else l | [] => [] end.
Fixpoint take_while (P : Z -> bool) (l : list Z) : list Z :=
  match l with c :: t => if P c then c :: take_while P t else [] | [] => [] end.
(** [strtol] to an [int]: the value is held to 64 bits, then cut to 32. *)
Definition to_int (neg : bool) (v : Z) : Z :=
  s32 (if neg then - Z.min v (2 ^ 63) else Z.min v (2 ^ 63 - 1)).
(** [%d]: the number, and what follows it. *)
Definition scan_d (l : list Z) : option (Z * list Z) :=
  let l := skip_while isspace l in
  let '(neg, l) := match l with c :: t => if c =? chr "-" then (true, t) else if c =? chr "+" then (false, t) else (false, l) | [] => (false, l) end in
  match take_while isdigit l with
  | [] => None
  | ds => Some (to_int neg (dec_val ds), skipn (length ds) l)
  end.
Definition scan_lit (lit l : list Z) : option (list Z) :=
  if is_prefix lit l then Some (skipn (length lit) l) else None.
(** [sscanf(l, "HTTP/%d.%d %d", ..)]: what was stored. *)
Definition scan_status (l : list Z) : option Z * option Z * option Z :=
  match (l ← scan_lit (str "HTTP/") l; scan_d l) with
  | None => (None, None, None)
  | Some (a, l) =>
    match (l ← scan_lit (str ".") l; scan_d l) with
    | None => (Some a, None, None)
    | Some (b, l) => match scan_d (skip_while isspace l) with None => (Some a, Some b, None) | Some (c, _) => (Some a, Some b, Some c) end
    end
  end.

(** ** The header *)

Record header := mkHeader {
  m_StateCode : Z; m_VersionMajor : Z; m_VersionMinor : Z; m_ConnectPersisent : bool; m_ContentLength : Z; m_ChunkedTransfer : bool;
  m_ContentCharset : ref; m_ContentType : ref; m_ContentSubtype : ref * ref; m_Redirected : ref; m_SuggestedFilename : ref;
  m_RawHeader : mem; raw_length : Z; m_ContentPartial_Start : Z; m_ContentPartial_Total : Z; m_fields : list (ref * ref) }.
Definition c_unknown : Z := 0xffffffff.
Definition IsParsedOk (h : header) : bool := negb (m_StateCode h =? c_unknown).
Definition IsContentLengthKnown (h : header) : bool := negb (m_ContentLength h =? c_unknown).
Definition IsPartialContent (h : header) : bool := negb (m_ContentPartial_Start h =? c_unknown).
Definition GetStartPosition (h : header) : Z := if negb (m_ContentPartial_Start h =? c_unknown) then m_ContentPartial_Start h else 0.
(** [rt::Zero(m_ResponseHeader)] *)
Definition zero_header : header :=
  mkHeader 0 0 0 false 0 false null_ref null_ref (null_ref, null_ref) null_ref null_ref (fun _ => 0) 0 0 0 [].

(** The loop of [GetHeaderField]. *)
Definition find_field (m : mem) (fields : list (ref * ref)) (name : list Z) : option ref :=
  snd <$> find (fun f => zlist_eqb (text m (fst f)) name) fields.
Definition lower (c : Z) : Z := if (chr "A" <=? c) && (c <=? chr "Z") then c + 32 else c.
Definition GetHeaderField (h : header) (headerField : list Z) : option ref :=
  if IsParsedOk h then find_field (m_RawHeader h) (m_fields h) (map lower headerField) else None.

(** The fields with a value of some length. *)
Definition value_of (m : mem) (fields : list (ref * ref)) (name : list Z) : option ref :=
  v ← find_field m fields name; if 0 <? GetLength v then Some v else None.

(** [while(!P( *p))p++] from inside the text; its zero is the last byte there is to read. *)
Fixpoint seek (P : Z -> bool) (n : nat) (m : mem) (p : Z) : option Z :=
  match n with
  | O => None
  | S n => if P (sc m p) then Some p else seek P n m (p + 1)
  end.
(** The text from [p] to the zero at [e]. *)
Definition tail_text (m : mem) (p e : Z) : list Z := mem_bytes m p (Z.to_nat (e - p)).

(** The lines behind the first: each with a colon is a field, its name in lower case. *)
Fixpoint fields_loop (fuel : nat) (m : mem) (r line : ref) (fields : list (ref * ref)) : option (mem * list (ref * ref)) :=
  match fuel with
  | O => None
  | S fuel =>
    match GetNextLine m r line true with
    | None => Some (m, fields)
    | Some line =>
      let colon_pos := FindCharacter m line (chr ":") 0 in
      if colon_pos =? -1 then fields_loop fuel m r line fields
      else
        let name := SubStrHead line colon_pos in
        let m := MakeLower m name in
        let value := TrimLeftSpace m (SubStrTail line (GetLength line - colon_pos - 1)) in
        fields_loop fuel m r line (fields ++ [(name, value)])
    end
  end.

Section Values.
(** The text ends at [e]. *)
Context (e : Z) (fields : list (ref * ref)).

Definition connect_persistent (m : mem) : bool :=
  match value_of m fields (str "connection") with
  | Some v => negb (sc m (rb v) =? chr "C") && negb (sc m (rb v) =? chr "c")
  | None => false
  end.

Definition content_length (m : mem) (dflt : Z) : option Z :=
  match value_of m fields (str "content-length") with
  | Some v =>
    p ← seek isdigit (Z.to_nat (e + 1 - rb v)) m (rb v);
    Some (u32 (to_int false (dec_val (take_while isdigit (map s8 (firstn 19 (tail_text m p e)))))))
  | None => Some dflt
  end.

Definition chunked_transfer (m : mem) : option bool :=
  match value_of m fields (str "transfer-encoding") with
  | Some v => p ← seek isalpha (Z.to_nat (e + 1 - rb v)) m (rb v); Some ((sc m p =? chr "c") || (sc m p =? chr "C"))
  | None => Some false
  end.

Definition field_at (l : list ref) (i : nat) : ref := nth i l null_ref.
Definition content_range (m : mem) (start total : Z) : option (Z * Z) :=
  match find_field m fields (str "content-range") with
  | Some v =>
    if is_prefix (str "bytes ") (text m v) then
      range ← TrimAfter m (mkRef (rb v + 6) e) (CharacterSet [13]);
      partial ← Split false m range 2 (CharacterSet (str "/"));
      start_end ← Split false m (field_at partial 0) 2 (CharacterSet (str "-"));
      let start := if (0 <? length partial)%nat && (0 <? length start_end)%nat && negb (IsEmpty (field_at start_end 0))
                   then snd (ToNumber T_UINT m (field_at start_end 0)) else start in
      Some (start, if IsEmpty (field_at partial 1) then total else snd (ToNumber T_UINT m (field_at partial 1)))
    else Some (start, total)
  | None => Some (start, total)
  end.

Definition suggested_filename (m : mem) (code : Z) : ref :=
  if code / 100 =? 2 then
    match value_of m fields (str "content-disposition") with
    | Some v =>
      match strstr (tail_text m (rb v) e) [13; 10] with
      | Some n =>
        let end_ := rb v + Z.of_nat n in
        match strstr (tail_text m (rb v) end_) (str "filename=") with
        | Some fn_start =>
          let p := rb v + Z.of_nat fn_start + 9 in
          let fn_end := FindCharacter m (mkRef p end_) (chr ";") 0 in
          if (0 <? Z.of_nat fn_start) && (0 <? fn_end) then mkRef p (p + fn_end) else null_ref
        | None => null_ref
        end
      | None => null_ref
      end
    | None => null_ref
    end
  else null_ref.

(** The loop over the parameters of the content type. *)
Fixpoint charset_loop (m : mem) (f : list ref) : mem * ref :=
  match f with
  | [] => (m, null_ref)
  | x :: f =>
    if is_prefix (str "charset=") (text m (TrimSpace m x))
    then let c := SubStr_from x 9 in (MakeLower m c, c)
    else charset_loop m f
  end.
Definition content_type (m : mem) : option (mem * ref * ref * (ref * ref)) :=
  match value_of m fields (str "content-type") with
  | Some v =>
    f ← Split false m v 4 (CharacterSet (str ";"));
    let ty := field_at f 0 in
    sub ← Split false m ty 2 (CharacterSet (str "/"));
    let '(m, charset) := charset_loop m (tl f) in
    Some (m, charset, ty, (field_at sub 0, field_at sub 1))
  | None => Some (m, null_ref, null_ref, (null_ref, null_ref))
  end.

Definition redirected (m : mem) (code : Z) : ref :=
  if code / 100 =? 3 then
    match value_of m fields (str "location") with
    | Some v =>
      let p := scan (fun c => c =? 32) (Z.to_nat (e - rb v)) m (rb v) in
      mkRef p (scan (fun c => 32 <? c) (Z.to_nat (e - p)) m p)
    | None => null_ref
    end
  else null_ref.
End Values.

(** [ParseHeader] of a text without zeros, into a header that has the fields of [h].
    The first assignment goes through two [bool]s on its way to the length. *)
Definition ParseHeader (h : header) (header_text : list Z) : option header :=
  let m := string_mem header_text in
  let raw := string_ref header_text in
  let e := re raw in
  line ← GetNextLine m raw null_ref true;
  let dflt : Z := c_unknown in
  let dflt_b : bool := negb (dflt =? 0) in
  let one : Z := if dflt_b then 1 else 0 in
  let '(major, minor, code) := scan_status (tail_text m (rb line) e) in
  let or1 (x : option Z) := match x with Some x => u32 x | None => one end in
  match code with
  | None =>
    Some (mkHeader c_unknown (or1 major) (or1 minor) dflt_b one dflt_b (m_ContentCharset h) (m_ContentType h) (m_ContentSubtype h)
            (m_Redirected h) (m_SuggestedFilename h) m (zlen header_text) dflt dflt (m_fields h))
  | Some code =>
    let code := u32 code in
    '(m, fields) ← fields_loop (S (length header_text)) m raw line (m_fields h);
    let fs := if code =? c_unknown then [] else fields in
    let persistent := connect_persistent fs m in
    cl ← content_length e fs m one;
    chunked ← chunked_transfer e fs m;
    '(start, total) ← content_range e fs m dflt dflt;
    let file := suggested_filename e fs m code in
    '(m, charset, ty, sub) ← content_type fs m;
    Some (mkHeader code (or1 major) (or1 minor) persistent cl chunked charset ty sub (redirected e fs m code) file m (zlen header_text) start total fields)
  end.

Definition sample : list Z :=
  str "HTTP/1.1 200 OK" ++ [13; 10] ++ str "Connection: close" ++ [13; 10] ++ str "Content-Type: text/plain; charset=UTF-8" ++ [13; 10]
  ++ str "Content-Length: 120" ++ [13; 10] ++ str "content-range: bytes 7-9/1234" ++ [13; 10] ++ str "Content-Disposition: attachment; filename=a.txt; x" ++ [13; 10].
Example sample_parsed : (fun h => (m_StateCode h, m_VersionMajor h, m_ContentLength h, text (m_RawHeader h) (m_ContentCharset h), m_ContentPartial_Start h, m_ContentPartial_Total h, text (m_RawHeader h) (m_SuggestedFilename h))) <$> ParseHeader zero_header sample
   = Some (200, 1, 120, str "utf-8", 7, 1234, str "a.txt").
Proof. vm_compute. reflexivity. Qed.
