(* ===== verification/HttpHeadSpec.v ===== *)
(** The header of a response read back: what [ParseHeader] finds in a text of a status
    line and fields. *)
From S2P Require Import Prelude Str StrScan StrEdit StrBuf Macro MacroSpec Cond CondSpec CondText HttpHead.

Abbreviation zlen l := (Z.of_nat (length l)).

(** ** Headers *)

Abbreviation field := (list Z * list Z)%type.
Definition crlf_ : list Z := [13; 10].
Definition field_text (f : field) : list Z := fst f ++ str ": " ++ snd f.
Definition name_char (c : Z) : Prop := 33 <= c < 127 /\ c <> 58.
Definition value_char (c : Z) : Prop := 32 <= c < 127 \/ 128 <= c < 256.
Definition field_ok (f : field) : Prop :=
  Forall name_char (fst f) /\ Forall value_char (snd f) /\ forall c v, snd f = c :: v -> c <> 32.
Definition head_text (status : list Z) (fs : list field) : list Z := lines_text crlf_ (status :: map field_text fs).
Definition lowered (f : field) : field := (map lower (fst f), snd f).
(** Where the fields are in a text behind the line break at [p]. *)
Fixpoint field_refs (p : Z) (fs : list field) : list (ref * ref) :=
  match fs with
  | [] => []
  | f :: fs =>
    let n := p + 2 + zlen (fst f) in
    (mkRef (p + 2) n, mkRef (n + 2) (n + 2 + zlen (snd f))) :: field_refs (n + 2 + zlen (snd f)) fs
  end.
(** The first field of a name. *)
Definition field_value (fs : list field) (name : list Z) : option (list Z) :=
  snd <$> find (fun f => zlist_eqb (map lower (fst f)) name) fs.

Lemma value_char_s8 c : value_char c -> s8 c <> 13 /\ s8 c <> 10 /\ s8 c <> 0 /\ (s8 c = 32 <-> c = 32) /\ blank (s8 c) = (c =? 32).
Proof.
  intros H. unfold value_char in H. destruct (decide (c < 128)).
  - assert (E : s8 c = c) by (unwrap; rewrite Z.mod_small; lia). rewrite E. unfold blank. repeat split; try lia.
  - assert (E : s8 c = c - 256) by (unwrap; rewrite <- (Z.mod_unique (c + 128) 256 1 (c - 128)) by lia; lia). rewrite E. unfold blank. repeat split; try lia.
Qed.
Lemma name_char_value c : name_char c -> value_char c.
Proof. unfold name_char, value_char. lia. Qed.
Lemma name_char_s8 c : name_char c -> s8 c = c.
Proof. unfold name_char. intros H. unwrap. rewrite Z.mod_small; lia. Qed.
Lemma value_line l : Forall value_char l -> line l.
Proof.
  intros H. eapply Forall_impl; [exact H|]. intros c Hc. destruct (value_char_s8 c Hc) as (H1 & H2 & _). cbn beta. unfold crlf.
  by rewrite (proj2 (Z.eqb_neq _ _) H1), (proj2 (Z.eqb_neq _ _) H2).
Qed.
Lemma field_value_char f : field_ok f -> Forall value_char (field_text f).
Proof.
  intros (H1 & H2 & _). unfold field_text. rewrite !Forall_app. split; [eapply Forall_impl; [exact H1|apply name_char_value]|]. split; [|done].
  unfold value_char. repeat constructor; vm_compute; intuition congruence.
Qed.
Lemma lower_name c : name_char c -> name_char (lower c).
Proof. unfold name_char, lower. change (chr "A") with 65. change (chr "Z") with 90. intros H. destruct (Z.leb_spec 65 c), (Z.leb_spec c 90); cbn [andb]; lia. Qed.
Lemma lowered_ok f : field_ok f -> field_ok (lowered f).
Proof. intros (H1 & H2 & H3). split; [|done]. cbn. rewrite Forall_map. eapply Forall_impl; [exact H1|apply lower_name]. Qed.
Lemma lower_twice c : lower (lower c) = lower c.
Proof. unfold lower. change (chr "A") with 65. change (chr "Z") with 90. destruct (Z.leb_spec 65 c), (Z.leb_spec c 90); cbn [andb]; case_cmp; lia. Qed.
Lemma field_refs_lowered fs : forall p, field_refs p (map lowered fs) = field_refs p fs.
Proof. induction fs as [|f fs IH]; intros p; [done|]. cbn [map field_refs lowered fst snd]. by rewrite length_map, IH. Qed.
Lemma field_text_len f : zlen (field_text f) = zlen (fst f) + 2 + zlen (snd f).
Proof. unfold field_text. rewrite !length_app. cbn. lia. Qed.

(** ** The loop over the lines *)

Lemma MakeLower_holds m r l : refers m r l -> Forall name_char l -> refers (MakeLower m r) r (map lower l) /\ only m r (MakeLower m r).
Proof.
  intros Hr Hl. destruct (refers_len m r l Hr) as [El Ee]. destruct Hr as [Hh HL]. unfold MakeLower, edit. rewrite El.
  destruct (edit_loop_spec (fun c => if (chr "A" <=? c) && (c <=? chr "Z") then Some (c + (chr "a" - chr "A")) else None) l m (rb r) Hh) as [H1 H2]. split; [split|].
  - assert (E : map lower l = map (fun b => match (if (chr "A" <=? s8 b) && (s8 b <=? chr "Z") then Some (s8 b + (chr "a" - chr "A")) else None) with Some v => u8 v | None => b end) l).
    { apply map_ext_Forall. eapply Forall_impl; [exact Hl|]. intros c Hc. cbn beta. rewrite (name_char_s8 c Hc). unfold lower. change (chr "a" - chr "A") with 32.
      destruct (_ && _); [|done]. destruct Hc as [Hc _]. unwrap. rewrite Z.mod_small; lia. }
    rewrite E. exact H1.
  - rewrite length_map. lia.
  - intros a Ha. apply H2. lia.
Qed.

Lemma crlf_eol : crlf_ ∈ eols.
Proof. unfold eols, crlf_. apply list_elem_of_further, list_elem_of_further, list_elem_of_here. Qed.

Section Loop.
Context (r : ref).

(** One field: the line is found, split at its colon, and the value has no space in front. *)
Lemma field_line m x p f fs : field_ok f -> resume r x = p -> rb r <= p -> 0 < rb r -> holds m p (crlf_ ++ lines_text crlf_ (field_text f :: map field_text fs)) ->
  re r = p + 2 + zlen (lines_text crlf_ (field_text f :: map field_text fs)) ->
  let n := p + 2 + zlen (fst f) in let q := n + 2 + zlen (snd f) in
  GetNextLine m r x true = Some (mkRef (p + 2) q) /\ FindCharacter m (mkRef (p + 2) q) (chr ":") 0 = zlen (fst f) /\
  refers m (mkRef (p + 2) n) (fst f) /\ (forall m', only m (mkRef (p + 2) n) m' -> TrimLeftSpace m' (mkRef (n + 1) q) = mkRef (n + 2) q).
Proof.
  intros Hf Hx Hb H0 Hh He n q. rewrite lines_text_cons in *. rewrite !length_app in He. change (length crlf_) with 2%nat in He.
  assert (Hq : p + 2 + zlen (field_text f) = q) by (rewrite field_text_len; unfold q, n; lia).
  destruct (next_line m r crlf_ crlf_eol x p (field_text f) (map field_text fs) (value_line _ (field_value_char f Hf)) Hx Hh) as [_ E]; [cbn; lia|lia|].
  rewrite (Hq : p + zlen crlf_ + zlen (field_text f) = q) in E. change (p + zlen crlf_) with (p + 2) in E.
  assert (Hl : blank_line (mkRef (p + 2) q) = false) by (apply Z.eqb_neq; cbn; unfold q, n; lia). rewrite Hl in E. split; [exact E|].
  apply holds_app in Hh as [_ Hh]. change (p + zlen crlf_) with (p + 2) in Hh. apply holds_app in Hh as [Hh _].
  assert (Hr : refers m (mkRef (p + 2) q) (field_text f)) by (split; [exact Hh|unfold GetLength; cbn; lia]).
  destruct Hf as (Hn & Hv & Hs). split; [|split].
  - apply (FindCharacter_at m _ (chr ":") (fst f) 58 (32 :: snd f)); [exact Hr|lia|done|]. rewrite drop_0. eapply Forall_impl; [exact Hn|].
    intros c Hc. cbn beta. rewrite (name_char_s8 c Hc). apply Z.eqb_neq. by destruct Hc.
  - apply (refers_sub m _ [] (fst f) (str ": " ++ snd f) (p + 2) n Hr); cbn; unfold n; lia.
  - intros m' Ho. unfold TrimLeftSpace. assert (Ei : IsEmpty (mkRef (n + 1) q) = false) by (apply orb_false_iff; split; apply Z.eqb_neq; cbn; unfold q, n; lia). rewrite Ei. f_equal.
    assert (Hm' : holds m' (n + 1) (32 :: snd f)).
    { apply (holds_out m); [|intros a Ha; apply Ho; cbn; lia]. unfold field_text in Hh. apply holds_app in Hh as [_ Hh]. apply (holds_app m _ [58]) in Hh as [_ Hh]. exact Hh. }
    rewrite (scan_spec blank m' [32] _ (n + 1) (snd f)); [cbn; lia| |exact Hm'|by repeat constructor|].
    + unfold str_len, GetLength. cbn. unfold q. lia.
    + unfold str_len, GetLength. cbn [rb re]. destruct (snd f) as [|c v] eqn:Ev; [left; unfold q; cbn; lia|right]. exists c, v. split; [done|].
      apply Forall_cons in Hv as [Hc _]. destruct (value_char_s8 c Hc) as (_ & _ & _ & _ & ->). apply Z.eqb_neq. by eapply Hs.
Qed.

Lemma fields_loop_spec fs : forall fuel m x p acc, Forall field_ok fs -> resume r x = p -> rb r <= p -> 0 < rb r ->
  holds m p (crlf_ ++ lines_text crlf_ (map field_text fs)) -> re r = p + 2 + zlen (lines_text crlf_ (map field_text fs)) -> (length fs < fuel)%nat ->
  exists m', fields_loop fuel m r x acc = Some (m', acc ++ field_refs p fs) /\
    holds m' p (crlf_ ++ lines_text crlf_ (map field_text (map lowered fs))) /\ only m (mkRef p (re r)) m'.
Proof.
  induction fs as [|f fs IH]; intros fuel m x p acc Hok Hx Hb H0 Hh He Hf; (destruct fuel as [|fuel]; [cbn in Hf; lia|]); cbn [fields_loop].
  - destruct (text_stream m r crlf_ crlf_eol [] x p (Forall_nil_2 _) Hx Hb Hh He) as [_ E]. rewrite E, app_nil_r. by exists m.
  - apply Forall_cons in Hok as [Hfo Hok]. destruct (field_line m x p f fs Hfo Hx Hb H0 Hh He) as (E1 & E2 & E3 & E4). rewrite E1, E2.
    rewrite (proj2 (Z.eqb_neq _ _)) by lia. set (n := p + 2 + zlen (fst f)) in *. set (q := n + 2 + zlen (snd f)) in *.
    assert (Eh : SubStrHead (mkRef (p + 2) q) (zlen (fst f)) = mkRef (p + 2) n) by (unfold SubStrHead, GetLength; cbn [rb re]; f_equal; unfold q, n; lia).
    assert (Et : SubStrTail (mkRef (p + 2) q) (GetLength (mkRef (p + 2) q) - zlen (fst f) - 1) = mkRef (n + 1) q).
    { unfold SubStrTail, GetLength; cbn [rb re]. rewrite (proj2 (Z.ltb_ge _ _)) by lia. f_equal; unfold q, n; lia. }
    rewrite Eh, Et. destruct (MakeLower_holds m _ _ E3 (proj1 Hfo)) as [[Hl _] Ho]. rewrite (E4 _ Ho). cbn [rb] in Hl.
    set (m1 := MakeLower m (mkRef (p + 2) n)) in *. cbn [map] in *. rewrite lines_text_cons in *. rewrite !length_app in He. change (length crlf_) with 2%nat in He.
    assert (Hlen := field_text_len f). assert (Hp := Hh). apply holds_app in Hp as [Hp0 Hp]. change (p + zlen crlf_) with (p + 2) in Hp. apply holds_app in Hp as [Hpf Hp].
    rewrite field_text_len in Hp. assert (Hq : p + 2 + (zlen (fst f) + 2 + zlen (snd f)) = q) by (unfold q, n; lia). rewrite Hq in Hp.
    destruct (IH fuel m1 (mkRef (p + 2) q) q (acc ++ [(mkRef (p + 2) n, mkRef (n + 2) q)])) as (m' & -> & Hm' & Ho'); try done.
    + unfold resume. cbn [re]. rewrite (proj2 (Z.leb_le _ _)), (proj2 (Z.leb_le _ (re r))) by (unfold q, n in *; lia). done.
    + unfold q, n; lia.
    + apply (holds_out m); [exact Hp|]. intros a Ha. apply Ho. cbn. unfold q, n in *. lia.
    + unfold q, n in *. lia.
    + cbn in Hf. lia.
    + exists m'. split; [by rewrite <- app_assoc|]. split.
      * apply holds_join; [|change (p + zlen crlf_) with (p + 2); apply holds_join].
        -- apply (holds_out m); [exact Hp0|]. intros a Ha. cbn in Ha. rewrite Ho' by (cbn; unfold q, n; lia). apply Ho. cbn; lia.
        -- unfold field_text, lowered. cbn [fst snd]. apply holds_join.
           ++ apply (holds_out m1); [exact Hl|]. intros a Ha. rewrite length_map in Ha. apply Ho'. cbn. unfold q, n. lia.
           ++ rewrite length_map. apply (holds_out m); [unfold field_text in Hpf; by apply holds_app in Hpf as [_ Hpf]|]. intros a Ha. rewrite length_app in Ha. cbn in Ha.
              rewrite Ho' by (cbn; unfold q, n; lia). apply Ho. cbn. unfold n. lia.
        -- rewrite field_text_len. unfold lowered at 1 2. cbn [fst snd]. rewrite length_map, Hq. exact Hm'.
      * intros a Ha. cbn in Ha. rewrite Ho' by (cbn; unfold q, n; lia). apply Ho. cbn. unfold q, n in *. lia.
Qed.
End Loop.

(** ** Looking fields up *)

Definition lines_of (fs : list field) : list Z := lines_text crlf_ (map field_text fs).
Lemma lines_of_cons f fs : lines_of (f :: fs) = field_text f ++ crlf_ ++ lines_of fs.
Proof. apply lines_text_cons. Qed.

Lemma find_refs m name fs : forall p, holds m p (crlf_ ++ lines_of fs) ->
  match find (fun f => zlist_eqb (fst f) name) fs with
  | Some f => exists a b, fs = a ++ f :: b /\ Forall (fun f => zlist_eqb (fst f) name = false) a /\
      let q := p + 2 + zlen (lines_of a) + zlen (fst f) + 2 in
      find_field m (field_refs p fs) name = Some (mkRef q (q + zlen (snd f))) /\ holds m q (snd f ++ crlf_ ++ lines_of b)
  | None => find_field m (field_refs p fs) name = None
  end.
Proof.
  induction fs as [|f fs IH]; intros p Hh; [done|]. rewrite lines_of_cons in Hh. unfold find_field. cbn [find field_refs fst].
  apply holds_app in Hh as [_ Hh]. change (p + zlen crlf_) with (p + 2) in Hh. assert (Hf := Hh). unfold field_text in Hf. rewrite <- !app_assoc in Hf.
  apply holds_app in Hf as [Hn Hf]. apply holds_app in Hf as [_ Hv]. change (zlen (str ": ")) with 2 in Hv.
  rewrite (holds_text m (p + 2) (fst f)) by done. destruct (zlist_eqb (fst f) name) eqn:E.
  - exists [], fs. split; [done|]. split; [constructor|]. cbn zeta. replace (p + 2 + zlen (lines_of []) + zlen (fst f) + 2) with (p + 2 + zlen (fst f) + 2) by (cbn; lia). by split.
  - apply holds_app in Hh as [_ Hh]. rewrite field_text_len in Hh. replace (p + 2 + (zlen (fst f) + 2 + zlen (snd f))) with (p + 2 + zlen (fst f) + 2 + zlen (snd f)) in Hh by lia.
    specialize (IH _ Hh). destruct (find _ fs) as [g|]; [|exact IH]. destruct IH as (a & b & -> & Ha & E1 & E2). exists (f :: a), b. split; [done|]. split; [by constructor|]. cbn zeta in *.
    unfold find_field in E1. rewrite E1. rewrite lines_of_cons, !length_app. change (length crlf_) with 2%nat. assert (Hl := field_text_len f).
    assert (Eq : p + 2 + zlen (fst f) + 2 + zlen (snd f) + 2 + zlen (lines_of a) + zlen (fst g) + 2 = p + 2 + Z.of_nat (length (field_text f) + (2 + length (lines_of a))) + zlen (fst g) + 2) by lia.
    rewrite <- Eq. by split.
Qed.

Lemma find_lowered name fs : find (fun f => zlist_eqb (fst f) name) (map lowered fs) = lowered <$> find (fun f => zlist_eqb (map lower (fst f)) name) fs.
Proof. induction fs as [|f fs IH]; [done|]. cbn [map find lowered fst]. destruct (zlist_eqb _ _); [done|exact IH]. Qed.
Lemma field_value_lowered name fs : snd <$> find (fun f => zlist_eqb (fst f) name) (map lowered fs) = field_value fs name.
Proof. rewrite find_lowered. unfold field_value. by destruct (find _ fs). Qed.

(** ** Splitting never runs out *)

Lemma skip_seps_le seps m : forall n p, p <= skip_seps seps m n p <= p + Z.of_nat n.
Proof. induction n as [|n IH]; intros p; cbn [skip_seps]; [lia|]. destruct (Has _ _); [specialize (IH (p + 1)); lia|lia]. Qed.
Lemma split_always merge q1 q2 (seps : cset) m tail : forall fuel room start p quote, p <= tail -> tail - p < Z.of_nat fuel -> (0 < room)%nat ->
  is_Some (split_loop merge q1 q2 seps m fuel room start p tail quote).
Proof.
  induction fuel as [|fuel IH]; intros room start p quote Hp Hf Hr; [lia|]. cbn [split_loop].
  set (emit := match room with O => None | S O => _ | S _ => _ end).
  assert (He : (p < tail \/ p = tail) -> is_Some emit).
  { intros Hc. unfold emit. destruct room as [|[|room]]; [lia|done|]. destruct (Z.eqb_spec p tail) as [->|Hne]; [done|].
    pose proof (skip_seps_le seps m (Z.to_nat (tail - (p + 1))) (p + 1)).
    destruct (IH (S room) (if merge then skip_seps seps m (Z.to_nat (tail - (p + 1))) (p + 1) else p + 1) (if merge then skip_seps seps m (Z.to_nat (tail - (p + 1))) (p + 1) else p + 1) 0) as [l ->]; [destruct merge; lia..|lia|done]. }
  destruct (Z.ltb_spec p tail); [|apply He; lia]. destruct (negb (quote =? 0)); [apply IH; lia|]. destruct (_ || _); [apply IH; lia|].
  destruct (negb (Has seps (sc m p))); [apply IH; lia|apply He; lia].
Qed.
Lemma Split_total merge m r n (seps : cset) : rb r <= re r -> is_Some (Split merge m r (S n) seps).
Proof.
  intros H. unfold Split, Split_. destruct (IsEmpty r); [done|]. apply split_always; unfold GetLength; lia.
Qed.

(** The parts of a split text lie in it. *)
Definition inside (lo hi : Z) (r : ref) : Prop := r = null_ref \/ lo <= rb r /\ rb r <= re r /\ re r <= hi.
Lemma split_unquote_inside q1 q2 m lo hi v : inside lo hi v -> inside lo hi (split_unquote q1 q2 m v).
Proof.
  intros Hv. unfold split_unquote. destruct (_ && _) eqn:E; [|done]. apply andb_true_iff in E as [E _]. apply andb_true_iff in E as [E _]. apply Z.leb_le in E.
  unfold SubStr. destruct (Z.ltb_spec 1 (GetLength v)); [|by left]. destruct Hv as [->|Hv]; [unfold GetLength in E; cbn in E; lia|]. right. unfold GetLength in *. cbn. lia.
Qed.
Lemma split_inside merge q1 q2 (seps : cset) m lo tail : forall fuel room start p quote l, lo <= start <= p -> p <= tail ->
  split_loop merge q1 q2 seps m fuel room start p tail quote = Some l -> Forall (inside lo tail) l.
Proof.
  induction fuel as [|fuel IH]; intros room start p quote l Hp Ht; [done|]. cbn [split_loop].
  set (emit := match room with O => None | S O => _ | S _ => _ end).
  assert (He : emit = Some l -> Forall (inside lo tail) l).
  { assert (Hv : inside lo tail (split_unquote q1 q2 m (mkRef start p))) by (apply split_unquote_inside; right; cbn; lia).
    unfold emit. destruct room as [|[|room]]; [done|intros [= <-]; constructor; [done|constructor]|]. destruct (Z.eqb_spec p tail) as [->|Hne]; [intros [= <-]; constructor; [done|constructor]|].
    pose proof (skip_seps_le seps m (Z.to_nat (tail - (p + 1))) (p + 1)). destruct (split_loop _ _ _ _ _ _ _ _ _ _ _) as [l'|] eqn:E; [|done]. intros [= <-]. constructor; [done|].
    eapply IH; [..|exact E]; destruct merge; lia. }
  destruct (Z.ltb_spec p tail); [|exact He]. destruct (negb (quote =? 0)); [apply IH; lia|]. destruct (_ || _); [apply IH; lia|].
  destruct (negb (Has seps (sc m p))); [apply IH; lia|exact He].
Qed.
Lemma Split_inside merge m r n (seps : cset) l : rb r <= re r -> Split merge m r n seps = Some l -> Forall (inside (rb r) (re r)) l.
Proof. intros H. unfold Split, Split_. destruct (IsEmpty r); [intros [= <-]; constructor|]. apply split_inside; lia. Qed.

Lemma edit_only f m r : only m r (edit f m r).
Proof.
  intros a Ha. unfold edit. destruct (edit_loop_spec f (mem_bytes m (rb r) (str_len r)) m (rb r)) as [_ H]; [unfold holds; by rewrite length_mem_bytes|].
  rewrite length_mem_bytes in H. apply H. unfold str_len, GetLength. lia.
Qed.
Lemma charset_only m v fs : Forall (inside (rb v) (re v)) fs -> only m v (fst (charset_loop m fs)).
Proof.
  induction fs as [|x fs IH]; intros Hfs; [done|]. apply Forall_cons in Hfs as [Hx Hfs]. cbn [charset_loop]. destruct (is_prefix _ _); [|by apply IH]. cbn [fst].
  intros a Ha. apply edit_only. destruct Hx as [->|Hx]; [change (a < 0 \/ 0 <= a); lia|].
  unfold SubStr_from, GetLength, null_ref. destruct (Z.ltb_spec 9 (re x - rb x)); cbn; lia.
Qed.

(** ** What the values mean *)

Definition persistent_of (fs : list field) : bool :=
  match field_value fs (str "connection") with Some (c :: _) => negb (c =? chr "C") && negb (c =? chr "c") | _ => false end.
(** Without a field the length is 1. *)
Definition length_of (fs : list field) : Z :=
  match field_value fs (str "content-length") with Some (c :: v) => dec_val (c :: v) | _ => 1 end.
Definition chunked_of (fs : list field) : bool :=
  match field_value fs (str "transfer-encoding") with Some (c :: _) => (c =? chr "c") || (c =? chr "C") | _ => false end.
(** A length is a decimal number below [2^32], an encoding begins with a letter. *)
Definition fields_ok (fs : list field) : Prop :=
  Forall field_ok fs /\
  (forall c v, field_value fs (str "content-length") = Some (c :: v) -> exists k, 0 <= k < 2 ^ 32 /\ c :: v = decimal k) /\
  (forall c v, field_value fs (str "transfer-encoding") = Some (c :: v) -> isalpha c = true).

Lemma value_char_eqb c k : value_char c -> 0 <= k < 128 -> (s8 c =? k) = (c =? k).
Proof.
  intros H Hk. destruct (decide (c < 128)).
  - assert (E : s8 c = c) by (unfold value_char in H; unwrap; rewrite Z.mod_small; lia). by rewrite E.
  - assert (E : s8 c = c - 256) by (unfold value_char in H; unwrap; rewrite <- (Z.mod_unique (c + 128) 256 1 (c - 128)) by lia; lia). rewrite E. unfold value_char in H. transitivity false; [|symmetry]; apply Z.eqb_neq; lia.
Qed.
Lemma is_digit_true c : is_digit c -> isdigit c = true.
Proof. unfold is_digit. intros H. apply andb_true_iff. change (chr "0") with 48. change (chr "9") with 57. split; apply Z.leb_le; lia. Qed.
Lemma dec_rev_short n : forall f v, 0 <= v < 10 ^ Z.of_nat (S n) -> (length (dec_rev f v) <= S n)%nat.
Proof.
  induction n as [|n IH]; intros [|f] v Hv; cbn [dec_rev length]; [lia| |lia|].
  - rewrite Z.div_small by lia. cbn. lia.
  - destruct (v / 10 =? 0); [cbn; lia|]. assert (H : (length (dec_rev f (v / 10)) <= S n)%nat); [|lia]. apply IH. rewrite (Nat2Z.inj_succ (S n)), Z.pow_succ_r in Hv by lia. split; [apply Z.div_pos; lia|apply Z.div_lt_upper_bound; lia].
Qed.
Lemma length_decimal_10 k : 0 <= k < 2 ^ 32 -> (length (decimal k) <= 10)%nat.
Proof. intros H. unfold decimal. rewrite length_rev. apply dec_rev_short. change (10 ^ Z.of_nat 10) with 10000000000. lia. Qed.
Lemma take_digits l rest : Forall is_digit l -> (forall c r, rest = c :: r -> isdigit c = false) -> take_while isdigit (l ++ rest) = l.
Proof.
  intros Hl Hr. induction Hl as [|c l Hc _ IH]; cbn [app take_while].
  - destruct rest as [|c r]; [done|]. cbn. by rewrite (Hr c r).
  - assert (E := is_digit_true c Hc). by rewrite E, IH.
Qed.

(** ** The values *)

Section Found.
(** The fields are at [p] of a text that ends at [e]. *)
Context (m : mem) (p e : Z) (fs : list field).
Hypotheses (Hp : 0 < p) (Hh : holds m p (crlf_ ++ lines_of (map lowered fs))) (He : e = p + 2 + zlen (lines_of fs)) (Hok : Forall field_ok fs).
Let refs := field_refs p fs.

Lemma lines_lowered gs : zlen (lines_of (map lowered gs)) = zlen (lines_of gs).
Proof. induction gs as [|g gs IH]; [done|]. cbn [map]. rewrite !lines_of_cons, !length_app. unfold field_text, lowered at 1 2. cbn [fst snd]. rewrite !length_app, length_map. lia. Qed.
Lemma lines_of_app a b : lines_of (a ++ b) = lines_of a ++ lines_of b.
Proof. unfold lines_of, lines_text. by rewrite !map_app, concat_app. Qed.

Lemma found name : match field_value fs name with
  | Some v => exists a f b q, map lowered fs = a ++ f :: b /\ snd f = v /\ zlist_eqb (fst f) name = true /\ q = p + 2 + zlen (lines_of a) + zlen (fst f) + 2 /\
      find_field m refs name = Some (mkRef q (q + zlen v)) /\ holds m q (v ++ crlf_ ++ lines_of b) /\ e = q + zlen v + 2 + zlen (lines_of b) /\ Forall value_char v
  | None => find_field m refs name = None
  end.
Proof.
  assert (H := find_refs m name (map lowered fs) p Hh). rewrite field_refs_lowered in H. rewrite <- (field_value_lowered name fs). destruct (find _ (map lowered fs)) as [f|] eqn:Ef; [|exact H].
  cbn [fmap option_fmap option_map]. destruct H as (a & b & Efs & _ & E1 & E2). cbn zeta in *. apply find_some in Ef as [_ Ef].
  assert (El := lines_lowered fs). rewrite Efs, lines_of_app, lines_of_cons, !length_app in El. change (length crlf_) with 2%nat in El. assert (Hf := field_text_len f).
  assert (Hfo : Forall field_ok (map lowered fs)) by (rewrite Forall_map; eapply Forall_impl; [exact Hok|exact lowered_ok]). rewrite Efs in Hfo. apply Forall_app in Hfo as [_ Hfo]. apply Forall_cons in Hfo as [Hfo _].
  eexists a, f, b, _. split; [exact Efs|]. split; [done|]. split; [exact Ef|]. split; [done|]. split; [exact E1|]. split; [exact E2|]. split; [lia|apply Hfo].
Qed.
Lemma found_value name : match field_value fs name with
  | Some (c :: v) => exists q rest, value_of m refs name = Some (mkRef q (q + zlen (c :: v))) /\ holds m q (c :: v ++ crlf_ ++ rest) /\ p < q /\ e = q + zlen (c :: v) + 2 + zlen rest /\ Forall value_char (c :: v)
  | _ => value_of m refs name = None
  end.
Proof.
  assert (H := found name). unfold value_of. destruct (field_value fs name) as [v|]; [|by rewrite H]. destruct H as (a & f & b & q & _ & _ & _ & Eq & -> & Hq & Ee & Hv). cbn [mbind option_bind].
  unfold GetLength. cbn [rb re]. destruct v as [|c v]; [by rewrite (proj2 (Z.ltb_ge _ _)) by (cbn; lia)|]. rewrite (proj2 (Z.ltb_lt _ _)) by (cbn; lia).
  exists q, (lines_of b). split; [done|]. split; [exact Hq|]. split; [lia|]. by split.
Qed.

Lemma connect_spec : connect_persistent refs m = persistent_of fs.
Proof.
  unfold connect_persistent, persistent_of. assert (H := found_value (str "connection")). destruct (field_value fs _) as [[|c v]|]; [by rewrite H| |by rewrite H].
  destruct H as (q & rest & -> & Hq & _ & _ & Hv). apply Forall_cons in Hv as [Hc _]. apply holds_cons_inv in Hq as [Hq _]. cbn [rb]. unfold sc. rewrite Hq, !(value_char_eqb c) by (done || (vm_compute; intuition congruence)). done.
Qed.
Lemma tail_holds q l : holds m q l -> e = q + zlen l -> tail_text m q e = l.
Proof. intros H ->. unfold tail_text. replace (Z.to_nat _) with (length l) by lia. exact H. Qed.
Lemma length_spec : fields_ok fs -> content_length e refs m 1 = Some (length_of fs).
Proof.
  intros (_ & Hl & _). unfold content_length, length_of. assert (H := found_value (str "content-length")). destruct (field_value fs _) as [[|c v]|]; [by rewrite H| |by rewrite H].
  destruct (Hl c v eq_refl) as (k & Hk & Ek). destruct H as (q & rest & -> & Hq & _ & Ee & _). cbn [rb]. assert (Hd := decimal_digits k (proj1 Hk)). assert (Hlen := length_decimal k). rewrite <- Ek in Hd, Hlen.
  assert (Hs8 : map s8 (c :: v) = c :: v).
  { rewrite <- (map_id (c :: v)) at 2. apply map_ext_Forall. eapply Forall_impl; [exact Hd|]. intros d Hdd. unfold is_digit in Hdd. unwrap. rewrite Z.mod_small; lia. }
  destruct (Z.to_nat (e + 1 - q)) as [|n] eqn:En; [lia|]. cbn [seek]. assert (Hc := Hq). apply holds_cons_inv in Hc as [Hc _]. injection Hs8 as Hs8c Hs8. unfold sc. rewrite Hc, Hs8c.
  apply Forall_cons in Hd as [Hdc Hdv]. assert (E := is_digit_true c Hdc). rewrite E. cbn [mbind option_bind].
  rewrite (tail_holds q (c :: v ++ crlf_ ++ rest)); [|done|cbn [length] in *; rewrite !length_app; cbn; lia].
  assert (Hl10 : (length (c :: v) <= 10)%nat) by (rewrite Ek; apply length_decimal_10; lia).
  change (c :: v ++ crlf_ ++ rest) with ((c :: v) ++ crlf_ ++ rest). rewrite firstn_app, firstn_all2 by lia. rewrite map_app. assert (Em : map s8 (c :: v) = c :: v) by (cbn [map]; by rewrite Hs8c, Hs8).
  rewrite Em, take_digits; [|by constructor|].
  - rewrite Ek, decimal_val by lia. unfold to_int. rewrite Z.min_l by lia. f_equal. unwrap. zlia.
  - intros d r. destruct (19 - length (c :: v))%nat as [|j] eqn:Ej; [lia|]. cbn. by intros [= <- _].
Qed.
Lemma chunked_spec : fields_ok fs -> chunked_transfer e refs m = Some (chunked_of fs).
Proof.
  intros (_ & _ & Hl). unfold chunked_transfer, chunked_of. assert (H := found_value (str "transfer-encoding")). destruct (field_value fs _) as [[|c v]|]; [by rewrite H| |by rewrite H].
  specialize (Hl c v eq_refl). destruct H as (q & rest & -> & Hq & _ & Ee & Hv). cbn [rb]. destruct (Z.to_nat (e + 1 - q)) as [|n] eqn:En; [cbn [length] in *; lia|]. cbn [seek].
  apply holds_cons_inv in Hq as [Hq _]. assert (Es : s8 c = c).
  { unfold isalpha in Hl. change (chr "a") with 97 in Hl. change (chr "z") with 122 in Hl. change (chr "A") with 65 in Hl. change (chr "Z") with 90 in Hl. unwrap. rewrite Z.mod_small; lia. }
  unfold sc. rewrite Hq, Es, Hl. cbn [mbind option_bind]. by rewrite Hq, Es.
Qed.
Lemma range_spec d1 d2 : exists s t, content_range e refs m d1 d2 = Some (s, t) /\ (field_value fs (str "content-range") = None -> s = d1).
Proof.
  unfold content_range. assert (H := found (str "content-range")). destruct (field_value fs _) as [v|]; [|rewrite H; by eauto].
  destruct H as (a & f & b & q & _ & _ & _ & Eq & -> & Hq & Ee & Hv). cbn [rb]. rewrite (holds_text m q v) by (by apply holds_app in Hq as [Hq _]).
  destruct (is_prefix (str "bytes ") v) eqn:Ep; [|by eauto]. apply is_prefix_app in Ep. assert (H6 : 6 <= zlen v) by (rewrite Ep, length_app; change (length (str "bytes ")) with 6%nat; lia).
  unfold TrimAfter. cbn [rb re]. rewrite (proj2 (Z.eqb_neq _ 0)) by lia. cbn [mbind option_bind].
  set (i := FindCharacter_set m _ _ 0). set (range := if i <? 0 then _ else _). assert (Hr : rb range <= re range) by (unfold range; destruct (Z.ltb_spec i 0); cbn; lia).
  destruct (Split_total false m range 1 (CharacterSet (str "/")) Hr) as [l El]. rewrite El. cbn [mbind option_bind].
  assert (Hin := Split_inside _ _ _ _ _ _ Hr El). assert (H0 : rb (field_at l 0) <= re (field_at l 0)).
  { unfold field_at. destruct l as [|x l]; [done|]. apply Forall_cons in Hin as [[->|Hx] _]; [done|]. cbn. lia. }
  destruct (Split_total false m (field_at l 0) 1 (CharacterSet (str "-")) H0) as [l' ->]. cbn [mbind option_bind]. eexists _, _. split; [done|done].
Qed.
(** The character set of the content type is put into lower case where it is. *)
Lemma type_spec : exists m' charset ty sub, content_type refs m = Some (m', charset, ty, sub) /\
  exists fs', holds m' p (crlf_ ++ lines_of fs') /\ refs = field_refs p fs' /\ forall name, zlist_eqb (str "content-type") name = false -> snd <$> find (fun f => zlist_eqb (fst f) name) fs' = field_value fs name.
Proof.
  assert (Hsame : exists fs', holds m p (crlf_ ++ lines_of fs') /\ refs = field_refs p fs' /\ forall name, zlist_eqb (str "content-type") name = false -> snd <$> find (fun f => zlist_eqb (fst f) name) fs' = field_value fs name).
  { exists (map lowered fs). split; [done|]. split; [by rewrite field_refs_lowered|]. intros name _. apply field_value_lowered. }
  unfold content_type, value_of. assert (H := found (str "content-type")). destruct (field_value fs (str "content-type")) as [v|]; [|rewrite H; by eauto 10].
  destruct H as (a & f & b & q & Efs & Ev & En & Eq & -> & Hq & Ee & Hv). cbn [mbind option_bind]. destruct (0 <? _); [|by eauto 10]. cbn [mbind option_bind].
  set (r := mkRef q (q + zlen v)). assert (Hr : rb r <= re r) by (cbn; lia). destruct (Split_total false m r 3 (CharacterSet (str ";")) Hr) as [l El]. rewrite El. cbn [mbind option_bind].
  assert (Hin := Split_inside _ _ _ _ _ _ Hr El). assert (H0 : rb (field_at l 0) <= re (field_at l 0)).
  { unfold field_at. destruct l as [|x l]; [done|]. apply Forall_cons in Hin as [[->|Hx] _]; [done|]. cbn. lia. }
  destruct (Split_total false m (field_at l 0) 1 (CharacterSet (str "/")) H0) as [l' ->]. cbn [mbind option_bind].
  assert (Ho := charset_only m r (tl l) ltac:(destruct l; [done|by apply Forall_cons in Hin as [_ Hin]])). destruct (charset_loop m (tl l)) as [m' cs]. cbn [fst] in Ho.
  eexists m', cs, _, _. split; [done|]. apply zlist_eqb_eq in En. exists (a ++ (fst f, mem_bytes m' q (length v)) :: b). split; [|split].
  - assert (Hall := Hh). rewrite Efs, lines_of_app, lines_of_cons in Hall. apply holds_app in Hall as [Hc Hall]. apply holds_app in Hall as [Ha Hall]. change (p + zlen crlf_) with (p + 2) in *.
    unfold field_text in Hall. rewrite <- !app_assoc in Hall. apply holds_app in Hall as [Hn Hall]. apply holds_app in Hall as [Hcol _]. change (zlen (str ": ")) with 2 in *.
    rewrite lines_of_app, lines_of_cons. unfold field_text. cbn [fst snd]. rewrite <- !app_assoc. apply holds_app in Hq as [_ Hq].
    apply holds_join; [apply (holds_out m); [done|intros x Hx; apply Ho; cbn in *; lia]|]. change (p + zlen crlf_) with (p + 2).
    apply holds_join; [apply (holds_out m); [done|intros x Hx; apply Ho; cbn in *; lia]|].
    apply holds_join; [apply (holds_out m); [done|intros x Hx; apply Ho; cbn in *; lia]|].
    apply holds_join; [apply (holds_out m); [done|intros x Hx; apply Ho; cbn in *; lia]|]. change (zlen (str ": ")) with 2. rewrite <- Eq.
    apply holds_join; [unfold holds; by rewrite length_mem_bytes|]. rewrite length_mem_bytes. apply (holds_out m); [done|intros x Hx; apply Ho; cbn in *; lia].
  - unfold refs. rewrite <- field_refs_lowered, Efs. clear - Ev. revert p. induction a as [|g a IH]; intros p0; cbn [app field_refs fst snd]; [by rewrite Ev, length_mem_bytes|]. by rewrite IH.
  - intros name Hne. rewrite <- (field_value_lowered name fs), Efs. clear - En Hne. induction a as [|g a IH]; cbn [app find fst]; [by rewrite En, Hne|]. destruct (zlist_eqb (fst g) name); [reflexivity|exact IH].
Qed.
End Found.

(** ** The whole header *)

Definition status_line (major minor code : Z) (reason : list Z) : list Z :=
  str "HTTP/" ++ decimal major ++ str "." ++ decimal minor ++ [32] ++ decimal code ++ reason.
Definition reason_ok (reason : list Z) : Prop := Forall value_char reason /\ forall c r, reason = c :: r -> isdigit c = false.

Lemma decimal_first v : 0 <= v -> exists c l, decimal v = c :: l /\ is_digit c.
Proof.
  intros H. assert (Hd := decimal_digits v H). assert (Hl := length_decimal v). destruct (decimal v) as [|c l]; [cbn in Hl; lia|]. exists c, l. split; [done|]. by apply Forall_cons in Hd as [Hd _].
Qed.
Lemma scan_d_decimal v rest : 0 <= v < 2 ^ 31 -> (forall c r, rest = c :: r -> isdigit c = false) -> scan_d (decimal v ++ rest) = Some (v, rest).
Proof.
  intros Hv Hr. destruct (decimal_first v (proj1 Hv)) as (c & l & E & Hc). unfold scan_d.
  assert (Hs : skip_while isspace (decimal v ++ rest) = decimal v ++ rest).
  { rewrite E. cbn [app skip_while]. assert (Ec : isspace c = false) by (unfold isspace, is_digit in *; apply orb_false_iff; split; [apply Z.eqb_neq; lia|apply andb_false_iff; right; apply Z.leb_gt; lia]). by rewrite Ec. }
  rewrite Hs. assert (Hm : (match decimal v ++ rest with c :: t => if c =? chr "-" then (true, t) else if c =? chr "+" then (false, t) else (false, decimal v ++ rest) | [] => (false, decimal v ++ rest) end) = (false, decimal v ++ rest)).
  { rewrite E. cbn [app]. unfold is_digit in Hc. change (chr "-") with 45. change (chr "+") with 43. by rewrite !(proj2 (Z.eqb_neq c _)) by lia. }
  rewrite Hm. rewrite take_digits by (done || apply decimal_digits; lia). destruct (decimal v) eqn:Ed; [done|]. rewrite <- Ed. f_equal. f_equal.
  - rewrite decimal_val by lia. unfold to_int. rewrite Z.min_l by lia. rewrite s32_small by lia. done.
  - by rewrite skipn_app, skipn_all, Nat.sub_diag.
Qed.
Lemma scan_lit_app lit l : scan_lit lit (lit ++ l) = Some l.
Proof.
  unfold scan_lit. assert (E : is_prefix lit (lit ++ l) = true) by (induction lit as [|c t IH]; [done|]; cbn; by rewrite Z.eqb_refl).
  rewrite E. by rewrite skipn_app, skipn_all, Nat.sub_diag.
Qed.
Lemma scan_status_line major minor code reason rest : 0 <= major < 2 ^ 31 -> 0 <= minor < 2 ^ 31 -> 0 <= code < 2 ^ 31 -> reason_ok reason -> (forall c r, rest = c :: r -> isdigit c = false) ->
  scan_status (status_line major minor code reason ++ rest) = (Some major, Some minor, Some code).
Proof.
  intros Ha Hb Hc [_ Hr] Hrest. unfold scan_status, status_line. rewrite <- !app_assoc. rewrite scan_lit_app. cbn [mbind option_bind]. rewrite scan_d_decimal by (done || (intros c r [= <- _]; done)).
  rewrite scan_lit_app. cbn [mbind option_bind]. rewrite scan_d_decimal by (done || (intros c r [= <- _]; done)).
  assert (Hs : skip_while isspace ([32] ++ decimal code ++ reason ++ rest) = decimal code ++ reason ++ rest).
  { destruct (decimal_first code (proj1 Hc)) as (c & l & -> & Hd). cbn [app skip_while]. change (isspace 32) with true. cbn iota.
    assert (Ec : isspace c = false) by (unfold isspace, is_digit in *; apply orb_false_iff; split; [apply Z.eqb_neq; lia|apply andb_false_iff; right; apply Z.leb_gt; lia]). by rewrite Ec. }
  rewrite Hs, scan_d_decimal; [done|done|]. intros c r E. destruct reason as [|d reason]; [by eapply Hrest|]. injection E as <- _. by eapply Hr.
Qed.

Lemma status_chars major minor code reason : 0 <= major -> 0 <= minor -> 0 <= code -> reason_ok reason -> Forall value_char (status_line major minor code reason).
Proof.
  intros Ha Hb Hc [Hr _]. assert (Hd : forall v, 0 <= v -> Forall value_char (decimal v)).
  { intros v Hv. eapply Forall_impl; [exact (decimal_digits v Hv)|]. unfold is_digit, value_char. intros; lia. }
  unfold status_line. rewrite !Forall_app. unfold value_char. repeat split; try (by apply Hd); try done; repeat constructor; vm_compute; intuition congruence.
Qed.

(** Of a header of a status line and well-formed fields (names of printable
    characters, values without a space in front, [fields_ok]) [ParseHeader] finds
    state, version, length (1 when there is no such field), encoding and persistence
    as the status line and the first fields of their names have them, and every field
    but the content type is found under its name, in whatever case. *)
Theorem header_parsed h0 major minor code reason fs : m_fields h0 = [] -> 0 <= major < 2 ^ 31 -> 0 <= minor < 2 ^ 31 -> 0 <= code < 2 ^ 31 -> reason_ok reason -> fields_ok fs ->
  exists h, ParseHeader h0 (head_text (status_line major minor code reason) fs) = Some h /\
    m_StateCode h = code /\ m_VersionMajor h = major /\ m_VersionMinor h = minor /\
    m_ContentLength h = length_of fs /\ m_ChunkedTransfer h = chunked_of fs /\ m_ConnectPersisent h = persistent_of fs /\
    (field_value fs (str "content-range") = None -> GetStartPosition h = 0) /\
    forall name, zlist_eqb (str "content-type") (map lower name) = false ->
      text (m_RawHeader h) <$> GetHeaderField h name = field_value fs (map lower name).
Proof.
  intros H0 Ha Hb Hc Hr Hfs. set (status := status_line major minor code reason). set (l := head_text status fs). set (m := string_mem l). assert (Hst := status_chars _ _ _ _ (proj1 Ha) (proj1 Hb) (proj1 Hc) Hr).
  assert (Hl : l = status ++ crlf_ ++ lines_of fs) by apply lines_text_cons. assert (Hh : holds m 1 l) by apply holds_mem_of. assert (Hlen : zlen l = zlen status + 2 + zlen (lines_of fs)) by (rewrite Hl, !length_app; change (length crlf_) with 2%nat; lia).
  assert (Hlines : Forall line (status :: map field_text fs)).
  { constructor; [by apply value_line|]. rewrite Forall_map. eapply Forall_impl; [exact (proj1 Hfs)|]. intros f Hf. by apply value_line, field_value_char. }
  assert (Hne : status <> []) by (unfold status, status_line; intros E; apply (f_equal length) in E; rewrite length_app in E; cbn in E; lia).
  destruct (file_stream m (string_ref l) crlf_ crlf_eol status (map field_text fs) Hne Hlines ltac:(done) Hh ltac:(done)) as (_ & E1 & _).
  assert (Hb0 : blank_line (mkRef 1 (1 + zlen status)) = false) by (apply Z.eqb_neq; cbn; destruct status; [done|cbn; lia]). change (rb (string_ref l)) with 1 in E1. rewrite Hb0 in E1.
  unfold ParseHeader. fold m. rewrite E1. cbn [mbind option_bind rb re string_ref]. change (rb (string_ref l)) with 1. assert (He : 1 + zlen l = 1 + zlen status + 2 + zlen (lines_of fs)) by lia.
  assert (Ht : tail_text m 1 (1 + zlen l) = status ++ crlf_ ++ lines_of fs) by (unfold tail_text; replace (Z.to_nat _) with (length l) by lia; by rewrite <- Hl).
  rewrite Ht. unfold status. rewrite scan_status_line by (done || (intros c r [= <- _]; done)). fold status. cbn beta zeta iota. rewrite H0, !u32_id by lia.
  assert (Hh2 := Hh). rewrite Hl in Hh2. apply holds_app in Hh2 as [_ Hh2].
  destruct (fields_loop_spec (string_ref l) fs (S (length l)) m (mkRef 1 (1 + zlen status)) (1 + zlen status) [] (proj1 Hfs)) as (m' & -> & Hm' & Ho).
  { unfold resume, string_ref. cbn [re rb]. rewrite (proj2 (Z.leb_le _ _)), (proj2 (Z.leb_le _ (1 + zlen l))) by lia. done. } { cbn. lia. } { cbn; lia. } { exact Hh2. } { exact He. }
  { assert (Hmany : (length fs <= length (lines_of fs))%nat); [|lia]. clear. induction fs as [|f fs IH]; [done|]. rewrite lines_of_cons, !length_app. cbn. lia. }
  cbn [mbind option_bind app]. rewrite (proj2 (Z.eqb_neq code c_unknown)) by (unfold c_unknown; lia). set (p := 1 + zlen status) in *. assert (Hp : 0 < p) by lia.
  change (negb (c_unknown =? 0)) with true. cbn iota.
  rewrite (length_spec m' p (1 + zlen l) fs Hm' He (proj1 Hfs) Hfs), (chunked_spec m' p (1 + zlen l) fs Hm' He (proj1 Hfs) Hfs), (connect_spec m' p (1 + zlen l) fs Hm' He (proj1 Hfs)). cbn [mbind option_bind].
  destruct (range_spec m' p (1 + zlen l) fs Hp Hm' He (proj1 Hfs) c_unknown c_unknown) as (s & t & -> & Hs). cbn [mbind option_bind].
  destruct (type_spec m' p (1 + zlen l) fs Hm' He (proj1 Hfs)) as (m'' & cs & ty & sub & -> & fs' & Hm'' & Erefs & Hfind). cbn [mbind option_bind].
  eexists. split; [reflexivity|]. cbn [m_StateCode m_VersionMajor m_VersionMinor m_ContentLength m_ChunkedTransfer m_ConnectPersisent]. do 6 (split; [done|]). split.
  - intros Hn. unfold GetStartPosition. cbn [m_ContentPartial_Start]. by rewrite (Hs Hn).
  - intros name Hname. unfold GetHeaderField, IsParsedOk. cbn [m_StateCode m_RawHeader m_fields]. rewrite (proj2 (Z.eqb_neq code c_unknown)) by (unfold c_unknown; lia). cbn [negb].
    rewrite Erefs, <- (Hfind _ Hname). assert (H := find_refs m'' (map lower name) fs' p Hm''). destruct (find _ fs') as [f|]; [|by rewrite H].
    destruct H as (a & b & _ & _ & -> & Hv). cbn [fmap option_fmap option_map]. f_equal. apply holds_text. by apply holds_app in Hv as [Hv _].
Qed.
