(* ===== verification/HttpRecv.v ===== *)
(** [HttpSession] receiving a response (inet/http_client.cpp): the buffer that grows
    and loses what the data callback has taken, the loops that fill it, chunks, and
    [WaitResponse].  An access outside the buffer has no result, nor has an assertion
    that fails. *)
From S2P Require Import Prelude Str StrScan StrBuf HttpHead.

Abbreviation zlen l := (Z.of_nat (length l)).

(** ** The connection *)

(** What one turn of a receiving loop meets: [Recv] with up to [n] bytes that have
    arrived, a lost connection, or the end of the time for the response. *)
Inductive event := Got (n : Z) | Lost (timeout : bool) | Late.
Inductive event_param := PNull | PNumber (n : Z) | PHeader (h : header).

Definition HTTPCLIENT_EVENT_START_RECEIVING : Z := 5.
Definition HTTPCLIENT_EVENT_FIRSTBYTE : Z := 6.
Definition HTTPCLIENT_EVENT_HEADER_RECEIVED : Z := 7.
Definition HTTPCLIENT_EVENT_CONTENT_RECEIVING : Z := 8.
Definition HTTPCLIENT_EVENT_PROTOCAL_ERROR : Z := 9.
Definition HTTPCLIENT_EVENT_DONE : Z := 10.
Definition HTTPCLIENT_EVENT_TIMEOUT : Z := 11.
Definition HTTPCLIENT_EVENT_CANCELLED : Z := 12.
Definition INFINITE : Z := 0xffffffff.
Definition RECV_BUFFER_EXTSIZE : Z := 2048.

(** [sscanf(l, "%x")]: white space, a sign and "0x" may come first. *)
Definition hex_digit (c : Z) : option Z :=
  if isdigit c then Some (c - chr "0") else if (chr "a" <=? c) && (c <=? chr "f") then Some (c - chr "a" + 10)
  else if (chr "A" <=? c) && (c <=? chr "F") then Some (c - chr "A" + 10) else None.
Fixpoint hex_value (l : list Z) (x : Z) : Z :=
  match l with c :: t => match hex_digit c with Some d => hex_value t (Z.min (2 ^ 64 - 1) (x * 16 + d)) | None => x end | [] => x end.
Definition starts_hex (l : list Z) : bool := match l with c :: _ => match hex_digit c with Some _ => true | None => false end | [] => false end.
Definition scan_x (l : list Z) : option Z :=
  let l := skip_while isspace l in
  let '(neg, l) := match l with c :: t => if c =? chr "-" then (true, t) else if c =? chr "+" then (false, t) else (false, l) | [] => (false, l) end in
  let l := match l with z :: x :: t => if (z =? chr "0") && ((x =? chr "x") || (x =? chr "X")) && starts_hex t then t else l | _ => l end in
  if starts_hex l then Some (u32 (let v := hex_value l 0 in if neg then - v else v)) else None.
(** [sscanf] and [strstr] read up to a zero, which has to be there. *)
Fixpoint c_string (l : list Z) : option (list Z) :=
  match l with [] => None | c :: t => if c =? 0 then Some [] else option_map (cons c) (c_string t) end.
Definition find_token (l tok : list Z) : option (option nat) :=
  match strstr l tok with Some i => Some (Some i) | None => if existsb (Z.eqb 0) l then Some None else None end.

(** ** The session *)

(** [cookie] is what the callbacks keep. *)
Record session (C : Type) := mkSession {
  _RecvBufferPool : list Z; _RecvBuffer_Used : Z; _RecvBuffer_Parsed : Z; _RecvBuffer_Removed : Z; _ResponseStart : Z;
  wire : list Z; plan : list event; connected : bool; has_event_cb : bool; cookie : C; m_ResponseHeader : header; m_LastResponseStage : Z }.
Arguments mkSession {C}. Arguments _RecvBufferPool {C}. Arguments _RecvBuffer_Used {C}. Arguments _RecvBuffer_Parsed {C}. Arguments _RecvBuffer_Removed {C}.
Arguments _ResponseStart {C}. Arguments wire {C}. Arguments plan {C}. Arguments connected {C}. Arguments has_event_cb {C}. Arguments cookie {C}.
Arguments m_ResponseHeader {C}. Arguments m_LastResponseStage {C}.

Section Session.
Context {C : Type}.
(** The callbacks; the data callback may be absent. [malloc] gives a block of the size asked for, or none. *)
Context (m_pEventCallback : C -> event_param -> Z -> C * bool) (m_pDataCallback : option (C -> option (list Z) -> Z -> bool -> C * Z)) (m_Keepalive : bool)
        (malloc : Z -> option (list Z)).
Implicit Types (s : session C).

Definition set_buffer (pool : list Z) (used parsed : Z) s : session C :=
  mkSession pool used parsed (_RecvBuffer_Removed s) (_ResponseStart s) (wire s) (plan s) (connected s) (has_event_cb s) (cookie s) (m_ResponseHeader s) (m_LastResponseStage s).
Definition set_pool (pool : list Z) s : session C := set_buffer pool (_RecvBuffer_Used s) (_RecvBuffer_Parsed s) s.
Definition set_parsed (n : Z) s : session C := set_buffer (_RecvBufferPool s) (_RecvBuffer_Used s) n s.
Definition set_removed (n : Z) s : session C :=
  mkSession (_RecvBufferPool s) (_RecvBuffer_Used s) (_RecvBuffer_Parsed s) n (_ResponseStart s) (wire s) (plan s) (connected s) (has_event_cb s) (cookie s) (m_ResponseHeader s) (m_LastResponseStage s).
Definition set_link (w : list Z) (p : list event) (c : bool) s : session C :=
  mkSession (_RecvBufferPool s) (_RecvBuffer_Used s) (_RecvBuffer_Parsed s) (_RecvBuffer_Removed s) (_ResponseStart s) w p c (has_event_cb s) (cookie s) (m_ResponseHeader s) (m_LastResponseStage s).
Definition set_plan (p : list event) s : session C := set_link (wire s) p (connected s) s.
Definition set_client (e : bool) (c : C) s : session C :=
  mkSession (_RecvBufferPool s) (_RecvBuffer_Used s) (_RecvBuffer_Parsed s) (_RecvBuffer_Removed s) (_ResponseStart s) (wire s) (plan s) (connected s) e c (m_ResponseHeader s) (m_LastResponseStage s).
Definition set_stage (n : Z) s : session C :=
  mkSession (_RecvBufferPool s) (_RecvBuffer_Used s) (_RecvBuffer_Parsed s) (_RecvBuffer_Removed s) (_ResponseStart s) (wire s) (plan s) (connected s) (has_event_cb s) (cookie s) (m_ResponseHeader s) n.
Definition set_header (h : header) s : session C :=
  mkSession (_RecvBufferPool s) (_RecvBuffer_Used s) (_RecvBuffer_Parsed s) (_RecvBuffer_Removed s) (_ResponseStart s) (wire s) (plan s) (connected s) (has_event_cb s) (cookie s) h (m_LastResponseStage s).
Definition set_start (n : Z) s : session C :=
  mkSession (_RecvBufferPool s) (_RecvBuffer_Used s) (_RecvBuffer_Parsed s) (_RecvBuffer_Removed s) n (wire s) (plan s) (connected s) (has_event_cb s) (cookie s) (m_ResponseHeader s) (m_LastResponseStage s).

Definition CloseSocket s : session C := set_link (wire s) (plan s) false s.

(** [_RecvBuffer(i)] is the byte of the pool at [i - _RecvBuffer_Removed]. *)
Definition at_ s (i : Z) : Z := i - _RecvBuffer_Removed s.
Definition _GetRecvBufferSize s : Z := u32 (zlen (_RecvBufferPool s) + _RecvBuffer_Removed s).
Definition put s (i : Z) (l : list Z) : option (session C) := b ← blit (_RecvBufferPool s) (at_ s i) l; Some (set_pool b s).
(** [memmove] inside the pool. *)
Definition move (pool : list Z) (d p n : Z) : option (list Z) := l ← fetch pool p n; blit pool d l.

(** Telling the event callback, and asking it. *)
Definition tell (p : event_param) (e : Z) s : session C :=
  if has_event_cb s then set_client true (fst (m_pEventCallback (cookie s) p e)) s else s.
Definition ask (p : event_param) (e : Z) s : bool * session C :=
  if has_event_cb s then let '(c, ok) := m_pEventCallback (cookie s) p e in (ok, set_client true c s) else (true, s).
Definition tell_timeout s : session C :=
  if has_event_cb s then let s := tell PNull HTTPCLIENT_EVENT_TIMEOUT s in set_client false (cookie s) s else s.

Definition _ChangeRecvBufferSize (sz : Z) s : option (session C) :=
  let sz := u32 (Z.max (s32 (s32 sz - s32 (_RecvBuffer_Removed s))) (s32 (s32 (zlen (_RecvBufferPool s)) * 2))) in
  if sz <=? zlen (_RecvBufferPool s) then Some (set_pool (firstn (Z.to_nat sz) (_RecvBufferPool s)) s)
  else match malloc sz with
       | None => Some s
       | Some b => b ← blit b 0 (_RecvBufferPool s); Some (set_pool b s)
       end.
Definition grow s : option (session C) :=
  if _GetRecvBufferSize s <=? u32 (_RecvBuffer_Used s + 1) then _ChangeRecvBufferSize (u32 (_RecvBuffer_Used s + RECV_BUFFER_EXTSIZE)) s else Some s.

(** [_Recv] to [_RecvBuffer(_RecvBuffer_Used)]: the number of bytes; nothing, or a
    failure, closes the socket. *)
Definition receive (e : event) s : option (bool * session C) :=
  let lost (timeout : bool) s := let s := CloseSocket s in if timeout then tell_timeout s else s in
  match e with
  | Got n =>
    let room := u32 (_GetRecvBufferSize s - _RecvBuffer_Used s - 1) in
    let l := if connected s then firstn (Z.to_nat (Z.min n room)) (wire s) else [] in
    match l with
    | [] => Some (false, lost false s)
    | _ =>
      s ← put s (_RecvBuffer_Used s) l;
      let s := set_link (skipn (length l) (wire s)) (plan s) (connected s) s in
      Some (true, set_buffer (_RecvBufferPool s) (u32 (_RecvBuffer_Used s + zlen l)) (_RecvBuffer_Parsed s) s)
    end
  | Lost timeout => Some (false, lost timeout s)
  | Late => Some (false, s)
  end.

Definition in_buffer s : bool := _RecvBuffer_Used s <=? _GetRecvBufferSize s.
Definition GetResponseLength s : option Z :=
  _ ← assert_ (u32 (_ResponseStart s + _RecvBuffer_Removed s) <=? _RecvBuffer_Parsed s);
  Some (u32 (_RecvBuffer_Parsed s - _ResponseStart s - _RecvBuffer_Removed s)).
Definition GetResponseLengthTotal s : Z := u32 (_RecvBuffer_Parsed s - _ResponseStart s).
(** The index of the response in the pool, or a null pointer. *)
Definition GetResponse s : option (option Z) :=
  if _ResponseStart s <? _RecvBuffer_Parsed s
  then _ ← assert_ (_RecvBuffer_Parsed s <=? _GetRecvBufferSize s); Some (Some (at_ s (u32 (_ResponseStart s + _RecvBuffer_Removed s))))
  else Some None.
(** [GetResponseAsString]: nothing for a null pointer. *)
Definition response_bytes s : option (option (list Z)) :=
  p ← GetResponse s; n ← GetResponseLength s;
  match p with None => Some None | Some p => l ← fetch (_RecvBufferPool s) p n; Some (Some l) end.

Definition RemovePartialResponse (sz : Z) s : option (session C) :=
  n ← GetResponseLength s;
  _ ← assert_ (sz <=? n);
  if _RecvBuffer_Used s =? sz then Some s
  else
    p ← mjoin (GetResponse s);
    b ← move (_RecvBufferPool s) p (p + sz) (u32 (_RecvBuffer_Used s - sz - _RecvBuffer_Removed s - _ResponseStart s));
    Some (set_removed (u32 (_RecvBuffer_Removed s + sz)) (set_pool b s)).

Definition ProbeDataCB (fin : bool) s : option (bool * session C) :=
  match m_pDataCallback with
  | Some cb =>
    if m_StateCode (m_ResponseHeader s) / 100 =? 2 then
      data ← response_bytes s;
      let '(c, remove) := cb (cookie s) data (u32 (GetStartPosition (m_ResponseHeader s) + _RecvBuffer_Removed s)) fin in
      let s := set_client (has_event_cb s) c s in
      s ← (if 0 <? remove then RemovePartialResponse remove s else Some s);
      if remove =? -1 then Some (false, tell PNull HTTPCLIENT_EVENT_CANCELLED s) else Some (true, s)
    else Some (true, s)
  | None => Some (true, s)
  end.

(** ** The loops *)

(** [_RecvUntil]: the index of the token, -1 standing for INFINITE. *)
Fixpoint recv_until (es : list event) (tok : list Z) s : option (option Z * session C) :=
  let remain_len := s32 (_RecvBuffer_Used s - _RecvBuffer_Parsed s) in
  found ← (if zlen tok <=? remain_len then find_token (skipn (Z.to_nat (at_ s (_RecvBuffer_Parsed s))) (_RecvBufferPool s)) tok else Some None);
  match found with
  | Some i => let head := u32 (Z.of_nat i + _RecvBuffer_Parsed s) in Some (Some head, set_parsed (u32 (head + zlen tok)) s)
  | None =>
    let s := if zlen tok <=? remain_len then set_parsed (u32 (_RecvBuffer_Used s - zlen tok + 1)) s else s in
    s ← grow s;
    match es with
    | [] => Some (None, CloseSocket s)
    | e :: es =>
      let s := set_plan es s in
      match e with
      | Late => Some (None, tell_timeout s)
      | _ =>
        '(ok, s) ← receive e s;
        if ok : bool then s ← put s (_RecvBuffer_Used s) [0]; recv_until es tok s else Some (None, s)
      end
    end
  end.
Definition _RecvUntil (end_token : list Z) (remove_parsed : bool) s : option (Z * session C) :=
  _ ← assert_ (in_buffer s);
  '(head, s) ← recv_until (plan s) end_token s;
  match head with
  | None => Some (INFINITE, s)
  | Some head =>
    _ ← assert_ (negb (head =? INFINITE));
    '(head, s) ← (if remove_parsed then
      b ← move (_RecvBufferPool s) (at_ s 0) (at_ s head) (u32 (_RecvBuffer_Used s - head));
      Some (0, set_buffer b (u32 (_RecvBuffer_Used s - head)) (u32 (_RecvBuffer_Parsed s - head)) s)
    else Some (head, s));
    _ ← assert_ (in_buffer s);
    Some (head, s)
  end.

Fixpoint recv_up_to (es : list event) (size_byte : Z) s : option (bool * session C) :=
  if _RecvBuffer_Used s <? size_byte then
    match es with
    | [] => s ← grow s; Some (false, CloseSocket s)
    | Late :: es => Some (false, tell_timeout (set_plan es s))
    | e :: es =>
      s ← grow (set_plan es s);
      '(ok, s) ← receive e s;
      if ok : bool then
        let s := set_stage HTTPCLIENT_EVENT_CONTENT_RECEIVING (set_parsed (Z.min (_RecvBuffer_Used s) size_byte) s) in
        '(ok, s) ← (if m_ChunkedTransfer (m_ResponseHeader s) then Some (true, s) else ProbeDataCB false s);
        if ok : bool then
          let '(ok, s) := ask (PNumber (u32 (_RecvBuffer_Used s - _ResponseStart s))) HTTPCLIENT_EVENT_CONTENT_RECEIVING s in
          if ok : bool then recv_up_to es size_byte s else Some (false, s)
        else Some (false, s)
      else Some (false, s)
    end
  else
    s ← put s (_RecvBuffer_Used s) [0];
    _ ← assert_ (_RecvBuffer_Parsed s <=? size_byte);
    _ ← assert_ (in_buffer s);
    Some (true, set_parsed size_byte s).
Definition _RecvUpTo (size_byte : Z) s : option (bool * session C) := _ ← assert_ (in_buffer s); recv_up_to (plan s) size_byte s.

Fixpoint recv_until_close (es : list event) s : option (bool * session C) :=
  let finish s := s ← put s (_RecvBuffer_Used s) [0]; Some (true, s) in
  match es with
  | [] => s ← grow s; finish (CloseSocket s)
  | Late :: es => Some (false, tell_timeout (set_plan es s))
  | e :: es =>
    s ← grow (set_plan es s);
    '(ok, s) ← receive e s;
    if ok : bool then
      let s := set_stage HTTPCLIENT_EVENT_CONTENT_RECEIVING (set_parsed (_RecvBuffer_Used s) s) in
      '(ok, s) ← ProbeDataCB false s;
      if ok : bool then
        let '(ok, s) := ask (PNumber (u32 (_RecvBuffer_Used s - _ResponseStart s))) HTTPCLIENT_EVENT_CONTENT_RECEIVING s in
        if ok : bool then recv_until_close es s else finish s
      else Some (false, s)
    else finish s
  end.
Definition _RecvUntilClose s : option (bool * session C) := _ ← assert_ (in_buffer s); recv_until_close (plan s) s.

(** The content of a chunk whose size line has been taken out, and the line break behind it. *)
Definition chunk_content (chunk_size : Z) s : option (Z * session C) :=
  '(ok, s) ← _RecvUpTo (u32 (u32 (_RecvBuffer_Parsed s + chunk_size) + 2)) s;
  if ok : bool then
    b ← move (_RecvBufferPool s) (at_ s (u32 (_RecvBuffer_Parsed s - 2))) (at_ s (_RecvBuffer_Parsed s)) (u32 (_RecvBuffer_Used s - _RecvBuffer_Parsed s));
    let s := set_buffer b (u32 (_RecvBuffer_Used s - 2)) (u32 (_RecvBuffer_Parsed s - 2)) s in
    '(ok, s) ← ProbeDataCB false s;
    Some (if ok : bool then chunk_size else INFINITE, s)
  else Some (INFINITE, s).
(** [_RecvOneChunk]: the size of the chunk, INFINITE for an error, 0 for the end. *)
Definition _RecvOneChunk s : option (Z * session C) :=
  _ ← assert_ (in_buffer s);
  let head := _RecvBuffer_Parsed s in
  '(tail, s) ← _RecvUntil [13; 10] false s;
  if tail =? INFINITE then Some (0, s)
  else
    s ← put s tail [0];
    line ← fetch (_RecvBufferPool s) (at_ s head) (tail - head);
    s ← put s head (map (fun c => u8 (lower (s8 c))) line);
    line ← c_string (skipn (Z.to_nat (at_ s head)) (_RecvBufferPool s));
    let no_chunk s := _ ← assert_ (in_buffer s); Some (0, s) in
    match scan_x line with
    | Some chunk_size =>
      if chunk_size =? 0 then no_chunk (set_parsed (u32 (_RecvBuffer_Parsed s - 3)) s)
      else
        let tag_len := u32 (tail - head + 2) in
        let used := u32 (_RecvBuffer_Used s - tag_len) in
        b ← move (_RecvBufferPool s) (at_ s head) (at_ s (u32 (tail + 2))) (u32 (used - head));
        let s := set_buffer b used head s in
        chunk_content chunk_size s
    | None => no_chunk s
    end.
(** [while((ret = _RecvOneChunk()))]: whether it ends without an error. *)
Fixpoint chunk_loop (fuel : nat) s : option (bool * session C) :=
  match fuel with
  | O => None
  | S fuel =>
    '(ret, s) ← _RecvOneChunk s;
    if ret =? 0 then Some (true, s) else if ret =? INFINITE then Some (false, s) else chunk_loop fuel s
  end.

(** ** [WaitResponse] *)

Definition protocol_error (stage : Z) s : session C := CloseSocket (set_stage stage (tell PNull HTTPCLIENT_EVENT_PROTOCAL_ERROR s)).
(** [fuel] bounds the number of chunks. *)
Definition receive_body (fuel : nat) (header_len : Z) s : option (bool * session C) :=
  let h := m_ResponseHeader s in
  if m_ChunkedTransfer h then
    '(ok, s) ← chunk_loop fuel s;
    if ok : bool then Some (true, s)
    else Some (false, set_stage HTTPCLIENT_EVENT_HEADER_RECEIVED (tell PNull HTTPCLIENT_EVENT_PROTOCAL_ERROR (CloseSocket s)))
  else if IsContentLengthKnown h then
    let size := u32 (header_len + 2 + m_ContentLength h) in
    '(ok, s) ← _RecvUpTo size s;
    if ok : bool then s ← put s size [0]; Some (true, s)
    else Some (false, protocol_error HTTPCLIENT_EVENT_HEADER_RECEIVED s)
  else if negb (m_ConnectPersisent h) then
    '(ok, s) ← _RecvUntilClose s;
    if ok : bool then Some (true, s) else Some (false, protocol_error HTTPCLIENT_EVENT_PROTOCAL_ERROR s)
  else Some (true, s).

(** The response is there. *)
Definition finish_response s : option (bool * session C) :=
  n ← GetResponseLength s;
  '(_, s) ← (if n =? 0 then Some (true, s) else ProbeDataCB true s);
  let s := set_stage HTTPCLIENT_EVENT_DONE s in
  s ← (if has_event_cb s then n ← GetResponseLength s; Some (tell (PNumber n) HTTPCLIENT_EVENT_DONE s) else Some s);
  Some (true, if m_Keepalive then s else CloseSocket s).
Definition WaitResponse (fuel : nat) s : option (bool * session C) :=
  let s := set_start 0 (set_buffer (_RecvBufferPool s) 0 0 (set_stage HTTPCLIENT_EVENT_START_RECEIVING s)) in
  '(r, s) ← _RecvUntil (str "HTTP/") true s;
  if negb (r =? 0) then Some (false, protocol_error HTTPCLIENT_EVENT_PROTOCAL_ERROR s)
  else
    let s := set_stage HTTPCLIENT_EVENT_FIRSTBYTE (tell PNull HTTPCLIENT_EVENT_FIRSTBYTE s) in
    '(header_len, s) ← _RecvUntil [13; 10; 13; 10] false s;
    if header_len =? INFINITE then Some (false, protocol_error HTTPCLIENT_EVENT_PROTOCAL_ERROR s)
    else
      let header_len := u32 (header_len + 2) in
      tt ← fetch (_RecvBufferPool s) (at_ s header_len) 1;
      s ← put s header_len [0];
      text ← c_string (_RecvBufferPool s);
      h ← ParseHeader (m_ResponseHeader s) text;
      let s := set_header h s in
      let s := set_stage HTTPCLIENT_EVENT_HEADER_RECEIVED (tell (PHeader h) HTTPCLIENT_EVENT_HEADER_RECEIVED s) in
      s ← put s header_len tt;
      let s := set_start (u32 (header_len + 2)) s in
      '(ok, s) ← receive_body fuel header_len s;
      if ok : bool then finish_response s else Some (false, s).

(** A session whose request has been sent: [SendRequest] has reset it. *)
Definition requested (pool : list Z) (events : bool) (c : C) (w : list Z) (p : list event) : session C :=
  mkSession pool 0 0 0 0 w p true events c zero_header 0.
End Session.
