(* ===== verification/HttpSpec.v ===== *)
(** Receiving a response: however the bytes of a response are cut into pieces on their
    way, [WaitResponse] gives the body. *)
From S2P Require Import Prelude Str StrScan StrBuf Macro CondText HttpHead HttpHeadSpec HttpRecv.

Abbreviation zlen l := (Z.of_nat (length l)).

(** ** Looking for a token *)

(** The token is in the text only at its end. *)
Definition only_last (tok x : list Z) : Prop := forall a b, x = a ++ tok ++ b -> b = [].
Definition absent (tok x : list Z) : Prop := forall a b, x <> a ++ tok ++ b.
Definition no_zero (l : list Z) : Prop := Forall (fun c => c <> 0) l.

Lemma is_prefix_refl tok l : is_prefix tok (tok ++ l) = true.
Proof. induction tok as [|c t IH]; [done|]. cbn. by rewrite Z.eqb_refl. Qed.
Lemma prefix_in tok x z : is_prefix tok (x ++ z) = true -> (length tok <= length x)%nat -> exists b, x = tok ++ b.
Proof.
  intros H Hl. apply is_prefix_app in H. exists (skipn (length tok) x). assert (E : firstn (length tok) (x ++ z) = tok) by (rewrite H at 1; by rewrite firstn_app, firstn_all, Nat.sub_diag, firstn_O, app_nil_r).
  rewrite firstn_app in E. replace (length tok - length x)%nat with 0%nat in E by lia. rewrite firstn_O, app_nil_r in E. by rewrite <- E at 1; rewrite firstn_skipn.
Qed.
Lemma strstr_first tok z : tok <> [] -> forall y, no_zero y -> only_last tok (y ++ tok) -> strstr (y ++ tok ++ z) tok = Some (length y).
Proof.
  intros Hne y. induction y as [|c y IH]; intros Hz Ho.
  - cbn [app length]. destruct tok as [|d t]; [done|]. cbn [app strstr]. change (d :: t ++ z) with ((d :: t) ++ z). by rewrite is_prefix_refl.
  - apply Forall_cons in Hz as [Hc Hz]. cbn [app strstr length]. destruct (is_prefix tok (c :: y ++ tok ++ z)) eqn:E.
    + change (c :: y ++ tok ++ z) with ((c :: y) ++ tok ++ z) in E. rewrite app_assoc in E. apply prefix_in in E as [b E]; [|rewrite length_app; lia].
      assert (Hb := Ho [] b E). subst b. rewrite app_nil_r in E. apply (f_equal length) in E. rewrite length_app in E. cbn in E. lia.
    + rewrite (proj2 (Z.eqb_neq _ _)) by done. rewrite IH; [done|done|]. intros a b Eab. apply (Ho (c :: a) b). cbn [app]. by rewrite Eab.
Qed.
Lemma strstr_none tok t : tok <> [] -> no_zero tok -> forall u, absent tok u -> strstr (u ++ 0 :: t) tok = None.
Proof.
  intros Hne Hz u. induction u as [|c u IH]; intros Ha.
  - cbn [app strstr]. destruct tok as [|d tok]; [done|]. apply Forall_cons in Hz as [Hd _]. cbn [is_prefix]. by rewrite (proj2 (Z.eqb_neq _ _)) by done.
  - cbn [app strstr]. destruct (is_prefix tok (c :: u ++ 0 :: t)) eqn:E.
    + exfalso. destruct (decide (length tok <= length (c :: u))%nat) as [Hl|Hl].
      * change (c :: u ++ 0 :: t) with ((c :: u) ++ 0 :: t) in E. apply prefix_in in E as [b E]; [|done]. by apply (Ha [] b).
      * apply is_prefix_app in E. change (c :: u ++ 0 :: t) with ((c :: u) ++ 0 :: t) in E. apply (f_equal (fun l => nth (length (c :: u)) l 1)) in E.
        rewrite app_nth2, Nat.sub_diag in E by lia. cbn [nth] in E. rewrite app_nth1 in E by lia. assert (Hin : In 0 tok) by (rewrite E; apply nth_In; lia). unfold no_zero in Hz. rewrite List.Forall_forall in Hz. by apply (Hz 0 Hin).
    + destruct (c =? 0); [done|]. rewrite IH; [done|]. intros a b Eab. apply (Ha (c :: a) b). cbn [app]. by rewrite Eab.
Qed.
Lemma absent_cut tok x u v : only_last tok x -> x = u ++ v -> v <> [] -> absent tok u.
Proof. intros Ho -> Hv a b ->. rewrite <- !app_assoc in Ho. specialize (Ho a (b ++ v) eq_refl). apply app_eq_nil in Ho as [_ ->]. done. Qed.
Lemma only_last_tail tok x a b : only_last tok x -> x = a ++ b -> only_last tok b.
Proof. intros Ho -> c d ->. apply (Ho (a ++ c) d). by rewrite <- app_assoc. Qed.

Lemma app_cut {A} (a b c d : list A) : a ++ b = c ++ d -> (length a <= length c)%nat -> exists k, c = a ++ k /\ b = k ++ d.
Proof.
  revert c. induction a as [|x a IH]; intros c E Hl; [by exists c|]. destruct c as [|y c]; [cbn in Hl; lia|]. cbn [app] in E. injection E as <- E.
  destruct (IH c E) as (k & -> & ->); [cbn in Hl; lia|]. by exists k.
Qed.

(** ** Receiving *)

Definition limit : Z := 2 ^ 28.
Definition arrives (e : event) : Prop := match e with Got n => 1 <= n | _ => False end.

(** The allocator always has a block. *)
Definition allocates (malloc : Z -> option (list Z)) : Prop := forall n, 0 <= n -> exists b, malloc n = Some b /\ zlen b = n.

(** What a client of a session promises: its event callback does not cancel, and
    its data callback notes the bytes it says to remove, which it has been shown. *)
Class Consumer {C : Type} (on_event : C -> event_param -> Z -> C * bool) (on_data : option (C -> option (list Z) -> Z -> bool -> C * Z)) := {
  taken : C -> list Z;
  taken_event : forall c p e, taken (fst (on_event c p e)) = taken c;
  event_goes_on : forall c p, snd (on_event c p HTTPCLIENT_EVENT_CONTENT_RECEIVING) = true;
  taken_data : forall cb, on_data = Some cb -> forall c d pos fin, let '(c', n) := cb c (Some d) pos fin in 0 <= n <= zlen d /\ taken c' = taken c ++ firstn (Z.to_nat n) d }.

Section Receive.
Context {C : Type} (on_event : C -> event_param -> Z -> C * bool) (on_data : option (C -> option (list Z) -> Z -> bool -> C * Z)) (keep : bool) (malloc : Z -> option (list Z)).
Hypothesis malloc_ok : allocates malloc.

(** [l] is in the buffer, [r] bytes have been removed, [t] is what is behind. *)
Definition sess (l t : list Z) (parsed r rs : Z) (w : list Z) (es : list event) (ev : bool) (c : C) (h : header) (st : Z) : session C :=
  mkSession (l ++ t) (r + zlen l) parsed r rs w es true ev c h st.
Definition roomy (l t : list Z) (r : Z) : Prop := 0 <= r /\ r + zlen l <= limit /\ zlen l + zlen t <= 2 ^ 30.

Lemma roomy_in l t p r rs w es ev c h st : roomy l t r -> in_buffer (sess l t p r rs w es ev c h st) = true.
Proof.
  intros (Hr & Hu & Hp). unfold limit in Hu. unfold in_buffer, _GetRecvBufferSize, sess. cbn [_RecvBuffer_Used _RecvBuffer_Removed _RecvBufferPool]. rewrite length_app, u32_id by lia. apply Z.leb_le. lia.
Qed.
Lemma grow_spec l t parsed r rs w es ev c h st : roomy l t r ->
  exists t', grow malloc (sess l t parsed r rs w es ev c h st) = Some (sess l t' parsed r rs w es ev c h st) /\ roomy l t' r /\ 2 <= zlen t'.
Proof.
  intros (Hr & Hu & Hp). unfold limit in Hu. unfold grow, _GetRecvBufferSize, sess. cbn [_RecvBufferPool _RecvBuffer_Removed _RecvBuffer_Used]. rewrite length_app. rewrite !u32_id by lia.
  destruct (Z.leb_spec (Z.of_nat (length l + length t) + r) (r + zlen l + 1)) as [H|H].
  - unfold _ChangeRecvBufferSize. cbn [_RecvBufferPool _RecvBuffer_Removed _RecvBuffer_Used]. rewrite length_app. unfold RECV_BUFFER_EXTSIZE.
  rewrite (u32_id (r + zlen l + 2048)) by lia.
    rewrite !(s32_small (Z.of_nat (length l + length t))), !(s32_small r), !(s32_small (r + zlen l + 2048)) by lia. rewrite !s32_small by lia.
    set (sz := Z.max _ _). rewrite (u32_id sz) by lia. rewrite (proj2 (Z.leb_gt _ _)) by lia. destruct (malloc_ok sz ltac:(lia)) as (b & -> & Hb).
    destruct (cut_block b 0 (Z.of_nat (length (l ++ t)))) as (a & x & y & -> & Ha & Hx); [lia..|rewrite Hb, length_app; lia|]. destruct a; [|cbn in Ha; lia]. cbn [app] in *.
    rewrite (blit_front x (l ++ t) y) by lia. cbn [mbind option_bind]. exists (t ++ y). rewrite length_app in Hb. rewrite length_app in Hx. split; [unfold set_pool, set_buffer; cbn; by rewrite app_assoc|].
    unfold roomy, limit. rewrite length_app. lia.
  - exists t. split; [done|]. unfold roomy, limit. lia.
Qed.

(** A turn that receives something. *)
Lemma receive_spec l t parsed r rs w es ev c h st n : roomy l t r -> 2 <= zlen t -> 1 <= n -> w <> [] -> r + zlen l + zlen w <= limit ->
  exists a w' t', w = a ++ w' /\ a <> [] /\ receive on_event (Got n) (sess l t parsed r rs w es ev c h st) = Some (true, sess (l ++ a) t' parsed r rs w' es ev c h st) /\
    roomy (l ++ a) t' r /\ 1 <= zlen t'.
Proof.
  intros (Hr & Hu & Hp) Ht Hn Hw Hlim. unfold limit in *. unfold receive, _GetRecvBufferSize, sess. cbn [_RecvBufferPool _RecvBuffer_Removed _RecvBuffer_Used connected wire]. rewrite length_app, (u32_id (Z.of_nat _ + r)) by lia.
  replace (Z.of_nat (length l + length t) + r - (r + zlen l) - 1) with (zlen t - 1) by lia. rewrite u32_id by lia. set (k := Z.to_nat (Z.min n (zlen t - 1))). set (a := firstn k w).
  assert (Hk : (1 <= k)%nat) by lia. assert (Ha : a <> []) by (unfold a; destruct w, k; [done|done|lia|done]).
  assert (Hla : (length a <= k)%nat) by (unfold a; rewrite length_firstn; lia). assert (Hsk : skipn (length a) w = skipn k w).
  { unfold a. rewrite length_firstn. destruct (decide (k <= length w)%nat); [by rewrite Nat.min_l by lia|]. rewrite Nat.min_r by lia. rewrite skipn_all. symmetry. apply skipn_all2. lia. }
  exists a, (skipn k w), (skipn (length a) t). split; [by unfold a; rewrite firstn_skipn|]. split; [done|]. destruct a as [|a0 a'] eqn:Ea; [done|]. rewrite <- Ea in *.
  unfold put, at_. cbn [_RecvBufferPool _RecvBuffer_Removed]. replace (r + zlen l - r) with (zlen l) by lia.
  rewrite <- (firstn_skipn (length a) t) at 1. rewrite (blit_mid l (firstn (length a) t) a) by (done || rewrite length_firstn; lia). cbn [mbind option_bind].
  unfold set_link, set_pool, set_buffer. cbn [_RecvBufferPool _RecvBuffer_Removed _RecvBuffer_Used _RecvBuffer_Parsed _ResponseStart wire plan connected has_event_cb cookie m_ResponseHeader m_LastResponseStage].
  assert (Hlw : (length a <= length w)%nat) by (subst a; rewrite length_firstn; lia). rewrite (u32_id (r + zlen l + zlen a)) by lia. rewrite Hsk. split.
  - do 2 f_equal. rewrite length_app, <- app_assoc. f_equal. lia.
  - unfold roomy, limit. rewrite length_app, length_skipn. lia.
Qed.
Lemma receive_none l t parsed r rs es ev c h st n : roomy l t r -> exists s, receive on_event (Got n) (sess l t parsed r rs [] es ev c h st) = Some (false, s).
Proof. intros _. unfold receive, sess. cbn [connected wire]. rewrite firstn_nil. by eexists. Qed.
(** The zero behind what has been received. *)
Lemma put_end l t parsed r rs w es ev c h st : 1 <= zlen t -> exists t', t = hd 0 t :: t' /\ put (sess l t parsed r rs w es ev c h st) (r + zlen l) [0] = Some (sess l (0 :: t') parsed r rs w es ev c h st).
Proof.
  intros Ht. destruct t as [|b t]; [cbn in Ht; lia|]. exists t. split; [done|]. unfold put, at_, sess. cbn [_RecvBufferPool _RecvBuffer_Removed]. rewrite (blit_one l t b 0) by lia. done.
Qed.

(** *** Up to a token *)

Section Until.
Context (tok : list Z).
Hypotheses (Hne : tok <> []) (Hz : no_zero tok) (Hshort : zlen tok <= 8).

(** What is behind the bytes received does not make a token of them. *)
Definition calm (u t : list Z) : Prop := zlen u < zlen tok \/ exists t1 t2, t = t1 ++ 0 :: t2 /\ (t1 = [] \/ absent tok (u ++ t1)).

Lemma find_token_spec y k t : no_zero y -> only_last tok (y ++ tok) -> find_token (y ++ tok ++ k ++ t) tok = Some (Some (length y)).
Proof. intros Hy Ho. unfold find_token. by rewrite strstr_first. Qed.
Lemma find_token_none u t : absent tok u -> zlen tok <= zlen u -> calm u t -> find_token (u ++ t) tok = Some None.
Proof.
  intros Ha Hl [Hc|(t1 & t2 & -> & Ht)]; [lia|]. unfold find_token. rewrite app_assoc, strstr_none; [|done|done|].
  - rewrite existsb_app. cbn [existsb]. by rewrite Z.eqb_refl, orb_true_r.
  - destruct Ht as [->|Ht]; [by rewrite app_nil_r|done].
Qed.

(** The bytes in front of the token in the buffer; [u] is to be searched. *)
Lemma until_found es p l1 y2 k t r rs w ev c h st : roomy (l1 ++ y2 ++ tok ++ k) t r -> no_zero y2 -> only_last tok (y2 ++ tok) -> p = r + zlen l1 ->
  recv_until on_event malloc es tok (sess (l1 ++ y2 ++ tok ++ k) t p r rs w es ev c h st) =
    Some (Some (r + zlen l1 + zlen y2), sess (l1 ++ y2 ++ tok ++ k) t (r + zlen l1 + zlen y2 + zlen tok) r rs w es ev c h st).
Proof.
  intros (Hr & Hu & Hp) Hy Ho ->. unfold limit in Hu. rewrite !length_app in *.
  assert (E : find_token (skipn (Z.to_nat (r + zlen l1 - r)) ((l1 ++ y2 ++ tok ++ k) ++ t)) tok = Some (Some (length y2))).
  { replace (Z.to_nat _) with (length l1) by lia. rewrite <- !app_assoc, skipn_app, skipn_all, Nat.sub_diag, skipn_O, app_nil_l. by apply find_token_spec. }
  assert (Er : s32 (r + zlen (l1 ++ y2 ++ tok ++ k) - (r + zlen l1)) = zlen y2 + zlen tok + zlen k) by (rewrite !length_app, s32_small; lia).
  destruct es; cbn [recv_until]; unfold at_, sess; cbn [_RecvBuffer_Used _RecvBuffer_Parsed _RecvBuffer_Removed _RecvBufferPool]; rewrite Er, (proj2 (Z.leb_le _ _)), E by lia; cbn [mbind option_bind];
    replace (zlen y2 + (r + zlen l1)) with (r + zlen l1 + zlen y2) by lia; rewrite !u32_id by lia; reflexivity.
Qed.
(** The token is not there yet: another turn. *)
Lemma until_turn es e l1 u t r rs w ev c h st : roomy (l1 ++ u) t r -> absent tok u -> calm u t -> arrives e -> w <> [] -> r + zlen (l1 ++ u) + zlen w <= limit ->
  exists l1' u' a w' t', l1 ++ u = l1' ++ u' /\ zlen l1 <= zlen l1' /\ (zlen l1' + zlen tok <= zlen (l1 ++ u) + 1 \/ l1' = l1) /\ w = a ++ w' /\ a <> [] /\ roomy (l1' ++ u' ++ a) (0 :: t') r /\
  recv_until on_event malloc (e :: es) tok (sess (l1 ++ u) t (r + zlen l1) r rs w (e :: es) ev c h st) =
  recv_until on_event malloc es tok (sess (l1' ++ u' ++ a) (0 :: t') (r + zlen l1') r rs w' es ev c h st).
Proof.
  intros Hroom Ha Hc He Hw Hlim. assert (Hr := Hroom). destruct Hr as (Hr & Hu & Hp). unfold limit in Hu. destruct e as [n| |]; try done. cbn in He.
  set (S := sess (l1 ++ u) t (r + zlen l1) r rs w (Got n :: es) ev c h st).
  assert (Er : s32 (_RecvBuffer_Used S - _RecvBuffer_Parsed S) = zlen u) by (cbn; rewrite length_app in *; rewrite s32_small; lia).
  assert (Es : skipn (Z.to_nat (at_ S (_RecvBuffer_Parsed S))) (_RecvBufferPool S) = u ++ t).
  { unfold at_. cbn. replace (Z.to_nat _) with (length l1) by lia. by rewrite <- app_assoc, skipn_app, skipn_all, Nat.sub_diag, skipn_O, app_nil_l. }
  set (n1 := if zlen tok <=? zlen u then (length (l1 ++ u) - length tok + 1)%nat else length l1).
  assert (Hn1 : zlen l1 <= Z.of_nat n1 <= zlen (l1 ++ u)) by (assert (0 < length tok)%nat by (destruct tok; [done|cbn; lia]); unfold n1; rewrite length_app; destruct (Z.leb_spec (zlen tok) (zlen u)); lia).
  assert (Hlen : length (firstn n1 (l1 ++ u)) = n1) by (rewrite length_firstn; lia).
  cbn [recv_until]. rewrite Er, Es.
  assert (Ef : (if zlen tok <=? zlen u then find_token (u ++ t) tok else Some None) = Some None) by (destruct (Z.leb_spec (zlen tok) (zlen u)); [by apply find_token_none|done]). rewrite Ef. cbn [mbind option_bind].
  assert (Ep : (if zlen tok <=? zlen u then set_parsed (u32 (_RecvBuffer_Used S - zlen tok + 1)) S else S) = sess (l1 ++ u) t (r + Z.of_nat n1) r rs w (Got n :: es) ev c h st).
  { unfold n1. rewrite length_app in *. destruct (Z.leb_spec (zlen tok) (zlen u)); [|done]. unfold S, sess, set_parsed, set_buffer. cbn. rewrite length_app, u32_id by lia. f_equal. lia. }
  rewrite Ep. destruct (grow_spec (l1 ++ u) t (r + Z.of_nat n1) r rs w (Got n :: es) ev c h st Hroom) as (t1 & -> & Hroom1 & Ht1). cbn [mbind option_bind].
  change (set_plan es (sess (l1 ++ u) t1 (r + Z.of_nat n1) r rs w (Got n :: es) ev c h st)) with (sess (l1 ++ u) t1 (r + Z.of_nat n1) r rs w es ev c h st).
  destruct (receive_spec (l1 ++ u) t1 (r + Z.of_nat n1) r rs w es ev c h st n Hroom1 Ht1 He Hw Hlim) as (a & w' & t2 & -> & Hane & -> & Hroom2 & Ht2). cbn [mbind option_bind].
  destruct (put_end ((l1 ++ u) ++ a) t2 (r + Z.of_nat n1) r rs w' es ev c h st Ht2) as (t3 & Et2 & Eput).
  change (_RecvBuffer_Used (sess ((l1 ++ u) ++ a) t2 (r + Z.of_nat n1) r rs w' es ev c h st)) with (r + zlen ((l1 ++ u) ++ a)). rewrite Eput. cbn [mbind option_bind].
  exists (firstn n1 (l1 ++ u)), (skipn n1 (l1 ++ u)), a, w', t3. rewrite app_assoc, firstn_skipn, Hlen. split; [done|]. split; [lia|]. split.
  { unfold n1. destruct (zlen tok <=? zlen u) eqn:El; [left; apply Z.leb_le in El; rewrite length_app in *; lia|right]. by rewrite firstn_app, firstn_all, Nat.sub_diag, firstn_O, app_nil_r. }
  split; [done|]. split; [done|]. split; [|done]. destruct Hroom2 as (H1 & H2 & H3). split; [done|]. split; [done|]. rewrite Et2 in H3. cbn [length] in *. lia.
Qed.

Lemma recv_until_spec : forall es l1 u t r rs w ev c h st p0 y z, roomy (l1 ++ u) t r -> r + zlen (l1 ++ u) + zlen w <= limit -> Forall arrives es -> (length w <= length es)%nat ->
  l1 ++ u ++ w = p0 ++ y ++ tok ++ z -> no_zero y -> only_last tok (y ++ tok) -> zlen p0 <= zlen l1 <= zlen p0 + zlen y ->
  (zlen p0 + zlen y + zlen tok <= zlen (l1 ++ u) \/ calm u t) ->
  exists a w' t' es', w = a ++ w' /\ zlen p0 + zlen y + zlen tok <= zlen ((l1 ++ u) ++ a) /\
    recv_until on_event malloc es tok (sess (l1 ++ u) t (r + zlen l1) r rs w es ev c h st) =
      Some (Some (r + zlen p0 + zlen y), sess ((l1 ++ u) ++ a) t' (r + zlen p0 + zlen y + zlen tok) r rs w' es' ev c h st) /\
    roomy ((l1 ++ u) ++ a) t' r /\ Forall arrives es' /\ (length w' <= length es')%nat /\ (a = [] /\ t' = t \/ exists t'', t' = 0 :: t'').
Proof.
  induction es as [|e es IH]; intros l1 u t r rs w ev c h st p0 y z Hroom Hlim Hes Hw Ew Hy Ho Hl1 Hcalm.
  all: destruct (app_cut l1 (u ++ w) (p0 ++ y) (tok ++ z)) as (y2 & E1 & E2); [by rewrite <- app_assoc|rewrite length_app; lia|].
  all: destruct (app_cut p0 y l1 y2) as (y1 & -> & ->); [done|lia|]; clear E1.
  all: assert (Ho2 : only_last tok (y2 ++ tok)) by (eapply only_last_tail; [exact Ho|by rewrite <- app_assoc]); apply Forall_app in Hy as [Hy1 Hy2].
  all: assert (E3 : u ++ w = (y2 ++ tok) ++ z) by (by rewrite <- app_assoc).
  all: destruct (decide (length (y2 ++ tok) <= length u)%nat) as [Hin|Hout].
  1,3: destruct (app_cut (y2 ++ tok) z u w) as (k & Eu & _); [done|done|]; rewrite <- app_assoc in Eu; subst u;
       exists [], w, t; eexists; split; [done|]; rewrite app_nil_r; split; [rewrite !length_app in *; lia|]; split;
       [rewrite until_found by done; replace (r + zlen (p0 ++ y1) + zlen y2) with (r + zlen p0 + zlen (y1 ++ y2)) by (rewrite !length_app; lia); reflexivity|split; [done|split; [exact Hes|split; [done|by left]]]].
  - destruct w; [|cbn in Hw; lia]. rewrite app_nil_r in E3. subst u. rewrite (length_app _ z) in Hout. lia.
  - destruct Hcalm as [Hc|Hcalm]; [rewrite !length_app in *; lia|].
    destruct (app_cut u w (y2 ++ tok) z E3) as (k & Ek & Ew'); [lia|]. assert (Hk : k <> []) by (intros ->; rewrite app_nil_r in Ek; rewrite Ek in Hout; lia).
    assert (Hwne : w <> []) by (rewrite Ew'; destruct k; done). apply Forall_cons in Hes as [He Hes].
    destruct (until_turn es e (p0 ++ y1) u t r rs w ev c h st Hroom (absent_cut tok _ u k Ho2 Ek Hk) Hcalm He Hwne Hlim) as (l1' & u' & a & w' & t' & El & Hle & Hcase & Hw' & Hane & Hroom' & ->).
    rewrite Hw' in Hlim. assert (Hw2 := Hw). rewrite Hw', length_app in Hw2.
    destruct (IH l1' (u' ++ a) (0 :: t') r rs w' ev c h st p0 (y1 ++ y2) z) as (b & w'' & t'' & es' & Eb & Hlen & E & Hroom2 & Hes' & Hw3 & Ht2); try done.
    + assert (Ell := f_equal length El). rewrite !length_app in *. lia.
    + assert (0 < length a)%nat by (destruct a; [done|cbn; lia]). cbn in Hw2. lia.
    + rewrite <- app_assoc. rewrite <- Hw', app_assoc, <- El, <- app_assoc, E2. by rewrite <- !app_assoc.
    + by apply Forall_app.
    + rewrite !length_app in *. destruct Hcase as [Hcase | ->]; [|rewrite length_app; lia]. lia.
    + right. right. exists [], t'. split; [done|by left].
    + exists (a ++ b), w'', t'', es'. rewrite El. rewrite <- !app_assoc in *. split; [by rewrite Hw', Eb|]. split; [exact Hlen|]. split; [exact E|]. split; [exact Hroom2|]. split; [done|]. split; [done|].
      destruct Ht2 as [[-> ->]|Ht2]; [right; by exists t'|by right].
Qed.
End Until.

Lemma RecvUntil_spec tok l1 u t r rs w es ev c h st p0 y z : tok <> [] -> no_zero tok -> zlen tok <= 8 -> roomy (l1 ++ u) t r -> r + zlen (l1 ++ u) + zlen w <= limit -> Forall arrives es -> (length w <= length es)%nat ->
  l1 ++ u ++ w = p0 ++ y ++ tok ++ z -> no_zero y -> only_last tok (y ++ tok) -> zlen p0 <= zlen l1 <= zlen p0 + zlen y ->
  (zlen p0 + zlen y + zlen tok <= zlen (l1 ++ u) \/ calm tok u t) ->
  exists a w' t' es', w = a ++ w' /\ zlen p0 + zlen y + zlen tok <= zlen ((l1 ++ u) ++ a) /\
    _RecvUntil on_event malloc tok false (sess (l1 ++ u) t (r + zlen l1) r rs w es ev c h st) =
      Some (r + zlen p0 + zlen y, sess ((l1 ++ u) ++ a) t' (r + zlen p0 + zlen y + zlen tok) r rs w' es' ev c h st) /\
    roomy ((l1 ++ u) ++ a) t' r /\ Forall arrives es' /\ (length w' <= length es')%nat /\ (a = [] /\ t' = t \/ exists t'', t' = 0 :: t'').
Proof.
  intros H1 H2 H3 H4 H5 H6 H7 H8 H9 H10 H11 H12. destruct (recv_until_spec tok H1 H2 H3 es l1 u t r rs w ev c h st p0 y z H4 H5 H6 H7 H8 H9 H10 H11 H12) as (a & w' & t' & es' & Ea & Hl & E & Hrest).
  exists a, w', t', es'. split; [done|]. split; [done|]. split; [|done]. unfold _RecvUntil. rewrite (roomy_in _ _ _ _ _ _ _ _ _ _ _ H4). cbn [assert_ mbind option_bind].
  change (plan (sess (l1 ++ u) t (r + zlen l1) r rs w es ev c h st)) with es. rewrite E. cbn [mbind option_bind]. assert (Hend := proj1 (proj2 (proj1 Hrest))). unfold limit in Hend. assert (Hr := proj1 (proj1 Hrest)).
  rewrite (proj2 (Z.eqb_neq _ INFINITE)) by (unfold INFINITE; lia). cbn [negb assert_ mbind option_bind]. by rewrite (roomy_in _ _ _ _ _ _ _ _ _ _ _ (proj1 Hrest)).
Qed.

(** The content in the buffer. *)
Lemma response_at hd bp t p r rs w es ev c h st : roomy (hd ++ bp) t r -> 0 < rs < p -> p <= r + zlen (hd ++ bp) + zlen t -> rs + r <= 2 ^ 31 -> GetResponse (sess (hd ++ bp) t p r rs w es ev c h st) = Some (Some rs).
Proof.
  intros (Hr & Hu & Hp) Hrs Hpr Hs. unfold limit in Hu. unfold GetResponse, _GetRecvBufferSize, at_, sess. cbn [_ResponseStart _RecvBuffer_Parsed _RecvBuffer_Removed _RecvBufferPool].
  rewrite (proj2 (Z.ltb_lt _ _)) by lia. rewrite length_app, (u32_id (Z.of_nat _ + r)), (proj2 (Z.leb_le _ _)) by lia. cbn [assert_ mbind option_bind]. rewrite u32_id by lia. do 2 f_equal. lia.
Qed.
Lemma response_length hd bp t p r rs w es ev c h st : roomy (hd ++ bp) t r -> 0 <= rs -> rs + r <= p -> p <= rs + r + zlen bp -> rs = zlen hd -> GetResponseLength (sess (hd ++ bp) t p r rs w es ev c h st) = Some (p - rs - r).
Proof.
  intros (Hr & Hu & Hp) Hrs Hpr Hpb ->. unfold limit in Hu. rewrite length_app in *. unfold GetResponseLength, sess. cbn [_ResponseStart _RecvBuffer_Parsed _RecvBuffer_Removed].
  rewrite (u32_id (zlen hd + r)), (proj2 (Z.leb_le _ _)) by lia. cbn [assert_ mbind option_bind]. rewrite u32_id by lia. done.
Qed.

(** *** Up to a size, and the callbacks *)

Section Callbacks.
Context {client : Consumer on_event on_data}.

Lemma probe_spec hd bp t p r rs w es ev c h st fin : roomy (hd ++ bp) t r -> zlen hd = rs -> 0 < rs < p -> rs + r <= p -> p <= rs + r + zlen bp ->
  exists c' n t', 0 <= n <= p - rs - r /\ ProbeDataCB on_event on_data fin (sess (hd ++ bp) t p r rs w es ev c h st) = Some (true, sess (hd ++ skipn (Z.to_nat n) bp) (t' ++ t) p (r + n) rs w es ev c' h st) /\
    taken c' = taken c ++ firstn (Z.to_nat n) bp /\ zlen t' = n.
Proof.
  intros (Hr & Hu & Hp) Hh Hp1 Hp2 Hp3. unfold limit in Hu. rewrite length_app in Hu, Hp.
  assert (Hnone : exists c' n t', 0 <= n <= p - rs - r /\ Some (true, sess (hd ++ bp) t p r rs w es ev c h st) = Some (true, sess (hd ++ skipn (Z.to_nat n) bp) (t' ++ t) p (r + n) rs w es ev c' h st) /\
    taken c' = taken c ++ firstn (Z.to_nat n) bp /\ zlen t' = n).
  { exists c, 0, []. split; [lia|]. cbn. rewrite Z.add_0_r, app_nil_r. done. }
  unfold ProbeDataCB. destruct on_data as [cb|] eqn:Ecb; [|exact Hnone]. set (S := sess (hd ++ bp) t p r rs w es ev c h st) in *. destruct (m_StateCode (m_ResponseHeader S) / 100 =? 2); [|exact Hnone].
  assert (Hroom : roomy (hd ++ bp) t r) by (unfold roomy, limit; rewrite length_app; lia).
  assert (Eg := response_at hd bp t p r rs w es ev c h st Hroom ltac:(lia) ltac:(rewrite length_app; lia) ltac:(lia)). fold S in Eg.
  assert (El := response_length hd bp t p r rs w es ev c h st Hroom ltac:(lia) ltac:(lia) Hp3 (eq_sym Hh)). fold S in El.
  unfold response_bytes. rewrite Eg, El. cbn [_RecvBufferPool S sess mbind option_bind].
  set (k := Z.to_nat (p - rs - r)). assert (Ef : fetch ((hd ++ bp) ++ t) rs (p - rs - r) = Some (firstn k bp)).
  { rewrite <- (firstn_skipn k bp) at 1. rewrite <- !app_assoc. apply fetch_mid; [done|]. rewrite length_firstn. lia. }
  rewrite Ef. cbn [mbind option_bind]. assert (Hd := taken_data cb eq_refl (cookie S) (firstn k bp) (u32 (GetStartPosition (m_ResponseHeader S) + _RecvBuffer_Removed S)) fin).
  destruct (cb (cookie S) (Some (firstn k bp)) _ fin) as [c' n]. destruct Hd as [Hn Ht]. rewrite length_firstn in Hn. rewrite firstn_firstn in Ht. replace (Init.Nat.min (Z.to_nat n) k) with (Z.to_nat n) in Ht by lia.
  exists c', n. destruct (Z.ltb_spec 0 n) as [Hpos|Hpos].
  - assert (Hbp : length bp = (Z.to_nat n + length (skipn (Z.to_nat n) bp))%nat) by (rewrite length_skipn; lia).
    assert (Emv : move ((hd ++ bp) ++ t) rs (rs + n) (zlen bp - n) = Some (hd ++ skipn (Z.to_nat n) bp ++ skipn (length bp - Z.to_nat n) bp ++ t)).
    { unfold move. assert (Ef2 : fetch ((hd ++ bp) ++ t) (rs + n) (zlen bp - n) = Some (skipn (Z.to_nat n) bp)).
      { replace ((hd ++ bp) ++ t) with ((hd ++ firstn (Z.to_nat n) bp) ++ skipn (Z.to_nat n) bp ++ t) by (by rewrite (app_assoc (hd ++ _)), <- (app_assoc hd), firstn_skipn). apply fetch_mid; [rewrite length_app, length_firstn; lia|lia]. }
      rewrite Ef2. cbn [mbind option_bind]. rewrite <- (firstn_skipn (length bp - Z.to_nat n) bp) at 1. rewrite <- !app_assoc. apply blit_mid; [done|]. rewrite length_firstn, length_skipn. lia. }
    eexists (skipn (length bp - Z.to_nat n) bp). split; [lia|]. split; [|split; [done|rewrite length_skipn; lia]].
    assert (Erem : RemovePartialResponse n (set_client (has_event_cb S) c' S) = Some (sess (hd ++ skipn (Z.to_nat n) bp) (skipn (length bp - Z.to_nat n) bp ++ t) p (r + n) rs w es ev c' h st)).
    { unfold RemovePartialResponse. change (GetResponseLength (set_client (has_event_cb S) c' S)) with (GetResponseLength S). rewrite El. cbn [mbind option_bind]. rewrite (proj2 (Z.leb_le n _)) by lia. cbn [assert_ mbind option_bind].
      change (_RecvBuffer_Used (set_client (has_event_cb S) c' S)) with (r + zlen (hd ++ bp)). rewrite (proj2 (Z.eqb_neq _ _)) by (rewrite length_app; lia).
      change (GetResponse (set_client (has_event_cb S) c' S)) with (GetResponse S). rewrite Eg. cbn [mjoin option_join mbind option_bind].
      change (_RecvBuffer_Removed (set_client (has_event_cb S) c' S)) with r. change (_ResponseStart (set_client (has_event_cb S) c' S)) with rs. change (_RecvBufferPool (set_client (has_event_cb S) c' S)) with ((hd ++ bp) ++ t).
      replace (r + zlen (hd ++ bp) - n - r - rs) with (zlen bp - n) by (rewrite length_app; lia). rewrite (u32_id (zlen bp - n)) by lia. rewrite Emv. cbn [mbind option_bind].
      rewrite (u32_id (r + n)) by lia. unfold set_removed, set_pool, set_buffer, sess. rewrite <- !app_assoc. replace (r + n + zlen (hd ++ skipn (Z.to_nat n) bp)) with (r + zlen (hd ++ bp)) by (rewrite !length_app; lia). done. }
    rewrite Erem. cbn [mbind option_bind]. by rewrite (proj2 (Z.eqb_neq n _)) by lia.
  - assert (n = 0) by lia. subst n. exists []. split; [lia|]. split; [|done]. cbn. by rewrite Z.add_0_r.
Qed.

Lemma ask_spec c' l t p r rs w es ev c h st n : taken c = c' -> exists c2, ask on_event (PNumber n) HTTPCLIENT_EVENT_CONTENT_RECEIVING (sess l t p r rs w es ev c h st) = (true, sess l t p r rs w es ev c2 h st) /\ taken c2 = c'.
Proof.
  intros <-. unfold ask. cbn [has_event_cb sess cookie]. destruct ev; [|by exists c]. assert (H1 := taken_event c (PNumber n) HTTPCLIENT_EVENT_CONTENT_RECEIVING). assert (H2 := event_goes_on c (PNumber n)).
  change (cookie (sess l t p r rs w es true c h st)) with c. destruct (on_event c (PNumber n) HTTPCLIENT_EVENT_CONTENT_RECEIVING) as [c2 ok]. cbn in H1, H2. subst ok. exists c2. by split.
Qed.

(** All the bytes: taken, in the buffer behind the header, and to come. *)
Definition all_bytes (c : C) (bp w : list Z) : list Z := taken c ++ bp ++ w.

(** One turn of the content. *)
Lemma up_to_turn size hd rs ev h n es bp t p r w c st : roomy (hd ++ bp) t r -> zlen hd = rs -> 0 < rs -> r + zlen (hd ++ bp) < size -> rs + r <= size -> size <= limit -> m_ChunkedTransfer h = false ->
  r + zlen (hd ++ bp) + zlen w <= limit -> 1 <= n -> w <> [] -> zlen (taken c) = r ->
  exists bp' t' p' r' w' c' st', recv_up_to on_event on_data malloc (Got n :: es) size (sess (hd ++ bp) t p r rs w (Got n :: es) ev c h st) =
      recv_up_to on_event on_data malloc es size (sess (hd ++ bp') t' p' r' rs w' es ev c' h st') /\
    roomy (hd ++ bp') t' r' /\ 1 <= zlen t' /\ zlen (taken c') = r' /\ all_bytes c' bp' w' = all_bytes c bp w /\ (length w' < length w)%nat /\ rs + r' <= size /\ p' <= size.
Proof.
  intros Hroom Hh Hrs Hlt Hsz Hsl Hc Hlim Hn Hw Ht. cbn [recv_up_to]. change (_RecvBuffer_Used (sess (hd ++ bp) t p r rs w (Got n :: es) ev c h st)) with (r + zlen (hd ++ bp)). rewrite (proj2 (Z.ltb_lt _ _)) by lia.
  change (set_plan es (sess (hd ++ bp) t p r rs w (Got n :: es) ev c h st)) with (sess (hd ++ bp) t p r rs w es ev c h st).
  destruct (grow_spec (hd ++ bp) t p r rs w es ev c h st Hroom) as (t1 & -> & Hroom1 & Ht1). cbn [mbind option_bind].
  destruct (receive_spec (hd ++ bp) t1 p r rs w es ev c h st n Hroom1 Ht1 Hn Hw Hlim) as (a & w' & t2 & Ew & Ha & -> & Hroom2 & Ht2). cbn [mbind option_bind].
  change (_RecvBuffer_Used (sess ((hd ++ bp) ++ a) t2 p r rs w' es ev c h st)) with (r + zlen ((hd ++ bp) ++ a)). set (p' := Z.min (r + zlen ((hd ++ bp) ++ a)) size).
  change (set_stage HTTPCLIENT_EVENT_CONTENT_RECEIVING (set_parsed p' (sess ((hd ++ bp) ++ a) t2 p r rs w' es ev c h st))) with (sess ((hd ++ bp) ++ a) t2 p' r rs w' es ev c h HTTPCLIENT_EVENT_CONTENT_RECEIVING).
  change (m_ChunkedTransfer (m_ResponseHeader (sess ((hd ++ bp) ++ a) t2 p' r rs w' es ev c h HTTPCLIENT_EVENT_CONTENT_RECEIVING))) with (m_ChunkedTransfer h). rewrite Hc. rewrite <- app_assoc in *.
  assert (Hal : (0 < length a)%nat) by (destruct a; [done|cbn; lia]). assert (Hr0 : 0 <= r) by apply Hroom.
  destruct (probe_spec hd (bp ++ a) t2 p' r rs w' es ev c h HTTPCLIENT_EVENT_CONTENT_RECEIVING false Hroom2 Hh) as (c1 & k & t3 & Hk & -> & Htk & Ht3); [unfold p'; rewrite !length_app in *; lia..|]. cbn [mbind option_bind].
  destruct (ask_spec (taken c1) (hd ++ skipn (Z.to_nat k) (bp ++ a)) (t3 ++ t2) p' (r + k) rs w' es ev c1 h HTTPCLIENT_EVENT_CONTENT_RECEIVING (u32 (_RecvBuffer_Used (sess (hd ++ skipn (Z.to_nat k) (bp ++ a)) (t3 ++ t2) p' (r + k) rs w' es ev c1 h HTTPCLIENT_EVENT_CONTENT_RECEIVING) - _ResponseStart (sess (hd ++ skipn (Z.to_nat k) (bp ++ a)) (t3 ++ t2) p' (r + k) rs w' es ev c1 h HTTPCLIENT_EVENT_CONTENT_RECEIVING))) eq_refl) as (c2 & -> & Htk2).
  eexists _, _, _, _, w', c2, _. split; [reflexivity|]. destruct Hroom2 as (H1 & H2 & H3). assert (Hkl : k <= zlen (bp ++ a)) by (unfold p' in Hk; rewrite !length_app in *; lia).
  assert (Hbl : zlen (skipn (Z.to_nat k) (bp ++ a)) = zlen (bp ++ a) - k) by (rewrite length_skipn; lia).
  split; [unfold roomy; rewrite !length_app in *; lia|]. split; [rewrite length_app; lia|]. split; [rewrite Htk2, Htk, length_app, length_firstn; lia|]. split.
  - unfold all_bytes. rewrite Htk2, Htk, Ew, <- !app_assoc. f_equal. by rewrite (app_assoc (firstn _ _)), firstn_skipn, <- app_assoc.
  - split; [rewrite Ew, length_app; lia|]. unfold p' in *. lia.
Qed.

Lemma parsed_sess l t p r rs w es ev c h st : _RecvBuffer_Parsed (sess l t p r rs w es ev c h st) = p.
Proof. done. Qed.
Lemma used_sess l t p r rs w es ev c h st : _RecvBuffer_Used (sess l t p r rs w es ev c h st) = r + zlen l.
Proof. done. Qed.
(** Enough is there. *)
Lemma up_to_done size hd rs ev h es bp t p r w c st : p <= size -> zlen hd = rs -> roomy (hd ++ bp) t r -> 1 <= zlen t -> size <= r + zlen (hd ++ bp) -> rs + r <= size -> zlen (taken c) = r ->
  exists bp' t' r' w' es' c' st', recv_up_to on_event on_data malloc es size (sess (hd ++ bp) t p r rs w es ev c h st) = Some (true, sess (hd ++ bp') (0 :: t') size r' rs w' es' ev c' h st') /\
    roomy (hd ++ bp') (0 :: t') r' /\ zlen (taken c') = r' /\ all_bytes c' bp' w' = all_bytes c bp w /\ rs + r' <= size <= rs + r' + zlen bp'.
Proof.
  intros Hps Hh (H1 & H2 & H3) Ht Hge Hsz Htk. destruct (put_end (hd ++ bp) t p r rs w es ev c h st Ht) as (t2 & Et2 & Ep).
  assert (Hin : roomy (hd ++ bp) (0 :: t2) r) by (rewrite Et2 in H3; done).
  exists bp, t2, r, w, es, c, st. split; [|split; [split; [done|split; [done|rewrite Et2 in H3; exact H3]]|split; [done|split; [done|rewrite !length_app in *; lia]]]].
  destruct es; cbn [recv_up_to]; rewrite (used_sess (hd ++ bp)), (proj2 (Z.ltb_ge _ _)), Ep by lia; cbn [mbind option_bind]; rewrite (roomy_in _ _ _ _ _ _ _ _ _ _ _ Hin); by rewrite (parsed_sess (hd ++ bp)), (proj2 (Z.leb_le p size)).
Qed.
Lemma up_to_spec size hd rs ev h : zlen hd = rs -> 0 < rs -> size <= limit -> m_ChunkedTransfer h = false -> forall es bp t p r w c st,
  p <= size -> roomy (hd ++ bp) t r -> 1 <= zlen t -> rs + r <= size -> r + zlen (hd ++ bp) + zlen w <= limit -> Forall arrives es -> (length w <= length es)%nat -> zlen (taken c) = r ->
  if size <=? rs + zlen (all_bytes c bp w) then
    exists bp' t' r' w' es' c' st', recv_up_to on_event on_data malloc es size (sess (hd ++ bp) t p r rs w es ev c h st) = Some (true, sess (hd ++ bp') (0 :: t') size r' rs w' es' ev c' h st') /\
      roomy (hd ++ bp') (0 :: t') r' /\ zlen (taken c') = r' /\ all_bytes c' bp' w' = all_bytes c bp w /\ rs + r' <= size <= rs + r' + zlen bp'
  else exists s, recv_up_to on_event on_data malloc es size (sess (hd ++ bp) t p r rs w es ev c h st) = Some (false, s).
Proof.
  intros Hh Hrs Hsl Hc. induction es as [|e es IH]; intros bp t p r w c st Hps Hroom Ht Hsz Hlim Hes Hw Htk.
  all: destruct (Z.ltb_spec (r + zlen (hd ++ bp)) size) as [Hlt|Hge].
  2,4: rewrite (proj2 (Z.leb_le _ _)) by (unfold all_bytes; rewrite !length_app in *; lia); by apply up_to_done.
  - destruct w; [|cbn in Hw; lia]. rewrite (proj2 (Z.leb_gt _ _)) by (unfold all_bytes; rewrite app_nil_r, !length_app in *; lia).
    cbn [recv_up_to]. rewrite (used_sess (hd ++ bp)), (proj2 (Z.ltb_lt _ _)) by lia. destruct (grow_spec (hd ++ bp) t p r rs [] [] ev c h st Hroom) as (t1 & -> & _). cbn [mbind option_bind]. by eexists.
  - apply Forall_cons in Hes as [He Hes]. destruct e as [n| |]; try done. cbn in He. destruct (decide (w = [])) as [->|Hwne].
    + rewrite (proj2 (Z.leb_gt _ _)) by (unfold all_bytes; rewrite app_nil_r, !length_app in *; lia).
      cbn [recv_up_to]. rewrite (used_sess (hd ++ bp)), (proj2 (Z.ltb_lt _ _)) by lia.
      change (set_plan es (sess (hd ++ bp) t p r rs [] (Got n :: es) ev c h st)) with (sess (hd ++ bp) t p r rs [] es ev c h st).
      destruct (grow_spec (hd ++ bp) t p r rs [] es ev c h st Hroom) as (t1 & -> & Hroom1 & _). cbn [mbind option_bind].
      destruct (receive_none (hd ++ bp) t1 p r rs es ev c h st n Hroom1) as (s & ->). cbn [mbind option_bind]. by eexists.
    + destruct (up_to_turn size hd rs ev h n es bp t p r w c st Hroom Hh Hrs Hlt Hsz Hsl Hc Hlim He Hwne Htk) as (bp' & t' & p' & r' & w' & c' & st' & -> & Hroom' & Ht' & Htk' & Eall & Hw' & Hsz' & Hps').
      rewrite <- Eall. assert (Hlen := f_equal length Eall). unfold all_bytes in Hlen. rewrite !length_app in Hlen. apply IH; try done; [rewrite !length_app in *; lia|cbn in Hw; lia].
Qed.
End Callbacks.

(** *** Chunks *)

Lemma move_left (a x y t : list Z) i j n : i = zlen a -> j = zlen a + zlen x -> n = zlen y -> move (a ++ x ++ y ++ t) i j n = Some (a ++ y ++ skipn (length y) (x ++ y) ++ t).
Proof.
  intros -> -> ->. unfold move. assert (E1 : fetch (a ++ x ++ y ++ t) (zlen a + zlen x) (zlen y) = Some y) by (rewrite (app_assoc a x); apply fetch_mid; rewrite ?length_app; lia). rewrite E1. cbn [mbind option_bind].
  assert (E2 : a ++ x ++ y ++ t = a ++ firstn (length y) (x ++ y) ++ skipn (length y) (x ++ y) ++ t) by (by rewrite (app_assoc (firstn _ _)), firstn_skipn, <- app_assoc).
  rewrite E2. apply blit_mid; [done|]. rewrite length_firstn, length_app. lia.
Qed.
Lemma put_mid a x y b t i p r rs w es ev c h st : i = r + zlen a -> length x = length y -> put (sess (a ++ x ++ b) t p r rs w es ev c h st) i y = Some (sess (a ++ y ++ b) t p r rs w es ev c h st).
Proof.
  intros -> Hl. unfold put, at_, sess. cbn [_RecvBufferPool _RecvBuffer_Removed]. replace ((a ++ x ++ b) ++ t) with (a ++ x ++ b ++ t) by (by rewrite <- !app_assoc).
  rewrite (blit_mid a x y) by (done || lia). cbn [mbind option_bind]. unfold set_pool, set_buffer. cbn. replace ((a ++ y ++ b) ++ t) with (a ++ y ++ b ++ t) by (by rewrite <- !app_assoc). by rewrite !length_app, Hl.
Qed.
Lemma c_string_app l t : no_zero l -> c_string (l ++ 0 :: t) = Some l.
Proof. induction 1 as [|x l Hx _ IH]; [done|]. cbn [app c_string]. rewrite (proj2 (Z.eqb_neq _ _)), IH by done. done. Qed.

(** The line in front of a chunk of [n] bytes; more may follow the number. *)
Definition size_line (hx : list Z) (n : Z) : Prop := Forall value_char hx /\ scan_x (map lower hx) = Some n.

Lemma value_zero l : Forall value_char l -> no_zero l.
Proof. intros H. eapply Forall_impl; [exact H|]. unfold value_char. intros; lia. Qed.
Lemma lower_value l : Forall value_char l -> map (fun c => u8 (lower (s8 c))) l = map lower l /\ Forall value_char (map lower l).
Proof.
  intros H. split.
  - apply map_ext_Forall. eapply Forall_impl; [exact H|]. intros c Hc. cbn beta. unfold value_char in Hc. unfold lower. change (chr "A") with 65. change (chr "Z") with 90. destruct (decide (c < 128)).
    + assert (E : s8 c = c) by (unwrap; rewrite Z.mod_small; lia). rewrite E. apply u8_id. unfold in_width. destruct (_ && _) eqn:Eb; lia.
    + assert (E : s8 c = c - 256) by (unwrap; rewrite <- (Z.mod_unique (c + 128) 256 1 (c - 128)) by lia; lia). rewrite E, !(proj2 (Z.leb_gt 65 _)), (proj2 (Z.leb_gt c 90)), andb_false_r by lia. cbn [andb]. unwrap. zlia.
  - rewrite Forall_map. eapply Forall_impl; [exact H|]. unfold value_char, lower. change (chr "A") with 65. change (chr "Z") with 90. intros c Hc. destruct (_ && _) eqn:Eb; lia.
Qed.
Lemma crlf_only_last l : Forall value_char l -> only_last crlf_ (l ++ crlf_).
Proof.
  intros Hl a b E. assert (Hlen := f_equal length E). rewrite !length_app in Hlen. cbn [crlf_ length] in Hlen. destruct b as [|d b]; [done|exfalso]. cbn [length] in Hlen.
  apply (f_equal (fun l => nth (S (length a)) l 0)) in E. rewrite (app_nth2 a), (Nat.sub_succ_l _ _ (le_n _)), Nat.sub_diag in E by lia. cbn in E.
  destruct (decide (S (length a) < length l)%nat) as [H|H].
  - rewrite app_nth1 in E by lia. assert (Hin : In 10 l) by (rewrite <- E; by apply nth_In). rewrite List.Forall_forall in Hl. specialize (Hl 10 Hin). unfold value_char in Hl. lia.
  - rewrite app_nth2 in E by lia. replace (S (length a) - length l)%nat with 0%nat in E by lia. done.
Qed.
Lemma crlf_absent u : Forall (fun c => c <> 10) u -> absent crlf_ u.
Proof. intros H a b ->. apply Forall_app in H as [_ H]. apply Forall_app in H as [H _]. apply Forall_cons in H as [_ H]. by apply Forall_cons in H as [H _]. Qed.

(** What is behind the bytes received after a chunk: the last two of them, with the
    line break taken out. *)
Definition shifted (u t : list Z) : Prop := exists t2, t = skipn (length u) (crlf_ ++ u) ++ 0 :: t2.
Definition ready (u t : list Z) : Prop := shifted u t \/ exists t2, t = 0 :: t2.
Lemma ready_calm u t k hx : ready u t -> hx ++ crlf_ = u ++ k -> k <> [] -> Forall value_char hx -> calm crlf_ u t.
Proof.
  intros Hr E Hk Hx. destruct Hr as [(t2 & ->)|(t2 & ->)]; [|right; exists [], t2; split; [done|by left]].
  destruct (decide (length u < 2)%nat) as [Hu|Hu]; [left; cbn; lia|]. right. eexists _, t2. split; [reflexivity|]. right. apply crlf_absent.
  assert (H10 : Forall (fun c => c <> 10) u).
  { destruct k as [|d k _] using rev_ind; [done|]. rewrite app_assoc in E. change crlf_ with ([13] ++ [10]) in E. rewrite app_assoc in E. apply app_inj_tail in E as [E _].
    assert (H : Forall (fun c => c <> 10) (hx ++ [13])) by (apply Forall_app; split; [eapply Forall_impl; [exact Hx|unfold value_char; intros; lia]|by repeat constructor]).
    rewrite E in H. by apply Forall_app in H as [H _]. }
  apply Forall_app. split; [done|]. rewrite skipn_app. apply Forall_app. split; [rewrite skipn_all2 by (cbn; lia); constructor|]. apply Forall_drop. exact H10.
Qed.

Section Chunks.
(** The callbacks neither cancel nor remove anything. *)
Context {client : Consumer on_event on_data}.
Hypothesis data_kept : forall c, taken c = [].

Lemma probe_kept hd bp t p rs w es ev c h st fin : roomy (hd ++ bp) t 0 -> zlen hd = rs -> 0 < rs < p -> p <= rs + zlen bp ->
  exists c', ProbeDataCB on_event on_data fin (sess (hd ++ bp) t p 0 rs w es ev c h st) = Some (true, sess (hd ++ bp) t p 0 rs w es ev c' h st).
Proof.
  intros H1 H2 H3 H4. destruct (probe_spec hd bp t p 0 rs w es ev c h st fin H1 H2 H3) as (c' & n & t' & Hn & E & Ht & Hl); [lia..|].
  rewrite !data_kept in Ht. assert (Hn0 : n = 0) by (destruct (decide (n = 0)) as [|Hne]; [done|]; apply (f_equal length) in Ht; rewrite length_app, length_firstn in Ht; cbn in Ht; lia). rewrite Hn0 in *. destruct t'; [|cbn in Hl; lia]. exists c'. exact E.
Qed.
Lemma ask_goes_on l t p r rs w es ev c h st n : exists c2, ask on_event (PNumber n) HTTPCLIENT_EVENT_CONTENT_RECEIVING (sess l t p r rs w es ev c h st) = (true, sess l t p r rs w es ev c2 h st).
Proof. destruct (ask_spec (taken c) l t p r rs w es ev c h st n eq_refl) as (c2 & E & _). by exists c2. Qed.

(** Filling the buffer for a chunk. *)
Lemma up_to_chunk_done size rs ev h es l t p r w c st : p <= size -> roomy l t r -> 1 <= zlen t -> size <= r + zlen l -> Forall arrives es -> (length w <= length es)%nat ->
  exists a t' w' es' c' st', w = a ++ w' /\ recv_up_to on_event on_data malloc es size (sess l t p r rs w es ev c h st) = Some (true, sess (l ++ a) (0 :: t') size r rs w' es' ev c' h st') /\
    roomy (l ++ a) (0 :: t') r /\ size <= r + zlen (l ++ a) /\ Forall arrives es' /\ (length w' <= length es')%nat.
Proof.
  intros Hps (H1 & H2 & H3) Ht Hge Hes Hw. destruct (put_end l t p r rs w es ev c h st Ht) as (t2 & Et2 & Ep). assert (Hin : roomy l (0 :: t2) r) by (rewrite Et2 in H3; done). exists [], t2, w, es, c, st. rewrite app_nil_r. split; [done|].
  split; [destruct es; cbn [recv_up_to]; rewrite (used_sess l), (proj2 (Z.ltb_ge _ _)), Ep by lia; cbn [mbind option_bind]; rewrite (roomy_in _ _ _ _ _ _ _ _ _ _ _ Hin); by rewrite (parsed_sess l), (proj2 (Z.leb_le p size))|]. split; [split; [done|split; [done|rewrite Et2 in H3; exact H3]]|done].
Qed.
Lemma up_to_chunk size rs ev h : m_ChunkedTransfer h = true -> 0 <= size -> forall es l t p r w c st,
  p <= size -> roomy l t r -> 1 <= zlen t -> size <= r + zlen l + zlen w <= limit -> Forall arrives es -> (length w <= length es)%nat ->
  exists a t' w' es' c' st', w = a ++ w' /\ recv_up_to on_event on_data malloc es size (sess l t p r rs w es ev c h st) = Some (true, sess (l ++ a) (0 :: t') size r rs w' es' ev c' h st') /\
    roomy (l ++ a) (0 :: t') r /\ size <= r + zlen (l ++ a) /\ Forall arrives es' /\ (length w' <= length es')%nat.
Proof.
  intros Hc Hs. induction es as [|e es IH]; intros l t p r w c st Hps Hroom Ht Hlim Hes Hw.
  all: destruct (Z.ltb_spec (r + zlen l) size) as [Hlt|Hge].
  2,4: by apply up_to_chunk_done.
  - destruct w; cbn in Hw, Hlim; lia.
  - apply Forall_cons in Hes as [He Hes]. destruct e as [n| |]; try done. cbn in He. cbn [recv_up_to]. rewrite (used_sess l), (proj2 (Z.ltb_lt _ _)) by lia.
    change (set_plan es (sess l t p r rs w (Got n :: es) ev c h st)) with (sess l t p r rs w es ev c h st).
    destruct (grow_spec l t p r rs w es ev c h st Hroom) as (t1 & -> & Hroom1 & Ht1). cbn [mbind option_bind].
    destruct (receive_spec l t1 p r rs w es ev c h st n Hroom1 Ht1 He ltac:(intros ->; cbn in Hlim; lia) ltac:(lia)) as (a & w' & t2 & Ew & Ha & -> & Hroom2 & Ht2). cbn [mbind option_bind].
    set (p' := Z.min _ size). change (set_stage HTTPCLIENT_EVENT_CONTENT_RECEIVING (set_parsed p' (sess (l ++ a) t2 p r rs w' es ev c h st))) with (sess (l ++ a) t2 p' r rs w' es ev c h HTTPCLIENT_EVENT_CONTENT_RECEIVING).
    change (m_ChunkedTransfer (m_ResponseHeader (sess (l ++ a) t2 p' r rs w' es ev c h HTTPCLIENT_EVENT_CONTENT_RECEIVING))) with (m_ChunkedTransfer h). rewrite Hc. cbn [mbind option_bind].
    match goal with |- context [ask _ (PNumber ?n) _ _] => destruct (ask_goes_on (l ++ a) t2 p' r rs w' es ev c h HTTPCLIENT_EVENT_CONTENT_RECEIVING n) as (c2 & ->) end.
    assert (Hal : (0 < length a)%nat) by (destruct a; [done|cbn; lia]). subst w. rewrite length_app in *. cbn [length] in Hw.
    destruct (IH (l ++ a) t2 p' r w' c2 HTTPCLIENT_EVENT_CONTENT_RECEIVING ltac:(unfold p'; lia) Hroom2 Ht2) as (b & t' & w'' & es' & c' & st' & -> & -> & Hroom3 & Hsz & Hes' & Hw'); [rewrite length_app; lia|done|lia|].
    exists (a ++ b), t', w'', es', c', st'. rewrite <- (app_assoc l a b) in *. split; [by rewrite app_assoc|done].
Qed.

(** The size line read and taken out. *)
Lemma chunk_tag pre hx d z u t w es ev c h st rs : size_line hx (zlen d) -> d <> [] ->
  u ++ w = hx ++ crlf_ ++ d ++ crlf_ ++ z -> roomy (pre ++ u) t 0 -> ready u t -> zlen (pre ++ u) + zlen w <= limit -> Forall arrives es -> (length w <= length es)%nat ->
  exists u2 t2 w1 es1, _RecvOneChunk on_event on_data malloc (sess (pre ++ u) t (zlen pre) 0 rs w es ev c h st) = chunk_content on_event on_data malloc (zlen d) (sess (pre ++ u2) t2 (zlen pre) 0 rs w1 es1 ev c h st) /\
    u2 ++ w1 = d ++ crlf_ ++ z /\ roomy (pre ++ u2) t2 0 /\ 2 <= zlen t2 /\ zlen (pre ++ u2) + zlen w1 <= limit /\ Forall arrives es1 /\ (length w1 <= length es1)%nat.
Proof.
  intros [Hx Hsx] Hd Ew Hroom Hready Hlim Hes Hw.
  assert (Hcalm : 0 + zlen pre + zlen hx + zlen crlf_ <= zlen (pre ++ u) \/ calm crlf_ u t).
  { destruct (decide (length (hx ++ crlf_) <= length u)%nat) as [Hin|Hout]; [left; rewrite !length_app in *; lia|right].
    destruct (app_cut u w (hx ++ crlf_) (d ++ crlf_ ++ z)) as (k & Ek & _); [rewrite Ew; by rewrite <- app_assoc|lia|]. apply (ready_calm u t k hx); [done|done| |done]. intros ->. rewrite app_nil_r in Ek. rewrite Ek in Hout. lia. }
  assert (Hroom0 := Hroom). destruct Hroom0 as (_ & _ & Hpool). rewrite !length_app in Hpool.
  destruct (RecvUntil_spec crlf_ pre u t 0 rs w es ev c h st pre hx (d ++ crlf_ ++ z)) as (a & w1 & t1 & es1 & -> & Hlen & E & Hroom1 & Hes1 & Hw1 & Ht1); try done.
  { unfold no_zero, crlf_. by repeat constructor. } { by rewrite Ew. } { by apply value_zero. } { by apply crlf_only_last. } { lia. }
  rewrite !Z.add_0_l in E. destruct (app_cut (hx ++ crlf_) (d ++ crlf_ ++ z) (u ++ a) w1) as (u2 & Eu2 & Ez); [by rewrite <- !app_assoc in *|rewrite !length_app in *; lia|].
  assert (El : (pre ++ u) ++ a = (pre ++ hx) ++ [13] ++ (10 :: u2)) by (rewrite <- !app_assoc, Eu2; by rewrite <- app_assoc). rewrite El in *. clear El Eu2 Hlen.
  destruct Hroom1 as (_ & Hl1 & Hp1). unfold limit in Hl1. rewrite !length_app in Hl1, Hp1. cbn [length] in Hl1, Hp1. destruct (lower_value hx Hx) as [Elow Hlow].
  unfold _RecvOneChunk. rewrite (roomy_in _ _ _ _ _ _ _ _ _ _ _ Hroom). cbn [assert_ mbind option_bind]. change (_RecvUntil on_event malloc [13; 10] false) with (_RecvUntil on_event malloc crlf_ false (C := C)). rewrite E. cbn [mbind option_bind]. rewrite (proj2 (Z.eqb_neq _ INFINITE)) by (unfold INFINITE; lia). change (_RecvBuffer_Parsed (sess (pre ++ u) t (zlen pre) 0 rs (a ++ w1) es ev c h st)) with (zlen pre).
  rewrite (put_mid (pre ++ hx) [13] [0] (10 :: u2)) by (done || rewrite length_app; lia). cbn [mbind option_bind]. rewrite <- (app_assoc pre hx).
  match goal with |- context [fetch (_RecvBufferPool ?s) _ _] => set (S1 := s) end.
  assert (Ef : fetch (_RecvBufferPool S1) (at_ S1 (zlen pre)) (zlen pre + zlen hx - zlen pre) = Some hx).
  { unfold S1, at_, sess. cbn [_RecvBufferPool _RecvBuffer_Removed]. rewrite <- !app_assoc. apply fetch_mid; lia. }
  rewrite Ef. cbn [mbind option_bind]. rewrite Elow. unfold S1. rewrite (put_mid pre hx (map lower hx) ([0] ++ 10 :: u2)) by (rewrite ?length_map; lia). cbn [mbind option_bind]. clear Ef S1.
  match goal with |- context [c_string (skipn (Z.to_nat (at_ ?s _)) _)] => set (S2 := s) end.
  assert (Es : c_string (skipn (Z.to_nat (at_ S2 (zlen pre))) (_RecvBufferPool S2)) = Some (map lower hx)).
  { unfold S2, at_, sess. cbn [_RecvBufferPool _RecvBuffer_Removed]. replace (Z.to_nat (zlen pre - 0)) with (length pre) by lia. rewrite <- !app_assoc, skipn_app, skipn_all, Nat.sub_diag, skipn_O. cbn [app]. by apply c_string_app, value_zero. }
  rewrite Es. cbn [mbind option_bind]. rewrite Hsx. assert (Hdl : 0 < zlen d) by (destruct d; [done|cbn; lia]). rewrite (proj2 (Z.eqb_neq (zlen d) 0)) by lia.
  assert (Hlim2 : zlen pre + zlen hx + 2 + zlen u2 + zlen w1 <= 2 ^ 28 /\ zlen u2 + zlen w1 = zlen d + 2 + zlen z).
  { assert (Hz := f_equal length Ez). rewrite !length_app in Hz. change (length crlf_) with 2%nat in Hz. assert (Hw0 := f_equal length Ew). rewrite !length_app in Hw0. change (length crlf_) with 2%nat in Hw0.
    unfold limit in Hlim. rewrite !length_app in Hlim. lia. }
  destruct Hlim2 as [Hlim2 Hz]. change (_RecvBuffer_Used S2) with (0 + zlen (pre ++ map lower hx ++ [0] ++ 10 :: u2)). rewrite !length_app, length_map. cbn [length].
  rewrite (u32_id (zlen pre + zlen hx - zlen pre + 2)) by lia. rewrite (u32_id (_ - (zlen pre + zlen hx - zlen pre + 2))) by lia. rewrite (u32_id (zlen pre + zlen hx + 2)) by lia.
  rewrite (u32_id (_ - zlen pre)) by lia.
  assert (Em : move (_RecvBufferPool S2) (at_ S2 (zlen pre)) (at_ S2 (zlen pre + zlen hx + 2)) (0 + Z.of_nat (length pre + (length hx + (1 + S (length u2)))) - (zlen pre + zlen hx - zlen pre + 2) - zlen pre) =
    Some (pre ++ u2 ++ skipn (length u2) ((map lower hx ++ [0; 10]) ++ u2) ++ t1)).
  { unfold S2, at_, sess. cbn [_RecvBufferPool _RecvBuffer_Removed]. replace ((pre ++ map lower hx ++ [0] ++ 10 :: u2) ++ t1) with (pre ++ (map lower hx ++ [0; 10]) ++ u2 ++ t1) by (by rewrite <- !app_assoc).
    apply move_left; rewrite ?length_app, ?length_map; cbn [length]; lia. }
  rewrite Em. cbn [mbind option_bind]. set (t2 := skipn (length u2) _ ++ t1).
  assert (Ht2l : zlen t2 = zlen hx + 2 + zlen t1) by (unfold t2; rewrite length_app, length_skipn, !length_app, length_map; cbn [length]; lia).
  replace (0 + Z.of_nat (length pre + (length hx + (1 + S (length u2)))) - (zlen pre + zlen hx - zlen pre + 2)) with (0 + zlen (pre ++ u2)) by (rewrite length_app; lia).
  assert (ES : set_buffer (pre ++ u2 ++ t2) (0 + zlen (pre ++ u2)) (zlen pre) S2 = sess (pre ++ u2) t2 (zlen pre) 0 rs w1 es1 ev c h st) by (unfold S2, set_buffer, sess; cbn; by rewrite <- app_assoc).
  rewrite ES. exists u2, t2, w1, es1. split; [done|]. split; [by rewrite <- Ez|]. split; [unfold roomy, limit; rewrite length_app; lia|]. split; [lia|]. split; [unfold limit; rewrite length_app; lia|]. by split.
Qed.
(** One chunk. *)
Lemma chunk_spec pre hd bp hx d z u t w es ev c h st rs : pre = hd ++ bp -> zlen hd = rs -> 0 < rs -> m_ChunkedTransfer h = true -> size_line hx (zlen d) -> d <> [] ->
  u ++ w = hx ++ crlf_ ++ d ++ crlf_ ++ z -> roomy (pre ++ u) t 0 -> ready u t -> zlen (pre ++ u) + zlen w <= limit -> Forall arrives es -> (length w <= length es)%nat ->
  exists u' t' w' es' c' st', _RecvOneChunk on_event on_data malloc (sess (pre ++ u) t (zlen pre) 0 rs w es ev c h st) = Some (zlen d, sess ((pre ++ d) ++ u') t' (zlen (pre ++ d)) 0 rs w' es' ev c' h st') /\
    u' ++ w' = z /\ roomy ((pre ++ d) ++ u') t' 0 /\ ready u' t' /\ Forall arrives es' /\ (length w' <= length es')%nat.
Proof.
  intros Hpre Hhd Hrs Hc Hx Hd Ew Hroom Hready Hlim Hes Hw.
  destruct (chunk_tag pre hx d z u t w es ev c h st rs Hx Hd Ew Hroom Hready Hlim Hes Hw) as (u2 & t2 & w1 & es1 & -> & Ez & Hroom2 & Ht2l & Hlim2 & Hes1 & Hw1).
  assert (Hdl : 0 < zlen d) by (destruct d; [done|cbn; lia]). assert (Hz := f_equal length Ez). rewrite !length_app in Hz. change (length crlf_) with 2%nat in Hz. assert (Hp2 := proj2 (proj2 Hroom2)). unfold limit in Hlim2. rewrite length_app in Hlim2, Hp2.
  unfold chunk_content. change (_RecvBuffer_Parsed (sess (pre ++ u2) t2 (zlen pre) 0 rs w1 es1 ev c h st)) with (zlen pre). rewrite (u32_id (zlen pre + zlen d)), (u32_id (zlen pre + zlen d + 2)) by lia.
  destruct (up_to_chunk (zlen pre + zlen d + 2) rs ev h Hc ltac:(lia) es1 (pre ++ u2) t2 (zlen pre) 0 w1 c st ltac:(lia) Hroom2) as (a2 & t3 & w2 & es2 & c2 & st2 & Ew2 & E2 & Hroom3 & Hsz & Hes2 & Hw2); [lia|unfold limit; rewrite length_app; lia|done|done|].
  unfold _RecvUpTo. rewrite (roomy_in _ _ _ _ _ _ _ _ _ _ _ Hroom2). cbn [assert_ mbind option_bind]. change (plan (sess (pre ++ u2) t2 (zlen pre) 0 rs w1 es1 ev c h st)) with es1. rewrite E2. cbn [mbind option_bind]. clear E2.
  rewrite Ew2 in Ez. destruct (app_cut (d ++ crlf_) z (u2 ++ a2) w2) as (u3 & Eu3 & Ez3); [rewrite <- !app_assoc; by rewrite <- Ez|rewrite !length_app in *; change (length crlf_) with 2%nat; lia|].
  assert (El3 : (pre ++ u2) ++ a2 = (pre ++ d) ++ crlf_ ++ u3) by (rewrite <- !app_assoc, Eu3; by rewrite <- app_assoc). rewrite El3 in *. destruct Hroom3 as (_ & Hl3 & Hp3). unfold limit in Hl3. rewrite !length_app in Hl3, Hp3. change (length crlf_) with 2%nat in Hl3, Hp3. cbn [length] in Hp3.
  match goal with |- context [move (_RecvBufferPool ?s) _ _ _] => set (S3 := s) end. change (_RecvBuffer_Parsed S3) with (zlen pre + zlen d + 2). change (_RecvBuffer_Used S3) with (0 + zlen ((pre ++ d) ++ crlf_ ++ u3)).
  rewrite !(u32_id (zlen pre + zlen d + 2 - 2)) by lia. rewrite (u32_id (_ - (zlen pre + zlen d + 2))) by (rewrite !length_app; change (length crlf_) with 2%nat; lia).
  assert (Em : move (_RecvBufferPool S3) (at_ S3 (zlen pre + zlen d + 2 - 2)) (at_ S3 (zlen pre + zlen d + 2)) (0 + zlen ((pre ++ d) ++ crlf_ ++ u3) - (zlen pre + zlen d + 2)) =
    Some ((pre ++ d) ++ u3 ++ skipn (length u3) (crlf_ ++ u3) ++ 0 :: t3)).
  { unfold S3, at_, sess. cbn [_RecvBufferPool _RecvBuffer_Removed]. rewrite <- (app_assoc (pre ++ d)), <- (app_assoc crlf_). apply move_left; rewrite ?length_app; change (length crlf_) with 2%nat; lia. }
  rewrite Em. cbn [mbind option_bind]. rewrite (u32_id (_ - 2)) by (rewrite !length_app; change (length crlf_) with 2%nat; lia). set (t4 := skipn (length u3) (crlf_ ++ u3) ++ 0 :: t3).
  replace (0 + zlen ((pre ++ d) ++ crlf_ ++ u3) - 2) with (0 + zlen ((pre ++ d) ++ u3)) by (rewrite !length_app; change (length crlf_) with 2%nat; lia). replace (zlen pre + zlen d + 2 - 2) with (zlen (pre ++ d)) by (rewrite length_app; lia).
  assert (ES : set_buffer ((pre ++ d) ++ u3 ++ t4) (0 + zlen ((pre ++ d) ++ u3)) (zlen (pre ++ d)) S3 = sess ((pre ++ d) ++ u3) t4 (zlen (pre ++ d)) 0 rs w2 es2 ev c2 h st2) by (unfold S3, set_buffer, sess; cbn; by rewrite <- (app_assoc (pre ++ d))).
  rewrite ES. clear ES Em S3.
  assert (Ht4 : zlen t4 = 2 + zlen (0 :: t3)) by (unfold t4; rewrite length_app, length_skipn, length_app; change (length crlf_) with 2%nat; lia). cbn [length] in Ht4.
  assert (Hroom4 : roomy ((pre ++ d) ++ u3) t4 0) by (unfold roomy, limit; rewrite !length_app; lia).
  assert (Ehd : (pre ++ d) ++ u3 = hd ++ (bp ++ d ++ u3)) by (rewrite Hpre, <- !app_assoc; done). rewrite Ehd in Hroom4 |- *.
  destruct (probe_kept hd (bp ++ d ++ u3) t4 (zlen (pre ++ d)) rs w2 es2 ev c2 h st2 false Hroom4 Hhd) as (c3 & ->); [rewrite Hpre, !length_app; lia..|]. cbn [mbind option_bind].
  rewrite <- Ehd in Hroom4 |- *. exists u3, t4, w2, es2, c3, st2. split; [by rewrite (length_app pre d)|]. split; [by rewrite Ez3|]. split; [done|]. split; [left; by exists t3|]. split; [done|]. rewrite Ew2, length_app in Hw1. done.
Qed.

(** *** The end of the chunks *)

Definition chunk_text (c : list Z * list Z) : list Z := fst c ++ crlf_ ++ snd c ++ crlf_.
Definition chunks_text (cs : list (list Z * list Z)) : list Z := concat (map chunk_text cs).
Definition last_chunk : list Z := [48; 13; 10].
Definition chunk_ok (c : list Z * list Z) : Prop := size_line (fst c) (zlen (snd c)) /\ snd c <> [].

Lemma last_spec pre z u t w es ev c h st rs : u ++ w = last_chunk ++ z -> roomy (pre ++ u) t 0 -> ready u t -> zlen (pre ++ u) + zlen w <= limit -> Forall arrives es -> (length w <= length es)%nat ->
  exists u' t' w' es', _RecvOneChunk on_event on_data malloc (sess (pre ++ u) t (zlen pre) 0 rs w es ev c h st) = Some (0, sess (pre ++ u') t' (zlen pre) 0 rs w' es' ev c h st) /\ roomy (pre ++ u') t' 0.
Proof.
  intros Ew Hroom Hready Hlim Hes Hw. assert (Hv : Forall value_char [48]) by (repeat constructor; unfold value_char; lia).
  assert (Hcalm : 0 + zlen pre + 1 + zlen crlf_ <= zlen (pre ++ u) \/ calm crlf_ u t).
  { destruct (decide (3 <= length u)%nat) as [Hin|Hout]; [left; rewrite length_app; cbn; lia|right].
    destruct (app_cut u w last_chunk z Ew) as (k & Ek & _); [cbn; lia|]. apply (ready_calm u t k [48]); [done|done| |done]. intros ->. rewrite app_nil_r in Ek. rewrite <- Ek in Hout. cbn in Hout. lia. }
  destruct (RecvUntil_spec crlf_ pre u t 0 rs w es ev c h st pre [48] z) as (a & w1 & t1 & es1 & -> & Hlen & E & Hroom1 & Hes1 & Hw1 & Ht1); try done.
  { unfold no_zero, crlf_. by repeat constructor. } { by rewrite Ew. } { by repeat constructor. } { by apply crlf_only_last. } { cbn; lia. }
  rewrite !Z.add_0_l in E. destruct (app_cut last_chunk z (u ++ a) w1) as (u2 & Eu2 & Ez); [by rewrite <- app_assoc|rewrite !length_app in *; cbn in *; lia|].
  assert (El : (pre ++ u) ++ a = pre ++ [48] ++ ([13] ++ (10 :: u2))) by (rewrite <- app_assoc, Eu2; done). rewrite El in *. clear El Eu2 Hlen. assert (Hr1 := Hroom1).
  destruct Hr1 as (_ & Hl1 & Hp1). unfold limit in Hl1. rewrite length_app in Hl1, Hp1. cbn [length app] in Hl1, Hp1.
  unfold _RecvOneChunk. rewrite (roomy_in _ _ _ _ _ _ _ _ _ _ _ Hroom). cbn [assert_ mbind option_bind]. change (_RecvUntil on_event malloc [13; 10] false) with (_RecvUntil on_event malloc crlf_ false (C := C)). rewrite E. cbn [mbind option_bind]. change (zlen [48]) with 1. rewrite (proj2 (Z.eqb_neq _ INFINITE)) by (unfold INFINITE; lia).
  change (_RecvBuffer_Parsed (sess (pre ++ u) t (zlen pre) 0 rs (a ++ w1) es ev c h st)) with (zlen pre). rewrite (app_assoc pre [48]).
  rewrite (put_mid (pre ++ [48]) [13] [0] (10 :: u2)) by (done || (rewrite length_app; cbn; lia)). cbn [mbind option_bind]. rewrite <- (app_assoc pre [48]).
  match goal with |- context [fetch (_RecvBufferPool ?s) _ _] => set (S1 := s) end.
  assert (Ef : fetch (_RecvBufferPool S1) (at_ S1 (zlen pre)) (zlen pre + 1 - zlen pre) = Some [48]).
  { unfold S1, at_, sess. cbn [_RecvBufferPool _RecvBuffer_Removed]. rewrite <- app_assoc. apply (fetch_mid pre [48]); cbn; lia. }
  rewrite Ef. cbn [mbind option_bind]. change (map (fun c => u8 (lower (s8 c))) [48]) with [48]. unfold S1. rewrite (put_mid pre [48] [48] ([0] ++ 10 :: u2)) by (done || lia). cbn [mbind option_bind]. clear Ef S1.
  match goal with |- context [c_string (skipn (Z.to_nat (at_ ?s _)) _)] => set (S2 := s) end.
  assert (Es : c_string (skipn (Z.to_nat (at_ S2 (zlen pre))) (_RecvBufferPool S2)) = Some [48]).
  { unfold S2, at_, sess. cbn [_RecvBufferPool _RecvBuffer_Removed]. replace (Z.to_nat (zlen pre - 0)) with (length pre) by lia. rewrite <- app_assoc, skipn_app, skipn_all, Nat.sub_diag, skipn_O. done. }
  rewrite Es. cbn [mbind option_bind]. change (scan_x [48]) with (Some 0). cbn iota. change (0 =? 0) with true. cbn iota. change (_RecvBuffer_Parsed S2) with (zlen pre + 1 + zlen crlf_). change (zlen crlf_) with 2. rewrite u32_id by lia.
  assert (Hroom2 : roomy (pre ++ [48] ++ [0] ++ 10 :: u2) t1 0) by (unfold roomy, limit; rewrite length_app; cbn [app length]; lia).
  assert (ES : set_parsed (zlen pre + 1 + 2 - 3) S2 = sess (pre ++ [48] ++ [0] ++ 10 :: u2) t1 (zlen pre) 0 rs w1 es1 ev c h st) by (unfold S2, set_parsed, set_buffer, sess; cbn; f_equal; lia).
  rewrite ES, (roomy_in _ _ _ _ _ _ _ _ _ _ _ Hroom2). cbn [assert_ mbind option_bind]. by exists ([48] ++ [0] ++ 10 :: u2), t1, w1, es1.
Qed.

Lemma chunk_loop_spec hd rs ev h z : zlen hd = rs -> 0 < rs -> m_ChunkedTransfer h = true -> forall cs fuel bp u t w es c st, Forall chunk_ok cs -> (length cs < fuel)%nat ->
  u ++ w = chunks_text cs ++ last_chunk ++ z -> roomy ((hd ++ bp) ++ u) t 0 -> ready u t -> zlen ((hd ++ bp) ++ u) + zlen w <= limit -> Forall arrives es -> (length w <= length es)%nat ->
  exists u' t' w' es' c' st', chunk_loop on_event on_data malloc fuel (sess ((hd ++ bp) ++ u) t (zlen (hd ++ bp)) 0 rs w es ev c h st) =
      Some (true, sess ((hd ++ bp ++ concat (map snd cs)) ++ u') t' (zlen (hd ++ bp ++ concat (map snd cs))) 0 rs w' es' ev c' h st') /\ roomy ((hd ++ bp ++ concat (map snd cs)) ++ u') t' 0.
Proof.
  intros Hhd Hrs Hc. induction cs as [|[hx d] cs IH]; intros fuel bp u t w es c st Hok Hf Ew Hroom Hready Hlim Hes Hw; (destruct fuel as [|fuel]; [cbn in Hf; lia|]); cbn [chunk_loop].
  - destruct (last_spec (hd ++ bp) z u t w es ev c h st rs Ew Hroom Hready Hlim Hes Hw) as (u' & t' & w' & es' & -> & Hr'). cbn [mbind option_bind map concat]. change (0 =? 0) with true. cbn iota.
    exists u', t', w', es', c, st. by rewrite app_nil_r.
  - apply Forall_cons in Hok as [[Hx Hd] Hok]. cbn [fst snd] in Hx, Hd. unfold chunks_text in Ew. cbn [map concat] in Ew. unfold chunk_text at 1 in Ew. cbn [fst snd] in Ew. rewrite <- !app_assoc in Ew.
    destruct (chunk_spec (hd ++ bp) hd bp hx d (chunks_text cs ++ last_chunk ++ z) u t w es ev c h st rs eq_refl Hhd Hrs Hc Hx Hd Ew Hroom Hready Hlim Hes Hw) as (u1 & t1 & w1 & es1 & c1 & st1 & -> & Ew1 & Hroom1 & Hready1 & Hes1 & Hw1).
    cbn [mbind option_bind]. assert (Hdl : 0 < zlen d) by (destruct d; [done|cbn; lia]). assert (Hl := f_equal length Ew). rewrite !length_app in Hl. unfold limit in Hlim. rewrite !length_app in Hlim. assert (Hl1 := f_equal length Ew1). rewrite !length_app in Hl1. unfold chunks_text in Hl1.
    rewrite (proj2 (Z.eqb_neq _ 0)), (proj2 (Z.eqb_neq _ INFINITE)) by (unfold INFINITE; lia).
    rewrite <- (app_assoc hd bp d) in *. destruct (IH fuel (bp ++ d) u1 t1 w1 es1 c1 st1 Hok) as (u' & t' & w' & es' & c' & st' & -> & Hr'); try done; [cbn in Hf; lia|unfold limit; rewrite !length_app; lia|].
    cbn [map concat snd]. exists u', t', w', es', c', st'. by rewrite <- (app_assoc bp d) in *.
Qed.
End Chunks.

(** *** The header *)

Definition blank_line_ : list Z := [13; 10; 13; 10].
Lemma head_only_last ls : Forall (fun l => l <> [] /\ Forall value_char l) ls -> only_last blank_line_ (lines_text crlf_ ls ++ crlf_).
Proof.
  induction ls as [|l ls IH]; intros Hls a b E.
  - apply (f_equal length) in E. rewrite !length_app in E. cbn in E. lia.
  - apply Forall_cons in Hls as [[Hne Hl] Hls]. rewrite lines_text_cons, <- !app_assoc in E. destruct (decide (length l <= length a)%nat) as [Hin|Hout].
    + destruct (app_cut l (crlf_ ++ lines_text crlf_ ls ++ crlf_) a (blank_line_ ++ b) E Hin) as (k & -> & Ek). cbn [crlf_ blank_line_ app] in Ek. destruct k as [|x [|y k]]; cbn [app] in Ek.
      * injection Ek as Ek. destruct ls as [|l2 ls]; [cbn in Ek; by injection Ek|]. rewrite lines_text_cons, <- app_assoc in Ek. apply Forall_cons in Hls as [[Hne2 Hl2] _]. destruct l2 as [|c l2]; [done|].
        cbn [app] in Ek. injection Ek as -> _. apply Forall_cons in Hl2 as [Hc _]. unfold value_char in Hc. lia.
      * injection Ek as _ Ek. done.
      * injection Ek as _ _ Ek. by apply (IH Hls k b).
    + exfalso. apply (f_equal (fun l => nth (length a) l 0)) in E. rewrite app_nth1, app_nth2, Nat.sub_diag in E by lia. cbn in E.
      assert (Hin : In 13 l) by (rewrite <- E; apply nth_In; lia). rewrite List.Forall_forall in Hl. specialize (Hl 13 Hin). unfold value_char in Hl. lia.
Qed.
Lemma lines_last ls : ls <> [] -> exists x, lines_text crlf_ ls = x ++ crlf_.
Proof.
  destruct ls as [|l ls _] using rev_ind; [done|]. intros _. exists (lines_text crlf_ ls ++ l). unfold lines_text. rewrite map_app, concat_app. cbn. by rewrite app_nil_r, <- app_assoc.
Qed.
Lemma lines_zero ls : Forall (fun l => l <> [] /\ Forall value_char l) ls -> no_zero (lines_text crlf_ ls).
Proof.
  induction 1 as [|l ls [_ Hl] _ IH]; [constructor|]. rewrite lines_text_cons. apply Forall_app. split; [by apply value_zero|]. apply Forall_app. split; [by repeat constructor|done].
Qed.

(** What the event callback makes of its cookie. *)
Definition told (ev : bool) (c : C) (p : event_param) (e : Z) : C := if ev then fst (on_event c p e) else c.
Lemma tell_spec l t p r rs w es ev c h st q e : tell on_event q e (sess l t p r rs w es ev c h st) = sess l t p r rs w es ev (told ev c q e) h st.
Proof. unfold tell, told. by destruct ev. Qed.
Lemma move_same (l : list Z) n : n = zlen l -> forall t, move (l ++ t) 0 0 n = Some (l ++ t).
Proof. intros -> t. unfold move. assert (E : fetch (l ++ t) 0 (zlen l) = Some l) by exact (fetch_mid [] l t 0 (zlen l) eq_refl eq_refl). rewrite E. cbn [mbind option_bind]. by apply blit_front. Qed.

Definition http_ : list Z := str "HTTP/".
(** The beginning of the response. *)
Lemma first_token pool w es ev c st rest : w = http_ ++ rest -> zlen pool <= 2 ^ 30 -> zlen w <= limit -> Forall arrives es -> (length w <= length es)%nat ->
  exists u t w' es', _RecvUntil on_event malloc http_ true (sess [] pool 0 0 0 w es ev c zero_header st) = Some (0, sess (http_ ++ u) (0 :: t) 5 0 0 w' es' ev c zero_header st) /\
    u ++ w' = rest /\ roomy (http_ ++ u) (0 :: t) 0 /\ Forall arrives es' /\ (length w' <= length es')%nat.
Proof.
  intros Hrest Hpool Hlim Hes Hw. assert (Htok : http_ <> [] /\ no_zero http_ /\ zlen http_ = 5 /\ only_last http_ http_).
  { split; [done|]. split; [unfold no_zero; by repeat constructor|]. split; [done|]. intros a b E. apply (f_equal length) in E. rewrite !length_app in E. destruct b; [done|cbn in E; lia]. }
  destruct Htok as (Htok1 & Htok2 & Htok3 & Htok4).
  destruct (recv_until_spec http_ Htok1 Htok2 ltac:(lia) es [] [] pool 0 0 w ev c zero_header st [] [] rest)
    as (a1 & w1 & t1 & es1 & Ew1 & Hlen1 & E1 & Hroom1 & Hes1 & Hw1 & Ht1); [unfold roomy, limit; cbn [app length]; lia|cbn [app length]; lia|exact Hes|exact Hw|exact Hrest|constructor|exact Htok4|cbn [length]; lia|right; left; cbn [length]; lia|].
  cbn [app] in Ew1, Hlen1, E1, Hroom1, Ht1. change (zlen (@nil Z)) with 0 in Hlen1, E1. rewrite !Z.add_0_l, Htok3 in *.
  destruct Ht1 as [[-> _]|(t1' & ->)]; [cbn in Hlen1; lia|].
  destruct (app_cut http_ rest a1 w1) as (u1 & -> & Eu1); [by rewrite <- Ew1|lia|]. exists u1, t1', w1, es1. split; [|by split].
  unfold _RecvUntil. rewrite (roomy_in [] pool) by (unfold roomy, limit; cbn [length]; lia). cbn [assert_ mbind option_bind]. change (plan (sess [] pool 0 0 0 w es ev c zero_header st)) with es. rewrite E1. cbn [mbind option_bind]. change (0 =? INFINITE) with false. cbn [negb assert_ mbind option_bind]. set (S := sess (http_ ++ u1) (0 :: t1') 5 0 0 w1 es1 ev c zero_header st).
  assert (Hl1 := proj1 (proj2 Hroom1)). unfold limit in Hl1. change (_RecvBuffer_Used S) with (0 + zlen (http_ ++ u1)). change (_RecvBuffer_Parsed S) with 5. change (at_ S 0) with 0.
  change (_RecvBufferPool S) with ((http_ ++ u1) ++ 0 :: t1'). rewrite Z.add_0_l, !Z.sub_0_r, (u32_id (zlen (http_ ++ u1))), (u32_id 5), (move_same (http_ ++ u1) _ eq_refl) by lia. cbn [mbind option_bind].
  assert (ES : set_buffer ((http_ ++ u1) ++ 0 :: t1') (zlen (http_ ++ u1)) 5 S = sess (http_ ++ u1) (0 :: t1') 5 0 0 w1 es1 ev c zero_header st) by done. by rewrite ES, (roomy_in _ _ _ _ _ _ _ _ _ _ _ Hroom1).
Qed.

Lemma header_read pool ev c0 es major minor code reason fs rest fuel : 0 <= major < 2 ^ 31 -> 0 <= minor < 2 ^ 31 -> 0 <= code < 2 ^ 31 -> reason_ok reason -> fields_ok fs ->
  let status := status_line major minor code reason in let hd := head_text status fs ++ crlf_ in
  zlen pool <= 2 ^ 30 -> zlen (hd ++ rest) <= limit -> Forall arrives es -> (length (hd ++ rest) <= length es)%nat ->
  exists h bp t w es' c, ParseHeader zero_header (head_text status fs) = Some h /\ bp ++ w = rest /\ roomy (hd ++ bp) (0 :: t) 0 /\ Forall arrives es' /\ (length w <= length es')%nat /\
    c = told ev (told ev c0 PNull HTTPCLIENT_EVENT_FIRSTBYTE) (PHeader h) HTTPCLIENT_EVENT_HEADER_RECEIVED /\
    WaitResponse on_event on_data keep malloc fuel (requested pool ev c0 (hd ++ rest) es) =
      ('(ok, s) ← receive_body on_event on_data malloc fuel (zlen (head_text status fs)) (sess (hd ++ bp) (0 :: t) (zlen hd) 0 (zlen hd) w es' ev c h HTTPCLIENT_EVENT_HEADER_RECEIVED);
       if ok : bool then finish_response on_event on_data keep s else Some (false, s)).
Proof.
  intros Ha Hb Hc Hr Hfs status hd Hpool Hlim Hes Hw. destruct (header_parsed zero_header major minor code reason fs eq_refl Ha Hb Hc Hr Hfs) as (h & Eh & _). fold status in Eh.
  set (ls := status :: map field_text fs). assert (Hls : Forall (fun l => l <> [] /\ Forall value_char l) ls).
  { constructor; [split; [by unfold status, status_line|apply status_chars; lia || done]|]. rewrite Forall_map. eapply Forall_impl; [exact (proj1 Hfs)|]. intros f Hf. split; [|by apply field_value_char]. unfold field_text. destruct (fst f); done. }
  destruct (lines_last ls) as (hh & Ehh); [done|]. assert (Ehd : head_text status fs = hh ++ crlf_) by exact Ehh.
  assert (Hstart : exists y, hh = http_ ++ y).
  { unfold head_text in Ehd. rewrite lines_text_cons in Ehd. unfold status, status_line in Ehd. fold http_ in Ehd. rewrite <- !app_assoc in Ehd. destruct (app_cut http_ _ hh crlf_ Ehd) as (y & -> & _); [|by exists y].
    apply (f_equal length) in Ehd. rewrite !length_app in Ehd. pose proof (length_decimal major) as Hd. change (length (http_)) with 5%nat in *. change (length crlf_) with 2%nat in Ehd. change (length [32]) with 1%nat in Ehd. clear - Ehd Hd. lia. }
  destruct Hstart as (y & ->). assert (Htot : hd = http_ ++ y ++ blank_line_) by (unfold hd; rewrite Ehd, <- !app_assoc; done).
  assert (Hz : no_zero (http_ ++ y)).
  { assert (H := lines_zero ls Hls). rewrite Ehh in H. by apply Forall_app in H as [H _]. }
  assert (Ho : only_last blank_line_ (y ++ blank_line_)).
  { apply (only_last_tail _ _ (http_) (y ++ blank_line_) (head_only_last ls Hls)). rewrite Ehh, <- !app_assoc. done. }
  change (requested pool ev c0 (hd ++ rest) es) with (sess [] pool 0 0 0 (hd ++ rest) es ev c0 zero_header 0).
  unfold WaitResponse. change (set_start 0 _) with (sess [] pool 0 0 0 (hd ++ rest) es ev c0 zero_header HTTPCLIENT_EVENT_START_RECEIVING). fold http_.
  destruct (first_token pool (hd ++ rest) es ev c0 HTTPCLIENT_EVENT_START_RECEIVING (y ++ blank_line_ ++ rest)) as (u1 & t1 & w1 & es1 & -> & Eu1 & Hroom1 & Hes1 & Hw1); [by rewrite Htot, <- !app_assoc|done..|]. cbn [mbind option_bind].
  change (negb (0 =? 0)) with false. cbn iota. rewrite tell_spec. set (c1 := told ev c0 PNull HTTPCLIENT_EVENT_FIRSTBYTE).
  change (set_stage HTTPCLIENT_EVENT_FIRSTBYTE (sess (http_ ++ u1) (0 :: t1) 5 0 0 w1 es1 ev c1 zero_header HTTPCLIENT_EVENT_START_RECEIVING)) with (sess (http_ ++ u1) (0 :: t1) (0 + zlen http_) 0 0 w1 es1 ev c1 zero_header HTTPCLIENT_EVENT_FIRSTBYTE).
  assert (Hlen : zlen (http_ ++ u1) + zlen w1 = zlen (hd ++ rest)) by (assert (Hl := f_equal length Eu1); rewrite !length_app in *; rewrite Htot, !length_app; lia).
  destruct (RecvUntil_spec blank_line_ http_ u1 (0 :: t1) 0 0 w1 es1 ev c1 zero_header HTTPCLIENT_EVENT_FIRSTBYTE http_ y rest) as (a2 & w2 & t2 & es2 & -> & Hlen2 & E2 & Hroom2 & Hes2 & Hw2 & Ht2); [done|unfold no_zero; by repeat constructor|by cbn|exact Hroom1|lia|exact Hes1|exact Hw1|by rewrite <- Eu1| |exact Ho|lia|right; right; exists [], t1; split; [done|by left]|].
  { by apply Forall_app in Hz as [_ Hz]. }
  change (_RecvUntil on_event malloc [13; 10; 13; 10] false) with (_RecvUntil on_event malloc blank_line_ false (C := C)). rewrite E2. cbn [mbind option_bind]. clear E2.
  destruct (app_cut hd rest ((http_ ++ u1) ++ a2) w2) as (bp & Ebp & Erest); [by rewrite Htot, <- !app_assoc, Eu1|assert (Hl := f_equal length Htot); rewrite !length_app in Hl; lia|]. rewrite Ebp in *.
  assert (Hl2 := proj1 (proj2 Hroom2)). unfold limit in Hl2. set (n := zlen (head_text status fs)). assert (Hn : zlen (http_ ++ y) + 2 = n) by (unfold n; rewrite Ehd, !length_app; change (length crlf_) with 2%nat; lia). assert (Hhd : zlen hd = n + 2) by (unfold hd, n; rewrite length_app; change (length crlf_) with 2%nat; lia). rewrite length_app in Hn.
  assert (Hln : n + 2 <= 2 ^ 28) by (rewrite length_app in Hl2; lia). rewrite (proj2 (Z.eqb_neq _ INFINITE)) by (unfold INFINITE; lia). replace (0 + zlen http_ + zlen y + 2) with n by lia. replace (0 + zlen http_ + zlen y + zlen blank_line_) with (zlen hd) by (change (zlen blank_line_) with 4; lia). rewrite (u32_id n), (u32_id (n + 2)) by lia.
  assert (Hsplit : hd ++ bp = head_text status fs ++ [13] ++ (10 :: bp)) by (unfold hd; by rewrite <- app_assoc). rewrite Hsplit.
  assert (Ht2' : exists t3, t2 = 0 :: t3) by (destruct Ht2 as [[_ ->]|Ht2]; [by eexists|done]). destruct Ht2' as (t3 & ->).
  match goal with |- context [fetch (_RecvBufferPool ?s) _ _] => set (S1 := s) end.
  assert (Ef : fetch (_RecvBufferPool S1) (at_ S1 n) 1 = Some [13]).
  { unfold S1, at_, sess. cbn [_RecvBufferPool _RecvBuffer_Removed]. rewrite <- app_assoc. apply (fetch_mid _ [13] _ _ 1); [unfold n; lia|done]. }
  rewrite Ef. cbn [mbind option_bind]. unfold S1. rewrite (put_mid (head_text status fs) [13] [0] (10 :: bp)) by (done || (unfold n; lia)). cbn [mbind option_bind]. clear Ef S1.
  match goal with |- context [c_string (_RecvBufferPool ?s)] => set (S2 := s) end.
  assert (Es : c_string (_RecvBufferPool S2) = Some (head_text status fs)).
  { unfold S2, sess. cbn [_RecvBufferPool]. rewrite <- app_assoc. cbn [app]. apply c_string_app. rewrite Ehd. apply Forall_app. split; [done|by repeat constructor]. }
  rewrite Es. cbn [mbind option_bind]. change (m_ResponseHeader S2) with zero_header. rewrite Eh. cbn [mbind option_bind]. unfold S2.
  change (set_header h (sess (head_text status fs ++ [0] ++ 10 :: bp) (0 :: t3) (zlen hd) 0 0 w2 es2 ev c1 zero_header HTTPCLIENT_EVENT_FIRSTBYTE)) with (sess (head_text status fs ++ [0] ++ 10 :: bp) (0 :: t3) (zlen hd) 0 0 w2 es2 ev c1 h HTTPCLIENT_EVENT_FIRSTBYTE).
  rewrite tell_spec. set (c2 := told ev c1 (PHeader h) HTTPCLIENT_EVENT_HEADER_RECEIVED).
  change (set_stage HTTPCLIENT_EVENT_HEADER_RECEIVED (sess (head_text status fs ++ [0] ++ 10 :: bp) (0 :: t3) (zlen hd) 0 0 w2 es2 ev c2 h HTTPCLIENT_EVENT_FIRSTBYTE)) with (sess (head_text status fs ++ [0] ++ 10 :: bp) (0 :: t3) (zlen hd) 0 0 w2 es2 ev c2 h HTTPCLIENT_EVENT_HEADER_RECEIVED).
  rewrite (put_mid (head_text status fs) [0] [13] (10 :: bp)) by (done || (unfold n; lia)). cbn [mbind option_bind]. clear Es S2. rewrite <- Hsplit. rewrite <- Hhd.
  exists h, bp, t3, w2, es2, c2. done.
Qed.

(** *** The body *)

Section Body.
Context {client : Consumer on_event on_data}.

(** What has been taken, and what remains, is the body. *)
Definition received (d : list Z) (s : session C) : Prop :=
  exists o, response_bytes s = Some o /\ taken (cookie s) ++ default [] o = d.

Lemma finish_spec hd bp t p r rs w es ev c h st d rest : roomy (hd ++ bp) t r -> zlen hd = rs -> 0 < rs -> zlen (taken c) = r -> taken c ++ bp ++ w = d ++ rest -> p = rs + zlen d -> rs + r <= p <= rs + r + zlen bp ->
  exists s, finish_response on_event on_data keep (sess (hd ++ bp) t p r rs w es ev c h st) = Some (true, s) /\ m_ResponseHeader s = h /\ m_LastResponseStage s = HTTPCLIENT_EVENT_DONE /\ received d s.
Proof.
  intros Hroom Hh Hrs Htk Eall Hp Hpr. assert (Hr := Hroom). destruct Hr as (Hr & Hu & Hpl). unfold limit in Hu. rewrite length_app in Hu, Hpl.
  assert (Hfin : forall bp2 t2 r2 c2, roomy (hd ++ bp2) t2 r2 -> zlen (taken c2) = r2 -> taken c2 ++ bp2 ++ w = d ++ rest -> rs + r2 <= p <= rs + r2 + zlen bp2 ->
    exists s, (s ← (if ev then n ← GetResponseLength (sess (hd ++ bp2) t2 p r2 rs w es ev c2 h HTTPCLIENT_EVENT_DONE); Some (tell on_event (PNumber n) HTTPCLIENT_EVENT_DONE (sess (hd ++ bp2) t2 p r2 rs w es ev c2 h HTTPCLIENT_EVENT_DONE))
        else Some (sess (hd ++ bp2) t2 p r2 rs w es ev c2 h HTTPCLIENT_EVENT_DONE)); Some (true, if keep then s else CloseSocket s)) = Some (true, s) /\
      m_ResponseHeader s = h /\ m_LastResponseStage s = HTTPCLIENT_EVENT_DONE /\ received d s).
  { intros bp2 t2 r2 c2 Hroom2 Ht2 E2 Hp2. assert (H := Hroom2). destruct H as (H1 & H2 & H3). unfold limit in H2. rewrite length_app in H2, H3.
    assert (Hlen := fun c st => response_length hd bp2 t2 p r2 rs w es ev c h st Hroom2 ltac:(lia) ltac:(lia) (proj2 Hp2) (eq_sym Hh)).
    assert (H3t : exists c3, taken c3 = taken c2 /\ (if ev then n ← GetResponseLength (sess (hd ++ bp2) t2 p r2 rs w es ev c2 h HTTPCLIENT_EVENT_DONE); Some (tell on_event (PNumber n) HTTPCLIENT_EVENT_DONE (sess (hd ++ bp2) t2 p r2 rs w es ev c2 h HTTPCLIENT_EVENT_DONE))
        else Some (sess (hd ++ bp2) t2 p r2 rs w es ev c2 h HTTPCLIENT_EVENT_DONE)) = Some (sess (hd ++ bp2) t2 p r2 rs w es ev c3 h HTTPCLIENT_EVENT_DONE)).
    { destruct ev; [|by exists c2]. rewrite Hlen. cbn [mbind option_bind]. rewrite tell_spec. eexists. split; [|reflexivity]. unfold told. by rewrite taken_event. }
    destruct H3t as (c3 & Et & ->). cbn [mbind option_bind]. eexists. split; [reflexivity|]. split; [by destruct keep|]. split; [by destruct keep|].
    unfold received. set (S := sess (hd ++ bp2) t2 p r2 rs w es ev c3 h HTTPCLIENT_EVENT_DONE).
    assert (Eb : response_bytes (if keep then S else CloseSocket S) = response_bytes S) by (by destruct keep). assert (Ec : cookie (if keep then S else CloseSocket S) = c3) by (by destruct keep). rewrite Eb, Ec, Et.
    unfold response_bytes. destruct (Z.ltb_spec rs p) as [Hlt|Hge].
    - unfold S. rewrite response_at by (done || rewrite ?length_app; lia). rewrite Hlen. cbn [mbind option_bind]. change (_RecvBufferPool _) with ((hd ++ bp2) ++ t2).
      destruct (app_cut (taken c2) (bp2 ++ w) d rest E2) as (d2 & -> & E3); [lia|]. rewrite length_app in *. destruct (app_cut d2 rest bp2 w) as (k & -> & _); [done|lia|].
      assert (Ef : fetch ((hd ++ d2 ++ k) ++ t2) rs (p - rs - r2) = Some d2) by (rewrite <- !app_assoc; apply fetch_mid; lia). rewrite Ef. cbn [mbind option_bind]. eexists. split; [done|]. done.
    - exists None. split; [unfold GetResponse; change (_ResponseStart S <? _RecvBuffer_Parsed S) with (rs <? p); rewrite (proj2 (Z.ltb_ge rs p)) by lia; unfold S; by rewrite Hlen|]. destruct d; [|cbn [length] in *; lia]. cbn [length] in *. destruct (taken c2); [done|cbn [length] in *; lia]. }
  unfold finish_response. rewrite response_length by (done || lia). cbn [mbind option_bind].
  destruct (Z.eqb_spec (p - rs - r) 0) as [E0|E0]; cbn [mbind option_bind].
  - apply (Hfin bp t r c Hroom Htk Eall Hpr).
  - destruct (probe_spec hd bp t p r rs w es ev c h st true Hroom Hh) as (c2 & n & t2 & Hn & -> & Ht & Htl); [lia..|]. cbn [mbind option_bind]. apply (Hfin (drop (Z.to_nat n) bp) (t2 ++ t) (r + n) c2).
    + unfold roomy, limit. rewrite !length_app, length_skipn. lia.
    + rewrite Ht, length_app, length_firstn. lia.
    + rewrite Ht, <- Eall, <- !app_assoc. f_equal. by rewrite (app_assoc (firstn _ _)), firstn_skipn.
    + rewrite length_skipn. lia.
Qed.

(** The zero that is put behind the content. *)
Lemma put_size hd bp t p r rs w es ev c h st d rest : taken c ++ bp ++ w = d ++ rest -> zlen (taken c) = r -> p = zlen hd + zlen d -> zlen hd + r <= p <= zlen hd + r + zlen bp ->
  exists bp' rest', put (sess (hd ++ bp) (0 :: t) p r rs w es ev c h st) p [0] = Some (sess (hd ++ bp') (0 :: t) p r rs w es ev c h st) /\ zlen bp' = zlen bp /\ taken c ++ bp' ++ w = d ++ rest'.
Proof.
  intros E Ht -> Hp. destruct (app_cut (taken c) (bp ++ w) d rest E) as (d2 & -> & E2); [lia|]. rewrite length_app in *. destruct (app_cut d2 rest bp w) as (k & -> & Ek); [done|rewrite ?length_app in *; lia|]. destruct k as [|x k].
  - rewrite app_nil_r in *. exists d2, w. split; [|split; [done|by rewrite <- app_assoc]]. destruct (put_end (hd ++ d2) (0 :: t) (zlen hd + Z.of_nat (length (taken c) + length d2)) r rs w es ev c h st) as (t' & Et & Ep); [cbn; lia|].
    injection Et as <-. replace (zlen hd + Z.of_nat (length (taken c) + length d2)) with (r + zlen (hd ++ d2)) at 2 by (rewrite length_app; lia). exact Ep.
  - exists (d2 ++ 0 :: k), (0 :: k ++ w). split; [|split; [rewrite !length_app; done|by rewrite <- !app_assoc]]. rewrite !(app_assoc hd d2). change (x :: k) with ([x] ++ k). change (0 :: k) with ([0] ++ k).
    apply put_mid; [rewrite length_app; lia|done].
Qed.
End Body.
End Receive.
