(* ===== verification/HttpClient.v ===== *)
(** What a client of [HttpSession] gets: the body of a response of a given length or
    in chunks, in whatever pieces it arrives, and an error for a body that is cut. *)
From S2P Require Import Prelude Str StrScan StrBuf Macro CondText HttpHead HttpHeadSpec HttpRecv HttpSpec.

Abbreviation zlen l := (Z.of_nat (length l)).

Section Client.
Context {C : Type} (on_event : C -> event_param -> Z -> C * bool) (on_data : option (C -> option (list Z) -> Z -> bool -> C * Z)) (keep : bool) (malloc : Z -> option (list Z)).
Context {client : Consumer on_event on_data}.
Hypothesis malloc_ok : allocates malloc.
(** The session and the response. *)
Context (pool : list Z) (ev : bool) (c0 : C) (es : list event) (fuel : nat) (major minor code : Z) (reason : list Z) (fs : list field).
Hypotheses (c0_new : taken c0 = []) (pool_small : zlen pool <= 2 ^ 30) (es_arrive : Forall arrives es).
Hypotheses (Hmajor : 0 <= major < 2 ^ 31) (Hminor : 0 <= minor < 2 ^ 31) (Hcode : 0 <= code < 2 ^ 31) (Hreason : reason_ok reason) (Hfields : fields_ok fs).

Definition response_head : list Z := head_text (status_line major minor code reason) fs ++ crlf_.

(** Behind the header: what the header says, and the state in which the body is received. *)
Lemma body_begins body : zlen (response_head ++ body) <= limit -> (length (response_head ++ body) <= length es)%nat ->
  exists h bp t w es' c, ParseHeader zero_header (head_text (status_line major minor code reason) fs) = Some h /\
    m_ContentLength h = length_of fs /\ m_ChunkedTransfer h = chunked_of fs /\ bp ++ w = body /\ roomy (response_head ++ bp) (0 :: t) 0 /\
    Forall arrives es' /\ (length w <= length es')%nat /\ taken c = [] /\
    WaitResponse on_event on_data keep malloc fuel (requested pool ev c0 (response_head ++ body) es) =
      ('(ok, s) ← receive_body on_event on_data malloc fuel (zlen response_head - 2) (sess (response_head ++ bp) (0 :: t) (zlen response_head) 0 (zlen response_head) w es' ev c h HTTPCLIENT_EVENT_HEADER_RECEIVED);
       if ok : bool then finish_response on_event on_data keep s else Some (false, s)).
Proof.
  intros Hlim Hw. destruct (header_read on_event on_data keep malloc malloc_ok pool ev c0 es major minor code reason fs body fuel) as (h & bp & t & w & es' & c & Eh & Eb & Hroom & Hes & Hw' & Ec & E); try done.
  destruct (header_parsed zero_header major minor code reason fs eq_refl Hmajor Hminor Hcode Hreason Hfields) as (h' & Eh' & _ & _ & _ & Hl & Hc & _). rewrite Eh in Eh'. injection Eh' as <-.
  assert (Ehead : zlen response_head - 2 = zlen (head_text (status_line major minor code reason) fs)) by (unfold response_head; rewrite length_app; change (length crlf_) with 2%nat; lia).
  exists h, bp, t, w, es', c. do 7 (split; [done|]). split; [|rewrite Ehead; exact E].
  rewrite Ec. unfold told. destruct ev; [|done]. by rewrite !taken_event.
Qed.
Lemma head_len : 2 < zlen response_head.
Proof. unfold response_head, head_text. rewrite lines_text_cons, !length_app. change (length crlf_) with 2%nat. unfold status_line. rewrite length_app. change (length (str "HTTP/")) with 5%nat. lia. Qed.

Section Content.
Context (h : header) (d body bp t w : list Z) (es' : list event) (c : C).
Hypotheses (Hl : m_ContentLength h = zlen d) (Hc : m_ChunkedTransfer h = false) (Eb : bp ++ w = body) (Hroom : roomy (response_head ++ bp) (0 :: t) 0)
  (Hes : Forall arrives es') (Hw : (length w <= length es')%nat) (Htk : taken c = []) (Hlim : zlen (response_head ++ body) <= limit) (Hd : zlen response_head + zlen d <= limit).

(** [_RecvUpTo] decides. *)
Lemma content_body : receive_body on_event on_data malloc fuel (zlen response_head - 2) (sess (response_head ++ bp) (0 :: t) (zlen response_head) 0 (zlen response_head) w es' ev c h HTTPCLIENT_EVENT_HEADER_RECEIVED) =
  ('(ok, s) ← recv_up_to on_event on_data malloc es' (zlen response_head + zlen d) (sess (response_head ++ bp) (0 :: t) (zlen response_head) 0 (zlen response_head) w es' ev c h HTTPCLIENT_EVENT_HEADER_RECEIVED);
   if ok : bool then s ← put s (zlen response_head + zlen d) [0]; Some (true, s) else Some (false, protocol_error on_event HTTPCLIENT_EVENT_HEADER_RECEIVED s)).
Proof.
  clear Hlim. unfold limit in Hd. unfold receive_body. cbn [m_ResponseHeader sess]. rewrite Hc. unfold IsContentLengthKnown. rewrite Hl. rewrite (proj2 (Z.eqb_neq _ c_unknown)) by (unfold c_unknown; lia). cbn [negb].
  replace (zlen response_head - 2 + 2 + zlen d) with (zlen response_head + zlen d) by lia. rewrite u32_id by lia. unfold _RecvUpTo. by rewrite (roomy_in _ _ _ _ _ _ _ _ _ _ _ Hroom).
Qed.
Lemma content_done rest : body = d ++ rest ->
  exists s, ('(ok, s) ← receive_body on_event on_data malloc fuel (zlen response_head - 2) (sess (response_head ++ bp) (0 :: t) (zlen response_head) 0 (zlen response_head) w es' ev c h HTTPCLIENT_EVENT_HEADER_RECEIVED);
       if ok : bool then finish_response on_event on_data keep s else Some (false, s)) = Some (true, s) /\ m_ResponseHeader s = h /\ m_LastResponseStage s = HTTPCLIENT_EVENT_DONE /\ received on_event on_data d s.
Proof.
  intros ->. assert (Hn := head_len). assert (Hbl := f_equal length Eb). rewrite !length_app in *. rewrite content_body.
  assert (H := up_to_spec on_event on_data malloc malloc_ok (zlen response_head + zlen d) response_head (zlen response_head) ev h eq_refl ltac:(lia) Hd Hc es' bp (0 :: t) (zlen response_head) 0 w c HTTPCLIENT_EVENT_HEADER_RECEIVED ltac:(lia) Hroom ltac:(cbn; lia) ltac:(lia) ltac:(rewrite length_app; lia) Hes Hw ltac:(by rewrite Htk)).
  unfold all_bytes in H. rewrite Htk, Eb in H. cbn [app] in H. rewrite (proj2 (Z.leb_le _ _)) in H by (rewrite length_app; lia).
  destruct H as (bp' & t' & r' & w' & es2 & c' & st' & -> & Hroom' & Htk' & Eall & Hsz). cbn [mbind option_bind].
  destruct (put_size on_event on_data response_head bp' t' (zlen response_head + zlen d) r' (zlen response_head) w' es2 ev c' h st' d rest Eall Htk' eq_refl ltac:(lia)) as (bp2 & rest2 & -> & Hlen & Eall2). cbn [mbind option_bind].
  apply (finish_spec on_event on_data keep response_head bp2 (0 :: t') (zlen response_head + zlen d) r' (zlen response_head) w' es2 ev c' h st' d rest2); try done; try lia.
  destruct Hroom' as (H1 & H2 & H3). unfold roomy. rewrite !length_app in *. lia.
Qed.
Lemma content_missing : zlen body < zlen d ->
  exists s, ('(ok, s) ← receive_body on_event on_data malloc fuel (zlen response_head - 2) (sess (response_head ++ bp) (0 :: t) (zlen response_head) 0 (zlen response_head) w es' ev c h HTTPCLIENT_EVENT_HEADER_RECEIVED);
       if ok : bool then finish_response on_event on_data keep s else Some (false, s)) = Some (false, s) /\ connected s = false.
Proof.
  intros Hshort. assert (Hn := head_len). assert (Hbl := f_equal length Eb). rewrite !length_app in *. rewrite content_body.
  assert (H := up_to_spec on_event on_data malloc malloc_ok (zlen response_head + zlen d) response_head (zlen response_head) ev h eq_refl ltac:(lia) Hd Hc es' bp (0 :: t) (zlen response_head) 0 w c HTTPCLIENT_EVENT_HEADER_RECEIVED ltac:(lia) Hroom ltac:(cbn; lia) ltac:(lia) ltac:(rewrite length_app; lia) Hes Hw ltac:(by rewrite Htk)).
  unfold all_bytes in H. rewrite Htk, Eb in H. cbn [app] in H. rewrite (proj2 (Z.leb_gt _ _)) in H by lia. destruct H as (s & ->). cbn [mbind option_bind]. by eexists.
Qed.
End Content.

Lemma length_of_decimal n : 0 <= n <= limit -> field_value fs (str "content-length") = Some (decimal n) -> length_of fs = n.
Proof.
  intros Hn Hl. unfold limit in Hn. unfold length_of. rewrite Hl. assert (Hp := length_decimal n). assert (Hv := decimal_val n ltac:(lia)). destruct (decimal n); [cbn in Hp; lia|done].
Qed.

(** C5: a response whose fields are well formed ([fields_ok]) and give its length [n],
    not chunked, of at most 2^28 bytes in all ([limit]), of which [body] comes behind the
    header, in whatever pieces, before the connection closes, received by a client
    that does not cancel and that says truly what it takes out of the buffer
    ([Consumer]), while memory lasts: if the content has come, whatever follows it, the
    result is success, what the client has taken followed by what is still there is
    the content, and every field but the content type is found under its name; if it
    has not, the result is failure and the socket is closed. *)
Theorem content_received n body : chunked_of fs = false -> field_value fs (str "content-length") = Some (decimal n) -> 0 <= n ->
  zlen response_head + Z.max n (zlen body) <= limit -> (length (response_head ++ body) <= length es)%nat ->
  exists ok s, WaitResponse on_event on_data keep malloc fuel (requested pool ev c0 (response_head ++ body) es) = Some (ok, s) /\
    if n <=? zlen body then
      ok = true /\ received on_event on_data (firstn (Z.to_nat n) body) s /\ m_LastResponseStage s = HTTPCLIENT_EVENT_DONE /\
      m_StateCode (m_ResponseHeader s) = code /\ (forall name, zlist_eqb (str "content-type") (map lower name) = false ->
        text (m_RawHeader (m_ResponseHeader s)) <$> GetHeaderField (m_ResponseHeader s) name = field_value fs (map lower name))
    else ok = false /\ connected s = false.
Proof.
  intros Hc Hl Hn0 Hlim Hw. assert (Hlim' : zlen (response_head ++ body) <= limit) by (rewrite length_app; lia).
  assert (Hh := head_len). destruct (body_begins body Hlim' Hw) as (h & bp & t & w & es' & c & Eh & Hlen & Hch & Eb & Hroom & Hes & Hw' & Htk & E).
  rewrite E. rewrite (length_of_decimal n ltac:(lia) Hl) in Hlen. rewrite Hc in Hch. destruct (Z.leb_spec n (zlen body)) as [Hin|Hout].
  - assert (Ed : zlen (firstn (Z.to_nat n) body) = n) by (rewrite length_firstn; lia).
    destruct (content_done h (firstn (Z.to_nat n) body) body bp t w es' c ltac:(by rewrite Ed) Hch Eb Hroom Hes Hw' Htk Hlim' ltac:(lia) (skipn (Z.to_nat n) body) ltac:(by rewrite firstn_skipn)) as (s & Es & Hs & Hst & Hr).
    exists true, s. split; [exact Es|]. split; [done|]. split; [done|]. split; [done|]. rewrite Hs.
    destruct (header_parsed zero_header major minor code reason fs eq_refl Hmajor Hminor Hcode Hreason Hfields) as (h' & Eh' & Hco & _ & _ & _ & _ & _ & _ & Hf). rewrite Eh in Eh'. injection Eh' as <-. done.
  - assert (Ed : zlen (repeat 0 (Z.to_nat n)) = n) by (rewrite repeat_length; lia).
    destruct (content_missing h (repeat 0 (Z.to_nat n)) body bp t w es' c ltac:(by rewrite Ed) Hch Eb Hroom Hes Hw' Htk Hlim' ltac:(lia) ltac:(lia)) as (s & Es & Hs).
    exists false, s. by split; [exact Es|].
Qed.

(** C6: a response in chunks none of which is empty, with size lines that [sscanf]
    reads as the sizes, closed by a size line that is just a zero, whatever follows,
    received by a client that takes nothing out of the buffer (one that does can
    break it, [taken_chunk_runs_out]) and does not cancel, while memory lasts: the
    result is success and the response is the contents of the chunks. *)
Theorem chunks_received cs z : (forall c, taken c = []) -> chunked_of fs = true -> Forall chunk_ok cs -> (length cs < fuel)%nat ->
  let d := concat (map snd cs) in let body := chunks_text cs ++ last_chunk ++ z in
  zlen (response_head ++ body) <= limit -> (length (response_head ++ body) <= length es)%nat ->
  exists s, WaitResponse on_event on_data keep malloc fuel (requested pool ev c0 (response_head ++ body) es) = Some (true, s) /\
    received on_event on_data d s /\ m_LastResponseStage s = HTTPCLIENT_EVENT_DONE /\ m_StateCode (m_ResponseHeader s) = code.
Proof.
  intros Hkept Hc Hcs Hf d body Hlim Hw. destruct (body_begins body Hlim Hw) as (h & bp & t & w & es' & c & Eh & _ & Hch & Eb & Hroom & Hes & Hw' & Htk & E).
  rewrite E. clear E. rewrite Hc in Hch. assert (Hn := head_len). assert (Hbl := f_equal length Eb). rewrite !length_app in Hbl. unfold receive_body. cbn [m_ResponseHeader sess]. rewrite Hch.
  destruct (chunk_loop_spec on_event on_data malloc malloc_ok Hkept response_head (zlen response_head) ev h z eq_refl ltac:(lia) Hch cs fuel [] bp (0 :: t) w es' c HTTPCLIENT_EVENT_HEADER_RECEIVED Hcs Hf Eb) as (u' & t' & w' & es2 & c' & st' & E & Hroom').
  { by rewrite app_nil_r. } { right. by exists t. } { rewrite app_nil_r. rewrite !length_app in *. lia. } { done. } { done. }
  rewrite app_nil_r in E. cbn [app] in E, Hroom'. rewrite E. cbn [mbind option_bind]. fold d in Hroom' |- *. rewrite <- app_assoc in *.
  destruct (finish_spec on_event on_data keep response_head (d ++ u') t' (zlen (response_head ++ d)) 0 (zlen response_head) w' es2 ev c' h st' d (u' ++ w') Hroom' eq_refl) as (s & Es & Hs & Hst & Hr); [lia|by rewrite Hkept|by rewrite Hkept, <- app_assoc|rewrite length_app; lia|rewrite !length_app; lia|].
  exists s. split; [exact Es|]. split; [done|]. split; [done|]. rewrite Hs.
  destruct (header_parsed zero_header major minor code reason fs eq_refl Hmajor Hminor Hcode Hreason Hfields) as (h' & Eh' & Hco & _). rewrite Eh in Eh'. by injection Eh' as <-.
Qed.
End Client.

(** ** Clients *)

(** A client that is called and takes nothing, and one that takes everything it is shown. *)
Definition watch (seen : nat) (d : option (list Z)) (pos : Z) (fin : bool) : nat * Z := (S seen, 0).
Definition collect (got : list Z) (d : option (list Z)) (pos : Z) (fin : bool) : list Z * Z :=
  match d with Some l => (got ++ l, zlen l) | None => (got, 0) end.
Definition go_on {C} (c : C) (p : event_param) (e : Z) : C * bool := (c, true).
#[export, refine] Instance silent_client {C} : Consumer (@go_on C) None := {| taken _ := [] |}.
Proof. all: done. Defined.
#[export, refine] Instance watching_client : Consumer go_on (Some watch) := {| taken _ := [] |}.
Proof. 1-2: done. intros cb [= <-] c d pos fin. cbn. split; [lia|done]. Defined.
#[export, refine] Instance collecting_client : Consumer go_on (Some collect) := {| taken c := c |}.
Proof. 1-2: done. intros cb [= <-] c d pos fin. cbn. split; [lia|]. by rewrite Nat2Z.id, firstn_all. Defined.

Definition fresh_block (n : Z) : option (list Z) := Some (repeat 170 (Z.to_nat n)).
Lemma fresh_blocks : allocates fresh_block.
Proof. intros n Hn. eexists. split; [reflexivity|]. rewrite repeat_length. lia. Qed.

Definition sized (n : Z) : list field := [(str "Server", str "CPCF"); (str "Content-Length", decimal n)].
Definition in_chunks : list field := [(str "Transfer-Encoding", str "chunked")].
Ltac field_chars := repeat constructor; unfold name_char, value_char; try (vm_compute; intuition congruence); try (intros; simplify_eq; vm_compute; congruence).
Lemma sized_ok n : n = 2 \/ n = 5 \/ n = 9 -> fields_ok (sized n).
Proof.
  intros Hn. split; [|split].
  - unfold sized. destruct Hn as [-> |[-> | ->]]; field_chars.
  - intros c v E. unfold field_value in E. cbn in E. injection E as <-. exists n. split; [lia|]. by destruct Hn as [-> |[-> | ->]].
  - intros c v [=].
Qed.
Lemma in_chunks_ok : fields_ok in_chunks.
Proof.
  split; [field_chars|]. split; [intros c v [=]|].
  intros c v E. unfold field_value in E. cbn in E. by injection E as <-.
Qed.
Lemma OK_reason : reason_ok (str " OK").
Proof. split; [field_chars|]. intros c r [= <- _]. done. Qed.

Lemma arrivals n k : 1 <= n -> Forall arrives (repeat (Got n) k).
Proof. intros Hn. by apply List.Forall_forall; intros e ->%repeat_spec. Qed.
Definition small_pool : list Z := repeat 0 16.

Lemma content_received_witness :
  (exists s, WaitResponse go_on (Some collect) false fresh_block 9 (requested small_pool true [] (response_head 1 1 200 (str " OK") (sized 5) ++ str "hello") (repeat (Got 3) 100)) = Some (true, s) /\
    received go_on (Some collect) (str "hello") s) /\
  (exists s, WaitResponse go_on (Some collect) false fresh_block 9 (requested small_pool true [] (response_head 1 1 200 (str " OK") (sized 9) ++ str "hello") (repeat (Got 3) 100)) = Some (false, s) /\ connected s = false).
Proof.
  split.
  - assert (H := content_received go_on (Some collect) false fresh_block fresh_blocks small_pool true [] (repeat (Got 3) 100) 9 1 1 200 (str " OK") (sized 5) eq_refl ltac:(vm_compute; congruence)
      (arrivals 3 100 ltac:(lia)) ltac:(lia) ltac:(lia) ltac:(lia) OK_reason (sized_ok 5 ltac:(lia)) 5 (str "hello") eq_refl eq_refl ltac:(lia) ltac:(vm_compute; congruence) ltac:(vm_compute; lia)).
    destruct H as (ok & s & E & -> & Hr & _). exists s. exact (conj E Hr).
  - assert (H := content_received go_on (Some collect) false fresh_block fresh_blocks small_pool true [] (repeat (Got 3) 100) 9 1 1 200 (str " OK") (sized 9) eq_refl ltac:(vm_compute; congruence)
      (arrivals 3 100 ltac:(lia)) ltac:(lia) ltac:(lia) ltac:(lia) OK_reason (sized_ok 9 ltac:(lia)) 9 (str "hello") eq_refl eq_refl ltac:(lia) ltac:(vm_compute; congruence) ltac:(vm_compute; lia)).
    destruct H as (ok & s & E & -> & Hr). exists s. exact (conj E Hr).
Defined.
Definition two_chunks : list (list Z * list Z) := [(str "5", str "hello"); (str "0B;x", str " wide world")].
Lemma two_chunks_ok : Forall chunk_ok two_chunks.
Proof. repeat (constructor; [split; [split; [field_chars|by vm_compute]|done]|]). constructor. Qed.
Lemma chunks_received_witness : exists s, WaitResponse go_on (Some watch) false fresh_block 9 (requested small_pool true 0%nat (response_head 1 1 200 (str " OK") in_chunks ++ chunks_text two_chunks ++ last_chunk ++ crlf_) (repeat (Got 3) 100)) = Some (true, s) /\
  received go_on (Some watch) (str "hello wide world") s.
Proof.
  assert (H := chunks_received go_on (Some watch) false fresh_block fresh_blocks small_pool true 0%nat (repeat (Got 3) 100) 9 1 1 200 (str " OK") in_chunks eq_refl ltac:(vm_compute; congruence)
    (arrivals 3 100 ltac:(lia)) ltac:(lia) ltac:(lia) ltac:(lia) OK_reason in_chunks_ok two_chunks crlf_ (fun _ => eq_refl) eq_refl two_chunks_ok ltac:(cbn; lia) ltac:(vm_compute; congruence) ltac:(vm_compute; lia)).
  destruct H as (s & E & Hr & _). exists s. exact (conj E Hr).
Defined.
Lemma header_parsed_witness : exists h, ParseHeader zero_header (head_text (status_line 1 1 200 (str " OK")) (sized 5)) = Some h /\
  m_ContentLength h = 5 /\ text (m_RawHeader h) <$> GetHeaderField h (str "SERVER") = Some (str "CPCF").
Proof.
  destruct (header_parsed zero_header 1 1 200 (str " OK") (sized 5) eq_refl ltac:(lia) ltac:(lia) ltac:(lia) OK_reason (sized_ok 5 ltac:(lia))) as (h & E & _ & _ & _ & Hl & _ & _ & _ & Hf).
  exists h. split; [exact E|]. split; [rewrite Hl; reflexivity|]. rewrite Hf; reflexivity.
Defined.

(** ** Where the client goes wrong *)

Definition outcome {C} (r : option (bool * session C)) : option (bool * option (option (list Z)) * C) := (fun r => (fst r, response_bytes (snd r), cookie (snd r))) <$> r.
Definition turns n k := repeat (Got n) k.

(** Without a Content-Length one byte is taken for the content, until the connection closes or not. *)
Example no_length_one_byte : outcome (WaitResponse go_on None false fresh_block 9
  (requested small_pool true 0%nat (response_head 1 1 200 (str " OK") [(str "Connection", str "close")] ++ str "hello") (turns 3 100))) = Some (true, Some (Some (str "h")), 0%nat).
Proof. by vm_compute. Qed.

(** A connection lost between two chunks, and a line that is no size, look like the last chunk. *)
Example chunks_cut_unnoticed : outcome (WaitResponse go_on None false fresh_block 9
  (requested small_pool true 0%nat (response_head 1 1 200 (str " OK") in_chunks ++ chunk_text (str "5", str "hello")) (turns 3 100))) = Some (true, Some (Some (str "hello")), 0%nat).
Proof. by vm_compute. Qed.

(** A client that takes a chunk with a line break in it out of the buffer, when the
    first two bytes of the next size line have arrived: what is left behind the bytes
    received is found as the end of that line. *)
Definition line_break_chunks : list Z := response_head 1 1 200 (str " OK") in_chunks ++ chunks_text [(str "5", str "ab" ++ crlf_ ++ str "c"); (str "10", str "0123456789abcdef")] ++ last_chunk ++ crlf_.
Example taken_chunk_runs_out : outcome (WaitResponse go_on (Some collect) false fresh_block 9
  (requested small_pool false [] line_break_chunks ([Got 15; Got (zlen (response_head 1 1 200 (str " OK") in_chunks) + 12 - 15)] ++ turns 1 300))) = None.
Proof. by vm_compute. Qed.
Example kept_chunk_works : outcome (WaitResponse go_on (Some watch) false fresh_block 9
  (requested small_pool false 0%nat line_break_chunks ([Got 15; Got (zlen (response_head 1 1 200 (str " OK") in_chunks) + 12 - 15)] ++ turns 1 300))) = Some (true, Some (Some (str "ab" ++ crlf_ ++ str "c0123456789abcdef")), 3%nat).
Proof. by vm_compute. Qed.
